(* ===== verification/_CoqProject ===== *)
-Q . S2P
Prelude.v
Bytes.v
Sha256.v
CellModel.v
Builder.v
Finalize.v
BuilderSpec.v
BuilderOps.v
Slice.v
SliceSpec.v
Codec.v
CellHash.v
BuilderReach.v
SliceCompare.v
CellTheorems.v
DictLabel.v
DictLabelTheorems.v
DictTree.v
DictNode.v
DictNodeSpec.v
Dict.v
DictBulk.v
DictSpec.v
DictKeys.v
DictTheorems.v
DictBulkSort.v
DictBulkSpec.v
DictMultisetSpec.v
DictBulkTheorems.v
Checksums.v
BocIndex.v
BocIndexSpec.v
BocSerialize.v
BocParse.v
BocSpec.v
BocImport.v
BocOrder.v
BocWrite.v
BocCells.v
BocFinish.v
BocTheorems.v
Address.v
AddressTheorems.v
CellData.v
CellDataTheorems.v
Gas.v
Value.v
Stack.v
StackSpec.v
VmState.v
StackOps.v
StackOpsSpec.v
Arith.v
ArithCmp.v
ArithSpec.v
Exec.v
ExecSpec.v
VmTheorems.v
CellLoad.v
GasLaw.v
Dispatch.v
DispatchTheorems.v
Run.v
RunTheorems.v
Encoding.v
Launch.v
EncodingSpec.v
ContOps.v
TupleOps.v
PushOps.v
OpTable.v
InstrLaw.v
MachineTheorems.v
Sound.v
Safe.v
InstrSafe.v
ControlSafe.v
SafetyTheorems.v
LaunchTheorems.v
