(* ===== verification/Prelude.v ===== *)
(** * Verification of tonutils-go: cells and the TON virtual machine

    tonutils-go is a Go library for the TON blockchain.  This development models its
    core: cells, which hold all data of the chain (bits and references), with the
    builders that write and the slices that read them, their hashes, the dictionaries
    and the serialized bags made of them, and the virtual machine that runs contracts
    over them.  Everything is a shallow embedding: a Go function is a
    Rocq function of the same name, a method with a pointer receiver is a computation
    of the state and error monad [M] below over the receiver, an [error] is a value
    of [error], and a Go panic (an index out of range, a nil call) is the outcome
    [Panic].  All definitions are executable.

    ** Parts and files

    Shared:
    - [Prelude]: errors, outcomes, the monad and its equations ([mrun] runs a body);
    - [Bytes]: machine-width integers with their wrap-around, byte slices as lists,
      bit strings, and the link between the two ([bit], [window], [pack]).

    Cells ([src/tvm/cell]):
    - [CellModel]: the cell record, level masks ([level.go]), cell types, and the
      hashes and depths a finished cell reports ([cell.go], [proof.go]);
    - [Builder] ([builder.go], [builder_ops.go]): the 128-byte buffer and every store;
      [BuilderSpec] and [BuilderOps] prove what each store does to the bit string of the
      builder;
    - [Slice] ([slice.go], [slice_ops.go]): the read cursor and every load, cut and
      comparison; [SliceSpec] proves what they return;
    - [Codec]: an interface between the two, a record of a store and the load that
      inverts it with its laws, with an instance per integer format;
    - [BuilderReach]: the builder as a transition system, and its invariant;
    - [SliceCompare]: comparisons, prefixes, suffixes and runs of bits;
    - [CellTheorems]: the main theorems on builders and slices, and the round trip of a
      cell of fields;
    - [Sha256]: the hash function of the Go standard library;
    - [Finalize] ([finalize.go], [validate.go], [proof.go], [ref_view.go]): finishing a
      cell, with the validation of special cells and the hashes and depths of every
      level; [CellHash] proves what an ordinary cell's hash covers.

    Dictionaries ([src/tvm/cell]):
    - [DictLabel] ([dict_label.go]) with [DictLabelTheorems]: the labels of edges;
    - [DictNode] ([dict_core.go]) with [DictNodeSpec]: parsing and writing of nodes;
    - [Dict] ([dict.go]): insertion, deletion, lookup, extremal entries, listing.
      [DictTree] is the abstract tree, [DictSpec] relates cells to it, [DictKeys] the
      four forms of keys to bit strings; [DictTheorems] concludes;
    - [DictBulk] ([dict_bulk_sort.go], [dict_multiset.go], batches of [dict.go]) with
      [DictBulkSort], [DictBulkSpec], [DictMultisetSpec] and [DictBulkTheorems]:
      building and updating with a batch of keys.

    Bags of cells ([src/tvm/cell]):
    - [Checksums]: CRC-32C of the Go standard library and the table-driven CRC-16 of
      [src/crc16], shown to be polynomial division;
    - [BocIndex] ([boc_hash_index.go]) with [BocIndexSpec]: the table of hashes by
      which the serializer finds repeated cells;
    - [BocSerialize] ([serialize.go], [serialize_options.go], [boc_scratch.go]): the
      writer.  [BocSpec] says what a finished cell is; [BocImport] and [BocOrder] follow
      the collecting, weighing and renumbering of cells, [BocWrite] the bytes;
    - [BocParse] ([parse.go], [parse_finalize.go]): the reader, followed by [BocCells] and
      [BocFinish]; [BocTheorems] concludes.

    Addresses and data in cells:
    - [Address] ([src/address]) with [AddressTheorems]: addresses and their texts, over
      the hexadecimal, decimal and base64 text of the Go standard library;
    - [CellData] ([builder.go], [slice.go]) with [CellDataTheorems]: addresses,
      byte strings over chains of cells and dictionaries stored in cells.

    The virtual machine ([src/tvm]):
    - [Gas] ([vm/gas.go], codes of [vmerr/error.go]): the gas counter on 64-bit
      integers;
    - [Value] ([vm/stack.go], [vm/continuation.go], [vm/state.go], [tuple/tuple.go]):
      stack values, continuations, control data, registers, tuples;
    - [Stack] ([vm/stack.go]) with [StackSpec]: the operand stack, whose top is at the
      end of the list as in the code, and its operations seen from the top;
    - [VmState] ([vm/state.go], [vm/cell_manager.go], [vm/historical.go]): the machine
      state, gas by version, the set of loaded cells (an array of eight keys that spills
      to a map), globals, commits; [VmTheorems] their theorems;
    - [StackOps] ([op/stack]) with [StackOpsSpec]: the instructions that rearrange the
      stack;
    - [Arith], [ArithCmp] ([op/math], [op/helpers/math.go]) with [ArithSpec]: every
      integer instruction, throwing and quiet.  Each of the
      sixty-odd throwing division instructions has a Go file of its own with one body
      up to rounding and results; the bodies are definitions with these as arguments
      and the instructions their instances;
    - [Exec] ([vm/exec.go], [Jump] methods of [vm/continuation.go]) with [ExecSpec]:
      jumps, calls, returns, the current continuation, exceptions;
    - [CellLoad] ([vm/cell_manager.go], [vm/libraries.go]): parsing of cells through the
      manager, which charges for them and follows library cells;
    - [Dispatch] (the tables of [vm.go]) with [DispatchTheorems]: the trie and the index
      by which an instruction is found, for each version of the chain;
    - [Encoding] ([op/helpers]) with [EncodingSpec]: opcode prefixes, operands and their
      serialization, by default or by an instruction's own [Serializer];
    - [Run] (the run loop of [vm.go]): a step, implicit jumps and returns, the handling
      of errors, the commit at the end;
    - [ContOps] ([op/exec]), [TupleOps] ([op/tuple]), [PushOps] (the
      constants of [op/stack]): instructions on control flow, control registers, tuples
      and constants in code; [OpTable] lists the 475 modelled instructions with their
      prefixes and versions, as their packages register them;
    - [GasLaw], [InstrLaw]: a law of gas (what is used never decreases and stays below
      the limit, unless the step fails for lack of gas) as a logic over the monad, and
      its proof for every instruction of the table; [RunTheorems] and [MachineTheorems]
      conclude for the machine;
    - [Sound]: well-formed cells, values, continuations and registers; [Safe]: a logic of
      computations that keep a state well formed, never panic, and pay for what they push,
      with the rules for the machine's operations; [InstrSafe], [ControlSafe]: its proof
      for every instruction; [SafetyTheorems] concludes for runs;
    - [Launch] ([Execute] and [ExecuteGetMethod] of [vm.go], [NewExecutionState] of
      [vm/state.go], [Validate] of [vm/historical.go], [SuspendLibraryLoadAccounting] of
      [vm/libraries.go]): from a code cell and a configuration to the result, with
      [LaunchTheorems].

    A component promises another one something through a class or a record in three
    places: a [Codec] (the store and the load of a format), [MeteredLookup] (the walk
    through a library dictionary that is charged for) and the lawfulness of a table entry
    ([entry_lawful], and [entry_safe] for safety), against which the run loop is proved
    and which each instruction provides.

    ** What the theorems show

    - Builders and slices: every builder reached by stores, failed ones included,
      keeps its invariant and no store panics; the word-wide paths of stores and
      loads equal appending and taking bits; formats round-trip; word and big-integer
      paths agree; comparisons and prefix tests mean what they say.
    - Hashes: equal hashes of finished cells mean equal trees, up to a collision that
      the theorem exhibits.
    - Dictionary labels: a label is read back as written, is written in the shortest
      form, and matching a key against it agrees with reading it first.
    - Dictionaries: every sequence of operations answers as a finite map does; equal
      maps have equal cells; failures change nothing.  A batch, sorted by the
      distribution sort, does what its items do one at a time.
    - Bags of cells: what the serializer writes under consistent options the parser
      reads back, unless the payload is below the minimum it asks for, which it then
      reports.  Outside these conditions: the serializer panics with hashes at roots only
      exactly when a root has weight zero, and a number of roots that does not fit its
      field is read modulo the range of the field.
    - Gas: charges add up, limits do not change the gas used, cell loads cost the full
      price once per cell, before and after the set of loaded cells spills.
    - Stack instructions: compound exchanges are atomic, block moves are the
      permutations the instruction set describes.
    - Integer instructions: rounding is exact; throwing, quiet and immediate forms of
      all families agree with one reference; comparisons and width checks are exact.
    - Control transfer: chains of jumps end; call and return, and capture and resume,
      are inverse; missing arguments leave the state unchanged; exceptions reach their
      handler.
    - Addresses: texts are parsed back; any accepted text with one character changed is
      refused or means the same address; addresses and byte strings in cells are read
      back.
    - The machine: the table of a version finds the longest opcode; an instruction that
      the assembler writes is executed as written unless a longer opcode shadows it; from
      version 4 on every program ends, within one iteration per five units of gas.
    - Safety of the machine: from a sound state no program panics; every state it reaches
      is well formed, with a stack no longer than the gas used pays for; [Execute] and
      [ExecuteGetMethod] return a result or an error, but for special code cells at the
      depth limit, on which the second panics.

    ** Choices and bounds

    Integers of the machine are [Z] with the fit to 257 bits checked where the code
    checks it, and NaN (a nil [big.Int]) is [None] or [VNaN].  Loops that are not
    structural take fuel: the chunk loops over bits take the number of bits, which
    each iteration lowers; [jump_loop] takes the nesting depth of the continuation,
    which each jump lowers; a walk in a dictionary takes one unit per key bit and one
    more ([walk_fuel]), since each fork uses up a bit; the collecting of cells takes
    the depth limit of the code; a chain of cells takes one unit per byte; a run takes
    one unit per five units of gas, the least a step costs ([run_fuel]); a chain of
    library cells takes one unit per charged load ([parse_fuel], enough by
    [parse_loop_safe]); [revisit] takes two units per cell and two more
    ([visit_fuel]), since it enters a cell at most twice along a path; probing a hash
    table takes its size.  Running out of fuel is [Panic], and the theorems on these
    loops show it never happens.  Whether two references are the same pointer, which
    the batch update asks to keep a subtree, is a parameter that implies equality.
    Stack values are immutable here.  The code copies a
    value whenever it is pushed from another holder ([shareStackValue]), so an integer
    popped and changed in place has no other holder; a captured code window and the
    one being executed are two values, so [currentCodeOwned] has no counterpart.

    ** Not modelled

    Traces (listeners that meter and record cell loads), lazy and virtualised cells,
    and printing are left out of the modelled parts; so are memory arenas, the writers
    to a stream, the readers without a copy and the parallel finishing of bags of
    cells, and iterators and range queries of dictionaries.  The walk through a library
    dictionary that versions before 4 charge for is a parameter ([MeteredLookup]).  Not
    modelled as parts: augmented and prefix dictionaries, Merkle proofs and large bags;
    the instructions on cells and dictionaries, host functions (cryptography,
    configuration, messages) and child machines ([RUNVM]); executions on an account with
    a proof, transactions and their fees; TL and TL-B, which work by
    reflection over struct tags; and the network layers, which are input and output over
    external libraries. *)

From Stdlib Require Export ZArith Lia.
From stdpp Require Export base list numbers option tactics.
From stdpp Require Import strings.

#[export] Set Warnings "-notation-overridden".
#[local] Open Scope Z_scope.

(** [lia] decides goals with division and remainder by literals. *)
#[global] Ltac Zify.zify_post_hook ::= Z.div_mod_to_equations.

(** ** Errors

    Go's [error] values, by the identity the code compares them with
    ([errors.Is]) or by the code [vmerr.ErrorCode] extracts from them; message
    texts are left out.  [VMErr] is a [vmerr.VMError], [HandledErr] a
    [vm.HandledException] (the quit signal of a continuation). *)

Inductive error : Type :=
  | ErrTooBigValue
  | ErrLabelExceedsKeyBits
  | ErrInvalidDictForkNode
  | ErrDictHasSpecialCells
  | ErrNoSuchKeyInDict
  | ErrNegative
  | ErrInvalidSize
  | ErrNilBigInt
  | ErrRefCannotBeNil
  | ErrCellDepthLimit
  | ErrSmallSlice
  | ErrTooBigSize
  | ErrTooMuchRefs
  | ErrNotFit1023
  | ErrNoMoreRefs
  | ErrAddressTypeNotSupported
  | ErrShortBuffer
  | ErrNotEnoughData (has need : Z)
  | ErrStopOnAccept
  | ErrCorruptedOpcode
  | ErrText (what : string)
  | VMErr (code : Z)
  | HandledErr (code : Z).

#[export] Instance error_eq_dec : EqDecision error.
Proof. solve_decision. Defined.

(** ** Outcomes and the state-and-error monad

    A Go call returns a value, returns an error, or panics (a slice index out of
    range).  A method with a pointer receiver also leaves the receiver in some
    state on every path, errors included: [M S A] keeps that state. *)

Inductive outcome (A : Type) : Type :=
  | Ok (a : A)
  | Err (e : error)
  | Panic.
Arguments Ok {A} a.
Arguments Err {A} e.
Arguments Panic {A}.

#[export] Instance outcome_ret : MRet outcome := fun A a => Ok a.
#[export] Instance outcome_bind : MBind outcome := fun A B f o =>
  match o with Ok a => f a | Err e => Err e | Panic => Panic end.

Definition M (S A : Type) : Type := S -> outcome A * S.

#[export] Instance M_ret {S} : MRet (M S) := fun A a s => (Ok a, s).
#[export] Instance M_bind {S} : MBind (M S) := fun A B f m s =>
  match m s with
  | (Ok a, s') => f a s'
  | (Err e, s') => (Err e, s')
  | (Panic, s') => (Panic, s')
  end.

Definition fail {S A} (e : error) : M S A := fun s => (Err e, s).
Definition get_state {S} : M S S := fun s => (Ok s, s).
Definition put_state {S} (s : S) : M S unit := fun _ => (Ok tt, s).
Definition modify {S} (f : S -> S) : M S unit := fun s => (Ok tt, f s).
Definition lift {S A} (o : outcome A) : M S A := fun s => (o, s).
(** [if cond { return err }] *)
Definition guard_err {S} (c : bool) (e : error) : M S unit :=
  if c then fail e else mret tt.

Section monad.
  Context {S : Type}.

Lemma bind_Ok {A B} (m : M S A) (k : A -> M S B) s a s' :
  m s = (Ok a, s') -> (m ≫= k) s = k a s'.
Proof. intros H. unfold mbind, M_bind. now rewrite H. Qed.

Lemma bind_Err {A B} (m : M S A) (k : A -> M S B) s e s' :
  m s = (Err e, s') -> (m ≫= k) s = (Err e, s').
Proof. intros H. unfold mbind, M_bind. now rewrite H. Qed.

Lemma bind_Panic {A B} (m : M S A) (k : A -> M S B) s s' :
  m s = (Panic, s') -> (m ≫= k) s = (Panic, s').
Proof. intros H. unfold mbind, M_bind. now rewrite H. Qed.

Lemma bind_assoc {A B C} (m : M S A) (k : A -> M S B) (h : B -> M S C) s :
  ((m ≫= k) ≫= h) s = (m ≫= (fun a => k a ≫= h)) s.
Proof. unfold mbind, M_bind. now destruct (m s) as [[a | e |] s']. Qed.

Lemma bind_inv_Ok {A B} (m : M S A) (k : A -> M S B) s b s'' :
  (m ≫= k) s = (Ok b, s'') ->
  exists a s', m s = (Ok a, s') /\ k a s' = (Ok b, s'').
Proof.
  unfold mbind, M_bind. destruct (m s) as [[a | e |] s'] eqn:E; intros H; try discriminate.
  eauto.
Qed.

(** The equations that run a method body. *)
Lemma bind_get {B} (k : S -> M S B) s : (get_state ≫= k) s = k s s.
Proof. done. Qed.

Lemma bind_ret {A B} (a : A) (k : A -> M S B) s : (mret a ≫= k) s = k a s.
Proof. done. Qed.

Lemma bind_lift {A B} (a : A) (k : A -> M S B) s : (lift (Ok a) ≫= k) s = k a s.
Proof. done. Qed.

Lemma bind_modify {B} f (k : unit -> M S B) s : (modify f ≫= k) s = k tt (f s).
Proof. done. Qed.

Lemma bind_put {B} s' (k : unit -> M S B) s : (put_state s' ≫= k) s = k tt s'.
Proof. done. Qed.

Lemma bind_fail {A B} e (k : A -> M S B) s : (fail e ≫= k) s = (Err e, s).
Proof. done. Qed.

Lemma bind_guard {B} c e (k : unit -> M S B) s :
  (guard_err c e ≫= k) s = if c then (Err e, s) else k tt s.
Proof. now destruct c. Qed.

Lemma run_guard c e (s : S) : guard_err c e s = if c then (Err e, s) else (Ok tt, s).
Proof. now destruct c. Qed.

Lemma bind_if {A B} (c : bool) (m m' : M S A) (k : A -> M S B) s :
  ((if c then m else m') ≫= k) s = if c then (m ≫= k) s else (m' ≫= k) s.
Proof. now destruct c. Qed.

End monad.

(** A method called on a local object: its value and the object it leaves. *)
Definition run {S A} (m : M S A) (s : S) : outcome (A * S) :=
  match m s with
  | (Ok a, s') => Ok (a, s')
  | (Err e, _) => Err e
  | (Panic, _) => Panic
  end.

Lemma run_Ok {S A} (m : M S A) s a s' : m s = (Ok a, s') -> run m s = Ok (a, s').
Proof. intros H. unfold run. now rewrite H. Qed.

Lemma run_Err {S A} (m : M S A) s e s' : m s = (Err e, s') -> run m s = Err e.
Proof. intros H. unfold run. now rewrite H. Qed.

(** A method of one of two objects a function works on. *)
Definition on_fst {S T A} (m : M S A) : M (S * T) A := fun p => let '(r, s) := m (fst p) in (r, (s, snd p)).
Definition on_snd {S T A} (m : M T A) : M (S * T) A := fun p => let '(r, t) := m (snd p) in (r, (fst p, t)).

Lemma on_fst_run {S T A} (m : M S A) (s : S) (t : T) r s' :
  m s = (r, s') -> on_fst m (s, t) = (r, (s', t)).
Proof. intros H. unfold on_fst. cbn. now rewrite H. Qed.

Lemma on_snd_run {S T A} (m : M T A) (s : S) (t : T) r t' :
  m t = (r, t') -> on_snd m (s, t) = (r, (s, t')).
Proof. intros H. unfold on_snd. cbn. now rewrite H. Qed.

Lemma bind_on_fst {S T A B} (m : M S A) (k : A -> M (S * T) B) s t a s' :
  m s = (Ok a, s') -> (on_fst m ≫= k) (s, t) = k a (s', t).
Proof. intros H. apply bind_Ok, on_fst_run, H. Qed.

Lemma bind_on_snd {S T A B} (m : M T A) (k : A -> M (S * T) B) s t a t' :
  m t = (Ok a, t') -> (on_snd m ≫= k) (s, t) = k a (s, t').
Proof. intros H. apply bind_Ok, on_snd_run, H. Qed.

Create Rewrite HintDb monad.
#[export] Hint Rewrite @bind_get @bind_ret @bind_lift @bind_modify @bind_put @bind_fail
  @bind_guard @run_guard @bind_assoc : monad.

(** Runs the binds whose head is already a value. *)
Ltac mrun := autorewrite with monad.
