(* ===== verification/Bytes.v ===== *)
(** * Bytes, bit strings and big-endian words

    Go byte slices are lists of integers in [0, 256); index and slice
    expressions panic out of range.  A bit string is a [list bool], most
    significant bit first, and [bit d i] reads bit [i] of a byte slice in that
    order.  Word-wide accesses ([binary.BigEndian]) are related to bits here,
    so that the cell components reason bit by bit. *)

From S2P Require Import Prelude.
From stdpp Require Import strings.
#[local] Open Scope Z_scope.

(** ** Machine integers *)

Definition u8 (x : Z) : Z := x mod 2 ^ 8.
Definition u16 (x : Z) : Z := x mod 2 ^ 16.
Definition u32 (x : Z) : Z := x mod 2 ^ 32.
Definition u64 (x : Z) : Z := x mod 2 ^ 64.
(** [int64(x)] of an unsigned 64-bit value. *)
Definition s64 (x : Z) : Z := (x + 2 ^ 63) mod 2 ^ 64 - 2 ^ 63.
(** [int32(x)] and [int8(x)] *)
Definition s32 (x : Z) : Z := (x + 2 ^ 31) mod 2 ^ 32 - 2 ^ 31.
Definition s8 (x : Z) : Z := (x + 128) mod 256 - 128.

(** [bits.Len64] and [big.Int.BitLen] (of the absolute value). *)
Definition bit_len (x : Z) : Z := if x =? 0 then 0 else Z.log2 (Z.abs x) + 1.

(** ** Byte slices *)

Abbreviation byte_ok b := (0 <= b < 256).
Definition bytes_ok (d : list Z) : Prop := Forall (fun b => byte_ok b) d.
Definition len {A} (d : list A) : Z := Z.of_nat (length d).

Definition byte_at (d : list Z) (i : Z) : Z := nth (Z.to_nat i) d 0.
Definition bit (d : list Z) (i : Z) : bool := Z.testbit (byte_at d (i / 8)) (7 - i mod 8).

(** [d] with [new] written from byte [off] on. *)
Definition splice (d : list Z) (off : Z) (new : list Z) : list Z :=
  take (Z.to_nat off) d ++ new ++ drop (Z.to_nat off + length new) d.

(** [d[i]], [d[i] = v], [d[a:b]], and [copy(d[a:], new)] with room for [new]. *)
Definition index (d : list Z) (i : Z) : outcome Z :=
  if (0 <=? i) && (i <? len d) then Ok (byte_at d i) else Panic.
Definition write (d : list Z) (off : Z) (new : list Z) : outcome (list Z) :=
  if (0 <=? off) && (off + len new <=? len d) then Ok (splice d off new) else Panic.
Definition subrange (d : list Z) (a b : Z) : outcome (list Z) :=
  if (0 <=? a) && (a <=? b) && (b <=? len d)
  then Ok (take (Z.to_nat (b - a)) (drop (Z.to_nat a) d)) else Panic.

(** [binary.BigEndian.PutUint8n] and [binary.BigEndian.Uint8n]. *)
Definition be_bytes (n : nat) (v : Z) : list Z :=
  (fun k => u8 (v ≫ (8 * (Z.of_nat n - 1 - Z.of_nat k)))) <$> seq 0 n.
Definition be_uint (l : list Z) : Z := foldl (fun acc b => Z.lor (acc ≪ 8) b) 0 l.

(** ** Bit strings *)

Definition uint_bits (n : Z) (v : Z) : list bool :=
  (fun i => Z.testbit v (n - 1 - Z.of_nat i)) <$> seq 0 (Z.to_nat n).
Definition bits_uint (l : list bool) : Z := foldl (fun acc b => 2 * acc + Z.b2z b) 0 l.
(** The value of a bit string as a two's complement integer. *)
Definition bits_int (l : list bool) : Z :=
  match l with
  | [] => 0
  | true :: _ => bits_uint l - 2 ^ len l
  | false :: _ => bits_uint l
  end.

(** The [n] bits of [d] from bit [a] on. *)
Definition window (d : list Z) (a n : Z) : list bool :=
  (fun i => bit d (a + Z.of_nat i)) <$> seq 0 (Z.to_nat n).

(** ** Bitwise automation *)

Create Rewrite HintDb bitdb.
Create HintDb bytes.

Lemma testbit_nonneg_arg x i : Z.testbit x i = (0 <=? i) && Z.testbit x i.
Proof. destruct (Z.leb_spec 0 i); [done|]. now rewrite Z.testbit_neg_r. Qed.

Lemma testbit_shiftl x n i : 0 <= n -> Z.testbit (x ≪ n) i = (0 <=? i) && Z.testbit x (i - n).
Proof.
  intros Hn. destruct (Z.leb_spec 0 i); simpl.
  - now rewrite Z.shiftl_spec.
  - now rewrite Z.testbit_neg_r.
Qed.

Lemma testbit_shiftr x n i : 0 <= n -> Z.testbit (x ≫ n) i = (0 <=? i) && Z.testbit x (i + n).
Proof.
  intros Hn. destruct (Z.leb_spec 0 i); simpl.
  - now rewrite Z.shiftr_spec.
  - now rewrite Z.testbit_neg_r.
Qed.

Lemma testbit_above x n i : 0 <= x < 2 ^ n -> n <= i -> Z.testbit x i = false.
Proof.
  intros Hx Hi. destruct (Z.leb_spec 0 n).
  - rewrite <-(Z.mod_small x (2 ^ n)) by done. now apply Z.mod_pow2_bits_high.
  - rewrite Z.pow_neg_r in Hx by done. lia.
Qed.

Lemma testbit_u8 x i : Z.testbit (u8 x) i = (i <? 8) && Z.testbit x i.
Proof. unfold u8. now rewrite Z.testbit_mod_pow2. Qed.
Lemma testbit_u16 x i : Z.testbit (u16 x) i = (i <? 16) && Z.testbit x i.
Proof. unfold u16. now rewrite Z.testbit_mod_pow2. Qed.
Lemma testbit_u32 x i : Z.testbit (u32 x) i = (i <? 32) && Z.testbit x i.
Proof. unfold u32. now rewrite Z.testbit_mod_pow2. Qed.
Lemma testbit_u64 x i : Z.testbit (u64 x) i = (i <? 64) && Z.testbit x i.
Proof. unfold u64. now rewrite Z.testbit_mod_pow2. Qed.

Lemma testbit_ones n i : 0 <= n -> Z.testbit (Z.ones n) i = (0 <=? i) && (i <? n).
Proof.
  intros Hn. destruct (Z.leb_spec 0 i); simpl; [|now rewrite Z.testbit_neg_r].
  destruct (Z.ltb_spec i n).
  - now apply Z.ones_spec_low.
  - apply Z.ones_spec_high. lia.
Qed.

Lemma testbit_255 i : Z.testbit 255 i = (0 <=? i) && (i <? 8).
Proof. exact (testbit_ones 8 i ltac:(lia)). Qed.

Lemma testbit_1 i : Z.testbit 1 i = (i =? 0).
Proof.
  destruct (Z.eqb_spec i 0) as [-> | Hi]; [done|].
  destruct (Z.ltb_spec i 0); [now rewrite Z.testbit_neg_r|].
  apply (testbit_above 1 1); lia.
Qed.

Lemma testbit_b2z v i : Z.testbit (Z.b2z v) i = (i =? 0) && v.
Proof. destruct v; cbn [Z.b2z]; [now rewrite testbit_1, andb_true_r | now rewrite Z.testbit_0_l, andb_false_r]. Qed.

Lemma ones_pow n : 0 <= n -> (1 ≪ n) - 1 = Z.ones n.
Proof. intros. unfold Z.ones. lia. Qed.

#[export] Hint Rewrite Z.land_spec Z.lor_spec Z.lxor_spec Z.ldiff_spec Z.testbit_0_l : bitdb.
#[export] Hint Rewrite testbit_u8 testbit_u16 testbit_u32 testbit_u64 testbit_255 testbit_1
  testbit_b2z : bitdb.
#[export] Hint Rewrite testbit_shiftl testbit_shiftr testbit_ones using lia : bitdb.

(** Case analysis on every integer comparison of the goal, then arithmetic. *)
Ltac split_cmp :=
  repeat match goal with
  | |- context [?a <=? ?b] => destruct (Z.leb_spec a b); try lia
  | |- context [?a <? ?b] => destruct (Z.ltb_spec a b); try lia
  | |- context [?a =? ?b] => destruct (Z.eqb_spec a b); try lia
  end.

Ltac bool_simpl := rewrite ?andb_true_l, ?andb_true_r, ?andb_false_l, ?andb_false_r,
  ?orb_true_l, ?orb_true_r, ?orb_false_l, ?orb_false_r; simpl negb.

(** Closes equalities between bits of expressions built from shifts and masks. *)
Ltac bitwise :=
  autorewrite with bitdb; split_cmp; bool_simpl; try done; try (f_equal; lia).

(** ** Lists *)

Lemma len_nonneg {A} (l : list A) : 0 <= len l.
Proof. unfold len. lia. Qed.
Lemma len_app {A} (l k : list A) : len (l ++ k) = len l + len k.
Proof. unfold len. rewrite length_app. lia. Qed.
Lemma len_nil {A} : len (@nil A) = 0.
Proof. done. Qed.
Lemma len_cons {A} (x : A) l : len (x :: l) = len l + 1.
Proof. unfold len. simpl. lia. Qed.

Lemma nth_take {A} (l : list A) i n d : (i < n)%nat -> nth i (take n l) d = nth i l d.
Proof. intros H. rewrite !nth_lookup, lookup_take. now rewrite decide_True. Qed.
Lemma nth_drop {A} (l : list A) i n d : nth i (drop n l) d = nth (n + i) l d.
Proof. now rewrite !nth_lookup, lookup_drop. Qed.

(** Two lists are equal when they agree position by position. *)
Lemma list_eq_nth {A} (d : A) (l k : list A) :
  length l = length k -> (forall i, (i < length l)%nat -> nth i l d = nth i k d) -> l = k.
Proof. intros Hl H. apply (nth_ext l k d d); auto. Qed.

Lemma nth_map_seq {A} (f : nat -> A) n i d :
  (i < n)%nat -> nth i (f <$> seq 0 n) d = f i.
Proof.
  intros H. rewrite nth_lookup, list_lookup_fmap, lookup_seq_lt by done. done.
Qed.

(** ** Bytes of a slice *)

Lemma byte_at_ok d i : bytes_ok d -> byte_ok (byte_at d i).
Proof.
  intros H. unfold byte_at. destruct (nth_in_or_default (Z.to_nat i) d 0) as [Hin | ->]; [|lia].
  unfold bytes_ok in H. rewrite List.Forall_forall in H. now apply H.
Qed.

Lemma testbit_byte_at d i k : bytes_ok d -> 8 <= k -> Z.testbit (byte_at d i) k = false.
Proof. intros Hd Hk. apply (testbit_above _ 8); [|done]. now apply (byte_at_ok d i). Qed.

Lemma byte_at_app d e i : 0 <= i ->
  byte_at (d ++ e) i = if i <? len d then byte_at d i else byte_at e (i - len d).
Proof.
  intros Hi. unfold byte_at, len. destruct (Z.ltb_spec i (Z.of_nat (length d))).
  - apply app_nth1. lia.
  - rewrite app_nth2 by lia. f_equal. lia.
Qed.

Lemma byte_at_splice d off new i :
  0 <= off -> off + len new <= len d -> 0 <= i ->
  byte_at (splice d off new) i =
  if (off <=? i) && (i <? off + len new) then byte_at new (i - off) else byte_at d i.
Proof.
  intros Hoff Hlen Hi. unfold splice, len in *.
  rewrite byte_at_app by done. unfold len. rewrite length_take, Nat.min_l by lia.
  replace (Z.of_nat (Z.to_nat off)) with off by lia.
  destruct (Z.ltb_spec i off), (Z.leb_spec off i); try lia; simpl.
  - unfold byte_at. apply nth_take. lia.
  - rewrite byte_at_app by lia. unfold len.
    replace (i - off <? Z.of_nat (length new)) with (i <? off + Z.of_nat (length new))
      by (split_cmp; done).
    case_match eqn:E; [done|]. apply Z.ltb_ge in E.
    unfold byte_at. rewrite nth_drop. f_equal. lia.
Qed.

Lemma length_splice d off new :
  0 <= off -> off + len new <= len d -> length (splice d off new) = length d.
Proof.
  unfold len, splice. intros. rewrite !length_app, length_take, length_drop. lia.
Qed.

Lemma bytes_ok_splice d off new :
  bytes_ok d -> bytes_ok new -> bytes_ok (splice d off new).
Proof.
  intros Hd Hn. unfold bytes_ok, splice. rewrite !Forall_app. repeat split.
  - now apply Forall_take.
  - done.
  - now apply Forall_drop.
Qed.

Lemma bytes_ok_cons x d : bytes_ok (x :: d) <-> byte_ok x /\ bytes_ok d.
Proof. unfold bytes_ok. now rewrite list.Forall_cons. Qed.

Lemma bytes_ok_app d e : bytes_ok (d ++ e) <-> bytes_ok d /\ bytes_ok e.
Proof. unfold bytes_ok. now rewrite list.Forall_app. Qed.

Lemma bytes_ok_one b : byte_ok b -> bytes_ok [b].
Proof. intros. now repeat constructor. Qed.

Lemma byte_ok_u8 x : byte_ok (u8 x).
Proof. unfold u8. pose proof (Z.mod_pos_bound x (2 ^ 8)). lia. Qed.

Lemma byte_ok_lor x y : byte_ok x -> byte_ok y -> byte_ok (Z.lor x y).
Proof.
  intros. split; [now apply Z.lor_nonneg|].
  destruct (Z.eq_dec (Z.lor x y) 0) as [->|]; [lia|].
  assert (0 <= Z.lor x y) by now apply Z.lor_nonneg.
  change 256 with (2 ^ 8). apply Z.log2_lt_pow2; [lia|].
  rewrite Z.log2_lor by lia.
  assert (forall z, byte_ok z -> Z.log2 z < 8) as Hl.
  { intros z Hz. destruct (Z.eq_dec z 0) as [->|]; [done|]. apply Z.log2_lt_pow2; lia. }
  apply Z.max_lub_lt; auto.
Qed.

Lemma byte_ok_land x y : byte_ok x -> byte_ok (Z.land x y).
Proof.
  intros. assert (0 <= Z.land x y) by (apply Z.land_nonneg; lia). split; [done|].
  enough (Z.land x y <= x) by lia.
  apply Z.ldiff_le; [lia|]. apply Z.bits_inj'. intros k _. autorewrite with bitdb.
  now destruct (Z.testbit x k), (Z.testbit y k).
Qed.

Lemma byte_ok_ldiff x y : byte_ok x -> byte_ok (Z.ldiff x y).
Proof. rewrite Z.ldiff_land. apply byte_ok_land. Qed.

Lemma byte_ok_shiftr x n : byte_ok x -> 0 <= n -> byte_ok (x ≫ n).
Proof.
  intros. split; [now apply Z.shiftr_nonneg|]. rewrite Z.shiftr_div_pow2 by done.
  apply Z.le_lt_trans with x; [|lia]. apply Z.div_le_upper_bound; [lia|].
  assert (1 <= 2 ^ n) by (change 1 with (2 ^ 0); apply Z.pow_le_mono_r; lia). nia.
Qed.

Lemma be_bytes_ok n v : bytes_ok (be_bytes n v).
Proof.
  unfold bytes_ok, be_bytes. apply Forall_fmap. apply Forall_true. intros. apply byte_ok_u8.
Qed.

Lemma length_be_bytes n v : length (be_bytes n v) = n.
Proof. unfold be_bytes. now rewrite length_fmap, length_seq. Qed.

#[export] Hint Resolve bytes_ok_splice bytes_ok_one byte_ok_u8 byte_ok_lor byte_ok_land
  byte_ok_ldiff byte_ok_shiftr
  be_bytes_ok byte_at_ok : bytes.

(** ** Bits of a slice *)

Lemma bit_splice d off new i :
  0 <= off -> off + len new <= len d -> 0 <= i ->
  bit (splice d off new) i =
  if (8 * off <=? i) && (i <? 8 * (off + len new)) then bit new (i - 8 * off) else bit d i.
Proof.
  intros. unfold bit. rewrite byte_at_splice by lia.
  replace (off <=? i / 8) with (8 * off <=? i) by (split_cmp; done).
  replace (i / 8 <? off + len new) with (i <? 8 * (off + len new)) by (split_cmp; done).
  case_match; [|done]. replace (i - 8 * off) with (i + (- off) * 8) by lia.
  rewrite Z.div_add, Z.mod_add by done. done.
Qed.

Lemma bit_one b i : 0 <= i < 8 -> bit [b] i = Z.testbit b (7 - i).
Proof. intros. unfold bit. rewrite Z.div_small, Z.mod_small by done. done. Qed.

Lemma bit_out d i : len d * 8 <= i -> bit d i = false.
Proof.
  intros H. unfold bit, byte_at. rewrite nth_overflow; [apply Z.testbit_0_l|].
  unfold len in H. lia.
Qed.

Lemma byte_at_be_bytes n v k :
  0 <= k < Z.of_nat n -> byte_at (be_bytes n v) k = u8 (v ≫ (8 * (Z.of_nat n - 1 - k))).
Proof.
  intros. unfold byte_at, be_bytes. rewrite nth_map_seq by lia. do 3 f_equal. lia.
Qed.

Lemma bit_be_bytes n v i :
  0 <= i < 8 * Z.of_nat n -> bit (be_bytes n v) i = Z.testbit v (8 * Z.of_nat n - 1 - i).
Proof.
  intros. unfold bit. rewrite byte_at_be_bytes by lia. bitwise.
Qed.

(** A byte slice is determined by its bits. *)
Lemma byte_eq_bits x y :
  byte_ok x -> byte_ok y -> (forall k, 0 <= k < 8 -> Z.testbit x k = Z.testbit y k) -> x = y.
Proof.
  intros Hx Hy H. apply Z.bits_inj'. intros k Hk. destruct (Z.ltb_spec k 8).
  - apply H. lia.
  - rewrite !(testbit_above _ 8) by lia. done.
Qed.

Lemma bytes_eq_bits d e :
  bytes_ok d -> bytes_ok e -> length d = length e ->
  (forall i, 0 <= i < 8 * len d -> bit d i = bit e i) -> d = e.
Proof.
  intros Hd He Hl H. apply (list_eq_nth 0); [done|]. intros i Hi.
  pose proof (byte_at_ok d (Z.of_nat i) Hd) as Hdi. pose proof (byte_at_ok e (Z.of_nat i) He) as Hei.
  unfold byte_at in Hdi, Hei. rewrite Nat2Z.id in Hdi, Hei.
  apply byte_eq_bits; [done..|]. intros k Hk.
  specialize (H (8 * Z.of_nat i + (7 - k))). unfold bit, len in H.
  replace ((8 * Z.of_nat i + (7 - k)) / 8) with (Z.of_nat i) in H by lia.
  replace (7 - (8 * Z.of_nat i + (7 - k)) mod 8) with k in H by lia.
  unfold byte_at in H. rewrite Nat2Z.id in H. apply H. lia.
Qed.

(** Big-endian words read the bits of their bytes in order. *)
Lemma be_uint_app l b : be_uint (l ++ [b]) = Z.lor (be_uint l ≪ 8) b.
Proof. unfold be_uint. now rewrite foldl_app. Qed.

Lemma be_uint_nonneg l : bytes_ok l -> 0 <= be_uint l.
Proof.
  induction l as [|b l IH] using rev_ind; intros Hl; [done|].
  apply Forall_app in Hl as [Hl Hb]. rewrite be_uint_app. apply Z.lor_nonneg. split.
  - apply Z.shiftl_nonneg. now apply IH.
  - apply Forall_cons in Hb as [[? ?] _]. done.
Qed.

Lemma testbit_be_uint l k :
  bytes_ok l -> Z.testbit (be_uint l) k = (0 <=? k) && (k <? 8 * len l) && bit l (8 * len l - 1 - k).
Proof.
  revert k. induction l as [|b l IH] using rev_ind; intros k Hl.
  { change (be_uint []) with 0. rewrite Z.testbit_0_l. unfold len. simpl. split_cmp; done. }
  apply Forall_app in Hl as [Hl Hb]. apply Forall_cons in Hb as [Hb _].
  rewrite be_uint_app. autorewrite with bitdb. rewrite IH by done.
  rewrite len_app. change (len [b]) with 1. unfold bit at 2.
  destruct (Z.leb_spec 0 k); simpl; [|now rewrite Z.testbit_neg_r].
  destruct (Z.ltb_spec k (8 * (len l + 1))) as [Hk|Hk]; simpl.
  - rewrite byte_at_app by (pose proof (len_nonneg l); lia).
    destruct (Z.ltb_spec k 8).
    + replace (0 <=? k - 8) with false by (split_cmp; done). simpl.
      replace ((8 * (len l + 1) - 1 - k) / 8) with (len l) by lia.
      rewrite Z.ltb_irrefl, Z.sub_diag. unfold byte_at. simpl. f_equal. lia.
    + rewrite (testbit_above b 8) by lia. rewrite orb_false_r.
      replace ((8 * (len l + 1) - 1 - k) / 8 <? len l) with true by (split_cmp; done).
      replace (0 <=? k - 8) with true by (split_cmp; done).
      replace (k - 8 <? 8 * len l) with true by (split_cmp; done). simpl.
      now replace (8 * len l - 1 - (k - 8)) with (8 * (len l + 1) - 1 - k) by lia.
  - rewrite (testbit_above b 8) by (pose proof (len_nonneg l); lia).
    replace (k - 8 <? 8 * len l) with false by (split_cmp; done).
    now rewrite andb_false_r.
Qed.

Lemma be_uint_bound l : bytes_ok l -> 0 <= be_uint l < 2 ^ (8 * len l).
Proof.
  intros Hl. split; [now apply be_uint_nonneg|].
  pose proof (len_nonneg l). pose proof (be_uint_nonneg l Hl).
  assert (be_uint l mod 2 ^ (8 * len l) = be_uint l) as <-; [|apply Z.mod_pos_bound; lia].
  apply Z.bits_inj'. intros k Hk. rewrite Z.testbit_mod_pow2 by lia.
  rewrite testbit_be_uint by done. split_cmp; done.
Qed.

(** ** Bit strings and integers *)

Lemma length_uint_bits n v : 0 <= n -> len (uint_bits n v) = n.
Proof. intros. unfold uint_bits, len. rewrite length_fmap, length_seq. lia. Qed.

Lemma length_window d a n : 0 <= n -> len (window d a n) = n.
Proof. intros. unfold window, len. rewrite length_fmap, length_seq. lia. Qed.

Lemma nth_window d a n i : (i < Z.to_nat n)%nat -> nth i (window d a n) false = bit d (a + Z.of_nat i).
Proof. intros. unfold window. now rewrite nth_map_seq. Qed.

Lemma nth_uint_bits n v i :
  (i < Z.to_nat n)%nat -> nth i (uint_bits n v) false = Z.testbit v (n - 1 - Z.of_nat i).
Proof. intros. unfold uint_bits. now rewrite nth_map_seq. Qed.

Lemma uint_bits_0 v : uint_bits 0 v = [].
Proof. done. Qed.

(** Reading a window off a slice, and the slice that has a given window. *)
Lemma window_eq d a n l :
  0 <= n -> len l = n -> (forall i, 0 <= i < n -> bit d (a + i) = nth (Z.to_nat i) l false) ->
  window d a n = l.
Proof.
  intros Hn Hl H. apply (list_eq_nth false).
  - apply Nat2Z.inj. change (len (window d a n) = len l). now rewrite length_window.
  - intros i Hi. pose proof (length_window d a n Hn) as Hw. unfold len in *.
    rewrite nth_window by lia. rewrite H by lia. f_equal. lia.
Qed.

Lemma window_uint_bits d a n v :
  0 <= n -> (forall i, 0 <= i < n -> bit d (a + i) = Z.testbit v (n - 1 - i)) ->
  window d a n = uint_bits n v.
Proof.
  intros Hn H. apply window_eq; [done|now apply length_uint_bits|].
  intros i Hi. rewrite H, nth_uint_bits by lia. f_equal. lia.
Qed.

Lemma window_app d a n m :
  0 <= n -> 0 <= m -> window d a (n + m) = window d a n ++ window d (a + n) m.
Proof.
  intros. unfold window. rewrite Z2Nat.inj_add, seq_app, fmap_app by done. f_equal.
  simpl. rewrite <-(Nat.add_0_r (Z.to_nat n)) at 1. rewrite <-fmap_add_seq, <-list_fmap_compose.
  apply list_fmap_ext. intros i x _. simpl. f_equal. lia.
Qed.

Lemma window_ext d e a b n :
  (forall i, 0 <= i < n -> bit d (a + i) = bit e (b + i)) -> window d a n = window e b n.
Proof.
  intros H. unfold window. apply list_fmap_ext. intros i x Hx.
  apply lookup_seq in Hx as [-> ?]. apply H. lia.
Qed.

Lemma bits_uint_app l b : bits_uint (l ++ [b]) = 2 * bits_uint l + Z.b2z b.
Proof. unfold bits_uint. now rewrite foldl_app. Qed.

Lemma uint_bits_snoc n v : 0 <= n -> uint_bits (n + 1) v = uint_bits n (v / 2) ++ [Z.testbit v 0].
Proof.
  intros. unfold uint_bits. rewrite Z2Nat.inj_add, seq_app, fmap_app by lia. f_equal.
  - apply list_fmap_ext. intros i x Hx. apply lookup_seq in Hx as [-> ?]. simpl.
    change (v / 2) with (v / 2 ^ 1). rewrite <-Z.shiftr_div_pow2 by lia. bitwise.
  - change (Z.to_nat 1) with 1%nat. cbn [seq fmap list_fmap Nat.add].
    now replace (n + 1 - 1 - Z.of_nat (Z.to_nat n)) with 0 by lia.
Qed.

Lemma bits_uint_uint_bits n v : 0 <= n -> bits_uint (uint_bits n v) = v mod 2 ^ n.
Proof.
  intros Hn. revert v. pattern n. apply natlike_ind; [|clear n Hn|done].
  { intros v. now rewrite Z.mod_1_r. }
  intros n Hn IH v. rewrite <-Z.add_1_r, uint_bits_snoc, bits_uint_app, IH by done.
  rewrite Z.bit0_mod, Z.pow_add_r by lia. change (2 ^ 1) with 2.
  rewrite (Z.mul_comm (2 ^ n) 2), Z.rem_mul_r by lia. lia.
Qed.

Lemma uint_bits_bits_uint l : uint_bits (len l) (bits_uint l) = l.
Proof.
  induction l as [|b l IH] using rev_ind; [done|].
  rewrite len_app. change (len [b]) with 1. pose proof (len_nonneg l).
  rewrite uint_bits_snoc, bits_uint_app by done. f_equal.
  - replace ((2 * bits_uint l + Z.b2z b) `div` 2) with (bits_uint l); [done|].
    destruct b; simpl Z.b2z; lia.
  - f_equal. rewrite Z.bit0_eqb. destruct b; simpl Z.b2z; split_cmp; done.
Qed.

Lemma bits_uint_bound l : 0 <= bits_uint l < 2 ^ len l.
Proof.
  pose proof (len_nonneg l). rewrite <-(uint_bits_bits_uint l) at 1 2.
  rewrite bits_uint_uint_bits by done. apply Z.mod_pos_bound. lia.
Qed.

Lemma uint_bits_mod n v : 0 <= n -> uint_bits n (v mod 2 ^ n) = uint_bits n v.
Proof.
  intros. unfold uint_bits. apply list_fmap_ext. intros i x Hx.
  apply lookup_seq in Hx as [-> ?]. rewrite Z.testbit_mod_pow2 by done. split_cmp. done.
Qed.

Lemma uint_bits_inj n v w :
  0 <= n -> 0 <= v < 2 ^ n -> 0 <= w < 2 ^ n -> uint_bits n v = uint_bits n w -> v = w.
Proof.
  intros Hn Hv Hw H. apply (f_equal bits_uint) in H. rewrite !bits_uint_uint_bits in H by done.
  now rewrite !Z.mod_small in H.
Qed.

(** ** Bit lengths *)

Lemma bit_len_le x n : 0 <= x -> 0 <= n -> bit_len x <= n <-> x < 2 ^ n.
Proof.
  intros Hx Hn. unfold bit_len. destruct (Z.eqb_spec x 0) as [-> | Hne].
  - pose proof (Z.pow_pos_nonneg 2 n). lia.
  - rewrite Z.abs_eq by done. rewrite (Z.log2_lt_pow2 x n) by lia. lia.
Qed.

Lemma bit_len_nonneg x : 0 <= bit_len x.
Proof. unfold bit_len. pose proof (Z.log2_nonneg (Z.abs x)). split_cmp. Qed.

(** ** Packing bit strings into bytes *)

(** The [n] bytes that start with the bits of [l] and are zero after them. *)
Definition pack (n : nat) (l : list bool) : list Z :=
  (fun k => bits_uint ((fun j => nth (8 * k + j) l false) <$> seq 0 8)) <$> seq 0 n.

Lemma testbit_bits_uint l k :
  Z.testbit (bits_uint l) k =
  (0 <=? k) && (k <? len l) && nth (Z.to_nat (len l - 1 - k)) l false.
Proof.
  pose proof (bits_uint_bound l). pose proof (len_nonneg l).
  destruct (Z.leb_spec 0 k); [|now rewrite Z.testbit_neg_r]. simpl.
  destruct (Z.ltb_spec k (len l)); simpl; [|now apply (testbit_above _ (len l))].
  rewrite <-(uint_bits_bits_uint l) at 3. rewrite nth_uint_bits by lia. f_equal. lia.
Qed.

Lemma length_pack n l : length (pack n l) = n.
Proof. unfold pack. now rewrite length_fmap, length_seq. Qed.

Lemma bytes_ok_pack n l : bytes_ok (pack n l).
Proof.
  unfold bytes_ok, pack. apply Forall_fmap, Forall_true. intros k. cbn [compose].
  pose proof (bits_uint_bound ((fun j => nth (8 * k + j) l false) <$> seq 0 8)) as H.
  unfold len in H. rewrite length_fmap, length_seq in H. change (2 ^ Z.of_nat 8) with 256 in H. lia.
Qed.

Lemma bit_pack n l i :
  0 <= i < 8 * Z.of_nat n -> bit (pack n l) i = nth (Z.to_nat i) l false.
Proof.
  intros Hi. unfold bit, byte_at, pack. rewrite nth_map_seq by lia.
  rewrite testbit_bits_uint. unfold len. rewrite length_fmap, length_seq.
  split_cmp. rewrite !andb_true_l, nth_map_seq by lia. f_equal. lia.
Qed.

Lemma pack_unique n d l :
  bytes_ok d -> length d = n ->
  (forall i, 0 <= i < 8 * Z.of_nat n -> bit d i = nth (Z.to_nat i) l false) -> d = pack n l.
Proof.
  intros Hd Hl H. apply bytes_eq_bits; [done|apply bytes_ok_pack|now rewrite length_pack|].
  intros i Hi. unfold len in Hi. rewrite bit_pack by lia. apply H. lia.
Qed.

Lemma bit_take_drop d a n i :
  0 <= a -> 0 <= i < 8 * n -> bit (take (Z.to_nat n) (drop (Z.to_nat a) d)) i = bit d (8 * a + i).
Proof.
  intros Ha Hi. unfold bit, byte_at. rewrite nth_take, nth_drop by lia.
  f_equal; [f_equal|]; lia.
Qed.

Lemma bytes_ok_take_drop d a n : bytes_ok d -> bytes_ok (take n (drop a d)).
Proof. intros. now apply Forall_take, Forall_drop. Qed.
#[export] Hint Resolve bytes_ok_pack bytes_ok_take_drop : bytes.

Lemma len_take_drop {A} (d : list A) a n :
  0 <= a -> 0 <= n -> a + n <= len d -> len (take (Z.to_nat n) (drop (Z.to_nat a) d)) = n.
Proof. intros. unfold len in *. rewrite length_take, length_drop. lia. Qed.

Lemma nth_app {A} (l k : list A) i d :
  nth i (l ++ k) d = if (i <? length l)%nat then nth i l d else nth (i - length l) k d.
Proof.
  destruct (Nat.ltb_spec i (length l)); [now apply app_nth1 | now apply app_nth2].
Qed.

(** ** In-range accesses *)

Lemma index_ok d i : 0 <= i < len d -> index d i = Ok (byte_at d i).
Proof. intros. unfold index. split_cmp. done. Qed.

Lemma write_ok d off new :
  0 <= off -> off + len new <= len d -> write d off new = Ok (splice d off new).
Proof. intros. unfold write. split_cmp. done. Qed.

Lemma subrange_ok d a b :
  0 <= a <= b -> b <= len d -> subrange d a b = Ok (take (Z.to_nat (b - a)) (drop (Z.to_nat a) d)).
Proof. intros. unfold subrange. split_cmp. done. Qed.

Lemma subrange_prefix d b : 0 <= b <= len d -> subrange d 0 b = Ok (take (Z.to_nat b) d).
Proof. intros. rewrite subrange_ok by lia. now rewrite Z.sub_0_r. Qed.

Lemma len_take {A} (d : list A) n : 0 <= n <= len d -> len (take (Z.to_nat n) d) = n.
Proof. unfold len. intros. rewrite length_take. lia. Qed.

Lemma bit_take d n i : 0 <= i < 8 * n -> bit (take (Z.to_nat n) d) i = bit d i.
Proof. intros. exact (bit_take_drop d 0 n i ltac:(lia) ltac:(lia)). Qed.

Lemma len_replicate {A} n (x : A) : len (replicate n x) = Z.of_nat n.
Proof. unfold len. now rewrite length_replicate. Qed.

Lemma len_splice d off new :
  0 <= off -> off + len new <= len d -> len (splice d off new) = len d.
Proof. intros. unfold len. f_equal. now apply length_splice. Qed.

Lemma len_be_bytes n v : len (be_bytes n v) = Z.of_nat n.
Proof. unfold len. now rewrite length_be_bytes. Qed.

Lemma be_bytes_S n v : be_bytes (S n) v = u8 (v ≫ (8 * Z.of_nat n)) :: be_bytes n v.
Proof.
  unfold be_bytes. cbn [seq fmap list_fmap]. f_equal; [f_equal; f_equal; lia|]. rewrite <-fmap_S_seq, <-list_fmap_compose. apply list_fmap_ext. intros _ k _. cbn. do 3 f_equal. lia.
Qed.

Lemma be_uint_be_bytes n v : 0 <= v < 2 ^ (8 * Z.of_nat n) -> be_uint (be_bytes n v) = v.
Proof.
  intros Hv. transitivity (v mod 2 ^ (8 * Z.of_nat n)); [|apply Z.mod_small; lia]. apply Z.bits_inj'. intros k Hk. rewrite testbit_be_uint by apply be_bytes_ok. rewrite len_be_bytes.
  destruct (Z.ltb_spec k (8 * Z.of_nat n)).
  - rewrite bit_be_bytes by lia. rewrite Z.mod_pow2_bits_low by lia. rewrite (proj2 (Z.leb_le 0 k)) by lia. cbn. f_equal. lia.
  - rewrite Z.mod_pow2_bits_high by lia. now rewrite andb_false_r.
Qed.

(** A write of one byte that depends on the byte it replaces. *)
Lemma bit_splice_one d off x i :
  0 <= off < len d -> 0 <= i ->
  bit (splice d off [x]) i = if i / 8 =? off then Z.testbit x (7 - i mod 8) else bit d i.
Proof.
  intros Ho Hi. rewrite bit_splice by (rewrite ?len_cons, ?len_nil; lia).
  rewrite len_cons, len_nil. split_cmp; try done. rewrite bit_one by lia. f_equal. lia.
Qed.

Lemma bit_cons x d i :
  0 <= i -> bit (x :: d) i = if i <? 8 then Z.testbit x (7 - i) else bit d (i - 8).
Proof.
  intros. unfold bit, byte_at. split_cmp.
  - replace (i / 8) with 0 by lia. cbn. f_equal. lia.
  - replace (Z.to_nat (i / 8)) with (S (Z.to_nat ((i - 8) / 8))) by lia. cbn [nth]. f_equal. lia.
Qed.

(** Bit strings indexed by integers. *)
Lemma nth_window_Z d a n k :
  0 <= k -> nth (Z.to_nat k) (window d a n) false = (k <? n) && bit d (a + k).
Proof.
  intros Hk. destruct (Z.ltb_spec k n); simpl.
  - rewrite nth_window by lia. f_equal. lia.
  - apply nth_overflow. unfold window. rewrite length_fmap, length_seq. lia.
Qed.

Lemma nth_uint_bits_Z n v k :
  0 <= k -> nth (Z.to_nat k) (uint_bits n v) false = (k <? n) && Z.testbit v (n - 1 - k).
Proof.
  intros Hk. destruct (Z.ltb_spec k n); simpl.
  - rewrite nth_uint_bits by lia. f_equal. lia.
  - apply nth_overflow. unfold uint_bits. rewrite length_fmap, length_seq. lia.
Qed.

Lemma nth_one_Z (v : bool) k : 0 <= k -> nth (Z.to_nat k) [v] false = (k =? 0) && v.
Proof.
  intros. destruct (Z.eqb_spec k 0) as [->|]; [done|]. apply nth_overflow. simpl. lia.
Qed.

Lemma bit_byte d i : Z.testbit (byte_at d (i / 8)) (7 - i mod 8) = bit d i.
Proof. done. Qed.

(** Adding numbers with no common bit is their union. *)
Lemma add_disjoint x y n :
  0 <= n -> 0 <= y < 2 ^ n -> (forall k, 0 <= k < n -> Z.testbit x k = false) ->
  x + y = Z.lor x y.
Proof.
  intros Hn Hy H. rewrite <-Z.lxor_lor, <-Z.add_nocarry_lxor; try done;
    apply Z.bits_inj'; intros k Hk; autorewrite with bitdb;
    (destruct (Z.ltb_spec k n); [now rewrite H | now rewrite (testbit_above y n), andb_false_r]).
Qed.

Lemma splice_again d i x z :
  0 <= i < len d -> splice (splice d i [x]) i [z] = splice d i [z].
Proof.
  intros Hi. assert (Hl : len (splice d i [x]) = len d) by (rewrite len_splice; rewrite ?len_cons, ?len_nil; lia).
  apply (list_eq_nth 0); [rewrite !length_splice; rewrite ?len_cons, ?len_nil; lia|].
  intros k _. rewrite <-(Nat2Z.id k).
  change (byte_at (splice (splice d i [x]) i [z]) (Z.of_nat k) = byte_at (splice d i [z]) (Z.of_nat k)).
  rewrite !byte_at_splice; rewrite ?len_cons, ?len_nil; try lia. split_cmp; done.
Qed.
