(* ===== verification/Sha256.v ===== *)
(** * SHA-256

    The function [sha256.Sum256] of the Go standard library, which cells are hashed
    with: a message is padded to blocks of 64 bytes, each block is expanded to 64
    words and mixed into a state of eight 32-bit words. *)

From S2P Require Import Prelude Bytes.
#[local] Open Scope Z_scope.

Module Sha256.

Definition rotr (n x : Z) : Z := Z.lor (x ≫ n) (u32 (x ≪ (32 - n))).
Definition Ch (x y z : Z) : Z := Z.lxor (Z.land x y) (Z.land (2 ^ 32 - 1 - x) z).
Definition Maj (x y z : Z) : Z := Z.lxor (Z.lxor (Z.land x y) (Z.land x z)) (Z.land y z).
Definition Sigma0 (x : Z) : Z := Z.lxor (Z.lxor (rotr 2 x) (rotr 13 x)) (rotr 22 x).
Definition Sigma1 (x : Z) : Z := Z.lxor (Z.lxor (rotr 6 x) (rotr 11 x)) (rotr 25 x).
Definition sigma0 (x : Z) : Z := Z.lxor (Z.lxor (rotr 7 x) (rotr 18 x)) (x ≫ 3).
Definition sigma1 (x : Z) : Z := Z.lxor (Z.lxor (rotr 17 x) (rotr 19 x)) (x ≫ 10).

(** The constants of the standard: the first 32 bits of the fractional parts of the
    cube roots of the first 64 primes, and of the square roots of the first eight. *)
Definition is_prime (n : Z) : bool :=
  forallb (fun d => negb (n mod Z.of_nat d =? 0)) (seq 2 (Z.to_nat n - 2)).
Definition primes : list Z := filter (fun n => is_prime n = true) (Z.of_nat <$> seq 2 310).

(** The integer cube root, one bit at a time from bit [n - 1] down. *)
Fixpoint cube_root (n : nat) (v r : Z) : Z :=
  match n with
  | O => r
  | S n => let r' := r + 2 ^ Z.of_nat n in cube_root n v (if r' ^ 3 <=? v then r' else r)
  end.

Definition K : list Z := Eval vm_compute in (fun p => u32 (cube_root 35 (p * 2 ^ 96) 0)) <$> primes.
Definition init : list Z := Eval vm_compute in (fun p => u32 (Z.sqrt (p * 2 ^ 64))) <$> take 8 primes.

(** The message schedule, newest word first. *)
Fixpoint schedule (n : nat) (ws : list Z) : list Z :=
  match n with
  | O => ws
  | S n =>
      let w i := nth i ws 0 in
      schedule n (u32 (sigma1 (w 1%nat) + w 6%nat + sigma0 (w 14%nat) + w 15%nat) :: ws)
  end.

Definition round (st : list Z) (kw : Z * Z) : list Z :=
  match st with
  | [a; b; c; d; e; f; g; h] =>
      let t1 := u32 (h + Sigma1 e + Ch e f g + fst kw + snd kw) in
      let t2 := u32 (Sigma0 a + Maj a b c) in
      [u32 (t1 + t2); a; b; c; u32 (d + t1); e; f; g]
  | _ => st
  end.

Definition block (st : list Z) (ws : list Z) : list Z :=
  zip_with (fun x y => u32 (x + y)) st (foldl round st (zip K (rev (schedule 48 (rev ws))))).

Fixpoint words (n : nat) (l : list Z) : list Z :=
  match n with
  | O => []
  | S n => be_uint (take 4 l) :: words n (drop 4 l)
  end.

Fixpoint blocks (n : nat) (st : list Z) (l : list Z) : list Z :=
  match n with
  | O => st
  | S n => blocks n (block st (words 16 l)) (drop 64 l)
  end.

Definition pad (m : list Z) : list Z :=
  m ++ 128 :: replicate (Z.to_nat ((55 - len m) mod 64)) 0 ++ be_bytes 8 (8 * len m).

Definition sum256 (m : list Z) : list Z :=
  let p := pad m in
  blocks (length p / 64) init p ≫= be_bytes 4.

(** The published digest of the message [abc]. *)
Example sum256_abc :
  be_uint (sum256 [97; 98; 99]) = 0xba7816bf8f01cfea414140de5dae2223b00361a396177a9cb410ff61f20015ad.
Proof. vm_compute. reflexivity. Qed.

(** ** The digest has 32 bytes *)

Lemma length_round st kw : length (round st kw) = length st.
Proof. do 9 (destruct st as [|? st]; [done|]). done. Qed.

Lemma length_foldl_round ks st : length (foldl round st ks) = length st.
Proof.
  revert st. induction ks as [|k ks IH]; intros st; [done|]. cbn [foldl]. now rewrite IH, length_round.
Qed.

Lemma length_block st ws : length (block st ws) = length st.
Proof. unfold block. rewrite length_zip_with, length_foldl_round. lia. Qed.

Lemma length_blocks n st l : length (blocks n st l) = length st.
Proof. revert st l. induction n as [|n IH]; intros; [done|]. cbn [blocks]. now rewrite IH, length_block. Qed.

Lemma length_be_concat l : length (l ≫= be_bytes 4) = (4 * length l)%nat.
Proof.
  induction l as [|x l IH]; [done|]. change ((x :: l) ≫= be_bytes 4) with (be_bytes 4 x ++ (l ≫= be_bytes 4)).
  rewrite length_app, IH. unfold be_bytes. rewrite length_fmap, length_seq. cbn [length]. lia.
Qed.

Lemma len_sum256 m : len (sum256 m) = 32.
Proof. unfold sum256, len. cbv zeta. now rewrite length_be_concat, length_blocks. Qed.

Lemma bytes_ok_sum256 m : bytes_ok (sum256 m).
Proof.
  unfold sum256. cbv zeta. generalize (blocks (length (pad m) / 64) init (pad m)). intros l.
  induction l as [|x l IH]; [apply Forall_nil_2|].
  change ((x :: l) ≫= be_bytes 4) with (be_bytes 4 x ++ (l ≫= be_bytes 4)). apply bytes_ok_app.
  split; [|exact IH]. unfold bytes_ok, be_bytes. apply Forall_fmap, Forall_forall. intros k _. cbn. unfold u8. lia.
Qed.

End Sha256.
