(* ===== verification/CellModel.v ===== *)
(** * Cells: level masks, types, stored hashes and depths

    Models [tvm/cell/level.go] and the parts of [tvm/cell/cell.go],
    [cell_layout.go] and [proof.go] that read a finished cell.  A cell here is
    loaded, untraced and not virtualized: the lazy-loading, tracing and
    virtualization metadata of [cellMeta] is left out. *)

From S2P Require Import Prelude Bytes.
From stdpp Require Import strings.
#[local] Open Scope Z_scope.

Definition maxDepth : Z := 1024.
Definition maxCellDataBytes : Z := 128.
Definition hashSize : Z := 32.
Definition depthSize : Z := 2.
Definition DataCellMaxLevel : Z := 3.

Module LevelMask.

(** [bits.OnesCount8] *)
Definition ones_count8 (m : Z) : Z :=
  foldl (fun acc k => acc + Z.b2z (Z.testbit m (Z.of_nat k))) 0 (seq 0 8).

Definition GetLevel (m : Z) : Z := bit_len m.
Definition getHashIndex (m : Z) : Z := ones_count8 m.
Definition getHashesCount (m : Z) : Z := getHashIndex m + 1.

Definition Apply (m level : Z) : Z :=
  let level := if level <? 0 then DataCellMaxLevel else level in
  Z.land m (u8 (u8 (1 ≪ level) - 1)).

Definition IsSignificant (m level : Z) : bool :=
  let level := if level <? 0 then DataCellMaxLevel else level in
  (level =? 0) || negb ((m ≫ (level - 1)) mod 2 =? 0).

End LevelMask.

Inductive Cell : Type := mkCell {
  c_data : list Z;
  c_bitsSz : Z;
  c_special : bool;
  c_mask : Z;
  c_refs : list Cell;
  c_hashes : list (list Z);
  c_depths : list Z
}.

Inductive CellType : Type :=
  | OrdinaryCellType
  | PrunedCellType
  | LibraryCellType
  | MerkleProofCellType
  | MerkleUpdateCellType
  | UnknownCellType.

#[export] Instance CellType_eq_dec : EqDecision CellType.
Proof. solve_decision. Defined.

(** [computeType], for a cell that is not a lazy placeholder. *)
Definition computeType (c : Cell) : CellType :=
  if negb (c_special c) then OrdinaryCellType
  else if c_bitsSz c <? 8 then UnknownCellType
  else
    let t := byte_at (c_data c) 0 in
    if t =? 1 then
      if 288 <=? c_bitsSz c then
        let msk := byte_at (c_data c) 1 in
        let lvl := LevelMask.GetLevel msk in
        if (0 <? lvl) && (lvl <=? 3)
           && (16 + (256 + 16) * (LevelMask.getHashIndex (LevelMask.Apply msk (lvl - 1)) + 1)
               <=? c_bitsSz c)
        then PrunedCellType else UnknownCellType
      else UnknownCellType
    else if t =? 3 then
      if (len (c_refs c) =? 1) && (c_bitsSz c =? 280) then MerkleProofCellType else UnknownCellType
    else if t =? 4 then
      if (len (c_refs c) =? 2) && (c_bitsSz c =? 552) then MerkleUpdateCellType else UnknownCellType
    else if t =? 2 then
      if c_bitsSz c =? 8 + 256 then LibraryCellType else UnknownCellType
    else UnknownCellType.

(** [hashAt] and [depthAt]: the hashes and depths a finished cell stores. *)
Definition hashAt (c : Cell) (i : Z) : list Z := nth (Z.to_nat i) (c_hashes c) [].
Definition depthAt (c : Cell) (i : Z) : Z := nth (Z.to_nat i) (c_depths c) 0.

Definition getHash (c : Cell) (level : Z) : list Z :=
  if c_mask c =? 0 then hashAt c 0
  else
    let hashIndex := LevelMask.getHashIndex (LevelMask.Apply (c_mask c) level) in
    if decide (computeType c = PrunedCellType) then
      if negb (hashIndex =? LevelMask.getHashIndex (c_mask c))
      then take 32 (drop (Z.to_nat (2 + hashIndex * 32)) (c_data c))
      else hashAt c 0
    else hashAt c hashIndex.

Definition getDepth (c : Cell) (level : Z) : Z :=
  if c_mask c =? 0 then depthAt c 0
  else
    let hashIndex := LevelMask.getHashIndex (LevelMask.Apply (c_mask c) level) in
    if decide (computeType c = PrunedCellType) then
      let prunedHashIndex := LevelMask.getHashIndex (c_mask c) in
      if negb (hashIndex =? prunedHashIndex)
      then be_uint (take 2 (drop (Z.to_nat (2 + 32 * prunedHashIndex + hashIndex * 2)) (c_data c)))
      else depthAt c 0
    else depthAt c hashIndex.

(** [Depth()] and [HashKey()] without a level argument: the top level. *)
Definition Depth (c : Cell) : Z := getDepth c DataCellMaxLevel.
Definition HashKey (c : Cell) : list Z := getHash c DataCellMaxLevel.
