(* ===== verification/Builder.v ===== *)
(** * The cell builder

    Models [tvm/cell/builder.go] and [builder_ops.go]: a 128-byte buffer, the
    number of bits used and up to four references.  Stores write whole words
    where they can, relying on every bit past [bitsSz] being zero; the theorems
    relate each store to appending bits to a bit string. *)

From S2P Require Import Prelude Bytes CellModel.
From stdpp Require Import strings.
#[local] Open Scope Z_scope.

Record Builder : Type := mkBuilder {
  b_data : list Z;
  b_bitsSz : Z;
  b_refs : list Cell
}.

Definition BeginCell : Builder := mkBuilder (replicate 128 0) 0 [].

Definition usedBytes (b : Builder) : Z := (b_bitsSz b + 7) / 8.
Definition BitsLeft (b : Builder) : Z := 1023 - b_bitsSz b.

Definition set_data (d : list Z) (n : Z) : M Builder unit :=
  modify (fun b => mkBuilder d n (b_refs b)).

(** ** Bits *)

Definition StoreBoolBit (value : bool) : M Builder unit :=
  b ← get_state;
  guard_err (1024 <=? b_bitsSz b + 1) ErrNotFit1023 ;;
  let byteIdx := b_bitsSz b / 8 in
  let bitMask := u8 (1 ≪ (7 - b_bitsSz b mod 8)) in
  x ← lift (index (b_data b) byteIdx);
  d ← lift (write (b_data b) byteIdx
              [if value then Z.lor x bitMask else Z.ldiff x bitMask]);
  set_data d (b_bitsSz b + 1).

(** The word-wise loop of [StoreSlice]: eight source bytes a step.  [fuel]
    bounds the steps; running out of it is never reached. *)
Fixpoint storeSliceWords (fuel : nat) (bytes d : list Z) (dstByte shift bytesNeeded sz i : Z)
    : outcome (list Z * Z) :=
  let invShift := 8 - shift in
  if (i + 8 <=? bytesNeeded) && ((i + 7) * 8 + invShift <? sz) && (dstByte + i + 9 <=? len d) then
    match fuel with
    | O => Panic
    | S fuel =>
        w ← subrange bytes i (i + 8);
        let v := be_uint w in
        x ← index d (dstByte + i);
        d ← write d (dstByte + i) [Z.lor x (u8 (v ≫ (56 + shift)))];
        d ← write d (dstByte + i + 1) (be_bytes 8 (u64 (v ≪ invShift)));
        storeSliceWords fuel bytes d dstByte shift bytesNeeded sz (i + 8)
    end
  else Ok (d, i).

(** Its tail loop, one source byte a step; [n] is the number of bytes left. *)
Fixpoint storeSliceTail (n : nat) (bytes d : list Z) (dstByte shift sz i : Z)
    : outcome (list Z) :=
  let invShift := 8 - shift in
  match n with
  | O => Ok d
  | S n =>
      src ← index bytes i;
      x ← index d (dstByte + i);
      d ← write d (dstByte + i) [Z.lor x (src ≫ shift)];
      d ← (if i * 8 + invShift <? sz
           then write d (dstByte + i + 1) [u8 (src ≪ invShift)] else Ok d);
      storeSliceTail n bytes d dstByte shift sz (i + 1)
  end.

(** [if rem := n % 8; rem != 0 { d[n/8] &= byte(0xFF << (8 - rem)) }] *)
Definition mask_tail (d : list Z) (n : Z) : outcome (list Z) :=
  let rem := n mod 8 in
  if negb (rem =? 0) then
    x ← index d (n / 8);
    write d (n / 8) [Z.land x (u8 (255 ≪ (8 - rem)))]
  else Ok d.

Definition StoreSlice (bytes : list Z) (sz : Z) : M Builder unit :=
  if sz =? 0 then mret tt else
  b ← get_state;
  guard_err (1024 <=? u64 (b_bitsSz b + sz)) ErrNotFit1023 ;;
  guard_err (u64 (len bytes * 8) <? sz) ErrSmallSlice ;;
  let bytesNeeded := (sz + 7) / 8 in
  let dstByte := b_bitsSz b / 8 in
  let dstBitOffset := b_bitsSz b mod 8 in
  d ← lift (if dstBitOffset =? 0 then
              w ← subrange bytes 0 bytesNeeded;
              write (b_data b) dstByte w
            else
              '(d, i) ← storeSliceWords (Z.to_nat bytesNeeded) bytes (b_data b) dstByte
                          dstBitOffset bytesNeeded sz 0;
              storeSliceTail (Z.to_nat (bytesNeeded - i)) bytes d dstByte dstBitOffset sz i);
  let n := b_bitsSz b + sz in
  d ← lift (mask_tail d n);
  set_data d n.

(** ** Integers *)

(** [big.Int.FillBytes]: the absolute value in exactly [n] bytes; it panics when
    the value needs more. *)
Definition fill_bytes (n : Z) (value : Z) : outcome (list Z) :=
  if bit_len value <=? 8 * n then Ok (be_bytes (Z.to_nat n) (Z.abs value)) else Panic.

(** The loop of [storeBig] that moves a partial value to the left side of its
    bytes, from the last byte to the first; it returns the moved bytes and the
    carry into the byte before them. *)
Fixpoint shiftLeftBytes (bytes : list Z) (offset : Z) : list Z * Z :=
  match bytes with
  | [] => ([], 0)
  | x :: rest =>
      let '(rest', add) := shiftLeftBytes rest offset in
      let toMove := Z.land x (u8 (255 ≪ offset)) in
      (u8 (u8 (x ≪ (8 - offset)) + add) :: rest', toMove ≫ offset)
  end.

Definition storeBig (value sz : Z) : M Builder unit :=
  let bytesToUse := (sz + 7) / 8 in
  buf ← lift (subrange (replicate 33 0) 0 bytesToUse);
  bytes ← lift (fill_bytes (len buf) value);
  let offset := sz mod 8 in
  let bytes := if 0 <? offset then fst (shiftLeftBytes bytes offset) else bytes in
  StoreSlice bytes sz.

(** A [*big.Int] argument is [None] when it is nil. *)
Definition StoreBigUInt (value : option Z) (sz : Z) : M Builder unit :=
  match value with
  | None => fail ErrNilBigInt
  | Some value =>
      guard_err (value <? 0) ErrNegative ;;
      guard_err (256 <? sz) ErrTooBigSize ;;
      if sz =? 0 then guard_err (negb (value =? 0)) ErrTooBigValue else
      guard_err (sz <? bit_len value) ErrTooBigValue ;;
      storeBig value sz
  end.

Definition fitsNegativeBigInt (value sz : Z) : bool :=
  if sz =? 0 then value =? 0
  else if 0 <=? value then false
  else bit_len (- value - 1) <=? sz - 1.

Definition StoreBigInt (value : option Z) (sz : Z) : M Builder unit :=
  match value with
  | None => fail ErrNilBigInt
  | Some value =>
      guard_err (257 <? sz) ErrTooBigSize ;;
      if sz =? 0 then guard_err (negb (value =? 0)) ErrTooBigValue else
      if 0 <=? value then
        guard_err (sz - 1 <? bit_len value) ErrTooBigValue ;;
        storeBig value sz
      else
        guard_err (negb (fitsNegativeBigInt value sz)) ErrTooBigValue ;;
        storeBig ((1 ≪ sz) + value) sz
  end.

Definition storeBigIntWrap (value : option Z) (sz : Z) : M Builder unit :=
  match value with
  | None => fail ErrNilBigInt
  | Some value =>
      guard_err (257 <? sz) ErrTooBigSize ;;
      if sz =? 0 then guard_err (negb (value =? 0)) ErrTooBigValue else
      if 0 <=? value then
        guard_err (sz <? bit_len value) ErrTooBigValue ;;
        storeBig value sz
      else
        guard_err (negb (fitsNegativeBigInt value sz)) ErrTooBigValue ;;
        storeBig ((1 ≪ sz) + value) sz
  end.

Definition StoreUInt (value sz : Z) : M Builder unit :=
  if sz =? 0 then guard_err (negb (value =? 0)) ErrTooBigValue else
  if 64 <? sz then StoreBigUInt (Some value) sz else
  guard_err ((sz <? 64) && negb (value ≫ sz =? 0)) ErrTooBigValue ;;
  if sz =? 1 then StoreBoolBit (value =? 1) else
  b ← get_state;
  if (b_bitsSz b mod 8 =? 0) && (sz mod 8 =? 0) then
    guard_err (1024 <=? b_bitsSz b + sz) ErrNotFit1023 ;;
    let dst := b_bitsSz b / 8 in
    d ← lift (if sz =? 8 then write (b_data b) dst [u8 value]
              else if sz =? 16 then write (b_data b) dst (be_bytes 2 (u16 value))
              else if sz =? 32 then write (b_data b) dst (be_bytes 4 (u32 value))
              else if sz =? 64 then write (b_data b) dst (be_bytes 8 value)
              else write (b_data b) dst
                     (take (Z.to_nat (sz / 8)) (be_bytes 8 (u64 (value ≪ (64 - sz))))));
    set_data d (b_bitsSz b + sz)
  else
    guard_err (1024 <=? b_bitsSz b + sz) ErrNotFit1023 ;;
    let idx := b_bitsSz b / 8 in
    if len (b_data b) <? idx + 8 then
      StoreSlice (be_bytes 8 (u64 (value ≪ (64 - sz)))) sz
    else
      let off := b_bitsSz b mod 8 in
      let v := u64 (value ≪ (64 - sz)) in
      w ← lift (subrange (b_data b) idx (idx + 8));
      d ← lift (write (b_data b) idx (be_bytes 8 (Z.lor (be_uint w) (v ≫ off))));
      d ← lift (if 64 <? off + sz
                then write d (idx + 8) [u8 (u64 (v ≪ (64 - off)) ≫ 56)] else Ok d);
      set_data d (b_bitsSz b + sz).

Definition fitsSignedInt64 (value sz : Z) : bool :=
  if sz =? 0 then value =? 0
  else if 64 <=? sz then true
  else
    let max := s64 (u64 (1 ≪ (sz - 1))) - 1 in
    let min := - s64 (u64 (1 ≪ (sz - 1))) in
    (min <=? value) && (value <=? max).

Definition StoreInt (value sz : Z) : M Builder unit :=
  guard_err (257 <? sz) ErrTooBigSize ;;
  if sz =? 0 then guard_err (negb (value =? 0)) ErrTooBigValue else
  if sz <=? 64 then
    guard_err (negb (fitsSignedInt64 value sz)) ErrTooBigValue ;;
    if 0 <=? value then StoreUInt (u64 value) sz
    else
      let u := u64 value in
      let u := if sz <? 64 then Z.land u (u64 (1 ≪ sz) - 1) else u in
      StoreUInt u sz
  else StoreBigInt (Some value) sz.

(** ** Variable-length integers *)

Definition StoreVarUInt (val sz : Z) : M Builder unit :=
  guard_err (sz =? 0) ErrInvalidSize ;;
  let ln := (bit_len val + 7) ≫ 3 in
  guard_err (sz <=? ln) ErrTooBigValue ;;
  let szLen := bit_len (sz - 1) in
  b ← get_state;
  guard_err (1024 <=? b_bitsSz b + szLen + ln * 8) ErrNotFit1023 ;;
  StoreUInt ln szLen ;;
  StoreUInt val (ln * 8).

Definition StoreBigVarUInt (val : option Z) (sz : Z) : M Builder unit :=
  match val with
  | None => fail ErrNilBigInt
  | Some v =>
      guard_err (sz =? 0) ErrInvalidSize ;;
      guard_err (v <? 0) ErrNegative ;;
      let ln := (bit_len v + 7) ≫ 3 in
      guard_err (sz <=? ln) ErrTooBigValue ;;
      let szLen := bit_len (sz - 1) in
      b ← get_state;
      guard_err (1024 <=? b_bitsSz b + szLen + ln * 8) ErrNotFit1023 ;;
      StoreUInt ln szLen ;;
      StoreBigUInt (Some v) (ln * 8)
  end.

Definition varIntBytes (val : Z) : Z :=
  if val =? 0 then 0
  else if 0 <? val then (bit_len val + 8) ≫ 3
  else (bit_len (- val - 1) + 8) ≫ 3.

Definition StoreBigVarInt (val : option Z) (sz : Z) : M Builder unit :=
  match val with
  | None => fail ErrNilBigInt
  | Some v =>
      guard_err (sz =? 0) ErrInvalidSize ;;
      let ln := varIntBytes v in
      guard_err (sz <=? ln) ErrTooBigValue ;;
      guard_err (32 <? ln) ErrTooBigSize ;;
      let szLen := bit_len (sz - 1) in
      b ← get_state;
      guard_err (1024 <=? b_bitsSz b + szLen + ln * 8) ErrNotFit1023 ;;
      StoreUInt ln szLen ;;
      StoreBigInt (Some v) (ln * 8)
  end.

Definition StoreCoins (value : Z) : M Builder unit := StoreVarUInt value 16.
Definition StoreBigCoins (value : option Z) : M Builder unit := StoreBigVarUInt value 16.

(** ** References *)

Definition push_ref (ref : Cell) : M Builder unit :=
  modify (fun b => mkBuilder (b_data b) (b_bitsSz b) (b_refs b ++ [ref])).

Definition storeRef (ref : option Cell) (checkDepth : bool) : M Builder unit :=
  b ← get_state;
  guard_err (4 <=? len (b_refs b)) ErrTooMuchRefs ;;
  match ref with
  | None => fail ErrRefCannotBeNil
  | Some ref =>
      guard_err (checkDepth && (maxDepth <=? Depth ref)) ErrCellDepthLimit ;;
      push_ref ref
  end.

Definition storeMaybeRef (ref : option Cell) (checkDepth : bool) : M Builder unit :=
  match ref with
  | None => StoreUInt 0 1
  | Some ref =>
      b ← get_state;
      guard_err (1024 <=? b_bitsSz b + 1) ErrNotFit1023 ;;
      guard_err (checkDepth && (maxDepth <=? Depth ref)) ErrCellDepthLimit ;;
      StoreUInt 1 1 ;;
      guard_err (4 <=? len (b_refs b)) ErrTooMuchRefs ;;
      push_ref ref
  end.

Definition validateCellRefDepthLimit {S} (refs : list Cell) : M S unit :=
  guard_err (existsb (fun ref => maxDepth <=? Depth ref) refs) ErrCellDepthLimit.

Definition storeBuilder (builder : Builder) (checkDepth : bool) : M Builder unit :=
  b ← get_state;
  guard_err (4 <? len (b_refs b) + len (b_refs builder)) ErrTooMuchRefs ;;
  guard_err (1024 <=? b_bitsSz b + b_bitsSz builder) ErrNotFit1023 ;;
  (if checkDepth then validateCellRefDepthLimit (b_refs builder) else mret tt) ;;
  put_state (mkBuilder (b_data b) (b_bitsSz b) (b_refs b ++ b_refs builder)) ;;
  data ← lift (subrange (b_data builder) 0 (usedBytes builder));
  StoreSlice data (b_bitsSz builder).

(** ** Runs of one bit, bit ranges, truncation *)

Definition CanExtendBy (b : Builder) (bits refs : Z) : bool :=
  if 1024 <=? b_bitsSz b then false
  else
    let refsLeft := 4 - len (b_refs b) in
    (0 <=? refsLeft) && (bits <? 1024 - b_bitsSz b) && (refs <=? refsLeft).

(** [d[i] |= mask] or [d[i] &^= mask] *)
Definition set_mask (d : list Z) (i mask : Z) (bit : bool) : outcome (list Z) :=
  x ← index d i;
  write d i [if bit then Z.lor x mask else Z.ldiff x mask].

Definition StoreSameBit (bit : bool) (bits : Z) : M Builder unit :=
  b ← get_state;
  guard_err (negb (CanExtendBy b bits 0)) ErrNotFit1023 ;;
  if bits =? 0 then mret tt else
  let start := b_bitsSz b in
  let byteIdx := start / 8 in
  let bitOffset := start mod 8 in
  d ← lift (
    '(d, byteIdx, rest) ←
      (if negb (bitOffset =? 0) then
         let n := Z.min bits (8 - bitOffset) in
         let mask := u8 (u16 (u16 (u16 (1 ≪ n) - 1) ≪ (8 - bitOffset - n))) in
         d ← set_mask (b_data b) byteIdx mask bit;
         Ok (d, byteIdx + 1, bits - n)
       else Ok (b_data b, byteIdx, bits));
    let fullBytes := rest / 8 in
    d ← write d byteIdx (replicate (Z.to_nat fullBytes) (if bit then 255 else 0));
    let byteIdx := byteIdx + fullBytes in
    let rest := rest mod 8 in
    d ← (if negb (rest =? 0) then set_mask d byteIdx (u8 (255 ≪ (8 - rest))) bit else Ok d);
    mask_tail d (start + bits));
  set_data d (start + bits).

Definition truncateBits (sz : Z) : M Builder unit :=
  b ← get_state;
  if b_bitsSz b <=? sz then mret tt else
  let from := sz / 8 in
  let rem := sz mod 8 in
  '(d, from) ← lift (if negb (rem =? 0) then
                        x ← index (b_data b) from;
                        d ← write (b_data b) from [Z.land x (u8 (255 ≪ (8 - rem)))];
                        Ok (d, from + 1)
                      else Ok (b_data b, from));
  let to := (b_bitsSz b + 7) / 8 in
  d ← lift (if from <? to then write d from (replicate (Z.to_nat (to - from)) 0) else Ok d);
  set_data d sz.

(** [appendBitRange]: the 64-bit loop and the byte loop over a source window at
    any bit offset.  Both loops take [fuel]; running out of it is never reached. *)
Fixpoint appendRangeWords (fuel : nat) (dst data : list Z)
    (srcByte srcShift dstByte dstShift left : Z) : outcome (list Z * Z * Z * Z) :=
  if 64 <=? left then
    match fuel with
    | O => Panic
    | S fuel =>
        w ← subrange data srcByte (srcByte + 8);
        value ← (if srcShift =? 0 then Ok (be_uint w)
                 else
                   x ← index data (srcByte + 8);
                   Ok (Z.lor (u64 (be_uint w ≪ srcShift)) (x ≫ (8 - srcShift))));
        dst ← (if dstShift =? 0 then write dst dstByte (be_bytes 8 value)
               else
                 y ← index dst dstByte;
                 dst ← write dst dstByte [Z.lor y (u8 (value ≫ (56 + dstShift)))];
                 write dst (dstByte + 1) (be_bytes 8 (u64 (value ≪ (8 - dstShift)))));
        appendRangeWords fuel dst data (srcByte + 8) srcShift (dstByte + 8) dstShift (left - 64)
    end
  else Ok (dst, srcByte, dstByte, left).

Fixpoint appendRangeTail (fuel : nat) (dst data : list Z)
    (srcByte srcShift dstByte dstShift left : Z) : outcome (list Z) :=
  if 0 <? left then
    match fuel with
    | O => Panic
    | S fuel =>
        x ← index data srcByte;
        let value := u8 (x ≪ srcShift) in
        value ← (if negb (srcShift =? 0) && (srcByte + 1 <? len data) then
                   x ← index data (srcByte + 1);
                   Ok (Z.lor value (x ≫ (8 - srcShift)))
                 else Ok value);
        dst ← (if dstShift =? 0 then write dst dstByte [value]
               else
                 y ← index dst dstByte;
                 dst ← write dst dstByte [Z.lor y (value ≫ dstShift)];
                 if 8 - dstShift <? left
                 then write dst (dstByte + 1) [u8 (value ≪ (8 - dstShift))] else Ok dst);
        if left <=? 8 then Ok dst
        else appendRangeTail fuel dst data (srcByte + 1) srcShift (dstByte + 1) dstShift (left - 8)
    end
  else Ok dst.

Definition appendBitRange (dst : list Z) (dstBitOffset : Z) (data : list Z) (bitOffset sz : Z)
    : outcome (list Z) :=
  let srcByte := bitOffset / 8 in
  let srcShift := bitOffset mod 8 in
  let dstByte := dstBitOffset / 8 in
  let dstShift := dstBitOffset mod 8 in
  dst ← (if (srcShift =? 0) && (dstShift =? 0) then
           w ← subrange data srcByte (srcByte + (sz + 7) / 8);
           write dst dstByte w
         else
           '(dst, srcByte, dstByte, rest) ←
             appendRangeWords (Z.to_nat sz) dst data srcByte srcShift dstByte dstShift sz;
           appendRangeTail (Z.to_nat rest) dst data srcByte srcShift dstByte dstShift rest);
  mask_tail dst (dstBitOffset + sz).

Definition storeBitRange (data : list Z) (bitOffset sz : Z) : M Builder unit :=
  if sz =? 0 then mret tt else
  b ← get_state;
  guard_err (1024 <=? u64 (b_bitsSz b + sz)) ErrNotFit1023 ;;
  guard_err (len data * 8 <? u64 (bitOffset + sz)) ErrSmallSlice ;;
  d ← lift (appendBitRange (b_data b) (b_bitsSz b) data bitOffset sz);
  set_data d (b_bitsSz b + sz).

(** ** The invariant and the bit string a builder holds *)

Record wf (b : Builder) : Prop := {
  wf_len : len (b_data b) = 128;
  wf_bytes : bytes_ok (b_data b);
  wf_sz : 0 <= b_bitsSz b <= 1023;
  wf_zero : forall i, b_bitsSz b <= i -> bit (b_data b) i = false;
  wf_refs : len (b_refs b) <= 4
}.

Definition bits (b : Builder) : list bool := window (b_data b) 0 (b_bitsSz b).

(** The builder that holds [bs] after the bits of [b]. *)
Definition append (b : Builder) (bs : list bool) : Builder :=
  mkBuilder (pack 128 (bits b ++ bs)) (b_bitsSz b + len bs) (b_refs b).

Lemma nth_bits_app b bs i :
  0 <= b_bitsSz b -> 0 <= i ->
  nth (Z.to_nat i) (bits b ++ bs) false =
  if i <? b_bitsSz b then bit (b_data b) i else nth (Z.to_nat (i - b_bitsSz b)) bs false.
Proof.
  intros Hb Hi. unfold bits. pose proof (length_window (b_data b) 0 (b_bitsSz b) Hb) as Hl.
  unfold len in Hl. rewrite nth_app.
  destruct (Z.ltb_spec i (b_bitsSz b)), (Nat.ltb_spec (Z.to_nat i) (length (window (b_data b) 0 (b_bitsSz b))));
    try lia; [rewrite nth_window by lia | ]; f_equal; lia.
Qed.

(** The writes of a store produce [append] when they put the right bits. *)
Lemma append_data_intro b bs d :
  0 <= b_bitsSz b -> len d = 128 -> bytes_ok d ->
  (forall i, 0 <= i < 1024 ->
     bit d i = if i <? b_bitsSz b then bit (b_data b) i
               else nth (Z.to_nat (i - b_bitsSz b)) bs false) ->
  d = b_data (append b bs).
Proof.
  intros Hsz Hl Hok H. unfold append. cbn [b_data]. unfold len in Hl.
  apply pack_unique; [done|lia|]. intros i Hi. rewrite nth_bits_app by lia. apply H. lia.
Qed.

Lemma append_intro b bs d n :
  0 <= b_bitsSz b -> len d = 128 -> bytes_ok d -> n = b_bitsSz b + len bs ->
  (forall i, 0 <= i < 1024 ->
     bit d i = if i <? b_bitsSz b then bit (b_data b) i
               else nth (Z.to_nat (i - b_bitsSz b)) bs false) ->
  mkBuilder d n (b_refs b) = append b bs.
Proof. intros ? ? ? -> ?. unfold append. f_equal. now apply append_data_intro. Qed.

Lemma bit_append b bs i :
  0 <= b_bitsSz b -> 0 <= i < 1024 ->
  bit (b_data (append b bs)) i =
  if i <? b_bitsSz b then bit (b_data b) i else nth (Z.to_nat (i - b_bitsSz b)) bs false.
Proof. intros. cbn [append b_data]. rewrite bit_pack by lia. now apply nth_bits_app. Qed.

Lemma len_append_data b bs : len (b_data (append b bs)) = 128.
Proof. unfold append, len. cbn [b_data]. now rewrite length_pack. Qed.

Lemma wf_append b bs : wf b -> b_bitsSz b + len bs <= 1023 -> wf (append b bs).
Proof.
  intros [Hl Hok Hsz Hz Hr] Hfit. pose proof (len_nonneg bs). split; cbn [append b_bitsSz b_refs].
  - apply len_append_data.
  - apply bytes_ok_pack.
  - lia.
  - intros i Hi. destruct (Z.ltb_spec i 1024).
    + rewrite bit_append by lia. split_cmp. apply nth_overflow. unfold len in *. lia.
    + apply bit_out. rewrite len_append_data. lia.
  - done.
Qed.

Lemma bits_append b bs :
  wf b -> b_bitsSz b + len bs <= 1023 -> bits (append b bs) = bits b ++ bs.
Proof.
  intros [Hl Hok Hsz Hz Hr] Hfit. pose proof (len_nonneg bs).
  unfold bits at 1. cbn [append b_bitsSz]. apply window_eq; [lia| |].
  - unfold bits. rewrite len_app, length_window by lia. done.
  - intros i Hi. rewrite bit_append, nth_bits_app by lia. done.
Qed.

Lemma append_nil b : wf b -> append b [] = b.
Proof.
  intros [Hl Hok Hsz Hz Hr]. symmetry. destruct b as [d n r]. cbn [b_data b_bitsSz b_refs] in *.
  apply (append_intro (mkBuilder d n r)); cbn [b_data b_bitsSz]; rewrite ?len_nil; try done; try lia.
  intros i Hi. split_cmp; [done|]. rewrite Hz by lia. now destruct (Z.to_nat _).
Qed.

Lemma append_app b xs ys :
  wf b -> b_bitsSz b + len xs <= 1023 -> append (append b xs) ys = append b (xs ++ ys).
Proof.
  intros Hwf Hfit. unfold append at 1. rewrite bits_append by done. unfold append.
  cbn [b_bitsSz b_refs]. now rewrite <-app_assoc, len_app, Z.add_assoc.
Qed.

Lemma wf_begin : wf BeginCell.
Proof.
  split; cbn [BeginCell b_data b_bitsSz b_refs]; try done; try lia.
  - unfold bytes_ok. apply Forall_replicate. lia.
  - intros i _. unfold bit, byte_at.
    destruct (nth_in_or_default (Z.to_nat (i / 8)) (replicate 128 0) 0) as [H | ->];
      [|apply Z.testbit_0_l].
    apply list_elem_of_In, elem_of_replicate in H as [-> _]. apply Z.testbit_0_l.
Qed.

(** The outcome of a store of [bs] that fails only for lack of room. *)
Definition store_fit (b : Builder) (bs : list bool) : outcome unit * Builder :=
  if 1023 <? b_bitsSz b + len bs then (Err ErrNotFit1023, b) else (Ok tt, append b bs).

Lemma store_fit_0 b v : wf b -> store_fit b (uint_bits 0 v) = (Ok tt, b).
Proof.
  intros Hwf. pose proof (wf_sz _ Hwf). unfold store_fit. change (uint_bits 0 v) with (@nil bool).
  change (len []) with 0. rewrite append_nil by done. split_cmp. done.
Qed.
