(* ===== verification/Finalize.v ===== *)
(** * Finishing cells

    Models [tvm/cell/finalize.go], [validate.go], the hash computation of [proof.go],
    the descriptors and cell body of [serialize.go] and [serialize_options.go], and the
    replacement of a reference in [ref_view.go].  A finished cell stores its level
    mask, and one hash and one depth for each significant level. *)

From S2P Require Import Prelude Bytes Sha256 CellModel Builder.
From stdpp Require Import strings.
#[local] Open Scope Z_scope.

(** ** Descriptors and body *)

Definition descriptors (c : Cell) (lvl : Z) : Z * Z :=
  let ln := c_bitsSz c / 8 * 2 in
  let ln := if negb (c_bitsSz c mod 8 =? 0) then ln + 1 else ln in
  let specBit := if c_special c then 8 else 0 in
  (u8 (u8 (len (c_refs c)) + specBit + lvl * 32), u8 ln).

(** [SerializeBOCBodyTo]: the data bytes, the last one closed by a one bit. *)
Definition SerializeBOCBodyTo (c : Cell) : outcome (list Z) :=
  let bodySize := (c_bitsSz c + 7) / 8 in
  if bodySize =? 0 then Ok [] else
  dst ← subrange (c_data c) 0 bodySize;
  let tailBits := c_bitsSz c mod 8 in
  if negb (tailBits =? 0) then
    x ← index dst (bodySize - 1);
    write dst (bodySize - 1) [Z.lor x (u8 (1 ≪ (7 - tailBits)))]
  else Ok dst.

(** ** Hashes and depths *)

Definition with_hashes (c : Cell) (hs : list (list Z)) (ds : list Z) : Cell :=
  mkCell (c_data c) (c_bitsSz c) (c_special c) (c_mask c) (c_refs c) hs ds.

(** The depth above references of the given depths, as a [uint16]. *)
Definition depth_above (ds : list Z) : outcome Z :=
  let depth := foldl Z.max 0 ds in
  if 0 <? len ds then
    let depth := u16 (depth + 1) in
    if maxDepth <? depth then Err ErrCellDepthLimit else Ok depth
  else Ok depth.

(** The bytes of [hashBuf]: descriptors, body or previous hash, depths, hashes. *)
Definition hash_buf (dsc : Z * Z) (body : list Z) (refs : list Cell) (level : Z) : list Z :=
  [fst dsc; snd dsc] ++ body ++ (refs ≫= (fun r => be_bytes 2 (getDepth r level)))
  ++ (refs ≫= (fun r => getHash r level)).

Definition calculateHashesOrdinary (c : Cell) : outcome Cell :=
  body ← SerializeBOCBodyTo c;
  depth ← depth_above ((fun r => getDepth r 0) <$> c_refs c);
  Ok (with_hashes c [Sha256.sum256 (hash_buf (descriptors c 0) body (c_refs c) 0)] [depth]).

Definition ErrHashLevelState : error := ErrText "invalid hash level state".

(** One round of the loop of [calculateHashes]; [st] is the index of the next hash
    and the hashes and depths computed so far. *)
Definition hash_level (c : Cell) (typ : CellType) (hashIndexOffset levelIndex : Z)
    (st : Z * list (list Z) * list Z) : outcome (Z * list (list Z) * list Z) :=
  let '(hashIndex, hs, ds) := st in
  let pruned := bool_decide (typ = PrunedCellType) in
  if negb (LevelMask.IsSignificant (c_mask c) levelIndex) then Ok st
  else if hashIndex <? hashIndexOffset then Ok (hashIndex + 1, hs, ds)
  else
    body ← (if hashIndex =? hashIndexOffset then
              if negb (levelIndex =? 0) && negb pruned then Err ErrHashLevelState
              else SerializeBOCBodyTo c
            else if (levelIndex =? 0) || pruned then Err ErrHashLevelState
            else Ok (nth (Z.to_nat (hashIndex - hashIndexOffset - 1)) hs []));
    let isMerkle := bool_decide (typ = MerkleProofCellType) || bool_decide (typ = MerkleUpdateCellType) in
    let childLevelIndex := if isMerkle then levelIndex + 1 else levelIndex in
    depth ← depth_above ((fun r => getDepth r childLevelIndex) <$> c_refs c);
    let sum := Sha256.sum256 (hash_buf (descriptors c (LevelMask.Apply (c_mask c) levelIndex))
                                body (c_refs c) childLevelIndex) in
    Ok (hashIndex + 1, hs ++ [sum], ds ++ [depth]).

Definition calculateHashes (c : Cell) : outcome Cell :=
  let levelMask := c_mask c in
  let typ := computeType c in
  if (levelMask =? 0) && bool_decide (typ = OrdinaryCellType) then calculateHashesOrdinary c
  else
    let totalHashCount := LevelMask.getHashIndex levelMask + 1 in
    let hashCount := if decide (typ = PrunedCellType) then 1 else totalHashCount in
    let hashIndexOffset := totalHashCount - hashCount in
    let level := LevelMask.GetLevel levelMask in
    '(_, hs, ds) ← foldl (fun acc levelIndex =>
                            st ← acc; hash_level c typ hashIndexOffset levelIndex st)
                      (Ok (0, [], [])) (Z.of_nat <$> seq 0 (Z.to_nat (level + 1)));
    Ok (with_hashes c hs ds).

(** ** Level masks and validation *)

Definition ordinaryLevelMask (refs : list Cell) : Z :=
  foldl (fun mask ref => Z.lor mask (c_mask ref)) 0 refs.

(** [setLevelMask] keeps three bits. *)
Definition setLevelMask (c : Cell) (mask : Z) : Cell :=
  mkCell (c_data c) (c_bitsSz c) (c_special c) (Z.land mask 7) (c_refs c) (c_hashes c) (c_depths c).

Definition type_code (t : CellType) : Z :=
  match t with
  | OrdinaryCellType => 0
  | PrunedCellType => 1
  | LibraryCellType => 2
  | MerkleProofCellType => 3
  | MerkleUpdateCellType => 4
  | UnknownCellType => 255
  end.

(** [specialCellRefs] on cells that are loaded: the references a cell of type [typ]
    must have. *)
Definition specialCellRefs (c : Cell) (typ : CellType) : outcome (list Cell) :=
  let refs := c_refs c in
  match typ with
  | PrunedCellType =>
      if negb (len refs =? 0) then Err (ErrText "pruned branch special cell has a cell reference") else Ok []
  | LibraryCellType =>
      if negb (len refs =? 0) then Err (ErrText "library special cell has a cell reference") else Ok []
  | MerkleProofCellType =>
      if negb (len refs =? 1) then Err (ErrText "wrong references count for a merkle proof special cell")
      else Ok refs
  | MerkleUpdateCellType =>
      if negb (len refs =? 2) then Err (ErrText "wrong references count for a merkle update special cell")
      else Ok refs
  | _ => Err (ErrText "unknown special cell type")
  end.

Definition ensure (c : bool) (what : string) : outcome unit := if c then Ok tt else Err (ErrText what).

Definition field (c : Cell) (off n : Z) : list Z := take (Z.to_nat n) (drop (Z.to_nat off) (c_data c)).

(** One hash and depth of a Merkle cell against the reference they describe. *)
Definition merkle_field_ok (c : Cell) (hashOff depthOff : Z) (ref : Cell) : outcome unit :=
  ensure (bool_decide (field c hashOff hashSize = getHash ref 0)) "hash mismatch in a merkle special cell" ;;
  ensure (be_uint (field c depthOff depthSize) =? getDepth ref 0) "depth mismatch in a merkle special cell".

Definition validateBoundaryCell (c : Cell) : outcome unit :=
  if negb (c_special c) then
    ensure (c_mask c =? ordinaryLevelMask (c_refs c)) "ordinary cell level mask mismatch"
  else if c_bitsSz c <? 8 then Err (ErrText "not enough data for a special cell")
  else
    let typ := computeType c in
    match typ with
    | PrunedCellType =>
        specialCellRefs c typ ;;
        ensure (2 <=? len (c_data c)) "not enough data for a pruned branch special cell" ;;
        ensure (c_mask c =? byte_at (c_data c) 1) "pruned branch level mask mismatch" ;;
        let level := LevelMask.GetLevel (c_mask c) in
        ensure (negb ((DataCellMaxLevel <? level) || (level =? 0))) "pruned branch has an invalid level" ;;
        let storedHashes := LevelMask.getHashesCount (LevelMask.Apply (c_mask c) (level - 1)) in
        ensure (c_bitsSz c =? (2 + storedHashes * (hashSize + depthSize)) * 8)
          "not enough data for a pruned branch special cell" ;;
        let depthOffset := 2 + storedHashes * hashSize in
        ensure (forallb (fun i => be_uint (field c (depthOffset + Z.of_nat i * depthSize) 2) <=? maxDepth)
                  (seq 0 (Z.to_nat storedHashes))) "pruned branch depth exceeds maximum"
    | LibraryCellType =>
        specialCellRefs c typ ;;
        ensure (c_bitsSz c =? 8 + 256) "not enough data for a library special cell" ;;
        ensure (c_mask c =? 0) "library level mask mismatch"
    | MerkleProofCellType =>
        ensure (c_bitsSz c =? 8 + (hashSize + depthSize) * 8) "not enough data for a merkle proof special cell" ;;
        refs ← specialCellRefs c typ;
        match refs with
        | ref :: _ =>
            merkle_field_ok c 1 (1 + hashSize) ref ;;
            ensure (c_mask c =? c_mask ref ≫ 1) "merkle proof level mask mismatch"
        | [] => Panic
        end
    | MerkleUpdateCellType =>
        ensure (c_bitsSz c =? 8 + (hashSize + depthSize) * 8 * 2) "not enough data for a merkle update special cell" ;;
        refs ← specialCellRefs c typ;
        match refs with
        | l :: r :: _ =>
            ensure (bool_decide (field c 1 hashSize = getHash l 0)) "first hash mismatch" ;;
            ensure (bool_decide (field c (1 + hashSize) hashSize = getHash r 0)) "second hash mismatch" ;;
            let firstDepthOff := 1 + hashSize * 2 in
            ensure (be_uint (field c firstDepthOff depthSize) =? getDepth l 0) "first depth mismatch" ;;
            ensure (be_uint (field c (firstDepthOff + depthSize) depthSize) =? getDepth r 0)
              "second depth mismatch" ;;
            ensure (c_mask c =? Z.lor (c_mask l) (c_mask r) ≫ 1) "merkle update level mask mismatch"
        | _ => Panic
        end
    | _ => Err (ErrText "unknown special cell type")
    end.

(** ** Finalization *)

(** [refreshSpecialCellLevelMask]: the mask of a special cell under construction. *)
Definition refreshSpecialCellLevelMask (c : Cell) : outcome Cell :=
  if c_bitsSz c <? 8 then Err (ErrText "not enough data for a special cell") else
  t ← index (c_data c) 0;
  if t =? type_code PrunedCellType then
    specialCellRefs c PrunedCellType ;;
    ensure (16 <=? c_bitsSz c) "not enough data for a pruned branch special cell" ;;
    mask ← index (c_data c) 1;
    Ok (setLevelMask c mask)
  else if t =? type_code LibraryCellType then
    specialCellRefs c LibraryCellType ;;
    Ok (setLevelMask c 0)
  else if t =? type_code MerkleProofCellType then
    refs ← specialCellRefs c MerkleProofCellType;
    match refs with ref :: _ => Ok (setLevelMask c (c_mask ref ≫ 1)) | [] => Panic end
  else if t =? type_code MerkleUpdateCellType then
    refs ← specialCellRefs c MerkleUpdateCellType;
    match refs with
    | l :: r :: _ => Ok (setLevelMask c (Z.lor (c_mask l) (c_mask r) ≫ 1))
    | _ => Panic
    end
  else Err (ErrText "unknown special cell type").

(** [fillCellShell] for the cell whose data [buildCellShellFromBuilder] copied. *)
Definition fillCellShell (data : list Z) (builder : Builder) (special : bool) : outcome Cell :=
  let refs := b_refs builder in
  if 4 <? len refs then Panic else
  let c := mkCell data (b_bitsSz builder) special 0 refs [] [] in
  fst (validateCellRefDepthLimit refs tt) ;;
  c ← (if special then refreshSpecialCellLevelMask c else Ok (setLevelMask c (ordinaryLevelMask refs)));
  validateBoundaryCell c ;;
  Ok c.

Definition buildCellShellFromBuilder (builder : Builder) (special : bool) : outcome Cell :=
  data ← subrange (b_data builder) 0 (usedBytes builder);
  fillCellShell data builder special.

Definition finalizeCellFromBuilder (builder : Builder) (special : bool) : outcome Cell :=
  c ← buildCellShellFromBuilder builder special;
  calculateHashes c.

Definition EndCellSpecial (special : bool) (b : Builder) : outcome Cell :=
  finalizeCellFromBuilder b special.

(** [EndCell] panics on an error. *)
Definition EndCell (b : Builder) : outcome Cell :=
  match finalizeCellFromBuilder b false with Ok c => Ok c | _ => Panic end.

(** ** Replacing references *)

Definition with_refs (c : Cell) (refs : list Cell) : Cell :=
  mkCell (c_data c) (c_bitsSz c) (c_special c) (c_mask c) refs (c_hashes c) (c_depths c).

Definition refreshLevelMaskForRefs (c : Cell) : outcome Cell :=
  let refs := c_refs c in
  if existsb (fun ref => maxDepth <=? Depth ref) refs then Err ErrCellDepthLimit else
  let mask := ordinaryLevelMask refs in
  if negb (c_special c) then Ok (setLevelMask c mask)
  else
    let c :=
      match computeType c, refs with
      | MerkleProofCellType, [ref] => setLevelMask c (c_mask ref ≫ 1)
      | MerkleUpdateCellType, [_; _] => setLevelMask c (mask ≫ 1)
      | _, _ => c
      end in
    validateBoundaryCell c ;;
    Ok c.

(** [cloneWithRefs] with at least one new reference: the same bits over [refs]. *)
Definition rehash_with_refs (c : Cell) (refs : list Cell) : outcome Cell :=
  c ← refreshLevelMaskForRefs (with_refs c refs);
  calculateHashes c.

(** [cellRefView.cloneWithRef] for a reference that differs from the one in place. *)
Definition cellRefView_cloneWithRef (c : Cell) (i : Z) (ref : Cell) : outcome Cell :=
  if i <? 0 then Err ErrNegative
  else if len (c_refs c) <=? i then Err ErrNoMoreRefs
  else rehash_with_refs c (<[Z.to_nat i := ref]> (c_refs c)).

(** [RebuildWithRefs] where a reference changes. *)
Definition RebuildWithRefs (c : Cell) (refs : list Cell) : outcome Cell :=
  if negb (len refs =? len (c_refs c)) then Err (ErrText "unexpected refs count")
  else rehash_with_refs c refs.
