(* ===== verification/BuilderSpec.v ===== *)
(** * Storing byte slices, bits and integers

    [StoreSlice] copies at a byte boundary, moves eight bytes a step otherwise
    and finishes byte by byte.  The lemmas show that every path appends exactly
    the requested bits and leaves no stray bit behind. *)

From S2P Require Import Prelude Bytes CellModel Builder.
#[local] Open Scope Z_scope.

(** ** [StoreSlice] *)

Section store_slice.
  Context (b : Builder) (bytes : list Z) (sz : Z).
  Hypothesis Hwf : wf b.
  Hypothesis Hbytes : bytes_ok bytes.
  Hypothesis Hsz : 0 < sz <= 8 * len bytes.
  Hypothesis Hfit : b_bitsSz b + sz <= 1023.

(** The first [m] bits of the source are in place, and nothing after them. *)
Definition filled (d : list Z) (m : Z) : Prop :=
  len d = 128 /\ bytes_ok d /\
  forall i, 0 <= i < 1024 ->
    bit d i = if i <? b_bitsSz b then bit (b_data b) i
              else (i <? b_bitsSz b + m) && bit bytes (i - b_bitsSz b).

(** All the bits to store are in place; the rest of the last byte is free. *)
Definition stored (d : list Z) : Prop :=
  len d = 128 /\ bytes_ok d /\
  forall i, 0 <= i < 1024 ->
    (i < b_bitsSz b + sz ->
     bit d i = if i <? b_bitsSz b then bit (b_data b) i else bit bytes (i - b_bitsSz b)) /\
    (8 * ((b_bitsSz b + sz + 7) / 8) <= i -> bit d i = false).

Lemma mask_tail_stored d :
  stored d -> exists d', mask_tail d (b_bitsSz b + sz) = Ok d' /\ 
  len d' = 128 /\ bytes_ok d' /\
  forall i, 0 <= i < 1024 ->
    bit d' i = if i <? b_bitsSz b then bit (b_data b) i
               else nth (Z.to_nat (i - b_bitsSz b)) (window bytes 0 sz) false.
Proof.
  intros (Hl & Hok & H). pose proof (wf_sz _ Hwf).
  unfold mask_tail. destruct (Z.eqb_spec ((b_bitsSz b + sz) mod 8) 0) as [Hr | Hr]; simpl negb; cbv iota.
  - exists d. split_and!; try done. intros i Hi. destruct (H i Hi) as (H1 & H2).
    split_cmp; [apply H1; lia|]. rewrite nth_window_Z, Z.add_0_l by lia. split_cmp; [apply H1; lia|].
    apply H2; lia.
  - rewrite index_ok by lia. cbn [mbind outcome_bind].
    rewrite write_ok by (rewrite ?len_cons, ?len_nil; lia).
    eexists. split; [done|]. split_and!.
    + rewrite len_splice; rewrite ?len_cons, ?len_nil; lia.
    + auto with bytes.
    + intros i Hi. rewrite bit_splice_one by lia. destruct (H i Hi) as (H1 & H2).
      destruct (Z.eqb_spec (i / 8) ((b_bitsSz b + sz) / 8)) as [He | He].
      * autorewrite with bitdb. rewrite <-He. change (Z.testbit (byte_at d (i / 8)) (7 - i mod 8)) with (bit d i).
        split_cmp; bool_simpl; rewrite ?H1, ?nth_window_Z, ?Z.add_0_l by lia; split_cmp; done.
      * split_cmp; [apply H1; lia|]. rewrite nth_window_Z, Z.add_0_l by lia. split_cmp; [apply H1; lia|].
        apply H2; lia.
Qed.

Lemma filled_start : filled (b_data b) 0.
Proof.
  split_and!; [apply Hwf..|]. intros i Hi. split_cmp; [done|]. now apply Hwf.
Qed.

Lemma filled_word d i :
  filled d (8 * i) -> 0 <= i -> b_bitsSz b mod 8 <> 0 -> i + 8 <= (sz + 7) / 8 ->
  (i + 7) * 8 + (8 - b_bitsSz b mod 8) < sz ->
  let w := take (Z.to_nat (i + 8 - i)) (drop (Z.to_nat i) bytes) in
  let d1 := splice d (b_bitsSz b / 8 + i)
              [Z.lor (byte_at d (b_bitsSz b / 8 + i)) (u8 (be_uint w ≫ (56 + b_bitsSz b mod 8)))] in
  filled (splice d1 (b_bitsSz b / 8 + i + 1) (be_bytes 8 (u64 (be_uint w ≪ (8 - b_bitsSz b mod 8)))))
         (8 * (i + 8)).
Proof.
  intros (Hl & Hok & H) Hi Hoff Hn Hs w d1. pose proof (wf_sz _ Hwf) as Hb.
  assert (Hd1 : len d1 = 128) by (unfold d1; rewrite len_splice; rewrite ?len_cons, ?len_nil; lia).
  assert (Hw : bytes_ok w) by now apply bytes_ok_take_drop.
  assert (Hlw : len w = 8) by (unfold w; rewrite len_take_drop; lia).
  assert (Hbit : forall k, Z.testbit (be_uint w) k =
                   (0 <=? k) && (k <? 64) && bit bytes (8 * i + 63 - k)).
  { intros k. rewrite testbit_be_uint, Hlw by done. split_cmp; bool_simpl; try done.
    unfold w. rewrite bit_take_drop by lia. f_equal. lia. }
  split_and!.
  - rewrite len_splice; rewrite ?len_be_bytes; lia.
  - unfold d1. auto 10 with bytes.
  - intros j Hj. rewrite bit_splice by (rewrite ?len_be_bytes; lia). rewrite len_be_bytes.
    specialize (H j Hj). unfold d1. rewrite bit_splice_one by lia.
    destruct (Z.eqb_spec (j / 8) (b_bitsSz b / 8 + i)) as [He | He].
    + split_cmp; bool_simpl; autorewrite with bitdb; rewrite <-He;
        change (Z.testbit (byte_at d (j / 8)) (7 - j mod 8)) with (bit d j);
        rewrite H, Hbit; split_cmp; bool_simpl; try done; f_equal; lia.
    + rewrite H. split_cmp; bool_simpl; try done; rewrite bit_be_bytes by lia;
        autorewrite with bitdb; rewrite Hbit; split_cmp; bool_simpl; try done; f_equal; lia.
Qed.

Lemma storeSliceWords_ok fuel d i :
  filled d (8 * i) -> 0 <= i -> b_bitsSz b mod 8 <> 0 -> i <= (sz + 7) / 8 ->
  (sz + 7) / 8 - i <= Z.of_nat fuel ->
  exists d' i', storeSliceWords fuel bytes d (b_bitsSz b / 8) (b_bitsSz b mod 8)
                  ((sz + 7) / 8) sz i = Ok (d', i') /\
    filled d' (8 * i') /\ i <= i' <= (sz + 7) / 8 /\
    (i' = i \/ 8 * (i' - 1) + (8 - b_bitsSz b mod 8) < sz).
Proof.
  revert d i. induction fuel as [|fuel IH]; intros d i Hf Hi Hoff Hle Hfuel;
    cbn [storeSliceWords]; rewrite (proj1 Hf); pose proof (wf_sz _ Hwf) as Hb.
  - split_cmp; bool_simpl; eauto 10 with lia.
  - destruct (Z.leb_spec (i + 8) ((sz + 7) / 8)); simpl; [|eauto 10 with lia].
    destruct (Z.ltb_spec ((i + 7) * 8 + (8 - b_bitsSz b mod 8)) sz); simpl; [|eauto 10 with lia].
    destruct (Z.leb_spec (b_bitsSz b / 8 + i + 9) 128); simpl; [|eauto 10 with lia].
    pose proof (filled_word d i Hf Hi Hoff ltac:(lia) ltac:(lia)) as Hf'. cbv zeta in Hf'.
    destruct Hf as (Hl & Hok & H').
    rewrite subrange_ok by lia. cbn [mbind outcome_bind]. rewrite index_ok by lia.
    cbn [mbind outcome_bind]. rewrite write_ok by (rewrite ?len_cons, ?len_nil; lia).
    cbn [mbind outcome_bind].
    rewrite write_ok by (rewrite ?len_be_bytes, ?len_splice, ?len_cons, ?len_nil;
                         rewrite ?len_cons, ?len_nil; lia).
    cbn [mbind outcome_bind].
    destruct (IH _ _ Hf') as (d' & i' & He & Hd & Hi' & Hs); try lia.
    exists d', i'. split_and!; try done; lia.
Qed.

(** One step of the tail loop, with and without the byte it spills into. *)
Lemma filled_byte d i :
  filled d (8 * i) -> 0 <= i -> b_bitsSz b mod 8 <> 0 -> i < (sz + 7) / 8 ->
  let d1 := splice d (b_bitsSz b / 8 + i)
              [Z.lor (byte_at d (b_bitsSz b / 8 + i)) (byte_at bytes i ≫ (b_bitsSz b mod 8))] in
  len d1 = 128 /\ bytes_ok d1 /\
  forall j, 0 <= j < 1024 ->
    bit d1 j = if j <? b_bitsSz b then bit (b_data b) j
               else (j <? b_bitsSz b + 8 * (i + 1)) && (j <? 8 * (b_bitsSz b / 8 + i + 1))
                    && bit bytes (j - b_bitsSz b).
Proof.
  intros (Hl & Hok & H) Hi Hoff Hn d1. pose proof (wf_sz _ Hwf) as Hb. split_and!.
  - unfold d1. rewrite len_splice; rewrite ?len_cons, ?len_nil; lia.
  - unfold d1. apply bytes_ok_splice; [done|]. apply bytes_ok_one, byte_ok_lor; [auto with bytes|].
    apply byte_ok_shiftr; [auto with bytes|lia].
  - intros j Hj. unfold d1. rewrite bit_splice_one by lia. specialize (H j Hj).
    destruct (Z.eqb_spec (j / 8) (b_bitsSz b / 8 + i)) as [He | He].
    + autorewrite with bitdb. rewrite <-He.
      change (Z.testbit (byte_at d (j / 8)) (7 - j mod 8)) with (bit d j). rewrite H.
      destruct (Z.ltb_spec (7 - j mod 8 + b_bitsSz b mod 8) 8).
      * replace (Z.testbit (byte_at bytes i) (7 - j mod 8 + b_bitsSz b mod 8))
          with (bit bytes (j - b_bitsSz b)) by (unfold bit; f_equal; [f_equal|]; lia).
        split_cmp; bool_simpl; done.
      * rewrite testbit_byte_at by (done || lia). split_cmp; bool_simpl; done.
    + rewrite H. split_cmp; bool_simpl; done.
Qed.

Lemma filled_spill d1 i :
  len d1 = 128 -> bytes_ok d1 ->
  (forall j, 0 <= j < 1024 ->
    bit d1 j = if j <? b_bitsSz b then bit (b_data b) j
               else (j <? b_bitsSz b + 8 * (i + 1)) && (j <? 8 * (b_bitsSz b / 8 + i + 1))
                    && bit bytes (j - b_bitsSz b)) ->
  0 <= i -> b_bitsSz b mod 8 <> 0 -> i * 8 + (8 - b_bitsSz b mod 8) < sz ->
  filled (splice d1 (b_bitsSz b / 8 + i + 1) [u8 (byte_at bytes i ≪ (8 - b_bitsSz b mod 8))])
         (8 * (i + 1)).
Proof.
  intros Hl Hok H Hi Hoff Hn. pose proof (wf_sz _ Hwf) as Hb. split_and!.
  - rewrite len_splice; rewrite ?len_cons, ?len_nil; lia.
  - auto with bytes.
  - intros j Hj. rewrite bit_splice_one by lia. specialize (H j Hj).
    destruct (Z.eqb_spec (j / 8) (b_bitsSz b / 8 + i + 1)) as [He | He].
    + autorewrite with bitdb. destruct (Z.leb_spec (8 - b_bitsSz b mod 8) (7 - j mod 8)).
      * replace (Z.testbit (byte_at bytes i) (7 - j mod 8 - (8 - b_bitsSz b mod 8)))
          with (bit bytes (j - b_bitsSz b)) by (unfold bit; f_equal; [f_equal|]; lia).
        split_cmp; bool_simpl; done.
      * rewrite (Z.testbit_neg_r (byte_at bytes i)) by lia. split_cmp; bool_simpl; done.
    + rewrite H. split_cmp; bool_simpl; done.
Qed.

Lemma filled_stored d i :
  filled d (8 * i) -> sz <= 8 * i -> 8 * (i - 1) + (8 - b_bitsSz b mod 8) < sz -> stored d.
Proof.
  intros (Hl & Hok & H) Hi Hs. split_and!; try done. intros j Hj. rewrite (H j Hj).
  pose proof (wf_sz _ Hwf). split; intros; split_cmp; bool_simpl; done.
Qed.

Lemma storeSliceTail_ok n d i :
  filled d (8 * i) -> 0 <= i -> b_bitsSz b mod 8 <> 0 -> i + Z.of_nat n = (sz + 7) / 8 ->
  (n = O -> 8 * (i - 1) + (8 - b_bitsSz b mod 8) < sz) ->
  exists d', storeSliceTail n bytes d (b_bitsSz b / 8) (b_bitsSz b mod 8) sz i = Ok d' /\ stored d'.
Proof.
  revert d i. induction n as [|n IH]; intros d i Hf Hi Hoff Hn Hlast; cbn [storeSliceTail].
  { exists d. split; [done|]. apply (filled_stored d i); [done|lia|auto]. }
  pose proof (wf_sz _ Hwf) as Hb.
  destruct (filled_byte d i Hf Hi Hoff ltac:(lia)) as (Hl1 & Hok1 & H1).
  destruct Hf as (Hl & Hok & H').
  rewrite index_ok by lia. cbn [mbind outcome_bind]. rewrite index_ok by lia.
  cbn [mbind outcome_bind]. rewrite write_ok by (rewrite ?len_cons, ?len_nil; lia).
  cbn [mbind outcome_bind].
  destruct (Z.ltb_spec (i * 8 + (8 - b_bitsSz b mod 8)) sz).
  - rewrite write_ok by (rewrite ?Hl1, ?len_cons, ?len_nil; lia). cbn [mbind outcome_bind].
    apply IH; try lia. now apply filled_spill.
  - assert (n = O) as -> by lia. cbn [mbind outcome_bind storeSliceTail].
    eexists. split; [done|]. split_and!; try done. intros j Hj. rewrite H1 by done.
    split; intros; split_cmp; bool_simpl; done.
Qed.

Lemma stored_aligned :
  b_bitsSz b mod 8 = 0 ->
  stored (splice (b_data b) (b_bitsSz b / 8) (take (Z.to_nat ((sz + 7) / 8)) bytes)).
Proof.
  intros Hoff. destruct Hwf as [Hl Hok Hb Hz Hr].
  assert (Hw : len (take (Z.to_nat ((sz + 7) / 8)) bytes) = (sz + 7) / 8)
    by (rewrite len_take; lia).
  split_and!.
  - rewrite len_splice; lia.
  - apply bytes_ok_splice; [done|]. now apply Forall_take.
  - intros j Hj. rewrite bit_splice, Hw by lia. split; intros.
    + split_cmp; simpl; try done.
      rewrite bit_take by lia. f_equal. lia.
    + split_cmp; simpl; apply Hz; lia.
Qed.

End store_slice.

(** [StoreSlice] on every input: the word-wise and byte-wise paths store exactly
    the first [sz] bits of the source. *)
Lemma StoreSlice_run b bytes sz :
  wf b -> bytes_ok bytes -> 0 <= sz < 2 ^ 64 -> 8 * len bytes < 2 ^ 63 ->
  StoreSlice bytes sz b =
    if sz =? 0 then (Ok tt, b)
    else if 1024 <=? u64 (b_bitsSz b + sz) then (Err ErrNotFit1023, b)
    else if 8 * len bytes <? sz then (Err ErrSmallSlice, b)
    else (Ok tt, append b (window bytes 0 sz)).
Proof.
  intros Hwf Hok Hsz Hlen. unfold StoreSlice. destruct (Z.eqb_spec sz 0); [done|]. mrun.
  destruct (Z.leb_spec 1024 (u64 (b_bitsSz b + sz))) as [|Hu]; [done|]. mrun.
  pose proof (len_nonneg bytes). pose proof (wf_sz _ Hwf).
  replace (u64 (len bytes * 8)) with (8 * len bytes) by (unfold u64; lia).
  destruct (Z.ltb_spec (8 * len bytes) sz) as [|Hs]; [done|].
  assert (Hfit : b_bitsSz b + sz <= 1023) by (unfold u64 in Hu; lia).
  match goal with |- context [lift ?o] => assert (exists d, o = Ok d /\ stored b bytes sz d) as (d & -> & Hd) end.
  { destruct (Z.eqb_spec (b_bitsSz b mod 8) 0).
    - rewrite subrange_prefix by lia. cbn [mbind outcome_bind]. pose proof (wf_len _ Hwf).
      rewrite write_ok by (rewrite ?len_take; lia). eexists. split; [done|]. apply stored_aligned; try done; lia.
    - destruct (storeSliceWords_ok b bytes sz Hwf Hok ltac:(lia) Hfit (Z.to_nat ((sz + 7) / 8)) (b_data b) 0)
        as (d & i & -> & Hf & Hi & Hs'); try lia; [now apply filled_start|].
      cbn [mbind outcome_bind]. apply storeSliceTail_ok; try done; lia. }
  mrun. destruct (mask_tail_stored b bytes sz Hwf ltac:(lia) Hfit d Hd) as (d' & -> & Hl & Hok' & H').
  mrun. unfold set_data, modify. f_equal. apply append_intro; try done; [lia|].
  rewrite length_window; lia.
Qed.

Lemma StoreSlice_ok b bytes sz :
  wf b -> bytes_ok bytes -> 0 <= sz <= 8 * len bytes -> 8 * len bytes < 2 ^ 63 ->
  b_bitsSz b + sz <= 1023 -> StoreSlice bytes sz b = (Ok tt, append b (window bytes 0 sz)).
Proof.
  intros Hwf ? ? ? ?. pose proof (wf_sz _ Hwf). rewrite StoreSlice_run by (done || lia).
  destruct (Z.eqb_spec sz 0) as [-> | ?]; [now rewrite append_nil|].
  replace (u64 (b_bitsSz b + sz)) with (b_bitsSz b + sz) by (unfold u64; lia).
  split_cmp. done.
Qed.

(** * Storing bits and integers

    What [StoreBoolBit], [StoreUInt], [StoreInt], and their big-integer
    versions do on every input. *)

(** ** Bits and integers *)

Lemma StoreBoolBit_run b v :
  wf b ->
  StoreBoolBit v b = if 1023 <=? b_bitsSz b then (Err ErrNotFit1023, b) else (Ok tt, append b [v]).
Proof.
  intros Hwf. destruct Hwf as [Hl Hok Hsz Hz Hr]. unfold StoreBoolBit. mrun.
  destruct (Z.leb_spec 1024 (b_bitsSz b + 1)), (Z.leb_spec 1023 (b_bitsSz b)); try lia; [done|].
  rewrite index_ok by lia. mrun. rewrite write_ok by (rewrite ?len_cons, ?len_nil; lia). mrun.
  unfold set_data, modify. f_equal. apply append_intro; try done; try lia.
  - rewrite len_splice; rewrite ?len_cons, ?len_nil; lia.
  - destruct v; auto with bytes.
  - intros i Hi. rewrite bit_splice_one by lia.
    destruct (Z.eqb_spec (i / 8) (b_bitsSz b / 8)) as [He | He].
    + rewrite <-He. destruct v; autorewrite with bitdb; rewrite bit_byte;
        split_cmp; bool_simpl; try done; rewrite nth_one_Z, ?Hz by lia; split_cmp; done.
    + split_cmp; [done|]. rewrite nth_one_Z, Hz by lia. split_cmp; done.
Qed.

(** The shift loop of [storeBig] moves every bit [8 - offset] places up. *)
Lemma shiftLeftBytes_ok l offset :
  bytes_ok l -> 0 < offset < 8 ->
  len (fst (shiftLeftBytes l offset)) = len l /\ bytes_ok (fst (shiftLeftBytes l offset)) /\
  snd (shiftLeftBytes l offset) = byte_at l 0 ≫ offset /\
  forall i, 0 <= i -> bit (fst (shiftLeftBytes l offset)) i = bit l (i + 8 - offset).
Proof.
  intros Hl Ho. induction l as [|x l IH].
  { split_and!; try done; [now rewrite Z.shiftr_0_l|]. intros i Hi.
    cbn [shiftLeftBytes fst]. now rewrite !bit_out by (rewrite (@len_nil Z); lia). }
  apply bytes_ok_cons in Hl as [Hx Hl]. destruct (IH Hl) as (Hlen & Hok & Hadd & Hbit). clear IH.
  cbn [shiftLeftBytes]. destruct (shiftLeftBytes l offset) as [rest add]. cbn [fst snd] in *. subst add.
  rewrite !len_cons. split_and!.
  - lia.
  - apply bytes_ok_cons. split; [apply byte_ok_u8|done].
  - unfold byte_at. cbn. apply Z.bits_inj'. intros k Hk.
    bitwise; [|]; rewrite (testbit_above x 8) by lia; done.
  - intros i Hi. pose proof (byte_at_ok l 0 Hl) as Hb.
    rewrite (add_disjoint _ _ (8 - offset)).
    + rewrite !bit_cons by lia. autorewrite with bitdb.
      split_cmp; bool_simpl.
      * rewrite (testbit_above (byte_at l 0) 8) by lia. rewrite orb_false_r. f_equal. lia.
      * rewrite (Z.testbit_neg_r x) by lia. unfold bit. simpl orb.
        replace ((i + 8 - offset - 8) / 8) with 0 by lia. f_equal. lia.
      * rewrite Hbit by lia. f_equal. lia.
    + lia.
    + split; [apply Z.shiftr_nonneg; lia|]. rewrite Z.shiftr_div_pow2 by lia.
      apply Z.div_lt_upper_bound; [lia|]. rewrite <-Z.pow_add_r by lia.
      replace (offset + (8 - offset)) with 8 by lia. lia.
    + intros k Hk. bitwise. now rewrite Z.testbit_neg_r by lia.
Qed.

Lemma StoreSlice_fit b bytes bs :
  wf b -> bytes_ok bytes -> len bs <= 8 * len bytes -> 8 * len bytes < 2 ^ 63 ->
  0 < len bs -> window bytes 0 (len bs) = bs -> StoreSlice bytes (len bs) b = store_fit b bs.
Proof.
  intros Hwf ? ? ? ? Hw. pose proof (wf_sz _ Hwf). rewrite StoreSlice_run, Hw by (done || lia).
  unfold store_fit. replace (u64 (b_bitsSz b + len bs)) with (b_bitsSz b + len bs) by (unfold u64; lia).
  split_cmp; done.
Qed.

Lemma storeBig_run b v sz :
  wf b -> 0 < sz <= 257 -> 0 <= v < 2 ^ sz -> storeBig v sz b = store_fit b (uint_bits sz v).
Proof.
  intros Hwf Hsz Hv. unfold storeBig.
  rewrite subrange_prefix by (rewrite len_replicate; lia). mrun.
  rewrite len_take by (rewrite len_replicate; lia). unfold fill_bytes.
  destruct (Z.leb_spec (bit_len v) (8 * ((sz + 7) / 8))) as [_ | Hb].
  2: { apply Z.lt_nge in Hb. rewrite bit_len_le in Hb by lia. contradict Hb.
       apply Z.lt_le_trans with (2 ^ sz); [lia|]. apply Z.pow_le_mono_r; lia. }
  mrun. rewrite Z.abs_eq by lia. set (n := Z.to_nat ((sz + 7) / 8)).
  assert (Hn : Z.of_nat n = (sz + 7) / 8) by lia.
  pose proof (length_uint_bits sz v ltac:(lia)) as Hl.
  rewrite <-Hl at 3. destruct (Z.ltb_spec 0 (sz mod 8)).
  - destruct (shiftLeftBytes_ok (be_bytes n v) (sz mod 8)) as (Hlen & Hok & _ & Hbit);
      [apply be_bytes_ok|lia|]. rewrite len_be_bytes in Hlen.
    apply StoreSlice_fit; try done; rewrite ?Hlen, ?Hl; try lia.
    apply window_uint_bits; [lia|]. intros i Hi. rewrite Hbit, bit_be_bytes by lia. f_equal. lia.
  - apply StoreSlice_fit; rewrite ?len_be_bytes, ?Hl; try done; try lia; [apply be_bytes_ok|].
    apply window_uint_bits; [lia|]. intros i Hi. rewrite bit_be_bytes by lia. f_equal. lia.
Qed.

Lemma StoreBigUInt_run b v sz :
  wf b -> 0 <= sz ->
  StoreBigUInt (Some v) sz b =
    if v <? 0 then (Err ErrNegative, b)
    else if 256 <? sz then (Err ErrTooBigSize, b)
    else if 2 ^ sz <=? v then (Err ErrTooBigValue, b)
    else store_fit b (uint_bits sz v).
Proof.
  intros Hwf Hsz. unfold StoreBigUInt. mrun.
  destruct (Z.ltb_spec v 0); [done|]. mrun. destruct (Z.ltb_spec 256 sz); [done|].
  destruct (Z.eqb_spec sz 0) as [-> |].
  - mrun. change (2 ^ 0) with 1. rewrite store_fit_0 by done. split_cmp; done.
  - mrun. pose proof (bit_len_le v sz) as Hb.
    destruct (Z.ltb_spec sz (bit_len v)), (Z.leb_spec (2 ^ sz) v); try lia; [done|].
    apply storeBig_run; try done; lia.
Qed.

(** The signed range of [sz] bits, and how the code tests its lower half. *)
Definition signed_range (v sz : Z) : bool :=
  if sz =? 0 then v =? 0 else (- 2 ^ (sz - 1) <=? v) && (v <? 2 ^ (sz - 1)).

Lemma fitsNegativeBigInt_range v sz :
  0 < sz -> v < 0 -> fitsNegativeBigInt v sz = (- 2 ^ (sz - 1) <=? v).
Proof.
  intros Hsz Hv. unfold fitsNegativeBigInt. pose proof (bit_len_le (- v - 1) (sz - 1)).
  split_cmp; done.
Qed.

Lemma StoreBigInt_run b v sz :
  wf b -> 0 <= sz ->
  StoreBigInt (Some v) sz b =
    if 257 <? sz then (Err ErrTooBigSize, b)
    else if signed_range v sz then store_fit b (uint_bits sz v) else (Err ErrTooBigValue, b).
Proof.
  intros Hwf Hsz. unfold StoreBigInt, signed_range. mrun. destruct (Z.ltb_spec 257 sz); [done|].
  destruct (Z.eqb_spec sz 0) as [-> |].
  { mrun. rewrite store_fit_0 by done. split_cmp; done. }
  assert (H2 : 2 ^ sz = 2 * 2 ^ (sz - 1)) by (rewrite <-Z.pow_succ_r by lia; f_equal; lia).
  pose proof (Z.pow_pos_nonneg 2 (sz - 1)).
  destruct (Z.leb_spec 0 v).
  - mrun. pose proof (bit_len_le v (sz - 1)).
    split_cmp; simpl; try done. apply storeBig_run; try done; lia.
  - mrun. rewrite fitsNegativeBigInt_range by lia.
    destruct (Z.leb_spec (- 2 ^ (sz - 1)) v); simpl.
    + split_cmp. rewrite Z.shiftl_1_l, storeBig_run by (done || lia). f_equal.
      rewrite <-uint_bits_mod by lia. replace (2 ^ sz + v) with (v + 1 * 2 ^ sz) by lia.
      rewrite Z.mod_add by lia. now apply uint_bits_mod.
    + done.
Qed.

(** ** [StoreUInt] *)

(** Whole bytes written at a byte boundary. *)
Lemma write_aligned b new sz v :
  wf b -> b_bitsSz b mod 8 = 0 -> 8 * len new = sz -> bytes_ok new ->
  b_bitsSz b + sz <= 1023 -> (forall i, 0 <= i < sz -> bit new i = Z.testbit v (sz - 1 - i)) ->
  write (b_data b) (b_bitsSz b / 8) new = Ok (b_data (append b (uint_bits sz v))).
Proof.
  intros [Hl Hok Hsz Hz Hr] Ha Hn Hnew Hfit Hbits. pose proof (len_nonneg new).
  rewrite write_ok by lia. f_equal.
  apply append_data_intro; [lia|rewrite len_splice; lia|auto with bytes|].
  intros i Hi. rewrite bit_splice by lia. split_cmp; simpl; try done.
  - rewrite Hbits, nth_uint_bits_Z by lia. split_cmp. simpl. f_equal. lia.
  - rewrite Hz, nth_uint_bits_Z by lia. now split_cmp.
Qed.

Lemma set_append b bs n :
  n = b_bitsSz b + len bs -> set_data (b_data (append b bs)) n b = (Ok tt, append b bs).
Proof. now intros ->. Qed.

(** A read-modify-write of the word the value starts in, and the byte after it. *)
Lemma word_append b sz v :
  wf b -> 1 < sz <= 64 -> b_bitsSz b + sz <= 1023 -> b_bitsSz b / 8 + 8 <= 128 -> 0 <= v < 2 ^ sz ->
  let idx := b_bitsSz b / 8 in
  let off := b_bitsSz b mod 8 in
  let u := u64 (v ≪ (64 - sz)) in
  let w := take (Z.to_nat (idx + 8 - idx)) (drop (Z.to_nat idx) (b_data b)) in
  let d1 := splice (b_data b) idx (be_bytes 8 (Z.lor (be_uint w) (u ≫ off))) in
  (if 64 <? off + sz then write d1 (idx + 8) [u8 (u64 (u ≪ (64 - off)) ≫ 56)] else Ok d1)
  = Ok (b_data (append b (uint_bits sz v))).
Proof.
  intros [Hl Hok Hsz Hz Hr] Hs Hfit Hidx Hv idx off u w d1.
  assert (Hw : bytes_ok w) by now apply bytes_ok_take_drop.
  assert (Hlw : len w = 8) by (unfold w; rewrite len_take_drop; lia).
  assert (Hd1 : len d1 = 128) by (unfold d1; rewrite len_splice; rewrite ?len_be_bytes; lia).
  assert (Hok1 : bytes_ok d1) by (unfold d1; auto with bytes).
  assert (Hu : forall k, Z.testbit u k = (k <? 64) && (0 <=? k) && Z.testbit v (k - (64 - sz)))
    by (intros; unfold u; bitwise).
  assert (Hbit : forall i, 0 <= i < 1024 -> bit d1 i =
    if i <? b_bitsSz b then bit (b_data b) i
    else (i <? 8 * (idx + 8)) && (i <? b_bitsSz b + sz) && Z.testbit v (sz - 1 - (i - b_bitsSz b))).
  { intros i Hi. unfold d1. rewrite bit_splice by (rewrite ?len_be_bytes; lia). rewrite len_be_bytes.
    destruct (Z.leb_spec (8 * idx) i), (Z.ltb_spec i (8 * (idx + Z.of_nat 8))); simpl; try lia.
    - rewrite bit_be_bytes by lia. autorewrite with bitdb. rewrite testbit_be_uint, Hlw, Hu by done.
      unfold w. destruct (Z.ltb_spec i (b_bitsSz b)).
      + split_cmp. bool_simpl. rewrite bit_take_drop by lia. f_equal. lia.
      + split_cmp; bool_simpl; rewrite ?bit_take_drop, ?Hz by lia; simpl; try (f_equal; lia);
          rewrite ?Z.testbit_neg_r by lia; done.
    - rewrite Hz by lia. now split_cmp.
    - now split_cmp. }
  assert (Hdone : forall d', len d' = 128 -> bytes_ok d' -> (forall i, 0 <= i < 1024 -> bit d' i =
    if i <? b_bitsSz b then bit (b_data b) i
    else (i <? b_bitsSz b + sz) && Z.testbit v (sz - 1 - (i - b_bitsSz b))) ->
    d' = b_data (append b (uint_bits sz v))).
  { intros d' ? ? Hd'. apply append_data_intro; try done; [lia|]. intros i Hi. rewrite Hd' by done. split_cmp; simpl; try done; rewrite nth_uint_bits_Z by lia;
      split_cmp; done. }
  destruct (Z.ltb_spec 64 (off + sz)).
  - rewrite write_ok by (rewrite ?len_cons, ?len_nil; lia). f_equal. apply Hdone.
    + rewrite len_splice; rewrite ?len_cons, ?len_nil; lia.
    + auto with bytes.
    + intros i Hi. rewrite bit_splice_one, Hbit by lia.
      destruct (Z.eqb_spec (i / 8) (idx + 8)).
      * autorewrite with bitdb. rewrite Hu. split_cmp; bool_simpl; try (f_equal; lia);
          rewrite ?Z.testbit_neg_r by lia; done.
      * split_cmp; done.
  - f_equal. apply Hdone; try done. intros i Hi. rewrite Hbit by done. split_cmp; done.
Qed.

(** The whole-byte stores of [StoreUInt], whichever width they take. *)
Lemma store_aligned b v sz :
  wf b -> b_bitsSz b mod 8 = 0 -> sz mod 8 = 0 -> 1 < sz <= 64 -> 0 <= v < 2 ^ sz ->
  b_bitsSz b + sz <= 1023 ->
  (if sz =? 8 then write (b_data b) (b_bitsSz b / 8) [u8 v]
   else if sz =? 16 then write (b_data b) (b_bitsSz b / 8) (be_bytes 2 (u16 v))
   else if sz =? 32 then write (b_data b) (b_bitsSz b / 8) (be_bytes 4 (u32 v))
   else if sz =? 64 then write (b_data b) (b_bitsSz b / 8) (be_bytes 8 v)
   else write (b_data b) (b_bitsSz b / 8)
          (take (Z.to_nat (sz / 8)) (be_bytes 8 (u64 (v ≪ (64 - sz))))))
  = Ok (b_data (append b (uint_bits sz v))).
Proof.
  intros Hwf Ha Hm Hs Hv Hfit.
  destruct (Z.eqb_spec sz 8) as [-> |]; [|destruct (Z.eqb_spec sz 16) as [-> |]];
    [| |destruct (Z.eqb_spec sz 32) as [-> |]]; [| | |destruct (Z.eqb_spec sz 64) as [-> |]].
  5: { apply write_aligned; try done; [rewrite len_take; rewrite ?len_be_bytes; lia| |].
       - apply Forall_take, be_bytes_ok.
       - intros i Hi. rewrite bit_take, bit_be_bytes by lia. bitwise. }
  1: apply write_aligned; try done; auto with bytes; intros i Hi; rewrite bit_one by lia; bitwise.
  all: apply write_aligned; try done; auto with bytes; intros i Hi; rewrite bit_be_bytes by lia; bitwise.
Qed.

Lemma shiftr_zero v sz : 0 <= v -> 0 <= sz -> (v ≫ sz =? 0) = (v <? 2 ^ sz).
Proof.
  intros. rewrite Z.shiftr_div_pow2 by done. pose proof (Z.pow_pos_nonneg 2 sz).
  destruct (Z.ltb_spec v (2 ^ sz)).
  - now rewrite Z.div_small.
  - apply Z.eqb_neq. pose proof (Z.div_le_mono (2 ^ sz) v (2 ^ sz)). rewrite Z.div_same in *; lia.
Qed.

(** [StoreUInt] on every value, size and builder: the boolean, aligned, word-wide
    and near-the-end paths all append the [sz] bits of the value. *)
Lemma StoreUInt_run b v sz :
  wf b -> 0 <= v < 2 ^ 64 -> 0 <= sz ->
  StoreUInt v sz b =
    if 256 <? sz then (Err ErrTooBigSize, b)
    else if 2 ^ sz <=? v then (Err ErrTooBigValue, b)
    else store_fit b (uint_bits sz v).
Proof.
  intros Hwf Hv Hsz. unfold StoreUInt.
  destruct (Z.eqb_spec sz 0) as [-> |].
  { mrun. rewrite store_fit_0 by done. change (2 ^ 0) with 1. split_cmp; done. }
  destruct (Z.ltb_spec 64 sz).
  { rewrite StoreBigUInt_run by done. split_cmp; done. }
  mrun. rewrite shiftr_zero by lia. pose proof (Z.pow_le_mono_r 2 sz 64) as Hp.
  assert (Hg : (sz <? 64) && negb (v <? 2 ^ sz) = (2 ^ sz <=? v)).
  { destruct (Z.eq_dec sz 64) as [-> |]; split_cmp; done. }
  rewrite Hg. destruct (Z.ltb_spec 256 sz); [lia|]. destruct (Z.leb_spec (2 ^ sz) v); [done|].
  destruct (Z.eqb_spec sz 1) as [-> |].
  { rewrite StoreBoolBit_run by done. unfold store_fit.
    replace (uint_bits 1 v) with [v =? 1] by (change (2 ^ 1) with 2 in *; 
      assert (v = 0 \/ v = 1) as [-> | ->] by lia; done).
    change (len [v =? 1]) with 1. split_cmp; done. }
  mrun. pose proof (length_uint_bits sz v ltac:(lia)) as Hl. unfold store_fit. rewrite Hl.
  assert (Hg' : (1024 <=? b_bitsSz b + sz) = (1023 <? b_bitsSz b + sz)) by (split_cmp; done).
  destruct (Z.eqb_spec (b_bitsSz b mod 8) 0), (Z.eqb_spec (sz mod 8) 0); cbn [andb];
    mrun; rewrite Hg'; (destruct (Z.ltb_spec 1023 (b_bitsSz b + sz)); [done|]).
  1: rewrite store_aligned by (done || lia); mrun; apply set_append; lia.
  all: pose proof (wf_sz _ Hwf); rewrite (wf_len _ Hwf);
    (destruct (Z.ltb_spec 128 (b_bitsSz b / 8 + 8));
      [|rewrite subrange_ok by (rewrite ?(wf_len _ Hwf); lia); mrun;
        rewrite write_ok by (rewrite ?(wf_len _ Hwf), ?len_be_bytes; lia); mrun;
        rewrite word_append by (done || lia); mrun; apply set_append; lia]).
  all: rewrite <-Hl at 2; rewrite StoreSlice_fit; rewrite ?len_be_bytes, ?Hl; try done; try lia;
    [unfold store_fit; rewrite Hl; split_cmp; done | apply be_bytes_ok | ].
  all: apply window_uint_bits; [lia|]; intros i Hi; rewrite bit_be_bytes by lia; bitwise.
Qed.

(** ** Signed integers *)

Lemma uint_bits_eq_mod n v w : 0 <= n -> v mod 2 ^ n = w mod 2 ^ n -> uint_bits n v = uint_bits n w.
Proof. intros Hn H. now rewrite <-(uint_bits_mod n v), H, uint_bits_mod by done. Qed.

Lemma fitsSignedInt64_range v sz :
  - 2 ^ 63 <= v < 2 ^ 63 -> 0 < sz <= 64 -> fitsSignedInt64 v sz = signed_range v sz.
Proof.
  intros Hv Hsz. unfold fitsSignedInt64, signed_range.
  destruct (Z.eqb_spec sz 0); [lia|]. destruct (Z.leb_spec 64 sz).
  - replace sz with 64 by lia. simpl Z.sub. split_cmp; done.
  - rewrite Z.shiftl_1_l. pose proof (Z.pow_pos_nonneg 2 (sz - 1)).
    pose proof (Z.pow_le_mono_r 2 (sz - 1) 62).
    assert (Hs : s64 (u64 (2 ^ (sz - 1))) = 2 ^ (sz - 1)).
    { unfold s64, u64. rewrite (Z.mod_small (2 ^ (sz - 1))) by lia. rewrite Z.mod_small; lia. }
    rewrite Hs. split_cmp; done.
Qed.

Lemma StoreInt_run b v sz :
  wf b -> - 2 ^ 63 <= v < 2 ^ 63 -> 0 <= sz ->
  StoreInt v sz b =
    if 257 <? sz then (Err ErrTooBigSize, b)
    else if signed_range v sz then store_fit b (uint_bits sz v) else (Err ErrTooBigValue, b).
Proof.
  intros Hwf Hv Hsz. unfold StoreInt. mrun. destruct (Z.ltb_spec 257 sz); [done|].
  destruct (Z.eqb_spec sz 0) as [-> |].
  { mrun. rewrite store_fit_0 by done. unfold signed_range. split_cmp; done. }
  destruct (Z.leb_spec sz 64).
  2: { rewrite StoreBigInt_run by done. now split_cmp. }
  mrun. rewrite fitsSignedInt64_range by lia. destruct (signed_range v sz) eqn:Hr; [|done].
  cbn [negb]. unfold signed_range in Hr.
  assert (Hr' : - 2 ^ (sz - 1) <= v < 2 ^ (sz - 1)) by (destruct (Z.eqb_spec sz 0); [lia|]; lia).
  assert (H2 : 2 ^ sz = 2 * 2 ^ (sz - 1)) by (rewrite <-Z.pow_succ_r by lia; f_equal; lia).
  pose proof (Z.pow_le_mono_r 2 sz 64).
  destruct (Z.leb_spec 0 v).
  - rewrite StoreUInt_run; [|done|unfold u64; lia|lia].
    replace (u64 v) with v by (unfold u64; lia). split_cmp. done.
  - set (u := if sz <? 64 then _ else _).
    assert (Hu : u = v mod 2 ^ sz).
    { unfold u. destruct (Z.ltb_spec sz 64); [|unfold u64; now replace sz with 64 by lia].
      rewrite Z.shiftl_1_l. unfold u64. pose proof (Z.pow_lt_mono_r 2 sz 64).
      rewrite (Z.mod_small (2 ^ sz)) by lia. replace (2 ^ sz - 1) with (Z.ones sz) by (rewrite Z.ones_equiv; lia).
      rewrite Z.land_ones by lia.
      rewrite Z.mod_mod_divide; [done|]. exists (2 ^ (64 - sz)). rewrite <-Z.pow_add_r by lia. f_equal. lia. }
    rewrite Hu. pose proof (Z.mod_pos_bound v (2 ^ sz)).
    rewrite StoreUInt_run by (done || lia). split_cmp. rewrite uint_bits_mod by lia. done.
Qed.
