(* ===== verification/BuilderOps.v ===== *)
(** * Variable-length integers, references, whole builders, runs and truncation

    The composite stores of the builder, described on every input by the bits
    and references they append and the error they report otherwise. *)

From S2P Require Import Prelude Bytes CellModel Builder BuilderSpec.
#[local] Open Scope Z_scope.

(** ** Variable-length integers *)

(** The length prefix and the bytes of [VarUInteger sz]. *)
Definition var_uint_bits (v sz : Z) : list bool :=
  let ln := (bit_len v + 7) / 8 in
  uint_bits (bit_len (sz - 1)) ln ++ uint_bits (8 * ln) v.

Definition var_int_bits (v sz : Z) : list bool :=
  let ln := varIntBytes v in
  uint_bits (bit_len (sz - 1)) ln ++ uint_bits (8 * ln) v.

Lemma bit_len_bound v : 0 <= v -> v < 2 ^ bit_len v.
Proof. intros. apply bit_len_le; [done|apply bit_len_nonneg|lia]. Qed.

Lemma len_two_bits n v m w : 0 <= n -> 0 <= m -> len (uint_bits n v ++ uint_bits m w) = n + m.
Proof. intros. now rewrite len_app, !length_uint_bits. Qed.

(** Two stores that fit together append both bit strings. *)
Lemma store_two b xs ys (m : M Builder unit) :
  wf b -> b_bitsSz b + len xs + len ys <= 1023 ->
  m (append b xs) = store_fit (append b xs) ys -> m (append b xs) = store_fit b (xs ++ ys).
Proof.
  intros Hwf Hfit ->. unfold store_fit. rewrite len_app. cbn [append b_bitsSz].
  pose proof (len_nonneg ys). split_cmp. now rewrite append_app by (done || lia).
Qed.

(** The length prefix of a variable-length integer always goes in when the
    code has checked that the whole value fits. *)
Lemma store_prefix b ln sz ys (k : M Builder unit) :
  wf b -> 0 <= ln < sz -> sz < 2 ^ 64 -> b_bitsSz b + bit_len (sz - 1) + ys <= 1023 -> 0 <= ys ->
  ln < 2 ^ 64 ->
  (StoreUInt ln (bit_len (sz - 1)) ;; k) b = k (append b (uint_bits (bit_len (sz - 1)) ln)).
Proof.
  intros Hwf Hln Hsz Hfit Hys Hl64. pose proof (bit_len_nonneg (sz - 1)). pose proof (bit_len_bound (sz - 1)).
  pose proof (proj2 (bit_len_le (sz - 1) 64 ltac:(lia) ltac:(lia)) ltac:(lia)).
  apply bind_Ok with (a := tt). rewrite StoreUInt_run by (done || lia). unfold store_fit.
  rewrite length_uint_bits by done. pose proof (wf_sz _ Hwf). split_cmp. done.
Qed.

Lemma StoreVarUInt_run b v sz :
  wf b -> 0 <= v < 2 ^ 64 -> 0 <= sz < 2 ^ 64 ->
  StoreVarUInt v sz b =
    if sz =? 0 then (Err ErrInvalidSize, b)
    else if sz <=? (bit_len v + 7) / 8 then (Err ErrTooBigValue, b)
    else store_fit b (var_uint_bits v sz).
Proof.
  intros Hwf Hv Hsz. unfold StoreVarUInt, var_uint_bits. mrun.
  destruct (Z.eqb_spec sz 0); [done|]. mrun. rewrite Z.shiftr_div_pow2 by lia. change (2 ^ 3) with 8.
  set (ln := (bit_len v + 7) / 8). destruct (Z.leb_spec sz ln); [done|]. mrun.
  pose proof (bit_len_nonneg v). pose proof (bit_len_nonneg (sz - 1)).
  pose proof (proj2 (bit_len_le v 64 ltac:(lia) ltac:(lia)) ltac:(lia)).
  destruct (Z.leb_spec 1024 (b_bitsSz b + bit_len (sz - 1) + ln * 8)).
  { unfold store_fit. rewrite len_two_bits by lia. split_cmp. done. }
  rewrite (store_prefix b ln sz (ln * 8)) by (done || lia). rewrite (Z.mul_comm ln).
  apply store_two; [done|rewrite !length_uint_bits by lia; lia|].
  rewrite StoreUInt_run; [|apply wf_append; [done|rewrite length_uint_bits; lia]|done|lia].
  pose proof (bit_len_bound v). pose proof (Z.pow_le_mono_r 2 (bit_len v) (8 * ln)).
  split_cmp. done.
Qed.

(** A value that needs more than 32 bytes is refused only after its length prefix
    has been stored. *)
Lemma StoreBigVarUInt_run b v sz :
  wf b -> 0 <= sz < 2 ^ 64 -> bit_len v < 2 ^ 63 ->
  StoreBigVarUInt (Some v) sz b =
    if sz =? 0 then (Err ErrInvalidSize, b)
    else if v <? 0 then (Err ErrNegative, b)
    else if sz <=? (bit_len v + 7) / 8 then (Err ErrTooBigValue, b)
    else if 1023 <? b_bitsSz b + len (var_uint_bits v sz) then (Err ErrNotFit1023, b)
    else if 32 <? (bit_len v + 7) / 8
    then (Err ErrTooBigSize, append b (uint_bits (bit_len (sz - 1)) ((bit_len v + 7) / 8)))
    else (Ok tt, append b (var_uint_bits v sz)).
Proof.
  intros Hwf Hsz Hlen. unfold StoreBigVarUInt, var_uint_bits. mrun.
  destruct (Z.eqb_spec sz 0); [done|]. mrun. destruct (Z.ltb_spec v 0); [done|]. mrun.
  rewrite Z.shiftr_div_pow2 by lia. change (2 ^ 3) with 8.
  set (ln := (bit_len v + 7) / 8). destruct (Z.leb_spec sz ln); [done|]. mrun.
  pose proof (bit_len_nonneg v). pose proof (bit_len_nonneg (sz - 1)). rewrite len_two_bits by lia.
  destruct (Z.leb_spec 1024 (b_bitsSz b + bit_len (sz - 1) + ln * 8)); [split_cmp; done|].
  rewrite (store_prefix b ln sz (ln * 8)) by (done || lia). rewrite (Z.mul_comm ln).
  pose proof (bit_len_bound v). pose proof (Z.pow_le_mono_r 2 (bit_len v) (8 * ln)).
  rewrite StoreBigUInt_run; [|apply wf_append; [done|rewrite length_uint_bits; lia]|lia].
  unfold store_fit. cbn [append b_bitsSz]. rewrite !length_uint_bits by lia. split_cmp; try done.
  now rewrite append_app by (rewrite ?length_uint_bits; done || lia).
Qed.

(** [varIntBytes] is the least number of bytes whose signed range has the value. *)
Lemma varIntBytes_least v n : 0 <= n -> varIntBytes v <= n <-> signed_range v (8 * n) = true.
Proof.
  intros Hn. unfold varIntBytes, signed_range.
  destruct (Z.eqb_spec v 0) as [-> | Hv].
  { destruct (Z.eqb_spec (8 * n) 0); [lia|]. pose proof (Z.pow_pos_nonneg 2 (8 * n - 1)). lia. }
  set (m := if 0 <? v then v else - v - 1).
  assert (Hm : 0 <= m) by (unfold m; split_cmp).
  replace (if 0 <? v then (bit_len v + 8) ≫ 3 else (bit_len (- v - 1) + 8) ≫ 3)
    with ((bit_len m + 8) / 8)
    by (unfold m; destruct (0 <? v); rewrite Z.shiftr_div_pow2 by lia; done).
  pose proof (bit_len_nonneg m). destruct (Z.eqb_spec (8 * n) 0); [lia|].
  pose proof (bit_len_le m (8 * n - 1)) as Hb. unfold m in *. revert Hb. split_cmp; lia.
Qed.

Lemma varIntBytes_nonneg v : 0 <= varIntBytes v.
Proof.
  unfold varIntBytes. pose proof (bit_len_nonneg v). pose proof (bit_len_nonneg (- v - 1)).
  split_cmp; apply Z.shiftr_nonneg; lia.
Qed.

Lemma StoreBigVarInt_run b v sz :
  wf b -> 0 <= sz < 2 ^ 64 ->
  StoreBigVarInt (Some v) sz b =
    if sz =? 0 then (Err ErrInvalidSize, b)
    else if sz <=? varIntBytes v then (Err ErrTooBigValue, b)
    else if 32 <? varIntBytes v then (Err ErrTooBigSize, b)
    else store_fit b (var_int_bits v sz).
Proof.
  intros Hwf Hsz. unfold StoreBigVarInt, var_int_bits. mrun.
  destruct (Z.eqb_spec sz 0); [done|]. mrun. pose proof (varIntBytes_nonneg v).
  pose proof (proj1 (varIntBytes_least v (varIntBytes v) ltac:(done)) ltac:(lia)) as Hr.
  set (ln := varIntBytes v) in *. destruct (Z.leb_spec sz ln); [done|]. mrun.
  destruct (Z.ltb_spec 32 ln); [done|]. pose proof (bit_len_nonneg (sz - 1)).
  destruct (Z.leb_spec 1024 (b_bitsSz b + bit_len (sz - 1) + ln * 8)).
  { unfold store_fit. rewrite len_two_bits by lia. split_cmp. done. }
  rewrite (store_prefix b ln sz (ln * 8)) by (done || lia). rewrite (Z.mul_comm ln).
  apply store_two; [done|rewrite !length_uint_bits by lia; lia|].
  rewrite StoreBigInt_run, Hr; [|apply wf_append; [done|rewrite length_uint_bits; lia]|lia].
  split_cmp. done.
Qed.

(** ** References *)

Definition with_ref (b : Builder) (c : Cell) : Builder :=
  mkBuilder (b_data b) (b_bitsSz b) (b_refs b ++ [c]).

Lemma wf_with_refs b rs :
  wf b -> len (b_refs b) + len rs <= 4 -> wf (mkBuilder (b_data b) (b_bitsSz b) (b_refs b ++ rs)).
Proof. intros [? ? ? ? ?] ?. split; cbn; try done. now rewrite len_app. Qed.

Lemma storeRef_run b r check :
  storeRef r check b =
    if 4 <=? len (b_refs b) then (Err ErrTooMuchRefs, b)
    else match r with
         | None => (Err ErrRefCannotBeNil, b)
         | Some c => if check && (maxDepth <=? Depth c) then (Err ErrCellDepthLimit, b)
                     else (Ok tt, with_ref b c)
         end.
Proof.
  unfold storeRef. mrun. destruct (4 <=? len (b_refs b)); [done|]. destruct r as [c|]; [|done].
  mrun. now destruct (check && (maxDepth <=? Depth c)).
Qed.

(** [Maybe ^Cell]: the presence bit is stored before the reference, so a builder
    with four references keeps the bit when the reference is refused. *)
Lemma storeMaybeRef_run b r check :
  wf b ->
  storeMaybeRef r check b =
    match r with
    | None => store_fit b [false]
    | Some c =>
        if 1023 <=? b_bitsSz b then (Err ErrNotFit1023, b)
        else if check && (maxDepth <=? Depth c) then (Err ErrCellDepthLimit, b)
        else if 4 <=? len (b_refs b) then (Err ErrTooMuchRefs, append b [true])
        else (Ok tt, with_ref (append b [true]) c)
    end.
Proof.
  intros Hwf. unfold storeMaybeRef. destruct r as [c|].
  2: { rewrite StoreUInt_run by (done || lia). done. }
  mrun. destruct (Z.leb_spec 1024 (b_bitsSz b + 1)), (Z.leb_spec 1023 (b_bitsSz b)); try lia; [done|].
  mrun. destruct (check && (maxDepth <=? Depth c)); [done|].
  rewrite (bind_Ok _ _ _ tt (append b [true])).
  - mrun. now destruct (4 <=? len (b_refs b)).
  - rewrite StoreUInt_run by (done || lia). change (uint_bits 1 1) with [true].
    unfold store_fit. change (len [true]) with 1. now split_cmp.
Qed.

(** ** Whole builders *)

Lemma bits_take_used b : wf b -> window (take (Z.to_nat (usedBytes b)) (b_data b)) 0 (b_bitsSz b) = bits b.
Proof.
  intros Hwf. pose proof (wf_sz _ Hwf). apply window_ext. intros i Hi.
  rewrite bit_take; unfold usedBytes; [f_equal|]; lia.
Qed.

Lemma len_bits b : wf b -> len (bits b) = b_bitsSz b.
Proof. intros Hwf. pose proof (wf_sz _ Hwf). unfold bits. apply length_window. lia. Qed.

(** [StoreBuilder] concatenates the bits and the references. *)
Lemma storeBuilder_run b x check :
  wf b -> wf x ->
  storeBuilder x check b =
    if 4 <? len (b_refs b) + len (b_refs x) then (Err ErrTooMuchRefs, b)
    else if 1023 <? b_bitsSz b + b_bitsSz x then (Err ErrNotFit1023, b)
    else if check && existsb (fun ref => maxDepth <=? Depth ref) (b_refs x)
    then (Err ErrCellDepthLimit, b)
    else (Ok tt, append (mkBuilder (b_data b) (b_bitsSz b) (b_refs b ++ b_refs x)) (bits x)).
Proof.
  intros Hwf Hx. unfold storeBuilder. mrun. pose proof (wf_sz _ Hx).
  destruct (Z.ltb_spec 4 (len (b_refs b) + len (b_refs x))); [done|]. mrun.
  destruct (Z.leb_spec 1024 (b_bitsSz b + b_bitsSz x)), (Z.ltb_spec 1023 (b_bitsSz b + b_bitsSz x));
    try lia; [done|].
  unfold validateCellRefDepthLimit. destruct check; cbn [andb]; mrun;
    [destruct (existsb _ _); [done|]|]; mrun;
    (rewrite subrange_prefix by (rewrite (wf_len _ Hx); unfold usedBytes; lia)); mrun;
    (rewrite StoreSlice_ok; [now rewrite bits_take_used|now apply wf_with_refs|..]);
    try (apply Forall_take, Hx);
    rewrite ?len_take by (rewrite (wf_len _ Hx); unfold usedBytes; lia);
    cbn [b_bitsSz]; unfold usedBytes; lia.
Qed.

(** ** Runs of one bit *)

Lemma set_mask_ok d i mask v :
  0 <= i < len d -> bytes_ok d -> byte_ok mask ->
  exists d', set_mask d i mask v = Ok d' /\ len d' = len d /\ bytes_ok d' /\
  forall j, 0 <= j ->
    bit d' j = if (j / 8 =? i) && Z.testbit mask (7 - j mod 8) then v else bit d j.
Proof.
  intros Hi Hd Hm. unfold set_mask. rewrite index_ok by done. cbn [mbind outcome_bind].
  rewrite write_ok by (rewrite ?len_cons, ?len_nil; lia). eexists. split; [done|]. split_and!.
  - rewrite len_splice; rewrite ?len_cons, ?len_nil; lia.
  - destruct v; auto with bytes.
  - intros j Hj. rewrite bit_splice_one by lia.
    destruct (Z.eqb_spec (j / 8) i) as [<- |]; [|done]. cbn [andb].
    destruct v; autorewrite with bitdb; rewrite bit_byte; now destruct (bit d j), (Z.testbit mask _).
Qed.

Section same_bit.
  Context (b : Builder) (v : bool).
  Hypothesis Hwf : wf b.

(** Bits [v] up to position [m], and none after it. *)
Definition run_to (d : list Z) (m : Z) : Prop :=
  len d = 128 /\ bytes_ok d /\
  forall i, 0 <= i < 1024 ->
    bit d i = if i <? b_bitsSz b then bit (b_data b) i else (i <? m) && v.

Lemma run_to_mask d m n i mask :
  run_to d m -> b_bitsSz b <= m -> 0 <= n -> m + n <= 8 * (i + 1) -> 8 * i <= m -> 0 <= i < 128 -> byte_ok mask ->
  (forall k, 0 <= k < 8 -> Z.testbit mask (7 - k) = (m <=? 8 * i + k) && (8 * i + k <? m + n)) ->
  exists d', set_mask d i mask v = Ok d' /\ run_to d' (m + n).
Proof.
  intros (Hl & Hok & H) Hm Hn Hend Hi Hlt Hmask Hbits. pose proof (wf_sz _ Hwf).
  destruct (set_mask_ok d i mask v) as (d' & He & Hl' & Hok' & Hb'); [lia|done..|].
  exists d'. split; [done|]. split_and!; [lia|done|]. intros j Hj. rewrite Hb', H by lia.
  destruct (Z.eqb_spec (j / 8) i) as [<- |]; cbn [andb].
  - rewrite Hbits by lia. split_cmp; done.
  - split_cmp; done.
Qed.

Lemma run_to_bytes d m n :
  run_to d m -> b_bitsSz b <= m -> 0 <= n -> (n = 0 \/ m mod 8 = 0) -> m + 8 * n <= 1024 ->
  exists d', write d ((m + 7) / 8) (replicate (Z.to_nat n) (if v then 255 else 0)) = Ok d' /\
    run_to d' (m + 8 * n).
Proof.
  intros (Hl & Hok & H) Hm Hn Ha Hend. pose proof (wf_sz _ Hwf).
  rewrite write_ok by (rewrite ?len_replicate; lia). eexists. split; [done|]. split_and!.
  - rewrite len_splice; rewrite ?len_replicate; lia.
  - apply bytes_ok_splice; [done|]. apply Forall_replicate. destruct v; lia.
  - intros i Hi. rewrite bit_splice by (rewrite ?len_replicate; lia). rewrite len_replicate, H by done.
    destruct (Z.leb_spec (8 * ((m + 7) / 8)) i), (Z.ltb_spec i (8 * ((m + 7) / 8 + Z.of_nat (Z.to_nat n))));
      cbn [andb]; try (split_cmp; done).
    unfold bit at 1, byte_at. rewrite nth_lookup, lookup_replicate_2 by lia.
    destruct v; cbn [default]; autorewrite with bitdb; split_cmp; done.
Qed.

Lemma run_to_mask_tail d m :
  run_to d m -> b_bitsSz b <= m <= 1023 ->
  exists d', mask_tail d m = Ok d' /\ run_to d' m.
Proof.
  intros (Hl & Hok & H) Hm. pose proof (wf_sz _ Hwf). unfold mask_tail.
  destruct (Z.eqb_spec (m mod 8) 0); cbn [negb]; [now exists d|].
  rewrite index_ok by lia. cbn [mbind outcome_bind].
  rewrite write_ok by (rewrite ?len_cons, ?len_nil; lia). eexists. split; [done|]. split_and!.
  - rewrite len_splice; rewrite ?len_cons, ?len_nil; lia.
  - auto with bytes.
  - intros i Hi. rewrite bit_splice_one by lia. destruct (Z.eqb_spec (i / 8) (m / 8)) as [He |]; [|now apply H].
    rewrite <-He. autorewrite with bitdb. rewrite bit_byte, H by done. split_cmp; bool_simpl; done.
Qed.

Lemma run_to_append d n :
  run_to d (b_bitsSz b + n) -> 0 <= n ->
  set_data d (b_bitsSz b + n) b = (Ok tt, append b (replicate (Z.to_nat n) v)).
Proof.
  intros (Hl & Hok & H) Hn. pose proof (wf_sz _ Hwf). unfold set_data, modify. f_equal.
  apply append_intro; try done; [lia|rewrite len_replicate; lia|].
  intros i Hi. rewrite H by done. split_cmp; cbn [andb].
  - done.
  - rewrite nth_lookup, lookup_replicate_2 by lia. done.
  - symmetry. apply nth_overflow. rewrite length_replicate. lia.
Qed.

Lemma testbit_mask16 n k :
  0 <= n -> 0 <= k -> n + k <= 8 -> forall j, 0 <= j < 8 ->
  Z.testbit (u8 (u16 (u16 (u16 (1 ≪ n) - 1) ≪ k))) j = (k <=? j) && (j <? k + n).
Proof.
  intros Hn Hk Hs j Hj. pose proof (Z.pow_le_mono_r 2 n 8). pose proof (Z.pow_pos_nonneg 2 n).
  assert (Hu : u16 (u16 (1 ≪ n) - 1) = Z.ones n).
  { rewrite <-ones_pow by done. rewrite Z.shiftl_1_l. unfold u16. lia. }
  rewrite Hu. bitwise.
Qed.

Lemma StoreSameBit_run n :
  0 <= n -> StoreSameBit v n b = store_fit b (replicate (Z.to_nat n) v).
Proof.
  intros Hn. unfold StoreSameBit. mrun. pose proof (wf_sz _ Hwf). pose proof (wf_refs _ Hwf).
  unfold store_fit. rewrite len_replicate, Z2Nat.id by done.
  replace (CanExtendBy b n 0) with (negb (1023 <? b_bitsSz b + n))
    by (unfold CanExtendBy; split_cmp; done).
  destruct (Z.ltb_spec 1023 (b_bitsSz b + n)); [done|]. cbn [negb].
  destruct (Z.eqb_spec n 0) as [-> |]; [now rewrite append_nil|].
  match goal with |- (lift ?o ≫= _) _ = _ =>
    assert (exists d, o = Ok d /\ run_to d (b_bitsSz b + n)) as (d & -> & Hd) end.
  2: { mrun. now apply run_to_append. }
  assert (Hstart : run_to (b_data b) (b_bitsSz b)).
  { split_and!; [apply Hwf..|]. intros i Hi. split_cmp; [done|]. now apply Hwf. }
  set (m := if b_bitsSz b mod 8 =? 0 then b_bitsSz b else b_bitsSz b + Z.min n (8 - b_bitsSz b mod 8)).
  match goal with |- context [mbind _ ?o] =>
    assert (exists d, o = Ok (d, (m + 7) / 8, b_bitsSz b + n - m) /\ run_to d m) as (d1 & -> & Hd1) end.
  { unfold m. destruct (Z.eqb_spec (b_bitsSz b mod 8) 0); cbn [negb].
    - exists (b_data b). split; [|done]. do 2 f_equal; [f_equal|]; lia.
    - edestruct (run_to_mask (b_data b) (b_bitsSz b) (Z.min n (8 - b_bitsSz b mod 8)) (b_bitsSz b / 8))
        as (d & -> & Hd); [done|lia..|apply byte_ok_u8| |].
      + intros k Hk. rewrite testbit_mask16 by lia. split_cmp; done.
      + exists d. split; [|done]. cbn [mbind outcome_bind]. do 2 f_equal; [f_equal|]; lia. }
  cbn [mbind outcome_bind]. assert (Hm : b_bitsSz b <= m <= b_bitsSz b + n) by (unfold m; split_cmp).
  assert (Ha : m = b_bitsSz b + n \/ m mod 8 = 0) by (unfold m; split_cmp).
  destruct (run_to_bytes d1 m ((b_bitsSz b + n - m) / 8)) as (d2 & -> & Hd2); try done; try lia.
  cbn [mbind outcome_bind]. set (r := (b_bitsSz b + n - m) mod 8).
  assert (Hsum : b_bitsSz b + n = m + 8 * ((b_bitsSz b + n - m) / 8) + r) by (unfold r; lia).
  set (m2 := m + 8 * ((b_bitsSz b + n - m) / 8)) in *.
  assert (exists d, (if negb (r =? 0)
            then set_mask d2 ((m + 7) / 8 + (b_bitsSz b + n - m) / 8) (u8 (255 ≪ (8 - r))) v else Ok d2)
          = Ok d /\ run_to d (m2 + r)) as (d3 & -> & Hd3).
  { destruct (Z.eqb_spec r 0) as [-> |]; cbn [negb].
    - exists d2. now rewrite Z.add_0_r.
    - apply run_to_mask; try done; try lia; [apply byte_ok_u8|].
      intros k Hk. autorewrite with bitdb. split_cmp; done. }
  rewrite <-Hsum in Hd3.
  cbn [mbind outcome_bind]. apply run_to_mask_tail; [done|lia].
Qed.

End same_bit.

(** ** Truncation *)

Definition truncated (b : Builder) (sz : Z) : Builder :=
  mkBuilder (pack 128 (take (Z.to_nat sz) (bits b))) sz (b_refs b).

Lemma nth_take_bits b sz i :
  0 <= sz <= b_bitsSz b -> 0 <= i ->
  nth (Z.to_nat i) (take (Z.to_nat sz) (bits b)) false = (i <? sz) && bit (b_data b) i.
Proof.
  intros Hsz Hi. split_cmp; cbn [andb].
  - rewrite nth_take by lia. unfold bits. rewrite nth_window_Z by lia. split_cmp. done.
  - apply nth_overflow. rewrite length_take. lia.
Qed.

Lemma wf_truncated b sz : wf b -> 0 <= sz <= b_bitsSz b -> wf (truncated b sz).
Proof.
  intros [Hl Hok Hb Hz Hr] Hsz. split; unfold truncated; cbn [b_data b_bitsSz b_refs].
  - unfold len. now rewrite length_pack.
  - apply bytes_ok_pack.
  - lia.
  - intros i Hi. destruct (Z.ltb_spec i 1024).
    + rewrite bit_pack, nth_take_bits by lia. now split_cmp.
    + apply bit_out. unfold len. rewrite length_pack. lia.
  - done.
Qed.

(** The first step of a truncation clears the rest of the byte the cut is in. *)
Lemma truncate_first b sz :
  wf b -> 0 <= sz < b_bitsSz b ->
  exists d, (if negb (sz mod 8 =? 0) then
               x ← index (b_data b) (sz / 8);
               d ← write (b_data b) (sz / 8) [Z.land x (u8 (255 ≪ (8 - sz mod 8)))];
               Ok (d, sz / 8 + 1)
             else Ok (b_data b, sz / 8)) = Ok (d, (sz + 7) / 8) /\
    len d = 128 /\ bytes_ok d /\
    forall i, 0 <= i < 1024 ->
      bit d i = ((i <? sz) || (8 * ((sz + 7) / 8) <=? i)) && bit (b_data b) i.
Proof.
  intros [Hl Hok Hb Hz Hr] Hsz. destruct (Z.eqb_spec (sz mod 8) 0); cbn [negb].
  - exists (b_data b). replace ((sz + 7) / 8) with (sz / 8) by lia. split_and!; try done.
    intros i Hi. now split_cmp.
  - rewrite index_ok by lia. cbn [mbind outcome_bind].
    rewrite write_ok by (rewrite ?len_cons, ?len_nil; lia). cbn [mbind outcome_bind].
    replace (sz / 8 + 1) with ((sz + 7) / 8) by lia. eexists. split_and!; [done|..].
    + rewrite len_splice; rewrite ?len_cons, ?len_nil; lia.
    + auto with bytes.
    + intros i Hi. rewrite bit_splice_one by lia.
      destruct (Z.eqb_spec (i / 8) (sz / 8)) as [He |]; [|now split_cmp].
      rewrite <-He. autorewrite with bitdb. rewrite bit_byte. split_cmp; bool_simpl; done.
Qed.

(** [truncateBits] keeps the first [sz] bits and restores the zero tail. *)
Lemma truncateBits_run b sz :
  wf b -> 0 <= sz ->
  truncateBits sz b = (Ok tt, if b_bitsSz b <=? sz then b else truncated b sz).
Proof.
  intros Hwf Hsz. unfold truncateBits. mrun.
  destruct (Z.leb_spec (b_bitsSz b) sz) as [|Hlt]; [done|].
  destruct (truncate_first b sz) as (d & -> & Hd & Hdok & Hdb); [done|lia|]. mrun.
  destruct Hwf as [Hl Hok Hb Hz Hr].
  assert (exists d', (if (sz + 7) / 8 <? (b_bitsSz b + 7) / 8
     then write d ((sz + 7) / 8) (replicate (Z.to_nat ((b_bitsSz b + 7) / 8 - (sz + 7) / 8)) 0)
     else Ok d) = Ok d' /\ len d' = 128 /\ bytes_ok d' /\
     forall i, 0 <= i < 1024 -> bit d' i = (i <? sz) && bit (b_data b) i) as (d' & -> & Hl' & Hok' & Hb').
  { destruct (Z.ltb_spec ((sz + 7) / 8) ((b_bitsSz b + 7) / 8)).
    - rewrite write_ok by (rewrite ?len_replicate; lia). eexists. split_and!; [done|..].
      + rewrite len_splice; rewrite ?len_replicate; lia.
      + apply bytes_ok_splice; [done|]. apply Forall_replicate. lia.
      + intros i Hi. rewrite bit_splice by (rewrite ?len_replicate; lia).
        rewrite len_replicate, Hdb by done. 
        destruct (Z.leb_spec (8 * ((sz + 7) / 8)) i), (Z.ltb_spec i (8 * ((sz + 7) / 8 + Z.of_nat (Z.to_nat ((b_bitsSz b + 7) / 8 - (sz + 7) / 8)))));
          cbn [andb]; try (rewrite ?Hz by lia; split_cmp; done).
        unfold bit at 1, byte_at. rewrite nth_lookup, lookup_replicate_2 by lia. cbn [default].
        rewrite Z.testbit_0_l. now split_cmp.
    - exists d. split_and!; try done. intros i Hi. rewrite Hdb by done. split_cmp; try done.
      now rewrite Hz by lia. }
  mrun. unfold set_data, modify, truncated. do 2 f_equal. unfold len in Hl'.
  apply pack_unique; [done|lia|]. intros i Hi. rewrite nth_take_bits, Hb' by lia. done.
Qed.

(** * Appending a bit window

    [appendBitRange] moves a window of source bits at any offset to any offset of
    the destination, 64 bits a step.  The lemmas show that it copies the window
    exactly and leaves the destination zero after it. *)

Section append_range.
  Context (dst : list Z) (off : Z) (data : list Z) (bo sz : Z).
  Hypothesis Hdst : bytes_ok dst.
  Hypothesis Hdata : bytes_ok data.
  Hypothesis Hoff : 0 <= off.
  Hypothesis Hbo : 0 <= bo.
  Hypothesis Hsz : 0 < sz.
  Hypothesis Hroom : off + sz <= 8 * len dst.
  Hypothesis Hsrc : bo + sz <= 8 * len data.
  Hypothesis Hzero : forall i, off <= i -> bit dst i = false.

(** The first [m] bits of the window are in place, and nothing after them. *)
Definition placed (d : list Z) (m : Z) : Prop :=
  len d = len dst /\ bytes_ok d /\
  forall i, 0 <= i < 8 * len dst ->
    bit d i = if i <? off then bit dst i else (i <? off + m) && bit data (bo + i - off).

(** All of the window is in place; the rest of the last byte is free. *)
Definition placed_all (d : list Z) : Prop :=
  len d = len dst /\ bytes_ok d /\
  forall i, 0 <= i < 8 * len dst ->
    (i < off + sz -> bit d i = if i <? off then bit dst i else bit data (bo + i - off)) /\
    (8 * ((off + sz + 7) / 8) <= i -> bit d i = false).

Lemma range_mask_tail d :
  placed_all d -> exists d', mask_tail d (off + sz) = Ok d' /\ placed d' sz.
Proof.
  intros (Hl & Hok & H). unfold mask_tail.
  destruct (Z.eqb_spec ((off + sz) mod 8) 0); cbn [negb].
  - exists d. split; [done|]. split_and!; try done. intros i Hi. destruct (H i Hi) as [H1 H2].
    split_cmp; cbn [andb]; [apply H1|apply H1|apply H2]; lia.
  - rewrite index_ok by lia. cbn [mbind outcome_bind].
    rewrite write_ok by (rewrite ?len_cons, ?len_nil; lia). eexists. split; [done|]. split_and!.
    + rewrite len_splice; rewrite ?len_cons, ?len_nil; lia.
    + auto with bytes.
    + intros i Hi. rewrite bit_splice_one by lia. destruct (H i Hi) as [H1 H2].
      destruct (Z.eqb_spec (i / 8) ((off + sz) / 8)) as [He |].
      * rewrite <-He. autorewrite with bitdb. rewrite bit_byte.
        split_cmp; bool_simpl; rewrite ?H1 by lia; split_cmp; done.
      * split_cmp; cbn [andb]; [apply H1|apply H1|apply H2]; lia.
Qed.

(** A word of value bits [m .. m+64) goes in at any shift. *)
Lemma placed_word d m v :
  placed d m -> 0 <= m -> m mod 8 = 0 -> m + 64 <= sz ->
  (forall k, 0 <= k < 64 -> Z.testbit v k = bit data (bo + m + 63 - k)) -> 0 <= v < 2 ^ 64 ->
  exists d', (if off mod 8 =? 0 then write d (off / 8 + m / 8) (be_bytes 8 v)
      else
        y ← index d (off / 8 + m / 8);
        d ← write d (off / 8 + m / 8) [Z.lor y (u8 (v ≫ (56 + off mod 8)))];
        write d (off / 8 + m / 8 + 1) (be_bytes 8 (u64 (v ≪ (8 - off mod 8))))) = Ok d' /\
    placed d' (m + 64).
Proof.
  intros (Hl & Hok & H) Hm Hm8 Hfit Hv Hvb.
  assert (Hv' : forall k, Z.testbit v k = (0 <=? k) && (k <? 64) && bit data (bo + m + 63 - k)).
  { intros k. split_cmp; cbn [andb]; [now apply Hv|apply (testbit_above v 64); lia|now apply Z.testbit_neg_r]. }
  destruct (Z.eqb_spec (off mod 8) 0).
  - rewrite write_ok by (rewrite ?len_be_bytes; lia). eexists. split; [done|]. split_and!.
    + rewrite len_splice; rewrite ?len_be_bytes; lia.
    + auto with bytes.
    + intros i Hi. rewrite bit_splice by (rewrite ?len_be_bytes; lia). rewrite len_be_bytes, H by done.
      split_cmp; cbn [andb]; try done. rewrite bit_be_bytes, Hv by lia. f_equal. lia.
  - rewrite index_ok by lia. cbn [mbind outcome_bind].
    rewrite write_ok by (rewrite ?len_cons, ?len_nil; lia). cbn [mbind outcome_bind].
    set (x := Z.lor _ _). assert (Hl1 : len (splice d (off / 8 + m / 8) [x]) = len dst)
      by (rewrite len_splice; rewrite ?len_cons, ?len_nil; lia).
    rewrite write_ok by (rewrite ?len_be_bytes; lia). eexists. split; [done|]. split_and!.
    + rewrite len_splice; rewrite ?len_be_bytes; lia.
    + unfold x. auto 10 with bytes.
    + intros i Hi. rewrite bit_splice by (rewrite ?len_be_bytes; lia). rewrite len_be_bytes.
      rewrite bit_splice_one by lia. specialize (H i Hi).
      destruct (Z.eqb_spec (i / 8) (off / 8 + m / 8)) as [He |].
      * unfold x. rewrite <-He. split_cmp; cbn [andb]; autorewrite with bitdb;
          rewrite bit_byte, H, Hv'; split_cmp; bool_simpl; try done; f_equal; lia.
      * rewrite H. split_cmp; cbn [andb]; try done; rewrite bit_be_bytes by lia;
          autorewrite with bitdb; rewrite Hv'; split_cmp; bool_simpl; try done; f_equal; lia.
Qed.

(** The 64 source bits at position [m] of the window. *)
Lemma source_word m :
  0 <= m -> m mod 8 = 0 -> m + 64 <= sz ->
  let w := take 8 (drop (Z.to_nat (bo / 8 + m / 8)) data) in
  let v := if bo mod 8 =? 0 then be_uint w
           else Z.lor (u64 (be_uint w ≪ (bo mod 8)))
                      (byte_at data (bo / 8 + m / 8 + 8) ≫ (8 - bo mod 8)) in
  0 <= v < 2 ^ 64 /\ forall k, 0 <= k < 64 -> Z.testbit v k = bit data (bo + m + 63 - k).
Proof.
  intros Hm Hm8 Hfit w v.
  assert (Hlw : len w = 8) by (apply (len_take_drop data (bo / 8 + m / 8) 8); lia).
  assert (Hw : bytes_ok w) by now apply bytes_ok_take_drop.
  assert (Hwb : forall k, Z.testbit (be_uint w) k =
                  (0 <=? k) && (k <? 64) && bit data (8 * (bo / 8 + m / 8) + 63 - k)).
  { intros k. rewrite testbit_be_uint, Hlw by done. split_cmp; cbn [andb]; try done.
    unfold w. rewrite (bit_take_drop data (bo / 8 + m / 8) 8) by lia. f_equal. lia. }
  pose proof (be_uint_bound w Hw) as Hwu. rewrite Hlw in Hwu.
  pose proof (byte_at_ok data (bo / 8 + m / 8 + 8) Hdata) as Hx.
  assert (Hv : forall k, 0 <= k -> Z.testbit v k = (k <? 64) && bit data (bo + m + 63 - k)).
  { intros k Hk. unfold v. destruct (Z.eqb_spec (bo mod 8) 0).
    - rewrite Hwb. split_cmp; cbn [andb]; try done. f_equal. lia.
    - autorewrite with bitdb. rewrite Hwb. destruct (Z.ltb_spec k 64); cbn [andb].
      + destruct (Z.ltb_spec k (bo mod 8)).
        * split_cmp. bool_simpl. unfold bit. f_equal; [f_equal|]; lia.
        * rewrite (testbit_above _ 8) by lia. split_cmp. bool_simpl. f_equal. lia.
      + split_cmp. cbn. apply (testbit_above _ 8); lia. }
  assert (Hpos : 0 <= v).
  { unfold v. destruct (bo mod 8 =? 0); [lia|]. apply Z.lor_nonneg. split; [unfold u64; lia|].
    apply Z.shiftr_nonneg. lia. }
  split; [|intros k Hk; rewrite Hv by lia; now split_cmp]. split; [done|].
  replace v with (v mod 2 ^ 64); [apply Z.mod_pos_bound; lia|].
  apply Z.bits_inj'. intros k Hk. rewrite Z.testbit_mod_pow2, Hv by lia. split_cmp; done.
Qed.

Lemma appendRangeWords_ok fuel d m :
  placed d m -> 0 <= m <= sz -> m mod 8 = 0 -> sz - m <= Z.of_nat fuel ->
  exists d' m', appendRangeWords fuel d data (bo / 8 + m / 8) (bo mod 8) (off / 8 + m / 8)
                  (off mod 8) (sz - m) = Ok (d', bo / 8 + m' / 8, off / 8 + m' / 8, sz - m') /\
    placed d' m' /\ m' mod 8 = 0 /\ 0 <= m' <= sz /\ sz - m' < 64.
Proof.
  revert d m. induction fuel as [|fuel IH]; intros d m Hp Hm Hm8 Hfuel; cbn [appendRangeWords];
    (destruct (Z.leb_spec 64 (sz - m)); [|exists d, m; split_and!; try done; lia]); [lia|].
  destruct (source_word m) as [Hvb Hv]; try lia. cbv zeta in *.
  rewrite subrange_ok by lia. cbn [mbind outcome_bind].
  replace (bo / 8 + m / 8 + 8 - (bo / 8 + m / 8)) with 8 by lia. change (Z.to_nat 8) with 8%nat.
  set (w := take 8 _) in *.
  assert ((if bo mod 8 =? 0 then Ok (be_uint w)
           else x ← index data (bo / 8 + m / 8 + 8);
                Ok (Z.lor (u64 (be_uint w ≪ (bo mod 8))) (x ≫ (8 - bo mod 8)))) =
          Ok (if bo mod 8 =? 0 then be_uint w
              else Z.lor (u64 (be_uint w ≪ (bo mod 8)))
                     (byte_at data (bo / 8 + m / 8 + 8) ≫ (8 - bo mod 8)))) as ->.
  { destruct (Z.eqb_spec (bo mod 8) 0); [done|]. now rewrite index_ok by lia. }
  cbn [mbind outcome_bind].
  destruct (placed_word d m _ Hp ltac:(lia) Hm8 ltac:(lia) Hv Hvb) as (d' & -> & Hd').
  cbn [mbind outcome_bind].
  destruct (IH d' (m + 64) Hd') as (d'' & m' & He & Hrest); try lia.
  exists d'', m'. split; [|done]. rewrite <-He. f_equal; lia.
Qed.

(** A byte of value bits [m .. m+8) of the window, spilling when needed. *)
Lemma source_byte m :
  0 <= m < sz -> m mod 8 = 0 ->
  exists v, (x ← index data (bo / 8 + m / 8);
     if negb (bo mod 8 =? 0) && (bo / 8 + m / 8 + 1 <? len data) then
       y ← index data (bo / 8 + m / 8 + 1);
       Ok (Z.lor (u8 (x ≪ (bo mod 8))) (y ≫ (8 - bo mod 8)))
     else Ok (u8 (x ≪ (bo mod 8)))) = Ok v /\ byte_ok v /\
    forall k, 0 <= k < 8 -> Z.testbit v k = bit data (bo + m + 7 - k).
Proof.
  intros Hm Hm8. rewrite (index_ok data (bo / 8 + m / 8)) by lia. cbn [mbind outcome_bind].
  pose proof (byte_at_ok data (bo / 8 + m / 8) Hdata) as Hx.
  pose proof (byte_at_ok data (bo / 8 + m / 8 + 1) Hdata) as Hy.
  destruct (Z.eqb_spec (bo mod 8) 0) as [He |]; cbn [negb andb].
  - eexists. split_and!; [done|apply byte_ok_u8..|]. intros k Hk. rewrite He.
    autorewrite with bitdb. unfold bit. split_cmp. cbn [andb]. f_equal; [f_equal|]; lia.
  - destruct (Z.ltb_spec (bo / 8 + m / 8 + 1) (len data)).
    + rewrite index_ok by lia. cbn [mbind outcome_bind]. eexists. split; [done|].
      split; [apply byte_ok_lor; [apply byte_ok_u8|apply byte_ok_shiftr; lia]|].
      intros k Hk. autorewrite with bitdb. unfold bit. destruct (Z.ltb_spec k (bo mod 8)).
      * rewrite (Z.testbit_neg_r _ (k - bo mod 8)) by lia. split_cmp. bool_simpl. f_equal; [f_equal|]; lia.
      * rewrite (testbit_above (byte_at data (bo / 8 + m / 8 + 1)) 8) by lia. split_cmp. bool_simpl.
        f_equal; [f_equal|]; lia.
    + eexists. split_and!; [done|apply byte_ok_u8..|]. intros k Hk. autorewrite with bitdb.
      destruct (Z.ltb_spec k (bo mod 8)).
      * rewrite Z.testbit_neg_r, bit_out by lia. now split_cmp.
      * unfold bit. split_cmp. cbn [andb]. f_equal; [f_equal|]; lia.
Qed.

(** One step of the byte loop: exact before the last byte, and complete at it. *)
Lemma placed_byte d m v :
  placed d m -> 0 <= m < sz -> m mod 8 = 0 -> byte_ok v ->
  (forall k, 0 <= k < 8 -> Z.testbit v k = bit data (bo + m + 7 - k)) ->
  exists d', (if off mod 8 =? 0 then write d (off / 8 + m / 8) [v]
      else
        y ← index d (off / 8 + m / 8);
        d ← write d (off / 8 + m / 8) [Z.lor y (v ≫ (off mod 8))];
        if 8 - off mod 8 <? sz - m
        then write d (off / 8 + m / 8 + 1) [u8 (v ≪ (8 - off mod 8))] else Ok d) = Ok d' /\
    if sz - m <=? 8 then placed_all d' else placed d' (m + 8).
Proof.
  intros (Hl & Hok & H) Hm Hm8 Hvb Hv.
  assert (Hv' : forall k, Z.testbit v k = (0 <=? k) && (k <? 8) && bit data (bo + m + 7 - k)).
  { intros k. split_cmp; cbn [andb]; [now apply Hv|apply (testbit_above v 8); lia|now apply Z.testbit_neg_r]. }
  assert (Hdone : forall d', len d' = len dst -> bytes_ok d' ->
    (forall i, 0 <= i < 8 * len dst -> bit d' i =
       if i <? off then bit dst i
       else (i <? off + m + 8) && ((i <? 8 * (off / 8 + m / 8 + 1)) || (8 - off mod 8 <? sz - m))
            && bit data (bo + i - off)) ->
    if sz - m <=? 8 then placed_all d' else placed d' (m + 8)).
  { intros d' Hl' Hok' Hb'. destruct (Z.leb_spec (sz - m) 8); split_and!; try done; intros i Hi;
      rewrite ?Hb' by done.
    - split; intros; split_cmp; bool_simpl; done.
    - split_cmp; bool_simpl; done. }
  destruct (Z.eqb_spec (off mod 8) 0).
  { rewrite write_ok by (rewrite ?len_cons, ?len_nil; lia). eexists. split; [done|]. apply Hdone.
    - rewrite len_splice; rewrite ?len_cons, ?len_nil; lia.
    - auto with bytes.
    - intros i Hi. rewrite bit_splice_one, H by lia.
      destruct (Z.eqb_spec (i / 8) (off / 8 + m / 8)); [rewrite Hv'|]; split_cmp; bool_simpl;
        try done; f_equal; lia. }
  rewrite index_ok by lia. cbn [mbind outcome_bind].
  rewrite write_ok by (rewrite ?len_cons, ?len_nil; lia). cbn [mbind outcome_bind].
  set (d1 := splice d _ _).
  assert (Hl1 : len d1 = len dst) by (unfold d1; rewrite len_splice; rewrite ?len_cons, ?len_nil; lia).
  assert (Hok1 : bytes_ok d1) by (unfold d1; apply bytes_ok_splice; [done|]; apply bytes_ok_one, byte_ok_lor;
    [auto with bytes|apply byte_ok_shiftr; lia]).
  assert (Hb1 : forall i, 0 <= i < 8 * len dst -> bit d1 i =
       if i <? off then bit dst i
       else (i <? off + m + 8) && (i <? 8 * (off / 8 + m / 8 + 1)) && bit data (bo + i - off)).
  { intros i Hi. unfold d1. rewrite bit_splice_one by lia. specialize (H i Hi).
    destruct (Z.eqb_spec (i / 8) (off / 8 + m / 8)) as [He |].
    - rewrite <-He. autorewrite with bitdb. rewrite bit_byte, H, Hv'.
      split_cmp; bool_simpl; try done; f_equal; lia.
    - rewrite H. split_cmp; bool_simpl; done. }
  destruct (Z.ltb_spec (8 - off mod 8) (sz - m)).
  - rewrite write_ok by (rewrite ?len_cons, ?len_nil; lia). eexists. split; [done|]. apply Hdone.
    + rewrite len_splice; rewrite ?len_cons, ?len_nil; lia.
    + auto with bytes.
    + intros i Hi. rewrite bit_splice_one, Hb1 by lia.
      destruct (Z.eqb_spec (i / 8) (off / 8 + m / 8 + 1)).
      * autorewrite with bitdb. rewrite Hv'. split_cmp; bool_simpl; try done; f_equal; lia.
      * split_cmp; bool_simpl; done.
  - eexists. split; [done|]. apply Hdone; try done. intros i Hi. rewrite Hb1 by done.
    split_cmp; bool_simpl; done.
Qed.

Lemma appendRangeTail_ok fuel d m :
  placed d m -> 0 <= m < sz -> m mod 8 = 0 -> sz - m <= Z.of_nat fuel ->
  exists d', appendRangeTail fuel d data (bo / 8 + m / 8) (bo mod 8) (off / 8 + m / 8)
               (off mod 8) (sz - m) = Ok d' /\ placed_all d'.
Proof.
  revert d m. induction fuel as [|fuel IH]; intros d m Hp Hm Hm8 Hfuel; cbn [appendRangeTail];
    (destruct (Z.ltb_spec 0 (sz - m)); [|lia]); [lia|].
  destruct (source_byte m Hm Hm8) as (v & Hv & Hvb & Hvbit).
  destruct (placed_byte d m v Hp Hm Hm8 Hvb Hvbit) as (d' & Hw & Hd').
  destruct (index data (bo / 8 + m / 8)) as [x| |]; [|done..]. cbn [mbind outcome_bind] in *. cbv zeta.
  rewrite Hv. cbn [mbind outcome_bind]. rewrite Hw. cbn [mbind outcome_bind].
  destruct (Z.leb_spec (sz - m) 8); [now exists d'|].
  destruct (IH d' (m + 8) Hd') as (d'' & He & Hd''); try lia. exists d''. split; [|done].
  rewrite <-He. f_equal; lia.
Qed.

(** [appendBitRange] copies the window and keeps the zero tail. *)
Lemma appendBitRange_ok :
  exists d, appendBitRange dst off data bo sz = Ok d /\ placed d sz.
Proof.
  unfold appendBitRange.
  match goal with |- context [mbind _ ?o] => assert (exists d, o = Ok d /\ placed_all d) as (d & -> & Hd) end.
  2: { cbn [mbind outcome_bind]. now apply range_mask_tail. }
  assert (Hstart : placed dst 0).
  { split_and!; try done. intros i Hi. rewrite Z.add_0_r. split_cmp; [done|]. now apply Hzero. }
  destruct (Z.eqb_spec (bo mod 8) 0), (Z.eqb_spec (off mod 8) 0); cbn [andb].
  1: { rewrite subrange_ok by lia. cbn [mbind outcome_bind].
       assert (Hl : len (take (Z.to_nat (bo / 8 + (sz + 7) / 8 - bo / 8)) (drop (Z.to_nat (bo / 8)) data))
                    = (sz + 7) / 8) by (rewrite len_take_drop; lia).
       rewrite write_ok by lia. eexists. split; [done|]. split_and!.
       - rewrite len_splice; lia.
       - auto with bytes.
       - intros i Hi. rewrite bit_splice, Hl by lia. split; intros; split_cmp; cbn [andb]; try done;
           try (apply Hzero; lia).
         rewrite bit_take_drop by lia. f_equal. lia. }
  all: destruct (appendRangeWords_ok (Z.to_nat sz) dst 0 Hstart) as (d1 & m & He & Hp & Hm8 & Hm & Hlt); try lia;
    rewrite Z.sub_0_r in He; replace (0 / 8) with 0 in He by done; rewrite !Z.add_0_r in He; rewrite He;
    cbn [mbind outcome_bind].
  all: (destruct (Z.eq_dec m sz) as [-> |];
     [|destruct (appendRangeTail_ok (Z.to_nat (sz - m)) d1 m) as (d2 & He2 & Hd2); try done; try lia; now exists d2]).
  all: rewrite Z.sub_diag; exists d1; split; [done|]; destruct Hp as (Hl & Hok & H); split_and!; try done;
    intros i Hi; rewrite H by done; split; intros; split_cmp; bool_simpl; done.
Qed.

End append_range.

(** [storeBitRange] appends the window [bitOffset, bitOffset + sz) of the source. *)
Lemma storeBitRange_run b data bo sz :
  wf b -> bytes_ok data -> 8 * len data < 2 ^ 63 -> 0 <= bo < 2 ^ 63 -> 0 <= sz < 2 ^ 63 ->
  storeBitRange data bo sz b =
    if sz =? 0 then (Ok tt, b)
    else if 1023 <? b_bitsSz b + sz then (Err ErrNotFit1023, b)
    else if 8 * len data <? bo + sz then (Err ErrSmallSlice, b)
    else (Ok tt, append b (window data bo sz)).
Proof.
  intros Hwf Hok Hlen Hbo Hsz. unfold storeBitRange. destruct (Z.eqb_spec sz 0); [done|]. mrun.
  pose proof (wf_sz _ Hwf). pose proof (len_nonneg data).
  replace (u64 (b_bitsSz b + sz)) with (b_bitsSz b + sz) by (unfold u64; lia).
  replace (u64 (bo + sz)) with (bo + sz) by (unfold u64; lia).
  destruct (Z.leb_spec 1024 (b_bitsSz b + sz)), (Z.ltb_spec 1023 (b_bitsSz b + sz)); try lia; [done|].
  mrun. destruct (Z.ltb_spec (len data * 8) (bo + sz)), (Z.ltb_spec (8 * len data) (bo + sz)); try lia; [done|].
  pose proof (wf_len _ Hwf) as Hl.
  destruct (appendBitRange_ok (b_data b) (b_bitsSz b) data bo sz) as (d & -> & Hd & Hdok & Hdb);
    try apply Hwf; try done; try lia.
  mrun. unfold set_data, modify. f_equal. apply append_intro; try done; try lia.
  - rewrite length_window; lia.
  - intros i Hi. rewrite Hdb by lia. split_cmp; cbn [andb]; try done; rewrite nth_window_Z by lia;
      split_cmp; cbn [andb]; try done. f_equal. lia.
Qed.
