(* ===== verification/Slice.v ===== *)
(** * The cell slice

    Models [tvm/cell/slice.go] and [slice_ops.go]: a read cursor over the data
    and references of a cell, without traces.  Reads take whole words where they
    can; the theorems relate every read to the bit string left in the slice. *)

From S2P Require Import Prelude Bytes CellModel Builder.
From stdpp Require Import strings.
#[local] Open Scope Z_scope.

Record Slice : Type := mkSlice {
  s_cell : Cell;
  s_bitStart : Z;
  s_bitEnd : Z;
  s_refStart : Z;
  s_refEnd : Z
}.

Definition s_data (s : Slice) : list Z := c_data (s_cell s).

(** [newSliceFromCell], [BeginParse] of a loaded cell. *)
Definition newSliceFromCell (c : Cell) : Slice :=
  mkSlice c 0 (c_bitsSz c) 0 (len (c_refs c)).

Definition BitsLeft (s : Slice) : Z := u16 (s_bitEnd s - s_bitStart s).
Definition RefsNum (s : Slice) : Z := u8 (s_refEnd s - s_refStart s).

Definition with_bitStart (s : Slice) (x : Z) : Slice :=
  mkSlice (s_cell s) x (s_bitEnd s) (s_refStart s) (s_refEnd s).
Definition with_refStart (s : Slice) (x : Z) : Slice :=
  mkSlice (s_cell s) (s_bitStart s) (s_bitEnd s) x (s_refEnd s).

(** [c.bitStart += uint16(sz)] unless the read is a preload. *)
Definition advance (sz : Z) (preload : bool) : M Slice unit :=
  if preload then mret tt
  else modify (fun s => with_bitStart s (u16 (s_bitStart s + u16 sz))).

(** ** Bits *)

Definition BitAt (offset : Z) : M Slice Z :=
  s ← get_state;
  let left := BitsLeft s in
  guard_err (left <=? offset) (ErrNotEnoughData left (u64 (offset + 1))) ;;
  let bitPos := s_bitStart s + offset in
  x ← lift (index (s_data s) (bitPos / 8));
  mret (Z.land (x ≫ (7 - bitPos mod 8)) 1).

Definition SkipBits (bits : Z) : M Slice unit :=
  s ← get_state;
  let left := BitsLeft s in
  guard_err (left <? bits) (ErrNotEnoughData left bits) ;;
  advance bits false.

Definition SkipBitsAndRefs (bits refs : Z) : M Slice unit :=
  s ← get_state;
  guard_err ((refs <? 0) || (RefsNum s <? refs)) ErrNoMoreRefs ;;
  let left := BitsLeft s in
  guard_err (left <? bits) (ErrNotEnoughData left bits) ;;
  advance bits false ;;
  modify (fun s => with_refStart s (u8 (s_refStart s + u8 refs))).

Definition LoadBoolBit : M Slice bool :=
  s ← get_state;
  guard_err (s_bitEnd s <=? s_bitStart s) (ErrNotEnoughData 0 1) ;;
  x ← lift (index (s_data s) (s_bitStart s / 8));
  advance 1 false ;;
  mret (Z.land (x ≫ (7 - s_bitStart s mod 8)) 1 =? 1).

(** ** Unsigned integers up to 64 bits *)

(** [for _, b := range data { value = (value << 8) | uint64(b) }] *)
Definition accBytes (data : list Z) : Z := foldl (fun v b => Z.lor (u64 (v ≪ 8)) b) 0 data.

Definition loadUintFast (sz : Z) (preload : bool) : M Slice Z :=
  s ← get_state;
  let left := BitsLeft s in
  guard_err (left <? sz) (ErrNotEnoughData left sz) ;;
  if sz =? 0 then mret 0 else
  let startBit := s_bitStart s in
  if sz =? 1 then
    x ← lift (index (s_data s) (startBit / 8));
    advance 1 preload ;;
    mret (Z.land (x ≫ (7 - startBit mod 8)) 1)
  else
  let startBitOffset := startBit mod 8 in
  let byteStart := startBit / 8 in
  let bytesNeeded := (startBitOffset + sz + 7) / 8 in
  data ← lift (subrange (s_data s) byteStart (byteStart + bytesNeeded));
  if (startBitOffset =? 0) && (sz mod 8 =? 0) then
    value ← (if sz =? 8 then lift (index data 0)
             else if sz =? 16 then w ← lift (subrange data 0 2); mret (be_uint w)
             else if sz =? 32 then w ← lift (subrange data 0 4); mret (be_uint w)
             else if sz =? 64 then w ← lift (subrange data 0 8); mret (be_uint w)
             else mret (accBytes data));
    advance sz preload ;;
    mret value
  else
  value ← (if bytesNeeded <=? 8 then
             let value := accBytes data ≫ (bytesNeeded * 8 - startBitOffset - sz) in
             mret (if sz <? 64 then Z.land value (u64 (1 ≪ sz) - 1) else value)
           else
             head ← lift (subrange data 0 8);
             x ← lift (index data 8);
             let value := Z.lor (u64 (accBytes head ≪ startBitOffset)) (x ≫ (8 - startBitOffset)) in
             mret (if sz <? 64 then value ≫ (64 - sz) else value));
  advance sz preload ;;
  mret value.

Definition loadIntFast (sz : Z) : M Slice Z :=
  u ← loadUintFast sz false;
  if sz =? 0 then mret 0
  else if sz =? 64 then mret (s64 u)
  else
    let signBit := u64 (1 ≪ (sz - 1)) in
    let u := if negb (Z.land u signBit =? 0)
             then Z.lor u (2 ^ 64 - 1 - (u64 (1 ≪ sz) - 1)) else u in
    mret (s64 u).

(** ** Byte slices *)

(** The loops of [loadSliceInto] for a window that does not start on a byte:
    eight bytes a step, then byte by byte up to [last]. *)
Fixpoint loadSliceWords (fuel : nat) (data out : list Z)
    (shift outLen sourceBytesNeeded i : Z) : outcome (list Z * Z) :=
  if (i + 8 <=? outLen) && (i + 9 <=? sourceBytesNeeded) then
    match fuel with
    | O => Panic
    | S fuel =>
        w ← subrange data i (i + 8);
        x ← index data (i + 8);
        let v := Z.lor (u64 (be_uint w ≪ shift)) (x ≫ (8 - shift)) in
        out ← write out i (be_bytes 8 v);
        loadSliceWords fuel data out shift outLen sourceBytesNeeded (i + 8)
    end
  else Ok (out, i).

Fixpoint loadSliceMid (n : nat) (data out : list Z) (shift i : Z) : outcome (list Z) :=
  match n with
  | O => Ok out
  | S n =>
      x ← index data i;
      y ← index data (i + 1);
      out ← write out i [Z.lor (u8 (x ≪ shift)) (y ≫ (8 - shift))];
      loadSliceMid n data out shift (i + 1)
  end.

Definition loadSliceLast (data out : list Z) (shift outLen sourceBytesNeeded : Z) : outcome (list Z) :=
  let last := outLen - 1 in
  x ← index data last;
  out ← write out last [u8 (x ≪ shift)];
  if outLen <? sourceBytesNeeded then
    y ← index data (last + 1);
    z ← index out last;
    write out last [Z.lor z (y ≫ (8 - shift))]
  else Ok out.

(** [loadSliceInto] fills the buffer [loadedData] and returns it. *)
Definition loadSliceInto (loadedData : list Z) (sz : Z) (preload : bool) : M Slice (list Z) :=
  s ← get_state;
  let left := BitsLeft s in
  guard_err (left <? sz) (ErrNotEnoughData left sz) ;;
  let outLen := (sz + 7) / 8 in
  guard_err (len loadedData <? outLen) ErrShortBuffer ;;
  if sz =? 0 then mret loadedData else
  let startBit := s_bitStart s in
  let shift := startBit mod 8 in
  data ← lift (subrange (s_data s) (startBit / 8) (len (s_data s)));
  out ← lift (
    if shift =? 0 then
      w ← subrange data 0 outLen;
      write loadedData 0 w
    else
      let last := outLen - 1 in
      let sourceBytesNeeded := (shift + sz + 7) / 8 in
      '(out, i) ← loadSliceWords (Z.to_nat outLen) data loadedData shift outLen sourceBytesNeeded 0;
      out ← loadSliceMid (Z.to_nat (last - i)) data out shift i;
      if i <=? last then loadSliceLast data out shift outLen sourceBytesNeeded else Ok out);
  let rem := sz mod 8 in
  out ← lift (if negb (rem =? 0) then
                x ← index out (outLen - 1);
                write out (outLen - 1) [Z.land x (u8 (255 ≪ (8 - rem)))]
              else Ok out);
  advance sz preload ;;
  mret out.

Definition loadSlice (sz : Z) (preload : bool) : M Slice (list Z) :=
  if sz =? 0 then mret [] else
  loadSliceInto (replicate (Z.to_nat ((sz + 7) / 8)) 0) sz preload.

(** ** Big integers *)

(** The loop of [readBigNumberInto] that shifts a partial value down, from the
    last byte to the first; [prev] is the byte before [bytes]. *)
Fixpoint shiftRightBytes (prev : Z) (bytes : list Z) (offset : Z) : list Z :=
  match bytes with
  | [] => []
  | x :: rest =>
      u8 ((x ≫ (8 - offset)) + u8 (prev ≪ offset)) :: shiftRightBytes x rest offset
  end.

Definition readBigNumber (sz : Z) (preload : bool) : M Slice Z :=
  if sz =? 0 then mret 0 else
  b ← lift (subrange (replicate 33 0) 0 ((sz + 7) / 8));
  b ← loadSliceInto b sz preload;
  let offset := sz mod 8 in
  let b := if 0 <? offset then shiftRightBytes 0 b offset else b in
  mret (be_uint b).

Definition LoadBigUInt (sz : Z) : M Slice Z :=
  guard_err (256 <? sz) ErrTooBigSize ;;
  readBigNumber sz false.

Definition PreloadBigUInt (sz : Z) : M Slice Z :=
  guard_err (256 <? sz) ErrTooBigSize ;;
  readBigNumber sz true.

Definition LoadBigInt (sz : Z) : M Slice Z :=
  guard_err (257 <? sz) ErrTooBigSize ;;
  if sz =? 0 then mret 0 else
  u ← readBigNumber sz false;
  mret (if Z.testbit u (sz - 1) then u - (1 ≪ sz) else u).

(** A load on a copy of the slice, which is kept only when the load succeeds. *)
Definition on_copy {A} (m : M Slice A) : M Slice A := fun s =>
  match m s with
  | (Ok a, s') => (Ok a, mkSlice (s_cell s) (s_bitStart s') (s_bitEnd s) (s_refStart s') (s_refEnd s))
  | (Err e, _) => (Err e, s)
  | (Panic, _) => (Panic, s)
  end.

(** A preload on a copy of the slice. *)
Definition on_scratch {A} (m : M Slice A) : M Slice A := fun s => (fst (m s), s).

Definition PreloadBigInt (sz : Z) : M Slice Z :=
  guard_err (257 <? sz) ErrTooBigSize ;;
  on_scratch (LoadBigInt sz).

Definition is_uint64 (v : Z) : bool := (0 <=? v) && (v <? 2 ^ 64).
Definition is_int64 (v : Z) : bool := (- 2 ^ 63 <=? v) && (v <? 2 ^ 63).

Definition LoadUInt (sz : Z) : M Slice Z :=
  if sz <=? 64 then loadUintFast sz false
  else on_copy (
    res ← LoadBigUInt sz;
    guard_err (negb (is_uint64 res)) ErrTooBigValue ;;
    mret res).

Definition PreloadUInt (sz : Z) : M Slice Z :=
  if sz <=? 64 then loadUintFast sz true
  else
    res ← PreloadBigUInt sz;
    guard_err (negb (is_uint64 res)) ErrTooBigValue ;;
    mret res.

Definition LoadInt (sz : Z) : M Slice Z :=
  if sz <=? 64 then loadIntFast sz
  else on_copy (
    res ← LoadBigInt sz;
    guard_err (negb (is_int64 res)) ErrTooBigValue ;;
    mret res).

Definition LoadVarUInt (sz : Z) : M Slice Z :=
  guard_err (sz =? 0) ErrInvalidSize ;;
  ln ← LoadUInt (bit_len (sz - 1));
  guard_err (sz <=? ln) ErrTooBigValue ;;
  LoadBigUInt (u64 (ln * 8)).

Definition LoadVarInt (sz : Z) : M Slice Z :=
  guard_err (sz =? 0) ErrInvalidSize ;;
  ln ← LoadUInt (bit_len (sz - 1));
  guard_err (sz <=? ln) ErrTooBigValue ;;
  LoadBigInt (u64 (ln * 8)).

Definition LoadBigCoins : M Slice Z := LoadVarUInt 16.

Definition LoadCoins : M Slice Z :=
  on_copy (
    ln ← LoadUInt 4;
    guard_err (16 <=? ln) ErrTooBigValue ;;
    if ln <=? 8 then LoadUInt (ln * 8)
    else
      value ← LoadBigUInt (ln * 8);
      guard_err (negb (is_uint64 value)) ErrTooBigValue ;;
      mret value).

(** ** References *)

Definition peekRefCellAt (i : Z) : M Slice Cell :=
  s ← get_state;
  guard_err (i <? 0) ErrNegative ;;
  guard_err (RefsNum s <=? i) ErrNoMoreRefs ;;
  let j := s_refStart s + i in
  guard_err (len (c_refs (s_cell s)) <=? j) ErrNoMoreRefs ;;
  lift (match c_refs (s_cell s) !! Z.to_nat j with Some ref => Ok ref | None => Panic end).

Definition loadRefCell (advance : bool) : M Slice Cell :=
  ref ← peekRefCellAt 0;
  (if advance then modify (fun s => with_refStart s (u8 (s_refStart s + 1))) else mret tt) ;;
  mret ref.

(** [loadRefInto]: the referenced cell parsed into a slice. *)
Definition loadRefInto (advance : bool) : M Slice Slice :=
  ref ← loadRefCell advance;
  mret (newSliceFromCell ref).

Definition LoadMaybeRef : M Slice (option Slice) :=
  s ← get_state;
  has ← LoadBoolBit;
  if negb has then mret None
  else fun s1 =>
    match loadRefInto false s1 with
    | (Ok ref, s2) => (Ok (Some ref), with_refStart s2 (u8 (s_refStart s2 + 1)))
    | (Err e, s2) => (Err e, mkSlice (s_cell s2) (s_bitStart s) (s_bitEnd s2) (s_refStart s) (s_refEnd s2))
    | (Panic, s2) => (Panic, s2)
    end.

(** ** Sub-slices *)

Definition PreloadSubslice (bits refs : Z) : M Slice Slice :=
  s ← get_state;
  guard_err ((refs <? 0) || (RefsNum s <? refs)) ErrNoMoreRefs ;;
  let left := BitsLeft s in
  guard_err (left <? bits) (ErrNotEnoughData left bits) ;;
  mret (mkSlice (s_cell s) (s_bitStart s) (u16 (s_bitStart s + u16 bits))
          (s_refStart s) (u8 (s_refStart s + u8 refs))).

Definition FetchSubslice (bits refs : Z) : M Slice Slice :=
  out ← PreloadSubslice bits refs;
  modify (fun s => mkSlice (s_cell s) (s_bitEnd out) (s_bitEnd s) (s_refEnd out) (s_refEnd s)) ;;
  mret out.

(** The common guard of the four cuts. *)
Definition cut_ok (s : Slice) (bits refs : Z) : bool :=
  negb ((refs <? 0) || (BitsLeft s <? bits) || (RefsNum s <? refs)).

Definition OnlyFirst (s : Slice) (bits refs : Z) : bool * Slice :=
  if negb (cut_ok s bits refs) then (false, s)
  else (true, mkSlice (s_cell s) (s_bitStart s) (u16 (s_bitStart s + u16 bits))
                (s_refStart s) (u8 (s_refStart s + u8 refs))).

Definition SkipFirst (s : Slice) (bits refs : Z) : bool * Slice :=
  if negb (cut_ok s bits refs) then (false, s)
  else (true, mkSlice (s_cell s) (u16 (s_bitStart s + u16 bits)) (s_bitEnd s)
                (u8 (s_refStart s + u8 refs)) (s_refEnd s)).

Definition OnlyLast (s : Slice) (bits refs : Z) : bool * Slice :=
  if negb (cut_ok s bits refs) then (false, s)
  else (true, mkSlice (s_cell s) (u16 (s_bitEnd s - u16 bits)) (s_bitEnd s)
                (u8 (s_refEnd s - u8 refs)) (s_refEnd s)).

Definition SkipLast (s : Slice) (bits refs : Z) : bool * Slice :=
  if negb (cut_ok s bits refs) then (false, s)
  else (true, mkSlice (s_cell s) (s_bitStart s) (u16 (s_bitEnd s - u16 bits))
                (s_refStart s) (u8 (s_refEnd s - u8 refs))).

Definition Subslice (s : Slice) (offsetBits offsetRefs bits refs : Z) : outcome Slice :=
  let e := ErrNotEnoughData (BitsLeft s) (u64 (offsetBits + bits)) in
  match SkipFirst s offsetBits offsetRefs with
  | (false, _) => Err e
  | (true, next) =>
      match OnlyFirst next bits refs with
      | (false, _) => Err e
      | (true, next) => Ok next
      end
  end.

(** [ToBuilderInto] of a slice; it panics when the load it relies on fails. *)
Definition ToBuilder (s : Slice) : outcome Builder :=
  let left := BitsLeft s in
  match fst (loadSliceInto (replicate 128 0) left true s) with
  | Ok d => Ok (mkBuilder d left
                  (take (Z.to_nat (RefsNum s)) (drop (Z.to_nat (s_refStart s)) (c_refs (s_cell s)))))
  | _ => Panic
  end.

(** ** Storing a slice into a builder *)

(** [storeSliceView]: the remaining bits and references of [slice], whose own
    cursor does not move. *)
Definition storeSliceView (slice : Slice) (checkDepth : bool) : M Builder unit :=
  b ← get_state;
  let refsNum := RefsNum slice in
  guard_err (4 <? len (b_refs b) + refsNum) ErrTooMuchRefs ;;
  let bits := BitsLeft slice in
  guard_err (1024 <=? b_bitsSz b + bits) ErrNotFit1023 ;;
  let refs := take (Z.to_nat refsNum) (drop (Z.to_nat (s_refStart slice)) (c_refs (s_cell slice))) in
  (if checkDepth then validateCellRefDepthLimit refs else mret tt) ;;
  storeBitRange (s_data slice) (s_bitStart slice) bits ;;
  modify (fun b => mkBuilder (b_data b) (b_bitsSz b) (b_refs b ++ refs)).

(** ** Comparing slices, 64 bits a step *)

Definition preloadSliceUIntAt (src : Slice) (offset sz : Z) : outcome Z :=
  if sz =? 0 then Ok 0
  else if (BitsLeft src <? offset) || (BitsLeft src - offset <? sz)
  then Err (ErrNotEnoughData (BitsLeft src - Z.min offset (BitsLeft src)) sz)
  else fst (loadUintFast sz true (with_bitStart src (u16 (s_bitStart src + u16 offset)))).

Definition sameBitsValue (bit : bool) (sz : Z) : Z :=
  if negb bit then 0
  else if sz =? 64 then 2 ^ 64 - 1
  else u64 (u64 (1 ≪ sz) - 1).

(** [commonSlicePrefix]: the loop over 64-bit chunks, with [fuel] steps. *)
Fixpoint commonPrefixLoop (fuel : nat) (a b : Slice) (limit matched : Z) : outcome Z :=
  if matched <? limit then
    match fuel with
    | O => Panic
    | S fuel =>
        let chunk := Z.min 64 (limit - matched) in
        aVal ← preloadSliceUIntAt a matched chunk;
        bVal ← preloadSliceUIntAt b matched chunk;
        if aVal =? bVal then commonPrefixLoop fuel a b limit (matched + chunk)
        else Ok (matched + (chunk - bit_len (Z.lxor aVal bVal)))
    end
  else Ok matched.

Definition commonSlicePrefix (a b : Slice) (limit : Z) : outcome Z :=
  if BitsLeft a <? limit then Err (ErrNotEnoughData (BitsLeft a) limit)
  else commonPrefixLoop (Z.to_nat limit) a b limit 0.

(** [LexCompare] with a non-nil slice: -1, 0 or 1. *)
Fixpoint lexLoop (fuel : nat) (a b : Slice) (limit done : Z) : outcome (option Z) :=
  if done <? limit then
    match fuel with
    | O => Panic
    | S fuel =>
        let chunk := Z.min 64 (limit - done) in
        match preloadSliceUIntAt a done chunk, preloadSliceUIntAt b done chunk with
        | Ok x, Ok y =>
            if negb (x =? y) then Ok (Some (if x <? y then -1 else 1))
            else lexLoop fuel a b limit (done + chunk)
        | Panic, _ | _, Panic => Panic
        | _, _ => Ok None
        end
    end
  else Ok None.

Definition LexCompare (a b : Slice) : outcome Z :=
  let left := BitsLeft a in
  let right := BitsLeft b in
  let limit := Z.min left right in
  r ← lexLoop (Z.to_nat limit) a b limit 0;
  Ok (match r with
      | Some x => x
      | None => if left <? right then -1 else if right <? left then 1 else 0
      end).

(** [CountLeading] and [CountTrailing]: the length of the run of [bit] at either
    end.  [leading_zeros64] and [trailing_zeros64] are [math/bits]'. *)
Definition leading_zeros64 (x : Z) : Z := 64 - bit_len x.
Fixpoint trailing_zeros (n : nat) (x : Z) : Z :=
  match n with
  | O => 0
  | S n => if Z.odd x then 0 else 1 + trailing_zeros n (x ≫ 1)
  end.
Definition trailing_zeros64 (x : Z) : Z := trailing_zeros 64 x.

Fixpoint leadLoop (fuel : nat) (s : Slice) (bit : bool) (bits done : Z) : outcome Z :=
  if done <? bits then
    match fuel with
    | O => Panic
    | S fuel =>
        let chunk := Z.min 64 (bits - done) in
        match preloadSliceUIntAt s done chunk with
        | Ok v =>
            let want := sameBitsValue bit chunk in
            if negb (v =? want)
            then Ok (done + leading_zeros64 (u64 (Z.lxor v want ≪ (64 - chunk))))
            else leadLoop fuel s bit bits (done + chunk)
        | Err _ => Ok done
        | Panic => Panic
        end
    end
  else Ok bits.

Definition CountLeading (s : Slice) (bit : bool) : outcome Z :=
  let bits := BitsLeft s in
  if bits =? 0 then Ok 0 else leadLoop (Z.to_nat bits) s bit bits 0.

Fixpoint trailLoop (fuel : nat) (s : Slice) (bit : bool) (bits done : Z) : outcome Z :=
  if done <? bits then
    match fuel with
    | O => Panic
    | S fuel =>
        let chunk := Z.min 64 (bits - done) in
        match preloadSliceUIntAt s (bits - done - chunk) chunk with
        | Ok v =>
            let want := sameBitsValue bit chunk in
            if negb (v =? want) then Ok (done + trailing_zeros64 (Z.lxor v want))
            else trailLoop fuel s bit bits (done + chunk)
        | Err _ => Ok done
        | Panic => Panic
        end
    end
  else Ok bits.

Definition CountTrailing (s : Slice) (bit : bool) : outcome Z :=
  let bits := BitsLeft s in
  if bits =? 0 then Ok 0 else trailLoop (Z.to_nat bits) s bit bits 0.

Definition RemoveTrailing (s : Slice) : outcome (Z * Slice) :=
  let bits := BitsLeft s in
  if bits =? 0 then Ok (0, s)
  else
    trailing ← CountTrailing s false;
    if bits <=? trailing
    then Ok (trailing, mkSlice (s_cell s) (s_bitStart s) (u16 (s_bitEnd s - u16 trailing)) (s_refStart s) (s_refEnd s))
    else Ok (trailing + 1, mkSlice (s_cell s) (s_bitStart s) (u16 (s_bitEnd s - u16 (trailing + 1))) (s_refStart s) (s_refEnd s)).

(** [bitsEqualSameOffset]: two byte ranges compared from the same bit offset:
    masked head byte, whole bytes, masked tail byte. *)
Definition bitsEqualTail (left right : list Z) (bits : Z) : outcome bool :=
  let wholeBytes := bits / 8 in
  l ← subrange left 0 wholeBytes;
  r ← subrange right 0 wholeBytes;
  if negb (bool_decide (l = r)) then Ok false
  else
    let tailBits := bits mod 8 in
    if tailBits =? 0 then Ok true
    else
      let mask := u8 (255 ≪ (8 - tailBits)) in
      x ← index left wholeBytes;
      y ← index right wholeBytes;
      Ok (Z.land x mask =? Z.land y mask).

Definition bitsEqualSameOffset (left right : list Z) (offset bits : Z) : outcome bool :=
  if bits =? 0 then Ok true
  else if negb (offset =? 0) then
    let headBits := Z.min bits (8 - offset) in
    let mask := Z.land (u8 (255 ≫ offset)) (u8 (255 ≪ (8 - offset - headBits))) in
    x ← index left 0;
    y ← index right 0;
    if negb (Z.land x mask =? Z.land y mask) then Ok false
    else if bits - headBits =? 0 then Ok true
    else
      left ← subrange left 1 (len left);
      right ← subrange right 1 (len right);
      bitsEqualTail left right (bits - headBits)
  else bitsEqualTail left right bits.

Fixpoint bitsEqualLoop (fuel : nat) (c other : Slice) (offset otherOffset bits done : Z) : outcome bool :=
  if done <? bits then
    match fuel with
    | O => Panic
    | S fuel =>
        let chunk := Z.min 64 (bits - done) in
        match preloadSliceUIntAt c (offset + done) chunk with
        | Err _ => Ok false
        | Panic => Panic
        | Ok a =>
            match preloadSliceUIntAt other (otherOffset + done) chunk with
            | Err _ => Ok false
            | Panic => Panic
            | Ok b =>
                if negb (a =? b) then Ok false
                else bitsEqualLoop fuel c other offset otherOffset bits (done + chunk)
            end
        end
    end
  else Ok true.

Definition bitsEqualAt (c other : Slice) (offset otherOffset bits : Z) : outcome bool :=
  let start := s_bitStart c + offset in
  let otherStart := s_bitStart other + otherOffset in
  if start mod 8 =? otherStart mod 8 then
    l ← subrange (s_data c) (start / 8) (len (s_data c));
    r ← subrange (s_data other) (otherStart / 8) (len (s_data other));
    bitsEqualSameOffset l r (start mod 8) bits
  else bitsEqualLoop (Z.to_nat bits) c other offset otherOffset bits 0.

Definition BitsEqual (c other : Slice) : outcome bool :=
  let bits := BitsLeft c in
  if bits =? BitsLeft other then bitsEqualAt c other 0 0 bits else Ok false.

Definition IsPrefixOf (c other : Slice) : outcome bool :=
  let bits := BitsLeft c in
  if BitsLeft other <? bits then Ok false else bitsEqualAt c other 0 0 bits.

Definition IsProperPrefixOf (c other : Slice) : outcome bool :=
  let bits := BitsLeft c in
  if bits <? BitsLeft other then bitsEqualAt c other 0 0 bits else Ok false.

Definition IsSuffixOf (c other : Slice) : outcome bool :=
  let bits := BitsLeft c in
  if BitsLeft other <? bits then Ok false
  else bitsEqualAt c other 0 (BitsLeft other - bits) bits.

Definition IsProperSuffixOf (c other : Slice) : outcome bool :=
  let bits := BitsLeft c in
  let otherBits := BitsLeft other in
  if bits <? otherBits then bitsEqualAt c other 0 (otherBits - bits) bits else Ok false.

(** ** The invariant and the bit string a slice has left *)

Record swf (s : Slice) : Prop := {
  swf_bytes : bytes_ok (s_data s);
  swf_bits : 0 <= s_bitStart s <= s_bitEnd s;
  swf_end : s_bitEnd s <= 1023;
  swf_data : s_bitEnd s <= 8 * len (s_data s) < 2 ^ 63;
  swf_refs : 0 <= s_refStart s <= s_refEnd s;
  swf_rend : s_refEnd s <= len (c_refs (s_cell s)) <= 4
}.

Definition sbits (s : Slice) : list bool :=
  window (s_data s) (s_bitStart s) (s_bitEnd s - s_bitStart s).
Definition srefs (s : Slice) : list Cell :=
  take (Z.to_nat (s_refEnd s - s_refStart s)) (drop (Z.to_nat (s_refStart s)) (c_refs (s_cell s))).

(** The slice after [n] more bits. *)
Definition skip (s : Slice) (n : Z) : Slice := with_bitStart s (s_bitStart s + n).

Lemma BitsLeft_eq s : swf s -> BitsLeft s = s_bitEnd s - s_bitStart s.
Proof. intros [? ? ? ? ? ?]. unfold BitsLeft, u16. lia. Qed.

Lemma RefsNum_eq s : swf s -> RefsNum s = s_refEnd s - s_refStart s.
Proof. intros [? ? ? ? ? ?]. unfold RefsNum, u8. lia. Qed.

Lemma len_sbits s : swf s -> len (sbits s) = BitsLeft s.
Proof. intros H. rewrite BitsLeft_eq by done. apply length_window. pose proof (swf_bits _ H). lia. Qed.

Lemma len_srefs s : swf s -> len (srefs s) = RefsNum s.
Proof.
  intros H. rewrite RefsNum_eq by done. destruct H. unfold srefs. apply len_take_drop; lia.
Qed.

Lemma swf_skip s n : swf s -> 0 <= n <= BitsLeft s -> swf (skip s n).
Proof.
  intros H Hn. rewrite BitsLeft_eq in Hn by done. destruct H. unfold skip, with_bitStart.
  split; unfold s_data in *; cbn in *; try done; lia.
Qed.

Lemma take_window d a n m : 0 <= n <= m -> take (Z.to_nat n) (window d a m) = window d a n.
Proof.
  intros. unfold window. rewrite <-fmap_take, take_seq. do 2 f_equal. lia.
Qed.

Lemma drop_window d a n m : 0 <= n <= m -> drop (Z.to_nat n) (window d a m) = window d (a + n) (m - n).
Proof.
  intros. replace m with (n + (m - n)) at 1 by lia. rewrite window_app by lia.
  rewrite drop_app_length'; [done|]. pose proof (length_window d a n). unfold len in *. lia.
Qed.

(** Reading the first bits of a slice, and what is left after them. *)
Lemma take_sbits s n :
  swf s -> 0 <= n <= BitsLeft s -> take (Z.to_nat n) (sbits s) = window (s_data s) (s_bitStart s) n.
Proof. intros H Hn. rewrite BitsLeft_eq in Hn by done. now apply take_window. Qed.

Lemma sbits_skip s n :
  swf s -> 0 <= n <= BitsLeft s -> sbits (skip s n) = drop (Z.to_nat n) (sbits s).
Proof.
  intros H Hn. rewrite BitsLeft_eq in Hn by done. unfold sbits. rewrite drop_window by lia.
  unfold skip, with_bitStart, s_data. cbn. f_equal. lia.
Qed.

Lemma advance_run s n preload :
  swf s -> 0 <= n <= BitsLeft s ->
  advance n preload s = (Ok tt, if preload then s else skip s n).
Proof.
  intros H Hn. rewrite BitsLeft_eq in Hn by done. destruct H. unfold advance, skip, modify.
  destruct preload; [done|]. do 2 f_equal. unfold u16. lia.
Qed.
