(* ===== verification/SliceSpec.v ===== *)
(** * Reading bits, integers and byte slices

    Every path of [loadUintFast], [loadIntFast], [loadSliceInto] and
    [readBigNumber] returns the bits at the front of the slice and moves the
    cursor past them; a read that does not fit leaves the slice as it was. *)

From S2P Require Import Prelude Bytes CellModel Builder Slice.
#[local] Open Scope Z_scope.

(** The value of a window, bit by bit. *)
Lemma testbit_window d a n k :
  0 <= n -> Z.testbit (bits_uint (window d a n)) k = (0 <=? k) && (k <? n) && bit d (a + n - 1 - k).
Proof.
  intros Hn. rewrite testbit_bits_uint, length_window by done. split_cmp; cbn [andb]; try done.
  rewrite nth_window_Z by lia. split_cmp. cbn [andb]. f_equal. lia.
Qed.

Lemma window_value_bound d a n : 0 <= n -> 0 <= bits_uint (window d a n) < 2 ^ n.
Proof. intros. pose proof (bits_uint_bound (window d a n)). now rewrite length_window in *. Qed.

(** A number whose bits are those of a window is its value. *)
Lemma window_value d a n v :
  0 <= n -> 0 <= v ->
  (forall k, 0 <= k -> Z.testbit v k = (k <? n) && bit d (a + n - 1 - k)) ->
  v = bits_uint (window d a n).
Proof.
  intros Hn Hv H. apply Z.bits_inj'. intros k Hk. rewrite H, testbit_window by lia. split_cmp; done.
Qed.

Lemma drop_window_bytes d a sz :
  0 <= a -> window (drop (Z.to_nat (a / 8)) d) (a mod 8) sz = window d a sz.
Proof.
  intros Ha. apply window_ext. intros i Hi. unfold bit, byte_at. rewrite nth_drop.
  f_equal; [f_equal|]; lia.
Qed.

Lemma accBytes_eq l : bytes_ok l -> len l <= 8 -> accBytes l = be_uint l.
Proof.
  unfold accBytes, be_uint. induction l as [|b l IH] using rev_ind; intros Hl Hn; [done|].
  rewrite len_app, len_cons, len_nil in Hn. apply bytes_ok_app in Hl as [Hl _].
  rewrite !foldl_snoc, IH by (done || lia). f_equal.
  pose proof (be_uint_bound l Hl) as Hb. unfold be_uint in Hb.
  set (v := foldl _ _ _) in *. unfold u64. apply Z.mod_small.
  rewrite Z.shiftl_mul_pow2 by lia. pose proof (len_nonneg l).
  assert (2 ^ (8 * len l) <= 2 ^ 56) by (apply Z.pow_le_mono_r; lia). lia.
Qed.

Lemma byte_be_uint l : len l = 1 -> byte_at l 0 = be_uint l.
Proof.
  destruct l as [|x [|y l]]; rewrite ?len_cons, ?len_nil; intros; try lia; [done|].
  pose proof (len_nonneg l). lia.
Qed.

(** The bytes that hold a window, as one number. *)
Lemma be_uint_window d a n :
  bytes_ok d -> 0 <= a -> 0 <= n -> a + n <= len d ->
  be_uint (take (Z.to_nat n) (drop (Z.to_nat a) d)) = bits_uint (window d (8 * a) (8 * n)).
Proof.
  intros Hd Ha Hn Hl. assert (Hw : bytes_ok (take (Z.to_nat n) (drop (Z.to_nat a) d))) by auto with bytes.
  apply window_value; [lia|now apply be_uint_nonneg|]. intros k Hk.
  rewrite testbit_be_uint, len_take_drop by (done || lia).
  split_cmp; cbn [andb]; try done. rewrite bit_take_drop by lia. f_equal. lia.
Qed.

Lemma land_bit d i : 0 <= i -> Z.land (byte_at d (i / 8) ≫ (7 - i mod 8)) 1 = Z.b2z (bit d i).
Proof.
  intros Hi. apply Z.bits_inj'. intros k Hk. autorewrite with bitdb.
  split_cmp; bool_simpl; try done. subst k. unfold bit. now f_equal.
Qed.

Lemma window_one d a : bits_uint (window d a 1) = Z.b2z (bit d a).
Proof.
  symmetry. apply window_value; [lia|destruct (bit d a); done|].
  intros k Hk. rewrite testbit_b2z. split_cmp; cbn [andb]; try done. f_equal. lia.
Qed.

(** The number a cut of at most eight bytes gives after its shift and mask. *)
Lemma window_shift_mask d a n sz r :
  0 <= r -> 0 <= sz -> sz + r <= n ->
  Z.land (bits_uint (window d a n) ≫ r) (Z.ones sz) = bits_uint (window d (a + n - r - sz) sz).
Proof.
  intros Hr Hsz Hn. pose proof (window_value_bound d a n ltac:(lia)).
  apply window_value; [done|apply Z.land_nonneg; right; rewrite Z.ones_equiv; pose proof (Z.pow_pos_nonneg 2 sz); lia|].
  intros k Hk. autorewrite with bitdb. rewrite testbit_window by lia.
  split_cmp; bool_simpl; try done. f_equal. lia.
Qed.

Lemma eight_bytes_value d a nb o sz :
  0 <= o -> 0 < sz <= 64 -> o + sz <= 8 * nb -> 8 * nb <= 64 ->
  (if sz <? 64 then Z.land (bits_uint (window d a (8 * nb)) ≫ (nb * 8 - o - sz)) (u64 (1 ≪ sz) - 1)
   else bits_uint (window d a (8 * nb)) ≫ (nb * 8 - o - sz))
  = bits_uint (window d (a + o) sz).
Proof.
  intros Ho Hsz Hn Hn8. destruct (Z.ltb_spec sz 64).
  - replace (u64 (1 ≪ sz) - 1) with (Z.ones sz).
    2: { rewrite Z.ones_equiv, Z.shiftl_1_l. pose proof (Z.pow_pos_nonneg 2 sz).
         pose proof (Z.pow_lt_mono_r 2 sz 64). unfold u64. rewrite Z.mod_small; lia. }
    rewrite window_shift_mask by lia. do 2 f_equal. lia.
  - replace (nb * 8 - o - sz) with 0 by lia. rewrite Z.shiftr_0_r. do 2 f_equal; lia.
Qed.

(** The number nine bytes give: eight as a word, the ninth below them. *)
Lemma nine_bytes_value d st sz :
  bytes_ok d -> 0 <= st -> st / 8 + 9 <= len d -> 0 < sz <= 64 -> 64 < st mod 8 + sz ->
  (if sz <? 64
   then Z.lor (u64 (accBytes (take (Z.to_nat 8) (drop (Z.to_nat (st / 8)) d)) ≪ (st mod 8)))
              (byte_at d (st / 8 + 8) ≫ (8 - st mod 8)) ≫ (64 - sz)
   else Z.lor (u64 (accBytes (take (Z.to_nat 8) (drop (Z.to_nat (st / 8)) d)) ≪ (st mod 8)))
              (byte_at d (st / 8 + 8) ≫ (8 - st mod 8)))
  = bits_uint (window d st sz).
Proof.
  intros Hok Hst Hl Hsz Ho.
  rewrite accBytes_eq, be_uint_window by (auto with bytes || rewrite ?len_take_drop; lia).
  change (8 * 8) with 64. set (v := Z.lor _ _). pose proof (byte_at_ok d (st / 8 + 8) Hok) as Hxb.
  assert (Hv : v = bits_uint (window d st 64)).
  { apply window_value; [lia| |].
    - apply Z.lor_nonneg. split; [unfold u64; lia|]. apply Z.shiftr_nonneg. lia.
    - intros k Hk. unfold v. autorewrite with bitdb. rewrite testbit_window by lia.
      destruct (Z.ltb_spec (k + (8 - st mod 8)) 8).
      + split_cmp; bool_simpl; try done. unfold bit. f_equal; [f_equal|]; lia.
      + rewrite (testbit_above (byte_at d (st / 8 + 8)) 8) by lia.
        split_cmp; bool_simpl; try done; f_equal; lia. }
  rewrite Hv. destruct (Z.ltb_spec sz 64); [|do 2 f_equal; lia].
  apply window_value; [lia|apply Z.shiftr_nonneg; apply window_value_bound; lia|].
  intros k Hk. autorewrite with bitdb. rewrite testbit_window by lia.
  split_cmp; bool_simpl; try done; f_equal; lia.
Qed.

(** [loadUintFast] on every path: single bit, whole bytes, up to eight bytes and
    nine bytes. *)
Lemma loadUintFast_run s sz preload :
  swf s -> 0 <= sz <= 64 ->
  loadUintFast sz preload s =
    if BitsLeft s <? sz then (Err (ErrNotEnoughData (BitsLeft s) sz), s)
    else (Ok (bits_uint (window (s_data s) (s_bitStart s) sz)), if preload then s else skip s sz).
Proof.
  intros Hwf Hsz. unfold loadUintFast. mrun.
  destruct (Z.ltb_spec (BitsLeft s) sz) as [|Hleft]; [done|].
  pose proof (BitsLeft_eq s Hwf) as HL. destruct (Hwf) as [Hok Hb He Hd _ _].
  destruct (Z.eqb_spec sz 0) as [-> |].
  { unfold mret, M_ret. destruct preload; [done|]. unfold skip, with_bitStart. rewrite Z.add_0_r. now destruct s. }
  destruct (Z.eqb_spec sz 1) as [-> |].
  { rewrite index_ok by lia. mrun. rewrite (bind_Ok _ _ _ _ _ (advance_run s 1 preload Hwf ltac:(lia))).
    rewrite land_bit, window_one by lia. done. }
  rewrite subrange_ok by lia. mrun.
  set (st := s_bitStart s) in *. set (o := st mod 8) in *. set (nb := (o + sz + 7) / 8) in *.
  replace (st / 8 + nb - st / 8) with nb by lia.
  set (data := take (Z.to_nat nb) (drop (Z.to_nat (st / 8)) (s_data s))).
  assert (Hdl : len data = nb) by (unfold data; rewrite len_take_drop; lia).
  assert (Hdok : bytes_ok data) by (unfold data; auto with bytes).
  assert (Hdv : be_uint data = bits_uint (window (s_data s) (8 * (st / 8)) (8 * nb)))
    by (unfold data; apply be_uint_window; done || lia).
  assert (Hadv : forall v, (advance sz preload ;; mret v : M Slice Z) s =
                   (Ok v, if preload then s else skip s sz)).
  { intros v. now rewrite (bind_Ok _ _ _ _ _ (advance_run s sz preload Hwf ltac:(lia))). }
  destruct ((o =? 0) && (sz mod 8 =? 0)) eqn:Ha.
  - apply andb_prop in Ha as [Ho Hm]. assert (Hval : be_uint data = bits_uint (window (s_data s) st sz)).
    { rewrite Hdv. do 2 f_equal; lia. }
    assert (Htake : forall k, nb = k -> take (Z.to_nat k) data = data)
      by (intros k Hk; apply take_ge; unfold len in Hdl; lia).
    rewrite <-Hval.
    destruct (Z.eqb_spec sz 8) as [E8 |]; [|destruct (Z.eqb_spec sz 16) as [E16 |]];
      [| |destruct (Z.eqb_spec sz 32) as [E32 |]]; [| | |destruct (Z.eqb_spec sz 64) as [E64 |]].
    + rewrite index_ok by lia. mrun. rewrite Hadv. do 2 f_equal.
      apply byte_be_uint. lia.
    + rewrite subrange_prefix by lia. mrun. rewrite Hadv. now rewrite Htake by lia.
    + rewrite subrange_prefix by lia. mrun. rewrite Hadv. now rewrite Htake by lia.
    + rewrite subrange_prefix by lia. mrun. rewrite Hadv. now rewrite Htake by lia.
    + mrun. rewrite Hadv. now rewrite accBytes_eq by (done || lia).
  - destruct (Z.leb_spec nb 8).
    + mrun. rewrite Hadv, accBytes_eq, Hdv by (done || lia). do 2 f_equal.
      rewrite eight_bytes_value by lia. do 2 f_equal. lia.
    + rewrite subrange_prefix by lia. mrun. rewrite index_ok by lia. mrun. rewrite Hadv. do 2 f_equal.
      unfold data. rewrite take_take, Nat.min_l by lia.
      replace (byte_at _ 8) with (byte_at (s_data s) (st / 8 + 8))
        by (unfold byte_at; rewrite nth_take, nth_drop by lia; f_equal; lia).
      apply nine_bytes_value; done || lia.
Qed.

(** ** Signed values *)

Lemma bits_int_window d a n :
  0 < n -> bits_int (window d a n) =
  if Z.testbit (bits_uint (window d a n)) (n - 1)
  then bits_uint (window d a n) - 2 ^ n else bits_uint (window d a n).
Proof.
  intros Hn. rewrite testbit_window by lia. replace (a + n - 1 - (n - 1)) with (a + 0) by lia.
  pose proof (length_window d a n ltac:(lia)) as Hl. pose proof (nth_window_Z d a n 0 ltac:(lia)) as Hb.
  change (Z.to_nat 0) with 0%nat in Hb. unfold bits_int.
  destruct (window d a n) as [|x l]; [rewrite len_nil in Hl; lia|]. cbn [nth] in Hb. subst x.
  rewrite Hl. split_cmp. cbn [andb]. done.
Qed.

Lemma testbit_top u n : 0 < n -> 0 <= u < 2 ^ n -> Z.testbit u (n - 1) = (2 ^ (n - 1) <=? u).
Proof.
  intros Hn Hu. assert (H2 : 2 ^ n = 2 * 2 ^ (n - 1)) by (rewrite <-Z.pow_succ_r by lia; f_equal; lia).
  pose proof (Z.testbit_spec' u (n - 1) ltac:(lia)) as H.
  destruct (Z.testbit u (n - 1)), (Z.leb_spec (2 ^ (n - 1)) u); cbn [Z.b2z] in H; try done.
  - rewrite Z.div_small in H by lia. done.
  - replace (u / 2 ^ (n - 1)) with 1 in H; [done|].
    apply Z.div_unique with (r := u - 2 ^ (n - 1)); lia.
Qed.

Lemma land_pow2_zero u k : 0 <= k -> (Z.land u (2 ^ k) =? 0) = negb (Z.testbit u k).
Proof.
  intros Hk. rewrite <-Z.shiftl_1_l. destruct (Z.testbit u k) eqn:E; cbn [negb].
  - apply Z.eqb_neq. intros H. apply (f_equal (fun z => Z.testbit z k)) in H. revert H.
    rewrite Z.testbit_0_l, Z.land_spec, E, testbit_shiftl, testbit_1 by done. now split_cmp.
  - apply Z.eqb_eq. apply Z.bits_inj'. intros i Hi. rewrite Z.testbit_0_l, Z.land_spec, testbit_shiftl, testbit_1 by done.
    split_cmp; bool_simpl; try done. replace i with k by lia. now rewrite E.
Qed.

Lemma loadIntFast_run s sz :
  swf s -> 0 <= sz <= 64 ->
  loadIntFast sz s =
    if BitsLeft s <? sz then (Err (ErrNotEnoughData (BitsLeft s) sz), s)
    else (Ok (bits_int (window (s_data s) (s_bitStart s) sz)), skip s sz).
Proof.
  intros Hwf Hsz. unfold loadIntFast.
  destruct (Z.ltb_spec (BitsLeft s) sz) as [Hl|Hl].
  { erewrite bind_Err; [done|]. rewrite loadUintFast_run by done. now split_cmp. }
  erewrite bind_Ok; [|rewrite loadUintFast_run by done; destruct (Z.ltb_spec (BitsLeft s) sz); [lia|done]].
  destruct (Z.eqb_spec sz 0) as [-> |]; [done|]. rewrite bits_int_window by lia.
  pose proof (window_value_bound (s_data s) (s_bitStart s) sz ltac:(lia)) as Hu.
  set (u := bits_uint _) in *.
  rewrite testbit_top by lia. assert (H2 : 2 ^ sz = 2 * 2 ^ (sz - 1)) by (rewrite <-Z.pow_succ_r by lia; f_equal; lia).
  destruct (Z.eqb_spec sz 64) as [-> |].
  { unfold mret, M_ret. do 2 f_equal. unfold s64. change (64 - 1) with 63. destruct (Z.leb_spec (2 ^ 63) u); lia. }
  unfold mret, M_ret. do 2 f_equal. rewrite !Z.shiftl_1_l.
  assert (Hp : 2 ^ sz <= 2 ^ 63) by (apply Z.pow_le_mono_r; lia).
  assert (Hu1 : u64 (2 ^ (sz - 1)) = 2 ^ (sz - 1)) by (unfold u64; apply Z.mod_small; lia).
  assert (Hu2 : u64 (2 ^ sz) = 2 ^ sz) by (unfold u64; apply Z.mod_small; lia).
  rewrite Hu1, Hu2, land_pow2_zero, testbit_top, negb_involutive by lia.
  destruct (Z.leb_spec (2 ^ (sz - 1)) u).
  - rewrite Z.lor_comm, <-(add_disjoint _ u sz); [unfold s64; lia|lia|done|].
    intros k Hk. replace (2 ^ 64 - 1 - (2 ^ sz - 1)) with ((2 ^ (64 - sz) - 1) * 2 ^ sz).
    + now rewrite Z.mul_pow2_bits_low by lia.
    + rewrite Z.mul_sub_distr_r, <-Z.pow_add_r by lia. replace (64 - sz + sz) with 64 by lia. lia.
  - unfold s64. lia.
Qed.

(** * Copying bits out of a slice

    [loadSliceInto] realigns a bit window into a byte buffer, eight bytes a step,
    and [readBigNumber] turns that buffer into an integer.  Both agree with the
    window they read. *)

Section load_slice.
  Context (data buf : list Z) (o sz : Z).
Let outLen := (sz + 7) / 8.
Let need := (o + sz + 7) / 8.
  Hypothesis Hdata : bytes_ok data.
  Hypothesis Hbuf : bytes_ok buf.
  Hypothesis Hsz : 0 < sz.
  Hypothesis Ho : 0 <= o < 8.
  Hypothesis Hneed : need <= len data.
  Hypothesis Hroom : outLen <= len buf.

Lemma window_sizes : 1 <= outLen <= need /\ need <= outLen + 1 /\ 8 * (outLen - 1) < sz <= 8 * outLen.
Proof. unfold outLen, need. lia. Qed.

(** The first [i] bytes of the window are in the buffer. *)
Definition got (out : list Z) (i : Z) : Prop :=
  len out = len buf /\ bytes_ok out /\
  (forall k, 0 <= k < 8 * i -> bit out k = bit data (o + k)) /\
  (forall k, 8 * outLen <= k -> bit out k = bit buf k).

(** Every bit of the window is in the buffer; the rest of its last byte is free. *)
Definition got_all (out : list Z) : Prop :=
  len out = len buf /\ bytes_ok out /\
  (forall k, 0 <= k < sz -> bit out k = bit data (o + k)) /\
  (forall k, 8 * outLen <= k -> bit out k = bit buf k).

Lemma got_write out i j new :
  got out i -> 0 <= i -> len new = j - i -> j <= outLen -> bytes_ok new ->
  (forall k, 0 <= k < 8 * (j - i) -> bit new k = bit data (o + 8 * i + k)) ->
  write out i new = Ok (splice out i new) /\ got (splice out i new) j.
Proof.
  intros (Hl & Hok & H1 & H2) Hi Hn Hj Hnew H. pose proof (len_nonneg new).
  rewrite write_ok by lia. split; [done|]. split_and!.
  - rewrite len_splice; lia.
  - auto with bytes.
  - intros k Hk. rewrite bit_splice by lia. split_cmp; cbn [andb].
    + rewrite H by lia. f_equal. lia.
    + apply H1. lia.
  - intros k Hk. rewrite bit_splice by lia. split_cmp. cbn [andb]. now apply H2.
Qed.

Lemma loadSliceWords_ok fuel out i :
  0 < o -> got out i -> 0 <= i <= outLen -> outLen - i <= Z.of_nat fuel ->
  exists out' i', loadSliceWords fuel data out o outLen need i = Ok (out', i') /\
    got out' i' /\ i <= i' <= outLen.
Proof.
  intros Hpos. revert out i. induction fuel as [|fuel IH]; intros out i Hg Hi Hf; cbn [loadSliceWords];
    (destruct (Z.leb_spec (i + 8) outLen); cbn [andb]; [|exists out, i; split_and!; done || lia]); [lia|].
  destruct (Z.leb_spec (i + 9) need); [|exists out, i; split_and!; done || lia].
  rewrite subrange_ok by lia. cbn [mbind outcome_bind]. rewrite index_ok by lia. cbn [mbind outcome_bind].
  replace (i + 8 - i) with 8 by lia. set (v := Z.lor _ _).
  assert (Hv : forall k, 0 <= k < 64 -> Z.testbit v k = bit data (o + 8 * i + 63 - k)).
  { intros k Hk. unfold v. autorewrite with bitdb.
    rewrite testbit_be_uint, len_take_drop by (auto with bytes || lia).
    pose proof (byte_at_ok data (i + 8) Hdata). destruct (Z.ltb_spec (k + (8 - o)) 8).
    - split_cmp. bool_simpl. unfold bit. f_equal; [f_equal|]; lia.
    - rewrite (testbit_above (byte_at data (i + 8)) 8) by lia. split_cmp. bool_simpl.
      rewrite bit_take_drop by lia. f_equal. lia. }
  destruct (got_write out i (i + 8) (be_bytes 8 v) Hg) as [-> Hg']; rewrite ?len_be_bytes; try lia.
  - apply be_bytes_ok.
  - intros k Hk. rewrite bit_be_bytes, Hv by lia. f_equal. lia.
  - cbn [mbind outcome_bind]. destruct (IH _ _ Hg') as (out' & i' & He & Hr & Hi'); try lia.
    exists out', i'. split_and!; done || lia.
Qed.

(** Two neighbouring source bytes give one byte of the window. *)
Lemma got_two_bytes i x y :
  0 < o -> 0 <= i -> x = byte_at data i -> y = byte_at data (i + 1) ->
  forall k, 0 <= k < 8 ->
  Z.testbit (Z.lor (u8 (x ≪ o)) (y ≫ (8 - o))) (7 - k) = bit data (o + 8 * i + k).
Proof.
  intros Hpos Hi -> -> k Hk. autorewrite with bitdb. pose proof (byte_at_ok data (i + 1) Hdata).
  destruct (Z.ltb_spec (7 - k + (8 - o)) 8).
  - rewrite (Z.testbit_neg_r (byte_at data i)) by lia. split_cmp. bool_simpl. unfold bit. f_equal; [f_equal|]; lia.
  - rewrite (testbit_above (byte_at data (i + 1)) 8) by lia. split_cmp. bool_simpl. unfold bit. f_equal; [f_equal|]; lia.
Qed.

Lemma loadSliceMid_ok n out i :
  0 < o -> got out i -> 0 <= i -> i + Z.of_nat n <= outLen - 1 ->
  exists out', loadSliceMid n data out o i = Ok out' /\ got out' (i + Z.of_nat n).
Proof.
  intros Hpos. pose proof window_sizes. revert out i. induction n as [|n IH]; intros out i Hg Hi Hn; cbn [loadSliceMid].
  { exists out. now rewrite Z.add_0_r. }
  rewrite index_ok by lia. cbn [mbind outcome_bind]. rewrite index_ok by lia. cbn [mbind outcome_bind].
  set (x := Z.lor _ _). pose proof (got_two_bytes i _ _ Hpos Hi eq_refl eq_refl) as Hx.
  destruct (got_write out i (i + 1) [x] Hg) as [-> Hg']; rewrite ?len_cons, ?len_nil; try lia.
  - unfold x. apply bytes_ok_one, byte_ok_lor; [apply byte_ok_u8|apply byte_ok_shiftr; auto with bytes; lia].
  - intros k Hk. rewrite bit_one by lia. apply Hx. lia.
  - cbn [mbind outcome_bind]. destruct (IH _ _ Hg') as (out' & He & Hr); try lia.
    exists out'. split; [done|]. now replace (i + Z.of_nat (S n)) with (i + 1 + Z.of_nat n) by lia.
Qed.

Lemma loadSliceLast_ok out :
  0 < o -> got out (outLen - 1) ->
  exists out', loadSliceLast data out o outLen need = Ok out' /\ got_all out'.
Proof.
  intros Hpos (Hl & Hok & H1 & H2). unfold loadSliceLast. cbv zeta. pose proof window_sizes.
  rewrite (index_ok data (outLen - 1)) by lia. cbn [mbind outcome_bind].
  rewrite write_ok by (rewrite ?len_cons, ?len_nil; lia). cbn [mbind outcome_bind].
  set (x := u8 _). assert (Hl' : len (splice out (outLen - 1) [x]) = len buf)
    by (rewrite len_splice; rewrite ?len_cons, ?len_nil; lia).
  pose proof (got_two_bytes (outLen - 1) _ _ Hpos ltac:(lia) eq_refl eq_refl) as Hx.
  assert (Hdone : forall z, byte_ok z ->
    (forall k, 0 <= k < sz - 8 * (outLen - 1) -> Z.testbit z (7 - k) = bit data (o + 8 * (outLen - 1) + k)) ->
    got_all (splice out (outLen - 1) [z])).
  { intros z Hz Hzb. split_and!.
    - rewrite len_splice; rewrite ?len_cons, ?len_nil; lia.
    - auto with bytes.
    - intros k Hk. rewrite bit_splice_one by lia. destruct (Z.eqb_spec (k / 8) (outLen - 1)).
      + replace (7 - k mod 8) with (7 - (k - 8 * (outLen - 1))) by lia. rewrite Hzb by lia. f_equal. lia.
      + apply H1. lia.
    - intros k Hk. rewrite bit_splice_one by lia. split_cmp. now apply H2. }
  destruct (Z.ltb_spec outLen need).
  - rewrite index_ok by lia. cbn [mbind outcome_bind]. rewrite index_ok by lia. cbn [mbind outcome_bind].
    rewrite write_ok by (rewrite ?len_cons, ?len_nil; lia). eexists. split; [done|].
    rewrite byte_at_splice by (rewrite ?len_cons, ?len_nil; lia). rewrite len_cons, len_nil.
    replace ((outLen - 1 <=? outLen - 1) && (outLen - 1 <? outLen - 1 + (0 + 1))) with true by (split_cmp; done).
    rewrite Z.sub_diag. change (byte_at [x] 0) with x.
    rewrite splice_again by lia. apply Hdone.
    + unfold x. apply byte_ok_lor; [apply byte_ok_u8|apply byte_ok_shiftr; auto with bytes; lia].
    + intros k Hk. apply Hx. lia.
  - eexists. split; [done|]. apply Hdone; [apply byte_ok_u8|]. intros k Hk.
    unfold x. autorewrite with bitdb. split_cmp. cbn [andb]. unfold bit. f_equal; [f_equal|]; lia.
Qed.

(** The last mask clears the bits after the window. *)
Lemma got_all_mask out :
  got_all out ->
  exists out', (if negb (sz mod 8 =? 0) then
                  x ← index out (outLen - 1);
                  write out (outLen - 1) [Z.land x (u8 (255 ≪ (8 - sz mod 8)))]
                else Ok out) = Ok out' /\
    out' = pack (Z.to_nat outLen) (window data o sz) ++ drop (Z.to_nat outLen) buf.
Proof.
  intros (Hl & Hok & H1 & H2). pose proof window_sizes as Hws.
  assert (Hfin : forall out', len out' = len buf -> bytes_ok out' ->
    (forall k, 0 <= k < 8 * outLen -> bit out' k = (k <? sz) && bit data (o + k)) ->
    (forall k, 8 * outLen <= k -> bit out' k = bit buf k) ->
    out' = pack (Z.to_nat outLen) (window data o sz) ++ drop (Z.to_nat outLen) buf).
  { intros out' Hl' Hok' Ha Hb. unfold len in Hl'. apply bytes_eq_bits; [done| | |].
    - apply bytes_ok_app. split; [apply bytes_ok_pack|now apply Forall_drop].
    - rewrite length_app, length_pack, length_drop. unfold len in Hroom. lia.
    - intros k Hk. unfold bit at 2. rewrite byte_at_app by lia. unfold len at 1. rewrite length_pack.
      destruct (Z.ltb_spec k (8 * outLen)).
      + rewrite Ha by lia. split_cmp; rewrite bit_byte, bit_pack by lia; rewrite nth_window_Z by lia; split_cmp; done.
      + rewrite Hb by lia. unfold bit, byte_at. split_cmp. unfold len. rewrite length_pack, nth_drop. f_equal. f_equal. lia. }
  destruct (Z.eqb_spec (sz mod 8) 0); cbn [negb].
  - exists out. split; [done|]. apply Hfin; try done. intros k Hk. split_cmp. now apply H1.
  - rewrite index_ok by lia. cbn [mbind outcome_bind].
    rewrite write_ok by (rewrite ?len_cons, ?len_nil; lia). eexists. split; [done|]. apply Hfin.
    + rewrite len_splice; rewrite ?len_cons, ?len_nil; lia.
    + auto with bytes.
    + intros k Hk. rewrite bit_splice_one by lia. destruct (Z.eqb_spec (k / 8) (outLen - 1)) as [He |].
      * rewrite <-He. autorewrite with bitdb. rewrite bit_byte. split_cmp; bool_simpl; try done. now apply H1.
      * rewrite H1 by lia. split_cmp. done.
    + intros k Hk. rewrite bit_splice_one by lia. split_cmp. now apply H2.
Qed.

Lemma load_window :
  exists out, (if o =? 0 then w ← subrange data 0 outLen; write buf 0 w
     else
       '(out, i) ← loadSliceWords (Z.to_nat outLen) data buf o outLen need 0;
       out ← loadSliceMid (Z.to_nat (outLen - 1 - i)) data out o i;
       if i <=? outLen - 1 then loadSliceLast data out o outLen need else Ok out) = Ok out /\
    got_all out.
Proof.
  pose proof window_sizes as Hws. destruct (Z.eqb_spec o 0) as [Ho0 | Ho0].
  - rewrite subrange_prefix by lia. cbn [mbind outcome_bind].
    rewrite write_ok by (rewrite ?len_take; lia). eexists. split; [done|]. split_and!.
    + rewrite len_splice; rewrite ?len_take; lia.
    + apply bytes_ok_splice; [done|now apply Forall_take].
    + intros k Hk. rewrite bit_splice, len_take by (rewrite ?len_take; lia). split_cmp. cbn [andb].
      rewrite bit_take by lia. f_equal. lia.
    + intros k Hk. rewrite bit_splice, len_take by (rewrite ?len_take; lia). now split_cmp.
  - destruct (loadSliceWords_ok (Z.to_nat outLen) buf 0) as (out & i & -> & Hg & Hi); try lia.
    { split_and!; try done. intros. lia. }
    cbn [mbind outcome_bind]. destruct (Z.leb_spec i (outLen - 1)).
    + destruct (loadSliceMid_ok (Z.to_nat (outLen - 1 - i)) out i) as (out' & -> & Hg'); try done; try lia.
      cbn [mbind outcome_bind]. apply loadSliceLast_ok; [lia|].
      now replace (outLen - 1) with (i + Z.of_nat (Z.to_nat (outLen - 1 - i))) at 1 by lia.
    + replace (Z.to_nat (outLen - 1 - i)) with O by lia. cbn [loadSliceMid mbind outcome_bind].
      exists out. split; [done|]. destruct Hg as (? & ? & Hg1 & ?). split_and!; try done.
      intros k Hk. apply Hg1. lia.
Qed.

End load_slice.

(** [loadSliceInto]: the window, left-aligned and zero-padded, at the front of the
    buffer, whose remaining bytes do not change. *)
Lemma loadSliceInto_run s buf sz preload :
  swf s -> bytes_ok buf -> 0 <= sz ->
  loadSliceInto buf sz preload s =
    if BitsLeft s <? sz then (Err (ErrNotEnoughData (BitsLeft s) sz), s)
    else if len buf <? (sz + 7) / 8 then (Err ErrShortBuffer, s)
    else (Ok (pack (Z.to_nat ((sz + 7) / 8)) (window (s_data s) (s_bitStart s) sz)
              ++ drop (Z.to_nat ((sz + 7) / 8)) buf),
          if preload then s else skip s sz).
Proof.
  intros Hwf Hbuf Hsz. unfold loadSliceInto. mrun.
  destruct (Z.ltb_spec (BitsLeft s) sz) as [|Hleft]; [done|]. mrun.
  destruct (Z.ltb_spec (len buf) ((sz + 7) / 8)); [done|].
  pose proof (BitsLeft_eq s Hwf) as HL. destruct (Hwf) as [Hok Hb He Hd _ _].
  destruct (Z.eqb_spec sz 0) as [-> |].
  { unfold mret, M_ret. destruct preload; [done|]. unfold skip, with_bitStart. rewrite Z.add_0_r. now destruct s. }
  rewrite subrange_ok by lia. rewrite take_ge by (unfold len; rewrite length_drop; lia). mrun.
  set (data := drop _ (s_data s)).
  assert (Hdl : len data = len (s_data s) - s_bitStart s / 8) by (unfold data, len; rewrite length_drop; unfold len in *; lia).
  assert (Hdok : bytes_ok data) by now apply Forall_drop.
  destruct (load_window data buf (s_bitStart s mod 8) sz) as (out & -> & Hout); try done; try lia. mrun.
  destruct (got_all_mask data buf (s_bitStart s mod 8) sz) with (out := out) as (out' & -> & ->); try done; try lia.
  mrun. rewrite (bind_Ok _ _ _ _ _ (advance_run s sz preload Hwf ltac:(lia))).
  unfold data. rewrite drop_window_bytes by lia. done.
Qed.

Lemma loadSlice_run s sz preload :
  swf s -> 0 <= sz ->
  loadSlice sz preload s =
    if BitsLeft s <? sz then (Err (ErrNotEnoughData (BitsLeft s) sz), s)
    else (Ok (pack (Z.to_nat ((sz + 7) / 8)) (window (s_data s) (s_bitStart s) sz)),
          if preload then s else skip s sz).
Proof.
  intros Hwf Hsz. unfold loadSlice. pose proof (BitsLeft_eq s Hwf). pose proof (swf_bits _ Hwf).
  destruct (Z.eqb_spec sz 0) as [-> |].
  { split_cmp. unfold mret, M_ret. destruct preload; [done|]. unfold skip, with_bitStart.
    rewrite Z.add_0_r. now destruct s. }
  rewrite loadSliceInto_run; [|done|apply Forall_replicate; lia|done].
  rewrite len_replicate, drop_ge, app_nil_r by (rewrite length_replicate; lia). split_cmp; done.
Qed.

(** ** Big integers *)

Lemma shiftRightBytes_ok prev l offset :
  byte_ok prev -> bytes_ok l -> 0 < offset < 8 ->
  len (shiftRightBytes prev l offset) = len l /\ bytes_ok (shiftRightBytes prev l offset) /\
  forall k, 0 <= k < 8 * len l -> bit (shiftRightBytes prev l offset) k = bit (prev :: l) (k + offset).
Proof.
  intros Hp Hl Ho. revert prev Hp. induction l as [|x l IH]; intros prev Hp.
  { split_and!; [done..|]. intros k Hk. change (len (@nil Z)) with 0 in Hk. lia. }
  apply bytes_ok_cons in Hl as [Hx Hl]. destruct (IH Hl x Hx) as (Hn & Hok & Hb). cbn [shiftRightBytes].
  rewrite !len_cons. split_and!; [lia|apply bytes_ok_cons; split; [apply byte_ok_u8|done]|].
  intros k Hk. rewrite bit_cons by lia. destruct (Z.ltb_spec k 8).
  - rewrite (Z.add_comm (x ≫ _)), (add_disjoint _ _ offset).
    + autorewrite with bitdb. rewrite !bit_cons by lia.
      destruct (Z.ltb_spec (k + offset) 8).
      * rewrite (testbit_above x 8) by lia. split_cmp. bool_simpl. f_equal. lia.
      * rewrite (Z.testbit_neg_r prev) by lia. split_cmp. bool_simpl. rewrite bit_cons by lia.
        destruct (Z.ltb_spec (k + offset - 8) 8); [f_equal|]; lia.
    + lia.
    + split; [apply Z.shiftr_nonneg; lia|]. rewrite Z.shiftr_div_pow2 by lia.
      apply Z.div_lt_upper_bound; [lia|]. rewrite <-Z.pow_add_r by lia.
      replace (8 - offset + offset) with 8 by lia. lia.
    + intros j Hj. bitwise. now rewrite Z.testbit_neg_r by lia.
  - rewrite Hb by lia. rewrite (bit_cons prev) by lia. split_cmp. f_equal. lia.
Qed.

Lemma readBigNumber_run s sz preload :
  swf s -> 0 <= sz <= 257 ->
  readBigNumber sz preload s =
    if BitsLeft s <? sz then (Err (ErrNotEnoughData (BitsLeft s) sz), s)
    else (Ok (bits_uint (window (s_data s) (s_bitStart s) sz)), if preload then s else skip s sz).
Proof.
  intros Hwf Hsz. unfold readBigNumber. pose proof (BitsLeft_eq s Hwf). pose proof (swf_bits _ Hwf).
  destruct (Z.eqb_spec sz 0) as [-> |].
  { split_cmp. unfold mret, M_ret. destruct preload; [done|]. unfold skip, with_bitStart.
    rewrite Z.add_0_r. now destruct s. }
  rewrite subrange_prefix by (rewrite len_replicate; lia). mrun.
  set (buf := take _ _). set (nb := Z.to_nat ((sz + 7) / 8)).
  assert (Hbl : len buf = (sz + 7) / 8) by (unfold buf; rewrite len_take; rewrite ?len_replicate; lia).
  assert (Hbok : bytes_ok buf) by (apply Forall_take, Forall_replicate; lia).
  destruct (Z.ltb_spec (BitsLeft s) sz).
  { erewrite bind_Err; [done|]. rewrite loadSliceInto_run by (done || lia). now split_cmp. }
  erewrite bind_Ok; [|rewrite loadSliceInto_run by (done || lia); rewrite Hbl;
    destruct (Z.ltb_spec (BitsLeft s) sz); [lia|]; rewrite Z.ltb_irrefl; reflexivity].
  unfold mret, M_ret. do 2 f_equal. rewrite drop_ge, app_nil_r by (unfold len in Hbl; lia). fold nb.
  set (w := window _ _ sz). assert (Hpl : len (pack nb w) = (sz + 7) / 8) by (unfold len; rewrite length_pack; lia).
  assert (Hpw : forall k, 0 <= k < 8 * Z.of_nat nb -> bit (pack nb w) k = (k <? sz) && bit (s_data s) (s_bitStart s + k)).
  { intros k Hk. unfold w. rewrite bit_pack, nth_window_Z by lia. done. }
  destruct (Z.ltb_spec 0 (sz mod 8)).
  - destruct (shiftRightBytes_ok 0 (pack nb w) (sz mod 8)) as (Hl & Hok & Hb); [lia|apply bytes_ok_pack|lia|].
    apply window_value; [lia|now apply be_uint_nonneg|]. intros k Hk.
    rewrite testbit_be_uint, Hl, Hpl by done.
    destruct (Z.ltb_spec k (8 * ((sz + 7) / 8))); [|split_cmp; done].
    rewrite Hb, bit_cons by lia. split_cmp; cbn [andb]; try done.
    + rewrite Z.testbit_0_l. done.
    + rewrite Hpw by lia. split_cmp. cbn [andb]. f_equal. lia.
  - apply window_value; [lia|apply be_uint_nonneg, bytes_ok_pack|]. intros k Hk.
    rewrite testbit_be_uint, Hpl by (apply bytes_ok_pack). split_cmp; cbn [andb]; try done.
    rewrite Hpw by lia. split_cmp. cbn [andb]. f_equal. lia.
Qed.

(** * Composite reads, references and cuts of a slice *)

(** The outcome of a read of [n] bits that fails only for lack of bits. *)
Definition read_fit {A} (s : Slice) (n : Z) (v : list bool -> A) : outcome A * Slice :=
  if BitsLeft s <? n then (Err (ErrNotEnoughData (BitsLeft s) n), s)
  else (Ok (v (window (s_data s) (s_bitStart s) n)), skip s n).

Lemma read_fit_app {A} s bs rest (v : list bool -> A) :
  swf s -> sbits s = bs ++ rest -> read_fit s (len bs) v = (Ok (v bs), skip s (len bs)).
Proof.
  intros Hwf H. pose proof (len_sbits s Hwf) as Hl. rewrite H, len_app in Hl.
  pose proof (len_nonneg bs). pose proof (len_nonneg rest). unfold read_fit. split_cmp.
  rewrite <-take_sbits, H by (done || lia). do 3 f_equal. rewrite take_app_length'; [done|].
  unfold len. lia.
Qed.

Lemma sbits_skip_app s bs rest :
  swf s -> sbits s = bs ++ rest -> swf (skip s (len bs)) /\ sbits (skip s (len bs)) = rest.
Proof.
  intros Hwf H. pose proof (len_sbits s Hwf) as Hl. rewrite H, len_app in Hl.
  pose proof (len_nonneg bs). pose proof (len_nonneg rest). split.
  - apply swf_skip; [done|lia].
  - rewrite sbits_skip, H by (done || lia). rewrite drop_app_length'; [done|]. unfold len. lia.
Qed.

Lemma skip_0 s : skip s 0 = s.
Proof. unfold skip, with_bitStart. rewrite Z.add_0_r. now destruct s. Qed.

Lemma skip_skip s n m : skip (skip s n) m = skip s (n + m).
Proof. unfold skip, with_bitStart. cbn. f_equal. lia. Qed.

(** ** Bits and integers *)

Lemma LoadBoolBit_run s :
  swf s -> LoadBoolBit s =
    if BitsLeft s =? 0 then (Err (ErrNotEnoughData 0 1), s)
    else (Ok (bit (s_data s) (s_bitStart s)), skip s 1).
Proof.
  intros Hwf. unfold LoadBoolBit. mrun. pose proof (BitsLeft_eq s Hwf). destruct (Hwf) as [Hok Hb He Hd _ _].
  destruct (Z.leb_spec (s_bitEnd s) (s_bitStart s)), (Z.eqb_spec (BitsLeft s) 0); try lia; [done|].
  rewrite index_ok by lia. mrun. rewrite (bind_Ok _ _ _ _ _ (advance_run s 1 false Hwf ltac:(lia))).
  rewrite land_bit by lia. now destruct (bit (s_data s) (s_bitStart s)).
Qed.

Lemma LoadBigUInt_run s sz :
  swf s -> 0 <= sz ->
  LoadBigUInt sz s = if 256 <? sz then (Err ErrTooBigSize, s) else read_fit s sz bits_uint.
Proof.
  intros Hwf Hsz. unfold LoadBigUInt. mrun. destruct (Z.ltb_spec 256 sz); [done|].
  rewrite readBigNumber_run by (done || lia). done.
Qed.

Lemma LoadBigInt_run s sz :
  swf s -> 0 <= sz ->
  LoadBigInt sz s = if 257 <? sz then (Err ErrTooBigSize, s) else read_fit s sz bits_int.
Proof.
  intros Hwf Hsz. unfold LoadBigInt. mrun. destruct (Z.ltb_spec 257 sz); [done|]. unfold read_fit.
  destruct (Z.eqb_spec sz 0) as [-> |].
  { pose proof (BitsLeft_eq s Hwf). pose proof (swf_bits _ Hwf). split_cmp.
    unfold skip, with_bitStart. rewrite Z.add_0_r. now destruct s. }
  destruct (Z.ltb_spec (BitsLeft s) sz).
  { erewrite bind_Err; [done|]. rewrite readBigNumber_run by (done || lia). now split_cmp. }
  erewrite bind_Ok; [|rewrite readBigNumber_run by (done || lia); destruct (Z.ltb_spec (BitsLeft s) sz); [lia|reflexivity]].
  rewrite bits_int_window by lia. rewrite Z.shiftl_1_l. done.
Qed.

Lemma on_copy_run {A} (m : M Slice A) s n a :
  m s = (Ok a, skip s n) -> on_copy m s = (Ok a, skip s n).
Proof. intros H. unfold on_copy. now rewrite H. Qed.

Lemma LoadUInt_run s sz :
  swf s -> 0 <= sz ->
  LoadUInt sz s =
    if 256 <? sz then (Err ErrTooBigSize, s)
    else if BitsLeft s <? sz then (Err (ErrNotEnoughData (BitsLeft s) sz), s)
    else if 2 ^ 64 <=? bits_uint (window (s_data s) (s_bitStart s) sz) then (Err ErrTooBigValue, s)
    else read_fit s sz bits_uint.
Proof.
  intros Hwf Hsz. unfold LoadUInt. pose proof (window_value_bound (s_data s) (s_bitStart s) sz Hsz) as Hv.
  destruct (Z.leb_spec sz 64).
  - rewrite loadUintFast_run by done. unfold read_fit.
    pose proof (Z.pow_le_mono_r 2 sz 64). split_cmp; done.
  - unfold on_copy, mbind, M_bind. rewrite LoadBigUInt_run by done. unfold read_fit.
    destruct (Z.ltb_spec 256 sz); [done|]. destruct (Z.ltb_spec (BitsLeft s) sz); [done|].
    set (v := bits_uint _) in *. unfold is_uint64, guard_err, fail, mret, M_ret.
    destruct (Z.leb_spec (2 ^ 64) v).
    + replace ((0 <=? v) && (v <? 2 ^ 64)) with false by (split_cmp; done). done.
    + replace ((0 <=? v) && (v <? 2 ^ 64)) with true by (split_cmp; done). done.
Qed.

(** [LoadInt] within 64 bits. *)
Lemma LoadInt_run s sz : swf s -> 0 <= sz <= 64 -> LoadInt sz s = read_fit s sz bits_int.
Proof.
  intros Hwf Hsz. unfold LoadInt. destruct (Z.leb_spec sz 64); [|lia]. now apply loadIntFast_run.
Qed.

(** ** Variable-length integers *)

(** A length prefix [ln] and the value in [8 * ln] bits. *)
Lemma LoadVarUInt_app s sz ln v rest :
  swf s -> 0 < sz < 2 ^ 60 -> 0 <= ln < sz -> ln <= 32 -> 0 <= v < 2 ^ (8 * ln) ->
  sbits s = uint_bits (bit_len (sz - 1)) ln ++ uint_bits (8 * ln) v ++ rest ->
  LoadVarUInt sz s = (Ok v, skip s (bit_len (sz - 1) + 8 * ln)).
Proof.
  intros Hwf Hsz Hln H32 Hv H. unfold LoadVarUInt. mrun. pose proof (bit_len_nonneg (sz - 1)) as Hnn.
  pose proof (proj2 (bit_len_le (sz - 1) 60 ltac:(lia) ltac:(lia)) ltac:(lia)) as H60.
  pose proof (proj1 (bit_len_le (sz - 1) (bit_len (sz - 1)) ltac:(lia) Hnn) ltac:(lia)) as Hlt.
  destruct (Z.eqb_spec sz 0); [lia|]. pose proof (length_uint_bits (bit_len (sz - 1)) ln Hnn) as Hl1.
  pose proof (length_uint_bits (8 * ln) v ltac:(lia)) as Hl2.
  destruct (sbits_skip_app s _ _ Hwf H) as [Hwf1 H1]. rewrite Hl1 in Hwf1, H1.
  pose proof (read_fit_app s _ _ bits_uint Hwf H) as Hr. rewrite Hl1, bits_uint_uint_bits, Z.mod_small in Hr by lia.
  erewrite (bind_Ok (LoadUInt _)); [|unfold LoadUInt; split_cmp; rewrite loadUintFast_run by (done || lia); exact Hr].
  mrun. destruct (Z.leb_spec sz ln); [lia|].
  replace (u64 (ln * 8)) with (8 * ln) by (unfold u64; lia).
  rewrite LoadBigUInt_run by (done || lia). split_cmp.
  pose proof (read_fit_app _ _ _ bits_uint Hwf1 H1) as Hr1. rewrite Hl2, bits_uint_uint_bits, Z.mod_small in Hr1 by lia.
  rewrite Hr1, skip_skip. done.
Qed.

(** The signed value of [n] bits of [v] is [v] within the signed range. *)
Lemma bits_int_uint_bits n v :
  0 <= n -> (if n =? 0 then v = 0 else - 2 ^ (n - 1) <= v < 2 ^ (n - 1)) ->
  bits_int (uint_bits n v) = v.
Proof.
  intros Hn Hr. destruct (Z.eqb_spec n 0) as [-> | Hn0]; [now rewrite Hr|].
  assert (H2 : 2 ^ n = 2 * 2 ^ (n - 1)) by (rewrite <-Z.pow_succ_r by lia; f_equal; lia).
  pose proof (Z.pow_pos_nonneg 2 (n - 1)) as Hp.
  pose proof (length_uint_bits n v Hn) as Hl. pose proof (bits_uint_uint_bits n v Hn) as Hu.
  pose proof (nth_uint_bits_Z n v 0 ltac:(lia)) as Hb. change (Z.to_nat 0) with 0%nat in Hb.
  replace (n - 1 - 0) with (n - 1) in Hb by lia.
  assert (Ht : Z.testbit v (n - 1) = (v <? 0)).
  { rewrite <-(Z.mod_pow2_bits_low v n (n - 1)), testbit_top by (try apply Z.mod_pos_bound; lia).
    destruct (Z.ltb_spec v 0).
    - replace (v mod 2 ^ n) with (v + 2 ^ n) by (apply Z.mod_unique with (q := -1); lia). split_cmp; done.
    - rewrite Z.mod_small by lia. split_cmp; done. }
  unfold bits_int. destruct (uint_bits n v) as [|x l]; [rewrite len_nil in Hl; lia|].
  cbn [nth] in Hb. assert (x = (v <? 0)) as -> by (rewrite Hb, Ht; destruct (Z.ltb_spec 0 n); [done|lia]).
  clear Hb Ht. destruct (Z.ltb_spec v 0); rewrite ?Hl, Hu.
  - replace (v mod 2 ^ n) with (v + 2 ^ n) by (apply Z.mod_unique with (q := -1); lia). lia.
  - rewrite Z.mod_small; lia.
Qed.

Lemma LoadVarInt_app s sz ln v rest :
  swf s -> 0 < sz < 2 ^ 60 -> 0 <= ln < sz -> ln <= 32 ->
  (if 8 * ln =? 0 then v = 0 else - 2 ^ (8 * ln - 1) <= v < 2 ^ (8 * ln - 1)) ->
  sbits s = uint_bits (bit_len (sz - 1)) ln ++ uint_bits (8 * ln) v ++ rest ->
  LoadVarInt sz s = (Ok v, skip s (bit_len (sz - 1) + 8 * ln)).
Proof.
  intros Hwf Hsz Hln H32 Hv H. unfold LoadVarInt. mrun. pose proof (bit_len_nonneg (sz - 1)) as Hnn.
  pose proof (proj2 (bit_len_le (sz - 1) 60 ltac:(lia) ltac:(lia)) ltac:(lia)) as H60.
  pose proof (proj1 (bit_len_le (sz - 1) (bit_len (sz - 1)) ltac:(lia) Hnn) ltac:(lia)) as Hlt.
  destruct (Z.eqb_spec sz 0); [lia|]. pose proof (length_uint_bits (bit_len (sz - 1)) ln Hnn) as Hl1.
  pose proof (length_uint_bits (8 * ln) v ltac:(lia)) as Hl2.
  destruct (sbits_skip_app s _ _ Hwf H) as [Hwf1 H1]. rewrite Hl1 in Hwf1, H1.
  pose proof (read_fit_app s _ _ bits_uint Hwf H) as Hr. rewrite Hl1, bits_uint_uint_bits, Z.mod_small in Hr by lia.
  erewrite (bind_Ok (LoadUInt _)); [|unfold LoadUInt; split_cmp; rewrite loadUintFast_run by (done || lia); exact Hr].
  mrun. destruct (Z.leb_spec sz ln); [lia|].
  replace (u64 (ln * 8)) with (8 * ln) by (unfold u64; lia).
  rewrite LoadBigInt_run by (done || lia). destruct (Z.ltb_spec 257 (8 * ln)); [lia|].
  pose proof (read_fit_app _ _ _ bits_int Hwf1 H1) as Hr1. rewrite Hl2, bits_int_uint_bits in Hr1 by (done || lia).
  rewrite Hr1, skip_skip. done.
Qed.

(** ** References *)

Lemma peekRefCellAt_run s i :
  swf s ->
  peekRefCellAt i s =
    if i <? 0 then (Err ErrNegative, s)
    else match srefs s !! Z.to_nat i with
         | Some c => (Ok c, s)
         | None => (Err ErrNoMoreRefs, s)
         end.
Proof.
  intros Hwf. unfold peekRefCellAt. mrun. destruct (Z.ltb_spec i 0); [done|]. mrun.
  pose proof (RefsNum_eq s Hwf) as Hr. destruct (Hwf) as [_ _ _ _ Hb He].
  destruct (Z.leb_spec (RefsNum s) i).
  - unfold srefs. rewrite lookup_take_ge by lia. done.
  - mrun. destruct (Z.leb_spec (len (c_refs (s_cell s))) (s_refStart s + i)); [lia|].
    unfold srefs, lift. rewrite lookup_take_lt, lookup_drop by lia.
    rewrite <-Z2Nat.inj_add by lia.
    destruct (c_refs (s_cell s) !! Z.to_nat (s_refStart s + i)) eqn:E; [done|].
    apply lookup_ge_None in E. unfold len in *. lia.
Qed.

Definition skip_ref (s : Slice) : Slice := with_refStart s (s_refStart s + 1).

Lemma srefs_skip_ref s c rs :
  swf s -> srefs s = c :: rs -> swf (skip_ref s) /\ sbits (skip_ref s) = sbits s /\ srefs (skip_ref s) = rs.
Proof.
  intros [H1 H2 H3 H4 H5 H6] H. unfold srefs in H. pose proof (f_equal length H) as Hl. rewrite length_take, length_drop in Hl.
  cbn [length] in Hl. split; [|split; [done|]].
  - split; unfold skip_ref, with_refStart, s_data in *; cbn [s_cell s_bitStart s_bitEnd s_refStart s_refEnd]; done || lia.
  - unfold srefs, skip_ref, with_refStart. cbn [s_cell s_refStart s_refEnd].
    replace (Z.to_nat (s_refStart s + 1)) with (Z.to_nat (s_refStart s) + 1)%nat by lia. rewrite <-drop_drop.
    destruct (drop (Z.to_nat (s_refStart s)) (c_refs (s_cell s))) as [|x xs]; [now destruct (Z.to_nat (s_refEnd s - s_refStart s))|].
    destruct (Z.to_nat (s_refEnd s - s_refStart s)) as [|m] eqn:E; [done|]. cbn [take] in H. injection H as _ <-.
    cbn [drop]. now replace (Z.to_nat (s_refEnd s - (s_refStart s + 1))) with m by lia.
Qed.

Lemma loadRefCell_run s advance :
  swf s ->
  loadRefCell advance s =
    match srefs s with
    | c :: _ => (Ok c, if advance then skip_ref s else s)
    | [] => (Err ErrNoMoreRefs, s)
    end.
Proof.
  intros Hwf. unfold loadRefCell, mbind, M_bind. rewrite peekRefCellAt_run by done. cbn [Z.ltb Z.compare].
  change (Z.to_nat 0) with 0%nat. pose proof (len_srefs s Hwf) as Hl. pose proof (RefsNum_eq s Hwf) as Hr.
  destruct (srefs s) as [|c l]; [done|]. cbn [lookup list_lookup]. rewrite len_cons in Hl. pose proof (len_nonneg l).
  destruct advance; [|done]. unfold modify, skip_ref, mret, M_ret. do 2 f_equal.
  destruct (Hwf) as [_ _ _ _ Hb He]. unfold u8. lia.
Qed.

(** [LoadMaybeRef] on every slice: a present tag with no reference behind it puts
    the tag back. *)
Lemma LoadMaybeRef_run s :
  swf s ->
  LoadMaybeRef s =
    match sbits s with
    | [] => (Err (ErrNotEnoughData 0 1), s)
    | false :: _ => (Ok None, skip s 1)
    | true :: _ =>
        match srefs s with
        | [] => (Err ErrNoMoreRefs, s)
        | c :: _ => (Ok (Some (newSliceFromCell c)), skip_ref (skip s 1))
        end
    end.
Proof.
  intros Hwf. unfold LoadMaybeRef, mbind, M_bind, get_state. pose proof (len_sbits s Hwf) as Hl. pose proof (len_srefs s Hwf) as Hlr.
  rewrite LoadBoolBit_run by done.
  destruct (Z.eqb_spec (BitsLeft s) 0) as [H0 | H0].
  { destruct (sbits s) as [|x l]; [done|]. rewrite len_cons in Hl. pose proof (len_nonneg l). lia. }
  assert (Hx : exists l, sbits s = bit (s_data s) (s_bitStart s) :: l).
  { pose proof (BitsLeft_eq s Hwf). pose proof (swf_bits _ Hwf).
    pose proof (nth_window_Z (s_data s) (s_bitStart s) (s_bitEnd s - s_bitStart s) 0 ltac:(lia)) as Hn.
    fold (sbits s) in Hn. rewrite Z.add_0_r in Hn. change (Z.to_nat 0) with 0%nat in Hn. revert Hn.
    split_cmp. cbn [andb]. destruct (sbits s) as [|x l]; [rewrite len_nil in Hl; lia|]. cbn [nth]. intros ->. now exists l. }
  destruct Hx as [l ->]. destruct (bit (s_data s) (s_bitStart s)); cbn [negb]; [|done].
  assert (Hs1 : srefs (skip s 1) = srefs s) by done.
  assert (Hwf1 : swf (skip s 1)).
  { apply swf_skip; [done|]. pose proof (BitsLeft_eq s Hwf). pose proof (swf_bits _ Hwf). lia. }
  unfold loadRefInto, mbind, M_bind. rewrite loadRefCell_run, Hs1 by done.
  pose proof (RefsNum_eq s Hwf) as Hr. destruct (Hwf) as [_ _ _ _ Hb He].
  destruct (srefs s) as [|c r]; cbn [mret M_ret].
  - unfold skip, with_bitStart. cbn. now destruct s.
  - unfold mret, M_ret. do 2 f_equal. unfold skip_ref, skip, with_bitStart, with_refStart. cbn. f_equal.
    rewrite len_cons in Hlr. pose proof (len_nonneg r). unfold u8. lia.
Qed.
