(* ===== verification/Codec.v ===== *)
(** * What is stored is what is loaded

    A [Codec] is what the builder promises the slice about one kind of value: the
    bits it is stored as, and that loading those bits gives the value back.  The
    stores of the builder and the loads of the slice are its instances; the round
    trip of a whole message of fields is proved from them in [CellTheorems]. *)

From S2P Require Import Prelude Bytes CellModel Builder BuilderSpec BuilderOps Slice SliceSpec.
#[local] Open Scope Z_scope.

(** ** The cell a builder finishes into *)

Record holds (c : Cell) (b : Builder) : Prop := {
  holds_data : c_data c = take (Z.to_nat (usedBytes b)) (b_data b);
  holds_bits : c_bitsSz c = b_bitsSz b;
  holds_refs : c_refs c = b_refs b
}.

Lemma holds_slice c b :
  wf b -> holds c b ->
  swf (newSliceFromCell c) /\ sbits (newSliceFromCell c) = bits b /\ srefs (newSliceFromCell c) = b_refs b.
Proof.
  intros Hwf [Hd Hb Hr]. destruct (Hwf) as [Hl Hok Hsz Hz Hrf].
  assert (Hlen : len (c_data c) = usedBytes b).
  { rewrite Hd, len_take; unfold usedBytes; lia. }
  split_and!.
  - split; unfold s_data; cbn; rewrite ?Hb, ?Hr, ?Hlen; unfold usedBytes; try lia.
    + rewrite Hd. now apply Forall_take.
    + pose proof (len_nonneg (b_refs b)). lia.
  - unfold sbits, s_data. cbn. rewrite Hb, Z.sub_0_r, Hd. now apply bits_take_used.
  - unfold srefs. cbn. rewrite Hr, Z.sub_0_r. apply take_ge. unfold len. lia.
Qed.

(** ** The interface *)

Record Codec (A : Type) : Type := {
  cstore : A -> M Builder unit;
  cload : M Slice A;
  cvalid : A -> Prop;
  cbits : A -> list bool;
  cstore_ok : forall b a, wf b -> cvalid a -> b_bitsSz b + len (cbits a) <= 1023 ->
    cstore a b = (Ok tt, append b (cbits a));
  cstore_fits : forall b a b', wf b -> cvalid a -> cstore a b = (Ok tt, b') ->
    b_bitsSz b + len (cbits a) <= 1023;
  cload_ok : forall s a rest, swf s -> cvalid a -> sbits s = cbits a ++ rest ->
    cload s = (Ok a, skip s (len (cbits a)))
}.
Arguments cstore {A} _ _.
Arguments cload {A} _.
Arguments cvalid {A} _ _.
Arguments cbits {A} _ _.
Arguments cstore_ok {A} _ _ _ _ _ _.
Arguments cstore_fits {A} _ _ _ _ _ _ _.
Arguments cload_ok {A} _ _ _ _ _ _ _.

(** A store that does exactly [store_fit] satisfies the two store laws. *)
Lemma store_fit_ok b bs : b_bitsSz b + len bs <= 1023 -> store_fit b bs = (Ok tt, append b bs).
Proof. intros. unfold store_fit. now split_cmp. Qed.

Lemma store_fit_fits b bs b' : store_fit b bs = (Ok tt, b') -> b_bitsSz b + len bs <= 1023.
Proof. unfold store_fit. split_cmp. done. Qed.

Definition fit_codec {A} (st : A -> M Builder unit) (ld : M Slice A) (ok : A -> Prop) (enc : A -> list bool)
    (Hst : forall b a, wf b -> ok a -> st a b = store_fit b (enc a))
    (Hld : forall s a rest, swf s -> ok a -> sbits s = enc a ++ rest -> ld s = (Ok a, skip s (len (enc a)))) :
    Codec A.
Proof.
  refine {| cstore := st; cload := ld; cvalid := ok; cbits := enc; cload_ok := Hld |}.
  - intros b a Hwf Ha Hfit. rewrite Hst by done. now apply store_fit_ok.
  - intros b a b' Hwf Ha H. rewrite Hst in H by done. now apply store_fit_fits in H.
Defined.

(** ** Instances *)

Definition bool_codec : Codec bool.
Proof.
  refine (fit_codec StoreBoolBit LoadBoolBit (fun _ => True) (fun v => [v]) _ _).
  - intros b v Hwf _. rewrite StoreBoolBit_run by done. unfold store_fit. change (len [v]) with 1. split_cmp; done.
  - intros s v rest Hwf _ H. rewrite LoadBoolBit_run by done. pose proof (len_sbits s Hwf) as Hl.
    rewrite H, len_app in Hl. change (len [v]) with 1 in *. pose proof (len_nonneg rest). split_cmp.
    do 3 f_equal. pose proof (f_equal (fun l => nth 0 l false) H) as Hn. cbn in Hn. rewrite <-Hn.
    pose proof (BitsLeft_eq s Hwf). unfold sbits. change 0%nat with (Z.to_nat 0). rewrite nth_window_Z by lia.
    split_cmp. rewrite Z.add_0_r. done.
Defined.

(** [StoreUInt] and [LoadUInt] of the same width. *)
Definition uint_codec (sz : Z) (Hsz : 0 <= sz <= 64) : Codec Z.
Proof.
  refine (fit_codec (fun v => StoreUInt v sz) (LoadUInt sz) (fun v => 0 <= v < 2 ^ sz) (uint_bits sz) _ _).
  - intros b v Hwf Hv. pose proof (Z.pow_le_mono_r 2 sz 64). rewrite StoreUInt_run by (done || lia). now split_cmp.
  - intros s v rest Hwf Hv H. pose proof (length_uint_bits sz v ltac:(lia)) as Hl.
    unfold LoadUInt. split_cmp. rewrite loadUintFast_run by done.
    pose proof (read_fit_app s _ _ bits_uint Hwf H) as Hr. rewrite Hl in *.
    rewrite bits_uint_uint_bits, Z.mod_small in Hr by lia. exact Hr.
Defined.

Lemma signed_range_if v sz :
  signed_range v sz = true -> if sz =? 0 then v = 0 else - 2 ^ (sz - 1) <= v < 2 ^ (sz - 1).
Proof. unfold signed_range. destruct (sz =? 0); lia. Qed.

Definition int_codec (sz : Z) (Hsz : 0 <= sz <= 64) : Codec Z.
Proof.
  refine (fit_codec (fun v => StoreInt v sz) (LoadInt sz)
            (fun v => - 2 ^ 63 <= v < 2 ^ 63 /\ signed_range v sz = true) (uint_bits sz) _ _).
  - intros b v Hwf [Hv Hr]. rewrite StoreInt_run, Hr by (done || lia). now split_cmp.
  - intros s v rest Hwf [Hv Hr] H. pose proof (length_uint_bits sz v ltac:(lia)) as Hl.
    rewrite LoadInt_run by done. pose proof (read_fit_app s _ _ bits_int Hwf H) as Hf. rewrite Hl in *.
    rewrite bits_int_uint_bits in Hf; [exact Hf|lia|now apply signed_range_if].
Defined.

Definition big_uint_codec (sz : Z) (Hsz : 0 <= sz <= 256) : Codec Z.
Proof.
  refine (fit_codec (fun v => StoreBigUInt (Some v) sz) (LoadBigUInt sz) (fun v => 0 <= v < 2 ^ sz) (uint_bits sz) _ _).
  - intros b v Hwf Hv. rewrite StoreBigUInt_run by (done || lia). now split_cmp.
  - intros s v rest Hwf Hv H. pose proof (length_uint_bits sz v ltac:(lia)) as Hl.
    rewrite LoadBigUInt_run by (done || lia). split_cmp.
    pose proof (read_fit_app s _ _ bits_uint Hwf H) as Hf. rewrite Hl in *.
    rewrite bits_uint_uint_bits, Z.mod_small in Hf by lia. exact Hf.
Defined.

Definition big_int_codec (sz : Z) (Hsz : 0 <= sz <= 257) : Codec Z.
Proof.
  refine (fit_codec (fun v => StoreBigInt (Some v) sz) (LoadBigInt sz) (fun v => signed_range v sz = true) (uint_bits sz) _ _).
  - intros b v Hwf Hr. rewrite StoreBigInt_run, Hr by (done || lia). now split_cmp.
  - intros s v rest Hwf Hr H. pose proof (length_uint_bits sz v ltac:(lia)) as Hl.
    rewrite LoadBigInt_run by (done || lia). destruct (Z.ltb_spec 257 sz); [lia|].
    pose proof (read_fit_app s _ _ bits_int Hwf H) as Hf. rewrite Hl in *.
    rewrite bits_int_uint_bits in Hf; [exact Hf|lia|now apply signed_range_if].
Defined.

(** [VarUInteger sz]; values of at most 32 bytes. *)
Definition var_uint_codec (sz : Z) (Hsz : 0 < sz < 2 ^ 60) : Codec Z.
Proof.
  refine {| cstore := fun v => StoreBigVarUInt (Some v) sz; cload := LoadVarUInt sz;
            cvalid := fun v => 0 <= v /\ (bit_len v + 7) / 8 < sz /\ (bit_len v + 7) / 8 <= 32;
            cbits := fun v => var_uint_bits v sz |}.
  - intros b v Hwf (Hv & Hln & H32) Hfit. rewrite StoreBigVarUInt_run by (done || lia). now split_cmp.
  - intros b v b' Hwf (Hv & Hln & H32). rewrite StoreBigVarUInt_run by (done || lia).
    destruct (Z.eqb_spec sz 0); [done|]. destruct (Z.ltb_spec v 0); [done|].
    destruct (Z.leb_spec sz ((bit_len v + 7) / 8)); [done|].
    destruct (Z.ltb_spec 1023 (b_bitsSz b + len (var_uint_bits v sz))); [done|]. lia.
  - intros s v rest Hwf (Hv & Hln & H32) H. unfold var_uint_bits in *. cbv zeta in *.
    pose proof (bit_len_nonneg v). pose proof (bit_len_nonneg (sz - 1)). pose proof (bit_len_bound v Hv).
    rewrite len_two_bits by lia. rewrite <-app_assoc in H.
    pose proof (Z.pow_le_mono_r 2 (bit_len v) (8 * ((bit_len v + 7) / 8))).
    eapply LoadVarUInt_app; [done|lia..|exact H].
Defined.

(** [VarInteger sz]. *)
Definition var_int_codec (sz : Z) (Hsz : 0 < sz < 2 ^ 60) : Codec Z.
Proof.
  refine (fit_codec (fun v => StoreBigVarInt (Some v) sz) (LoadVarInt sz)
            (fun v => varIntBytes v < sz /\ varIntBytes v <= 32) (fun v => var_int_bits v sz) _ _).
  - intros b v Hwf [Hln H32]. rewrite StoreBigVarInt_run by (done || lia). now split_cmp.
  - intros s v rest Hwf [Hln H32] H. unfold var_int_bits in *. cbv zeta in *.
    pose proof (varIntBytes_nonneg v). pose proof (bit_len_nonneg (sz - 1)).
    rewrite len_two_bits by lia. rewrite <-app_assoc in H.
    eapply LoadVarInt_app; [done|lia..| |exact H].
    apply signed_range_if, varIntBytes_least; lia.
Defined.

(** [Coins]: a [VarUInteger 16] that [LoadCoins] reads into 64 bits. *)
Lemma LoadCoins_app s v rest :
  swf s -> 0 <= v < 2 ^ 64 -> sbits s = var_uint_bits v 16 ++ rest ->
  LoadCoins s = (Ok v, skip s (len (var_uint_bits v 16))).
Proof.
  intros Hwf Hv H. unfold var_uint_bits in *. cbv zeta in *. change (bit_len (16 - 1)) with 4 in *.
  set (ln := (bit_len v + 7) / 8) in *. pose proof (bit_len_nonneg v).
  pose proof (proj2 (bit_len_le v 64 ltac:(lia) ltac:(lia)) ltac:(lia)).
  pose proof (bit_len_bound v ltac:(lia)). pose proof (Z.pow_le_mono_r 2 (bit_len v) (8 * ln)).
  rewrite len_two_bits by lia. rewrite <-app_assoc in H.
  destruct (sbits_skip_app s _ _ Hwf H) as [Hwf1 Hs1]. rewrite length_uint_bits in Hwf1, Hs1 by lia.
  unfold LoadCoins. apply on_copy_run.
  pose proof (cload_ok (uint_codec 4 ltac:(lia)) s ln _ Hwf ltac:(cbn; lia) H) as Hl.
  cbn [cload uint_codec fit_codec] in Hl. cbn [cbits uint_codec fit_codec] in Hl. rewrite length_uint_bits in Hl by lia.
  rewrite (bind_Ok _ _ _ _ _ Hl). mrun. split_cmp.
  pose proof (cload_ok (uint_codec (8 * ln) ltac:(lia)) _ v _ Hwf1 ltac:(cbn; lia) Hs1) as Hl1.
  cbn [cload cbits uint_codec fit_codec] in Hl1. rewrite length_uint_bits in Hl1 by lia.
  rewrite (Z.mul_comm ln), Hl1, skip_skip. done.
Qed.

Definition coins_codec : Codec Z.
Proof.
  refine (fit_codec StoreCoins LoadCoins (fun v => 0 <= v < 2 ^ 64) (fun v => var_uint_bits v 16) _ _).
  - intros b v Hwf Hv. unfold StoreCoins. rewrite StoreVarUInt_run by (done || lia).
    pose proof (bit_len_nonneg v). pose proof (proj2 (bit_len_le v 64 ltac:(lia) ltac:(lia)) ltac:(lia)). now split_cmp.
  - intros s v rest Hwf Hv H. now apply LoadCoins_app with (rest := rest).
Defined.
