(* ===== verification/CellHash.v ===== *)
(** * What finishing a cell does

    [finished bs refs] is the finished ordinary cell with the bits [bs] and the references
    [refs].  [EndCellSpecial] and the replacement of references build exactly these
    cells, and the hash of such a cell determines its bits and references up to a
    collision of SHA-256. *)

From S2P Require Import Prelude Bytes Sha256 CellModel Builder Finalize BuilderOps Slice Codec.
From stdpp Require Import sets.
#[local] Open Scope Z_scope.
#[local] Set Warnings "-clear-no-such-hyp".

#[global] Arguments Sha256.sum256 : simpl never.
#[global] Arguments pack : simpl never.

(** ** The finished cell *)

Definition unfinished (bs : list bool) (refs : list Cell) : Cell :=
  mkCell (pack (Z.to_nat ((len bs + 7) / 8)) bs) (len bs) false 0 refs [] [].

(** The bits closed by a one and zeros to whole bytes, or whole bytes as they are. *)
Definition body (bs : list bool) : list Z :=
  pack (Z.to_nat ((len bs + 7) / 8)) (if len bs mod 8 =? 0 then bs else bs ++ [true]).

Definition depth_of (refs : list Cell) : Z :=
  match refs with [] => 0 | _ => 1 + foldl Z.max 0 (Depth <$> refs) end.

Definition finished (bs : list bool) (refs : list Cell) : Cell :=
  with_hashes (unfinished bs refs)
    [Sha256.sum256 (hash_buf (descriptors (unfinished bs refs) 0) (body bs) refs 0)] [depth_of refs].

(** The bits of a cell. *)
Definition cbits_of (c : Cell) : list bool := window (c_data c) 0 (c_bitsSz c).

(** ** Packing *)

Lemma nth_window_pack n l i : 0 <= i < 8 * Z.of_nat n -> bit (pack n l) (0 + i) = nth (Z.to_nat i) l false.
Proof. intros Hi. rewrite bit_pack by lia. f_equal; lia. Qed.

Lemma window_pack n l : len l <= 8 * Z.of_nat n -> window (pack n l) 0 (len l) = l.
Proof.
  intros Hl. apply window_eq; [apply len_nonneg|done|]. intros i Hi. now rewrite nth_window_pack by lia.
Qed.

Lemma cbits_finished bs refs : cbits_of (finished bs refs) = bs.
Proof. apply window_pack. pose proof (len_nonneg bs). lia. Qed.

Lemma take_data_pack b :
  wf b -> take (Z.to_nat (usedBytes b)) (b_data b) = pack (Z.to_nat (usedBytes b)) (bits b).
Proof.
  intros Hwf. pose proof (wf_sz _ Hwf) as Hs. pose proof (wf_len _ Hwf) as Hl. pose proof (wf_bytes _ Hwf) as Hb.
  apply pack_unique.
  - unfold bytes_ok in *. now apply Forall_take.
  - rewrite length_take. unfold usedBytes, len in *. lia.
  - intros i Hi. rewrite bit_take by (unfold usedBytes in *; lia). unfold bits. rewrite nth_window_Z by lia.
    destruct (Z.ltb_spec i (b_bitsSz b)); [done|]. apply Hwf. lia.
Qed.

Lemma len_pack n l : len (pack n l) = Z.of_nat n.
Proof. unfold len. now rewrite length_pack. Qed.

(** ** The body *)

Lemma SerializeBOCBodyTo_ok c bs :
  c_data c = pack (Z.to_nat ((len bs + 7) / 8)) bs -> c_bitsSz c = len bs -> SerializeBOCBodyTo c = Ok (body bs).
Proof.
  intros Hd Hs. unfold SerializeBOCBodyTo, body. rewrite Hs, Hd. pose proof (len_nonneg bs).
  set (n := (len bs + 7) / 8). destruct (Z.eqb_spec n 0) as [E | E].
  { replace (len bs) with 0 by lia. now rewrite E. }
  rewrite subrange_prefix by (rewrite len_pack; lia). cbn [mbind outcome_bind].
  rewrite firstn_all2 by (rewrite length_pack; lia).
  destruct (Z.eqb_spec (len bs mod 8) 0) as [E8 | E8]; cbn [negb]; [done|].
  rewrite index_ok by (rewrite len_pack; lia). cbn [mbind outcome_bind].
  rewrite write_ok by (rewrite ?len_pack, ?len_cons, ?len_nil; lia). f_equal.
  set (x := byte_at (pack (Z.to_nat n) bs) (n - 1)). set (y := Z.lor x _).
  assert (Hx : byte_ok x) by apply byte_at_ok, bytes_ok_pack.
  assert (Hy : byte_ok y) by (apply byte_ok_lor; [done|apply byte_ok_u8]).
  assert (Hl : len (splice (pack (Z.to_nat n) bs) (n - 1) [y]) = n)
    by (rewrite len_splice; rewrite ?len_pack, ?len_cons, ?len_nil; lia).
  apply pack_unique; [apply bytes_ok_splice; auto using bytes_ok_pack, bytes_ok_one|unfold len in Hl; lia|].
  intros i Hi. rewrite bit_splice_one by (rewrite ?len_pack; lia). rewrite nth_app.
  assert (Hb : bit (pack (Z.to_nat n) bs) i = nth (Z.to_nat i) bs false) by (apply bit_pack; lia).
  destruct (Z.eqb_spec (i / 8) (n - 1)) as [Ei | Ei].
  - unfold y, x. autorewrite with bitdb. rewrite <-Ei, bit_byte, Hb. unfold len in *.
    destruct (Nat.ltb_spec (Z.to_nat i) (length bs)) as [Hlt | Hge].
    + replace (_ && (_ && _)) with false by (split_cmp; done). apply orb_false_r.
    + rewrite nth_overflow by lia. cbn [orb]. destruct (Z.eq_dec i (Z.of_nat (length bs))) as [-> | Hne].
      * rewrite Nat2Z.id, Nat.sub_diag. split_cmp; done.
      * rewrite nth_overflow by (cbn [length]; lia). split_cmp; done.
  - rewrite Hb. unfold len in *. destruct (Nat.ltb_spec (Z.to_nat i) (length bs)); [done|lia].
Qed.

(** ** Depths and hashes of level-zero cells *)

Lemma getDepth_0 c level : c_mask c = 0 -> getDepth c level = Depth c.
Proof. intros H. unfold Depth, getDepth. now rewrite H. Qed.

Lemma getHash_0 c level : c_mask c = 0 -> getHash c level = HashKey c.
Proof. intros H. unfold HashKey, getHash. now rewrite H. Qed.

Lemma Depth_finished bs refs : Depth (finished bs refs) = depth_of refs.
Proof. done. Qed.

Lemma mask_finished bs refs : c_mask (finished bs refs) = 0.
Proof. done. Qed.

Lemma refs_finished bs refs : c_refs (finished bs refs) = refs.
Proof. done. Qed.

(** References a level-zero cell can be built over. *)
Definition level0 (r : Cell) : Prop := c_mask r = 0.
Definition shallow (r : Cell) : Prop := c_mask r = 0 /\ 0 <= Depth r < maxDepth.

Lemma ordinaryLevelMask_0 refs : Forall level0 refs -> ordinaryLevelMask refs = 0.
Proof.
  unfold ordinaryLevelMask. intros H. induction H as [|r refs Hr _ IH]; [done|]. cbn [foldl]. now rewrite Hr.
Qed.

Lemma foldl_max_ge l a : a <= foldl Z.max a l.
Proof. revert a. induction l as [|x l IH]; intros a; cbn [foldl]; [lia|]. specialize (IH (Z.max a x)). lia. Qed.

Lemma foldl_max_le l a b : a <= b -> Forall (fun x => x <= b) l -> foldl Z.max a l <= b.
Proof. intros Ha H. revert a Ha. induction H as [|x l Hx _ IH]; intros a Ha; cbn [foldl]; [done|]. apply IH. lia. Qed.

Lemma depth_of_bounds refs d :
  Forall (fun r => 0 <= Depth r < d) refs -> 0 <= d -> 0 <= depth_of refs <= d.
Proof.
  intros H Hd. destruct H as [|r refs Hr H]; [cbn; lia|]. unfold depth_of.
  pose proof (foldl_max_ge (Depth <$> r :: refs) 0).
  enough (foldl Z.max 0 (Depth <$> r :: refs) <= d - 1) by lia. apply foldl_max_le; [lia|].
  apply Forall_fmap. constructor; [cbn; lia|]. eapply List.Forall_impl; [|exact H]. cbn. lia.
Qed.

Lemma shallow_level0 refs : Forall shallow refs -> Forall level0 refs.
Proof. apply List.Forall_impl. now intros r [H _]. Qed.

Lemma depth_above_ok refs level :
  Forall shallow refs -> depth_above ((fun r => getDepth r level) <$> refs) = Ok (depth_of refs).
Proof.
  intros H. replace ((fun r => getDepth r level) <$> refs) with (Depth <$> refs).
  2: { apply list_fmap_ext. intros i r Hr. symmetry. apply getDepth_0. eapply Forall_lookup_1 in H as [? _]; eauto. }
  assert (Hb : 0 <= depth_of refs <= maxDepth).
  { apply depth_of_bounds; [|done]. eapply List.Forall_impl; [|exact H]. now intros r [_ ?]. }
  unfold depth_above. destruct refs as [|r refs]; [done|].
  unfold depth_of in *. set (m := foldl Z.max 0 (Depth <$> r :: refs)) in *. unfold maxDepth in *.
  replace (0 <? len (Depth <$> r :: refs)) with true by (cbn [fmap list_fmap]; rewrite len_cons; pose proof (len_nonneg (Depth <$> refs)); split_cmp; done).
  unfold u16. replace ((m + 1) mod 2 ^ 16) with (1 + m) by lia. now split_cmp.
Qed.

Lemma calculateHashes_ok bs refs hs ds :
  Forall shallow refs -> calculateHashes (with_hashes (unfinished bs refs) hs ds) = Ok (finished bs refs).
Proof.
  intros H. unfold calculateHashes. cbn [c_mask with_hashes unfinished Z.eqb andb].
  replace (bool_decide _) with true by (symmetry; apply bool_decide_eq_true_2; reflexivity).
  unfold calculateHashesOrdinary. rewrite (SerializeBOCBodyTo_ok _ bs) by done. cbn [mbind outcome_bind].
  cbn [c_refs with_hashes unfinished]. now rewrite depth_above_ok by done.
Qed.

(** ** Finalization and replacement of references *)

Lemma validate_depths refs : Forall shallow refs -> validateCellRefDepthLimit refs tt = (Ok tt, tt).
Proof.
  intros H. unfold validateCellRefDepthLimit. rewrite run_guard.
  replace (existsb _ _) with false; [done|]. symmetry. induction H as [|r refs [_ Hr] _ IH]; [done|].
  cbn [existsb]. rewrite IH. now split_cmp.
Qed.

Lemma EndCellSpecial_ok b :
  wf b -> Forall shallow (b_refs b) -> EndCellSpecial false b = Ok (finished (bits b) (b_refs b)).
Proof.
  intros Hwf H. unfold EndCellSpecial, finalizeCellFromBuilder, buildCellShellFromBuilder, fillCellShell.
  pose proof (wf_sz _ Hwf) as Hs. pose proof (wf_len _ Hwf) as Hl. pose proof (wf_refs _ Hwf) as Hr.
  rewrite subrange_prefix by (unfold usedBytes; lia). cbn [mbind outcome_bind].
  rewrite take_data_pack by done. replace (4 <? len (b_refs b)) with false by (now split_cmp).
  rewrite validate_depths, ordinaryLevelMask_0 by auto using shallow_level0. cbn [mbind outcome_bind fst].
  unfold validateBoundaryCell. cbn [c_special setLevelMask negb c_mask c_refs].
  rewrite ordinaryLevelMask_0 by auto using shallow_level0. cbn [Z.land Z.eqb ensure mbind outcome_bind].
  pose proof (calculateHashes_ok (bits b) (b_refs b) [] [] H) as Hc. unfold unfinished, with_hashes in Hc.
  cbn [c_data c_bitsSz c_special c_mask c_refs] in Hc. rewrite len_bits in Hc by done. exact Hc.
Qed.

Lemma EndCellSpecial_deep b :
  wf b -> Exists (fun r => maxDepth <= Depth r) (b_refs b) -> EndCellSpecial false b = Err ErrCellDepthLimit.
Proof.
  intros Hwf H. unfold EndCellSpecial, finalizeCellFromBuilder, buildCellShellFromBuilder, fillCellShell.
  pose proof (wf_sz _ Hwf) as Hs. pose proof (wf_len _ Hwf) as Hl. pose proof (wf_refs _ Hwf) as Hr.
  rewrite subrange_prefix by (unfold usedBytes; lia). cbn [mbind outcome_bind].
  replace (4 <? len (b_refs b)) with false by (now split_cmp).
  unfold validateCellRefDepthLimit. rewrite run_guard. replace (existsb _ _) with true; [done|].
  symmetry. apply existsb_exists. apply List.Exists_exists in H as (r & Hin & Hd). exists r.
  split; [done|now apply Z.leb_le].
Qed.

Lemma holds_finished b : wf b -> holds (finished (bits b) (b_refs b)) b.
Proof.
  intros Hwf. split; cbn [finished with_hashes unfinished c_data c_bitsSz c_refs]; rewrite ?len_bits by done; try done.
  now rewrite take_data_pack.
Qed.

Lemma rehash_with_refs_ok bs refs refs' :
  Forall shallow refs' -> rehash_with_refs (finished bs refs) refs' = Ok (finished bs refs').
Proof.
  intros H. unfold rehash_with_refs, refreshLevelMaskForRefs.
  cbn [with_refs finished with_hashes unfinished c_refs c_special c_data c_bitsSz c_mask].
  replace (existsb _ _) with false.
  2: { symmetry. clear -H. induction H as [|r l [_ Hr] _ IH]; [done|]. cbn [existsb]. rewrite IH. now split_cmp. }
  rewrite ordinaryLevelMask_0 by auto using shallow_level0. cbn [negb mbind outcome_bind].
  exact (calculateHashes_ok bs refs' _ _ H).
Qed.

Lemma newSlice_finished bs refs :
  len bs <= 1023 -> len refs <= 4 ->
  let s := newSliceFromCell (finished bs refs) in swf s /\ sbits s = bs /\ srefs s = refs.
Proof.
  intros Hb Hr. pose proof (len_nonneg bs). pose proof (len_nonneg refs). cbv zeta. split_and!.
  - split; unfold s_data; cbn [newSliceFromCell s_cell finished with_hashes unfinished c_data c_bitsSz c_refs
      s_bitStart s_bitEnd s_refStart s_refEnd]; rewrite ?len_pack; try lia. apply bytes_ok_pack.
  - unfold sbits, s_data. cbn [newSliceFromCell s_cell s_bitStart s_bitEnd]. rewrite Z.sub_0_r. apply cbits_finished.
  - unfold srefs. cbn [newSliceFromCell s_cell s_refStart s_refEnd finished with_hashes unfinished c_refs].
    rewrite Z.sub_0_r, drop_0. apply firstn_all2. unfold len. lia.
Qed.

(** * The hash of a cell determines the cell

    The bytes hashed for an ordinary cell encode its bits and its references' hashes
    and depths without ambiguity.  Two trees with the same root hash are therefore
    equal, or two of their subcells are a collision of SHA-256. *)

(** The bytes [calculateHashesOrdinary] hashes for a finished cell. *)
Definition preimage (c : Cell) : list Z :=
  hash_buf (descriptors (unfinished (cbits_of c) (c_refs c)) 0) (body (cbits_of c)) (c_refs c) 0.

(** Trees of ordinary cells as finalization builds them. *)
Inductive built : Cell -> Prop :=
  | built_finished bs refs :
      len bs <= 1023 -> len refs <= 4 -> Forall shallow refs -> (forall r, r ∈ refs -> built r) ->
      built (finished bs refs).

(** [s] is [c] or a cell below it. *)
Inductive below (c : Cell) : Cell -> Prop :=
  | below_here : below c c
  | below_ref s r : below c s -> r ∈ c_refs s -> below c r.

Lemma below_child c r s : r ∈ c_refs c -> below r s -> below c s.
Proof. intros Hr H. induction H as [|s t _ IH Ht]; econstructor; eauto using below_here. Qed.

Lemma hash_finished bs refs : HashKey (finished bs refs) = Sha256.sum256 (preimage (finished bs refs)).
Proof. unfold preimage. now rewrite cbits_finished, refs_finished. Qed.

Lemma built_hash c : built c -> HashKey c = Sha256.sum256 (preimage c) /\ c_mask c = 0 /\ len (HashKey c) = 32.
Proof.
  intros [bs refs _ _ _ _]. rewrite hash_finished. split_and!; [done|done|]. apply Sha256.len_sum256.
Qed.

(** ** The body determines the bits *)

Lemma pack_inj n l k :
  pack n l = pack n k -> forall i, 0 <= i < 8 * Z.of_nat n -> nth (Z.to_nat i) l false = nth (Z.to_nat i) k false.
Proof. intros H i Hi. now rewrite <-!(bit_pack n) by lia; rewrite H. Qed.

Lemma list_eq_nth_Z (l k : list bool) :
  len l = len k -> (forall i, 0 <= i < len l -> nth (Z.to_nat i) l false = nth (Z.to_nat i) k false) -> l = k.
Proof.
  intros Hl H. apply (list_eq_nth false); [unfold len in Hl; lia|]. intros i Hi. specialize (H (Z.of_nat i)).
  rewrite Nat2Z.id in H. apply H. unfold len. lia.
Qed.

Lemma nth_closed bs i :
  0 <= i -> nth (Z.to_nat i) (bs ++ [true]) false
  = if i <? len bs then nth (Z.to_nat i) bs false else i =? len bs.
Proof.
  intros Hi. rewrite nth_app. unfold len. destruct (Nat.ltb_spec (Z.to_nat i) (length bs)), (Z.ltb_spec i (Z.of_nat (length bs)));
    try lia; [done|]. destruct (Z.eqb_spec i (Z.of_nat (length bs))) as [-> | Hne].
  - now rewrite Nat2Z.id, Nat.sub_diag.
  - apply nth_overflow. cbn [length]. lia.
Qed.

Lemma body_inj bs bs' :
  len bs / 8 = len bs' / 8 -> (len bs + 7) / 8 = (len bs' + 7) / 8 -> body bs = body bs' -> bs = bs'.
Proof.
  intros Hf Hc H. unfold body in H. rewrite <-Hc in H. pose proof (len_nonneg bs). pose proof (len_nonneg bs').
  pose proof (pack_inj _ _ _ H) as Hn. clear H.
  destruct (Z.eqb_spec (len bs mod 8) 0) as [E | E], (Z.eqb_spec (len bs' mod 8) 0) as [E' | E']; try lia.
  - apply list_eq_nth_Z; [lia|]. intros i Hi. apply Hn. lia.
  - assert (Hl : len bs = len bs').
    { pose proof (Hn (len bs) ltac:(lia)) as N1. pose proof (Hn (len bs') ltac:(lia)) as N2.
      rewrite !nth_closed in N1, N2 by lia. revert N1 N2. rewrite !Z.eqb_refl.
      destruct (Z.ltb_spec (len bs) (len bs)), (Z.ltb_spec (len bs') (len bs')); try lia.
      destruct (Z.ltb_spec (len bs) (len bs')), (Z.ltb_spec (len bs') (len bs)); try lia; intros N1 N2.
      all: destruct (Z.eqb_spec (len bs') (len bs)), (Z.eqb_spec (len bs) (len bs')); lia || done. }
    apply list_eq_nth_Z; [done|]. intros i Hi. specialize (Hn i ltac:(lia)). rewrite !nth_closed in Hn by lia.
    revert Hn. destruct (Z.ltb_spec i (len bs)), (Z.ltb_spec i (len bs')); lia || done.
Qed.

(** ** The preimage determines bits and reference hashes *)

Lemma concat_inj {A} (f : A -> list Z) n (l k : list A) :
  (forall x, x ∈ l \/ x ∈ k -> length (f x) = n) -> length l = length k ->
  l ≫= f = k ≫= f -> f <$> l = f <$> k.
Proof.
  revert k. induction l as [|x l IH]; intros [|y k] Hf Hl H; try done.
  change (f x ++ (l ≫= f) = f y ++ (k ≫= f)) in H. cbn [length] in Hl.
  apply app_inj_1 in H as [Hx Hr]; [|rewrite !Hf by set_solver; done].
  cbn [fmap list_fmap]. rewrite Hx. f_equal. apply IH; [set_solver|lia|done].
Qed.

Lemma length_concat {A} (f : A -> list Z) n (l : list A) :
  (forall x, x ∈ l -> length (f x) = n) -> length (l ≫= f) = (n * length l)%nat.
Proof.
  induction l as [|x l IH]; intros Hf; [cbn; lia|]. change ((x :: l) ≫= f) with (f x ++ (l ≫= f)).
  rewrite length_app, IH, Hf by set_solver. cbn [length]. lia.
Qed.

Lemma preimage_inj bs refs bs' refs' :
  len bs <= 1023 -> len bs' <= 1023 -> len refs <= 4 -> len refs' <= 4 ->
  (forall r, r ∈ refs \/ r ∈ refs' -> level0 r /\ len (HashKey r) = 32) ->
  preimage (finished bs refs) = preimage (finished bs' refs') ->
  bs = bs' /\ HashKey <$> refs = HashKey <$> refs'.
Proof.
  intros Hb Hb' Hr Hr' Hh. unfold preimage. rewrite !cbits_finished, !refs_finished. unfold hash_buf, descriptors.
  cbn [fst snd c_bitsSz c_special c_refs unfinished]. intros H. pose proof (len_nonneg refs). pose proof (len_nonneg refs').
  pose proof (len_nonneg bs). pose proof (len_nonneg bs'). injection H as Hd1 Hd2 Hrest.
  assert (Hn : length refs = length refs') by (unfold u8, len in *; lia).
  assert (Hsz : len bs / 8 = len bs' / 8 /\ (len bs + 7) / 8 = (len bs' + 7) / 8).
  { unfold u8 in Hd2. revert Hd2. destruct (Z.eqb_spec (len bs mod 8) 0), (Z.eqb_spec (len bs' mod 8) 0); cbn [negb]; lia. }
  destruct Hsz as [Hf Hc]. apply app_inj_1 in Hrest as [Hbody Hrest];
    [|unfold body; rewrite !length_pack, Hc; done].
  split; [now apply body_inj|]. apply app_inj_1 in Hrest as [_ Hhash].
  - assert (Hg : forall r, r ∈ refs \/ r ∈ refs' -> getHash r 0 = HashKey r) by (intros r [Hm _]%Hh; now apply getHash_0).
    apply (concat_inj _ 32) in Hhash; [|intros r Hin; rewrite Hg by done; apply Hh in Hin as [_ Hl]; unfold len in Hl; lia|done].
    rewrite (list_fmap_ext (fun r => getHash r 0) HashKey refs), (list_fmap_ext (fun r => getHash r 0) HashKey refs') in Hhash;
      [done|..]; intros i r Hi%list_elem_of_lookup_2; apply Hg; auto.
  - rewrite !(length_concat _ 2), Hn; [done|..]; intros; unfold be_bytes; now rewrite length_fmap, length_seq.
Qed.

(** A collision of SHA-256 between a cell of the one tree and a cell of the other. *)
Definition collision (c c' : Cell) : Prop :=
  exists s s', below c s /\ below c' s' /\ preimage s <> preimage s' /\
    Sha256.sum256 (preimage s) = Sha256.sum256 (preimage s').

Lemma collision_child c c' r r' : r ∈ c_refs c -> r' ∈ c_refs c' -> collision r r' -> collision c c'.
Proof.
  intros Hr Hr' (s & s' & H & H' & Hne & He). exists s, s'. split_and!; eauto using below_child.
Qed.

(** The references of two cells, equal pairwise or with a collision. *)
Lemma refs_bind (refs refs' : list Cell) c c' :
  (forall r r', r ∈ refs -> r' ∈ refs' -> HashKey r = HashKey r' -> r = r' \/ collision c c') ->
  HashKey <$> refs = HashKey <$> refs' -> refs = refs' \/ collision c c'.
Proof.
  revert refs'. induction refs as [|r refs IH]; intros [|r' refs'] Hb H; try done; [now left|].
  injection H as H1 H2. destruct (Hb r r') as [-> | ?]; [set_solver..|done| |now right].
  destruct (IH refs') as [-> | ?]; [|done|now left|now right]. intros x y Hx Hy. apply Hb; set_solver.
Qed.

Lemma hash_binds_tree c c' : built c -> built c' -> HashKey c = HashKey c' -> c = c' \/ collision c c'.
Proof.
  intros Hc. revert c'. induction Hc as [bs refs Hb Hr Hs Hrefs IH]. intros c' Hc' He.
  pose proof (built_hash _ Hc') as (Hk & _ & _). destruct Hc' as [bs' refs' Hb' Hr' Hs' Hrefs'].
  rewrite !hash_finished in He.
  destruct (decide (preimage (finished bs refs) = preimage (finished bs' refs'))) as [Hp | Hp].
  2: { right. exists (finished bs refs), (finished bs' refs'). split_and!; auto using below_here. }
  apply preimage_inj in Hp as [-> Hhs]; try done.
  2: { intros r Hin. assert (Hbr : built r) by (destruct Hin; auto). now apply built_hash in Hbr as (_ & ? & ?). }
  destruct (refs_bind refs refs' (finished bs' refs) (finished bs' refs')) as [-> | ?]; [|done|now left|now right].
  intros r r' Hin Hin' Hh. destruct (IH r Hin r' (Hrefs' r' Hin') Hh) as [-> | ?]; [now left|right].
  eapply collision_child; eauto.
Qed.

(** ** Properties *)

Lemma built_depth c : built c -> c_mask c = 0 /\ 0 <= Depth c.
Proof.
  intros [bs refs _ _ Hs _]. split; [done|]. rewrite Depth_finished.
  apply (depth_of_bounds _ maxDepth); [|done]. eapply List.Forall_impl; [|exact Hs]. now intros r [_ ?].
Qed.

Lemma EndCellSpecial_built b c :
  wf b -> (forall r, r ∈ b_refs b -> built r) -> EndCellSpecial false b = Ok c ->
  c = finished (bits b) (b_refs b) /\ built c.
Proof.
  intros Hwf Hb H. destruct (Exists_dec (fun r => maxDepth <= Depth r) (b_refs b)) as [Hd | Hd].
  { now rewrite EndCellSpecial_deep in H. }
  assert (Hs : Forall shallow (b_refs b)).
  { apply Forall_forall. intros r Hin. destruct (built_depth r (Hb r Hin)). split; [done|split; [done|]].
    apply Z.nle_gt. intros Hle. apply Hd, Exists_exists. eauto. }
  rewrite EndCellSpecial_ok in H by done. injection H as <-. split; [done|].
  constructor; try done; [rewrite len_bits by done; apply Hwf|apply Hwf].
Qed.

(** C13: The hash of a finished cell binds its content: when two builders over trees
    built by finalization are finished and the hashes of the two cells are equal, the
    builders hold the same bits and references, or two cells below them hash different
    bytes to one SHA-256 digest. *)
Theorem hash_binds b b' c c' :
  wf b -> wf b' -> (forall r, r ∈ b_refs b -> built r) -> (forall r, r ∈ b_refs b' -> built r) ->
  EndCellSpecial false b = Ok c -> EndCellSpecial false b' = Ok c' -> HashKey c = HashKey c' ->
  (bits b = bits b' /\ b_refs b = b_refs b' /\ c = c') \/ collision c c'.
Proof.
  intros Hwf Hwf' Hb Hb' H H' He. apply EndCellSpecial_built in H as [-> Hc]; try done.
  apply EndCellSpecial_built in H' as [-> Hc']; try done.
  destruct (hash_binds_tree _ _ Hc Hc' He) as [E |]; [left|now right].
  split_and!; [|now apply (f_equal c_refs) in E|done]. apply (f_equal cbits_of) in E. now rewrite !cbits_finished in E.
Qed.

Definition sample_leaf : Cell := finished [true; false; true] [].
Definition sample_pair : Builder := mkBuilder (pack 128 [true; true]) 2 [sample_leaf].

Lemma sample_leaf_built : built sample_leaf.
Proof. constructor; [done|done|apply Forall_nil_2|]. intros r Hr. now apply elem_of_nil in Hr. Qed.

Lemma sample_pair_wf : wf sample_pair.
Proof.
  apply (wf_with_refs (append BeginCell [true; true]) [sample_leaf]); [|unfold len; cbn; lia].
  apply wf_append; [apply wf_begin|unfold len; cbn; lia].
Qed.

Example hash_binds_witness :
  exists c, EndCellSpecial false sample_pair = Ok c /\
    ((bits sample_pair = bits sample_pair /\ b_refs sample_pair = b_refs sample_pair /\ c = c) \/ collision c c).
Proof.
  destruct (EndCellSpecial false sample_pair) as [c | |] eqn:E; [|vm_compute in E; discriminate..].
  exists c. split; [reflexivity|].
  apply (hash_binds sample_pair sample_pair c c sample_pair_wf sample_pair_wf); try exact E; [..|reflexivity];
    intros r Hr%list_elem_of_singleton; rewrite Hr; apply sample_leaf_built.
Defined.
