(* ===== verification/BuilderReach.v ===== *)
(** * The builder as a state machine

    Every state a builder reaches through its stores, failed ones included,
    satisfies the invariant the word-wide writes rely on, and no store panics. *)

From S2P Require Import Prelude Bytes CellModel Builder BuilderSpec BuilderOps.
#[local] Open Scope Z_scope.

Lemma storeBigIntWrap_run b v sz :
  wf b -> 0 <= sz ->
  storeBigIntWrap (Some v) sz b =
    if 257 <? sz then (Err ErrTooBigSize, b)
    else if if sz =? 0 then v =? 0 else (- 2 ^ (sz - 1) <=? v) && (v <? 2 ^ sz)
    then store_fit b (uint_bits sz v) else (Err ErrTooBigValue, b).
Proof.
  intros Hwf Hsz. unfold storeBigIntWrap. mrun. destruct (Z.ltb_spec 257 sz); [done|].
  destruct (Z.eqb_spec sz 0) as [-> |].
  { mrun. rewrite store_fit_0 by done. split_cmp; done. }
  assert (H2 : 2 ^ sz = 2 * 2 ^ (sz - 1)) by (rewrite <-Z.pow_succ_r by lia; f_equal; lia).
  pose proof (Z.pow_pos_nonneg 2 (sz - 1)). destruct (Z.leb_spec 0 v); mrun.
  - pose proof (bit_len_le v sz). split_cmp; cbn [andb]; try done. apply storeBig_run; done || lia.
  - rewrite fitsNegativeBigInt_range by lia. destruct (Z.leb_spec (- 2 ^ (sz - 1)) v); cbn [negb andb]; [|done].
    split_cmp. rewrite Z.shiftl_1_l, storeBig_run by (done || lia). f_equal.
    apply uint_bits_eq_mod; [lia|]. replace (2 ^ sz + v) with (v + 1 * 2 ^ sz) by lia. apply Z.mod_add. lia.
Qed.

(** ** Operations *)

Inductive builder_op : Type :=
  | OpBoolBit (v : bool)
  | OpUInt (v sz : Z)
  | OpInt (v sz : Z)
  | OpBigUInt (v : option Z) (sz : Z)
  | OpBigInt (v : option Z) (sz : Z)
  | OpBigIntWrap (v : option Z) (sz : Z)
  | OpVarUInt (v sz : Z)
  | OpBigVarUInt (v : option Z) (sz : Z)
  | OpBigVarInt (v : option Z) (sz : Z)
  | OpSlice (bytes : list Z) (sz : Z)
  | OpBitRange (data : list Z) (bitOffset sz : Z)
  | OpSameBit (v : bool) (n : Z)
  | OpRef (ref : option Cell) (checkDepth : bool)
  | OpMaybeRef (ref : option Cell) (checkDepth : bool)
  | OpBuilder (x : Builder) (checkDepth : bool)
  | OpTruncate (sz : Z).

Definition run_op (op : builder_op) : M Builder unit :=
  match op with
  | OpBoolBit v => StoreBoolBit v
  | OpUInt v sz => StoreUInt v sz
  | OpInt v sz => StoreInt v sz
  | OpBigUInt v sz => StoreBigUInt v sz
  | OpBigInt v sz => StoreBigInt v sz
  | OpBigIntWrap v sz => storeBigIntWrap v sz
  | OpVarUInt v sz => StoreVarUInt v sz
  | OpBigVarUInt v sz => StoreBigVarUInt v sz
  | OpBigVarInt v sz => StoreBigVarInt v sz
  | OpSlice bytes sz => StoreSlice bytes sz
  | OpBitRange data bo sz => storeBitRange data bo sz
  | OpSameBit v n => StoreSameBit v n
  | OpRef r c => storeRef r c
  | OpMaybeRef r c => storeMaybeRef r c
  | OpBuilder x c => storeBuilder x c
  | OpTruncate sz => truncateBits sz
  end.

(** The arguments Go's types allow; byte slices shorter than 2^60 bytes, and the
    builder being appended itself built by stores. *)
Definition op_ok (op : builder_op) : Prop :=
  match op with
  | OpUInt v sz | OpVarUInt v sz => 0 <= v < 2 ^ 64 /\ 0 <= sz < 2 ^ 64
  | OpInt v sz => - 2 ^ 63 <= v < 2 ^ 63 /\ 0 <= sz < 2 ^ 64
  | OpBigUInt _ sz | OpBigInt _ sz | OpBigIntWrap _ sz | OpBigVarInt _ sz => 0 <= sz < 2 ^ 64
  | OpBigVarUInt v sz => 0 <= sz < 2 ^ 64 /\ match v with Some v => bit_len v < 2 ^ 63 | None => True end
  | OpSlice bytes sz => bytes_ok bytes /\ 8 * len bytes < 2 ^ 63 /\ 0 <= sz < 2 ^ 64
  | OpBitRange data bo sz => bytes_ok data /\ 8 * len data < 2 ^ 63 /\ 0 <= bo < 2 ^ 63 /\ 0 <= sz < 2 ^ 63
  | OpSameBit _ n => 0 <= n < 2 ^ 64
  | OpTruncate sz => 0 <= sz < 2 ^ 64
  | OpBuilder x _ => wf x
  | _ => True
  end.

(** What a store may leave behind: no panic, and a builder within the invariant. *)
Definition safe (r : outcome unit * Builder) : Prop := fst r <> Panic /\ wf (snd r).

Lemma safe_err b e : wf b -> safe (Err e, b).
Proof. now split. Qed.

Lemma safe_ok b : wf b -> safe (Ok tt, b).
Proof. now split. Qed.

Lemma safe_fit b bs : wf b -> safe (store_fit b bs).
Proof. intros. unfold store_fit. split_cmp; [now apply safe_err|]. apply safe_ok. now apply wf_append. Qed.

Lemma safe_if (c : bool) x y : safe x -> safe y -> safe (if c then x else y).
Proof. now destruct c. Qed.

Create HintDb safe.
#[export] Hint Resolve safe_err safe_ok safe_fit safe_if : safe.

(** The store that can fail after its length prefix is in. *)
Lemma safe_big_var_uint b v sz :
  wf b -> 0 <= sz ->
  safe (if sz =? 0 then (Err ErrInvalidSize, b)
        else if v <? 0 then (Err ErrNegative, b)
        else if sz <=? (bit_len v + 7) / 8 then (Err ErrTooBigValue, b)
        else if 1023 <? b_bitsSz b + len (var_uint_bits v sz) then (Err ErrNotFit1023, b)
        else if 32 <? (bit_len v + 7) / 8
        then (Err ErrTooBigSize, append b (uint_bits (bit_len (sz - 1)) ((bit_len v + 7) / 8)))
        else (Ok tt, append b (var_uint_bits v sz))).
Proof.
  intros Hwf Hsz. do 3 (apply safe_if; [auto with safe|]).
  destruct (Z.ltb_spec 1023 (b_bitsSz b + len (var_uint_bits v sz))); [auto with safe|].
  pose proof (bit_len_nonneg v). pose proof (bit_len_nonneg (sz - 1)).
  unfold var_uint_bits in *. cbv zeta in *. rewrite len_two_bits in * by lia.
  apply safe_if; [apply safe_err|apply safe_ok]; (apply wf_append; [done|]);
    rewrite ?len_two_bits, ?length_uint_bits by lia; lia.
Qed.

Lemma run_op_safe op b : wf b -> op_ok op -> safe (run_op op b).
Proof.
  intros Hwf Hop. destruct op as [v|v sz|v sz|[v|] sz|[v|] sz|[v|] sz|v sz|[v|] sz|[v|] sz|bytes sz|data bo sz|v n|[r|] c|[r|] c|x c|sz];
    cbn [run_op op_ok] in *.
  all: try (unfold fail; now apply safe_err).
  - rewrite StoreBoolBit_run by done. destruct (Z.leb_spec 1023 (b_bitsSz b)); [auto with safe|].
    apply safe_ok, wf_append; [done|]. change (len [v]) with 1. lia.
  - rewrite StoreUInt_run by (done || lia). auto with safe.
  - rewrite StoreInt_run by (done || lia). auto with safe.
  - rewrite StoreBigUInt_run by (done || lia). auto with safe.
  - rewrite StoreBigInt_run by (done || lia). auto with safe.
  - rewrite storeBigIntWrap_run by (done || lia). auto with safe.
  - rewrite StoreVarUInt_run by (done || lia). auto with safe.
  - rewrite StoreBigVarUInt_run by (done || lia). apply safe_big_var_uint; [done|lia].
  - rewrite StoreBigVarInt_run by (done || lia). auto with safe.
  - destruct Hop as (Hok & Hlen & Hsz). rewrite StoreSlice_run by done. apply safe_if; [auto with safe|].
    destruct (Z.leb_spec 1024 (u64 (b_bitsSz b + sz))) as [|Hu]; [auto with safe|].
    destruct (Z.ltb_spec (8 * len bytes) sz); [auto with safe|]. apply safe_ok, wf_append; [done|].
    pose proof (wf_sz _ Hwf). rewrite length_window by lia. unfold u64 in Hu. lia.
  - destruct Hop as (Hok & Hlen & Hbo & Hsz). rewrite storeBitRange_run by done. apply safe_if; [auto with safe|].
    destruct (Z.ltb_spec 1023 (b_bitsSz b + sz)); [auto with safe|]. apply safe_if; [auto with safe|].
    apply safe_ok, wf_append; [done|]. rewrite length_window; lia.
  - rewrite StoreSameBit_run by (done || lia). auto with safe.
  - rewrite storeRef_run. destruct (Z.leb_spec 4 (len (b_refs b))); [auto with safe|].
    apply safe_if; [auto with safe|]. apply safe_ok, wf_with_refs; [done|]. change (len [r]) with 1. lia.
  - rewrite storeRef_run. auto with safe.
  - rewrite storeMaybeRef_run by done. destruct (Z.leb_spec 1023 (b_bitsSz b)); [auto with safe|].
    assert (Hwf1 : wf (append b [true])) by (apply wf_append; [done|change (len [true]) with 1; lia]).
    apply safe_if; [auto with safe|]. destruct (Z.leb_spec 4 (len (b_refs b))); [auto with safe|].
    apply safe_ok, wf_with_refs; [done|]. change (len [r]) with 1. cbn [append b_refs]. lia.
  - rewrite storeMaybeRef_run by done. auto with safe.
  - rewrite storeBuilder_run by done. destruct (Z.ltb_spec 4 (len (b_refs b) + len (b_refs x))); [auto with safe|].
    destruct (Z.ltb_spec 1023 (b_bitsSz b + b_bitsSz x)); [auto with safe|]. apply safe_if; [auto with safe|].
    apply safe_ok, wf_append; [apply wf_with_refs; done || lia|]. rewrite len_bits by done. cbn [b_bitsSz]. lia.
  - rewrite truncateBits_run by (done || lia). apply safe_ok. destruct (Z.leb_spec (b_bitsSz b) sz); [done|].
    apply wf_truncated; [done|lia].
Qed.

(** ** Reachable states *)

(** One call on the builder, whatever it returns. *)
Inductive builder_step (b b' : Builder) : Prop :=
  | builder_step_op op r : op_ok op -> run_op op b = (r, b') -> builder_step b b'.

Inductive reachable : Builder -> Prop :=
  | reachable_begin : reachable BeginCell
  | reachable_step b b' : reachable b -> builder_step b b' -> reachable b'.

Lemma reachable_wf b : reachable b -> wf b.
Proof.
  induction 1 as [|b b' _ IH [op r Hop Hrun]]; [apply wf_begin|].
  pose proof (run_op_safe op b IH Hop) as [_ Hs]. now rewrite Hrun in Hs.
Qed.

(** C11: Every builder that is reached from [BeginCell] by any sequence of stores and
    truncations, failed calls included, keeps its buffer of 128 bytes with at most
    1023 bits used, at most four references and every bit past the used ones zero,
    and no store on such a builder indexes its buffer out of range. *)
Theorem builder_reachable_safe b :
  reachable b ->
  (len (b_data b) = 128 /\ 0 <= b_bitsSz b <= 1023 /\ len (b_refs b) <= 4 /\
   forall i, b_bitsSz b <= i -> bit (b_data b) i = false) /\
  forall op, op_ok op -> fst (run_op op b) <> Panic.
Proof.
  intros H. pose proof (reachable_wf b H) as Hwf. split.
  - destruct Hwf. split_and!; try done; lia.
  - intros op Hop. now apply run_op_safe.
Qed.

(** A builder that has stored a 5-bit value and a run, and then failed a store. *)
Example builder_reachable_safe_witness :
  exists b, reachable b /\ b_bitsSz b = 12 /\ len (b_data b) = 128.
Proof.
  set (b1 := snd (run_op (OpUInt 21 5) BeginCell)).
  set (b2 := snd (run_op (OpSameBit true 7) b1)).
  set (b3 := snd (run_op (OpUInt 300 8) b2)).
  assert (H : reachable b3).
  { eapply reachable_step; [eapply reachable_step; [eapply reachable_step; [apply reachable_begin|]|]|].
    - apply (builder_step_op _ b1 (OpUInt 21 5) (Ok tt)); [cbn; lia|reflexivity].
    - apply (builder_step_op _ b2 (OpSameBit true 7) (Ok tt)); [cbn; lia|reflexivity].
    - apply (builder_step_op _ b3 (OpUInt 300 8) (Err ErrTooBigValue)); [cbn; lia|reflexivity]. }
  exists b3. split; [exact H|]. split; [reflexivity|]. apply (builder_reachable_safe b3 H).
Defined.
