(* ===== verification/SliceCompare.v ===== *)
(** * Comparing bit strings 64 bits a step

    [commonSlicePrefix], [LexCompare], [CountLeading], [CountTrailing] and the
    equality tests of [slice_ops.go] work on 64-bit chunks or on masked bytes;
    each is shown equal to its definition on lists of bits. *)

From S2P Require Import Prelude Bytes CellModel Builder Slice SliceSpec.
#[local] Open Scope Z_scope.

(** ** Reference definitions *)

(** The length of the longest common prefix. *)
Fixpoint lcp (l k : list bool) : Z :=
  match l, k with
  | x :: l, y :: k => if eqb x y then 1 + lcp l k else 0
  | _, _ => 0
  end.

(** Lexicographic order, a proper prefix first. *)
Fixpoint lex (l k : list bool) : Z :=
  match l, k with
  | [], [] => 0
  | [], _ => -1
  | _, [] => 1
  | x :: l, y :: k => if eqb x y then lex l k else if y then -1 else 1
  end.

(** ** Values of equally long bit strings *)

Lemma bits_uint_cons x l : bits_uint (x :: l) = Z.b2z x * 2 ^ len l + bits_uint l.
Proof.
  induction l as [|y l IH] using rev_ind; [now destruct x|].
  rewrite app_comm_cons, !bits_uint_app, IH, len_app. change (len [y]) with 1.
  rewrite Z.pow_add_r by (pose proof (len_nonneg l); lia). lia.
Qed.

Lemma bits_uint_inj l k : len l = len k -> bits_uint l = bits_uint k -> l = k.
Proof.
  intros Hl H. rewrite <-(uint_bits_bits_uint l), <-(uint_bits_bits_uint k). now rewrite Hl, H.
Qed.

Lemma lxor_bound a b n : 0 <= n -> 0 <= a < 2 ^ n -> 0 <= b < 2 ^ n -> 0 <= Z.lxor a b < 2 ^ n.
Proof.
  intros Hn Ha Hb. assert (0 <= Z.lxor a b) by (apply Z.lxor_nonneg; lia). split; [done|].
  replace (Z.lxor a b) with (Z.lxor a b mod 2 ^ n); [apply Z.mod_pos_bound; lia|].
  apply Z.bits_inj'. intros k Hk. rewrite Z.testbit_mod_pow2, Z.lxor_spec by done.
  split_cmp; cbn [andb]; [done|]. now rewrite !(testbit_above _ n).
Qed.

Lemma lxor_high x y a b n :
  0 <= n -> 0 <= a < 2 ^ n -> 0 <= b < 2 ^ n ->
  Z.lxor (Z.b2z x * 2 ^ n + a) (Z.b2z y * 2 ^ n + b) = Z.b2z (xorb x y) * 2 ^ n + Z.lxor a b.
Proof.
  intros Hn Ha Hb. pose proof (lxor_bound a b n Hn Ha Hb) as Hx.
  assert (Hlow : forall z k, 0 <= k < n -> Z.testbit (Z.b2z z * 2 ^ n) k = false)
    by (intros; now apply Z.mul_pow2_bits_low).
  rewrite !(add_disjoint _ _ n) by auto. apply Z.bits_inj'. intros k Hk. autorewrite with bitdb.
  destruct (Z.ltb_spec k n).
  - now rewrite !Hlow.
  - rewrite (testbit_above a n), (testbit_above b n) by done.
    rewrite !Z.mul_pow2_bits, !testbit_b2z by lia. destruct (k - n =? 0), x, y; done.
Qed.

Lemma bit_len_high n a : 0 <= n -> 0 <= a < 2 ^ n -> bit_len (2 ^ n + a) = n + 1.
Proof.
  intros Hn Ha. pose proof (bit_len_le (2 ^ n + a) n). pose proof (bit_len_le (2 ^ n + a) (n + 1)).
  assert (2 ^ (n + 1) = 2 * 2 ^ n) by (rewrite Z.pow_add_r; lia). lia.
Qed.

Lemma lcp_bounds l k : 0 <= lcp l k <= len l.
Proof.
  revert k. induction l as [|x l IH]; intros k; [done|]. rewrite len_cons. pose proof (len_nonneg l).
  destruct k as [|y k]; cbn [lcp]; [lia|]. specialize (IH k). destruct (eqb x y); lia.
Qed.

(** The highest bit in which two values differ gives the common prefix. *)
Lemma lcp_lxor l k :
  len l = len k -> bits_uint l <> bits_uint k ->
  lcp l k = len l - bit_len (Z.lxor (bits_uint l) (bits_uint k)).
Proof.
  revert k. induction l as [|x l IH]; intros [|y k] Hl Hne; [done|done|done|].
  rewrite !len_cons in Hl. pose proof (len_nonneg l). assert (Hlk : len k = len l) by lia.
  cbn [lcp]. rewrite !bits_uint_cons, !Hlk in *.
  pose proof (bits_uint_bound l) as Hb1. pose proof (bits_uint_bound k) as Hb2. rewrite Hlk in Hb2.
  rewrite lxor_high, len_cons by done. destruct (eqb x y) eqn:E.
  - apply eqb_prop in E as ->. rewrite xorb_nilpotent. cbn [Z.b2z]. rewrite Z.mul_0_l, Z.add_0_l.
    rewrite IH by (done || lia || (intros Heq; apply Hne; lia)). lia.
  - replace (xorb x y) with true by now destruct x, y. cbn [Z.b2z]. rewrite Z.mul_1_l, bit_len_high; [lia|done|now apply lxor_bound].
Qed.

(** ** Chunks *)

Lemma lcp_app_eq w r1 r2 : lcp (w ++ r1) (w ++ r2) = len w + lcp r1 r2.
Proof.
  induction w as [|x w IH]; [done|]. cbn [lcp app]. rewrite eqb_reflx, IH, len_cons. lia.
Qed.

Lemma lcp_app_ne w1 w2 r1 r2 : len w1 = len w2 -> w1 <> w2 -> lcp (w1 ++ r1) (w2 ++ r2) = lcp w1 w2.
Proof.
  revert w2. induction w1 as [|x w1 IH]; intros [|y w2] Hl Hne; [done|done|done|].
  rewrite !len_cons in Hl. cbn [lcp app]. destruct (eqb x y) eqn:E; [|done].
  apply eqb_prop in E as ->. rewrite IH; [done|lia|congruence].
Qed.

Lemma lex_app_eq w r1 r2 : lex (w ++ r1) (w ++ r2) = lex r1 r2.
Proof. induction w as [|x w IH]; [done|]. cbn [lex app]. now rewrite eqb_reflx. Qed.

(** Equally long bit strings are ordered as their values. *)
Lemma lex_app_ne w1 w2 r1 r2 :
  len w1 = len w2 -> bits_uint w1 <> bits_uint w2 ->
  lex (w1 ++ r1) (w2 ++ r2) = if bits_uint w1 <? bits_uint w2 then -1 else 1.
Proof.
  revert w2. induction w1 as [|x w1 IH]; intros [|y w2] Hl Hne; [done|done|done|].
  rewrite !len_cons in Hl. assert (Hlk : len w2 = len w1) by lia. cbn [lex app].
  rewrite !bits_uint_cons, !Hlk in *. pose proof (bits_uint_bound w1) as Hb1.
  pose proof (bits_uint_bound w2) as Hb2. rewrite Hlk in Hb2. destruct (eqb x y) eqn:E.
  - apply eqb_prop in E as ->. rewrite IH by (done || lia || (intros Heq; apply Hne; lia)). split_cmp; done.
  - destruct x, y; try done; cbn [Z.b2z] in *; split_cmp; done.
Qed.

Lemma preloadSliceUIntAt_ok s off n :
  swf s -> 0 <= off -> 0 <= n <= 64 -> off + n <= BitsLeft s ->
  preloadSliceUIntAt s off n = Ok (bits_uint (window (s_data s) (s_bitStart s + off) n)).
Proof.
  intros Hwf Ho Hn Hle. unfold preloadSliceUIntAt. destruct (Z.eqb_spec n 0) as [-> |]; [done|].
  replace ((BitsLeft s <? off) || (BitsLeft s - off <? n)) with false by (split_cmp; done).
  pose proof (BitsLeft_eq s Hwf) as HL. pose proof (swf_bits _ Hwf). pose proof (swf_end _ Hwf).
  replace (with_bitStart s _) with (skip s off) by (unfold skip, u16; f_equal; lia).
  pose proof (swf_skip s off Hwf ltac:(lia)) as Hwf1. pose proof (BitsLeft_eq _ Hwf1) as HL1. cbn in HL1.
  rewrite loadUintFast_run by done. destruct (Z.ltb_spec (BitsLeft (skip s off)) n); [lia|]. done.
Qed.

Lemma window_0 d a : window d a 0 = [].
Proof. done. Qed.

(** The next chunk of a window. *)
Lemma window_chunk d a n m : 0 <= m <= n -> window d a n = window d a m ++ window d (a + m) (n - m).
Proof. intros. rewrite <-window_app by lia. f_equal. lia. Qed.

Section two_slices.
  Context (a b : Slice).
  Hypothesis Ha : swf a.
  Hypothesis Hb : swf b.
Let wa i n := window (s_data a) (s_bitStart a + i) n.
Let wb i n := window (s_data b) (s_bitStart b + i) n.

Lemma commonPrefixLoop_ok fuel limit matched :
  0 <= matched <= limit -> limit <= BitsLeft a -> limit <= BitsLeft b -> limit - matched <= Z.of_nat fuel ->
  commonPrefixLoop fuel a b limit matched =
    Ok (matched + lcp (wa matched (limit - matched)) (wb matched (limit - matched))).
Proof.
  revert matched. induction fuel as [|fuel IH]; intros m Hm Hla Hlb Hf; cbn [commonPrefixLoop];
    (destruct (Z.ltb_spec m limit); [|unfold wa, wb; replace (limit - m) with 0 by lia; rewrite !window_0; cbn [lcp]; f_equal; lia]); [lia|].
  set (c := Z.min 64 (limit - m)). rewrite !preloadSliceUIntAt_ok by (done || lia). cbn [mbind outcome_bind].
  fold (wa m c) (wb m c).
  assert (Hsa : wa m (limit - m) = wa m c ++ wa (m + c) (limit - (m + c))).
  { unfold wa. rewrite (window_chunk _ _ _ c) by lia. do 2 f_equal; lia. }
  assert (Hsb : wb m (limit - m) = wb m c ++ wb (m + c) (limit - (m + c))).
  { unfold wb. rewrite (window_chunk _ _ _ c) by lia. do 2 f_equal; lia. }
  assert (Hca : len (wa m c) = c) by (apply length_window; lia).
  assert (Hcb : len (wb m c) = c) by (apply length_window; lia).
  rewrite Hsa, Hsb. destruct (Z.eqb_spec (bits_uint (wa m c)) (bits_uint (wb m c))) as [He | Hne].
  - apply bits_uint_inj in He; [|lia]. rewrite IH by lia. rewrite He, lcp_app_eq, Hcb. f_equal; lia.
  - rewrite lcp_app_ne by (lia || congruence). rewrite lcp_lxor by (done || lia). rewrite Hca. f_equal; lia.
Qed.

Lemma commonSlicePrefix_run limit :
  0 <= limit <= BitsLeft b ->
  commonSlicePrefix a b limit =
    if BitsLeft a <? limit then Err (ErrNotEnoughData (BitsLeft a) limit)
    else Ok (lcp (take (Z.to_nat limit) (sbits a)) (take (Z.to_nat limit) (sbits b))).
Proof.
  intros Hl. unfold commonSlicePrefix. destruct (Z.ltb_spec (BitsLeft a) limit); [done|].
  rewrite commonPrefixLoop_ok by lia. rewrite !take_sbits by (done || lia).
  unfold wa, wb. rewrite Z.sub_0_r, !Z.add_0_r. done.
Qed.

Lemma lexLoop_ok fuel limit m :
  0 <= m <= limit -> limit <= BitsLeft a -> limit <= BitsLeft b -> limit - m <= Z.of_nat fuel ->
  exists r, lexLoop fuel a b limit m = Ok r /\
    forall ra rb, lex (wa m (limit - m) ++ ra) (wb m (limit - m) ++ rb) =
      match r with Some x => x | None => lex ra rb end.
Proof.
  revert m. induction fuel as [|fuel IH]; intros m Hm Hla Hlb Hf; cbn [lexLoop];
    (destruct (Z.ltb_spec m limit);
      [|exists None; split; [done|]; intros; unfold wa, wb; now replace (limit - m) with 0 by lia]); [lia|].
  set (c := Z.min 64 (limit - m)). rewrite !preloadSliceUIntAt_ok by (done || lia).
  fold (wa m c) (wb m c).
  assert (Hsa : wa m (limit - m) = wa m c ++ wa (m + c) (limit - (m + c))).
  { unfold wa. rewrite (window_chunk _ _ _ c) by lia. do 2 f_equal; lia. }
  assert (Hsb : wb m (limit - m) = wb m c ++ wb (m + c) (limit - (m + c))).
  { unfold wb. rewrite (window_chunk _ _ _ c) by lia. do 2 f_equal; lia. }
  assert (Hca : len (wa m c) = c) by (apply length_window; lia).
  assert (Hcb : len (wb m c) = c) by (apply length_window; lia).
  rewrite Hsa, Hsb. destruct (Z.eqb_spec (bits_uint (wa m c)) (bits_uint (wb m c))) as [He | Hne]; cbn [negb].
  - apply bits_uint_inj in He; [|lia]. destruct (IH (m + c)) as (r & -> & Hr); try lia.
    exists r. split; [done|]. intros ra rb. rewrite He, <-!app_assoc, lex_app_eq. apply Hr.
  - eexists. split; [done|]. intros ra rb. cbn. rewrite <-!app_assoc. apply lex_app_ne; [lia|done].
Qed.

(** [LexCompare] is the lexicographic order of the bits left. *)
Lemma LexCompare_run : LexCompare a b = Ok (lex (sbits a) (sbits b)).
Proof.
  unfold LexCompare. pose proof (BitsLeft_eq a Ha). pose proof (BitsLeft_eq b Hb).
  pose proof (swf_bits _ Ha). pose proof (swf_bits _ Hb). set (limit := Z.min (BitsLeft a) (BitsLeft b)).
  destruct (lexLoop_ok (Z.to_nat limit) limit 0) as (r & -> & Hr); try lia.
  cbn [mbind outcome_bind]. f_equal.
  specialize (Hr (drop (Z.to_nat limit) (sbits a)) (drop (Z.to_nat limit) (sbits b))).
  unfold wa, wb in Hr. rewrite Z.sub_0_r, !Z.add_0_r, <-!take_sbits, !take_drop in Hr by (done || lia).
  rewrite Hr. destruct r as [x|]; [done|].
  pose proof (len_sbits a Ha) as Hla. pose proof (len_sbits b Hb) as Hlb.
  assert (Hda : len (drop (Z.to_nat limit) (sbits a)) = BitsLeft a - limit) by (unfold len in *; rewrite length_drop; lia).
  assert (Hdb : len (drop (Z.to_nat limit) (sbits b)) = BitsLeft b - limit) by (unfold len in *; rewrite length_drop; lia).
  destruct (drop _ (sbits a)) as [|x l], (drop _ (sbits b)) as [|y k]; rewrite ?len_cons in *;
    change (len (@nil bool)) with 0 in *; cbn [lex].
  - split_cmp; done.
  - pose proof (len_nonneg k). split_cmp; done.
  - pose proof (len_nonneg l). split_cmp; done.
  - pose proof (len_nonneg l). pose proof (len_nonneg k). lia.
Qed.

End two_slices.

(** ** Runs at either end *)

Lemma sameBitsValue_ok v n : 0 <= n <= 64 -> sameBitsValue v n = bits_uint (replicate (Z.to_nat n) v).
Proof.
  intros Hn. assert (H : forall k : nat, bits_uint (replicate k v) = if v then 2 ^ Z.of_nat k - 1 else 0).
  { induction k as [|k IH]; [now destruct v|]. cbn [replicate]. rewrite bits_uint_cons, IH, len_replicate.
    destruct v; cbn [Z.b2z]; [|lia]. rewrite Nat2Z.inj_succ, Z.pow_succ_r by lia. lia. }
  rewrite H, Z2Nat.id by lia. unfold sameBitsValue. destruct v; cbn [negb]; [|done].
  destruct (Z.eqb_spec n 64) as [-> |]; [done|]. rewrite Z.shiftl_1_l.
  pose proof (Z.pow_lt_mono_r 2 n 64). pose proof (Z.pow_pos_nonneg 2 n). unfold u64.
  rewrite (Z.mod_small (2 ^ n)) by lia. apply Z.mod_small. lia.
Qed.

Lemma bit_len_shiftl x n : 0 < x -> 0 <= n -> bit_len (x * 2 ^ n) = bit_len x + n.
Proof.
  intros Hx Hn. unfold bit_len. pose proof (Z.pow_pos_nonneg 2 n).
  destruct (Z.eqb_spec x 0), (Z.eqb_spec (x * 2 ^ n) 0); try nia.
  rewrite !Z.abs_eq by nia. rewrite Z.log2_mul_pow2 by lia. lia.
Qed.

Lemma leading_zeros_chunk x c :
  0 < x < 2 ^ c -> 0 <= c <= 64 -> leading_zeros64 (u64 (x ≪ (64 - c))) = c - bit_len x.
Proof.
  intros Hx Hc. rewrite Z.shiftl_mul_pow2 by lia. pose proof (Z.pow_pos_nonneg 2 (64 - c)).
  assert (2 ^ c * 2 ^ (64 - c) = 2 ^ 64) by (rewrite <-Z.pow_add_r by lia; f_equal; lia).
  unfold leading_zeros64, u64. rewrite Z.mod_small by nia. rewrite bit_len_shiftl by lia. lia.
Qed.

Lemma lxor_zero_iff x y : Z.lxor x y = 0 <-> x = y.
Proof. apply Z.lxor_eq_0_iff. Qed.

Lemma lxor_pair a b x y :
  0 <= a -> 0 <= b ->
  Z.lxor (2 * a + Z.b2z x) (2 * b + Z.b2z y) = 2 * Z.lxor a b + Z.b2z (xorb x y).
Proof.
  intros Ha Hb. apply Z.bits_inj'. intros k Hk. rewrite Z.lxor_spec.
  destruct (Z.eq_dec k 0) as [-> | Hk0].
  - rewrite !Z.testbit_0_r. done.
  - replace k with (Z.succ (k - 1)) by lia. rewrite !Z.testbit_succ_r, Z.lxor_spec by lia. done.
Qed.

(** The lowest bit in which two values differ gives the common suffix. *)
Lemma lcp_rev_lxor l k :
  length l = length k -> bits_uint l <> bits_uint k ->
  forall n, (length l <= n)%nat -> lcp (rev l) (rev k) = trailing_zeros n (Z.lxor (bits_uint l) (bits_uint k)).
Proof.
  revert k. induction l as [|x l IH] using rev_ind; intros k Hl Hne n Hn; [now destruct k|].
  destruct k as [|y k _] using rev_ind; [rewrite length_app in Hl; cbn in Hl; lia|].
  rewrite !length_app in *. cbn in Hl, Hn. rewrite !rev_app_distr. cbn [rev app lcp].
  rewrite !bits_uint_app in *. pose proof (bits_uint_bound l). pose proof (bits_uint_bound k).
  rewrite lxor_pair by lia. destruct n as [|n]; [lia|]. cbn [trailing_zeros].
  rewrite Z.odd_add, Z.odd_mul. cbn [Z.odd andb].
  destruct x, y; cbn [eqb xorb Z.b2z Z.odd]; try done; rewrite Z.add_0_r, Z.mul_comm;
    change (Z.lxor (bits_uint l) (bits_uint k) * 2) with (Z.lxor (bits_uint l) (bits_uint k) * 2 ^ 1);
    rewrite <-Z.shiftl_mul_pow2, Z.shiftr_shiftl_l, Z.sub_diag, Z.shiftl_0_r by lia;
    (rewrite IH with (n := n); [done|lia|intros Heq; apply Hne; lia|lia]).
Qed.

Lemma replicate_split n m (v : bool) :
  0 <= m <= n -> replicate (Z.to_nat n) v = replicate (Z.to_nat m) v ++ replicate (Z.to_nat (n - m)) v.
Proof. intros. rewrite <-replicate_add. f_equal. lia. Qed.

Section one_slice.
  Context (s : Slice) (v : bool).
  Hypothesis Hwf : swf s.
Let w i n := window (s_data s) (s_bitStart s + i) n.

Lemma leadLoop_ok fuel m :
  0 <= m <= BitsLeft s -> BitsLeft s - m <= Z.of_nat fuel ->
  leadLoop fuel s v (BitsLeft s) m =
    Ok (m + lcp (w m (BitsLeft s - m)) (replicate (Z.to_nat (BitsLeft s - m)) v)).
Proof.
  set (n := BitsLeft s).
  revert m. induction fuel as [|fuel IH]; intros m Hm Hf; cbn [leadLoop];
    (destruct (Z.ltb_spec m n);
      [|unfold w; replace (n - m) with 0 by lia; rewrite window_0; cbn [lcp]; f_equal; lia]); [lia|].
  set (c := Z.min 64 (n - m)). rewrite preloadSliceUIntAt_ok by (done || lia). fold (w m c).
  rewrite sameBitsValue_ok by lia. set (r := replicate (Z.to_nat c) v).
  assert (Hs : w m (n - m) = w m c ++ w (m + c) (n - (m + c))).
  { unfold w. rewrite (window_chunk _ _ _ c) by lia. do 2 f_equal; lia. }
  rewrite Hs, (replicate_split (n - m) c) by lia. fold r.
  assert (Hcw : len (w m c) = c) by (apply length_window; lia).
  assert (Hcr : len r = c) by (unfold r; rewrite len_replicate; lia).
  destruct (Z.eqb_spec (bits_uint (w m c)) (bits_uint r)) as [He | Hne]; cbn [negb].
  - apply bits_uint_inj in He; [|lia]. rewrite IH by lia. rewrite He, lcp_app_eq, Hcr.
    replace (n - m - c) with (n - (m + c)) by lia. f_equal; lia.
  - rewrite lcp_app_ne by (lia || congruence). rewrite lcp_lxor by (done || lia).
    pose proof (bits_uint_bound (w m c)) as B1. pose proof (bits_uint_bound r) as B2. rewrite Hcw in B1. rewrite Hcr in B2.
    pose proof (lxor_bound _ _ c ltac:(lia) B1 B2). rewrite leading_zeros_chunk, Hcw; [done| |lia].
    assert (Z.lxor (bits_uint (w m c)) (bits_uint r) <> 0) by now rewrite lxor_zero_iff. lia.
Qed.

Lemma CountLeading_run :
  CountLeading s v = Ok (lcp (sbits s) (replicate (length (sbits s)) v)).
Proof.
  unfold CountLeading. pose proof (BitsLeft_eq s Hwf) as HL. pose proof (swf_bits _ Hwf).
  pose proof (len_sbits s Hwf) as Hl. replace (length (sbits s)) with (Z.to_nat (BitsLeft s)) by (unfold len in Hl; lia).
  destruct (Z.eqb_spec (BitsLeft s) 0) as [H0 |].
  - destruct (sbits s); [done|]. rewrite H0, len_cons in Hl. pose proof (len_nonneg l). lia.
  - rewrite leadLoop_ok by lia. unfold w, sbits. now rewrite Z.sub_0_r, Z.add_0_r, HL.
Qed.

Lemma trailLoop_ok fuel m :
  0 <= m <= BitsLeft s -> BitsLeft s - m <= Z.of_nat fuel ->
  trailLoop fuel s v (BitsLeft s) m =
    Ok (m + lcp (rev (w 0 (BitsLeft s - m))) (replicate (Z.to_nat (BitsLeft s - m)) v)).
Proof.
  set (n := BitsLeft s).
  revert m. induction fuel as [|fuel IH]; intros m Hm Hf; cbn [trailLoop];
    (destruct (Z.ltb_spec m n);
      [|unfold w; replace (n - m) with 0 by lia; rewrite window_0; cbn [rev lcp]; f_equal; lia]); [lia|].
  set (c := Z.min 64 (n - m)). rewrite preloadSliceUIntAt_ok by (done || lia). fold (w (n - m - c) c).
  rewrite sameBitsValue_ok by lia. set (r := replicate (Z.to_nat c) v).
  assert (Hs : w 0 (n - m) = w 0 (n - (m + c)) ++ w (n - m - c) c).
  { unfold w. rewrite (window_chunk _ _ _ (n - (m + c))) by lia. do 2 f_equal; lia. }
  rewrite Hs, rev_app_distr, (replicate_split (n - m) c) by lia. fold r.
  assert (Hcw : len (w (n - m - c) c) = c) by (apply length_window; lia).
  assert (Hcr : len r = c) by (unfold r; rewrite len_replicate; lia).
  assert (Hrr : rev r = r) by (rewrite rev_alt; apply reverse_replicate).
  destruct (Z.eqb_spec (bits_uint (w (n - m - c) c)) (bits_uint r)) as [He | Hne]; cbn [negb].
  - apply bits_uint_inj in He; [|lia]. rewrite IH by lia. rewrite He, Hrr, lcp_app_eq, Hcr.
    replace (n - m - c) with (n - (m + c)) by lia. f_equal; lia.
  - rewrite lcp_app_ne.
    + rewrite <-Hrr at 2. rewrite (lcp_rev_lxor _ _) with (n := 64%nat); [done|unfold len in *; lia|done|unfold len in *; lia].
    + unfold len in *. rewrite length_rev. lia.
    + intros Heq. apply Hne. rewrite <-Hrr in Heq. apply (f_equal (@rev bool)) in Heq. rewrite !rev_involutive in Heq. now rewrite Heq.
Qed.

Lemma CountTrailing_run :
  CountTrailing s v = Ok (lcp (rev (sbits s)) (replicate (length (sbits s)) v)).
Proof.
  unfold CountTrailing. pose proof (BitsLeft_eq s Hwf) as HL. pose proof (swf_bits _ Hwf).
  pose proof (len_sbits s Hwf) as Hl. replace (length (sbits s)) with (Z.to_nat (BitsLeft s)) by (unfold len in Hl; lia).
  destruct (Z.eqb_spec (BitsLeft s) 0) as [H0 |].
  - destruct (sbits s); [done|]. rewrite H0, len_cons in Hl. pose proof (len_nonneg l). lia.
  - rewrite trailLoop_ok by lia. unfold w, sbits. now rewrite Z.sub_0_r, Z.add_0_r, HL.
Qed.

End one_slice.

(** ** Equality of bit ranges *)

Lemma window_eq_iff d e a b n :
  window d a n = window e b n <-> forall i, 0 <= i < n -> bit d (a + i) = bit e (b + i).
Proof.
  split; [|apply window_ext]. intros H i Hi. apply (f_equal (fun l => nth (Z.to_nat i) l false)) in H.
  rewrite !nth_window_Z in H by lia. revert H. split_cmp. done.
Qed.

Lemma bool_decide_of (c : bool) (P : Prop) `{!Decision P} : (c = true <-> P) -> c = bool_decide P.
Proof.
  intros [H1 H2]. destruct (bool_decide_reflect P) as [HP | HP]; [now apply H2|].
  destruct c; [|done]. contradict HP. now apply H1.
Qed.

(** Masked bytes agree when they agree on the bits of the mask. *)
Lemma land_mask_eq d e i j mask lo hi :
  0 <= i -> 0 <= j -> 0 <= lo -> hi <= 8 ->
  (forall k, 0 <= k < 8 -> Z.testbit mask (7 - k) = (lo <=? k) && (k <? hi)) -> byte_ok mask ->
  (Z.land (byte_at d i) mask =? Z.land (byte_at e j) mask) = true <->
  forall k, lo <= k < hi -> bit d (8 * i + k) = bit e (8 * j + k).
Proof.
  intros Hi Hj Hlo Hhi Hm Hmb. rewrite Z.eqb_eq. split.
  - intros H k Hk. apply (f_equal (fun z => Z.testbit z (7 - k))) in H. rewrite !Z.land_spec, Hm in H by lia.
    revert H. split_cmp. cbn [andb]. rewrite !andb_true_r. unfold bit.
    replace ((8 * i + k) / 8) with i by lia. replace ((8 * j + k) / 8) with j by lia.
    replace (7 - (8 * i + k) mod 8) with (7 - k) by lia. now replace (7 - (8 * j + k) mod 8) with (7 - k) by lia.
  - intros H. apply Z.bits_inj'. intros k Hk. rewrite !Z.land_spec. destruct (Z.ltb_spec k 8).
    + replace k with (7 - (7 - k)) by lia. rewrite Hm by lia. destruct (Z.leb_spec lo (7 - k)), (Z.ltb_spec (7 - k) hi);
        cbn [andb]; rewrite ?andb_false_r; try done. rewrite !andb_true_r. specialize (H (7 - k) ltac:(lia)). unfold bit in H.
      replace ((8 * i + (7 - k)) / 8) with i in H by lia. replace ((8 * j + (7 - k)) / 8) with j in H by lia.
      replace (7 - (8 * i + (7 - k)) mod 8) with (7 - (7 - k)) in H by lia.
      now replace (7 - (8 * j + (7 - k)) mod 8) with (7 - (7 - k)) in H by lia.
    + now rewrite (testbit_above mask 8), !andb_false_r by lia.
Qed.

Lemma take_eq_bits l r n :
  bytes_ok l -> bytes_ok r -> 0 <= n <= len l -> n <= len r ->
  take (Z.to_nat n) l = take (Z.to_nat n) r <-> forall i, 0 <= i < 8 * n -> bit l i = bit r i.
Proof.
  intros Hl Hr Hnl Hnr. split.
  - intros H i Hi. rewrite <-(bit_take l n), <-(bit_take r n), H by lia. done.
  - intros H. pose proof (len_take l n Hnl) as E1. pose proof (len_take r n ltac:(lia)) as E2.
    apply bytes_eq_bits; [now apply Forall_take..|unfold len in *; lia|].
    rewrite E1. intros i Hi. rewrite !bit_take by lia. now apply H.
Qed.

Lemma bitsEqualTail_ok l r n :
  bytes_ok l -> bytes_ok r -> 0 <= n -> n <= 8 * len l -> n <= 8 * len r ->
  bitsEqualTail l r n = Ok (bool_decide (window l 0 n = window r 0 n)).
Proof.
  intros Hl Hr Hn Hnl Hnr. unfold bitsEqualTail. rewrite !subrange_prefix by lia. cbn [mbind outcome_bind].
  pose proof (take_eq_bits l r (n / 8) Hl Hr ltac:(lia) ltac:(lia)) as Ht.
  destruct (bool_decide_reflect (take (Z.to_nat (n / 8)) l = take (Z.to_nat (n / 8)) r)) as [Heq | Hne]; cbn [negb].
  - pose proof (proj1 Ht Heq) as Hw. destruct (Z.eqb_spec (n mod 8) 0).
    + f_equal. apply bool_decide_of. split; [|done]. intros _. apply window_ext. intros i Hi. apply Hw. lia.
    + rewrite !index_ok by lia. cbn [mbind outcome_bind]. f_equal. apply bool_decide_of.
      rewrite (land_mask_eq l r (n / 8) (n / 8) _ 0 (n mod 8)), window_eq_iff; try lia; [|..|apply byte_ok_u8].
      * split; intros H i Hi.
        -- destruct (Z.ltb_spec i (8 * (n / 8))); [apply Hw; lia|]. specialize (H (i - 8 * (n / 8)) ltac:(lia)).
           now replace (8 * (n / 8) + (i - 8 * (n / 8))) with (0 + i) in H by lia.
        -- apply (H (8 * (n / 8) + i)). lia.
      * intros k Hk. autorewrite with bitdb. split_cmp; done.
  - f_equal. symmetry. apply bool_decide_eq_false_2. rewrite window_eq_iff. intros H. apply Hne, Ht.
    intros i Hi. apply (H i). lia.
Qed.

Lemma bit_drop1 d i : 0 <= i -> bit (drop 1 d) i = bit d (8 + i).
Proof.
  intros. unfold bit, byte_at. rewrite nth_drop. f_equal; [f_equal|]; lia.
Qed.

Lemma bitsEqualSameOffset_ok l r o n :
  bytes_ok l -> bytes_ok r -> 0 <= o < 8 -> 0 <= n -> o + n <= 8 * len l -> o + n <= 8 * len r ->
  bitsEqualSameOffset l r o n = Ok (bool_decide (window l o n = window r o n)).
Proof.
  intros Hl Hr Ho Hn Hnl Hnr. unfold bitsEqualSameOffset. destruct (Z.eqb_spec n 0) as [-> |]; [done|].
  destruct (Z.eqb_spec o 0) as [-> | Ho0]; cbn [negb]; [apply bitsEqualTail_ok; done || lia|].
  rewrite !index_ok by lia. cbn [mbind outcome_bind]. set (h := Z.min n (8 - o)). set (mask := Z.land (u8 (255 ≫ o)) _).
  assert (Hm : forall k, 0 <= k < 8 -> Z.testbit mask (7 - k) = (o <=? k) && (k <? o + h)).
  { intros k Hk. unfold mask. autorewrite with bitdb. split_cmp; done. }
  pose proof (land_mask_eq l r 0 0 mask o (o + h) ltac:(lia) ltac:(lia) ltac:(lia) ltac:(lia) Hm ltac:(unfold mask; auto with bytes)) as Hh.
  destruct (Z.eqb_spec (Z.land (byte_at l 0) mask) (Z.land (byte_at r 0) mask)) as [He | He]; cbn [negb].
  - assert (Hhead : forall k, o <= k < o + h -> bit l k = bit r k) by now apply Hh.
    destruct (Z.eqb_spec (n - h) 0).
    + f_equal. apply bool_decide_of. split; [|done]. intros _. apply window_ext. intros i Hi. apply Hhead. lia.
    + rewrite !subrange_ok by lia. cbn [mbind outcome_bind]. change (Z.to_nat 1) with 1%nat.
      rewrite !take_ge by (rewrite length_drop; unfold len; lia).
      assert (Hd : forall d : list Z, 1 <= len d -> len (drop 1 d) = len d - 1) by (intros; unfold len in *; rewrite length_drop; lia).
      rewrite bitsEqualTail_ok by (try (now apply Forall_drop); rewrite ?Hd by lia; lia).
      f_equal. apply bool_decide_ext. rewrite !window_eq_iff. split; intros H i Hi.
      * destruct (Z.ltb_spec i h); [apply Hhead; lia|]. specialize (H (i - h) ltac:(lia)).
        rewrite !bit_drop1 in H by lia. now replace (8 + (0 + (i - h))) with (o + i) in H by lia.
      * rewrite !bit_drop1 by lia. specialize (H (h + i) ltac:(lia)). now replace (o + (h + i)) with (8 + (0 + i)) in H by lia.
  - f_equal. symmetry. apply bool_decide_eq_false_2. rewrite window_eq_iff. intros H.
    enough (false = true) by done. apply Hh. intros k Hk. specialize (H (k - o) ltac:(lia)).
    now replace (o + (k - o)) with (8 * 0 + k) in H by lia.
Qed.

Section equal_at.
  Context (a b : Slice).
  Hypothesis Ha : swf a.
  Hypothesis Hb : swf b.

Lemma bitsEqualLoop_ok fuel i j n m :
  0 <= i -> 0 <= j -> 0 <= m <= n -> i + n <= BitsLeft a -> j + n <= BitsLeft b -> n - m <= Z.of_nat fuel ->
  bitsEqualLoop fuel a b i j n m =
    Ok (bool_decide (window (s_data a) (s_bitStart a + i + m) (n - m) =
                     window (s_data b) (s_bitStart b + j + m) (n - m))).
Proof.
  intros Hi Hj. revert m. induction fuel as [|fuel IH]; intros m Hm Hla Hlb Hf; cbn [bitsEqualLoop];
    (destruct (Z.ltb_spec m n); [|replace (n - m) with 0 by lia; now rewrite !window_0]); [lia|].
  set (c := Z.min 64 (n - m)). rewrite !preloadSliceUIntAt_ok by (done || lia). rewrite !Z.add_assoc.
  set (x := window (s_data a) (s_bitStart a + i + m) c). set (y := window (s_data b) (s_bitStart b + j + m) c).
  assert (Hx : len x = c) by (apply length_window; lia). assert (Hy : len y = c) by (apply length_window; lia).
  rewrite (window_chunk (s_data a) _ (n - m) c), (window_chunk (s_data b) _ (n - m) c) by lia. fold x y.
  destruct (Z.eqb_spec (bits_uint x) (bits_uint y)) as [He | Hne]; cbn [negb].
  - apply bits_uint_inj in He; [|lia]. rewrite IH by lia. rewrite He. f_equal. apply bool_decide_ext.
    rewrite !Z.add_assoc. replace (n - (m + c)) with (n - m - c) by lia. split; [now intros ->|]. apply app_inv_head.
  - f_equal. symmetry. apply bool_decide_eq_false_2. intros Heq. apply Hne.
    apply app_inj_1 in Heq as [-> _]; [done|]. unfold len in *. lia.
Qed.

Lemma bitsEqualAt_ok i j n :
  0 <= i -> 0 <= j -> 0 <= n -> i + n <= BitsLeft a -> j + n <= BitsLeft b ->
  bitsEqualAt a b i j n =
    Ok (bool_decide (window (s_data a) (s_bitStart a + i) n = window (s_data b) (s_bitStart b + j) n)).
Proof.
  intros Hi Hj Hn Hla Hlb. unfold bitsEqualAt. rewrite (BitsLeft_eq a Ha) in *. rewrite (BitsLeft_eq b Hb) in *.
  destruct (Ha) as [Hok1 Hb1 He1 Hd1 _ _]. destruct (Hb) as [Hok2 Hb2 He2 Hd2 _ _].
  destruct (Z.eqb_spec ((s_bitStart a + i) mod 8) ((s_bitStart b + j) mod 8)) as [Hs | Hs].
  - rewrite !subrange_ok by lia. cbn [mbind outcome_bind]. rewrite !take_ge by (rewrite length_drop; unfold len; lia).
    assert (Hd : forall (d : list Z) k, 0 <= k <= len d -> len (drop (Z.to_nat k) d) = len d - k)
      by (intros; unfold len in *; rewrite length_drop; lia).
    rewrite bitsEqualSameOffset_ok; try (now apply Forall_drop); rewrite ?Hd by lia; try lia.
    f_equal. apply bool_decide_ext. rewrite Hs at 2. rewrite !drop_window_bytes by lia. done.
  - rewrite bitsEqualLoop_ok by (rewrite ?BitsLeft_eq by done; lia). now rewrite !Z.add_0_r, Z.sub_0_r.
Qed.

Lemma prefix_iff_take (l k : list bool) : l `prefix_of` k <-> take (length l) k = l.
Proof.
  split.
  - intros [r ->]. now rewrite take_app_length.
  - intros H. exists (drop (length l) k). rewrite <-H at 1. now rewrite take_drop.
Qed.

Lemma suffix_iff_drop (l k : list bool) :
  l `suffix_of` k <-> (length l <= length k)%nat /\ drop (length k - length l) k = l.
Proof.
  split.
  - intros [r ->]. rewrite length_app. split; [lia|]. now rewrite Nat.add_sub, drop_app_length.
  - intros [Hle H]. exists (take (length k - length l) k). rewrite <-H at 2. now rewrite take_drop.
Qed.

Lemma IsPrefixOf_run : IsPrefixOf a b = Ok (bool_decide (sbits a `prefix_of` sbits b)).
Proof.
  unfold IsPrefixOf. pose proof (len_sbits a Ha) as La. pose proof (len_sbits b Hb) as Lb.
  pose proof (len_nonneg (sbits a)). destruct (Z.ltb_spec (BitsLeft b) (BitsLeft a)).
  - f_equal. symmetry. apply bool_decide_eq_false_2. intros Hp%prefix_length. unfold len in *. lia.
  - rewrite bitsEqualAt_ok by lia. rewrite !Z.add_0_r. f_equal. apply bool_decide_ext.
    rewrite prefix_iff_take. replace (length (sbits a)) with (Z.to_nat (BitsLeft a)) by (unfold len in La; lia).
    rewrite take_sbits by (done || lia). unfold sbits. rewrite <-BitsLeft_eq by done. split; congruence.
Qed.

Lemma IsSuffixOf_run : IsSuffixOf a b = Ok (bool_decide (sbits a `suffix_of` sbits b)).
Proof.
  unfold IsSuffixOf. pose proof (len_sbits a Ha) as La. pose proof (len_sbits b Hb) as Lb.
  pose proof (len_nonneg (sbits a)). destruct (Z.ltb_spec (BitsLeft b) (BitsLeft a)).
  - f_equal. symmetry. apply bool_decide_eq_false_2. intros Hp%suffix_length. unfold len in *. lia.
  - rewrite bitsEqualAt_ok by lia. rewrite !Z.add_0_r. f_equal. apply bool_decide_ext.
    rewrite suffix_iff_drop. replace (length (sbits b) - length (sbits a))%nat with (Z.to_nat (BitsLeft b - BitsLeft a))
      by (unfold len in *; lia).
    assert (Hdb : drop (Z.to_nat (BitsLeft b - BitsLeft a)) (sbits b) =
                  window (s_data b) (s_bitStart b + (BitsLeft b - BitsLeft a)) (BitsLeft a)).
    { unfold sbits. rewrite drop_window by (rewrite <-BitsLeft_eq by done; lia).
      rewrite <-(BitsLeft_eq b Hb). f_equal; lia. }
    assert (Hsa : sbits a = window (s_data a) (s_bitStart a) (BitsLeft a)) by now rewrite (BitsLeft_eq a Ha).
    rewrite Hdb, <-Hsa. unfold len in *. split; [intros <-; split; [lia|done]|now intros [_ ->]].
Qed.

Lemma BitsEqual_run : BitsEqual a b = Ok (bool_decide (sbits a = sbits b)).
Proof.
  unfold BitsEqual. pose proof (len_sbits a Ha) as La. pose proof (len_sbits b Hb) as Lb.
  pose proof (len_nonneg (sbits a)). destruct (Z.eqb_spec (BitsLeft a) (BitsLeft b)) as [He | He].
  - rewrite bitsEqualAt_ok by lia. rewrite !Z.add_0_r. f_equal. apply bool_decide_ext.
    unfold sbits. rewrite <-!BitsLeft_eq by done. now rewrite He.
  - f_equal. symmetry. apply bool_decide_eq_false_2. intros Heq. rewrite Heq in La. lia.
Qed.

End equal_at.

(** ** Theorems *)

(** Two slices of the bytes A5 C0 for the concrete checks: twelve bits, and the
    ten bits after the second. *)
Definition sample_cell : Cell := mkCell [165; 192] 12 false 0 [] [] [].
Definition sample_a : Slice := newSliceFromCell sample_cell.
Definition sample_b : Slice := skip sample_a 2.

Lemma sample_a_swf : swf sample_a.
Proof.
  split; [|vm_compute; repeat split; discriminate..].
  repeat (apply bytes_ok_cons; split; [lia|]). apply Forall_nil_2.
Qed.

Lemma sample_b_swf : swf sample_b.
Proof. apply swf_skip; [apply sample_a_swf|]. vm_compute. split; discriminate. Qed.

(** [LexCompare] of two well-formed slices, which compares 64-bit chunks, is the
    lexicographic order of the bits they have left, a proper prefix first. *)
Theorem lex_compare_correct a b :
  swf a -> swf b -> LexCompare a b = Ok (lex (sbits a) (sbits b)).
Proof. apply LexCompare_run. Qed.

Example lex_compare_correct_witness : LexCompare sample_a sample_b = Ok 1.
Proof. rewrite (lex_compare_correct sample_a sample_b sample_a_swf sample_b_swf). reflexivity. Defined.

(** [commonSlicePrefix] returns the length of the longest common prefix of the
    first [limit] bits, and fails only when the first slice is shorter than that. *)
Theorem common_prefix_correct a b limit :
  swf a -> swf b -> 0 <= limit <= BitsLeft b ->
  commonSlicePrefix a b limit =
    if BitsLeft a <? limit then Err (ErrNotEnoughData (BitsLeft a) limit)
    else Ok (lcp (take (Z.to_nat limit) (sbits a)) (take (Z.to_nat limit) (sbits b))).
Proof. intros Ha Hb. now apply commonSlicePrefix_run. Qed.

Example common_prefix_correct_witness : commonSlicePrefix sample_a sample_b 8 = Ok 2.
Proof.
  rewrite (common_prefix_correct sample_a sample_b 8 sample_a_swf sample_b_swf).
  - reflexivity.
  - vm_compute. split; discriminate.
Defined.

(** [CountLeading] and [CountTrailing] are the lengths of the runs of the bit at
    the two ends of the slice. *)
Theorem count_ends_correct s v :
  swf s ->
  CountLeading s v = Ok (lcp (sbits s) (replicate (length (sbits s)) v)) /\
  CountTrailing s v = Ok (lcp (rev (sbits s)) (replicate (length (sbits s)) v)).
Proof. intros H. split; [now apply CountLeading_run|now apply CountTrailing_run]. Qed.

Example count_ends_correct_witness :
  CountLeading sample_a true = Ok 1 /\ CountTrailing sample_b false = Ok 2.
Proof.
  split.
  - rewrite (proj1 (count_ends_correct sample_a true sample_a_swf)). reflexivity.
  - rewrite (proj2 (count_ends_correct sample_b false sample_b_swf)). reflexivity.
Defined.

(** The equality, prefix and suffix tests, which mask bytes when both ranges start
    at the same bit of a byte and compare 64-bit chunks otherwise, decide equality,
    prefix and suffix of the bits left. *)
Theorem range_tests_correct a b :
  swf a -> swf b ->
  BitsEqual a b = Ok (bool_decide (sbits a = sbits b)) /\
  IsPrefixOf a b = Ok (bool_decide (sbits a `prefix_of` sbits b)) /\
  IsSuffixOf a b = Ok (bool_decide (sbits a `suffix_of` sbits b)).
Proof.
  intros Ha Hb. split_and!; [now apply BitsEqual_run|now apply IsPrefixOf_run|now apply IsSuffixOf_run].
Qed.

Example range_tests_correct_witness : IsSuffixOf sample_b sample_a = Ok true.
Proof. rewrite (proj2 (proj2 (range_tests_correct sample_b sample_a sample_b_swf sample_a_swf))). reflexivity. Defined.
