(* ===== verification/CellTheorems.v ===== *)
(** * Theorems on builders and slices

    What each store and load does on every input, how builders and slices turn into each
    other, and the round trip of a cell of fields. *)

From S2P Require Import Prelude Bytes CellModel Builder Finalize BuilderSpec BuilderOps Slice SliceSpec Codec CellHash.
#[local] Open Scope Z_scope.

(** ** A slice turned into a builder *)

Lemma pack_extend n m l :
  len l <= 8 * Z.of_nat n -> (n <= m)%nat -> pack n l ++ replicate (m - n) 0 = pack m l.
Proof.
  intros Hl Hnm. unfold len in Hl. apply pack_unique.
  - apply bytes_ok_app. split; [apply bytes_ok_pack|]. apply Forall_replicate. lia.
  - rewrite length_app, length_pack, length_replicate. lia.
  - intros i Hi. unfold bit. rewrite byte_at_app by lia. unfold len. rewrite length_pack. split_cmp.
    + now rewrite bit_byte, bit_pack by lia.
    + rewrite nth_overflow by lia. unfold byte_at.
      destruct (nth_in_or_default (Z.to_nat (i / 8 - Z.of_nat n)) (replicate (m - n) 0) 0) as [Hin | ->];
        [|apply Z.testbit_0_l].
      apply list_elem_of_In, elem_of_replicate in Hin as [-> _]. apply Z.testbit_0_l.
Qed.

(** The builder that holds the given bits and references. *)
Definition of_bits (bs : list bool) (refs : list Cell) : Builder := mkBuilder (pack 128 bs) (len bs) refs.

Lemma wf_of_bits bs refs : len bs <= 1023 -> len refs <= 4 -> wf (of_bits bs refs) /\ bits (of_bits bs refs) = bs.
Proof.
  intros Hb Hr. pose proof (len_nonneg bs). split.
  - split; unfold of_bits; cbn [b_data b_bitsSz b_refs]; try lia.
    + unfold len. now rewrite length_pack.
    + apply bytes_ok_pack.
    + intros i Hi. destruct (Z.ltb_spec i 1024).
      * rewrite bit_pack by lia. apply nth_overflow. unfold len in *. lia.
      * apply bit_out. unfold len. rewrite length_pack. lia.
  - apply window_eq; cbn [of_bits b_bitsSz]; [lia|done|]. intros i Hi. cbn [of_bits b_data]. rewrite bit_pack by lia. done.
Qed.

Lemma ToBuilder_run s : swf s -> ToBuilder s = Ok (of_bits (sbits s) (srefs s)).
Proof.
  intros Hwf. unfold ToBuilder. pose proof (BitsLeft_eq s Hwf) as HL. pose proof (RefsNum_eq s Hwf) as HR.
  pose proof (len_sbits s Hwf) as Hl. pose proof (swf_bits _ Hwf). pose proof (swf_end _ Hwf).
  rewrite loadSliceInto_run by (done || (apply Forall_replicate; lia) || lia). rewrite len_replicate.
  destruct (Z.ltb_spec (BitsLeft s) (BitsLeft s)); [lia|].
  destruct (Z.ltb_spec (Z.of_nat 128) ((BitsLeft s + 7) / 8)); [lia|]. cbn [fst].
  unfold of_bits, srefs. rewrite Hl, <-HR, drop_replicate, pack_extend; [|rewrite length_window; lia|lia].
  unfold sbits. now rewrite HL.
Qed.

(** [storeSliceView] appends the bits and references a slice has left. *)
Lemma storeSliceView_run s b check :
  swf s -> wf b ->
  storeSliceView s check b =
    if 4 <? len (b_refs b) + RefsNum s then (Err ErrTooMuchRefs, b)
    else if 1023 <? b_bitsSz b + BitsLeft s then (Err ErrNotFit1023, b)
    else if check && existsb (fun ref => maxDepth <=? Depth ref) (srefs s) then (Err ErrCellDepthLimit, b)
    else (Ok tt, append (mkBuilder (b_data b) (b_bitsSz b) (b_refs b ++ srefs s)) (sbits s)).
Proof.
  intros Hs Hwf. unfold storeSliceView. mrun. pose proof (BitsLeft_eq s Hs) as HL. pose proof (RefsNum_eq s Hs) as HR.
  destruct (Hs) as [Hok Hb He Hd Hrs Hre]. pose proof (wf_sz _ Hwf).
  destruct (Z.ltb_spec 4 (len (b_refs b) + RefsNum s)); [done|]. mrun.
  destruct (Z.leb_spec 1024 (b_bitsSz b + BitsLeft s)), (Z.ltb_spec 1023 (b_bitsSz b + BitsLeft s)); try lia; [done|].
  rewrite HR. fold (srefs s). unfold validateCellRefDepthLimit.
  assert (Hst : storeBitRange (s_data s) (s_bitStart s) (BitsLeft s) b = (Ok tt, append b (sbits s))).
  { rewrite storeBitRange_run by (done || lia). unfold sbits. rewrite <-HL.
    destruct (Z.eqb_spec (BitsLeft s) 0) as [-> |]; [now rewrite append_nil|]. split_cmp. done. }
  destruct check; cbn [andb]; mrun; [destruct (existsb _ _); [done|]|]; rewrite (bind_Ok _ _ _ _ _ Hst); done.
Qed.

(** ** Builders *)

(** C17: [StoreUInt] on every 64-bit value and every size: it refuses sizes over 256 and
    values of more than [sz] bits, and otherwise appends exactly the [sz] bits of the
    value, whichever of its boolean, byte-aligned, word-wide and byte-wise paths it
    takes, or refuses it for lack of room without changing the builder. *)
Theorem store_uint_exact b v sz :
  wf b -> 0 <= v < 2 ^ 64 -> 0 <= sz ->
  StoreUInt v sz b =
    if 256 <? sz then (Err ErrTooBigSize, b)
    else if 2 ^ sz <=? v then (Err ErrTooBigValue, b)
    else if 1023 <? b_bitsSz b + sz then (Err ErrNotFit1023, b)
    else (Ok tt, append b (uint_bits sz v)).
Proof.
  intros Hwf Hv Hsz. rewrite StoreUInt_run by done. unfold store_fit. now rewrite length_uint_bits.
Qed.

Example store_uint_exact_witness :
  bits (snd (StoreUInt 5 3 BeginCell)) = [true; false; true].
Proof. rewrite (store_uint_exact BeginCell 5 3 wf_begin); [reflexivity|lia|lia]. Defined.

(** The machine-word stores and the big-integer stores agree: for every 64-bit
    value, [StoreUInt] does what [StoreBigUInt] does and [StoreInt] what
    [StoreBigInt] does, errors included. *)
Theorem store_words_agree b sz :
  wf b -> 0 <= sz ->
  (forall v, 0 <= v < 2 ^ 64 -> StoreUInt v sz b = StoreBigUInt (Some v) sz b) /\
  (forall v, - 2 ^ 63 <= v < 2 ^ 63 -> StoreInt v sz b = StoreBigInt (Some v) sz b).
Proof.
  intros Hwf Hsz. split; intros v Hv.
  - rewrite StoreUInt_run, StoreBigUInt_run by done. now destruct (Z.ltb_spec v 0); [lia|].
  - now rewrite StoreInt_run, StoreBigInt_run.
Qed.

Example store_words_agree_witness : StoreInt (-3) 9 BeginCell = StoreBigInt (Some (-3)) 9 BeginCell.
Proof. apply (proj2 (store_words_agree BeginCell 9 wf_begin ltac:(lia))). lia. Defined.

(** C18: [StoreSlice], whose eight-bytes-a-step loop and byte loop write at any bit
    offset, appends exactly the first [sz] bits of the source, never the stray bits
    after them, and refuses a source that is too short or a result that is too long. *)
Theorem store_slice_exact b bytes sz :
  wf b -> bytes_ok bytes -> 0 <= sz < 2 ^ 64 -> 8 * len bytes < 2 ^ 63 ->
  StoreSlice bytes sz b =
    if sz =? 0 then (Ok tt, b)
    else if 1024 <=? u64 (b_bitsSz b + sz) then (Err ErrNotFit1023, b)
    else if 8 * len bytes <? sz then (Err ErrSmallSlice, b)
    else (Ok tt, append b (window bytes 0 sz)).
Proof. apply StoreSlice_run. Qed.

Example store_slice_exact_witness :
  bits (snd (StoreSlice [255; 170] 11 (append BeginCell [false; true; false]))) =
  [false; true; false] ++ window [255; 170] 0 11.
Proof.
  rewrite (store_slice_exact (append BeginCell [false; true; false]) [255; 170] 11).
  - reflexivity.
  - apply wf_append; [apply wf_begin|]. vm_compute. discriminate.
  - repeat (apply bytes_ok_cons; split; [lia|]). apply Forall_nil_2.
  - lia.
  - reflexivity.
Defined.

(** Storing a slice directly ([StoreSliceFrom], which moves 64 bits a step from any
    source offset to any destination offset) does exactly what turning it into a
    builder and storing that builder does, errors included. *)
Theorem store_slice_view_agrees s b check :
  swf s -> wf b ->
  exists x, ToBuilder s = Ok x /\ storeSliceView s check b = storeBuilder x check b.
Proof.
  intros Hs Hwf. exists (of_bits (sbits s) (srefs s)). split; [now apply ToBuilder_run|].
  pose proof (len_sbits s Hs) as Hl. pose proof (len_srefs s Hs) as Hr. pose proof (BitsLeft_eq s Hs).
  pose proof (RefsNum_eq s Hs). destruct (Hs).
  destruct (wf_of_bits (sbits s) (srefs s)) as [Hx Hbx]; [lia..|].
  rewrite storeSliceView_run, storeBuilder_run by done. rewrite Hbx. cbn [of_bits b_bitsSz b_refs]. now rewrite Hl, Hr.
Qed.

(** Rolling a builder back with [truncateBits] undoes any bits appended since:
    the builder is again exactly what it was, its zero tail included. *)
Theorem truncate_undoes b bs :
  wf b -> b_bitsSz b + len bs <= 1023 -> truncateBits (b_bitsSz b) (append b bs) = (Ok tt, b).
Proof.
  intros Hwf Hfit. pose proof (wf_sz _ Hwf). pose proof (wf_append b bs Hwf Hfit) as Hwf'.
  rewrite truncateBits_run by (done || lia). cbn [append b_bitsSz]. f_equal.
  destruct (Z.leb_spec (b_bitsSz b + len bs) (b_bitsSz b)).
  - destruct bs as [|x bs]; [now apply append_nil|]. rewrite len_cons in *. pose proof (len_nonneg bs). lia.
  - unfold truncated. rewrite bits_append by done. cbn [append b_refs].
    rewrite take_app_length'; [|pose proof (len_bits b Hwf); unfold len in *; lia].
    pose proof (append_nil b Hwf) as Hn. unfold append in Hn. rewrite app_nil_r in Hn.
    change (len []) with 0 in Hn. now rewrite Z.add_0_r in Hn.
Qed.

Example truncate_undoes_witness :
  truncateBits 3 (append (append BeginCell [true; true; false]) [true; false; true]) =
  (Ok tt, append BeginCell [true; true; false]).
Proof.
  apply (truncate_undoes (append BeginCell [true; true; false]) [true; false; true]);
    [apply wf_append; [apply wf_begin|]|]; vm_compute; discriminate.
Defined.

(** A slice over the bits 1 0100 1011 1 of the bytes A5 C0 that starts at bit 1. *)
Definition odd_slice : Slice := skip (newSliceFromCell (mkCell [165; 192] 12 false 0 [] [] [])) 1.

Lemma odd_slice_swf : swf odd_slice.
Proof.
  apply swf_skip; [|vm_compute; split; discriminate].
  split; [|vm_compute; repeat split; discriminate..].
  repeat (apply bytes_ok_cons; split; [lia|]). apply Forall_nil_2.
Qed.

Example store_slice_view_agrees_witness :
  exists x, ToBuilder odd_slice = Ok x /\
    storeSliceView odd_slice true (append BeginCell [true; true]) = storeBuilder x true (append BeginCell [true; true]).
Proof.
  apply (store_slice_view_agrees odd_slice (append BeginCell [true; true]) true odd_slice_swf).
  apply wf_append; [apply wf_begin|]. vm_compute. discriminate.
Defined.

(** ** Slices *)

(** Reading up to 64 bits returns the value of the bits at the front of the slice
    and moves the cursor past them, whichever of the single-bit, byte-aligned,
    eight-byte and nine-byte paths it takes; a read that is too long fails with what
    is left and changes nothing. *)
Theorem load_uint_exact s sz preload :
  swf s -> 0 <= sz <= 64 ->
  loadUintFast sz preload s =
    if BitsLeft s <? sz then (Err (ErrNotEnoughData (BitsLeft s) sz), s)
    else (Ok (bits_uint (take (Z.to_nat sz) (sbits s))), if preload then s else skip s sz).
Proof.
  intros Hs Hsz. rewrite loadUintFast_run by done. destruct (Z.ltb_spec (BitsLeft s) sz); [done|].
  now rewrite take_sbits by (done || lia).
Qed.

Example load_uint_exact_witness : fst (loadUintFast 7 false odd_slice) = Ok 37.
Proof. rewrite (load_uint_exact odd_slice 7 false odd_slice_swf ltac:(lia)). reflexivity. Defined.

(** Copying [sz] bits out of a slice into a buffer leaves the bits, left-aligned
    and padded with zeros, at the front of the buffer and every later byte as it was;
    it fails without effect when the slice or the buffer is too short. *)
Theorem load_slice_exact s buf sz preload :
  swf s -> bytes_ok buf -> 0 <= sz ->
  loadSliceInto buf sz preload s =
    if BitsLeft s <? sz then (Err (ErrNotEnoughData (BitsLeft s) sz), s)
    else if len buf <? (sz + 7) / 8 then (Err ErrShortBuffer, s)
    else (Ok (pack (Z.to_nat ((sz + 7) / 8)) (take (Z.to_nat sz) (sbits s))
              ++ drop (Z.to_nat ((sz + 7) / 8)) buf),
          if preload then s else skip s sz).
Proof.
  intros Hs Hbuf Hsz. rewrite loadSliceInto_run by done. destruct (Z.ltb_spec (BitsLeft s) sz); [done|].
  now rewrite take_sbits by (done || lia).
Qed.

Example load_slice_exact_witness : fst (loadSliceInto [1; 2; 3] 9 false odd_slice) = Ok [75; 128; 3].
Proof.
  rewrite (load_slice_exact odd_slice [1; 2; 3] 9 false odd_slice_swf).
  - reflexivity.
  - repeat (apply bytes_ok_cons; split; [lia|]). apply Forall_nil_2.
  - lia.
Defined.

(** Reading a number through a byte buffer ([LoadBigUInt], [LoadBigInt]) gives the
    unsigned and the two's complement value of the same bits as the machine-word
    reads [LoadUInt] and [LoadInt] of up to 64 bits, errors included. *)
Theorem load_words_agree s sz :
  swf s -> 0 <= sz <= 64 -> LoadUInt sz s = LoadBigUInt sz s /\ LoadInt sz s = LoadBigInt sz s.
Proof.
  intros Hs Hsz. split.
  - unfold LoadUInt. destruct (Z.leb_spec sz 64); [|lia].
    rewrite loadUintFast_run, LoadBigUInt_run by (done || lia). destruct (Z.ltb_spec 256 sz); [lia|done].
  - rewrite LoadInt_run, LoadBigInt_run by (done || lia). destruct (Z.ltb_spec 257 sz); [lia|done].
Qed.

Example load_words_agree_witness : LoadInt 11 odd_slice = LoadBigInt 11 odd_slice.
Proof. apply (proj2 (load_words_agree odd_slice 11 odd_slice_swf ltac:(lia))). Defined.

(** ** Round trips *)

(** A field of a cell: its format and its value. *)
Inductive field : Type :=
  | FBool (v : bool)
  | FUInt (sz v : Z)
  | FInt (sz v : Z)
  | FBigUInt (sz v : Z)
  | FBigInt (sz v : Z)
  | FVarUInt (sz v : Z)
  | FVarInt (sz v : Z)
  | FCoins (v : Z)
  | FSlice (sz : Z) (data : list Z).

Definition store_field (f : field) : M Builder unit :=
  match f with
  | FBool v => StoreBoolBit v
  | FUInt sz v => StoreUInt v sz
  | FInt sz v => StoreInt v sz
  | FBigUInt sz v => StoreBigUInt (Some v) sz
  | FBigInt sz v => StoreBigInt (Some v) sz
  | FVarUInt sz v => StoreBigVarUInt (Some v) sz
  | FVarInt sz v => StoreBigVarInt (Some v) sz
  | FCoins v => StoreCoins v
  | FSlice sz data => StoreSlice data sz
  end.

(** A load of the format of [f]; the value of [f] is not looked at. *)
Definition load_field (f : field) : M Slice field :=
  match f with
  | FBool _ => v ← LoadBoolBit; mret (FBool v)
  | FUInt sz _ => v ← LoadUInt sz; mret (FUInt sz v)
  | FInt sz _ => v ← LoadInt sz; mret (FInt sz v)
  | FBigUInt sz _ => v ← LoadBigUInt sz; mret (FBigUInt sz v)
  | FBigInt sz _ => v ← LoadBigInt sz; mret (FBigInt sz v)
  | FVarUInt sz _ => v ← LoadVarUInt sz; mret (FVarUInt sz v)
  | FVarInt sz _ => v ← LoadVarInt sz; mret (FVarInt sz v)
  | FCoins _ => v ← LoadCoins; mret (FCoins v)
  | FSlice sz _ => v ← loadSlice sz false; mret (FSlice sz v)
  end.

(** The values of each format; the bits of the last byte of a slice past its end are
    zero. *)
Definition field_ok (f : field) : Prop :=
  match f with
  | FBool _ => True
  | FUInt sz v => 0 <= sz <= 64 /\ 0 <= v < 2 ^ sz
  | FInt sz v => 0 <= sz <= 64 /\ - 2 ^ 63 <= v < 2 ^ 63 /\ signed_range v sz = true
  | FBigUInt sz v => 0 <= sz <= 256 /\ 0 <= v < 2 ^ sz
  | FBigInt sz v => 0 <= sz <= 257 /\ signed_range v sz = true
  | FVarUInt sz v => 0 < sz < 2 ^ 60 /\ 0 <= v /\ (bit_len v + 7) / 8 < sz /\ (bit_len v + 7) / 8 <= 32
  | FVarInt sz v => 0 < sz < 2 ^ 60 /\ varIntBytes v < sz /\ varIntBytes v <= 32
  | FCoins v => 0 <= v < 2 ^ 64
  | FSlice sz data => 0 <= sz <= 1023 /\ bytes_ok data /\ len data = (sz + 7) / 8 /\ pack (Z.to_nat ((sz + 7) / 8)) (window data 0 sz) = data
  end.

Fixpoint store_fields (fs : list field) : M Builder unit :=
  match fs with
  | [] => mret tt
  | f :: fs => store_field f ;; store_fields fs
  end.

Fixpoint load_fields (fs : list field) : M Slice (list field) :=
  match fs with
  | [] => mret []
  | f :: fs => v ← load_field f; vs ← load_fields fs; mret (v :: vs)
  end.

(** Stores [bs], which the load takes back as [a]. *)
Definition paired {A} (st : M Builder unit) (ld : M Slice A) (a : A) (bs : list bool) : Prop :=
  (forall b b', wf b -> st b = (Ok tt, b') -> b_bitsSz b + len bs <= 1023 /\ b' = append b bs) /\
  (forall s rest, swf s -> sbits s = bs ++ rest -> ld s = (Ok a, skip s (len bs))).

Lemma codec_paired {A B} (C : Codec A) a (F : A -> B) : cvalid C a -> paired (cstore C a) (v ← cload C; mret (F v)) (F a) (cbits C a).
Proof.
  intros Ha. split.
  - intros b b' Hwf Hst. pose proof (cstore_fits C b a b' Hwf Ha Hst) as Hfit. rewrite (cstore_ok C b a Hwf Ha Hfit) in Hst. by simplify_eq.
  - intros s rest Hs Hb. by rewrite (bind_Ok _ _ _ _ _ (cload_ok C s a rest Hs Ha Hb)).
Qed.

Lemma slice_paired sz data : field_ok (FSlice sz data) -> paired (store_field (FSlice sz data)) (load_field (FSlice sz data)) (FSlice sz data) (window data 0 sz).
Proof.
  intros (Hsz & Hb & Hl & Hp). assert (Hw : len (window data 0 sz) = sz) by (rewrite length_window; lia). split.
  - intros b b' Hwf Hst. cbn [store_field] in Hst. pose proof (wf_sz _ Hwf). rewrite Hw. rewrite StoreSlice_run in Hst by (done || lia).
    destruct (Z.eqb_spec sz 0) as [-> |]; [injection Hst as <-; split; [lia|]; by rewrite append_nil|].
    replace (u64 (b_bitsSz b + sz)) with (b_bitsSz b + sz) in Hst by (unfold u64; rewrite Z.mod_small; lia).
    destruct (Z.leb_spec 1024 (b_bitsSz b + sz)); [done|]. destruct (Z.ltb_spec (8 * len data) sz); [done|]. injection Hst as <-. split; [lia|done].
  - intros s rest Hs Hbits. cbn [load_field]. pose proof (len_sbits s Hs) as Hlen. rewrite Hbits, len_app, Hw in Hlen. pose proof (len_nonneg rest).
    erewrite bind_Ok; [|rewrite loadSlice_run by (done || lia); destruct (Z.ltb_spec (BitsLeft s) sz); [lia|]; reflexivity].
    rewrite <-take_sbits by (done || lia). rewrite Hbits, take_app_le, take_ge, Hp, Hw by (unfold len in Hw; lia). done.
Qed.

Lemma field_paired f : field_ok f -> exists bs, paired (store_field f) (load_field f) f bs.
Proof.
  destruct f as [v|sz v|sz v|sz v|sz v|sz v|sz v|v|sz data]; intros Hf; eexists; [..|by apply slice_paired].
  - exact (codec_paired bool_codec v FBool Hf).
  - exact (codec_paired (uint_codec sz (proj1 Hf)) v (FUInt sz) (proj2 Hf)).
  - exact (codec_paired (int_codec sz (proj1 Hf)) v (FInt sz) (proj2 Hf)).
  - exact (codec_paired (big_uint_codec sz (proj1 Hf)) v (FBigUInt sz) (proj2 Hf)).
  - exact (codec_paired (big_int_codec sz (proj1 Hf)) v (FBigInt sz) (proj2 Hf)).
  - exact (codec_paired (var_uint_codec sz (proj1 Hf)) v (FVarUInt sz) (proj2 Hf)).
  - exact (codec_paired (var_int_codec sz (proj1 Hf)) v (FVarInt sz) (proj2 Hf)).
  - exact (codec_paired coins_codec v FCoins Hf).
Qed.

Lemma fields_paired fs : Forall field_ok fs -> exists bs, paired (store_fields fs) (load_fields fs) fs bs.
Proof.
  induction 1 as [|f fs Hf _ [cs [IHs IHl]]].
  - exists []. split; [intros b b' Hwf [= <-]; change (len []) with 0; pose proof (wf_sz _ Hwf); split; [lia|by rewrite append_nil]|].
    intros s rest _ _. cbn. by rewrite skip_0.
  - destruct (field_paired f Hf) as (bs & Hs & Hl). exists (bs ++ cs). split.
    + intros b b' Hwf Hst. cbn [store_fields] in Hst. apply bind_inv_Ok in Hst as ([] & b1 & H1 & H2). destruct (Hs b b1 Hwf H1) as [Hfit ->].
      destruct (IHs _ _ (wf_append b bs Hwf Hfit) H2) as [Hfit2 ->]. cbn [append b_bitsSz] in Hfit2. rewrite len_app. split; [lia|]. by rewrite append_app by (done || lia).
    + intros s rest Hwf Hb. cbn [load_fields]. rewrite <-app_assoc in Hb. destruct (sbits_skip_app s _ _ Hwf Hb) as [Hwf1 Hb1].
      rewrite (bind_Ok _ _ _ _ _ (Hl s _ Hwf Hb)), (bind_Ok _ _ _ _ _ (IHl _ _ Hwf1 Hb1)), skip_skip, len_app. done.
Qed.

(** C12: Any sequence of fields (booleans, unsigned and signed integers of up to 64 and
    of up to 257 bits, variable-length integers, coins and bit strings), each a value of
    its format, that is stored in a well-formed builder, whose references have level zero
    and are below the depth limit, is read back from the finished cell by the matching
    loads: each returns the value that was stored, the first starts where the first store
    did, and the last ends where the last store did. *)
Theorem fields_roundtrip fs b b' :
  wf b -> Forall shallow (b_refs b) -> Forall field_ok fs -> store_fields fs b = (Ok tt, b') ->
  exists c, EndCell b' = Ok c /\
    load_fields fs (skip (newSliceFromCell c) (b_bitsSz b)) = (Ok fs, skip (newSliceFromCell c) (b_bitsSz b')).
Proof.
  intros Hwf Hr Hf Hst. destruct (fields_paired fs Hf) as (bs & Hs & Hl). destruct (Hs b b' Hwf Hst) as [Hfit ->]. pose proof (wf_append b bs Hwf Hfit) as Hwf'.
  pose proof (EndCellSpecial_ok _ Hwf' Hr) as He. eexists. split; [unfold EndCell; unfold EndCellSpecial in He; by rewrite He|].
  destruct (holds_slice _ _ Hwf' (holds_finished _ Hwf')) as (Hsl & Hb & _). set (c := finished _ _) in *. rewrite bits_append in Hb by done.
  destruct (sbits_skip_app _ _ _ Hsl Hb) as [Hs1 Hb1]. rewrite len_bits in * by done.
  rewrite (Hl _ [] Hs1) by (by rewrite app_nil_r). by rewrite skip_skip.
Qed.

(** A 5-bit operation code, an amount, a signed quantity and nine bits. *)
Definition sample_fields : list field := [FUInt 5 19; FCoins 1000000000; FVarInt 16 (-4711); FSlice 9 [0xA5; 0x80]].
Definition sample_built : Builder := snd (store_fields sample_fields BeginCell).

Example fields_roundtrip_witness :
  exists c, EndCell sample_built = Ok c /\ load_fields sample_fields (newSliceFromCell c) = (Ok sample_fields, skip (newSliceFromCell c) (b_bitsSz sample_built)).
Proof.
  destruct (fields_roundtrip sample_fields BeginCell sample_built) as (c & Hc & Hl).
  - apply wf_begin.
  - apply Forall_nil_2.
  - repeat apply Forall_cons_2; [..|apply Forall_nil_2]; cbn [field_ok].
    + lia.
    + lia.
    + vm_compute. intuition congruence.
    + split; [lia|]. split; [repeat (apply bytes_ok_cons; split; [lia|]); apply Forall_nil_2|]. split; reflexivity.
  - vm_compute. reflexivity.
  - exists c. split; [exact Hc|]. exact Hl.
Defined.

(** The slice of a finished builder from any position on. *)
Lemma holds_slice_from c b n m :
  wf b -> holds c b -> 0 <= n <= b_bitsSz b -> 0 <= m <= len (b_refs b) ->
  let s := mkSlice c n (c_bitsSz c) m (len (c_refs c)) in
  swf s /\ sbits s = drop (Z.to_nat n) (bits b) /\ srefs s = drop (Z.to_nat m) (b_refs b).
Proof.
  intros Hwf Hc Hn Hm s. destruct (holds_slice c b Hwf Hc) as (Hs & Hb & Hr).
  destruct Hc as [Hd Hbz Hrf]. split_and!.
  - destruct Hs. split; unfold s_data in *; cbn in *; rewrite ?Hrf, ?Hbz in *; done || lia.
  - rewrite <-Hb. unfold sbits. cbn. rewrite Z.sub_0_r, drop_window by lia. done.
  - unfold srefs. cbn. rewrite Hrf. apply take_ge. rewrite length_drop. unfold len. lia.
Qed.

(** A [Maybe ^Cell] stored in a builder is read back: no reference as none, a
    reference as the referenced cell, the cursor past the tag bit and, when there is
    one, past the reference. *)
Theorem maybe_ref_roundtrip b r check b' c :
  wf b -> storeMaybeRef r check b = (Ok tt, b') -> holds c b' ->
  let s := mkSlice c (b_bitsSz b) (c_bitsSz c) (len (b_refs b)) (len (c_refs c)) in
  LoadMaybeRef s = (Ok (newSliceFromCell <$> r),
                    mkSlice c (b_bitsSz b') (c_bitsSz c) (len (b_refs b')) (len (c_refs c))).
Proof.
  intros Hwf H Hc s. rewrite storeMaybeRef_run in H by done.
  set (v := match r with Some _ => true | None => false end).
  set (rs := match r with Some x => [x] | None => [] end).
  assert (Hb' : b' = mkBuilder (b_data (append b [v])) (b_bitsSz b + 1) (b_refs b ++ rs) /\
                wf (append b [v]) /\ len (b_refs b) + len rs <= 4 /\ b_bitsSz b + 1 <= 1023).
  { pose proof (wf_refs _ Hwf). subst v rs. destruct r as [x|].
    - change (len [x]) with 1. destruct (Z.leb_spec 1023 (b_bitsSz b)); [done|].
      destruct (check && (maxDepth <=? Depth x)); [done|].
      destruct (Z.leb_spec 4 (len (b_refs b))); [done|]. simplify_eq. split_and!; try done; try lia.
      apply wf_append; [done|change (len [true]) with 1; lia].
    - unfold store_fit in H. change (len [false]) with 1 in H. destruct (Z.ltb_spec 1023 (b_bitsSz b + 1)); [done|].
      simplify_eq. change (len (@nil Cell)) with 0. split_and!; try lia.
      + unfold append. cbn [b_data b_refs]. now rewrite app_nil_r.
      + apply wf_append; [done|change (len [false]) with 1; lia]. }
  destruct Hb' as (-> & Hwf1 & Hr & Hfit).
  pose proof (wf_with_refs _ rs Hwf1 Hr) as Hwf2. pose proof (wf_sz _ Hwf).
  destruct (holds_slice_from c _ (b_bitsSz b) (len (b_refs b)) Hwf2 Hc) as (Hs & Hbits & Hrefs);
    cbn [b_bitsSz b_refs append] in *; rewrite ?len_app in *; try (pose proof (len_nonneg (b_refs b)); pose proof (len_nonneg rs); change (len [v]) with 1; lia).
  fold s in Hs, Hbits, Hrefs. rewrite LoadMaybeRef_run, Hbits, Hrefs by done.
  change (bits _) with (bits (append b [v])). rewrite bits_append by (done || (change (len [v]) with 1; lia)).
  rewrite !drop_app_length' by (try pose proof (len_bits b Hwf); unfold len in *; lia).
  unfold s, skip_ref, skip, with_bitStart, with_refStart. subst v rs. destruct r as [x|]; cbn [fmap option_fmap]; do 2 f_equal; cbn; f_equal.
  change (len (@nil Cell)) with 0. lia.
Qed.

Example maybe_ref_roundtrip_witness :
  let leaf := mkCell [] 0 false 0 [] [] [] in
  let b' := snd (storeMaybeRef (Some leaf) true BeginCell) in
  let c := mkCell (take 1 (b_data b')) 1 false 0 [leaf] [] [] in
  fst (LoadMaybeRef (newSliceFromCell c)) = Ok (Some (newSliceFromCell leaf)).
Proof.
  intros leaf b' c.
  pose proof (maybe_ref_roundtrip BeginCell (Some leaf) true b' c wf_begin eq_refl
                ltac:(split; reflexivity)) as H.
  change (fst (LoadMaybeRef (mkSlice c (b_bitsSz BeginCell) (c_bitsSz c) (len (b_refs BeginCell)) (len (c_refs c))))
          = Ok (Some (newSliceFromCell leaf))).
  cbv zeta in H. rewrite H. reflexivity.
Defined.

(** C36: The variable-length integer stores, on every branch: a value that needs as many
    bytes as the size parameter or more, or that does not fit, is refused with the
    builder untouched, and otherwise the length prefix and the bytes are appended.
    The one exception is [StoreBigVarUInt] with a value of more than 32 bytes: unlike
    [StoreBigVarInt] it reports the size error only after it has stored the prefix. *)
Theorem big_var_stores_exact b v sz :
  wf b -> 0 <= sz < 2 ^ 64 -> bit_len v < 2 ^ 63 ->
  let ln := (bit_len v + 7) / 8 in
  StoreBigVarUInt (Some v) sz b =
    (if sz =? 0 then (Err ErrInvalidSize, b)
     else if v <? 0 then (Err ErrNegative, b)
     else if sz <=? ln then (Err ErrTooBigValue, b)
     else if 1023 <? b_bitsSz b + len (var_uint_bits v sz) then (Err ErrNotFit1023, b)
     else if 32 <? ln then (Err ErrTooBigSize, append b (uint_bits (bit_len (sz - 1)) ln))
     else (Ok tt, append b (var_uint_bits v sz))) /\
  StoreBigVarInt (Some v) sz b =
    (if sz =? 0 then (Err ErrInvalidSize, b)
     else if sz <=? varIntBytes v then (Err ErrTooBigValue, b)
     else if 32 <? varIntBytes v then (Err ErrTooBigSize, b)
     else store_fit b (var_int_bits v sz)).
Proof. intros Hb Hsz Hv. split; [now apply StoreBigVarUInt_run|now apply StoreBigVarInt_run]. Qed.

Example big_var_stores_exact_witness :
  StoreBigVarUInt (Some (2 ^ 256)) 64 BeginCell = (Err ErrTooBigSize, append BeginCell (uint_bits 6 33)) /\
  StoreBigVarInt (Some (2 ^ 256)) 64 BeginCell = (Err ErrTooBigSize, BeginCell).
Proof. exact (big_var_stores_exact BeginCell (2 ^ 256) 64 wf_begin ltac:(lia) ltac:(reflexivity)). Defined.
