(* ===== verification/DictLabel.v ===== *)
(** * Dictionary labels

    Models [tvm/cell/dict_label.go]: the three label encodings of a Patricia-tree
    edge ([hml_short], [hml_long], [hml_same]), read in 8-bit and 64-bit chunks
    and written in the shortest form. *)

From S2P Require Import Prelude Bytes CellModel Builder BuilderSpec BuilderOps Slice SliceSpec Codec SliceCompare.
#[local] Open Scope Z_scope.

Definition dictLabelSizeBits (maxLen : Z) : Z := bit_len maxLen.

(** ** Reading *)

(** The chunk loop of [loadUnaryLength]; [fuel] bounds its steps. *)
Fixpoint unaryLoop (fuel : nat) (ln chunkSize : Z) : M Slice Z :=
  loader ← get_state;
  let chunk := Z.min chunkSize (BitsLeft loader) in
  guard_err (chunk =? 0) (ErrNotEnoughData 0 1) ;;
  v ← loadUintFast chunk true;
  let ones := leading_zeros64 (2 ^ 64 - 1 - u64 (v ≪ (64 - chunk))) in
  if ones <? chunk then
    SkipBits (ones + 1) ;;
    mret (ln + ones)
  else
    SkipBits chunk ;;
    match fuel with
    | O => lift Panic
    | S fuel => unaryLoop fuel (ln + chunk) 64
    end.

Definition loadUnaryLength : M Slice Z :=
  first ← LoadUInt 1;
  if first =? 0 then mret 0
  else
    loader ← get_state;
    unaryLoop (Z.to_nat (BitsLeft loader)) 1 8.

(** [storeSliceFromSlice] moves the source cursor before the store. *)
Definition storeSliceFromSlice (sz : Z) : M (Builder * Slice) unit :=
  p ← get_state;
  let slice := snd p in
  let left := BitsLeft slice in
  guard_err (left <? sz) (ErrNotEnoughData left sz) ;;
  let start := s_bitStart slice in
  on_snd (advance sz false) ;;
  on_fst (storeBitRange (s_data slice) start sz).

(** [loadLabel]: the label's bits go to the key builder; the result is their number. *)
Definition loadLabel (sz : Z) : M (Builder * Slice) Z :=
  first ← on_snd (LoadUInt 1);
  if first =? 0 then
    ln ← on_snd loadUnaryLength;
    guard_err (sz <? ln) ErrLabelExceedsKeyBits ;;
    storeSliceFromSlice ln ;;
    mret ln
  else
    second ← on_snd (LoadUInt 1);
    let bitsLen := dictLabelSizeBits sz in
    if second =? 0 then
      ln ← on_snd (LoadUInt bitsLen);
      guard_err (sz <? ln) ErrLabelExceedsKeyBits ;;
      storeSliceFromSlice ln ;;
      mret ln
    else
      bitType ← on_snd (LoadUInt 1);
      ln ← on_snd (LoadUInt bitsLen);
      guard_err (sz <? ln) ErrLabelExceedsKeyBits ;;
      on_fst (StoreSameBit (bitType =? 1) ln) ;;
      mret ln.

(** ** Matching a key against a label

    The state is the label's slice and the key's slice. *)

Definition consumeCommonPrefix (limit : Z) : M (Slice * Slice) Z :=
  p ← get_state;
  let limit := Z.min limit (BitsLeft (snd p)) in
  if limit =? 0 then mret 0 else
  matched ← lift (commonSlicePrefix (fst p) (snd p) limit);
  let consumed := if matched <? limit then matched + 1 else matched in
  on_fst (SkipBits consumed) ;;
  on_snd (SkipBits consumed) ;;
  mret matched.

Fixpoint samePrefixLoop (fuel : nat) (bit : bool) (limit matched : Z) : M Slice Z :=
  if matched <? limit then
    match fuel with
    | O => lift Panic
    | S fuel =>
        key ← get_state;
        let chunk := Z.min 64 (limit - matched) in
        value ← lift (preloadSliceUIntAt key matched chunk);
        let want := sameBitsValue bit chunk in
        if value =? want then samePrefixLoop fuel bit limit (matched + chunk)
        else
          let matched := matched + (chunk - bit_len (Z.lxor value want)) in
          SkipBits (matched + 1) ;;
          mret matched
    end
  else
    SkipBits matched ;;
    mret matched.

Definition consumeSameBitPrefix (bit limit : Z) : M Slice Z :=
  key ← get_state;
  let limit := Z.min limit (BitsLeft key) in
  if limit =? 0 then mret 0
  else samePrefixLoop (Z.to_nat limit) (negb (bit =? 0)) limit 0.

(** [matchLabelPrefix]: the label's length and how much of it the key matches. *)
Definition matchLabelPrefix (sz : Z) : M (Slice * Slice) (Z * Z) :=
  first ← on_fst (LoadUInt 1);
  if first =? 0 then
    ln ← on_fst loadUnaryLength;
    guard_err (sz <? ln) ErrLabelExceedsKeyBits ;;
    p ← get_state;
    guard_err (BitsLeft (fst p) <? ln) (ErrNotEnoughData (BitsLeft (fst p)) ln) ;;
    matched ← consumeCommonPrefix ln;
    mret (ln, matched)
  else
    second ← on_fst (LoadUInt 1);
    let bitsLen := dictLabelSizeBits sz in
    if second =? 0 then
      ln ← on_fst (LoadUInt bitsLen);
      guard_err (sz <? ln) ErrLabelExceedsKeyBits ;;
      p ← get_state;
      guard_err (BitsLeft (fst p) <? ln) (ErrNotEnoughData (BitsLeft (fst p)) ln) ;;
      matched ← consumeCommonPrefix ln;
      mret (ln, matched)
    else
      bitType ← on_fst (LoadUInt 1);
      ln ← on_fst (LoadUInt bitsLen);
      guard_err (sz <? ln) ErrLabelExceedsKeyBits ;;
      matched ← on_snd (consumeSameBitPrefix bitType ln);
      mret (ln, matched).

(** ** Writing *)

Fixpoint sameBitLoop (fuel : nat) (data : Slice) (wantBit : bool) (bitLen offset : Z) : outcome bool :=
  if offset <? bitLen then
    match fuel with
    | O => Panic
    | S fuel =>
        let chunk := Z.min 64 (bitLen - offset) in
        value ← preloadSliceUIntAt data offset chunk;
        if negb (value =? sameBitsValue wantBit chunk) then Ok false
        else sameBitLoop fuel data wantBit bitLen (offset + chunk)
    end
  else Ok true.

Definition dictLabelSliceSameBit (data : Slice) (bitLen : Z) : outcome (Z * bool) :=
  if bitLen =? 0 then Ok (0, true)
  else
    first ← fst (BitAt 0 data);
    same ← sameBitLoop (Z.to_nat bitLen) data (negb (first =? 0)) bitLen 0;
    Ok (if (same : bool) then (first, true) else (0, false)).

Definition storeDictSame (partSz bitsLen bit : Z) : M Builder unit :=
  StoreUInt 3 2 ;;
  StoreUInt bit 1 ;;
  StoreUInt partSz bitsLen.

Definition storeDictLabel (keyLen : Z) : M (Builder * Slice) unit :=
  p ← get_state;
  let data := snd p in
  let ln := BitsLeft data in
  if ln =? 0 then on_fst (StoreUInt 0 2) else
  let bitsLen := dictLabelSizeBits keyLen in
  let longLen := 2 + bitsLen + ln in
  let shortLength := 2 + 2 * ln in
  let sameLength := 3 + bitsLen in
  '(bit, same) ← (if (sameLength <? longLen) && (sameLength <? shortLength)
                  then lift (dictLabelSliceSameBit data ln) else mret (0, false));
  if (same : bool) then
    on_fst (storeDictSame ln bitsLen bit) ;;
    on_snd (SkipBits ln)
  else if shortLength <=? longLen then
    on_fst (StoreUInt 0 1) ;;
    on_fst (StoreSameBit true ln) ;;
    on_fst (StoreUInt 0 1) ;;
    storeSliceFromSlice ln
  else
    on_fst (StoreUInt 2 2) ;;
    on_fst (StoreUInt ln bitsLen) ;;
    storeSliceFromSlice ln.
