(* ===== verification/DictLabelTheorems.v ===== *)
(** * What dictionary labels mean

    The encodings of a label as bit strings, the one the writer chooses, and the
    proofs that the writer produces it and the readers understand all of them. *)

From S2P Require Import Prelude Bytes CellModel Builder BuilderSpec BuilderOps Slice SliceSpec Codec SliceCompare CellTheorems DictLabel.
#[local] Open Scope Z_scope.

(** ** The encodings *)

Definition short_label (l : list bool) : list bool := false :: replicate (length l) true ++ false :: l.
Definition long_label (k : Z) (l : list bool) : list bool := true :: false :: uint_bits (bit_len k) (len l) ++ l.
Definition same_label (k : Z) (b : bool) (n : Z) : list bool := true :: true :: b :: uint_bits (bit_len k) n.

Inductive encodes (k : Z) (l : list bool) : list bool -> Prop :=
  | encodes_short : encodes k l (short_label l)
  | encodes_long : encodes k l (long_label k l)
  | encodes_same b : l = replicate (length l) b -> encodes k l (same_label k b (len l)).

(** The encoding [storeDictLabel] chooses. *)
Definition label_bits (k : Z) (l : list bool) : list bool :=
  let n := len l in
  let bl := bit_len k in
  if n =? 0 then short_label l
  else if (3 + bl <? 2 + bl + n) && (3 + bl <? 2 + 2 * n) &&
          bool_decide (l = replicate (length l) (hd false l))
  then same_label k (hd false l) n
  else if 2 + 2 * n <=? 2 + bl + n then short_label l
  else long_label k l.

Lemma len_short l : len (short_label l) = 2 + 2 * len l.
Proof. unfold short_label. rewrite len_cons, len_app, len_replicate, len_cons. unfold len. lia. Qed.

Lemma len_long k l : len (long_label k l) = 2 + bit_len k + len l.
Proof.
  unfold long_label. rewrite !len_cons, len_app, length_uint_bits by apply bit_len_nonneg. lia.
Qed.

Lemma len_same k b n : len (same_label k b n) = 3 + bit_len k.
Proof. unfold same_label. rewrite !len_cons, length_uint_bits by apply bit_len_nonneg. lia. Qed.

Lemma label_bits_encodes k l : encodes k l (label_bits k l).
Proof.
  unfold label_bits. cbv zeta. destruct (len l =? 0); [constructor|].
  destruct (bool_decide_reflect (l = replicate (length l) (hd false l))) as [H | H]; rewrite ?andb_true_r, ?andb_false_r.
  - destruct (_ && _); [now constructor|]. destruct (_ <=? _); constructor.
  - destruct (_ <=? _); constructor.
Qed.

Lemma label_bits_least k l e : encodes k l e -> len (label_bits k l) <= len e.
Proof.
  intros He. pose proof (bit_len_nonneg k). pose proof (len_nonneg l). unfold label_bits. cbv zeta.
  destruct (Z.eqb_spec (len l) 0).
  { rewrite len_short. destruct He; rewrite ?len_short, ?len_long, ?len_same; lia. }
  destruct (bool_decide_reflect (l = replicate (length l) (hd false l))) as [Hsm | Hsm]; rewrite ?andb_true_r, ?andb_false_r.
  - destruct (Z.ltb_spec (3 + bit_len k) (2 + bit_len k + len l)), (Z.ltb_spec (3 + bit_len k) (2 + 2 * len l));
      cbn [andb]; destruct (Z.leb_spec (2 + 2 * len l) (2 + bit_len k + len l)), He;
      rewrite ?len_short, ?len_long, ?len_same; lia.
  - destruct (Z.leb_spec (2 + 2 * len l) (2 + bit_len k + len l)), He as [| |b Hs];
      rewrite ?len_short, ?len_long, ?len_same; try lia.
    all: exfalso; apply Hsm; rewrite Hs at 1; f_equal; destruct l; [done|cbn in *; congruence].
Qed.

(** ** Reading single fields *)

Lemma LoadUInt_app s sz v rest :
  swf s -> 0 <= sz <= 64 -> 0 <= v < 2 ^ sz -> sbits s = uint_bits sz v ++ rest ->
  LoadUInt sz s = (Ok v, skip s sz) /\ swf (skip s sz) /\ sbits (skip s sz) = rest.
Proof.
  intros Hs Hsz Hv H. pose proof (length_uint_bits sz v ltac:(lia)) as Hl.
  pose proof (cload_ok (uint_codec sz Hsz) s v rest Hs Hv H) as Hc.
  cbn [cload cbits uint_codec fit_codec] in Hc. rewrite Hl in Hc.
  destruct (sbits_skip_app s _ _ Hs H) as [H1 H2]. rewrite Hl in *. done.
Qed.

Lemma LoadUInt_bit s x rest :
  swf s -> sbits s = x :: rest ->
  LoadUInt 1 s = (Ok (Z.b2z x), skip s 1) /\ swf (skip s 1) /\ sbits (skip s 1) = rest.
Proof.
  intros Hs H. apply LoadUInt_app; [done|lia|destruct x; cbn; lia|]. rewrite H. now destruct x.
Qed.

(** A value starts with [m] ones when it is within [2^(c-m)] of [2^c]. *)
Lemma lcp_ones_bounds w :
  let c := len w in
  let m := lcp w (replicate (length w) true) in
  2 ^ c - 2 ^ (c - m) <= bits_uint w /\ (m < c -> bits_uint w < 2 ^ c - 2 ^ (c - m - 1)).
Proof.
  cbv zeta. induction w as [|x w IH]; [done|]. rewrite bits_uint_cons, len_cons. cbn [length replicate lcp].
  pose proof (lcp_bounds w (replicate (length w) true)) as Hm. pose proof (len_nonneg w).
  pose proof (bits_uint_bound w). assert (Hp : 2 ^ (len w + 1) = 2 * 2 ^ len w) by (rewrite Z.pow_add_r; lia).
  destruct x; cbn [eqb Z.b2z].
  - destruct IH as [IH1 IH2]. set (m := lcp w _) in *. replace (len w + 1 - (1 + m)) with (len w - m) by lia.
    split; [lia|]. intros Hlt. specialize (IH2 ltac:(lia)). lia.
  - replace (len w + 1 - 0 - 1) with (len w) by lia. rewrite Z.sub_0_r. split; [lia|]. intros _. lia.
Qed.

(** The number of leading ones the chunk test computes. *)
Lemma leading_ones w :
  len w <= 64 ->
  leading_zeros64 (2 ^ 64 - 1 - u64 (bits_uint w ≪ (64 - len w))) = lcp w (replicate (length w) true).
Proof.
  intros Hl. pose proof (len_nonneg w). pose proof (bits_uint_bound w) as Hb.
  pose proof (lcp_ones_bounds w) as Hlcp. cbv zeta in Hlcp.
  pose proof (lcp_bounds w (replicate (length w) true)) as Hm. set (c := len w) in *. set (m := lcp w _) in *.
  pose proof (Z.pow_pos_nonneg 2 (64 - c)) as Hp.
  assert (Hc : 2 ^ c * 2 ^ (64 - c) = 2 ^ 64) by (rewrite <-Z.pow_add_r by lia; f_equal; lia).
  assert (Hcm : 2 ^ (c - m) * 2 ^ (64 - c) = 2 ^ (64 - m)) by (rewrite <-Z.pow_add_r by lia; f_equal; lia).
  rewrite Z.shiftl_mul_pow2 by lia. unfold u64. rewrite Z.mod_small by nia. unfold leading_zeros64.
  set (x := 2 ^ 64 - 1 - bits_uint w * 2 ^ (64 - c)). assert (Hx : 0 <= x) by (unfold x; nia).
  enough (bit_len x = 64 - m) by lia.
  assert (bit_len x <= 64 - m) by (apply bit_len_le; [done|lia|]; unfold x; nia).
  destruct (Z.eq_dec m 64) as [Hm64 |]; [pose proof (bit_len_nonneg x); lia|].
  enough (~ bit_len x <= 64 - m - 1) by lia. rewrite bit_len_le by lia. unfold x.
  destruct (Z.eq_dec m c) as [Hmc | Hmc].
  - assert (2 ^ (64 - m) = 2 * 2 ^ (64 - m - 1)) by (rewrite <-Z.pow_succ_r by lia; f_equal; lia).
    pose proof (Z.pow_pos_nonneg 2 (64 - m - 1)). rewrite Hmc in *. nia.
  - assert (2 ^ (c - m - 1) * 2 ^ (64 - c) = 2 ^ (64 - m - 1)) by (rewrite <-Z.pow_add_r by lia; f_equal; lia).
    destruct Hlcp as [_ Hlt]. specialize (Hlt ltac:(lia)). nia.
Qed.

(** ** The unary length *)

Lemma SkipBits_run s n :
  swf s -> 0 <= n ->
  SkipBits n s = if BitsLeft s <? n then (Err (ErrNotEnoughData (BitsLeft s) n), s) else (Ok tt, skip s n).
Proof.
  intros Hs Hn. unfold SkipBits. mrun. destruct (Z.ltb_spec (BitsLeft s) n); [done|].
  now rewrite advance_run by (done || lia).
Qed.

Lemma lcp_run_take n rest c :
  0 <= c -> lcp (take (Z.to_nat c) (replicate n true ++ false :: rest)) (replicate (Z.to_nat c) true)
  = Z.min (Z.of_nat n) c.
Proof.
  intros Hc. rewrite <-(Z2Nat.id c) at 3 by done. generalize (Z.to_nat c) as m. clear c Hc. 
  induction n as [|n IH]; intros [|m]; cbn [replicate app take lcp eqb]; try lia. rewrite IH. lia.
Qed.

Lemma unaryLoop_ok fuel s n rest ln cs :
  swf s -> sbits s = replicate n true ++ false :: rest -> (n <= fuel)%nat -> 0 < cs <= 64 ->
  unaryLoop fuel ln cs s = (Ok (ln + Z.of_nat n), skip s (Z.of_nat n + 1)).
Proof.
  revert s n ln cs. induction fuel as [|fuel IH]; intros s n ln cs Hs H Hf Hcs; cbn [unaryLoop]; mrun;
    pose proof (len_sbits s Hs) as Hl; rewrite H, len_app, len_replicate, len_cons in Hl;
    pose proof (len_nonneg rest); set (c := Z.min cs (BitsLeft s)).
  all: destruct (Z.eqb_spec c 0); [lia|].
  all: erewrite bind_Ok; [|rewrite loadUintFast_run by (done || lia); destruct (Z.ltb_spec (BitsLeft s) c); [lia|reflexivity]].
  all: pose proof (length_window (s_data s) (s_bitStart s) c ltac:(lia)) as Hw.
  all: pose proof (leading_ones (window (s_data s) (s_bitStart s) c) ltac:(lia)) as Ho; rewrite Hw in Ho; rewrite Ho; clear Ho.
  all: replace (length (window (s_data s) (s_bitStart s) c)) with (Z.to_nat c) by (unfold len in Hw; lia).
  all: rewrite <-take_sbits, H, lcp_run_take by (done || lia).
  - replace n with 0%nat in * by lia. destruct (Z.ltb_spec (Z.min (Z.of_nat 0) c) c); [|lia].
    rewrite Z.min_l by lia. rewrite (bind_Ok _ _ _ tt (skip s (Z.of_nat 0 + 1))); [done|].
    rewrite SkipBits_run by (done || lia). destruct (Z.ltb_spec (BitsLeft s) (Z.of_nat 0 + 1)); [lia|done].
  - destruct (Z.ltb_spec (Z.min (Z.of_nat n) c) c).
    + rewrite Z.min_l by lia. rewrite (bind_Ok _ _ _ tt (skip s (Z.of_nat n + 1))); [done|].
      rewrite SkipBits_run by (done || lia). destruct (Z.ltb_spec (BitsLeft s) (Z.of_nat n + 1)); [lia|done].
    + rewrite (bind_Ok _ _ _ tt (skip s c)).
      2: { rewrite SkipBits_run by (done || lia). destruct (Z.ltb_spec (BitsLeft s) c); [lia|done]. }
      rewrite (IH (skip s c) (n - Z.to_nat c)%nat); [rewrite skip_skip; f_equal; f_equal; lia|now apply swf_skip; [|lia]| |lia|lia].
      rewrite sbits_skip, H by (done || lia). rewrite drop_app_le by (rewrite length_replicate; lia).
      now rewrite drop_replicate.
Qed.

Lemma loadUnaryLength_ok s n rest :
  swf s -> sbits s = replicate n true ++ false :: rest ->
  loadUnaryLength s = (Ok (Z.of_nat n), skip s (Z.of_nat n + 1)).
Proof.
  intros Hs H. unfold loadUnaryLength. destruct n as [|n].
  - destruct (LoadUInt_bit s false rest Hs H) as (Hl & _). rewrite (bind_Ok _ _ _ _ _ Hl). done.
  - cbn [replicate app] in H. destruct (LoadUInt_bit s true _ Hs H) as (Hl & Hs1 & H1).
    rewrite (bind_Ok _ _ _ _ _ Hl). cbn [Z.b2z Z.eqb]. mrun.
    pose proof (len_sbits _ Hs1) as Hlen. rewrite H1, len_app, len_replicate, len_cons in Hlen.
    pose proof (len_nonneg rest). rewrite (unaryLoop_ok _ _ n rest) by (done || lia).
    rewrite skip_skip. f_equal; f_equal; lia.
Qed.

(** ** Reading a label *)

Lemma storeSliceFromSlice_ok b s sz :
  wf b -> swf s -> 0 <= sz <= BitsLeft s -> b_bitsSz b + sz <= 1023 ->
  storeSliceFromSlice sz (b, s) = (Ok tt, (append b (take (Z.to_nat sz) (sbits s)), skip s sz)).
Proof.
  intros Hb Hs Hsz Hfit. unfold storeSliceFromSlice. mrun. cbn [snd].
  destruct (Z.ltb_spec (BitsLeft s) sz); [lia|].
  rewrite (bind_on_snd _ _ _ _ _ _ (advance_run s sz false Hs Hsz)).
  pose proof (BitsLeft_eq s Hs). destruct (Hs). pose proof (wf_sz _ Hb).
  apply on_fst_run. rewrite storeBitRange_run by (done || lia). rewrite take_sbits by done.
  destruct (Z.eqb_spec sz 0) as [-> |]; [now rewrite append_nil|]. now split_cmp.
Qed.

Lemma store_label_tail b s l rest (k : M (Builder * Slice) Z) :
  wf b -> swf s -> sbits s = l ++ rest -> b_bitsSz b + len l <= 1023 ->
  (storeSliceFromSlice (len l) ;; k) (b, s) = k (append b l, skip s (len l)).
Proof.
  intros Hb Hs H Hfit. pose proof (len_sbits s Hs) as Hl. rewrite H, len_app in Hl.
  pose proof (len_nonneg l). pose proof (len_nonneg rest).
  rewrite (bind_Ok _ _ _ _ _ (storeSliceFromSlice_ok b s (len l) Hb Hs ltac:(lia) Hfit)).
  rewrite H, take_app_length'; [done|]. unfold len. lia.
Qed.

(** [loadLabel] understands every encoding of a label that fits the key. *)
Lemma loadLabel_ok k l e rest b s :
  encodes k l e -> len l <= k < 2 ^ 32 -> wf b -> swf s -> sbits s = e ++ rest ->
  b_bitsSz b + len l <= 1023 ->
  loadLabel k (b, s) = (Ok (len l), (append b l, skip s (len e))).
Proof.
  intros He Hk Hb Hs H Hfit. unfold loadLabel, dictLabelSizeBits. pose proof (len_nonneg l) as Hl0.
  pose proof (bit_len_nonneg k) as Hk0. pose proof (bit_len_bound k ltac:(lia)) as Hkb.
  pose proof (proj2 (bit_len_le k 32 ltac:(lia) ltac:(lia)) ltac:(lia)) as Hk32.
  destruct He as [| |x Hx].
  - unfold short_label in *. cbn [app] in H. rewrite <-app_assoc in H. cbn [app] in H.
    destruct (LoadUInt_bit s false _ Hs H) as (L1 & Hs1 & H1). rewrite (bind_on_snd _ _ _ _ _ _ L1). cbn [Z.b2z Z.eqb].
    pose proof (loadUnaryLength_ok _ _ _ Hs1 H1) as L2. rewrite (bind_on_snd _ _ _ _ _ _ L2). rewrite skip_skip in *.
    mrun. fold (len l). destruct (Z.ltb_spec k (len l)); [lia|].
    assert (H2' : sbits (skip s 1) = (replicate (length l) true ++ [false]) ++ l ++ rest) by now rewrite <-app_assoc.
    destruct (sbits_skip_app _ _ _ Hs1 H2') as [Hs2 H2]. rewrite len_app, len_replicate, skip_skip in *.
    change (len [false]) with 1 in *. fold (len l) in *.
    rewrite (store_label_tail b _ l rest) by done. rewrite skip_skip, len_cons, len_app, len_replicate, len_cons.
    unfold mret, M_ret. do 3 f_equal. fold (len l). lia.
  - unfold long_label in *. cbn [app] in H. rewrite <-app_assoc in H.
    destruct (LoadUInt_bit s true _ Hs H) as (L1 & Hs1 & H1). rewrite (bind_on_snd _ _ _ _ _ _ L1). cbn [Z.b2z Z.eqb].
    destruct (LoadUInt_bit _ false _ Hs1 H1) as (L2 & Hs2 & H2). rewrite (bind_on_snd _ _ _ _ _ _ L2). cbn [Z.b2z Z.eqb].
    destruct (LoadUInt_app _ (bit_len k) (len l) _ Hs2 ltac:(lia) ltac:(lia) H2) as (L3 & Hs3 & H3).
    rewrite (bind_on_snd _ _ _ _ _ _ L3). mrun. destruct (Z.ltb_spec k (len l)); [lia|].
    rewrite (store_label_tail b _ l rest) by done. rewrite !skip_skip, !len_cons, len_app, length_uint_bits by lia.
    unfold mret, M_ret. do 3 f_equal. lia.
  - unfold same_label in *. cbn [app] in H.
    destruct (LoadUInt_bit s true _ Hs H) as (L1 & Hs1 & H1). rewrite (bind_on_snd _ _ _ _ _ _ L1). cbn [Z.b2z Z.eqb].
    destruct (LoadUInt_bit _ true _ Hs1 H1) as (L2 & Hs2 & H2). rewrite (bind_on_snd _ _ _ _ _ _ L2). cbn [Z.b2z Z.eqb].
    destruct (LoadUInt_bit _ x _ Hs2 H2) as (L3 & Hs3 & H3). rewrite (bind_on_snd _ _ _ _ _ _ L3).
    destruct (LoadUInt_app _ (bit_len k) (len l) _ Hs3 ltac:(lia) ltac:(lia) H3) as (L4 & Hs4 & H4).
    rewrite (bind_on_snd _ _ _ _ _ _ L4). mrun. destruct (Z.ltb_spec k (len l)); [lia|].
    erewrite bind_on_fst; [|rewrite StoreSameBit_run by done; apply store_fit_ok; rewrite len_replicate; lia].
    rewrite !skip_skip, !len_cons, length_uint_bits by lia. unfold mret, M_ret. do 3 f_equal; [|lia].
    f_equal. rewrite Hx at 2. f_equal; [unfold len; lia|now destruct x].
Qed.

(** ** Writing a label *)

Lemma StoreUInt_ok b v sz :
  wf b -> 0 <= sz <= 64 -> 0 <= v < 2 ^ sz -> b_bitsSz b + sz <= 1023 ->
  StoreUInt v sz b = (Ok tt, append b (uint_bits sz v)).
Proof.
  intros Hb Hsz Hv Hfit. apply (cstore_ok (uint_codec sz Hsz)); [done..|].
  cbn [cbits uint_codec fit_codec]. rewrite length_uint_bits; lia.
Qed.

Lemma sameBitLoop_ok fuel s v n off :
  swf s -> 0 <= off <= n -> n <= BitsLeft s -> n - off <= Z.of_nat fuel ->
  sameBitLoop fuel s v n off =
    Ok (bool_decide (window (s_data s) (s_bitStart s + off) (n - off) = replicate (Z.to_nat (n - off)) v)).
Proof.
  intros Hs. revert off. induction fuel as [|fuel IH]; intros m Hm Hn Hf; cbn [sameBitLoop];
    (destruct (Z.ltb_spec m n); [|replace (n - m) with 0 by lia; now rewrite window_0]); [lia|].
  set (c := Z.min 64 (n - m)). rewrite preloadSliceUIntAt_ok by (done || lia). cbn [mbind outcome_bind].
  rewrite sameBitsValue_ok by lia. set (w := window _ _ c). set (r := replicate (Z.to_nat c) v).
  assert (Hw : len w = c) by (apply length_window; lia). assert (Hr : len r = c) by (unfold r; rewrite len_replicate; lia).
  rewrite (window_chunk _ _ (n - m) c), (replicate_split (n - m) c) by lia. fold w r.
  destruct (Z.eqb_spec (bits_uint w) (bits_uint r)) as [He | Hne]; cbn [negb].
  - apply bits_uint_inj in He; [|lia]. rewrite IH by lia. rewrite He. f_equal. apply bool_decide_ext.
    replace (s_bitStart s + m + c) with (s_bitStart s + (m + c)) by lia.
    replace (n - m - c) with (n - (m + c)) by lia. split; [now intros ->|]. apply app_inv_head.
  - f_equal. symmetry. apply bool_decide_eq_false_2. intros Heq. apply Hne.
    apply app_inj_1 in Heq as [-> _]; [done|]. unfold len in *. lia.
Qed.

Lemma dictLabelSliceSameBit_ok s :
  swf s -> 0 < BitsLeft s ->
  dictLabelSliceSameBit s (BitsLeft s) =
    Ok (if bool_decide (sbits s = replicate (length (sbits s)) (hd false (sbits s)))
        then (Z.b2z (hd false (sbits s)), true) else (0, false)).
Proof.
  intros Hs Hn. unfold dictLabelSliceSameBit. destruct (Z.eqb_spec (BitsLeft s) 0); [lia|].
  pose proof (BitsLeft_eq s Hs) as HL. destruct (Hs) as [Hok Hb He Hd _ _].
  assert (Hhd : hd false (sbits s) = bit (s_data s) (s_bitStart s)).
  { pose proof (nth_window_Z (s_data s) (s_bitStart s) (s_bitEnd s - s_bitStart s) 0 ltac:(lia)) as Hx.
    fold (sbits s) in Hx. rewrite Z.add_0_r in Hx. change (Z.to_nat 0) with 0%nat in Hx. revert Hx. split_cmp. cbn [andb].
    now destruct (sbits s). }
  unfold BitAt. mrun. destruct (Z.leb_spec (BitsLeft s) 0); [lia|]. rewrite Z.add_0_r, index_ok by lia. mrun.
  rewrite land_bit by lia. cbn [fst mret M_ret mbind outcome_bind]. rewrite <-Hhd.
  rewrite sameBitLoop_ok by (done || lia). cbn [mbind outcome_bind]. f_equal.
  rewrite Z.sub_0_r, Z.add_0_r, HL. fold (sbits s).
  pose proof (len_sbits s Hs) as Hl. replace (Z.to_nat (s_bitEnd s - s_bitStart s)) with (length (sbits s)) by (unfold len in Hl; lia).
  replace (negb (Z.b2z (hd false (sbits s)) =? 0)) with (hd false (sbits s)) by now destruct (hd false (sbits s)).
  done.
Qed.

(** The four stores of each form, one after the other. *)
Lemma store_step {T} b xs ys (t : T) (m : M Builder unit) (k : M (Builder * T) unit) :
  wf b -> b_bitsSz b + len xs + len ys <= 1023 -> m (append b xs) = (Ok tt, append (append b xs) ys) ->
  (on_fst m ;; k) (append b xs, t) = k (append b (xs ++ ys), t).
Proof.
  intros Hb Hfit Hm. rewrite (bind_on_fst _ _ _ _ _ _ Hm), append_app; [done|done|].
  pose proof (len_nonneg ys). lia.
Qed.

(** Side conditions on the length of a partly written label. *)
Ltac label_len :=
  cbn [append b_bitsSz];
  repeat first [rewrite len_app | rewrite len_cons | rewrite len_replicate | rewrite length_uint_bits by lia];
  repeat change (len (@nil bool)) with 0 in *; lia.

Lemma storeDictSame_ok k b x n :
  wf b -> 0 <= n <= k -> k < 2 ^ 32 -> b_bitsSz b + len (same_label k x n) <= 1023 ->
  storeDictSame n (bit_len k) (Z.b2z x) b = (Ok tt, append b (same_label k x n)).
Proof.
  intros Hb Hn Hk Hfit. rewrite len_same in Hfit. pose proof (bit_len_nonneg k) as Hk0.
  pose proof (bit_len_bound k ltac:(lia)) as Hkb.
  pose proof (proj2 (bit_len_le k 32 ltac:(lia) ltac:(lia)) ltac:(lia)) as Hk32.
  unfold storeDictSame. rewrite (bind_Ok _ _ _ _ _ (StoreUInt_ok b 3 2 Hb ltac:(lia) ltac:(lia) ltac:(lia))).
  change (uint_bits 2 3) with [true; true]. assert (Hb1 : wf (append b [true; true])) by (apply wf_append; [done|label_len]).
  assert (Hx : uint_bits 1 (Z.b2z x) = [x]) by now destruct x.
  erewrite bind_Ok; [|apply StoreUInt_ok; [done|lia|destruct x; cbn; lia|label_len]].
  rewrite Hx, append_app by (done || label_len). cbn [app].
  assert (Hb2 : wf (append b [true; true; x])) by (apply wf_append; [done|label_len]).
  rewrite StoreUInt_ok; [|done|lia|lia|label_len].
  rewrite append_app by (done || label_len). done.
Qed.

Lemma store_short_ok b s l :
  wf b -> swf s -> sbits s = l -> b_bitsSz b + len (short_label l) <= 1023 ->
  (on_fst (StoreUInt 0 1) ;; on_fst (StoreSameBit true (len l)) ;; on_fst (StoreUInt 0 1) ;;
   storeSliceFromSlice (len l)) (b, s) = (Ok tt, (append b (short_label l), skip s (len l))).
Proof.
  intros Hb Hs H Hfit. rewrite len_short in Hfit. pose proof (len_nonneg l). pose proof (len_sbits s Hs) as Hl. rewrite H in Hl.
  rewrite (bind_on_fst _ _ _ _ _ _ (StoreUInt_ok b 0 1 Hb ltac:(lia) ltac:(lia) ltac:(lia))).
  change (uint_bits 1 0) with [false]. assert (Hb1 : wf (append b [false])) by (apply wf_append; [done|label_len]).
  set (ones := replicate (Z.to_nat (len l)) true). assert (Ho : len ones = len l) by (unfold ones; rewrite len_replicate; lia).
  rewrite (store_step b [false] ones); [|done|label_len|].
  2: { rewrite StoreSameBit_run by done. apply store_fit_ok. cbn [append b_bitsSz]. change (len [false]) with 1. fold ones. lia. }
  assert (Hb2 : wf (append b ([false] ++ ones))) by (apply wf_append; [done|rewrite len_app, Ho; change (len [false]) with 1; lia]).
  rewrite (store_step b ([false] ++ ones) [false]); [|done|rewrite len_app, Ho; change (len [false]) with 1; lia|].
  2: { rewrite StoreUInt_ok; [done|done|lia|lia|]. cbn [append b_bitsSz]. rewrite len_app, Ho. change (len [false]) with 1. lia. }
  assert (Hlen : len (([false] ++ ones) ++ [false]) = len l + 2) by (rewrite !len_app, Ho; change (len [false]) with 1; lia).
  rewrite storeSliceFromSlice_ok; [|apply wf_append; [done|lia]|done|lia|cbn [append b_bitsSz]; lia].
  rewrite append_app by (done || lia). rewrite H, take_ge by (unfold len; lia). unfold short_label, ones.
  rewrite <-!app_assoc. cbn [app]. unfold len. now rewrite Nat2Z.id.
Qed.

Lemma store_long_ok k b s l :
  wf b -> swf s -> sbits s = l -> len l <= k < 2 ^ 32 -> b_bitsSz b + len (long_label k l) <= 1023 ->
  (on_fst (StoreUInt 2 2) ;; on_fst (StoreUInt (len l) (bit_len k)) ;; storeSliceFromSlice (len l)) (b, s)
  = (Ok tt, (append b (long_label k l), skip s (len l))).
Proof.
  intros Hb Hs H Hk Hfit. rewrite len_long in Hfit. pose proof (len_nonneg l). pose proof (len_sbits s Hs) as Hl. rewrite H in Hl.
  pose proof (bit_len_nonneg k) as Hk0. pose proof (bit_len_bound k ltac:(lia)) as Hkb.
  pose proof (proj2 (bit_len_le k 32 ltac:(lia) ltac:(lia)) ltac:(lia)) as Hk32.
  rewrite (bind_on_fst _ _ _ _ _ _ (StoreUInt_ok b 2 2 Hb ltac:(lia) ltac:(lia) ltac:(lia))).
  change (uint_bits 2 2) with [true; false]. assert (Hb1 : wf (append b [true; false])) by (apply wf_append; [done|label_len]).
  rewrite (store_step b [true; false] (uint_bits (bit_len k) (len l))); [|done|label_len|].
  2: { apply StoreUInt_ok; [done|lia|lia|]. cbn [append b_bitsSz]. change (len [true; false]) with 2. lia. }
  assert (Hlen : len ([true; false] ++ uint_bits (bit_len k) (len l)) = 2 + bit_len k)
    by (rewrite len_app, length_uint_bits by done; change (len [true; false]) with 2; lia).
  rewrite storeSliceFromSlice_ok; [|apply wf_append; [done|lia]|done|lia|cbn [append b_bitsSz]; lia].
  rewrite append_app by (done || lia). rewrite H, take_ge by (unfold len; lia). done.
Qed.

(** A label that fits is stored in its shortest encoding, and its slice consumed. *)
Lemma storeDictLabel_ok k b s :
  wf b -> swf s -> BitsLeft s <= k < 2 ^ 32 -> b_bitsSz b + len (label_bits k (sbits s)) <= 1023 ->
  storeDictLabel k (b, s) = (Ok tt, (append b (label_bits k (sbits s)), skip s (BitsLeft s))).
Proof.
  intros Hb Hs Hk Hfit. unfold storeDictLabel, dictLabelSizeBits, label_bits in *. mrun. cbn [snd]. cbv zeta in *.
  pose proof (len_sbits s Hs) as Hl. rewrite Hl in *. pose proof (BitsLeft_eq s Hs) as HL. pose proof (swf_bits _ Hs) as Hsb.
  destruct (Z.eqb_spec (BitsLeft s) 0) as [H0 | H0].
  { rewrite H0 in *. destruct (sbits s) as [|x l] eqn:E; [|rewrite len_cons in Hl; pose proof (len_nonneg l); lia].
    rewrite len_short in Hfit. change (len (@nil bool)) with 0 in Hfit.
    rewrite (on_fst_run _ _ _ _ _ (StoreUInt_ok b 0 2 Hb ltac:(lia) ltac:(lia) ltac:(lia))).
    now rewrite skip_0. }
  set (P := sbits s = replicate (length (sbits s)) (hd false (sbits s))) in *.
  set (c := (3 + bit_len k <? 2 + bit_len k + BitsLeft s) && (3 + bit_len k <? 2 + 2 * BitsLeft s)) in *.
  assert (Hsel : (if c then lift (dictLabelSliceSameBit s (BitsLeft s)) else mret (0, false) : M (Builder * Slice) (Z * bool)) (b, s)
    = (Ok (if c && bool_decide P then (Z.b2z (hd false (sbits s)), true) else (0, false)), (b, s))).
  { destruct c; cbn [andb]; [|done]. rewrite dictLabelSliceSameBit_ok by (done || lia). done. }
  rewrite (bind_Ok _ _ _ _ _ Hsel). destruct (c && bool_decide P).
  - rewrite (bind_on_fst _ _ _ _ _ _ (storeDictSame_ok k b _ (BitsLeft s) Hb ltac:(lia) ltac:(lia) Hfit)).
    apply on_snd_run. rewrite SkipBits_run by (done || lia). destruct (Z.ltb_spec (BitsLeft s) (BitsLeft s)); [lia|done].
  - destruct (2 + 2 * BitsLeft s <=? 2 + bit_len k + BitsLeft s); rewrite <-Hl in *.
    + apply store_short_ok; done.
    + apply store_long_ok; done || lia.
Qed.

(** * Dictionary labels: matching and the theorems

    The proofs that a key is matched against a label the way the longest common
    prefix says, and the properties of labels: round trip, shortest form, and
    agreement of the reader and the matcher. *)

(** ** Longest common prefixes *)

Lemma lcp_sym l k : lcp l k = lcp k l.
Proof.
  revert k. induction l as [|x l IH]; intros [|y k]; try done. cbn [lcp]. rewrite IH. now destruct x, y.
Qed.

Lemma lcp_take_min l k n :
  Z.min (len l) (len k) <= n -> lcp (take (Z.to_nat n) l) (take (Z.to_nat n) k) = lcp l k.
Proof.
  revert k n. induction l as [|x l IH]; intros [|y k] n Hn; rewrite ?take_nil; try done;
    [now destruct (take _ _)|]. rewrite !len_cons in Hn. pose proof (len_nonneg l). pose proof (len_nonneg k).
  replace (Z.to_nat n) with (S (Z.to_nat (n - 1))) by lia. cbn [take lcp]. now rewrite IH by lia.
Qed.

Lemma lcp_take_app l rest k n :
  n = Z.min (len l) (len k) ->
  lcp (take (Z.to_nat n) (l ++ rest)) (take (Z.to_nat n) k) = lcp l k.
Proof.
  intros ->. rewrite take_app_le by (unfold len; lia). now rewrite lcp_take_min by lia.
Qed.

Lemma SkipBits_ok s n : swf s -> 0 <= n <= BitsLeft s -> SkipBits n s = (Ok tt, skip s n).
Proof.
  intros Hs Hn. rewrite SkipBits_run by (done || lia). destruct (Z.ltb_spec (BitsLeft s) n); [lia|done].
Qed.

(** How far the key's cursor moves: past the first differing bit. *)
Definition consumed (l k : list bool) : Z :=
  let m := lcp l k in if m <? Z.min (len l) (len k) then m + 1 else m.

Lemma consumed_bounds l k : 0 <= consumed l k <= Z.min (len l) (len k).
Proof.
  unfold consumed. cbv zeta. pose proof (lcp_bounds l k). pose proof (lcp_bounds k l). rewrite (lcp_sym k l) in *.
  destruct (Z.ltb_spec (lcp l k) (Z.min (len l) (len k))); lia.
Qed.

(** ** Matching *)

Lemma consumeCommonPrefix_ok s t l rest :
  swf s -> swf t -> sbits s = l ++ rest ->
  consumeCommonPrefix (len l) (s, t)
  = (Ok (lcp l (sbits t)), (skip s (consumed l (sbits t)), skip t (consumed l (sbits t)))).
Proof.
  intros Hs Ht H. unfold consumeCommonPrefix. mrun. cbn [fst snd]. rewrite <-(len_sbits t Ht).
  pose proof (len_sbits s Hs) as Hls. rewrite H, len_app in Hls. pose proof (len_nonneg rest). pose proof (len_nonneg l).
  pose proof (len_nonneg (sbits t)). pose proof (len_sbits t Ht) as Hlt. pose proof (consumed_bounds l (sbits t)) as Hc.
  destruct (Z.eqb_spec (Z.min (len l) (len (sbits t))) 0) as [E | E].
  - assert (Hl : lcp l (sbits t) = 0) by (pose proof (lcp_bounds l (sbits t)); pose proof (lcp_bounds (sbits t) l);
      rewrite (lcp_sym (sbits t)) in *; lia).
    rewrite Hl. replace (consumed l (sbits t)) with 0 by lia. now rewrite !skip_0.
  - rewrite commonSlicePrefix_run by (done || lia). destruct (Z.ltb_spec (BitsLeft s) (Z.min (len l) (len (sbits t)))); [lia|].
    mrun. rewrite H, lcp_take_app by done. fold (consumed l (sbits t)). set (c := consumed _ _) in *.
    rewrite (bind_on_fst _ _ _ _ _ _ (SkipBits_ok s c Hs ltac:(lia))).
    now rewrite (bind_on_snd _ _ _ _ _ _ (SkipBits_ok t c Ht ltac:(lia))).
Qed.

Lemma samePrefixLoop_ok fuel t v limit m :
  swf t -> 0 <= m <= limit -> limit <= BitsLeft t -> limit - m <= Z.of_nat fuel ->
  let n := m + lcp (window (s_data t) (s_bitStart t + m) (limit - m)) (replicate (Z.to_nat (limit - m)) v) in
  samePrefixLoop fuel v limit m t = (Ok n, skip t (if n <? limit then n + 1 else n)).
Proof.
  intros Ht. revert m. induction fuel as [|fuel IH]; intros m Hm Hl Hf; cbn [samePrefixLoop]; cbv zeta;
    (destruct (Z.ltb_spec m limit) as [Hlt | Hge];
     [|replace (limit - m) with 0 by lia; rewrite window_0; cbn [lcp]; rewrite Z.add_0_r;
       destruct (Z.ltb_spec m limit); [lia|]; now rewrite (bind_Ok _ _ _ _ _ (SkipBits_ok t m Ht ltac:(lia)))]); [lia|].
  mrun. set (c := Z.min 64 (limit - m)). rewrite preloadSliceUIntAt_ok by (done || lia). mrun.
  rewrite sameBitsValue_ok by lia. set (w := window _ _ c). set (r := replicate (Z.to_nat c) v).
  assert (Hw : len w = c) by (apply length_window; lia). assert (Hr : len r = c) by (unfold r; rewrite len_replicate; lia).
  rewrite (window_chunk _ _ (limit - m) c), (replicate_split (limit - m) c) by lia. fold w r.
  destruct (Z.eqb_spec (bits_uint w) (bits_uint r)) as [He | Hne].
  - apply bits_uint_inj in He; [|lia]. rewrite IH by lia. rewrite He, lcp_app_eq, Hr, (Z.add_assoc m c (lcp _ _)).
    replace (s_bitStart t + m + c) with (s_bitStart t + (m + c)) by lia.
    now replace (limit - m - c) with (limit - (m + c)) by lia.
  - rewrite lcp_app_ne by (lia || congruence). rewrite <-Hw, <-lcp_lxor by (done || lia).
    assert (Hlcp : lcp w r < c).
    { pose proof (lcp_lxor w r ltac:(lia) Hne) as ->. enough (0 < bit_len (Z.lxor (bits_uint w) (bits_uint r))) by lia.
      pose proof (bit_len_nonneg (Z.lxor (bits_uint w) (bits_uint r))). 
      destruct (Z.eq_dec (bit_len (Z.lxor (bits_uint w) (bits_uint r))) 0) as [E |]; [|lia].
      pose proof (bits_uint_bound w). pose proof (bits_uint_bound r).
      pose proof (proj2 (Z.lxor_nonneg (bits_uint w) (bits_uint r)) ltac:(lia)) as Hx.
      pose proof (bit_len_bound _ Hx) as Hb. rewrite E in Hb. exfalso. apply Hne, Z.lxor_eq. lia. }
    pose proof (lcp_bounds w r). destruct (Z.ltb_spec (m + lcp w r) limit); [|lia].
    now rewrite (bind_Ok _ _ _ _ _ (SkipBits_ok t (m + lcp w r + 1) Ht ltac:(lia))).
Qed.

Lemma consumeSameBitPrefix_ok t (x : bool) n :
  swf t -> 0 <= n ->
  let l := replicate (Z.to_nat n) x in
  consumeSameBitPrefix (Z.b2z x) n t = (Ok (lcp l (sbits t)), skip t (consumed l (sbits t))).
Proof.
  intros Ht Hn. cbv zeta. unfold consumeSameBitPrefix. mrun. set (l := replicate (Z.to_nat n) x).
  assert (Hl : len l = n) by (unfold l; rewrite len_replicate; lia). pose proof (len_sbits t Ht) as Hlt.
  pose proof (len_nonneg (sbits t)). pose proof (lcp_bounds l (sbits t)). pose proof (lcp_bounds (sbits t) l).
  rewrite (lcp_sym (sbits t)) in *. destruct (Z.eqb_spec (Z.min n (BitsLeft t)) 0) as [E | E].
  - assert (Hl0 : lcp l (sbits t) = 0) by lia. pose proof (consumed_bounds l (sbits t)).
    rewrite Hl0. replace (consumed l (sbits t)) with 0 by lia. now rewrite skip_0.
  - set (k := Z.min n (BitsLeft t)) in *.
    replace (negb (Z.b2z x =? 0)) with x by now destruct x.
    rewrite samePrefixLoop_ok by (done || lia). rewrite Z.sub_0_r, Z.add_0_r, Z.add_0_l, <-take_sbits by (done || lia).
    assert (Hk : lcp (take (Z.to_nat k) (sbits t)) (replicate (Z.to_nat k) x) = lcp l (sbits t)).
    { rewrite lcp_sym. replace (replicate (Z.to_nat k) x) with (take (Z.to_nat k) l); [apply lcp_take_min; lia|].
      unfold l. rewrite take_replicate. f_equal. lia. }
    rewrite Hk. unfold consumed. cbv zeta. now rewrite Hl, Hlt.
Qed.

(** The label's cursor ends past the whole label when all of it matched. *)
Lemma matchLabelPrefix_ok k l e rest s t :
  encodes k l e -> len l <= k < 2 ^ 32 -> swf s -> swf t -> sbits s = e ++ rest ->
  exists n, matchLabelPrefix k (s, t) = (Ok (len l, lcp l (sbits t)), (skip s n, skip t (consumed l (sbits t)))) /\
    (lcp l (sbits t) = len l -> n = len e).
Proof.
  intros He Hk Hs Ht H. unfold matchLabelPrefix, dictLabelSizeBits. pose proof (len_nonneg l) as Hl0.
  pose proof (bit_len_nonneg k) as Hk0. pose proof (bit_len_bound k ltac:(lia)) as Hkb.
  pose proof (proj2 (bit_len_le k 32 ltac:(lia) ltac:(lia)) ltac:(lia)) as Hk32.
  assert (Hc : lcp l (sbits t) = len l -> consumed l (sbits t) = len l).
  { intros E. unfold consumed. cbv zeta. rewrite E. destruct (Z.ltb_spec (len l) (Z.min (len l) (len (sbits t)))); lia. }
  destruct He as [| |x Hx].
  - unfold short_label in *. cbn [app] in H. rewrite <-app_assoc in H. cbn [app] in H.
    destruct (LoadUInt_bit s false _ Hs H) as (L1 & Hs1 & H1). rewrite (bind_on_fst _ _ _ _ _ _ L1). cbn [Z.b2z Z.eqb].
    pose proof (loadUnaryLength_ok _ _ _ Hs1 H1) as L2. rewrite (bind_on_fst _ _ _ _ _ _ L2). rewrite skip_skip in *.
    assert (H2' : sbits (skip s 1) = (replicate (length l) true ++ [false]) ++ l ++ rest) by now rewrite <-app_assoc.
    destruct (sbits_skip_app _ _ _ Hs1 H2') as [Hs2 H2]. rewrite len_app, len_replicate, skip_skip in *.
    change (len [false]) with 1 in *. fold (len l) in *. pose proof (len_sbits _ Hs2) as HL. rewrite H2, len_app in HL.
    pose proof (len_nonneg rest). mrun. destruct (Z.ltb_spec k (len l)); [lia|]. cbn [fst].
    destruct (Z.ltb_spec (BitsLeft (skip s (1 + (len l + 1)))) (len l)); [lia|].
    rewrite (bind_Ok _ _ _ _ _ (consumeCommonPrefix_ok _ _ _ _ Hs2 Ht H2)). rewrite skip_skip. eexists. split; [done|].
    intros E. rewrite Hc by done. rewrite len_cons, len_app, len_replicate, len_cons. fold (len l). lia.
  - unfold long_label in *. cbn [app] in H. rewrite <-app_assoc in H.
    destruct (LoadUInt_bit s true _ Hs H) as (L1 & Hs1 & H1). rewrite (bind_on_fst _ _ _ _ _ _ L1). cbn [Z.b2z Z.eqb].
    destruct (LoadUInt_bit _ false _ Hs1 H1) as (L2 & Hs2 & H2). rewrite (bind_on_fst _ _ _ _ _ _ L2). cbn [Z.b2z Z.eqb].
    destruct (LoadUInt_app _ (bit_len k) (len l) _ Hs2 ltac:(lia) ltac:(lia) H2) as (L3 & Hs3 & H3).
    rewrite (bind_on_fst _ _ _ _ _ _ L3). pose proof (len_sbits _ Hs3) as HL. rewrite H3, len_app in HL.
    pose proof (len_nonneg rest). mrun. destruct (Z.ltb_spec k (len l)); [lia|]. cbn [fst].
    destruct (Z.ltb_spec (BitsLeft (skip (skip (skip s 1) 1) (bit_len k))) (len l)); [lia|].
    rewrite (bind_Ok _ _ _ _ _ (consumeCommonPrefix_ok _ _ _ _ Hs3 Ht H3)). rewrite !skip_skip. eexists. split; [done|].
    intros E. rewrite Hc by done. rewrite !len_cons, len_app, length_uint_bits by lia. lia.
  - unfold same_label in *. cbn [app] in H.
    destruct (LoadUInt_bit s true _ Hs H) as (L1 & Hs1 & H1). rewrite (bind_on_fst _ _ _ _ _ _ L1). cbn [Z.b2z Z.eqb].
    destruct (LoadUInt_bit _ true _ Hs1 H1) as (L2 & Hs2 & H2). rewrite (bind_on_fst _ _ _ _ _ _ L2). cbn [Z.b2z Z.eqb].
    destruct (LoadUInt_bit _ x _ Hs2 H2) as (L3 & Hs3 & H3). rewrite (bind_on_fst _ _ _ _ _ _ L3).
    destruct (LoadUInt_app _ (bit_len k) (len l) _ Hs3 ltac:(lia) ltac:(lia) H3) as (L4 & Hs4 & H4).
    rewrite (bind_on_fst _ _ _ _ _ _ L4). mrun. destruct (Z.ltb_spec k (len l)); [lia|].
    pose proof (consumeSameBitPrefix_ok t x (len l) Ht Hl0) as Hcs. cbv zeta in Hcs.
    replace (replicate (Z.to_nat (len l)) x) with l in Hcs by (rewrite Hx at 1; f_equal; unfold len; lia).
    rewrite (bind_on_snd _ _ _ _ _ _ Hcs). rewrite !skip_skip. eexists. split; [done|].
    intros _. rewrite !len_cons, length_uint_bits by lia. lia.
Qed.

(** ** Properties *)

(** C26: A label written by [storeDictLabel] is read back by [loadLabel] from the cell
    it was written to: the same bits are appended to the key, the label's length is
    returned, and the cursor ends where the writer ended. *)
Theorem dict_label_roundtrip k s b key :
  wf b -> swf s -> wf key -> BitsLeft s <= k < 2 ^ 32 ->
  b_bitsSz b + len (label_bits k (sbits s)) <= 1023 -> b_bitsSz key + BitsLeft s <= 1023 ->
  exists b', storeDictLabel k (b, s) = (Ok tt, (b', skip s (BitsLeft s))) /\
    forall c, holds c b' ->
      loadLabel k (key, skip (newSliceFromCell c) (b_bitsSz b))
      = (Ok (BitsLeft s), (append key (sbits s), skip (newSliceFromCell c) (b_bitsSz b'))).
Proof.
  intros Hb Hs Hkey Hk Hfit Hkf. eexists. split; [now apply storeDictLabel_ok|]. intros c Hc.
  destruct (holds_slice c _ (wf_append b _ Hb Hfit) Hc) as (Hcs & Hcb & _). rewrite bits_append in Hcb by done.
  destruct (sbits_skip_app _ _ _ Hcs Hcb) as [Hs1 H1]. rewrite len_bits in * by done.
  pose proof (len_sbits s Hs) as Hl. rewrite <-Hl in *.
  rewrite (loadLabel_ok k (sbits s) (label_bits k (sbits s)) []); [now rewrite skip_skip| |done..| |done].
  - apply label_bits_encodes.
  - now rewrite app_nil_r.
Qed.

Definition sample_label : Slice := mkSlice (mkCell [255; 255; 254] 23 false 0 [] [] []) 2 22 0 0.

Example dict_label_roundtrip_witness :
  exists b', storeDictLabel 64 (BeginCell, sample_label) = (Ok tt, (b', skip sample_label 20)) /\
    loadLabel 64 (BeginCell, newSliceFromCell (mkCell (take (Z.to_nat (usedBytes b')) (b_data b')) (b_bitsSz b') false 0 [] [] []))
    = (Ok 20, (append BeginCell (replicate 20 true), skip (newSliceFromCell
         (mkCell (take (Z.to_nat (usedBytes b')) (b_data b')) (b_bitsSz b') false 0 [] [] [])) (b_bitsSz b'))).
Proof.
  destruct (dict_label_roundtrip 64 sample_label BeginCell BeginCell) as (b' & H & Hc).
  - apply wf_begin.
  - vm_compute. repeat split; try discriminate. repeat (apply bytes_ok_cons; split; [lia|]). apply Forall_nil_2.
  - apply wf_begin.
  - vm_compute. split; [discriminate|reflexivity].
  - vm_compute. discriminate.
  - vm_compute. discriminate.
  - exists b'. split; [exact H|]. assert (Hr : b_refs b' = []).
    { change b' with (fst (snd (Ok tt, (b', skip sample_label (BitsLeft sample_label))))). rewrite <-H. reflexivity. }
    apply (Hc (mkCell _ (b_bitsSz b') false 0 [] [] [])). split; [reflexivity|reflexivity|now rewrite Hr].
Defined.

(** C27: [storeDictLabel] writes a valid encoding of the label, and no encoding of it
    (short, long, or all-same-bit) is shorter. *)
Theorem dict_label_shortest k s b :
  wf b -> swf s -> BitsLeft s <= k < 2 ^ 32 -> b_bitsSz b + len (label_bits k (sbits s)) <= 1023 ->
  exists e b', storeDictLabel k (b, s) = (Ok tt, (b', skip s (BitsLeft s))) /\ bits b' = bits b ++ e /\
    encodes k (sbits s) e /\ forall e', encodes k (sbits s) e' -> len e <= len e'.
Proof.
  intros Hb Hs Hk Hfit. eexists _, _. split; [now apply storeDictLabel_ok|]. rewrite bits_append by done.
  split; [done|]. split; [apply label_bits_encodes|apply label_bits_least].
Qed.

Example dict_label_shortest_witness :
  exists e b', storeDictLabel 64 (BeginCell, sample_label) = (Ok tt, (b', skip sample_label 20)) /\
    bits b' = bits BeginCell ++ e /\ encodes 64 (replicate 20 true) e /\
    forall e', encodes 64 (replicate 20 true) e' -> len e <= len e'.
Proof.
  apply (dict_label_shortest 64 sample_label BeginCell).
  - apply wf_begin.
  - vm_compute. repeat split; try discriminate. repeat (apply bytes_ok_cons; split; [lia|]). apply Forall_nil_2.
  - vm_compute. split; [discriminate|reflexivity].
  - vm_compute. discriminate.
Defined.

(** C28: On any of its encodings, [loadLabel] yields the label and its length, and
    [matchLabelPrefix] that length and the number of leading label bits the key
    agrees with; both end past the label when the key matches all of it. *)
Theorem label_match_agrees k l e rest key b s :
  encodes k l e -> len l <= k < 2 ^ 32 -> wf b -> swf s -> swf key -> sbits s = e ++ rest ->
  b_bitsSz b + len l <= 1023 ->
  loadLabel k (b, s) = (Ok (len l), (append b l, skip s (len e))) /\
  exists s' key', matchLabelPrefix k (s, key) = (Ok (len l, lcp l (sbits key)), (s', key')) /\
    (lcp l (sbits key) = len l -> s' = skip s (len e) /\ key' = skip key (len l)).
Proof.
  intros He Hk Hb Hs Hkey H Hfit. split; [now apply (loadLabel_ok k l e rest)|].
  destruct (matchLabelPrefix_ok k l e rest s key He Hk Hs Hkey H) as (n & -> & Hn).
  eexists _, _. split; [done|]. intros E. rewrite Hn by done. split; [done|]. f_equal. unfold consumed. cbv zeta.
  rewrite E. destruct (Z.ltb_spec (len l) (Z.min (len l) (len (sbits key)))); lia.
Qed.

Definition sample_edge : Slice := mkSlice (mkCell [0x9B; 0x50] 12 false 0 [] [] []) 0 12 0 0.

Example label_match_agrees_witness :
  loadLabel 8 (BeginCell, sample_edge) = (Ok 6, (append BeginCell [true; true; false; true; false; true], skip sample_edge 12)) /\
  exists s' key', matchLabelPrefix 8 (sample_edge, sample_label) = (Ok (6, 2), (s', key')) /\
    (2 = 6 -> s' = skip sample_edge 12 /\ key' = skip sample_label 6).
Proof.
  apply (label_match_agrees 8 [true; true; false; true; false; true]
           [true; false; false; true; true; false; true; true; false; true; false; true] []).
  - apply (encodes_long 8 [true; true; false; true; false; true]).
  - vm_compute. split; [discriminate|reflexivity].
  - apply wf_begin.
  - vm_compute. repeat split; try discriminate. repeat (apply bytes_ok_cons; split; [lia|]). apply Forall_nil_2.
  - vm_compute. repeat split; try discriminate. repeat (apply bytes_ok_cons; split; [lia|]). apply Forall_nil_2.
  - reflexivity.
  - vm_compute. discriminate.
Defined.
