(* ===== verification/DictTree.v ===== *)
(** * Patricia trees over bit strings

    The abstract data type behind dictionaries: binary trees with labelled edges whose
    leaves all lie at the same bit depth.  Lookup, insertion and deletion on these
    trees are the operations of a finite map, a tree is determined by the map it
    holds, and its leaves are listed in the order of their keys. *)

From S2P Require Import Prelude Bytes SliceCompare.
From stdpp Require Import gmap sorting.
#[local] Open Scope Z_scope.
#[local] Set Warnings "-clear-no-such-hyp".

Abbreviation key := (list bool).

Section tree.
  Context {V : Type}.

Inductive ptree : Type :=
  | Leaf (label : key) (v : V)
  | Fork (label : key) (l r : ptree).

Definition label (t : ptree) : key := match t with Leaf l _ => l | Fork l _ _ => l end.

(** The same node under another edge label. *)
Definition relabel (l : key) (t : ptree) : ptree :=
  match t with Leaf _ v => Leaf l v | Fork _ a b => Fork l a b end.

(** All leaves of [t] lie [n] bits deep. *)
Fixpoint twf (n : Z) (t : ptree) : Prop :=
  match t with
  | Leaf l _ => len l = n
  | Fork l a b => len l < n /\ twf (n - len l - 1) a /\ twf (n - len l - 1) b
  end.

(** What is left of [k] after the prefix [l]. *)
Fixpoint strip (l k : key) : option key :=
  match l, k with
  | [], _ => Some k
  | x :: l, y :: k => if eqb x y then strip l k else None
  | _ :: _, [] => None
  end.

Definition child (x : bool) (a b : ptree) : ptree := if x then b else a.
Definition fork (l : key) (x : bool) (c d : ptree) : ptree := if x then Fork l d c else Fork l c d.

Fixpoint tfind (t : ptree) (k : key) : option V :=
  match t with
  | Leaf l v => if decide (l = k) then Some v else None
  | Fork l a b =>
      match strip l k with
      | Some (x :: k) => tfind (child x a b) k
      | _ => None
      end
  end.

(** The node [t] and a new leaf under a fork where [k] leaves the label of [t]. *)
Definition split (t : ptree) (k : key) (v : V) : ptree :=
  let m := Z.to_nat (lcp (label t) k) in
  fork (take m (label t)) (nth m k false) (Leaf (drop (S m) k) v) (relabel (drop (S m) (label t)) t).

Fixpoint tset (t : ptree) (k : key) (v : V) : ptree :=
  match t with
  | Leaf l _ => if decide (l = k) then Leaf l v else split t k v
  | Fork l a b =>
      match strip l k with
      | Some (x :: k') => fork l x (tset (child x a b) k' v) (child (negb x) a b)
      | _ => split t k v
      end
  end.

(** The tree without the key: [None] when the key is absent, [Some None] when
    nothing is left. *)
Fixpoint tdel (t : ptree) (k : key) : option (option ptree) :=
  match t with
  | Leaf l _ => if decide (l = k) then Some None else None
  | Fork l a b =>
      match strip l k with
      | Some (x :: k') =>
          match tdel (child x a b) k' with
          | None => None
          | Some None =>
              let o := child (negb x) a b in Some (Some (relabel (l ++ negb x :: label o) o))
          | Some (Some c) => Some (Some (fork l x c (child (negb x) a b)))
          end
      | _ => None
      end
  end.

Definition under (p : key) (e : key * V) : key * V := (p ++ fst e, snd e).

(** The entries from left to right. *)
Fixpoint entries (t : ptree) : list (key * V) :=
  match t with
  | Leaf l v => [(l, v)]
  | Fork l a b => (under (l ++ [false]) <$> entries a) ++ (under (l ++ [true]) <$> entries b)
  end.

Definition tmap (t : ptree) : gmap key V := list_to_map (entries t).

(** ** Prefixes *)

Lemma strip_app l r : strip l (l ++ r) = Some r.
Proof. induction l as [|x l IH]; [done|]. cbn. now rewrite eqb_reflx. Qed.

Lemma strip_Some l k r : strip l k = Some r -> k = l ++ r.
Proof.
  revert k. induction l as [|x l IH]; intros [|y k]; cbn; intros H; try congruence.
  destruct (eqb x y) eqn:E; [|done]. apply eqb_prop in E as ->. f_equal. now apply IH.
Qed.

(** Where two strings diverge. *)
Lemma strip_None l k :
  strip l k = None -> len l <= len k -> exists p x l2 k2, l = p ++ negb x :: l2 /\ k = p ++ x :: k2.
Proof.
  revert k. induction l as [|x l IH]; intros [|y k]; cbn [strip]; intros H Hl; try done.
  rewrite !len_cons in Hl. destruct (eqb x y) eqn:E.
  - apply eqb_prop in E as ->. destruct (IH k H ltac:(lia)) as (p & z & l2 & k2 & -> & ->). now exists (y :: p), z, l2, k2.
  - exists [], y, l, k. split; [|done]. cbn. f_equal. now destruct x, y.
Qed.

Lemma strip_diverge p x l2 k2 : strip (p ++ negb x :: l2) (p ++ x :: k2) = None.
Proof. induction p as [|y p IH]; cbn; [now destruct x|]. now rewrite eqb_reflx. Qed.

Lemma lcp_diverge p x l2 k2 : lcp (p ++ negb x :: l2) (p ++ x :: k2) = len p.
Proof. rewrite lcp_app_eq. cbn [lcp]. replace (eqb (negb x) x) with false by now destruct x. lia. Qed.

Lemma split_eq t k v p x l2 k2 :
  label t = p ++ negb x :: l2 -> k = p ++ x :: k2 -> split t k v = fork p x (Leaf k2 v) (relabel l2 t).
Proof.
  intros Hl ->. unfold split. rewrite Hl, lcp_diverge. unfold len. rewrite Nat2Z.id.
  rewrite take_app_length, nth_middle. f_equal.
  - do 2 f_equal. rewrite cons_middle, app_assoc, drop_app_length'; [done|]. rewrite length_app. cbn. lia.
  - f_equal. rewrite cons_middle, app_assoc, drop_app_length'; [done|]. rewrite length_app. cbn. lia.
Qed.

(** A key the length of the leaves follows the label, or leaves it. *)
Lemma key_cases n t k :
  twf n t -> len k = n ->
  (exists l v, t = Leaf l v /\ k = l) \/
  (exists l a b x k', t = Fork l a b /\ k = l ++ x :: k' /\ len k' = n - len l - 1) \/
  (exists p x l2 k2, label t = p ++ negb x :: l2 /\ k = p ++ x :: k2).
Proof.
  intros Ht Hk. destruct (strip (label t) k) as [r |] eqn:E.
  - apply strip_Some in E as ->. destruct t as [l v | l a b]; cbn [label twf] in *; rewrite len_app in Hk.
    + left. exists l, v. split; [done|]. destruct r; [now rewrite app_nil_r|]. rewrite len_cons in Hk.
      pose proof (len_nonneg r). lia.
    + right; left. destruct r as [|x k']; [rewrite len_nil in Hk; lia|].
      exists l, a, b, x, k'. rewrite len_cons in Hk. split_and!; [done|done|lia].
  - right; right. apply strip_None; [done|]. destruct t as [l v | l a b]; cbn [label twf] in *; lia.
Qed.

(** ** Lookup *)

Lemma tfind_fork l x c d y k :
  tfind (fork l x c d) (l ++ y :: k) = tfind (if eqb x y then c else d) k.
Proof. unfold fork. destruct x, y; cbn [tfind]; rewrite strip_app; done. Qed.

Lemma tfind_fork_None l x c d k : strip l k = None -> tfind (fork l x c d) k = None.
Proof. intros H. unfold fork. destruct x; cbn [tfind]; now rewrite H. Qed.

Lemma tfind_len n t k v : twf n t -> tfind t k = Some v -> len k = n.
Proof.
  revert n k. induction t as [l w | l a IHa b IHb]; intros n k Hw H; cbn [tfind twf] in *.
  - destruct (decide (l = k)); [now subst|done].
  - destruct (strip l k) as [[|x k'] |] eqn:E; try done. apply strip_Some in E as ->.
    destruct Hw as (Hl & Ha & Hb). rewrite len_app, len_cons.
    destruct x; cbn [child] in H; [specialize (IHb _ _ Hb H) | specialize (IHa _ _ Ha H)]; lia.
Qed.

Lemma tfind_relabel l t k : tfind (relabel l t) (l ++ k) = tfind t (label t ++ k).
Proof.
  destruct t as [l' v | l' a b]; cbn [relabel tfind label]; [|now rewrite !strip_app].
  destruct (decide (l = l ++ k)) as [E | E], (decide (l' = l' ++ k)) as [E' | E']; try done; exfalso.
  - apply E'. apply (f_equal length) in E. rewrite length_app in E. destruct k; [now rewrite app_nil_r|cbn in E; lia].
  - apply E. apply (f_equal length) in E'. rewrite length_app in E'. destruct k; [now rewrite app_nil_r|cbn in E'; lia].
Qed.

(** A key found in a node extends its label. *)
Lemma tfind_label t k v : tfind t k = Some v -> exists r, k = label t ++ r.
Proof.
  destruct t as [l w | l a b]; cbn [tfind label].
  - destruct (decide (l = k)) as [-> |]; [|done]. intros _. exists []. now rewrite app_nil_r.
  - destruct (strip l k) as [[|x k'] |] eqn:E; try done. apply strip_Some in E as ->. eauto.
Qed.

Lemma twf_nonempty n t : twf n t -> exists k v, tfind t k = Some v.
Proof.
  revert n. induction t as [l v | l a IHa b IHb]; intros n Hw; cbn [twf] in Hw.
  - exists l, v. cbn. now rewrite decide_True.
  - destruct Hw as (_ & Ha & _). destruct (IHa _ Ha) as (k & v & H). exists (l ++ false :: k), v.
    cbn [tfind]. now rewrite strip_app.
Qed.

(** ** Insertion *)

Lemma twf_relabel n t l : twf n t -> twf (n - len (label t) + len l) (relabel l t).
Proof.
  destruct t as [l' v | l' a b]; cbn [twf relabel label]; [lia|]. intros (H & Ha & Hb). split; [lia|].
  now replace (n - len l' + len l - len l - 1) with (n - len l' - 1) by lia.
Qed.

Lemma twf_fork n l x c d :
  len l < n -> twf (n - len l - 1) c -> twf (n - len l - 1) d -> twf n (fork l x c d).
Proof. intros. unfold fork. now destruct x. Qed.

Lemma twf_child n l a b x : twf n (Fork l a b) -> twf (n - len l - 1) (child x a b).
Proof. intros (_ & Ha & Hb). now destruct x. Qed.

Lemma twf_tset n t k v : twf n t -> len k = n -> twf n (tset t k v).
Proof.
  revert n k. induction t as [l w | l a IHa b IHb]; intros n k Hw Hk.
  all: destruct (key_cases n _ k Hw Hk) as [(l' & v' & Et & ->) | [(l' & a' & b' & x & k' & Et & -> & Hk') |
    (p & x & l2 & k2 & El & Ek)]]; try discriminate Et.
  - injection Et as <- <-. cbn [tset]. now rewrite decide_True.
  - cbn [tset]. rewrite decide_False; [|cbn [label] in El; subst; intros E%(app_inv_head p); now destruct x].
    rewrite (split_eq _ _ _ p x l2 k2) by done. cbn [label] in El. subst l. cbn [twf] in Hw.
    rewrite len_app, len_cons in Hw. pose proof (len_nonneg l2). subst k. rewrite len_app, len_cons in Hk.
    apply twf_fork; cbn [twf relabel]; lia.
  - injection Et as <- <- <-. cbn [tset]. rewrite strip_app. apply twf_fork; [apply Hw| |now apply twf_child].
    destruct x; cbn [child]; [apply IHb | apply IHa]; try apply Hw; lia.
  - cbn [tset]. cbn [label] in El. subst. rewrite strip_diverge.
    rewrite (split_eq _ _ _ p x l2 k2) by done. rewrite len_app, len_cons in *. pose proof (len_nonneg k2).
    apply twf_fork; [lia|cbn [twf]; lia|].
    pose proof (twf_relabel _ _ l2 Hw) as Hr. cbn [label] in Hr. rewrite len_app, len_cons in Hr.
    match goal with |- twf ?m _ => replace m with (len k2) by lia end.
    now match type of Hr with twf ?m _ => replace m with (len k2) in Hr by lia end.
Qed.

Lemma tfind_split n t k v p x l2 k2 k' :
  twf n t -> len k = n -> len k' = n -> label t = p ++ negb x :: l2 -> k = p ++ x :: k2 ->
  tfind (split t k v) k' = if decide (k = k') then Some v else tfind t k'.
Proof.
  intros Hw Hk Hk' El Ek. rewrite (split_eq _ _ _ p x l2 k2) by done.
  destruct (strip p k') as [[|y r] |] eqn:E.
  - apply strip_Some in E. rewrite app_nil_r in E. subst. rewrite len_app, len_cons in Hk'.
    pose proof (len_nonneg k2). lia.
  - apply strip_Some in E. subst k'. rewrite tfind_fork. destruct (eqb x y) eqn:Exy.
    + apply eqb_prop in Exy as <-. cbn [tfind]. subst k. destruct (decide (k2 = r)) as [-> | Hne].
      * now rewrite decide_True.
      * rewrite decide_False by (intros ?%app_inv_head; congruence). symmetry. apply eq_None_not_Some.
        intros [w Hf]. apply tfind_label in Hf as [q Hq]. rewrite El, <-app_assoc in Hq. apply app_inv_head in Hq.
        injection Hq as Hq _. now destruct x.
    + assert (Ey : y = negb x) by now destruct x, y. subst y. rewrite decide_False.
      2: { subst k. intros Hq%app_inv_head. injection Hq as Hq _. now destruct x. }
      destruct (strip l2 r) as [q |] eqn:E2.
      * apply strip_Some in E2 as ->. rewrite tfind_relabel, El. f_equal. now rewrite <-app_assoc.
      * transitivity (@None V); [|symmetry]; apply eq_None_not_Some; intros [w Hf]; apply tfind_label in Hf as [q Hq].
        -- destruct t; cbn [relabel label] in Hq; subst r; now rewrite strip_app in E2.
        -- rewrite El, <-app_assoc in Hq. apply app_inv_head in Hq. injection Hq as ->. now rewrite strip_app in E2.
  - rewrite tfind_fork_None by done. rewrite decide_False by (intros <-; subst k; now rewrite strip_app in E).
    symmetry. apply eq_None_not_Some. intros [w Hf]. apply tfind_label in Hf as [q ->].
    rewrite El, <-app_assoc, strip_app in E. done.
Qed.

Lemma tfind_tset n t k v k' :
  twf n t -> len k = n -> len k' = n -> tfind (tset t k v) k' = if decide (k = k') then Some v else tfind t k'.
Proof.
  revert n k k'. induction t as [l w | l a IHa b IHb]; intros n k k' Hw Hk Hk'.
  all: destruct (key_cases n _ k Hw Hk) as [(l' & v' & Et & ->) | [(l' & a' & b' & x & k1 & Et & -> & Hk1) |
    (p & x & l2 & k2 & El & Ek)]]; try discriminate Et.
  - injection Et as <- <-. cbn [tset tfind]. rewrite decide_True by done. cbn [tfind]. now destruct (decide (l = k')).
  - cbn [tset]. rewrite decide_False; [|cbn in El; subst; intros E%(app_inv_head p); now destruct x].
    now apply (tfind_split n _ _ _ p x l2 k2).
  - injection Et as <- <- <-. cbn [tset]. rewrite strip_app. cbn [tfind].
    destruct (strip l k') as [[|y r] |] eqn:E.
    + apply strip_Some in E. subst k'. rewrite app_nil_r in Hk'. destruct Hw. lia.
    + apply strip_Some in E as ->. rewrite tfind_fork. rewrite len_app, len_cons in Hk'.
      assert (Hr : len r = n - len l - 1) by lia. destruct (eqb x y) eqn:Exy.
      * apply eqb_prop in Exy as <-. pose proof (twf_child _ _ _ _ x Hw) as Hc.
        assert (IH : tfind (tset (child x a b) k1 v) r = if decide (k1 = r) then Some v else tfind (child x a b) r)
          by (destruct x; cbn [child] in *; eauto).
        rewrite IH. destruct (decide (k1 = r)) as [-> | Hne]; [now rewrite decide_True|].
        rewrite decide_False; [done|]. intros ?%app_inv_head. congruence.
      * rewrite decide_False; [now replace (negb x) with y by now destruct x, y|].
        intros ?%app_inv_head. destruct x, y; done || congruence.
    + rewrite tfind_fork_None by done. rewrite decide_False; [done|]. intros <-. now rewrite strip_app in E.
  - cbn [label] in El. subst. cbn [tset]. rewrite strip_diverge.
    now apply (tfind_split (len (p ++ x :: k2)) _ _ _ p x l2 k2).
Qed.

(** A key that leaves the label of the root is absent. *)
Lemma leave_cases t k p x l2 k2 :
  label t = p ++ negb x :: l2 -> k = p ++ x :: k2 ->
  tfind t k = None /\ (forall v, tset t k v = split t k v) /\ tdel t k = None.
Proof.
  intros El ->. destruct t as [l w | l a b]; cbn [label] in El; subst l.
  - assert (Hne : p ++ negb x :: l2 <> p ++ x :: k2) by (intros E%app_inv_head; injection E as E _; now destruct x).
    cbn [tfind tset tdel]. rewrite !decide_False by done. split_and!; try done. intros v. now rewrite decide_False.
  - cbn [tfind tset tdel]. rewrite strip_diverge. done.
Qed.

(** ** Deletion *)

(** A node moved up under a longer label, as when its sibling is deleted. *)
Lemma tfind_merged l y o k :
  tfind (relabel (l ++ y :: label o) o) k
  = match strip l k with Some (z :: r) => if eqb y z then tfind o r else None | _ => None end.
Proof.
  destruct (strip (l ++ y :: label o) k) as [q |] eqn:E.
  - apply strip_Some in E as ->. rewrite tfind_relabel, <-app_assoc. cbn [app]. now rewrite strip_app, eqb_reflx.
  - transitivity (@None V); [|symmetry]; apply eq_None_not_Some; intros [w Hf].
    + apply tfind_label in Hf as [q ->]. destruct o; cbn [relabel label] in E; now rewrite strip_app in E.
    + destruct (strip l k) as [[|z r] |] eqn:E'; try done. apply strip_Some in E' as ->.
      destruct (eqb y z) eqn:Eyz; [|done]. apply eqb_prop in Eyz as <-. apply tfind_label in Hf as [q ->].
      now rewrite app_comm_cons, app_assoc, strip_app in E.
Qed.

Lemma tfind_tdel n t k k' :
  twf n t -> len k = n -> len k' = n ->
  match tdel t k with
  | None => tfind t k = None
  | Some None => tfind t k' = if decide (k = k') then tfind t k else None
  | Some (Some t') => is_Some (tfind t k) /\ twf n t' /\ tfind t' k' = if decide (k = k') then None else tfind t k'
  end.
Proof.
  revert n k k'. induction t as [l w | l a IHa b IHb]; intros n k k' Hw Hk Hk'; cbn [tdel tfind].
  { destruct (decide (l = k)) as [-> |]; [|done]. now destruct (decide (k = k')). }
  destruct (strip l k) as [[|x k1] |] eqn:E; [done| |done]. apply strip_Some in E as ->.
  rewrite len_app, len_cons in Hk. pose proof (twf_child _ _ _ _ x Hw) as Hc.
  pose proof (twf_child _ _ _ _ (negb x) Hw) as Ho. destruct Hw as (Hl & _).
  set (m := n - len l - 1) in *. assert (Hk1 : len k1 = m) by lia.
  assert (IH : forall r, len r = m -> match tdel (child x a b) k1 with
    | None => tfind (child x a b) k1 = None
    | Some None => tfind (child x a b) r = if decide (k1 = r) then tfind (child x a b) k1 else None
    | Some (Some t') => is_Some (tfind (child x a b) k1) /\ twf m t' /\
        tfind t' r = if decide (k1 = r) then None else tfind (child x a b) r end)
    by (intros r Hr; destruct x; [exact (IHb m k1 r Hc Hk1 Hr) | exact (IHa m k1 r Hc Hk1 Hr)]).
  clear IHa IHb. destruct (tdel (child x a b) k1) as [[c |] |]; [..|now apply (IH k1)].
  - destruct (IH k1 Hk1) as (Hs & Hwc & _). split; [done|]. split; [now apply twf_fork|].
    destruct (strip l k') as [[|y r] |] eqn:E.
    + apply strip_Some in E. subst k'. rewrite app_nil_r in Hk'. lia.
    + apply strip_Some in E as ->. rewrite tfind_fork. rewrite len_app, len_cons in Hk'. destruct (eqb x y) eqn:Exy.
      * apply eqb_prop in Exy as <-. destruct (IH r ltac:(lia)) as (_ & _ & ->).
        destruct (decide (k1 = r)) as [-> | Hne]; [now rewrite decide_True|].
        rewrite decide_False; [done|]. intros ?%app_inv_head. congruence.
      * rewrite decide_False; [now replace (negb x) with y by now destruct x, y|].
        intros ?%app_inv_head. destruct x, y; done || congruence.
    + rewrite tfind_fork_None by done. now destruct (decide (l ++ x :: k1 = k')).
  - set (o := child (negb x) a b) in *. split; [|split].
    + destruct (twf_nonempty _ _ Hc) as (k2 & v2 & Hf). rewrite (IH k2 (tfind_len _ _ _ _ Hc Hf)) in Hf.
      destruct (decide (k1 = k2)); [eauto|done].
    + pose proof (twf_relabel _ _ (l ++ negb x :: label o) Ho) as Hr. rewrite len_app, len_cons in Hr.
      now match type of Hr with twf ?q _ => replace q with n in Hr by lia end.
    + rewrite tfind_merged. destruct (strip l k') as [[|y r] |] eqn:E.
      * apply strip_Some in E. subst k'. rewrite app_nil_r in Hk'. lia.
      * apply strip_Some in E as ->. rewrite len_app, len_cons in Hk'. destruct (eqb (negb x) y) eqn:Exy.
        -- apply eqb_prop in Exy as <-.
           rewrite decide_False by (intros Hq%app_inv_head; injection Hq as Hq _; now destruct x). done.
        -- assert (Ey : y = x) by now destruct x, y. subst y. cbn [tfind]. rewrite (IH r ltac:(lia)).
           destruct (decide (k1 = r)) as [-> | Hne]; [now rewrite decide_True|]. now destruct (decide _).
      * now destruct (decide _).
Qed.

(** ** Extensionality: the map determines the tree *)

Lemma common_label (l l' k0 k1 q0 q1 : key) :
  l ++ false :: k0 = l' ++ q0 -> l ++ true :: k1 = l' ++ q1 -> exists r, l = l' ++ r.
Proof.
  revert l. induction l' as [|y l' IH]; intros [|x l] H0 H1; cbn [app] in *; try (now eexists).
  - congruence.
  - injection H0 as -> H0. injection H1 as H1. destruct (IH l H0 H1) as [r ->]. now exists r.
Qed.

Lemma fork_keys n l a b :
  twf n (Fork l a b) -> exists k0 k1, is_Some (tfind (Fork l a b) (l ++ false :: k0)) /\
    is_Some (tfind (Fork l a b) (l ++ true :: k1)).
Proof.
  intros (_ & Ha & Hb). destruct (twf_nonempty _ _ Ha) as (k0 & v0 & H0). destruct (twf_nonempty _ _ Hb) as (k1 & v1 & H1).
  exists k0, k1. cbn [tfind]. rewrite !strip_app. cbn [child]. rewrite H0, H1. eauto.
Qed.

Lemma fork_label_prefix n l a b t :
  twf n (Fork l a b) -> (forall k, tfind (Fork l a b) k = tfind t k) -> exists r, l = label t ++ r.
Proof.
  intros Hw H. destruct (fork_keys _ _ _ _ Hw) as (k0 & k1 & [v0 H0] & [v1 H1]). rewrite H in H0, H1.
  apply tfind_label in H0 as [q0 H0]. apply tfind_label in H1 as [q1 H1]. eapply common_label; eauto.
Qed.

Lemma tree_ext n t t' : twf n t -> twf n t' -> (forall k, tfind t k = tfind t' k) -> t = t'.
Proof.
  revert n t'. induction t as [l v | l a IHa b IHb]; intros n [l' v' | l' a' b'] Hw Hw' H.
  - specialize (H l). cbn [tfind] in H. rewrite decide_True in H by done. destruct (decide (l' = l)) as [-> |]; congruence.
  - destruct (fork_keys _ _ _ _ Hw') as (k0 & k1 & H0 & H1). rewrite <-!H in H0, H1. cbn [tfind] in H0, H1.
    destruct (decide (l = _)) as [E0 |]; [|now destruct H0]. destruct (decide (l = _)) as [E1 |]; [|now destruct H1].
    rewrite E0 in E1. apply app_inv_head in E1. done.
  - destruct (fork_keys _ _ _ _ Hw) as (k0 & k1 & H0 & H1). rewrite !H in H0, H1. cbn [tfind] in H0, H1.
    destruct (decide (l' = _)) as [E0 |]; [|now destruct H0]. destruct (decide (l' = _)) as [E1 |]; [|now destruct H1].
    rewrite E0 in E1. apply app_inv_head in E1. done.
  - assert (El : l = l').
    { destruct (fork_label_prefix _ _ _ _ _ Hw H) as [r Hr]. symmetry in H || idtac.
      destruct (fork_label_prefix _ _ _ _ (Fork l a b) Hw' ltac:(now intros k; rewrite H)) as [r' Hr'].
      cbn [label] in *. rewrite Hr in Hr'. apply (f_equal length) in Hr' as Hlen. rewrite !length_app in Hlen.
      destruct r; [now rewrite app_nil_r in Hr|cbn in Hlen; lia]. }
    subst l'. assert (Hc : forall x k, tfind (child x a b) k = tfind (child x a' b') k).
    { intros x k. specialize (H (l ++ x :: k)). cbn [tfind] in H. now rewrite strip_app in H. }
    destruct Hw as (_ & Ha & Hb), Hw' as (_ & Ha' & Hb').
    f_equal; [eapply IHa, (Hc false)|eapply IHb, (Hc true)]; eauto.
Qed.

(** ** The entries *)

Lemma entries_find n t k v : twf n t -> (k, v) ∈ entries t <-> tfind t k = Some v.
Proof.
  revert n k. induction t as [l w | l a IHa b IHb]; intros n k Hw; cbn [entries tfind].
  - rewrite list_elem_of_singleton. destruct (decide (l = k)) as [-> |]; split; intros; congruence.
  - destruct Hw as (_ & Ha & Hb). rewrite elem_of_app, !list_elem_of_fmap. unfold under. split.
    + intros [([k' v'] & E & Hin) | ([k' v'] & E & Hin)]; cbn [fst snd] in E; injection E as -> ->;
        rewrite <-app_assoc; cbn [app]; rewrite strip_app; cbn [child]; [now apply (IHa _ _ Ha)|now apply (IHb _ _ Hb)].
    + destruct (strip l k) as [[|x k'] |] eqn:E; try done. apply strip_Some in E as ->. intros H.
      destruct x; cbn [child] in H; [right|left]; exists (k', v); cbn [fst snd]; rewrite <-app_assoc;
        (split; [done|]); [now apply (IHb _ _ Hb)|now apply (IHa _ _ Ha)].
Qed.

(** Keys in the order of their bits. *)
Definition before (e f : key * V) : Prop := lex (fst e) (fst f) = -1.

Lemma before_under p e f : before e f -> before (under p e) (under p f).
Proof. unfold before, under. cbn [fst]. now rewrite lex_app_eq. Qed.

Lemma entries_sorted t : StronglySorted before (entries t).
Proof.
  induction t as [l v | l a IHa b IHb]; cbn [entries]; [repeat constructor|].
  assert (Hmap : forall p es, StronglySorted before es -> StronglySorted before (under p <$> es)).
  { intros p es H. induction H as [|e es _ IH He]; cbn [fmap list_fmap]; constructor; [done|].
    apply Forall_fmap. eapply List.Forall_impl; [|exact He]. intros f. apply before_under. }
  apply StronglySorted_app_2; auto. intros e f He Hf. apply list_elem_of_fmap in He as (e' & -> & _).
  apply list_elem_of_fmap in Hf as (f' & -> & _). unfold before, under. cbn [fst].
  rewrite <-!app_assoc, lex_app_eq. done.
Qed.

Lemma lex_refl k : lex k k = 0.
Proof. induction k as [|x k IH]; [done|]. cbn [lex]. now rewrite eqb_reflx. Qed.

Lemma entries_nodup t : NoDup (entries t).*1.
Proof.
  pose proof (entries_sorted t) as H. induction H as [|e es _ IH He]; cbn [fmap list_fmap]; constructor; [|done].
  intros Hin. apply list_elem_of_fmap in Hin as (f & E & Hf). eapply Forall_forall in He; [|exact Hf].
  unfold before in He. rewrite E, lex_refl in He. done.
Qed.

(** ** The finite map of a tree *)

Lemma lookup_tmap n t k : twf n t -> tmap t !! k = tfind t k.
Proof.
  intros Hw. apply option_eq. intros v. rewrite <-(entries_find n) by done. unfold tmap.
  symmetry. apply elem_of_list_to_map, entries_nodup.
Qed.

Lemma tmap_tset n t k v : twf n t -> len k = n -> tmap (tset t k v) = <[k := v]> (tmap t).
Proof.
  intros Hw Hk. apply map_eq. intros k'. rewrite (lookup_tmap n) by now apply twf_tset.
  destruct (decide (len k' = n)) as [Hk' | Hk'].
  - rewrite (tfind_tset n) by done. rewrite lookup_insert, (lookup_tmap n) by done. done.
  - rewrite lookup_insert_ne, (lookup_tmap n) by (done || congruence).
    transitivity (@None V); [|symmetry]; apply eq_None_not_Some; intros [w Hf]; apply Hk'.
    + eapply tfind_len; [|exact Hf]. now apply twf_tset.
    + eapply tfind_len; eauto.
Qed.

Definition omap_tree (o : option ptree) : gmap key V := match o with Some t => tmap t | None => ∅ end.
Definition otwf (n : Z) (o : option ptree) : Prop := match o with Some t => twf n t | None => True end.

Lemma tmap_tdel n t k :
  twf n t -> len k = n ->
  match tdel t k with
  | None => tmap t !! k = None
  | Some o => is_Some (tmap t !! k) /\ otwf n o /\ omap_tree o = delete k (tmap t)
  end.
Proof.
  intros Hw Hk. rewrite (lookup_tmap n) by done. pose proof (fun k' => tfind_tdel n t k k' Hw Hk) as H.
  destruct (tdel t k) as [[t' |] |]; [..|now apply (H k)].
  - destruct (H k Hk) as (Hs & Hw' & _). split_and!; [done|done|]. cbn [omap_tree]. apply map_eq. intros k'.
    rewrite (lookup_tmap n), lookup_delete, (lookup_tmap n) by done.
    destruct (decide (len k' = n)) as [Hk' | Hk']; [now destruct (H k' Hk') as (_ & _ & ->)|].
    assert (E : tfind t k' = None) by (apply eq_None_not_Some; intros [w Hf]; exact (Hk' (tfind_len _ _ _ _ Hw Hf))).
    rewrite E. transitivity (@None V); [|now destruct (decide _)]. apply eq_None_not_Some. intros [w Hf].
    exact (Hk' (tfind_len _ _ _ _ Hw' Hf)).
  - split; [|split; [done|]].
    + destruct (twf_nonempty _ _ Hw) as (k2 & v2 & Hf). rewrite (H k2 (tfind_len _ _ _ _ Hw Hf)) in Hf.
      destruct (decide (k = k2)); [eauto|done].
    + cbn [omap_tree]. symmetry. apply map_eq. intros k'. rewrite lookup_empty, lookup_delete.
      destruct (decide (k = k')); [done|]. rewrite (lookup_tmap n) by done. apply eq_None_not_Some. intros [w Hf].
      rewrite (H k' (tfind_len _ _ _ _ Hw Hf)), decide_False in Hf by done. done.
Qed.

Lemma tmap_inj n t t' : twf n t -> twf n t' -> tmap t = tmap t' -> t = t'.
Proof.
  intros Hw Hw' H. apply (tree_ext n); [done..|]. intros k.
  rewrite <-(lookup_tmap n t k Hw), <-(lookup_tmap n t' k Hw'). now rewrite H.
Qed.

End tree.
