(* ===== verification/DictNode.v ===== *)
(** * Nodes of dictionaries

    Models [tvm/cell/dict_core.go] and [storeDictNodeTraced] of [dict_label.go]: parsing
    a cell as an edge label with a payload, matching a key against it, and writing
    nodes back.  Cells are untraced, so a special cell is resolved by the resolver
    passed in, or rejected.  The code tells an [hml_same] label by the static cell its
    view points to; here the node records that in [n_inline]. *)

From S2P Require Import Prelude Bytes CellModel Builder Slice Finalize DictLabel.
From stdpp Require Import strings.
#[local] Open Scope Z_scope.

(** ** Keys *)

Definition twos_complement_step (x : Z) (acc : Z * list Z) : Z * list Z :=
  let '(carry, out) := acc in
  let v := u8 (255 - x + carry) in
  ((if negb (carry =? 0) && negb (v =? 0) then 0 else carry), v :: out).

Definition shift_left_step (rem : Z) (x : Z) (acc : Z * list Z) : Z * list Z :=
  let '(carry, out) := acc in (x ≫ rem, Z.lor (u8 (x ≪ (8 - rem))) carry :: out).

(** [data[:n]] followed by zeros up to the inline buffer. *)
Definition inline_buffer (data : list Z) : list Z := data ++ replicate (128 - length data) 0.

(** [initIntKeyBuilder]; its errors are panics. *)
Definition initIntKeyBuilder (key : option Z) (bits : Z) : outcome Builder :=
  match key with
  | None => Panic
  | Some key =>
      if 1023 <? bits then Panic
      else if bits =? 0 then (if negb (key =? 0) then Panic else Ok BeginCell)
      else
        let bitLen := bit_len key in
        if (if 0 <=? key then bits <? bitLen
            else (bits <? bitLen)
                 || ((bitLen =? bits) && negb (trailing_zeros (Z.to_nat bits) (- key) =? bits - 1)))
        then Panic else
        data ← fill_bytes ((bits + 7) / 8) key;
        let data := if key <? 0 then snd (foldr twos_complement_step (1, []) data) else data in
        let rem := bits mod 8 in
        data ← (if negb (rem =? 0) then
                  x ← index data 0;
                  data ← write data 0 [Z.land x (u8 (u8 (1 ≪ rem) - 1))];
                  Ok (snd (foldr (shift_left_step rem) (0, []) data))
                else Ok data);
        Ok (mkBuilder (inline_buffer data) bits [])
  end.

Definition initUintKeyBuilder (key bits : Z) : outcome Builder :=
  if 1023 <? bits then Err ErrTooBigSize
  else if bits <=? 64 then '(_, b) ← run (StoreUInt key bits) BeginCell; Ok b
  else '(_, b) ← run (StoreUInt key 64) (mkBuilder (replicate 128 0) (bits - 64) []); Ok b.

(** The slice over a cell that is only data, as keys are passed around. *)
Definition raw_slice (data : list Z) (bits : Z) : Slice :=
  mkSlice (mkCell data bits false 0 [] [] []) 0 bits 0 0.

Definition builderSliceView (b : Builder) : outcome Slice :=
  data ← subrange (b_data b) 0 (usedBytes b);
  Ok (raw_slice data (b_bitsSz b)).

Definition maxDictKeyBits : Z := 1023.

Definition initFixedDictBytesKeySlice (key : list Z) (bits : Z) : outcome Slice :=
  if maxDictKeyBits <? bits then Err (ErrText "dict key size exceeds 1023 bits")
  else if len key * 8 <? bits then Err (ErrText "incorrect key size")
  else Ok (raw_slice key bits).

Definition fixedDictKeySlice (key : Slice) (bits : Z) : outcome Slice :=
  if BitsLeft key <? bits then Err (ErrText "incorrect key size")
  else Ok (mkSlice (s_cell key) (s_bitStart key) (u16 (s_bitStart key + u16 bits)) (s_refStart key) (s_refStart key)).

(** ** Parsing a node *)

Record fixedDictNode : Type := mkNode {
  n_cell : Cell;
  n_loader : Slice;
  n_label : Slice;
  n_labelLen : Z;
  n_inline : bool
}.

Definition dictSameCell (bit : bool) : Cell :=
  mkCell (replicate 128 (if bit then 255 else 0)) 1023 false 0 [] [] [].

Definition labelDataView (ln : Z) : M Slice (Z * Slice * bool) :=
  loader ← get_state;
  guard_err (BitsLeft loader <? ln) (ErrNotEnoughData (BitsLeft loader) ln) ;;
  let view := mkSlice (s_cell loader) (s_bitStart loader) (u16 (s_bitStart loader + u16 ln)) 0 0 in
  SkipBits ln ;;
  mret (ln, view, true).

(** [readLabelView]: the label's length, a view of its bits, and whether the view is
    into the node itself. *)
Definition readLabelView (sz : Z) : M Slice (Z * Slice * bool) :=
  first ← LoadUInt 1;
  if first =? 0 then
    ln ← loadUnaryLength;
    guard_err (sz <? ln) ErrLabelExceedsKeyBits ;;
    labelDataView ln
  else
    second ← LoadUInt 1;
    let bitsLen := dictLabelSizeBits sz in
    if second =? 0 then
      ln ← LoadUInt bitsLen;
      guard_err (sz <? ln) ErrLabelExceedsKeyBits ;;
      labelDataView ln
    else
      bitType ← LoadUInt 1;
      ln ← LoadUInt bitsLen;
      guard_err (sz <? ln) ErrLabelExceedsKeyBits ;;
      mret (ln, mkSlice (dictSameCell (bitType =? 1)) 0 (u16 ln) 0 0, false).

Definition no_label : Slice := raw_slice [] 0.

Definition parseFixedDictNode (branch : Cell) (remaining : Z) : outcome fixedDictNode :=
  let loader := newSliceFromCell branch in
  if c_special branch then Ok (mkNode branch loader no_label 0 false)
  else
    '(labelLen, label, inline, loader) ← run (readLabelView remaining) loader;
    Ok (mkNode branch loader label labelLen inline).

(** A resolver of special cells, which the walk of the virtual machine installs. *)
Definition resolver_t : Type := option (Cell -> outcome Cell).

Definition resolveIfSpecial (n : fixedDictNode) (remaining : Z) (resolver : resolver_t) : outcome fixedDictNode :=
  if negb (c_special (n_cell n)) then Ok n
  else
    match resolver with
    | None => Ok n
    | Some resolve =>
        resolved ← resolve (n_cell n);
        parseFixedDictNode resolved remaining
    end.

Definition resolveDictNodeCell (branch : Cell) (resolver : resolver_t) : outcome Cell :=
  if negb (c_special branch) then Ok branch
  else
    match resolver with
    | None => Err ErrDictHasSpecialCells
    | Some resolve => resolve branch
    end.

Definition rejectSpecial (n : fixedDictNode) : outcome unit :=
  if c_special (n_cell n) then Err ErrDictHasSpecialCells else Ok tt.

Definition isLeaf (n : fixedDictNode) (remaining : Z) : bool := n_labelLen n =? remaining.
Definition nextKeyBits (n : fixedDictNode) (remaining : Z) : Z := u64 (remaining - n_labelLen n - 1).

Definition node_ref (n : fixedDictNode) (i : Z) : outcome Cell := fst (peekRefCellAt i (n_loader n)).

Definition validateForkShape (n : fixedDictNode) (remaining : Z) (lenient : bool) : outcome unit :=
  if remaining <=? n_labelLen n then Ok tt
  else if lenient then
    if RefsNum (n_loader n) <? 2 then Err ErrInvalidDictForkNode else Ok tt
  else if negb (BitsLeft (n_loader n) =? 0) || negb (RefsNum (n_loader n) =? 2) then Err ErrInvalidDictForkNode
  else Ok tt.

(** The steps every walk starts a node with. *)
Definition open_node (branch : Cell) (remaining : Z) (resolver : resolver_t) (lenient : bool) : outcome fixedDictNode :=
  node ← parseFixedDictNode branch remaining;
  node ← resolveIfSpecial node remaining resolver;
  rejectSpecial node ;;
  validateForkShape node remaining lenient ;;
  Ok node.

(** [matchLabelView] on the key: how much matches, the key's bit where it leaves the
    label, and whether it does. *)
Definition matchLabelView (label : Slice) (labelLen : Z) : M Slice (Z * bool * bool) :=
  key ← get_state;
  let limit := Z.min labelLen (BitsLeft key) in
  if limit =? 0 then mret (0, false, false) else
  matched ← lift (commonSlicePrefix label key limit);
  if matched <? limit then
    next ← lift (fst (BitAt matched key));
    SkipBits (matched + 1) ;;
    mret (matched, negb (next =? 0), true)
  else
    SkipBits matched ;;
    mret (matched, false, false).

(** ** Writing nodes *)

Definition storeDictNodeTraced (label : Slice) (payload : Builder) (keyLen : Z) : outcome Cell :=
  '(_, (b, _)) ← run (storeDictLabel keyLen) (BeginCell, label);
  '(_, b) ← run (storeBuilder payload false) b;
  EndCellSpecial false b.

(** [cloneWithRef] of a node: the references it reads through its view are the cell's. *)
Definition cloneWithRef (n : fixedDictNode) (i : Z) (ref : option Cell) : outcome Cell :=
  match ref with
  | None => Err ErrRefCannotBeNil
  | Some ref => cellRefView_cloneWithRef (n_cell n) i ref
  end.

Definition canonicalLabelFast (n : fixedDictNode) (maxLen : Z) : outcome (bool * bool) :=
  let ln := n_labelLen n in
  let lengthBits := dictLabelSizeBits maxLen in
  let sameOptimal := (1 <? ln) && (lengthBits <? 2 * ln - 1) in
  if negb (n_inline n) then Ok (sameOptimal, true)
  else
    x ← index (c_data (n_cell n)) 0;
    let isLong := negb (Z.land x 0x80 =? 0) in
    if negb (eqb isLong (lengthBits <? ln)) then Ok (false, true)
    else if sameOptimal then Ok (false, false)
    else Ok (true, true).

Definition hasCanonicalLabel (n : fixedDictNode) (maxLen : Z) : outcome bool :=
  '(canonical, decided) ← canonicalLabelFast n maxLen;
  if decided : bool then Ok canonical
  else
    '(_, same) ← dictLabelSliceSameBit (n_label n) (n_labelLen n);
    Ok (negb same).

Definition rebuildNonCanonicalFixedForkWithRef (n : fixedDictNode) (i : Z) (ref : option Cell) (remaining : Z)
    : outcome Cell :=
  lref ← node_ref n 0;
  rref ← node_ref n 1;
  let left := if i =? 0 then ref else Some lref in
  let right := if i =? 0 then Some rref else ref in
  '(_, payload) ← run (storeRef left false ;; storeRef right false) BeginCell;
  storeDictNodeTraced (n_label n) payload remaining.

(** The end of a mutation below fork [n]: the new child replaces the old one, and a
    label that is not in its shortest form is rewritten. *)
Definition replace_child (n : fixedDictNode) (i : Z) (ref : option Cell) (remaining : Z) : outcome Cell :=
  '(canonical, decided) ← canonicalLabelFast n remaining;
  canonical ← (if decided : bool then Ok canonical else hasCanonicalLabel n remaining);
  if canonical : bool then cloneWithRef n i ref
  else rebuildNonCanonicalFixedForkWithRef n i ref remaining.

Definition splitLabel (n : fixedDictNode) (matched : Z) : outcome (Slice * Slice) :=
  '(_, remainder) ← run (SkipBits (matched + 1)) (n_label n);
  let l := n_label n in
  Ok (mkSlice (s_cell l) (s_bitStart l) (u16 (s_bitStart l + u16 matched)) (s_refStart l) (s_refEnd l), remainder).

Definition mergedEdgeLabel (n : fixedDictNode) (bit : Z) (lbl : Slice) : outcome Slice :=
  '(_, (merged, _)) ← run (storeSliceFromSlice (n_labelLen n)) (BeginCell, n_label n);
  '(_, merged) ← run (StoreUInt bit 1) merged;
  '(_, (merged, _)) ← run (storeSliceFromSlice (BitsLeft lbl)) (merged, lbl);
  builderSliceView merged.
