(* ===== verification/DictNodeSpec.v ===== *)
(** * What parsing and writing dictionary nodes does

    The proofs about single nodes: the view of a label, the opening of a node, the
    match of a key, the rewriting of labels to their shortest form. *)

From S2P Require Import Prelude Bytes CellModel Builder Finalize BuilderSpec BuilderOps Slice SliceSpec Codec CellHash SliceCompare CellTheorems.
From S2P Require Import DictLabel DictLabelTheorems DictNode.
#[local] Open Scope Z_scope.

(** ** Views *)

(** The first [n] bits of a slice as a slice of its own. *)
Definition first_bits (s : Slice) (n : Z) (a b : Z) : Slice := mkSlice (s_cell s) (s_bitStart s) (s_bitStart s + n) a b.

Lemma first_bits_ok s n a b :
  swf s -> 0 <= n <= BitsLeft s -> 0 <= a <= b -> b <= len (c_refs (s_cell s)) ->
  swf (first_bits s n a b) /\ sbits (first_bits s n a b) = take (Z.to_nat n) (sbits s).
Proof.
  intros Hs Hn Ha Hb. rewrite take_sbits by done. rewrite BitsLeft_eq in Hn by done.
  destruct Hs as [H1 H2 H3 H4 H5 H6]. unfold first_bits, s_data in *. split.
  - split; unfold s_data; cbn [s_cell s_bitStart s_bitEnd s_refStart s_refEnd] in *; lia || done.
  - unfold sbits, s_data. cbn [s_cell s_bitStart s_bitEnd]. f_equal. lia.
Qed.

Lemma u16_small x : 0 <= x < 2 ^ 16 -> u16 x = x.
Proof. intros. unfold u16. now apply Z.mod_small. Qed.

Lemma u64_small x : 0 <= x < 2 ^ 64 -> u64 x = x.
Proof. intros. unfold u64. now apply Z.mod_small. Qed.

Lemma labelDataView_ok s l rest :
  swf s -> sbits s = l ++ rest ->
  exists view, labelDataView (len l) s = (Ok (len l, view, true), skip s (len l)) /\ swf view /\ sbits view = l.
Proof.
  intros Hs H. pose proof (len_sbits s Hs) as Hl. rewrite H, len_app in Hl. pose proof (len_nonneg rest).
  pose proof (len_nonneg l). pose proof (swf_bits _ Hs). pose proof (swf_end _ Hs). pose proof (BitsLeft_eq s Hs).
  unfold labelDataView. mrun. destruct (Z.ltb_spec (BitsLeft s) (len l)); [lia|].
  rewrite (bind_Ok _ _ _ _ _ (SkipBits_ok s (len l) Hs ltac:(lia))). rewrite (u16_small (len l)), u16_small by lia.
  destruct (first_bits_ok s (len l) 0 0 Hs) as [Hv Hb]; [lia..| |].
  { pose proof (len_nonneg (c_refs (s_cell s))). lia. }
  exists (first_bits s (len l) 0 0). split; [done|]. split; [done|]. rewrite Hb, H, take_app_length'; [done|unfold len; lia].
Qed.

(** How the encoding of a label shows in its view. *)
Definition view_form (k : Z) (l e : list bool) (inline : bool) : Prop :=
  if inline then e = short_label l \/ e = long_label k l
  else exists b, e = same_label k b (len l) /\ l = replicate (length l) b.

Lemma nth_replicate_lt {A} n (x d : A) i : (i < n)%nat -> nth i (replicate n x) d = x.
Proof. revert i. induction n as [|n IH]; intros [|i] Hi; [lia..|done|]. cbn. apply IH. lia. Qed.

Lemma dictSameCell_ok (b : bool) n :
  0 <= n <= 1023 ->
  let v := mkSlice (dictSameCell b) 0 (u16 n) 0 0 in swf v /\ sbits v = replicate (Z.to_nat n) b.
Proof.
  intros Hn. cbv zeta. rewrite u16_small by lia. unfold dictSameCell. set (y := if b then 255 else 0). split.
  - split; unfold s_data; cbn [s_cell s_bitStart s_bitEnd s_refStart s_refEnd c_data c_refs];
      rewrite ?len_replicate; try lia;
      [apply Forall_replicate; unfold y; destruct b; lia|unfold len; cbn [length]; lia..].
  - unfold sbits, s_data. cbn [s_cell s_bitStart s_bitEnd c_data]. rewrite Z.sub_0_r. apply window_eq; [lia| |].
    + rewrite len_replicate. lia.
    + intros i Hi. unfold bit, byte_at. rewrite !nth_replicate_lt by lia. unfold y.
      destruct b; [|apply Z.testbit_0_l]. rewrite testbit_255. split_cmp; done.
Qed.

Lemma readLabelView_ok k l e rest s :
  encodes k l e -> len l <= k < 2 ^ 32 -> len l <= 1023 -> swf s -> sbits s = e ++ rest ->
  exists view inline, readLabelView k s = (Ok (len l, view, inline), skip s (len e)) /\
    swf view /\ sbits view = l /\ view_form k l e inline.
Proof.
  intros He Hk Hl Hs H. unfold readLabelView, dictLabelSizeBits. pose proof (len_nonneg l) as Hl0.
  pose proof (bit_len_nonneg k) as Hk0. pose proof (bit_len_bound k ltac:(lia)) as Hkb.
  pose proof (proj2 (bit_len_le k 32 ltac:(lia) ltac:(lia)) ltac:(lia)) as Hk32.
  destruct He as [| |x Hx].
  - unfold short_label in H. cbn [app] in H. rewrite <-app_assoc in H. cbn [app] in H.
    destruct (LoadUInt_bit s false _ Hs H) as (L1 & Hs1 & H1). rewrite (bind_Ok _ _ _ _ _ L1). cbn [Z.b2z Z.eqb].
    pose proof (loadUnaryLength_ok _ _ _ Hs1 H1) as L2. rewrite (bind_Ok _ _ _ _ _ L2). rewrite skip_skip in *.
    mrun. fold (len l). destruct (Z.ltb_spec k (len l)); [lia|].
    assert (H2' : sbits (skip s 1) = (replicate (length l) true ++ [false]) ++ l ++ rest) by now rewrite <-app_assoc.
    destruct (sbits_skip_app _ _ _ Hs1 H2') as [Hs2 H2]. rewrite len_app, len_replicate, skip_skip in *.
    change (len [false]) with 1 in *. fold (len l) in *.
    destruct (labelDataView_ok _ l rest Hs2 H2) as (view & -> & Hv & Hb). exists view, true.
    rewrite skip_skip, len_short. split_and!; [|done|done|now left]. do 2 f_equal. lia.
  - unfold long_label in H. cbn [app] in H. rewrite <-app_assoc in H.
    destruct (LoadUInt_bit s true _ Hs H) as (L1 & Hs1 & H1). rewrite (bind_Ok _ _ _ _ _ L1). cbn [Z.b2z Z.eqb].
    destruct (LoadUInt_bit _ false _ Hs1 H1) as (L2 & Hs2 & H2). rewrite (bind_Ok _ _ _ _ _ L2). cbn [Z.b2z Z.eqb].
    destruct (LoadUInt_app _ (bit_len k) (len l) _ Hs2 ltac:(lia) ltac:(lia) H2) as (L3 & Hs3 & H3).
    rewrite (bind_Ok _ _ _ _ _ L3). mrun. destruct (Z.ltb_spec k (len l)); [lia|].
    destruct (labelDataView_ok _ l rest Hs3 H3) as (view & -> & Hv & Hb). exists view, true.
    rewrite !skip_skip, len_long. split_and!; [|done|done|now right]. do 2 f_equal. lia.
  - unfold same_label in H. cbn [app] in H.
    destruct (LoadUInt_bit s true _ Hs H) as (L1 & Hs1 & H1). rewrite (bind_Ok _ _ _ _ _ L1). cbn [Z.b2z Z.eqb].
    destruct (LoadUInt_bit _ true _ Hs1 H1) as (L2 & Hs2 & H2). rewrite (bind_Ok _ _ _ _ _ L2). cbn [Z.b2z Z.eqb].
    destruct (LoadUInt_bit _ x _ Hs2 H2) as (L3 & Hs3 & H3). rewrite (bind_Ok _ _ _ _ _ L3).
    destruct (LoadUInt_app _ (bit_len k) (len l) _ Hs3 ltac:(lia) ltac:(lia) H3) as (L4 & Hs4 & H4).
    rewrite (bind_Ok _ _ _ _ _ L4). mrun. destruct (Z.ltb_spec k (len l)); [lia|].
    replace (Z.b2z x =? 1) with x by now destruct x. destruct (dictSameCell_ok x (len l)) as [Hv Hb]; [lia|].
    exists (mkSlice (dictSameCell x) 0 (u16 (len l)) 0 0), false. rewrite !skip_skip, len_same. split_and!; [do 2 f_equal; lia|exact Hv| |now exists x].
    rewrite Hb. transitivity (replicate (length l) x); [f_equal; unfold len; lia|done].
Qed.

(** ** Opening a node *)

Record opens (n : Z) (c : Cell) (e l pb : list bool) (refs : list Cell) (node : fixedDictNode) : Prop := {
  op_cell : n_cell node = c;
  op_len : n_labelLen node = len l;
  op_lwf : swf (n_label node);
  op_lbits : sbits (n_label node) = l;
  op_swf : swf (n_loader node);
  op_bits : sbits (n_loader node) = pb;
  op_refs : srefs (n_loader node) = refs;
  op_form : view_form n l e (n_inline node)
}.

Lemma parseFixedDictNode_ok n e l pb refs :
  encodes n l e -> len l <= n <= 1023 -> len e + len pb <= 1023 -> len refs <= 4 ->
  exists node, parseFixedDictNode (finished (e ++ pb) refs) n = Ok node /\
    opens n (finished (e ++ pb) refs) e l pb refs node.
Proof.
  intros He Hn Hb Hr. destruct (newSlice_finished (e ++ pb) refs) as (Hs & Hsb & Hsr); [rewrite len_app; lia|done|].
  unfold parseFixedDictNode. cbn [c_special finished with_hashes unfinished].
  destruct (readLabelView_ok n l e pb _ He ltac:(lia) ltac:(lia) Hs Hsb) as (view & inl & Hrun & Hv & Hvb & Hf).
  rewrite (run_Ok _ _ _ _ Hrun). cbn [mbind outcome_bind]. eexists. split; [done|].
  destruct (sbits_skip_app _ _ _ Hs Hsb) as [Hs' Hb']. split; cbn [n_cell n_loader n_label n_labelLen n_inline]; done.
Qed.

Lemma open_node_ok n e l pb refs :
  encodes n l e -> len l <= n <= 1023 -> len e + len pb <= 1023 -> len refs <= 4 ->
  (len l < n -> pb = [] /\ len refs = 2) ->
  exists node, (forall resolver, open_node (finished (e ++ pb) refs) n resolver false = Ok node) /\
    opens n (finished (e ++ pb) refs) e l pb refs node.
Proof.
  intros He Hn Hb Hr Hshape. destruct (parseFixedDictNode_ok n e l pb refs) as (node & Hp & Ho); [done..|].
  exists node. split; [|done]. intros resolver. unfold open_node. rewrite Hp. cbn [mbind outcome_bind].
  unfold resolveIfSpecial, rejectSpecial. rewrite (op_cell _ _ _ _ _ _ _ Ho).
  cbn [c_special finished with_hashes unfinished negb mbind outcome_bind].
  unfold rejectSpecial. rewrite (op_cell _ _ _ _ _ _ _ Ho). cbn [c_special finished with_hashes unfinished mbind outcome_bind].
  unfold validateForkShape. rewrite (op_len _ _ _ _ _ _ _ Ho).
  destruct (Z.leb_spec n (len l)) as [Hle | Hlt]; [done|]. destruct (Hshape Hlt) as [Epb Erefs].
  rewrite <-len_sbits, <-len_srefs by apply Ho. rewrite (op_bits _ _ _ _ _ _ _ Ho), (op_refs _ _ _ _ _ _ _ Ho), Epb, Erefs.
  done.
Qed.

Lemma node_ref_ok n c e l pb refs node i r :
  opens n c e l pb refs node -> refs !! Z.to_nat i = Some r -> 0 <= i -> node_ref node i = Ok r.
Proof.
  intros Ho Hr Hi. unfold node_ref. rewrite peekRefCellAt_run by apply Ho. rewrite (op_refs _ _ _ _ _ _ _ Ho), Hr.
  destruct (Z.ltb_spec i 0); [lia|done].
Qed.

(** ** Matching *)

Lemma land_1 x : Z.land x 1 = Z.b2z (Z.testbit x 0).
Proof. rewrite Z.bit0_odd. change 1 with (Z.ones 1). rewrite Z.land_ones by lia. change (2 ^ 1) with 2. apply Zmod_odd. Qed.

Lemma BitAt_ok s i :
  swf s -> 0 <= i < BitsLeft s -> BitAt i s = (Ok (Z.b2z (nth (Z.to_nat i) (sbits s) false)), s).
Proof.
  intros Hs Hi. unfold BitAt. mrun. destruct (Z.leb_spec (BitsLeft s) i); [lia|].
  pose proof (swf_bits _ Hs). pose proof (swf_data _ Hs). pose proof (BitsLeft_eq s Hs) as HL.
  rewrite index_ok by lia. mrun. unfold mret, M_ret. do 2 f_equal. unfold sbits. rewrite nth_window_Z by lia.
  rewrite <-HL. destruct (Z.ltb_spec i (BitsLeft s)); [|lia]. cbn [andb]. rewrite land_1, Z.shiftr_spec by lia. f_equal.
Qed.

Lemma matchLabelView_ok label s :
  swf label -> swf s ->
  let l := sbits label in let k := sbits s in
  matchLabelView label (len l) s =
    (Ok (lcp l k, (lcp l k <? Z.min (len l) (len k)) && nth (Z.to_nat (lcp l k)) k false,
         lcp l k <? Z.min (len l) (len k)), skip s (consumed l k)).
Proof.
  intros Hl Hs. cbv zeta. unfold matchLabelView. mrun. pose proof (len_sbits s Hs) as Hks. pose proof (len_sbits label Hl) as Hls.
  rewrite <-Hks. set (l := sbits label) in *. set (k := sbits s) in *. pose proof (len_nonneg l). pose proof (len_nonneg k).
  pose proof (lcp_bounds l k). pose proof (lcp_bounds k l) as Hb. rewrite lcp_sym in Hb. unfold consumed. cbv zeta.
  destruct (Z.eqb_spec (Z.min (len l) (len k)) 0) as [E | E].
  - assert (Hz : lcp l k = 0) by lia. rewrite Hz, E. cbn [Z.ltb Z.compare]. now rewrite skip_0.
  - rewrite commonSlicePrefix_run by (done || lia). destruct (Z.ltb_spec (BitsLeft label) (Z.min (len l) (len k))); [lia|].
    mrun. fold l k. rewrite lcp_take_min by lia. destruct (Z.ltb_spec (lcp l k) (Z.min (len l) (len k))) as [Hlt | Hge].
    + rewrite BitAt_ok by (done || lia). cbn [fst]. mrun.
      rewrite (bind_Ok _ _ _ _ _ (SkipBits_ok s (lcp l k + 1) Hs ltac:(lia))). fold k. unfold mret, M_ret.
      now destruct (nth (Z.to_nat (lcp l k)) k false).
    + now rewrite (bind_Ok _ _ _ _ _ (SkipBits_ok s (lcp l k) Hs ltac:(lia))).
Qed.

(** ** Writing a node *)

(** A builder of bits [bs] and references [refs]. *)
Record builds (b : Builder) (bs : list bool) (refs : list Cell) : Prop := {
  bu_wf : wf b;
  bu_bits : bits b = bs;
  bu_refs : b_refs b = refs
}.

Lemma builds_size b bs refs : builds b bs refs -> b_bitsSz b = len bs.
Proof. intros [Hwf <- _]. now rewrite len_bits. Qed.

Lemma builds_begin : builds BeginCell [] [].
Proof. split; [apply wf_begin|done|done]. Qed.

Lemma builds_of_bits bs refs : len bs <= 1023 -> len refs <= 4 -> builds (of_bits bs refs) bs refs.
Proof. intros Hb Hr. destruct (wf_of_bits bs refs Hb Hr). now split. Qed.

Lemma builds_append b bs refs xs : builds b bs refs -> len bs + len xs <= 1023 -> builds (append b xs) (bs ++ xs) refs.
Proof.
  intros Hb Hl. pose proof (builds_size _ _ _ Hb) as Hs. destruct Hb as [Hwf <- <-].
  split; [apply wf_append|now rewrite bits_append by (done || lia)|done]; done || lia.
Qed.

Lemma storeBuilder_builds b bs refs x xs xrefs :
  builds b bs refs -> builds x xs xrefs -> len bs + len xs <= 1023 -> len refs + len xrefs <= 4 ->
  exists b', storeBuilder x false b = (Ok tt, b') /\ builds b' (bs ++ xs) (refs ++ xrefs).
Proof.
  intros Hb Hx Hs Hr. pose proof (builds_size _ _ _ Hb) as Hbs. pose proof (builds_size _ _ _ Hx) as Hxs.
  destruct Hb as [Hwf Hbb Hbr], Hx as [Hwx Hxb Hxr]. rewrite storeBuilder_run, Hbr, Hxr, Hbs, Hxs by done.
  destruct (Z.ltb_spec 4 (len refs + len xrefs)); [lia|]. destruct (Z.ltb_spec 1023 (len bs + len xs)); [lia|].
  cbn [andb]. rewrite Hxb. eexists. split; [done|]. apply builds_append; [|lia].
  rewrite <-Hbs, <-Hbr. split; [|exact Hbb|done]. apply wf_with_refs; [done|]. rewrite Hbr. lia.
Qed.

Lemma EndCellSpecial_builds b bs refs :
  builds b bs refs -> Forall shallow refs -> EndCellSpecial false b = Ok (finished bs refs).
Proof. intros [Hwf <- <-]. now apply EndCellSpecial_ok. Qed.

Lemma EndCell_builds b bs refs :
  builds b bs refs -> Forall shallow refs -> EndCell b = Ok (finished bs refs).
Proof. intros [Hwf <- <-] Hs. unfold EndCell. pose proof (EndCellSpecial_ok b Hwf Hs) as H. unfold EndCellSpecial in H. now rewrite H. Qed.

Lemma storeRefs_builds b bs refs l r :
  builds b bs refs -> len refs <= 2 ->
  exists b', (storeRef (Some l) false ;; storeRef (Some r) false) b = (Ok tt, b') /\ builds b' bs (refs ++ [l; r]).
Proof.
  intros [Hwf Hb Hr] Hl. pose proof (len_nonneg refs).
  assert (H1 : storeRef (Some l) false b = (Ok tt, with_ref b l)).
  { rewrite storeRef_run, Hr. destruct (Z.leb_spec 4 (len refs)); [lia|done]. }
  rewrite (bind_Ok _ _ _ _ _ H1), storeRef_run. cbn [with_ref b_refs]. rewrite Hr, len_app.
  change (len [l]) with 1. destruct (Z.leb_spec 4 (len refs + 1)); [lia|]. cbn [andb]. eexists. split; [done|].
  split; [|done|cbn [with_ref b_refs]; now rewrite Hr, <-app_assoc].
  apply (wf_with_refs (with_ref b l) [r]); [apply (wf_with_refs b [l])|cbn [with_ref b_refs]; rewrite len_app]; try done;
    rewrite Hr; change (len [l]) with 1; change (len [r]) with 1; lia.
Qed.

Lemma storeDictLabel_builds n b bs refs label :
  builds b bs refs -> swf label -> BitsLeft label <= n <= 1023 -> len bs + len (label_bits n (sbits label)) <= 1023 ->
  exists b', storeDictLabel n (b, label) = (Ok tt, (b', skip label (BitsLeft label))) /\
    builds b' (bs ++ label_bits n (sbits label)) refs.
Proof.
  intros Hb Hl Hn Hfit. pose proof (builds_size _ _ _ Hb) as Hs. eexists. split.
  - apply storeDictLabel_ok; [apply Hb|done|lia|lia].
  - now apply builds_append.
Qed.

Lemma storeDictNodeTraced_ok label payload n pb refs :
  swf label -> builds payload pb refs -> BitsLeft label <= n <= 1023 ->
  len (label_bits n (sbits label)) + len pb <= 1023 -> len refs <= 4 -> Forall shallow refs ->
  storeDictNodeTraced label payload n = Ok (finished (label_bits n (sbits label) ++ pb) refs).
Proof.
  intros Hl Hp Hn Hfit Hlr Hr. unfold storeDictNodeTraced. pose proof (len_nonneg pb).
  destruct (storeDictLabel_builds n BeginCell [] [] label builds_begin Hl Hn) as (b & Hrun & Hb); [rewrite len_nil; lia|].
  rewrite (run_Ok _ _ _ _ Hrun). cbn [mbind outcome_bind].
  destruct (storeBuilder_builds _ _ _ _ _ _ Hb Hp) as (b' & Hrun' & Hb'); [done|rewrite len_nil; lia|].
  rewrite (run_Ok _ _ _ _ Hrun'). cbn [mbind outcome_bind]. now apply EndCellSpecial_builds.
Qed.

(** ** The test for the shortest label *)

Definition all_same (l : list bool) : bool := bool_decide (l = replicate (length l) (hd false l)).

Lemma label_bits_eq k l :
  label_bits k l =
    if (1 <? len l) && (bit_len k <? 2 * len l - 1) && all_same l then same_label k (hd false l) (len l)
    else if bit_len k <? len l then long_label k l else short_label l.
Proof.
  unfold label_bits, all_same. cbv zeta. pose proof (bit_len_nonneg k). pose proof (len_nonneg l).
  destruct (Z.eqb_spec (len l) 0) as [E | E].
  - replace (1 <? len l) with false by (split_cmp; done). cbn [andb]. destruct (Z.ltb_spec (bit_len k) (len l)); [lia|done].
  - replace (3 + bit_len k <? 2 + bit_len k + len l) with (1 <? len l) by (split_cmp; done).
    replace (3 + bit_len k <? 2 + 2 * len l) with (bit_len k <? 2 * len l - 1) by (split_cmp; done).
    destruct (_ && _ && _); [done|]. split_cmp; done.
Qed.

Lemma all_same_replicate l b : l = replicate (length l) b -> all_same l = true.
Proof.
  intros H. apply bool_decide_eq_true_2. destruct l as [|x l]; [done|]. cbn [length replicate hd] in *. injection H as -> H.
  now rewrite <-H.
Qed.

Lemma first_bit_finished x e refs : len (x :: e) <= 1023 ->
  index (c_data (finished (x :: e) refs)) 0 = Ok (byte_at (c_data (finished (x :: e) refs)) 0) /\
  negb (Z.land (byte_at (c_data (finished (x :: e) refs)) 0) 0x80 =? 0) = x.
Proof.
  intros Hl. cbn [finished with_hashes unfinished c_data]. rewrite len_cons in *. pose proof (len_nonneg e).
  split; [apply index_ok; rewrite len_pack; lia|].
  set (d := pack _ _). assert (Hb : bit d 0 = x) by (unfold d; rewrite bit_pack by lia; done).
  change (Z.testbit (byte_at d 0) 7 = x) in Hb. rewrite <-Hb. change 0x80 with (1 ≪ 7). apply eq_true_iff_eq.
  rewrite negb_true_iff, Z.eqb_neq. split.
  - intros Hne. destruct (Z.testbit (byte_at d 0) 7) eqn:E; [done|]. exfalso. apply Hne. apply Z.bits_inj'. intros i Hi.
    autorewrite with bitdb. destruct (Z.eq_dec i 7) as [-> | Hne7]; [now rewrite E|].
    rewrite andb_false_intro2; [done|]. split_cmp; done.
  - intros Ht E. apply (f_equal (fun z => Z.testbit z 7)) in E. rewrite Z.land_spec, Ht in E. done.
Qed.

Lemma hasCanonicalLabel_ok n e l pb refs node :
  opens n (finished (e ++ pb) refs) e l pb refs node -> len e + len pb <= 1023 ->
  hasCanonicalLabel node n = Ok (bool_decide (e = label_bits n l)).
Proof.
  intros Ho Hfit. unfold hasCanonicalLabel, canonicalLabelFast, dictLabelSizeBits.
  rewrite (op_len _ _ _ _ _ _ _ Ho), (op_cell _ _ _ _ _ _ _ Ho). pose proof (op_form _ _ _ _ _ _ _ Ho) as Hf.
  rewrite label_bits_eq. set (opt := (1 <? len l) && (bit_len n <? 2 * len l - 1)).
  unfold view_form in Hf. destruct (n_inline node); cbn [negb].
  - assert (Hx : exists x e', e = x :: e' /\ (e = if x then long_label n l else short_label l)).
    { destruct Hf as [-> | ->]; [exists false|exists true]; eexists; split; done. }
    destruct Hx as (x & e' & He & Hx). rewrite He in *. cbn [app] in *.
    destruct (first_bit_finished x (e' ++ pb) refs) as [-> E]; [rewrite app_comm_cons, len_app; lia|].
    cbn [mbind outcome_bind]. rewrite E. destruct (eqb x (bit_len n <? len l)) eqn:Eb; cbn [negb].
    + apply eqb_prop in Eb as <-. destruct opt eqn:Eo; cbn [mbind outcome_bind andb].
      * assert (H1 : 1 < len l) by (unfold opt in Eo; apply andb_true_iff in Eo as [Eo _]; now apply Z.ltb_lt).
        rewrite <-(op_lbits _ _ _ _ _ _ _ Ho) at 1. rewrite len_sbits by apply Ho.
        rewrite dictLabelSliceSameBit_ok by (try apply Ho; rewrite <-len_sbits, (op_lbits _ _ _ _ _ _ _ Ho) by apply Ho; lia).
        rewrite (op_lbits _ _ _ _ _ _ _ Ho). fold (all_same l). destruct (all_same l); cbn [mbind outcome_bind negb]; f_equal; symmetry.
        -- apply bool_decide_eq_false_2. rewrite Hx. now destruct x.
        -- apply bool_decide_eq_true_2. now rewrite Hx.
      * f_equal. symmetry. apply bool_decide_eq_true_2. now rewrite Hx.
    + cbn [mbind outcome_bind]. f_equal. symmetry. apply bool_decide_eq_false_2. rewrite Hx. destruct (opt && all_same l); [now destruct x|].
      destruct x, (bit_len n <? len l); done.
  - destruct Hf as (b & -> & Hl). rewrite (all_same_replicate _ _ Hl), andb_true_r. cbn [mbind outcome_bind]. f_equal.
    destruct opt eqn:Eo; symmetry.
    + apply bool_decide_eq_true_2. f_equal. rewrite Hl. unfold opt in Eo. destruct l; [done|done].
    + apply bool_decide_eq_false_2. now destruct (bit_len n <? len l).
Qed.

(** ** Rewriting a fork *)

(** The children of a fork with [c] in place of the one at [x]. *)
Definition put_child (x : bool) (c o : Cell) : list Cell := if x then [o; c] else [c; o].

Lemma shallow_put x c o : shallow c -> shallow o -> Forall shallow (put_child x c o).
Proof. intros Hc Ho. unfold put_child. destruct x; auto. Qed.

Lemma len_put x c o : len (put_child x c o) = 2.
Proof. now destruct x. Qed.

Lemma storeRefs_fork l r :
  exists b, (storeRef (Some l) false ;; storeRef (Some r) false) BeginCell = (Ok tt, b) /\ builds b [] [l; r].
Proof.
  destruct (storeRefs_builds BeginCell [] [] l r builds_begin) as (b & Hrun & Hb); [rewrite len_nil; lia|]. now exists b.
Qed.

Lemma replace_child_ok n e l refs node x c o :
  opens n (finished e refs) e l [] refs node -> len l <= n <= 1023 -> len e <= 1023 -> encodes n l e ->
  (exists old, refs = put_child x old o) -> shallow c -> shallow o ->
  replace_child node (Z.b2z x) (Some c) n = Ok (finished (label_bits n l) (put_child x c o)).
Proof.
  intros Ho Hn Hle He (old & Hrefs) Hc Hso. pose proof (label_bits_least n l e He).
  assert (Hcan : ('(canonical, decided) ← canonicalLabelFast node n;
      (if decided : bool then Ok canonical else hasCanonicalLabel node n)) = Ok (bool_decide (e = label_bits n l))).
  { rewrite <-(app_nil_r e) in Ho at 1. pose proof (hasCanonicalLabel_ok n e l [] refs node Ho ltac:(rewrite len_nil; lia)) as Hh.
    rewrite Hh. unfold hasCanonicalLabel in Hh. destruct (canonicalLabelFast node n) as [[canonical []] | |]; cbn in *; done. }
  unfold replace_child. destruct (canonicalLabelFast node n) as [[canonical decided] | |]; try discriminate Hcan.
  cbn [mbind outcome_bind] in *. rewrite Hcan. cbn [mbind outcome_bind].
  destruct (bool_decide_reflect (e = label_bits n l)) as [<- | Hne].
  - unfold cloneWithRef, cellRefView_cloneWithRef. rewrite (op_cell _ _ _ _ _ _ _ Ho), refs_finished, Hrefs, len_put.
    replace (<[_ := c]> (put_child x old o)) with (put_child x c o) by now destruct x.
    rewrite <-Hrefs, rehash_with_refs_ok by now apply shallow_put. now destruct x.
  - unfold rebuildNonCanonicalFixedForkWithRef. destruct (storeRefs_fork (if x then o else c) (if x then c else o)) as (b & Hrun & Hb).
    rewrite (node_ref_ok _ _ _ _ _ _ _ 0 (hd c (put_child x old o)) Ho) by (rewrite ?Hrefs; now destruct x).
    rewrite (node_ref_ok _ _ _ _ _ _ _ 1 (List.last (put_child x old o) c) Ho) by (rewrite ?Hrefs; now destruct x).
    cbn [mbind outcome_bind]. replace (storeRef _ false ;; storeRef _ false) with
      (storeRef (Some (if x then o else c)) false ;; storeRef (Some (if x then c else o)) false) by now destruct x.
    rewrite (run_Ok _ _ _ _ Hrun). cbn [mbind outcome_bind]. pose proof (len_sbits _ (op_lwf _ _ _ _ _ _ _ Ho)) as Hbl.
    rewrite (op_lbits _ _ _ _ _ _ _ Ho) in Hbl.
    rewrite (storeDictNodeTraced_ok _ _ _ [] (put_child x c o)); rewrite ?(op_lbits _ _ _ _ _ _ _ Ho), ?app_nil_r;
      try done; try apply Ho; rewrite ?len_nil, ?len_put; try lia; [now destruct x|now apply shallow_put].
Qed.

Lemma splitLabel_ok n c e l pb refs node m :
  opens n c e l pb refs node -> 0 <= m < len l -> len l <= 1023 ->
  exists prefix rest, splitLabel node m = Ok (prefix, rest) /\
    (swf prefix /\ sbits prefix = take (Z.to_nat m) l) /\ (swf rest /\ sbits rest = drop (S (Z.to_nat m)) l).
Proof.
  intros Ho Hm Hl. pose proof (op_lwf _ _ _ _ _ _ _ Ho) as Hs. pose proof (op_lbits _ _ _ _ _ _ _ Ho) as Hb.
  pose proof (len_sbits _ Hs) as HL. rewrite Hb in HL. unfold splitLabel. pose proof (BitsLeft_eq _ Hs) as HB.
  pose proof (swf_bits _ Hs). pose proof (swf_end _ Hs). pose proof (swf_refs _ Hs).
  rewrite (run_Ok _ _ _ _ (SkipBits_ok _ (m + 1) Hs ltac:(lia))). cbn [mbind outcome_bind].
  rewrite (u16_small m), u16_small by lia. do 2 eexists. split; [done|]. split.
  - rewrite <-Hb. apply first_bits_ok; [done|lia|apply swf_refs, Hs|apply swf_rend, Hs].
  - assert (Hd : sbits (n_label node) = take (S (Z.to_nat m)) l ++ drop (S (Z.to_nat m)) l) by now rewrite take_drop.
    destruct (sbits_skip_app _ _ _ Hs Hd) as [Hs' Hb'].
    assert (Hlt : len (take (S (Z.to_nat m)) l) = m + 1) by (unfold len in *; rewrite length_take; lia).
    rewrite Hlt in Hs', Hb'. done.
Qed.

Lemma builderSliceView_ok b bs refs :
  builds b bs refs -> exists s, builderSliceView b = Ok s /\ swf s /\ sbits s = bs.
Proof.
  intros Hb. pose proof (builds_size _ _ _ Hb) as Hsz. destruct Hb as [Hwf Hbs Hr]. unfold builderSliceView.
  pose proof (wf_sz _ Hwf) as Hs. pose proof (wf_len _ Hwf) as Hl.
  rewrite subrange_prefix by (unfold usedBytes; lia). cbn [mbind outcome_bind]. rewrite take_data_pack by done.
  rewrite Hbs, Hsz. eexists. split; [done|]. unfold raw_slice. unfold usedBytes. rewrite Hsz in *. split.
  - split; unfold s_data; cbn [s_cell s_bitStart s_bitEnd s_refStart s_refEnd c_data c_refs];
      rewrite ?len_pack; try lia; [apply bytes_ok_pack|unfold len; cbn [length]; lia..].
  - unfold sbits, s_data. cbn [s_cell s_bitStart s_bitEnd c_data]. rewrite Z.sub_0_r. apply window_pack. lia.
Qed.

Lemma storeSliceFromSlice_builds b bs refs s :
  builds b bs refs -> swf s -> len bs + len (sbits s) <= 1023 ->
  exists b', storeSliceFromSlice (len (sbits s)) (b, s) = (Ok tt, (b', skip s (BitsLeft s))) /\ builds b' (bs ++ sbits s) refs.
Proof.
  intros Hb Hs Hfit. pose proof (builds_size _ _ _ Hb) as Hsz. pose proof (len_sbits s Hs) as HL. pose proof (len_nonneg (sbits s)).
  exists (append b (sbits s)). split; [|now apply builds_append]. rewrite storeSliceFromSlice_ok by (try apply Hb; done || lia).
  rewrite HL. rewrite take_ge by (unfold len in HL; lia). done.
Qed.

(** The label of a merged edge, as the two labels around a bit. *)
Lemma merged_edge_builds lbl x other :
  swf lbl -> swf other -> len (sbits lbl) + 1 + len (sbits other) <= 1023 ->
  exists b1 l1 b2 b3 l3, storeSliceFromSlice (len (sbits lbl)) (BeginCell, lbl) = (Ok tt, (b1, l1)) /\
    StoreUInt (Z.b2z x) 1 b1 = (Ok tt, b2) /\
    storeSliceFromSlice (len (sbits other)) (b2, other) = (Ok tt, (b3, l3)) /\ builds b3 (sbits lbl ++ x :: sbits other) [].
Proof.
  intros Hl Hs Hfit. pose proof (len_nonneg (sbits other)).
  destruct (storeSliceFromSlice_builds BeginCell [] [] lbl) as (b1 & H1 & Hb1); [apply builds_begin|done|rewrite len_nil; lia|].
  pose proof (builds_size _ _ _ Hb1) as Hs1. cbn [app] in *.
  assert (H2 : StoreUInt (Z.b2z x) 1 b1 = (Ok tt, append b1 [x])).
  { rewrite StoreUInt_ok; [now destruct x|apply Hb1|lia|destruct x; cbn; lia|lia]. }
  pose proof (builds_append b1 _ [] [x] Hb1 ltac:(change (len [x]) with 1; lia)) as Hb2.
  destruct (storeSliceFromSlice_builds _ _ _ other Hb2 Hs) as (b3 & H3 & Hb3); [rewrite len_app; change (len [x]) with 1; lia|].
  rewrite <-app_assoc in Hb3. do 5 eexists. eauto.
Qed.

Lemma mergedEdgeLabel_ok n c e l pb refs node x other :
  opens n c e l pb refs node -> swf other -> len l + 1 + len (sbits other) <= 1023 ->
  exists s, mergedEdgeLabel node (Z.b2z x) other = Ok s /\ swf s /\ sbits s = l ++ x :: sbits other.
Proof.
  intros Ho Hs Hfit. unfold mergedEdgeLabel. rewrite (op_len _ _ _ _ _ _ _ Ho), <-(op_lbits _ _ _ _ _ _ _ Ho) in *.
  destruct (merged_edge_builds (n_label node) x other) as (b1 & l1 & b2 & b3 & l3 & H1 & H2 & H3 & Hb); [apply Ho|done|done|].
  rewrite (run_Ok _ _ _ _ H1). cbn [mbind outcome_bind]. rewrite (run_Ok _ _ _ _ H2). cbn [mbind outcome_bind].
  rewrite <-len_sbits by done. rewrite (run_Ok _ _ _ _ H3). cbn [mbind outcome_bind].
  destruct (builderSliceView_ok _ _ _ Hb) as (s & -> & Hsw & Hsb). now exists s.
Qed.
