(* ===== verification/Dict.v ===== *)
(** * Dictionaries

    Models [tvm/cell/dict.go]: lookup, insertion with its modes, deletion, extremal
    keys, enumeration, and the construction from a batch.  A dictionary is a key size
    and a root cell.  The walks take fuel: one unit per node on the path, of which
    there are at most one more than key bits. *)

From S2P Require Import Prelude Bytes CellModel Builder Slice Finalize DictLabel DictNode.
From stdpp Require Import strings.
#[local] Open Scope Z_scope.

Record Dictionary : Type := mkDict {
  d_keySz : Z;
  d_root : option Cell
}.

Definition NewDict (keySz : Z) : Dictionary := mkDict keySz None.
Definition AsDict (c : option Cell) (keySz : Z) : Dictionary := mkDict keySz c.

Definition DictSetModeReplace : Z := 1.
Definition DictSetModeAdd : Z := 2.
Definition DictSetModeSet : Z := 3.

Definition setRoot (root : option Cell) : M Dictionary unit := modify (fun d => mkDict (d_keySz d) root).

Definition walk_fuel (keySz : Z) : nat := S (Z.to_nat keySz).

(** ** Storing nodes *)

Record dictSetValue : Type := mkSetValue {
  sv_builder : option Builder;
  sv_cell : option Cell
}.

(** [Cell.ToBuilderInto] *)
Definition Cell_ToBuilder (c : Cell) : outcome Builder :=
  data ← write (replicate 128 0) 0 (take 128 (c_data c));
  data ← mask_tail data (c_bitsSz c);
  Ok (mkBuilder data (c_bitsSz c) (c_refs c)).

Definition storeLeaf (keyPfx : Slice) (value : option Builder) (keyOffset : Z) : outcome (option Cell) :=
  match value with
  | None => Ok None
  | Some value => c ← storeDictNodeTraced keyPfx value keyOffset; Ok (Some c)
  end.

Definition storeSetLeaf (keyPfx : Slice) (value : dictSetValue) (keyOffset : Z) : outcome (option Cell) :=
  match sv_cell value with
  | None => storeLeaf keyPfx (sv_builder value) keyOffset
  | Some c => b ← Cell_ToBuilder c; storeLeaf keyPfx (Some b) keyOffset
  end.

Definition storeFork (label : Slice) (left right : option Cell) (keyOffset : Z) : outcome Cell :=
  '(_, b) ← run (storeRef left false ;; storeRef right false) BeginCell;
  storeDictNodeTraced label b keyOffset.

(** The [Must] methods panic on an error. *)
Definition must {A} (o : outcome A) : outcome A := match o with Ok a => Ok a | _ => Panic end.

Definition MustLoadBit (s : Slice) : outcome (Z * Slice) := must (run (LoadUInt 1) s).

(** ** Insertion *)

(** The result is the new subtree, the value the key had, and whether anything changed. *)
Fixpoint set (fuel : nat) (branch : option Cell) (pfx : Slice) (keyOffset : Z) (value : dictSetValue) (mode : Z)
    : outcome (option Cell * option Slice * bool) :=
  match branch, fuel with
  | None, _ =>
      if mode =? DictSetModeReplace then Ok (None, None, false)
      else
        leaf ← storeSetLeaf pfx value keyOffset;
        Ok (leaf, None, true)
  | Some _, O => Panic
  | Some branch, S fuel =>
      node ← open_node branch keyOffset None false;
      '(bitsMatches, isNewRight, _, pfx) ← run (matchLabelView (n_label node) (n_labelLen node)) pfx;
      if bitsMatches =? n_labelLen node then
        if BitsLeft pfx =? 0 then
          if mode =? DictSetModeAdd then Ok (Some (n_cell node), Some (n_loader node), false)
          else
            leaf ← storeSetLeaf (n_label node) value keyOffset;
            Ok (leaf, Some (n_loader node), true)
        else
          '(refIdx, pfx) ← MustLoadBit pfx;
          ref ← node_ref node refIdx;
          '(ref, oldValue, changed) ← set fuel (Some ref) pfx (u64 (keyOffset - (bitsMatches + 1))) value mode;
          if negb changed then Ok (Some (n_cell node), oldValue, false)
          else
            cloned ← replace_child node refIdx ref keyOffset;
            Ok (Some cloned, oldValue, true)
      else if mode =? DictSetModeReplace then Ok (Some (n_cell node), None, false)
      else
        '(prefixLabel, labelRemainder) ← splitLabel node bitsMatches;
        '(_, (oldChild, _)) ← run (storeDictLabel (u64 (keyOffset - (bitsMatches + 1)))) (BeginCell, labelRemainder);
        oldPayload ← ToBuilder (n_loader node);
        '(_, oldChild) ← run (storeBuilder oldPayload false) oldChild;
        newChild ← storeSetLeaf pfx value (u64 (keyOffset - (bitsMatches + 1)));
        oldChildCell ← EndCellSpecial false oldChild;
        let left := if (isNewRight : bool) then Some oldChildCell else newChild in
        let right := if (isNewRight : bool) then newChild else Some oldChildCell in
        newBranch ← storeFork prefixLabel left right keyOffset;
        Ok (Some newBranch, None, true)
  end.

(** [loadValueAndSetBySliceKey] *)
Definition loadValueAndSetBySliceKey (keySlice : Slice) (value : dictSetValue) (mode : Z)
    : M Dictionary (option Slice * bool) :=
  d ← get_state;
  '(newRoot, oldValue, changed) ← lift (set (walk_fuel (d_keySz d)) (d_root d) keySlice (d_keySz d) value mode);
  (if changed : bool then setRoot newRoot else mret tt) ;;
  mret (oldValue, changed).

Definition setValueWithModeSlice (keySlice : Slice) (value : dictSetValue) (mode : Z) : M Dictionary bool :=
  d ← get_state;
  '(newRoot, _, changed) ← lift (set (walk_fuel (d_keySz d)) (d_root d) keySlice (d_keySz d) value mode);
  (if changed : bool then setRoot newRoot else mret tt) ;;
  mret changed.

(** The slice of a key cell of the right size. *)
Definition key_cell_slice (key : option Cell) (what : string) : M Dictionary Slice :=
  d ← get_state;
  match key with
  | None => fail (ErrText what)
  | Some key =>
      guard_err (negb (c_bitsSz key =? d_keySz d)) (ErrText what) ;;
      mret (newSliceFromCell key)
  end.

Definition SetWithMode (key value : option Cell) (mode : Z) : M Dictionary bool :=
  match value with
  | None => fail (ErrText "value is nil")
  | Some value =>
      keySlice ← key_cell_slice key "invalid key size";
      setValueWithModeSlice keySlice (mkSetValue None (Some value)) mode
  end.

Definition SetBuilderWithMode (key : option Cell) (value : option Builder) (mode : Z) : M Dictionary bool :=
  keySlice ← key_cell_slice key "invalid key size";
  match value with
  | None => fail (ErrText "value builder is nil")
  | Some value => setValueWithModeSlice keySlice (mkSetValue (Some value) None) mode
  end.

Definition SetBuilderBySliceKeyWithMode (key : Slice) (value : option Builder) (mode : Z) : M Dictionary bool :=
  match value with
  | None => fail (ErrText "value builder is nil")
  | Some value =>
      d ← get_state;
      match fixedDictKeySlice key (d_keySz d) with
      | Ok keySlice => setValueWithModeSlice keySlice (mkSetValue (Some value) None) mode
      | Err _ => fail (ErrText "invalid key size")
      | Panic => lift Panic
      end
  end.

(** The view of an integer key. *)
Definition int_key_slice (key : option Z) : M Dictionary Slice :=
  d ← get_state;
  b ← lift (initIntKeyBuilder key (d_keySz d));
  lift (builderSliceView b).

Definition SetBuilderByIntKeyWithMode (key : option Z) (value : option Builder) (mode : Z) : M Dictionary bool :=
  match value with
  | None => fail (ErrText "value builder is nil")
  | Some value =>
      keySlice ← int_key_slice key;
      setValueWithModeSlice keySlice (mkSetValue (Some value) None) mode
  end.

Definition SetBuilderByBytesKeyWithMode (key : list Z) (value : option Builder) (mode : Z) : M Dictionary bool :=
  d ← get_state;
  guard_err (len key * 8 <? d_keySz d) (ErrText "incorrect key size") ;;
  match value with
  | None => fail (ErrText "value builder is nil")
  | Some value => setValueWithModeSlice (raw_slice key (d_keySz d)) (mkSetValue (Some value) None) mode
  end.

Definition SetBuilderByUintKeyWithMode (key : Z) (value : option Builder) (mode : Z) : M Dictionary bool :=
  match value with
  | None => fail (ErrText "value builder is nil")
  | Some value =>
      d ← get_state;
      b ← lift (initUintKeyBuilder key (d_keySz d));
      keySlice ← lift (builderSliceView b);
      setValueWithModeSlice keySlice (mkSetValue (Some value) None) mode
  end.

Definition LoadValueAndSetWithMode (key value : option Cell) (mode : Z) : M Dictionary (option Slice * bool) :=
  match value with
  | None => fail (ErrText "value is nil")
  | Some value =>
      keySlice ← key_cell_slice key "incorrect key size";
      loadValueAndSetBySliceKey keySlice (mkSetValue None (Some value)) mode
  end.

Definition LoadValueAndSetBuilderWithMode (key : option Cell) (value : option Builder) (mode : Z)
    : M Dictionary (option Slice * bool) :=
  keySlice ← key_cell_slice key "incorrect key size";
  match value with
  | None => fail (ErrText "value builder is nil")
  | Some value => loadValueAndSetBySliceKey keySlice (mkSetValue (Some value) None) mode
  end.

(** ** Deletion *)

(** The result is the removed value, the new subtree, and whether anything changed. *)
Fixpoint lookupDelete (fuel : nat) (branch : option Cell) (pfx : Slice) (keyOffset : Z)
    : outcome (option Slice * option Cell * bool) :=
  match branch, fuel with
  | None, _ => Ok (None, None, false)
  | Some _, O => Panic
  | Some branch, S fuel =>
      node ← open_node branch keyOffset None false;
      '(bitsMatches, (_, pfx)) ← run (consumeCommonPrefix (n_labelLen node)) (n_label node, pfx);
      if bitsMatches <? n_labelLen node then Ok (None, None, false)
      else if BitsLeft pfx =? 0 then Ok (Some (n_loader node), None, true)
      else
        '(refIdx, pfx) ← MustLoadBit pfx;
        ref ← node_ref node refIdx;
        let nextKeyOffset := u64 (keyOffset - (bitsMatches + 1)) in
        '(removed, newChild, changed) ← lookupDelete fuel (Some ref) pfx nextKeyOffset;
        if negb changed then Ok (None, None, false)
        else
          match newChild with
          | None =>
              let otherIdx := Z.lxor refIdx 1 in
              otherRef ← node_ref node otherIdx;
              otherNode ← open_node otherRef nextKeyOffset None false;
              mergedLabel ← mergedEdgeLabel node otherIdx (n_label otherNode);
              survivorPayload ← ToBuilder (n_loader otherNode);
              merged ← storeLeaf mergedLabel (Some survivorPayload) keyOffset;
              Ok (removed, merged, true)
          | Some _ =>
              cloned ← replace_child node refIdx newChild keyOffset;
              Ok (removed, Some cloned, true)
          end
  end.

Definition deleteBySliceKey (keySlice : Slice) : M Dictionary bool :=
  d ← get_state;
  '(_, newRoot, changed) ← lift (lookupDelete (walk_fuel (d_keySz d)) (d_root d) keySlice (d_keySz d));
  (if changed : bool then setRoot newRoot else mret tt) ;;
  mret changed.

Definition Delete (key : option Cell) : M Dictionary unit :=
  keySlice ← key_cell_slice key "incorrect key size";
  deleteBySliceKey keySlice ;;
  mret tt.

Definition DeleteBySliceKey (key : Slice) : M Dictionary bool :=
  d ← get_state;
  keySlice ← lift (fixedDictKeySlice key (d_keySz d));
  deleteBySliceKey keySlice.

Definition DeleteByIntKey (key : option Z) : M Dictionary bool :=
  keySlice ← int_key_slice key;
  deleteBySliceKey keySlice.

(** [Set]: a nil value deletes the key. *)
Definition Set_ (key value : option Cell) : M Dictionary unit :=
  match value with
  | None => Delete key
  | Some _ => SetWithMode key value DictSetModeSet ;; mret tt
  end.

Definition SetIntKey (key : option Z) (value : option Cell) : M Dictionary unit :=
  match value with
  | None => DeleteByIntKey key ;; mret tt
  | Some value =>
      keySlice ← int_key_slice key;
      setValueWithModeSlice keySlice (mkSetValue None (Some value)) DictSetModeSet ;;
      mret tt
  end.

Definition sameDictRoot (a b : option Cell) : bool :=
  match a, b with
  | Some a, Some b => bool_decide (HashKey a = HashKey b)
  | None, None => true
  | _, _ => false
  end.

Definition loadValueAndDeleteBySliceKey (keySlice : Slice) : M Dictionary Slice :=
  d ← get_state;
  '(removed, newRoot, changed) ← lift (lookupDelete (walk_fuel (d_keySz d)) (d_root d) keySlice (d_keySz d));
  match removed with
  | None => fail ErrNoSuchKeyInDict
  | Some removed =>
      guard_err (negb changed || sameDictRoot (d_root d) newRoot) ErrNoSuchKeyInDict ;;
      setRoot newRoot ;;
      mret removed
  end.

Definition LoadValueAndDelete (key : option Cell) : M Dictionary Slice :=
  keySlice ← key_cell_slice key "incorrect key size";
  loadValueAndDeleteBySliceKey keySlice.

(** ** Lookup *)

(** The loop of [findKeySliceInto], with the resolver and the leniency of [dictWalk]. *)
Fixpoint findKey (fuel : nat) (branch : Cell) (lKey : Slice) (resolver : resolver_t) (lenient : bool) : outcome Slice :=
  branch ← resolveDictNodeCell branch resolver;
  let branchSlice := newSliceFromCell branch in
  let remaining := BitsLeft lKey in
  '(sz, matched, (branchSlice, lKey)) ← run (matchLabelPrefix remaining) (branchSlice, lKey);
  if negb (matched =? sz) then
    if sz <? remaining then
      '(_, check) ← run (readLabelView remaining) (newSliceFromCell branch);
      let refsLeft := RefsNum check in
      if (negb (s_bitStart check =? s_bitEnd check) || negb (refsLeft =? 2)) && (negb lenient || (refsLeft <? 2))
      then Err ErrInvalidDictForkNode
      else Err ErrNoSuchKeyInDict
    else Err ErrNoSuchKeyInDict
  else if remaining =? sz then Ok branchSlice
  else
    let refsLeft := RefsNum branchSlice in
    if (negb (s_bitStart branchSlice =? s_bitEnd branchSlice) || negb (refsLeft =? 2))
       && (negb lenient || (refsLeft <? 2))
    then Err ErrInvalidDictForkNode
    else
      '(idx, lKey) ← run (LoadUInt 1) lKey;
      next ← fst (peekRefCellAt idx branchSlice);
      match fuel with
      | O => Panic
      | S fuel => findKey fuel next lKey resolver lenient
      end.

Definition findKeySliceInto (lKey : Slice) (resolver : resolver_t) (lenient : bool) : M Dictionary Slice :=
  d ← get_state;
  match d_root d with
  | None => fail ErrNoSuchKeyInDict
  | Some branch => lift (findKey (walk_fuel (BitsLeft lKey)) branch lKey resolver lenient)
  end.

Definition LoadValue (key : option Cell) : M Dictionary Slice :=
  keySlice ← key_cell_slice key "incorrect key size";
  findKeySliceInto keySlice None false.

Definition LoadValueWithResolver (key : option Cell) (resolver : resolver_t) : M Dictionary Slice :=
  keySlice ← key_cell_slice key "incorrect key size";
  findKeySliceInto keySlice resolver false.

Definition LoadValueBySliceKeyInto (key : Slice) : M Dictionary Slice :=
  d ← get_state;
  keySlice ← lift (fixedDictKeySlice key (d_keySz d));
  findKeySliceInto keySlice None false.

Definition LoadValueByIntKeyInto (key : option Z) : M Dictionary Slice :=
  keySlice ← int_key_slice key;
  findKeySliceInto keySlice None false.

Definition LoadValueByUintKeyInto (key : Z) : M Dictionary Slice :=
  d ← get_state;
  match initUintKeyBuilder key (d_keySz d) with
  | Ok b => keySlice ← lift (builderSliceView b); findKeySliceInto keySlice None false
  | _ => lift Panic
  end.

Definition LoadValueByBytesKeyInto (key : list Z) : M Dictionary Slice :=
  d ← get_state;
  guard_err (len key * 8 <? d_keySz d) (ErrText "incorrect key size") ;;
  findKeySliceInto (raw_slice key (d_keySz d)) None false.

(** ** Extremal keys *)

(** The loop of [LoadMinMax]: the bits of the extremal key and the slice of its value. *)
Fixpoint minMaxLoop (fuel : nat) (branch : Cell) (key : Builder) (remaining : Z) (fetchMax invertFirst : bool)
    : outcome (Builder * Slice) :=
  branch ← resolveDictNodeCell branch None;
  '(labelLen, (key, loader)) ← run (loadLabel remaining) (key, newSliceFromCell branch);
  if (labelLen <? remaining) && (negb (BitsLeft loader =? 0) || negb (RefsNum loader =? 2))
  then Err ErrInvalidDictForkNode
  else
    let remaining := remaining - labelLen in
    if remaining =? 0 then Ok (key, loader)
    else
      let bit := if (b_bitsSz key =? 0) && invertFirst then negb fetchMax else fetchMax in
      '(_, key) ← run (StoreBoolBit bit) key;
      next ← fst (peekRefCellAt (if bit then 1 else 0) loader);
      match fuel with
      | O => Panic
      | S fuel => minMaxLoop fuel next key (remaining - 1) fetchMax invertFirst
      end.

Definition LoadMinMax (fetchMax invertFirst : bool) : M Dictionary (Cell * Slice) :=
  d ← get_state;
  match d_root d with
  | None => fail ErrNoSuchKeyInDict
  | Some root =>
      '(key, value) ← lift (minMaxLoop (walk_fuel (d_keySz d)) root BeginCell (d_keySz d) fetchMax invertFirst);
      key ← lift (EndCell key);
      mret (key, value)
  end.

Definition LoadMinMaxAndDelete (fetchMax invertFirst : bool) : M Dictionary (Cell * Slice) :=
  '(key, value) ← LoadMinMax fetchMax invertFirst;
  d ← get_state;
  '(_, newRoot, changed) ← lift (lookupDelete (walk_fuel (d_keySz d)) (d_root d) (newSliceFromCell key) (d_keySz d));
  guard_err (negb changed) ErrNoSuchKeyInDict ;;
  setRoot newRoot ;;
  mret (key, value).

(** ** Enumeration *)

Fixpoint mapInner (fuel : nat) (keySz leftKeySz : Z) (c : Cell) (keyPrefix : Builder) (skipPruned : bool)
    (out : list (Slice * Slice)) : outcome (list (Slice * Slice) * Builder) :=
  if c_special c then
    if skipPruned && bool_decide (computeType c = PrunedCellType) then Ok (out, keyPrefix)
    else Err ErrDictHasSpecialCells
  else
    '(sz, (keyPrefix, loader)) ← run (loadLabel leftKeySz) (keyPrefix, newSliceFromCell c);
    if b_bitsSz keyPrefix <? keySz then
      match fuel with
      | O => Panic
      | S fuel =>
          let saved := b_bitsSz keyPrefix in
          '(lref, loader) ← run (loadRefCell true) loader;
          '(_, keyPrefix) ← must (run (StoreUInt 0 1) keyPrefix);
          '(out, keyPrefix) ← mapInner fuel keySz (u64 (leftKeySz - (1 + sz))) lref keyPrefix skipPruned out;
          '(_, keyPrefix) ← run (truncateBits saved) keyPrefix;
          '(rref, loader) ← run (loadRefCell true) loader;
          '(_, keyPrefix) ← must (run (StoreUInt 1 1) keyPrefix);
          '(out, keyPrefix) ← mapInner fuel keySz (u64 (leftKeySz - (1 + sz))) rref keyPrefix skipPruned out;
          '(_, keyPrefix) ← run (truncateBits saved) keyPrefix;
          Ok (out, keyPrefix)
      end
    else
      key ← EndCell keyPrefix;
      Ok (out ++ [(newSliceFromCell key, loader)], keyPrefix).

Definition LoadAll (skipPruned : bool) (d : Dictionary) : outcome (list (Slice * Slice)) :=
  match d_root d with
  | None => Ok []
  | Some root =>
      '(out, _) ← mapInner (walk_fuel (d_keySz d)) (d_keySz d) (d_keySz d) root BeginCell skipPruned [];
      Ok out
  end.

Definition IsEmpty (d : Dictionary) : bool :=
  match d_root d with
  | None => true
  | Some root => (c_bitsSz root =? 0) && (len (c_refs root) =? 0)
  end.
