(* ===== verification/DictBulk.v ===== *)
(** * Building and updating dictionaries in batches

    Models [NewDictFromItems] and [buildFromSorted] of [tvm/cell/dict.go],
    [dict_bulk_sort.go] and [dict_multiset.go].  The slabs the bulk build allocates its
    cells from ([dict_bulk_arena.go]) hold the same cells as the ordinary allocation
    and do not show here.  Where the code compares pointers, the model carries whether
    a subtree is the one passed in; the comparison of the pointers of a value's
    references is a parameter. *)

From S2P Require Import Prelude Bytes CellModel Builder Slice Finalize DictLabel DictNode Dict.
From stdpp Require Import list strings.
#[local] Open Scope Z_scope.

Record DictBulkKV : Type := mkKV {
  kv_key : list Z;
  kv_value : option Builder
}.

(** ** Order of keys *)

(** [bytes.Compare] *)
Fixpoint bytes_compare (a b : list Z) : Z :=
  match a, b with
  | [], [] => 0
  | [], _ :: _ => -1
  | _ :: _, [] => 1
  | x :: a, y :: b => if x <? y then -1 else if y <? x then 1 else bytes_compare a b
  end.

(** [compareDictBulkKeys]; its callers have checked that the keys are long enough. *)
Definition compareDictBulkKeys (a b : list Z) (keySz : Z) : Z :=
  let full := Z.to_nat (keySz / 8) in
  let c := bytes_compare (take full a) (take full b) in
  if negb (c =? 0) then c
  else
    let rest := keySz mod 8 in
    if rest =? 0 then 0
    else
      let mask := u8 (255 ≪ (8 - rest)) in
      let av := Z.land (byte_at a (keySz / 8)) mask in
      let bv := Z.land (byte_at b (keySz / 8)) mask in
      if av <? bv then -1 else if bv <? av then 1 else 0.

Definition compare_items (keySz : Z) (a b : DictBulkKV) : Z := compareDictBulkKeys (kv_key a) (kv_key b) keySz.

(** [slices.SortStableFunc]: the order with equal elements as they were. *)
Fixpoint insert_stable {A} (cmp : A -> A -> Z) (x : A) (l : list A) : list A :=
  match l with
  | [] => [x]
  | y :: l => if cmp x y <=? 0 then x :: y :: l else y :: insert_stable cmp x l
  end.

Definition SortStableFunc {A} (cmp : A -> A -> Z) (l : list A) : list A := foldr (insert_stable cmp) [] l.

Definition dictBulkRadixThreshold : Z := 256.

(** The cycle of [applyBulkOrder] that starts at [start]. *)
Fixpoint applyCycle {T} (fuel : nat) (start current : nat) (next : Z) (items : list T) (order : list Z)
    : outcome (list T * list Z * nat) :=
  if next =? Z.of_nat start then Ok (items, order, current)
  else
    match fuel with
    | O => Panic
    | S fuel =>
        match items !! Z.to_nat next, order !! Z.to_nat next with
        | Some x, Some next' =>
            applyCycle fuel start (Z.to_nat next) next' (<[current := x]> items) (<[current := -1]> order)
        | _, _ => Panic
        end
    end.

Definition applyStart {T} (acc : outcome (list T * list Z)) (start : nat) : outcome (list T * list Z) :=
  '(items, order) ← acc;
  match order !! start, items !! start with
  | Some next, Some saved =>
      if next <? 0 then Ok (items, order)
      else if next =? Z.of_nat start then Ok (items, <[start := -1]> order)
      else
        '(items, order, current) ← applyCycle (length items) start start next items order;
        Ok (<[current := saved]> items, <[current := -1]> order)
  | _, _ => Panic
  end.

Definition applyBulkOrder {T} (items : list T) (order : list Z) : outcome (list T) :=
  '(items, _) ← foldl applyStart (Ok (items, order)) (seq 0 (length order));
  Ok items.

(** The first byte of a key, and the counts of the distribution pass. *)
Definition first_byte (i : DictBulkKV) : nat := Z.to_nat (byte_at (kv_key i) 0).

Definition prefix_sums (l : list Z) : list Z :=
  snd (foldl (fun '(acc, out) x => (acc + x, out ++ [acc + x])) (0, []) l).

Definition bulk_bounds (items : list DictBulkKV) : list Z :=
  prefix_sums (foldl (fun bounds i => alter Z.succ (S (first_byte i)) bounds) (replicate 257 0) items).

(** One step of the scatter, which also advances the bucket's cursor. *)
Definition scatter_step (acc : list Z * list Z) (e : nat * DictBulkKV) : list Z * list Z :=
  let '(order, cursor) := acc in
  let bucket := first_byte (snd e) in
  let at_ := nth bucket cursor 0 in
  (<[Z.to_nat at_ := Z.of_nat (fst e)]> order, alter Z.succ bucket cursor).

Definition sort_bucket (keySz : Z) (bounds : list Z) (items : list DictBulkKV) (bucket : nat) : list DictBulkKV :=
  let start := Z.to_nat (nth bucket bounds 0) in
  let end_ := Z.to_nat (nth (S bucket) bounds 0) in
  if (end_ - start <? 2)%nat then items
  else take start items ++ SortStableFunc (compare_items keySz) (take (end_ - start) (drop start items)) ++ drop end_ items.

(** [acquireBulkSortOrder]; [stale] is what the pooled scratch buffer holds. *)
Definition acquireBulkSortOrder (stale : list Z) (n : nat) : list Z :=
  if (length stale <? n)%nat then replicate n 0 else take n stale.

Definition sortDictBulkItems (stale : list Z) (keySz : Z) (items : list DictBulkKV) : outcome (list DictBulkKV) :=
  if (len items <? dictBulkRadixThreshold) || (keySz <? 8) then Ok (SortStableFunc (compare_items keySz) items)
  else
    let bounds := bulk_bounds items in
    let '(order, _) := foldl scatter_step (acquireBulkSortOrder stale (length items), bounds) (zip (seq 0 (length items)) items) in
    items ← applyBulkOrder items order;
    Ok (foldl (sort_bucket keySz bounds) items (seq 0 256)).

(** ** Building from sorted items *)

(** [sort.Search]: the least index at which [f] holds, by bisection. *)
Fixpoint searchLoop (fuel : nat) (f : Z -> outcome bool) (i j : Z) : outcome Z :=
  if i <? j then
    match fuel with
    | O => Panic
    | S fuel =>
        let h := (i + j) / 2 in
        b ← f h;
        if negb b then searchLoop fuel f (h + 1) j else searchLoop fuel f i h
    end
  else Ok i.

Definition sort_Search (n : Z) (f : Z -> outcome bool) : outcome Z := searchLoop (Z.to_nat n) f 0 n.

Definition keyBitAt (key : list Z) (at_ : Z) : outcome Z :=
  x ← index key (at_ / 8);
  Ok (Z.land (x ≫ (7 - at_ mod 8)) 1).

Definition splitBatchAt (items : list DictBulkKV) (at_ : Z) : outcome Z :=
  sort_Search (len items) (fun i =>
    match items !! Z.to_nat i with
    | Some it => b ← keyBitAt (kv_key it) at_; Ok (negb (b =? 0))
    | None => Panic
    end).

(** The view of a key from bit [pos] to [bitEnd]. *)
Definition key_view (keySz : Z) (key : list Z) (pos bitEnd : Z) : Slice :=
  mkSlice (mkCell key keySz false 0 [] [] []) pos bitEnd 0 0.

Fixpoint buildFromSorted (fuel : nat) (keySz : Z) (items : list DictBulkKV) (pos : Z) : outcome (option Cell) :=
  let remaining := u64 (keySz - pos) in
  match items with
  | [] => Panic
  | first :: rest =>
      let firstView := key_view keySz (kv_key first) (u16 pos) (u16 keySz) in
      match last rest with
      | None => storeLeaf firstView (kv_value first) remaining
      | Some lastItem =>
          match fuel with
          | O => Panic
          | S fuel =>
              common ← commonSlicePrefix firstView (key_view keySz (kv_key lastItem) (u16 pos) (u16 keySz)) remaining;
              let split := pos + common in
              mid ← splitBatchAt items split;
              left ← buildFromSorted fuel keySz (take (Z.to_nat mid) items) (split + 1);
              right ← buildFromSorted fuel keySz (drop (Z.to_nat mid) items) (split + 1);
              c ← storeFork (key_view keySz (kv_key first) (u16 pos) (u16 split)) left right remaining;
              Ok (Some c)
          end
      end
  end.

Definition validateDictKeySize (keySz : Z) : outcome unit :=
  if maxDictKeyBits <? keySz then Err (ErrText "dict key size exceeds 1023 bits") else Ok tt.

(** The last item of each run of equal keys. *)
Fixpoint last_of_runs (keySz : Z) (items : list DictBulkKV) : list DictBulkKV :=
  match items with
  | [] => []
  | a :: rest =>
      match rest with
      | b :: _ => if compare_items keySz a b =? 0 then last_of_runs keySz rest else a :: last_of_runs keySz rest
      | [] => [a]
      end
  end.

Fixpoint check_items (keyBytes : Z) (items : list DictBulkKV) : outcome unit :=
  match items with
  | [] => Ok tt
  | i :: rest =>
      if len (kv_key i) <? keyBytes then Err (ErrText "key of item is shorter than the key size")
      else match kv_value i with
           | None => Err (ErrText "value builder of item is nil")
           | Some _ => check_items keyBytes rest
           end
  end.

Definition NewDictFromItems (stale : list Z) (keySz : Z) (items : list DictBulkKV) : outcome Dictionary :=
  validateDictKeySize keySz ;;
  if len items =? 0 then Ok (NewDict keySz)
  else
    let keyBytes := (keySz + 7) / 8 in
    check_items keyBytes items ;;
    items ← sortDictBulkItems stale keySz items;
    root ← buildFromSorted (walk_fuel keySz) keySz (last_of_runs keySz items) 0;
    Ok (mkDict keySz root).

(** ** Updating with a sorted batch *)

Definition multisetBuild (keySz : Z) (items : list DictBulkKV) (pos : Z) : outcome (option Cell) :=
  if len items =? 0 then Ok None
  else if existsb (fun i => match kv_value i with None => true | Some _ => false end) items then Err ErrNoSuchKeyInDict
  else buildFromSorted (walk_fuel keySz) keySz items pos.

(** [slice] of a label. *)
Definition Slice_slice (c : Slice) (start length : Z) : Slice :=
  let bitStart := u16 (s_bitStart c + u16 start) in
  mkSlice (s_cell c) bitStart (u16 (bitStart + u16 length)) (s_refStart c) (s_refStart c).

Definition canReuseMultisetNode (node : fixedDictNode) (remaining skip : Z) : outcome bool :=
  if negb (skip =? 0) then Ok false else hasCanonicalLabel node remaining.

Definition joinMultisetChildren (label : Slice) (labelLen : Z) (left right : option Cell) (remaining : Z) : outcome (option Cell) :=
  match left, right with
  | Some _, Some _ => c ← storeFork (Slice_slice label 0 labelLen) left right remaining; Ok (Some c)
  | None, None => Ok None
  | _, _ =>
      let '(survivor, edge) := match left with Some l => (Some l, 0) | None => (right, 1) end in
      match survivor with
      | None => Panic
      | Some survivor =>
          node ← open_node survivor (u64 (remaining - labelLen - 1)) None false;
          '(_, (merged, _)) ← run (storeSliceFromSlice labelLen) (BeginCell, Slice_slice label 0 labelLen);
          '(_, merged) ← run (StoreUInt edge 1) merged;
          '(_, (merged, _)) ← run (storeSliceFromSlice (n_labelLen node)) (merged, n_label node);
          payload ← ToBuilder (n_loader node);
          view ← builderSliceView merged;
          c ← storeDictNodeTraced view payload remaining;
          Ok (Some c)
      end
  end.

Section multiset.
  (** Whether two references are the same pointer. *)
  Variable same_pointer : Cell -> Cell -> bool.

Definition multisetValueUnchanged (stored : Slice) (value : Builder) : outcome bool :=
  if negb (BitsLeft stored =? b_bitsSz value) || negb (RefsNum stored =? len (b_refs value)) then Ok false
  else if negb (forallb (fun '(a, b) => same_pointer a b) (zip (drop (Z.to_nat (s_refStart stored)) (c_refs (s_cell stored))) (b_refs value)))
  then Ok false
  else
    view ← builderSliceView value;
    BitsEqual stored view.

(** The result is the subtree and whether it is the one passed in. *)
Fixpoint multisetNode (fuel : nat) (keySz : Z) (branch : option Cell) (items : list DictBulkKV) (pos skip : Z)
    : outcome (option Cell * bool) :=
  let remaining := u64 (keySz - pos) in
  match branch, items, fuel with
  | None, _, _ => c ← multisetBuild keySz items pos; Ok (c, false)
  | Some branch, [], _ => Ok (Some branch, true)
  | _, _, O => Panic
  | Some branch, firstItem :: rest, S fuel =>
      node ← open_node branch (remaining + skip) None false;
      if n_labelLen node <? skip then Err (ErrText "dictionary node label is shorter than its consumed prefix")
      else
        '(_, label) ← (if 0 <? skip then run (SkipBits skip) (n_label node) else Ok (tt, n_label node));
        let labelLen := n_labelLen node - skip in
        let first := key_view keySz (kv_key firstItem) (u16 pos) (u16 keySz) in
        batchLen ← (match last rest with
                    | Some lastItem => commonSlicePrefix first (key_view keySz (kv_key lastItem) (u16 pos) (u16 keySz)) remaining
                    | None => Ok remaining
                    end);
        let limit := Z.min labelLen batchLen in
        matched ← (if 0 <? limit then commonSlicePrefix label first limit else Ok 0);
        if (matched <? labelLen) && (matched <? batchLen) then
          payload ← ToBuilder (n_loader node);
          oldSide ← storeDictNodeTraced (Slice_slice label (matched + 1) (u64 (labelLen - matched - 1))) payload
                      (u64 (remaining - matched - 1));
          newSide ← multisetBuild keySz items (pos + matched + 1);
          bit ← keyBitAt (kv_key firstItem) (pos + matched);
          let left := if bit =? 0 then newSide else Some oldSide in
          let right := if bit =? 0 then Some oldSide else newSide in
          c ← storeFork (Slice_slice label 0 matched) left right remaining;
          Ok (Some c, false)
        else if (matched =? labelLen) && (matched <? batchLen) then
          descend ← keyBitAt (kv_key firstItem) (pos + matched);
          kept ← node_ref node (Z.lxor descend 1);
          target ← node_ref node descend;
          '(updated, same) ← multisetNode fuel keySz (Some target) items (pos + matched + 1) 0;
          reuse ← (if same : bool then canReuseMultisetNode node remaining skip else Ok false);
          if reuse : bool then Ok (Some branch, true)
          else
            let left := if descend =? 0 then updated else Some kept in
            let right := if descend =? 0 then Some kept else updated in
            c ← joinMultisetChildren label matched left right remaining;
            Ok (c, false)
        else if (matched =? batchLen) && (matched <? labelLen) then
          '(side, _) ← run (BitAt matched) label;
          mid ← splitBatchAt items (pos + matched);
          let lo := take (Z.to_nat mid) items in
          let hi := drop (Z.to_nat mid) items in
          let own := if negb (side =? 0) then hi else lo in
          let fresh := if negb (side =? 0) then lo else hi in
          '(moved, _) ← multisetNode fuel keySz (Some branch) own (pos + matched + 1) (skip + matched + 1);
          built ← multisetBuild keySz fresh (pos + matched + 1);
          let left := if negb (side =? 0) then built else moved in
          let right := if negb (side =? 0) then moved else built in
          c ← joinMultisetChildren label matched left right remaining;
          Ok (c, false)
        else if matched =? remaining then
          if negb (len items =? 1) then Err (ErrText "dictionary update batch resolves several values for one key")
          else
            match kv_value firstItem with
            | None => Ok (None, false)
            | Some value =>
                unchanged ← multisetValueUnchanged (n_loader node) value;
                reuse ← (if unchanged : bool then canReuseMultisetNode node remaining skip else Ok false);
                if reuse : bool then Ok (Some branch, true)
                else
                  c ← storeLeaf (Slice_slice label 0 matched) (Some value) remaining;
                  Ok (c, false)
            end
        else
          mid ← splitBatchAt items (pos + matched);
          leftRef ← node_ref node 0;
          rightRef ← node_ref node 1;
          '(l, sameL) ← multisetNode fuel keySz (Some leftRef) (take (Z.to_nat mid) items) (pos + matched + 1) 0;
          '(r, sameR) ← multisetNode fuel keySz (Some rightRef) (drop (Z.to_nat mid) items) (pos + matched + 1) 0;
          reuse ← (if sameL && sameR then canReuseMultisetNode node remaining skip else Ok false);
          if reuse : bool then Ok (Some branch, true)
          else
            c ← joinMultisetChildren label matched l r remaining;
            Ok (c, false)
  end.

Definition adjacent_equal (keySz : Z) (items : list DictBulkKV) : bool :=
  existsb (fun '(a, b) => compare_items keySz a b =? 0) (zip items (tail items)).

Definition Multiset (stale : list Z) (updates : list DictBulkKV) : M Dictionary unit :=
  if len updates =? 0 then mret tt
  else
    d ← get_state;
    let keySz := d_keySz d in
    let keyBytes := (keySz + 7) / 8 in
    guard_err (existsb (fun u => len (kv_key u) <? keyBytes) updates) (ErrText "key of update is shorter than the key size") ;;
    updates ← lift (sortDictBulkItems stale keySz updates);
    guard_err (adjacent_equal keySz updates) (ErrText "key appears twice in one dictionary update batch") ;;
    '(root, _) ← lift (multisetNode (walk_fuel keySz) keySz (d_root d) updates 0 0);
    setRoot root.

End multiset.
