(* ===== verification/DictSpec.v ===== *)
(** * What the operations of a dictionary do to the tree it holds

    [rep n c t]: cell [c] is the root of a dictionary with [n] key bits left whose tree
    is [t].  It is stated for any way of encoding the labels that admits the shortest
    one, so that the same proofs cover all well-formed dictionaries and the canonical
    ones, which only hold shortest labels.  The lemmas give the result of each walk of
    [Dict] on such a cell: they succeed, and do to the tree what [DictTree] says. *)

From S2P Require Import Prelude Bytes CellModel Builder Finalize BuilderSpec BuilderOps Slice SliceSpec CellHash SliceCompare CellTheorems DictLabel.
From S2P Require Import DictLabelTheorems DictTree DictNode DictNodeSpec Dict.
From stdpp Require Import gmap.
#[local] Open Scope Z_scope.

(** The bits and the references a key is bound to. *)
Definition value : Type := list bool * list Cell.

(** The encodings of labels a dictionary may hold. *)
Class LabelForm (enc : Z -> list bool -> list bool -> Prop) : Prop := {
  form_encodes n l e : enc n l e -> encodes n l e;
  form_shortest n l : enc n l (label_bits n l)
}.

Definition shortest (n : Z) (l e : list bool) : Prop := e = label_bits n l.

#[export] Instance any_form : LabelForm encodes.
Proof. split; [done|apply label_bits_encodes]. Qed.

#[export] Instance shortest_form : LabelForm shortest.
Proof. split; [intros n l e ->; apply label_bits_encodes|done]. Qed.

(** ** Key matching *)

Lemma lcp_follow l r : lcp l (l ++ r) = len l.
Proof. rewrite <-(app_nil_r l) at 1. rewrite lcp_app_eq. cbn [lcp]. lia. Qed.

Lemma consumed_follow l r : consumed l (l ++ r) = len l.
Proof.
  unfold consumed. cbv zeta. rewrite lcp_follow, len_app. pose proof (len_nonneg r).
  destruct (Z.ltb_spec (len l) (Z.min (len l) (len l + len r))); [lia|done].
Qed.

Lemma consumed_leave p x l2 k2 : consumed (p ++ negb x :: l2) (p ++ x :: k2) = len p + 1.
Proof.
  unfold consumed. cbv zeta. rewrite lcp_diverge, !len_app, !len_cons. pose proof (len_nonneg l2). pose proof (len_nonneg k2).
  split_cmp; done.
Qed.

(** A slice after the first bits of it. *)
Lemma skip_rest s l r : swf s -> sbits s = l ++ r -> swf (skip s (len l)) /\ sbits (skip s (len l)) = r.
Proof. apply sbits_skip_app. Qed.

Lemma skip_rest_1 s p x r : swf s -> sbits s = p ++ x :: r -> swf (skip s (len p + 1)) /\ sbits (skip s (len p + 1)) = r.
Proof.
  intros Hs H. rewrite cons_middle, app_assoc in H. pose proof (sbits_skip_app _ _ _ Hs H) as Hr.
  now rewrite len_app in Hr.
Qed.

Lemma match_follow lbl s r :
  swf lbl -> swf s -> sbits s = sbits lbl ++ r ->
  exists s', matchLabelView lbl (len (sbits lbl)) s = (Ok (len (sbits lbl), false, false), s') /\ swf s' /\ sbits s' = r.
Proof.
  intros Hl Hs H. exists (skip s (len (sbits lbl))). split; [|now apply skip_rest].
  rewrite matchLabelView_ok, H, lcp_follow, consumed_follow by done. rewrite len_app. pose proof (len_nonneg r).
  destruct (Z.ltb_spec (len (sbits lbl)) (Z.min (len (sbits lbl)) (len (sbits lbl) + len r))); [lia|done].
Qed.

Lemma match_leave lbl s p x l2 k2 :
  swf lbl -> swf s -> sbits lbl = p ++ negb x :: l2 -> sbits s = p ++ x :: k2 ->
  exists s', matchLabelView lbl (len (sbits lbl)) s = (Ok (len p, x, true), s') /\ swf s' /\ sbits s' = k2.
Proof.
  intros Hl Hs Hlb H. exists (skip s (len p + 1)). split; [|now apply (skip_rest_1 s p x)].
  rewrite matchLabelView_ok, Hlb, H, lcp_diverge, consumed_leave by done. rewrite !len_app, !len_cons.
  pose proof (len_nonneg l2). pose proof (len_nonneg k2). 
  replace (nth (Z.to_nat (len p)) (p ++ x :: k2) false) with x by (unfold len; now rewrite Nat2Z.id, nth_middle).
  destruct (Z.ltb_spec (len p) (Z.min (len p + (len l2 + 1)) (len p + (len k2 + 1)))); [done|lia].
Qed.

Lemma consume_follow lbl s r :
  swf lbl -> swf s -> sbits s = sbits lbl ++ r ->
  exists lbl' s', consumeCommonPrefix (len (sbits lbl)) (lbl, s) = (Ok (len (sbits lbl)), (lbl', s')) /\ swf s' /\ sbits s' = r.
Proof.
  intros Hl Hs H. exists (skip lbl (len (sbits lbl))), (skip s (len (sbits lbl))). split; [|now apply skip_rest].
  rewrite (consumeCommonPrefix_ok lbl s (sbits lbl) []) by (done || now rewrite app_nil_r).
  now rewrite H, lcp_follow, consumed_follow.
Qed.

Lemma consume_leave lbl s p x l2 k2 :
  swf lbl -> swf s -> sbits lbl = p ++ negb x :: l2 -> sbits s = p ++ x :: k2 ->
  exists lbl' s', consumeCommonPrefix (len (sbits lbl)) (lbl, s) = (Ok (len p), (lbl', s')).
Proof.
  intros Hl Hs Hlb H. rewrite (consumeCommonPrefix_ok lbl s (sbits lbl) []) by (done || now rewrite app_nil_r).
  rewrite Hlb, H, lcp_diverge. eauto.
Qed.

Lemma MustLoadBit_ok s x r :
  swf s -> sbits s = x :: r -> exists s', MustLoadBit s = Ok (Z.b2z x, s') /\ swf s' /\ sbits s' = r.
Proof.
  intros Hs H. destruct (LoadUInt_bit s x r Hs H) as (L & Hs' & H'). exists (skip s 1). unfold MustLoadBit.
  rewrite (run_Ok _ _ _ _ L). done.
Qed.

(** ** Representation *)

(** The node of every key of [K] bits leaves [room K] bits to its value. *)
Definition room (K : Z) : Z := 1023 - (2 + bit_len K + K).

(** Values that fit a leaf wherever the tree puts it. *)
Record fits (K : Z) (v : value) : Prop := {
  fit_bits : len (fst v) <= room K;
  fit_count : len (snd v) <= 4;
  fit_refs : Forall (fun r => level0 r /\ 0 <= Depth r < 1024 - K) (snd v)
}.

(** A slice that reads a value. *)
Definition reads (s : Slice) (v : value) : Prop := swf s /\ sbits s = fst v /\ srefs s = snd v.

Definition reads_opt (o : option Slice) (v : option value) : Prop :=
  match o, v with Some s, Some v => reads s v | None, None => True | _, _ => False end.

Section rep.
  Context (enc : Z -> list bool -> list bool -> Prop) `{Hform : !LabelForm enc} (K : Z) (HK : 0 <= K /\ 0 <= room K).

Fixpoint rep (n : Z) (c : Cell) (t : ptree (V := value)) : Prop :=
  exists e pb refs, c = finished (e ++ pb) refs /\ enc n (label t) e /\ len e + len pb <= 1023 /\
    match t with
    | Leaf l v => len l = n /\ fits K v /\ pb = fst v /\ refs = snd v
    | Fork l a b =>
        len l < n /\ pb = [] /\
        exists ca cb, refs = [ca; cb] /\ rep (n - len l - 1) ca a /\ rep (n - len l - 1) cb b
    end.

(** What a node holds after its label. *)
Definition payload (n : Z) (t : ptree (V := value)) (pb : list bool) (refs : list Cell) : Prop :=
  match t with
  | Leaf l v => len l = n /\ fits K v /\ pb = fst v /\ refs = snd v
  | Fork l a b =>
      len l < n /\ pb = [] /\
      exists ca cb, refs = [ca; cb] /\ rep (n - len l - 1) ca a /\ rep (n - len l - 1) cb b
  end.

Lemma rep_node n c t :
  rep n c t <-> exists e pb refs, c = finished (e ++ pb) refs /\ enc n (label t) e /\ len e + len pb <= 1023 /\ payload n t pb refs.
Proof. destruct t; reflexivity. Qed.

Lemma payload_relabel n t pb refs l :
  payload n t pb refs -> payload (n - len (label t) + len l) (relabel l t) pb refs.
Proof.
  destruct t as [l' v | l' a b]; cbn [payload relabel label]; intros (Hl & H); (split; [lia|]); [done|].
  now replace (n - len l' + len l - len l - 1) with (n - len l' - 1) by lia.
Qed.

Lemma payload_label n t pb refs : payload n t pb refs -> len (label t) <= n.
Proof. destruct t as [l v | l a b]; cbn [payload label]; lia. Qed.

Lemma payload_refs n t pb refs : payload n t pb refs -> len refs <= 4.
Proof using.
  clear HK. destruct t as [l v | l a b]; cbn [payload]; [now intros (_ & [_ ? _] & _ & ->)|]. now intros (_ & _ & ca & cb & -> & _).
Qed.

Lemma rep_twf n c t : rep n c t -> twf n t.
Proof.
  revert n c. induction t as [l v | l a IHa b IHb]; intros n c (e & pb & refs & _ & _ & _ & H); cbn [twf]; [apply H|].
  destruct H as (Hl & _ & ca & cb & _ & Ha & Hb). eauto.
Qed.

Lemma twf_nonneg n (t : ptree (V := value)) : twf n t -> 0 <= n.
Proof. destruct t as [l v | l a b]; cbn [twf]; pose proof (len_nonneg l); lia. Qed.

Lemma rep_depth n c t : rep n c t -> n <= K -> level0 c /\ 0 <= Depth c <= 1024 - K + n.
Proof.
  revert n c. induction t as [l v | l a IHa b IHb]; intros n c (e & pb & refs & -> & _ & _ & H) Hn;
    (split; [apply mask_finished|]); rewrite Depth_finished; pose proof (len_nonneg l) as Hl0.
  - destruct H as (Hl & [_ _ Hf] & _ & ->).
    pose proof (bit_len_nonneg K). unfold room in HK.
    enough (0 <= depth_of (snd v) <= 1024 - K) by lia. apply depth_of_bounds; [|lia].
    eapply List.Forall_impl; [|exact Hf]. now intros r [_ ?].
  - destruct H as (Hl & _ & ca & cb & -> & Ha & Hb). destruct (IHa _ _ Ha ltac:(lia)) as [_ Hda].
    destruct (IHb _ _ Hb ltac:(lia)) as [_ Hdb]. apply depth_of_bounds; [|lia]. constructor; [lia|]. constructor; [lia|done].
Qed.

Lemma K_bounds : K <= 1021.
Proof using HK. unfold room in HK. pose proof (bit_len_nonneg K). lia. Qed.

Lemma bit_len_mono a b : 0 <= a <= b -> bit_len a <= bit_len b.
Proof. intros H. apply bit_len_le; [lia|apply bit_len_nonneg|]. pose proof (bit_len_bound b ltac:(lia)). lia. Qed.

Lemma label_room n l : len l <= n <= K -> len (label_bits n l) + room K <= 1023.
Proof using HK.
  intros H. pose proof (label_bits_least n l _ (encodes_long n l)) as Hl. rewrite len_long in Hl.
  pose proof (bit_len_mono n K). pose proof (len_nonneg l). unfold room. lia.
Qed.

Lemma payload_size n t pb refs : payload n t pb refs -> len pb <= room K.
Proof using HK. destruct t as [l v | l a b]; cbn [payload]; [now intros (_ & [? _ _] & -> & _)|]. intros (_ & -> & _). apply HK. Qed.

Lemma payload_shallow n t pb refs : payload n t pb refs -> n <= K -> Forall shallow refs.
Proof using HK.
  pose proof K_bounds as HKb. intros H Hn. destruct t as [l v | l a b]; cbn [payload] in H.
  - destruct H as (_ & [_ _ Hf] & _ & ->). eapply List.Forall_impl; [|exact Hf]. intros r [H0 Hd].
    split; [done|]. unfold maxDepth. lia.
  - destruct H as (Hl & _ & ca & cb & -> & Ha & Hb). pose proof (len_nonneg l).
    destruct (rep_depth _ _ _ Ha) as [? ?]; [lia|]. destruct (rep_depth _ _ _ Hb) as [? ?]; [lia|].
    repeat (constructor; [split; [done|unfold maxDepth; lia]|]). done.
Qed.

Lemma rep_built n t pb refs : payload n t pb refs -> n <= K -> rep n (finished (label_bits n (label t) ++ pb) refs) t.
Proof using HK Hform.
  intros H Hn. apply rep_node. exists (label_bits n (label t)), pb, refs. split_and!; [done|apply form_shortest| |done].
  pose proof (payload_size _ _ _ _ H). pose proof (payload_label _ _ _ _ H). pose proof (label_room n (label t)). lia.
Qed.

(** Writing a node under any label of the right length. *)
Lemma write_node n t pb refs lbl b :
  payload n t pb refs -> n <= K -> swf lbl -> sbits lbl = label t -> builds b pb refs ->
  storeDictNodeTraced lbl b n = Ok (finished (label_bits n (label t) ++ pb) refs).
Proof using HK.
  intros H Hn Hs Hl Hb. pose proof K_bounds. pose proof (payload_label _ _ _ _ H). pose proof (len_sbits _ Hs) as HL.
  pose proof (payload_size _ _ _ _ H). pose proof (label_room n (label t)). rewrite <-Hl in *.
  apply storeDictNodeTraced_ok; [done|done|lia|lia|eapply payload_refs, H|eapply payload_shallow; [exact H|done]].
Qed.

(** ** Opening *)

Record opened (n : Z) (c : Cell) (t : ptree) (node : fixedDictNode) (pb : list bool) (refs : list Cell) : Prop := {
  od_enc : exists e, c = finished (e ++ pb) refs /\ encodes n (label t) e /\ len e + len pb <= 1023 /\
    opens n c e (label t) pb refs node;
  od_open resolver : open_node c n resolver false = Ok node;
  od_payload : payload n t pb refs
}.

Lemma rep_open n c t : rep n c t -> n <= K -> exists node pb refs, opened n c t node pb refs.
Proof using HK Hform.
  intros H Hn. pose proof (twf_nonneg _ _ (rep_twf _ _ _ H)) as Hn0. apply rep_node in H as (e & pb & refs & -> & He & Hfit & Hp). pose proof K_bounds.
  destruct (open_node_ok n e (label t) pb refs) as (node & Ho & Hopens).
  - now apply form_encodes.
  - apply payload_label in Hp. lia.
  - done.
  - eapply payload_refs, Hp.
  - destruct t as [l v | l a b]; cbn [payload label] in *; [lia|]. intros _. now destruct Hp as (_ & -> & ca & cb & -> & _).
  - exists node, pb, refs. split; [|done|done]. exists e. split_and!; try done. now apply form_encodes.
Qed.

(** ** Insertion *)

Definition gives (sv : dictSetValue) (v : value) : Prop :=
  exists b, builds b (fst v) (snd v) /\ forall pfx n, storeSetLeaf pfx sv n = storeLeaf pfx (Some b) n.

(** Whether a mode writes a key that is present, or absent. *)
Definition writes (mode : Z) (present : bool) : bool :=
  if mode =? DictSetModeReplace then present else if mode =? DictSetModeAdd then negb present else true.

Definition present {A} (o : option A) : bool := match o with Some _ => true | None => false end.

Lemma storeSetLeaf_ok sv v lbl n :
  gives sv v -> fits K v -> swf lbl -> len (sbits lbl) = n -> n <= K ->
  exists c, storeSetLeaf lbl sv n = Ok (Some c) /\ rep n c (Leaf (sbits lbl) v).
Proof using HK Hform.
  intros (b & Hb & Hsv) Hf Hs Hl Hn. assert (Hp : payload n (Leaf (sbits lbl) v) (fst v) (snd v)) by done.
  rewrite Hsv. unfold storeLeaf. rewrite (write_node _ _ _ _ _ _ Hp Hn Hs eq_refl Hb). cbn [mbind outcome_bind].
  eexists. split; [done|]. now apply rep_built.
Qed.

Lemma storeFork_ok lbl n l r a b :
  swf lbl -> len (sbits lbl) < n -> n <= K -> rep (n - len (sbits lbl) - 1) l a -> rep (n - len (sbits lbl) - 1) r b ->
  exists c, storeFork lbl (Some l) (Some r) n = Ok c /\ rep n c (Fork (sbits lbl) a b).
Proof using HK Hform.
  intros Hs Hl Hn Ha Hb. destruct (storeRefs_fork l r) as (bu & Hrun & Hbu).
  assert (Hp : payload n (Fork (sbits lbl) a b) [] [l; r]) by (cbn [payload]; eauto 10).
  unfold storeFork. rewrite (run_Ok _ _ _ _ Hrun). cbn [mbind outcome_bind].
  rewrite (write_node _ _ _ _ _ _ Hp Hn Hs eq_refl Hbu). eexists. split; [done|]. now apply rep_built.
Qed.

Lemma key_left n m : 0 <= m < n -> n <= K -> u64 (n - (m + 1)) = n - m - 1.
Proof using HK. intros. pose proof K_bounds. rewrite u64_small by lia. lia. Qed.

(** A node moved under a shorter label, as a split does it. *)
Lemma push_down n t node pb refs e rest l2 m c :
  opens n c e (label t) pb refs node -> payload n t pb refs -> swf rest -> sbits rest = l2 ->
  m = n - len (label t) + len l2 -> m <= K ->
  exists b1 b2 rest' oc, storeDictLabel m (BeginCell, rest) = (Ok tt, (b1, rest')) /\
    ToBuilder (n_loader node) = Ok (of_bits pb refs) /\ storeBuilder (of_bits pb refs) false b1 = (Ok tt, b2) /\
    EndCellSpecial false b2 = Ok oc /\ rep m oc (relabel l2 t).
Proof using HK Hform.
  intros Ho Hp Hs <- -> Hm. set (l2 := sbits rest) in *. set (m := n - len (label t) + len l2) in *. pose proof K_bounds.
  pose proof (payload_relabel _ _ _ _ l2 Hp) as Hpr. fold m in Hpr. pose proof (payload_size _ _ _ _ Hpr).
  pose proof (payload_label _ _ _ _ Hp). assert (Hl2 : len l2 <= m) by lia.
  pose proof (label_room m l2 ltac:(lia)). pose proof (len_sbits _ Hs) as Hrl. fold l2 in Hrl. pose proof (len_nonneg pb).
  pose proof (len_nonneg (label_bits m l2)). pose proof (payload_refs _ _ _ _ Hp).
  destruct (storeDictLabel_builds m BeginCell [] [] rest builds_begin Hs) as (b1 & Hr1 & Hb1); [lia|rewrite len_nil; fold l2; lia|].
  destruct (storeBuilder_builds _ _ _ _ _ _ Hb1 (builds_of_bits pb refs ltac:(lia) ltac:(lia))) as (b2 & Hr2 & Hb2);
    [cbn [app]; fold l2; lia|rewrite len_nil; lia|].
  do 4 eexists. split; [exact Hr1|]. split; [|split; [exact Hr2|split]].
  - rewrite ToBuilder_run by apply Ho. now rewrite (op_bits _ _ _ _ _ _ _ Ho), (op_refs _ _ _ _ _ _ _ Ho).
  - apply EndCellSpecial_builds; [exact Hb2|]. eapply payload_shallow; [exact Hpr|lia].
  - pose proof (rep_built _ _ _ _ Hpr Hm) as Hoc. now replace (label (relabel l2 t)) with l2 in Hoc by now destruct t.
Qed.

(** The new leaf beside a node its key leaves within the label. *)
Lemma set_split n c t node pb refs fuel pfx sv v mode p x l2 k2 :
  opened n c t node pb refs -> n <= K -> swf pfx -> len (sbits pfx) = n -> gives sv v -> fits K v ->
  label t = p ++ negb x :: l2 -> sbits pfx = p ++ x :: k2 -> mode <> DictSetModeReplace ->
  exists c', set (S fuel) (Some c) pfx n sv mode = Ok (Some c', None, true) /\ rep n c' (DictTree.split t (sbits pfx) v).
Proof using HK Hform.
  intros [(e & -> & He & Hfit & Ho) Hopen Hp] Hn Hs Hk Hv Hf Hl Hb Hm. cbn [set]. rewrite Hopen. cbn [mbind outcome_bind].
  pose proof (op_lwf _ _ _ _ _ _ _ Ho) as Hls. pose proof (op_lbits _ _ _ _ _ _ _ Ho) as Hlb. pose proof K_bounds as HKb.
  assert (Hlen : len (label t) = len p + 1 + len l2) by (rewrite Hl, len_app, len_cons; lia).
  assert (Hkl : n = len p + 1 + len k2) by (rewrite <-Hk, Hb, len_app, len_cons; lia).
  pose proof (len_nonneg p). pose proof (len_nonneg l2). pose proof (len_nonneg k2). pose proof (payload_label _ _ _ _ Hp).
  rewrite (op_len _ _ _ _ _ _ _ Ho), <-Hlb. rewrite <-Hlb in Hl.
  destruct (match_leave _ _ _ _ _ _ Hls Hs Hl Hb) as (s' & Hmatch & Hs' & Hb').
  rewrite (run_Ok _ _ _ _ Hmatch). cbn [mbind outcome_bind]. rewrite Hlb, Hlen, key_left by lia.
  destruct (Z.eqb_spec (len p) (len p + 1 + len l2)); [lia|]. destruct (Z.eqb_spec mode DictSetModeReplace); [done|].
  destruct (splitLabel_ok _ _ _ _ _ _ _ (len p) Ho) as (prefix & rest & -> & [Hps Hpb] & [Hrs Hrb]); [lia..|].
  cbn [mbind outcome_bind]. rewrite <-Hlb, Hl in Hpb, Hrb. rewrite take_app_length' in Hpb by (unfold len; lia).
  rewrite cons_middle, app_assoc, drop_app_length' in Hrb by (rewrite length_app; unfold len; cbn [length]; lia).
  set (m := n - len p - 1).
  destruct (push_down _ _ _ _ _ _ rest l2 m _ Ho Hp Hrs Hrb) as (b1 & b2 & rest' & oc & R1 & -> & R2 & R3 & Hoc); [lia..|].
  rewrite (run_Ok _ _ _ _ R1). cbn [mbind outcome_bind]. rewrite (run_Ok _ _ _ _ R2). cbn [mbind outcome_bind].
  destruct (storeSetLeaf_ok sv v s' m) as (nc & -> & Hnc); try done; [rewrite Hb'; lia|lia|]. cbn [mbind outcome_bind].
  rewrite R3. cbn [mbind outcome_bind]. rewrite Hb' in Hnc. rewrite (split_eq _ _ _ p x l2 k2) by congruence.
  destruct (storeFork_ok prefix n (if x then oc else nc) (if x then nc else oc)
    (if x then relabel l2 t else Leaf k2 v) (if x then Leaf k2 v else relabel l2 t)) as (c' & Hc' & Hrep);
    rewrite ?Hpb; try done; [lia|now destruct x..|].
  exists c'. rewrite Hpb in Hrep. split; [|now destruct x]. now destruct x; rewrite Hc'.
Qed.

(** A fork and the child a key continues in. *)
Lemma fork_child n c l a b node pb refs x :
  opened n c (Fork l a b) node pb refs ->
  exists cc co, node_ref node (Z.b2z x) = Ok cc /\ node_ref node (Z.b2z (negb x)) = Ok co /\ refs = put_child x cc co /\
    rep (n - len l - 1) cc (child x a b) /\ rep (n - len l - 1) co (child (negb x) a b).
Proof using HK.
  intros [(e & _ & _ & _ & Ho) _ (_ & _ & ca & cb & -> & Ha & Hb)].
  pose proof (node_ref_ok _ _ _ _ _ _ _ 0 ca Ho eq_refl ltac:(lia)) as H0.
  pose proof (node_ref_ok _ _ _ _ _ _ _ 1 cb Ho eq_refl ltac:(lia)) as H1.
  destruct x; [exists cb, ca | exists ca, cb]; done.
Qed.

Lemma rep_shallow n c t : rep n c t -> n < K -> shallow c.
Proof using HK. intros H Hn. destruct (rep_depth _ _ _ H) as [H0 Hd]; [lia|]. split; [done|]. unfold maxDepth. lia. Qed.

(** The fork with a new child in place of the one at [x]. *)
Lemma fork_replaced n c l a b node pb refs x cc co c' t' :
  opened n c (Fork l a b) node pb refs -> n <= K -> refs = put_child x cc co ->
  rep (n - len l - 1) co (child (negb x) a b) -> rep (n - len l - 1) c' t' ->
  exists r, replace_child node (Z.b2z x) (Some c') n = Ok r /\ rep n r (fork l x t' (child (negb x) a b)).
Proof using HK Hform.
  intros [(e & -> & He & Hfit & Ho) _ Hp] Hn Hrefs Hco Hc'. pose proof K_bounds. pose proof (len_nonneg l).
  cbn [label] in *. destruct Hp as (Hl & -> & _). rewrite len_nil, app_nil_r in *.
  rewrite (replace_child_ok n e l refs node x c' co);
    try done; [|lia..|eauto| |]; [|eapply rep_shallow; [eassumption|lia]..].
  eexists. split; [done|].
  assert (Hpl : payload n (fork l x t' (child (negb x) a b)) [] (put_child x c' co)).
  { unfold fork, put_child. destruct x; cbn [payload]; eauto 10. }
  pose proof (rep_built _ _ _ _ Hpl Hn) as Hr. rewrite app_nil_r in Hr.
  now replace (label (fork l x t' (child (negb x) a b))) with l in Hr by now destruct x.
Qed.

(** The outcome of [set] on a cell holding [t]. *)
Definition set_result (n : Z) (c : Cell) (t : ptree) (k : key) (v : value) (mode : Z)
    (r : outcome (option Cell * option Slice * bool)) : Prop :=
  let old := tfind t k in
  exists c' o, r = Ok (Some c', o, writes mode (present old)) /\ reads_opt o old /\
    (if writes mode (present old) then rep n c' (tset t k v) else c' = c).

Lemma set_leave n c t node pb refs fuel pfx sv v mode p x l2 k2 :
  opened n c t node pb refs -> n <= K -> swf pfx -> len (sbits pfx) = n -> gives sv v -> fits K v ->
  label t = p ++ negb x :: l2 -> sbits pfx = p ++ x :: k2 ->
  set_result n c t (sbits pfx) v mode (set (S fuel) (Some c) pfx n sv mode).
Proof using HK Hform.
  intros Hod Hn Hs Hk Hv Hf El Ek. destruct (leave_cases _ _ _ _ _ _ El Ek) as (Efind & Eset & _).
  unfold set_result, writes, present. rewrite Efind, Eset. cbv zeta.
  destruct (Z.eqb_spec mode DictSetModeReplace) as [-> | Hm].
  - destruct Hod as [(e & -> & _ & _ & Ho) Hopen Hp]. cbn [set]. rewrite Hopen. cbn [mbind outcome_bind].
    pose proof (op_lbits _ _ _ _ _ _ _ Ho) as Hlb. rewrite (op_len _ _ _ _ _ _ _ Ho), <-Hlb. rewrite <-Hlb in El.
    destruct (match_leave _ _ _ _ _ _ (op_lwf _ _ _ _ _ _ _ Ho) Hs El Ek) as (s' & Hmatch & _ & _).
    rewrite (run_Ok _ _ _ _ Hmatch). cbn [mbind outcome_bind]. rewrite El, len_app, len_cons. pose proof (len_nonneg l2).
    destruct (Z.eqb_spec (len p) (len p + (len l2 + 1))); [lia|]. rewrite (op_cell _ _ _ _ _ _ _ Ho).
    rewrite Z.eqb_refl. now do 2 eexists.
  - destruct (set_split _ _ _ _ _ _ fuel pfx sv v mode p x l2 k2 Hod Hn Hs Hk Hv Hf El Ek Hm) as (c' & -> & Hc').
    destruct (mode =? DictSetModeAdd); cbn [negb]; now do 2 eexists.
Qed.

Lemma set_leaf n c l w node pb refs fuel pfx sv v mode :
  opened n c (Leaf l w) node pb refs -> n <= K -> swf pfx -> sbits pfx = l -> gives sv v -> fits K v ->
  set_result n c (Leaf l w) (sbits pfx) v mode (set (S fuel) (Some c) pfx n sv mode).
Proof using HK Hform.
  intros [(e & -> & _ & _ & Ho) Hopen (Hl & Hfw & -> & ->)] Hn Hs Ek Hv Hf. cbn [label] in Ho.
  unfold set_result. cbn [tfind tset]. rewrite Ek, !decide_True by done. cbv zeta. cbn [present set]. rewrite Hopen. cbn [mbind outcome_bind].
  pose proof (op_lwf _ _ _ _ _ _ _ Ho) as Hls. pose proof (op_lbits _ _ _ _ _ _ _ Ho) as Hlb.
  rewrite (op_len _ _ _ _ _ _ _ Ho), <-Hlb. rewrite <-Hlb, <-(app_nil_r (sbits (n_label node))) in Ek.
  destruct (match_follow _ _ _ Hls Hs Ek) as (s' & Hmatch & Hs' & Hb').
  rewrite (run_Ok _ _ _ _ Hmatch). cbn [mbind outcome_bind]. rewrite Z.eqb_refl, <-len_sbits, Hb' by done. cbn [len length Z.of_nat Z.eqb].
  assert (Hread : reads (n_loader node) w).
  { split; [apply Ho|]. split; [apply (op_bits _ _ _ _ _ _ _ Ho)|apply (op_refs _ _ _ _ _ _ _ Ho)]. }
  destruct (storeSetLeaf_ok sv v (n_label node) n Hv Hf Hls) as (c' & Hc' & Hrep); [now rewrite Hlb|done|].
  rewrite Hc', (op_cell _ _ _ _ _ _ _ Ho). unfold writes. destruct (Z.eqb_spec mode DictSetModeReplace) as [-> | Hm].
  - cbn [Z.eqb DictSetModeReplace DictSetModeAdd Pos.eqb mbind outcome_bind]. now do 2 eexists.
  - destruct (mode =? DictSetModeAdd); cbn [negb mbind outcome_bind]; now do 2 eexists.
Qed.

Lemma set_fork n c l a b node pb refs fuel pfx sv v mode x k' :
  opened n c (Fork l a b) node pb refs -> n <= K -> swf pfx -> sbits pfx = l ++ x :: k' ->
  (forall cc s, rep (n - len l - 1) cc (child x a b) -> swf s -> sbits s = k' ->
    set_result (n - len l - 1) cc (child x a b) k' v mode (set fuel (Some cc) s (n - len l - 1) sv mode)) ->
  set_result n c (Fork l a b) (sbits pfx) v mode (set (S fuel) (Some c) pfx n sv mode).
Proof using HK Hform.
  intros Hod Hn Hs Ek IH. destruct (fork_child _ _ _ _ _ _ _ _ x Hod) as (cc & co & Hcc & Hco & Hrefs & Hrc & Hro).
  pose proof Hod as [(e & -> & _ & _ & Ho) Hopen (Hl & _)]. cbn [label] in Ho. unfold set_result.
  cbn [tfind tset]. rewrite Ek, strip_app. cbv zeta. cbn [set]. rewrite Hopen. cbn [mbind outcome_bind]. pose proof (len_nonneg l).
  pose proof (op_lwf _ _ _ _ _ _ _ Ho) as Hls. pose proof (op_lbits _ _ _ _ _ _ _ Ho) as Hlb.
  rewrite (op_len _ _ _ _ _ _ _ Ho). rewrite <-Hlb in Ek. destruct (match_follow _ _ _ Hls Hs Ek) as (s' & Hmatch & Hs' & Hb').
  rewrite Hlb in Hmatch. rewrite (run_Ok _ _ _ _ Hmatch). cbn [mbind outcome_bind]. rewrite Z.eqb_refl, <-len_sbits, Hb', len_cons by done.
  pose proof (len_nonneg k'). destruct (Z.eqb_spec (len k' + 1) 0); [lia|].
  destruct (MustLoadBit_ok _ _ _ Hs' Hb') as (s2 & -> & Hs2 & Hb2). cbn [mbind outcome_bind]. rewrite Hcc. cbn [mbind outcome_bind].
  rewrite key_left by lia. destruct (IH cc s2 Hrc Hs2 Hb2) as (c' & o & -> & Hold & Hres). cbn [mbind outcome_bind].
  destruct (writes mode _); cbn [negb].
  - destruct (fork_replaced _ _ _ _ _ _ _ _ x cc co c' _ Hod Hn Hrefs Hro Hres) as (r & -> & Hr). cbn [mbind outcome_bind]. now do 2 eexists.
  - rewrite (op_cell _ _ _ _ _ _ _ Ho). now do 2 eexists.
Qed.

Lemma set_ok t n c pfx fuel sv v mode :
  rep n c t -> n <= K -> swf pfx -> len (sbits pfx) = n -> gives sv v -> fits K v -> (Z.to_nat n < fuel)%nat ->
  set_result n c t (sbits pfx) v mode (set fuel (Some c) pfx n sv mode).
Proof using HK Hform.
  intros Hr Hn Hs Hk Hv Hf Hfuel. revert n c pfx fuel Hr Hn Hs Hk Hfuel.
  induction t as [l w | l a IHa b IHb]; intros n c pfx [|fuel] Hr Hn Hs Hk Hfuel; try lia.
  all: destruct (rep_open _ _ _ Hr Hn) as (node & pb & refs & Hod).
  all: destruct (key_cases n _ (sbits pfx) (rep_twf _ _ _ Hr) Hk) as [(l' & v' & Et & Ek) |
    [(l' & a' & b' & x & k' & Et & Ek & Hk') | (p & x & l2 & k2 & El & Ek)]]; try discriminate Et;
    try (eapply set_leave; eassumption).
  - injection Et as <- <-. eapply set_leaf; eassumption.
  - injection Et as <- <- <-. eapply set_fork; [eassumption..|]. intros cc s Hcc Hss <-.
    pose proof (len_nonneg l). pose proof (len_nonneg (sbits s)). destruct x; [apply IHb | apply IHa]; done || lia.
Qed.

(** ** Deletion *)

(** The outcome of [lookupDelete] on a cell holding [t]. *)
Definition del_result (n : Z) (t : ptree) (k : key) (r : outcome (option Slice * option Cell * bool)) : Prop :=
  match tdel t k with
  | None => r = Ok (None, None, false)
  | Some rest =>
      exists s v, tfind t k = Some v /\ reads s v /\
        match rest with
        | None => r = Ok (Some s, None, true)
        | Some t' => exists c', r = Ok (Some s, Some c', true) /\ rep n c' t'
        end
  end.

Lemma delete_leave n c t node pb refs fuel pfx p x l2 k2 :
  opened n c t node pb refs -> swf pfx -> label t = p ++ negb x :: l2 -> sbits pfx = p ++ x :: k2 ->
  del_result n t (sbits pfx) (lookupDelete (S fuel) (Some c) pfx n).
Proof using HK.
  intros [(e & _ & _ & _ & Ho) Hopen _] Hs El Ek. destruct (leave_cases _ _ _ _ _ _ El Ek) as (_ & _ & Edel).
  unfold del_result. rewrite Edel. cbn [lookupDelete]. rewrite Hopen. cbn [mbind outcome_bind].
  pose proof (op_lbits _ _ _ _ _ _ _ Ho) as Hlb. rewrite (op_len _ _ _ _ _ _ _ Ho), <-Hlb. rewrite <-Hlb in El.
  destruct (consume_leave _ _ _ _ _ _ (op_lwf _ _ _ _ _ _ _ Ho) Hs El Ek) as (l' & s' & Hrun).
  rewrite (run_Ok _ _ _ _ Hrun). cbn [mbind outcome_bind]. rewrite El, len_app, len_cons. pose proof (len_nonneg l2).
  destruct (Z.ltb_spec (len p) (len p + (len l2 + 1))); [done|lia].
Qed.

Lemma delete_leaf n c l w node pb refs fuel pfx :
  opened n c (Leaf l w) node pb refs -> swf pfx -> sbits pfx = l ->
  del_result n (Leaf l w) (sbits pfx) (lookupDelete (S fuel) (Some c) pfx n).
Proof using HK.
  intros [(e & _ & _ & _ & Ho) Hopen (Hl & _ & -> & ->)] Hs Ek. unfold del_result. cbn [tdel tfind].
  rewrite Ek, !decide_True by done. exists (n_loader node), w. split; [done|].
  split; [split; [apply Ho|split; [apply (op_bits _ _ _ _ _ _ _ Ho)|apply (op_refs _ _ _ _ _ _ _ Ho)]]|].
  cbn [lookupDelete]. rewrite Hopen. cbn [mbind outcome_bind]. cbn [label] in Ho.
  pose proof (op_lbits _ _ _ _ _ _ _ Ho) as Hlb. rewrite (op_len _ _ _ _ _ _ _ Ho), <-Hlb.
  rewrite <-Hlb, <-(app_nil_r (sbits (n_label node))) in Ek.
  destruct (consume_follow _ _ _ (op_lwf _ _ _ _ _ _ _ Ho) Hs Ek) as (l' & s' & Hrun & Hs' & Hb').
  rewrite (run_Ok _ _ _ _ Hrun). cbn [mbind outcome_bind]. rewrite Z.ltb_irrefl, <-len_sbits, Hb' by done. done.
Qed.

(** The sibling of a deleted leaf takes the place of their fork. *)
Lemma merge_sibling n c l a b node pb refs co y :
  opened n c (Fork l a b) node pb refs -> n <= K -> rep (n - len l - 1) co (child y a b) ->
  exists other merged c', open_node co (n - len l - 1) None false = Ok other /\
    mergedEdgeLabel node (Z.b2z y) (n_label other) = Ok merged /\
    exists po, ToBuilder (n_loader other) = Ok po /\ storeLeaf merged (Some po) n = Ok (Some c') /\
      rep n c' (relabel (l ++ y :: label (child y a b)) (child y a b)).
Proof using HK Hform.
  intros [(e & _ & _ & _ & Ho) _ (Hl & _)] Hn Hco. set (o := child y a b) in *. pose proof K_bounds. pose proof (len_nonneg l).
  destruct (rep_open _ _ _ Hco ltac:(lia)) as (other & pbo & ro & [(eo & _ & _ & Hfit & Hoo) Hopen Hpo]).
  pose proof (payload_label _ _ _ _ Hpo) as Hlo. pose proof (payload_size _ _ _ _ Hpo). pose proof (payload_refs _ _ _ _ Hpo).
  destruct (mergedEdgeLabel_ok _ _ _ _ _ _ _ y (n_label other) Ho) as (merged & Hm & Hms & Hmb);
    [apply Hoo|cbn [label]; rewrite (op_lbits _ _ _ _ _ _ _ Hoo); lia|]. cbn [label] in Hmb. rewrite (op_lbits _ _ _ _ _ _ _ Hoo) in Hmb.
  pose proof (payload_relabel _ _ _ _ (l ++ y :: label o) Hpo) as Hp. rewrite len_app, len_cons in Hp.
  replace (n - len l - 1 - len (label o) + (len l + (len (label o) + 1))) with n in Hp by lia.
  pose proof (len_nonneg pbo). pose proof (len_nonneg eo). exists other, merged. eexists. split; [apply Hopen|]. split; [done|]. eexists. split.
  { rewrite ToBuilder_run by apply Hoo. now rewrite (op_bits _ _ _ _ _ _ _ Hoo), (op_refs _ _ _ _ _ _ _ Hoo). }
  unfold storeLeaf. rewrite (write_node _ _ _ _ merged _ Hp Hn Hms); [|rewrite Hmb; now destruct o|apply builds_of_bits; lia].
  cbn [mbind outcome_bind]. split; [done|]. now apply rep_built.
Qed.

Lemma delete_fork n c l a b node pb refs fuel pfx x k' :
  opened n c (Fork l a b) node pb refs -> n <= K -> swf pfx -> sbits pfx = l ++ x :: k' ->
  (forall cc s, rep (n - len l - 1) cc (child x a b) -> swf s -> sbits s = k' ->
    del_result (n - len l - 1) (child x a b) k' (lookupDelete fuel (Some cc) s (n - len l - 1))) ->
  del_result n (Fork l a b) (sbits pfx) (lookupDelete (S fuel) (Some c) pfx n).
Proof using HK Hform.
  intros Hod Hn Hs Ek IH. destruct (fork_child _ _ _ _ _ _ _ _ x Hod) as (cc & co & Hcc & Hco & Hrefs & Hrc & Hro).
  pose proof Hod as [(e & -> & _ & _ & Ho) Hopen (Hl & _)]. cbn [label] in Ho. unfold del_result.
  cbn [tfind tdel]. rewrite Ek, strip_app. cbn [lookupDelete]. rewrite Hopen. cbn [mbind outcome_bind]. pose proof (len_nonneg l).
  pose proof (op_lwf _ _ _ _ _ _ _ Ho) as Hls. pose proof (op_lbits _ _ _ _ _ _ _ Ho) as Hlb.
  rewrite (op_len _ _ _ _ _ _ _ Ho). rewrite <-Hlb in Ek. destruct (consume_follow _ _ _ Hls Hs Ek) as (l' & s' & Hrun & Hs' & Hb').
  rewrite Hlb in Hrun. rewrite (run_Ok _ _ _ _ Hrun). cbn [mbind outcome_bind]. rewrite Z.ltb_irrefl, <-len_sbits, Hb', len_cons by done.
  pose proof (len_nonneg k'). destruct (Z.eqb_spec (len k' + 1) 0); [lia|].
  destruct (MustLoadBit_ok _ _ _ Hs' Hb') as (s2 & -> & Hs2 & Hb2). cbn [mbind outcome_bind]. rewrite Hcc. cbn [mbind outcome_bind].
  rewrite key_left by lia. specialize (IH cc s2 Hrc Hs2 Hb2). unfold del_result in IH.
  destruct (tdel (child x a b) k') as [[t' |] |]; [| |now rewrite IH].
  - destruct IH as (s & v & Hf & Hread & c' & -> & Hc'). cbn [mbind outcome_bind negb].
    destruct (fork_replaced _ _ _ _ _ _ _ _ x cc co c' _ Hod Hn Hrefs Hro Hc') as (r & -> & Hr). exists s, v. eauto.
  - destruct IH as (s & v & Hf & Hread & ->). cbn [mbind outcome_bind negb]. exists s, v. split; [done|]. split; [done|].
    replace (Z.lxor (Z.b2z x) 1) with (Z.b2z (negb x)) by now destruct x. rewrite Hco. cbn [mbind outcome_bind].
    destruct (merge_sibling _ _ _ _ _ _ _ _ co (negb x) Hod Hn Hro) as (other & merged & c' & E1 & E2 & po & E3 & E4 & Hc').
    cbn [Z.b2z] in E1. rewrite E1. cbn [mbind outcome_bind]. rewrite E2. cbn [mbind outcome_bind]. rewrite E3. cbn [mbind outcome_bind].
    rewrite E4. eauto.
Qed.

Lemma lookupDelete_ok t n c pfx fuel :
  rep n c t -> n <= K -> swf pfx -> len (sbits pfx) = n -> (Z.to_nat n < fuel)%nat ->
  del_result n t (sbits pfx) (lookupDelete fuel (Some c) pfx n).
Proof using HK Hform.
  intros Hr Hn Hs Hk Hfuel. revert n c pfx fuel Hr Hn Hs Hk Hfuel.
  induction t as [l w | l a IHa b IHb]; intros n c pfx [|fuel] Hr Hn Hs Hk Hfuel; try lia.
  all: destruct (rep_open _ _ _ Hr Hn) as (node & pb & refs & Hod).
  all: destruct (key_cases n _ (sbits pfx) (rep_twf _ _ _ Hr) Hk) as [(l' & v' & Et & Ek) |
    [(l' & a' & b' & x & k' & Et & Ek & Hk') | (p & x & l2 & k2 & El & Ek)]]; try discriminate Et;
    try (eapply delete_leave; eassumption).
  - injection Et as <- <-. eapply delete_leaf; eassumption.
  - injection Et as <- <- <-. eapply delete_fork; [eassumption..|]. intros cc s Hcc Hss <-.
    pose proof (len_nonneg l). pose proof (len_nonneg (sbits s)). destruct x; [apply IHb | apply IHa]; done || lia.
Qed.

(** ** Lookup *)

Definition find_result (o : option value) (r : outcome Slice) : Prop :=
  match o with Some v => exists s, r = Ok s /\ reads s v | None => r = Err ErrNoSuchKeyInDict end.

(** A slice with nothing but two references passes as a fork. *)
Lemma fork_shape s (refs : list Cell) lenient :
  swf s -> sbits s = [] -> srefs s = refs -> len refs = 2 ->
  (negb (s_bitStart s =? s_bitEnd s) || negb (RefsNum s =? 2)) && (negb lenient || (RefsNum s <? 2)) = false.
Proof.
  intros Hs Hb Hr H2. pose proof (len_sbits s Hs) as Hl. rewrite Hb, BitsLeft_eq in Hl by done. rewrite len_nil in Hl.
  rewrite <-len_srefs, Hr, H2 by done. destruct (Z.eqb_spec (s_bitStart s) (s_bitEnd s)); [done|lia].
Qed.

(** The first step of [findKey] on a node. *)
Lemma find_match n c t s :
  rep n c t -> n <= K -> swf s -> len (sbits s) = n ->
  exists pb refs br s', payload n t pb refs /\
    matchLabelPrefix n (newSliceFromCell c, s) = (Ok (len (label t), lcp (label t) (sbits s)), (br, s')) /\
    s' = skip s (consumed (label t) (sbits s)) /\ c_special c = false /\
    (lcp (label t) (sbits s) = len (label t) -> swf br /\ sbits br = pb /\ srefs br = refs) /\
    exists x ck, readLabelView n (newSliceFromCell c) = (Ok x, ck) /\ swf ck /\ sbits ck = pb /\ srefs ck = refs.
Proof using HK Hform.
  intros Hr Hn Hs Hk. apply rep_node in Hr as (e & pb & refs & -> & He & Hfit & Hp). pose proof K_bounds. exists pb, refs.
  apply form_encodes in He. pose proof (payload_label _ _ _ _ Hp). pose proof (payload_refs _ _ _ _ Hp). pose proof (len_nonneg (label t)).
  destruct (newSlice_finished (e ++ pb) refs) as (Hbs & Hbb & Hbr); [rewrite len_app; lia|done|].
  destruct (matchLabelPrefix_ok n (label t) e pb _ s He ltac:(lia) Hbs Hs Hbb) as (m & Hrun & Hm).
  destruct (sbits_skip_app _ _ _ Hbs Hbb) as [Hsk Hskb].
  destruct (readLabelView_ok n (label t) e pb _ He ltac:(lia) ltac:(lia) Hbs Hbb) as (view & inl & Hrd & _).
  do 2 eexists. split; [done|]. split; [exact Hrun|]. split; [done|]. split; [done|]. split; [intros E; now rewrite (Hm E)|].
  do 2 eexists. split; [exact Hrd|]. done.
Qed.

(** One round of [findKey]. *)
Definition find_round (next : Cell -> Slice -> outcome Slice) (n : Z) (lenient : bool) (c : Cell) (br s : Slice) (sz matched : Z)
    : outcome Slice :=
  if negb (matched =? sz) then
    if sz <? n then
      '(_, check) ← run (readLabelView n) (newSliceFromCell c);
      if (negb (s_bitStart check =? s_bitEnd check) || negb (RefsNum check =? 2)) && (negb lenient || (RefsNum check <? 2))
      then Err ErrInvalidDictForkNode
      else Err ErrNoSuchKeyInDict
    else Err ErrNoSuchKeyInDict
  else if n =? sz then Ok br
  else if (negb (s_bitStart br =? s_bitEnd br) || negb (RefsNum br =? 2)) && (negb lenient || (RefsNum br <? 2))
  then Err ErrInvalidDictForkNode
  else
    '(idx, s) ← run (LoadUInt 1) s;
    c ← fst (peekRefCellAt idx br);
    next c s.

Lemma findKey_round fuel c s resolver lenient n sz matched br s' :
  c_special c = false -> BitsLeft s = n -> matchLabelPrefix n (newSliceFromCell c, s) = (Ok (sz, matched), (br, s')) ->
  findKey fuel c s resolver lenient =
    find_round (fun c s => match fuel with O => Panic | S fuel => findKey fuel c s resolver lenient end) n lenient c br s' sz matched.
Proof.
  intros Hsp <- Hrun. unfold find_round. destruct fuel; cbn [findKey]; unfold resolveDictNodeCell; rewrite Hsp; cbn [negb mbind outcome_bind];
    rewrite (run_Ok _ _ _ _ Hrun); done.
Qed.

Lemma find_leave next n c t br s lenient pb refs p x l2 k2 xck ck :
  payload n t pb refs -> readLabelView n (newSliceFromCell c) = (Ok xck, ck) -> swf ck -> sbits ck = pb -> srefs ck = refs ->
  label t = p ++ negb x :: l2 ->
  find_round next n lenient c br s (len (label t)) (lcp (label t) (p ++ x :: k2)) = Err ErrNoSuchKeyInDict.
Proof.
  intros Hp Hrd Hck Hckb Hckr El. unfold find_round. rewrite El, lcp_diverge, len_app, len_cons. pose proof (len_nonneg l2).
  destruct (Z.eqb_spec (len p) (len p + (len l2 + 1))); [lia|]. cbn [negb].
  destruct (Z.ltb_spec (len p + (len l2 + 1)) n) as [Hlt | _]; [|done]. rewrite (run_Ok _ _ _ _ Hrd). cbn [mbind outcome_bind].
  destruct t as [l v | l a b]; cbn [label payload] in *.
  - destruct Hp as (<- & _). rewrite El, len_app, len_cons in Hlt. lia.
  - destruct Hp as (_ & -> & ca & cb & -> & _). now rewrite (fork_shape ck _ lenient Hck Hckb Hckr eq_refl).
Qed.

Lemma find_fork next n c l a b br s lenient refs x k' :
  payload n (Fork l a b) [] refs -> swf br -> sbits br = [] -> srefs br = refs -> swf s -> sbits s = x :: k' ->
  exists cc s', find_round next n lenient c br s (len l) (len l) = next cc s' /\
    rep (n - len l - 1) cc (child x a b) /\ swf s' /\ sbits s' = k'.
Proof.
  intros (Hl & _ & ca & cb & -> & Ha & Hb) Hbr Hbb Hbrr Hs Hk. unfold find_round. rewrite Z.eqb_refl. cbn [negb].
  destruct (Z.eqb_spec n (len l)); [lia|]. rewrite (fork_shape br _ lenient Hbr Hbb Hbrr eq_refl).
  destruct (LoadUInt_bit s x k' Hs Hk) as (L & Hs' & Hk1). rewrite (run_Ok _ _ _ _ L). cbn [mbind outcome_bind].
  rewrite peekRefCellAt_run, Hbrr by done. exists (if x then cb else ca), (skip s 1). destruct x; done.
Qed.

Lemma findKey_ok t n c s fuel resolver lenient :
  rep n c t -> n <= K -> swf s -> len (sbits s) = n -> (Z.to_nat n <= fuel)%nat ->
  find_result (tfind t (sbits s)) (findKey fuel c s resolver lenient).
Proof using HK Hform.
  revert n c s fuel. induction t as [l w | l a IHa b IHb]; intros n c s fuel Hr Hn Hs Hk Hfuel.
  all: destruct (find_match _ _ _ _ Hr Hn Hs Hk) as (pb & refs & br & s' & Hp & Hrun & -> & Hsp & Hbr & xck & ck & Hrd & Hck & Hckb & Hckr).
  all: pose proof (len_sbits s Hs) as Hls; rewrite (findKey_round _ _ _ _ _ n _ _ _ _ Hsp (eq_trans (eq_sym Hls) Hk) Hrun).
  all: destruct (key_cases n _ (sbits s) (rep_twf _ _ _ Hr) Hk) as [(l' & v' & Et & Ek) |
    [(l' & a' & b' & x & k' & Et & Ek & Hk') | (p & x & l2 & k2 & El & Ek)]]; try discriminate Et;
    try (destruct (leave_cases _ _ _ _ _ _ El Ek) as (-> & _); cbn [find_result]; rewrite Ek; eapply find_leave; eassumption).
  - injection Et as <- <-. cbn [tfind label] in *. rewrite Ek, decide_True by done. destruct Hp as (Hl & _ & -> & ->).
    assert (E : lcp l l = len l) by (rewrite <-(app_nil_r l) at 2; apply lcp_follow). rewrite Ek, E in *.
    unfold find_round. rewrite Hl, !Z.eqb_refl. eexists. split; [done|]. now apply Hbr.
  - injection Et as <- <- <-. cbn [tfind label] in *. rewrite Ek, strip_app, lcp_follow, consumed_follow in *. destruct (Hbr eq_refl) as (Hb1 & Hb2 & Hb3).
    pose proof Hp as (Hl & -> & _). destruct (skip_rest _ _ _ Hs Ek) as [Hs' Hk1].
    edestruct (find_fork (fun c s => match fuel with O => Panic | S fuel => findKey fuel c s resolver lenient end)) as (cc & s2 & E & Hcc & Hs2 & Hk2);
      [exact Hp|exact Hb1|exact Hb2|exact Hb3|exact Hs'|exact Hk1|]. rewrite E. destruct fuel as [|fuel]; [pose proof (len_nonneg l); lia|].
    rewrite <-Hk2. pose proof (len_nonneg l). pose proof (len_nonneg (sbits s2)). rewrite Hk2 in *.
    rewrite <-Hk2 in *. destruct x; [eapply IHb | eapply IHa]; done || (subst k'; lia).
Qed.

(** ** Reading nodes into a key *)

Lemma load_node n c t b kb brefs :
  rep n c t -> n <= K -> builds b kb brefs -> len kb + n <= 1023 ->
  exists pb refs b' ld, payload n t pb refs /\ c_special c = false /\
    loadLabel n (b, newSliceFromCell c) = (Ok (len (label t)), (b', ld)) /\ builds b' (kb ++ label t) brefs /\
    swf ld /\ sbits ld = pb /\ srefs ld = refs.
Proof using HK Hform.
  intros Hr Hn Hb Hfit. apply rep_node in Hr as (e & pb & refs & -> & He & Hsz & Hp). pose proof K_bounds.
  apply form_encodes in He. pose proof (payload_label _ _ _ _ Hp). pose proof (payload_refs _ _ _ _ Hp). pose proof (len_nonneg (label t)).
  destruct (newSlice_finished (e ++ pb) refs) as (Hbs & Hbb & Hbr); [rewrite len_app; lia|done|].
  pose proof (builds_size _ _ _ Hb) as Hbz. destruct (sbits_skip_app _ _ _ Hbs Hbb) as [Hsk Hskb].
  do 4 eexists. split; [exact Hp|]. split; [done|]. split.
  - apply (loadLabel_ok n (label t) e pb b _ He); [lia|apply Hb|exact Hbs|exact Hbb|lia].
  - split; [apply builds_append; [done|lia]|]. done.
Qed.

(** ** Extremal keys *)

(** The leaf reached by always taking the child at [bit]. *)
Fixpoint edge (bit : bool) (t : ptree (V := value)) : key * value :=
  match t with
  | Leaf l v => (l, v)
  | Fork l a b => under (l ++ [bit]) (edge bit (if bit then b else a))
  end.

(** The same where the first bit of the key is taken the other way round. *)
Definition signed_edge (bit : bool) (t : ptree (V := value)) : key * value :=
  match t with
  | Fork [] a b => under [negb bit] (edge bit (if bit then a else b))
  | _ => edge bit t
  end.

Lemma StoreBoolBit_builds b bs refs x :
  builds b bs refs -> len bs < 1023 -> exists b', StoreBoolBit x b = (Ok tt, b') /\ builds b' (bs ++ [x]) refs.
Proof.
  intros Hb Hl. pose proof (builds_size _ _ _ Hb) as Hs. exists (append b [x]).
  split; [|apply builds_append; [done|change (len [x]) with 1; lia]].
  rewrite StoreBoolBit_run by apply Hb. split_cmp; done.
Qed.

(** The direction the walk takes at a fork after the key bits [kb]. *)
Definition turn (kb : key) (fetchMax invertFirst : bool) : bool :=
  if (len kb =? 0) && invertFirst then negb fetchMax else fetchMax.

Lemma minMax_step fuel n c t b kb fetchMax invertFirst :
  rep n c t -> n <= K -> builds b kb [] -> len kb + n <= 1023 ->
  match t with
  | Leaf l v => exists b' s, minMaxLoop fuel c b n fetchMax invertFirst = Ok (b', s) /\ builds b' (kb ++ l) [] /\ reads s v
  | Fork l x y =>
      let bit := turn (kb ++ l) fetchMax invertFirst in
      exists b' c', minMaxLoop fuel c b n fetchMax invertFirst =
          match fuel with O => Panic | S fuel => minMaxLoop fuel c' b' (n - len l - 1) fetchMax invertFirst end /\
        builds b' (kb ++ l ++ [bit]) [] /\ rep (n - len l - 1) c' (child bit x y)
  end.
Proof using HK Hform.
  intros Hr Hn Hb Hfit. destruct (load_node _ _ _ _ _ _ Hr Hn Hb Hfit) as (pb & refs & b' & ld & Hp & Hsp & Hrun & Hb' & Hld & Hlb & Hlr).
  assert (E : minMaxLoop fuel c b n fetchMax invertFirst =
    if (len (label t) <? n) && (negb (BitsLeft ld =? 0) || negb (RefsNum ld =? 2)) then Err ErrInvalidDictForkNode
    else if n - len (label t) =? 0 then Ok (b', ld) else
      let bit := if (b_bitsSz b' =? 0) && invertFirst then negb fetchMax else fetchMax in
      '(_, key) ← run (StoreBoolBit bit) b'; next ← fst (peekRefCellAt (if bit then 1 else 0) ld);
      match fuel with O => Panic | S fuel => minMaxLoop fuel next key (n - len (label t) - 1) fetchMax invertFirst end).
  { destruct fuel; cbn [minMaxLoop]; unfold resolveDictNodeCell; rewrite Hsp; cbn [negb mbind outcome_bind];
      rewrite (run_Ok _ _ _ _ Hrun); done. }
  rewrite <-len_sbits, <-len_srefs, Hlb, Hlr in E by done. rewrite E. destruct t as [l v | l x y]; cbn [label payload] in *.
  - destruct Hp as (Hl & _ & -> & ->). rewrite Hl, Z.ltb_irrefl, Z.sub_diag. cbn [andb Z.eqb]. now exists b', ld.
  - destruct Hp as (Hl & -> & ca & cb & -> & Ha & Hb2). change (len [ca; cb]) with 2. rewrite len_nil. cbn [Z.eqb Pos.eqb negb orb].
    rewrite andb_false_r. destruct (Z.eqb_spec (n - len l) 0); [lia|]. cbv zeta. rewrite (builds_size _ _ _ Hb').
    fold (turn (kb ++ l) fetchMax invertFirst). set (bit := turn _ _ _).
    destruct (StoreBoolBit_builds _ _ _ bit Hb') as (b2 & Hr2 & Hb3); [rewrite len_app; lia|].
    rewrite (run_Ok _ _ _ _ Hr2). cbn [mbind outcome_bind]. rewrite peekRefCellAt_run, Hlr by done. rewrite <-app_assoc in Hb3.
    exists b2, (if bit then cb else ca). destruct bit; done.
Qed.

Lemma minMax_edge t n c b kb fuel fetchMax invertFirst :
  rep n c t -> n <= K -> builds b kb [] -> len kb + n <= 1023 -> (Z.to_nat n <= fuel)%nat -> kb <> [] \/ invertFirst = false ->
  exists b' s, minMaxLoop fuel c b n fetchMax invertFirst = Ok (b', s) /\
    builds b' (kb ++ fst (edge fetchMax t)) [] /\ reads s (snd (edge fetchMax t)).
Proof using HK Hform.
  revert n c b kb fuel. induction t as [l v | l x IHx y IHy]; intros n c b kb fuel Hr Hn Hb Hfit Hfuel Hinv.
  all: pose proof (minMax_step fuel _ _ _ _ _ fetchMax invertFirst Hr Hn Hb Hfit) as Hstep; cbn [edge fst snd].
  { exact Hstep. }
  assert (Et : turn (kb ++ l) fetchMax invertFirst = fetchMax).
  { unfold turn. destruct Hinv as [Hne | ->]; [|now rewrite andb_false_r]. destruct kb as [|z kb]; [done|].
    cbn [app]. rewrite len_cons. pose proof (len_nonneg (kb ++ l)). destruct (Z.eqb_spec (len (kb ++ l) + 1) 0); [lia|done]. }
  cbv iota zeta in Hstep. rewrite Et in Hstep. destruct Hstep as (b1 & c1 & -> & Hb1 & Hc1). pose proof (len_nonneg l).
  pose proof (rep_twf _ _ _ Hr) as (Hl & _).
  destruct fuel as [|fuel]; [lia|]. rewrite app_assoc in Hb1.
  assert (Hne : (kb ++ l) ++ [fetchMax] <> [] \/ invertFirst = false) by (left; now destruct (kb ++ l)).
  assert (Hfit1 : len ((kb ++ l) ++ [fetchMax]) + (n - len l - 1) <= 1023) by (rewrite !len_app; change (len [fetchMax]) with 1; lia).
  assert (IH : exists b' s, minMaxLoop fuel c1 b1 (n - len l - 1) fetchMax invertFirst = Ok (b', s) /\
    builds b' (((kb ++ l) ++ [fetchMax]) ++ fst (edge fetchMax (child fetchMax x y))) [] /\ reads s (snd (edge fetchMax (child fetchMax x y))))
    by (destruct fetchMax; [eapply IHy | eapply IHx]; eauto; lia).
  destruct IH as (b2 & s & -> & Hb2 & Hs). exists b2, s. split; [done|]. unfold under, child in *. cbn [fst snd].
  rewrite <-!app_assoc in *. done.
Qed.

Lemma minMax_signed t n c fuel fetchMax :
  rep n c t -> n <= K -> (Z.to_nat n <= fuel)%nat ->
  exists b' s, minMaxLoop fuel c BeginCell n fetchMax true = Ok (b', s) /\
    builds b' (fst (signed_edge fetchMax t)) [] /\ reads s (snd (signed_edge fetchMax t)).
Proof using HK Hform.
  intros Hr Hn Hfuel. pose proof K_bounds.
  pose proof (minMax_step fuel _ _ _ _ _ fetchMax true Hr Hn builds_begin ltac:(rewrite len_nil; lia)) as Hstep.
  pose proof (rep_twf _ _ _ Hr) as Hw. destruct t as [l v | l x y]; [exact Hstep|]. destruct Hw as (Hl & _). pose proof (len_nonneg l).
  cbv iota zeta in Hstep. destruct Hstep as (b1 & c1 & -> & Hb1 & Hc1). cbn [app] in *. destruct fuel as [|fuel]; [lia|].
  set (bit := turn l fetchMax true) in *.
  destruct (minMax_edge _ _ c1 b1 (l ++ [bit]) fuel fetchMax true Hc1) as (b2 & s & -> & Hb2 & Hs);
    [lia|done|rewrite len_app; change (len [bit]) with 1; lia|lia|left; now destruct l|].
  assert (Ebit : bit = match l with [] => negb fetchMax | _ => fetchMax end).
  { unfold bit, turn. destruct l as [|z l]; [done|]. rewrite len_cons. pose proof (len_nonneg l). split_cmp; done. }
  exists b2, s. split; [done|]. clearbody bit. subst bit.
  destruct l as [|z l], fetchMax; cbn [signed_edge edge]; unfold under, child in *; cbn [fst snd]; done.
Qed.

(** ** The edges are extremal *)

Lemma bits_uint_prefix l k : bits_uint (l ++ k) = bits_uint l * 2 ^ len k + bits_uint k.
Proof.
  induction l as [|x l IH]; [done|]. cbn [app]. rewrite !bits_uint_cons, IH, len_app, Z.pow_add_r by apply len_nonneg. ring.
Qed.

Lemma edge_found n t bit : twf n t -> tfind t (fst (edge bit t)) = Some (snd (edge bit t)).
Proof.
  revert n. induction t as [l v | l a IHa b IHb]; intros n Hw; cbn [edge tfind fst snd]; [now rewrite decide_True|].
  unfold under. cbn [fst snd]. rewrite <-app_assoc. cbn [app]. rewrite strip_app. destruct Hw as (_ & Ha & Hb).
  destruct bit; cbn [child]; eauto.
Qed.

Lemma edge_bound n t (bit : bool) k :
  twf n t -> is_Some (tfind t k) ->
  if bit then bits_uint k <= bits_uint (fst (edge bit t)) else bits_uint (fst (edge bit t)) <= bits_uint k.
Proof using.
  clear HK.
  revert n k. induction t as [l v | l a IHa b IHb]; intros n k Hw Hf; cbn [edge tfind fst snd] in *.
  - destruct (decide (l = k)) as [-> |]; [destruct bit; lia|]. now destruct Hf.
  - pose proof (edge_found _ _ bit Hw) as He. apply (tfind_len _ _ _ _ Hw) in He. cbn [edge] in He. unfold under in *. cbn [fst] in *.
    destruct (strip l k) as [[|x k'] |] eqn:E; [now destruct Hf| |now destruct Hf]. apply strip_Some in E as ->.
    assert (Hk : len k' = n - len l - 1).
    { destruct Hf as [w Hf]. pose proof (tfind_len _ _ (l ++ x :: k') w Hw) as Hl. cbn [tfind] in Hl. rewrite strip_app in Hl.
      specialize (Hl Hf). rewrite len_app, len_cons in Hl. lia. }
    rewrite <-app_assoc in He |- *. cbn [app] in *. rewrite len_app, len_cons in He. rewrite !bits_uint_prefix, !bits_uint_cons, !len_cons.
    set (g := fst (edge bit (if bit then b else a))) in *. replace (len g) with (len k') by lia.
    pose proof (bits_uint_bound k') as B1. pose proof (bits_uint_bound g) as B2. replace (len g) with (len k') in B2 by lia.
    destruct Hw as (_ & Ha & Hb). destruct bit, x; cbn [Z.b2z child] in *; try lia;
      [specialize (IHb _ _ Hb Hf) | specialize (IHa _ _ Ha Hf)]; fold g in IHa || fold g in IHb; lia.
Qed.

(** A key as an integer, unsigned or in two's complement. *)
Definition key_int (signed : bool) (k : key) : Z :=
  if signed then bits_int k else bits_uint k.

Lemma key_int_eq signed k : key_int signed k = bits_uint k - (if signed && hd false k then 2 ^ len k else 0).
Proof. unfold key_int, bits_int. destruct signed, k as [|[] k]; cbn [andb hd]; rewrite ?Z.sub_0_r; done. Qed.

(** The entry [LoadMinMax] returns. *)
Definition extreme (fetchMax signed : bool) (t : ptree) : key * value :=
  if signed then signed_edge fetchMax t else edge fetchMax t.

Lemma extreme_found n t fetchMax signed :
  twf n t -> tfind t (fst (extreme fetchMax signed t)) = Some (snd (extreme fetchMax signed t)).
Proof.
  intros Hw. destruct signed; cbn [extreme]; [|eapply edge_found, Hw].
  destruct t as [l v | [|z l] a b]; try (eapply edge_found, Hw).
  destruct Hw as (_ & Ha & Hb). cbn [signed_edge tfind fst snd under app strip]. destruct fetchMax; cbn [negb child]; eapply edge_found; eauto.
Qed.

Lemma key_int_same signed k k' :
  hd false k = hd false k' -> len k = len k' -> key_int signed k - key_int signed k' = bits_uint k - bits_uint k'.
Proof. intros H Hl. rewrite !key_int_eq, H, Hl. lia. Qed.

Lemma edge_key_int n t signed (bit : bool) k :
  twf n t -> is_Some (tfind t k) -> hd false (fst (edge bit t)) = hd false k ->
  if bit then key_int signed k <= key_int signed (fst (edge bit t)) else key_int signed (fst (edge bit t)) <= key_int signed k.
Proof using.
  clear HK.
  intros Hw Hf Hhd. pose proof (edge_bound _ _ bit _ Hw Hf) as Hb. pose proof (edge_found _ _ bit Hw) as He.
  apply (tfind_len _ _ _ _ Hw) in He. destruct Hf as [w Hf]. apply (tfind_len _ _ _ _ Hw) in Hf.
  pose proof (key_int_same signed _ k Hhd ltac:(lia)). destruct bit; lia.
Qed.

Lemma extreme_bound n t (fetchMax signed : bool) k :
  twf n t -> is_Some (tfind t k) ->
  if fetchMax then key_int signed k <= key_int signed (fst (extreme fetchMax signed t))
  else key_int signed (fst (extreme fetchMax signed t)) <= key_int signed k.
Proof using.
  clear HK.
  intros Hw Hf. destruct signed; cbn [extreme].
  2: { pose proof (edge_bound _ _ fetchMax _ Hw Hf). rewrite !key_int_eq. cbn [andb]. destruct fetchMax; lia. }
  destruct t as [l v | [|z l] a b]; cbn [signed_edge].
  - apply (edge_key_int n); [done..|]. cbn [edge fst tfind] in *. destruct (decide (l = k)) as [-> |]; [done|now destruct Hf].
  - cbn [tfind strip] in Hf. destruct k as [|x k]; [now destruct Hf|]. destruct Hw as (_ & Ha & Hb). rewrite len_nil in *.
    set (o := if fetchMax then a else b). assert (Ho : twf (n - 0 - 1) o) by (unfold o; now destruct fetchMax).
    pose proof (edge_found _ _ fetchMax Ho) as He. apply (tfind_len _ _ _ _ Ho) in He. set (g := fst (edge fetchMax o)) in *.
    assert (Hk : len k = n - 0 - 1) by (destruct Hf as [w Hf]; destruct x; cbn [child] in Hf; [exact (tfind_len _ _ _ _ Hb Hf)|exact (tfind_len _ _ _ _ Ha Hf)]).
    rewrite !key_int_eq. unfold under. cbn [fst app hd andb]. fold g. rewrite !bits_uint_cons, !len_cons, He, Hk, Z.pow_add_r by (pose proof (len_nonneg k); lia).
    pose proof (bits_uint_bound k) as B1. pose proof (bits_uint_bound g) as B2. rewrite Hk in B1. rewrite He in B2. change (2 ^ 1) with 2.
    destruct fetchMax, x; cbn [negb Z.b2z child] in *; try lia;
      [pose proof (edge_bound _ _ true _ Ha Hf) as E | pose proof (edge_bound _ _ false _ Hb Hf) as E]; unfold g, o in *; lia.
  - apply (edge_key_int n); [done..|]. pose proof (edge_found _ _ fetchMax Hw) as He. apply tfind_label in He as [r1 ->].
    destruct Hf as [w Hf]. apply tfind_label in Hf as [r2 ->]. done.
Qed.

(** ** Enumeration *)

Lemma truncate_builds b bs z refs :
  builds b (bs ++ z) refs -> exists b', truncateBits (len bs) b = (Ok tt, b') /\ builds b' bs refs.
Proof.
  intros Hb. pose proof (builds_size _ _ _ Hb) as Hs. destruct Hb as [Hwf Hbb Hbr]. rewrite len_app in Hs.
  pose proof (len_nonneg bs). pose proof (len_nonneg z). rewrite truncateBits_run by (done || lia). eexists. split; [done|].
  destruct (Z.leb_spec (b_bitsSz b) (len bs)).
  - destruct z as [|x z]; [|rewrite len_cons in Hs; pose proof (len_nonneg z); lia]. rewrite app_nil_r in Hbb. now split.
  - split; [apply wf_truncated; [done|lia]| |done]. unfold bits, truncated. cbn [b_data b_bitsSz]. rewrite Hbb, take_app_length' by (unfold len; lia).
    apply window_pack. pose proof (wf_sz _ Hwf). lia.
Qed.

Lemma must_StoreUInt b bs refs x :
  builds b bs refs -> len bs < 1023 ->
  exists b', must (run (StoreUInt (Z.b2z x) 1) b) = Ok (tt, b') /\ builds b' (bs ++ [x]) refs.
Proof.
  intros Hb Hl. pose proof (builds_size _ _ _ Hb) as Hs. exists (append b [x]). split.
  - rewrite (run_Ok _ _ tt (append b [x])); [done|]. rewrite StoreUInt_ok; [now destruct x|apply Hb|lia|destruct x; cbn; lia|lia].
  - apply builds_append; [done|]. change (len [x]) with 1. lia.
Qed.

(** A listed entry: the slice of the key and the slice of the value. *)
Definition lists (kv : Slice * Slice) (e : key * value) : Prop :=
  (swf (fst kv) /\ sbits (fst kv) = fst e) /\ reads (snd kv) (snd e).

Definition lists_under (kb : key) (es : list (Slice * Slice)) (t : ptree) : Prop := Forall2 lists es (under kb <$> entries t).

Lemma lists_child kb l x es t :
  lists_under (kb ++ l ++ [x]) es t -> Forall2 lists es (under kb <$> (under (l ++ [x]) <$> entries t)).
Proof.
  intros H. replace (under kb <$> (under (l ++ [x]) <$> entries t)) with (under (kb ++ l ++ [x]) <$> entries t); [done|].
  rewrite <-list_fmap_compose. apply list_fmap_ext. intros i [k v] _. unfold under. cbn. now rewrite <-!app_assoc.
Qed.

(** One child of a fork listed, and the key prefix rolled back. *)
Lemma map_child kp kb (x : bool) (next : Builder -> outcome (list (Slice * Slice) * Builder)) (out : list (Slice * Slice)) P :
  builds kp kb [] -> len kb < 1023 ->
  (forall kp', builds kp' (kb ++ [x]) [] -> exists es kp2 z, next kp' = Ok (out ++ es, kp2) /\ builds kp2 ((kb ++ [x]) ++ z) [] /\ P es) ->
  exists b1 es b2 b3, must (run (StoreUInt (Z.b2z x) 1) kp) = Ok (tt, b1) /\ next b1 = Ok (out ++ es, b2) /\
    truncateBits (len kb) b2 = (Ok tt, b3) /\ builds b3 kb [] /\ P es.
Proof.
  intros Hb Hl Hnext. destruct (must_StoreUInt _ _ _ x Hb Hl) as (b1 & E1 & Hb1).
  destruct (Hnext b1 Hb1) as (es & b2 & z & E2 & Hb2 & HP). rewrite <-app_assoc in Hb2.
  destruct (truncate_builds _ _ _ _ Hb2) as (b3 & E3 & Hb3). eauto 10.
Qed.

Lemma mapInner_leaf n c l v kp kb fuel skipPruned out :
  rep n c (Leaf l v) -> n <= K -> builds kp kb [] -> len kb + n = K ->
  exists es kp' z, mapInner fuel K n c kp skipPruned out = Ok (out ++ es, kp') /\ builds kp' (kb ++ z) [] /\ lists_under kb es (Leaf l v).
Proof using HK Hform.
  intros Hr Hn Hb Hfit. pose proof K_bounds.
  destruct (load_node _ _ _ _ _ _ Hr Hn Hb ltac:(lia)) as (pb & refs & b' & ld & (Hl & _ & -> & ->) & Hsp & Hrun & Hb' & Hld & Hlb & Hlr).
  cbn [label] in *. pose proof (builds_size _ _ _ Hb') as Hsz. rewrite len_app in Hsz.
  destruct (newSlice_finished (kb ++ l) []) as (Hk1 & Hk2 & _); [rewrite len_app; lia|rewrite len_nil; lia|].
  exists [(newSliceFromCell (finished (kb ++ l) []), ld)], b', l. split; [|split; [done|]].
  - destruct fuel; cbn [mapInner]; rewrite Hsp, (run_Ok _ _ _ _ Hrun); cbn [mbind outcome_bind];
      (destruct (Z.ltb_spec (b_bitsSz b') K); [lia|]); now rewrite (EndCell_builds _ _ _ Hb').
  - constructor; [|constructor]. done.
Qed.

Lemma mapInner_ok t n c kp kb fuel skipPruned out :
  rep n c t -> n <= K -> builds kp kb [] -> len kb + n = K -> (Z.to_nat n <= fuel)%nat ->
  exists es kp' z, mapInner fuel K n c kp skipPruned out = Ok (out ++ es, kp') /\ builds kp' (kb ++ z) [] /\ lists_under kb es t.
Proof using HK Hform.
  revert n c kp kb fuel out. induction t as [l v | l x IHx y IHy]; intros n c kp kb fuel out Hr Hn Hb Hfit Hfuel; [now eapply mapInner_leaf|].
  pose proof K_bounds. pose proof (len_nonneg l).
  destruct (load_node _ _ _ _ _ _ Hr Hn Hb ltac:(lia)) as (pb & refs & b' & ld & (Hl & -> & cx & cy & -> & Hx & Hy) & Hsp & Hrun & Hb' & Hld & Hlb & Hlr).
  cbn [label] in *. pose proof (builds_size _ _ _ Hb') as Hsz. destruct fuel as [|fuel]; [lia|].
  cbn [mapInner]. rewrite Hsp, (run_Ok _ _ _ _ Hrun). cbn [mbind outcome_bind]. rewrite Hsz, len_app. destruct (Z.ltb_spec (len kb + len l) K); [|lia].
  replace (u64 (n - (1 + len l))) with (n - len l - 1) by (rewrite u64_small by lia; lia).
  pose proof (loadRefCell_run ld true Hld) as L1. rewrite Hlr in L1. rewrite (run_Ok _ _ _ _ L1). cbn [mbind outcome_bind].
  destruct (map_child b' (kb ++ l) false (fun kp => mapInner fuel K (n - len l - 1) cx kp skipPruned out) out (fun es => lists_under (kb ++ l ++ [false]) es x) Hb')
    as (b1 & es1 & b2 & b3 & E1 & E2 & E3 & Hb3 & Hes1); [rewrite len_app; lia| |].
  { intros kp' Hkp'. rewrite app_assoc. eapply IHx; [exact Hx|lia|done|rewrite !len_app; change (len [false]) with 1; lia|lia]. }
  cbn [Z.b2z] in E1. rewrite E1. cbn [mbind outcome_bind]. rewrite E2. cbn [mbind outcome_bind]. rewrite <-len_app, (run_Ok _ _ _ _ E3). cbn [mbind outcome_bind].
  destruct (srefs_skip_ref _ _ _ Hld Hlr) as (Hld2 & _ & Hlr2). pose proof (loadRefCell_run _ true Hld2) as L2. rewrite Hlr2 in L2.
  rewrite (run_Ok _ _ _ _ L2). cbn [mbind outcome_bind].
  destruct (map_child b3 (kb ++ l) true (fun kp => mapInner fuel K (n - len l - 1) cy kp skipPruned (out ++ es1)) (out ++ es1) (fun es => lists_under (kb ++ l ++ [true]) es y) Hb3)
    as (b4 & es2 & b5 & b6 & E4 & E5 & E6 & Hb6 & Hes2); [rewrite len_app; lia| |].
  { intros kp' Hkp'. rewrite app_assoc. eapply IHy; [exact Hy|lia|done|rewrite !len_app; change (len [true]) with 1; lia|lia]. }
  cbn [Z.b2z] in E4. rewrite E4. cbn [mbind outcome_bind]. rewrite E5. cbn [mbind outcome_bind]. rewrite (run_Ok _ _ _ _ E6). cbn [mbind outcome_bind].
  exists (es1 ++ es2), b6, l. rewrite app_assoc. split; [done|]. split; [done|].
  unfold lists_under. cbn [entries]. rewrite fmap_app. apply Forall2_app; now apply lists_child.
Qed.

End rep.
