(* ===== verification/DictKeys.v ===== *)
(** * The keys of a dictionary

    The ways a caller names a key - a slice, a cell, an integer of either kind, bytes -
    all become a slice of key bits.  These lemmas say which bits. *)

From S2P Require Import Prelude Bytes CellModel Builder Finalize BuilderSpec BuilderOps Slice SliceSpec Codec CellHash SliceCompare CellTheorems.
From S2P Require Import DictLabel DictLabelTheorems DictNode DictNodeSpec.
#[local] Open Scope Z_scope.

(** ** Two's complement *)

Lemma twos_complement_ok n a :
  0 <= a ->
  foldr twos_complement_step (1, []) (be_bytes n a)
  = ((if a mod 2 ^ (8 * Z.of_nat n) =? 0 then 1 else 0), be_bytes n (- a)).
Proof.
  intros Ha. induction n as [|n IH]; [cbn; now rewrite Z.mod_1_r|].
  rewrite !be_bytes_S. cbn [foldr]. rewrite IH. cbn [twos_complement_step].
  set (p := 2 ^ (8 * Z.of_nat n)) in *. assert (Hp : 0 < p) by (apply Z.pow_pos_nonneg; lia).
  replace (2 ^ (8 * Z.of_nat (S n))) with (p * 256)
    by (unfold p; replace (8 * Z.of_nat (S n)) with (8 * Z.of_nat n + 8) by lia; rewrite Z.pow_add_r; lia).
  rewrite !Z.shiftr_div_pow2 by lia. fold p. rewrite Z.rem_mul_r by lia. pose proof (Z.mod_pos_bound a p Hp).
  unfold u8. change (2 ^ 8) with 256. destruct (Z.eqb_spec (a mod p) 0) as [E | E].
  - rewrite Z.div_opp_l_z, E by lia. cbn [Z.eqb negb andb]. set (q := a / p). replace ((255 - q mod 256 + 1) mod 256) with (- q mod 256) by lia.
    f_equal. assert (Hq : 0 + p * (q mod 256) = 0 <-> q mod 256 = 0) by (rewrite Z.add_0_l, Z.mul_eq_0; lia).
    destruct (Z.eqb_spec (- q mod 256) 0), (Z.eqb_spec (0 + p * (q mod 256)) 0); cbn [negb]; try done; lia.
  - rewrite Z.div_opp_l_nz by lia. set (q := a / p). cbn [Z.eqb negb andb].
    replace ((255 - q mod 256 + 0) mod 256) with ((- q - 1) mod 256) by lia. f_equal.
    destruct (Z.eqb_spec (a mod p + p * (q mod 256)) 0) as [E0 |]; [|done].
    pose proof (Z.mul_nonneg_nonneg p (q mod 256)). lia.
Qed.

(** ** The shift to the left edge *)

Lemma shift_left_ok rem d :
  0 < rem < 8 -> bytes_ok d ->
  let '(carry, out) := foldr (shift_left_step rem) (0, []) d in
  carry = byte_at d 0 ≫ rem /\ len out = len d /\ bytes_ok out /\ forall i, 0 <= i -> bit out i = bit d (i + (8 - rem)).
Proof.
  intros Hr Hd. induction Hd as [|x d Hx Hd IH]; cbn [foldr].
  { split_and!; try done; [symmetry; apply Z.shiftr_0_l|constructor|]. intros i Hi. now rewrite !(bit_out []) by (rewrite (@len_nil Z); lia). }
  destruct (foldr (shift_left_step rem) (0, []) d) as [carry out]. destruct IH as (-> & Hl & Hok & Hb). cbn [shift_left_step].
  assert (H0 : byte_ok (byte_at d 0)) by now apply byte_at_ok.
  split_and!; [done|rewrite !len_cons; lia|apply bytes_ok_cons; split; [apply byte_ok_lor; [apply byte_ok_u8|apply byte_ok_shiftr; [done|lia]]|done]|].
  intros i Hi. rewrite !bit_cons by lia. destruct (Z.ltb_spec i 8).
  - autorewrite with bitdb. destruct (Z.ltb_spec (i + (8 - rem)) 8) as [Hlt | Hge].
    + rewrite (testbit_byte_at d 0) by (done || lia). rewrite andb_false_r, orb_false_r. split_cmp; cbn [andb]. f_equal. lia.
    + rewrite (Z.testbit_neg_r x) by lia. rewrite !andb_false_r. cbn [orb]. unfold bit. replace ((i + (8 - rem) - 8) / 8) with 0 by lia.
      split_cmp; cbn [andb]. f_equal. lia.
  - destruct (Z.ltb_spec (i + (8 - rem)) 8); [lia|]. rewrite Hb by lia. f_equal. lia.
Qed.

(** ** Integer keys *)

Lemma trailing_zeros_top n x :
  2 ^ Z.of_nat n <= x < 2 ^ Z.of_nat (S n) -> (trailing_zeros (S n) x =? Z.of_nat n) = (x =? 2 ^ Z.of_nat n).
Proof.
  revert x. induction n as [|n IH]; intros x Hx.
  - change (2 ^ Z.of_nat 0) with 1 in *. change (2 ^ Z.of_nat 1) with 2 in *. now replace x with 1 by lia.
  - cbn [trailing_zeros] in *. rewrite !Nat2Z.inj_succ, !Z.pow_succ_r in * by lia. set (p := 2 ^ Z.of_nat n) in *.
    rewrite Z.shiftr_div_pow2 in * by lia. change (2 ^ 1) with 2 in *. destruct (Z.odd x) eqn:Eo.
    + apply Z.odd_spec in Eo as [m ->]. split_cmp; done.
    + assert (Ee : x = 2 * (x / 2)) by (pose proof (Z.div_mod x 2); rewrite Zmod_odd, Eo in *; lia).
      specialize (IH (x / 2) ltac:(lia)).
      rewrite Z.shiftr_div_pow2 in IH by lia. change (2 ^ 1) with 2 in IH.
      rewrite Z.shiftr_div_pow2 by lia. change (2 ^ 1) with 2.
      set (tz := if Z.odd (x / 2) then 0 else 1 + trailing_zeros n (x / 2 / 2)) in *.
      transitivity (tz =? Z.of_nat n); [split_cmp; done|]. rewrite IH. split_cmp; done.
Qed.

(** The integers a key of [K] bits can hold, signed or unsigned. *)
Definition key_range (K z : Z) : bool :=
  if K =? 0 then z =? 0 else (- 2 ^ (K - 1) <=? z) && (z <? 2 ^ K).

Lemma key_test K z :
  0 < K ->
  (if 0 <=? z then K <? bit_len z
   else (K <? bit_len z) || ((bit_len z =? K) && negb (trailing_zeros (Z.to_nat K) (- z) =? K - 1))) = negb (key_range K z).
Proof.
  intros HK. unfold key_range. destruct (Z.eqb_spec K 0); [lia|]. rewrite negb_andb.
  assert (Hp : 0 < 2 ^ (K - 1)) by (apply Z.pow_pos_nonneg; lia). assert (H2 : 2 ^ K = 2 * 2 ^ (K - 1)) by (rewrite <-Z.pow_succ_r by lia; f_equal; lia).
  assert (Habs : bit_len z = bit_len (Z.abs z)) by (unfold bit_len; rewrite Z.abs_idemp; destruct (Z.eqb_spec z 0), (Z.eqb_spec (Z.abs z) 0); done || lia).
  pose proof (bit_len_le (Z.abs z) K ltac:(lia) ltac:(lia)) as B1. pose proof (bit_len_le (Z.abs z) (K - 1) ltac:(lia) ltac:(lia)) as B2.
  rewrite Habs. destruct (Z.leb_spec 0 z).
  - split_cmp; cbn [negb orb]; done || lia.
  - replace (Z.to_nat K) with (S (Z.to_nat (K - 1))) by lia.
    destruct (Z.eqb_spec (bit_len (Z.abs z)) K) as [E | E]; cbn [andb].
    + pose proof (trailing_zeros_top (Z.to_nat (K - 1)) (- z)) as Ht. rewrite Nat2Z.inj_succ, Z2Nat.id, Z.pow_succ_r in Ht by lia.
      rewrite Ht by lia. split_cmp; cbn [negb orb]; done || lia.
    + rewrite orb_false_r. split_cmp; cbn [negb orb]; done || lia.
Qed.

Lemma nth_zeros n i : nth i (replicate n 0) 0 = 0.
Proof. revert i. induction n as [|n IH]; intros [|i]; cbn [replicate nth]; auto. Qed.

Lemma low_mask r : 0 < r < 8 -> u8 (u8 (1 ≪ r) - 1) = Z.ones r.
Proof. intros H. assert (r = 1 \/ r = 2 \/ r = 3 \/ r = 4 \/ r = 5 \/ r = 6 \/ r = 7) by lia. intuition subst; done. Qed.

Lemma inline_builds data K z :
  0 <= K <= 1023 -> len data = (K + 7) / 8 -> bytes_ok data ->
  (forall i, 0 <= i -> bit data i = (i <? K) && Z.testbit z (K - 1 - i)) ->
  builds (mkBuilder (inline_buffer data) K []) (uint_bits K z) [].
Proof.
  intros HK Hl Hok Hb. unfold inline_buffer.
  assert (Hbit : forall i, 0 <= i -> bit (data ++ replicate (128 - length data) 0) i = bit data i).
  { intros i Hi. unfold bit. rewrite byte_at_app by lia. destruct (Z.ltb_spec (i / 8) (len data)); [done|].
    unfold byte_at. rewrite nth_zeros, (nth_overflow data) by (unfold len in *; lia). done. }
  split; [split|..]; cbn [b_data b_bitsSz b_refs].
  - rewrite len_app, len_replicate. unfold len in *. lia.
  - apply bytes_ok_app. split; [done|]. apply Forall_replicate. lia.
  - lia.
  - intros i Hi. rewrite Hbit, Hb by lia. split_cmp; done.
  - rewrite len_nil. lia.
  - unfold bits. cbn [b_data b_bitsSz]. apply window_uint_bits; [lia|]. intros i Hi. rewrite Hbit, Hb by lia.
    split_cmp; done.
  - done.
Qed.

Lemma initIntKeyBuilder_ok K z :
  0 <= K <= 1023 ->
  if key_range K z then exists b, initIntKeyBuilder (Some z) K = Ok b /\ builds b (uint_bits K z) []
  else initIntKeyBuilder (Some z) K = Panic.
Proof.
  intros HK. unfold initIntKeyBuilder. destruct (Z.ltb_spec 1023 K); [lia|]. destruct (Z.eqb_spec K 0) as [-> | HK0].
  { unfold key_range. cbn [Z.eqb]. destruct (Z.eqb_spec z 0); [|done]. exists BeginCell. split; [done|]. apply builds_begin. }
  rewrite key_test by lia. destruct (key_range K z) eqn:Er; cbn [negb]; [|done].
  set (n := (K + 7) / 8). assert (Habs : bit_len z <= K).
  { pose proof (key_test K z ltac:(lia)) as Ht. rewrite Er in Ht. destruct (0 <=? z); [now apply Z.ltb_ge in Ht|].
    apply orb_false_iff in Ht as [Ht _]. now apply Z.ltb_ge in Ht. }
  unfold fill_bytes. destruct (Z.leb_spec (bit_len z) (8 * n)); [|lia]. cbn [mbind outcome_bind].
  replace (if z <? 0 then snd (foldr twos_complement_step (1, []) (be_bytes (Z.to_nat n) (Z.abs z))) else be_bytes (Z.to_nat n) (Z.abs z))
    with (be_bytes (Z.to_nat n) z).
  2: { destruct (Z.ltb_spec z 0); [rewrite twos_complement_ok by lia; cbn [snd]|]; f_equal; lia. }
  destruct (Z.eqb_spec (K mod 8) 0) as [E | E]; cbn [negb].
  - cbn [mbind outcome_bind]. eexists. split; [done|]. apply inline_builds; [done|rewrite len_be_bytes; lia|apply be_bytes_ok|].
    intros i Hi. destruct (Z.ltb_spec i K); cbn [andb]; [|apply bit_out; rewrite len_be_bytes; lia].
    rewrite bit_be_bytes by lia. f_equal. lia.
  - rewrite index_ok by (rewrite len_be_bytes; lia). cbn [mbind outcome_bind].
    rewrite write_ok by (unfold len; rewrite ?length_be_bytes; cbn [length]; lia). cbn [mbind outcome_bind].
    set (d := splice _ _ _). assert (Hd : len d = n) by (unfold d; rewrite len_splice; unfold len; rewrite ?length_be_bytes; cbn [length]; lia).
    assert (Hok : bytes_ok d) by (unfold d; auto 7 using bytes_ok_splice, be_bytes_ok, bytes_ok_one, byte_ok_land, byte_at_ok).
    pose proof (shift_left_ok (K mod 8) d ltac:(lia) Hok) as Hs. destruct (foldr _ _ d) as [carry out]. destruct Hs as (_ & Hl & Hoo & Hb).
    cbn [snd mbind outcome_bind]. eexists. split; [done|]. apply inline_builds; [done|lia|done|]. intros i Hi. rewrite Hb by done.
    destruct (Z.ltb_spec i K); cbn [andb]; [|apply bit_out; lia]. unfold d. rewrite bit_splice_one by (rewrite ?len_be_bytes; lia).
    destruct (Z.eqb_spec ((i + (8 - K mod 8)) / 8) 0).
    + rewrite low_mask, Z.land_ones by lia. rewrite Z.mod_pow2_bits_low by lia. rewrite <-e. rewrite bit_byte, bit_be_bytes by lia. f_equal. lia.
    + rewrite bit_be_bytes by lia. f_equal. lia.
Qed.

(** ** Unsigned keys, bytes and cells *)

Lemma uint_bits_app a b z : 0 <= a -> 0 <= b -> uint_bits (a + b) z = uint_bits a (z ≫ b) ++ uint_bits b z.
Proof.
  intros Ha Hb. apply (list_eq_nth false).
  - apply Nat2Z.inj. change (len (uint_bits (a + b) z) = len (uint_bits a (z ≫ b) ++ uint_bits b z)).
    rewrite len_app, !length_uint_bits; lia.
  - intros i _. rewrite nth_app, <-(Nat2Z.id i), nth_uint_bits_Z by lia.
    pose proof (length_uint_bits a (z ≫ b) Ha) as Hl. unfold len in Hl.
    destruct (Nat.ltb_spec (Z.to_nat (Z.of_nat i)) (length (uint_bits a (z ≫ b)))).
    + rewrite nth_uint_bits_Z by lia. rewrite Z.shiftr_spec by lia. replace (Z.of_nat i <? a + b) with (Z.of_nat i <? a) by (split_cmp; done).
      f_equal. f_equal. lia.
    + replace (Z.to_nat (Z.of_nat i) - length (uint_bits a (z ≫ b)))%nat with (Z.to_nat (Z.of_nat i - a)) by lia.
      rewrite nth_uint_bits_Z by lia. replace (Z.of_nat i - a <? b) with (Z.of_nat i <? a + b) by (split_cmp; done). f_equal. f_equal. lia.
Qed.

Lemma initUintKeyBuilder_ok K z :
  0 <= K <= 1023 -> 0 <= z < 2 ^ Z.min K 64 ->
  exists b, initUintKeyBuilder z K = Ok b /\ builds b (uint_bits K z) [].
Proof.
  intros HK Hz. unfold initUintKeyBuilder. destruct (Z.ltb_spec 1023 K); [lia|]. destruct (Z.leb_spec K 64).
  - rewrite Z.min_l in Hz by lia. pose proof (StoreUInt_ok BeginCell z K wf_begin ltac:(lia) Hz ltac:(cbn [b_bitsSz BeginCell]; lia)) as Hrun.
    rewrite (run_Ok _ _ _ _ Hrun). cbn [mbind outcome_bind]. eexists. split; [done|].
    apply (builds_append BeginCell [] []); [apply builds_begin|]. rewrite len_nil, length_uint_bits; lia.
  - rewrite Z.min_r in Hz by lia. set (b0 := mkBuilder (replicate 128 0) (K - 64) []).
    assert (Hz0 : z ≫ 64 = 0) by (rewrite Z.shiftr_div_pow2 by lia; now apply Z.div_small).
    assert (Hb0 : builds b0 (uint_bits (K - 64) 0) []).
    { assert (Hbit : forall i, bit (replicate 128 0) i = false) by (intros i; unfold bit, byte_at; rewrite nth_zeros; apply Z.testbit_0_l).
      split; [split|..]; cbn [b0 b_data b_bitsSz b_refs]; try done; [apply Forall_replicate; lia|lia|].
      unfold bits. cbn [b0 b_data b_bitsSz]. apply window_uint_bits; [lia|]. intros i Hi. now rewrite Hbit, Z.testbit_0_l. }
    pose proof (StoreUInt_ok b0 z 64 (bu_wf _ _ _ Hb0) ltac:(lia) Hz ltac:(cbn [b0 b_bitsSz]; lia)) as Hrun.
    rewrite (run_Ok _ _ _ _ Hrun). cbn [mbind outcome_bind]. eexists. split; [done|].
    replace (uint_bits K z) with (uint_bits (K - 64) 0 ++ uint_bits 64 z).
    2: { rewrite <-Hz0, <-uint_bits_app by lia. f_equal. lia. }
    apply builds_append; [done|]. rewrite !length_uint_bits; lia.
Qed.

Lemma raw_slice_ok d K :
  bytes_ok d -> 0 <= K <= 1023 -> K <= 8 * len d < 2 ^ 63 -> swf (raw_slice d K) /\ sbits (raw_slice d K) = window d 0 K.
Proof.
  intros Hd HK Hl. unfold raw_slice. split.
  - split; unfold s_data; cbn [s_cell s_bitStart s_bitEnd s_refStart s_refEnd c_data c_refs]; try done; [lia..|].
    unfold len. cbn [length]. lia.
  - unfold sbits, s_data. cbn [s_cell s_bitStart s_bitEnd c_data]. now rewrite Z.sub_0_r.
Qed.

Lemma fixedDictKeySlice_ok s K :
  swf s -> 0 <= K <= BitsLeft s ->
  exists k, fixedDictKeySlice s K = Ok k /\ swf k /\ sbits k = take (Z.to_nat K) (sbits s).
Proof.
  intros Hs HK. unfold fixedDictKeySlice. destruct (Z.ltb_spec (BitsLeft s) K); [lia|].
  pose proof (swf_bits _ Hs). pose proof (swf_end _ Hs). pose proof (BitsLeft_eq s Hs). pose proof (swf_refs _ Hs). pose proof (swf_rend _ Hs).
  rewrite (u16_small K), u16_small by lia. eexists. split; [done|]. apply first_bits_ok; done || lia.
Qed.

(** ** Any way to name a key *)

Inductive basic_key : Type := KeySlice (s : Slice) | KeyCell (c : Cell) | KeyInt (z : Z).
Inductive key_arg : Type := Basic (k : basic_key) | KeyUint (z : Z) | KeyBytes (d : list Z).

Definition basic_ok (K : Z) (k : basic_key) : Prop :=
  match k with
  | KeySlice s => swf s /\ K <= BitsLeft s
  | KeyCell c => swf (newSliceFromCell c) /\ c_bitsSz c = K
  | KeyInt z => key_range K z = true
  end.

Definition key_ok (K : Z) (k : key_arg) : Prop :=
  match k with
  | Basic k => basic_ok K k
  | KeyUint z => 0 <= z < 2 ^ Z.min K 64
  | KeyBytes d => bytes_ok d /\ K <= 8 * len d < 2 ^ 63
  end.

(** The bits the argument stands for. *)
Definition basic_bits (K : Z) (k : basic_key) : list bool :=
  match k with
  | KeySlice s => take (Z.to_nat K) (sbits s)
  | KeyCell c => cbits_of c
  | KeyInt z => uint_bits K z
  end.

Definition key_bits (K : Z) (k : key_arg) : list bool :=
  match k with
  | Basic k => basic_bits K k
  | KeyUint z => uint_bits K z
  | KeyBytes d => window d 0 K
  end.
