(* ===== verification/DictTheorems.v ===== *)
(** * Dictionaries implement finite maps

    The refinement between the cells of a dictionary and the finite map it stands for:
    every operation succeeds, returns what the map says, and leaves a dictionary for
    the updated map.  Dictionaries built by these operations are canonical: equal maps
    have equal root cells. *)

From S2P Require Import Prelude Bytes Sha256 CellModel Builder Finalize BuilderSpec BuilderOps Slice SliceSpec CellHash SliceCompare CellTheorems.
From S2P Require Import DictLabel DictLabelTheorems DictTree DictNode DictNodeSpec Dict DictSpec DictKeys.
From stdpp Require Import gmap sorting strings.
#[local] Open Scope Z_scope.

(** ** The map of a dictionary *)

Section refinement.
  Context (enc : Z -> list bool -> list bool -> Prop) `{Hform : !LabelForm enc} (K : Z) (HK : 0 <= K /\ 0 <= room K).

Definition root_map (root : option Cell) (m : gmap key value) : Prop :=
  match root with
  | None => m = ∅
  | Some c => exists t, rep enc K K c t /\ tmap t = m
  end.

Definition dict_map (d : Dictionary) (m : gmap key value) : Prop := d_keySz d = K /\ root_map (d_root d) m.

Lemma root_lookup c t k : rep enc K K c t -> tmap t !! k = tfind t k.
Proof using. intros H. apply (lookup_tmap K), (rep_twf _ _ _ _ _ H). Qed.

Lemma root_set root m s sv v mode :
  root_map root m -> swf s -> len (sbits s) = K -> gives sv v -> fits K v ->
  let w := writes mode (present (m !! sbits s)) in
  exists root' o, set (walk_fuel K) root s K sv mode = Ok (root', o, w) /\ reads_opt o (m !! sbits s) /\
    (if w then root_map root' (<[sbits s := v]> m) else root' = root).
Proof using HK Hform.
  intros Hm Hs Hk Hv Hf. cbv zeta. destruct root as [c |].
  - destruct Hm as (t & Hr & <-). destruct (set_ok enc K HK t K c s (walk_fuel K) sv v mode Hr) as (c' & o & E & Ho & Hc'); try done; [unfold walk_fuel; lia|].
    rewrite (root_lookup c) by done. exists (Some c'), o. split; [done|]. split; [done|].
    destruct (writes mode _); [|now subst]. exists (tset t (sbits s) v). split; [done|].
    apply (tmap_tset K); [apply (rep_twf _ _ _ _ _ Hr)|done].
  - cbn [root_map] in Hm. subst m. rewrite lookup_empty. unfold writes. cbn [present set walk_fuel].
    destruct (storeSetLeaf_ok enc K HK sv v s K Hv Hf Hs Hk) as (c & E & Hr); [lia|]. destruct (Z.eqb_spec mode DictSetModeReplace).
    + now do 2 eexists.
    + rewrite E. cbn [mbind outcome_bind]. replace (if mode =? DictSetModeAdd then negb false else true) with true by now destruct (mode =? DictSetModeAdd).
      do 2 eexists. split; [done|]. split; [done|]. eexists. split; [exact Hr|]. unfold tmap. cbn [entries list_to_map foldr]. done.
Qed.

Lemma root_delete root m s :
  root_map root m -> swf s -> len (sbits s) = K ->
  exists root' o, lookupDelete (walk_fuel K) root s K = Ok (o, root', present (m !! sbits s)) /\ reads_opt o (m !! sbits s) /\
    (if present (m !! sbits s) then root_map root' (delete (sbits s) m) else root' = None).
Proof using HK Hform.
  intros Hm Hs Hk. destruct root as [c |].
  - destruct Hm as (t & Hr & <-). pose proof (rep_twf _ _ _ _ _ Hr) as Hw.
    pose proof (lookupDelete_ok enc K HK t K c s (walk_fuel K) Hr ltac:(lia) Hs Hk ltac:(unfold walk_fuel; lia)) as H.
    pose proof (tmap_tdel K t (sbits s) Hw Hk) as Hd. unfold del_result in H.
    destruct (tdel t (sbits s)) as [[t' |] |].
    + destruct H as (o & v & Hf & Hread & c' & -> & Hc'). destruct Hd as (_ & _ & Hd). rewrite (lookup_tmap K), Hf by done.
      exists (Some c'), (Some o). split; [done|]. split; [done|]. exists t'. done.
    + destruct H as (o & v & Hf & Hread & ->). destruct Hd as (_ & _ & Hd). rewrite (lookup_tmap K), Hf by done.
      exists None, (Some o). split; [done|]. split; [done|]. now symmetry.
    + rewrite H, Hd. now exists None, None.
  - cbn [root_map] in Hm. subst m. rewrite lookup_empty. now exists None, None.
Qed.

Lemma root_find c m s resolver lenient :
  root_map (Some c) m -> swf s -> len (sbits s) = K -> find_result (m !! sbits s) (findKey (walk_fuel K) c s resolver lenient).
Proof using HK Hform.
  intros (t & Hr & <-) Hs Hk. rewrite (root_lookup c) by done.
  apply (findKey_ok enc K HK t K); done || (unfold walk_fuel; lia).
Qed.

End refinement.

(** ** The operations a caller performs *)

Inductive cmd : Type :=
  | CSet (k : key_arg) (v : Builder) (mode : Z)
  | CSetCell (k v : Cell) (mode : Z)
  | CSwap (k : Cell) (v : Builder) (mode : Z)
  | CDelete (k : basic_key)
  | CFind (k : key_arg)
  | CExtreme (fetchMax signed : bool)
  | CPop (fetchMax signed : bool)
  | CAll (skipPruned : bool).

Inductive answer : Type :=
  | AUnit
  | AFlag (changed : bool)
  | ASwap (old : option Slice) (changed : bool)
  | AValue (v : Slice)
  | AEntry (k : Cell) (v : Slice)
  | AList (l : list (Slice * Slice)).

Definition set_builder (k : key_arg) (v : Builder) (mode : Z) : M Dictionary bool :=
  match k with
  | Basic (KeySlice s) => SetBuilderBySliceKeyWithMode s (Some v) mode
  | Basic (KeyCell c) => SetBuilderWithMode (Some c) (Some v) mode
  | Basic (KeyInt z) => SetBuilderByIntKeyWithMode (Some z) (Some v) mode
  | KeyUint z => SetBuilderByUintKeyWithMode z (Some v) mode
  | KeyBytes d => SetBuilderByBytesKeyWithMode d (Some v) mode
  end.

Definition load_value (k : key_arg) : M Dictionary Slice :=
  match k with
  | Basic (KeySlice s) => LoadValueBySliceKeyInto s
  | Basic (KeyCell c) => LoadValue (Some c)
  | Basic (KeyInt z) => LoadValueByIntKeyInto (Some z)
  | KeyUint z => LoadValueByUintKeyInto z
  | KeyBytes d => LoadValueByBytesKeyInto d
  end.

Definition perform (c : cmd) : M Dictionary answer :=
  match c with
  | CSet k v mode => b ← set_builder k v mode; mret (AFlag b)
  | CSetCell k v mode => b ← SetWithMode (Some k) (Some v) mode; mret (AFlag b)
  | CSwap k v mode => '(old, b) ← LoadValueAndSetBuilderWithMode (Some k) (Some v) mode; mret (ASwap old b)
  | CDelete (KeySlice s) => b ← DeleteBySliceKey s; mret (AFlag b)
  | CDelete (KeyCell c) => Dict.Delete (Some c) ;; mret AUnit
  | CDelete (KeyInt z) => b ← DeleteByIntKey (Some z); mret (AFlag b)
  | CFind k => s ← load_value k; mret (AValue s)
  | CExtreme fetchMax signed => '(k, s) ← LoadMinMax fetchMax signed; mret (AEntry k s)
  | CPop fetchMax signed => '(k, s) ← LoadMinMaxAndDelete fetchMax signed; mret (AEntry k s)
  | CAll skipPruned => d ← get_state; l ← lift (LoadAll skipPruned d); mret (AList l)
  end.

Definition builder_value (b : Builder) : value := (bits b, b_refs b).
Definition cell_value (c : Cell) : value := (cbits_of c, c_refs c).

(** Cells as finalization lays them out. *)
Record cell_ok (c : Cell) : Prop := {
  cell_bits : 0 <= c_bitsSz c <= 1023;
  cell_data : c_data c = pack (Z.to_nat ((c_bitsSz c + 7) / 8)) (cbits_of c);
  cell_refs : len (c_refs c) <= 4
}.

Definition cmd_ok (K : Z) (c : cmd) : Prop :=
  match c with
  | CSet k v _ => key_ok K k /\ wf v /\ fits K (builder_value v)
  | CSetCell k v _ => basic_ok K (KeyCell k) /\ cell_ok v /\ fits K (cell_value v)
  | CSwap k v _ => basic_ok K (KeyCell k) /\ wf v /\ fits K (builder_value v)
  | CDelete k => basic_ok K k
  | CFind k => key_ok K k
  | _ => True
  end.

(** The extremal binding of a map. *)
Definition extremal (m : gmap key value) (fetchMax signed : bool) (k : key) (v : value) : Prop :=
  m !! k = Some v /\
  forall k', is_Some (m !! k') ->
    if fetchMax then key_int signed k' <= key_int signed k else key_int signed k <= key_int signed k'.

(** An answer with an extremal entry, for the map without it. *)
Definition answers_entry (m : gmap key value) (fetchMax signed : bool) (r : outcome answer) (m' : gmap key value -> key -> Prop) : Prop :=
  (m = ∅ /\ r = Err ErrNoSuchKeyInDict) \/
  exists k v s, extremal m fetchMax signed k v /\ r = Ok (AEntry (finished k []) s) /\ reads s v /\ m' m k.

(** What an operation on a map answers, and the map it leaves. *)
Definition answers (K : Z) (c : cmd) (m : gmap key value) (r : outcome answer) (m' : gmap key value) : Prop :=
  let set k v mode := if writes mode (present (m !! k)) then <[k := v]> m else m in
  match c with
  | CSet k v mode =>
      r = Ok (AFlag (writes mode (present (m !! key_bits K k)))) /\ m' = set (key_bits K k) (builder_value v) mode
  | CSetCell k v mode => r = Ok (AFlag (writes mode (present (m !! cbits_of k)))) /\ m' = set (cbits_of k) (cell_value v) mode
  | CSwap k v mode =>
      (exists o, r = Ok (ASwap o (writes mode (present (m !! cbits_of k)))) /\ reads_opt o (m !! cbits_of k)) /\
      m' = set (cbits_of k) (builder_value v) mode
  | CDelete k =>
      r = Ok (match k with KeyCell _ => AUnit | _ => AFlag (present (m !! basic_bits K k)) end) /\
      m' = delete (basic_bits K k) m
  | CFind k =>
      match m !! key_bits K k with
      | Some v => exists s, r = Ok (AValue s) /\ reads s v
      | None => r = Err ErrNoSuchKeyInDict
      end /\ m' = m
  | CExtreme fetchMax signed => answers_entry m fetchMax signed r (fun m _ => m' = m) /\ (m = ∅ -> m' = m)
  | CPop fetchMax signed => answers_entry m fetchMax signed r (fun m k => m' = delete k m) /\ (m = ∅ -> m' = m)
  | CAll _ =>
      (exists l es, r = Ok (AList l) /\ Forall2 lists l es /\ StronglySorted before es /\ list_to_map es = m) /\ m' = m
  end.

(** ** Arguments *)

Lemma len_basic_bits K k : 0 <= K -> basic_ok K k -> len (basic_bits K k) = K.
Proof.
  intros HK. destruct k as [s | c | z]; cbn [basic_ok basic_bits].
  - intros [Hs Hl]. pose proof (len_sbits s Hs). apply len_take. lia.
  - intros [_ H]. unfold cbits_of. rewrite length_window; lia.
  - intros _. now apply length_uint_bits.
Qed.

Lemma key_cell_slice_ok K c d what :
  basic_ok K (KeyCell c) -> d_keySz d = K ->
  key_cell_slice (Some c) what d = (Ok (newSliceFromCell c), d) /\ swf (newSliceFromCell c) /\ sbits (newSliceFromCell c) = cbits_of c.
Proof.
  intros [Hs Hb] Hd. unfold key_cell_slice. mrun. rewrite Hd, Hb, Z.eqb_refl. cbn [negb]. mrun. split; [done|]. split; [done|].
  unfold sbits, cbits_of, s_data. cbn [newSliceFromCell s_cell s_bitStart s_bitEnd]. now rewrite Z.sub_0_r.
Qed.

Lemma int_key_slice_ok K z d :
  0 <= K <= 1023 -> key_range K z = true -> d_keySz d = K ->
  exists s, int_key_slice (Some z) d = (Ok s, d) /\ swf s /\ sbits s = uint_bits K z.
Proof.
  intros HK Hr Hd. unfold int_key_slice. mrun. rewrite Hd. pose proof (initIntKeyBuilder_ok K z HK) as Hi. rewrite Hr in Hi.
  destruct Hi as (b & -> & Hb). mrun. destruct (builderSliceView_ok _ _ _ Hb) as (s & -> & Hs & Hsb). now exists s.
Qed.

Lemma gives_builder b : wf b -> gives (mkSetValue (Some b) None) (builder_value b).
Proof. intros Hb. exists b. split; [now split|]. done. Qed.

Lemma mask_tail_zero d m :
  len d = 128 -> bytes_ok d -> 0 <= m <= 1023 -> (forall i, m <= i -> bit d i = false) ->
  exists d', mask_tail d m = Ok d' /\ len d' = 128 /\ bytes_ok d' /\ forall i, 0 <= i -> bit d' i = bit d i.
Proof.
  intros Hl Hok Hm Hz. unfold mask_tail. destruct (Z.eqb_spec (m mod 8) 0); cbn [negb]; [now exists d|].
  rewrite index_ok by lia. cbn [mbind outcome_bind]. rewrite write_ok by (unfold len in *; cbn [length]; lia). eexists. split; [done|]. split_and!.
  - rewrite len_splice; unfold len in *; cbn [length]; lia.
  - auto with bytes.
  - intros i Hi. rewrite bit_splice_one by lia. destruct (Z.eqb_spec (i / 8) (m / 8)) as [He |]; [|done].
    rewrite <-He. autorewrite with bitdb. rewrite bit_byte. destruct (Z.ltb_spec i m); [split_cmp; bool_simpl; done|].
    now rewrite Hz by lia.
Qed.

Lemma Cell_ToBuilder_ok c : cell_ok c -> exists b, Cell_ToBuilder c = Ok b /\ builds b (cbits_of c) (c_refs c).
Proof.
  intros [Hb Hd Hr]. unfold Cell_ToBuilder. set (n := (c_bitsSz c + 7) / 8) in *.
  assert (Hl : len (c_data c) = n) by (rewrite Hd, len_pack; lia). assert (Hln : (length (c_data c) <= 128)%nat) by (unfold len in Hl; lia).
  assert (Hbl : len (cbits_of c) = c_bitsSz c) by (unfold cbits_of; now rewrite length_window).
  rewrite take_ge by done. rewrite write_ok by (rewrite ?len_replicate; lia). cbn [mbind outcome_bind].
  set (d := splice _ _ _). assert (Hbit : forall i, 0 <= i -> bit d i = nth (Z.to_nat i) (cbits_of c) false).
  { intros i Hi. unfold d. rewrite bit_splice by (rewrite ?len_replicate; lia). rewrite Hl. cbn [Z.mul].
    destruct (Z.ltb_spec i (8 * (0 + n))).
    - replace (8 * 0 <=? i) with true by (split_cmp; done). cbn [andb]. rewrite Hd, Z.sub_0_r. apply bit_pack. lia.
    - rewrite andb_false_r. unfold bit at 1, byte_at. rewrite nth_zeros, Z.testbit_0_l. symmetry. apply nth_overflow. unfold len in Hbl. lia. }
  destruct (mask_tail_zero d (c_bitsSz c)) as (d' & -> & Hl' & Hok' & Hb').
  - unfold d. rewrite len_splice; rewrite ?len_replicate; lia.
  - unfold d. apply bytes_ok_splice; [apply Forall_replicate; lia|rewrite Hd; apply bytes_ok_pack].
  - done.
  - intros i Hi. rewrite Hbit by lia. apply nth_overflow. unfold len in Hbl. lia.
  - cbn [mbind outcome_bind]. eexists. split; [done|]. split; [split|..]; cbn [b_data b_bitsSz b_refs]; try done.
    + intros i Hi. rewrite Hb', Hbit by lia. apply nth_overflow. unfold len in Hbl. lia.
    + unfold bits. cbn [b_data b_bitsSz]. apply window_eq; [lia|done|]. intros i Hi. rewrite Hb', Hbit by lia. f_equal.
Qed.

Lemma gives_cell c : cell_ok c -> gives (mkSetValue None (Some c)) (cell_value c).
Proof.
  intros Hc. destruct (Cell_ToBuilder_ok c Hc) as (b & E & Hb). exists b. split; [done|]. intros pfx n.
  unfold storeSetLeaf. cbn [sv_cell]. now rewrite E.
Qed.

(** ** One operation *)

Section steps.
  Context (enc : Z -> list bool -> list bool -> Prop) `{Hform : !LabelForm enc} (K : Z) (HK : 0 <= K /\ 0 <= room K).

Abbreviation dict_map := (dict_map enc K).

Lemma K_small : 0 <= K <= 1023.
Proof using HK. pose proof (K_bounds K HK). lia. Qed.

Lemma setRoot_run root d : setRoot root d = (Ok tt, mkDict (d_keySz d) root).
Proof. done. Qed.

Lemma dict_set d m s sv v mode :
  dict_map d m -> swf s -> len (sbits s) = K -> gives sv v -> fits K v ->
  let w := writes mode (present (m !! sbits s)) in
  exists d' o, loadValueAndSetBySliceKey s sv mode d = (Ok (o, w), d') /\ setValueWithModeSlice s sv mode d = (Ok w, d') /\
    reads_opt o (m !! sbits s) /\ dict_map d' (if w then <[sbits s := v]> m else m).
Proof using HK Hform.
  intros [Hk Hm] Hs Hl Hv Hf. cbv zeta.
  destruct (root_set enc K HK (d_root d) m s sv v mode Hm Hs Hl Hv Hf) as (root' & o & E & Ho & Hr).
  unfold loadValueAndSetBySliceKey, setValueWithModeSlice. mrun. rewrite Hk, E. mrun. destruct (writes mode _).
  - rewrite !(bind_Ok _ _ _ _ _ (setRoot_run root' d)). do 2 eexists. split; [done|]. split; [done|]. now rewrite Hk.
  - mrun. now exists d, o.
Qed.

Lemma dict_delete d m s :
  dict_map d m -> swf s -> len (sbits s) = K ->
  exists d', deleteBySliceKey s d = (Ok (present (m !! sbits s)), d') /\ dict_map d' (delete (sbits s) m).
Proof using HK Hform.
  intros [Hk Hm] Hs Hl. destruct (root_delete enc K HK (d_root d) m s Hm Hs Hl) as (root' & o & E & Ho & Hr).
  unfold deleteBySliceKey. mrun. rewrite Hk, E. mrun. destruct (m !! sbits s) eqn:El; cbn [present] in *.
  - rewrite (bind_Ok _ _ _ _ _ (setRoot_run root' d)). eexists. split; [done|]. now rewrite Hk.
  - mrun. exists d. split; [done|]. split; [done|]. now rewrite delete_id.
Qed.

Lemma dict_find d m s :
  dict_map d m -> swf s -> len (sbits s) = K ->
  exists r, findKeySliceInto s None false d = (r, d) /\ find_result (m !! sbits s) r.
Proof using HK Hform.
  intros [Hk Hm] Hs Hl. unfold findKeySliceInto. mrun. destruct (d_root d) as [c |].
  - rewrite <-len_sbits, Hl by done. eexists. split; [|exact (root_find enc K HK c m s None false Hm Hs Hl)]. now destruct (findKey _ _ _ _ _).
  - cbn [root_map] in Hm. subst m. rewrite lookup_empty. now eexists.
Qed.

(** Every way to name a key reaches the walk with the bits it stands for. *)
Lemma set_builder_ok k v mode d :
  key_ok K k -> d_keySz d = K ->
  exists s, set_builder k v mode d = setValueWithModeSlice s (mkSetValue (Some v) None) mode d /\ swf s /\ sbits s = key_bits K k.
Proof using HK.
  intros Hk Hd. pose proof K_small as HKs. destruct k as [[s | c | z] | z | l]; cbn [set_builder key_bits basic_bits].
  - destruct Hk as [Hs Hl]. destruct (fixedDictKeySlice_ok s K Hs ltac:(lia)) as (k & E & Hk). exists k. split; [|done].
    unfold SetBuilderBySliceKeyWithMode. mrun. now rewrite Hd, E.
  - destruct (key_cell_slice_ok K c d "invalid key size" Hk Hd) as (E & Hs & Hb). eexists. split; [|done].
    unfold SetBuilderWithMode. now rewrite (bind_Ok _ _ _ _ _ E).
  - destruct (int_key_slice_ok K z d HKs Hk Hd) as (s & E & Hs). exists s. split; [|done].
    unfold SetBuilderByIntKeyWithMode. now rewrite (bind_Ok _ _ _ _ _ E).
  - destruct (initUintKeyBuilder_ok K z HKs Hk) as (b & E & Hb). destruct (builderSliceView_ok _ _ _ Hb) as (s & Ev & Hs). exists s.
    split; [|done]. unfold SetBuilderByUintKeyWithMode. mrun. rewrite Hd, E. mrun. rewrite Ev. now mrun.
  - destruct Hk as [Hok Hl]. exists (raw_slice l K). split; [|now apply raw_slice_ok].
    unfold SetBuilderByBytesKeyWithMode. mrun. rewrite Hd. destruct (Z.ltb_spec (len l * 8) K); [lia|]. now mrun.
Qed.

Lemma load_value_ok k d :
  key_ok K k -> d_keySz d = K ->
  exists s, load_value k d = findKeySliceInto s None false d /\ swf s /\ sbits s = key_bits K k.
Proof using HK.
  intros Hk Hd. pose proof K_small as HKs. destruct k as [[s | c | z] | z | l]; cbn [load_value key_bits basic_bits].
  - destruct Hk as [Hs Hl]. destruct (fixedDictKeySlice_ok s K Hs ltac:(lia)) as (k & E & Hk). exists k. split; [|done].
    unfold LoadValueBySliceKeyInto. mrun. rewrite Hd, E. now mrun.
  - destruct (key_cell_slice_ok K c d "incorrect key size" Hk Hd) as (E & Hs & Hb). eexists. split; [|done].
    unfold LoadValue. now rewrite (bind_Ok _ _ _ _ _ E).
  - destruct (int_key_slice_ok K z d HKs Hk Hd) as (s & E & Hs). exists s. split; [|done].
    unfold LoadValueByIntKeyInto. now rewrite (bind_Ok _ _ _ _ _ E).
  - destruct (initUintKeyBuilder_ok K z HKs Hk) as (b & E & Hb). destruct (builderSliceView_ok _ _ _ Hb) as (s & Ev & Hs). exists s.
    split; [|done]. unfold LoadValueByUintKeyInto. mrun. rewrite Hd, E, Ev. now mrun.
  - destruct Hk as [Hok Hl]. exists (raw_slice l K). split; [|now apply raw_slice_ok].
    unfold LoadValueByBytesKeyInto. mrun. rewrite Hd. destruct (Z.ltb_spec (len l * 8) K); [lia|]. now mrun.
Qed.

Lemma perform_delete k d m :
  basic_ok K k -> dict_map d m ->
  exists r d', perform (CDelete k) d = (r, d') /\ exists m', answers K (CDelete k) m r m' /\ dict_map d' m'.
Proof using HK Hform.
  intros Hk Hm. pose proof K_small as HKs. pose proof (len_basic_bits K k ltac:(lia) Hk) as Hl. pose proof (proj1 Hm) as Hd.
  assert (Hdel : forall s, swf s -> sbits s = basic_bits K k -> exists d', deleteBySliceKey s d = (Ok (present (m !! basic_bits K k)), d') /\
    dict_map d' (delete (basic_bits K k) m)).
  { intros s Hs Hb. rewrite <-Hb. apply dict_delete; [done|done|]. now rewrite Hb. }
  destruct k as [s | c | z]; cbn [perform answers].
  - destruct Hk as [Hs Hls]. destruct (fixedDictKeySlice_ok s K Hs ltac:(lia)) as (k & E & Hks & Hkb).
    destruct (Hdel k Hks Hkb) as (d' & E' & Hd'). do 2 eexists. split; [|eexists; split; [done|exact Hd']].
    unfold DeleteBySliceKey. mrun. rewrite Hd, E. mrun. now rewrite (bind_Ok _ _ _ _ _ E').
  - destruct (key_cell_slice_ok K c d "incorrect key size" Hk Hd) as (E & Hs & Hb).
    destruct (Hdel _ Hs Hb) as (d' & E' & Hd'). do 2 eexists. split; [|eexists; split; [done|exact Hd']].
    unfold Dict.Delete. mrun. rewrite (bind_Ok _ _ _ _ _ E). mrun. now rewrite (bind_Ok _ _ _ _ _ E').
  - destruct (int_key_slice_ok K z d HKs Hk Hd) as (s & E & Hs & Hb).
    destruct (Hdel _ Hs Hb) as (d' & E' & Hd'). do 2 eexists. split; [|eexists; split; [done|exact Hd']].
    unfold DeleteByIntKey. mrun. rewrite (bind_Ok _ _ _ _ _ E). mrun. now rewrite (bind_Ok _ _ _ _ _ E').
Qed.

Lemma minMax_ok c t fetchMax signed :
  rep enc K K c t ->
  exists b s, minMaxLoop (walk_fuel K) c BeginCell K fetchMax signed = Ok (b, s) /\
    builds b (fst (extreme fetchMax signed t)) [] /\ reads s (snd (extreme fetchMax signed t)).
Proof using HK Hform.
  intros Hr. pose proof K_small. assert (Hfuel : (Z.to_nat K <= walk_fuel K)%nat) by (unfold walk_fuel; lia). destruct signed; cbn [extreme].
  - apply (minMax_signed enc K HK t); done || lia.
  - apply (minMax_edge enc K HK t K c BeginCell [] _ _ _ Hr); [lia|apply builds_begin|rewrite len_nil; lia|done|now right].
Qed.

Lemma LoadMinMax_ok d m fetchMax signed :
  dict_map d m ->
  (m = ∅ /\ LoadMinMax fetchMax signed d = (Err ErrNoSuchKeyInDict, d)) \/
  exists k v s, extremal m fetchMax signed k v /\ len k = K /\ reads s v /\ LoadMinMax fetchMax signed d = (Ok (finished k [], s), d).
Proof using HK Hform.
  intros [Hk Hm]. unfold LoadMinMax. mrun. destruct (d_root d) as [c |]; [right|now left].
  destruct Hm as (t & Hr & <-). pose proof (rep_twf _ _ _ _ _ Hr) as Hw. rewrite Hk.
  destruct (minMax_ok c t fetchMax signed Hr) as (b & s & -> & Hb & Hs). mrun. rewrite (EndCell_builds _ _ _ Hb) by done. mrun.
  pose proof (extreme_found _ _ fetchMax signed Hw) as Hf. do 3 eexists. split; [|split; [|split; [exact Hs|done]]].
  - split; [now rewrite (lookup_tmap K)|]. intros k' Hk'. rewrite (lookup_tmap K) in Hk' by done. now apply (extreme_bound K).
  - now apply (tfind_len _ _ _ _ Hw) in Hf.
Qed.

Lemma LoadMinMaxAndDelete_ok d m fetchMax signed :
  dict_map d m ->
  (m = ∅ /\ LoadMinMaxAndDelete fetchMax signed d = (Err ErrNoSuchKeyInDict, d)) \/
  exists k v s d', extremal m fetchMax signed k v /\ reads s v /\
    LoadMinMaxAndDelete fetchMax signed d = (Ok (finished k [], s), d') /\ dict_map d' (delete k m).
Proof using HK Hform.
  intros Hm. pose proof K_small. unfold LoadMinMaxAndDelete.
  destruct (LoadMinMax_ok d m fetchMax signed Hm) as [[-> E] | (k & v & s & He & Hl & Hs & E)]; [left|right].
  - now rewrite (bind_Err _ _ _ _ _ E).
  - rewrite (bind_Ok _ _ _ _ _ E). mrun. destruct Hm as [Hk Hm].
    destruct (newSlice_finished k []) as (Hks & Hkb & _); [lia|rewrite len_nil; lia|].
    destruct (root_delete enc K HK (d_root d) m _ Hm Hks) as (root' & o & Ed & _ & Hr); [now rewrite Hkb|].
    rewrite Hkb in Ed, Hr. rewrite (proj1 He) in Ed, Hr. rewrite Hk, Ed. cbn [present] in *. mrun. cbn [negb]. mrun.
    rewrite (bind_Ok _ _ _ _ _ (setRoot_run root' d)). do 4 eexists. split; [exact He|]. split; [exact Hs|]. split; [done|]. now rewrite Hk.
Qed.

Lemma LoadAll_ok d m skipPruned :
  dict_map d m ->
  exists l es, LoadAll skipPruned d = Ok l /\ Forall2 lists l es /\ StronglySorted before es /\ list_to_map es = m.
Proof using HK Hform.
  intros [Hk Hm]. unfold LoadAll. destruct (d_root d) as [c |].
  - destruct Hm as (t & Hr & <-). rewrite Hk.
    destruct (mapInner_ok enc K HK t K c BeginCell [] (walk_fuel K) skipPruned [] Hr) as (es & kp & z & -> & _ & Hes);
      [lia|apply builds_begin|rewrite len_nil; lia|unfold walk_fuel; lia|].
    cbn [mbind outcome_bind app]. exists es, (entries t). split; [done|]. split; [|split; [apply entries_sorted|done]].
    unfold lists_under in Hes. replace (under [] <$> entries t) with (entries t) in Hes; [done|].
    symmetry. rewrite <-(list_fmap_id (entries t)) at 2. apply list_fmap_ext. now intros i [k v] _.
  - exists [], []. split_and!; [done|constructor|constructor|]. cbn [root_map] in Hm. now subst.
Qed.

Lemma len_key_bits k : key_ok K k -> len (key_bits K k) = K.
Proof using HK.
  pose proof K_small. destruct k as [k | z | l]; cbn [key_ok key_bits].
  - apply len_basic_bits. lia.
  - intros _. apply length_uint_bits. lia.
  - intros _. apply length_window. lia.
Qed.

(** Every operation answers as the map does. *)
Lemma perform_ok c d m :
  cmd_ok K c -> dict_map d m ->
  exists r d' m', perform c d = (r, d') /\ answers K c m r m' /\ dict_map d' m'.
Proof using HK Hform.
  intros Hc Hm. pose proof K_small as HKs. pose proof (proj1 Hm) as Hd. destruct c as [k v mode | k v mode | k v mode | k | k | fm sg | fm sg | sp];
    cbn [perform answers cmd_ok] in *.
  - destruct Hc as (Hk & Hw & Hf). destruct (set_builder_ok k v mode d Hk Hd) as (s & E & Hs & Hb).
    destruct (dict_set d m s (mkSetValue (Some v) None) (builder_value v) mode Hm Hs) as (d' & o & _ & E' & _ & Hd'); [rewrite Hb; now apply len_key_bits|now apply gives_builder|done|].
    rewrite E' in E. rewrite (bind_Ok _ _ _ _ _ E). rewrite Hb in *. do 3 eexists. split; [done|]. split; [done|exact Hd'].
  - destruct Hc as (Hk & Hw & Hf). destruct (key_cell_slice_ok K k d "invalid key size" Hk Hd) as (E & Hs & Hb).
    destruct (dict_set d m _ (mkSetValue None (Some v)) (cell_value v) mode Hm Hs) as (d' & o & _ & E' & _ & Hd'); [rewrite Hb; now apply (len_basic_bits K (KeyCell k))|now apply gives_cell|done|].
    unfold SetWithMode. mrun. rewrite (bind_Ok _ _ _ _ _ E), (bind_Ok _ _ _ _ _ E'). rewrite Hb in *. do 3 eexists. split; [done|]. split; [done|exact Hd'].
  - destruct Hc as (Hk & Hw & Hf). destruct (key_cell_slice_ok K k d "incorrect key size" Hk Hd) as (E & Hs & Hb).
    destruct (dict_set d m _ (mkSetValue (Some v) None) (builder_value v) mode Hm Hs) as (d' & o & E' & _ & Ho & Hd'); [rewrite Hb; now apply (len_basic_bits K (KeyCell k))|now apply gives_builder|done|].
    unfold LoadValueAndSetBuilderWithMode. mrun. rewrite (bind_Ok _ _ _ _ _ E), (bind_Ok _ _ _ _ _ E'). rewrite Hb in *.
    do 3 eexists. split; [done|]. split; [split; [eauto|done]|exact Hd'].
  - destruct (perform_delete k d m Hc Hm) as (r & d' & E & m' & Hr & Hm'). now exists r, d', m'.
  - destruct (load_value_ok k d Hc Hd) as (s & E & Hs & Hb). destruct (dict_find d m s Hm Hs) as (r & E' & Hr); [rewrite Hb; now apply len_key_bits|].
    rewrite E' in E. rewrite Hb in Hr. unfold find_result in Hr. destruct (m !! key_bits K k) as [v |].
    + destruct Hr as (x & -> & Hx). rewrite (bind_Ok _ _ _ _ _ E). do 3 eexists. split; [done|]. split; [|exact Hm]. eauto.
    + subst r. rewrite (bind_Err _ _ _ _ _ E). do 3 eexists. split; [done|]. split; [done|exact Hm].
  - destruct (LoadMinMax_ok d m fm sg Hm) as [[-> E] | (k & v & s & He & _ & Hs & E)].
    + rewrite (bind_Err _ _ _ _ _ E). do 3 eexists. split; [done|]. split; [|exact Hm]. split; [now left|done].
    + rewrite (bind_Ok _ _ _ _ _ E). do 3 eexists. split; [done|]. split; [|exact Hm]. split; [right; eauto 10|done].
  - destruct (LoadMinMaxAndDelete_ok d m fm sg Hm) as [[-> E] | (k & v & s & d' & He & Hs & E & Hd')].
    + rewrite (bind_Err _ _ _ _ _ E). do 3 eexists. split; [done|]. split; [|exact Hm]. split; [now left|done].
    + rewrite (bind_Ok _ _ _ _ _ E). do 3 eexists. split; [done|]. split; [|exact Hd']. split; [right; eauto 10|].
      intros ->. destruct He as [He _]. now rewrite lookup_empty in He.
  - destruct (LoadAll_ok d m sp Hm) as (l & es & E & H). mrun. rewrite E. mrun. do 3 eexists. split; [done|]. split; [|exact Hm]. eauto.
Qed.

End steps.

(** ** Sequences of operations *)

(** A caller goes on after an error, with the dictionary as it is. *)
Fixpoint perform_all (cs : list cmd) (d : Dictionary) : list (outcome answer) * Dictionary :=
  match cs with
  | [] => ([], d)
  | c :: cs =>
      let '(r, d) := perform c d in
      let '(rs, d) := perform_all cs d in (r :: rs, d)
  end.

Fixpoint answers_all (K : Z) (cs : list cmd) (m : gmap key value) (rs : list (outcome answer)) (m' : gmap key value) : Prop :=
  match cs, rs with
  | [], [] => m' = m
  | c :: cs, r :: rs => exists m1, answers K c m r m1 /\ answers_all K cs m1 rs m'
  | _, _ => False
  end.

Lemma perform_all_ok enc `{!LabelForm enc} K cs d m :
  0 <= K /\ 0 <= room K -> Forall (cmd_ok K) cs -> dict_map enc K d m ->
  exists m', answers_all K cs m (fst (perform_all cs d)) m' /\ dict_map enc K (snd (perform_all cs d)) m'.
Proof.
  intros HK Hcs. revert d m. induction Hcs as [|c cs Hc _ IH]; intros d m Hm; cbn [perform_all].
  { exists m. done. }
  destruct (perform_ok enc K HK c d m Hc Hm) as (r & d1 & m1 & -> & Hr & Hm1). destruct (IH d1 m1 Hm1) as (m' & Ha & Hm').
  destruct (perform_all cs d1) as [rs d2]. exists m'. cbn [fst snd answers_all] in *. eauto.
Qed.

Lemma dict_map_empty enc K : dict_map enc K (NewDict K) ∅.
Proof. done. Qed.

(** ** Canonicity *)

Lemma rep_shortest_det K n c c' t : rep shortest K n c t -> rep shortest K n c' t -> c = c'.
Proof.
  revert n c c'. induction t as [l v | l a IHa b IHb]; intros n c c' (e & pb & refs & -> & He & _ & H) (e' & pb' & refs' & -> & He' & _ & H');
    unfold shortest in *; subst e e'.
  - destruct H as (_ & _ & -> & ->), H' as (_ & _ & -> & ->). done.
  - destruct H as (_ & -> & ca & cb & -> & Ha & Hb), H' as (_ & -> & ca' & cb' & -> & Ha' & Hb').
    now rewrite (IHa _ _ _ Ha Ha'), (IHb _ _ _ Hb Hb').
Qed.

Lemma reads_det s v v' : reads s v -> reads s v' -> v = v'.
Proof. destruct v, v'. intros (_ & E1 & E2) (_ & E3 & E4). cbn [fst snd] in *. congruence. Qed.

Lemma tmap_keys K c t k : rep shortest K K c t -> is_Some (tmap t !! k) -> len k = K.
Proof. intros Hr [v Hv]. rewrite (root_lookup _ _ _ _ _ Hr) in Hv. exact (tfind_len _ _ _ _ (rep_twf _ _ _ _ _ Hr) Hv). Qed.

(** A canonical dictionary and its map determine each other. *)
Lemma dict_map_canonical K d d' m m' :
  0 <= K /\ 0 <= room K -> dict_map shortest K d m -> dict_map shortest K d' m' -> d = d' <-> m = m'.
Proof.
  intros HK [Hk Hm] [Hk' Hm']. split.
  - intros <-. destruct (d_root d) as [c |]; cbn [root_map] in Hm, Hm'; [|congruence].
    assert (Hlk : forall k, len k = K -> m !! k = m' !! k).
    { intros k Hl. pose proof (K_bounds K HK) as HKb. destruct (newSlice_finished k []) as (Hs & Hb & _); [lia|rewrite len_nil; lia|].
      pose proof (root_find shortest K HK c m _ None false Hm Hs ltac:(now rewrite Hb)) as H.
      pose proof (root_find shortest K HK c m' _ None false Hm' Hs ltac:(now rewrite Hb)) as H'. rewrite Hb in H, H'. unfold find_result in *.
      destruct (m !! k), (m' !! k); try done; [|destruct H as (s & E & _); congruence|destruct H' as (s & E & _); congruence].
      destruct H as (s & E & Hr), H' as (s' & E' & Hr'). replace s' with s in Hr' by congruence. f_equal. exact (reads_det _ _ _ Hr Hr'). }
    destruct Hm as (t & Hr & <-), Hm' as (t' & Hr' & <-). apply map_eq. intros k. destruct (decide (len k = K)) as [Hl | Hl]; [auto|].
    transitivity (@None value); [|symmetry]; apply eq_None_not_Some; intros Hs; apply Hl; [exact (tmap_keys _ _ _ _ Hr Hs)|exact (tmap_keys _ _ _ _ Hr' Hs)].
  - intros <-. destruct d as [k root], d' as [k' root']. cbn [d_keySz d_root] in *. subst k k'. f_equal.
    assert (Hne : forall c t, rep shortest K K c t -> tmap t <> ∅).
    { intros c t Hr E. destruct (twf_nonempty _ _ (rep_twf _ _ _ _ _ Hr)) as (k & v & Hf). rewrite <-(root_lookup _ _ _ _ _ Hr), E, lookup_empty in Hf. done. }
    destruct root as [c |], root' as [c' |]; cbn [root_map] in *; try done.
    + destruct Hm as (t & Hr & <-), Hm' as (t' & Hr' & Et). apply (tmap_inj K) in Et as ->; [|apply (rep_twf _ _ _ _ _ Hr')|apply (rep_twf _ _ _ _ _ Hr)].
      f_equal. exact (rep_shortest_det _ _ _ _ _ Hr Hr').
    + destruct Hm as (t & Hr & E), (Hne _ _ Hr). now subst m.
    + destruct Hm' as (t & Hr & E), (Hne _ _ Hr). now subst m.
Qed.

(** ** The theorems *)

(** C2: A dictionary implements a finite map.  Take any well-formed dictionary, however
    its labels are encoded, and any sequence of operations - insertions in the three
    modes with keys given as slices, cells, integers or bytes, swaps, deletions,
    lookups, extremal entries with and without their removal, listings.  No walk fails
    or runs out of fuel, each answer is the one the finite map gives, and the
    dictionary at the end represents the map at the end. *)
Theorem dictionary_refines_map K cs d m :
  0 <= K -> 0 <= room K -> Forall (cmd_ok K) cs -> dict_map encodes K d m ->
  exists m', answers_all K cs m (fst (perform_all cs d)) m' /\ dict_map encodes K (snd (perform_all cs d)) m'.
Proof. intros HK Hr Hcs Hm. exact (perform_all_ok encodes K cs d m (conj HK Hr) Hcs Hm). Qed.

(** Operations on a dictionary with keys of eight bits. *)
Definition sample_value (n : Z) : Builder := snd (StoreUInt n 16 BeginCell).
Definition sample_cmds : list cmd :=
  [CSet (KeyUint 5) (sample_value 500) 3; CSet (Basic (KeyInt (-3))) (sample_value 600) 3;
   CSet (KeyBytes [7]) (sample_value 700) 2; CFind (KeyUint 7); CPop true true; CDelete (KeyInt 5); CAll false].

Lemma sample_value_ok n : 0 <= n < 2 ^ 16 -> wf (sample_value n) /\ fits 8 (builder_value (sample_value n)).
Proof.
  intros Hn. pose proof (StoreUInt_ok BeginCell n 16 wf_begin ltac:(lia) Hn ltac:(cbn [BeginCell b_bitsSz]; lia)) as Hrun.
  assert (Hb : builds (sample_value n) (uint_bits 16 n) []).
  { unfold sample_value. rewrite Hrun. cbn [snd]. apply (builds_append BeginCell [] []); [apply builds_begin|].
    rewrite len_nil, length_uint_bits; lia. }
  destruct Hb as [Hw Hb Hr]. split; [done|]. unfold builder_value. rewrite Hb, Hr. split; cbn [fst snd].
  - rewrite length_uint_bits by lia. vm_compute. discriminate.
  - rewrite len_nil. lia.
  - constructor.
Qed.

Lemma sample_cmds_ok : Forall (cmd_ok 8) sample_cmds.
Proof.
  unfold sample_cmds. repeat (constructor; [cbn [cmd_ok]|]); try done.
  all: try (split; [|apply sample_value_ok; lia]); cbn [key_ok basic_ok]; try done; try (cbn; lia).
  all: apply sample_value_ok; lia.
Qed.

Example dictionary_refines_map_witness :
  exists m', answers_all 8 sample_cmds ∅ (fst (perform_all sample_cmds (NewDict 8))) m' /\
    dict_map encodes 8 (snd (perform_all sample_cmds (NewDict 8))) m'.
Proof.
  apply (dictionary_refines_map 8 sample_cmds (NewDict 8) ∅).
  - lia.
  - vm_compute. discriminate.
  - exact sample_cmds_ok.
  - split; reflexivity.
Defined.

(** C10: Dictionaries are canonical: two sequences of operations on an empty dictionary
    end in the same dictionary, to the last bit of every cell and so with the same root
    hash, if and only if they end in the same map, whatever the order of insertions and
    deletions was. *)
Theorem dictionary_canonical K cs cs' :
  0 <= K -> 0 <= room K -> Forall (cmd_ok K) cs -> Forall (cmd_ok K) cs' ->
  exists m m', answers_all K cs ∅ (fst (perform_all cs (NewDict K))) m /\
    answers_all K cs' ∅ (fst (perform_all cs' (NewDict K))) m' /\
    (snd (perform_all cs (NewDict K)) = snd (perform_all cs' (NewDict K)) <-> m = m').
Proof.
  intros HK Hroom Hcs Hcs'.
  destruct (perform_all_ok shortest K cs (NewDict K) ∅ (conj HK Hroom) Hcs (dict_map_empty _ K)) as (m & Ha & Hm).
  destruct (perform_all_ok shortest K cs' (NewDict K) ∅ (conj HK Hroom) Hcs' (dict_map_empty _ K)) as (m' & Ha' & Hm').
  exists m, m'. split; [done|]. split; [done|]. now apply (dict_map_canonical K).
Qed.

Example dictionary_canonical_witness :
  exists m m', answers_all 8 sample_cmds ∅ (fst (perform_all sample_cmds (NewDict 8))) m /\
    answers_all 8 (rev sample_cmds) ∅ (fst (perform_all (rev sample_cmds) (NewDict 8))) m' /\
    (snd (perform_all sample_cmds (NewDict 8)) = snd (perform_all (rev sample_cmds) (NewDict 8)) <-> m = m').
Proof.
  apply (dictionary_canonical 8 sample_cmds (rev sample_cmds)).
  - lia.
  - vm_compute. discriminate.
  - exact sample_cmds_ok.
  - apply Forall_rev, sample_cmds_ok.
Defined.

(** * Failures of dictionary operations

    On any dictionary, well-formed or not, an operation that fails leaves the
    dictionary as it was; special cells are rejected; and removing a key together with
    its value fails for a present key only on a collision of SHA-256. *)

(** ** Failures leave the dictionary alone *)

Definition reader {A} (f : M Dictionary A) : Prop := forall d, snd (f d) = d.
Definition failed {A} (o : outcome A) : bool := match o with Ok _ => false | _ => true end.
Definition atomic {A} (f : M Dictionary A) : Prop := forall d, failed (fst (f d)) = true -> snd (f d) = d.

Lemma reader_atomic {A} (f : M Dictionary A) : reader f -> atomic f.
Proof. intros H d _. apply H. Qed.

Lemma reader_get : reader get_state. Proof. done. Qed.
Lemma reader_lift {A} (o : outcome A) : reader (lift o). Proof. intros d. now destruct o. Qed.
Lemma reader_fail {A} e : reader (fail (A := A) e). Proof. done. Qed.
Lemma reader_ret {A} (a : A) : reader (mret a). Proof. done. Qed.
Lemma reader_guard b e : reader (guard_err b e). Proof. intros d. now destruct b. Qed.

Lemma reader_bind {A B} (f : M Dictionary A) (k : A -> M Dictionary B) :
  reader f -> (forall a, reader (k a)) -> reader (mbind k f).
Proof.
  intros Hf Hk d. unfold mbind, M_bind. specialize (Hf d). destruct (f d) as [[a | e |] d1]; cbn [snd] in *; subst; [apply Hk|done|done].
Qed.

Lemma atomic_bind {A B} (f : M Dictionary A) (k : A -> M Dictionary B) :
  reader f -> (forall a, atomic (k a)) -> atomic (mbind k f).
Proof.
  intros Hf Hk d. unfold mbind, M_bind. specialize (Hf d). destruct (f d) as [[a | e' |] d1]; cbn [fst snd] in *; subst; [apply Hk|done|done].
Qed.

(** Nothing can fail after the root is written. *)
Lemma atomic_last {A} root (a : A) : atomic (setRoot root ;; mret a).
Proof. intros d H. discriminate H. Qed.

Lemma atomic_then_ok {A B} (f : M Dictionary A) (k : A -> M Dictionary B) :
  atomic f -> (forall a d, failed (fst (k a d)) = false) -> atomic (mbind k f).
Proof.
  intros Hf Hk d. unfold mbind, M_bind. specialize (Hf d). destruct (f d) as [[a | e' |] d1]; [|auto..].
  intros H. now rewrite Hk in H.
Qed.

Create HintDb atomic.
#[local] Hint Resolve reader_get reader_lift reader_fail reader_ret reader_guard reader_bind reader_atomic atomic_last : atomic.
#[local] Hint Extern 1 (reader (match ?x with _ => _ end)) => destruct x : atomic.

Lemma reader_key_cell c what : reader (key_cell_slice c what).
Proof. unfold key_cell_slice. apply reader_bind; [auto with atomic|]. intros d. destruct c; auto 6 with atomic. Qed.

Lemma reader_int_key z : reader (int_key_slice z).
Proof. unfold int_key_slice. repeat (apply reader_bind; [auto with atomic|]; intros ?). auto with atomic. Qed.

Lemma reader_find s resolver lenient : reader (findKeySliceInto s resolver lenient).
Proof. unfold findKeySliceInto. apply reader_bind; [auto with atomic|]. intros d. destruct (d_root d); auto with atomic. Qed.

Lemma reader_minmax fm sg : reader (LoadMinMax fm sg).
Proof.
  unfold LoadMinMax. apply reader_bind; [auto with atomic|]. intros d. destruct (d_root d); [|auto with atomic].
  apply reader_bind; [auto with atomic|]. intros [k v]. apply reader_bind; auto with atomic.
Qed.

Lemma atomic_set s sv mode : atomic (setValueWithModeSlice s sv mode).
Proof.
  unfold setValueWithModeSlice. apply atomic_bind; [auto with atomic|]. intros d.
  apply atomic_bind; [auto with atomic|]. intros [[root o] changed]. destruct changed; auto with atomic.
Qed.

Lemma atomic_swap s sv mode : atomic (loadValueAndSetBySliceKey s sv mode).
Proof.
  unfold loadValueAndSetBySliceKey. apply atomic_bind; [auto with atomic|]. intros d.
  apply atomic_bind; [auto with atomic|]. intros [[root o] changed]. destruct changed; auto with atomic.
Qed.

Lemma atomic_delete s : atomic (deleteBySliceKey s).
Proof.
  unfold deleteBySliceKey. apply atomic_bind; [auto with atomic|]. intros d. apply atomic_bind; [auto with atomic|].
  intros [[o root] changed]. destruct changed; auto with atomic.
Qed.

Ltac atomic_steps :=
  repeat first [solve [apply atomic_set] | solve [apply atomic_swap] | solve [apply atomic_delete]
    | apply atomic_bind; [solve [auto using reader_key_cell, reader_int_key with atomic]|]; intros ?].

Lemma atomic_set_builder k v mode : atomic (set_builder k v mode).
Proof.
  destruct k as [[s | c | z] | z | l]; cbn [set_builder].
  - unfold SetBuilderBySliceKeyWithMode. atomic_steps. destruct (fixedDictKeySlice s _); [apply atomic_set|auto with atomic..].
  - unfold SetBuilderWithMode. atomic_steps.
  - unfold SetBuilderByIntKeyWithMode. atomic_steps.
  - unfold SetBuilderByUintKeyWithMode. atomic_steps.
  - unfold SetBuilderByBytesKeyWithMode. atomic_steps.
Qed.

Lemma reader_load_value k : reader (load_value k).
Proof.
  destruct k as [[s | c | z] | z | l]; cbn [load_value].
  - unfold LoadValueBySliceKeyInto. do 2 (apply reader_bind; [auto with atomic|]; intros ?). apply reader_find.
  - unfold LoadValue. apply reader_bind; [apply reader_key_cell|]. intros ?. apply reader_find.
  - unfold LoadValueByIntKeyInto. apply reader_bind; [apply reader_int_key|]. intros ?. apply reader_find.
  - unfold LoadValueByUintKeyInto. apply reader_bind; [auto with atomic|]. intros d. destruct (initUintKeyBuilder z _); [|auto with atomic..].
    apply reader_bind; [auto with atomic|]. intros ?. apply reader_find.
  - unfold LoadValueByBytesKeyInto. do 2 (apply reader_bind; [auto with atomic|]; intros ?). apply reader_find.
Qed.

Lemma atomic_pop fm sg : atomic (LoadMinMaxAndDelete fm sg).
Proof.
  unfold LoadMinMaxAndDelete. apply atomic_bind; [apply reader_minmax|]. intros [k v]. apply atomic_bind; [auto with atomic|]. intros d.
  apply atomic_bind; [auto with atomic|]. intros [[o root] changed]. apply atomic_bind; [auto with atomic|]. intros _. auto with atomic.
Qed.

(** C16: An operation that fails, with an error or a panic, leaves the dictionary exactly
    as it was.  This holds for every dictionary, also one whose cells are malformed,
    and for every argument. *)
Theorem dictionary_failure_atomic c d : failed (fst (perform c d)) = true -> snd (perform c d) = d.
Proof.
  revert d. change (atomic (perform c)).
  destruct c as [k v mode | k v mode | k v mode | [s | c | z] | k | fm sg | fm sg | sp]; cbn [perform].
  - apply atomic_then_ok; [apply atomic_set_builder|done].
  - apply atomic_then_ok; [|done]. unfold SetWithMode. atomic_steps.
  - apply atomic_then_ok; [|now intros [old b]]. unfold LoadValueAndSetBuilderWithMode. atomic_steps.
  - apply atomic_then_ok; [|done]. unfold DeleteBySliceKey. atomic_steps.
  - apply atomic_then_ok; [|done]. unfold Dict.Delete. apply atomic_bind; [apply reader_key_cell|]. intros s.
    apply atomic_then_ok; [apply atomic_delete|done].
  - apply atomic_then_ok; [|done]. unfold DeleteByIntKey. atomic_steps.
  - apply atomic_then_ok; [apply reader_atomic, reader_load_value|done].
  - apply atomic_then_ok; [apply reader_atomic, reader_minmax|now intros [k v]].
  - apply atomic_then_ok; [apply atomic_pop|now intros [k v]].
  - apply reader_atomic. repeat (apply reader_bind; [auto with atomic|]; intros ?). auto with atomic.
Qed.

(** A root that is no dictionary node: nothing of it is read as a label. *)
Definition junk_dict : Dictionary := mkDict 8 (Some (mkCell [] 0 false 0 [] [] [])).

Example dictionary_failure_atomic_witness :
  failed (fst (perform (CDelete (KeyInt 5)) junk_dict)) = true /\ snd (perform (CDelete (KeyInt 5)) junk_dict) = junk_dict.
Proof. split; [reflexivity|]. apply (dictionary_failure_atomic (CDelete (KeyInt 5)) junk_dict). reflexivity. Defined.

(** ** Removing a key with its value *)

(** Maps whose values refer to trees of ordinary cells. *)
Definition built_values (m : gmap key value) : Prop := forall k v r, m !! k = Some v -> r ∈ snd v -> built r.

Lemma rep_built_tree enc `{!LabelForm enc} K n c t :
  0 <= K /\ 0 <= room K -> rep enc K n c t -> n <= K -> (forall k v r, tfind t k = Some v -> r ∈ snd v -> built r) -> built c.
Proof.
  intros HK. revert n c. induction t as [l v | l a IHa b IHb]; intros n c Hr Hn Hv.
  all: destruct (proj1 (rep_node _ _ _ _ _) Hr) as (e & pb & refs & -> & _ & Hfit & Hp).
  all: pose proof (payload_refs enc K n _ pb refs Hp) as Hl; pose proof (payload_shallow enc K HK n _ pb refs Hp Hn) as Hs.
  - destruct Hp as (_ & _ & -> & ->). constructor; [rewrite len_app; lia|done|done|]. intros r. apply (Hv l v r). cbn. now rewrite decide_True.
  - destruct Hp as (Hl' & -> & ca & cb & -> & Ha & Hb). pose proof (len_nonneg l). constructor; [rewrite len_app; lia|done|done|].
    intros r Hin. apply elem_of_cons in Hin as [-> | Hin]; [|apply list_elem_of_singleton in Hin as ->].
    + apply (IHa _ _ Ha); [lia|]. intros k v r' Hf. apply (Hv (l ++ false :: k)). cbn [tfind]. now rewrite strip_app.
    + apply (IHb _ _ Hb); [lia|]. intros k v r' Hf. apply (Hv (l ++ true :: k)). cbn [tfind]. now rewrite strip_app.
Qed.

Lemma root_built enc `{!LabelForm enc} K c m :
  0 <= K /\ 0 <= room K -> root_map enc K (Some c) m -> built_values m -> built c.
Proof.
  intros HK (t & Hr & <-) Hv. apply (rep_built_tree enc K K c t); [done|done|lia|]. intros k v r Hf. apply (Hv k). now rewrite (root_lookup _ _ _ _ _ Hr).
Qed.

(** [LoadValueAndDelete] on a well-formed dictionary with the key [k] removes it and
    returns its value.  The code takes equal hashes of the old and the new root for an
    unchanged dictionary, so the one other case is a collision of SHA-256 between the
    two trees. *)
Theorem load_and_delete_removes K d m k v :
  0 <= K -> 0 <= room K -> dict_map encodes K d m -> built_values m -> basic_ok K (KeyCell k) -> m !! cbits_of k = Some v ->
  exists d', dict_map encodes K d' (delete (cbits_of k) m) /\
    ((exists s, LoadValueAndDelete (Some k) d = (Ok s, d') /\ reads s v) \/
     (exists c c', d_root d = Some c /\ d_root d' = Some c' /\ collision c c')).
Proof.
  intros HK0 HK1 [Hd Hm] Hbv Hk Hv. pose proof (conj HK0 HK1) as HK. pose proof (len_basic_bits K _ HK0 Hk) as Hl. cbn [basic_bits] in Hl.
  destruct (key_cell_slice_ok K k d "incorrect key size" Hk Hd) as (E & Hs & Hb).
  destruct (root_delete encodes K HK (d_root d) m _ Hm Hs) as (root' & o & Ed & Ho & Hr); [now rewrite Hb|].
  rewrite Hb, Hv in *. cbn [present] in *. destruct o as [s |]; [|done]. exists (mkDict K root'). split; [done|].
  assert (Hrun : LoadValueAndDelete (Some k) d = if sameDictRoot (d_root d) root' then (Err ErrNoSuchKeyInDict, d) else (Ok s, mkDict K root')).
  { unfold LoadValueAndDelete, loadValueAndDeleteBySliceKey. rewrite (bind_Ok _ _ _ _ _ E). mrun. rewrite Hd, Ed. mrun. cbn [negb orb].
    destruct (sameDictRoot _ _); mrun; [done|]. rewrite (bind_Ok _ _ _ _ _ (setRoot_run root' d)), Hd. done. }
  rewrite Hrun. destruct (d_root d) as [c |]; [|cbn [root_map] in Hm; subst m; now rewrite lookup_empty in Hv].
  destruct root' as [c' |]; [|left; now exists s]. cbn [sameDictRoot]. case_bool_decide as Eh; [right|left; now exists s].
  exists c, c'. split; [done|]. split; [done|]. pose proof (root_built encodes K c m HK Hm Hbv) as B1.
  assert (B2 : built c').
  { apply (root_built encodes K c' _ HK Hr). intros k' v' r Hk'. rewrite lookup_delete in Hk'. case_decide; [done|]. eauto. }
  destruct (hash_binds_tree c c' B1 B2 Eh) as [-> | Hc]; [exfalso|done].
  pose proof (root_find encodes K HK c' _ _ None false Hm Hs ltac:(now rewrite Hb)) as F1.
  pose proof (root_find encodes K HK c' _ _ None false Hr Hs ltac:(now rewrite Hb)) as F2.
  rewrite Hb, Hv in F1. rewrite Hb, lookup_delete_eq in F2. destruct F1 as (s1 & E1 & _). cbn [find_result] in F2. congruence.
Qed.

(** A dictionary with one key, and that key. *)
Definition one_key : Cell := finished (uint_bits 8 5) [].
Definition one_key_dict : Dictionary := snd (SetBuilderWithMode (Some one_key) (Some (sample_value 500)) 3 (NewDict 8)).

Lemma one_key_ok : basic_ok 8 (KeyCell one_key).
Proof. split; [|reflexivity]. apply (newSlice_finished (uint_bits 8 5) []); [rewrite length_uint_bits; lia|rewrite len_nil; lia]. Qed.

Lemma one_key_dict_map : dict_map encodes 8 one_key_dict {[uint_bits 8 5 := builder_value (sample_value 500)]}.
Proof.
  assert (HK : 0 <= 8 /\ 0 <= room 8) by (split; [lia|vm_compute; discriminate]). destruct (sample_value_ok 500) as [Hw Hf]; [lia|].
  destruct (perform_ok encodes 8 HK (CSet (Basic (KeyCell one_key)) (sample_value 500) 3) (NewDict 8) ∅) as (r & d' & m' & E & [_ Hm'] & Hd').
  - cbn [cmd_ok key_ok]. split; [exact one_key_ok|done].
  - apply dict_map_empty.
  - cbn [key_bits basic_bits] in Hm'. unfold one_key in Hm'. rewrite cbits_finished in Hm'. subst m'.
    cbn [perform set_builder] in E. unfold mbind, M_bind in E. unfold one_key_dict.
    destruct (SetBuilderWithMode (Some one_key) (Some (sample_value 500)) 3 (NewDict 8)) as [[b | e |] d1]; injection E as _ <-; exact Hd'.
Qed.

Example load_and_delete_removes_witness :
  exists d', dict_map encodes 8 d' (delete (cbits_of one_key) {[uint_bits 8 5 := builder_value (sample_value 500)]}) /\
    ((exists s, LoadValueAndDelete (Some one_key) one_key_dict = (Ok s, d') /\ reads s (builder_value (sample_value 500))) \/
     (exists c c', d_root one_key_dict = Some c /\ d_root d' = Some c' /\ collision c c')).
Proof.
  apply (load_and_delete_removes 8 one_key_dict {[uint_bits 8 5 := builder_value (sample_value 500)]} one_key (builder_value (sample_value 500))).
  - lia.
  - vm_compute. discriminate.
  - exact one_key_dict_map.
  - intros k v r Hk Hin. apply lookup_singleton_Some in Hk as [_ <-]. destruct (sample_value_ok 500) as [_ [_ Hc _]]; [lia|].
    exfalso. revert Hin. replace (snd (builder_value (sample_value 500))) with (@nil Cell) by reflexivity. apply not_elem_of_nil.
  - exact one_key_ok.
  - unfold one_key. rewrite cbits_finished. apply lookup_singleton_eq.
Defined.
