(* ===== verification/DictBulkSort.v ===== *)
(** * Sorting a batch

    The order of keys is the order of the integers their bits spell; the two sorting
    passes, the plain stable sort and the distribution by the first byte with its
    in-place permutation, give the same list. *)

From S2P Require Import Prelude Bytes CellModel Builder Slice SliceCompare DictTree DictBulk.
From stdpp Require Import list sets sorting.
#[local] Set Warnings "-clear-no-such-hyp".
#[local] Open Scope Z_scope.

(** ** Stable order by an integer *)

Section stable.
  Context {A : Type} (f : A -> Z).

Definition le_by (a b : A) : Prop := f a <= f b.

(** The elements with the value [z], in their order. *)
Definition run_of (z : Z) (l : list A) : list A := filter (fun a => f a = z) l.

(** [l'] is the stable sort of [l]. *)
Record sorts (l l' : list A) : Prop := {
  sorts_sorted : StronglySorted le_by l';
  sorts_stable z : run_of z l' = run_of z l
}.

Lemma run_of_cons z a l : run_of z (a :: l) = if decide (f a = z) then a :: run_of z l else run_of z l.
Proof. unfold run_of. rewrite filter_cons. done. Qed.

Lemma run_of_app z l k : run_of z (l ++ k) = run_of z l ++ run_of z k.
Proof. apply filter_app. Qed.

Lemma run_of_elem z a l : a ∈ run_of z l <-> f a = z /\ a ∈ l.
Proof. unfold run_of. rewrite list_elem_of_filter. done. Qed.

Lemma sorts_elem l l' a : sorts l l' -> a ∈ l' <-> a ∈ l.
Proof.
  intros [_ H]. specialize (H (f a)). split; intros Hin; apply (run_of_elem (f a)); [rewrite <-H|rewrite H]; now apply run_of_elem.
Qed.

Lemma sorts_cons_inv a l l' : sorts l (a :: l') -> forall b, b ∈ l -> f a <= f b.
Proof.
  intros Hs b Hb. apply (sorts_elem _ _ b Hs) in Hb. destruct Hs as [Hs _]. apply StronglySorted_inv in Hs as [_ Hall].
  apply elem_of_cons in Hb as [-> | Hb]; [lia|]. eapply Forall_forall in Hall; eauto.
Qed.

(** Sortedness and the runs determine the list. *)
Lemma sorts_unique l l1 l2 : sorts l l1 -> sorts l l2 -> l1 = l2.
Proof.
  intros H1 H2. assert (Hrun : forall z, run_of z l1 = run_of z l2) by (intros z; rewrite (sorts_stable _ _ H1), (sorts_stable _ _ H2); done).
  destruct H1 as [H1 _], H2 as [H2 _]. clear l. revert l2 H2 Hrun. induction H1 as [|a l1 H1 IH Ha]; intros l2 H2 Hrun.
  - destruct l2 as [|b l2]; [done|]. specialize (Hrun (f b)). rewrite run_of_cons, decide_True in Hrun by done. done.
  - destruct l2 as [|b l2]; [specialize (Hrun (f a)); rewrite run_of_cons, decide_True in Hrun by done; done|].
    apply StronglySorted_inv in H2 as [H2 Hb].
    assert (Ef : f a = f b).
    { apply Z.le_antisymm.
      - assert (Hin : b ∈ run_of (f b) (a :: l1)) by (rewrite Hrun; apply run_of_elem; split; [done|left]).
        apply run_of_elem in Hin as [_ Hin]. apply elem_of_cons in Hin as [-> | Hin]; [lia|]. eapply Forall_forall in Ha; eauto.
      - assert (Hin : a ∈ run_of (f a) (b :: l2)) by (rewrite <-Hrun; apply run_of_elem; split; [done|left]).
        apply run_of_elem in Hin as [_ Hin]. apply elem_of_cons in Hin as [-> | Hin]; [lia|]. eapply Forall_forall in Hb; eauto. }
    pose proof (Hrun (f a)) as Hz. rewrite !run_of_cons, !decide_True in Hz by done. injection Hz as -> _. f_equal. apply IH; [done|].
    intros z. specialize (Hrun z). rewrite !run_of_cons in Hrun. destruct (decide (f b = z)); [now injection Hrun|done].
Qed.

Context (cmp : A -> A -> Z) (P : A -> Prop) (Hcmp : forall a b, P a -> P b -> cmp a b <= 0 <-> f a <= f b).

Lemma insert_sorts a l : P a -> Forall P l -> StronglySorted le_by l -> sorts (a :: l) (insert_stable cmp a l).
Proof using Hcmp.
  intros Ha Hl Hs. induction Hs as [|b l Hs IH Hb]; cbn [insert_stable]; [split; [repeat constructor|done]|].
  apply Forall_cons in Hl as [HPb Hl]. specialize (IH Hl). destruct (Z.leb_spec (cmp a b) 0) as [Hle | Hgt].
  - apply Hcmp in Hle; [|done..]. split; [|done]. constructor; [now constructor|]. constructor; [done|].
    eapply List.Forall_impl; [|exact Hb]. unfold le_by. lia.
  - assert (Hba : f b < f a) by (apply Z.nle_gt; intros Hc; apply Hcmp in Hc; [lia|done..]).
    split.
    + constructor; [apply IH|]. apply Forall_forall. intros x Hx. apply (sorts_elem _ _ x IH) in Hx.
      apply elem_of_cons in Hx as [-> | Hx]; [unfold le_by; lia|]. eapply Forall_forall in Hb; eauto.
    + intros z. rewrite run_of_cons, (sorts_stable _ _ IH), !run_of_cons. destruct (decide (f b = z)), (decide (f a = z)); done || lia.
Qed.

Lemma SortStableFunc_sorts l : Forall P l -> sorts l (SortStableFunc cmp l).
Proof using Hcmp.
  intros Hl. induction Hl as [|a l Ha Hl IH]; [split; [constructor|done]|]. cbn [SortStableFunc foldr].
  fold (SortStableFunc cmp l). assert (Hl' : Forall P (SortStableFunc cmp l)).
  { apply Forall_forall. intros x Hx. apply (sorts_elem _ _ x IH) in Hx. eapply Forall_forall in Hl; eauto. }
  destruct (insert_sorts a (SortStableFunc cmp l) Ha Hl' (sorts_sorted _ _ IH)) as [H1 H2]. split; [done|].
  intros z. rewrite H2, !run_of_cons, (sorts_stable _ _ IH). done.
Qed.

End stable.

(** ** The order of keys *)

Definition item_bits (K : Z) (i : DictBulkKV) : list bool := window (kv_key i) 0 K.
Definition item_int (K : Z) (i : DictBulkKV) : Z := bits_uint (item_bits K i).
Definition item_ok (K : Z) (i : DictBulkKV) : Prop := bytes_ok (kv_key i) /\ K <= 8 * len (kv_key i) < 2 ^ 63.

Definition sign (x y : Z) : Z := if x <? y then -1 else if y <? x then 1 else 0.

Lemma lex_value l k : len l = len k -> lex l k = sign (bits_uint l) (bits_uint k).
Proof.
  intros Hl. unfold sign. destruct (Z.eq_dec (bits_uint l) (bits_uint k)) as [E | E].
  - apply bits_uint_inj in E as ->; [|done]. rewrite lex_refl, Z.ltb_irrefl. done.
  - pose proof (lex_app_ne l k [] [] Hl E) as H. rewrite !app_nil_r in H. rewrite H. split_cmp; done.
Qed.

Lemma lex_app l l' k k' : len l = len l' -> lex (l ++ k) (l' ++ k') = if lex l l' =? 0 then lex k k' else lex l l'.
Proof.
  intros Hl. rewrite (lex_value l l' Hl). unfold sign. destruct (Z.eq_dec (bits_uint l) (bits_uint l')) as [E | E].
  - apply bits_uint_inj in E as ->; [|done]. rewrite lex_app_eq, Z.ltb_irrefl. done.
  - rewrite lex_app_ne by done. split_cmp; done.
Qed.

Lemma window_cons x d n : 0 <= n -> window (x :: d) 0 (8 + n) = window [x] 0 8 ++ window d 0 n.
Proof.
  intros Hn. rewrite (window_app (x :: d) 0 8 n) by lia. f_equal. apply window_ext. intros i Hi.
  rewrite bit_cons by lia. destruct (Z.ltb_spec (0 + 8 + i) 8); [lia|]. f_equal. lia.
Qed.

Lemma bits_uint_byte x : byte_ok x -> bits_uint (window [x] 0 8) = x.
Proof.
  intros Hx. replace (window [x] 0 8) with (uint_bits 8 x).
  - rewrite bits_uint_uint_bits by lia. apply Z.mod_small. exact Hx.
  - symmetry. apply window_uint_bits; [lia|]. intros i Hi. now rewrite bit_one by lia.
Qed.

Lemma bytes_compare_ok a b :
  bytes_ok a -> bytes_ok b -> length a = length b -> bytes_compare a b = lex (window a 0 (8 * len a)) (window b 0 (8 * len b)).
Proof.
  revert b. induction a as [|x a IH]; intros [|y b] Ha Hb Hl; try done. apply bytes_ok_cons in Ha as [Hx Ha], Hb as [Hy Hb].
  injection Hl as Hl. assert (Hlen : len a = len b) by (unfold len; lia). pose proof (len_nonneg a). pose proof (len_nonneg b).
  rewrite !len_cons. replace (8 * (len a + 1)) with (8 + 8 * len a) by lia. replace (8 * (len b + 1)) with (8 + 8 * len b) by lia.
  rewrite !window_cons, lex_app by (rewrite ?length_window; lia). rewrite lex_value, !bits_uint_byte by (rewrite ?length_window; done || lia).
  cbn [bytes_compare]. rewrite IH by done. unfold sign. split_cmp; done.
Qed.

Lemma window_take d n : 0 <= n -> window (take (Z.to_nat n) d) 0 (8 * n) = window d 0 (8 * n).
Proof. intros Hn. apply window_ext. intros i Hi. apply bit_take. lia. Qed.

Lemma tail_bits d a r : bytes_ok d -> 0 <= a -> 0 < r < 8 -> bits_uint (window d (8 * a) r) = byte_at d a ≫ (8 - r).
Proof.
  intros Hd Ha Hr. replace (window d (8 * a) r) with (uint_bits r (byte_at d a ≫ (8 - r))).
  - rewrite bits_uint_uint_bits by lia. apply Z.mod_small. pose proof (byte_at_ok d a Hd). rewrite Z.shiftr_div_pow2 by lia.
    split; [apply Z.div_pos; lia|]. apply Z.div_lt_upper_bound; [lia|]. rewrite <-Z.pow_add_r by lia. now replace (8 - r + r) with 8 by lia.
  - symmetry. apply window_uint_bits; [lia|]. intros i Hi. unfold bit. replace ((8 * a + i) / 8) with a by lia. rewrite Z.shiftr_spec by lia. f_equal. lia.
Qed.

Lemma masked_order x y r : byte_ok x -> byte_ok y -> 0 < r < 8 ->
  sign (Z.land x (u8 (255 ≪ (8 - r)))) (Z.land y (u8 (255 ≪ (8 - r)))) = sign (x ≫ (8 - r)) (y ≫ (8 - r)).
Proof.
  intros Hx Hy Hr. assert (Hm : forall z, byte_ok z -> Z.land z (u8 (255 ≪ (8 - r))) = (z ≫ (8 - r)) * 2 ^ (8 - r)).
  { intros z Hz. rewrite <-Z.shiftl_mul_pow2 by lia. apply Z.bits_inj'. intros i Hi. autorewrite with bitdb.
    destruct (Z.ltb_spec i 8).
    - split_cmp; bool_simpl; cbn [andb]; try done; f_equal; lia.
    - rewrite (testbit_above z 8 i) by (done || lia). rewrite andb_false_l. symmetry. apply andb_false_intro2.
      split_cmp; cbn [andb]; try done. replace (i - (8 - r) + (8 - r)) with i by lia. apply (testbit_above z 8); done || lia. }
  rewrite !Hm by done. unfold sign. pose proof (Z.pow_pos_nonneg 2 (8 - r)).
  set (p := 2 ^ (8 - r)) in *. set (u := x ≫ (8 - r)). set (w := y ≫ (8 - r)).
  destruct (Z.ltb_spec u w), (Z.ltb_spec (u * p) (w * p)), (Z.ltb_spec w u), (Z.ltb_spec (w * p) (u * p)); done || nia.
Qed.

Lemma compare_ok K i j : 0 <= K -> item_ok K i -> item_ok K j -> compare_items K i j = sign (item_int K i) (item_int K j).
Proof.
  intros HK [Hi Hli] [Hj Hlj]. unfold compare_items, compareDictBulkKeys, item_int, item_bits.
  rewrite <-lex_value by (rewrite !length_window; lia).
  set (n := K / 8). rewrite bytes_compare_ok by (try apply Forall_take; try done; rewrite !length_take; unfold len in *; lia).
  assert (Hl : forall k, K <= 8 * len (kv_key k) -> len (take (Z.to_nat n) (kv_key k)) = n) by (intros k Hk; apply len_take; lia).
  rewrite !Hl, !window_take by lia.
  assert (Hw : forall d, window d 0 K = window d 0 (8 * n) ++ window d (8 * n) (K mod 8))
    by (intros d; rewrite <-window_app by lia; f_equal; lia).
  rewrite !Hw, lex_app by (rewrite !length_window; lia). set (c := lex _ _). destruct (Z.eqb_spec c 0) as [-> |]; cbn [negb]; [|done].
  destruct (Z.eqb_spec (K mod 8) 0) as [E | E]; [now rewrite E|].
  rewrite lex_value, !tail_bits by (rewrite ?length_window; done || lia). apply masked_order; try now apply byte_at_ok. lia.
Qed.

(** ** The permutation in place *)

Section permute.
  Context {T : Type} (items : list T) (ord : list nat) (Hperm : ord ≡ₚ seq 0 (length items)).

Definition sigma (i : nat) : nat := default 0%nat (ord !! i).

Lemma length_ord : length ord = length items.
Proof using Hperm. now rewrite Hperm, length_seq. Qed.

Lemma sigma_lookup i : (i < length items)%nat -> ord !! i = Some (sigma i).
Proof using Hperm.
  intros Hi. unfold sigma. destruct (ord !! i) eqn:E; [done|]. apply lookup_ge_None in E. rewrite length_ord in E. lia.
Qed.

Lemma sigma_lt i : (i < length items)%nat -> (sigma i < length items)%nat.
Proof using Hperm.
  intros Hi. pose proof (list_elem_of_lookup_2 _ _ _ (sigma_lookup i Hi)) as H. rewrite Hperm in H. apply elem_of_seq in H. lia.
Qed.

Lemma sigma_inj i j : (i < length items)%nat -> (j < length items)%nat -> sigma i = sigma j -> i = j.
Proof using Hperm.
  intros Hi Hj E. assert (Hnd : NoDup ord) by (rewrite Hperm; apply NoDup_seq).
  eapply NoDup_lookup; [exact Hnd|now apply sigma_lookup|]. rewrite E. now apply sigma_lookup.
Qed.

(** The slots in [M] hold their final item and are marked, the others are untouched. *)
Record state (M : nat -> Prop) (its : list T) (order : list Z) : Prop := {
  st_len : length its = length items;
  st_olen : length order = length items;
  st_done i : (i < length items)%nat -> M i -> order !! i = Some (-1) /\ its !! i = items !! sigma i;
  st_left i : (i < length items)%nat -> ~ M i -> order !! i = Some (Z.of_nat (sigma i)) /\ its !! i = items !! i
}.

(** Marking a slot once its item is in place. *)
Lemma state_put M its order c x :
  state M its order -> (c < length items)%nat -> items !! sigma c = Some x ->
  state (fun i => M i \/ i = c) (<[c := x]> its) (<[c := -1]> order).
Proof.
  intros [H1 H2 H3 H4] Hc Hx. split; rewrite ?length_insert; try done; intros i Hi HM.
  - destruct (decide (i = c)) as [-> | Hne].
    + rewrite !list_lookup_insert_eq by lia. now rewrite Hx.
    + rewrite !list_lookup_insert_ne by done. apply H3; [done|]. destruct HM; done.
  - assert (i <> c) by tauto. rewrite !list_lookup_insert_ne by done. apply H4; tauto.
Qed.

(** The slots of one cycle: each is the start or the source of an earlier one. *)
Definition chain (start : nat) (D : list nat) (c : nat) : Prop :=
  NoDup (c :: D) /\ (forall e, e ∈ c :: D -> (e < length items)%nat) /\
  (forall e, e ∈ c :: D -> e = start \/ exists d, d ∈ D /\ e = sigma d) /\ start ∈ c :: D.

Lemma chain_length start D c : chain start D c -> (S (length D) <= length items)%nat.
Proof.
  intros (Hnd & Hlt & _ & _). rewrite <-(length_seq (length items) 0). change (S (length D)) with (length (c :: D)).
  apply submseteq_length, NoDup_submseteq; [done|]. intros e He. apply elem_of_seq. specialize (Hlt e He). lia.
Qed.

(** The source of the last slot is the start, or a new slot. *)
Lemma chain_next start D c (M : nat -> Prop) :
  chain start D c -> (forall i, (i < length items)%nat -> M (sigma i) -> M i) -> (forall e, e ∈ c :: D -> ~ M e) ->
  sigma c <> start -> chain start (c :: D) (sigma c) /\ ~ M (sigma c).
Proof using Hperm.
  intros (Hnd & Hlt & Hsrc & Hst) Hback Hfree Hne. assert (Hc : (c < length items)%nat) by (apply Hlt; left).
  assert (HnM : ~ M (sigma c)) by (intros HM; apply (Hfree c); [left|]; auto).
  split; [|done]. split_and!.
  - constructor; [|done]. intros Hin. destruct (Hsrc _ Hin) as [E | (d & Hd & E)]; [done|].
    apply sigma_inj in E; [|done|apply Hlt; now right]. subst d. now apply NoDup_cons in Hnd as [Hnd _].
  - intros e He. apply elem_of_cons in He as [-> | He]; [now apply sigma_lt|auto].
  - intros e He. apply elem_of_cons in He as [-> | He]; [right; exists c; split; [left|done]|].
    destruct (Hsrc e He) as [-> | (d & Hd & ->)]; [now left|]. right. exists d. split; [now right|done].
  - now right.
Qed.

Lemma applyCycle_ok fuel start M D c its order :
  (forall i, (i < length items)%nat -> M (sigma i) -> M i) -> (forall e, e ∈ c :: D -> ~ M e) ->
  chain start D c -> state (fun i => M i \/ i ∈ D) its order -> (length items <= length D + fuel)%nat ->
  exists its' order' c' D', applyCycle fuel start c (Z.of_nat (sigma c)) its order = Ok (its', order', c') /\
    chain start D' c' /\ (forall e, e ∈ c' :: D' -> ~ M e) /\ sigma c' = start /\ state (fun i => M i \/ i ∈ D') its' order'.
Proof using Hperm.
  intros Hback. revert D c its order. induction fuel as [|fuel IH]; intros D c its order Hfree Hch Hst Hfuel.
  { pose proof (chain_length _ _ _ Hch). lia. }
  cbn [applyCycle]. destruct (Z.eqb_spec (Z.of_nat (sigma c)) (Z.of_nat start)) as [E | E].
  { exists its, order, c, D. split_and!; try done; lia. }
  destruct (chain_next _ _ _ M Hch Hback Hfree ltac:(lia)) as [Hch' HnM]. rewrite Nat2Z.id.
  pose proof Hch as (Hnd & Hlt & _ & _). assert (Hc : (c < length items)%nat) by (apply Hlt; left). pose proof (sigma_lt c Hc) as Hsc.
  assert (HnD : ~ (M (sigma c) \/ sigma c ∈ D)).
  { intros [HM | HD]; [done|]. destruct Hch' as (Hnd' & _). apply NoDup_cons in Hnd' as [Hni _]. apply Hni. now right. }
  destruct (st_left _ _ _ Hst (sigma c) Hsc HnD) as [-> ->].
  destruct (lookup_lt_is_Some_2 items (sigma c) Hsc) as [x Hx]. rewrite Hx.
  apply (IH (c :: D)); [|done| |cbn [length]; lia].
  - intros e He. apply elem_of_cons in He as [-> | He]; [done|]. auto.
  - pose proof (state_put _ _ _ c x Hst Hc Hx) as [S1 S2 S3 S4]. split; [done|done|..]; intros i Hi HM.
    + apply S3; [done|]. rewrite elem_of_cons in HM. tauto.
    + apply S4; [done|]. rewrite elem_of_cons in HM. tauto.
Qed.

(** A slot that is not yet in place starts a new cycle. *)
Lemma applyStart_ok start M its order :
  (start < length items)%nat -> (forall i, (i < length items)%nat -> M (sigma i) -> M i) -> (forall i, M i \/ ~ M i) -> state M its order ->
  exists its' order' M', applyStart (Ok (its, order)) start = Ok (its', order') /\ state M' its' order' /\
    (forall i, M' i \/ ~ M' i) /\ (forall i, (i < length items)%nat -> M' (sigma i) -> M' i) /\ (forall i, M i -> M' i) /\ M' start.
Proof using Hperm.
  intros Hs Hback Hdec Hst. unfold applyStart. cbn [mbind outcome_bind]. destruct (Hdec start) as [HM | HM].
  { destruct (st_done _ _ _ Hst start Hs HM) as [-> ->]. destruct (lookup_lt_is_Some_2 items _ (sigma_lt start Hs)) as [x ->].
    exists its, order, M. split_and!; auto. }
  destruct (st_left _ _ _ Hst start Hs HM) as [-> ->]. destruct (lookup_lt_is_Some_2 items start Hs) as [x Hx]. rewrite Hx.
  destruct (Z.ltb_spec (Z.of_nat (sigma start)) 0); [lia|]. destruct (Z.eqb_spec (Z.of_nat (sigma start)) (Z.of_nat start)) as [E | E].
  - assert (Es : sigma start = start) by lia. exists its, (<[start := -1]> order), (fun i => M i \/ i = start). split; [done|]. split_and!.
    + replace its with (<[start := x]> its); [apply state_put; [done|done|now rewrite Es]|].
      apply list_insert_id. now rewrite (proj2 (st_left _ _ _ Hst start Hs HM)).
    + intros i. destruct (Hdec i), (decide (i = start)); tauto.
    + intros i Hi [HMi | Hi2]; [left; auto|]. right. apply (sigma_inj i start Hi Hs). congruence.
    + tauto.
    + tauto.
  - assert (Hch : chain start [] start).
    { split_and!; [apply NoDup_singleton|..]; intros; set_solver. }
    destruct (applyCycle_ok (length its) start M [] start its order Hback) as (its' & order' & c' & D' & -> & Hch' & Hfree & Hc' & Hst').
    + intros e ->%list_elem_of_singleton. done.
    + done.
    + destruct Hst as [S1 S2 S3 S4]. split; [done|done|..]; intros i Hi HMi; [apply S3|apply S4]; try done; set_solver.
    + rewrite (st_len _ _ _ Hst). cbn [length]. lia.
    + cbn [mbind outcome_bind]. destruct Hch' as (Hnd & Hlt & Hsrc & Hin). assert (Hcl : (c' < length items)%nat) by (apply Hlt; left).
      exists (<[c' := x]> its'), (<[c' := -1]> order'), (fun i => (M i \/ i ∈ D') \/ i = c'). split; [done|]. split_and!.
      * apply state_put; [done|done|now rewrite Hc'].
      * intros i. destruct (Hdec i), (decide (i ∈ D')), (decide (i = c')); tauto.
      * intros i Hi HMi. assert (Hcase : M (sigma i) \/ sigma i ∈ c' :: D') by (rewrite elem_of_cons; tauto).
        destruct Hcase as [HMs | HD]; [left; left; auto|]. destruct (Hsrc _ HD) as [Es | (d & Hd & Es)].
        -- right. apply sigma_inj; [done..|congruence].
        -- left; right. apply sigma_inj in Es; [now subst|done|]. apply Hlt. now right.
      * tauto.
      * apply elem_of_cons in Hin. tauto.
Qed.

Lemma applyBulkOrder_ok : applyBulkOrder items (Z.of_nat <$> ord) = Ok (omap (items !!.) ord).
Proof using Hperm.
  assert (Hloop : forall k, (k <= length items)%nat -> exists its order M,
    foldl applyStart (Ok (items, Z.of_nat <$> ord)) (seq 0 k) = Ok (its, order) /\ state M its order /\ (forall i, M i \/ ~ M i) /\
    (forall i, (i < length items)%nat -> M (sigma i) -> M i) /\ (forall i, (i < k)%nat -> M i)).
  { induction k as [|k IH]; intros Hk.
    - exists items, (Z.of_nat <$> ord), (fun _ => False). split; [done|]. split; [|split; [tauto|split; [tauto|lia]]]. split; [done|now rewrite length_fmap, length_ord|done|].
      intros i Hi _. now rewrite list_lookup_fmap, (sigma_lookup i Hi).
    - destruct (IH ltac:(lia)) as (its & order & M & E & Hst & Hdec & Hback & Hdone). rewrite seq_S, foldl_app, E. cbn [foldl Nat.add].
      destruct (applyStart_ok k M its order ltac:(lia) Hback Hdec Hst) as (its' & order' & M' & E' & Hst' & Hdec' & Hback' & Hsub & Hk').
      exists its', order', M'. split_and!; try done. intros i Hi. destruct (decide (i = k)) as [-> |]; [done|]. apply Hsub, Hdone. lia. }
  unfold applyBulkOrder. rewrite length_fmap, length_ord.
  destruct (Hloop (length items) ltac:(lia)) as (its & order & M & -> & Hst & _ & _ & Hdone). cbn [mbind outcome_bind]. f_equal.
  apply list_eq. intros i. destruct (decide (i < length items)%nat) as [Hi | Hi].
  - rewrite (proj2 (st_done _ _ _ Hst i Hi (Hdone i Hi))).
    assert (Hom : forall l : list nat, Forall (fun j => (j < length items)%nat) l -> forall i, omap (items !!.) l !! i = l !! i ≫= (items !!.)).
    { intros l Hl. induction Hl as [|j l Hj _ IH]; intros i'; [done|]. cbn [omap list_omap].
      destruct (lookup_lt_is_Some_2 items j Hj) as [y Hy]. rewrite Hy. destruct i' as [|i']; [cbn; now rewrite Hy|]. cbn [lookup list_lookup]. apply IH. }
    rewrite Hom; [now rewrite (sigma_lookup i Hi)|]. apply Forall_forall. intros j Hj. rewrite Hperm in Hj. apply elem_of_seq in Hj. lia.
  - rewrite !lookup_ge_None_2; [done| |rewrite (st_len _ _ _ Hst); lia].
    transitivity (length ord); [|rewrite length_ord; lia].
    clear. induction ord as [|j l IH]; [done|]. cbn [omap list_omap]. destruct (items !! j); cbn [length]; lia.
Qed.

End permute.

(** ** The distribution by the first byte *)

Lemma join_cons_eq (s : list Z) segs : mjoin (s :: segs) = s ++ mjoin segs.
Proof. done. Qed.

Lemma split_lengths (ls : list nat) (l : list Z) :
  length l = sum_list ls -> exists segs, l = mjoin segs /\ length <$> segs = ls.
Proof.
  revert l. induction ls as [|m ls IH]; intros l Hl; simpl in Hl.
  - exists []. destruct l; [done|discriminate].
  - destruct (IH (drop m l)) as (segs & E & Hs); [rewrite length_drop; lia|]. exists (take m l :: segs). split.
    + rewrite join_cons_eq, <-E. now rewrite take_drop.
    + cbn [fmap list_fmap]. rewrite Hs, length_take. f_equal. lia.
Qed.

Lemma insert_join (segs : list (list Z)) b r v seg :
  segs !! b = Some seg -> (r < length seg)%nat ->
  <[(sum_list (length <$> take b segs) + r)%nat := v]> (mjoin segs) = mjoin (<[b := <[r := v]> seg]> segs).
Proof.
  revert b. induction segs as [|s segs IH]; intros [|b] Hb Hr; try done.
  - injection Hb as ->. cbn [take fmap list_fmap sum_list_with insert list_insert Nat.add]. rewrite !join_cons_eq. now apply insert_app_l.
  - cbn [lookup list_lookup] in Hb. cbn [take fmap list_fmap sum_list_with id].
    change (<[S b := <[r := v]> seg]> (s :: segs)) with (s :: <[b := <[r := v]> seg]> segs). rewrite !join_cons_eq, <-Nat.add_assoc, insert_app_r. f_equal. now apply IH.
Qed.

Section scatter.
  Context (n B : nat) (bk : nat -> nat) (Hbk : forall i, (i < n)%nat -> (bk i < B)%nat).

(** The first [j] indexes that fall into bucket [b]. *)
Definition bucket (j b : nat) : list nat := filter (fun i => bk i = b) (seq 0 j).
Definition bound (b : nat) : nat := sum_list ((fun b => length (bucket n b)) <$> seq 0 b).

Lemma bucket_S j b : bucket (S j) b = bucket j b ++ (if decide (bk j = b) then [j] else []).
Proof. unfold bucket. now rewrite seq_S, filter_app. Qed.

Lemma bucket_lt j b : (j < n)%nat -> bk j = b -> (length (bucket j b) < length (bucket n b))%nat.
Proof.
  intros Hj Hb. assert (Hin : forall k, (S j <= k)%nat -> (length (bucket (S j) b) <= length (bucket k b))%nat).
  { intros k Hk. induction Hk as [|k Hk IH]; [lia|]. rewrite (bucket_S k), length_app. lia. }
  specialize (Hin n Hj). rewrite bucket_S, decide_True, length_app in Hin by done. cbn in Hin. lia.
Qed.

Lemma buckets_perm j : (j <= n)%nat -> (seq 0 B ≫= bucket j) ≡ₚ seq 0 j.
Proof using Hbk.
  induction j as [|j IH]; intros Hj.
  - assert (E : forall l, (l ≫= bucket 0) = []) by (induction l; [done|]; cbn; done). now rewrite E.
  - rewrite seq_S. cbn [Nat.add]. rewrite <-IH by lia.
    assert (Hins : forall l, NoDup l -> (l ≫= bucket (S j)) ≡ₚ (l ≫= bucket j) ++ (if decide (bk j ∈ l) then [j] else [])).
    { intros l Hl. induction Hl as [|b l Hb Hl IHl]; [done|]. cbn [mbind list_bind]. rewrite bucket_S, IHl. destruct (decide (bk j = b)) as [<- | Hne].
      - rewrite (decide_True (P := bk j ∈ bk j :: l)) by left. rewrite decide_False by done. rewrite app_nil_r, <-!app_assoc. apply Permutation_app_head. apply Permutation_app_comm.
      - rewrite app_nil_r, <-app_assoc. apply Permutation_app_head, Permutation_app_head.
        destruct (decide (bk j ∈ l)), (decide (bk j ∈ b :: l)) as [H | H]; try done; exfalso; [apply H; now right|]. apply elem_of_cons in H as [? | ?]; done. }
    rewrite Hins by apply NoDup_seq. rewrite decide_True; [done|]. apply elem_of_seq. specialize (Hbk j). lia.
Qed.

Lemma bound_total : bound B = n.
Proof using Hbk.
  transitivity (length (seq 0 B ≫= bucket n)).
  - unfold bound. induction (seq 0 B) as [|b l IH]; [done|]. cbn [fmap list_fmap sum_list_with id mbind list_bind]. now rewrite length_app, IH.
  - rewrite buckets_perm by done. apply length_seq.
Qed.

Definition scatter1 (acc : list Z * list Z) (i : nat) : list Z * list Z :=
  let '(order, cursor) := acc in
  (<[Z.to_nat (nth (bk i) cursor 0) := Z.of_nat i]> order, alter Z.succ (bk i) cursor).

(** Each bucket's segment of the order starts with its indexes so far. *)
Definition segments (j : nat) (segs : list (list Z)) (cur : list Z) : Prop :=
  length segs = B /\ forall b, (b < B)%nat -> cur !! b = Some (Z.of_nat (bound b + length (bucket j b))) /\
    exists rest, segs !! b = Some ((Z.of_nat <$> bucket j b) ++ rest) /\ (length (bucket j b) + length rest = length (bucket n b))%nat.

Lemma segments_bound j segs cur b :
  segments j segs cur -> (b <= B)%nat -> sum_list (length <$> take b segs) = bound b.
Proof.
  intros [Hl Hinv] Hb. unfold bound. f_equal. apply list_eq. intros i. rewrite !list_lookup_fmap.
  destruct (decide (i < b)%nat) as [Hi | Hi].
  - rewrite lookup_take_lt, lookup_seq_lt by lia. destruct (Hinv i ltac:(lia)) as [_ (rest & -> & Hr)]. cbn. f_equal.
    rewrite length_app, length_fmap. lia.
  - rewrite lookup_take_ge, lookup_seq_ge by lia. done.
Qed.

Lemma segments_start order cursor :
  length order = n -> (forall b, (b < B)%nat -> cursor !! b = Some (Z.of_nat (bound b))) ->
  exists segs, order = mjoin segs /\ segments 0 segs cursor.
Proof using Hbk.
  intros Hlen Hcur.
  destruct (split_lengths ((fun b => length (bucket n b)) <$> seq 0 B) order) as (segs & E & Hs); [rewrite Hlen; symmetry; apply bound_total|].
  exists segs. split; [done|]. split; [rewrite <-(length_fmap length), Hs, length_fmap; apply length_seq|].
  intros b Hb. split; [rewrite Hcur by done; cbn; do 2 f_equal; lia|].
  assert (Hsb : (length <$> segs) !! b = Some (length (bucket n b))) by (rewrite Hs, list_lookup_fmap, lookup_seq_lt by done; done).
  rewrite list_lookup_fmap in Hsb. destruct (segs !! b) as [s |]; [|done]. injection Hsb as Hsb. exists s. split; [done|]. cbn. lia.
Qed.

Lemma segments_step j segs cur :
  (j < n)%nat -> segments j segs cur ->
  exists segs' cur', scatter1 (mjoin segs, cur) j = (mjoin segs', cur') /\ segments (S j) segs' cur'.
Proof using Hbk.
  intros Hj Hinv. pose proof Hinv as [Hl Hb']. pose proof (Hbk j Hj) as Hb. destruct (Hb' (bk j) Hb) as [Hc (rest & Hseg & Hlr)].
  pose proof (bucket_lt j (bk j) Hj eq_refl) as Hlt. destruct rest as [|x rest]; [cbn in Hlr; lia|]. cbn [length] in Hlr.
  cbn [scatter1]. rewrite (nth_lookup_Some _ _ _ _ Hc), Nat2Z.id.
  rewrite <-(segments_bound j segs cur) by (done || lia). rewrite (insert_join _ _ _ _ _ Hseg) by (rewrite length_app, length_fmap; cbn [length]; lia).
  do 2 eexists. split; [done|]. split; [now rewrite length_insert|]. intros b Hbb. destruct (Hb' b Hbb) as [Hcb (restb & Hsegb & Hlb)].
  rewrite bucket_S. destruct (decide (bk j = b)) as [<- | Hne].
  - split; [rewrite list_lookup_alter_eq, Hc; cbn; f_equal; rewrite length_app; cbn; lia|].
    exists rest. rewrite list_lookup_insert_eq by lia. split; [|rewrite length_app; cbn; lia]. f_equal.
    rewrite fmap_app, <-app_assoc. replace (length (bucket j (bk j))) with (length (Z.of_nat <$> bucket j (bk j)) + 0)%nat by (rewrite length_fmap; lia).
    rewrite insert_app_r. done.
  - rewrite list_lookup_alter_ne, list_lookup_insert_ne, app_nil_r by done. eauto.
Qed.

Lemma scatter_ok order cursor :
  length order = n -> (forall b, (b < B)%nat -> cursor !! b = Some (Z.of_nat (bound b))) ->
  fst (foldl scatter1 (order, cursor) (seq 0 n)) = Z.of_nat <$> (seq 0 B ≫= bucket n).
Proof using Hbk.
  intros Hlen Hcur.
  assert (Hloop : forall j, (j <= n)%nat -> exists segs cur, foldl scatter1 (order, cursor) (seq 0 j) = (mjoin segs, cur) /\ segments j segs cur).
  { induction j as [|j IH]; intros Hj.
    - destruct (segments_start order cursor Hlen Hcur) as (segs & -> & Hs). now exists segs, cursor.
    - destruct (IH ltac:(lia)) as (segs & cur & E & Hs). rewrite seq_S, foldl_app, E. cbn [foldl Nat.add]. apply segments_step; [lia|done]. }
  destruct (Hloop n ltac:(lia)) as (segs & cur & -> & Hl & Hinv). cbn [fst].
  replace segs with ((fun b => Z.of_nat <$> bucket n b) <$> seq 0 B).
  - clear. induction (seq 0 B) as [|b l IH]; [done|]. cbn [fmap list_fmap mbind list_bind]. now rewrite join_cons_eq, fmap_app, <-IH.
  - apply list_eq. intros b. rewrite list_lookup_fmap. destruct (decide (b < B)%nat) as [Hb | Hb].
    + rewrite lookup_seq_lt by done. destruct (Hinv b Hb) as [_ (rest & -> & Hr)]. destruct rest; [now rewrite app_nil_r|cbn in Hr; lia].
    + rewrite lookup_seq_ge by lia. cbn. symmetry. apply lookup_ge_None_2. lia.
Qed.

End scatter.

Definition zsum (l : list Z) : Z := foldr Z.add 0 l.

Lemma zsum_app l k : zsum (l ++ k) = zsum l + zsum k.
Proof. induction l as [|x l IH]; cbn [app zsum foldr]; [done|]. fold (zsum (l ++ k)). fold (zsum l). lia. Qed.

Lemma prefix_sums_snoc l x : prefix_sums (l ++ [x]) = prefix_sums l ++ [zsum (l ++ [x])].
Proof.
  unfold prefix_sums. rewrite foldl_app. cbn [foldl].
  assert (Hacc : forall l, fst (foldl (fun '(acc, out) x => (acc + x, out ++ [acc + x])) (0, []) l) = zsum l).
  { clear. intros l. induction l as [|y l IH] using rev_ind; [done|]. rewrite foldl_app. cbn [foldl]. destruct (foldl _ _ l) as [acc out].
    cbn [fst] in *. rewrite IH, zsum_app. cbn. lia. }
  specialize (Hacc l). destruct (foldl _ _ l) as [acc out]. cbn [fst snd] in *. rewrite zsum_app. cbn. do 2 f_equal. lia.
Qed.

Lemma prefix_sums_lookup l i : (i < length l)%nat -> prefix_sums l !! i = Some (zsum (take (S i) l)).
Proof.
  assert (Hlen : forall l, length (prefix_sums l) = length l).
  { clear. intros l. induction l as [|x l IH] using rev_ind; [done|]. rewrite prefix_sums_snoc, !length_app, IH. done. }
  induction l as [|x l IH] using rev_ind; cbn [length]; intros Hi; [lia|]. rewrite length_app in Hi. cbn in Hi. rewrite prefix_sums_snoc.
  destruct (decide (i = length l)) as [-> | Hne].
  - rewrite lookup_app_r by (rewrite Hlen; done). rewrite Hlen, Nat.sub_diag. cbn. now rewrite take_ge by (rewrite length_app; cbn; lia).
  - rewrite lookup_app_l by (rewrite Hlen; lia). rewrite IH by lia. now rewrite take_app_le by lia.
Qed.

Section radix.
  Context (items : list DictBulkKV) (Hbyte : Forall (fun i => (first_byte i < 256)%nat) items).

Definition byte_of (i : nat) : nat := match items !! i with Some it => first_byte it | None => 0%nat end.
Definition of_byte (b : nat) : list DictBulkKV := filter (fun i => first_byte i = b) items.

Lemma byte_of_lt i : (i < length items)%nat -> (byte_of i < 256)%nat.
Proof using Hbyte.
  intros Hi. unfold byte_of. destruct (lookup_lt_is_Some_2 items i Hi) as [x Hx]. rewrite Hx. eapply Forall_lookup_1 in Hbyte; eauto.
Qed.

Lemma bucket_items b : omap (items !!.) (bucket byte_of (length items) b) = of_byte b.
Proof.
  assert (H : forall j, (j <= length items)%nat -> omap (items !!.) (bucket byte_of j b) = filter (fun i => first_byte i = b) (take j items)).
  { induction j as [|j IH]; intros Hj; [done|]. rewrite bucket_S, omap_app, IH by lia.
    destruct (lookup_lt_is_Some_2 items j ltac:(lia)) as [x Hx]. rewrite (take_S_r _ _ _ Hx), filter_app. f_equal.
    unfold byte_of. rewrite Hx, filter_cons. destruct (decide (first_byte x = b)); cbn; [now rewrite Hx|done]. }
  rewrite H by done. now rewrite take_ge.
Qed.

Lemma omap_length (l : list nat) : Forall (fun i => (i < length items)%nat) l -> length (omap (items !!.) l) = length l.
Proof.
  intros H. induction H as [|i l Hi _ IH]; [done|]. cbn [omap list_omap]. destruct (lookup_lt_is_Some_2 items i Hi) as [x ->]. cbn. lia.
Qed.

Lemma bucket_length b : length (bucket byte_of (length items) b) = length (of_byte b).
Proof.
  rewrite <-bucket_items, omap_length; [done|]. apply Forall_forall. intros i Hi. unfold bucket in Hi.
  apply list_elem_of_filter in Hi as [_ Hi]. apply elem_of_seq in Hi. lia.
Qed.

(** The counting pass. *)
Definition counts : list Z := foldl (fun bounds i => alter Z.succ (S (first_byte i)) bounds) (replicate 257 0) items.

Lemma counts_lookup b : (b < 256)%nat -> counts !! S b = Some (len (of_byte b)).
Proof.
  intros Hb. unfold counts, of_byte, len. clear Hbyte. induction items as [|x l IH] using rev_ind.
  - cbn [foldl]. now rewrite lookup_replicate_2 by lia.
  - rewrite foldl_app, filter_app, length_app. cbn [foldl]. destruct (decide (first_byte x = b)) as [<- | Hne].
    + rewrite list_lookup_alter_eq, IH, filter_cons, decide_True by done. cbn. f_equal. lia.
    + rewrite list_lookup_alter_ne, IH, filter_cons, decide_False by (done || lia). cbn. f_equal. lia.
Qed.

Lemma counts_zero : counts !! 0%nat = Some 0.
Proof. unfold counts. clear Hbyte. induction items as [|x l IH] using rev_ind; [done|]. rewrite foldl_app. cbn [foldl]. now rewrite list_lookup_alter_ne. Qed.

Lemma length_counts : length counts = 257%nat.
Proof. unfold counts. clear Hbyte. induction items as [|x l IH] using rev_ind; [done|]. rewrite foldl_app. cbn [foldl]. now rewrite length_alter. Qed.

Lemma bounds_lookup b : (b <= 256)%nat -> bulk_bounds items !! b = Some (Z.of_nat (bound (length items) byte_of b)).
Proof.
  intros Hb. unfold bulk_bounds. fold counts. rewrite prefix_sums_lookup by (rewrite length_counts; lia). f_equal.
  induction b as [|b IH].
  - destruct counts as [|c l] eqn:E; [pose proof length_counts as H; rewrite E in H; discriminate|].
    pose proof counts_zero as H. rewrite E in H. injection H as ->. done.
  - rewrite (take_S_r _ _ _ (counts_lookup b ltac:(lia))), zsum_app, IH by lia. unfold bound. rewrite seq_S, fmap_app, sum_list_with_app.
    cbn [Nat.add fmap list_fmap sum_list_with zsum foldr id]. rewrite bucket_length. unfold len. lia.
Qed.

Lemma scatter_items order cursor :
  foldl scatter_step (order, cursor) (zip (seq 0 (length items)) items) = foldl (scatter1 byte_of) (order, cursor) (seq 0 (length items)).
Proof.
  assert (H : forall l pre acc, items = pre ++ l ->
    foldl scatter_step acc (zip (seq (length pre) (length l)) l) = foldl (scatter1 byte_of) acc (seq (length pre) (length l))).
  { induction l as [|x l IH]; intros pre acc E; [done|]. cbn [length seq zip zip_with foldl].
    replace (S (length pre)) with (length (pre ++ [x])) by (rewrite length_app; cbn; lia). rewrite IH by (rewrite E, <-app_assoc; done).
    f_equal. destruct acc as [o c]. cbn [scatter_step scatter1 fst snd].
    replace (byte_of (length pre)) with (first_byte x); [done|]. unfold byte_of. rewrite E, lookup_app_r, Nat.sub_diag by lia. done. }
  apply (H items []). done.
Qed.

Lemma omap_bind (g : nat -> list nat) l : omap (items !!.) (l ≫= g) = l ≫= (fun b => omap (items !!.) (g b)).
Proof. induction l as [|b l IH]; [done|]. cbn [mbind list_bind]. rewrite omap_app, IH. done. Qed.

(** The items by bucket, each bucket in input order. *)
Lemma distribute_ok stale :
  applyBulkOrder items (fst (foldl scatter_step (acquireBulkSortOrder stale (length items), bulk_bounds items) (zip (seq 0 (length items)) items)))
  = Ok (seq 0 256 ≫= of_byte).
Proof using Hbyte.
  rewrite scatter_items, (scatter_ok (length items) 256 byte_of byte_of_lt).
  - rewrite applyBulkOrder_ok by exact (buckets_perm (length items) 256 byte_of byte_of_lt (length items) (le_n _)). rewrite omap_bind. f_equal.
    apply list_bind_ext; [|done]. intros b. apply bucket_items.
  - unfold acquireBulkSortOrder. destruct (Nat.ltb_spec (length stale) (length items)); [apply length_replicate|rewrite length_take; lia].
  - intros b Hb. apply bounds_lookup. lia.
Qed.

Context (K : Z).
Abbreviation sorted_byte := (fun b => SortStableFunc (compare_items K) (of_byte b)).

Lemma length_insert_stable (x : DictBulkKV) l : length (insert_stable (compare_items K) x l) = S (length l).
Proof. induction l as [|y l IH]; [done|]. cbn [insert_stable]. destruct (_ <=? 0); cbn [length]; lia. Qed.

Lemma length_sort (l : list DictBulkKV) : length (SortStableFunc (compare_items K) l) = length l.
Proof. induction l as [|x l IH]; [done|]. cbn [SortStableFunc foldr length]. rewrite length_insert_stable. now f_equal. Qed.

Lemma length_bind (g : nat -> list DictBulkKV) l : length (l ≫= g) = sum_list ((fun b => length (g b)) <$> l).
Proof. induction l as [|b l IH]; [done|]. cbn [mbind list_bind fmap list_fmap sum_list_with id]. now rewrite length_app, IH. Qed.

Lemma bound_length b : bound (length items) byte_of b = length (seq 0 b ≫= of_byte).
Proof. unfold bound. rewrite length_bind. f_equal. apply list_fmap_ext. intros i x _. apply bucket_length. Qed.

Lemma bound_sorted_length b : bound (length items) byte_of b = length (seq 0 b ≫= sorted_byte).
Proof. rewrite bound_length, !length_bind. f_equal. apply list_fmap_ext. intros i x _. now rewrite length_sort. Qed.

Lemma sort_short (l : list DictBulkKV) : (length l < 2)%nat -> SortStableFunc (compare_items K) l = l.
Proof. destruct l as [|x [|y l]]; [done|done|cbn; lia]. Qed.

Lemma buckets_sorted :
  foldl (sort_bucket K (bulk_bounds items)) (seq 0 256 ≫= of_byte) (seq 0 256) = seq 0 256 ≫= sorted_byte.
Proof using Hbyte.
  assert (H : forall k, (k <= 256)%nat -> foldl (sort_bucket K (bulk_bounds items)) (seq 0 256 ≫= of_byte) (seq 0 k) =
    (seq 0 k ≫= sorted_byte) ++ (seq k (256 - k) ≫= of_byte)).
  { induction k as [|k IH]; intros Hk; [done|]. rewrite (seq_S k 0), foldl_app, IH by lia. cbn [foldl Nat.add].
    replace (256 - k)%nat with (S (256 - S k)) by lia. cbn [seq]. rewrite bind_app. change ((k :: ?l) ≫= of_byte) with (of_byte k ++ (l ≫= of_byte)).
    set (pre := seq 0 k ≫= sorted_byte). set (post := seq (S k) (256 - S k) ≫= of_byte).
    unfold sort_bucket. rewrite (nth_lookup_Some _ _ _ _ (bounds_lookup k ltac:(lia))), (nth_lookup_Some _ _ _ _ (bounds_lookup (S k) ltac:(lia))), !Nat2Z.id.
    assert (Hb : bound (length items) byte_of k = length pre) by apply bound_sorted_length.
    assert (Hb' : bound (length items) byte_of (S k) = (length pre + length (of_byte k))%nat).
    { rewrite <-Hb, !bound_length, (seq_S k 0), bind_app, length_app. cbn [Nat.add mbind list_bind]. now rewrite app_nil_r. }
    rewrite Hb, Hb'. replace (length pre + length (of_byte k) - length pre)%nat with (length (of_byte k)) by lia.
    rewrite <-app_assoc. cbn [mbind list_bind]. rewrite app_nil_r. destruct (Nat.ltb_spec (length (of_byte k)) 2) as [Hs | Hs].
    - now rewrite sort_short.
    - rewrite take_app_length, drop_app_length, take_app_length. do 2 f_equal.
      now rewrite drop_app_ge, Nat.add_comm, Nat.add_sub, drop_app_length by lia. }
  rewrite H by done. cbn [Nat.sub seq]. apply app_nil_r.
Qed.

(** ** Both passes sort *)

Context (HK : 8 <= K) (Hitems : Forall (item_ok K) items).

Lemma item_int_byte i : item_ok K i -> item_int K i = Z.of_nat (first_byte i) * 2 ^ (K - 8) + bits_uint (window (kv_key i) 8 (K - 8)).
Proof using HK.
  intros [Hok Hl]. unfold item_int, item_bits. destruct (kv_key i) as [|x d] eqn:E; [unfold len in Hl; cbn in Hl; lia|].
  apply bytes_ok_cons in Hok as [Hx Hd]. replace K with (8 + (K - 8)) at 1 by lia. rewrite window_app by lia.
  assert (Happ : forall l k, bits_uint (l ++ k) = bits_uint l * 2 ^ len k + bits_uint k).
  { intros l k. induction l as [|y l IH]; [done|]. cbn [app]. rewrite !bits_uint_cons, IH, len_app, Z.pow_add_r by apply len_nonneg. ring. }
  rewrite Happ, length_window by lia. do 2 f_equal. unfold first_byte. rewrite E. cbn [byte_at nth Z.to_nat].
  replace (window (x :: d) 0 8) with (window [x] 0 8) by done. rewrite bits_uint_byte by done. unfold byte_at. change (Z.to_nat 0) with 0%nat. cbn [nth]. destruct Hx. lia.
Qed.

Lemma compare_order i j : item_ok K i -> item_ok K j -> compare_items K i j <= 0 <-> item_int K i <= item_int K j.
Proof using HK. intros Hi Hj. rewrite compare_ok by (done || lia). unfold sign. split_cmp; lia. Qed.

Lemma of_byte_sorts b : sorts (item_int K) (of_byte b) (sorted_byte b).
Proof using HK Hitems.
  apply (SortStableFunc_sorts _ _ (item_ok K)); [exact compare_order|]. apply Forall_forall. intros x Hx. unfold of_byte in Hx.
  apply list_elem_of_filter in Hx as [_ Hx]. eapply Forall_forall in Hitems; eauto.
Qed.

Lemma sorted_byte_elem b x : x ∈ sorted_byte b -> first_byte x = b /\ x ∈ items.
Proof using HK Hitems. intros Hx. apply (sorts_elem _ _ _ _ (of_byte_sorts b)) in Hx. unfold of_byte in Hx. now apply list_elem_of_filter in Hx. Qed.

Lemma bytes_sorted k n : StronglySorted (le_by (item_int K)) (seq k n ≫= sorted_byte).
Proof using HK Hitems.
  revert k. induction n as [|n IH]; intros k; [constructor|]. cbn [seq]. change ((k :: ?l) ≫= sorted_byte) with (sorted_byte k ++ (l ≫= sorted_byte)).
  apply StronglySorted_app_2; [|exact (sorts_sorted _ _ _ (of_byte_sorts k))|apply IH]. intros x y Hx Hy.
  apply sorted_byte_elem in Hx as [Hx Hxi]. apply list_elem_of_bind in Hy as (b & Hy & Hb). apply sorted_byte_elem in Hy as [Hy Hyi]. apply elem_of_seq in Hb.
  pose proof (proj1 (Forall_forall _ _) Hitems) as Hall. unfold le_by. rewrite !item_int_byte by auto.
  pose proof (bits_uint_bound (window (kv_key x) 8 (K - 8))) as B1. pose proof (bits_uint_bound (window (kv_key y) 8 (K - 8))) as B2.
  rewrite length_window in B1, B2 by lia. set (p := 2 ^ (K - 8)) in *. nia.
Qed.

Lemma bytes_stable z : run_of (item_int K) z (seq 0 256 ≫= sorted_byte) = run_of (item_int K) z items.
Proof using HK Hitems Hbyte.
  assert (H1 : forall l, run_of (item_int K) z (l ≫= sorted_byte) = l ≫= (fun b => run_of (item_int K) z (of_byte b))).
  { induction l as [|b l IH]; [done|]. cbn [mbind list_bind]. rewrite run_of_app, (sorts_stable _ _ _ (of_byte_sorts b)). f_equal. exact IH. }
  rewrite H1. set (bz := Z.to_nat (z / 2 ^ (K - 8))).
  assert (Hz : forall x, x ∈ items -> item_int K x = z -> first_byte x = bz).
  { intros x Hx Hxz. pose proof (proj1 (Forall_forall _ _) Hitems x Hx) as Hok. rewrite item_int_byte in Hxz by done.
    pose proof (bits_uint_bound (window (kv_key x) 8 (K - 8))) as B1. rewrite length_window in B1 by lia. unfold bz. rewrite <-Hxz.
    rewrite Z.div_add_l, Z.div_small by lia. lia. }
  assert (Hrun : forall b, run_of (item_int K) z (of_byte b) = if decide (b = bz) then run_of (item_int K) z items else []).
  { intros b. unfold of_byte. clear -Hz. induction items as [|x l IH]; [now destruct (decide _)|].
    assert (IHl := IH (fun y Hy => Hz y (list_elem_of_further _ _ _ Hy))). clear IH. specialize (Hz x (list_elem_of_here _ _)).
    rewrite filter_cons, run_of_cons. destruct (decide (first_byte x = b)); [rewrite run_of_cons|]; rewrite IHl;
      destruct (decide (item_int K x = z)) as [E |]; try done; specialize (Hz E); destruct (decide (b = bz)); congruence. }
  assert (H2 : forall l, NoDup l -> (l ≫= (fun b => run_of (item_int K) z (of_byte b))) = if decide (bz ∈ l) then run_of (item_int K) z items else []).
  { intros l Hl. induction Hl as [|b l Hb Hl IH]; [done|]. cbn [mbind list_bind]. change (list_bind _ _ ?f l) with (l ≫= f). rewrite Hrun.
    destruct (decide (b = bz)) as [-> | Hne].
    - rewrite IH, decide_False, app_nil_r, decide_True by (done || left). done.
    - rewrite IH. cbn [app]. destruct (decide (bz ∈ l)), (decide (bz ∈ b :: l)) as [H | H]; try done; exfalso; [apply H; now right|].
      apply elem_of_cons in H as [? | ?]; congruence. }
  rewrite H2 by apply NoDup_seq. destruct (decide (bz ∈ seq 0 256)) as [Hin | Hin]; [done|].
  symmetry. unfold run_of. destruct (filter _ items) as [|x l] eqn:E; [done|]. exfalso. apply Hin.
  assert (Hx : x ∈ run_of (item_int K) z items) by (unfold run_of; rewrite E; left). apply run_of_elem in Hx as [Hxz Hx].
  rewrite <-(Hz x Hx Hxz). apply elem_of_seq. pose proof (proj1 (Forall_forall _ _) Hbyte x Hx) as Hlt. cbn in Hlt. lia.
Qed.

Lemma radix_sorts : sorts (item_int K) items (seq 0 256 ≫= sorted_byte).
Proof using HK Hitems Hbyte. split; [apply bytes_sorted|apply bytes_stable]. Qed.

End radix.

Lemma first_byte_lt K i : item_ok K i -> (first_byte i < 256)%nat.
Proof. intros [Hok _]. unfold first_byte. pose proof (byte_at_ok (kv_key i) 0 Hok) as [H1 H2]. lia. Qed.

Lemma sortDictBulkItems_ok stale K items :
  0 <= K -> Forall (item_ok K) items -> sortDictBulkItems stale K items = Ok (SortStableFunc (compare_items K) items).
Proof.
  intros HK Hitems. unfold sortDictBulkItems. destruct ((len items <? dictBulkRadixThreshold) || (K <? 8)) eqn:E; [done|].
  apply orb_false_iff in E as [_ E%Z.ltb_ge].
  assert (Hbyte : Forall (fun i => (first_byte i < 256)%nat) items) by (eapply List.Forall_impl; [|exact Hitems]; apply first_byte_lt).
  pose proof (distribute_ok items Hbyte stale) as Hd. destruct (foldl scatter_step _ _) as [order cursor]. cbn [fst] in Hd. rewrite Hd.
  cbn [mbind outcome_bind]. rewrite (buckets_sorted items Hbyte K). f_equal.
  apply (sorts_unique (item_int K) items); [now apply radix_sorts|].
  apply (SortStableFunc_sorts _ _ (item_ok K)); [|done]. intros i j Hi Hj. now apply compare_order.
Qed.

(** The distribution sort of a large batch - counting the first bytes, scattering
    the indexes, permuting the items in place along the cycles, sorting each bucket -
    gives exactly the list the plain stable sort by key gives, whatever the pooled
    scratch buffer held before: ascending in the key bits, and equal keys in their
    input order. *)
Theorem bulk_sort_stable stale K items :
  0 <= K -> Forall (item_ok K) items ->
  sortDictBulkItems stale K items = Ok (SortStableFunc (compare_items K) items) /\
  sorts (item_int K) items (SortStableFunc (compare_items K) items).
Proof.
  intros HK Hitems. split; [now apply sortDictBulkItems_ok|]. apply (SortStableFunc_sorts _ _ (item_ok K)); [|done].
  intros i j Hi Hj. rewrite compare_ok by done. unfold sign. split_cmp; lia.
Qed.

(** A batch above the threshold, with first bytes in descending order and each key twice. *)
Definition large_batch : list DictBulkKV := (fun i => mkKV [255 - Z.of_nat (i `mod` 150); 7] None) <$> seq 0 300.

Lemma large_batch_ok : Forall (item_ok 16) large_batch.
Proof.
  unfold large_batch. apply Forall_fmap, Forall_forall. intros i Hi. apply elem_of_seq in Hi. cbn. split; cbn [kv_key].
  - pose proof (Nat.mod_upper_bound i 150 ltac:(lia)). apply bytes_ok_cons. split; [lia|]. apply bytes_ok_one. lia.
  - unfold len. cbn [length]. lia.
Qed.

Example bulk_sort_stable_witness :
  sortDictBulkItems [] 16 large_batch = Ok (SortStableFunc (compare_items 16) large_batch) /\
  sorts (item_int 16) large_batch (SortStableFunc (compare_items 16) large_batch).
Proof. apply (bulk_sort_stable [] 16 large_batch); [lia|exact large_batch_ok]. Defined.
