(* ===== verification/DictBulkSpec.v ===== *)
(** * What the bulk build does

    A sorted batch of distinct keys becomes the tree with exactly these entries. *)

From S2P Require Import Prelude Bytes CellModel Builder Finalize BuilderOps Slice SliceSpec CellHash SliceCompare CellTheorems DictLabel.
From S2P Require Import DictLabelTheorems DictTree DictNode DictNodeSpec Dict DictBulk DictSpec DictKeys DictTheorems DictBulkSort.
From stdpp Require Import list sets sorting strings.
#[local] Open Scope Z_scope.
#[local] Set Warnings "-clear-no-such-hyp".

(** ** Bisection *)

Lemma searchLoop_ok (g : Z -> bool) f fuel i j :
  (forall h, i <= h < j -> f h = Ok (g h)) -> (forall a b, i <= a <= b -> b < j -> g a = true -> g b = true) ->
  0 <= i <= j -> j - i <= Z.of_nat fuel ->
  exists m, searchLoop fuel f i j = Ok m /\ i <= m <= j /\ (forall h, i <= h < m -> g h = false) /\ (forall h, m <= h < j -> g h = true).
Proof.
  revert i j. induction fuel as [|fuel IH]; intros i j Hf Hmono Hij Hfuel; cbn [searchLoop].
  all: destruct (Z.ltb_spec i j) as [Hlt | Hge]; [|exists i; split_and!; intros; done || lia].
  { lia. }
  set (h := (i + j) / 2). assert (Hh : i <= h < j) by lia. rewrite Hf by done. cbn [mbind outcome_bind]. destruct (g h) eqn:Eg; cbn [negb].
  - destruct (IH i h) as (m & -> & Hm & Hlo & Hhi); [intros; apply Hf; lia|intros a b ? ?; apply Hmono; lia|lia|lia|].
    exists m. split; [done|]. split; [lia|]. split; [done|]. intros x Hx. destruct (Z.lt_ge_cases x h); [apply Hhi; lia|].
    apply (Hmono h x); done || lia.
  - destruct (IH (h + 1) j) as (m & -> & Hm & Hlo & Hhi); [intros; apply Hf; lia|intros a b ? ?; apply Hmono; lia|lia|lia|].
    exists m. split; [done|]. split; [lia|]. split; [|done]. intros x Hx. destruct (Z.lt_ge_cases h x); [apply Hlo; lia|].
    destruct (g x) eqn:Ex; [|done]. rewrite (Hmono x h) in Eg; done || lia.
Qed.

(** A sorted list splits where a predicate turns true. *)
Lemma search_split {A} (l : list A) (p : A -> bool) f :
  (forall i x, l !! i = Some x -> f (Z.of_nat i) = Ok (p x)) ->
  (forall i j x y, (i <= j)%nat -> l !! i = Some x -> l !! j = Some y -> p x = true -> p y = true) ->
  exists m, sort_Search (len l) f = Ok (Z.of_nat m) /\ (m <= length l)%nat /\
    Forall (fun x => p x = false) (take m l) /\ Forall (fun x => p x = true) (drop m l).
Proof.
  intros Hf Hmono. set (g := fun i => match l !! Z.to_nat i with Some x => p x | None => false end).
  assert (Hg : forall h, 0 <= h < len l -> exists x, l !! Z.to_nat h = Some x /\ g h = p x).
  { intros h Hh. destruct (lookup_lt_is_Some_2 l (Z.to_nat h)) as [x Hx]; [unfold len in Hh; lia|]. exists x. split; [done|]. unfold g. now rewrite Hx. }
  destruct (searchLoop_ok g f (Z.to_nat (len l)) 0 (len l)) as (m & E & Hm & Hlo & Hhi).
  - intros h Hh. destruct (Hg h Hh) as (x & Hx & ->). rewrite <-(Z2Nat.id h) by lia. now apply Hf.
  - intros a b Ha Hb. destruct (Hg a ltac:(lia)) as (x & Hx & ->). destruct (Hg b ltac:(lia)) as (y & Hy & ->).
    apply (Hmono (Z.to_nat a) (Z.to_nat b)); done || lia.
  - pose proof (len_nonneg l). lia.
  - pose proof (len_nonneg l). lia.
  - exists (Z.to_nat m). rewrite Z2Nat.id by lia. split; [exact E|]. split; [unfold len in Hm; lia|]. split; apply Forall_lookup_2; intros i x Hx.
    + apply lookup_take_Some in Hx as [Hx Hi]. specialize (Hlo (Z.of_nat i) ltac:(lia)). unfold g in Hlo. now rewrite Nat2Z.id, Hx in Hlo.
    + rewrite lookup_drop in Hx. pose proof (lookup_lt_Some _ _ _ Hx). specialize (Hhi (Z.of_nat (Z.to_nat m + i)) ltac:(unfold len; lia)). unfold g in Hhi. now rewrite Nat2Z.id, Hx in Hhi.
Qed.

Lemma sorted_lookup {A} (R : A -> A -> Prop) l i j x y :
  StronglySorted R l -> (i < j)%nat -> l !! i = Some x -> l !! j = Some y -> R x y.
Proof.
  intros Hs. revert i j. induction Hs as [|z l Hs IH Hz]; intros [|i] [|j] Hij Hx Hy; cbn in Hx, Hy; try done || lia.
  - injection Hx as ->. rewrite Forall_lookup in Hz. eauto.
  - apply (IH i j); done || lia.
Qed.

(** ** Keys of a batch *)

Lemma bits_between (p q a x b : list bool) :
  len a = len x -> len b = len x -> len p = len q ->
  bits_uint (p ++ a) <= bits_uint (q ++ x) <= bits_uint (p ++ b) -> q = p.
Proof.
  intros Ha Hb Hp H. rewrite !bits_uint_prefix in H. symmetry. apply bits_uint_inj; [done|].
  pose proof (bits_uint_bound a). pose proof (bits_uint_bound b). pose proof (bits_uint_bound x). rewrite Ha, Hb in *. set (m := 2 ^ len x) in *. nia.
Qed.

Lemma lcp_split (a b : list bool) : len a = len b -> a <> b ->
  exists p x a' b', a = p ++ x :: a' /\ b = p ++ negb x :: b' /\ lcp a b = len p.
Proof.
  intros Hl Hne. destruct (strip a b) as [r |] eqn:E.
  - apply strip_Some in E as ->. rewrite len_app in Hl. destruct r; [now rewrite app_nil_r in Hne|]. rewrite len_cons in Hl. pose proof (len_nonneg r). lia.
  - destruct (strip_None a b E ltac:(lia)) as (p & x & l2 & k2 & -> & ->). exists p, (negb x), l2, k2. rewrite negb_involutive.
    split_and!; [done|done|apply lcp_diverge].
Qed.

Lemma split_order p x a b :
  len a = len b -> bits_uint (p ++ x :: a) < bits_uint (p ++ negb x :: b) -> x = false.
Proof.
  intros Hl H. rewrite !bits_uint_prefix, !bits_uint_cons, !len_cons, Hl in H. destruct x; [|done]. cbn [negb Z.b2z] in H.
  pose proof (bits_uint_bound a). pose proof (bits_uint_bound b). rewrite Hl in *. lia.
Qed.

Section batch.
  Context (K : Z).

Definition item_value (i : DictBulkKV) : option value := builder_value <$> kv_value i.

Record item_fits (i : DictBulkKV) : Prop := {
  if_key : item_ok K i;
  if_value b : kv_value i = Some b -> wf b /\ fits K (builder_value b)
}.

(** The key of an item from bit [pos] on. *)
Definition key_at (pos : Z) (i : DictBulkKV) : key := window (kv_key i) pos (K - pos).

(** The items agree on the bits [p] from [pos] on. *)
Definition shares (p : key) (pos : Z) (items : list DictBulkKV) : Prop :=
  Forall (fun i => key_at pos i = p ++ key_at (pos + len p) i) items.

(** Well-formed items in strictly ascending order of their keys from [pos] on. *)
Record batch (pos : Z) (items : list DictBulkKV) : Prop := {
  ba_fits : Forall item_fits items;
  ba_sorted : StronglySorted (fun i j => bits_uint (key_at pos i) < bits_uint (key_at pos j)) items
}.

Lemma key_at_0 i : key_at 0 i = item_bits K i.
Proof. unfold key_at, item_bits. now rewrite Z.sub_0_r. Qed.

Lemma len_key_at pos i : pos <= K -> len (key_at pos i) = K - pos.
Proof. intros H. apply length_window. lia. Qed.

Lemma key_at_split pos n i : 0 <= n <= K - pos -> key_at pos i = window (kv_key i) pos n ++ key_at (pos + n) i.
Proof. intros H. unfold key_at. rewrite (window_chunk _ _ _ n) by done. do 2 f_equal. lia. Qed.

Lemma key_at_inv pos p r i : pos <= K -> key_at pos i = p ++ r -> key_at (pos + len p) i = r.
Proof.
  intros H E. pose proof (f_equal len E) as Hl. rewrite len_app, len_key_at in Hl by done. pose proof (len_nonneg p). pose proof (len_nonneg r).
  rewrite (key_at_split pos (len p)) in E by lia. apply app_inj_1 in E as [_ ->]; [done|].
  pose proof (length_window (kv_key i) pos (len p)). unfold len in *. lia.
Qed.

Lemma shares_intro p pos items : pos <= K -> Forall (fun i => exists r, key_at pos i = p ++ r) items -> shares p pos items.
Proof.
  intros H Hi. eapply List.Forall_impl; [|exact Hi]. intros i [r E]. cbn beta in *. now rewrite (key_at_inv _ _ _ _ H E).
Qed.

Lemma shares_len p pos i items : shares p pos (i :: items) -> pos <= K -> pos + len p <= K.
Proof.
  intros [H _]%Forall_cons Hp. apply (f_equal len) in H. rewrite len_app, len_key_at in H by done.
  pose proof (len_nonneg (key_at (pos + len p) i)). lia.
Qed.

Lemma batch_shares p pos items : shares p pos items -> batch pos items -> batch (pos + len p) items.
Proof.
  intros Hs [Hf Ho]. split; [done|]. induction Ho as [|i items Ho IH Hi]; constructor.
  - apply IH; [now apply Forall_cons in Hs|now apply Forall_cons in Hf].
  - apply Forall_cons in Hs as [Hsi Hs]. apply Forall_forall. intros j Hj. rewrite Forall_forall in Hs, Hi.
    specialize (Hs j Hj). specialize (Hi j Hj). cbn beta in *. rewrite Hsi, Hs, !bits_uint_prefix in Hi.
    assert (len (key_at (pos + len p) i) = len (key_at (pos + len p) j)) as Hl.
    { unfold key_at, window, len. now rewrite !length_map. }
    rewrite Hl in Hi. lia.
Qed.

Lemma batch_app pos lo hi : batch pos (lo ++ hi) -> batch pos lo /\ batch pos hi.
Proof.
  intros [Hf Ho]. apply Forall_app in Hf as [? ?]. apply StronglySorted_app in Ho as (_ & ? & ?). done.
Qed.

Lemma key_view_ok i pos e :
  item_fits i -> 0 <= pos <= e -> e <= K -> K <= 1021 ->
  swf (key_view K (kv_key i) (u16 pos) (u16 e)) /\ sbits (key_view K (kv_key i) (u16 pos) (u16 e)) = take (Z.to_nat (e - pos)) (key_at pos i).
Proof.
  intros [[Hb Hl] _] Hpos He HK. rewrite !u16_small by lia. split.
  - split; unfold s_data, key_view; cbn [s_cell s_bitStart s_bitEnd s_refStart s_refEnd c_data c_refs]; try done; try lia.
  - unfold key_at. rewrite take_window by lia. done.
Qed.

(** The first and the last key tell what the whole batch shares. *)
Lemma batch_common pos i rest j :
  batch pos (i :: rest) -> 0 <= pos <= K -> last rest = Some j ->
  exists p a b, key_at pos i = p ++ false :: a /\ key_at pos j = p ++ true :: b /\
    lcp (key_at pos i) (key_at pos j) = len p /\ shares p pos (i :: rest).
Proof.
  intros [Hf Ho] Hpos Hj. apply StronglySorted_inv in Ho as [Ho Hi].
  assert (Hin : j ∈ rest) by (now apply last_Some_elem_of). pose proof (proj1 (Forall_forall _ _) Hi j Hin) as Hij. cbn beta in Hij.
  destruct (lcp_split (key_at pos i) (key_at pos j)) as (p & x & a & b & Ea & Eb & El); [now rewrite !len_key_at by lia|intros E; rewrite E in Hij; lia|].
  assert (Hab : len a = len b).
  { pose proof (f_equal len Ea) as H1. pose proof (f_equal len Eb) as H2. rewrite len_key_at, len_app, len_cons in H1, H2 by lia. lia. }
  assert (x = false) as ->. { apply (split_order p x a b Hab). now rewrite <-Ea, <-Eb. }
  exists p, a, b. split_and!; [done|done|done|]. apply shares_intro; [lia|]. apply Forall_forall. intros y Hy.
  pose proof (f_equal len Ea) as Hl. rewrite len_key_at, len_app, len_cons in Hl by lia. pose proof (len_nonneg p). pose proof (len_nonneg a).
  rewrite (key_at_split pos (len p) y) by lia. eexists. f_equal.
  apply (bits_between p _ (false :: a) (key_at (pos + len p) y) (true :: b)).
  - rewrite len_key_at, len_cons by lia. lia.
  - rewrite len_key_at, len_cons by lia. lia.
  - rewrite length_window; lia.
  - rewrite <-key_at_split, <-Ea by lia. cbn [negb] in Eb. rewrite <-Eb. apply elem_of_cons in Hy as [-> | Hy].
    + lia.
    + split; [pose proof (proj1 (Forall_forall _ _) Hi y Hy) as H1; cbn beta in H1; lia|].
      apply last_Some in Hj as [l ->]. apply StronglySorted_app in Ho as (Hx & _ & _). apply elem_of_app in Hy as [Hy | Hy].
      * specialize (Hx y j Hy ltac:(set_solver)). cbn beta in Hx. lia.
      * apply list_elem_of_singleton in Hy as ->. lia.
Qed.

Lemma keyBitAt_ok i pos x r : item_fits i -> 0 <= pos -> key_at pos i = x :: r -> keyBitAt (kv_key i) pos = Ok (Z.b2z x).
Proof.
  intros [[Hb Hl] _] Hpos E. assert (Hlt : pos < K).
  { destruct (Z.le_gt_cases K pos); [|done]. unfold key_at, window in E. now rewrite Z2Nat.nonpos in E by lia. }
  unfold keyBitAt, index. destruct (Z.leb_spec 0 (pos / 8)), (Z.ltb_spec (pos / 8) (len (kv_key i))); try lia. cbn [andb mbind outcome_bind].
  f_equal. rewrite (key_at_split pos 1) in E by lia.
  destruct (window (kv_key i) pos 1) as [|y l] eqn:Ew; [now pose proof (length_window (kv_key i) pos 1) as Hc; rewrite Ew in Hc|].
  injection E as -> _. assert (l = []) as ->.
  { pose proof (length_window (kv_key i) pos 1) as Hc. rewrite Ew, len_cons in Hc. destruct l; [done|]. rewrite len_cons in Hc. pose proof (len_nonneg l). lia. }
  assert (Hx : bit (kv_key i) pos = x). { unfold window in Ew. cbn in Ew. injection Ew as Ew. now rewrite Z.add_0_r in Ew. }
  rewrite <-Hx. unfold bit. change 1 with (Z.ones 1). rewrite Z.land_ones, Z.shiftr_div_pow2 by lia. now rewrite <-Z.testbit_spec' by lia.
Qed.

(** Where a batch that shares [p] splits on the next bit. *)
Lemma split_batch p pos items :
  batch pos items -> shares p pos items -> 0 <= pos -> pos + len p < K ->
  exists lo hi, items = lo ++ hi /\ splitBatchAt items (pos + len p) = Ok (len lo) /\
    shares (p ++ [false]) pos lo /\ shares (p ++ [true]) pos hi.
Proof.
  intros Hba Hs Hpos Hlt. pose proof (len_nonneg p). pose proof (batch_shares _ _ _ Hs Hba) as [Hf Ho]. set (q := pos + len p) in *.
  assert (Hnext : forall i, key_at q i = hd false (key_at q i) :: key_at (q + 1) i).
  { intros i. destruct (key_at q i) as [|x r] eqn:E; [pose proof (len_key_at q i) as Hl; rewrite E in Hl; unfold len in Hl; cbn [length] in Hl; lia|].
    cbn [hd]. f_equal. symmetry. exact (key_at_inv q [x] r i ltac:(lia) E). }
  destruct (search_split items (fun i => hd false (key_at q i))
    (fun h => match items !! Z.to_nat h with Some it => b ← keyBitAt (kv_key it) q; Ok (negb (b =? 0)) | None => Panic end)) as (m & E & Hm & Hlo & Hhi).
  - intros h i Hi. rewrite Nat2Z.id, Hi. rewrite (keyBitAt_ok i q _ _ (proj1 (Forall_lookup _ _) Hf h i Hi) ltac:(lia) (Hnext i)).
    cbn [mbind outcome_bind]. now destruct (hd false (key_at q i)).
  - intros a b x y Hab Hx Hy Hp. destruct (decide (a = b)) as [-> | Hne]; [congruence|].
    pose proof (sorted_lookup _ _ a b x y Ho ltac:(lia) Hx Hy) as Hord. cbn beta in Hord.
    rewrite (Hnext x), (Hnext y), Hp, !bits_uint_cons, !len_key_at in Hord by lia.
    pose proof (bits_uint_bound (key_at (q + 1) y)) as By. pose proof (bits_uint_bound (key_at (q + 1) x)) as Bx. rewrite len_key_at in By, Bx by lia.
    destruct (hd false (key_at q y)); [done|]. cbn [Z.b2z] in Hord. lia.
  - exists (take m items), (drop m items). rewrite take_drop. split; [done|]. split.
    + unfold splitBatchAt. rewrite E. f_equal. unfold len. rewrite length_take. lia.
    + assert (Hgo : forall l x, Forall (fun i => hd false (key_at q i) = x) l -> (forall i, i ∈ l -> i ∈ items) -> shares (p ++ [x]) pos l).
      { intros l x Hl Hsub. apply shares_intro; [lia|]. apply Forall_forall. intros i Hi. rewrite Forall_forall in Hl. rewrite <-(Hl i Hi).
        pose proof (proj1 (Forall_forall _ _) Hs i (Hsub i Hi)) as Hsi. cbn beta in Hsi. fold q in Hsi. rewrite Hsi, (Hnext i). cbn [hd].
        exists (key_at (q + 1) i). now rewrite <-app_assoc. }
      split; (eapply Hgo; [eassumption|]); intros i Hi; [eapply subseteq_take|eapply subseteq_drop]; exact Hi.
Qed.

(** ** What a batch writes *)

Fixpoint item_at (pos : Z) (items : list DictBulkKV) (k : key) : option (option value) :=
  match items with
  | [] => None
  | i :: rest => if decide (key_at pos i = k) then Some (item_value i) else item_at pos rest k
  end.

Definition overlay (pos : Z) (items : list DictBulkKV) (f : key -> option value) (k : key) : option value :=
  match item_at pos items k with Some o => o | None => f k end.

(** Every deletion finds its key. *)
Definition deletes_ok (pos : Z) (items : list DictBulkKV) (f : key -> option value) : bool :=
  forallb (fun i => present (kv_value i) || present (f (key_at pos i))) items.

(** The map with [fl] and [fr] on the two sides under [p]. *)
Definition under_fork (p : key) (fl fr : key -> option value) (k : key) : option value :=
  match strip p k with Some (x :: r) => (if x : bool then fr else fl) r | _ => None end.

Lemma item_at_shift p pos items k : shares p pos items -> item_at pos items (p ++ k) = item_at (pos + len p) items k.
Proof.
  induction items as [|i items IH]; intros Hs; cbn [item_at]; [done|]. apply Forall_cons in Hs as [Hi Hs]. rewrite IH by done. cbn beta in Hi. rewrite Hi.
  destruct (decide (key_at (pos + len p) i = k)) as [-> | Hne]; [now rewrite decide_True|]. rewrite decide_False; [done|].
  intros E. now apply app_inv_head in E.
Qed.

Lemma item_at_off p pos items k : shares p pos items -> strip p k = None -> item_at pos items k = None.
Proof.
  intros Hs Hk. induction items as [|i items IH]; cbn [item_at]; [done|]. apply Forall_cons in Hs as [Hi Hs]. rewrite IH by done.
  rewrite decide_False; [done|]. cbn beta in Hi. rewrite Hi. intros <-. now rewrite strip_app in Hk.
Qed.

Lemma item_at_app pos lo hi k : item_at pos (lo ++ hi) k = match item_at pos lo k with Some o => Some o | None => item_at pos hi k end.
Proof. induction lo as [|i lo IH]; cbn [item_at app]; [done|]. rewrite IH. now case_decide. Qed.

Lemma strip_snoc p x k : strip (p ++ [x]) k = match strip p k with Some (y :: r) => if eqb x y then Some r else None | _ => None end.
Proof. revert k. induction p as [|z p IH]; intros [|y k]; cbn; try done. destruct (eqb z y); [apply IH|done]. Qed.

Lemma item_at_strip p pos items k :
  shares p pos items -> item_at pos items k = match strip p k with Some r => item_at (pos + len p) items r | None => None end.
Proof.
  intros Hs. destruct (strip p k) as [r |] eqn:E; [|now apply (item_at_off p)]. apply strip_Some in E as ->. now apply item_at_shift.
Qed.

Lemma under_fork_at p fl fr x k : under_fork p fl fr (p ++ x :: k) = (if x then fr else fl) k.
Proof. unfold under_fork. now rewrite strip_app. Qed.

Section overlay.
  Context (p : key) (pos : Z) (lo hi : list DictBulkKV) (f fl fr : key -> option value).
  Context (Hlo : shares (p ++ [false]) pos lo) (Hhi : shares (p ++ [true]) pos hi) (Hf : forall k, f k = under_fork p fl fr k).

Lemma overlay_split k :
  overlay pos (lo ++ hi) f k = under_fork p (overlay (pos + len p + 1) lo fl) (overlay (pos + len p + 1) hi fr) k.
Proof using Hlo Hhi Hf.
  unfold overlay at 1. rewrite item_at_app, (item_at_strip _ _ _ _ Hlo), (item_at_strip _ _ _ _ Hhi), !strip_snoc, Hf. unfold under_fork.
  rewrite !len_app. change (len [false]) with 1. change (len [true]) with 1. rewrite !Z.add_assoc.
  destruct (strip p k) as [[|x r] |]; try done. unfold overlay. destruct x; cbn [eqb]; [done|]. now destruct (item_at _ lo r).
Qed.

Lemma deletes_side x items g :
  shares (p ++ [x]) pos items -> (forall k, f (p ++ x :: k) = g k) -> deletes_ok pos items f = deletes_ok (pos + len p + 1) items g.
Proof using.
  clear Hlo Hhi Hf. intros Hs Hg. unfold deletes_ok. induction items as [|i items IH]; cbn [forallb]; [done|]. apply Forall_cons in Hs as [Hi Hs]. rewrite IH by done.
  cbn beta in Hi. rewrite Hi, len_app, <-app_assoc. cbn [app]. rewrite Hg. change (len [x]) with 1. now rewrite Z.add_assoc.
Qed.

Lemma deletes_split :
  deletes_ok pos (lo ++ hi) f = deletes_ok (pos + len p + 1) lo fl && deletes_ok (pos + len p + 1) hi fr.
Proof using Hlo Hhi Hf.
  unfold deletes_ok at 1. rewrite forallb_app. f_equal.
  - apply (deletes_side false); [done|]. intros k. now rewrite Hf, under_fork_at.
  - apply (deletes_side true); [done|]. intros k. now rewrite Hf, under_fork_at.
Qed.

End overlay.

Lemma overlay_nil pos f k : overlay pos [] f k = f k.
Proof. done. Qed.

Lemma under_fork_ext p fl fl' fr fr' k :
  (forall k, fl k = fl' k) -> (forall k, fr k = fr' k) -> under_fork p fl fr k = under_fork p fl' fr' k.
Proof. intros Hl Hr. unfold under_fork. destruct (strip p k) as [[|[] r] |]; auto. Qed.

Lemma tfind_Fork l a b k : tfind (V := value) (Fork l a b) k = under_fork l (tfind a) (tfind b) k.
Proof. unfold under_fork. cbn [tfind]. destruct (strip l k) as [[|[] r] |]; done. Qed.

End batch.

(** ** The tree of a sorted batch *)

Section build.
  Context (enc : Z -> list bool -> list bool -> Prop) `{Hform : !LabelForm enc} (K : Z) (HK : 0 <= K /\ 0 <= room K).

(** What an optional subtree over [n] bits stands for. *)
Definition holds (n : Z) (o : option Cell) (f : key -> option value) : Prop :=
  match o with
  | Some c => exists t, rep enc K n c t /\ forall k, tfind t k = f k
  | None => forall k, f k = None
  end.

Definition none (k : key) : option value := None.

Lemma storeLeaf_ok b lbl n :
  wf b -> fits K (builder_value b) -> swf lbl -> len (sbits lbl) = n -> n <= K ->
  exists c, storeLeaf lbl (Some b) n = Ok (Some c) /\ rep enc K n c (Leaf (sbits lbl) (builder_value b)).
Proof using HK Hform.
  intros Hb Hf Hs Hl Hn. destruct (storeSetLeaf_ok enc K HK (mkSetValue (Some b) None) (builder_value b) lbl n) as (c & E & Hr); try done; eauto.
  exists b. split; [|done]. now split.
Qed.

Lemma key_len pos : 0 <= pos <= K -> u64 (K - pos) = K - pos.
Proof using HK. intros H. pose proof (K_bounds K HK). apply u64_small. lia. Qed.

Lemma whole_key i pos :
  item_fits K i -> 0 <= pos <= K ->
  swf (key_view K (kv_key i) (u16 pos) (u16 K)) /\ sbits (key_view K (kv_key i) (u16 pos) (u16 K)) = key_at K pos i.
Proof using HK.
  intros Hi Hpos. destruct (key_view_ok K i pos K Hi) as [Hs E]; [lia|lia|apply (K_bounds K HK)|]. split; [done|].
  rewrite E, take_ge; [done|]. pose proof (len_key_at K pos i). unfold len in *. lia.
Qed.

Lemma key_prefix p pos i :
  item_fits K i -> key_at K pos i = p ++ key_at K (pos + len p) i -> 0 <= pos -> pos + len p <= K ->
  swf (key_view K (kv_key i) (u16 pos) (u16 (pos + len p))) /\ sbits (key_view K (kv_key i) (u16 pos) (u16 (pos + len p))) = p.
Proof using HK.
  intros Hi E Hpos Hle. pose proof (len_nonneg p). destruct (key_view_ok K i pos (pos + len p) Hi) as [Hs Es]; [lia|lia|apply (K_bounds K HK)|]. split; [done|].
  rewrite Es, E. apply take_app_length'. unfold len. lia.
Qed.

Lemma single_item pos i v k : kv_value i = Some v -> tfind (Leaf (key_at K pos i) (builder_value v)) k = overlay K pos [i] none k.
Proof using.
  intros Hv. unfold overlay. cbn [item_at tfind]. unfold item_value. rewrite Hv. cbn. now destruct (decide (key_at K pos i = k)).
Qed.

Lemma common_keys i j pos :
  item_fits K i -> item_fits K j -> 0 <= pos <= K ->
  commonSlicePrefix (key_view K (kv_key i) (u16 pos) (u16 K)) (key_view K (kv_key j) (u16 pos) (u16 K)) (K - pos) =
    Ok (lcp (key_at K pos i) (key_at K pos j)).
Proof using HK.
  intros Hi Hj Hpos. destruct (whole_key i pos Hi Hpos) as [Hs Es]. destruct (whole_key j pos Hj Hpos) as [Hsj Esj].
  pose proof (len_sbits _ Hs) as Li. pose proof (len_sbits _ Hsj) as Lj. rewrite Es, len_key_at in Li by lia. rewrite Esj, len_key_at in Lj by lia.
  rewrite commonSlicePrefix_run by (done || lia). destruct (Z.ltb_spec (BitsLeft (key_view K (kv_key i) (u16 pos) (u16 K))) (K - pos)); [lia|].
  rewrite Es, Esj, !take_ge; [done|pose proof (len_key_at K pos j); unfold len in *; lia|pose proof (len_key_at K pos i); unfold len in *; lia].
Qed.

Lemma build_one fuel i pos :
  batch K pos [i] -> is_Some (kv_value i) -> 0 <= pos <= K ->
  exists c, buildFromSorted fuel K [i] pos = Ok (Some c) /\ holds (K - pos) (Some c) (overlay K pos [i] none).
Proof using HK Hform.
  intros [Hf _] [v Ev] Hpos. pose proof (Forall_inv Hf) as Hfi. destruct (whole_key i pos Hfi Hpos) as [Hs Es]. destruct (if_value _ _ Hfi v Ev) as [Hw Hfit].
  pose proof (len_key_at K pos i). destruct (storeLeaf_ok v _ (K - pos) Hw Hfit Hs) as (c & E & Hr); [rewrite Es; lia|lia|].
  exists c. rewrite Es in Hr. split; [|exists (Leaf (key_at K pos i) (builder_value v)); split; [done|intros k; now apply single_item]].
  destruct fuel; cbn [buildFromSorted last]; now rewrite key_len, Ev.
Qed.

(** Both sides of a split of a batch of several keys hold items. *)
Lemma split_both pos i rest j :
  batch K pos (i :: rest) -> 0 <= pos <= K -> last rest = Some j ->
  exists p lo hi, i :: rest = lo ++ hi /\ lo <> [] /\ hi <> [] /\ pos + len p < K /\
    lcp (key_at K pos i) (key_at K pos j) = len p /\ shares K p pos (i :: rest) /\
    splitBatchAt (i :: rest) (pos + len p) = Ok (len lo) /\ shares K (p ++ [false]) pos lo /\ shares K (p ++ [true]) pos hi.
Proof using.
  clear HK. intros Hba Hpos Ej. destruct (batch_common K pos i rest j Hba Hpos Ej) as (p & a & b & Ea & Eb & El & Hsh).
  pose proof (f_equal len Ea) as Hl. rewrite len_key_at, len_app, len_cons in Hl by lia. pose proof (len_nonneg a).
  destruct (split_batch K p pos (i :: rest) Hba Hsh) as (lo & hi & E & Em & Hlo & Hhi); [lia|lia|]. exists p, lo, hi. split_and!; try done; try lia.
  - intros ->. cbn [app] in E. subst hi. apply Forall_inv in Hhi. cbn beta in Hhi. rewrite Ea, <-app_assoc in Hhi. now apply app_inv_head in Hhi.
  - intros ->. rewrite app_nil_r in E. subst lo. assert (Hj : j ∈ i :: rest) by (apply elem_of_cons; right; now apply last_Some_elem_of).
    pose proof (proj1 (Forall_forall _ _) Hlo j Hj) as Hc. cbn beta in Hc. rewrite Eb, <-app_assoc in Hc. now apply app_inv_head in Hc.
Qed.

(** A side of the split is a batch from the next bit on. *)
Lemma batch_side p x pos items : shares K (p ++ [x]) pos items -> batch K pos items -> batch K (pos + len p + 1) items.
Proof using. clear HK. intros Hs Hb. pose proof (batch_shares K _ _ _ Hs Hb) as H. rewrite len_app in H. now rewrite Z.add_assoc in H. Qed.

Lemma take_len {A} (lo hi : list A) : take (Z.to_nat (len lo)) (lo ++ hi) = lo.
Proof using. unfold len. rewrite Nat2Z.id. apply take_app_length. Qed.

Lemma drop_len {A} (lo hi : list A) : drop (Z.to_nat (len lo)) (lo ++ hi) = hi.
Proof using. unfold len. rewrite Nat2Z.id. apply drop_app_length. Qed.

Lemma overlay_fork p pos lo hi k :
  shares K (p ++ [false]) pos lo -> shares K (p ++ [true]) pos hi ->
  overlay K pos (lo ++ hi) none k = under_fork p (overlay K (pos + len p + 1) lo none) (overlay K (pos + len p + 1) hi none) k.
Proof using.
  intros Hlo Hhi. apply overlay_split; [done|done|]. intros k'. unfold under_fork. now destruct (strip p k') as [[|[] r] |].
Qed.

Lemma buildFromSorted_ok fuel items pos :
  items <> [] -> batch K pos items -> Forall (fun i => is_Some (kv_value i)) items -> 0 <= pos <= K -> K - pos <= Z.of_nat fuel ->
  exists c, buildFromSorted fuel K items pos = Ok (Some c) /\ holds (K - pos) (Some c) (overlay K pos items none).
Proof using HK Hform.
  revert items pos. induction fuel as [|fuel IH]; intros items pos Hne Hba Hv Hpos Hfuel; (destruct items as [|i rest]; [done|]);
    (destruct (last rest) as [j |] eqn:Ej; [|apply last_None in Ej as ->; apply build_one; [done|now inversion Hv|done]]);
    destruct (split_both pos i rest j Hba Hpos Ej) as (p & lo & hi & E & Nlo & Nhi & Hlt & El & Hsh & Em & Hlo & Hhi); pose proof (len_nonneg p); [lia|].
  pose proof Hba as [Hf _]. assert (Hfj : item_fits K j) by (rewrite Forall_forall in Hf; apply Hf, elem_of_cons; right; now apply last_Some_elem_of).
  pose proof (Forall_inv Hf) as Hfi. cbn [buildFromSorted]. rewrite Ej, key_len, common_keys, El by done. cbn [mbind outcome_bind]. rewrite Em. cbn [mbind outcome_bind].
  assert (Hchild : forall x items', items' <> [] -> batch K pos items' -> shares K (p ++ [x]) pos items' -> Forall (fun i => is_Some (kv_value i)) items' ->
    exists c, buildFromSorted fuel K items' (pos + len p + 1) = Ok (Some c) /\ holds (K - (pos + len p + 1)) (Some c) (overlay K (pos + len p + 1) items' none)).
  { intros x items' Hn' Hb' Hs' Hv'. apply IH; [done|now apply (batch_side p x)|done|lia|lia]. }
  rewrite E, take_len, drop_len in *. destruct (batch_app _ _ _ _ Hba) as [Hblo Hbhi]. apply Forall_app in Hv as [Hvlo Hvhi].
  destruct (Hchild false lo Nlo Hblo Hlo Hvlo) as (cl & -> & tl & Hrl & Htl). destruct (Hchild true hi Nhi Hbhi Hhi Hvhi) as (cr & -> & tr & Hrr & Htr).
  cbn [mbind outcome_bind]. assert (Esh : key_at K pos i = p ++ key_at K (pos + len p) i) by (rewrite <-E in Hsh; apply (Forall_inv Hsh)).
  destruct (key_prefix p pos i Hfi Esh) as [Hsw Hsb]; [lia|lia|].
  destruct (storeFork_ok enc K HK (key_view K (kv_key i) (u16 pos) (u16 (pos + len p))) (K - pos) cl cr tl tr Hsw) as (c & -> & Hr); rewrite ?Hsb; try lia;
    [now replace (K - pos - len p - 1) with (K - (pos + len p + 1)) by lia..|].
  exists c. split; [done|]. rewrite Hsb in Hr. exists (Fork p tl tr). split; [done|]. intros k. rewrite (overlay_fork p), tfind_Fork by done. now apply under_fork_ext.
Qed.

End build.
