(* ===== verification/DictMultisetSpec.v ===== *)
(** * What the batch update does

    [multisetNode] on a well-formed subtree and a sorted batch: the map with every
    write of the batch, or the missing-key error when a deletion finds no key. *)

From S2P Require Import Prelude Bytes CellModel Builder Finalize BuilderOps Slice SliceSpec CellHash SliceCompare CellTheorems DictLabel.
From S2P Require Import DictLabelTheorems DictTree DictNode DictNodeSpec Dict DictBulk DictSpec DictKeys DictTheorems DictBulkSort DictBulkSpec.
From stdpp Require Import list sets sorting strings.
#[local] Open Scope Z_scope.

(** ** Labels and batches *)

Lemma Slice_slice_ok s a n :
  swf s -> 0 <= a -> 0 <= n -> a + n <= BitsLeft s ->
  swf (Slice_slice s a n) /\ sbits (Slice_slice s a n) = take (Z.to_nat n) (drop (Z.to_nat a) (sbits s)).
Proof.
  intros Hs Ha Hn Hl. pose proof (BitsLeft_eq s Hs). destruct Hs as [H1 H2 H3 H4 H5 H6]. unfold Slice_slice.
  rewrite (u16_small a), (u16_small n), (u16_small (_ + a)), u16_small by lia. split.
  - split; unfold s_data in *; cbn [s_cell s_bitStart s_bitEnd s_refStart s_refEnd]; done || lia.
  - unfold sbits, s_data. cbn [s_cell s_bitStart s_bitEnd]. rewrite drop_window, take_window by lia. f_equal. lia.
Qed.

Lemma slice_prefix s p r : swf s -> sbits s = p ++ r -> swf (Slice_slice s 0 (len p)) /\ sbits (Slice_slice s 0 (len p)) = p.
Proof.
  intros Hs E. pose proof (len_sbits s Hs) as Hl. rewrite E, len_app in Hl. pose proof (len_nonneg p). pose proof (len_nonneg r).
  destruct (Slice_slice_ok s 0 (len p) Hs) as [Hw Hb]; [lia..|]. split; [done|]. rewrite Hb, E. cbn [drop]. apply take_app_length'. unfold len. lia.
Qed.

Lemma slice_rest s p x r m :
  swf s -> sbits s = p ++ x :: r -> m = len r -> swf (Slice_slice s (len p + 1) m) /\ sbits (Slice_slice s (len p + 1) m) = r.
Proof.
  intros Hs E ->. pose proof (len_sbits s Hs) as Hl. rewrite E, len_app, len_cons in Hl. pose proof (len_nonneg p). pose proof (len_nonneg r).
  destruct (Slice_slice_ok s (len p + 1) (len r) Hs) as [Hw Hb]; [lia..|]. split; [done|]. rewrite Hb, E, cons_middle, app_assoc, drop_app_length'.
  - apply take_ge. unfold len. lia.
  - rewrite length_app. cbn [length]. unfold len. lia.
Qed.

(** Two strings agree up to the longest common prefix. *)
Lemma lcp_cases (a b : list bool) :
  exists p, lcp a b = len p /\
    ((exists x a2 b2, a = p ++ negb x :: a2 /\ b = p ++ x :: b2) \/ (exists x b2, a = p /\ b = p ++ x :: b2) \/
     (exists x a2, a = p ++ x :: a2 /\ b = p) \/ (a = p /\ b = p)).
Proof.
  revert b. induction a as [|x a IH]; intros [|y b]; [exists []; eauto 10..|].
  cbn [lcp]. destruct (eqb x y) eqn:E.
  - apply eqb_prop in E as ->. destruct (IH b) as (p & -> & H). exists (y :: p). rewrite len_cons. split; [lia|].
    destruct H as [(x & a2 & b2 & -> & ->) | [(x & b2 & -> & ->) | [(x & a2 & -> & ->) | [-> ->]]]]; [left|right; left|do 2 right; left|do 3 right]; eauto.
  - exists []. split; [done|]. left. exists y, a, b. cbn. split; [|done]. f_equal. now destruct x, y.
Qed.

Section multiset.
  Context (enc : Z -> list bool -> list bool -> Prop) `{Hform : !LabelForm enc} (K : Z) (HK : 0 <= K /\ 0 <= room K).

(** The common prefix of the first and the last key of a batch. *)
Lemma batch_len pos i rest :
  batch K pos (i :: rest) -> 0 <= pos <= K ->
  exists b, (match last rest with
             | Some j => commonSlicePrefix (key_view K (kv_key i) (u16 pos) (u16 K)) (key_view K (kv_key j) (u16 pos) (u16 K)) (K - pos)
             | None => Ok (K - pos)
             end) = Ok (len b) /\ shares K b pos (i :: rest) /\ key_at K pos i = b ++ key_at K (pos + len b) i /\
    (if decide (rest = []) then len b = K - pos
     else pos + len b < K /\ exists lo hi, i :: rest = lo ++ hi /\ lo <> [] /\ hi <> [] /\ splitBatchAt (i :: rest) (pos + len b) = Ok (len lo) /\
       shares K (b ++ [false]) pos lo /\ shares K (b ++ [true]) pos hi).
Proof using HK.
  intros Hba Hpos. pose proof Hba as [Hf _]. destruct (last rest) as [j |] eqn:Ej.
  - destruct (split_both K pos i rest j Hba Hpos Ej) as (b & lo & hi & E & Nlo & Nhi & Hlt & El & Hsh & Em & Hlo & Hhi). exists b.
    rewrite common_keys, El; [|done|apply (Forall_inv Hf)|rewrite Forall_forall in Hf; apply Hf, elem_of_cons; right; now apply last_Some_elem_of|done].
    split; [done|]. split; [done|]. split; [apply (Forall_inv Hsh)|]. rewrite decide_False by (intros ->; done). split; [done|]. eauto 10.
  - apply last_None in Ej as ->. exists (key_at K pos i). pose proof (len_key_at K pos i ltac:(lia)) as Hl. rewrite Hl. split; [done|].
    replace (pos + (K - pos)) with K by lia. assert (He : key_at K K i = []).
    { unfold key_at. rewrite Z.sub_diag. apply window_0. }
    split; [|rewrite He, app_nil_r, decide_True by done; done]. constructor; [|done]. rewrite Hl. replace (pos + (K - pos)) with K by lia. now rewrite He, app_nil_r.
Qed.

Lemma multisetBuild_ok items pos :
  batch K pos items -> 0 <= pos <= K ->
  if deletes_ok K pos items none
  then exists o, multisetBuild K items pos = Ok o /\ holds enc K (K - pos) o (overlay K pos items none) /\ (items <> [] -> o <> None)
  else multisetBuild K items pos = Err ErrNoSuchKeyInDict.
Proof using HK Hform.
  intros Hba Hpos. unfold multisetBuild. destruct (decide (items = [])) as [-> | Hne]; [exists None; done|].
  destruct (Z.eqb_spec (len items) 0) as [E | _]; [unfold len in E; destruct items; [done|cbn in E; lia]|].
  assert (Hd : deletes_ok K pos items none = negb (existsb (fun i => match kv_value i with None => true | Some _ => false end) items)).
  { clear. unfold deletes_ok, none. induction items as [|i items IH]; cbn [forallb existsb]; [done|]. rewrite IH. now destruct (kv_value i). }
  rewrite Hd. destruct (existsb _ items) eqn:Ex; cbn [negb]; [done|].
  destruct (buildFromSorted_ok enc K HK (walk_fuel K) items pos Hne Hba) as (c & -> & Hc); [|done|unfold walk_fuel; lia|].
  - apply Forall_forall. intros i Hi. destruct (kv_value i) as [v |] eqn:Ev; [eauto|]. exfalso.
    enough (existsb (fun i => match kv_value i with None => true | Some _ => false end) items = true) by congruence.
    apply existsb_exists. exists i. rewrite Ev. split; [now apply list_elem_of_In|done].
  - exists (Some c). split_and!; [done|done|congruence].
Qed.

(** ** Two sides put together *)

Lemma join_one s co t p (x : bool) r n fl fr :
  swf s -> sbits s = p ++ r -> len p < n <= K -> rep enc K (n - len p - 1) co t ->
  (forall k, (if x then fr else fl) k = tfind t k) -> (forall k, (if x then fl else fr) k = None) ->
  exists c, joinMultisetChildren s (len p) (if x then None else Some co) (if x then Some co else None) n = Ok (Some c) /\
    holds enc K n (Some c) (under_fork p fl fr).
Proof using HK Hform.
  intros Hs E Hn Hr Hf Hnone. pose proof (len_nonneg p). pose proof (K_bounds K HK).
  destruct (rep_open enc K HK _ _ _ Hr ltac:(lia)) as (other & pbo & ro & [(eo & _ & _ & Hfit & Hoo) Hopen Hpo]).
  pose proof (payload_label _ _ _ _ _ _ Hpo) as Hlo. pose proof (payload_size _ _ HK _ _ _ _ Hpo). pose proof (payload_refs _ _ _ _ _ _ Hpo).
  pose proof (payload_relabel _ _ _ _ _ _ (p ++ x :: label t) Hpo) as Hp. rewrite len_app, len_cons in Hp.
  replace (n - len p - 1 - len (label t) + (len p + (len (label t) + 1))) with n in Hp by lia. pose proof (len_nonneg pbo). pose proof (len_nonneg eo).
  destruct (slice_prefix s p r Hs E) as [Hsw Hsb]. pose proof (op_lbits _ _ _ _ _ _ _ Hoo) as Hlb.
  destruct (merged_edge_builds (Slice_slice s 0 (len p)) x (n_label other) Hsw) as (b1 & l1 & b2 & b3 & l3 & R1 & R2 & R3 & Hb);
    [apply Hoo|rewrite Hsb, Hlb; lia|].
  destruct (builderSliceView_ok _ _ _ Hb) as (v & Hv & Hvs & Hvb). rewrite Hsb, Hlb in *.
  assert (Hjoin : joinMultisetChildren s (len p) (if x then None else Some co) (if x then Some co else None) n
                  = Ok (Some (finished (label_bits n (p ++ x :: label t) ++ pbo) ro))).
  { unfold joinMultisetChildren. rewrite (u64_small (n - len p - 1)) by lia.
    assert (Hw : storeDictNodeTraced v (of_bits pbo ro) n = Ok (finished (label_bits n (p ++ x :: label t) ++ pbo) ro)).
    { rewrite (write_node _ _ HK _ _ _ _ v _ Hp); [now destruct t|lia|done|now destruct t|apply builds_of_bits; lia]. }
    assert (Hpl : ToBuilder (n_loader other) = Ok (of_bits pbo ro)).
    { rewrite ToBuilder_run by apply Hoo. now rewrite (op_bits _ _ _ _ _ _ _ Hoo), (op_refs _ _ _ _ _ _ _ Hoo). }
    destruct x; rewrite Hopen; cbn [mbind outcome_bind]; rewrite (run_Ok _ _ _ _ R1); cbn [mbind outcome_bind]; cbn [Z.b2z] in R2;
      rewrite (run_Ok _ _ _ _ R2); cbn [mbind outcome_bind]; rewrite (op_len _ _ _ _ _ _ _ Hoo), (run_Ok _ _ _ _ R3); cbn [mbind outcome_bind];
      rewrite Hpl; cbn [mbind outcome_bind]; rewrite Hv; cbn [mbind outcome_bind]; now rewrite Hw. }
  eexists. split; [exact Hjoin|]. exists (relabel (p ++ x :: label t) t). split.
  - pose proof (rep_built _ _ HK _ _ _ _ Hp ltac:(lia)) as Hb'. now replace (label (relabel (p ++ x :: label t) t)) with (p ++ x :: label t) in Hb' by now destruct t.
  - intros k. rewrite tfind_merged. unfold under_fork. destruct (strip p k) as [[|z q] |]; try done. destruct x, z; cbn [eqb] in *; symmetry; auto.
Qed.

Lemma join_ok s p r n ol or fl fr :
  swf s -> sbits s = p ++ r -> len p < n <= K -> holds enc K (n - len p - 1) ol fl -> holds enc K (n - len p - 1) or fr ->
  exists o, joinMultisetChildren s (len p) ol or n = Ok o /\ holds enc K n o (under_fork p fl fr).
Proof using HK Hform.
  intros Hs E Hn Hl Hr. destruct ol as [cl |], or as [cr |]; cbn [holds] in Hl, Hr.
  - destruct Hl as (tl & Hrl & Htl). destruct Hr as (tr & Hrr & Htr). destruct (slice_prefix s p r Hs E) as [Hsw Hsb]. cbn [joinMultisetChildren].
    destruct (storeFork_ok enc K HK (Slice_slice s 0 (len p)) n cl cr tl tr Hsw) as (c & -> & Hc); rewrite ?Hsb; [lia|lia|done|done|].
    rewrite Hsb in Hc. eexists. split; [done|]. exists (Fork p tl tr). split; [done|]. intros k. rewrite tfind_Fork. now apply under_fork_ext.
  - destruct Hl as (t & Hrl & Htl). destruct (join_one s cl t p false r n fl fr) as (c & Hj & Hc); try done; eauto.
  - destruct Hr as (t & Hrr & Htr). destruct (join_one s cr t p true r n fl fr) as (c & Hj & Hc); try done; eauto.
  - exists None. split; [done|]. intros k. unfold under_fork. destruct (strip p k) as [[|[] q] |]; auto.
Qed.

(** ** One side of a fork *)

Lemma overlay_one p pos (x : bool) items f fl fr :
  shares K (p ++ [x]) pos items -> (forall k, f k = under_fork p fl fr k) ->
  let P := pos + len p + 1 in
  (forall k, overlay K pos items f k = under_fork p (if x then fl else overlay K P items fl) (if x then overlay K P items fr else fr) k) /\
  deletes_ok K pos items f = deletes_ok K P items (if x then fr else fl).
Proof using.
  clear HK. intros Hs Hf P. assert (Hn : forall y, shares K (p ++ [y]) pos []) by (intros; constructor). destruct x.
  - split; [exact (overlay_split K p pos [] items f fl fr (Hn _) Hs Hf)|exact (deletes_split K p pos [] items f fl fr (Hn _) Hs Hf)].
  - pose proof (overlay_split K p pos items [] f fl fr Hs (Hn _) Hf) as Ho. pose proof (deletes_split K p pos items [] f fl fr Hs (Hn _) Hf) as Hd.
    rewrite app_nil_r in Ho, Hd. split; [exact Ho|]. rewrite Hd. apply andb_true_r.
Qed.

Lemma find_deeper p (y : bool) l2 (t : ptree (V := value)) k :
  tfind (relabel (p ++ y :: l2) t) k =
    under_fork p (if y then none else tfind (relabel l2 t)) (if y then tfind (relabel l2 t) else none) k.
Proof using.
  clear HK. replace (relabel (p ++ y :: l2) t) with (relabel (p ++ y :: label (relabel l2 t)) (relabel l2 t)) by now destruct t.
  rewrite tfind_merged. unfold under_fork. destruct (strip p k) as [[|z r] |]; try done. now destruct y, z.
Qed.

(** ** Nodes *)

(** A node whose first [skip] bits of label are consumed; [s] reads the rest. *)
Record at_node (pos skip : Z) (c : Cell) (t : ptree) (node : fixedDictNode) (pb : list bool) (refs : list Cell) (s : Slice) : Prop := {
  an_rep : rep enc K (K - pos + skip) c t;
  an_open : opened enc K (K - pos + skip) c t node pb refs;
  an_pos : 0 <= skip <= pos /\ pos <= K;
  an_swf : swf s;
  an_bits : label t = take (Z.to_nat skip) (label t) ++ sbits s;
  an_skip : skip <= len (label t)
}.

Definition updated (pos : Z) (items : list DictBulkKV) (f : key -> option value) (c : Cell) (r : outcome (option Cell * bool)) : Prop :=
  if deletes_ok K pos items f
  then exists o same, r = Ok (o, same) /\ holds enc K (K - pos) o (overlay K pos items f) /\
         (same = true -> o = Some c /\ forall k, overlay K pos items f k = f k)
  else r = Err ErrNoSuchKeyInDict.

Lemma an_len pos skip c t node pb refs s : at_node pos skip c t node pb refs s -> len (label t) = skip + len (sbits s).
Proof using.
  clear HK. intros [_ _ Hp _ E Hk]. apply (f_equal len) in E. rewrite len_app in E. unfold len in *. rewrite length_take in E. lia.
Qed.

Lemma an_room pos skip c t node pb refs s : at_node pos skip c t node pb refs s -> len (sbits s) <= K - pos.
Proof using.
  clear HK. intros H. pose proof (an_len _ _ _ _ _ _ _ _ H). pose proof (payload_label _ _ _ _ _ _ (od_payload _ _ _ _ _ _ _ _ (an_open _ _ _ _ _ _ _ _ H))). lia.
Qed.

(** The rest of the node, under any shorter label. *)
Lemma an_payload pos skip c t node pb refs s l :
  at_node pos skip c t node pb refs s -> payload enc K (K - pos - len (sbits s) + len l) (relabel l t) pb refs.
Proof using.
  clear HK. intros H. pose proof (an_len _ _ _ _ _ _ _ _ H). pose proof (payload_relabel _ _ _ _ _ _ l (od_payload _ _ _ _ _ _ _ _ (an_open _ _ _ _ _ _ _ _ H))) as Hp.
  now replace (K - pos + skip - len (label t) + len l) with (K - pos - len (sbits s) + len l) in Hp by lia.
Qed.

Lemma an_builder pos skip c t node pb refs s :
  at_node pos skip c t node pb refs s -> ToBuilder (n_loader node) = Ok (of_bits pb refs) /\ builds (of_bits pb refs) pb refs.
Proof using HK.
  intros [_ [(e & _ & _ & Hfit & Ho) _ Hp] _ _ _ _]. rewrite ToBuilder_run by apply Ho. rewrite (op_bits _ _ _ _ _ _ _ Ho), (op_refs _ _ _ _ _ _ _ Ho).
  split; [done|]. pose proof (len_nonneg e). apply builds_of_bits; [lia|eapply payload_refs, Hp].
Qed.

Lemma an_reuse pos skip c t node pb refs s :
  at_node pos skip c t node pb refs s -> exists b, canReuseMultisetNode node (K - pos) skip = Ok b /\ (b = true -> skip = 0).
Proof using.
  clear HK. intros [_ [(e & -> & _ & Hfit & Ho) _ _] _ _ _ _]. unfold canReuseMultisetNode. destruct (Z.eqb_spec skip 0) as [-> |]; cbn [negb]; [|now eexists].
  rewrite Z.add_0_r in Ho. rewrite (hasCanonicalLabel_ok _ _ _ _ _ _ Ho Hfit). eauto.
Qed.

(** With nothing skipped the cell stands for the node itself. *)
Lemma an_same pos c t node pb refs s :
  at_node pos 0 c t node pb refs s -> rep enc K (K - pos) c t /\ relabel (sbits s) t = t.
Proof using. clear HK. intros [Hr _ _ _ E _]. rewrite Z.add_0_r in Hr. split; [done|]. change (label t = sbits s) in E. rewrite <-E. now destruct t. Qed.

(** ** The cases of a node *)

Section node.
  Context (pos skip : Z) (c : Cell) (t : ptree (V := value)) (node : fixedDictNode) (pb : list bool) (refs : list Cell) (s : Slice).
  Context (Hat : at_node pos skip c t node pb refs s) (i : DictBulkKV) (rest : list DictBulkKV) (Hba : batch K pos (i :: rest)).
  Abbreviation items := (i :: rest).
  Abbreviation f := (tfind (relabel (sbits s) t)).

Lemma first_bit p x r : key_at K pos i = p ++ x :: r -> keyBitAt (kv_key i) (pos + len p) = Ok (Z.b2z x).
Proof using Hat Hba.
  intros E. destruct (an_pos _ _ _ _ _ _ _ _ Hat) as [? ?]. pose proof (len_nonneg p).
  eapply (keyBitAt_ok K); [apply (Forall_inv (ba_fits _ _ _ Hba))|lia|]. apply (key_at_inv K pos p); [lia|exact E].
Qed.

(** The batch leaves the label: the old node moves down, the batch builds its own side. *)
Lemma case_leave p x l2 r :
  sbits s = p ++ negb x :: l2 -> key_at K pos i = p ++ x :: r -> shares K (p ++ [x]) pos items -> pos + len p < K ->
  updated pos items f c
    (payload ← ToBuilder (n_loader node);
     oldSide ← storeDictNodeTraced (Slice_slice s (len p + 1) (u64 (len (sbits s) - len p - 1))) payload (u64 (K - pos - len p - 1));
     newSide ← multisetBuild K items (pos + len p + 1);
     bit ← keyBitAt (kv_key i) (pos + len p);
     let left := if bit =? 0 then newSide else Some oldSide in
     let right := if bit =? 0 then Some oldSide else newSide in
     c ← storeFork (Slice_slice s 0 (len p)) left right (K - pos);
     Ok (Some c, false)).
Proof using HK Hform Hat Hba.
  intros El Ek Hs Hlt. destruct (an_pos _ _ _ _ _ _ _ _ Hat) as [Hpos1 Hpos2]. pose proof (an_swf _ _ _ _ _ _ _ _ Hat) as Hsw. pose proof (len_nonneg p).
  pose proof (len_nonneg l2). pose proof (K_bounds K HK). destruct (an_builder _ _ _ _ _ _ _ _ Hat) as [-> Hb]. cbn [mbind outcome_bind].
  pose proof (f_equal len El) as Hll. rewrite len_app, len_cons in Hll. pose proof (an_payload _ _ _ _ _ _ _ _ l2 Hat) as Hp.
  replace (K - pos - len (sbits s) + len l2) with (K - pos - len p - 1) in Hp by lia. pose proof (an_room _ _ _ _ _ _ _ _ Hat). rewrite !u64_small by lia.
  destruct (slice_rest s p (negb x) l2 (len (sbits s) - len p - 1) Hsw El) as [Hw Hwb]; [lia|].
  rewrite (write_node _ _ HK _ _ _ _ _ _ Hp); [|lia|done|rewrite Hwb; now destruct t|done]. cbn [mbind outcome_bind].
  pose proof (rep_built _ _ HK _ _ _ _ Hp ltac:(lia)) as Hold. set (old := finished _ _) in *.
  pose proof (find_deeper p (negb x) l2 t) as Hfd. rewrite <-El in Hfd. destruct (overlay_one p pos x items f _ _ Hs Hfd) as [Ho Hd]. unfold updated. rewrite Hd.
  replace (if x then if negb x then tfind (relabel l2 t) else none else if negb x then none else tfind (relabel l2 t)) with none by now destruct x.
  pose proof (multisetBuild_ok items (pos + len p + 1)) as Hn. specialize (Hn ltac:(now apply (batch_side K p x)) ltac:(lia)).
  destruct (deletes_ok K (pos + len p + 1) items none); [|now rewrite Hn]. destruct Hn as (o & -> & Hh & Hne). cbn [mbind outcome_bind].
  destruct o as [new |]; [|now destruct Hne]. destruct Hh as (tn & Hrn & Htn). rewrite (first_bit p x r Ek). cbn [mbind outcome_bind].
  destruct (slice_prefix s p (negb x :: l2) Hsw El) as [Hpw Hpb]. replace (K - (pos + len p + 1)) with (K - pos - len p - 1) in Hrn by lia.
  destruct (storeFork_ok enc K HK (Slice_slice s 0 (len p)) (K - pos) (if x then old else new) (if x then new else old)
    (if x then relabel l2 t else tn) (if x then tn else relabel l2 t) Hpw) as (c' & Ec & Hc); rewrite ?Hpb; [lia|lia|now destruct x..|].
  exists (Some c'), false. split; [destruct x; cbn [Z.b2z Z.eqb]; now rewrite Ec|]. split; [|done]. rewrite Hpb in Hc. eexists. split; [exact Hc|].
  intros k. rewrite Ho, tfind_Fork. destruct x; cbn [negb]; now apply under_fork_ext.
Qed.

(** The two sides of a fork, put together unless neither changed. *)
Lemma finish_fork p l a b (same : bool) ol or fl fr :
  t = Fork l a b -> sbits s = p -> pos + len p < K -> holds enc K (K - (pos + len p + 1)) ol fl -> holds enc K (K - (pos + len p + 1)) or fr ->
  (forall k, overlay K pos items f k = under_fork p fl fr k) ->
  (same = true -> (forall k, fl k = tfind a k) /\ (forall k, fr k = tfind b k)) ->
  exists o same',
    (reuse ← (if same : bool then canReuseMultisetNode node (K - pos) skip else Ok false);
     if reuse : bool then Ok (Some c, true)
     else c ← joinMultisetChildren s (len p) ol or (K - pos); Ok (c, false)) = Ok (o, same') /\
    holds enc K (K - pos) o (overlay K pos items f) /\ (same' = true -> o = Some c /\ forall k, overlay K pos items f k = f k).
Proof using HK Hform Hat.
  intros Et El Hlt Hl Hr Ho Hsame. destruct (an_pos _ _ _ _ _ _ _ _ Hat) as [? ?].
  assert (Hreuse : exists reuse, (if same : bool then canReuseMultisetNode node (K - pos) skip else Ok false) = Ok reuse /\
    (reuse = true -> same = true /\ skip = 0)).
  { destruct same; [|now exists false]. destruct (an_reuse _ _ _ _ _ _ _ _ Hat) as (x & -> & Hx). exists x. split; [done|]. eauto. }
  destruct Hreuse as (reuse & -> & Hreuse). cbn [mbind outcome_bind]. destruct reuse.
  - destruct (Hreuse eq_refl) as [Hs ->]. destruct (Hsame Hs) as [Hfl Hfr]. destruct (an_same _ _ _ _ _ _ _ Hat) as [Hrep Hre].
    assert (Hov : forall k, overlay K pos items f k = f k).
    { intros k. rewrite Ho, Et. cbn [relabel]. rewrite El, tfind_Fork. now apply under_fork_ext. }
    exists (Some c), true. split; [done|]. split; [|done]. exists t. split; [done|]. intros k. now rewrite Hov, Hre.
  - replace (K - (pos + len p + 1)) with (K - pos - len p - 1) in Hl, Hr by lia. pose proof (len_nonneg p).
    destruct (join_ok s p [] (K - pos) ol or fl fr) as (o & -> & Hh); [apply Hat|now rewrite app_nil_r|lia|done|done|].
    exists o, false. split; [done|]. split; [|done]. destruct o as [c' |]; cbn [holds] in *; [|intros k; now rewrite Ho].
    destruct Hh as (t' & Hrt & Ht'). exists t'. split; [done|]. intros k. now rewrite Ho.
Qed.

(** The children of a fork whose label is used up. *)
Lemma fork_sides p l a b x :
  t = Fork l a b -> sbits s = p ->
  exists cx cy, node_ref node (Z.b2z x) = Ok cx /\ node_ref node (Z.b2z (negb x)) = Ok cy /\
    rep enc K (K - (pos + len p + 1)) cx (child x a b) /\ rep enc K (K - (pos + len p + 1)) cy (child (negb x) a b).
Proof using HK Hat.
  intros Et El. pose proof (an_len _ _ _ _ _ _ _ _ Hat) as Hl. pose proof (an_open _ _ _ _ _ _ _ _ Hat) as Ho. rewrite Et in *. cbn [label] in Hl. rewrite El in Hl.
  destruct (fork_child enc K HK _ _ _ _ _ _ _ _ x Ho) as (cx & cy & Hx & Hy & _ & Hrx & Hry).
  replace (K - pos + skip - len l - 1) with (K - (pos + len p + 1)) in Hrx, Hry by lia. eauto 10.
Qed.

Lemma case_descend p x r l a b next :
  t = Fork l a b -> sbits s = p -> key_at K pos i = p ++ x :: r -> shares K (p ++ [x]) pos items -> pos + len p < K ->
  (forall c' t', rep enc K (K - (pos + len p + 1)) c' t' -> updated (pos + len p + 1) items (tfind t') c' (next c')) ->
  updated pos items f c
    (descend ← keyBitAt (kv_key i) (pos + len p);
     kept ← node_ref node (Z.lxor descend 1);
     target ← node_ref node descend;
     '(updated, same) ← next target;
     reuse ← (if same : bool then canReuseMultisetNode node (K - pos) skip else Ok false);
     if reuse : bool then Ok (Some c, true)
     else
       let left := if descend =? 0 then updated else Some kept in
       let right := if descend =? 0 then Some kept else updated in
       c ← joinMultisetChildren s (len p) left right (K - pos);
       Ok (c, false)).
Proof using HK Hform Hat Hba.
  intros Et El Ek Hs Hlt Hnext. rewrite (first_bit p x r Ek). cbn [mbind outcome_bind]. destruct (fork_sides p l a b x Et El) as (cx & cy & Hx & Hy & Hrx & Hry).
  replace (Z.lxor (Z.b2z x) 1) with (Z.b2z (negb x)) by now destruct x. rewrite Hy. cbn [mbind outcome_bind]. rewrite Hx. cbn [mbind outcome_bind].
  assert (Hf : forall k, f k = under_fork p (tfind a) (tfind b) k) by (intros k; rewrite Et; cbn [relabel]; rewrite El; apply tfind_Fork).
  destruct (overlay_one p pos x items f _ _ Hs Hf) as [Ho Hd]. specialize (Hnext cx _ Hrx). unfold updated in *. rewrite Hd.
  replace (if x then tfind b else tfind a) with (tfind (child x a b)) by now destruct x.
  destruct (deletes_ok K (pos + len p + 1) items (tfind (child x a b))); [|now rewrite Hnext]. destruct Hnext as (o & same & -> & Hh & Hsame).
  cbn [mbind outcome_bind]. assert (Hother : holds enc K (K - (pos + len p + 1)) (Some cy) (tfind (child (negb x) a b))) by (eexists; eauto).
  destruct x; cbn [child negb Z.b2z Z.eqb] in *.
  - apply (finish_fork p l a b same (Some cy) o (tfind a) (overlay K (pos + len p + 1) items (tfind b))); try done. intros E. now destruct (Hsame E).
  - apply (finish_fork p l a b same o (Some cy) (overlay K (pos + len p + 1) items (tfind a)) (tfind b)); try done. intros E. now destruct (Hsame E).
Qed.

(** The batch continues on both sides of a bit of the label. *)
Lemma case_push p y l2 lo hi next :
  sbits s = p ++ y :: l2 -> items = lo ++ hi -> lo <> [] -> hi <> [] -> pos + len p < K -> splitBatchAt items (pos + len p) = Ok (len lo) ->
  shares K (p ++ [false]) pos lo -> shares K (p ++ [true]) pos hi ->
  (forall own, own <> [] -> batch K (pos + len p + 1) own -> updated (pos + len p + 1) own (tfind (relabel l2 t)) c (next own)) ->
  updated pos items f c
    ('(side, _) ← run (BitAt (len p)) s;
     mid ← splitBatchAt items (pos + len p);
     let lo := take (Z.to_nat mid) items in
     let hi := drop (Z.to_nat mid) items in
     let own := if negb (side =? 0) then hi else lo in
     let fresh := if negb (side =? 0) then lo else hi in
     '(moved, _) ← next own;
     built ← multisetBuild K fresh (pos + len p + 1);
     let left := if negb (side =? 0) then built else moved in
     let right := if negb (side =? 0) then moved else built in
     c ← joinMultisetChildren s (len p) left right (K - pos);
     Ok (c, false)).
Proof using HK Hform Hat Hba.
  intros El Ei Nlo Nhi Hlt Em Hlo Hhi Hnext. pose proof (an_swf _ _ _ _ _ _ _ _ Hat) as Hsw. destruct (an_pos _ _ _ _ _ _ _ _ Hat) as [? ?]. pose proof (len_nonneg p).
  assert (Hbit : BitAt (len p) s = (Ok (Z.b2z y), s)).
  { pose proof (len_sbits s Hsw) as Hl. rewrite El, len_app, len_cons in Hl. pose proof (len_nonneg l2). rewrite BitAt_ok by (done || lia).
    rewrite El. unfold len. rewrite Nat2Z.id, nth_middle. done. }
  rewrite (run_Ok _ _ _ _ Hbit). cbn [mbind outcome_bind]. rewrite Em. cbn [mbind outcome_bind]. cbv zeta. pose proof Hba as Hb. rewrite Ei in Hb |- *. rewrite take_len, drop_len.
  apply batch_app in Hb as [Hblo Hbhi]. apply (batch_side K p false) in Hblo; [|done]. apply (batch_side K p true) in Hbhi; [|done].
  pose proof (find_deeper p y l2 t) as Hfd. rewrite <-El in Hfd. unfold updated. rewrite (deletes_split K p pos lo hi f _ _ Hlo Hhi Hfd).
  set (own := if y then hi else lo). set (fresh := if y then lo else hi).
  replace (if negb (Z.b2z y =? 0) then hi else lo) with own by now destruct y. replace (if negb (Z.b2z y =? 0) then lo else hi) with fresh by now destruct y.
  specialize (Hnext own ltac:(now destruct y) ltac:(now destruct y)). pose proof (multisetBuild_ok fresh (pos + len p + 1) ltac:(now destruct y) ltac:(lia)) as Hnew.
  replace (deletes_ok K (pos + len p + 1) lo _ && deletes_ok K (pos + len p + 1) hi _)
    with (deletes_ok K (pos + len p + 1) own (tfind (relabel l2 t)) && deletes_ok K (pos + len p + 1) fresh none) by (destruct y; [apply andb_comm|done]).
  unfold updated in Hnext. destruct (deletes_ok K (pos + len p + 1) own (tfind (relabel l2 t))); cbn [andb]; [|now rewrite Hnext].
  destruct Hnext as (om & same & -> & Hm & _). cbn [mbind outcome_bind].
  destruct (deletes_ok K (pos + len p + 1) fresh none); [|now rewrite Hnew]. destruct Hnew as (on & -> & Hn & _). cbn [mbind outcome_bind].
  replace (K - (pos + len p + 1)) with (K - pos - len p - 1) in Hm, Hn by lia.
  assert (Hj : exists o, joinMultisetChildren s (len p) (if y then on else om) (if y then om else on) (K - pos) = Ok o /\
    holds enc K (K - pos) o (overlay K pos (lo ++ hi) f)).
  { destruct (join_ok s p (y :: l2) (K - pos) (if y then on else om) (if y then om else on)
      (overlay K (pos + len p + 1) lo (if y then none else tfind (relabel l2 t))) (overlay K (pos + len p + 1) hi (if y then tfind (relabel l2 t) else none)))
      as (o & -> & Hh); [done|done|lia|now destruct y..|]. exists o. split; [done|]. destruct o as [c' |]; cbn [holds] in *.
    - destruct Hh as (t' & Hr & Ht). exists t'. split; [done|]. intros k. now rewrite (overlay_split K p pos lo hi f _ _ Hlo Hhi Hfd).
    - intros k. now rewrite (overlay_split K p pos lo hi f _ _ Hlo Hhi Hfd). }
  destruct Hj as (o & Ho & Hh). exists o, false. split; [|done]. destruct y; cbn [Z.b2z Z.eqb negb]; now rewrite Ho.
Qed.

(** The batch splits where the fork does. *)
Lemma case_both p l a b lo hi next :
  t = Fork l a b -> sbits s = p -> items = lo ++ hi -> pos + len p < K -> splitBatchAt items (pos + len p) = Ok (len lo) ->
  shares K (p ++ [false]) pos lo -> shares K (p ++ [true]) pos hi ->
  (forall c' t' items', rep enc K (K - (pos + len p + 1)) c' t' -> batch K (pos + len p + 1) items' ->
    updated (pos + len p + 1) items' (tfind t') c' (next c' items')) ->
  updated pos items f c
    (mid ← splitBatchAt items (pos + len p);
     leftRef ← node_ref node 0;
     rightRef ← node_ref node 1;
     '(l, sameL) ← next leftRef (take (Z.to_nat mid) items);
     '(r, sameR) ← next rightRef (drop (Z.to_nat mid) items);
     reuse ← (if sameL && sameR then canReuseMultisetNode node (K - pos) skip else Ok false);
     if reuse : bool then Ok (Some c, true)
     else
       c ← joinMultisetChildren s (len p) l r (K - pos);
       Ok (c, false)).
Proof using HK Hform Hat Hba.
  intros Et El Ei Hlt Em Hlo Hhi Hnext. rewrite Em. cbn [mbind outcome_bind].
  destruct (fork_sides p l a b false Et El) as (cl & cr & Hl & Hr & Hrl & Hrr). cbn [Z.b2z negb child] in *. rewrite Hl. cbn [mbind outcome_bind].
  rewrite Hr. cbn [mbind outcome_bind]. pose proof Hba as Hb. rewrite Ei in Hb. apply batch_app in Hb as [Hblo Hbhi].
  apply (batch_side K p false) in Hblo; [|done]. apply (batch_side K p true) in Hbhi; [|done].
  pose proof (Hnext _ _ _ Hrl Hblo) as Hnl. pose proof (Hnext _ _ _ Hrr Hbhi) as Hnr. unfold updated in *.
  assert (Hf : forall k, f k = under_fork p (tfind a) (tfind b) k) by (intros k; rewrite Et; cbn [relabel]; rewrite El; apply tfind_Fork).
  assert (Ho := fun k => overlay_split K p pos lo hi f _ _ Hlo Hhi Hf k). rewrite Ei, take_len, drop_len, (deletes_split K p pos lo hi f _ _ Hlo Hhi Hf). rewrite <-Ei in Ho |- *.
  destruct (deletes_ok K (pos + len p + 1) lo (tfind a)); cbn [andb]; [|now rewrite Hnl]. destruct Hnl as (ol & sl & -> & Hhl & Hsl). cbn [mbind outcome_bind].
  destruct (deletes_ok K (pos + len p + 1) hi (tfind b)); [|now rewrite Hnr]. destruct Hnr as (or & sr & -> & Hhr & Hsr). cbn [mbind outcome_bind].
  apply (finish_fork p l a b (sl && sr) ol or _ _ Et El Hlt Hhl Hhr Ho). intros [-> ->]%andb_true_iff. destruct (Hsl eq_refl), (Hsr eq_refl). done.
Qed.

(** A value that compares equal is the one stored. *)
Lemma zip_same (same_pointer : Cell -> Cell -> bool) l k :
  (forall a b, same_pointer a b = true -> a = b) -> (length k <= length l)%nat ->
  forallb (fun '(a, b) => same_pointer a b) (zip l k) = true -> take (length k) l = k.
Proof using.
  clear. intros Hsame. revert k. induction l as [|x l IH]; intros [|y k] Hl H; cbn in *; try done || lia.
  apply andb_true_iff in H as [Hx%Hsame H]. f_equal; [done|]. apply IH; [lia|done].
Qed.

Lemma unchanged_ok same_pointer l w v :
  (forall a b, same_pointer a b = true -> a = b) -> t = Leaf l w -> wf v ->
  exists un, multisetValueUnchanged same_pointer (n_loader node) v = Ok un /\ (un = true -> builder_value v = w).
Proof using HK Hat.
  intros Hsame Et Hw. destruct (an_open _ _ _ _ _ _ _ _ Hat) as [(e & _ & _ & _ & Ho) _ Hp]. rewrite Et in Hp. destruct Hp as (_ & _ & Hpb & Hrefs).
  pose proof (op_swf _ _ _ _ _ _ _ Ho) as Hs. unfold multisetValueUnchanged.
  destruct (negb (BitsLeft (n_loader node) =? b_bitsSz v) || negb (RefsNum (n_loader node) =? len (b_refs v))) eqn:E1; [now exists false|].
  apply orb_false_iff in E1 as [_ Er%negb_false_iff%Z.eqb_eq]. destruct (forallb _ _) eqn:Ez; cbn [negb]; [|now exists false].
  destruct (builderSliceView_ok v (bits v) (b_refs v)) as (view & -> & Hvw & Hvb); [done|]. cbn [mbind outcome_bind]. rewrite BitsEqual_run, Hvb by done.
  eexists. split; [done|]. intros Eb%bool_decide_eq_true. rewrite (op_bits _ _ _ _ _ _ _ Ho) in Eb. unfold builder_value. destruct w as [wb wr]. cbn [fst snd] in *. f_equal; [congruence|].
  rewrite <-Hrefs, <-(op_refs _ _ _ _ _ _ _ Ho). unfold srefs. pose proof (swf_refs _ Hs). pose proof (swf_rend _ Hs). rewrite RefsNum_eq in Er by done.
  replace (Z.to_nat (s_refEnd (n_loader node) - s_refStart (n_loader node))) with (length (b_refs v)) by (unfold len in Er; lia).
  symmetry. apply (zip_same same_pointer); [done| |done]. rewrite length_drop. unfold len in *. lia.
Qed.

(** One key, at its leaf. *)
Lemma case_leaf same_pointer l w :
  (forall a b, same_pointer a b = true -> a = b) -> t = Leaf l w -> rest = [] -> sbits s = key_at K pos i ->
  updated pos items f c
    (match kv_value i with
     | None => Ok (None, false)
     | Some value =>
         unchanged ← multisetValueUnchanged same_pointer (n_loader node) value;
         reuse ← (if unchanged : bool then canReuseMultisetNode node (K - pos) skip else Ok false);
         if reuse : bool then Ok (Some c, true)
         else
           c ← storeLeaf (Slice_slice s 0 (len (sbits s))) (Some value) (K - pos);
           Ok (c, false)
     end).
Proof using HK Hform Hat Hba.
  intros Hsame Et -> El. destruct (an_pos _ _ _ _ _ _ _ _ Hat) as [? ?]. pose proof (Forall_inv (ba_fits _ _ _ Hba)) as Hfi.
  assert (Hd : deletes_ok K pos [i] f = true).
  { unfold deletes_ok. cbn [forallb]. rewrite Et. cbn [relabel tfind]. rewrite El, decide_True by done. now rewrite orb_true_r. }
  assert (Hov : forall k, overlay K pos [i] f k = if decide (key_at K pos i = k) then item_value i else None).
  { intros k. unfold overlay. cbn [item_at]. destruct (decide (key_at K pos i = k)) as [| Hne]; [done|]. rewrite Et. cbn [relabel tfind]. now rewrite El, decide_False. }
  unfold updated. rewrite Hd. destruct (kv_value i) as [v |] eqn:Ev; [|exists None, false; split; [done|]; split; [|done]; intros k; rewrite Hov; unfold item_value; rewrite Ev; now case_decide].
  destruct (if_value _ _ Hfi v Ev) as [Hw Hfit]. destruct (unchanged_ok same_pointer l w v Hsame Et Hw) as (un & -> & Hun). cbn [mbind outcome_bind].
  assert (Eiv : item_value i = Some (builder_value v)) by (unfold item_value; now rewrite Ev).
  assert (Hreuse : exists reuse, (if un : bool then canReuseMultisetNode node (K - pos) skip else Ok false) = Ok reuse /\ (reuse = true -> un = true /\ skip = 0)).
  { destruct un; [|now exists false]. destruct (an_reuse _ _ _ _ _ _ _ _ Hat) as (x & -> & Hx). exists x. split; [done|]. eauto. }
  destruct Hreuse as (reuse & -> & Hreuse). cbn [mbind outcome_bind]. destruct reuse.
  - destruct (Hreuse eq_refl) as [Hu ->]. destruct (an_same _ _ _ _ _ _ _ Hat) as [Hrep Hre]. specialize (Hun Hu).
    assert (Hsm : forall k, overlay K pos [i] f k = f k).
    { intros k. rewrite Hov, Et. cbn [relabel tfind]. rewrite El, Eiv, Hun. done. }
    exists (Some c), true. split; [done|]. split; [|done]. exists t. split; [done|]. intros k. now rewrite Hsm, Hre.
  - destruct (slice_prefix s (sbits s) [] (an_swf _ _ _ _ _ _ _ _ Hat) ltac:(now rewrite app_nil_r)) as [Hpw Hpb].
    destruct (storeLeaf_ok enc K HK v (Slice_slice s 0 (len (sbits s))) (K - pos) Hw Hfit Hpw) as (c' & -> & Hr); [rewrite Hpb, El; apply len_key_at; lia|lia|].
    exists (Some c'), false. split; [done|]. split; [|done]. rewrite Hpb, El in Hr. eexists. split; [exact Hr|]. intros k. now rewrite Hov, Eiv.
Qed.

End node.

(** ** The walk *)

Context (same_pointer : Cell -> Cell -> bool) (Hsame : forall a b, same_pointer a b = true -> a = b).

Lemma fork_of_short pos skip c t node pb refs s p :
  at_node pos skip c t node pb refs s -> sbits s = p -> pos + len p < K -> exists l a b, t = Fork l a b.
Proof using.
  clear HK. intros H E Hlt. pose proof (an_len _ _ _ _ _ _ _ _ H) as Hl. pose proof (od_payload _ _ _ _ _ _ _ _ (an_open _ _ _ _ _ _ _ _ H)) as Hp.
  destruct t as [l w | l a b]; [|eauto]. destruct Hp as [Hll _]. cbn [label] in Hl. rewrite E in Hl. lia.
Qed.

Lemma leaf_of_long pos skip c t node pb refs s :
  at_node pos skip c t node pb refs s -> len (sbits s) = K - pos -> exists l w, t = Leaf l w.
Proof using.
  clear HK. intros H E. pose proof (an_len _ _ _ _ _ _ _ _ H) as Hl. pose proof (od_payload _ _ _ _ _ _ _ _ (an_open _ _ _ _ _ _ _ _ H)) as Hp.
  destruct t as [l w | l a b]; [eauto|]. destruct Hp as [Hll _]. cbn [label] in Hl. lia.
Qed.

(** Opening the node and skipping what is consumed. *)
Lemma locate pos sk c t :
  rep enc K (K - pos + sk) c t -> 0 <= sk <= pos -> pos <= K -> sk <= len (label t) ->
  exists node pb refs s, at_node pos sk c t node pb refs s /\ open_node c (K - pos + sk) None false = Ok node /\
    n_labelLen node = sk + len (sbits s) /\ (if 0 <? sk then run (SkipBits sk) (n_label node) else Ok (tt, n_label node)) = Ok (tt, s) /\
    sbits s = drop (Z.to_nat sk) (label t).
Proof using HK Hform.
  intros Hr Hs Hpos Hl. destruct (rep_open enc K HK _ _ _ Hr ltac:(lia)) as (node & pb & refs & Hod). pose proof Hod as [(e & _ & _ & _ & Ho) Hopen _].
  pose proof (op_lwf _ _ _ _ _ _ _ Ho) as Hw. pose proof (op_lbits _ _ _ _ _ _ _ Ho) as Hb. pose proof (len_sbits _ Hw) as HL. rewrite Hb in HL.
  assert (Hskip : exists s, (if 0 <? sk then run (SkipBits sk) (n_label node) else Ok (tt, n_label node)) = Ok (tt, s) /\ swf s /\ sbits s = drop (Z.to_nat sk) (label t)).
  { destruct (Z.ltb_spec 0 sk); [|exists (n_label node); rewrite Z2Nat.nonpos by lia; done].
    rewrite (run_Ok _ _ _ _ (SkipBits_ok (n_label node) sk Hw ltac:(lia))). eexists. split; [done|].
    rewrite <-(take_drop (Z.to_nat sk) (label t)) in Hb. destruct (skip_rest _ _ _ Hw Hb) as [Hsw Hsb].
    replace (len (take (Z.to_nat sk) (label t))) with sk in Hsw, Hsb by (unfold len in *; rewrite length_take; lia). done. }
  destruct Hskip as (s & Hrun & Hsw & Hsb). exists node, pb, refs, s.
  assert (Hat : at_node pos sk c t node pb refs s). { split; try done. now rewrite Hsb, take_drop. }
  split_and!; try done. rewrite <-(an_len _ _ _ _ _ _ _ _ Hat). apply Ho.
Qed.

(** How far the label and the batch agree. *)
Lemma matched_ok s i pos b :
  swf s -> item_fits K i -> 0 <= pos <= K -> key_at K pos i = b ++ key_at K (pos + len b) i -> len (sbits s) <= K - pos ->
  let limit := Z.min (len (sbits s)) (len b) in
  (if 0 <? limit then commonSlicePrefix s (key_view K (kv_key i) (u16 pos) (u16 K)) limit else Ok 0) = Ok (lcp (sbits s) b).
Proof using HK.
  intros Hs Hi Hpos Eb Hl limit. destruct (whole_key K HK i pos Hi Hpos) as [Hw Ew]. pose proof (len_sbits s Hs). pose proof (len_sbits _ Hw) as Hwl. rewrite Ew, len_key_at in Hwl by lia.
  pose proof (len_nonneg (sbits s)). pose proof (len_nonneg b). pose proof (lcp_bounds (sbits s) b). pose proof (lcp_bounds b (sbits s)) as Hsym. rewrite lcp_sym in Hsym.
  destruct (Z.ltb_spec 0 limit); [|f_equal; lia]. rewrite commonSlicePrefix_run by (done || lia). destruct (Z.ltb_spec (BitsLeft s) limit); [lia|].
  rewrite Ew, Eb, lcp_sym, lcp_take_app by (unfold limit; lia). now rewrite lcp_sym.
Qed.

Lemma shares_prefix p x b2 pos items : shares K (p ++ x :: b2) pos items -> pos <= K -> shares K (p ++ [x]) pos items.
Proof using.
  clear HK. intros Hs Hp. apply shares_intro; [done|]. eapply List.Forall_impl; [|exact Hs]. intros i E. cbn beta in E. rewrite E.
  eexists. rewrite <-!app_assoc. cbn [app]. reflexivity.
Qed.

Lemma multisetNode_ok fuel items pos sk c t :
  rep enc K (K - pos + sk) c t -> 0 <= sk <= pos -> pos <= K -> sk <= len (label t) -> batch K pos items -> (sk = 0 \/ items <> []) ->
  (Z.to_nat (K - pos) < fuel)%nat ->
  updated pos items (tfind (relabel (drop (Z.to_nat sk) (label t)) t)) c (multisetNode same_pointer fuel K (Some c) items pos sk).
Proof using HK Hform Hsame.
  revert items pos sk c t. induction fuel as [|fuel IH]; intros items pos sk c t Hr Hs Hpos Hl Hba Hne Hfuel; [lia|].
  destruct items as [|i rest].
  { destruct Hne as [-> |]; [|done]. rewrite Z.add_0_r in Hr. exists (Some c), true. split; [done|]. split; [|done]. exists t. split; [done|]. now destruct t. }
  destruct (locate pos sk c t Hr Hs Hpos Hl) as (node & pb & refs & s & Hat & Hopen & Hlen & Hrun & Hsb). cbn [multisetNode].
  rewrite key_len, Hopen by (done || lia). cbn [mbind outcome_bind]. pose proof (len_nonneg (sbits s)). rewrite Hlen. destruct (Z.ltb_spec (sk + len (sbits s)) sk); [lia|].
  rewrite Hrun. cbn [mbind outcome_bind]. rewrite <-Hsb. destruct (batch_len pos i rest Hba ltac:(lia)) as (b & -> & Hsh & Ekey & Hcase). cbn [mbind outcome_bind].
  replace (sk + len (sbits s) - sk) with (len (sbits s)) by lia. pose proof (an_room _ _ _ _ _ _ _ _ Hat) as Hroom.
  pose proof (matched_ok s i pos b (an_swf _ _ _ _ _ _ _ _ Hat) (Forall_inv (ba_fits _ _ _ Hba)) ltac:(lia) Ekey Hroom) as Hm. cbv zeta in Hm. rewrite Hm. clear Hm. cbn [mbind outcome_bind].
  pose proof (shares_len K b pos i rest Hsh Hpos) as Hbl. destruct (lcp_cases (sbits s) b) as (p & -> & Hcases).
  assert (Hchild : forall c' t' items', rep enc K (K - (pos + len p + 1)) c' t' -> batch K (pos + len p + 1) items' -> pos + len p < K ->
    updated (pos + len p + 1) items' (tfind t') c' (multisetNode same_pointer fuel K (Some c') items' (pos + len p + 1) 0)).
  { intros c' t' items' Hr' Hb' Hlt. pose proof (len_nonneg p). pose proof (len_nonneg (label t')).
    replace (tfind t') with (tfind (relabel (drop (Z.to_nat 0) (label t')) t')) by now destruct t'. apply IH; try rewrite Z.add_0_r; auto; lia. }
  pose proof (len_nonneg p). destruct Hcases as [(x & l2 & b2 & El & ->) | [(x & b2 & El & ->) | [(x & l2 & El & ->) | [El ->]]]].
  - pose proof (len_nonneg l2). pose proof (len_nonneg b2). rewrite len_app, len_cons in Hbl.
    rewrite (proj2 (Z.ltb_lt (len p) (len (sbits s)))), (proj2 (Z.ltb_lt (len p) (len (p ++ x :: b2)))) by (rewrite ?El, len_app, len_cons; lia). cbn [andb].
    rewrite <-app_assoc in Ekey. apply (case_leave pos sk c t node pb refs s Hat i rest Hba p x l2 _ El Ekey); [now apply (shares_prefix _ _ _ _ _ Hsh)|lia].
  - pose proof (len_nonneg b2). rewrite len_app, len_cons in Hbl.
    rewrite El, Z.ltb_irrefl, Z.eqb_refl, (proj2 (Z.ltb_lt (len p) (len (p ++ x :: b2)))) by (rewrite len_app, len_cons; lia). cbn [andb]. rewrite <-El at 1.
    destruct (fork_of_short _ _ _ _ _ _ _ _ p Hat El) as (l & a & d & Et); [lia|]. rewrite <-app_assoc in Ekey. pose proof (shares_prefix _ _ _ _ _ Hsh Hpos) as Hsp.
    apply (case_descend pos sk c t node pb refs s Hat i rest Hba p x _ l a d (fun c' => multisetNode same_pointer fuel K (Some c') (i :: rest) (pos + len p + 1) 0) Et El Ekey Hsp);
      [lia|]. intros c' t' Hr'. apply Hchild; [done|now apply (batch_side K p x)|lia].
  - pose proof (len_nonneg l2). pose proof (f_equal len El) as Hls. rewrite len_app, len_cons in Hls. destruct (decide (rest = [])); [lia|].
    destruct Hcase as (Hlt & lo & hi & Ei & Nlo & Nhi & Em & Hlo & Hhi).
    rewrite Z.ltb_irrefl, andb_false_r, andb_false_r, Z.eqb_refl, (proj2 (Z.ltb_lt (len p) (len (sbits s)))) by lia. cbn [andb].
    apply (case_push pos sk c t node pb refs s Hat i rest Hba p x l2 lo hi (fun own => multisetNode same_pointer fuel K (Some c) own (pos + len p + 1) (sk + len p + 1))); try done.
    intros own Hown Hbo. pose proof (an_len _ _ _ _ _ _ _ _ Hat) as Hlt'. replace l2 with (drop (Z.to_nat (sk + len p + 1)) (label t)).
    + apply IH; [now replace (K - (pos + len p + 1) + (sk + len p + 1)) with (K - pos + sk) by lia|lia|lia|lia|done|now right|lia].
    + rewrite (an_bits _ _ _ _ _ _ _ _ Hat), El, cons_middle, !app_assoc. apply drop_app_length'. rewrite !length_app, length_take. cbn [length]. unfold len in *. lia.
  - rewrite El, Z.ltb_irrefl, !andb_false_r. cbn [andb]. rewrite <-El at 1. destruct (decide (rest = [])) as [-> | Hrest].
    + rewrite (proj2 (Z.eqb_eq (len p) (K - pos)) Hcase). change (len [i] =? 1) with true. cbn [negb].
      destruct (leaf_of_long _ _ _ _ _ _ _ _ Hat ltac:(now rewrite El)) as (l & w & Et).
      assert (Ep : sbits s = key_at K pos i).
      { rewrite El, Ekey, Hcase. replace (pos + (K - pos)) with K by lia. unfold key_at. now rewrite Z.sub_diag, window_0, app_nil_r. }
      pose proof (case_leaf pos sk c t node pb refs s Hat i [] Hba same_pointer l w Hsame Et eq_refl Ep) as Hleaf. rewrite El in Hleaf |- *. exact Hleaf.
    + destruct Hcase as (Hlt & lo & hi & Ei & _ & _ & Em & Hlo & Hhi). destruct (Z.eqb_spec (len p) (K - pos)); [lia|].
      destruct (fork_of_short _ _ _ _ _ _ _ _ p Hat El Hlt) as (l & a & d & Et).
      apply (case_both pos sk c t node pb refs s Hat i rest Hba p l a d lo hi (fun c' items' => multisetNode same_pointer fuel K (Some c') items' (pos + len p + 1) 0)); try done.
      intros c' t' items' Hr' Hb'. now apply Hchild.
Qed.

End multiset.
