(* ===== verification/DictBulkTheorems.v ===== *)
(** * Bulk operations against one update at a time

    Building a dictionary from a list of items, and applying a batch of updates, leave
    what the same updates leave when they are made one after the other. *)

From S2P Require Import Prelude Bytes CellModel Builder Finalize BuilderOps Slice SliceSpec CellHash SliceCompare CellTheorems DictLabel.
From S2P Require Import DictLabelTheorems DictTree DictNode DictNodeSpec Dict DictBulk DictSpec DictKeys DictTheorems DictBulkSort DictBulkSpec.
From S2P Require Import DictMultisetSpec.
From stdpp Require Import gmap list sets sorting strings.
#[local] Open Scope Z_scope.

Lemma filter_out {A} (P : A -> Prop) `{!forall x, Decision (P x)} l : (forall x, x ∈ l -> ~ P x) -> filter P l = [].
Proof.
  induction l as [|x l IH]; intros Hn; [done|]. rewrite filter_cons, decide_False by (apply Hn; left). apply IH. intros y Hy. apply Hn. now right.
Qed.

Lemma sorted_weaken {A} (R R' : A -> A -> Prop) l : (forall i j, R i j -> R' i j) -> StronglySorted R l -> StronglySorted R' l.
Proof.
  intros H. induction 1 as [|x l _ IH Hx]; constructor; [done|]. eapply List.Forall_impl; [|exact Hx]. apply H.
Qed.

Section updates.
  Context (K : Z) (HK : 0 <= K /\ 0 <= room K).

(** ** Updates of a map *)

Definition apply_update (m : gmap key value) (i : DictBulkKV) : gmap key value :=
  match item_value i with Some v => <[item_bits K i := v]> m | None => delete (item_bits K i) m end.

(** The items with the key [k], in their order. *)
Definition of_key (k : key) (items : list DictBulkKV) : list DictBulkKV := filter (fun i => item_bits K i = k) items.

Lemma apply_updates_lookup items m k :
  foldl apply_update m items !! k = match last (of_key k items) with Some i => item_value i | None => m !! k end.
Proof using.
  clear HK. unfold of_key. revert k. induction items as [|i items IH] using rev_ind; intros k; [done|]. rewrite foldl_app, filter_app, filter_cons, filter_nil. cbn [foldl].
  unfold apply_update at 1. destruct (decide (item_bits K i = k)) as [<- | Hne].
  - rewrite last_snoc. destruct (item_value i); [apply lookup_insert_eq|apply lookup_delete_eq].
  - rewrite app_nil_r, <-IH. destruct (item_value i); [now apply lookup_insert_ne|now apply lookup_delete_ne].
Qed.

Lemma len_item_bits i : len (item_bits K i) = K.
Proof using HK. apply length_window. lia. Qed.

Lemma of_key_run k items : len k = K -> of_key k items = run_of (item_int K) (bits_uint k) items.
Proof using HK.
  intros Hk. apply list_filter_iff. intros i. unfold item_int. split; [now intros ->|]. intros E. apply bits_uint_inj; [|done]. now rewrite len_item_bits.
Qed.

Lemma of_key_off k items : len k <> K -> of_key k items = [].
Proof using HK. intros Hk. unfold of_key. apply filter_out. intros i _ <-. now rewrite len_item_bits in Hk. Qed.

Lemma sorts_of_key items items' k : sorts (item_int K) items items' -> of_key k items' = of_key k items.
Proof using HK.
  intros [_ Hs]. destruct (decide (len k = K)); [now rewrite !of_key_run|now rewrite !of_key_off].
Qed.

Lemma sort_sorts items : Forall (item_ok K) items -> sorts (item_int K) items (SortStableFunc (compare_items K) items).
Proof using HK. intros H. apply (SortStableFunc_sorts _ _ (item_ok K)); [|done]. intros i j Hi Hj. rewrite compare_ok by (lia || done). unfold sign, le_by. split_cmp; lia. Qed.

Definition ascending (items : list DictBulkKV) : Prop := StronglySorted (fun i j => item_int K i < item_int K j) items.

Lemma ascending_batch items : Forall (item_fits K) items -> ascending items -> batch K 0 items.
Proof using. intros Hf Ha. split; [done|]. eapply sorted_weaken; [|exact Ha]. intros i j. now rewrite !key_at_0. Qed.

Lemma ascending_cons i items : ascending (i :: items) -> ascending items /\ forall j, j ∈ items -> item_bits K j <> item_bits K i.
Proof using.
  intros [Ha Hi]%StronglySorted_inv. split; [done|]. intros j Hj E. rewrite Forall_forall in Hi. specialize (Hi j Hj). cbn beta in Hi. unfold item_int in Hi. rewrite E in Hi. lia.
Qed.

Lemma item_at_last items k : ascending items -> item_at K 0 items k = item_value <$> last (of_key k items).
Proof using.
  unfold of_key. induction items as [|i items IH]; intros Ha; [done|]. destruct (ascending_cons _ _ Ha) as [Ha' Hi]. cbn [item_at]. rewrite key_at_0, filter_cons.
  destruct (decide (item_bits K i = k)) as [<- | Hne]; [|now apply IH].
  rewrite filter_out; [done|]. intros j Hj. now apply Hi.
Qed.

(** A strictly ascending list with the same last item for each key writes the same. *)
Lemma overlay_updates items items' m k :
  ascending items' -> (forall k, last (of_key k items') = last (of_key k items)) ->
  overlay K 0 items' (fun k => m !! k) k = foldl apply_update m items !! k.
Proof using.
  intros Ha Hl. unfold overlay. rewrite apply_updates_lookup, item_at_last, Hl by done. now destruct (last (of_key k items)).
Qed.

Lemma batch_root enc `{!LabelForm enc} o f m : holds enc K K o f -> (forall k, f k = m !! k) -> root_map enc K o m.
Proof using.
  clear HK. intros Hh Hf. destruct o as [c |]; cbn [holds root_map] in *.
  - destruct Hh as (t & Hr & Ht). exists t. split; [done|]. apply map_eq. intros k. rewrite (root_lookup enc K c t k Hr). now rewrite Ht, Hf.
  - apply map_eq. intros k. now rewrite <-Hf, Hh, lookup_empty.
Qed.
(** ** Equal keys in a sorted batch *)

Lemma compare_equal i j : item_ok K i -> item_ok K j -> (compare_items K i j =? 0) = bool_decide (item_int K i = item_int K j).
Proof using HK. intros Hi Hj. rewrite compare_ok by (lia || done). unfold sign. case_bool_decide; split_cmp; done || lia. Qed.

Lemma item_int_inj i j : item_int K i = item_int K j -> item_bits K i = item_bits K j.
Proof using HK. intros E. apply bits_uint_inj; [|done]. now rewrite !len_item_bits. Qed.

Lemma last_of_runs_elem items i : i ∈ last_of_runs K items -> i ∈ items.
Proof using.
  clear HK. induction items as [|a [|b rest] IH]; [done|done|]. cbn [last_of_runs] in *. destruct (compare_items K a b =? 0).
  - intros H. right. now apply IH.
  - intros [-> | H]%elem_of_cons; [left|]. right. now apply IH.
Qed.

Lemma last_of_runs_ok items :
  Forall (item_ok K) items -> StronglySorted (le_by (item_int K)) items ->
  ascending (last_of_runs K items) /\ forall k, last (of_key k (last_of_runs K items)) = last (of_key k items).
Proof using HK.
  induction items as [|a [|b rest] IH]; intros Hok Hs; [split; [constructor|done]|split; [repeat constructor|done]|].
  apply Forall_cons in Hok as [Ha Hok]. apply StronglySorted_inv in Hs as [Hs Hle]. destruct (IH Hok Hs) as [Hasc Hlast].
  pose proof (Forall_inv Hok) as Hb. pose proof (Forall_inv Hle) as Hab. unfold le_by in Hab.
  change (last_of_runs K (a :: b :: rest)) with (if compare_items K a b =? 0 then last_of_runs K (b :: rest) else a :: last_of_runs K (b :: rest)).
  rewrite compare_equal by done. case_bool_decide as E.
  - split; [done|]. intros k. rewrite Hlast. unfold of_key. rewrite (filter_cons _ a (b :: rest)). destruct (decide (item_bits K a = k)) as [<- | Hne]; [|done].
    rewrite (filter_cons _ b rest), decide_True by (symmetry; now apply item_int_inj). done.
  - split.
    + constructor; [done|]. apply Forall_forall. intros j Hj%last_of_runs_elem. apply StronglySorted_inv in Hs as [_ Hbr]. apply elem_of_cons in Hj as [-> | Hj]; [lia|].
      rewrite Forall_forall in Hbr. specialize (Hbr j Hj). unfold le_by in Hbr. lia.
    + intros k. unfold of_key in *. rewrite !(filter_cons _ a). destruct (decide (item_bits K a = k)); [|apply Hlast]. rewrite !last_cons, Hlast. done.
Qed.

Lemma adjacent_equal_ok items :
  Forall (item_ok K) items -> StronglySorted (le_by (item_int K)) items ->
  if adjacent_equal K items then ~ NoDup (item_bits K <$> items) else ascending items.
Proof using HK.
  unfold adjacent_equal. induction items as [|a [|b rest] IH]; intros Hok Hs; [constructor|repeat constructor|].
  apply Forall_cons in Hok as [Ha Hok]. apply StronglySorted_inv in Hs as [Hs Hle]. specialize (IH Hok Hs).
  pose proof (Forall_inv Hok) as Hb. pose proof (Forall_inv Hle) as Hab. unfold le_by in Hab. cbn [tail zip zip_with existsb] in *.
  rewrite compare_equal by done. case_bool_decide as E; cbn [orb].
  - rewrite !fmap_cons, NoDup_cons. intros [H _]. apply H. rewrite (item_int_inj _ _ E). left.
  - destruct (existsb _ _).
    + rewrite fmap_cons, NoDup_cons. now intros [_ ?].
    + constructor; [done|]. apply Forall_forall. intros j Hj. apply StronglySorted_inv in Hs as [_ Hbr]. apply elem_of_cons in Hj as [-> | Hj]; [lia|].
      rewrite Forall_forall in Hbr. specialize (Hbr j Hj). unfold le_by in Hbr. lia.
Qed.

(** Keys are distinct when no key has two items. *)
Lemma nodup_of_key items : NoDup (item_bits K <$> items) <-> forall k, (length (of_key k items) <= 1)%nat.
Proof using.
  clear HK. unfold of_key. induction items as [|i items IH]; [split; [intros; cbn; lia|constructor]|]. rewrite fmap_cons, NoDup_cons, IH. split.
  - intros [Hi H] k. rewrite filter_cons. destruct (decide (item_bits K i = k)) as [<- |]; [|apply H]. rewrite filter_out; [cbn; lia|].
    intros j Hj E. apply Hi. rewrite <-E. now apply list_elem_of_fmap_2.
  - intros H. split.
    + intros (j & Ej & Hj)%list_elem_of_fmap. specialize (H (item_bits K i)). rewrite filter_cons, decide_True in H by done.
      destruct (filter _ items) eqn:Ef; [|cbn in H; lia]. eapply (filter_nil_not_elem_of _ items j Ef); [now symmetry|done].
    + intros k. specialize (H k). rewrite filter_cons in H. destruct (decide _); cbn in H; lia.
Qed.

Lemma sorts_nodup items items' : sorts (item_int K) items items' -> NoDup (item_bits K <$> items') <-> NoDup (item_bits K <$> items).
Proof using HK. intros H. rewrite !nodup_of_key. split; intros Hk k; specialize (Hk k); [rewrite <-(sorts_of_key _ _ _ H)|rewrite (sorts_of_key _ _ _ H)]; done. Qed.

(** ** One update at a time *)

Definition update_cmd (i : DictBulkKV) : cmd :=
  match kv_value i with
  | Some b => CSet (KeyBytes (kv_key i)) b DictSetModeSet
  | None => CDelete (KeySlice (raw_slice (kv_key i) K))
  end.

Lemma update_cmd_ok i : item_fits K i -> cmd_ok K (update_cmd i).
Proof using HK.
  intros [[Hb Hl] Hv]. unfold update_cmd. pose proof (K_bounds K HK). destruct (kv_value i) as [b |]; cbn [cmd_ok key_ok basic_ok].
  - destruct (Hv b eq_refl). done.
  - destruct (raw_slice_ok (kv_key i) K Hb ltac:(lia) Hl) as [Hs Hbits]. split; [done|]. rewrite <-len_sbits, Hbits, length_window by (done || lia). lia.
Qed.

Lemma update_cmd_answers i m r m' : item_fits K i -> answers K (update_cmd i) m r m' -> m' = apply_update m i.
Proof using HK.
  intros [[Hb Hl] _]. pose proof (K_bounds K HK). unfold update_cmd, apply_update, item_value. destruct (kv_value i) as [b |]; cbn [answers key_bits basic_bits fmap option_fmap option_map].
  - intros [_ ->]. unfold writes. done.
  - intros [_ ->]. destruct (raw_slice_ok (kv_key i) K Hb ltac:(lia) Hl) as [Hs Hbits]. rewrite Hbits. rewrite take_ge; [done|].
    pose proof (length_window (kv_key i) 0 K). unfold len in *. lia.
Qed.

Lemma one_by_one enc `{!LabelForm enc} items d m :
  Forall (item_fits K) items -> dict_map enc K d m ->
  dict_map enc K (snd (perform_all (update_cmd <$> items) d)) (foldl apply_update m items).
Proof using HK.
  intros Hf. revert d m. induction Hf as [|i items Hi _ IH]; intros d m Hm; [done|]. rewrite fmap_cons. cbn [perform_all foldl].
  destruct (perform_ok enc K HK (update_cmd i) d m (update_cmd_ok i Hi) Hm) as (r & d1 & m1 & -> & Hr & Hm1).
  apply (update_cmd_answers i) in Hr; [|done]. subst m1. specialize (IH d1 _ Hm1). now destruct (perform_all (update_cmd <$> items) d1).
Qed.

End updates.

(** ** Building from items *)

Lemma check_items_ok n items :
  Forall (fun i => n <= len (kv_key i) /\ is_Some (kv_value i)) items -> check_items n items = Ok tt.
Proof.
  induction 1 as [|i items [Hl [v Hv]] _ IH]; [done|]. cbn [check_items]. destruct (Z.ltb_spec (len (kv_key i)) n); [lia|]. now rewrite Hv.
Qed.

(** C14: [NewDictFromItems] builds the same dictionary, cell for cell, as one [Set] per
    item in the order of the items, so that the last item of a key wins. *)
Theorem bulk_build_sequential stale K items :
  0 <= K -> 0 <= room K -> Forall (item_fits K) items -> Forall (fun i => is_Some (kv_value i)) items ->
  NewDictFromItems stale K items = Ok (snd (perform_all (update_cmd K <$> items) (NewDict K))).
Proof.
  intros HK0 Hroom Hf Hv. pose proof (conj HK0 Hroom) as HK. pose proof (K_bounds K HK). unfold NewDictFromItems, validateDictKeySize, maxDictKeyBits.
  destruct (Z.ltb_spec 1023 K); [lia|]. cbn [mbind outcome_bind]. destruct (Z.eqb_spec (len items) 0) as [E | Hne].
  { unfold len in E. destruct items; [done|cbn in E; lia]. }
  assert (Hok : Forall (item_ok K) items) by (eapply List.Forall_impl; [|exact Hf]; intros i Hi; apply Hi).
  rewrite check_items_ok; [|apply Forall_forall; intros i Hi; rewrite Forall_forall in Hok, Hv; destruct (Hok i Hi); split; [lia|now apply Hv]].
  cbn [mbind outcome_bind]. rewrite sortDictBulkItems_ok by done. cbn [mbind outcome_bind]. pose proof (sort_sorts K HK items Hok) as Hsort. set (sorted := SortStableFunc _ items) in *.
  assert (Hin : forall (P : DictBulkKV -> Prop), Forall P items -> Forall P sorted).
  { intros P HP. apply Forall_forall. intros i Hi%(sorts_elem _ _ _ _ Hsort). rewrite Forall_forall in HP. auto. }
  destruct (last_of_runs_ok K HK sorted (Hin _ Hok) (sorts_sorted _ _ _ Hsort)) as [Hasc Hlast]. set (runs := last_of_runs K sorted) in *.
  assert (Hsub : forall (P : DictBulkKV -> Prop), Forall P items -> Forall P runs).
  { intros P HP. apply Forall_forall. intros i Hi%last_of_runs_elem. specialize (Hin P HP). rewrite Forall_forall in Hin. auto. }
  assert (Hlast' : forall k, last (of_key K k runs) = last (of_key K k items)) by (intros k; now rewrite Hlast, (sorts_of_key K HK _ _ k Hsort)).
  assert (Hruns : runs <> []).
  { destruct items as [|i rest]; [done|]. intros Er. specialize (Hlast' (item_bits K i)). rewrite Er in Hlast'. unfold of_key in Hlast'.
    rewrite filter_cons, decide_True in Hlast' by done. symmetry in Hlast'. now apply last_None in Hlast'. }
  destruct (buildFromSorted_ok shortest K HK (walk_fuel K) runs 0 Hruns) as (c & -> & Hc); [now apply ascending_batch; [apply Hsub|]|now apply Hsub|lia|unfold walk_fuel; lia|].
  cbn [mbind outcome_bind]. f_equal. apply (dict_map_canonical K _ _ (foldl (apply_update K) ∅ items) (foldl (apply_update K) ∅ items) HK); [| |done].
  - split; [done|]. rewrite Z.sub_0_r in Hc. apply (batch_root K _ _ _ _ Hc). intros k. now rewrite <-(overlay_updates K items runs ∅ k Hasc Hlast').
  - exact (one_by_one K HK shortest items (NewDict K) ∅ Hf (dict_map_empty _ K)).
Qed.

(** ** Updating with a batch *)

Definition missing (K : Z) (m : gmap key value) (i : DictBulkKV) : bool := negb (present (kv_value i)) && negb (present (m !! item_bits K i)).

(** What a batch of updates does to a dictionary: nothing, with an error, when two
    updates have the same key or a deletion finds no key. *)
Definition batch_result (K : Z) (m : gmap key value) (updates : list DictBulkKV) : outcome (gmap key value) :=
  if negb (bool_decide (NoDup (item_bits K <$> updates))) then Err (ErrText "key appears twice in one dictionary update batch")
  else if existsb (missing K m) updates then Err ErrNoSuchKeyInDict
  else Ok (foldl (apply_update K) m updates).

Lemma deletes_ok_ext K pos items f g : (forall k, f k = g k) -> deletes_ok K pos items f = deletes_ok K pos items g.
Proof. intros H. unfold deletes_ok. induction items as [|i items IH]; cbn [forallb]; [done|]. now rewrite H, IH. Qed.

Lemma overlay_ext K pos items f g k : (forall k, f k = g k) -> overlay K pos items f k = overlay K pos items g k.
Proof. intros H. unfold overlay. now rewrite H. Qed.

Lemma multisetNode_root enc `{!LabelForm enc} same_pointer K root m items :
  (forall a b, same_pointer a b = true -> a = b) -> 0 <= K /\ 0 <= room K -> root_map enc K root m -> batch K 0 items ->
  if deletes_ok K 0 items (fun k => m !! k)
  then exists o same, multisetNode same_pointer (walk_fuel K) K root items 0 0 = Ok (o, same) /\ holds enc K K o (overlay K 0 items (fun k => m !! k))
  else multisetNode same_pointer (walk_fuel K) K root items 0 0 = Err ErrNoSuchKeyInDict.
Proof.
  intros Hsame HK Hm Hb. destruct root as [c |].
  - destruct Hm as (t & Hr & <-). pose proof (len_nonneg (label t)). assert (Ht : forall k, tmap t !! k = tfind t k) by (intros k; apply (root_lookup enc K c t k Hr)).
    pose proof (multisetNode_ok enc K HK same_pointer Hsame (walk_fuel K) items 0 0 c t) as H0. rewrite Z.sub_0_r, Z.add_0_r in H0.
    specialize (H0 Hr ltac:(lia) ltac:(lia) ltac:(lia) Hb ltac:(now left) ltac:(unfold walk_fuel; lia)). unfold updated in H0.
    replace (relabel (drop (Z.to_nat 0) (label t)) t) with t in H0 by now destruct t. rewrite (deletes_ok_ext K 0 items _ (tfind t) Ht).
    destruct (deletes_ok K 0 items (tfind t)); [|done]. destruct H0 as (o & same & -> & Hh & _). exists o, same. split; [done|]. rewrite Z.sub_0_r in Hh.
    destruct o as [c' |]; cbn [holds] in *; [destruct Hh as (t' & Hr' & Ht'); exists t'; split; [done|]|]; intros k; now rewrite (overlay_ext K 0 items _ (tfind t) k Ht).
  - cbn [root_map] in Hm. subst m. rewrite (deletes_ok_ext K 0 items _ none) by (intros; apply lookup_empty).
    pose proof (multisetBuild_ok enc K HK items 0 Hb ltac:(lia)) as Hbuild. cbn [multisetNode walk_fuel].
    destruct (deletes_ok K 0 items none); [|now rewrite Hbuild]. destruct Hbuild as (o & -> & Hh & _). exists o, false. split; [done|]. rewrite Z.sub_0_r in Hh.
    destruct o as [c' |]; cbn [holds] in *; [destruct Hh as (t' & Hr' & Ht'); exists t'; split; [done|]|]; intros k; now rewrite (overlay_ext K 0 items _ none k) by (intros; apply lookup_empty).
Qed.

Lemma deletes_missing K m items items' :
  (forall i, i ∈ items' <-> i ∈ items) -> deletes_ok K 0 items' (fun k => m !! k) = negb (existsb (missing K m) items).
Proof.
  intros Hin. apply eq_true_iff_eq. unfold deletes_ok. rewrite negb_true_iff, forallb_forall, <-not_true_iff_false, existsb_exists. split.
  - intros H (i & Hi & Hmi). specialize (H i). rewrite <-!list_elem_of_In, Hin in *. specialize (H Hi). rewrite key_at_0 in H. unfold missing in Hmi.
    apply orb_true_iff in H. apply andb_true_iff in Hmi as [H1 H2]. destruct H as [H | H]; rewrite H in *; done.
  - intros H i Hi. rewrite key_at_0. destruct (present (kv_value i)) eqn:E1; [done|]. destruct (present (m !! item_bits K i)) eqn:E2; [done|]. exfalso. apply H.
    exists i. rewrite <-!list_elem_of_In, Hin in *. split; [done|]. unfold missing. now rewrite E1, E2.
Qed.

Lemma multiset_run enc `{!LabelForm enc} same_pointer stale K d m updates :
  (forall a b, same_pointer a b = true -> a = b) -> 0 <= K /\ 0 <= room K -> Forall (item_fits K) updates -> dict_map enc K d m ->
  match batch_result K m updates with
  | Ok m' => exists d', Multiset same_pointer stale updates d = (Ok tt, d') /\ dict_map enc K d' m'
  | Err e => Multiset same_pointer stale updates d = (Err e, d)
  | Panic => False
  end.
Proof.
  intros Hsame HK Hf [Hk Hm]. pose proof (K_bounds K HK). unfold Multiset. destruct (Z.eqb_spec (len updates) 0) as [E | Hne].
  { unfold len in E. destruct updates; [|cbn in E; lia]. exists d. done. }
  assert (Hok : Forall (item_ok K) updates) by (eapply List.Forall_impl; [|exact Hf]; intros i Hi; apply Hi).
  mrun. rewrite Hk. destruct (existsb (fun u => len (kv_key u) <? (K + 7) / 8) updates) eqn:Ex.
  { apply existsb_exists in Ex as (i & Hi & Hlt%Z.ltb_lt). rewrite <-list_elem_of_In in Hi. rewrite Forall_forall in Hok. destruct (Hok i Hi). lia. }
  rewrite sortDictBulkItems_ok by (done || lia). mrun. pose proof (sort_sorts K HK updates Hok) as Hsort. set (sorted := SortStableFunc _ updates) in *.
  assert (Hin : forall (P : DictBulkKV -> Prop), Forall P updates -> Forall P sorted).
  { intros P HP. apply Forall_forall. intros i Hi%(sorts_elem _ _ _ _ Hsort). rewrite Forall_forall in HP. auto. }
  pose proof (adjacent_equal_ok K HK sorted (Hin _ Hok) (sorts_sorted _ _ _ Hsort)) as Hadj. unfold batch_result.
  destruct (adjacent_equal K sorted).
  { rewrite bool_decide_eq_false_2; [done|]. now rewrite <-(sorts_nodup K HK _ _ Hsort). }
  assert (Hnd : NoDup (item_bits K <$> sorted)).
  { clear - Hadj. induction sorted as [|i l IH]; [constructor|]. destruct (ascending_cons _ _ _ Hadj) as [Ha Hi]. rewrite fmap_cons. constructor; [|auto].
    intros (j & E & Hj)%list_elem_of_fmap. now apply (Hi j Hj). }
  rewrite (bool_decide_eq_true_2 _ (proj1 (sorts_nodup K HK _ _ Hsort) Hnd)). cbn [negb]. mrun.
  pose proof (multisetNode_root enc same_pointer K (d_root d) m sorted Hsame HK Hm (ascending_batch K sorted (Hin _ Hf) Hadj)) as Hrun.
  rewrite (deletes_missing K m updates sorted (fun i => sorts_elem _ _ _ i Hsort)) in Hrun. destruct (existsb (missing K m) updates); cbn [negb] in Hrun.
  { rewrite Hrun. done. }
  destruct Hrun as (o & same & -> & Hh). mrun. eexists. split; [done|]. split; [done|]. cbn [d_root]. apply (batch_root K _ _ _ _ Hh). intros k.
  apply overlay_updates; [done|]. intros k'. now rewrite (sorts_of_key K HK _ _ k' Hsort).
Qed.

(** C9: A batch of updates refines the map: on every well-formed dictionary, whatever
    labels other software chose for it, [Multiset] fails without a change when two
    updates have the same key or a deletion finds no key, and otherwise leaves a
    dictionary for the map with every update made. *)
Theorem multiset_refines_map same_pointer stale K d m updates :
  (forall a b, same_pointer a b = true -> a = b) -> 0 <= K -> 0 <= room K -> Forall (item_fits K) updates -> dict_map encodes K d m ->
  match batch_result K m updates with
  | Ok m' => exists d', Multiset same_pointer stale updates d = (Ok tt, d') /\ dict_map encodes K d' m'
  | Err e => Multiset same_pointer stale updates d = (Err e, d)
  | Panic => False
  end.
Proof. intros Hsame HK Hroom. exact (multiset_run encodes same_pointer stale K d m updates Hsame (conj HK Hroom)). Qed.

(** Updates of eight-bit keys: a write, a deletion, a write out of order. *)
Definition sample_updates : list DictBulkKV :=
  [mkKV [200] (Some (sample_value 1)); mkKV [5] None; mkKV [7] (Some (sample_value 2))].
Definition sample_items : list DictBulkKV :=
  [mkKV [9] (Some (sample_value 3)); mkKV [5] (Some (sample_value 4)); mkKV [9] (Some (sample_value 5))].

Lemma sample_item_fits k n : 0 <= k < 256 -> 0 <= n < 2 ^ 16 -> item_fits 8 (mkKV [k] (Some (sample_value n))).
Proof.
  intros Hk Hn. split; [|intros b [= <-]; now apply sample_value_ok]. split; cbn [kv_key]; [now apply bytes_ok_one|]. unfold len. cbn [length]. lia.
Qed.

Lemma sample_updates_fit : Forall (item_fits 8) sample_updates.
Proof.
  constructor; [now apply sample_item_fits|]. constructor; [|constructor; [now apply sample_item_fits|done]].
  split; [|done]. split; cbn [kv_key]; [now apply bytes_ok_one|]. unfold len. cbn [length]. lia.
Qed.

Lemma sample_items_fit : Forall (item_fits 8) sample_items.
Proof. repeat (constructor; [now apply sample_item_fits|]). done. Qed.

Definition sample_dict : Dictionary := snd (perform_all (update_cmd 8 <$> sample_items) (NewDict 8)).
Definition sample_map : gmap key value := foldl (apply_update 8) ∅ sample_items.

Lemma sample_dict_map enc `{!LabelForm enc} : dict_map enc 8 sample_dict sample_map.
Proof. apply (one_by_one 8 ltac:(vm_compute; split; discriminate) enc sample_items (NewDict 8) ∅ sample_items_fit). done. Qed.

Example bulk_build_sequential_witness : NewDictFromItems [] 8 sample_items = Ok (snd (perform_all (update_cmd 8 <$> sample_items) (NewDict 8))).
Proof.
  apply (bulk_build_sequential [] 8 sample_items); [lia|vm_compute; discriminate|exact sample_items_fit|].
  repeat (constructor; [eexists; reflexivity|]). constructor.
Defined.

Example multiset_refines_map_witness :
  match batch_result 8 sample_map sample_updates with
  | Ok m' => exists d', Multiset (fun _ _ => false) [] sample_updates sample_dict = (Ok tt, d') /\ dict_map encodes 8 d' m'
  | Err e => Multiset (fun _ _ => false) [] sample_updates sample_dict = (Err e, sample_dict)
  | Panic => False
  end.
Proof.
  apply (multiset_refines_map (fun _ _ => false) [] 8 sample_dict sample_map sample_updates);
    [discriminate|lia|vm_compute; discriminate|exact sample_updates_fit|exact (sample_dict_map encodes)].
Defined.

(** C15: On a dictionary with shortest labels, as these operations build them, an accepted
    batch leaves the same cells as its updates made one at a time, in any order of the
    batch and whatever subtrees the batch could keep. *)
Theorem multiset_sequential same_pointer stale K d m updates m' :
  (forall a b, same_pointer a b = true -> a = b) -> 0 <= K -> 0 <= room K -> Forall (item_fits K) updates -> dict_map shortest K d m ->
  batch_result K m updates = Ok m' ->
  Multiset same_pointer stale updates d = (Ok tt, snd (perform_all (update_cmd K <$> updates) d)).
Proof.
  intros Hsame HK Hroom Hf Hm E. pose proof (multiset_run shortest same_pointer stale K d m updates Hsame (conj HK Hroom) Hf Hm) as Hrun.
  rewrite E in Hrun. destruct Hrun as (d' & -> & Hd'). f_equal.
  apply (dict_map_canonical K _ _ m' (foldl (apply_update K) m updates) (conj HK Hroom) Hd').
  - exact (one_by_one K (conj HK Hroom) shortest updates d m Hf Hm).
  - unfold batch_result in E. destruct (negb _); [done|]. destruct (existsb _ _); congruence.
Qed.

Example multiset_sequential_witness :
  Multiset (fun _ _ => false) [] sample_updates sample_dict = (Ok tt, snd (perform_all (update_cmd 8 <$> sample_updates) sample_dict)).
Proof.
  apply (multiset_sequential (fun _ _ => false) [] 8 sample_dict sample_map sample_updates (foldl (apply_update 8) sample_map sample_updates));
    [discriminate|lia|vm_compute; discriminate|exact sample_updates_fit|exact (sample_dict_map shortest)|vm_compute; reflexivity].
Defined.
