(* ===== verification/Checksums.v ===== *)
(** * Checksums: CRC-16 and CRC-32C

    Models [crc16/crc16.go], the checksum at the end of an address: a table of 256
    remainders, and one table lookup per byte.  The theorems take the table away: the
    checksum is the remainder of a division by the generator polynomial one bit at a
    time, it is additive, and it changes with every change of two adjacent bytes. *)

From S2P Require Import Prelude Bytes.
#[local] Open Scope Z_scope.

Definition poly : Z := 0x1021.

(** One round of the inner loop of [init]. *)
Definition table_round (c : Z) : Z :=
  if negb (Z.land c 0x8000 =? 0) then Z.lxor (u16 (c ≪ 1)) poly else u16 (c ≪ 1).
Definition table_entry (i : nat) : Z := Nat.iter 8 table_round (u16 (Z.of_nat i ≪ 8)).
Definition table : list Z := Eval vm_compute in table_entry <$> seq 0 256.

Definition checksum_step (c b : Z) : Z :=
  let idx := u8 (Z.lxor (c ≫ 8) b) in
  Z.lxor (u16 (c ≪ 8)) (byte_at table idx).

Definition ChecksumXMODEM (data : list Z) : Z := foldl checksum_step 0 data.

(** ** The division, one bit at a time *)

Definition reduce (n : nat) (c : Z) : Z := Nat.iter n table_round c.

Definition word_ok (c : Z) : Prop := 0 <= c < 2 ^ 16.

Lemma word_bits c c' : word_ok c -> word_ok c' -> (forall i, 0 <= i < 16 -> Z.testbit c i = Z.testbit c' i) -> c = c'.
Proof.
  intros Hc Hc' H. apply Z.bits_inj'. intros i Hi. destruct (Z.ltb_spec i 16); [now apply H|].
  now rewrite !(testbit_above _ 16) by (unfold word_ok in *; lia).
Qed.

Lemma word_lxor c c' : word_ok c -> word_ok c' -> word_ok (Z.lxor c c').
Proof.
  intros Hc Hc'. unfold word_ok in *. assert (Hn : 0 <= Z.lxor c c') by (apply Z.lxor_nonneg; lia). split; [done|].
  destruct (Z.eq_dec (Z.lxor c c') 0) as [-> | Hz]; [lia|]. apply Z.log2_lt_pow2; [lia|].
  assert (Hl : forall x, 0 <= x < 2 ^ 16 -> Z.log2 x < 16).
  { intros x Hx. destruct (Z.eq_dec x 0) as [-> |]; [now vm_compute|]. apply Z.log2_lt_pow2; lia. }
  pose proof (Z.log2_lxor c c' ltac:(lia) ltac:(lia)). pose proof (Hl c Hc). pose proof (Hl c' Hc'). lia.
Qed.

Lemma word_u16 x : word_ok (u16 x).
Proof. unfold word_ok, u16. lia. Qed.

Lemma word_shift x : byte_ok x -> word_ok (x ≪ 8).
Proof. intros Hx. unfold word_ok. rewrite Z.shiftl_mul_pow2 by lia. lia. Qed.

Lemma top_bit c : word_ok c -> negb (Z.land c 0x8000 =? 0) = Z.testbit c 15.
Proof.
  intros Hc. replace (Z.land c 0x8000) with (Z.b2z (Z.testbit c 15) * 2 ^ 15); [destruct (Z.testbit c 15); reflexivity|].
  apply Z.bits_inj'. intros i Hi. change 0x8000 with (2 ^ 15). rewrite Z.land_spec, Z.mul_pow2_bits, Z.pow2_bits_eqb by lia.
  rewrite testbit_b2z. destruct (Z.eqb_spec 15 i) as [<- |]; [now rewrite andb_true_r|]. rewrite andb_false_r.
  destruct (Z.eqb_spec (i - 15) 0); [lia|done].
Qed.

Lemma table_round_ok c : word_ok c -> word_ok (table_round c).
Proof. intros Hc. unfold table_round. destruct (negb _); [apply word_lxor; [apply word_u16|now vm_compute]|apply word_u16]. Qed.

Lemma table_round_bit c i : word_ok c -> 0 <= i < 16 ->
  Z.testbit (table_round c) i = xorb ((0 <? i) && Z.testbit c (i - 1)) (Z.testbit c 15 && Z.testbit poly i).
Proof.
  intros Hc Hi. unfold table_round. rewrite top_bit by done.
  assert (Hs : Z.testbit (u16 (c ≪ 1)) i = (0 <? i) && Z.testbit c (i - 1)).
  { rewrite testbit_u16, testbit_shiftl by lia. destruct (Z.ltb_spec i 16); [|lia]. destruct (Z.leb_spec 0 i); [|lia].
    destruct (Z.ltb_spec 0 i); [done|]. cbn [andb]. apply Z.testbit_neg_r. lia. }
  destruct (Z.testbit c 15); cbn [andb].
  - now rewrite Z.lxor_spec, Hs.
  - now rewrite Hs, xorb_false_r.
Qed.

(** A round is additive and, since the polynomial is odd, one to one. *)
Lemma table_round_lxor c c' : word_ok c -> word_ok c' -> table_round (Z.lxor c c') = Z.lxor (table_round c) (table_round c').
Proof.
  intros Hc Hc'. pose proof (word_lxor _ _ Hc Hc') as Hx. apply word_bits; [now apply table_round_ok| |].
  { apply word_lxor; now apply table_round_ok. }
  intros i Hi. rewrite Z.lxor_spec, !table_round_bit, !Z.lxor_spec by done.
  destruct (0 <? i), (Z.testbit c (i - 1)), (Z.testbit c' (i - 1)), (Z.testbit c 15), (Z.testbit c' 15), (Z.testbit poly i); done.
Qed.

Lemma table_round_inj c c' : word_ok c -> word_ok c' -> table_round c = table_round c' -> c = c'.
Proof.
  intros Hc Hc' E. assert (Hb : forall i, 0 <= i < 16 -> Z.testbit (table_round c) i = Z.testbit (table_round c') i) by (intros; now rewrite E).
  assert (Htop : Z.testbit c 15 = Z.testbit c' 15).
  { specialize (Hb 0 ltac:(lia)). rewrite !table_round_bit in Hb by (done || lia). 
    change (0 <? 0) with false in Hb. change (Z.testbit poly 0) with true in Hb. cbn [andb] in Hb. now rewrite !andb_true_r, !xorb_false_l in Hb. }
  apply word_bits; [done..|]. intros i Hi. destruct (Z.eq_dec i 15) as [-> |]; [done|]. specialize (Hb (i + 1) ltac:(lia)).
  rewrite !table_round_bit in Hb by (done || lia). destruct (Z.ltb_spec 0 (i + 1)); [|lia]. cbn [andb] in Hb.
  replace (i + 1 - 1) with i in Hb by lia. rewrite Htop in Hb. now destruct (Z.testbit c i), (Z.testbit c' i), (Z.testbit c' 15 && _).
Qed.

Lemma reduce_S n c : reduce (S n) c = table_round (reduce n c).
Proof. done. Qed.

Lemma reduce_ok n c : word_ok c -> word_ok (reduce n c).
Proof. intros Hc. induction n as [|n IH]; [done|]. now apply table_round_ok. Qed.

Lemma reduce_lxor n c c' : word_ok c -> word_ok c' -> reduce n (Z.lxor c c') = Z.lxor (reduce n c) (reduce n c').
Proof.
  intros Hc Hc'. induction n as [|n IH]; [done|].
  rewrite !reduce_S, IH. apply table_round_lxor; now apply reduce_ok.
Qed.

Lemma reduce_inj n c c' : word_ok c -> word_ok c' -> reduce n c = reduce n c' -> c = c'.
Proof.
  intros Hc Hc'. induction n as [|n IH]; [done|]. intros E. apply IH.
  apply table_round_inj; [now apply reduce_ok..|exact E].
Qed.

Lemma reduce_add n m c : reduce n (reduce m c) = reduce (n + m) c.
Proof. induction n as [|n IH]; [done|]. cbn [Nat.add]. now rewrite !reduce_S, IH. Qed.

Lemma reduce_zero n : reduce n 0 = 0.
Proof. induction n as [|n IH]; [done|]. now rewrite reduce_S, IH. Qed.

(** A byte below the top is only shifted. *)
Lemma reduce_low x : byte_ok x -> reduce 8 x = x ≪ 8.
Proof.
  intros Hx. assert (Hall : forallb (fun i => reduce 8 (Z.of_nat i) =? Z.of_nat i ≪ 8) (seq 0 256) = true) by (vm_compute; reflexivity).
  rewrite forallb_forall in Hall. specialize (Hall (Z.to_nat x)). rewrite in_seq, Z2Nat.id in Hall by lia.
  apply Z.eqb_eq, Hall. lia.
Qed.

Lemma table_lookup i : byte_ok i -> byte_at table i = reduce 8 (i ≪ 8).
Proof.
  intros Hi. assert (Hall : forallb (fun i => nth i table 0 =? reduce 8 (Z.of_nat i ≪ 8)) (seq 0 256) = true) by (vm_compute; reflexivity).
  rewrite forallb_forall in Hall. specialize (Hall (Z.to_nat i)). rewrite in_seq, Z2Nat.id in Hall by lia.
  apply Z.eqb_eq, Hall. lia.
Qed.

#[global] Opaque reduce table.

(** The table step divides eight bits. *)
Lemma checksum_step_reduce c b : word_ok c -> byte_ok b -> checksum_step c b = reduce 8 (Z.lxor c (b ≪ 8)).
Proof.
  intros Hc Hb. unfold word_ok in *. unfold checksum_step.
  assert (Hhi : 0 <= c ≫ 8 < 256) by (rewrite Z.shiftr_div_pow2 by lia; lia).
  assert (Hidx : u8 (Z.lxor (c ≫ 8) b) = Z.lxor (c ≫ 8) b).
  { apply Z.bits_inj'. intros i Hi. rewrite testbit_u8. destruct (Z.ltb_spec i 8); [done|].
    now rewrite Z.lxor_spec, !(testbit_above _ 8) by lia. }
  assert (Hlo : u16 (c ≪ 8) = u8 c ≪ 8) by (unfold u16, u8; rewrite !Z.shiftl_mul_pow2 by lia; lia).
  rewrite table_lookup by (rewrite <-Hidx; apply byte_ok_u8). rewrite Hlo, <-(reduce_low (u8 c)) by apply byte_ok_u8.
  rewrite <-reduce_lxor.
  - f_equal. apply word_bits; [|apply word_lxor; [done|now apply word_shift]|].
    + apply word_lxor; [|apply word_shift; rewrite <-Hidx; apply byte_ok_u8]. pose proof (byte_ok_u8 c). unfold word_ok in *. lia.
    + intros i Hi. repeat rewrite ?Z.lxor_spec, ?testbit_u8, ?testbit_shiftl, ?testbit_shiftr by lia.
      destruct (Z.leb_spec 0 i); [|lia]. destruct (Z.ltb_spec i 8).
      * rewrite (Z.testbit_neg_r b) by lia. destruct (Z.leb_spec 0 (i - 8)); [lia|]. cbn [andb xorb]. now rewrite andb_false_r, !xorb_false_r.
      * destruct (Z.leb_spec 0 (i - 8)); [|lia]. destruct (Z.ltb_spec (i - 8) 8); [|lia]. replace (i - 8 + 8) with i by lia.
        cbn [andb]. now rewrite xorb_false_l.
  - pose proof (byte_ok_u8 c). unfold word_ok in *. lia.
  - apply word_shift. rewrite <-Hidx. apply byte_ok_u8.
Qed.

(** ** What the checksum detects *)

Lemma checksum_step_ok c b : word_ok c -> byte_ok b -> word_ok (checksum_step c b).
Proof.
  intros Hc Hb. rewrite checksum_step_reduce by done. apply reduce_ok, word_lxor; [done|]. unfold word_ok. rewrite Z.shiftl_mul_pow2 by lia. lia.
Qed.

Lemma checksum_ok l c : word_ok c -> bytes_ok l -> word_ok (foldl checksum_step c l).
Proof.
  revert c. induction l as [|b l IH]; intros c Hc Hl; [done|]. apply bytes_ok_cons in Hl as [Hb Hl]. apply IH; [now apply checksum_step_ok|done].
Qed.

(** The difference of two byte strings of the same length. *)
Definition differ (l k : list Z) : list Z := zip_with Z.lxor l k.

Lemma byte_lxor x y : byte_ok x -> byte_ok y -> byte_ok (Z.lxor x y).
Proof.
  intros Hx Hy. assert (E : Z.lxor x y = u8 (Z.lxor x y)); [|rewrite E; apply byte_ok_u8]. apply Z.bits_inj'. intros i Hi.
  rewrite testbit_u8. destruct (Z.ltb_spec i 8); [done|]. now rewrite Z.lxor_spec, !(testbit_above _ 8) by lia.
Qed.

Lemma checksum_differ l k c c' : word_ok c -> word_ok c' -> bytes_ok l -> bytes_ok k -> length l = length k ->
  Z.lxor (foldl checksum_step c l) (foldl checksum_step c' k) = foldl checksum_step (Z.lxor c c') (differ l k).
Proof.
  revert k c c'. induction l as [|b l IH]; intros [|b' k] c c' Hc Hc' Hl Hk E; try done.
  apply bytes_ok_cons in Hl as [Hb Hl]. apply bytes_ok_cons in Hk as [Hb' Hk]. cbn [foldl differ zip_with]. injection E as E.
  rewrite IH by (done || now apply checksum_step_ok). fold (differ l k). f_equal.
  rewrite !checksum_step_reduce by (done || now apply word_lxor || now apply byte_lxor).
  rewrite <-reduce_lxor by auto using word_lxor, word_shift. f_equal. rewrite Z.shiftl_lxor, !Z.lxor_assoc. f_equal.
  rewrite <-!Z.lxor_assoc. f_equal. apply Z.lxor_comm.
Qed.

Lemma checksum_zeros n c : word_ok c -> foldl checksum_step c (replicate n 0) = reduce (8 * n) c.
Proof.
  revert c. induction n as [|n IH]; intros c Hc; [done|]. cbn [replicate foldl]. rewrite IH by now apply checksum_step_ok.
  rewrite checksum_step_reduce by done. rewrite Z.shiftl_0_l, Z.lxor_0_r, reduce_add. f_equal. lia.
Qed.

Lemma checksum_pair x y : byte_ok x -> byte_ok y -> foldl checksum_step 0 [x; y] = reduce 16 (x ≪ 8 + y).
Proof.
  intros Hx Hy. cbn [foldl]. rewrite (checksum_step_reduce 0), Z.lxor_0_l by done.
  rewrite checksum_step_reduce by (done || apply reduce_ok; auto using word_shift). rewrite <-(reduce_low y) by done.
  assert (Hwy : word_ok y) by (unfold word_ok; lia). rewrite <-(reduce_lxor 8 (x ≪ 8) y (word_shift x Hx) Hwy), (reduce_add 8 8).
  change (8 + 8)%nat with 16%nat. apply (f_equal (reduce 16)).
  rewrite <-Z.add_nocarry_lxor; [done|]. apply Z.bits_inj'. intros i Hi. rewrite Z.land_spec, testbit_shiftl, Z.bits_0 by lia.
  destruct (Z.ltb_spec i 8); [rewrite (Z.testbit_neg_r x) by lia; now rewrite andb_false_r|].
  now rewrite (testbit_above y 8), andb_false_r by lia.
Qed.

(** A message followed by its checksum has the checksum zero. *)
Lemma checksum_closed l h t : bytes_ok l -> byte_ok h -> byte_ok t ->
  ChecksumXMODEM (l ++ [h; t]) = 0 <-> ChecksumXMODEM l = h ≪ 8 + t.
Proof.
  intros Hl Hh Ht. unfold ChecksumXMODEM. rewrite foldl_app. set (c := foldl checksum_step 0 l).
  assert (Hc : word_ok c) by (apply checksum_ok; [unfold word_ok; lia|done]).
  assert (Hz : foldl checksum_step 0 [h; t] = Z.lxor (foldl checksum_step c [h; t]) (reduce 16 c)).
  { change (reduce 16 c) with (reduce (8 * 2) c). rewrite <-(checksum_zeros 2 c) by done.
    rewrite checksum_differ by (done || (repeat constructor; lia)). cbn [differ zip_with replicate]. now rewrite Z.lxor_nilpotent, !Z.lxor_0_r. }
  rewrite checksum_pair in Hz by done. assert (Hw : word_ok (h ≪ 8 + t)) by (unfold word_ok; rewrite Z.shiftl_mul_pow2 by lia; lia). split.
  - intros E. rewrite E, Z.lxor_0_l in Hz. symmetry. now apply (reduce_inj 16).
  - intros E. rewrite <-E in Hz. rewrite <-(Z.lxor_0_r (reduce 16 c)) in Hz at 1. rewrite Z.lxor_comm in Hz.
    apply (f_equal (fun x => Z.lxor x (reduce 16 c))) in Hz. rewrite !Z.lxor_assoc, Z.lxor_nilpotent, !Z.lxor_0_r in Hz. easy.
Qed.

(** Two messages whose difference is confined to two adjacent bytes have different
    checksums. *)
Lemma checksum_detects l k n m x y :
  bytes_ok l -> bytes_ok k -> length l = length k -> differ l k = replicate n 0 ++ [x; y] ++ replicate m 0 ->
  byte_ok x -> byte_ok y -> (x <> 0 \/ y <> 0) -> ChecksumXMODEM l <> ChecksumXMODEM k.
Proof.
  intros Hl Hk E Hd Hx Hy Hne He. assert (H0 : word_ok 0) by (unfold word_ok; lia).
  pose proof (checksum_differ l k 0 0 H0 H0 Hl Hk E) as Hc. unfold ChecksumXMODEM in He.
  rewrite He, Z.lxor_nilpotent, Hd, !foldl_app, Z.lxor_0_l, (checksum_zeros n 0 H0), reduce_zero, (checksum_pair x y Hx Hy), checksum_zeros in Hc.
  - rewrite reduce_add in Hc. assert (x ≪ 8 + y = 0); [|rewrite Z.shiftl_mul_pow2 in * by lia; lia].
    apply (reduce_inj (8 * m + 16)); [unfold word_ok; rewrite Z.shiftl_mul_pow2 by lia; lia|done|]. now rewrite reduce_zero.
  - apply reduce_ok. unfold word_ok. rewrite Z.shiftl_mul_pow2 by lia. lia.
Qed.

(** * CRC-32C

    The checksum [hash/crc32] computes with the Castagnoli polynomial, which closes a
    bag of cells: the reflected remainder, one table entry per byte. *)

Module Crc32.

Definition castagnoli : Z := 0x82F63B78.

(** [tab[i]] of [MakeTable(Castagnoli)]. *)
Definition entry (i : Z) : Z :=
  Nat.iter 8 (fun crc => if Z.odd crc then Z.lxor (crc ≫ 1) castagnoli else crc ≫ 1) i.

Definition step (crc v : Z) : Z := Z.lxor (entry (Z.land (Z.lxor crc v) 255)) (crc ≫ 8).

Definition flip (crc : Z) : Z := Z.lxor crc (Z.ones 32).

Definition Update (crc : Z) (p : list Z) : Z := flip (foldl step (flip crc) p).
Definition Checksum (p : list Z) : Z := Update 0 p.

(** The published check value: the checksum of the digits from 1 to 9. *)
Example checksum_digits : Checksum [49; 50; 51; 52; 53; 54; 55; 56; 57] = 0xE3069283.
Proof. vm_compute. reflexivity. Qed.

Lemma flip_flip crc : flip (flip crc) = crc.
Proof. unfold flip. now rewrite Z.lxor_assoc, Z.lxor_nilpotent, Z.lxor_0_r. Qed.

(** Checksums chain: a stream can be summed piece by piece. *)
Lemma Update_app crc p q : Update crc (p ++ q) = Update (Update crc p) q.
Proof. unfold Update. now rewrite foldl_app, flip_flip. Qed.

Lemma Update_nil crc : Update crc [] = crc.
Proof. apply flip_flip. Qed.

End Crc32.
