(* ===== verification/BocIndex.v ===== *)
(** * The hash index of the serializer

    Models [tvm/cell/boc_hash_index.go]: an open-addressed table from the 32-byte hash
    of a cell to its position in the list of serialized cells.  A slot packs a 32-bit
    fingerprint of the hash and the position plus one; zero marks an empty slot.
    Probing takes fuel: one unit per slot of the table, which an empty slot ends
    earlier. *)

From S2P Require Import Prelude Bytes CellModel.
From stdpp Require Import strings.
#[local] Open Scope Z_scope.

Module HashIndex.

Definition bocHashIndexInitialCapacity : Z := 64.

Record bocHashIndex : Type := mkIndex {
  ix_entries : list Z;
  ix_used : Z;
  ix_growAt : Z
}.

(** The zero value of the table. *)
Definition no_index : bocHashIndex := mkIndex [] 0 0.

(** [for need*4 > capacity*3 { capacity *= 2 }]; the capacity doubles at most 32 times. *)
Fixpoint raise_capacity (fuel : nat) (need capacity : Z) : Z :=
  match fuel with
  | O => capacity
  | S fuel => if capacity * 3 <? need * 4 then raise_capacity fuel need (capacity * 2) else capacity
  end.

Definition reset (capacityHint : Z) (m : bocHashIndex) : bocHashIndex :=
  let capacityHint := if 1 ≪ 30 <? capacityHint then 1 ≪ 30 else capacityHint in
  let capacity := if 0 <? capacityHint then raise_capacity 32 capacityHint bocHashIndexInitialCapacity else 0 in
  let n := Z.max capacity (len (ix_entries m)) in
  mkIndex (replicate (Z.to_nat n) 0) 0 (n * 3 / 4).

Definition bocHashFingerprint (hash : list Z) : outcome Z :=
  b ← subrange hash 0 4;
  Ok (be_uint (rev b)).

(** The fingerprint and the position of an entry. *)
Definition entry_fp (e : Z) : Z := u32 (e ≫ 32).
Definition entry_idx (e : Z) : Z := u32 e.

(** [bocCellHashEqual]; a cell that is the same pointer has the same hash. *)
Definition bocCellHashEqual (cell : Cell) (hash : list Z) : bool := bool_decide (HashKey cell = hash).

Fixpoint probe (fuel : nat) (entries : list Z) (fp : Z) (hash : list Z) (items : list Cell) (pos : Z) : outcome (option Z) :=
  match fuel with
  | O => Panic
  | S fuel =>
      entry ← index entries pos;
      let idxPlusOne := entry_idx entry in
      if idxPlusOne =? 0 then Ok None
      else
        let idx := idxPlusOne - 1 in
        hit ← (if entry_fp entry =? fp
               then match items !! Z.to_nat idx with
                    | Some itemCell => Ok (bocCellHashEqual itemCell hash)
                    | None => Panic
                    end
               else Ok false);
        if hit : bool then Ok (Some idx)
        else probe fuel entries fp hash items (Z.land (u32 (pos + 1)) (u32 (len entries - 1)))
  end.

Definition get (m : bocHashIndex) (fp : Z) (hash : list Z) (items : list Cell) : outcome (option Z) :=
  let entries := ix_entries m in
  if len entries =? 0 then Ok None
  else probe (length entries) entries fp hash items (Z.land fp (u32 (len entries - 1))).

Fixpoint free_slot (fuel : nat) (entries : list Z) (pos : Z) : outcome Z :=
  match fuel with
  | O => Panic
  | S fuel =>
      entry ← index entries pos;
      if negb (u32 entry =? 0) then free_slot fuel entries (Z.land (u32 (pos + 1)) (u32 (len entries - 1))) else Ok pos
  end.

Definition insert (fp idx : Z) (m : bocHashIndex) : outcome bocHashIndex :=
  let entries := ix_entries m in
  pos ← free_slot (length entries) entries (Z.land fp (u32 (len entries - 1)));
  entries ← write entries pos [Z.lor (fp ≪ 32) (u32 (idx + 1))];
  Ok (mkIndex entries (ix_used m + 1) (ix_growAt m)).

Definition reinsert (m : bocHashIndex) (entry : Z) : outcome bocHashIndex :=
  let idxPlusOne := u32 entry in
  if idxPlusOne =? 0 then Ok m else insert (u32 (entry ≫ 32)) (idxPlusOne - 1) m.

Definition grow (m : bocHashIndex) : outcome bocHashIndex :=
  let oldEntries := ix_entries m in
  let capacity := len oldEntries * 2 in
  let capacity := if capacity =? 0 then bocHashIndexInitialCapacity else capacity in
  let capacity := raise_capacity 32 (ix_used m + 1) capacity in
  let fresh := replicate (Z.to_nat capacity) 0 in
  if len oldEntries =? 0 then Ok (mkIndex fresh (ix_used m) (capacity * 3 / 4))
  else foldl (fun m entry => m ← m; reinsert m entry) (Ok (mkIndex fresh 0 (capacity * 3 / 4))) oldEntries.

Definition set (fp idx : Z) (m : bocHashIndex) : outcome bocHashIndex :=
  m ← (if ix_growAt m <? ix_used m + 1 then grow m else Ok m);
  insert fp idx m.

End HashIndex.
