(* ===== verification/BocIndexSpec.v ===== *)
(** * The hash index finds what was stored

    A table that indexes the cells of a list finds, for a hash, the position of a cell
    with this hash, and nothing when no cell has it; storing the next position keeps
    this, through every growth of the table. *)

From S2P Require Import Prelude Bytes CellModel BocIndex.
From stdpp Require Import list sets.
#[local] Open Scope Z_scope.
#[local] Set Warnings "-clear-no-such-hyp".
Import HashIndex.

(** ** Slots *)

(** Capacities: powers of two, so that a mask wraps around the table. *)
Definition capacity_ok (n : Z) : Prop := exists k, 6 <= k <= 32 /\ n = 2 ^ k.

Definition slot (n fp j : Z) : Z := (fp + j) mod n.

Lemma mask_mod n x : capacity_ok n -> 0 <= x -> Z.land x (u32 (n - 1)) = x mod n.
Proof.
  intros (k & Hk & ->) Hx. assert (0 < 2 ^ k <= 2 ^ 32) by (split; [apply Z.pow_pos_nonneg; lia|apply Z.pow_le_mono_r; lia]).
  unfold u32. rewrite (Z.mod_small (2 ^ k - 1)) by lia. replace (2 ^ k - 1) with (Z.ones k) by (rewrite Z.ones_equiv; lia). now apply Z.land_ones; lia.
Qed.

Lemma capacity_pos n : capacity_ok n -> 64 <= n <= 2 ^ 32.
Proof.
  intros (k & Hk & ->). change 64 with (2 ^ 6). split; apply Z.pow_le_mono_r; lia.
Qed.

Lemma slot_range n fp j : capacity_ok n -> 0 <= slot n fp j < n.
Proof. intros H%capacity_pos. unfold slot. apply Z.mod_pos_bound. lia. Qed.

Lemma first_slot n fp : capacity_ok n -> 0 <= fp -> Z.land fp (u32 (n - 1)) = slot n fp 0.
Proof. intros Hn Hf. unfold slot. rewrite Z.add_0_r. now apply mask_mod. Qed.

Lemma next_slot n fp j : capacity_ok n -> Z.land (u32 (slot n fp j + 1)) (u32 (n - 1)) = slot n fp (j + 1).
Proof.
  intros Hn. pose proof (slot_range n fp j Hn). pose proof (capacity_pos n Hn). rewrite mask_mod by (done || unfold u32; lia).
  destruct Hn as (k & Hk & ->). unfold u32. assert (Hd : (2 ^ 32) mod (2 ^ k) = 0).
  { replace 32 with ((32 - k) + k) by lia. rewrite Z.pow_add_r by lia. apply Z.mod_mul. lia. }
  unfold slot in *. transitivity (((fp + j) mod 2 ^ k + 1) mod 2 ^ k).
  - destruct (Z.eq_dec ((fp + j) mod 2 ^ k + 1) (2 ^ 32)) as [E | E].
    + rewrite E, Z.mod_same, Hd, Z.mod_0_l by lia. done.
    + now rewrite (Z.mod_small _ (2 ^ 32)) by lia.
  - rewrite Z.add_mod_idemp_l by lia. f_equal. lia.
Qed.

(** Every slot is on every path. *)
Lemma reach_slot n fp p : capacity_ok n -> 0 <= p < n -> exists j, 0 <= j < n /\ slot n fp j = p.
Proof.
  intros Hn Hp. exists ((p - fp) mod n). pose proof (Z.mod_pos_bound (p - fp) n). split; [lia|]. unfold slot.
  rewrite Z.add_mod_idemp_r by lia. replace (fp + (p - fp)) with p by lia. apply Z.mod_small. lia.
Qed.

(** ** Entries *)

Definition fingerprint (c : Cell) : Z := be_uint (rev (take 4 (HashKey c))).
Definition hash_ok (c : Cell) : Prop := bytes_ok (HashKey c) /\ len (HashKey c) = 32.
Definition packed (fp : Z) (i : nat) : Z := Z.lor (fp ≪ 32) (u32 (Z.of_nat i + 1)).

Lemma fingerprint_range c : hash_ok c -> 0 <= fingerprint c < 2 ^ 32.
Proof.
  intros [Hb Hl]. unfold fingerprint. assert (Hl4 : len (rev (take 4 (HashKey c))) = 4) by (unfold len in *; rewrite length_rev, length_take; lia).
  assert (Hb4 : bytes_ok (rev (take 4 (HashKey c)))) by (apply Forall_rev, Forall_take, Hb).
  pose proof (be_uint_bound (rev (take 4 (HashKey c))) Hb4) as H. rewrite Hl4 in H. exact H.
Qed.

Lemma bocHashFingerprint_ok c : hash_ok c -> bocHashFingerprint (HashKey c) = Ok (fingerprint c).
Proof.
  intros [_ Hl]. unfold bocHashFingerprint. rewrite subrange_prefix by lia. done.
Qed.

Lemma packed_idx fp i : 0 <= fp < 2 ^ 32 -> Z.of_nat i < 2 ^ 32 - 1 -> u32 (packed fp i) = Z.of_nat i + 1 /\ u32 (packed fp i ≫ 32) = fp.
Proof.
  intros Hf Hi. unfold packed. assert (Hlow : u32 (Z.of_nat i + 1) = Z.of_nat i + 1) by (unfold u32; lia). rewrite Hlow. split.
  - unfold u32. rewrite <-Z.land_ones, Z.land_lor_distr_l, !Z.land_ones, Z.shiftl_mul_pow2, Z.mod_mul, Z.lor_0_l by lia. lia.
  - rewrite Z.shiftr_lor, Z.shiftr_shiftl_l, (Z.shiftr_div_pow2 (Z.of_nat i + 1)) by lia. rewrite Z.div_small, Z.lor_0_r by lia. unfold u32. change (32 - 32) with 0. rewrite Z.shiftl_0_r. lia.
Qed.

Definition idx_of (e : Z) : option nat := if u32 e =? 0 then None else Some (Z.to_nat (u32 e - 1)).

(** The table [entries] holds the positions [stored] of [items]. *)
Record table (items : list Cell) (entries : list Z) (stored : list nat) : Prop := {
  tb_capacity : capacity_ok (len entries);
  tb_stored : omap idx_of entries ≡ₚ stored;
  tb_entry p e i : entries !! p = Some e -> idx_of e = Some i -> exists c, items !! i = Some c /\ e = packed (fingerprint c) i;
  tb_path i c : i ∈ stored -> items !! i = Some c ->
    exists j, 0 <= j < len entries /\ entries !! Z.to_nat (slot (len entries) (fingerprint c) j) = Some (packed (fingerprint c) i) /\
      forall j', 0 <= j' < j -> exists e i', entries !! Z.to_nat (slot (len entries) (fingerprint c) j') = Some e /\ idx_of e = Some i'
}.

Section lookup.
  Context (items : list Cell) (Hitems : Forall hash_ok items) (Hcount : len items < 2 ^ 32 - 1).

Lemma item_small i c : items !! i = Some c -> hash_ok c /\ Z.of_nat i < 2 ^ 32 - 1.
Proof using Hitems Hcount.
  intros H. split; [exact (proj1 (Forall_lookup _ _) Hitems i c H)|]. pose proof (lookup_lt_Some _ _ _ H). unfold len in Hcount. lia.
Qed.

Lemma idx_of_packed i c : items !! i = Some c -> idx_of (packed (fingerprint c) i) = Some i.
Proof using Hitems Hcount.
  intros H. destruct (item_small i c H) as [Hc Hi]. unfold idx_of. destruct (packed_idx (fingerprint c) i (fingerprint_range c Hc) Hi) as [-> _].
  destruct (Z.eqb_spec (Z.of_nat i + 1) 0); [lia|]. f_equal. lia.
Qed.

(** A table that is not full has an empty slot on every path. *)
Lemma empty_slot entries stored fp :
  table items entries stored -> len stored < len entries ->
  exists j e, 0 <= j < len entries /\ entries !! Z.to_nat (slot (len entries) fp j) = Some e /\ u32 e = 0.
Proof using.
  clear. intros [Hn Hs _ _] Hlt. assert (Hex : exists p e, entries !! p = Some e /\ u32 e = 0).
  { apply Permutation_length in Hs. unfold len in Hlt. assert (Hl : (length (omap idx_of entries) < length entries)%nat) by lia. clear - Hl.
    induction entries as [|e l IH]; [cbn in Hl; lia|]. destruct (Z.eqb_spec (u32 e) 0) as [E | E]; [now exists 0%nat, e|].
    cbn in Hl. unfold idx_of in Hl at 1. rewrite (proj2 (Z.eqb_neq (u32 e) 0) E) in Hl. cbn in Hl. destruct IH as (p & e' & Hp & He); [lia|]. now exists (S p), e'. }
  destruct Hex as (p & e & Hp & He). pose proof (lookup_lt_Some _ _ _ Hp). destruct (reach_slot (len entries) fp (Z.of_nat p) Hn ltac:(unfold len; lia)) as (j & Hj & Ej).
  exists j, e. split; [done|]. now rewrite Ej, Nat2Z.id.
Qed.

Lemma index_lookup (entries : list Z) p e : entries !! Z.to_nat p = Some e -> 0 <= p -> index entries p = Ok e.
Proof using.
  clear. intros H Hp. pose proof (lookup_lt_Some _ _ _ H). rewrite index_ok by (unfold len; lia). f_equal. unfold byte_at. now apply nth_lookup_Some.
Qed.

(** No entry passed on the path has the hash. *)
Definition passed (entries : list Z) (stored : list nat) (fp : Z) (hash : list Z) (j : Z) : Prop :=
  forall i c j', i ∈ stored -> items !! i = Some c -> fingerprint c = fp -> HashKey c = hash -> 0 <= j' < j ->
    entries !! Z.to_nat (slot (len entries) fp j') <> Some (packed fp i).

Definition found (stored : list nat) (hash : list Z) (r : option Z) : Prop :=
  match r with
  | Some i => 0 <= i /\ exists c, items !! Z.to_nat i = Some c /\ HashKey c = hash
  | None => forall i c, i ∈ stored -> items !! i = Some c -> HashKey c <> hash
  end.

Lemma probe_ok fuel entries stored fp hash j je ee :
  table items entries stored -> (forall c, HashKey c = hash -> fingerprint c = fp) -> 0 <= j <= je ->
  entries !! Z.to_nat (slot (len entries) fp je) = Some ee -> u32 ee = 0 -> (Z.to_nat (je - j) < fuel)%nat -> passed entries stored fp hash j ->
  exists r, probe fuel entries fp hash items (slot (len entries) fp j) = Ok r /\ found stored hash r.
Proof using Hitems Hcount.
  intros Ht Hfp Hj Hje Hee. revert j Hj. induction fuel as [|fuel IH]; intros j Hj Hfuel Hpass; [lia|]. cbn [probe]. pose proof (tb_capacity _ _ _ Ht) as Hn.
  pose proof (slot_range (len entries) fp j Hn). destruct (lookup_lt_is_Some_2 entries (Z.to_nat (slot (len entries) fp j))) as [e He]; [unfold len in *; lia|].
  rewrite (index_lookup _ _ _ He) by lia. cbn [mbind outcome_bind]. unfold entry_idx, entry_fp. destruct (Z.eqb_spec (u32 e) 0) as [E0 | E0].
  { exists None. split; [done|]. intros i c Hi Hc Heq. specialize (Hfp c Heq). destruct (tb_path _ _ _ Ht i c Hi Hc) as (ji & Hji & Hei & Hbefore). rewrite Hfp in *.
    destruct (Z.lt_trichotomy ji j) as [Hlt | [-> | Hgt]].
    - now apply (Hpass i c ji).
    - rewrite He in Hei. injection Hei as ->. pose proof (idx_of_packed i c Hc) as Hid. rewrite Hfp in Hid. unfold idx_of in Hid. now rewrite E0 in Hid.
    - destruct (Hbefore j ltac:(lia)) as (e' & i' & He' & Hi'). rewrite He in He'. injection He' as <-. unfold idx_of in Hi'. now rewrite E0 in Hi'. }
  assert (Hid : idx_of e = Some (Z.to_nat (u32 e - 1))) by (unfold idx_of; now rewrite (proj2 (Z.eqb_neq _ _) E0)).
  destruct (tb_entry _ _ _ Ht _ _ _ He Hid) as (c & Hc & Ee). destruct (item_small _ _ Hc) as [Hhc Hi].
  destruct (packed_idx (fingerprint c) _ (fingerprint_range c Hhc) Hi) as [Hlow Hhigh]. rewrite <-Ee in Hlow, Hhigh. rewrite Hhigh.
  assert (Hne : j <> je) by (intros ->; rewrite He in Hje; congruence).
  assert (Hcont : ~ (fingerprint c = fp /\ HashKey c = hash) -> exists r, probe fuel entries fp hash items (Z.land (u32 (slot (len entries) fp j + 1)) (u32 (len entries - 1))) = Ok r /\ found stored hash r).
  { intros Hno. rewrite next_slot by done. apply IH; [lia|lia|]. intros i c' j' Hi' Hc' Hf' Hh' Hj' Hlook. destruct (Z.eq_dec j' j) as [-> | ?]; [|apply (Hpass i c' j'); done || lia].
    rewrite He in Hlook. injection Hlook as Hlook. pose proof (idx_of_packed i c' Hc') as Hid'. rewrite Hf', <-Hlook, Hid in Hid'. injection Hid' as <-. rewrite Hc in Hc'. injection Hc' as <-. now apply Hno. }
  destruct (Z.eqb_spec (fingerprint c) fp) as [Ef | Ef].
  - rewrite Hc. cbn [mbind outcome_bind]. unfold bocCellHashEqual. case_bool_decide as Eh.
    + exists (Some (u32 e - 1)). split; [done|]. split; [unfold u32 in *; lia|]. eauto.
    + apply Hcont. now intros [_ ?].
  - apply Hcont. now intros [? _].
Qed.

Lemma table_get entries stored c :
  table items entries stored -> len stored < len entries -> hash_ok c ->
  exists r, probe (length entries) entries (fingerprint c) (HashKey c) items (Z.land (fingerprint c) (u32 (len entries - 1))) = Ok r /\ found stored (HashKey c) r.
Proof using Hitems Hcount.
  intros Ht Hlt Hc. pose proof (tb_capacity _ _ _ Ht) as Hn. destruct (empty_slot _ _ (fingerprint c) Ht Hlt) as (je & ee & Hje & Hle & Hee).
  rewrite first_slot by (done || apply (fingerprint_range c Hc)). apply (probe_ok _ _ _ _ _ 0 je ee Ht); try done; [|lia|unfold len in *; lia|].
  - intros c' E. unfold fingerprint. now rewrite E.
  - intros i c' j' _ _ _ _ Hj'. lia.
Qed.

(** ** Storing *)

Lemma free_slot_ok fuel entries stored fp j je ee :
  table items entries stored -> 0 <= j <= je -> entries !! Z.to_nat (slot (len entries) fp je) = Some ee -> u32 ee = 0 -> (Z.to_nat (je - j) < fuel)%nat ->
  exists jf ef, j <= jf <= je /\ free_slot fuel entries (slot (len entries) fp j) = Ok (slot (len entries) fp jf) /\
    entries !! Z.to_nat (slot (len entries) fp jf) = Some ef /\ u32 ef = 0 /\
    forall j', j <= j' < jf -> exists e i, entries !! Z.to_nat (slot (len entries) fp j') = Some e /\ idx_of e = Some i.
Proof using.
  clear. intros Ht Hj Hje Hee. revert j Hj. induction fuel as [|fuel IH]; intros j Hj Hfuel; [lia|]. cbn [free_slot]. pose proof (tb_capacity _ _ _ Ht) as Hn.
  pose proof (slot_range (len entries) fp j Hn). destruct (lookup_lt_is_Some_2 entries (Z.to_nat (slot (len entries) fp j))) as [e He]; [unfold len in *; lia|].
  rewrite (index_lookup _ _ _ He) by lia. cbn [mbind outcome_bind]. destruct (Z.eqb_spec (u32 e) 0) as [E0 | E0]; cbn [negb].
  - exists j, e. split_and!; try done; [lia..|]. intros j' Hj'. lia.
  - assert (j <> je) by (intros ->; rewrite He in Hje; congruence). rewrite next_slot by done.
    destruct (IH (j + 1) ltac:(lia) ltac:(lia)) as (jf & ef & Hjf & E & Hef & Hz & Hbefore). exists jf, ef. split_and!; try done; [lia..|].
    intros j' Hj'. destruct (Z.eq_dec j' j) as [-> | ?]; [|apply Hbefore; lia]. exists e, (Z.to_nat (u32 e - 1)). split; [done|]. unfold idx_of. now rewrite (proj2 (Z.eqb_neq _ _) E0).
Qed.

Lemma write_one (entries : list Z) p v : 0 <= p < len entries -> write entries p [v] = Ok (<[Z.to_nat p := v]> entries).
Proof using.
  clear. intros Hp. rewrite write_ok by (change (len [v]) with 1; lia). f_equal. unfold splice. cbn [length app]. rewrite insert_take_drop by (unfold len in Hp; lia).
  do 3 f_equal. lia.
Qed.

Lemma omap_insert (entries : list Z) p e v i :
  entries !! p = Some e -> idx_of e = None -> idx_of v = Some i -> omap idx_of (<[p := v]> entries) ≡ₚ i :: omap idx_of entries.
Proof using.
  clear. intros Hp He Hv. rewrite insert_take_drop by (eapply lookup_lt_Some, Hp). rewrite <-(take_drop_middle entries p e Hp) at 3.
  rewrite !omap_app. cbn [omap list_omap]. rewrite He, Hv. symmetry. apply Permutation_middle.
Qed.

Lemma table_insert entries stored i c :
  table items entries stored -> len stored < len entries -> items !! i = Some c -> i ∉ stored ->
  exists entries', (pos ← free_slot (length entries) entries (Z.land (fingerprint c) (u32 (len entries - 1)));
                    write entries pos [packed (fingerprint c) i]) = Ok entries' /\ len entries' = len entries /\ table items entries' (i :: stored).
Proof using Hitems Hcount.
  intros Ht Hlt Hc Hni. pose proof (tb_capacity _ _ _ Ht) as Hn. destruct (item_small i c Hc) as [Hhc Hi]. pose proof (idx_of_packed i c Hc) as Hpk.
  destruct (empty_slot _ _ (fingerprint c) Ht Hlt) as (je & ee & Hje & Hle & Hee). rewrite first_slot by (done || apply (fingerprint_range c Hhc)).
  destruct (free_slot_ok (length entries) _ _ (fingerprint c) 0 je ee Ht ltac:(lia) Hle Hee ltac:(unfold len in *; lia)) as (jf & ef & Hjf & -> & Hef & Hz & Hbefore).
  cbn [mbind outcome_bind]. pose proof (slot_range (len entries) (fingerprint c) jf Hn) as Hsr. set (pf := slot (len entries) (fingerprint c) jf) in *. rewrite write_one by lia.
  assert (Hnone : idx_of ef = None) by (unfold idx_of; now rewrite Hz).
  set (entries' := <[Z.to_nat pf := packed (fingerprint c) i]> entries). assert (Hl : len entries' = len entries) by (unfold len, entries'; now rewrite length_insert).
  exists entries'. split; [done|]. split; [done|]. assert (Hkeep : forall p e i', entries !! p = Some e -> idx_of e = Some i' -> entries' !! p = Some e).
  { intros p e i' Hp Hid. unfold entries'. rewrite list_lookup_insert_ne; [done|]. intros <-. congruence. }
  assert (Hput : entries' !! Z.to_nat pf = Some (packed (fingerprint c) i)) by (apply list_lookup_insert_eq; unfold len in Hsr; lia).
  split; [now rewrite Hl| | |].
  - unfold entries'. rewrite (omap_insert _ _ _ _ i Hef Hnone Hpk). now rewrite (tb_stored _ _ _ Ht).
  - intros p e i' Hp Hid. destruct (decide (p = Z.to_nat pf)) as [-> | Hne].
    + rewrite Hput in Hp. injection Hp as <-. rewrite Hpk in Hid. injection Hid as <-. eauto.
    + unfold entries' in Hp. rewrite list_lookup_insert_ne in Hp by done. apply (tb_entry _ _ _ Ht p e i' Hp Hid).
  - rewrite Hl. intros i' c' [-> | Hi']%elem_of_cons Hc'.
    + rewrite Hc in Hc'. injection Hc' as <-. exists jf. split; [lia|]. split; [done|]. intros j' Hj'. destruct (Hbefore j' ltac:(lia)) as (e & i' & He & Hid). eauto.
    + destruct (tb_path _ _ _ Ht i' c' Hi' Hc') as (ji & Hji & Hei & Hb). exists ji. split; [done|]. split; [eapply Hkeep; [exact Hei|now apply idx_of_packed]|].
      intros j' Hj'. destruct (Hb j' Hj') as (e & i2 & He & Hid). eauto.
Qed.

End lookup.

(** ** The index of a list of cells *)

Record full_index (items : list Cell) (m : bocHashIndex) : Prop := {
  fi_used : ix_used m = len items;
  fi_grow : ix_growAt m = len (ix_entries m) * 3 / 4;
  fi_room : len items <= ix_growAt m;
  fi_table : exists stored, table items (ix_entries m) stored /\ stored ≡ₚ seq 0 (length items)
}.

Definition index_ok (items : list Cell) (m : bocHashIndex) : Prop :=
  (m = no_index /\ items = []) \/ full_index items m.

Lemma insert_ok items entries stored used growAt i c :
  Forall hash_ok items -> len items < 2 ^ 32 - 1 -> table items entries stored -> len stored < len entries -> items !! i = Some c -> i ∉ stored ->
  exists entries', insert (fingerprint c) (Z.of_nat i) (mkIndex entries used growAt) = Ok (mkIndex entries' (used + 1) growAt) /\
    len entries' = len entries /\ table items entries' (i :: stored).
Proof.
  intros Hok Hcount Ht Hlt Hc Hni. destruct (table_insert items Hok Hcount entries stored i c Ht Hlt Hc Hni) as (entries' & E & Hl & Ht').
  exists entries'. split; [|done]. unfold insert. cbn [ix_entries ix_used ix_growAt]. unfold packed in E. destruct (free_slot _ _ _) as [pos | e |]; try done.
  cbn [mbind outcome_bind] in *. now rewrite E.
Qed.

(** Entries moved to a larger table. *)
Lemma reinsert_all items es entries stored used growAt :
  Forall hash_ok items -> len items < 2 ^ 32 - 1 -> table items entries stored ->
  (forall e i, e ∈ es -> idx_of e = Some i -> exists c, items !! i = Some c /\ e = packed (fingerprint c) i) ->
  NoDup (omap idx_of es ++ stored) -> len (omap idx_of es) + len stored <= len entries ->
  exists entries', foldl (fun m entry => m ← m; reinsert m entry) (Ok (mkIndex entries used growAt)) es
                   = Ok (mkIndex entries' (used + len (omap idx_of es)) growAt) /\
    len entries' = len entries /\ table items entries' (rev (omap idx_of es) ++ stored).
Proof.
  intros Hok Hcount. revert entries stored used. induction es as [|e es IH]; intros entries stored used Ht He Hnd Hlen; cbn [foldl].
  { exists entries. change (omap idx_of []) with (@nil nat). rewrite (@len_nil nat), Z.add_0_r. done. }
  cbn [mbind outcome_bind]. unfold reinsert at 2. destruct (idx_of e) as [i |] eqn:Ei.
  - destruct (He e i (list_elem_of_here _ _) Ei) as (c & Hc & Ee). destruct (item_small items Hok Hcount i c Hc) as [Hhc Hi].
    destruct (packed_idx (fingerprint c) i (fingerprint_range c Hhc) Hi) as [Hlow Hhigh]. rewrite <-Ee in Hlow, Hhigh. rewrite Hlow, Hhigh.
    destruct (Z.eqb_spec (Z.of_nat i + 1) 0); [lia|]. replace (Z.of_nat i + 1 - 1) with (Z.of_nat i) by lia.
    assert (Eo : omap idx_of (e :: es) = i :: omap idx_of es) by (cbn [omap list_omap]; now rewrite Ei).
    rewrite Eo in *. rewrite len_cons in Hlen. cbn [app] in Hnd. apply NoDup_cons in Hnd as [Hni Hnd]. pose proof (len_nonneg (omap idx_of es)).
    destruct (insert_ok items entries stored used growAt i c Hok Hcount Ht ltac:(lia) Hc) as (e1 & -> & Hl1 & Ht1); [intros Hin; apply Hni, elem_of_app; now right|].
    destruct (IH e1 (i :: stored) (used + 1) Ht1) as (e2 & E2 & Hl2 & Ht2).
    + intros e' i' Hin. apply He. now right.
    + apply NoDup_app. apply NoDup_app in Hnd as (Hn1 & Hn2 & Hn3). split; [done|]. split; [|constructor; [|done]].
      * intros x Hx [-> | Hs]%elem_of_cons; [apply Hni, elem_of_app; now left|now apply (Hn2 x)].
      * intros Hin. apply Hni, elem_of_app. now right.
    + rewrite len_cons. lia.
    + exists e2. rewrite E2. split; [do 2 f_equal; rewrite len_cons; lia|]. split; [lia|]. cbn [rev]. rewrite <-app_assoc. done.
  - assert (E0 : u32 e = 0) by (unfold idx_of in Ei; destruct (Z.eqb_spec (u32 e) 0); done). rewrite E0. cbn [Z.eqb].
    assert (Eo : omap idx_of (e :: es) = omap idx_of es) by (cbn [omap list_omap]; now rewrite Ei). rewrite Eo in *. apply IH; try done. intros e' i' Hin. apply He. now right.
Qed.

Lemma raise_enough f need cap : need * 4 <= cap * 3 -> raise_capacity f need cap = cap.
Proof. intros H. destruct f; [done|]. cbn [raise_capacity]. destruct (Z.ltb_spec (cap * 3) (need * 4)); [lia|done]. Qed.

Lemma raise_ok f need k : need <= 2 ^ 30 -> 6 <= k <= 31 -> capacity_ok (raise_capacity f need (2 ^ k)).
Proof.
  intros Hn. revert k. induction f as [|f IH]; intros k Hk; cbn [raise_capacity]; [exists k; lia|].
  destruct (Z.ltb_spec (2 ^ k * 3) (need * 4)); [|exists k; lia]. replace (2 ^ k * 2) with (2 ^ (k + 1)) by (rewrite Z.pow_add_r by lia; lia). apply IH.
  split; [lia|]. enough (k < 31) by lia. apply (Z.pow_lt_mono_r_iff 2); lia.
Qed.

Lemma table_empty n : capacity_ok n -> table [] (replicate (Z.to_nat n) 0) [] /\ len (replicate (Z.to_nat n) 0) = n.
Proof.
  intros Hn. assert (Hl : len (replicate (Z.to_nat n) 0) = n) by (unfold len; rewrite length_replicate; apply capacity_pos in Hn; lia). split; [|done].
  assert (Hz : forall p e, replicate (Z.to_nat n) 0 !! p = Some e -> idx_of e = None) by (intros p e [-> _]%lookup_replicate; done).
  split; [now rewrite Hl| | |].
  - replace (omap idx_of (replicate (Z.to_nat n) 0)) with (@nil nat); [done|]. clear. induction (Z.to_nat n) as [|k IH]; [done|]. cbn. exact IH.
  - intros p e i Hp Hi. rewrite (Hz p e Hp) in Hi. done.
  - intros i c Hi. now apply elem_of_nil in Hi.
Qed.

(** A fresh table indexes nothing yet, whatever list it is for. *)
Lemma table_fresh items n : capacity_ok n -> table items (replicate (Z.to_nat n) 0) [].
Proof.
  intros Hn. destruct (table_empty n Hn) as [[H1 H2 H3 _] Hl]. split; [done|done| |].
  - intros p e i Hp Hi. destruct (H3 p e i Hp Hi) as (c & Hc & _). done.
  - intros i c Hi. now apply elem_of_nil in Hi.
Qed.

Lemma table_more items entries stored c :
  table items entries stored -> (forall i, i ∈ stored -> (i < length items)%nat) -> table (items ++ [c]) entries stored.
Proof.
  intros [H1 H2 H3 H4] Hlt. split; [done|done| |].
  - intros p e i Hp Hi. destruct (H3 p e i Hp Hi) as (c' & Hc' & E). exists c'. split; [now apply lookup_app_l_Some|done].
  - intros i c' Hi Hc'. rewrite lookup_app_l in Hc' by auto. now apply H4.
Qed.

Lemma seq_elem (stored : list nat) n i : stored ≡ₚ seq 0 n -> i ∈ stored <-> (i < n)%nat.
Proof. intros ->. rewrite elem_of_seq. lia. Qed.

Lemma full_stored items m stored : full_index items m -> stored ≡ₚ seq 0 (length items) -> len stored = len items.
Proof. intros _ Hs. apply Permutation_length in Hs. rewrite length_seq in Hs. unfold len. lia. Qed.

(** Looking up the hash of a cell. *)
Lemma index_get_ok items m c :
  Forall hash_ok items -> len items < 2 ^ 30 -> index_ok items m -> hash_ok c ->
  exists r, get m (fingerprint c) (HashKey c) items = Ok r /\
    match r with
    | Some i => 0 <= i /\ exists c', items !! Z.to_nat i = Some c' /\ HashKey c' = HashKey c
    | None => forall c', c' ∈ items -> HashKey c' <> HashKey c
    end.
Proof.
  intros Hok Hcount Hm Hc. destruct Hm as [[-> ->] | Hm].
  - exists None. split; [done|]. intros c' Hin. now apply elem_of_nil in Hin.
  - destruct (fi_table _ _ Hm) as (stored & Ht & Hs). pose proof (capacity_pos _ (tb_capacity _ _ _ Ht)). pose proof (fi_room _ _ Hm) as Hroom. rewrite (fi_grow _ _ Hm) in Hroom.
    pose proof (full_stored _ _ _ Hm Hs) as Hls. unfold get. destruct (Z.eqb_spec (len (ix_entries m)) 0); [lia|].
    destruct (table_get items Hok ltac:(lia) _ _ c Ht ltac:(lia) Hc) as (r & -> & Hr). exists r. split; [done|]. destruct r as [i |]; [done|].
    intros c' [i Hi]%list_elem_of_lookup. apply (Hr i c'); [|done]. rewrite (seq_elem _ _ i Hs). eapply lookup_lt_Some, Hi.
Qed.

Lemma grow_ok items m :
  Forall hash_ok items -> len items < 2 ^ 30 -> index_ok items m -> ix_growAt m < ix_used m + 1 ->
  exists m', grow m = Ok m' /\ full_index items m' /\ len items + 1 <= ix_growAt m'.
Proof.
  intros Hok Hcount [[-> ->] | Hm] Hfull.
  - exists (mkIndex (replicate 64 0) 0 48). split; [reflexivity|]. split; [|unfold len; cbn; lia].
    destruct (table_empty 64 ltac:(now exists 6)) as [Ht _]. split; try done. exists []. done.
  - destruct (fi_table _ _ Hm) as (stored & Ht & Hs). pose proof (tb_capacity _ _ _ Ht) as Hn. pose proof (capacity_pos _ Hn). pose proof (fi_room _ _ Hm) as Hroom.
    rewrite (fi_grow _ _ Hm), (fi_used _ _ Hm) in *. unfold grow. rewrite (fi_used _ _ Hm). destruct (Z.eqb_spec (len (ix_entries m) * 2) 0) as [? | _]; [lia|].
    rewrite raise_enough by lia. destruct (Z.eqb_spec (len (ix_entries m)) 0) as [? | _]; [lia|]. set (n := len (ix_entries m)) in *.
    assert (Hn2 : capacity_ok (n * 2)).
    { destruct Hn as (k & Hk & E). exists (k + 1). rewrite Z.pow_add_r by lia. split; [|lia]. split; [lia|]. enough (k < 32) by lia. apply (Z.pow_lt_mono_r_iff 2); lia. }
    pose proof (table_fresh items (n * 2) Hn2) as Hfresh. assert (Hlf : len (replicate (Z.to_nat (n * 2)) 0) = n * 2) by (unfold len; rewrite length_replicate; lia).
    pose proof (Permutation_length (tb_stored _ _ _ Ht)) as Hlo. pose proof (full_stored _ _ _ Hm Hs) as Hls.
    destruct (reinsert_all items (ix_entries m) (replicate (Z.to_nat (n * 2)) 0) [] 0 (n * 2 * 3 / 4) Hok ltac:(lia) Hfresh) as (e' & -> & Hl' & Ht').
    + intros e i [p Hp]%list_elem_of_lookup Hi. apply (tb_entry _ _ _ Ht p e i Hp Hi).
    + rewrite app_nil_r, (tb_stored _ _ _ Ht), Hs. apply NoDup_seq.
    + rewrite Hlf. change (len (@nil nat)) with 0. unfold len in *. lia.
    + eexists. split; [done|]. rewrite Hlf in Hl'. split; [|cbn [ix_growAt]; lia]. split; cbn [ix_used ix_growAt ix_entries]; [unfold len in *; lia|lia|lia|].
      exists (rev (omap idx_of (ix_entries m)) ++ []). split; [done|]. rewrite app_nil_r, <-Permutation_rev, (tb_stored _ _ _ Ht). exact Hs.
Qed.

(** Storing the next position. *)
Lemma index_set_ok items m c :
  Forall hash_ok (items ++ [c]) -> len items < 2 ^ 30 - 1 -> index_ok items m ->
  exists m', set (fingerprint c) (len items) m = Ok m' /\ index_ok (items ++ [c]) m'.
Proof.
  intros Hok Hcount Hm. pose proof Hok as Hok'. apply Forall_app in Hok' as [Hoki _]. unfold set.
  assert (Hgrown : exists m1, (if ix_growAt m <? ix_used m + 1 then grow m else Ok m) = Ok m1 /\ full_index items m1 /\ len items + 1 <= ix_growAt m1).
  { destruct (Z.ltb_spec (ix_growAt m) (ix_used m + 1)); [now apply grow_ok; [..|lia| |]|]. exists m. split; [done|].
    destruct Hm as [[-> ->] | Hm]; [cbn in *; lia|]. split; [done|]. pose proof (fi_used _ _ Hm). lia. }
  destruct Hgrown as (m1 & -> & Hf & Hroom). cbn [mbind outcome_bind]. destruct (fi_table _ _ Hf) as (stored & Ht & Hs). pose proof (full_stored _ _ _ Hf Hs) as Hls.
  pose proof (capacity_pos _ (tb_capacity _ _ _ Ht)). pose proof (fi_grow _ _ Hf) as Hg. destruct m1 as [entries used growAt]. cbn [ix_entries ix_used ix_growAt] in *.
  destruct (insert_ok (items ++ [c]) entries stored used growAt (length items) c Hok) as (e' & E & Hl & Ht').
  - rewrite len_app. change (len [c]) with 1. lia.
  - apply table_more; [done|]. intros i. apply (seq_elem _ _ i Hs).
  - lia.
  - now rewrite lookup_app_r, Nat.sub_diag by lia.
  - rewrite (seq_elem _ _ _ Hs). lia.
  - unfold len at 1. rewrite E. eexists. split; [done|]. right. pose proof (fi_used _ _ Hf) as Hu. cbn [ix_used] in Hu.
    split; cbn [ix_used ix_growAt ix_entries]; rewrite ?len_app; change (len [c]) with 1; try lia.
    exists (length items :: stored). split; [done|]. rewrite length_app. cbn [length]. rewrite Nat.add_1_r, seq_S, Hs. cbn. apply Permutation_cons_append.
Qed.

(** The table a pool may hand over. *)
Definition pooled (m : bocHashIndex) : Prop := ix_entries m = [] \/ capacity_ok (len (ix_entries m)).

Lemma reset_ok hint m : pooled m -> index_ok [] (reset hint m).
Proof.
  intros Hm. unfold reset. set (h := if 1 ≪ 30 <? hint then 1 ≪ 30 else hint). assert (Hh : h <= 2 ^ 30) by (unfold h; change (1 ≪ 30) with (2 ^ 30); destruct (Z.ltb_spec (2 ^ 30) hint); lia).
  assert (Hcap : 0 < h -> capacity_ok (raise_capacity 32 h bocHashIndexInitialCapacity)) by (intros _; change bocHashIndexInitialCapacity with (2 ^ 6); apply raise_ok; lia).
  set (cap := if 0 <? h then raise_capacity 32 h bocHashIndexInitialCapacity else 0). set (n := Z.max cap (len (ix_entries m))).
  assert (Hn : n = 0 \/ capacity_ok n).
  { pose proof (len_nonneg (ix_entries m)). destruct (Z.max_spec cap (len (ix_entries m))) as [[_ E] | [Hle E]]; fold n in E; rewrite E.
    - destruct Hm as [Hm | Hm]; [left; now rewrite Hm|now right].
    - unfold cap in *. destruct (Z.ltb_spec 0 h); [right; auto|now left]. }
  destruct Hn as [-> | Hn]; [left; done|right]. destruct (table_empty n Hn) as [Ht Hl]. pose proof (capacity_pos n Hn).
  split; cbn [ix_used ix_growAt ix_entries]; rewrite ?Hl; try done; [change (len (@nil Cell)) with 0; lia|]. now exists [].
Qed.
