(* ===== verification/BocSerialize.v ===== *)
(** * Writing bags of cells

    Models [tvm/cell/serialize.go], [serialize_options.go] and the serializing part of
    [boc_scratch.go]: the cells below the roots are collected without repetition,
    weighed, renumbered so that references point backwards in the list, and written
    from the last to the first.  Cells are loaded and not virtualized.  The walk over
    the tree takes the depth limit as its fuel; [revisit] takes two units per cell,
    since it enters a cell once to scan and once to link. *)

From S2P Require Import Prelude Bytes Sha256 CellModel Finalize Checksums BocIndex.
From stdpp Require Import strings.
#[local] Open Scope Z_scope.

Definition bocMaxCellWeight : Z := 64.
Definition bocInvalidCellIndex : Z := Z.ones 32.
Definition bocVisitScanned : Z := bocInvalidCellIndex - 1.
Definition bocVisitLinked : Z := bocInvalidCellIndex - 2.

Record BOCSerializeOptions : Type := mkOptions {
  WithCRC32C : bool;
  WithIndex : bool;
  WithCacheBits : bool;
  WithTopHash : bool;
  WithIntHashes : bool;
  CellsCountHint : Z
}.

Record bocSerializeItem : Type := mkItem {
  si_cell : Cell;
  si_refs : list Z;
  si_wt : Z;
  si_hcnt : Z;
  si_cache : bool;
  si_root : bool
}.

Definition isSpecial (i : bocSerializeItem) : bool := si_wt i =? 0.

Definition with_wt (wt : Z) (i : bocSerializeItem) : bocSerializeItem :=
  mkItem (si_cell i) (si_refs i) wt (si_hcnt i) (si_cache i) (si_root i).
Definition with_cache (i : bocSerializeItem) : bocSerializeItem :=
  mkItem (si_cell i) (si_refs i) (si_wt i) (si_hcnt i) true (si_root i).
Definition with_root (i : bocSerializeItem) : bocSerializeItem :=
  mkItem (si_cell i) (si_refs i) (si_wt i) (si_hcnt i) (si_cache i) true.
Definition with_links (refs : list Z) (i : bocSerializeItem) : bocSerializeItem :=
  mkItem (si_cell i) refs (si_wt i) (si_hcnt i) (si_cache i) (si_root i).

(** The serializer; [cellCount] is the length of [cellList]. *)
Record bocSerializer : Type := mkSerializer {
  sz_intRefs : Z;
  sz_intHashes : Z;
  sz_topHashes : Z;
  sz_dataBytes : Z;
  sz_index : HashIndex.bocHashIndex;
  sz_list : list bocSerializeItem
}.

Definition cellCount (s : bocSerializer) : Z := len (sz_list s).

Definition with_list (l : list bocSerializeItem) (s : bocSerializer) : bocSerializer :=
  mkSerializer (sz_intRefs s) (sz_intHashes s) (sz_topHashes s) (sz_dataBytes s) (sz_index s) l.

(** [&s.cellList[i]] *)
Definition item_of (l : list bocSerializeItem) (i : Z) : outcome bocSerializeItem :=
  if i <? 0 then Panic else match l !! Z.to_nat i with Some it => Ok it | None => Panic end.

(** ** Sizes *)

Definition SerializedBOCBodySize (c : Cell) : Z := (c_bitsSz c + 7) / 8.

Definition serializedBOCSize (c : Cell) (withHashes : bool) : Z :=
  let size := 2 + SerializedBOCBodySize c in
  if withHashes then size + LevelMask.getHashesCount (c_mask c) * (hashSize + depthSize) else size.

(** ** Collecting cells *)

Fixpoint importRefs (import : Cell -> M bocSerializer Z) (refs : list Cell) (ids : list Z) (sum : Z) : M bocSerializer (list Z * Z) :=
  match refs with
  | [] => mret (ids, sum)
  | ref :: refs =>
      refIdx ← import ref;
      s ← get_state;
      child ← lift (item_of (sz_list s) refIdx);
      modify (fun s => mkSerializer (sz_intRefs s + 1) (sz_intHashes s) (sz_topHashes s) (sz_dataBytes s) (sz_index s) (sz_list s)) ;;
      importRefs import refs (ids ++ [refIdx]) (sum + si_wt child)
  end.

Fixpoint importCell (fuel : nat) (cell : Cell) : M bocSerializer Z :=
  match fuel with
  | O => fail (ErrText "cell depth too large")
  | S fuel =>
      let hash := HashKey cell in
      hashFingerprint ← lift (HashIndex.bocHashFingerprint hash);
      s ← get_state;
      pos ← lift (HashIndex.get (sz_index s) hashFingerprint hash (si_cell <$> sz_list s));
      match pos with
      | Some pos =>
          modify (fun s => with_list (alter with_cache (Z.to_nat pos) (sz_list s)) s) ;;
          mret pos
      | None =>
          '(refs, sumChildWeight) ← importRefs (importCell fuel) (c_refs cell) [] 1;
          let wt := if 255 <? sumChildWeight then 255 else sumChildWeight in
          s ← get_state;
          let idx := cellCount s in
          guard_err (bocVisitLinked <=? idx) (ErrText "too many cells to serialize") ;;
          cellIndex ← lift (HashIndex.set hashFingerprint idx (sz_index s));
          put_state (mkSerializer (sz_intRefs s) (sz_intHashes s) (sz_topHashes s)
            (u64 (sz_dataBytes s + serializedBOCSize cell false)) cellIndex
            (sz_list s ++ [mkItem cell refs wt (u8 (LevelMask.getHashesCount (c_mask cell))) false false])) ;;
          mret idx
      end
  end.

Fixpoint importRoots (roots : list Cell) : M bocSerializer (list Z) :=
  match roots with
  | [] => mret []
  | root :: roots =>
      idx ← importCell (Z.to_nat (maxDepth + 1)) root;
      ids ← importRoots roots;
      mret (idx :: ids)
  end.

(** ** Weights *)

(** The children light enough to keep their weight: the weight left, how many are
    heavier, and which are light. *)
Definition light_children (l : list bocSerializeItem) (refs : list Z) : outcome (Z * Z * list bool) :=
  foldl (fun acc jr =>
           '(remaining, sum, mask) ← acc;
           let '(j, r) := jr in
           child ← item_of l r;
           let limit := (bocMaxCellWeight - 1 + Z.of_nat j) / len refs in
           if si_wt child <=? limit then Ok (remaining - 1, sum - si_wt child, mask ++ [true])
           else Ok (remaining, sum, mask ++ [false]))
    (Ok (len refs, bocMaxCellWeight - 1, [])) (zip (seq 0 (length refs)) refs).

(** The heavier ones share what is left. *)
Definition limit_heavy (l : list bocSerializeItem) (refs : list Z) (remaining sum : Z) (mask : list bool)
    : outcome (list bocSerializeItem) :=
  '(l, _) ← foldl (fun acc rm =>
             '(l, sum) ← acc;
             let '(r, light) := rm in
             if light : bool then Ok (l, sum)
             else
               child ← item_of l r;
               let limit := sum / remaining in
               Ok ((if limit <? si_wt child then alter (with_wt (u8 limit)) (Z.to_nat r) l else l), sum + 1))
    (Ok (l, sum)) (zip refs mask);
  Ok l.

Definition limit_weights (l : list bocSerializeItem) (i : nat) : outcome (list bocSerializeItem) :=
  item ← item_of l (Z.of_nat i);
  '(remaining, sum, mask) ← light_children l (si_refs item);
  if remaining =? 0 then Ok l else limit_heavy l (si_refs item) remaining sum mask.

Definition sum_weights (l : list bocSerializeItem) (refs : list Z) : outcome Z :=
  foldl (fun acc r => sum ← acc; child ← item_of l r; Ok (sum + si_wt child)) (Ok 1) refs.

Definition settle_weight (acc : list bocSerializeItem * Z) (i : nat) : outcome (list bocSerializeItem * Z) :=
  let '(l, intHashes) := acc in
  item ← item_of l (Z.of_nat i);
  sum ← sum_weights l (si_refs item);
  if sum <=? si_wt item then Ok (alter (with_wt (u8 sum)) i l, intHashes)
  else Ok (alter (with_wt 0) i l, intHashes + si_hcnt item).

Definition mark_root (acc : list bocSerializeItem * Z) (idx : Z) : outcome (list bocSerializeItem * Z) :=
  let '(l, topHashes) := acc in
  item ← item_of l idx;
  if si_root item then Ok acc
  else Ok (alter with_root (Z.to_nat idx) l, if negb (si_wt item =? 0) then topHashes + si_hcnt item else topHashes).

(** A loop whose body can fail. *)
Definition loop {A B} (f : A -> B -> outcome A) (l : list B) (a : A) : outcome A := foldl (fun acc b => a ← acc; f a b) (Ok a) l.

(** ** Renumbering *)

Record visit : Type := mkVisit {
  vi_list : list bocSerializeItem;
  vi_new : list Z;
  vi_next : Z
}.

Definition set_new (pos v : Z) : M visit unit :=
  modify (fun s => mkVisit (vi_list s) (<[Z.to_nat pos := v]> (vi_new s)) (vi_next s)).

(** [for j := refNum - 1; j >= 0; j--] *)
Fixpoint each_ref (f : nat -> M visit unit) (n : nat) : M visit unit :=
  match n with
  | O => mret tt
  | S n => f n ;; each_ref f n
  end.

Definition ref_of (s : visit) (pos : Z) (j : nat) : outcome Z :=
  item ← item_of (vi_list s) pos;
  match si_refs item !! j with Some r => Ok r | None => Panic end.

Fixpoint revisit (fuel : nat) (pos force : Z) : M visit Z :=
  match fuel with
  | O => lift Panic
  | S fuel =>
      s ← get_state;
      item ← lift (item_of (vi_list s) pos);
      new ← lift (index (vi_new s) pos);
      let refNum := length (si_refs item) in
      if new <? bocVisitLinked then mret new
      else if force =? 0 then
        if negb (new =? bocInvalidCellIndex) then mret new
        else
          each_ref (fun j =>
            s ← get_state;
            childIdx ← lift (ref_of s pos j);
            child ← lift (item_of (vi_list s) childIdx);
            revisit fuel childIdx (if isSpecial child then 1 else 0) ;;
            mret tt) refNum ;;
          set_new pos bocVisitScanned ;;
          mret bocVisitScanned
      else if 1 <? force then
        let idx := vi_next s in
        put_state (mkVisit (vi_list s) (<[Z.to_nat pos := idx]> (vi_new s)) (u32 (idx + 1))) ;;
        mret idx
      else if new =? bocVisitLinked then mret new
      else
        (if isSpecial item then revisit fuel pos 0 ;; mret tt else mret tt) ;;
        each_ref (fun j =>
          s ← get_state;
          r ← lift (ref_of s pos j);
          revisit fuel r 1 ;;
          mret tt) refNum ;;
        each_ref (fun j =>
          s ← get_state;
          r ← lift (ref_of s pos j);
          idx ← revisit fuel r 2;
          modify (fun s => mkVisit (alter (fun it => with_links (<[j := idx]> (si_refs it)) it) (Z.to_nat pos) (vi_list s))
                             (vi_new s) (vi_next s))) refNum ;;
        set_new pos bocVisitLinked ;;
        mret bocVisitLinked
  end.

Definition visit_fuel (l : list bocSerializeItem) : nat := S (S (2 * length l)).

Fixpoint link_roots (fuel : nat) (roots : list Z) : M visit unit :=
  match roots with
  | [] => mret tt
  | r :: roots => revisit fuel r 0 ;; revisit fuel r 1 ;; link_roots fuel roots
  end.

Fixpoint number_roots (fuel : nat) (roots : list Z) : M visit (list Z) :=
  match roots with
  | [] => mret []
  | r :: roots => idx ← revisit fuel r 2; ids ← number_roots fuel roots; mret (idx :: ids)
  end.

Definition swap {A} (i j : nat) (l : list A) : list A :=
  match l !! i, l !! j with Some x, Some y => <[j := x]> (<[i := y]> l) | _, _ => l end.

(** [for indexes[i] != i { swap both with position indexes[i] }] *)
Fixpoint settle (fuel : nat) (i : nat) (st : list bocSerializeItem * list Z) : outcome (list bocSerializeItem * list Z) :=
  let '(l, indexes) := st in
  dst ← index indexes (Z.of_nat i);
  if dst =? Z.of_nat i then Ok st
  else match fuel with
       | O => Panic
       | S fuel =>
           item_of l dst ;; index indexes dst ;;
           settle fuel i (swap i (Z.to_nat dst) l, swap i (Z.to_nat dst) indexes)
       end.

Definition reorderInPlace (l : list bocSerializeItem) (indexes : list Z) : outcome (list bocSerializeItem) :=
  '(l, _) ← loop (fun st i => settle (length l) i st) (seq 0 (length l)) (l, indexes);
  Ok l.

Definition reorderCells (s : bocSerializer) (roots : list Z) : outcome (bocSerializer * list Z) :=
  let n := length (sz_list s) in
  l ← loop limit_weights (rev (seq 0 n)) (sz_list s);
  '(l, intHashes) ← loop settle_weight (seq 0 n) (l, 0);
  '(l, topHashes) ← loop mark_root roots (l, 0);
  let s := mkSerializer (sz_intRefs s) intHashes topHashes (sz_dataBytes s) (sz_index s) l in
  if (n =? 0)%nat then Ok (s, roots)
  else
    let fuel := visit_fuel l in
    '(ids, v) ← run (link_roots fuel roots ;; number_roots fuel roots) (mkVisit l (replicate n bocInvalidCellIndex) 0);
    l ← reorderInPlace (vi_list v) (vi_new v);
    Ok (with_list l s, ids).

(** [prepare]: the serializer of the roots and their positions. *)
Definition prepare (pool : HashIndex.bocHashIndex) (roots : list Cell) (cellsCountHint : Z) : outcome (bocSerializer * list Z) :=
  '(ids, s) ← run (importRoots roots) (mkSerializer 0 0 0 0 (HashIndex.reset cellsCountHint pool) []);
  '(s, ids) ← reorderCells s ids;
  if cellCount s =? 0 then Err (ErrText "no cells to serialize") else Ok (s, ids).

(** ** Layout *)

Record bocSerializeInfo : Type := mkInfo {
  fo_refByteSize : Z;
  fo_offsetByteSize : Z;
  fo_dataSize : Z;
  fo_totalSize : Z
}.

(** [for v >= 1 << (8*n) { n++ }]: a 64-bit value takes at most eight rounds; at a
    shift by 64 the bound is zero and the loop goes on. *)
Fixpoint byte_size (fuel : nat) (v : Z) (n : Z) : Z :=
  match fuel with
  | O => n
  | S fuel => if u64 (1 ≪ (8 * n)) <=? v then byte_size fuel v (n + 1) else n
  end.

Definition shouldSerializeHashes (opts : BOCSerializeOptions) (item : bocSerializeItem) : bool :=
  (WithIntHashes opts && (si_wt item =? 0)) || (si_root item && WithTopHash opts).

Definition computeSizes (s : bocSerializer) (roots : list Z) (opts : BOCSerializeOptions) : Z * Z * Z :=
  if (len roots =? 0) || (sz_dataBytes s =? 0) then (0, 0, 0)
  else
    let refByteSize := byte_size 9 (cellCount s) 0 in
    let hashBytes := (if WithTopHash opts then sz_topHashes s else 0) + (if WithIntHashes opts then sz_intHashes s else 0) in
    let dataSize := u64 (sz_dataBytes s + sz_intRefs s * refByteSize + hashBytes * (hashSize + depthSize)) in
    let maxOffset := if WithCacheBits opts then u64 (dataSize * 2) else dataSize in
    let offsetByteSize := byte_size 9 maxOffset 0 in
    if (refByteSize <? 1) || (4 <? refByteSize) || (offsetByteSize <? 1) || (8 <? offsetByteSize) then (0, 0, 0)
    else (dataSize, refByteSize, offsetByteSize).

Definition dataOffset (s : bocSerializer) (roots : list Z) (opts : BOCSerializeOptions) (rs os : Z) : Z :=
  4 + 1 + 1 + 3 * rs + os + len roots * rs + (if WithIndex opts then cellCount s * os else 0).

Definition estimateSerializedSize (s : bocSerializer) (roots : list Z) (opts : BOCSerializeOptions) : option bocSerializeInfo :=
  if WithCacheBits opts && negb (WithIndex opts) then None
  else
    let '(dataSize, rs, os) := computeSizes s roots opts in
    if dataSize =? 0 then None
    else
      let totalSize := u64 (dataOffset s roots opts rs os + dataSize) in
      let totalSize := if WithCRC32C opts then u64 (totalSize + 4) else totalSize in
      Some (mkInfo rs os dataSize totalSize).

(** [storeUintTo]: the low [sz] bytes, the highest first. *)
Definition storeUintTo (val sz : Z) : list Z :=
  if sz =? 1 then [u8 val]
  else if sz =? 2 then be_bytes 2 (u16 val)
  else if sz =? 3 then [u8 (val ≫ 16); u8 (val ≫ 8); u8 val]
  else if sz =? 4 then be_bytes 4 (u32 val)
  else rev (fst (Nat.iter (Z.to_nat sz) (fun '(l, v) => (l ++ [u8 v], v ≫ 8)) ([], val))).

Definition levels_of (mask : Z) : list Z :=
  filter (fun i => LevelMask.IsSignificant mask i) (Z.of_nat <$> seq 0 (Z.to_nat (LevelMask.GetLevel mask + 1))).

Definition serializeBOCTo (c : Cell) (withHashes : bool) : outcome (list Z) :=
  let levelMask := c_mask c in
  let dsc := descriptors c levelMask in
  body ← SerializeBOCBodyTo c;
  if withHashes then
    Ok ([Z.lor (fst dsc) 16; snd dsc] ++ (levels_of levelMask ≫= getHash c)
        ++ (levels_of levelMask ≫= (fun i => be_bytes 2 (getDepth c i))) ++ body)
  else Ok ([fst dsc; snd dsc] ++ body).

Definition bocMagic : list Z := [0xB5; 0xEE; 0x9C; 0x72].

Definition flags_byte (opts : BOCSerializeOptions) (refByteSize : Z) : Z :=
  let flags := u8 refByteSize in
  let flags := if WithIndex opts then Z.lor flags (1 ≪ 7) else flags in
  let flags := if WithCRC32C opts then Z.lor flags (1 ≪ 6) else flags in
  if WithCacheBits opts then Z.lor flags (1 ≪ 5) else flags.

(** ** The pieces of the output, in the order they are written *)

Section writer.
  (** Where a piece goes. *)
  Context {W : Type} (emit : list Z -> M W unit).

Fixpoint emit_uints (vs : list Z) (sz : Z) : M W unit :=
  match vs with
  | [] => mret tt
  | v :: vs => emit (storeUintTo v sz) ;; emit_uints vs sz
  end.

(** The index, over the items from the last to the first. *)
Fixpoint emit_index (opts : BOCSerializeOptions) (rs os : Z) (items : list bocSerializeItem) (offs : Z) : M W unit :=
  match items with
  | [] => mret tt
  | item :: items =>
      let offs := u64 (offs + (serializedBOCSize (si_cell item) (shouldSerializeHashes opts item) + len (si_refs item) * rs)) in
      let offset := if WithCacheBits opts then u64 (u64 (offs * 2) + (if si_cache item then 1 else 0)) else offs in
      emit (storeUintTo offset os) ;;
      emit_index opts rs os items offs
  end.

(** The cells, over the items from the last to the first; [count] items in all. *)
Fixpoint emit_cells (opts : BOCSerializeOptions) (count rs : Z) (items : list bocSerializeItem) : M W unit :=
  match items with
  | [] => mret tt
  | item :: items =>
      bytes ← lift (serializeBOCTo (si_cell item) (shouldSerializeHashes opts item));
      emit bytes ;;
      emit_uints ((fun r => u64 (count - 1 - r)) <$> si_refs item) rs ;;
      emit_cells opts count rs items
  end.

Definition emit_bag (s : bocSerializer) (roots : list Z) (opts : BOCSerializeOptions) (info : bocSerializeInfo) : M W unit :=
  let count := cellCount s in
  let rs := fo_refByteSize info in
  let os := fo_offsetByteSize info in
  emit bocMagic ;;
  emit [flags_byte opts rs] ;;
  emit [u8 os] ;;
  emit (storeUintTo count rs) ;;
  emit (storeUintTo (len roots) rs) ;;
  emit (storeUintTo 0 rs) ;;
  emit (storeUintTo (fo_dataSize info) os) ;;
  emit_uints ((fun r => u64 (count - 1 - r)) <$> roots) rs ;;
  (if WithIndex opts then emit_index opts rs os (rev (sz_list s)) 0 else mret tt) ;;
  emit_cells opts count rs (rev (sz_list s)).

End writer.

(** ** Writing to memory *)

(** A write to the next bytes of a buffer of [total] bytes. *)
Definition to_buffer (total : Z) (bytes : list Z) : M (list Z) unit :=
  out ← get_state;
  if total <? len out + len bytes then lift Panic else put_state (out ++ bytes).

Definition le_bytes4 (v : Z) : list Z := rev (be_bytes 4 v).

(** [appendTo] on an empty destination. *)
Definition serialize (s : bocSerializer) (roots : list Z) (opts : BOCSerializeOptions) : outcome (list Z) :=
  match estimateSerializedSize s roots opts with
  | None => Err (ErrText "failed to serialize boc")
  | Some info =>
      let total := fo_totalSize info in
      if 2 ^ 63 - 1 <? total then Err (ErrText "boc is too big")
      else
        '(_, data) ← run (emit_bag (to_buffer total) s roots opts info ;;
                          if WithCRC32C opts then
                            data ← get_state;
                            to_buffer total (le_bytes4 (Crc32.Checksum data))
                          else mret tt) [];
        Ok (data ++ replicate (Z.to_nat (total - len data)) 0)
  end.

(** [Serialize] of a scratch with the table [pool]. *)
Definition ToBOCWithOptionsErr (pool : HashIndex.bocHashIndex) (roots : list Cell) (opts : BOCSerializeOptions) : outcome (list Z) :=
  if len roots =? 0 then Ok []
  else
    '(s, ids) ← prepare pool roots (CellsCountHint opts);
    match serialize s ids opts with
    | Err _ => Err (ErrText "failed to serialize boc")
    | r => r
    end.
