(* ===== verification/BocParse.v ===== *)
(** * Reading bags of cells

    Models [tvm/cell/parse.go] and [parse_finalize.go] for input in memory, without
    lazy subtrees: the header, the cells of the payload with their references by
    number, then the hashes of the cells from the last to the first.  References point
    forward, so a cell is finished after the cells it refers to.  The reader is the
    list of the bytes left. *)

From S2P Require Import Prelude Bytes CellModel Finalize Checksums BocSerialize.
From stdpp Require Import strings.
#[local] Open Scope Z_scope.

Definition bocIdxMagic : list Z := [0x68; 0xFF; 0x65; 0xF3].
Definition bocIdxCRC32CMagic : list Z := [0xAC; 0xC3; 0xA7; 0x28].

Definition MaxBOCRoots : Z := 16384.
Definition MaxBOCCells : Z := 1 ≪ 20.
Definition maxBOCDeclaredPayloadBytesPerCell : Z := 1 ≪ 10.

Definition maxBOCPayloadBytesForCells (maxCells : Z) : Z :=
  if maxCells <=? 0 then 0
  else if (2 ^ 63 - 1) / maxBOCDeclaredPayloadBytesPerCell <? maxCells then 2 ^ 63 - 1
  else maxCells * maxBOCDeclaredPayloadBytesPerCell.

Record BOCParseOptions : Type := mkParseOptions {
  TrustedHashes : bool;
  MaxCells : Z;
  AllowNonZeroLevelRoot : bool
}.

(** ** The reader *)

Definition ErrUnexpectedEOF : error := ErrText "unexpected EOF".

Definition readDirect (num : Z) : M (list Z) (list Z) :=
  data ← get_state;
  guard_err (len data <? num) ErrUnexpectedEOF ;;
  put_state (drop (Z.to_nat num) data) ;;
  mret (take (Z.to_nat num) data).

Definition readByte : M (list Z) Z :=
  data ← readDirect 1;
  lift (index data 0).

(** [dynInt]: an [int] from at most eight bytes, the highest first. *)
Definition dynInt (data : list Z) : Z :=
  let n := len data in
  if n =? 0 then 0
  else if n =? 1 then byte_at data 0
  else if n =? 2 then be_uint data
  else if n =? 3 then Z.lor (Z.lor (byte_at data 0 ≪ 16) (byte_at data 1 ≪ 8)) (byte_at data 2)
  else if n =? 4 then be_uint data
  else s64 (foldl (fun v b => Z.lor (u64 (v ≪ 8)) b) 0 data).

Definition readDynInt (size : Z) : M (list Z) Z :=
  guard_err ((size <? 0) || (8 <? size)) (ErrText "invalid dynamic integer size") ;;
  data ← readDirect size;
  mret (dynInt data).

(** ** The header *)

Record bocFlags : Type := mkFlags {
  fl_hasIndex : bool;
  fl_HasCrc32c : bool;
  fl_hasCacheBits : bool
}.

Definition parseBOCFlags (data : Z) : bocFlags * Z :=
  (mkFlags (0 <? Z.land data (1 ≪ 7)) (0 <? Z.land data (1 ≪ 6)) (0 <? Z.land data (1 ≪ 5)), Z.land data 7).

Definition matchBOCMagic (magic expected : list Z) : bool := bool_decide (magic = expected).

Record header : Type := mkHeader {
  hd_flags : bocFlags;
  hd_cellNumSizeBytes : Z;
  hd_dataSizeBytes : Z;
  hd_cellsNum : Z;
  hd_dataLen : Z;
  hd_rootsIndex : list Z;
  hd_index : list Z
}.

Definition max_cells (options : BOCParseOptions) : Z := if MaxCells options <=? 0 then MaxBOCCells else MaxCells options.

Fixpoint read_roots (n : nat) (size cellsNum : Z) : M (list Z) (list Z) :=
  match n with
  | O => mret []
  | S n =>
      rootIndex ← readDynInt size;
      guard_err ((rootIndex <? 0) || (cellsNum <=? rootIndex)) (ErrText "invalid root index") ;;
      rest ← read_roots n size cellsNum;
      mret (u32 rootIndex :: rest)
  end.

(** Magic, flags and sizes. *)
Definition read_format : M (list Z) (bool * bocFlags * Z * Z) :=
  magic ← (fun s => match readDirect 4 s with (Err _, s) => (Err (ErrText "invalid boc"), s) | r => r end);
  let plain := matchBOCMagic magic bocMagic in
  let idx := matchBOCMagic magic bocIdxMagic in
  let idxCRC := matchBOCMagic magic bocIdxCRC32CMagic in
  guard_err (negb (plain || idx || idxCRC)) (ErrText "invalid boc magic header") ;;
  let legacyIndexed := negb plain in
  flagsByte ← readByte;
  let '(flags, cellNumSizeBytes) := parseBOCFlags flagsByte in
  let flags := if legacyIndexed then mkFlags true idxCRC false else flags in
  guard_err ((cellNumSizeBytes <? 1) || (4 <? cellNumSizeBytes)) (ErrText "invalid boc size descriptor") ;;
  dataSizeBytes ← readByte;
  guard_err ((dataSizeBytes <? 1) || (8 <? dataSizeBytes)) (ErrText "invalid boc offset descriptor") ;;
  mret (legacyIndexed, flags, cellNumSizeBytes, dataSizeBytes).

(** The counters and their limits: cells, roots and payload bytes. *)
Definition read_counters (options : BOCParseOptions) (legacyIndexed : bool) (cellNumSizeBytes dataSizeBytes : Z) : M (list Z) (Z * Z * Z) :=
  cellsNum ← readDynInt cellNumSizeBytes;
  rootsNum ← readDynInt cellNumSizeBytes;
  guard_err ((cellsNum <=? 0) || (rootsNum <=? 0)) (ErrText "invalid boc counters") ;;
  guard_err (legacyIndexed && negb (rootsNum =? 1)) (ErrText "invalid boc counters") ;;
  let maxCells := max_cells options in
  guard_err ((0 <? maxCells) && (maxCells <? cellsNum)) (ErrText "too many cells in boc") ;;
  guard_err ((0 <? MaxBOCRoots) && (MaxBOCRoots <? rootsNum)) (ErrText "too many roots in boc") ;;
  absentNum ← readDynInt cellNumSizeBytes;
  guard_err ((absentNum <? 0) || (cellsNum <? absentNum)) (ErrText "invalid boc counters") ;;
  dataLen ← readDynInt dataSizeBytes;
  let minDataLen := cellsNum * (2 + cellNumSizeBytes) - cellNumSizeBytes in
  guard_err ((0 <? cellsNum) && (dataLen <? minDataLen)) (ErrText "invalid boc cells data size") ;;
  let maxPayloadBytes := maxBOCPayloadBytesForCells maxCells in
  guard_err ((0 <? maxPayloadBytes) && (maxPayloadBytes <? dataLen)) (ErrText "boc cells data size is too big") ;;
  guard_err ((0 <? cellsNum) && (cellsNum * maxBOCDeclaredPayloadBytesPerCell <? u64 dataLen)) (ErrText "boc cells data size is too big for cells count") ;;
  mret (cellsNum, rootsNum, dataLen).

Definition read_header (options : BOCParseOptions) : M (list Z) header :=
  '(legacyIndexed, flags, cellNumSizeBytes, dataSizeBytes) ← read_format;
  '(cellsNum, rootsNum, dataLen) ← read_counters options legacyIndexed cellNumSizeBytes dataSizeBytes;
  guard_err (fl_hasCacheBits flags && negb (fl_hasIndex flags)) (ErrText "cache flag cant be set without index flag") ;;
  rootsIndex ← (if legacyIndexed : bool then mret [0] else read_roots (Z.to_nat rootsNum) cellNumSizeBytes cellsNum);
  idxData ← (if fl_hasIndex flags then readDirect (cellsNum * dataSizeBytes) else mret []);
  guard_err (dataLen / 2 <? cellsNum) (ErrText "cells num looks malicious") ;;
  mret (mkHeader flags cellNumSizeBytes dataSizeBytes cellsNum dataLen rootsIndex idxData).

(** ** Cells of the payload *)

(** [rawEnd] of the index. *)
Definition rawEnd (h : header) (i : Z) : outcome Z :=
  let off := i * hd_dataSizeBytes h in
  b ← subrange (hd_index h) off (off + hd_dataSizeBytes h);
  Ok (dynInt b).

(** Where cell [i] ends, and its cache bit. *)
Definition cellEndAndCacheBit (h : header) (i : Z) : outcome (Z * bool) :=
  end_ ← rawEnd h i;
  if negb (fl_hasCacheBits (hd_flags h)) then Ok (end_, false) else Ok (Z.quot end_ 2, Z.odd end_).

(** How often a cell is referred to, capped at two, and the cache bit of the index. *)
Definition incBOCCacheRef (cacheRefs : list (Z * bool)) (idx : Z) : list (Z * bool) :=
  alter (fun '(n, b) => (if n <? 2 then n + 1 else n, b)) (Z.to_nat idx) cacheRefs.
Definition setBOCIndexCacheBit (cacheRefs : list (Z * bool)) (i : Z) : list (Z * bool) :=
  alter (fun '(n, _) => (n, true)) (Z.to_nat i) cacheRefs.

(** A cell before its hashes are known; its references are numbers. *)
Record rawCell : Type := mkRaw {
  rw_data : list Z;
  rw_bitsSz : Z;
  rw_special : bool;
  rw_mask : Z;
  rw_refs : list Z
}.

Record storedHashesDepths : Type := mkStored {
  st_cellIndex : Z;
  st_hashes : list Z;
  st_depths : list Z
}.

(** The state of the loop: bytes left, payload bytes read, cache references, cells and
    stored hashes, both in order. *)
Record parsing : Type := mkParsing {
  pa_data : list Z;
  pa_offset : Z;
  pa_cache : list (Z * bool);
  pa_cells : list rawCell;
  pa_stored : list storedHashesDepths
}.

Definition read_payload (dataLen n : Z) : M parsing (list Z) :=
  s ← get_state;
  guard_err (dataLen - pa_offset s <? n) ErrUnexpectedEOF ;;
  '(b, rest) ← lift (run (readDirect n) (pa_data s));
  put_state (mkParsing rest (pa_offset s + n) (pa_cache s) (pa_cells s) (pa_stored s)) ;;
  mret b.

Definition cellBodyBitsSizeFromLast (payloadSize last : Z) : option Z :=
  let terminatorBit := if last =? 0 then 8 else LevelMask.GetLevel (Z.land last (- last)) - 1 in
  if 7 <=? terminatorBit then None else Some (u16 ((payloadSize - 1) * 8 + 7 - terminatorBit)).

(** The reference numbers of a cell, [size] bytes each. *)
Fixpoint ref_ids (n : nat) (size : Z) (buf : list Z) : list Z :=
  match n with
  | O => []
  | S n => dynInt (take (Z.to_nat size) buf) :: ref_ids n size (drop (Z.to_nat size) buf)
  end.

Fixpoint check_refs (i cellsNum : Z) (ids : list Z) : outcome unit :=
  match ids with
  | [] => Ok tt
  | id :: ids =>
      if i =? id then Err (ErrText "recursive reference of cells")
      else if id <? i then Err (ErrText "reference to index which is behind parent cell")
      else if (id <? 0) || (cellsNum <=? id) then Err (ErrText "invalid index, out of scope")
      else check_refs i cellsNum ids
  end.

(** Where the cell ends: the index, or the end of the payload. *)
Definition cell_end (h : header) (i : Z) : M parsing Z :=
  s ← get_state;
  if fl_hasIndex (hd_flags h) then
    '(cellEnd, cacheBit) ← lift (cellEndAndCacheBit h i);
    (if cacheBit : bool then modify (fun s => mkParsing (pa_data s) (pa_offset s) (setBOCIndexCacheBit (pa_cache s) i) (pa_cells s) (pa_stored s))
     else mret tt) ;;
    guard_err ((cellEnd <? pa_offset s) || (hd_dataLen h <? cellEnd)) (ErrText "invalid cell index") ;;
    guard_err (cellEnd - pa_offset s <? 2) (ErrText "invalid cell index") ;;
    mret cellEnd
  else
    guard_err (hd_dataLen h - pa_offset s <? 2) (ErrText "failed to parse cell header, corrupted data") ;;
    mret (hd_dataLen h).

Definition check_left (cellEnd n : Z) (what : string) : M parsing unit :=
  s ← get_state;
  guard_err (cellEnd - pa_offset s <? n) (ErrText what).

(** The hashes and depths a cell may carry. *)
Definition read_stored (h : header) (i cellEnd levelMask : Z) : M parsing unit :=
  let hashesNum := LevelMask.getHashesCount levelMask in
  let hashesSize := hashesNum * hashSize in
  let depthsSize := hashesNum * depthSize in
  check_left cellEnd (hashesSize + depthsSize) "failed to parse cell hashes, corrupted data" ;;
  hashesDepths ← read_payload (hd_dataLen h) (hashesSize + depthsSize);
  modify (fun s => mkParsing (pa_data s) (pa_offset s) (pa_cache s) (pa_cells s)
    (pa_stored s ++ [mkStored i (take (Z.to_nat hashesSize) hashesDepths) (drop (Z.to_nat hashesSize) hashesDepths)])).

Definition parse_cell (h : header) (i : Z) : M parsing unit :=
  let dataLen := hd_dataLen h in
  let refSzBytes := hd_cellNumSizeBytes h in
  cellEnd ← cell_end h i;
  header ← read_payload dataLen 2;
  flags ← lift (index header 0);
  ln ← lift (index header 1);
  let refsNum := Z.land flags 7 in
  let special := negb (Z.land flags 8 =? 0) in
  let withHashes := negb (Z.land flags 16 =? 0) in
  let levelMask := flags ≫ 5 in
  guard_err (4 <? refsNum) (ErrText "too many refs in cell") ;;
  let sz := ln / 2 + ln mod 2 in
  (if withHashes then read_stored h i cellEnd levelMask else mret tt) ;;
  check_left cellEnd sz "failed to parse cell payload, corrupted data" ;;
  payload ← read_payload dataLen sz;
  check_left cellEnd (refsNum * refSzBytes) "failed to parse cell refs, corrupted data" ;;
  refBuf ← read_payload dataLen (refsNum * refSzBytes);
  let ids := ref_ids (Z.to_nat refsNum) refSzBytes refBuf in
  lift (check_refs i (hd_cellsNum h) ids) ;;
  (if fl_hasCacheBits (hd_flags h)
   then modify (fun s => mkParsing (pa_data s) (pa_offset s) (foldl incBOCCacheRef (pa_cache s) ids) (pa_cells s) (pa_stored s))
   else mret tt) ;;
  bitsSz ← lift (if negb (ln mod 2 =? 0) then
                   last ← index payload (len payload - 1);
                   match cellBodyBitsSizeFromLast sz last with
                   | None => Err (ErrText "overlong cell bits encoding")
                   | Some n => Ok n
                   end
                 else Ok (sz * 8));
  let bodyBytes := (bitsSz + 7) / 8 in
  body ← lift (subrange payload 0 bodyBytes);
  s ← get_state;
  guard_err (fl_hasIndex (hd_flags h) && negb (pa_offset s =? cellEnd)) (ErrText "invalid indexed cell boundary") ;;
  put_state (mkParsing (pa_data s) (pa_offset s) (pa_cache s)
    (pa_cells s ++ [mkRaw body (u16 bitsSz) special (Z.land levelMask 7) ids]) (pa_stored s)).

Fixpoint parse_loop (h : header) (n : nat) (i : Z) : M parsing unit :=
  match n with
  | O => mret tt
  | S n => parse_cell h i ;; parse_loop h n (i + 1)
  end.

(** ** Finishing the cells *)

(** A cell over the cells it refers to; [later] are the cells from [first] on. *)
Definition link_cell (r : rawCell) (first : Z) (later : list Cell) : outcome Cell :=
  refs ← foldl (fun acc id =>
                  refs ← acc;
                  if id <? first then Panic
                  else match later !! Z.to_nat (id - first) with
                       | Some c => Ok (refs ++ [c])
                       | None => Panic
                       end) (Ok []) (rw_refs r);
  Ok (mkCell (rw_data r) (rw_bitsSz r) (rw_special r) (rw_mask r) refs [] []).

Definition stored_hash (st : storedHashesDepths) (i : Z) : outcome (list Z) :=
  subrange (st_hashes st) (i * hashSize) (i * hashSize + hashSize).
Definition stored_depth (st : storedHashesDepths) (i : Z) : outcome Z :=
  b ← subrange (st_depths st) (i * depthSize) (i * depthSize + depthSize);
  Ok (be_uint b).

Definition stored_shape (mask : Z) (st : storedHashesDepths) : outcome unit :=
  let expected := LevelMask.getHashesCount mask in
  ensure ((len (st_hashes st) =? expected * hashSize) && (len (st_depths st) =? expected * depthSize))
    "invalid serialized hashes/depth metadata".

Definition applyTrustedStoredHashesDepths (c : Cell) (st : storedHashesDepths) : outcome Cell :=
  let expected := LevelMask.getHashesCount (c_mask c) in
  stored_shape (c_mask c) st ;;
  if decide (computeType c = PrunedCellType) then
    hash ← stored_hash st (expected - 1);
    depth ← stored_depth st (expected - 1);
    Ok (with_hashes c [hash] [depth])
  else
    '(hs, ds) ← loop (fun '(hs, ds) i =>
                        hash ← stored_hash st (Z.of_nat i);
                        depth ← stored_depth st (Z.of_nat i);
                        Ok (hs ++ [hash], ds ++ [depth])) (seq 0 (Z.to_nat expected)) ([], []);
    Ok (with_hashes c hs ds).

Definition validateStoredHashesDepths (c : Cell) (st : storedHashesDepths) : outcome unit :=
  stored_shape (c_mask c) st ;;
  '(_, ok) ← loop (fun '(idx, _) level =>
                     hash ← stored_hash st idx;
                     ensure (bool_decide (hash = getHash c level)) "serialized hash mismatch" ;;
                     depth ← stored_depth st idx;
                     ensure (depth =? getDepth c level) "serialized depth mismatch" ;;
                     Ok (idx + 1, true)) (levels_of (c_mask c)) (0, true);
  Ok tt.

Definition finalizeParsedCell (options : BOCParseOptions) (c : Cell) (st : option storedHashesDepths) : outcome Cell :=
  c ← match st with
      | Some st =>
          if TrustedHashes options then applyTrustedStoredHashesDepths c st
          else c ← calculateHashes c; validateStoredHashesDepths c st ;; Ok c
      | None => calculateHashes c
      end;
  validateBoundaryCell c ;;
  Ok c.

(** [finalizeCellsSequential]: the cells from [i] on, and the stored hashes not used
    yet, the last first. *)
Fixpoint finalizeCells (options : BOCParseOptions) (stored : list storedHashesDepths) (i : Z) (raws : list rawCell)
    : outcome (list Cell * list storedHashesDepths) :=
  match raws with
  | [] => Ok ([], stored)
  | r :: raws =>
      '(later, stored) ← finalizeCells options stored (i + 1) raws;
      let '(meta, stored) :=
        match stored with
        | st :: stored' => if st_cellIndex st =? i then (Some st, stored') else (None, stored)
        | [] => (None, [])
        end in
      c ← link_cell r (i + 1) later;
      c ← finalizeParsedCell options c meta;
      Ok (c :: later, stored)
  end.

Definition finalizeParsedCells (options : BOCParseOptions) (p : parsing) (rootsIndex : list Z) : outcome (list Cell) :=
  '(cells, _) ← finalizeCells options (rev (pa_stored p)) 0 (pa_cells p);
  loop (fun roots idx => match cells !! Z.to_nat idx with Some c => Ok (roots ++ [c]) | None => Panic end) rootsIndex [].

Definition parseCells (h : header) (options : BOCParseOptions) : M (list Z) (list Cell) :=
  data ← get_state;
  let cache := if fl_hasCacheBits (hd_flags h)
               then foldl incBOCCacheRef (replicate (Z.to_nat (hd_cellsNum h)) (0, false)) (hd_rootsIndex h) else [] in
  '(_, p) ← lift (run (parse_loop h (Z.to_nat (hd_cellsNum h)) 0) (mkParsing data 0 cache [] []));
  put_state (pa_data p) ;;
  (if fl_hasIndex (hd_flags h) then
     if pa_offset p <? hd_dataLen h then readDirect (hd_dataLen h - pa_offset p) ;; mret tt else mret tt
   else guard_err (negb (pa_offset p =? hd_dataLen h)) (ErrText "failed to parse cells payload, corrupted data")) ;;
  guard_err (existsb (fun '(n, bit) => negb (eqb (1 <? n) bit)) (pa_cache p)) (ErrText "invalid cache flag for cell") ;;
  lift (finalizeParsedCells options p (hd_rootsIndex h)).

(** ** The whole bag *)

(** [base] is the input, of which the reader has consumed all but its state. *)
Definition finishBOCRead (base : list Z) (hasCRC32C : bool) : M (list Z) unit :=
  (if hasCRC32C then
     data ← get_state;
     guard_err (len data <? 4) ErrUnexpectedEOF ;;
     let consumed := take (length base - length data) base in
     guard_err (negb (be_uint (rev (take 4 data)) =? Crc32.Checksum consumed)) (ErrText "checksum not matches") ;;
     put_state (drop 4 data)
   else mret tt) ;;
  data ← get_state;
  guard_err (negb (len data =? 0)) (ErrText "unexpected trailing data after boc payload").

Definition validateBOCRootLevels (roots : list Cell) (options : BOCParseOptions) : outcome unit :=
  if AllowNonZeroLevelRoot options then Ok tt
  else ensure (forallb (fun root => LevelMask.GetLevel (c_mask root) =? 0) roots) "bag of cells has a root with non-zero level".

Definition parseBOCMultiRoot (data : list Z) (options : BOCParseOptions) : outcome (list Cell) :=
  '(cells, _) ← run (h ← read_header options;
                     cells ← parseCells h options;
                     finishBOCRead data (fl_HasCrc32c (hd_flags h)) ;;
                     lift (validateBOCRootLevels cells options) ;;
                     mret cells) data;
  Ok cells.

Definition FromBOCMultiRootWithOptions (data : list Z) (options : BOCParseOptions) : outcome (list Cell) :=
  if len data =? 0 then Ok [] else parseBOCMultiRoot data options.

Definition FromBOCWithOptions (data : list Z) (options : BOCParseOptions) : outcome Cell :=
  cells ← FromBOCMultiRootWithOptions data options;
  match cells with
  | [c] => Ok c
  | _ => Err (ErrText "boc should contain exactly one root")
  end.
