(* ===== verification/BocSpec.v ===== *)
(** * Cells that survive a bag of cells

    [sealed h c] says that [c] is a finished tree of at most [h] levels: its data has
    the right size, its hashes are the ones [calculateHashes] gives, it passes the
    validation of loaded cells, and so on below.  [reparsed c] is the same tree as a
    parser leaves it: the data bytes keep the closing bit of the serialized body. *)

From S2P Require Import Prelude Bytes Sha256 CellModel Builder Finalize Slice CellHash BocIndex BocIndexSpec BocSerialize.
From stdpp Require Import list strings.
#[local] Open Scope Z_scope.

(** ** Shape *)

Record shape (c : Cell) : Prop := {
  sh_bits : 0 <= c_bitsSz c <= 1023;
  sh_data : c_data c = pack (Z.to_nat ((c_bitsSz c + 7) / 8)) (cbits_of c) \/ c_data c = body (cbits_of c);
  sh_refs : len (c_refs c) <= 4;
  sh_mask : 0 <= c_mask c <= 7;
  sh_hash : calculateHashes (with_hashes c [] []) = Ok c;
  sh_valid : validateBoundaryCell c = Ok tt
}.

Fixpoint sealed (h : nat) (c : Cell) : Prop :=
  match h with
  | O => False
  | S h => shape c /\ Forall (sealed h) (c_refs c)
  end.

Lemma sealed_shape h c : sealed h c -> shape c.
Proof. destruct h; [done|]. now intros [? _]. Qed.

Lemma sealed_ref h c r : sealed h c -> r ∈ c_refs c -> exists h', h = S h' /\ sealed h' r.
Proof. destruct h as [|h]; [done|]. intros [_ H] Hr. exists h. split; [done|]. rewrite Forall_forall in H. auto. Qed.

Fixpoint reparsed (c : Cell) : Cell :=
  match c with
  | mkCell d b s m refs hs ds => mkCell (body (window d 0 b)) b s m (map reparsed refs) hs ds
  end.

Lemma reparsed_eq c :
  reparsed c = mkCell (body (cbits_of c)) (c_bitsSz c) (c_special c) (c_mask c) (reparsed <$> c_refs c) (c_hashes c) (c_depths c).
Proof. now destruct c. Qed.

(** ** Bodies *)

Lemma len_cbits c : 0 <= c_bitsSz c -> len (cbits_of c) = c_bitsSz c.
Proof. intros H. now apply length_window. Qed.

Lemma len_body bs : len (body bs) = (len bs + 7) / 8.
Proof. unfold body. rewrite len_pack. pose proof (len_nonneg bs). lia. Qed.

Lemma bytes_ok_body bs : bytes_ok (body bs).
Proof. apply bytes_ok_pack. Qed.

Lemma body_whole bs : len bs mod 8 = 0 -> body bs = pack (Z.to_nat ((len bs + 7) / 8)) bs.
Proof. intros H. unfold body. now rewrite H. Qed.

Lemma body_bits bs : window (body bs) 0 (len bs) = bs.
Proof.
  unfold body. pose proof (len_nonneg bs). destruct (Z.eqb_spec (len bs mod 8) 0) as [E | E].
  - apply window_pack. lia.
  - apply window_eq; [lia|done|]. intros i Hi. rewrite bit_pack by lia. rewrite app_nth1 by (unfold len in *; lia). f_equal; lia.
Qed.

Lemma splice_same d i : 0 <= i < len d -> splice d i [byte_at d i] = d.
Proof.
  intros Hi. unfold splice, byte_at. cbn [length app]. destruct (lookup_lt_is_Some_2 d (Z.to_nat i)) as [x Hx]; [unfold len in Hi; lia|].
  rewrite (nth_lookup_Some _ _ _ _ Hx), Nat.add_1_r. now apply take_drop_middle.
Qed.

(** The closing bit may be there already. *)
Lemma SerializeBOCBodyTo_closed c bs :
  c_data c = body bs -> c_bitsSz c = len bs -> SerializeBOCBodyTo c = Ok (body bs).
Proof.
  intros Hd Hs. destruct (Z.eqb_spec (len bs mod 8) 0) as [E | E].
  { apply SerializeBOCBodyTo_ok; [now rewrite Hd, body_whole|done]. }
  unfold SerializeBOCBodyTo. rewrite Hs, Hd. pose proof (len_nonneg bs). pose proof (len_body bs) as Hl. set (n := (len bs + 7) / 8) in *.
  destruct (Z.eqb_spec n 0); [lia|]. rewrite subrange_prefix by lia. cbn [mbind outcome_bind]. rewrite firstn_all2 by (unfold len in Hl; lia).
  rewrite (proj2 (Z.eqb_neq _ _) E). cbn [negb]. rewrite Bytes.index_ok by lia. cbn [mbind outcome_bind].
  assert (Hx : Z.lor (byte_at (body bs) (n - 1)) (u8 (1 ≪ (7 - len bs mod 8))) = byte_at (body bs) (n - 1)).
  { apply Z.bits_inj'. intros k Hk. autorewrite with bitdb. destruct (Z.eq_dec k (7 - len bs mod 8)) as [-> | Hne].
    - assert (Hb : bit (body bs) (len bs) = true).
      { unfold body. rewrite (proj2 (Z.eqb_neq _ _) E), bit_pack by lia. unfold len. rewrite Nat2Z.id. apply nth_middle. }
      unfold bit in Hb. replace (len bs / 8) with (n - 1) in Hb by lia. now rewrite Hb.
    - replace ((_ && (_ && _))) with false by (split_cmp; done). apply orb_false_r. }
  rewrite Hx. rewrite write_ok by (change (len [byte_at (body bs) (n - 1)]) with 1; lia). f_equal. apply splice_same; lia.
Qed.

Lemma shape_body c : shape c -> SerializeBOCBodyTo c = Ok (body (cbits_of c)).
Proof.
  intros H. destruct (sh_bits _ H) as [H0 _]. pose proof (len_cbits c H0) as Hl. destruct (sh_data _ H) as [Hd | Hd].
  - apply SerializeBOCBodyTo_ok; [now rewrite Hl|done].
  - now apply SerializeBOCBodyTo_closed.
Qed.

(** ** The same cell with other data bytes *)

(** Cells no hash computation tells apart. *)
Record alike (c c' : Cell) : Prop := {
  al_bits : c_bitsSz c = c_bitsSz c';
  al_special : c_special c = c_special c';
  al_mask : c_mask c = c_mask c';
  al_hashes : c_hashes c = c_hashes c';
  al_depths : c_depths c = c_depths c';
  al_data : c_special c = true -> c_data c = c_data c';
  al_body : SerializeBOCBodyTo c = SerializeBOCBodyTo c';
  al_count : len (c_refs c) = len (c_refs c')
}.

Lemma computeType_alike c c' : alike c c' -> computeType c = computeType c'.
Proof.
  intros [Hb Hs Hm _ _ Hd _ Hr]. unfold computeType. rewrite Hs. destruct (c_special c') eqn:E; cbn [negb]; [|done]. rewrite Hb, Hr, Hd by congruence. done.
Qed.

Lemma pruned_special c : computeType c = PrunedCellType -> c_special c = true.
Proof. unfold computeType. now destruct (c_special c). Qed.

Lemma getHash_alike c c' level : alike c c' -> getHash c level = getHash c' level.
Proof.
  intros H. pose proof (computeType_alike _ _ H) as Ht. destruct H as [_ _ Hm Hh _ Hd _ _]. unfold getHash, hashAt. rewrite Hm, Hh, Ht.
  destruct (c_mask c' =? 0); [done|]. destruct (decide (computeType c' = PrunedCellType)) as [E |]; [|done]. rewrite <-Ht in E. now rewrite (Hd (pruned_special _ E)).
Qed.

Lemma getDepth_alike c c' level : alike c c' -> getDepth c level = getDepth c' level.
Proof.
  intros H. pose proof (computeType_alike _ _ H) as Ht. destruct H as [_ _ Hm _ Hh Hd _ _]. unfold getDepth, depthAt. rewrite Hm, Hh, Ht.
  destruct (c_mask c' =? 0); [done|]. destruct (decide (computeType c' = PrunedCellType)) as [E |]; [|done]. rewrite <-Ht in E. now rewrite (Hd (pruned_special _ E)).
Qed.

Lemma descriptors_alike c c' lvl : alike c c' -> descriptors c lvl = descriptors c' lvl.
Proof. intros [Hb Hs _ _ _ _ _ Hr]. unfold descriptors. now rewrite Hb, Hs, Hr. Qed.

Lemma depths_alike refs refs' level : Forall2 alike refs refs' -> (fun r => getDepth r level) <$> refs = (fun r => getDepth r level) <$> refs'.
Proof. induction 1 as [|r r' refs refs' H _ IH]; [done|]. cbn. f_equal; [now apply getDepth_alike|done]. Qed.

Lemma hash_buf_alike dsc body refs refs' level : Forall2 alike refs refs' -> hash_buf dsc body refs level = hash_buf dsc body refs' level.
Proof.
  intros H. unfold hash_buf. do 2 f_equal.
  assert (E1 : (refs ≫= fun r => be_bytes 2 (getDepth r level)) = (refs' ≫= fun r => be_bytes 2 (getDepth r level))).
  { induction H as [|r r' refs refs' Hr _ IH]; [done|]. now rewrite !bind_cons, (getDepth_alike _ _ level Hr), IH. }
  assert (E2 : (refs ≫= fun r => getHash r level) = (refs' ≫= fun r => getHash r level)).
  { clear E1. induction H as [|r r' refs refs' Hr _ IH]; [done|]. now rewrite !bind_cons, (getHash_alike _ _ level Hr), IH. }
  now rewrite E1, E2.
Qed.

Lemma hash_level_alike c c' typ off level st :
  alike c c' -> Forall2 alike (c_refs c) (c_refs c') -> hash_level c typ off level st = hash_level c' typ off level st.
Proof.
  intros H Hr. unfold hash_level. destruct st as [[hi hs] ds]. rewrite (al_mask _ _ H), (al_body _ _ H).
  destruct (negb _); [done|]. destruct (hi <? off); [done|]. destruct (if hi =? off then _ else _) as [b | |]; [|done..]. cbn [mbind outcome_bind].
  rewrite (depths_alike _ _ _ Hr). destruct (depth_above _) as [d | |]; [|done..]. cbn [mbind outcome_bind].
  now rewrite (descriptors_alike _ _ _ H), (hash_buf_alike _ _ _ _ _ Hr).
Qed.

(** [calculateHashes] on alike cells gives the same hashes and depths. *)
Lemma calculateHashes_alike c c' d :
  alike c c' -> Forall2 alike (c_refs c) (c_refs c') -> calculateHashes c = Ok d ->
  calculateHashes c' = Ok (with_hashes c' (c_hashes d) (c_depths d)).
Proof.
  intros H Hr. unfold calculateHashes. rewrite <-(computeType_alike _ _ H), <-(al_mask _ _ H).
  destruct ((c_mask c =? 0) && _).
  - unfold calculateHashesOrdinary. rewrite <-(al_body _ _ H), <-(depths_alike _ _ _ Hr). destruct (SerializeBOCBodyTo c) as [b | |]; [|done..]. cbn [mbind outcome_bind].
    destruct (depth_above _) as [dd | |]; [|done..]. cbn [mbind outcome_bind]. intros [= <-]. now rewrite <-(descriptors_alike _ _ _ H), <-(hash_buf_alike _ _ _ _ _ Hr).
  - set (levels := Z.of_nat <$> seq 0 _). set (start := Ok (0, [], [])).
    assert (E : forall a, foldl (fun acc i => st ← acc; hash_level c (computeType c)
        (LevelMask.getHashIndex (c_mask c) + 1 - (if decide (computeType c = PrunedCellType) then 1 else LevelMask.getHashIndex (c_mask c) + 1)) i st) a levels
      = foldl (fun acc i => st ← acc; hash_level c' (computeType c)
        (LevelMask.getHashIndex (c_mask c) + 1 - (if decide (computeType c = PrunedCellType) then 1 else LevelMask.getHashIndex (c_mask c) + 1)) i st) a levels).
    { induction levels as [|l levels IH]; intros a; [done|]. cbn [foldl]. rewrite IH. f_equal. destruct a as [st | |]; [|done..]. cbn [mbind outcome_bind]. now apply hash_level_alike. }
    rewrite E. destruct (foldl _ start levels) as [[[hi hs] ds] | |]; [|done..]. cbn [mbind outcome_bind]. now intros [= <-].
Qed.

Lemma ordinaryLevelMask_alike refs refs' : Forall2 alike refs refs' -> ordinaryLevelMask refs = ordinaryLevelMask refs'.
Proof.
  intros H. unfold ordinaryLevelMask. generalize 0. induction H as [|r r' refs refs' Hr _ IH]; intros m; [done|]. cbn [foldl]. now rewrite (al_mask _ _ Hr), IH.
Qed.

Lemma field_alike c c' off n : c_data c = c_data c' -> field c off n = field c' off n.
Proof. intros H. unfold field. now rewrite H. Qed.

Lemma specialCellRefs_alike c c' typ :
  alike c c' -> Forall2 alike (c_refs c) (c_refs c') ->
  match specialCellRefs c typ, specialCellRefs c' typ with
  | Ok l, Ok l' => Forall2 alike l l'
  | Err e, Err e' => e = e'
  | Panic, Panic => True
  | _, _ => False
  end.
Proof. intros H Hr. unfold specialCellRefs. rewrite <-(al_count _ _ H). destruct typ; try done; destruct (negb _); done || constructor. Qed.

Lemma validate_alike c c' : alike c c' -> Forall2 alike (c_refs c) (c_refs c') -> validateBoundaryCell c = Ok tt -> validateBoundaryCell c' = Ok tt.
Proof.
  intros H Hr. unfold validateBoundaryCell. rewrite <-(al_special _ _ H), <-(al_mask _ _ H), <-(al_bits _ _ H), <-(ordinaryLevelMask_alike _ _ Hr), <-(computeType_alike _ _ H).
  destruct (c_special c) eqn:Es; cbn [negb]; [|done]. destruct (c_bitsSz c <? 8); [done|]. pose proof (al_data _ _ H Es) as Hd. rewrite <-Hd.
  pose proof (fun off n => field_alike c c' off n Hd) as Hf. pose proof (specialCellRefs_alike c c' (computeType c) H Hr) as Hs.
  destruct (computeType c); try done.
  - destruct (specialCellRefs c PrunedCellType), (specialCellRefs c' PrunedCellType); try done. cbn [mbind outcome_bind].
    intros Hv. rewrite <-Hv. repeat (destruct (ensure _ _) as [[] | |]; [|done..]; cbn [mbind outcome_bind]). unfold field. now rewrite Hd.
  - destruct (specialCellRefs c LibraryCellType), (specialCellRefs c' LibraryCellType); done.
  - destruct (ensure _ _) as [[] | |]; [|done..]. cbn [mbind outcome_bind].
    destruct (specialCellRefs c MerkleProofCellType) as [l | |], (specialCellRefs c' MerkleProofCellType) as [l' | |]; try done. cbn [mbind outcome_bind].
    destruct Hs as [|r r' l l' Hs _]; [done|]. unfold merkle_field_ok. now rewrite !Hf, (getHash_alike _ _ 0 Hs), (getDepth_alike _ _ 0 Hs), (al_mask _ _ Hs).
  - destruct (ensure _ _) as [[] | |]; [|done..]. cbn [mbind outcome_bind].
    destruct (specialCellRefs c MerkleUpdateCellType) as [l | |], (specialCellRefs c' MerkleUpdateCellType) as [l' | |]; try done. cbn [mbind outcome_bind].
    destruct Hs as [|r r' l l' Hs Hs']; [done|]. destruct Hs' as [|q q' l l' Hq _]; [done|].
    now rewrite !Hf, (getHash_alike _ _ 0 Hs), (getDepth_alike _ _ 0 Hs), (al_mask _ _ Hs), (getHash_alike _ _ 0 Hq), (getDepth_alike _ _ 0 Hq), (al_mask _ _ Hq).
Qed.

(** ** Reparsing *)

Lemma ensure_Ok b s : ensure b s = Ok tt -> b = true.
Proof. now destruct b. Qed.

Lemma bind_unit (m : outcome unit) {A} (k : outcome A) a : (m ;; k) = Ok a -> m = Ok tt /\ k = Ok a.
Proof. destruct m as [[] | |]; done. Qed.

(** Valid special cells hold whole bytes. *)
Lemma special_whole c : validateBoundaryCell c = Ok tt -> c_special c = true -> c_bitsSz c mod 8 = 0.
Proof.
  unfold validateBoundaryCell. intros H Hs. rewrite Hs in H. cbn [negb] in H. destruct (c_bitsSz c <? 8); [done|]. destruct (computeType c); try done.
  - destruct (specialCellRefs _ _); try done. cbn [mbind outcome_bind] in H. do 3 apply bind_unit in H as [_ H]. apply bind_unit in H as [H _].
    apply ensure_Ok, Z.eqb_eq in H. rewrite H. apply Z.mod_mul. lia.
  - destruct (specialCellRefs _ _); try done. cbn [mbind outcome_bind] in H. apply bind_unit in H as [H _]. apply ensure_Ok, Z.eqb_eq in H. now rewrite H.
  - apply bind_unit in H as [H _]. apply ensure_Ok, Z.eqb_eq in H. now rewrite H.
  - apply bind_unit in H as [H _]. apply ensure_Ok, Z.eqb_eq in H. now rewrite H.
Qed.

Lemma special_data c : shape c -> c_special c = true -> c_data c = body (cbits_of c).
Proof.
  intros H Hs. pose proof (special_whole c (sh_valid _ H) Hs) as Hm. destruct (sh_bits _ H) as [H0 _]. pose proof (len_cbits c H0) as Hl.
  destruct (sh_data _ H) as [-> | Hd]; [|done]. rewrite body_whole by now rewrite Hl. now rewrite Hl.
Qed.

Lemma cbits_reparsed c : 0 <= c_bitsSz c -> cbits_of (reparsed c) = cbits_of c.
Proof.
  intros H. rewrite reparsed_eq. unfold cbits_of at 1. cbn [c_data c_bitsSz]. rewrite <-(len_cbits c H) at 1. apply body_bits.
Qed.

Lemma alike_reparsed c : shape c -> alike c (reparsed c).
Proof.
  intros H. destruct (sh_bits _ H) as [H0 _]. rewrite reparsed_eq. split; cbn [c_bitsSz c_special c_mask c_hashes c_depths c_data c_refs]; try done.
  - now apply special_data.
  - rewrite shape_body by done. symmetry. apply SerializeBOCBodyTo_closed; [done|]. cbn [c_bitsSz]. now rewrite len_cbits.
  - unfold len. now rewrite length_fmap.
Qed.

Lemma refs_reparsed h c : sealed h c -> Forall2 alike (c_refs c) (reparsed <$> c_refs c).
Proof.
  intros H. apply Forall2_fmap_r, Forall_Forall2_diag, Forall_forall. intros r Hr. destruct (sealed_ref h c r H Hr) as (h' & _ & Hs).
  apply alike_reparsed. now apply (sealed_shape h').
Qed.

(** A cell read from its body, over its references as they were read, is finished as
    the cell was. *)
Lemma rehash_reparsed h c :
  sealed h c -> calculateHashes (mkCell (body (cbits_of c)) (c_bitsSz c) (c_special c) (c_mask c) (reparsed <$> c_refs c) [] []) = Ok (reparsed c).
Proof.
  intros Hs. pose proof (sealed_shape h c Hs) as H. pose proof (alike_reparsed c H) as Ha. pose proof (refs_reparsed h c Hs) as Hr.
  set (c' := mkCell _ _ _ _ _ [] []). assert (Ha' : alike (with_hashes c [] []) c').
  { rewrite reparsed_eq in Ha. destruct Ha as [H1 H2 H3 _ _ H6 H7 H8]. split; try done. }
  rewrite (calculateHashes_alike (with_hashes c [] []) c' c Ha' Hr (sh_hash _ H)). now rewrite reparsed_eq.
Qed.

Lemma validate_reparsed h c : sealed h c -> validateBoundaryCell (reparsed c) = Ok tt.
Proof.
  intros Hs. pose proof (sealed_shape h c Hs) as H. apply (validate_alike c); [now apply alike_reparsed| |apply (sh_valid _ H)].
  rewrite reparsed_eq. cbn [c_refs]. now apply (refs_reparsed h).
Qed.

(** Reparsed trees are sealed again. *)
Lemma sealed_reparsed h c : sealed h c -> sealed h (reparsed c).
Proof.
  revert c. induction h as [|h IH]; intros c Hs; [done|]. pose proof (sealed_shape _ _ Hs) as H. destruct (sh_bits _ H) as [H0 H1].
  pose proof (rehash_reparsed _ _ Hs) as Hh. pose proof (validate_reparsed _ _ Hs) as Hv. pose proof (cbits_reparsed c H0) as Hc. pose proof (alike_reparsed c H) as Ha.
  destruct Hs as [_ Hs]. split.
  - split; [rewrite <-(al_bits _ _ Ha); lia| |rewrite <-(al_count _ _ Ha); apply H|rewrite <-(al_mask _ _ Ha); apply H| |done].
    + right. rewrite Hc. now rewrite reparsed_eq.
    + rewrite reparsed_eq at 1. exact Hh.
  - rewrite reparsed_eq. cbn [c_refs]. apply Forall_fmap. eapply List.Forall_impl; [|exact Hs]. exact IH.
Qed.

Lemma HashKey_reparsed c : shape c -> HashKey (reparsed c) = HashKey c.
Proof. intros H. symmetry. apply getHash_alike. now apply alike_reparsed. Qed.

(** * The hashes a sealed cell has

    One hash of 32 bytes and one depth for each significant level, in the order a bag
    of cells stores them. *)

Definition digest_ok (h : list Z) : Prop := bytes_ok h /\ len h = 32.
Definition depth_ok (d : Z) : Prop := 0 <= d < 2 ^ 16.

Lemma masks (P : Z -> Prop) : P 0 -> P 1 -> P 2 -> P 3 -> P 4 -> P 5 -> P 6 -> P 7 -> forall m, 0 <= m <= 7 -> P m.
Proof.
  intros. assert (m = 0 \/ m = 1 \/ m = 2 \/ m = 3 \/ m = 4 \/ m = 5 \/ m = 6 \/ m = 7) as Hm by lia. now repeat (destruct Hm as [-> | Hm]; [done|]); subst.
Qed.

(** Significant levels are numbered in order. *)
Lemma levels_index m : 0 <= m <= 7 ->
  (fun i => LevelMask.getHashIndex (LevelMask.Apply m i)) <$> levels_of m = Z.of_nat <$> seq 0 (Z.to_nat (LevelMask.getHashesCount m)).
Proof. revert m. apply masks; vm_compute; reflexivity. Qed.

Lemma hashes_count m : 0 <= m <= 7 -> 1 <= LevelMask.getHashesCount m <= 4.
Proof. revert m. apply masks; vm_compute; split; discriminate. Qed.

Lemma len_levels m : 0 <= m <= 7 -> len (levels_of m) = LevelMask.getHashesCount m.
Proof. revert m. apply masks; vm_compute; reflexivity. Qed.

(** ** What the computation leaves *)

Section fold.
  Context (c : Cell) (typ : CellType) (off : Z).

Definition step (acc : outcome (Z * list (list Z) * list Z)) (i : Z) : outcome (Z * list (list Z) * list Z) := st ← acc; hash_level c typ off i st.

Record hash_state (st : Z * list (list Z) * list Z) : Prop := {
  hs_count : len (snd (fst st)) = Z.max 0 (fst (fst st) - off);
  hs_depths : len (snd st) = len (snd (fst st));
  hs_digests : Forall digest_ok (snd (fst st));
  hs_depth : Forall depth_ok (snd st)
}.

Lemma depth_above_range ds d : depth_above ds = Ok d -> depth_ok d.
Proof.
  unfold depth_above. intros H. destruct (Z.ltb_spec 0 (len ds)).
  - destruct (maxDepth <? u16 (foldl Z.max 0 ds + 1)); [done|]. injection H as <-. unfold depth_ok, u16. lia.
  - destruct ds as [|x ds]; [injection H as <-; unfold depth_ok; cbn; lia|]. rewrite len_cons in *. pose proof (len_nonneg ds). lia.
Qed.

Lemma hash_level_state i st st' :
  hash_state st -> hash_level c typ off i st = Ok st' ->
  hash_state st' /\ fst (fst st') = fst (fst st) + (if LevelMask.IsSignificant (c_mask c) i then 1 else 0).
Proof.
  intros [H1 H2 H3 H4] H. destruct st as [[hi hs] ds]. cbn [fst snd] in *. unfold hash_level in H.
  destruct (LevelMask.IsSignificant (c_mask c) i); cbn [negb] in H; [|injection H as <-; split; [now split|cbn; lia]].
  destruct (Z.ltb_spec hi off) as [Hlt | Hge]; [injection H as <-; split; [split; cbn [fst snd] in *; try done; lia|done]|].
  destruct (if hi =? off then _ else _) as [b | |]; [|done..]. cbn [mbind outcome_bind] in H.
  destruct (depth_above _) as [d | |] eqn:Ed; [|done..]. cbn [mbind outcome_bind] in H. injection H as <-. split; [|done].
  split; cbn [fst snd]; rewrite ?len_app; [change (len [_]) with 1; lia| | |].
  - rewrite H2. done.
  - apply Forall_app. split; [done|]. apply Forall_singleton. split; [apply Sha256.bytes_ok_sum256|apply Sha256.len_sum256].
  - apply Forall_app. split; [done|]. apply Forall_singleton. now apply depth_above_range in Ed.
Qed.

Lemma hash_fold ls st st' :
  hash_state st -> foldl step (Ok st) ls = Ok st' ->
  hash_state st' /\ fst (fst st') = fst (fst st) + len (filter (fun i => LevelMask.IsSignificant (c_mask c) i) ls).
Proof.
  revert st. induction ls as [|i ls IH]; intros st Hst H; cbn [foldl] in H.
  - injection H as <-. split; [done|]. change (len (filter _ [])) with 0. lia.
  - unfold step at 2 in H. cbn [mbind outcome_bind] in H. destruct (hash_level c typ off i st) as [st1 | e |] eqn:E1.
    + destruct (hash_level_state i st st1 Hst E1) as [Hst1 Hn1]. destruct (IH st1 Hst1 H) as [Hst' Hn']. split; [done|]. rewrite Hn', Hn1, filter_cons.
      destruct (LevelMask.IsSignificant (c_mask c) i); [rewrite decide_True by done; rewrite len_cons; lia|rewrite decide_False by (intros []); lia].
    + exfalso. clear - H. induction ls as [|j ls IH]; [done|]. apply IH. exact H.
    + exfalso. clear - H. induction ls as [|j ls IH]; [done|]. apply IH. exact H.
Qed.

End fold.

(** One digest and depth per significant level, or one in all for a pruned cell. *)
Lemma calculateHashes_lists c d :
  0 <= c_mask c <= 7 -> calculateHashes c = Ok d ->
  let n := if decide (computeType c = PrunedCellType) then 1 else LevelMask.getHashesCount (c_mask c) in
  len (c_hashes d) = n /\ len (c_depths d) = n /\ Forall digest_ok (c_hashes d) /\ Forall depth_ok (c_depths d).
Proof.
  intros Hm. unfold calculateHashes. destruct ((c_mask c =? 0) && _) eqn:E.
  - apply andb_true_iff in E as [E1%Z.eqb_eq E2%bool_decide_eq_true]. unfold calculateHashesOrdinary. destruct (SerializeBOCBodyTo c) as [b | |]; [|done..]. cbn [mbind outcome_bind].
    destruct (depth_above _) as [dd | |] eqn:Ed; [|done..]. cbn [mbind outcome_bind]. intros [= <-]. cbn [c_hashes c_depths with_hashes]. rewrite E1, E2. cbn [decide].
    split; [done|]. split; [done|]. split; apply Forall_singleton; [split; [apply Sha256.bytes_ok_sum256|apply Sha256.len_sum256]|now apply depth_above_range in Ed].
  - set (n := if decide (computeType c = PrunedCellType) then 1 else LevelMask.getHashIndex (c_mask c) + 1). set (off := LevelMask.getHashIndex (c_mask c) + 1 - n).
    change (fun acc levelIndex => st ← acc; hash_level c (computeType c) off levelIndex st) with (step c (computeType c) off).
    destruct (foldl (step c (computeType c) off) (Ok (0, [], [])) _) as [[[hi hs] ds] | |] eqn:Ef; [|done..]. cbn [mbind outcome_bind]. intros [= <-]. cbn [c_hashes c_depths with_hashes].
    pose proof (hashes_count _ Hm) as Hc. unfold LevelMask.getHashesCount in *. assert (Hn : 1 <= n <= LevelMask.getHashIndex (c_mask c) + 1) by (unfold n; destruct (decide _); lia).
    apply hash_fold in Ef as [[H1 H2 H3 H4] Hhi]; [|split; cbn [fst snd]; try done; change (len []) with 0; lia]. cbn [fst snd] in *.
    change (filter _ _) with (levels_of (c_mask c)) in Hhi. rewrite len_levels in Hhi by done. unfold LevelMask.getHashesCount in Hhi. split; [lia|]. split; [lia|done].
Qed.

(** ** Hashes of a sealed cell *)

Definition level_hashes (c : Cell) : list (list Z) := getHash c <$> levels_of (c_mask c).
Definition level_depths (c : Cell) : list Z := getDepth c <$> levels_of (c_mask c).

Lemma shape_lists c :
  shape c ->
  let n := if decide (computeType c = PrunedCellType) then 1 else LevelMask.getHashesCount (c_mask c) in
  len (c_hashes c) = n /\ len (c_depths c) = n /\ Forall digest_ok (c_hashes c) /\ Forall depth_ok (c_depths c).
Proof. intros H. exact (calculateHashes_lists (with_hashes c [] []) c (sh_mask _ H) (sh_hash _ H)). Qed.

Lemma nth_all {A} (l : list A) d n : length l = n -> (fun i => nth (Z.to_nat i) l d) <$> (Z.of_nat <$> seq 0 n) = l.
Proof.
  intros <-. rewrite <-list_fmap_compose. apply list_eq. intros i. rewrite list_lookup_fmap. destruct (decide (i < length l)%nat) as [Hi | Hi].
  - rewrite lookup_seq_lt by done. cbn. rewrite Nat2Z.id. destruct (lookup_lt_is_Some_2 l i Hi) as [x Hx]. rewrite Hx. f_equal. now apply nth_lookup_Some.
  - rewrite lookup_seq_ge by lia. cbn. symmetry. apply lookup_ge_None_2. lia.
Qed.

Lemma mask_zero_levels c : c_mask c = 0 -> levels_of (c_mask c) = [0].
Proof. now intros ->. Qed.

(** The stored lists of a cell that is not pruned. *)
Lemma plain_levels c : shape c -> computeType c <> PrunedCellType -> level_hashes c = c_hashes c /\ level_depths c = c_depths c.
Proof.
  intros H Hp. destruct (shape_lists c H) as (H1 & H2 & _ & _). rewrite decide_False in H1, H2 by done. pose proof (hashes_count _ (sh_mask _ H)) as Hc.
  pose proof (levels_index _ (sh_mask _ H)) as Hi. unfold level_hashes, level_depths. destruct (Z.eqb_spec (c_mask c) 0) as [E | E].
  - rewrite mask_zero_levels by done. unfold getHash, getDepth. cbn [fmap list_fmap]. rewrite E. cbn [Z.eqb]. unfold hashAt, depthAt. rewrite E in H1, H2. change (LevelMask.getHashesCount 0) with 1 in H1, H2.
    unfold len in H1, H2. destruct (c_hashes c) as [|x [|]], (c_depths c) as [|y [|]]; cbn in H1, H2; try lia. done.
  - split.
    + rewrite <-(nth_all (c_hashes c) [] (Z.to_nat (LevelMask.getHashesCount (c_mask c)))) by (unfold len in H1; lia). rewrite <-Hi, <-list_fmap_compose.
      apply list_fmap_ext. intros _ i _. unfold getHash. rewrite (proj2 (Z.eqb_neq _ _) E), decide_False by done. done.
    + rewrite <-(nth_all (c_depths c) 0 (Z.to_nat (LevelMask.getHashesCount (c_mask c)))) by (unfold len in H2; lia). rewrite <-Hi, <-list_fmap_compose.
      apply list_fmap_ext. intros _ i _. unfold getDepth. rewrite (proj2 (Z.eqb_neq _ _) E), decide_False by done. done.
Qed.

Lemma pruned_count m : 0 <= m <= 7 -> LevelMask.GetLevel m <> 0 ->
  0 < m /\ LevelMask.getHashesCount (LevelMask.Apply m (LevelMask.GetLevel m - 1)) = LevelMask.getHashIndex m.
Proof.
  revert m. apply (masks (fun m => LevelMask.GetLevel m <> 0 -> 0 < m /\ LevelMask.getHashesCount (LevelMask.Apply m (LevelMask.GetLevel m - 1)) = LevelMask.getHashIndex m));
    vm_compute; [intros Hf; now destruct Hf|now split..].
Qed.

(** What validation says of a pruned cell. *)
Lemma pruned_size c :
  shape c -> computeType c = PrunedCellType ->
  0 < c_mask c /\ c_bitsSz c = (2 + LevelMask.getHashIndex (c_mask c) * 34) * 8 /\ bytes_ok (c_data c) /\ len (c_data c) = 2 + LevelMask.getHashIndex (c_mask c) * 34.
Proof.
  intros H Ht. pose proof (sh_valid _ H) as Hv. pose proof (pruned_special _ Ht) as Hs. pose proof (special_data c H Hs) as Hd. unfold validateBoundaryCell in Hv. rewrite Hs, Ht in Hv. cbn [negb] in Hv.
  destruct (c_bitsSz c <? 8); [done|]. destruct (specialCellRefs c PrunedCellType) as [? | |]; [|done..]. cbn [mbind outcome_bind] in Hv.
  do 2 apply bind_unit in Hv as [_ Hv]. apply bind_unit in Hv as [Hl Hv]. apply bind_unit in Hv as [Hb _]. apply ensure_Ok, negb_true_iff, orb_false_iff in Hl as [_ Hl%Z.eqb_neq].
  apply ensure_Ok, Z.eqb_eq in Hb. pose proof (sh_mask _ H) as Hm.
  destruct (pruned_count _ Hm Hl) as [H0 E]. rewrite E in Hb. unfold hashSize, depthSize in Hb. split; [done|]. split; [lia|]. rewrite Hd. split; [apply bytes_ok_body|].
  rewrite len_body, len_cbits by apply H. rewrite Hb. lia.
Qed.

Lemma be_uint_2 l : bytes_ok l -> depth_ok (be_uint (take 2 l)).
Proof.
  intros H. pose proof (be_uint_bound (take 2 l) ltac:(now apply Forall_take)) as Hb. unfold depth_ok. split; [lia|]. eapply Z.lt_le_trans; [apply Hb|].
  apply Z.pow_le_mono_r; [lia|]. unfold len. rewrite length_take. lia.
Qed.

(** Every stored hash has 32 bytes and every stored depth fits 16 bits. *)
Lemma level_ok c : shape c -> Forall digest_ok (level_hashes c) /\ Forall depth_ok (level_depths c).
Proof.
  intros H. destruct (shape_lists c H) as (H1 & H2 & H3 & H4). destruct (decide (computeType c = PrunedCellType)) as [Ht | Ht]; [|now destruct (plain_levels c H Ht) as [-> ->]].
  destruct (pruned_size c H Ht) as (Hm & Hb & Hok & Hl). pose proof (levels_index _ (sh_mask _ H)) as Hi. unfold LevelMask.getHashesCount in Hi.
  assert (Hidx : forall i, i ∈ levels_of (c_mask c) -> 0 <= LevelMask.getHashIndex (LevelMask.Apply (c_mask c) i) <= LevelMask.getHashIndex (c_mask c)).
  { intros i Hin. apply (list_elem_of_fmap_2 (fun i => LevelMask.getHashIndex (LevelMask.Apply (c_mask c) i))) in Hin. rewrite Hi in Hin.
    apply list_elem_of_fmap in Hin as (k & -> & Hk%elem_of_seq). lia. }
  unfold level_hashes, level_depths. split; apply Forall_fmap, Forall_forall; intros i Hin; cbn; specialize (Hidx i Hin).
  - unfold getHash. destruct (Z.eqb_spec (c_mask c) 0); [lia|]. rewrite decide_True by done. destruct (Z.eqb_spec (LevelMask.getHashIndex (LevelMask.Apply (c_mask c) i)) (LevelMask.getHashIndex (c_mask c))); cbn [negb].
    + unfold hashAt. destruct (c_hashes c) as [|x l]; [unfold len in H1; cbn in H1; lia|]. now apply Forall_cons in H3.
    + split; [now apply Forall_take, Forall_drop|]. unfold len in *. rewrite length_take, length_drop. lia.
  - unfold getDepth. destruct (Z.eqb_spec (c_mask c) 0); [lia|]. rewrite decide_True by done. destruct (Z.eqb_spec (LevelMask.getHashIndex (LevelMask.Apply (c_mask c) i)) (LevelMask.getHashIndex (c_mask c))); cbn [negb].
    + unfold depthAt. destruct (c_depths c) as [|x l]; [unfold len in H2; cbn in H2; lia|]. now apply Forall_cons in H4.
    + apply be_uint_2. now apply Forall_drop.
Qed.

Lemma top_level m : 0 <= m <= 7 -> exists i, last (levels_of m) = Some i /\ LevelMask.Apply m i = m /\ LevelMask.Apply m 3 = m.
Proof. revert m. apply masks; vm_compute; eexists; (split; [reflexivity|split; reflexivity]). Qed.

(** The hash of a cell is the one of its highest level. *)
Lemma HashKey_last c : shape c -> last (level_hashes c) = Some (HashKey c).
Proof.
  intros H. destruct (top_level _ (sh_mask _ H)) as (i & Hl & Hi & H3). unfold level_hashes. rewrite fmap_last, Hl. cbn. f_equal. unfold HashKey, getHash. unfold DataCellMaxLevel. now rewrite Hi, H3.
Qed.

Lemma shape_hash_ok c : shape c -> hash_ok c.
Proof.
  intros H. pose proof (HashKey_last c H) as Hl. destruct (level_ok c H) as [Hd _]. apply last_Some_elem_of in Hl. rewrite Forall_forall in Hd. exact (Hd _ Hl).
Qed.
