(* ===== verification/BocImport.v ===== *)
(** * Collecting the cells of a bag

    [importCell] leaves a list in which every cell occurs once, after the cells it
    refers to, with the number of each reference; the cache flag of a cell says
    whether it is referred to more than once. *)

From S2P Require Import Prelude Bytes CellModel Finalize BocIndex BocIndexSpec BocSerialize BocSpec.
From stdpp Require Import list strings.
#[local] Open Scope Z_scope.

(** ** Sums and counts *)

Definition sum_of {A} (f : A -> Z) (l : list A) : Z := foldr (fun a s => f a + s) 0 l.

Lemma sum_of_app {A} (f : A -> Z) l l' : sum_of f (l ++ l') = sum_of f l + sum_of f l'.
Proof. unfold sum_of. induction l as [|a l IH]; cbn; [done|]. rewrite IH. lia. Qed.

Lemma sum_of_snoc {A} (f : A -> Z) l a : sum_of f (l ++ [a]) = sum_of f l + f a.
Proof. rewrite sum_of_app. cbn. lia. Qed.

Lemma sum_of_bound {A} (f : A -> Z) l lo hi : Forall (fun a => lo <= f a <= hi) l -> lo * len l <= sum_of f l <= hi * len l.
Proof. unfold sum_of, len. induction 1 as [|a l Ha _ IH]; cbn; lia. Qed.

Lemma sum_of_perm {A} (f : A -> Z) l l' : l ≡ₚ l' -> sum_of f l = sum_of f l'.
Proof. unfold sum_of. induction 1; cbn; lia. Qed.

Lemma sum_of_ext {A B} (f : A -> Z) (g : B -> Z) l l' : Forall2 (fun a b => f a = g b) l l' -> sum_of f l = sum_of g l'.
Proof. unfold sum_of. induction 1; cbn; lia. Qed.

Definition occ (k : nat) (l : list Z) : nat := count_occ Z.eq_dec l (Z.of_nat k).

Lemma occ_app k l l' : occ k (l ++ l') = (occ k l + occ k l')%nat.
Proof. apply count_occ_app. Qed.

Lemma occ_perm k l l' : l ≡ₚ l' -> occ k l = occ k l'.
Proof. intros H. exact (proj1 (Permutation_count_occ Z.eq_dec l l') H _). Qed.

Lemma occ_none k l : Forall (fun r => r < Z.of_nat k) l -> occ k l = O.
Proof. intros H. apply count_occ_not_In. intros Hin%list_elem_of_In. rewrite Forall_forall in H. specialize (H _ Hin). lia. Qed.

(** ** Cells and the cells below them *)

Fixpoint height (c : Cell) : nat := match c with mkCell _ _ _ _ refs _ _ => S (list_max (map height refs)) end.

Lemma height_eq c : height c = S (list_max (height <$> c_refs c)).
Proof. now destruct c. Qed.

Lemma height_ref c r : r ∈ c_refs c -> (height r < height c)%nat.
Proof.
  destruct c as [d b s m refs hs ds]. cbn. intros Hr. apply Nat.lt_succ_r. apply (Forall_forall (fun k => k <= list_max (map height refs))%nat (map height refs)).
  - apply list_max_le. lia.
  - apply (list_elem_of_fmap_2 height). done.
Qed.

(** A set of finished cells, closed under references, whose hashes are distinct. *)
Record universe (all : list Cell) : Prop := {
  un_closed c r : c ∈ all -> r ∈ c_refs c -> r ∈ all;
  un_hash c c' : c ∈ all -> c' ∈ all -> HashKey c = HashKey c' -> c = c';
  un_shape c : c ∈ all -> shape c;
  un_small : len all <= 2 ^ 29
}.

(** ** The list *)

(** [r] is the number of cell [c], before [k]. *)
Definition points (l : list bocSerializeItem) (k : nat) (r : Z) (c : Cell) : Prop :=
  0 <= r < Z.of_nat k /\ (si_cell <$> l) !! Z.to_nat r = Some c.

(** How often [k] is referred to, by the list and from outside. *)
Definition uses (l : list bocSerializeItem) (pending : list Z) (k : nat) : nat := occ k (mjoin (si_refs <$> l) ++ pending).

Record unweighed (it : bocSerializeItem) : Prop := {
  unw_wt : 1 <= si_wt it <= 255;
  unw_hcnt : si_hcnt it = LevelMask.getHashesCount (c_mask (si_cell it));
  unw_root : si_root it = false
}.

Record bag (all : list Cell) (l : list bocSerializeItem) (pending : list Z) : Prop := {
  bg_cells : Forall (fun c => c ∈ all) (si_cell <$> l);
  bg_nodup : NoDup (si_cell <$> l);
  bg_links k it : l !! k = Some it -> Forall2 (points l k) (si_refs it) (c_refs (si_cell it));
  bg_pending : Forall (fun r => 0 <= r < len l) pending;
  bg_used k : (k < length l)%nat -> (1 <= uses l pending k)%nat;
  bg_cache k it : l !! k = Some it -> si_cache it = (2 <=? uses l pending k)%nat
}.

Definition own_size (it : bocSerializeItem) : Z := serializedBOCSize (si_cell it) false.
Definition ref_count (it : bocSerializeItem) : Z := len (si_refs it).

(** The serializer while [x] references wait for the cell that holds them. *)
Record imported (all : list Cell) (x : Z) (s : bocSerializer) (pending : list Z) : Prop := {
  im_bag : bag all (sz_list s) pending;
  im_fresh : Forall unweighed (sz_list s);
  im_index : index_ok (si_cell <$> sz_list s) (sz_index s);
  im_data : sz_dataBytes s = sum_of own_size (sz_list s);
  im_refs : sz_intRefs s = sum_of ref_count (sz_list s) + x
}.

Lemma bag_perm all l p p' : p ≡ₚ p' -> bag all l p -> bag all l p'.
Proof.
  intros Hp [H1 H2 H3 H4 H5 H6]. assert (Hu : forall k, uses l p k = uses l p' k) by (intros k; apply occ_perm; now rewrite Hp).
  split; try done; [now rewrite <-Hp|intros k; rewrite <-Hu; auto..].
Qed.

Lemma points_mono l l' k r c : si_cell <$> l `prefix_of` si_cell <$> l' -> points l k r c -> points l' k r c.
Proof. intros Hp [Hr Hc]. split; [done|]. now apply (prefix_lookup_Some _ _ _ _ Hc). Qed.

Lemma links_in_range l k rs cs : Forall2 (points l k) rs cs -> Forall (fun r => 0 <= r < Z.of_nat k) rs.
Proof. induction 1 as [|r c rs cs [Hr _] _ IH]; constructor; auto. Qed.

Lemma refs_in_range all l p : bag all l p -> Forall (fun r => 0 <= r < len l) (mjoin (si_refs <$> l)).
Proof.
  intros H. apply Forall_forall. intros r (rs & Hr & (it & -> & Hit)%list_elem_of_fmap)%list_elem_of_join. apply list_elem_of_lookup_1 in Hit as [k Hk].
  pose proof (links_in_range _ _ _ _ (bg_links _ _ _ H k it Hk)) as Hf. rewrite Forall_forall in Hf. specialize (Hf r Hr). apply lookup_lt_Some in Hk. unfold len. lia.
Qed.

Lemma fmap_alter_same {A B} (g : A -> B) (f : A -> A) (k : nat) (l : list A) : (forall a, g (f a) = g a) -> g <$> alter f k l = g <$> l.
Proof.
  intros H. apply list_eq. intros i. rewrite !list_lookup_fmap. destruct (decide (i = k)) as [-> | Hne]; [|now rewrite list_lookup_alter_ne].
  rewrite list_lookup_alter_eq. destruct (l !! k); cbn; [now rewrite H|done].
Qed.

Lemma sum_of_alter_same {A} (g : A -> Z) (f : A -> A) (k : nat) (l : list A) : (forall a, g (f a) = g a) -> sum_of g (alter f k l) = sum_of g l.
Proof.
  intros H. apply sum_of_ext, Forall2_same_length_lookup_2; [apply length_alter|]. intros i a b Ha Hb. destruct (decide (i = k)) as [-> | Hne].
  - rewrite list_lookup_alter_eq, Hb in Ha. injection Ha as <-. apply H.
  - rewrite list_lookup_alter_ne in Ha by done. congruence.
Qed.

Lemma uses_more l p k j : uses l (Z.of_nat j :: p) k = if decide (k = j) then S (uses l p k) else uses l p k.
Proof.
  unfold uses. rewrite !occ_app. unfold occ. cbn. destruct (Z.eq_dec (Z.of_nat j) (Z.of_nat k)), (decide (k = j)); lia.
Qed.

Lemma lookup_app_Some_2 {A} (l : list A) x k y : (l ++ [x]) !! k = Some y -> l !! k = Some y \/ k = length l /\ Some x = Some y.
Proof.
  intros [H | [Hk H]]%lookup_app_Some; [now left|]. right. apply list_lookup_singleton_Some in H as [H ->]. split; [lia|done].
Qed.

(** A cell found again is flagged. *)
Lemma bag_found all l p k it : bag all l p -> l !! k = Some it -> bag all (alter with_cache k l) (Z.of_nat k :: p).
Proof.
  intros H Hk. set (l' := alter with_cache k l). assert (Hc : si_cell <$> l' = si_cell <$> l) by now apply fmap_alter_same.
  assert (Hr : si_refs <$> l' = si_refs <$> l) by now apply fmap_alter_same. assert (Hl : length l' = length l) by apply length_alter.
  assert (Hu : forall j, uses l' (Z.of_nat k :: p) j = if decide (j = k) then S (uses l p j) else uses l p j) by (intros j; rewrite uses_more; unfold uses; now rewrite Hr).
  assert (Hat : forall j it', l' !! j = Some it' -> exists it, l !! j = Some it /\ it' = if decide (j = k) then with_cache it else it).
  { intros j it' Hj. destruct (decide (j = k)) as [-> | Hne].
    - unfold l' in Hj. rewrite list_lookup_alter_eq, Hk in Hj. injection Hj as <-. eauto.
    - unfold l' in Hj. rewrite list_lookup_alter_ne in Hj by done. eauto. }
  destruct H as [H1 H2 H3 H4 H5 H6]. split.
  - now rewrite Hc.
  - now rewrite Hc.
  - intros j it' (it0 & Hj & ->)%Hat. specialize (H3 j it0 Hj). assert (E : si_refs it0 = si_refs (if decide (j = k) then with_cache it0 else it0) /\ si_cell it0 = si_cell (if decide (j = k) then with_cache it0 else it0)) by now destruct (decide (j = k)).
    destruct E as [<- <-]. eapply Forall2_impl; [exact H3|]. intros r c [Hrr Hcc]. split; [done|]. now rewrite Hc.
  - unfold len. rewrite Hl. constructor; [|done]. apply lookup_lt_Some in Hk. lia.
  - intros j Hj. rewrite Hl in Hj. rewrite Hu. specialize (H5 j Hj). destruct (decide (j = k)); lia.
  - intros j it' (it0 & Hj & ->)%Hat. rewrite Hu. destruct (decide (j = k)) as [-> |]; [|now apply H6]. cbn [with_cache si_cache]. symmetry. apply Nat.leb_le.
    specialize (H5 k ltac:(eapply lookup_lt_Some; eauto)). lia.
Qed.

(** A new cell goes after the cells it refers to. *)
Lemma bag_push all l p cell new wt hcnt :
  bag all l (new ++ p) -> Forall2 (points l (length l)) new (c_refs cell) -> cell ∈ all -> cell ∉ si_cell <$> l ->
  bag all (l ++ [mkItem cell new wt hcnt false false]) (len l :: p).
Proof.
  intros H Hn Hall Hnew. set (it := mkItem cell new wt hcnt false false). pose proof (refs_in_range _ _ _ H) as Hin.
  assert (Hpre : si_cell <$> l `prefix_of` si_cell <$> (l ++ [it])) by (rewrite fmap_app; now apply prefix_app_r).
  assert (Hlen : length (l ++ [it]) = S (length l)) by (rewrite length_app; cbn; lia).
  assert (Hu : forall k, uses (l ++ [it]) (len l :: p) k = if decide (k = length l) then 1%nat else uses l (new ++ p) k).
  { intros k. replace (len l) with (Z.of_nat (length l)) by done. rewrite uses_more. unfold uses. rewrite fmap_app, join_app. cbn. rewrite app_nil_r, <-app_assoc.
    destruct (decide (k = length l)) as [-> |]; [|done]. f_equal. apply occ_none, Forall_app. split; (eapply List.Forall_impl; [|first [exact Hin | exact (bg_pending _ _ _ H)]]);
      intros r Hr; unfold len in Hr; cbn beta in Hr; lia. }
  destruct H as [H1 H2 H3 H4 H5 H6]. split.
  - rewrite fmap_app. apply Forall_app. split; [done|]. now constructor.
  - rewrite fmap_app. apply NoDup_app. split; [done|]. split; [|apply NoDup_singleton]. intros c Hc ->%list_elem_of_singleton. done.
  - intros k it' [Hk | [-> [= <-]]]%lookup_app_Some_2.
    + eapply Forall2_impl; [exact (H3 k it' Hk)|]. intros r c. now apply points_mono.
    + eapply Forall2_impl; [exact Hn|]. intros r c. now apply points_mono.
  - unfold len. rewrite Hlen. constructor; [lia|]. apply Forall_app in H4 as [_ H4]. eapply List.Forall_impl; [|exact H4]. intros r Hr. unfold len in Hr. cbn beta in Hr. lia.
  - intros k Hk. rewrite Hlen in Hk. rewrite Hu. destruct (decide (k = length l)); [lia|]. apply H5. lia.
  - intros k it' [Hk | [-> [= <-]]]%lookup_app_Some_2; rewrite Hu.
    + rewrite decide_False by (apply lookup_lt_Some in Hk; lia). now apply H6.
    + now rewrite decide_True by lia.
Qed.

(** ** Importing *)

Section import.
  Context (all : list Cell) (U : universe all).

Lemma bag_small l p : bag all l p -> len l <= 2 ^ 29.
Proof.
  intros H. pose proof (un_small _ U). assert (Hs : si_cell <$> l ⊆+ all) by (apply NoDup_submseteq; [apply H|]; apply Forall_forall; apply H).
  apply submseteq_length in Hs. rewrite length_fmap in Hs. unfold len in *. lia.
Qed.

Lemma universe_hashes cells : Forall (fun c => c ∈ all) cells -> Forall hash_ok cells.
Proof. intros H. eapply List.Forall_impl; [|exact H]. intros c Hc. apply shape_hash_ok. now apply (un_shape _ U). Qed.

(** What a call leaves: the list grows by cells no higher than [h]. *)
Record grows (h : nat) (s s' : bocSerializer) : Prop := {
  gr_prefix : si_cell <$> sz_list s `prefix_of` si_cell <$> sz_list s';
  gr_height c : c ∈ si_cell <$> sz_list s' -> c ∈ si_cell <$> sz_list s \/ (height c <= h)%nat
}.

Lemma grows_refl h s : grows h s s.
Proof. split; auto. Qed.

Lemma grows_trans h h' s s' s'' : (h <= h')%nat -> grows h s s' -> grows h' s' s'' -> grows h' s s''.
Proof.
  intros Hh [H1 H2] [H3 H4]. split; [now transitivity (si_cell <$> sz_list s')|]. intros c Hc. destruct (H4 c Hc) as [Hc' |]; [|now right]. destruct (H2 c Hc'); [now left|]. right. lia.
Qed.

Definition placed (s : bocSerializer) (r : Z) (c : Cell) : Prop := 0 <= r /\ (si_cell <$> sz_list s) !! Z.to_nat r = Some c.

Lemma placed_points s r c : placed s r c -> points (sz_list s) (length (sz_list s)) r c.
Proof. intros [H0 H]. split; [|done]. apply lookup_lt_Some in H. rewrite length_fmap in H. lia. Qed.

Lemma placed_item s r c : placed s r c -> exists it, item_of (sz_list s) r = Ok it /\ sz_list s !! Z.to_nat r = Some it /\ si_cell it = c.
Proof.
  intros [H0 H]. rewrite list_lookup_fmap in H. destruct (sz_list s !! Z.to_nat r) as [it |] eqn:E; [|done]. injection H as <-.
  exists it. unfold item_of. rewrite E. destruct (Z.ltb_spec r 0); [lia|done].
Qed.

Lemma placed_grows h s s' r c : grows h s s' -> placed s r c -> placed s' r c.
Proof. intros [Hp _] [H0 H]. split; [done|]. now apply (prefix_lookup_Some _ _ _ _ H). Qed.

Definition imports (h : nat) (import : Cell -> M bocSerializer Z) (cell : Cell) : Prop :=
  forall x s p, imported all x s p ->
  exists idx s', import cell s = (Ok idx, s') /\ imported all x s' (idx :: p) /\ placed s' idx cell /\ grows h s s'.

Lemma importRefs_ok h import refs ids sum x s p :
  Forall (imports h import) refs -> imported all x s p ->
  exists new sum' s', importRefs import refs ids sum s = (Ok (ids ++ new, sum'), s') /\ imported all (x + len refs) s' (new ++ p) /\
    Forall2 (placed s') new refs /\ grows h s s' /\ sum <= sum'.
Proof.
  intros H. revert ids sum x s p. induction H as [|r refs Hr _ IH]; intros ids sum x s p Hi.
  { exists [], sum, s. cbn [importRefs]. rewrite app_nil_r, Z.add_0_r. split_and!; [done|done|constructor|apply grows_refl|lia]. }
  destruct (Hr x s p Hi) as (idx & s1 & E1 & Hi1 & Hp1 & Hg1). destruct (placed_item _ _ _ Hp1) as (it & Hit & Hl & _).
  cbn [importRefs]. rewrite (bind_Ok _ _ _ _ _ E1). mrun. rewrite Hit. mrun.
  set (s2 := mkSerializer _ _ _ _ _ _). assert (Hi2 : imported all (x + 1) s2 (idx :: p)).
  { destruct Hi1 as [I1 I5 I2 I3 I4]. split; [done..|]. unfold s2. cbn [sz_intRefs sz_list]. rewrite I4. lia. }
  destruct (IH (ids ++ [idx]) (sum + si_wt it) _ _ _ Hi2) as (new & sum' & s' & E & Hi' & Hf & Hg & Hs). exists (idx :: new), sum', s'.
  assert (Hwt : 1 <= si_wt it) by (pose proof (im_fresh _ _ _ _ Hi2) as Hfr; rewrite Forall_lookup in Hfr; apply (Hfr _ _ Hl)).
  split_and!.
  - rewrite E. now rewrite <-app_assoc.
  - replace (x + len (r :: refs)) with (x + 1 + len refs) by (unfold len; cbn; lia). destruct Hi' as [I1 I5 I2 I3 I4]. split; [|done..].
    eapply bag_perm; [|exact I1]. cbn. now rewrite Permutation_middle.
  - constructor; [|done]. now apply (placed_grows h s2).
  - apply (grows_trans h h s s1); [lia|done|]. destruct Hg as [G1 G2]. now split.
  - lia.
Qed.

Lemma own_size_bound it : si_cell it ∈ all -> 2 <= own_size it <= 130.
Proof. intros H. pose proof (sh_bits _ (un_shape _ U _ H)). unfold own_size, serializedBOCSize, SerializedBOCBodySize. lia. Qed.

Lemma data_bound l p : bag all l p -> 0 <= sum_of own_size l <= 130 * len l.
Proof.
  intros H. pose proof (sum_of_bound own_size l 0 130) as Hb. apply Hb. apply Forall_forall. intros it Hit. pose proof (bg_cells _ _ _ H) as Hc. rewrite Forall_fmap, Forall_forall in Hc.
  pose proof (own_size_bound it (Hc it Hit)). lia.
Qed.

Lemma import_found x s p r cell :
  imported all x s p -> placed s r cell ->
  exists s', (modify (fun s => with_list (alter with_cache (Z.to_nat r) (sz_list s)) s) ;; mret r) s = (Ok r, s') /\
    imported all x s' (r :: p) /\ placed s' r cell /\ grows (height cell) s s'.
Proof.
  intros [I1 I5 I2 I3 I4] Hp. destruct (placed_item _ _ _ Hp) as (it & _ & Hl & _). destruct Hp as [H0 Hp]. mrun. eexists. split; [reflexivity|].
  assert (Hc : si_cell <$> alter with_cache (Z.to_nat r) (sz_list s) = si_cell <$> sz_list s) by now apply fmap_alter_same.
  split_and!.
  - split; cbn [with_list sz_list sz_index sz_dataBytes sz_intRefs].
    + pose proof (bag_found _ _ _ _ _ I1 Hl) as Hb. rewrite Z2Nat.id in Hb by done. exact Hb.
    + apply Forall_alter; [done|]. intros ? _ [? ? ?]. now split.
    + now rewrite Hc.
    + now rewrite sum_of_alter_same.
    + now rewrite sum_of_alter_same.
  - split; [done|]. cbn [with_list sz_list]. now rewrite Hc.
  - split; cbn [with_list sz_list]; rewrite Hc; auto.
Qed.

(** The state with one more cell. *)
Lemma import_push x s p cell new wt index' :
  imported all (x + len new) s (new ++ p) -> Forall2 (placed s) new (c_refs cell) -> cell ∈ all -> cell ∉ si_cell <$> sz_list s -> 1 <= wt <= 255 ->
  index_ok ((si_cell <$> sz_list s) ++ [cell]) index' ->
  let s' := mkSerializer (sz_intRefs s) (sz_intHashes s) (sz_topHashes s) (u64 (sz_dataBytes s + serializedBOCSize cell false)) index'
              (sz_list s ++ [mkItem cell new wt (u8 (LevelMask.getHashesCount (c_mask cell))) false false]) in
  imported all x s' (cellCount s :: p).
Proof.
  intros [I1 I5 I2 I3 I4] Hn Hall Hnew Hwt Hix. set (it := mkItem cell new wt _ false false).
  assert (Hb : bag all (sz_list s ++ [it]) (len (sz_list s) :: p)).
  { apply bag_push; [done|eapply Forall2_impl; [exact Hn|]; intros ? ?; apply placed_points|done..]. }
  cbn zeta. split; cbn [sz_list sz_index sz_dataBytes sz_intRefs].
  - exact Hb.
  - apply Forall_app. split; [done|]. constructor; [|done]. split; [done| |done]. unfold it. cbn [si_hcnt si_cell].
    pose proof (hashes_count _ (sh_mask _ (un_shape _ U _ Hall))). unfold u8. rewrite Z.mod_small; lia.
  - now rewrite fmap_app.
  - pose proof (data_bound _ _ Hb) as Hd. pose proof (bag_small _ _ Hb). rewrite sum_of_snoc in *. change (own_size it) with (serializedBOCSize cell false) in *.
    rewrite I3. unfold u64. rewrite Z.mod_small; lia.
  - rewrite I4, sum_of_snoc. change (ref_count it) with (len new). lia.
Qed.

Lemma importCell_ok fuel cell : sealed fuel cell -> cell ∈ all -> imports (height cell) (importCell fuel) cell.
Proof.
  revert cell. induction fuel as [|fuel IH]; intros cell Hs Hall; [done|]. intros x s p Hi. pose proof (shape_hash_ok cell (un_shape _ U _ Hall)) as Hok.
  pose proof (bg_cells _ _ _ (im_bag _ _ _ _ Hi)) as Hcells. pose proof (bag_small _ _ (im_bag _ _ _ _ Hi)) as Hsm.
  cbn [importCell]. rewrite (bocHashFingerprint_ok _ Hok). mrun.
  destruct (index_get_ok (si_cell <$> sz_list s) (sz_index s) cell) as ([pos |] & -> & Hget); [now apply universe_hashes|unfold len in *; rewrite length_fmap; lia|apply Hi|done|..]; mrun.
  { destruct Hget as (H0 & c' & Hc' & Hh). rewrite Forall_lookup in Hcells. rewrite (un_hash _ U c' cell (Hcells _ _ Hc') Hall Hh) in Hc'.
    destruct (import_found x s p pos cell Hi (conj H0 Hc')) as (s' & E & H). exists pos, s'. split; [|exact H]. rewrite <-E. now mrun. }
  assert (Hchild : Forall (imports (list_max (height <$> c_refs cell)) (importCell fuel)) (c_refs cell)).
  { apply Forall_forall. intros r Hr. destruct Hs as [_ Hs]. rewrite Forall_forall in Hs. intros x' s0 p0 Hi0. destruct (IH r (Hs r Hr) (un_closed _ U _ _ Hall Hr) x' s0 p0 Hi0) as (idx & s' & E & Hi' & Hp & Hg).
    exists idx, s'. split_and!; [done..|]. apply (grows_trans (height r) _ s0 s' s'); [|done|apply grows_refl]. pose proof (proj1 (list_max_le (height <$> c_refs cell) _) (le_n _)) as Hm.
    rewrite Forall_forall in Hm. apply Hm. now apply list_elem_of_fmap_2. }
  destruct (importRefs_ok _ _ _ [] 1 x s p Hchild Hi) as (new & sum & s1 & E1 & Hi1 & Hp1 & Hg1 & Hsum). rewrite (bind_Ok _ _ _ _ _ E1). cbn [app]. mrun.
  pose proof (bag_small _ _ (im_bag _ _ _ _ Hi1)) as Hsm1. destruct (Z.leb_spec bocVisitLinked (cellCount s1)) as [Hbig | _].
  { change bocVisitLinked with 4294967293 in Hbig. unfold cellCount in Hbig. lia. }
  assert (Hnew : cell ∉ si_cell <$> sz_list s1).
  { intros Hin. destruct (gr_height _ _ _ Hg1 _ Hin) as [Hin' | Hh]; [now apply (Hget cell Hin')|]. rewrite (height_eq cell) in Hh. lia. }
  destruct (index_set_ok (si_cell <$> sz_list s1) (sz_index s1) cell) as (ix & Hset & Hix); [|unfold len in *; rewrite length_fmap; lia|apply Hi1|].
  { apply Forall_app. split; [apply universe_hashes, (im_bag _ _ _ _ Hi1)|now constructor]. }
  replace (len (si_cell <$> sz_list s1)) with (cellCount s1) in Hset by (unfold cellCount, len; now rewrite length_fmap). rewrite Hset. mrun.
  do 2 eexists. split; [reflexivity|]. split; [|split].
  - assert (Hn : len new = len (c_refs cell)) by (unfold len; now rewrite (Forall2_length _ _ _ Hp1)).
    apply import_push; [now rewrite Hn|done..| |done]. destruct (Z.ltb_spec 255 sum); lia.
  - unfold placed, cellCount, len. cbn [sz_list]. split; [lia|]. rewrite Nat2Z.id, fmap_app, lookup_app_r by (rewrite length_fmap; lia). rewrite length_fmap, Nat.sub_diag. done.
  - apply (grows_trans (list_max (height <$> c_refs cell)) _ s s1); [|done|].
    { rewrite (height_eq cell). lia. }
    split; cbn [sz_list]; rewrite fmap_app; [now apply prefix_app_r|]. intros c [Hc | ->%list_elem_of_singleton]%elem_of_app; auto.
Qed.

Lemma importRoots_ok roots s p :
  Forall (fun c => sealed (Z.to_nat (maxDepth + 1)) c /\ c ∈ all) roots -> imported all 0 s p ->
  exists ids s', importRoots roots s = (Ok ids, s') /\ imported all 0 s' (rev ids ++ p) /\ Forall2 (placed s') ids roots /\ (exists h, grows h s s').
Proof.
  intros H. revert s p. induction H as [|r roots [Hs Hr] _ IH]; intros s p Hi.
  { exists [], s. split_and!; [done..|constructor|exists O; apply grows_refl]. }
  destruct (importCell_ok _ _ Hs Hr 0 s p Hi) as (idx & s1 & E1 & Hi1 & Hp1 & Hg1). destruct (IH s1 _ Hi1) as (ids & s' & E & Hi' & Hf & h & Hg).
  exists (idx :: ids), s'. cbn [importRoots]. rewrite (bind_Ok _ _ _ _ _ E1), (bind_Ok _ _ _ _ _ E). split_and!; [done| | |].
  - cbn. now rewrite <-app_assoc.
  - constructor; [now apply (placed_grows h s1)|done].
  - exists (Nat.max (height r) h). destruct Hg as [G1 G2]. apply (grows_trans (height r) _ s s1); [lia|done|]. split; [done|]. intros c Hc. destruct (G2 c Hc); [auto|right; lia].
Qed.

Lemma imported_start hint pool : pooled pool -> imported all 0 (mkSerializer 0 0 0 0 (HashIndex.reset hint pool) []) [].
Proof.
  intros Hp. split; cbn; [|done|now apply reset_ok|done..]. split; cbn; try done; try constructor; intros; lia.
Qed.

End import.

(** * Weighing the cells of a bag

    The loops on weights change weights and root flags only, and count the hashes the
    writer will store: those of the cells of weight zero and those of the other roots. *)

(** ** Loops *)

Lemma foldl_ok {A B} (P : A -> Prop) (g : outcome A -> B -> outcome A) l a :
  P a -> (forall a b, P a -> b ∈ l -> exists a', g (Ok a) b = Ok a' /\ P a') -> exists a', foldl g (Ok a) l = Ok a' /\ P a'.
Proof.
  revert a. induction l as [|b l IH]; intros a Ha Hs; [now exists a|]. destruct (Hs a b Ha ltac:(left)) as (a' & E & Ha'). cbn [foldl]. rewrite E.
  apply IH; [done|]. intros a0 b0 Ha0 Hb0. apply Hs; [done|now right].
Qed.

Lemma loop_seq {A} (P : nat -> A -> Prop) (f : A -> nat -> outcome A) n a :
  P O a -> (forall i a, (i < n)%nat -> P i a -> exists a', f a i = Ok a' /\ P (S i) a') -> exists a', loop f (seq 0 n) a = Ok a' /\ P n a'.
Proof.
  intros Ha Hs. unfold loop. induction n as [|n IH]; [now exists a|]. rewrite seq_S, foldl_app. destruct IH as (a' & E & Ha'); [intros; apply Hs; [lia|done]|].
  rewrite E. cbn. apply Hs; [lia|done].
Qed.

Lemma sum_of_alter {A} (g : A -> Z) (f : A -> A) (k : nat) (l : list A) a : l !! k = Some a -> sum_of g (alter f k l) = sum_of g l - g a + g (f a).
Proof.
  unfold sum_of. revert k. induction l as [|b l IH]; intros [|k] H; cbn in *; [done..| |].
  - injection H as ->. lia.
  - change (list_alter f k l) with (alter f k l). rewrite (IH k H). lia.
Qed.

(** ** Items *)

(** What the loops leave alone. *)
Definition core (it : bocSerializeItem) : Cell * list Z * Z * bool := (si_cell it, si_refs it, si_hcnt it, si_cache it).

Definition wt_ok (it : bocSerializeItem) : Prop := 0 <= si_wt it <= 255.

Record kept (l l' : list bocSerializeItem) : Prop := {
  kp_core : core <$> l' = core <$> l;
  kp_wt : Forall wt_ok l'
}.

(** Before roots are marked. *)
Definition reweighed (l l' : list bocSerializeItem) : Prop := kept l l' /\ si_root <$> l' = si_root <$> l.

Lemma kept_length l l' : kept l l' -> length l' = length l.
Proof. intros [H _]. apply (f_equal length) in H. now rewrite !length_fmap in H. Qed.

Lemma kept_proj {B} (g : bocSerializeItem -> B) (h : Cell * list Z * Z * bool -> B) l l' :
  (forall it, g it = h (core it)) -> kept l l' -> g <$> l' = g <$> l.
Proof.
  intros Hg [H _]. transitivity (h <$> (core <$> l')); [|rewrite H]; rewrite <-list_fmap_compose; apply list_fmap_ext; intros; cbn; auto.
Qed.

Lemma kept_cells l l' : kept l l' -> si_cell <$> l' = si_cell <$> l.
Proof. apply (kept_proj _ (fun c => fst (fst (fst c)))). done. Qed.

Lemma kept_refs l l' : kept l l' -> si_refs <$> l' = si_refs <$> l.
Proof. apply (kept_proj _ (fun c => snd (fst (fst c)))). done. Qed.

Lemma kept_item l l' k it : kept l l' -> l' !! k = Some it -> exists it0, l !! k = Some it0 /\ core it = core it0.
Proof.
  intros [H _] Hk. assert (E : (core <$> l') !! k = Some (core it)) by now rewrite list_lookup_fmap, Hk. rewrite H, list_lookup_fmap in E.
  destruct (l !! k) as [it0 |]; [|done]. exists it0. split; [done|]. cbn in E. congruence.
Qed.

Lemma kept_alter l l' f k : (forall it, core (f it) = core it) -> (forall it, wt_ok it -> wt_ok (f it)) -> kept l l' -> kept l (alter f k l').
Proof.
  intros Hc Hw [H1 H2]. split; [now rewrite fmap_alter_same|]. apply Forall_alter; [done|]. intros it _. apply Hw.
Qed.

Lemma u8_range x : 0 <= u8 x <= 255.
Proof. unfold u8. lia. Qed.

Lemma kept_with_wt l l' w k : 0 <= w <= 255 -> kept l l' -> kept l (alter (with_wt w) k l').
Proof. intros Hw Hk. apply kept_alter; [done|intros ? _; exact Hw|done]. Qed.

Lemma reweighed_with_wt l l' w k : 0 <= w <= 255 -> reweighed l l' -> reweighed l (alter (with_wt w) k l').
Proof. intros Hw [Hk Hr]. split; [now apply kept_with_wt|now rewrite fmap_alter_same]. Qed.

Lemma item_of_ok l r : 0 <= r < len l -> exists it, item_of l r = Ok it /\ l !! Z.to_nat r = Some it.
Proof.
  intros [H0 H1]. unfold item_of. destruct (Z.ltb_spec r 0); [lia|]. destruct (lookup_lt_is_Some_2 l (Z.to_nat r)) as [it Hit]; [unfold len in H1; lia|]. exists it. now rewrite Hit.
Qed.

(** ** The first two loops *)

Definition in_range (l : list bocSerializeItem) (refs : list Z) : Prop := Forall (fun r => 0 <= r < len l) refs.

Lemma light_children_ok l refs : in_range l refs -> exists r, light_children l refs = Ok r.
Proof.
  intros H. unfold light_children. match goal with |- context [foldl ?g (Ok ?a) ?l] => destruct (foldl_ok (fun _ => True) g l a I) as (r & E & _); [|exists r; exact E] end.
  intros [[rem sum] mask] [j r] _ Hin. cbn [mbind outcome_bind]. assert (Hr : r ∈ refs) by (apply elem_of_zip_r in Hin; exact Hin).
  unfold in_range in H. rewrite Forall_forall in H. destruct (item_of_ok l r (H r Hr)) as (it & -> & _). cbn [mbind outcome_bind]. destruct (_ <=? _); eauto.
Qed.

Lemma limit_heavy_ok l0 l refs rem sum mask :
  reweighed l0 l -> in_range l0 refs -> exists l', limit_heavy l refs rem sum mask = Ok l' /\ reweighed l0 l'.
Proof.
  intros Hk H. unfold limit_heavy.
  match goal with |- context [foldl ?g (Ok ?a) ?l] => destruct (foldl_ok (fun st => reweighed l0 (fst st)) g l a Hk) as ([l' s'] & E & Hl'); [|rewrite E; now exists l'] end.
  intros [l1 s1] [r light] Hk1 Hin. cbn [mbind outcome_bind fst] in *. assert (Hr : r ∈ refs) by (apply elem_of_zip_l in Hin; exact Hin).
  destruct light; [now eexists|]. unfold in_range in H. rewrite Forall_forall in H. pose proof (kept_length _ _ (proj1 Hk1)) as Hl. destruct (item_of_ok l1 r) as (it & -> & _); [unfold len in *; rewrite Hl; auto|].
  cbn [mbind outcome_bind]. eexists. split; [reflexivity|]. cbn [fst]. destruct (_ <? _); [|done]. apply reweighed_with_wt; [apply u8_range|done].
Qed.

(** All references stay within the list. *)
Definition closed (l : list bocSerializeItem) : Prop := Forall (fun it => in_range l (si_refs it)) l.

Lemma kept_closed l l' k it : closed l -> kept l l' -> l' !! k = Some it -> in_range l (si_refs it).
Proof.
  intros Hc Hk Hit. destruct (kept_item _ _ _ _ Hk Hit) as (it0 & H0 & E). assert (E' : si_refs it = si_refs it0) by (unfold core in E; congruence).
  rewrite E'. unfold closed in Hc. rewrite Forall_lookup in Hc. eauto.
Qed.

Lemma item_at l0 l (i : nat) : kept l0 l -> (i < length l0)%nat -> exists it, item_of l (Z.of_nat i) = Ok it /\ l !! i = Some it.
Proof. intros Hk Hi. pose proof (kept_length _ _ Hk). destruct (item_of_ok l (Z.of_nat i)) as (it & E & H'); [unfold len; lia|]. rewrite Nat2Z.id in H'. eauto. Qed.

Lemma limit_weights_ok l0 l i : closed l0 -> reweighed l0 l -> (i < length l0)%nat -> exists l', limit_weights l i = Ok l' /\ reweighed l0 l'.
Proof.
  intros Hc Hw Hi. pose proof (proj1 Hw) as Hk. unfold limit_weights. destruct (item_at _ _ _ Hk Hi) as (it & -> & Hit). cbn [mbind outcome_bind]. pose proof (kept_closed _ _ _ _ Hc Hk Hit) as Hr.
  assert (Hr' : in_range l (si_refs it)) by (unfold in_range, len in *; now rewrite (kept_length _ _ Hk)).
  destruct (light_children_ok l _ Hr') as ([[rem sum] mask] & ->). cbn [mbind outcome_bind]. destruct (rem =? 0); [eauto|]. now apply limit_heavy_ok.
Qed.

Lemma limit_loop_ok l : closed l -> Forall wt_ok l -> exists l', loop limit_weights (rev (seq 0 (length l))) l = Ok l' /\ reweighed l l'.
Proof.
  intros Hc Hw. unfold loop. apply (foldl_ok (reweighed l)); [now repeat split|]. intros l1 i Hk Hin. cbn. apply limit_weights_ok; [done..|].
  rewrite list_elem_of_In, <-in_rev, <-list_elem_of_In, elem_of_seq in Hin. lia.
Qed.

(** ** Cells of weight zero *)

Definition int_hashes (it : bocSerializeItem) : Z := if si_wt it =? 0 then si_hcnt it else 0.
Definition top_hashes (it : bocSerializeItem) : Z := if si_root it && negb (si_wt it =? 0) then si_hcnt it else 0.

Lemma sum_weights_ok l refs : in_range l refs -> Forall wt_ok l -> exists sum, sum_weights l refs = Ok sum /\ 1 <= sum.
Proof.
  intros H Hw. unfold sum_weights. apply (foldl_ok (fun s => 1 <= s)); [lia|]. intros s r Hs Hr. unfold in_range in H. rewrite Forall_forall in H.
  destruct (item_of_ok l r (H r Hr)) as (it & E & Hit). cbn [mbind outcome_bind]. rewrite E. cbn. eexists. split; [reflexivity|]. rewrite Forall_lookup in Hw. specialize (Hw _ _ Hit). unfold wt_ok in Hw. lia.
Qed.

(** [int_hashes] of the items settled so far. *)
Lemma settle_weight_ok l0 l i h :
  closed l0 -> kept l0 l -> (i < length l0)%nat -> h = sum_of int_hashes (take i l) ->
  exists l' h', settle_weight (l, h) i = Ok (l', h') /\ kept l0 l' /\ h' = sum_of int_hashes (take (S i) l') /\ si_root <$> l' = si_root <$> l.
Proof.
  intros Hc Hk Hi Hh. unfold settle_weight. destruct (item_at _ _ _ Hk Hi) as (it & -> & Hit). cbn [mbind outcome_bind]. pose proof (kept_closed _ _ _ _ Hc Hk Hit) as Hr.
  assert (Hr' : in_range l (si_refs it)) by (unfold in_range, len in *; now rewrite (kept_length _ _ Hk)).
  destruct (sum_weights_ok l _ Hr' (kp_wt _ _ Hk)) as (sum & -> & Hs). cbn [mbind outcome_bind]. pose proof (kp_wt _ _ Hk) as Hw. rewrite Forall_lookup in Hw. specialize (Hw _ _ Hit). unfold wt_ok in Hw.
  assert (Hstep : forall w, take (S i) (alter (with_wt w) i l) = take i l ++ [with_wt w it]).
  { intros w. rewrite (take_S_r _ _ (with_wt w it)) by (now rewrite list_lookup_alter_eq, Hit). f_equal. apply list_eq. intros j. destruct (decide (j < i)%nat).
    - rewrite !lookup_take_lt by done. apply list_lookup_alter_ne. lia.
    - now rewrite !lookup_take_ge by lia. }
  destruct (Z.leb_spec sum (si_wt it)); (do 2 eexists; split; [reflexivity|]; split_and!;
    [apply kept_with_wt; [first [apply u8_range | lia]|done]|rewrite Hstep, sum_of_snoc, <-Hh|now apply fmap_alter_same]).
  - unfold int_hashes. cbn [with_wt si_wt]. unfold u8. rewrite Z.mod_small by lia. destruct (Z.eqb_spec sum 0); lia.
  - done.
Qed.

Lemma settle_loop_ok l0 l :
  closed l0 -> kept l0 l ->
  exists l' h, loop settle_weight (seq 0 (length l0)) (l, 0) = Ok (l', h) /\ kept l0 l' /\ h = sum_of int_hashes l' /\ si_root <$> l' = si_root <$> l.
Proof.
  intros Hc Hk.
  destruct (loop_seq (fun i st => kept l0 (fst st) /\ snd st = sum_of int_hashes (take i (fst st)) /\ si_root <$> fst st = si_root <$> l) settle_weight (length l0) (l, 0)) as ([l' h] & E & H1 & H2 & H3).
  - cbn. now rewrite take_0.
  - intros i [l1 h1] Hi (K1 & K2 & K3). cbn [fst snd] in *. destruct (settle_weight_ok l0 l1 i h1 Hc K1 Hi K2) as (l2 & h2 & E & J1 & J2 & J3).
    exists (l2, h2). split; [done|]. cbn [fst snd]. split_and!; [done..|congruence].
  - cbn [fst snd] in *. exists l', h. split_and!; try done. rewrite H2. f_equal. apply take_ge. now rewrite (kept_length _ _ H1).
Qed.

(** ** Roots *)

Lemma mark_root_ok l0 l h r :
  kept l0 l -> 0 <= r < len l0 -> h = sum_of top_hashes l ->
  exists l' h', mark_root (l, h) r = Ok (l', h') /\ kept l0 l' /\ h' = sum_of top_hashes l' /\ sum_of int_hashes l' = sum_of int_hashes l.
Proof.
  intros Hk Hr Hh. unfold mark_root. destruct (item_of_ok l r) as (it & -> & Hit); [unfold len in *; now rewrite (kept_length _ _ Hk)|]. cbn [mbind outcome_bind].
  destruct (si_root it) eqn:Er; [now do 2 eexists|]. do 2 eexists. split; [reflexivity|]. split_and!.
  - now apply kept_alter.
  - rewrite (sum_of_alter _ _ _ _ _ Hit), <-Hh. unfold top_hashes. cbn [with_root si_root si_wt si_hcnt andb]. rewrite Er. cbn [andb]. destruct (negb _); lia.
  - now apply sum_of_alter_same.
Qed.

Lemma mark_loop_ok l0 l roots :
  kept l0 l -> in_range l0 roots -> sum_of top_hashes l = 0 ->
  exists l' h, loop mark_root roots (l, 0) = Ok (l', h) /\ kept l0 l' /\ h = sum_of top_hashes l' /\ sum_of int_hashes l' = sum_of int_hashes l.
Proof.
  intros Hk Hr H0. unfold loop.
  destruct (foldl_ok (fun st => kept l0 (fst st) /\ snd st = sum_of top_hashes (fst st) /\ sum_of int_hashes (fst st) = sum_of int_hashes l)
    (fun acc r => a ← acc; mark_root a r) roots (l, 0)) as ([l' h] & E & H1 & H2 & H3).
  - cbn. split_and!; auto.
  - intros [l1 h1] r (K1 & K2 & K3) Hin. cbn [fst snd mbind outcome_bind] in *. unfold in_range in Hr. rewrite Forall_forall in Hr.
    destruct (mark_root_ok l0 l1 h1 r K1 (Hr r Hin) K2) as (l2 & h2 & E & J1 & J2 & J3). exists (l2, h2). split; [done|]. cbn [fst snd]. split_and!; [done..|congruence].
  - exists l', h. cbn [fst snd] in *. now rewrite E.
Qed.
