(* ===== verification/BocOrder.v ===== *)
(** * Renumbering the cells of a bag

    [revisit] gives every cell reachable from the roots a number, the cells it refers
    to first; [reorderInPlace] moves each cell to its number. *)

From S2P Require Import Prelude Bytes CellModel Finalize BocIndex BocIndexSpec BocSerialize BocSpec BocImport.
From stdpp Require Import list strings.
#[local] Open Scope Z_scope.

(** ** Loops over references *)

Lemma each_ref_ok (P : nat -> visit -> Prop) f n v :
  P n v -> (forall j v, (j < n)%nat -> P (S j) v -> exists v', f j v = (Ok tt, v') /\ P j v') -> exists v', each_ref f n v = (Ok tt, v') /\ P O v'.
Proof.
  revert v. induction n as [|n IH]; intros v Hv Hs; [now exists v|]. destruct (Hs n v ltac:(lia) Hv) as (v1 & E1 & H1).
  destruct (IH v1 H1) as (v' & E & H); [intros; apply Hs; [lia|done]|]. exists v'. split; [|done]. cbn [each_ref]. now rewrite (bind_Ok _ _ _ _ _ E1).
Qed.

(** ** The state of the walk *)

Section visiting.
  Context (l0 : list bocSerializeItem).

(** [ord] lists the numbered positions; a position [is_done] when it is
    linked or numbered. *)
Definition is_done (v : visit) (k : nat) : Prop := exists x, vi_new v !! k = Some x /\ x <= bocVisitLinked.

Definition numbered (ord : list nat) (r r' : Z) : Prop := exists i, r' = Z.of_nat i /\ ord !! i = Some (Z.to_nat r).

Record visiting (hole : nat -> Prop) (v : visit) (ord : list nat) : Prop := {
  vs_core : with_links [] <$> vi_list v = with_links [] <$> l0;
  vs_len : length (vi_new v) = length l0;
  vs_next : vi_next v = len ord;
  vs_nodup : NoDup ord;
  vs_new i k : ord !! i = Some k -> vi_new v !! k = Some (Z.of_nat i);
  vs_rest k x : vi_new v !! k = Some x -> k ∉ ord -> x = bocInvalidCellIndex \/ x = bocVisitScanned \/ x = bocVisitLinked;
  vs_done k it0 it : is_done v k -> l0 !! k = Some it0 -> vi_list v !! k = Some it -> Forall2 (numbered ord) (si_refs it0) (si_refs it);
  vs_open k it0 it : ~ is_done v k -> ~ hole k -> l0 !! k = Some it0 -> vi_list v !! k = Some it -> si_refs it = si_refs it0;
  vs_desc i k it0 : ord !! i = Some k -> l0 !! k = Some it0 -> Forall (fun r => exists j, (j < i)%nat /\ ord !! j = Some (Z.to_nat r)) (si_refs it0)
}.

(** No position is half linked. *)
Definition settled : visit -> list nat -> Prop := visiting (fun _ => False).

Definition unchanged_from (pos : nat) (v v' : visit) : Prop :=
  forall k, (pos <= k)%nat -> vi_new v' !! k = vi_new v !! k /\ vi_list v' !! k = vi_list v !! k.

Record advances (pos : nat) (v v' : visit) (ord ord' : list nat) : Prop := {
  ad_prefix : ord `prefix_of` ord';
  ad_done k : is_done v k -> is_done v' k;
  ad_frame : unchanged_from pos v v'
}.

Lemma advances_refl pos v ord : advances pos v v ord ord.
Proof. split; [done|auto|]. now intros k _. Qed.

Lemma advances_trans pos v1 v2 v3 o1 o2 o3 : advances pos v1 v2 o1 o2 -> advances pos v2 v3 o2 o3 -> advances pos v1 v3 o1 o3.
Proof.
  intros [A1 A2 A3] [B1 B2 B3]. split; [now transitivity o2|auto|]. intros k Hk. destruct (A3 k Hk) as [Ea Eb]. destruct (B3 k Hk) as [Ec Ed]. split; congruence.
Qed.

Lemma advances_up pos pos' v v' o o' : (pos <= pos')%nat -> advances pos v v' o o' -> advances pos' v v' o o'.
Proof. intros Hle [A1 A2 A3]. split; [done..|]. intros k Hk. apply A3. lia. Qed.

Lemma numbered_mono ord ord' r r' : ord `prefix_of` ord' -> numbered ord r r' -> numbered ord' r r'.
Proof. intros Hp (i & -> & H). exists i. split; [done|]. now apply (prefix_lookup_Some _ _ _ _ H). Qed.

Context (Hsmall : len l0 <= 2 ^ 29).
Context (Hback : forall k it, l0 !! k = Some it -> Forall (fun r => 0 <= r < Z.of_nat k) (si_refs it)).

Lemma linked_value : bocVisitLinked = 2 ^ 32 - 3 /\ bocVisitScanned = 2 ^ 32 - 2 /\ bocInvalidCellIndex = 2 ^ 32 - 1.
Proof using. done. Qed.

Lemma visiting_item hole v ord k : visiting hole v ord -> (k < length l0)%nat ->
  exists it0 it x, l0 !! k = Some it0 /\ vi_list v !! k = Some it /\ vi_new v !! k = Some x /\ with_links [] it = with_links [] it0 /\
    item_of (vi_list v) (Z.of_nat k) = Ok it /\ index (vi_new v) (Z.of_nat k) = Ok x.
Proof using.
  intros H Hk. destruct (lookup_lt_is_Some_2 l0 k Hk) as [it0 H0]. destruct (lookup_lt_is_Some_2 (vi_new v) k) as [x Hx]; [now rewrite (vs_len _ _ _ H)|].
  pose proof (f_equal (fun l => l !! k) (vs_core _ _ _ H)) as E. cbn in E. rewrite !list_lookup_fmap, H0 in E. destruct (vi_list v !! k) as [it |] eqn:Hit; [|done]. cbn in E. injection E as E.
  exists it0, it, x. split_and!; try done.
  - unfold with_links. congruence.
  - unfold item_of. destruct (Z.ltb_spec (Z.of_nat k) 0); [lia|]. now rewrite Nat2Z.id, Hit.
  - apply index_lookup; [now rewrite Nat2Z.id|lia].
Qed.

(** Numbers are small. *)
Lemma ord_bound hole v ord : visiting hole v ord -> len ord <= len l0.
Proof using.
  intros H. assert (Hs : ord ⊆+ seq 0 (length l0)).
  { apply NoDup_submseteq; [apply H|]. intros k [i Hi]%list_elem_of_lookup_1. apply elem_of_seq. pose proof (vs_new _ _ _ H _ _ Hi) as Hn. apply lookup_lt_Some in Hn. rewrite (vs_len _ _ _ H) in Hn. lia. }
  apply submseteq_length in Hs. rewrite length_seq in Hs. unfold len. lia.
Qed.

(** What the mark of a position says. *)
Lemma status_numbered hole v ord k x : visiting hole v ord -> vi_new v !! k = Some x -> x < bocVisitLinked -> ord !! Z.to_nat x = Some k /\ 0 <= x.
Proof using.
  intros H Hx Hlt. destruct linked_value as (E1 & E2 & E3). destruct (decide (k ∈ ord)) as [[i Hi]%list_elem_of_lookup_1 | Hn].
  - pose proof (vs_new _ _ _ H _ _ Hi) as Hn. rewrite Hx in Hn. injection Hn as ->. rewrite Nat2Z.id. split; [done|lia].
  - destruct (vs_rest _ _ _ H _ _ Hx Hn) as [-> | [-> | ->]]; lia.
Qed.

Lemma status_open hole v ord k x : visiting hole v ord -> vi_new v !! k = Some x -> bocVisitLinked <= x -> k ∉ ord.
Proof using Hsmall.
  intros H Hx Hge [i Hi]%list_elem_of_lookup_1. pose proof (vs_new _ _ _ H _ _ Hi) as Hn. rewrite Hx in Hn. injection Hn as ->.
  pose proof (ord_bound _ _ _ H). apply lookup_lt_Some in Hi. destruct linked_value as (E1 & _). unfold len in *. lia.
Qed.

(** ** Marks *)

Lemma is_done_mark v k y l next x : vi_new v !! k = Some x -> bocVisitLinked < x -> bocVisitLinked < y ->
  forall j, is_done (mkVisit l (<[k := y]> (vi_new v)) next) j <-> is_done v j.
Proof using.
  intros Hx Hlt Hy j. unfold is_done. cbn [vi_new]. destruct (decide (j = k)) as [-> | Hne]; [|now rewrite list_lookup_insert_ne].
  rewrite list_lookup_insert_eq by (eapply lookup_lt_Some; eauto). split; intros (z & Hz & Hle); [injection Hz as <-; lia|]. rewrite Hx in Hz. injection Hz as <-. lia.
Qed.

(** A position is scanned. *)
Lemma visiting_scan hole v ord k x :
  visiting hole v ord -> vi_new v !! k = Some x -> bocVisitLinked < x ->
  visiting hole (mkVisit (vi_list v) (<[k := bocVisitScanned]> (vi_new v)) (vi_next v)) ord.
Proof using Hsmall.
  intros H Hx Hlt. pose proof (is_done_mark v k bocVisitScanned (vi_list v) (vi_next v) x Hx Hlt eq_refl) as Hd. pose proof (status_open _ _ _ _ _ H Hx ltac:(lia)) as Hk.
  destruct H as [H1 H2 H3 H4 H5 H6 H7 H8 H9]. split; cbn [vi_list vi_new vi_next]; try done.
  - now rewrite length_insert.
  - intros i j Hj. rewrite list_lookup_insert_ne; [eauto|]. intros ->. apply Hk. now apply list_elem_of_lookup_2 in Hj.
  - intros j y Hj Hn. destruct (decide (j = k)) as [-> | Hne]; [|rewrite list_lookup_insert_ne in Hj by done; eauto].
    rewrite list_lookup_insert_eq in Hj by (eapply lookup_lt_Some; eauto). injection Hj as <-. auto.
  - intros j it0 it Hj. apply H7. now apply Hd.
  - intros j it0 it Hj. apply H8. now rewrite <-Hd.
Qed.

(** A linked position is numbered. *)
Lemma visiting_number hole v ord k :
  visiting hole v ord -> vi_new v !! k = Some bocVisitLinked -> ~ hole k ->
  visiting hole (mkVisit (vi_list v) (<[k := vi_next v]> (vi_new v)) (u32 (vi_next v + 1))) (ord ++ [k]).
Proof using Hsmall.
  intros H Hx Hh. pose proof (status_open _ _ _ _ _ H Hx ltac:(lia)) as Hk. pose proof (ord_bound _ _ _ H) as Hb. pose proof (vs_next _ _ _ H) as Hn. destruct linked_value as (E1 & E2 & E3).
  pose proof (lookup_lt_Some _ _ _ Hx) as Hlt. assert (Hkl : (k < length l0)%nat) by now rewrite <-(vs_len _ _ _ H).
  assert (Hd : forall j, is_done (mkVisit (vi_list v) (<[k := vi_next v]> (vi_new v)) (u32 (vi_next v + 1))) j <-> is_done v j).
  { intros j. unfold is_done. cbn [vi_new]. destruct (decide (j = k)) as [-> | Hne]; [|now rewrite list_lookup_insert_ne]. rewrite list_lookup_insert_eq by done.
    split; intros _; eexists; (split; [reflexivity || exact Hx|]); unfold len in *; lia. }
  assert (Hpre : ord `prefix_of` ord ++ [k]) by now apply prefix_app_r.
  pose proof H as [H1 H2 H3 H4 H5 H6 H7 H8 H9]. split; cbn [vi_list vi_new vi_next]; try done.
  - now rewrite length_insert.
  - rewrite Hn. unfold u32, len in *. rewrite length_app. cbn. lia.
  - apply NoDup_app. split; [done|]. split; [|apply NoDup_singleton]. intros j Hj ->%list_elem_of_singleton. done.
  - intros i j [Hj | [-> [= <-]]]%lookup_app_Some_2.
    + rewrite list_lookup_insert_ne; [eauto|]. intros ->. apply Hk. now apply list_elem_of_lookup_2 in Hj.
    + rewrite list_lookup_insert_eq by done. now rewrite Hn.
  - intros j y Hj Hnin. assert (j <> k /\ j ∉ ord) as [Hne Hj'] by (rewrite elem_of_app, list_elem_of_singleton in Hnin; tauto). rewrite list_lookup_insert_ne in Hj by done. eauto.
  - intros j it0 it Hj Hj0 Hjt. eapply Forall2_impl; [exact (H7 j it0 it (proj1 (Hd j) Hj) Hj0 Hjt)|]. intros r r'. now apply numbered_mono.
  - intros j it0 it Hj. apply H8. now rewrite <-Hd.
  - intros i j it0 [Hj | [-> [= <-]]]%lookup_app_Some_2 Hj0.
    + eapply List.Forall_impl; [|exact (H9 i j it0 Hj Hj0)]. intros r (m & Hm & Ho). exists m. split; [done|]. now apply (prefix_lookup_Some _ _ _ _ Ho).
    + destruct (visiting_item _ _ _ _ H Hkl) as (it0' & it & x & E0 & Eit & _). assert (it0' = it0) as -> by congruence.
      pose proof (H7 k it0 it ltac:(exists bocVisitLinked; split; [done|lia]) Hj0 Eit) as Hf. clear - Hf. induction Hf as [|r r' rs rs' (i & -> & Hi) _ IH]; constructor; [|done].
      exists i. split; [now apply lookup_lt_Some in Hi|]. rewrite lookup_app_l; [done|]. now apply lookup_lt_Some in Hi.
Qed.

(** [revisit] with force 2. *)
Lemma revisit_number hole fuel v ord k :
  visiting hole v ord -> is_done v k -> ~ hole k ->
  exists (i : nat) (v' : visit) (ord' : list nat), revisit (S fuel) (Z.of_nat k) 2 v = (Ok (Z.of_nat i), v') /\ visiting hole v' ord' /\ ord' !! i = Some k /\
    advances (S k) v v' ord ord' /\ vi_list v' = vi_list v /\ (forall j, j <> k -> vi_new v' !! j = vi_new v !! j).
Proof using Hsmall.
  intros H (x & Hx & Hle) Hh. assert (Hkl : (k < length l0)%nat) by (rewrite <-(vs_len _ _ _ H); eapply lookup_lt_Some; eauto).
  destruct (visiting_item _ _ _ _ H Hkl) as (it0 & it & x' & E0 & Eit & Ex & _ & Hit & Hix). assert (x' = x) as -> by congruence.
  cbn [revisit]. mrun. rewrite Hit. mrun. rewrite Hix. mrun. destruct (Z.ltb_spec x bocVisitLinked) as [Hlt | Hge].
  { destruct (status_numbered _ _ _ _ _ H Hx Hlt) as [Ho H0]. exists (Z.to_nat x), v, ord. rewrite Z2Nat.id by done. now split_and!. }
  assert (x = bocVisitLinked) as -> by lia. cbn [Z.eqb Z.ltb Z.compare Pos.compare Pos.compare_cont]. mrun. rewrite Nat2Z.id. pose proof (visiting_number _ _ _ _ H Hx Hh) as H'.
  exists (length ord). do 2 eexists. split; [|split_and!; [exact H'|..]].
  - now rewrite (vs_next _ _ _ H).
  - rewrite lookup_app_r, Nat.sub_diag by lia. done.
  - split; [now apply prefix_app_r| |].
    + intros j (y & Hy & Hyle). unfold is_done. cbn [vi_new]. destruct (decide (j = k)) as [-> | Hne]; [|rewrite list_lookup_insert_ne by done; eauto].
      rewrite list_lookup_insert_eq by (eapply lookup_lt_Some; eauto). eexists. split; [reflexivity|]. rewrite (vs_next _ _ _ H). pose proof (ord_bound _ _ _ H). destruct linked_value as (E1 & _). lia.
    + intros j Hj. cbn [vi_new vi_list]. rewrite list_lookup_insert_ne by lia. done.
  - done.
  - intros j Hne. cbn [vi_new]. now rewrite list_lookup_insert_ne.
Qed.

(** ** Linking one position *)

(** The references of the position being linked are replaced one by one. *)
Lemma visiting_links v ord k f :
  visiting (eq k) v ord -> ~ is_done v k -> (forall it, with_links [] (f it) = with_links [] it) ->
  visiting (eq k) (mkVisit (alter f k (vi_list v)) (vi_new v) (vi_next v)) ord.
Proof using.
  intros [H1 H2 H3 H4 H5 H6 H7 H8 H9] Hk Hf. split; cbn [vi_list vi_new vi_next]; try done.
  - now rewrite fmap_alter_same.
  - intros j it0 it Hj Hj0 Hjt. assert (j <> k) by (intros ->; done). rewrite list_lookup_alter_ne in Hjt by done. eauto.
  - intros j it0 it Hj Hh Hj0 Hjt. rewrite list_lookup_alter_ne in Hjt by done. eauto.
Qed.

(** All of them replaced, the position is linked. *)
Lemma visiting_linked v ord k x it0 it :
  visiting (eq k) v ord -> vi_new v !! k = Some x -> bocVisitLinked < x -> l0 !! k = Some it0 -> vi_list v !! k = Some it -> Forall2 (numbered ord) (si_refs it0) (si_refs it) ->
  settled (mkVisit (vi_list v) (<[k := bocVisitLinked]> (vi_new v)) (vi_next v)) ord.
Proof using Hsmall.
  intros H Hx Hlt Hk0 Hkt Hnum. pose proof (status_open _ _ _ _ _ H Hx ltac:(lia)) as Hk. pose proof (lookup_lt_Some _ _ _ Hx) as Hkl.
  assert (Hd : forall j, j <> k -> is_done (mkVisit (vi_list v) (<[k := bocVisitLinked]> (vi_new v)) (vi_next v)) j <-> is_done v j) by (intros j Hj; unfold is_done; cbn [vi_new]; now rewrite list_lookup_insert_ne).
  destruct H as [H1 H2 H3 H4 H5 H6 H7 H8 H9]. split; cbn [vi_list vi_new vi_next]; try done.
  - now rewrite length_insert.
  - intros i j Hj. rewrite list_lookup_insert_ne; [eauto|]. intros ->. apply Hk. now apply list_elem_of_lookup_2 in Hj.
  - intros j y Hj Hn. destruct (decide (j = k)) as [-> | Hne]; [|rewrite list_lookup_insert_ne in Hj by done; eauto]. rewrite list_lookup_insert_eq in Hj by done. injection Hj as <-. auto.
  - intros j jt0 jt Hj Hj0 Hjt. destruct (decide (j = k)) as [-> | Hne]; [congruence|]. apply (H7 j); [now apply Hd|done..].
  - intros j jt0 jt Hj _ Hj0 Hjt. destruct (decide (j = k)) as [-> | Hne]; [|apply (H8 j); [now rewrite <-Hd|congruence|done..]].
    exfalso. apply Hj. exists bocVisitLinked. cbn [vi_new]. rewrite list_lookup_insert_eq by done. split; [done|lia].
Qed.

Lemma visiting_hole (hole : nat -> Prop) v ord : settled v ord -> visiting hole v ord.
Proof using. intros [H1 H2 H3 H4 H5 H6 H7 H8 H9]. split; try done. intros k it0 it Hd _. apply H8; tauto. Qed.

Lemma ref_of_ok v k it j r : vi_list v !! k = Some it -> si_refs it !! j = Some r -> ref_of v (Z.of_nat k) j = Ok r.
Proof using.
  intros Hk Hr. unfold ref_of, item_of. destruct (Z.ltb_spec (Z.of_nat k) 0); [lia|]. rewrite Nat2Z.id, Hk. cbn. now rewrite Hr.
Qed.

Lemma insert_at_end {A} (l new : list A) j x y : l !! j = Some x -> <[j := y]> (take (S j) l ++ new) = take j l ++ y :: new.
Proof using.
  intros Hx. pose proof (lookup_lt_Some _ _ _ Hx) as Hj. rewrite (take_S_r _ _ _ Hx), <-app_assoc. rewrite insert_app_r_alt by (rewrite length_take; lia).
  rewrite length_take, Nat.min_l, Nat.sub_diag by lia. done.
Qed.

Definition renumber (fuel : nat) (pos : Z) (j : nat) : M visit unit :=
  s ← get_state;
  r ← lift (ref_of s pos j);
  idx ← revisit fuel r 2;
  modify (fun s => mkVisit (alter (fun it => with_links (<[j := idx]> (si_refs it)) it) (Z.to_nat pos) (vi_list s)) (vi_new s) (vi_next s)).

(** The state while references from [j] on have their new numbers. *)
Record relinking (k : nat) (it0 : bocSerializeItem) (v0 : visit) (ord0 : list nat) (j : nat) (v : visit) (ord : list nat) : Prop := {
  rl_visiting : visiting (eq k) v ord;
  rl_advances : advances (S k) v0 v ord0 ord;
  rl_mark : vi_new v !! k = vi_new v0 !! k;
  rl_refs : exists it new, vi_list v !! k = Some it /\ si_refs it = take j (si_refs it0) ++ new /\ Forall2 (numbered ord) (drop j (si_refs it0)) new
}.

Lemma renumber_ok fuel k it0 v0 ord0 j v ord :
  l0 !! k = Some it0 -> ~ is_done v k -> (j < length (si_refs it0))%nat -> (forall r, r ∈ si_refs it0 -> is_done v (Z.to_nat r)) ->
  relinking k it0 v0 ord0 (S j) v ord ->
  exists v' ord', renumber (S fuel) (Z.of_nat k) j v = (Ok tt, v') /\ relinking k it0 v0 ord0 j v' ord' /\ (forall i, is_done v i -> is_done v' i) /\ ~ is_done v' k.
Proof using Hsmall Hback.
  intros H0 Hk Hj Hdone [R1 R2 R3 (it & new & Hit & Hrefs & Hnum)]. destruct (lookup_lt_is_Some_2 _ _ Hj) as [r Hr].
  pose proof (Hback k it0 H0) as Hb. rewrite Forall_lookup in Hb. specialize (Hb _ _ Hr).
  assert (Hrj : si_refs it !! j = Some r) by (rewrite Hrefs, lookup_app_l by (rewrite length_take; lia); now rewrite lookup_take_lt by lia).
  unfold renumber. mrun. rewrite (ref_of_ok _ _ _ _ _ Hit Hrj). mrun.
  destruct (revisit_number (eq k) fuel v ord (Z.to_nat r) R1 (Hdone r ltac:(now apply list_elem_of_lookup_2 in Hr)) ltac:(lia)) as (i & v1 & ord1 & E & V1 & Ho & [A1 A2 A3] & El & En).
  rewrite Z2Nat.id in E by lia. rewrite (bind_Ok _ _ _ _ _ E). rewrite Nat2Z.id. do 2 eexists. split; [reflexivity|].
  assert (Hk1 : ~ is_done v1 k) by (unfold is_done; rewrite En by lia; exact Hk).
  assert (Hd' : forall l, forall i, is_done v i -> is_done (mkVisit l (vi_new v1) (vi_next v1)) i) by (intros l a Ha; exact (A2 a Ha)).
  split; [split|split; [apply Hd'|exact Hk1]].
  - apply visiting_links; [exact V1|done..].
  - destruct R2 as [B1 B2 B3]. split; [now transitivity ord|intros a Ha; apply Hd', B2, Ha|]. intros a Ha. cbn [vi_new vi_list]. rewrite list_lookup_alter_ne by lia. rewrite En by lia. rewrite El. now apply B3.
  - cbn [vi_new]. rewrite En by lia. exact R3.
  - exists (with_links (<[j := Z.of_nat i]> (si_refs it)) it), (Z.of_nat i :: new). cbn [vi_list]. rewrite list_lookup_alter_eq, El, Hit. split; [done|]. cbn [with_links si_refs]. rewrite Hrefs. split; [now apply (insert_at_end _ _ _ r)|].
    rewrite (drop_S _ _ _ Hr). constructor; [exists i; split; [done|]; now rewrite Ho|]. eapply Forall2_impl; [exact Hnum|]. intros a b. now apply numbered_mono.
Qed.

Lemma link_position fuel k it0 it v ord x :
  l0 !! k = Some it0 -> settled v ord -> vi_list v !! k = Some it -> vi_new v !! k = Some x -> bocVisitLinked < x ->
  (forall r, r ∈ si_refs it0 -> is_done v (Z.to_nat r)) ->
  exists v' ord', (each_ref (renumber (S fuel) (Z.of_nat k)) (length (si_refs it0)) ;; set_new (Z.of_nat k) bocVisitLinked ;; mret bocVisitLinked) v = (Ok bocVisitLinked, v') /\
    settled v' ord' /\ advances (S k) v v' ord ord' /\ is_done v' k.
Proof using Hsmall Hback.
  intros H0 Hv Hit Hx Hlt Hdone. assert (Hopen : ~ is_done v k) by (intros (y & Hy & Hle); rewrite Hx in Hy; injection Hy as <-; lia).
  destruct (each_ref_ok (fun j v' => exists ord', relinking k it0 v ord j v' ord' /\ (forall r, r ∈ si_refs it0 -> is_done v' (Z.to_nat r)) /\ ~ is_done v' k)
    (renumber (S fuel) (Z.of_nat k)) (length (si_refs it0)) v) as (v1 & E & ord1 & R & _ & Ho).
  - exists ord. split_and!; try done. split; [now apply visiting_hole|apply advances_refl|done|]. exists it, []. rewrite app_nil_r, firstn_all, drop_all. split_and!; [done| |constructor].
    exact (vs_open _ _ _ Hv k it0 it Hopen (fun f => f) H0 Hit).
  - intros j v1 Hj (ord1 & R & Hd & Ho). destruct (renumber_ok fuel k it0 v ord j v1 ord1 H0 Ho Hj Hd R) as (v2 & ord2 & E & R2 & Hm & Ho2). exists v2. split; [done|]. exists ord2. split_and!; auto.
  - rewrite (bind_Ok _ _ _ _ _ E). unfold set_new. mrun. rewrite Nat2Z.id. destruct R as [R1 [A1 A2 A3] R3 (it' & new & Hit' & Hrefs & Hnum)]. rewrite take_0 in Hrefs. cbn [app] in Hrefs. rewrite drop_0, <-Hrefs in Hnum. rewrite Hx in R3.
    do 2 eexists. split; [reflexivity|]. pose proof (lookup_lt_Some _ _ _ R3) as Hkl. split; [exact (visiting_linked _ _ _ _ _ _ R1 R3 Hlt H0 Hit' Hnum)|].
    assert (Hdk : is_done (mkVisit (vi_list v1) (<[k := bocVisitLinked]> (vi_new v1)) (vi_next v1)) k) by (exists bocVisitLinked; cbn [vi_new]; rewrite list_lookup_insert_eq by done; split; [done|lia]).
    split; [|exact Hdk]. split; [done| |].
    + intros j Hj. destruct (decide (j = k)) as [-> | Hne]; [done|]. unfold is_done. cbn [vi_new]. rewrite list_lookup_insert_ne by done. now apply A2.
    + intros j Hj. cbn [vi_new vi_list]. rewrite list_lookup_insert_ne by lia. now apply A3.
Qed.

(** ** The walk *)

Definition revisits (fuel k : nat) (force : Z) : Prop :=
  forall v ord, settled v ord ->
  exists r v' ord', revisit fuel (Z.of_nat k) force v = (Ok r, v') /\ settled v' ord' /\ advances (S k) v v' ord ord' /\
    (force = 1 -> is_done v' k) /\ (force = 0 -> is_done v' k -> is_done v k).

Definition visit_child (fuel : nat) (pos : Z) (force : bocSerializeItem -> Z) (j : nat) : M visit unit :=
  s ← get_state;
  r ← lift (ref_of s pos j);
  child ← lift (item_of (vi_list s) r);
  revisit fuel r (force child) ;;
  mret tt.

(** Both loops over the children of [k] that come before its links. *)
Lemma children_ok fuel k it0 it v ord body (force : bocSerializeItem -> Z) :
  l0 !! k = Some it0 -> settled v ord -> vi_list v !! k = Some it -> si_refs it = si_refs it0 ->
  (forall r c, r ∈ si_refs it0 -> revisits fuel (Z.to_nat r) (force c)) ->
  (forall j s, (j < length (si_refs it0))%nat -> vi_list s !! k = Some it -> length (vi_list s) = length l0 -> body j s = visit_child fuel (Z.of_nat k) force j s) ->
  exists v' ord', each_ref body (length (si_refs it0)) v = (Ok tt, v') /\ settled v' ord' /\ advances k v v' ord ord' /\
    ((forall c, force c = 1) -> forall r, r ∈ si_refs it0 -> is_done v' (Z.to_nat r)).
Proof using Hback.
  intros H0 Hv Hit Hrefs Hrec Hbody.
  destruct (each_ref_ok (fun j v' => exists ord', settled v' ord' /\ advances k v v' ord ord' /\
      ((forall c, force c = 1) -> forall r i, (j <= i)%nat -> si_refs it0 !! i = Some r -> is_done v' (Z.to_nat r))) body (length (si_refs it0)) v) as (v' & E & ord' & H & A & D).
  - exists ord. split_and!; [done|apply advances_refl|]. intros _ r i Hi Hr. apply lookup_lt_Some in Hr. lia.
  - intros j v1 Hj (ord1 & H1 & A1 & D1). destruct (lookup_lt_is_Some_2 _ _ Hj) as [r Hr]. pose proof (Hback k it0 H0) as Hb. rewrite Forall_lookup in Hb. specialize (Hb _ _ Hr).
    pose proof (lookup_lt_Some _ _ _ H0) as Hkl. assert (Hit1 : vi_list v1 !! k = Some it) by (rewrite (proj2 (ad_frame _ _ _ _ _ A1 k ltac:(lia))); done).
    assert (Hlen : length (vi_list v1) = length l0) by (pose proof (f_equal length (vs_core _ _ _ H1)) as E; now rewrite !length_fmap in E).
    rewrite (Hbody j v1 Hj Hit1 Hlen). unfold visit_child. mrun. rewrite (ref_of_ok v1 k it j r Hit1) by now rewrite Hrefs. mrun.
    destruct (visiting_item _ _ _ (Z.to_nat r) H1 ltac:(lia)) as (c0 & c & x & _ & _ & _ & _ & Ec & _). rewrite Z2Nat.id in Ec by lia. rewrite Ec. mrun.
    destruct (Hrec r c ltac:(now apply list_elem_of_lookup_2 in Hr) v1 ord1 H1) as (y & v2 & ord2 & E2 & H2 & A2 & D2 & _). rewrite Z2Nat.id in E2 by lia. rewrite (bind_Ok _ _ _ _ _ E2).
    exists v2. split; [done|]. exists ord2. split_and!; [done| |].
    + eapply advances_trans; [exact A1|]. eapply advances_up; [|exact A2]. lia.
    + intros Hf r' i Hi Hr'. destruct (decide (i = j)) as [-> | Hne]; [assert (r' = r) as -> by congruence; auto|]. apply (ad_done _ _ _ _ _ A2), (D1 Hf r' i); [lia|done].
  - exists v', ord'. split_and!; try done. intros Hf r [i Hi]%list_elem_of_lookup_1. apply (D Hf r i); [lia|done].
Qed.

Lemma open_mark v ord k x : settled v ord -> vi_new v !! k = Some x -> bocVisitLinked < x -> ~ is_done v k.
Proof using. intros _ Hx Hlt (y & Hy & Hle). rewrite Hx in Hy. injection Hy as <-. lia. Qed.

(** [revisit] with force 0. *)
Lemma revisit_scan fuel k :
  (k < length l0)%nat -> (forall r f, (r < k)%nat -> f = 0 \/ f = 1 -> revisits fuel r f) -> revisits (S fuel) k 0.
Proof using Hsmall Hback.
  intros Hk Hrec v ord Hv. destruct (visiting_item _ _ _ _ Hv Hk) as (it0 & it & x & H0 & Hit & Hx & Hw & Ei & Ex). destruct linked_value as (V1 & V2 & V3).
  cbn [revisit]. mrun. rewrite Ei. mrun. rewrite Ex. mrun. destruct (Z.ltb_spec x bocVisitLinked) as [Hlt | Hge]; [exists x, v, ord; split_and!; done|]. cbn [Z.eqb].
  destruct (Z.eqb_spec x bocInvalidCellIndex) as [Einv | Hne]; cbn [negb]; [|exists x, v, ord; split_and!; done].
  pose proof (vs_open _ _ _ Hv k it0 it (open_mark _ _ _ _ Hv Hx ltac:(lia)) (fun f => f) H0 Hit) as Hrefs. rewrite Hrefs.
  match goal with |- context [each_ref ?f _] => destruct (children_ok fuel k it0 it v ord f (fun c => if isSpecial c then 1 else 0) H0 Hv Hit Hrefs) as (v1 & ord1 & E1 & H1 & A1 & _) end.
  - intros r c Hr. pose proof (Hback k it0 H0) as Hb. rewrite Forall_forall in Hb. specialize (Hb r Hr). apply Hrec; [lia|]. destruct (isSpecial c); auto.
  - intros j s Hj _ _. reflexivity.
  - rewrite (bind_Ok _ _ _ _ _ E1). unfold set_new. mrun. rewrite Nat2Z.id. do 3 eexists. split; [reflexivity|]. destruct (ad_frame _ _ _ _ _ A1 k ltac:(lia)) as [Hx1 _]. rewrite Hx in Hx1.
    split_and!; [apply (visiting_scan _ _ _ _ _ H1 Hx1); lia| |done|].
    2: { intros _. rewrite (is_done_mark v1 k bocVisitScanned (vi_list v1) (vi_next v1) x Hx1) by lia. unfold is_done. now rewrite Hx1, Hx. }
    eapply advances_trans; [eapply advances_up; [|exact A1]; lia|]. split; [done| |].
    + intros j. rewrite (is_done_mark v1 k bocVisitScanned (vi_list v1) (vi_next v1) x Hx1) by lia. done.
    + intros j Hj. cbn [vi_new vi_list]. rewrite list_lookup_insert_ne by lia. done.
Qed.

(** [revisit] with force 1. *)
Lemma revisit_link_eq fuel pos v :
  revisit (S fuel) pos 1 v =
  (s ← get_state;
   item ← lift (item_of (vi_list s) pos);
   new ← lift (index (vi_new s) pos);
   if new <? bocVisitLinked then mret new
   else if new =? bocVisitLinked then mret new
   else
     (if isSpecial item then revisit fuel pos 0 ;; mret tt else mret tt) ;;
     each_ref (fun j => s ← get_state; r ← lift (ref_of s pos j); revisit fuel r 1 ;; mret tt) (length (si_refs item)) ;;
     each_ref (renumber fuel pos) (length (si_refs item)) ;;
     set_new pos bocVisitLinked ;;
     mret bocVisitLinked) v.
Proof using. reflexivity. Qed.

Lemma still_open v ord k it0 : settled v ord -> l0 !! k = Some it0 -> ~ is_done v k ->
  exists it x, vi_list v !! k = Some it /\ vi_new v !! k = Some x /\ bocVisitLinked < x /\ si_refs it = si_refs it0.
Proof using.
  intros Hv H0 Hn. destruct (visiting_item _ _ _ k Hv ltac:(eapply lookup_lt_Some; eauto)) as (it0' & it & x & H0' & Hit & Hx & _). assert (it0' = it0) as -> by congruence.
  exists it, x. split_and!; [done..| |exact (vs_open _ _ _ Hv k it0 it Hn (fun f => f) H0 Hit)]. apply Z.nle_gt. intros Hle. apply Hn. now exists x.
Qed.

Lemma scan_special (special : bool) fuel k v ord :
  settled v ord -> ~ is_done v k -> revisits fuel k 0 ->
  exists v' ord', (if special then revisit fuel (Z.of_nat k) 0 ;; mret tt else mret tt) v = (Ok tt, v') /\ settled v' ord' /\ advances (S k) v v' ord ord' /\ ~ is_done v' k.
Proof using.
  intros Hv Hn Hs. destruct special; [|exists v, ord; split_and!; done || apply advances_refl].
  destruct (Hs v ord Hv) as (r & v' & ord' & E & H' & A & _ & Hd). exists v', ord'. rewrite (bind_Ok _ _ _ _ _ E). split_and!; auto.
Qed.

Lemma revisit_link fuel k :
  (k < length l0)%nat -> (forall r, (r < k)%nat -> revisits (S fuel) r 1) -> revisits (S fuel) k 0 -> revisits (S (S fuel)) k 1.
Proof using Hsmall Hback.
  intros Hk Hrec Hscan v ord Hv. destruct (visiting_item _ _ _ _ Hv Hk) as (it0 & it & x & H0 & Hit & Hx & _ & Ei & Ex).
  rewrite revisit_link_eq. mrun. rewrite Ei. mrun. rewrite Ex. mrun.
  assert (Hret : x <= bocVisitLinked -> exists r v' ord', (mret x : M visit Z) v = (Ok r, v') /\ settled v' ord' /\ advances (S k) v v' ord ord' /\ (1 = 1 -> is_done v' k) /\ (1 = 0 -> is_done v' k -> is_done v k)).
  { intros Hle. exists x, v, ord. split_and!; try done. intros _. now exists x. }
  destruct (Z.ltb_spec x bocVisitLinked) as [Hlt | Hge]; [apply Hret; lia|]. destruct (Z.eqb_spec x bocVisitLinked) as [-> | Hne]; [apply Hret; lia|]. clear Hret.
  pose proof (open_mark _ _ _ _ Hv Hx ltac:(lia)) as Hopen. rewrite (vs_open _ _ _ Hv k it0 it Hopen (fun f => f) H0 Hit).
  destruct (scan_special (isSpecial it) _ _ v ord Hv Hopen Hscan) as (v1 & ord1 & E1 & V1 & A1 & Ho1). rewrite (bind_Ok _ _ _ _ _ E1). destruct (still_open _ _ _ _ V1 H0 Ho1) as (it1 & x1 & Hit1 & Hx1 & Hlt1 & Hr1).
  match goal with |- context [each_ref ?f _ ;; _] => destruct (children_ok (S fuel) k it0 it1 v1 ord1 f (fun _ => 1) H0 V1 Hit1 Hr1) as (v2 & ord2 & E2 & V2 & A2 & D2) end.
  - intros r _ Hr. pose proof (Hback k it0 H0) as Hb. rewrite Forall_forall in Hb. specialize (Hb r Hr). apply Hrec. lia.
  - intros j s Hj Hs Hls. unfold visit_child. mrun. destruct (lookup_lt_is_Some_2 _ _ Hj) as [r Hr]. rewrite (ref_of_ok s k it1 j r Hs) by now rewrite Hr1. mrun.
    pose proof (Hback k it0 H0) as Hb. rewrite Forall_lookup in Hb. specialize (Hb _ _ Hr). destruct (item_of_ok (vi_list s) r) as (c & -> & _); [unfold len; rewrite Hls; lia|]. now mrun.
  - rewrite (bind_Ok _ _ _ _ _ E2). destruct (ad_frame _ _ _ _ _ A2 k ltac:(lia)) as [Hx2 Hit2]. rewrite Hx1 in Hx2. rewrite Hit1 in Hit2.
    destruct (link_position fuel k it0 it1 v2 ord2 x1 H0 V2 Hit2 Hx2 Hlt1 (D2 (fun _ => eq_refl))) as (v3 & ord3 & E3 & V3 & A3 & D3).
    exists bocVisitLinked, v3, ord3. split_and!; try done. eapply advances_trans; [exact A1|]. eapply advances_trans; [|exact A3]. eapply advances_up; [|exact A2]. lia.
Qed.

Lemma revisit_ok fuel k : (k < length l0)%nat -> ((2 * k + 1 <= fuel)%nat -> revisits fuel k 0) /\ ((2 * k + 2 <= fuel)%nat -> revisits fuel k 1).
Proof using Hsmall Hback.
  revert k. induction fuel as [|fuel IH]; intros k Hk; [split; lia|]. split; intros Hf.
  - apply revisit_scan; [done|]. intros r f Hr [-> | ->]; apply IH; lia.
  - destruct fuel as [|fuel]; [lia|]. apply revisit_link; [done| |apply IH; lia]. intros r Hr. apply IH; lia.
Qed.

(** ** From the roots *)

Lemma link_roots_ok fuel roots v ord :
  (2 * length l0 + 2 <= fuel)%nat -> in_range l0 roots -> settled v ord ->
  exists v' ord', link_roots fuel roots v = (Ok tt, v') /\ settled v' ord' /\ (forall k, is_done v k -> is_done v' k) /\ Forall (fun r => is_done v' (Z.to_nat r)) roots.
Proof using Hsmall Hback.
  intros Hf H. revert v ord. induction H as [|r roots Hr _ IH]; intros v ord Hv; [exists v, ord; split_and!; auto|]. unfold len in Hr.
  destruct (revisit_ok fuel (Z.to_nat r) ltac:(lia)) as [R0 R1]. destruct (R0 ltac:(lia) v ord Hv) as (x1 & v1 & ord1 & E1 & V1 & A1 & _). destruct (R1 ltac:(lia) v1 ord1 V1) as (x2 & v2 & ord2 & E2 & V2 & A2 & D2 & _).
  destruct (IH v2 ord2 V2) as (v3 & ord3 & E3 & V3 & M3 & D3). rewrite Z2Nat.id in E1, E2 by lia. exists v3, ord3. cbn [link_roots]. rewrite (bind_Ok _ _ _ _ _ E1), (bind_Ok _ _ _ _ _ E2). split_and!; [done..| |].
  - intros k Hk. apply M3, (ad_done _ _ _ _ _ A2), (ad_done _ _ _ _ _ A1), Hk.
  - constructor; [now apply M3, D2|done].
Qed.

Lemma number_roots_ok fuel roots v ord :
  in_range l0 roots -> settled v ord -> Forall (fun r => is_done v (Z.to_nat r)) roots ->
  exists ids v' ord', number_roots (S fuel) roots v = (Ok ids, v') /\ settled v' ord' /\ ord `prefix_of` ord' /\ Forall2 (numbered ord') roots ids.
Proof using Hsmall.
  intros H. revert v ord. induction H as [|r roots Hr _ IH]; intros v ord Hv Hd; [exists [], v, ord; split_and!; done || constructor|]. apply Forall_cons in Hd as [Hd Hds].
  destruct (revisit_number _ fuel v ord (Z.to_nat r) Hv Hd (fun f => f)) as (i & v1 & ord1 & E1 & V1 & Ho & A1 & _ & _). rewrite Z2Nat.id in E1 by lia.
  destruct (IH v1 ord1 V1) as (ids & v2 & ord2 & E2 & V2 & P2 & F2); [eapply List.Forall_impl; [|exact Hds]; intros a; apply (ad_done _ _ _ _ _ A1)|].
  exists (Z.of_nat i :: ids), v2, ord2. cbn [number_roots]. rewrite (bind_Ok _ _ _ _ _ E1), (bind_Ok _ _ _ _ _ E2). split_and!; [done..| |].
  - transitivity ord1; [apply A1|done].
  - constructor; [|done]. exists i. split; [done|]. exact (prefix_lookup_Some _ _ _ _ Ho P2).
Qed.

Lemma visiting_start : settled (mkVisit l0 (replicate (length l0) bocInvalidCellIndex) 0) [].
Proof using.
  destruct linked_value as (V1 & V2 & V3). split; cbn [vi_list vi_new vi_next]; try done.
  - apply length_replicate.
  - constructor.
  - intros k x [-> _]%lookup_replicate _. auto.
  - intros k it0 it (x & [-> _]%lookup_replicate & Hle). lia.
  - intros k it0 it _ _ H0 H1. congruence.
Qed.

(** When every position is a root or referred to, all are numbered. *)
Lemma all_numbered roots v ord ids :
  settled v ord -> Forall2 (numbered ord) roots ids -> (forall k, (k < length l0)%nat -> (1 <= uses l0 roots k)%nat) -> ord ≡ₚ seq 0 (length l0).
Proof using Hback.
  intros Hv Hroots Hused. assert (Hall : forall m k, (length l0 - k <= m)%nat -> (k < length l0)%nat -> k ∈ ord).
  { induction m as [|m IH]; intros k Hm Hk; [lia|]. specialize (Hused k Hk). unfold uses, occ in Hused. apply count_occ_In, list_elem_of_In, elem_of_app in Hused as [Hr | Hr].
    - apply list_elem_of_join in Hr as (rs & Hr & (it & -> & Hit)%list_elem_of_fmap). apply list_elem_of_lookup_1 in Hit as [k' Hk'].
      pose proof (Hback k' it Hk') as Hb. rewrite Forall_forall in Hb. specialize (Hb _ Hr). pose proof (lookup_lt_Some _ _ _ Hk') as Hl.
      destruct (list_elem_of_lookup_1 _ _ (IH k' ltac:(lia) Hl)) as [i Hi]. pose proof (vs_desc _ _ _ Hv i k' it Hi Hk') as Hd. rewrite Forall_forall in Hd. destruct (Hd _ Hr) as (j & _ & Hj). rewrite Nat2Z.id in Hj. now apply list_elem_of_lookup_2 in Hj.
    - apply list_elem_of_lookup_1 in Hr as [a Ha]. destruct (Forall2_lookup_l _ _ _ _ _ Hroots Ha) as (b & _ & (i & _ & Hi)). rewrite Nat2Z.id in Hi. now apply list_elem_of_lookup_2 in Hi. }
  apply NoDup_Permutation; [apply Hv|apply NoDup_seq|]. intros k. rewrite elem_of_seq. split; [|intros [_ Hk]; apply (Hall (length l0 - k)%nat); lia].
  intros [i Hi]%list_elem_of_lookup_1. pose proof (vs_new _ _ _ Hv _ _ Hi) as Hn. apply lookup_lt_Some in Hn. rewrite (vs_len _ _ _ Hv) in Hn. lia.
Qed.

End visiting.

(** ** Moving the cells to their numbers *)

Lemma swap_lookup {A} (l : list A) i j k : (i < length l)%nat -> (j < length l)%nat ->
  swap i j l !! k = l !! (if decide (k = i) then j else if decide (k = j) then i else k).
Proof.
  intros Hi Hj. unfold swap. destruct (lookup_lt_is_Some_2 _ _ Hi) as [x Hx], (lookup_lt_is_Some_2 _ _ Hj) as [y Hy]. rewrite Hx, Hy.
  destruct (decide (k = j)) as [-> | Hkj].
  - rewrite list_lookup_insert_eq by (rewrite length_insert; lia). destruct (decide (j = i)); congruence.
  - rewrite list_lookup_insert_ne by done. destruct (decide (k = i)) as [-> | Hki]; [rewrite list_lookup_insert_eq by done; congruence|now rewrite list_lookup_insert_ne].
Qed.

Lemma length_swap {A} (l : list A) i j : length (swap i j l) = length l.
Proof. unfold swap. destruct (l !! i), (l !! j); [now rewrite !length_insert|done..]. Qed.

Lemma swap_perm {A} (l : list A) i j : (i < length l)%nat -> (j < length l)%nat -> swap i j l ≡ₚ l.
Proof.
  intros Hi Hj. apply Permutation_inj. split; [apply length_swap|]. exists (fun k => if decide (k = i) then j else if decide (k = j) then i else k). split.
  - intros a b. repeat case_decide; congruence.
  - intros k. now apply swap_lookup.
Qed.

Lemma zip_swap {A B} (l : list A) (l' : list B) i j : length l = length l' -> (i < length l)%nat -> (j < length l)%nat -> zip (swap i j l) (swap i j l') = swap i j (zip l l').
Proof.
  intros Hl Hi Hj. apply list_eq. intros k. rewrite swap_lookup by (rewrite length_zip; lia). rewrite !lookup_zip_with, !swap_lookup by lia. done.
Qed.

(** Positions whose cell is elsewhere. *)
Definition loose (ix : list Z) : nat := length (filter (fun p => ix !! p <> Some (Z.of_nat p)) (seq 0 (length ix))).

Lemma filter_fewer {A} (P Q : A -> Prop) `{!forall x, Decision (P x), !forall x, Decision (Q x)} l x :
  (forall y, Q y -> P y) -> x ∈ l -> P x -> ~ Q x -> (length (filter Q l) < length (filter P l))%nat.
Proof.
  intros Hsub Hx Px Qx. assert (Hle : forall l, (length (filter Q l) <= length (filter P l))%nat).
  { intros l0. induction l0 as [|y l0 IH]; [done|]. rewrite !filter_cons. pose proof (Hsub y). repeat case_decide; cbn; tauto || lia. }
  induction Hx as [x l|x y l Hx IH]; rewrite !filter_cons.
  - rewrite decide_False, decide_True by done. cbn. specialize (Hle l). lia.
  - pose proof (Hsub y). specialize (IH Px Qx). repeat case_decide; cbn; tauto || lia.
Qed.

Definition moved {A} (l : list A) (ix : list Z) (l' : list A) (ix' : list Z) : Prop :=
  length l' = length l /\ length ix' = length l /\ zip l' ix' ≡ₚ zip l ix.

Lemma permuted_range (ix : list Z) n p d : ix ≡ₚ Z.of_nat <$> seq 0 n -> ix !! p = Some d -> 0 <= d < Z.of_nat n.
Proof. intros Hp Hd. apply list_elem_of_lookup_2 in Hd. rewrite Hp in Hd. apply list_elem_of_fmap in Hd as (k & -> & Hk%elem_of_seq). lia. Qed.

Lemma permuted_inj (ix : list Z) n p q d : ix ≡ₚ Z.of_nat <$> seq 0 n -> ix !! p = Some d -> ix !! q = Some d -> p = q.
Proof.
  intros Hp. assert (Hn : NoDup ix) by (rewrite Hp; apply NoDup_fmap_2; [intros a b; lia|apply NoDup_seq]). intros H1 H2. exact (NoDup_lookup _ _ _ _ Hn H1 H2).
Qed.

Lemma settle_ok fuel i l ix :
  length ix = length l -> ix ≡ₚ Z.of_nat <$> seq 0 (length l) -> (i < length l)%nat -> (loose ix <= fuel)%nat ->
  exists l' ix', settle fuel i (l, ix) = Ok (l', ix') /\ moved l ix l' ix' /\ ix' !! i = Some (Z.of_nat i) /\
    (forall p, ix !! p = Some (Z.of_nat p) -> ix' !! p = Some (Z.of_nat p)).
Proof.
  revert l ix. induction fuel as [|fuel IH]; intros l ix Hl Hp Hi Hf; destruct (lookup_lt_is_Some_2 ix i ltac:(lia)) as [d Hd]; pose proof (permuted_range _ _ _ _ Hp Hd) as Hr;
    cbn [settle]; rewrite (index_lookup ix (Z.of_nat i) d) by (rewrite ?Nat2Z.id; done || lia); cbn [mbind outcome_bind]; (destruct (Z.eqb_spec d (Z.of_nat i)) as [-> | Hne]; [now exists l, ix|]).
  { exfalso. assert (Hin : i ∈ filter (fun p => ix !! p <> Some (Z.of_nat p)) (seq 0 (length ix))) by (apply list_elem_of_filter; rewrite elem_of_seq, Hd; split; [congruence|lia]).
    unfold loose in Hf. destruct (filter _ _); [now apply not_elem_of_nil in Hin|cbn in Hf; lia]. }
  set (j := Z.to_nat d). assert (Hj : (j < length l)%nat) by lia. destruct (item_of_ok l d ltac:(unfold len; lia)) as (it & -> & _). cbn [mbind outcome_bind].
  destruct (lookup_lt_is_Some_2 ix j ltac:(lia)) as [e He]. rewrite (index_lookup ix d e He) by lia. cbn [mbind outcome_bind].
  assert (Hfix : forall p, ix !! p = Some (Z.of_nat p) -> swap i j ix !! p = Some (Z.of_nat p)).
  { intros p Hpp. rewrite swap_lookup by lia. rewrite decide_False by (intros ->; congruence). rewrite decide_False; [done|]. intros ->. apply Hne. pose proof (permuted_inj _ _ i j d Hp Hd) as E. rewrite E; [unfold j; lia|]. rewrite Hpp. f_equal. unfold j. lia. }
  destruct (IH (swap i j l) (swap i j ix)) as (l' & ix' & E & (M1 & M2 & M3) & Hfi & Hk); rewrite ?length_swap; try done.
  - now rewrite swap_perm by lia.
  - assert (loose (swap i j ix) < loose ix)%nat; [|lia]. unfold loose. rewrite length_swap. apply (filter_fewer _ _ _ j); [intros p H1 H2; apply H1; auto|apply elem_of_seq; lia| |].
    + rewrite He. intros [= ->]. pose proof (permuted_inj _ _ i j d Hp Hd) as E. rewrite He in E. specialize (E ltac:(f_equal; lia)). subst i. lia.
    + intros H. apply H. rewrite swap_lookup by lia. destruct (decide (j = i)); [lia|]. rewrite decide_True by done. rewrite Hd. f_equal. lia.
  - exists l', ix'. rewrite length_swap in M1, M2. split; [done|]. split_and!; try done; [|auto]. split_and!; [done..|]. rewrite M3, zip_swap by lia. apply swap_perm; rewrite length_zip; lia.
Qed.

Lemma loose_bound ix : (loose ix <= length ix)%nat.
Proof. unfold loose. etransitivity; [apply length_filter|]. now rewrite length_seq. Qed.

Lemma zip_fst_snd {A B} (l : list A) (l' : list B) : length l = length l' -> fst <$> zip l l' = l /\ snd <$> zip l l' = l'.
Proof. intros H. split; [apply fst_zip|apply snd_zip]; lia. Qed.

Lemma reorder_ok l ix :
  length ix = length l -> ix ≡ₚ Z.of_nat <$> seq 0 (length l) ->
  exists l', reorderInPlace l ix = Ok l' /\ l' ≡ₚ l /\ (forall k it d, l !! k = Some it -> ix !! k = Some d -> l' !! Z.to_nat d = Some it).
Proof.
  intros Hl Hp. unfold reorderInPlace.
  destruct (loop_seq (fun i st => moved l ix (fst st) (snd st) /\ forall p, (p < i)%nat -> snd st !! p = Some (Z.of_nat p)) (fun st i => settle (length l) i st) (length l) (l, ix)) as ([l' ix'] & E & (M1 & M2 & M3) & Hfix).
  - cbn [fst snd]. split; [done|lia].
  - intros i [l1 ix1] Hi ((M1 & M2 & M3) & Hfix). cbn [fst snd] in *. destruct (zip_fst_snd l1 ix1 ltac:(lia)) as [_ S1]. destruct (zip_fst_snd l ix ltac:(lia)) as [_ S2].
    destruct (settle_ok (length l) i l1 ix1) as (l2 & ix2 & E & (N1 & N2 & N3) & Hfi & Hk); [lia| |lia|pose proof (loose_bound ix1); lia|].
    { rewrite <-S1, M3, S2, M1. done. }
    exists (l2, ix2). split; [done|]. cbn [fst snd]. split; [split_and!; [lia..|now rewrite N3]|]. intros p Hpi. destruct (decide (p = i)) as [-> |]; [done|]. apply Hk, Hfix. lia.
  - rewrite E. cbn [fst snd mbind outcome_bind] in *. exists l'. split; [done|]. destruct (zip_fst_snd l' ix' ltac:(lia)) as [F1 _]. destruct (zip_fst_snd l ix ltac:(lia)) as [F2 _].
    split; [rewrite <-F1, <-F2; now rewrite M3|]. intros k it d Hk Hd. assert (Hin : (it, d) ∈ zip l ix) by (apply (list_elem_of_lookup_2 _ k); rewrite lookup_zip_with, Hk; cbn; now rewrite Hd).
    rewrite <-M3 in Hin. apply list_elem_of_lookup_1 in Hin as [p Hin]. apply lookup_zip_with_Some in Hin as (x & y & [= <- <-] & Hx & Hy).
    pose proof (Hfix p ltac:(apply lookup_lt_Some in Hx; lia)) as Hpp. assert (d = Z.of_nat p) as -> by congruence. now rewrite Nat2Z.id.
Qed.

(** * A bag of cells ready to be written

    [prepare] leaves every cell below the roots once, after the cells it refers to,
    with the counts the layout is computed from. *)

Definition hcnt_ok (it : bocSerializeItem) : Prop := si_hcnt it = LevelMask.getHashesCount (c_mask (si_cell it)).

Record prepared (all : list Cell) (roots : list Cell) (s : bocSerializer) (ids : list Z) : Prop := {
  pr_bag : bag all (sz_list s) ids;
  pr_roots : Forall2 (placed s) ids roots;
  pr_hcnt : Forall hcnt_ok (sz_list s);
  pr_data : sz_dataBytes s = sum_of own_size (sz_list s);
  pr_refs : sz_intRefs s = sum_of ref_count (sz_list s);
  pr_int : sz_intHashes s = sum_of int_hashes (sz_list s);
  pr_top : sz_topHashes s = sum_of top_hashes (sz_list s)
}.

(** ** Weights leave the bag alone *)

Lemma bag_kept all l l' p : kept l l' -> bag all l p -> bag all l' p.
Proof.
  intros Hk [H1 H2 H3 H4 H5 H6]. pose proof (kept_cells _ _ Hk) as Hc. pose proof (kept_refs _ _ Hk) as Hr. pose proof (kept_length _ _ Hk) as Hl.
  assert (Hu : forall k, uses l' p k = uses l p k) by (intros k; unfold uses; now rewrite Hr). split.
  - now rewrite Hc.
  - now rewrite Hc.
  - intros k it Hit. destruct (kept_item _ _ _ _ Hk Hit) as (it0 & H0 & E). assert (E' : si_refs it = si_refs it0 /\ si_cell it = si_cell it0) by (unfold core in E; split; congruence).
    destruct E' as [-> ->]. eapply Forall2_impl; [exact (H3 k it0 H0)|]. intros r c [Hrr Hcc]. split; [done|]. now rewrite Hc.
  - unfold len in *. now rewrite Hl.
  - intros k. rewrite Hl, Hu. auto.
  - intros k it Hit. destruct (kept_item _ _ _ _ Hk Hit) as (it0 & H0 & E). rewrite Hu, <-(H6 k it0 H0). unfold core in E. congruence.
Qed.

Lemma bag_closed all l p : bag all l p -> closed l.
Proof.
  intros H. apply Forall_lookup. intros k it Hk. eapply List.Forall_impl; [|exact (links_in_range _ _ _ _ (bg_links _ _ _ H k it Hk))]. intros r Hr. cbn beta in *. apply lookup_lt_Some in Hk. unfold len. lia.
Qed.

Lemma kept_sum (g : bocSerializeItem -> Z) h l l' : (forall it, g it = h (core it)) -> kept l l' -> sum_of g l' = sum_of g l.
Proof.
  intros Hg Hk. apply sum_of_ext, Forall2_same_length_lookup_2; [now apply kept_length|]. intros i a b Ha Hb. destruct (kept_item _ _ _ _ Hk Ha) as (it0 & H0 & E).
  rewrite !Hg, E. do 2 f_equal. congruence.
Qed.

Lemma kept_hcnt l l' : kept l l' -> Forall unweighed l -> Forall hcnt_ok l'.
Proof.
  intros Hk Hf. apply Forall_lookup. intros k it Hit. destruct (kept_item _ _ _ _ Hk Hit) as (it0 & H0 & E). rewrite Forall_lookup in Hf. pose proof (unw_hcnt _ (Hf _ _ H0)) as Hh.
  unfold hcnt_ok. unfold core in E. assert (si_hcnt it = si_hcnt it0 /\ si_cell it = si_cell it0) as [-> ->] by (split; congruence). done.
Qed.

(** ** The numbering carries the bag over *)

Lemma join_numbered ord l l' : Forall2 (Forall2 (numbered ord)) l l' -> Forall2 (numbered ord) (mjoin l) (mjoin l').
Proof. induction 1; cbn; [constructor|]. now apply Forall2_app. Qed.

Lemma occ_numbered ord i k l l' : NoDup ord -> ord !! i = Some k -> Forall (fun r => 0 <= r) l -> Forall2 (numbered ord) l l' -> occ i l' = occ k l.
Proof.
  intros Hn Hi Hpos H. unfold occ. induction H as [|r r' l l' (j & -> & Hj) _ IH]; [done|]. apply Forall_cons in Hpos as [Hr Hpos]. cbn. rewrite (IH Hpos).
  destruct (Z.eq_dec (Z.of_nat j) (Z.of_nat i)) as [E | E], (Z.eq_dec r (Z.of_nat k)) as [E' | E']; try done; exfalso.
  - assert (j = i) as -> by lia. rewrite Hi in Hj. injection Hj as ->. lia.
  - apply E. subst r. rewrite Nat2Z.id in Hj. now rewrite (NoDup_lookup _ _ _ _ Hn Hi Hj).
Qed.

Lemma join_cons {A} (x : list A) l : mjoin (x :: l) = x ++ mjoin l.
Proof. done. Qed.

Lemma occ_join_perm k l l' : l ≡ₚ l' -> occ k (mjoin l) = occ k (mjoin l').
Proof.
  induction 1 as [|x l l' _ IH|x y l|l1 l2 l3 _ IH1 _ IH2]; [done|rewrite !join_cons, !occ_app; now rewrite IH| |now transitivity (occ k (mjoin l2))].
  rewrite !join_cons, !occ_app. generalize (occ k x) (occ k y) (occ k (mjoin l)). lia.
Qed.

Section reordered.
  Context (all : list Cell) (l0 : list bocSerializeItem) (roots : list Z) (Hbag : bag all l0 roots) (Hsmall : len l0 <= 2 ^ 29).
  Context (v : visit) (ord : list nat) (ids : list Z).
  Context (Hv : settled l0 v ord) (Hids : Forall2 (numbered ord) roots ids) (Hord : ord ≡ₚ seq 0 (length l0)).
  Context (l' : list bocSerializeItem) (Hperm : l' ≡ₚ vi_list v).
  Context (Hmove : forall k it d, vi_list v !! k = Some it -> vi_new v !! k = Some d -> l' !! Z.to_nat d = Some it).

Lemma moved_length : length ord = length l0 /\ length (vi_list v) = length l0 /\ length l' = length l0.
Proof using Hord Hv Hperm.
  pose proof (f_equal length (vs_core _ _ _ _ Hv)) as E. rewrite !length_fmap in E. rewrite Hord, Hperm, length_seq. done.
Qed.

(** The cell numbered [i]. *)
Lemma moved_item i : (i < length l0)%nat -> exists k it0 it, ord !! i = Some k /\ l0 !! k = Some it0 /\ vi_list v !! k = Some it /\ l' !! i = Some it /\
    with_links [] it = with_links [] it0 /\ Forall2 (numbered ord) (si_refs it0) (si_refs it).
Proof using Hord Hv Hperm Hmove Hsmall.
  intros Hi. destruct moved_length as (Ho & Hl & _). destruct (lookup_lt_is_Some_2 ord i ltac:(lia)) as [k Hk]. pose proof (vs_new _ _ _ _ Hv _ _ Hk) as Hn.
  pose proof (lookup_lt_Some _ _ _ Hn) as Hkl. rewrite (vs_len _ _ _ _ Hv) in Hkl. destruct (visiting_item _ _ _ _ _ Hv Hkl) as (it0 & it & x & H0 & Hit & _ & E & _).
  pose proof (Hmove k it _ Hit Hn) as Hm. rewrite Nat2Z.id in Hm. exists k, it0, it. split_and!; try done. apply (vs_done _ _ _ _ Hv k); [|done..].
  exists (Z.of_nat i). split; [done|]. destruct linked_value as (E1 & _). unfold len in Hsmall. lia.
Qed.

Lemma moved_cells : si_cell <$> vi_list v = si_cell <$> l0.
Proof using Hv.
  assert (H : forall l, si_cell <$> l = si_cell <$> (with_links [] <$> l)) by (intros l; rewrite <-list_fmap_compose; now apply list_fmap_ext). rewrite H, (vs_core _ _ _ _ Hv). symmetry. apply H.
Qed.

Lemma moved_refs : Forall2 (Forall2 (numbered ord)) (si_refs <$> l0) (si_refs <$> vi_list v).
Proof using Hord Hv Hperm Hmove Hsmall.
  destruct moved_length as (Ho & Hl & _). apply Forall2_fmap, Forall2_same_length_lookup_2; [lia|]. intros k it0 it H0 Hit.
  assert (Hk : k ∈ ord) by (rewrite Hord; apply elem_of_seq; apply lookup_lt_Some in H0; lia). apply list_elem_of_lookup_1 in Hk as [i Hi].
  destruct (moved_item i) as (k' & it0' & it' & Hk' & H0' & Hit' & _ & _ & Hf); [apply lookup_lt_Some in Hi; lia|]. assert (k' = k) as -> by congruence. congruence.
Qed.

Lemma moved_uses i k : ord !! i = Some k -> uses l' ids i = uses l0 roots k.
Proof using Hord Hv Hperm Hmove Hsmall Hids Hbag.
  intros Hi. unfold uses. rewrite !occ_app. f_equal.
  - rewrite (occ_join_perm i (si_refs <$> l') (si_refs <$> vi_list v)) by now rewrite Hperm. apply (occ_numbered ord); [apply Hv|done| |apply join_numbered, moved_refs].
    eapply List.Forall_impl; [|exact (refs_in_range _ _ _ Hbag)]. intros r Hr. cbn beta in Hr. lia.
  - apply (occ_numbered ord); [apply Hv|done| |done]. eapply List.Forall_impl; [|exact (bg_pending _ _ _ Hbag)]. intros r Hr. cbn beta in Hr. lia.
Qed.

Lemma moved_points i k it0 it :
  ord !! i = Some k -> l0 !! k = Some it0 -> Forall2 (numbered ord) (si_refs it0) (si_refs it) -> Forall2 (points l' i) (si_refs it) (c_refs (si_cell it0)).
Proof using Hord Hv Hperm Hmove Hsmall Hbag.
  intros Hi H0 Hn. pose proof (bg_links _ _ _ Hbag k it0 H0) as Hl. pose proof (vs_desc _ _ _ _ Hv i k it0 Hi H0) as Hd. clear H0.
  revert Hn Hl Hd. generalize (si_refs it0) (si_refs it) (c_refs (si_cell it0)). intros rs rs' cs Hn. revert cs. induction Hn as [|r r' rs rs' (j & -> & Hj) _ IH]; intros cs Hl Hd; inversion Hl as [|? c ? cs' [Hr Hc] Hl']; subst; constructor.
  - apply Forall_cons in Hd as [(j' & Hlt & Hj') _]. assert (j' = j) as -> by (apply (NoDup_lookup ord _ _ (Z.to_nat r)); [apply Hv|done..]). split; [lia|]. rewrite Nat2Z.id.
    destruct moved_length as (Ho & _ & _). destruct (moved_item j) as (k' & jt0 & jt & Hk' & Hj0 & _ & Hj'' & E & _); [apply lookup_lt_Some in Hj; lia|]. assert (k' = Z.to_nat r) as -> by congruence.
    rewrite list_lookup_fmap, Hj''. rewrite list_lookup_fmap, Hj0 in Hc. cbn in *. unfold with_links in E. congruence.
  - apply Forall_cons in Hd as [_ Hd]. auto.
Qed.

Lemma bag_moved : bag all l' ids.
Proof using Hord Hv Hperm Hmove Hsmall Hids Hbag.
  destruct moved_length as (Ho & Hlv & Hl'). assert (Hc : si_cell <$> l' ≡ₚ si_cell <$> l0) by (rewrite Hperm; now rewrite moved_cells). split.
  - rewrite Hc. apply Hbag.
  - rewrite Hc. apply Hbag.
  - intros i it Hit. destruct (moved_item i) as (k & it0 & it' & Hk & H0 & _ & Hit' & E & Hf); [apply lookup_lt_Some in Hit; lia|]. assert (it' = it) as -> by congruence.
    replace (si_cell it) with (si_cell it0) by (unfold with_links in E; congruence). now apply (moved_points i k it0).
  - pose proof Hids as Hi. clear - Hi Ho Hl'. induction Hi as [|r r' rs rs' (j & -> & Hj) _ IH]; [constructor|]. constructor; [|done]. apply lookup_lt_Some in Hj. unfold len. lia.
  - intros i Hi. destruct (moved_item i ltac:(lia)) as (k & it0 & it & Hk & H0 & _). rewrite (moved_uses i k Hk). apply (bg_used _ _ _ Hbag). now apply lookup_lt_Some in H0.
  - intros i it Hit. destruct (moved_item i) as (k & it0 & it' & Hk & H0 & _ & Hit' & E & _); [apply lookup_lt_Some in Hit; lia|]. assert (it' = it) as -> by congruence.
    rewrite (moved_uses i k Hk), <-(bg_cache _ _ _ Hbag k it0 H0). unfold with_links in E. congruence.
Qed.

Lemma moved_roots rs rs' cells :
  Forall2 (numbered ord) rs rs' -> Forall2 (fun r c => 0 <= r /\ (si_cell <$> l0) !! Z.to_nat r = Some c) rs cells ->
  Forall2 (fun r c => 0 <= r /\ (si_cell <$> l') !! Z.to_nat r = Some c) rs' cells.
Proof using Hord Hv Hperm Hmove Hsmall.
  intros Hi. revert cells. induction Hi as [|r r' rs rs' (j & -> & Hj) _ IH]; intros cells Hl; inversion Hl as [|? c ? cs' [Hr Hc] Hl']; subst; [constructor|]. constructor; [|now apply IH].
  split; [lia|]. rewrite Nat2Z.id. destruct moved_length as (Ho & _ & _). destruct (moved_item j) as (k' & jt0 & jt & Hk' & Hj0 & _ & Hj'' & E & _); [apply lookup_lt_Some in Hj; lia|].
  assert (k' = Z.to_nat r) as -> by congruence. rewrite list_lookup_fmap, Hj''. rewrite list_lookup_fmap, Hj0 in Hc. cbn in *. unfold with_links in E. congruence.
Qed.

(** What depends on the rest of the items. *)
Lemma moved_sum (g : bocSerializeItem -> Z) : (forall it, g (with_links [] it) = g it) -> sum_of g l' = sum_of g l0.
Proof using Hv Hperm Hord.
  intros Hg. rewrite (sum_of_perm g _ _ Hperm). destruct moved_length as (_ & Hl & _). apply sum_of_ext, Forall2_same_length_lookup_2; [done|]. intros k a b Ha Hb.
  pose proof (f_equal (fun l => l !! k) (vs_core _ _ _ _ Hv)) as E. cbn in E. rewrite !list_lookup_fmap, Ha, Hb in E. cbn in E. rewrite <-(Hg a), <-(Hg b). congruence.
Qed.

Lemma moved_ref_count : sum_of ref_count l' = sum_of ref_count l0.
Proof using Hord Hv Hperm Hmove Hsmall.
  rewrite (sum_of_perm _ _ _ Hperm). apply sum_of_ext. pose proof moved_refs as H. rewrite Forall2_fmap in H. apply Forall2_flip. eapply Forall2_impl; [exact H|].
  intros it it' Hn%Forall2_length. unfold ref_count, len. lia.
Qed.

Lemma moved_hcnt : Forall hcnt_ok l0 -> Forall hcnt_ok l'.
Proof using Hord Hv Hperm Hmove Hsmall.
  intros H. destruct moved_length as (_ & _ & Hl). apply Forall_lookup. intros i it Hit. destruct (moved_item i) as (k & it0 & it' & _ & H0 & _ & Hit' & E & _); [apply lookup_lt_Some in Hit; lia|].
  assert (it' = it) as -> by congruence. rewrite Forall_lookup in H. specialize (H _ _ H0). unfold hcnt_ok in *. unfold with_links in E. assert (si_hcnt it = si_hcnt it0 /\ si_cell it = si_cell it0) as [-> ->] by (split; congruence). done.
Qed.

End reordered.

(** ** All together *)

Lemma unweighed_sums l : Forall unweighed l -> Forall wt_ok l /\ forall l', kept l l' -> si_root <$> l' = si_root <$> l -> sum_of top_hashes l' = 0.
Proof.
  intros H. split; [eapply List.Forall_impl; [|exact H]; intros it Hit; pose proof (unw_wt _ Hit); unfold wt_ok; lia|]. intros l' Hk Hr.
  assert (Hz : Forall (fun it => 0 <= top_hashes it <= 0) l').
  { apply Forall_lookup. intros k it Hit. assert (E : (si_root <$> l) !! k = Some (si_root it)) by (rewrite <-Hr, list_lookup_fmap, Hit; done). rewrite list_lookup_fmap in E.
    destruct (l !! k) as [it0 |] eqn:H0; [|done]. rewrite Forall_lookup in H. pose proof (unw_root _ (H _ _ H0)) as Hf. cbn in E. unfold top_hashes. replace (si_root it) with false by congruence. cbn. lia. }
  pose proof (sum_of_bound top_hashes l' 0 0 Hz). lia.
Qed.

(** The three loops on weights. *)
Lemma weigh_ok all l roots :
  bag all l roots -> Forall unweighed l ->
  exists l1 l2 h l3 t, loop limit_weights (rev (seq 0 (length l))) l = Ok l1 /\ loop settle_weight (seq 0 (length l)) (l1, 0) = Ok (l2, h) /\
    loop mark_root roots (l2, 0) = Ok (l3, t) /\ kept l l3 /\ h = sum_of int_hashes l3 /\ t = sum_of top_hashes l3.
Proof.
  intros Hb Hf. destruct (unweighed_sums l Hf) as [Hw Htop]. pose proof (bag_closed _ _ _ Hb) as Hc.
  destruct (limit_loop_ok l Hc Hw) as (l1 & E1 & K1 & R1). destruct (settle_loop_ok l l1 Hc K1) as (l2 & h & E2 & K2 & Hh & R2).
  destruct (mark_loop_ok l l2 roots K2 (bg_pending _ _ _ Hb)) as (l3 & t & E3 & K3 & Ht & Hi); [apply Htop; [done|congruence]|].
  exists l1, l2, h, l3, t. split_and!; try done. congruence.
Qed.

(** Each number is given to one position. *)
Lemma new_permuted l v ord : settled l v ord -> ord ≡ₚ seq 0 (length l) -> vi_new v ≡ₚ Z.of_nat <$> seq 0 (length l).
Proof.
  intros V Hord. assert (Hlo : length ord = length l) by (rewrite Hord; apply length_seq).
  assert (Hat : forall i x, vi_new v !! i = Some x -> exists a, x = Z.of_nat a /\ ord !! a = Some i).
  { intros i x Hi. pose proof (lookup_lt_Some _ _ _ Hi) as Hlt. rewrite (vs_len _ _ _ _ V) in Hlt. assert (Hin : i ∈ ord) by (rewrite Hord; apply elem_of_seq; lia).
    apply list_elem_of_lookup_1 in Hin as [a Ha]. exists a. split; [|done]. pose proof (vs_new _ _ _ _ V _ _ Ha). congruence. }
  apply NoDup_Permutation.
  - apply NoDup_alt. intros i j x (a & -> & Ha)%Hat (b & E & Hb)%Hat. assert (b = a) as -> by lia. congruence.
  - apply NoDup_fmap_2; [intros a b; lia|apply NoDup_seq].
  - intros x. rewrite list_elem_of_fmap. split.
    + intros [i (a & -> & Ha)%Hat]%list_elem_of_lookup_1. exists a. split; [done|]. apply lookup_lt_Some in Ha. apply elem_of_seq. lia.
    + intros (a & -> & Ha%elem_of_seq). destruct (lookup_lt_is_Some_2 ord a ltac:(lia)) as [k Hk]. apply (list_elem_of_lookup_2 _ k). now apply (vs_new _ _ _ _ V).
Qed.

(** The walk and the moves. *)
Lemma renumber_all all l roots :
  bag all l roots -> len l <= 2 ^ 29 ->
  exists ids v ord l', run (link_roots (visit_fuel l) roots ;; number_roots (visit_fuel l) roots) (mkVisit l (replicate (length l) bocInvalidCellIndex) 0) = Ok (ids, v) /\
    reorderInPlace (vi_list v) (vi_new v) = Ok l' /\ settled l v ord /\ Forall2 (numbered ord) roots ids /\ ord ≡ₚ seq 0 (length l) /\ l' ≡ₚ vi_list v /\
    (forall k it d, vi_list v !! k = Some it -> vi_new v !! k = Some d -> l' !! Z.to_nat d = Some it).
Proof.
  intros Hb Hsm. assert (Hback : forall k it, l !! k = Some it -> Forall (fun r => 0 <= r < Z.of_nat k) (si_refs it)) by (intros k it Hk; exact (links_in_range _ _ _ _ (bg_links _ _ _ Hb k it Hk))).
  destruct (link_roots_ok l Hsm Hback (visit_fuel l) roots _ _ ltac:(unfold visit_fuel; lia) (bg_pending _ _ _ Hb) (visiting_start l)) as (v1 & ord1 & E1 & V1 & _ & D1).
  destruct (number_roots_ok l Hsm (S (2 * length l)) roots v1 ord1 (bg_pending _ _ _ Hb) V1 D1) as (ids & v & ord & E2 & V2 & _ & F2).
  pose proof (all_numbered l Hback roots v ord ids V2 F2 (bg_used _ _ _ Hb)) as Hord.
  assert (Hl : length (vi_list v) = length l) by (pose proof (f_equal length (vs_core _ _ _ _ V2)) as E; now rewrite !length_fmap in E).
  destruct (reorder_ok (vi_list v) (vi_new v)) as (l' & E3 & P3 & M3).
  - rewrite (vs_len _ _ _ _ V2). lia.
  - rewrite Hl. exact (new_permuted _ _ _ V2 Hord).
  - exists ids, v, ord, l'. split_and!; try done. apply (run_Ok _ _ _ _). rewrite (bind_Ok _ _ _ _ _ E1). exact E2.
Qed.

Lemma reorderCells_ok all s roots cells :
  bag all (sz_list s) roots -> len (sz_list s) <= 2 ^ 29 -> Forall unweighed (sz_list s) -> sz_list s <> [] -> Forall2 (placed s) roots cells ->
  sz_dataBytes s = sum_of own_size (sz_list s) -> sz_intRefs s = sum_of ref_count (sz_list s) ->
  exists s' ids, reorderCells s roots = Ok (s', ids) /\ prepared all cells s' ids.
Proof.
  intros Hb Hsm Hf Hne Hp Hdata Hrefs. unfold reorderCells. destruct (weigh_ok _ _ _ Hb Hf) as (l1 & l2 & h & l3 & t & -> & E2 & E3 & K & -> & ->). cbn [mbind outcome_bind]. rewrite E2. cbn [mbind outcome_bind]. rewrite E3. cbn [mbind outcome_bind].
  destruct (Nat.eqb_spec (length (sz_list s)) 0) as [E0 | _]; [now apply nil_length_inv in E0|]. pose proof (kept_length _ _ K) as Hl. pose proof (bag_kept _ _ _ _ K Hb) as Hb3. assert (Hsm3 : len l3 <= 2 ^ 29) by (unfold len in *; lia).
  destruct (renumber_all all l3 roots Hb3 Hsm3) as (ids & v & ord & l' & Ev & Er & V & F & O & P & M). rewrite <-Hl, Ev. cbn [mbind outcome_bind]. rewrite Er. cbn [mbind outcome_bind].
  do 2 eexists. split; [reflexivity|]. split; cbn [with_list sz_list sz_dataBytes sz_intRefs sz_intHashes sz_topHashes].
  - exact (bag_moved all l3 roots Hb3 Hsm3 v ord ids V F O l' P M).
  - unfold placed. cbn [with_list sz_list]. apply (moved_roots l3 Hsm3 v ord V O l' P M roots ids cells F). eapply Forall2_impl; [exact Hp|]. intros r c [Hr Hc]. split; [done|]. now rewrite (kept_cells _ _ K).
  - apply (moved_hcnt l3 Hsm3 v ord V O l' P M). exact (kept_hcnt _ _ K Hf).
  - rewrite Hdata. symmetry. rewrite (moved_sum l3 v ord V O l' P) by done. now apply (kept_sum _ (fun c => serializedBOCSize (fst (fst (fst c))) false)).
  - rewrite Hrefs. symmetry. rewrite (moved_ref_count l3 Hsm3 v ord V O l' P M). now apply (kept_sum _ (fun c => len (snd (fst (fst c))))).
  - symmetry. now apply (moved_sum l3 v ord V O l' P).
  - symmetry. now apply (moved_sum l3 v ord V O l' P).
Qed.

Lemma prepare_ok all pool roots hint :
  universe all -> pooled pool -> roots <> [] -> Forall (fun c => sealed (Z.to_nat (maxDepth + 1)) c /\ c ∈ all) roots ->
  exists s ids, prepare pool roots hint = Ok (s, ids) /\ prepared all roots s ids.
Proof.
  intros U Hpool Hne Hroots. unfold prepare.
  destruct (importRoots_ok all U roots _ _ Hroots (imported_start all hint pool Hpool)) as (ids & s & E & Hi & Hp & _). rewrite app_nil_r in Hi.
  rewrite (run_Ok _ _ _ _ E). cbn [mbind outcome_bind]. destruct Hi as [Hbag Hfr _ Hdata Hrefs]. apply (bag_perm _ _ _ ids) in Hbag; [|symmetry; apply Permutation_rev]. clear E.
  rewrite Z.add_0_r in Hrefs. assert (Hl : sz_list s <> []).
  { destruct Hp as [|r c rs cs [_ Hc] _]; [done|]. intros E. rewrite E in Hc. done. }
  destruct (reorderCells_ok all s ids roots Hbag (bag_small all U _ _ Hbag) Hfr Hl Hp Hdata Hrefs) as (s' & ids' & -> & Hpr). cbn [mbind outcome_bind].
  destruct (Z.eqb_spec (cellCount s') 0) as [E |]; [|eauto]. exfalso. apply Hne. pose proof (pr_roots _ _ _ _ Hpr) as H. destruct H as [|r c rs cs [_ Hc] _]; [done|].
  apply lookup_lt_Some in Hc. rewrite length_fmap in Hc. unfold cellCount, len in E. lia.
Qed.
