(* ===== verification/BocWrite.v ===== *)
(** * The bytes of a bag of cells

    [bag_bytes] is the layout of a prepared bag: header, root numbers, index and cells.
    [serialize] computes its exact size beforehand and writes exactly these bytes. *)

From S2P Require Import Prelude Bytes Sha256 CellModel Builder Finalize Slice CellHash Checksums BocIndexSpec BocSerialize BocSpec BocImport BocOrder.
From stdpp Require Import list strings.
#[local] Open Scope Z_scope.

(** ** Integers of a few bytes *)

Lemma storeUintTo_ok v sz : 1 <= sz <= 8 -> storeUintTo v sz = be_bytes (Z.to_nat sz) v.
Proof.
  intros Hsz. assert (sz = 1 \/ sz = 2 \/ sz = 3 \/ sz = 4 \/ sz = 5 \/ sz = 6 \/ sz = 7 \/ sz = 8) as Hc by lia.
  repeat (destruct Hc as [-> | Hc]; [|]); [..|subst sz]; unfold storeUintTo; cbn [Z.eqb Pos.eqb].
  1: { change (Z.to_nat 1) with 1%nat. rewrite be_bytes_S. cbn. now rewrite Z.shiftr_0_r. }
  1: { change (Z.to_nat 2) with 2%nat. rewrite !be_bytes_S. cbn. rewrite !Z.shiftr_0_r, !Z.shiftr_div_pow2 by lia. unfold u16, u8. repeat (apply (f_equal2 cons); [lia|]). done. }
  1: { change (Z.to_nat 3) with 3%nat. rewrite !be_bytes_S. cbn. now rewrite Z.shiftr_0_r. }
  1: { change (Z.to_nat 4) with 4%nat. rewrite !be_bytes_S. cbn. rewrite !Z.shiftr_0_r, !Z.shiftr_div_pow2 by lia. unfold u32, u8. repeat (apply (f_equal2 cons); [lia|]). done. }
  all: match goal with |- context [Z.to_nat ?p] => let n := eval vm_compute in (Z.to_nat p) in change (Z.to_nat p) with n end; cbn [Nat.iter nat_rect fst app rev]; rewrite !be_bytes_S, !Z.shiftr_shiftr by lia; cbn; now rewrite Z.shiftr_0_r.
Qed.

(** The number of bytes a value takes. *)
Lemma byte_size_ok fuel v n : 0 <= v -> 1 <= n -> n + Z.of_nat fuel <= 8 -> 2 ^ (8 * (n - 1)) <= v < 2 ^ (8 * (n + Z.of_nat fuel)) ->
  n <= byte_size fuel v n <= n + Z.of_nat fuel /\ 2 ^ (8 * (byte_size fuel v n - 1)) <= v < 2 ^ (8 * byte_size fuel v n).
Proof.
  revert n. induction fuel as [|fuel IH]; intros n Hv Hn Hf Hb; cbn [byte_size]; [rewrite Z.add_0_r in *; lia|].
  assert (E : u64 (1 ≪ (8 * n)) = 2 ^ (8 * n)) by (rewrite Z.shiftl_1_l; unfold u64; apply Z.mod_small; split; [lia|apply Z.pow_lt_mono_r; lia]). rewrite E.
  destruct (Z.leb_spec (2 ^ (8 * n)) v); [|lia]. specialize (IH (n + 1) Hv ltac:(lia) ltac:(lia)). replace (n + 1 - 1) with n in IH by lia. replace (n + Z.of_nat (S fuel)) with (n + 1 + Z.of_nat fuel) in * by lia.
  specialize (IH ltac:(lia)). lia.
Qed.

Lemma byte_size_range v k : 0 < v < 2 ^ (8 * k) -> 1 <= k <= 7 -> 1 <= byte_size 9 v 0 <= k /\ v < 2 ^ (8 * byte_size 9 v 0).
Proof.
  intros Hv Hk. change (byte_size 9 v 0) with (if u64 (1 ≪ (8 * 0)) <=? v then byte_size (7 + 1) v 1 else 0). change (u64 (1 ≪ (8 * 0))) with 1. destruct (Z.leb_spec 1 v); [|lia].
  assert (Hsplit : forall f g x n, 0 <= x -> 1 <= n -> n + Z.of_nat f <= 7 -> x < 2 ^ (8 * (n + Z.of_nat f)) -> byte_size (S f + g) x n = byte_size f x n).
  { induction f as [|f IH]; intros g x n Hx Hn Hf Hb; cbn [byte_size Nat.add].
    - rewrite Z.add_0_r in Hb. rewrite Z.shiftl_1_l. unfold u64. rewrite Z.mod_small by (split; [lia|apply Z.pow_lt_mono_r; lia]). destruct (Z.leb_spec (2 ^ (8 * n)) x); [lia|done].
    - destruct (_ <=? x); [|done]. rewrite <-(IH g x (n + 1)); [done|lia..|]. replace (n + 1 + Z.of_nat f) with (n + Z.of_nat (S f)) by lia. done. }
  assert (Hk' : exists f g, k = 1 + Z.of_nat f /\ (7 + 1 = S f + g)%nat) by (exists (Z.to_nat (k - 1)), (8 - Z.to_nat k)%nat; lia). destruct Hk' as (f & g & -> & Eg). rewrite Eg, Hsplit by lia.
  pose proof (byte_size_ok f v 1 ltac:(lia) ltac:(lia) ltac:(lia) ltac:(cbn; lia)). lia.
Qed.

(** ** Layout *)

Definition stored_hashes (c : Cell) : list Z := mjoin (level_hashes c).
Definition stored_depths (c : Cell) : list Z := mjoin (be_bytes 2 <$> level_depths c).

Definition cell_head (c : Cell) (withHashes : bool) : list Z :=
  let dsc := descriptors c (c_mask c) in
  if withHashes then [Z.lor (fst dsc) 16; snd dsc] ++ stored_hashes c ++ stored_depths c else [fst dsc; snd dsc].

Section layout.
  Context (opts : BOCSerializeOptions) (count rs os : Z).

Definition uints (sz : Z) (vs : list Z) : list Z := mjoin (be_bytes (Z.to_nat sz) <$> vs).

(** References count from the other end. *)
Definition file_id (r : Z) : Z := count - 1 - r.

Definition item_size (it : bocSerializeItem) : Z := serializedBOCSize (si_cell it) (shouldSerializeHashes opts it) + len (si_refs it) * rs.

Definition item_bytes (it : bocSerializeItem) : list Z :=
  cell_head (si_cell it) (shouldSerializeHashes opts it) ++ body (cbits_of (si_cell it)) ++ uints rs (file_id <$> si_refs it).

(** Where each cell ends, from the offset where the first starts. *)
Fixpoint ends (offs : Z) (items : list bocSerializeItem) : list Z :=
  match items with
  | [] => []
  | it :: items => (offs + item_size it) :: ends (offs + item_size it) items
  end.

Definition with_cache_bit (end_ : Z) (it : bocSerializeItem) : Z :=
  if WithCacheBits opts then end_ * 2 + (if si_cache it then 1 else 0) else end_.

Definition index_bytes (items : list bocSerializeItem) : list Z :=
  if WithIndex opts then uints os (zip_with with_cache_bit (ends 0 items) items) else [].

Definition head_bytes (rootCount dataSize : Z) : list Z :=
  bocMagic ++ [flags_byte opts rs] ++ [os] ++ be_bytes (Z.to_nat rs) count ++ be_bytes (Z.to_nat rs) rootCount ++ be_bytes (Z.to_nat rs) 0 ++ be_bytes (Z.to_nat os) dataSize.

Definition cells_bytes (items : list bocSerializeItem) : list Z := mjoin (item_bytes <$> items).

Definition bag_bytes (ids : list Z) (items : list bocSerializeItem) : list Z :=
  head_bytes (len ids) (sum_of item_size items) ++ uints rs (file_id <$> ids) ++ index_bytes items ++ cells_bytes items.

(** ** Sizes *)

Lemma len_uints sz vs : 0 <= sz -> len (uints sz vs) = len vs * sz.
Proof.
  intros Hs. unfold uints. induction vs as [|v vs IH]; [done|]. cbn [fmap list_fmap]. change (mjoin (?x :: ?l)) with (x ++ mjoin l). rewrite len_app, IH, len_be_bytes, len_cons. lia.
Qed.

Lemma len_hashes hs : Forall digest_ok hs -> len (mjoin hs) = len hs * 32.
Proof. induction 1 as [|h hs [_ Hh] _ IH]; [done|]. change (mjoin (h :: hs)) with (h ++ mjoin hs). rewrite len_app, IH, len_cons, Hh. lia. Qed.

Lemma len_depths ds : len (mjoin (be_bytes 2 <$> ds)) = len ds * 2.
Proof. exact (len_uints 2 ds ltac:(lia)). Qed.

Lemma len_level_lists c : shape c -> len (level_hashes c) = LevelMask.getHashesCount (c_mask c) /\ len (level_depths c) = LevelMask.getHashesCount (c_mask c).
Proof. intros H. pose proof (len_levels _ (sh_mask _ H)) as Hl. unfold level_hashes, level_depths, len in *. now rewrite !length_fmap. Qed.

Lemma len_head c w : shape c -> len (cell_head c w) = 2 + if w then LevelMask.getHashesCount (c_mask c) * 34 else 0.
Proof.
  intros H. unfold cell_head. destruct w; [|done]. destruct (len_level_lists c H) as [H1 H2]. destruct (level_ok c H) as [H3 _].
  unfold stored_hashes, stored_depths. rewrite !len_app, (len_hashes _ H3), len_depths. change (len [Z.lor (fst (descriptors c (c_mask c))) 16; snd (descriptors c (c_mask c))]) with 2. lia.
Qed.

Lemma len_item it : shape (si_cell it) -> 0 <= rs -> len (item_bytes it) = item_size it.
Proof.
  intros H Hr. destruct (sh_bits _ H) as [H0 _]. unfold item_bytes, item_size, serializedBOCSize, SerializedBOCBodySize. rewrite !len_app, len_head, len_uints, len_body, len_cbits by done.
  replace (len (file_id <$> si_refs it)) with (len (si_refs it)) by (unfold len; now rewrite length_fmap). unfold hashSize, depthSize. destruct (shouldSerializeHashes opts it); lia.
Qed.

Lemma len_cells items : Forall (fun it => shape (si_cell it)) items -> 0 <= rs -> len (cells_bytes items) = sum_of item_size items.
Proof.
  intros H Hr. unfold cells_bytes. induction H as [|it items Hit _ IH]; [done|]. cbn [fmap list_fmap]. change (mjoin (?x :: ?l)) with (x ++ mjoin l). now rewrite len_app, IH, len_item.
Qed.

Lemma len_ends offs items : len (ends offs items) = len items.
Proof. revert offs. induction items as [|it items IH]; intros offs; cbn [ends]; [done|]. now rewrite !len_cons, IH. Qed.

Lemma ends_bound offs items : Forall (fun it => 0 <= item_size it) items -> Forall (fun e => offs <= e <= offs + sum_of item_size items) (ends offs items).
Proof.
  intros H. revert offs. induction H as [|it items Hit Hr IH]; intros offs; cbn [ends]; constructor.
  - unfold sum_of. cbn. assert (0 <= sum_of item_size items); [|unfold sum_of in *; lia]. clear - Hr. unfold sum_of. induction Hr; cbn; lia.
  - eapply List.Forall_impl; [|exact (IH (offs + item_size it))]. intros e He. cbn beta in He. unfold sum_of in *. cbn. lia.
Qed.

End layout.

(** ** Writing *)

(** The operation appends these bytes to a buffer with room for them. *)
Definition writes (total : Z) (m : M (list Z) unit) (bytes : list Z) : Prop :=
  forall out, len out + len bytes <= total -> m out = (Ok tt, out ++ bytes).

Lemma writes_emit total bytes : writes total (to_buffer total bytes) bytes.
Proof. intros out H. unfold to_buffer. mrun. destruct (Z.ltb_spec total (len out + len bytes)); [lia|done]. Qed.

Lemma writes_ret total : writes total (mret tt) [].
Proof. intros out _. now rewrite app_nil_r. Qed.

Lemma writes_bind total m m' b b' : writes total m b -> writes total m' b' -> writes total (m ;; m') (b ++ b').
Proof.
  intros H H' out Hl. rewrite len_app in Hl. pose proof (len_nonneg b'). rewrite (bind_Ok _ _ _ _ _ (H out ltac:(lia))), H' by (rewrite len_app; lia). now rewrite app_assoc.
Qed.

Lemma emit_uints_ok total sz vs : 1 <= sz <= 8 -> Forall (fun v => 0 <= v < 2 ^ (8 * sz)) vs -> writes total (emit_uints (to_buffer total) vs sz) (uints sz vs).
Proof.
  intros Hs H. induction H as [|v vs Hv _ IH]; cbn [emit_uints]; [apply writes_ret|]. unfold uints. cbn [fmap list_fmap]. change (mjoin (?x :: ?l)) with (x ++ mjoin l).
  apply writes_bind; [|exact IH]. rewrite storeUintTo_ok by done. apply writes_emit.
Qed.

Lemma bind_join {A B} (f : A -> list B) l : (l ≫= f) = mjoin (f <$> l).
Proof. induction l as [|a l IH]; [done|]. rewrite bind_cons, IH. done. Qed.

Lemma serializeBOCTo_ok c w : shape c -> serializeBOCTo c w = Ok (cell_head c w ++ body (cbits_of c)).
Proof.
  intros H. unfold serializeBOCTo, cell_head. rewrite (shape_body c H). cbn [mbind outcome_bind]. destruct w; [|done].
  rewrite !bind_join. unfold stored_hashes, stored_depths, level_hashes, level_depths. rewrite <-list_fmap_compose. f_equal. now rewrite <-!app_assoc.
Qed.

Section emission.
  Context (opts : BOCSerializeOptions) (count rs os total : Z) (Hrs : 1 <= rs <= 4) (Hos : 1 <= os <= 7) (Hcount : 0 < count < 2 ^ (8 * rs)).

Lemma file_ids refs : Forall (fun r => 0 <= r < count) refs -> (fun r => u64 (count - 1 - r)) <$> refs = file_id count <$> refs.
Proof using Hrs Hcount.
  intros Hr. apply list_fmap_ext. intros _ r Hin%list_elem_of_lookup_2. rewrite Forall_forall in Hr. specialize (Hr r Hin). unfold file_id, u64. apply Z.mod_small.
  assert (2 ^ (8 * rs) <= 2 ^ 64) by (apply Z.pow_le_mono_r; lia). lia.
Qed.

Lemma emit_cells_ok items :
  Forall (fun it => shape (si_cell it) /\ Forall (fun r => 0 <= r < count) (si_refs it)) items -> writes total (emit_cells (to_buffer total) opts count rs items) (cells_bytes opts count rs items).
Proof using Hrs Hcount.
  intros H. induction H as [|it items [Hit Hr] _ IH]; cbn [emit_cells]; [apply writes_ret|]. unfold cells_bytes. cbn [fmap list_fmap]. change (mjoin (?x :: ?l)) with (x ++ mjoin l).
  rewrite (serializeBOCTo_ok _ _ Hit). unfold item_bytes. rewrite <-app_assoc.
  assert (Hlift : forall (f : list Z -> M (list Z) unit) b bytes, writes total (f b) bytes -> writes total (lift (Ok b) ≫= f) bytes) by (intros f b bytes Hf out Ho; mrun; auto). apply Hlift.
  rewrite (app_assoc (cell_head _ _)), <-!app_assoc, (app_assoc (cell_head _ _)). apply writes_bind; [apply writes_emit|]. apply writes_bind; [|exact IH].
  rewrite (file_ids _ Hr). apply emit_uints_ok; [lia|]. apply Forall_fmap. eapply List.Forall_impl; [|exact Hr]. intros r Hrr. unfold compose, file_id. cbn beta in *. lia.
Qed.

Lemma emit_index_ok items offs :
  Forall (fun it => 0 <= item_size opts rs it) items -> 0 <= offs -> (offs + sum_of (item_size opts rs) items) * 2 + 1 < 2 ^ 56 ->
  Forall (fun v => 0 <= v < 2 ^ (8 * os)) (zip_with (with_cache_bit opts) (ends opts rs offs items) items) ->
  writes total (emit_index (to_buffer total) opts rs os items offs) (uints os (zip_with (with_cache_bit opts) (ends opts rs offs items) items)).
Proof using Hos Hrs.
  intros H. revert offs. induction H as [|it items Hit Hrest IH]; intros offs H0 Hb Hv; cbn [emit_index ends zip_with]; [apply writes_ret|]. cbn [ends zip_with] in Hv. apply Forall_cons in Hv as [Hv Hvs].
  assert (Hsum : 0 <= sum_of (item_size opts rs) items) by (clear - Hrest; unfold sum_of; induction Hrest; cbn; lia).
  assert (Hb' : (offs + item_size opts rs it + sum_of (item_size opts rs) items) * 2 + 1 < 2 ^ 56) by (unfold sum_of in *; cbn in Hb; lia).
  unfold uints. cbn [fmap list_fmap]. change (mjoin (?x :: ?l)) with (x ++ mjoin l). change (serializedBOCSize (si_cell it) (shouldSerializeHashes opts it) + len (si_refs it) * rs) with (item_size opts rs it).
  assert (E : u64 (offs + item_size opts rs it) = offs + item_size opts rs it) by (unfold u64; apply Z.mod_small; lia). rewrite E.
  assert (E' : (if WithCacheBits opts then u64 (u64 ((offs + item_size opts rs it) * 2) + (if si_cache it then 1 else 0)) else offs + item_size opts rs it) = with_cache_bit opts (offs + item_size opts rs it) it).
  { unfold with_cache_bit, u64. destruct (WithCacheBits opts); [|done]. rewrite (Z.mod_small (_ * 2)) by lia. apply Z.mod_small. destruct (si_cache it); lia. }
  rewrite E'. apply writes_bind; [rewrite storeUintTo_ok by lia; apply writes_emit|]. apply IH; [lia|lia|done].
Qed.

Lemma emit_bag_ok s ids ds tot :
  cellCount s = count -> Forall (fun it => shape (si_cell it) /\ Forall (fun r => 0 <= r < count) (si_refs it)) (sz_list s) -> Forall (fun r => 0 <= r < count) ids ->
  ds = sum_of (item_size opts rs) (rev (sz_list s)) -> 0 <= ds < 2 ^ (8 * os) -> ds * 2 + 1 < 2 ^ 56 -> (WithCacheBits opts = true -> ds * 2 + 1 < 2 ^ (8 * os)) ->
  writes total (emit_bag (to_buffer total) s ids opts (mkInfo rs os ds tot)) (bag_bytes opts count rs os ids (rev (sz_list s))).
Proof using Hrs Hos Hcount.
  intros Hc Hl Hids Hds Hds1 Hds2 Hds3. unfold emit_bag, bag_bytes, head_bytes. cbn [fo_refByteSize fo_offsetByteSize fo_dataSize]. rewrite Hc, <-!app_assoc, <-Hds.
  assert (Hu8 : u8 os = os) by (unfold u8; apply Z.mod_small; lia). rewrite Hu8.
  assert (Hp : Forall (fun it => 0 <= item_size opts rs it) (rev (sz_list s))).
  { apply Forall_rev. eapply List.Forall_impl; [|exact Hl]. intros it [Hit _]. rewrite <-(len_item opts count rs it Hit) by lia. apply len_nonneg. }
  do 3 (apply writes_bind; [apply writes_emit|]). do 4 (apply writes_bind; [rewrite storeUintTo_ok by lia; apply writes_emit|]).
  apply writes_bind; [|apply writes_bind].
  - rewrite (file_ids _ Hids). apply emit_uints_ok; [lia|]. apply Forall_fmap. eapply List.Forall_impl; [|exact Hids]. intros r Hr. unfold compose, file_id. cbn beta in *. lia.
  - unfold index_bytes. destruct (WithIndex opts); [|apply writes_ret]. apply emit_index_ok; [done|lia|rewrite <-Hds; lia|]. pose proof (ends_bound opts rs 0 _ Hp) as He. rewrite <-Hds in He. clear Hp Hds Hl.
    generalize dependent (ends opts rs 0 (rev (sz_list s))). intros es He. generalize (rev (sz_list s)). induction He as [|e es Hee _ IH]; intros [|it items]; cbn [zip_with]; constructor; [|apply IH].
    unfold with_cache_bit. cbn beta in Hee. destruct (WithCacheBits opts); [|lia]. specialize (Hds3 eq_refl). destruct (si_cache it); lia.
  - apply emit_cells_ok. now apply Forall_rev.
Qed.

End emission.

(** ** The size computed beforehand *)

Definition ref_size (s : bocSerializer) : Z := byte_size 9 (cellCount s) 0.
Definition payload_size (opts : BOCSerializeOptions) (s : bocSerializer) : Z := sum_of (item_size opts (ref_size s)) (sz_list s).
Definition offset_size (opts : BOCSerializeOptions) (s : bocSerializer) : Z :=
  byte_size 9 (if WithCacheBits opts then payload_size opts s * 2 else payload_size opts s) 0.

Definition file_bytes (opts : BOCSerializeOptions) (s : bocSerializer) (ids : list Z) : list Z :=
  let bag := bag_bytes opts (cellCount s) (ref_size s) (offset_size opts s) ids (rev (sz_list s)) in
  if WithCRC32C opts then bag ++ le_bytes4 (Crc32.Checksum bag) else bag.

(** Hashes are counted where they are written, unless roots keep hashes that inner
    cells do not. *)
Lemma payload_sum opts rs l :
  (WithTopHash opts = true -> WithIntHashes opts = true) -> Forall hcnt_ok l ->
  sum_of (item_size opts rs) l = sum_of own_size l + sum_of ref_count l * rs
    + ((if WithTopHash opts then sum_of top_hashes l else 0) + (if WithIntHashes opts then sum_of int_hashes l else 0)) * 34.
Proof.
  intros Ho H. unfold sum_of. induction H as [|it l Hit _ IH]; cbn [foldr]; [destruct (WithTopHash opts), (WithIntHashes opts); lia|]. rewrite IH. clear IH.
  unfold item_size at 1, own_size at 2, ref_count at 2, serializedBOCSize, shouldSerializeHashes, hashSize, depthSize. rewrite <-Hit. unfold top_hashes at 2, int_hashes at 2.
  destruct (WithTopHash opts), (WithIntHashes opts); try (specialize (Ho eq_refl); discriminate); destruct (si_wt it =? 0), (si_root it); cbn [andb orb negb]; lia.
Qed.

Lemma item_bounds opts rs it : shape (si_cell it) -> len (si_refs it) <= 4 -> 1 <= rs <= 4 -> 2 <= item_size opts rs it <= 282.
Proof.
  intros H Hr Hs. pose proof (sh_bits _ H). pose proof (hashes_count _ (sh_mask _ H)). pose proof (len_nonneg (si_refs it)). unfold item_size, serializedBOCSize, SerializedBOCBodySize, hashSize, depthSize.
  destruct (shouldSerializeHashes opts it); nia.
Qed.

Section file.
  Context (all roots : list Cell) (U : universe all) (s : bocSerializer) (ids : list Z) (P : prepared all roots s ids).
  Context (opts : BOCSerializeOptions) (Hroots : roots <> []).

Lemma file_count : 0 < cellCount s <= 2 ^ 29.
Proof using P Hroots U.
  pose proof (bag_small all U _ _ (pr_bag _ _ _ _ P)). unfold cellCount. split; [|done]. pose proof (pr_roots _ _ _ _ P) as H1. destruct H1 as [|r c rs cs [_ Hc] _]; [done|].
  apply lookup_lt_Some in Hc. rewrite length_fmap in Hc. unfold len. lia.
Qed.

Lemma file_ref_size : 1 <= ref_size s <= 4 /\ cellCount s < 2 ^ (8 * ref_size s).
Proof using P Hroots U. pose proof file_count. apply (byte_size_range (cellCount s) 4); lia. Qed.

Lemma file_items : Forall (fun it => shape (si_cell it) /\ Forall (fun r => 0 <= r < cellCount s) (si_refs it)) (sz_list s).
Proof using P U.
  apply Forall_lookup. intros k it Hk. pose proof (bg_cells _ _ _ (pr_bag _ _ _ _ P)) as Hc. rewrite Forall_fmap, Forall_lookup in Hc. split; [apply (un_shape _ U), (Hc _ _ Hk)|].
  pose proof (bag_closed _ _ _ (pr_bag _ _ _ _ P)) as Hcl. unfold closed in Hcl. rewrite Forall_lookup in Hcl. exact (Hcl _ _ Hk).
Qed.

Lemma file_item_bounds : Forall (fun it => 2 <= item_size opts (ref_size s) it <= 282) (sz_list s).
Proof using P Hroots U.
  apply Forall_lookup. intros k it Hk. pose proof file_items as Hf. rewrite Forall_lookup in Hf. destruct (Hf _ _ Hk) as [Hsh _]. apply item_bounds; [done| |apply file_ref_size].
  pose proof (Forall2_length _ _ _ (bg_links _ _ _ (pr_bag _ _ _ _ P) k it Hk)) as El. pose proof (sh_refs _ Hsh). unfold len in *. lia.
Qed.

Lemma file_payload : 2 * cellCount s <= payload_size opts s <= 282 * cellCount s.
Proof using P Hroots U. apply sum_of_bound, file_item_bounds. Qed.

Lemma file_offset_size : 1 <= offset_size opts s <= 7 /\ payload_size opts s < 2 ^ (8 * offset_size opts s) /\
  (WithCacheBits opts = true -> payload_size opts s * 2 + 1 < 2 ^ (8 * offset_size opts s)).
Proof using P Hroots U.
  pose proof file_payload as Hp. pose proof file_count as Hc. unfold offset_size. set (v := if WithCacheBits opts then payload_size opts s * 2 else payload_size opts s).
  assert (Hv : payload_size opts s <= v <= payload_size opts s * 2) by (unfold v; destruct (WithCacheBits opts); lia).
  destruct (byte_size_range v 7) as [H1 H2]; [cbn; lia|lia|]. split; [done|]. split; [lia|]. intros Hcb. unfold v in *. rewrite Hcb in *.
  assert (E : 2 ^ (8 * byte_size 9 (payload_size opts s * 2) 0) = 2 * 2 ^ (8 * byte_size 9 (payload_size opts s * 2) 0 - 1)) by (rewrite <-Z.pow_succ_r by lia; f_equal; lia). lia.
Qed.

Lemma len_bag : len (bag_bytes opts (cellCount s) (ref_size s) (offset_size opts s) ids (rev (sz_list s))) =
  dataOffset s ids opts (ref_size s) (offset_size opts s) + payload_size opts s.
Proof using P Hroots U.
  destruct file_ref_size as [Hr _]. destruct file_offset_size as [Ho _].
  assert (Hsh : Forall (fun it => shape (si_cell it)) (rev (sz_list s))) by (apply Forall_rev; eapply List.Forall_impl; [|exact file_items]; now intros ? [? _]).
  unfold bag_bytes, head_bytes, dataOffset. rewrite !len_app, !len_be_bytes, len_uints, len_cells by (done || lia).
  assert (Ei : len (index_bytes opts (ref_size s) (offset_size opts s) (rev (sz_list s))) = if WithIndex opts then cellCount s * offset_size opts s else 0).
  { unfold index_bytes. destruct (WithIndex opts); [|done]. rewrite len_uints by lia. f_equal. pose proof (len_ends opts (ref_size s) 0 (rev (sz_list s))) as El. unfold cellCount, len in *. rewrite length_zip_with, length_rev in *. lia. }
  rewrite Ei. replace (len (file_id (cellCount s) <$> ids)) with (len ids) by (unfold len; now rewrite length_fmap).
  unfold payload_size. rewrite (sum_of_perm _ (rev (sz_list s)) (sz_list s)) by (symmetry; apply Permutation_rev). change (len bocMagic) with 4. unfold len at 1 2. cbn [length]. rewrite !Z2Nat.id by lia. lia.
Qed.

(** The computed layout. *)
Lemma computeSizes_ok : (WithTopHash opts = true -> WithIntHashes opts = true) -> ids <> [] ->
  computeSizes s ids opts = (payload_size opts s, ref_size s, offset_size opts s).
Proof using P Hroots U.
  intros Ht Hids. pose proof file_count as Hc. destruct file_ref_size as [Hr _]. destruct file_offset_size as [Ho _]. pose proof file_payload as Hp. unfold computeSizes.
  destruct (Z.eqb_spec (len ids) 0) as [E |]; [destruct ids; [done|unfold len in E; cbn in E; lia]|]. cbn [orb].
  assert (Hd : 2 * cellCount s <= sz_dataBytes s).
  { rewrite (pr_data _ _ _ _ P). apply (sum_of_bound own_size (sz_list s) 2 130). eapply List.Forall_impl; [|exact file_items]. intros it [Hit _]. pose proof (sh_bits _ Hit). unfold own_size, serializedBOCSize, SerializedBOCBodySize. lia. }
  destruct (Z.eqb_spec (sz_dataBytes s) 0); [lia|]. fold (ref_size s).
  assert (E : sz_dataBytes s + sz_intRefs s * ref_size s + ((if WithTopHash opts then sz_topHashes s else 0) + (if WithIntHashes opts then sz_intHashes s else 0)) * (hashSize + depthSize) = payload_size opts s).
  { unfold payload_size. rewrite (payload_sum opts (ref_size s) _ Ht (pr_hcnt _ _ _ _ P)), (pr_data _ _ _ _ P), (pr_refs _ _ _ _ P), (pr_top _ _ _ _ P), (pr_int _ _ _ _ P). done. }
  rewrite E. assert (Eu : u64 (payload_size opts s) = payload_size opts s) by (unfold u64; apply Z.mod_small; lia). rewrite Eu.
  assert (Eu2 : u64 (payload_size opts s * 2) = payload_size opts s * 2) by (unfold u64; apply Z.mod_small; lia). rewrite Eu2. fold (offset_size opts s).
  destruct (Z.ltb_spec (ref_size s) 1), (Z.ltb_spec 4 (ref_size s)), (Z.ltb_spec (offset_size opts s) 1), (Z.ltb_spec 8 (offset_size opts s)); try lia. done.
Qed.

Lemma serialize_ok :
  (WithTopHash opts = true -> WithIntHashes opts = true) -> (WithCacheBits opts = true -> WithIndex opts = true) -> ids <> [] -> len ids < 2 ^ 32 ->
  serialize s ids opts = Ok (file_bytes opts s ids).
Proof using P Hroots U.
  intros Ht Hci Hids Hlen. pose proof file_count as Hc. destruct file_ref_size as [Hr Hr2]. destruct file_offset_size as (Ho & Ho2 & Ho3). pose proof file_payload as Hp. pose proof len_bag as Hb.
  unfold serialize, estimateSerializedSize. rewrite (computeSizes_ok Ht Hids).
  assert (E1 : WithCacheBits opts && negb (WithIndex opts) = false) by (destruct (WithCacheBits opts), (WithIndex opts); try done; discriminate (Hci eq_refl)). rewrite E1.
  destruct (Z.eqb_spec (payload_size opts s) 0); [lia|]. set (off := dataOffset s ids opts (ref_size s) (offset_size opts s)) in *.
  assert (Hoff : 0 <= off <= 2 ^ 40).
  { unfold off, dataOffset. assert (len ids * ref_size s <= 2 ^ 32 * 4) by (pose proof (len_nonneg ids); nia).
    pose proof (len_nonneg ids). destruct (WithIndex opts); nia. }
  assert (Eu : u64 (off + payload_size opts s) = off + payload_size opts s) by (unfold u64; apply Z.mod_small; lia). rewrite Eu.
  set (total := if WithCRC32C opts then u64 (off + payload_size opts s + 4) else off + payload_size opts s).
  assert (Etot : total = off + payload_size opts s + if WithCRC32C opts then 4 else 0) by (unfold total, u64; destruct (WithCRC32C opts); [apply Z.mod_small|]; lia).
  cbn [fo_totalSize]. destruct (Z.ltb_spec (2 ^ 63 - 1) total); [rewrite Etot in *; destruct (WithCRC32C opts); lia|].
  assert (Hw := emit_bag_ok opts (cellCount s) (ref_size s) (offset_size opts s) total Hr Ho ltac:(lia) s ids (payload_size opts s) total eq_refl file_items (bg_pending _ _ _ (pr_bag _ _ _ _ P))).
  specialize (Hw ltac:(unfold payload_size; apply sum_of_perm, Permutation_rev) ltac:(lia) ltac:(lia) Ho3). set (bag := bag_bytes _ _ _ _ _ _) in *. specialize (Hw []). cbn [app] in Hw. change (len (@nil Z)) with 0 in Hw. rewrite Hb in Hw.
  unfold file_bytes. fold bag. rewrite (run_Ok _ [] tt (if WithCRC32C opts then bag ++ le_bytes4 (Crc32.Checksum bag) else bag)).
  - cbn [mbind outcome_bind]. f_equal. replace (Z.to_nat (total - len _)) with 0%nat; [now rewrite app_nil_r|]. destruct (WithCRC32C opts); rewrite ?len_app, Hb; [change (len (le_bytes4 (Crc32.Checksum bag))) with 4|]; lia.
  - rewrite (bind_Ok _ _ _ _ _ (Hw ltac:(destruct (WithCRC32C opts); lia))). destruct (WithCRC32C opts); [|done]. mrun. apply writes_emit. rewrite Hb. change (len (le_bytes4 (Crc32.Checksum bag))) with 4. lia.
Qed.

End file.

(** ** Too small a buffer

    With hashes at the roots only, the size leaves out the hashes of roots of weight
    zero. *)

(** The operation appends [n] bytes, or panics when the buffer has no room for them. *)
Definition spans (total : Z) (m : M (list Z) unit) (n : Z) : Prop :=
  forall out, len out <= total -> if total <? len out + n then fst (m out) = Panic else exists bytes, len bytes = n /\ m out = (Ok tt, out ++ bytes).

Lemma spans_emit total bytes : spans total (to_buffer total bytes) (len bytes).
Proof. intros out _. unfold to_buffer. mrun. destruct (_ <? _); [done|by exists bytes]. Qed.

Lemma spans_ret total : spans total (mret tt) 0.
Proof. intros out Ho. rewrite Z.add_0_r. destruct (Z.ltb_spec total (len out)); [lia|]. exists []. by rewrite app_nil_r. Qed.

Lemma spans_bind total m m' n n' : 0 <= n' -> spans total m n -> spans total m' n' -> spans total (m ;; m') (n + n').
Proof.
  intros Hn' Hm Hm' out Ho. specialize (Hm out Ho). unfold mbind, M_bind. destruct (Z.ltb_spec total (len out + n)).
  - destruct (Z.ltb_spec total (len out + (n + n'))); [|lia]. destruct (m out) as [[?|?|] ?]; done.
  - destruct Hm as (bytes & Hb & ->). specialize (Hm' (out ++ bytes)). rewrite len_app, Hb, <-Z.add_assoc in Hm'. specialize (Hm' ltac:(lia)).
    destruct (total <? len out + (n + n')); [done|]. destruct Hm' as (bytes' & Hb' & ->). exists (bytes ++ bytes'). rewrite len_app, app_assoc. split; [lia|done].
Qed.

Lemma spans_lift {A} total (a : A) f n : spans total (f a) n -> spans total (lift (Ok a) ≫= f) n.
Proof. intros H out Ho. rewrite bind_lift. by apply H. Qed.

Lemma len_storeUintTo v sz : 1 <= sz <= 8 -> len (storeUintTo v sz) = sz.
Proof. intros Hs. rewrite storeUintTo_ok by done. rewrite len_be_bytes. lia. Qed.

Lemma emit_uints_spans total sz vs : 1 <= sz <= 8 -> spans total (emit_uints (to_buffer total) vs sz) (len vs * sz).
Proof.
  intros Hs. induction vs as [|v vs IH]; cbn [emit_uints]; [apply spans_ret|]. rewrite len_cons. pose proof (len_nonneg vs). replace ((len vs + 1) * sz) with (sz + len vs * sz) by lia.
  apply spans_bind; [nia| |exact IH]. rewrite <-(len_storeUintTo v sz Hs) at 2. apply spans_emit.
Qed.

Lemma emit_index_spans total opts rs os items offs : 1 <= os <= 8 -> spans total (emit_index (to_buffer total) opts rs os items offs) (len items * os).
Proof.
  intros Hs. revert offs. induction items as [|it items IH]; intros offs; cbn [emit_index]; [apply spans_ret|]. rewrite len_cons. pose proof (len_nonneg items).
  replace ((len items + 1) * os) with (os + len items * os) by lia. apply spans_bind; [nia| |apply IH]. set (x := if WithCacheBits opts then _ else _). rewrite <-(len_storeUintTo x os Hs) at 2. apply spans_emit.
Qed.

Lemma emit_cells_spans total opts count rs items :
  1 <= rs <= 4 -> Forall (fun it => shape (si_cell it)) items -> spans total (emit_cells (to_buffer total) opts count rs items) (sum_of (item_size opts rs) items).
Proof.
  intros Hr H. induction H as [|it items Hit Hits IH]; cbn [emit_cells]; [apply spans_ret|]. change (sum_of (item_size opts rs) (it :: items)) with (item_size opts rs it + sum_of (item_size opts rs) items).
  assert (H0 : 0 <= sum_of (item_size opts rs) items) by (rewrite <-(len_cells opts count rs items Hits) by lia; apply len_nonneg).
  rewrite (serializeBOCTo_ok _ _ Hit). set (w := shouldSerializeHashes opts it). set (bytes := cell_head (si_cell it) w ++ body (cbits_of (si_cell it))).
  assert (Hb : len bytes = serializedBOCSize (si_cell it) w).
  { destruct (sh_bits _ Hit). unfold bytes, serializedBOCSize, SerializedBOCBodySize. rewrite len_app, len_head, len_body, len_cbits by done. unfold hashSize, depthSize. destruct w; lia. }
  apply spans_lift. unfold item_size at 1. fold w. rewrite <-Hb, <-Z.add_assoc. pose proof (len_nonneg (si_refs it)).
  apply spans_bind; [nia|apply spans_emit|]. apply spans_bind; [done| |exact IH].
  replace (len (si_refs it)) with (len ((fun r => u64 (count - 1 - r)) <$> si_refs it)) by (unfold len; by rewrite length_fmap). apply emit_uints_spans. lia.
Qed.

Lemma emit_bag_spans total opts s ids rs os ds tot :
  1 <= rs <= 4 -> 1 <= os <= 7 -> Forall (fun it => shape (si_cell it)) (sz_list s) ->
  spans total (emit_bag (to_buffer total) s ids opts (mkInfo rs os ds tot)) (dataOffset s ids opts rs os + sum_of (item_size opts rs) (sz_list s)).
Proof.
  intros Hr Ho Hs. unfold emit_bag, dataOffset. cbn [fo_refByteSize fo_offsetByteSize fo_dataSize]. pose proof (len_nonneg ids). pose proof (len_nonneg (sz_list s)).
  assert (Hs0 : 0 <= sum_of (item_size opts rs) (sz_list s)) by (rewrite <-(len_cells opts 0 rs _ Hs) by lia; apply len_nonneg).
  assert (Hi : 0 <= (if WithIndex opts then cellCount s * os else 0)) by (unfold cellCount; destruct (WithIndex opts); nia).
  replace (4 + 1 + 1 + 3 * rs + os + len ids * rs + (if WithIndex opts then cellCount s * os else 0) + sum_of (item_size opts rs) (sz_list s))
    with (4 + (1 + (1 + (rs + (rs + (rs + (os + (len ids * rs + ((if WithIndex opts then cellCount s * os else 0) + sum_of (item_size opts rs) (sz_list s)))))))))) by lia.
  do 3 (apply spans_bind; [nia|apply spans_emit|]).
  do 3 (apply spans_bind; [nia|match goal with |- spans _ (to_buffer _ (storeUintTo ?x _)) _ => rewrite <-(len_storeUintTo x rs) at 2 by lia end; apply spans_emit|]).
  apply spans_bind; [nia|rewrite <-(len_storeUintTo ds os) at 2 by lia; apply spans_emit|].
  apply spans_bind; [lia|replace (len ids) with (len ((fun r => u64 (cellCount s - 1 - r)) <$> ids)) by (unfold len; by rewrite length_fmap); apply emit_uints_spans; lia|].
  apply spans_bind; [done| |].
  - destruct (WithIndex opts); [|apply spans_ret]. replace (cellCount s) with (len (rev (sz_list s))) by (unfold cellCount, len; by rewrite length_rev). apply emit_index_spans. lia.
  - rewrite (sum_of_perm _ (sz_list s) (rev (sz_list s))) by apply Permutation_rev. apply emit_cells_spans; [done|by apply Forall_rev].
Qed.

Definition zero_root (it : bocSerializeItem) : Z := if si_root it && (si_wt it =? 0) then si_hcnt it else 0.

Section overrun.
  Context (all roots : list Cell) (U : universe all) (s : bocSerializer) (ids : list Z) (P : prepared all roots s ids).
  Context (opts : BOCSerializeOptions) (Hroots : roots <> []) (Htop : WithTopHash opts = true) (Hint : WithIntHashes opts = false).
  Context (Hci : WithCacheBits opts = true -> WithIndex opts = true) (Hids : ids <> []) (Hlen : len ids < 2 ^ 32).

(** The bytes the size leaves out. *)
Definition lost : Z := 34 * sum_of zero_root (sz_list s).

Lemma lost_sum : sz_dataBytes s + sz_intRefs s * ref_size s + sz_topHashes s * 34 = payload_size opts s - lost.
Proof using P Htop Hint.
  rewrite (pr_data _ _ _ _ P), (pr_refs _ _ _ _ P), (pr_top _ _ _ _ P). unfold lost, payload_size. generalize (ref_size s) as rs. intros rs. pose proof (pr_hcnt _ _ _ _ P) as H. clear P.
  unfold sum_of. induction H as [|it l Hit _ IH]; cbn [foldr]; [lia|]. unfold own_size at 1, ref_count at 1, top_hashes at 1, item_size at 1, zero_root at 1, serializedBOCSize, shouldSerializeHashes, hashSize, depthSize.
  rewrite Htop, Hint, <-Hit. destruct (si_root it), (si_wt it =? 0); cbn [andb orb negb]; lia.
Qed.

Lemma lost_bound : 0 <= lost /\ lost <= payload_size opts s - 2 * cellCount s.
Proof using P Htop Hint U Hroots.
  assert (Hd : 2 * cellCount s <= sz_dataBytes s).
  { rewrite (pr_data _ _ _ _ P). apply (sum_of_bound own_size (sz_list s) 2 130). eapply List.Forall_impl; [|exact (file_items _ _ U _ _ P)]. intros it [Hit _]. pose proof (sh_bits _ Hit). unfold own_size, serializedBOCSize, SerializedBOCBodySize. lia. }
  assert (Hnn : forall g : bocSerializeItem -> Z, (forall it, it ∈ sz_list s -> 0 <= g it) -> 0 <= sum_of g (sz_list s)).
  { intros g Hg. unfold sum_of. induction (sz_list s) as [|it l IH]; cbn [foldr]; [lia|]. pose proof (Hg it ltac:(left)). assert (0 <= foldr (fun x acc => g x + acc) 0 l); [|lia]. apply IH. intros x Hx. apply Hg. by right. }
  assert (Hh : forall it, it ∈ sz_list s -> 1 <= si_hcnt it).
  { intros it Hin. pose proof (proj1 (Forall_forall _ _) (pr_hcnt _ _ _ _ P) it Hin) as ->. apply (hashes_count _ (sh_mask _ (proj1 (proj1 (Forall_forall _ _) (file_items _ _ U _ _ P) it Hin)))). }
  pose proof lost_sum as E. assert (0 <= sz_topHashes s) by (rewrite (pr_top _ _ _ _ P); apply Hnn; intros it Hin; specialize (Hh it Hin); unfold top_hashes; destruct (_ && _); lia).
  assert (0 <= sz_intRefs s) by (rewrite (pr_refs _ _ _ _ P); apply Hnn; intros it _; apply len_nonneg).
  assert (0 <= sum_of zero_root (sz_list s)) by (apply Hnn; intros it Hin; specialize (Hh it Hin); unfold zero_root; destruct (_ && _); lia).
  pose proof (proj1 (file_ref_size _ _ U _ _ P Hroots)).
  split; [unfold lost; lia|]. nia.
Qed.

Lemma lost_zero : lost = 0 <-> ~ Exists (fun it => si_root it = true /\ si_wt it = 0) (sz_list s).
Proof using P U.
  assert (Hh : Forall (fun it => 1 <= si_hcnt it) (sz_list s)).
  { apply Forall_forall. intros it Hin. pose proof (proj1 (Forall_forall _ _) (pr_hcnt _ _ _ _ P) it Hin) as ->. apply (hashes_count _ (sh_mask _ (proj1 (proj1 (Forall_forall _ _) (file_items _ _ U _ _ P) it Hin)))). }
  assert (H : 0 <= sum_of zero_root (sz_list s) /\ (sum_of zero_root (sz_list s) = 0 <-> ~ Exists (fun it => si_root it = true /\ si_wt it = 0) (sz_list s))); [|unfold lost; destruct H as (_ & H1 & H2); split; [intros E; apply H1; lia|intros E; rewrite (H2 E); lia]].
  clear P. unfold sum_of. induction Hh as [|it l Hit _ [IH1 IH2]]; cbn [foldr]; [split; [done|]; split; [intros _ H; by inversion H|done]|]. unfold zero_root at 1 3.
  rewrite Exists_cons. destruct (si_root it) eqn:Er; cbn [andb]; [destruct (Z.eqb_spec (si_wt it) 0)|]; split; try lia; intuition (try congruence; try lia).
Qed.

Lemma serialize_overrun : serialize s ids opts = Panic <-> Exists (fun it => si_root it = true /\ si_wt it = 0) (sz_list s).
Proof using All.
  pose proof (file_count _ _ U _ _ P Hroots) as Hc. destruct (file_ref_size _ _ U _ _ P Hroots) as [Hr Hr2]. pose proof (file_payload _ _ U _ _ P opts Hroots) as Hp. pose proof lost_bound as [Hl0 Hl1].
  assert (Hdec : lost = 0 \/ 34 <= lost) by (unfold lost in *; lia).
  set (ds := payload_size opts s - lost). set (os := byte_size 9 (if WithCacheBits opts then ds * 2 else ds) 0).
  assert (Ho : 1 <= os <= 7) by (unfold os; destruct (byte_size_range (if WithCacheBits opts then ds * 2 else ds) 7); [cbn; unfold ds; destruct (WithCacheBits opts); lia|lia|done]).
  assert (Hsz : computeSizes s ids opts = (ds, ref_size s, os)).
  { unfold computeSizes. destruct (Z.eqb_spec (len ids) 0) as [E |]; [destruct ids; [done|unfold len in E; cbn in E; lia]|]. cbn [orb]. rewrite Htop, Hint, Z.add_0_r. fold (ref_size s).
    assert (Hd : sz_dataBytes s <> 0). { rewrite (pr_data _ _ _ _ P). assert (2 * cellCount s <= sum_of own_size (sz_list s)); [|lia]. apply (sum_of_bound own_size (sz_list s) 2 130). eapply List.Forall_impl; [|exact (file_items _ _ U _ _ P)]. intros it [Hit _]. pose proof (sh_bits _ Hit). unfold own_size, serializedBOCSize, SerializedBOCBodySize. lia. }
    destruct (Z.eqb_spec (sz_dataBytes s) 0); [done|]. change (hashSize + depthSize) with 34. rewrite lost_sum. fold ds.
    replace (u64 ds) with ds by (unfold u64; rewrite Z.mod_small; unfold ds; lia). replace (u64 (ds * 2)) with (ds * 2) by (unfold u64; rewrite Z.mod_small; unfold ds; lia). fold os.
    destruct (Z.ltb_spec (ref_size s) 1), (Z.ltb_spec 4 (ref_size s)), (Z.ltb_spec os 1), (Z.ltb_spec 8 os); try lia. done. }
  unfold serialize, estimateSerializedSize. rewrite Hsz.
  replace (WithCacheBits opts && negb (WithIndex opts)) with false by (destruct (WithCacheBits opts), (WithIndex opts); try done; discriminate (Hci eq_refl)).
  destruct (Z.eqb_spec ds 0); [unfold ds in *; lia|]. set (off := dataOffset s ids opts (ref_size s) os).
  assert (Hoff : 0 <= off <= 2 ^ 40). { unfold off, dataOffset. pose proof (len_nonneg ids). assert (len ids * ref_size s <= 2 ^ 32 * 4) by nia. destruct (WithIndex opts); nia. }
  replace (u64 (off + ds)) with (off + ds) by (unfold u64; rewrite Z.mod_small; unfold ds; lia). set (total := if WithCRC32C opts then u64 (off + ds + 4) else off + ds).
  assert (Etot : total = off + ds + if WithCRC32C opts then 4 else 0) by (unfold total, u64; destruct (WithCRC32C opts); [apply Z.mod_small; unfold ds|]; lia).
  cbn [fo_totalSize]. destruct (Z.ltb_spec (2 ^ 63 - 1) total); [rewrite Etot in *; unfold ds in *; destruct (WithCRC32C opts); lia|].
  assert (Hsh : Forall (fun it => shape (si_cell it)) (sz_list s)) by (eapply List.Forall_impl; [|exact (file_items _ _ U _ _ P)]; by intros ? [? _]).
  pose proof (emit_bag_spans total opts s ids (ref_size s) os ds total Hr Ho Hsh []) as Hw. fold off in Hw. fold (payload_size opts s) in Hw. change (len (@nil Z)) with 0 in Hw.
  specialize (Hw ltac:(unfold ds in *; destruct (WithCRC32C opts); lia)). rewrite Z.add_0_l in Hw.
  destruct Hdec as [H0 | H34].
  - pose proof (proj1 lost_zero H0). split; [|done]. destruct (Z.ltb_spec total (off + payload_size opts s)); [unfold ds in *; destruct (WithCRC32C opts); lia|].
    destruct Hw as (bytes & Hb & Hm). unfold run, mbind at 2, M_bind at 1. rewrite Hm. cbn [app]. destruct (WithCRC32C opts); [|done]. unfold mbind at 2, M_bind, get_state, to_buffer. mrun.
    change (len (le_bytes4 (Crc32.Checksum bytes))) with 4. destruct (Z.ltb_spec total (len bytes + 4)); [unfold ds in *; lia|done].
  - split; [intros _|intros _]. { destruct (Exists_dec (fun it => si_root it = true /\ si_wt it = 0) (sz_list s)) as [He|He]; [done|]. apply lost_zero in He. lia. }
    destruct (Z.ltb_spec total (off + payload_size opts s)); [|unfold ds in *; destruct (WithCRC32C opts); lia].
    unfold run, mbind at 2, M_bind at 1. destruct (emit_bag _ _ _ _ _ _) as [[?|?|] ?]; done.
Qed.

End overrun.
