(* ===== verification/BocCells.v ===== *)
(** * Reading back the bytes of a bag

    The parser takes the layout of [BocWrite] apart again: header, root numbers, index,
    and each cell with its references, stored hashes and cache bit. *)

From S2P Require Import Prelude Bytes Sha256 CellModel Builder Finalize Slice CellHash Checksums BocIndexSpec BocSerialize BocParse BocSpec BocImport.
From S2P Require Import BocOrder BocWrite.
From stdpp Require Import list strings.
#[local] Open Scope Z_scope.

(** ** Readers *)

(** The operation consumes exactly these bytes. *)
Definition reads {A} (m : M (list Z) A) (bytes : list Z) (a : A) : Prop := forall rest, m (bytes ++ rest) = (Ok a, rest).

Lemma reads_bind {A B} (m : M (list Z) A) (k : A -> M (list Z) B) b b' a x : reads m b a -> reads (k a) b' x -> reads (m ≫= k) (b ++ b') x.
Proof. intros H H' rest. rewrite <-app_assoc, (bind_Ok _ _ _ _ _ (H _)). apply H'. Qed.

Lemma reads_ret {A} (a : A) : reads (mret a) [] a.
Proof. intros rest. done. Qed.

Lemma reads_pure {A B} (m : M (list Z) A) (k : A -> M (list Z) B) b a x : reads m [] a -> reads (k a) b x -> reads (m ≫= k) b x.
Proof. apply (reads_bind m k [] b). Qed.

Lemma reads_last {A B} (m : M (list Z) A) (k : A -> M (list Z) B) b a x : reads m b a -> reads (k a) [] x -> reads (m ≫= k) b x.
Proof. intros H H'. pose proof (reads_bind m k b [] a x H H') as Hb. now rewrite app_nil_r in Hb. Qed.

Lemma reads_guard {A} (c : bool) e (k : unit -> M (list Z) A) b x : c = false -> reads (k tt) b x -> reads (guard_err c e ≫= k) b x.
Proof. intros -> H. apply reads_pure with tt; [intros rest; done|done]. Qed.

Lemma take_app_len {A} (l l' : list A) n : n = len l -> take (Z.to_nat n) (l ++ l') = l /\ drop (Z.to_nat n) (l ++ l') = l'.
Proof. intros ->. unfold len. rewrite Nat2Z.id. split; [apply take_app_length|apply drop_app_length]. Qed.

Lemma readDirect_ok b n : n = len b -> reads (readDirect n) b b.
Proof.
  intros Hn rest. unfold readDirect. mrun. destruct (Z.ltb_spec (len (b ++ rest)) n) as [Hlt | _]; [rewrite len_app in Hlt; pose proof (len_nonneg rest); lia|].
  mrun. destruct (take_app_len b rest n Hn) as [-> ->]. done.
Qed.

Lemma readByte_ok b : reads readByte [b] b.
Proof. intros rest. unfold readByte. rewrite (bind_Ok _ _ _ _ _ (readDirect_ok [b] 1 eq_refl rest)). done. Qed.

Lemma foldl_be_uint l : bytes_ok l -> len l <= 7 -> foldl (fun v b => Z.lor (u64 (v ≪ 8)) b) 0 l = be_uint l.
Proof.
  induction l as [|b l IH] using rev_ind; intros Hok Hl; [done|]. apply bytes_ok_app in Hok as [Hok _]. rewrite len_app in Hl. change (len [b]) with 1 in Hl.
  rewrite foldl_app, IH, be_uint_app by (done || lia). cbn [foldl]. f_equal. pose proof (be_uint_bound l Hok) as Hb. unfold u64. rewrite Z.shiftl_mul_pow2 by lia. apply Z.mod_small.
  assert (2 ^ (8 * len l) <= 2 ^ 48) by (apply Z.pow_le_mono_r; lia). lia.
Qed.

Lemma dynInt_be_uint d : bytes_ok d -> 1 <= len d <= 7 -> dynInt d = be_uint d.
Proof.
  intros Hok Hl. unfold dynInt. destruct (Z.eqb_spec (len d) 0); [lia|]. destruct (Z.eqb_spec (len d) 1) as [E |].
  { destruct d as [|a [|]]; unfold len in E; cbn in E; try lia. reflexivity. }
  destruct (Z.eqb_spec (len d) 2); [done|]. destruct (Z.eqb_spec (len d) 3) as [E |].
  { destruct d as [|a [|b [|c [|]]]]; unfold len in E; cbn in E; try lia. unfold byte_at, be_uint. cbn [foldl nth Z.to_nat Pos.to_nat Pos.iter_op Nat.add]. rewrite Z.shiftl_0_l, Z.lor_0_l, Z.shiftl_lor, Z.shiftl_shiftl by lia. reflexivity. }
  destruct (Z.eqb_spec (len d) 4); [done|]. rewrite foldl_be_uint by (done || lia). pose proof (be_uint_bound d Hok) as Hb. assert (2 ^ (8 * len d) <= 2 ^ 56) by (apply Z.pow_le_mono_r; lia).
  unfold s64. rewrite Z.mod_small; lia.
Qed.

Lemma dynInt_ok n v : (1 <= n <= 7)%nat -> 0 <= v < 2 ^ (8 * Z.of_nat n) -> dynInt (be_bytes n v) = v.
Proof. intros Hn Hv. rewrite dynInt_be_uint; [now apply be_uint_be_bytes|apply be_bytes_ok|rewrite len_be_bytes; lia]. Qed.

Lemma readDynInt_ok sz v : 1 <= sz <= 7 -> 0 <= v < 2 ^ (8 * sz) -> reads (readDynInt sz) (be_bytes (Z.to_nat sz) v) v.
Proof.
  intros Hs Hv. unfold readDynInt. apply reads_guard; [destruct (Z.ltb_spec sz 0), (Z.ltb_spec 8 sz); lia || done|].
  eapply reads_last; [apply readDirect_ok; rewrite len_be_bytes; lia|]. rewrite dynInt_ok; [apply reads_ret|lia|]. rewrite Z2Nat.id by lia. done.
Qed.

(** ** The header *)

Lemma flags_parsed opts rs : 1 <= rs <= 4 -> parseBOCFlags (flags_byte opts rs) = (mkFlags (WithIndex opts) (WithCRC32C opts) (WithCacheBits opts), rs).
Proof.
  intros Hr. assert (rs = 1 \/ rs = 2 \/ rs = 3 \/ rs = 4) as Hc by lia. unfold flags_byte.
  destruct (WithIndex opts), (WithCRC32C opts), (WithCacheBits opts), Hc as [-> | [-> | [-> | ->]]]; reflexivity.
Qed.

Definition flags_of (opts : BOCSerializeOptions) : bocFlags := mkFlags (WithIndex opts) (WithCRC32C opts) (WithCacheBits opts).

Lemma read_format_ok opts rs os : 1 <= rs <= 4 -> 1 <= os <= 7 -> reads read_format (bocMagic ++ [flags_byte opts rs] ++ [os]) (false, flags_of opts, rs, os).
Proof.
  intros Hr Ho. unfold read_format. eapply (reads_bind _ _ bocMagic).
  { intros rest. now rewrite (readDirect_ok bocMagic 4 eq_refl rest). }
  apply reads_guard; [done|]. eapply (reads_bind _ _ [flags_byte opts rs]); [apply readByte_ok|]. rewrite (flags_parsed opts rs Hr). cbn [negb matchBOCMagic].
  change (matchBOCMagic bocMagic bocMagic) with true. cbn [negb]. apply reads_guard; [destruct (Z.ltb_spec rs 1), (Z.ltb_spec 4 rs); lia || done|].
  eapply reads_last; [apply readByte_ok|]. apply reads_guard; [destruct (Z.ltb_spec os 1), (Z.ltb_spec 8 os); lia || done|]. apply reads_ret.
Qed.

Lemma read_roots_ok sz count vs : 1 <= sz <= 4 -> count < 2 ^ (8 * sz) -> Forall (fun v => 0 <= v < count) vs -> reads (read_roots (length vs) sz count) (uints sz vs) vs.
Proof.
  intros Hs Hc H. induction H as [|v vs Hv _ IH]; cbn [read_roots length]; [apply reads_ret|]. unfold uints. cbn [fmap list_fmap]. change (mjoin (?x :: ?l)) with (x ++ mjoin l).
  eapply reads_bind; [apply readDynInt_ok; lia|]. apply reads_guard; [destruct (Z.ltb_spec v 0), (Z.leb_spec count v); lia || done|].
  eapply reads_last; [exact IH|]. assert (E : u32 v = v). { unfold u32. apply Z.mod_small. assert (2 ^ (8 * sz) <= 2 ^ 32) by (apply Z.pow_le_mono_r; lia). lia. } rewrite E. apply reads_ret.
Qed.

Section header.
  Context (opts : BOCSerializeOptions) (popts : BOCParseOptions) (count rs os ds nroots : Z).
  Context (Hrs : 1 <= rs <= 4) (Hos : 1 <= os <= 7) (Hcount : 0 < count < 2 ^ (8 * rs)) (Hroots : 0 < nroots < 2 ^ (8 * rs)) (Hmax : nroots <= MaxBOCRoots).
  Context (Hcells : count <= max_cells popts) (Hds : 2 * count <= ds <= 282 * count) (Hds2 : ds < 2 ^ (8 * os)) (Hmin : count * (2 + rs) - rs <= ds).

Lemma read_counters_ok :
  reads (read_counters popts false rs os) (be_bytes (Z.to_nat rs) count ++ be_bytes (Z.to_nat rs) nroots ++ be_bytes (Z.to_nat rs) 0 ++ be_bytes (Z.to_nat os) ds) (count, nroots, ds).
Proof using All.
  assert (Hc32 : 2 ^ (8 * rs) <= 2 ^ 32) by (apply Z.pow_le_mono_r; lia). unfold read_counters. eapply reads_bind; [apply readDynInt_ok; lia|]. eapply reads_bind; [apply readDynInt_ok; lia|].
  apply reads_guard; [destruct (Z.leb_spec count 0), (Z.leb_spec nroots 0); lia || done|]. apply reads_guard; [done|]. apply reads_guard; [destruct (Z.ltb_spec 0 (max_cells popts)), (Z.ltb_spec (max_cells popts) count); lia || done|].
  apply reads_guard; [destruct (Z.ltb_spec MaxBOCRoots nroots); [lia|]; apply andb_false_r|]. eapply reads_bind; [apply readDynInt_ok; lia|]. apply reads_guard; [destruct (Z.ltb_spec count 0); [lia|done]|].
  eapply reads_last; [apply readDynInt_ok; lia|]. apply reads_guard; [destruct (Z.ltb_spec ds (count * (2 + rs) - rs)); [lia|]; apply andb_false_r|].
  apply reads_guard.
  { destruct (Z.ltb_spec (maxBOCPayloadBytesForCells (max_cells popts)) ds) as [Hlt |]; [|apply andb_false_r]. exfalso. revert Hlt. unfold maxBOCPayloadBytesForCells. destruct (Z.leb_spec (max_cells popts) 0); [lia|].
    change maxBOCDeclaredPayloadBytesPerCell with 1024. destruct (Z.ltb_spec ((2 ^ 63 - 1) / 1024) (max_cells popts)); lia. }
  apply reads_guard; [|apply reads_ret]. change maxBOCDeclaredPayloadBytesPerCell with 1024. unfold u64. rewrite Z.mod_small by lia. destruct (Z.ltb_spec (count * 1024) ds); [lia|]. apply andb_false_r.
Qed.

Lemma read_header_ok ids index :
  nroots = len ids -> Forall (fun v => 0 <= v < count) ids -> (WithCacheBits opts = true -> WithIndex opts = true) -> (if WithIndex opts then len index = count * os else index = []) ->
  reads (read_header popts) (head_bytes opts count rs os nroots ds ++ uints rs ids ++ index) (mkHeader (flags_of opts) rs os count ds ids index).
Proof using All.
  intros Hn Hids Hci Hix. unfold read_header, head_bytes. replace (bocMagic ++ _) with ((bocMagic ++ [flags_byte opts rs] ++ [os]) ++ be_bytes (Z.to_nat rs) count ++ be_bytes (Z.to_nat rs) nroots ++ be_bytes (Z.to_nat rs) 0 ++ be_bytes (Z.to_nat os) ds) by now rewrite <-!app_assoc.
  rewrite <-(app_assoc (bocMagic ++ _)). eapply reads_bind; [now apply read_format_ok|]. cbn beta iota. eapply reads_bind; [apply read_counters_ok|]. cbn beta iota.
  apply reads_guard; [cbn [flags_of fl_hasCacheBits fl_hasIndex]; destruct (WithCacheBits opts), (WithIndex opts); try done; discriminate (Hci eq_refl)|].
  eapply reads_bind; [rewrite Hn; unfold len; rewrite Nat2Z.id; apply read_roots_ok; [done|lia|done]|]. eapply reads_last.
  - cbn [flags_of fl_hasIndex]. destruct (WithIndex opts); [now apply readDirect_ok|]. subst index. apply reads_ret.
  - apply reads_guard; [destruct (Z.ltb_spec (ds / 2) count); lia || done|]. apply reads_ret.
Qed.

End header.

(** ** Descriptor bytes *)

Lemma ref_counts (P : Z -> Prop) : P 0 -> P 1 -> P 2 -> P 3 -> P 4 -> forall n, 0 <= n <= 4 -> P n.
Proof. intros. assert (n = 0 \/ n = 1 \/ n = 2 \/ n = 3 \/ n = 4) as Hn by lia. now repeat (destruct Hn as [-> | Hn]; [done|]); subst. Qed.

Definition first_byte (c : Cell) (w : bool) : Z := if w then Z.lor (fst (descriptors c (c_mask c))) 16 else fst (descriptors c (c_mask c)).

Lemma descriptor_bits n (spec w : bool) m : 0 <= n <= 4 -> 0 <= m <= 7 ->
  let d := u8 (u8 n + (if spec then 8 else 0) + m * 32) in let d := if w then Z.lor d 16 else d in
  Z.land d 7 = n /\ negb (Z.land d 8 =? 0) = spec /\ negb (Z.land d 16 =? 0) = w /\ d ≫ 5 = m.
Proof.
  revert n m. enough (H : forall n, 0 <= n <= 4 -> forall m, 0 <= m <= 7 -> let d := u8 (u8 n + (if spec then 8 else 0) + m * 32) in let d := if w then Z.lor d 16 else d in
    Z.land d 7 = n /\ negb (Z.land d 8 =? 0) = spec /\ negb (Z.land d 16 =? 0) = w /\ d ≫ 5 = m) by (intros; now apply H).
  apply (ref_counts (fun n => forall m, 0 <= m <= 7 -> let d := u8 (u8 n + (if spec then 8 else 0) + m * 32) in let d := if w then Z.lor d 16 else d in
    Z.land d 7 = n /\ negb (Z.land d 8 =? 0) = spec /\ negb (Z.land d 16 =? 0) = w /\ d ≫ 5 = m)); apply masks; destruct spec, w; vm_compute; split_and!; reflexivity.
Qed.

Lemma first_byte_parsed c w : shape c ->
  Z.land (first_byte c w) 7 = len (c_refs c) /\ negb (Z.land (first_byte c w) 8 =? 0) = c_special c /\ negb (Z.land (first_byte c w) 16 =? 0) = w /\ first_byte c w ≫ 5 = c_mask c.
Proof. intros H. unfold first_byte, descriptors. cbn [fst]. apply descriptor_bits; [|apply H]. pose proof (len_nonneg (c_refs c)). pose proof (sh_refs _ H). lia. Qed.

Lemma second_byte c : shape c -> let ln := snd (descriptors c (c_mask c)) in
  ln / 2 + ln mod 2 = (c_bitsSz c + 7) / 8 /\ negb (ln mod 2 =? 0) = negb (c_bitsSz c mod 8 =? 0).
Proof.
  intros H. pose proof (sh_bits _ H) as Hb. unfold descriptors. cbn [snd]. unfold u8. destruct (Z.eqb_spec (c_bitsSz c mod 8) 0) as [E | E]; cbn [negb]; rewrite Z.mod_small by lia.
  - split; [lia|]. destruct (Z.eqb_spec ((c_bitsSz c / 8 * 2) mod 2) 0); [done|lia].
  - split; [lia|]. destruct (Z.eqb_spec ((c_bitsSz c / 8 * 2 + 1) mod 2) 0); [lia|done].
Qed.

(** ** The closing bit *)

Lemma lowest_bit b k : 0 <= b < 256 -> 0 <= k <= 7 -> b mod 2 ^ (k + 1) = 2 ^ k -> b <> 0 /\ LevelMask.GetLevel (Z.land b (- b)) - 1 = k.
Proof.
  intros Hb Hk. assert (H : forallb (fun b => forallb (fun k => negb (b mod 2 ^ (k + 1) =? 2 ^ k) || (negb (b =? 0) && (LevelMask.GetLevel (Z.land b (- b)) - 1 =? k)))
    (Z.of_nat <$> seq 0 8)) (Z.of_nat <$> seq 0 256) = true) by (vm_compute; reflexivity).
  rewrite forallb_forall in H. specialize (H b). rewrite forallb_forall in H. assert (Hin : forall x n, 0 <= x < Z.of_nat n -> In x (Z.of_nat <$> seq 0 n)).
  { intros x n Hx. apply list_elem_of_In, list_elem_of_fmap. exists (Z.to_nat x). split; [lia|apply elem_of_seq; lia]. }
  specialize (H (Hin b 256%nat ltac:(lia)) k (Hin k 8%nat ltac:(lia))). intros E. apply orb_true_iff in H as [H | H].
  - apply negb_true_iff, Z.eqb_neq in H. done.
  - apply andb_true_iff in H as [H1 H2]. apply negb_true_iff, Z.eqb_neq in H1. apply Z.eqb_eq in H2. done.
Qed.

Lemma body_last bs : len bs mod 8 <> 0 -> let n := (len bs + 7) / 8 in byte_at (body bs) (n - 1) mod 2 ^ (8 - len bs mod 8) = 2 ^ (7 - len bs mod 8).
Proof.
  intros H n. pose proof (len_nonneg bs) as H0. apply Z.bits_inj'. intros j Hj. rewrite Z.pow2_bits_eqb by lia. destruct (Z.ltb_spec j (8 - len bs mod 8)).
  - rewrite Z.mod_pow2_bits_low by lia. transitivity (bit (body bs) (8 * (n - 1) + (7 - j))).
    { unfold bit. replace ((8 * (n - 1) + (7 - j)) / 8) with (n - 1) by lia. f_equal. lia. }
    unfold body. rewrite (proj2 (Z.eqb_neq _ _) H). rewrite bit_pack by (fold n; lia). unfold n. destruct (Z.eqb_spec (7 - len bs mod 8) j) as [E | E].
    + replace (Z.to_nat _) with (length bs) by (unfold len in *; lia). apply nth_middle.
    + apply nth_overflow. rewrite length_app. cbn. unfold len in *. lia.
  - rewrite Z.mod_pow2_bits_high by lia. destruct (Z.eqb_spec (7 - len bs mod 8) j); [lia|done].
Qed.

Lemma bits_of_body bs : len bs <= 1023 -> len bs mod 8 <> 0 ->
  cellBodyBitsSizeFromLast ((len bs + 7) / 8) (byte_at (body bs) ((len bs + 7) / 8 - 1)) = Some (len bs).
Proof.
  intros Hl H. pose proof (len_nonneg bs) as H0. pose proof (body_last bs H) as E. cbn zeta in E. unfold cellBodyBitsSizeFromLast. set (b := byte_at _ _) in *.
  assert (Hb : 0 <= b < 256) by (apply byte_at_ok, bytes_ok_body). replace (8 - len bs mod 8) with (7 - len bs mod 8 + 1) in E by lia. destruct (lowest_bit b (7 - len bs mod 8) Hb ltac:(lia) E) as [Hn ->].
  destruct (Z.eqb_spec b 0); [done|]. destruct (Z.leb_spec 7 (7 - len bs mod 8)); [lia|]. f_equal. unfold u16. rewrite Z.mod_small by lia. lia.
Qed.

(** * Reading back the cells of a bag *)

(** ** References *)

Lemma ref_ids_ok sz vs rest : 1 <= sz <= 4 -> Forall (fun v => 0 <= v < 2 ^ (8 * sz)) vs -> ref_ids (length vs) sz (uints sz vs ++ rest) = vs.
Proof.
  intros Hs H. induction H as [|v vs Hv _ IH]; cbn [ref_ids length]; [done|]. unfold uints. cbn [fmap list_fmap]. change (mjoin (?x :: ?l)) with (x ++ mjoin l). rewrite <-app_assoc.
  destruct (take_app_len (be_bytes (Z.to_nat sz) v) (mjoin (be_bytes (Z.to_nat sz) <$> vs) ++ rest) sz) as [-> ->]; [rewrite len_be_bytes; lia|].
  f_equal; [|exact IH]. apply dynInt_ok; [lia|]. now rewrite Z2Nat.id by lia.
Qed.

Lemma check_refs_ok i count ids : Forall (fun id => i < id < count) ids -> 0 <= i -> check_refs i count ids = Ok tt.
Proof.
  intros H H0. induction H as [|id ids Hid _ IH]; cbn [check_refs]; [done|].
  destruct (Z.eqb_spec i id), (Z.ltb_spec id i), (Z.ltb_spec id 0), (Z.leb_spec count id); lia || done.
Qed.

(** ** One cell *)

Section cell.
  Context (opts : BOCSerializeOptions) (count rs os ds : Z) (ids : list Z) (items : list bocSerializeItem).
  Context (Hrs : 1 <= rs <= 4) (Hos : 1 <= os <= 7) (Hcount : 0 < count < 2 ^ (8 * rs)).

Abbreviation h := (mkHeader (flags_of opts) rs os count ds ids (index_bytes opts rs os items)).
Abbreviation size := (item_size opts rs).

Definition raw_of (it : bocSerializeItem) : rawCell :=
  let c := si_cell it in mkRaw (body (cbits_of c)) (c_bitsSz c) (c_special c) (c_mask c) (file_id count <$> si_refs it).

Definition stored_of (f : Z) (it : bocSerializeItem) : list storedHashesDepths :=
  if shouldSerializeHashes opts it then [mkStored f (stored_hashes (si_cell it)) (stored_depths (si_cell it))] else [].

Definition cache_after (f : Z) (it : bocSerializeItem) (cache : list (Z * bool)) : list (Z * bool) :=
  if WithCacheBits opts then foldl incBOCCacheRef (if si_cache it then setBOCIndexCacheBit cache f else cache) (file_id count <$> si_refs it) else cache.

Lemma read_payload_ok b rest off cache cells stored n :
  n = len b -> off + n <= ds -> read_payload ds n (mkParsing (b ++ rest) off cache cells stored) = (Ok b, mkParsing rest (off + n) cache cells stored).
Proof.
  intros Hn Hle. unfold read_payload. mrun. cbn [pa_offset pa_data pa_cache pa_cells pa_stored]. destruct (Z.ltb_spec (ds - off) n); [lia|].
  rewrite (run_Ok _ _ _ _ (readDirect_ok b n Hn rest)). mrun. done.
Qed.

Lemma check_left_ok e n what s : pa_offset s + n <= e -> check_left e n what s = (Ok tt, s).
Proof. intros H. unfold check_left. mrun. destruct (Z.ltb_spec (e - pa_offset s) n); [lia|done]. Qed.

(** What the index says of cell [f]. *)
Definition indexed (f off : Z) (it : bocSerializeItem) : Prop :=
  WithIndex opts = true -> cellEndAndCacheBit h f = Ok (off + size it, WithCacheBits opts && si_cache it).

Lemma cell_end_ok f off it data cache cells stored :
  indexed f off it -> 2 <= size it -> 0 <= off -> off + size it <= ds -> (WithCacheBits opts = true -> WithIndex opts = true) ->
  exists e, cell_end h f (mkParsing data off cache cells stored) =
    (Ok e, mkParsing data off (if WithCacheBits opts && si_cache it then setBOCIndexCacheBit cache f else cache) cells stored) /\
    off + size it <= e /\ (WithIndex opts = true -> e = off + size it).
Proof.
  intros Hix Hsz Hoff Hds Hci. unfold cell_end. mrun. cbn [hd_flags flags_of fl_hasIndex hd_dataLen]. destruct (WithIndex opts) eqn:Ei.
  - rewrite (Hix Ei). mrun. exists (off + size it). split; [|split; [lia|done]].
    destruct (WithCacheBits opts && si_cache it); mrun; cbn [pa_offset pa_data pa_cache pa_cells pa_stored];
      destruct (Z.ltb_spec (off + size it) off), (Z.ltb_spec ds (off + size it)), (Z.ltb_spec (off + size it - off) 2); lia || done.
  - exists ds. mrun. cbn [pa_offset]. destruct (Z.ltb_spec (ds - off) 2); [lia|]. destruct (WithCacheBits opts); [discriminate (Hci eq_refl)|]. split; [done|]. split; [lia|done].
Qed.

Lemma read_stored_ok f e it rest off cache cells stored :
  shape (si_cell it) -> off + LevelMask.getHashesCount (c_mask (si_cell it)) * 34 <= e -> off + LevelMask.getHashesCount (c_mask (si_cell it)) * 34 <= ds ->
  read_stored h f e (c_mask (si_cell it)) (mkParsing ((stored_hashes (si_cell it) ++ stored_depths (si_cell it)) ++ rest) off cache cells stored) =
  (Ok tt, mkParsing rest (off + LevelMask.getHashesCount (c_mask (si_cell it)) * 34) cache cells (stored ++ [mkStored f (stored_hashes (si_cell it)) (stored_depths (si_cell it))])).
Proof.
  intros H He Hd. destruct (len_level_lists _ H) as [H1 H2]. destruct (level_ok _ H) as [H3 _]. assert (E1 : len (stored_hashes (si_cell it)) = len (level_hashes (si_cell it)) * 32) by now apply len_hashes.
  assert (E2 : len (stored_depths (si_cell it)) = len (level_depths (si_cell it)) * 2) by apply len_depths. unfold read_stored. set (k := LevelMask.getHashesCount _) in *.
  replace (k * hashSize + k * depthSize) with (k * 34) by (unfold hashSize, depthSize; lia). rewrite (bind_Ok _ _ _ _ _ (check_left_ok _ _ _ (mkParsing _ _ _ _ _) He)).
  cbn [hd_dataLen]. rewrite (bind_Ok _ _ _ _ _ (read_payload_ok (stored_hashes (si_cell it) ++ stored_depths (si_cell it)) rest off cache cells stored (k * 34) ltac:(rewrite len_app; lia) Hd)).
  destruct (take_app_len (stored_hashes (si_cell it)) (stored_depths (si_cell it)) (k * hashSize)) as [-> ->]; [unfold hashSize; lia|]. done.
Qed.

Lemma item_pieces it :
  item_bytes opts count rs it = [first_byte (si_cell it) (shouldSerializeHashes opts it); snd (descriptors (si_cell it) (c_mask (si_cell it)))]
    ++ (if shouldSerializeHashes opts it then stored_hashes (si_cell it) ++ stored_depths (si_cell it) else [])
    ++ body (cbits_of (si_cell it)) ++ uints rs (file_id count <$> si_refs it).
Proof. unfold item_bytes, cell_head, first_byte. destruct (shouldSerializeHashes opts it); [now rewrite <-!app_assoc|done]. Qed.

(** The stored hashes, if the cell carries them. *)
Definition hashes_size (it : bocSerializeItem) : Z := if shouldSerializeHashes opts it then LevelMask.getHashesCount (c_mask (si_cell it)) * 34 else 0.

Lemma maybe_stored f e it rest off cache cells stored :
  shape (si_cell it) -> off + hashes_size it <= e -> off + hashes_size it <= ds ->
  (if shouldSerializeHashes opts it then read_stored h f e (c_mask (si_cell it)) else mret tt)
    (mkParsing ((if shouldSerializeHashes opts it then stored_hashes (si_cell it) ++ stored_depths (si_cell it) else []) ++ rest) off cache cells stored) =
  (Ok tt, mkParsing rest (off + hashes_size it) cache cells (stored ++ stored_of f it)).
Proof.
  unfold hashes_size, stored_of. intros H He Hd. destruct (shouldSerializeHashes opts it); [now apply read_stored_ok|]. rewrite Z.add_0_r, app_nil_r. done.
Qed.

Lemma size_split it : shape (si_cell it) -> size it = 2 + hashes_size it + (c_bitsSz (si_cell it) + 7) / 8 + len (si_refs it) * rs.
Proof.
  intros H. unfold item_size, serializedBOCSize, SerializedBOCBodySize, hashes_size, hashSize, depthSize. destruct (shouldSerializeHashes opts it); lia.
Qed.

(** The number of bits, from the descriptor and the closing bit. *)
Lemma bits_parsed c : shape c ->
  (if negb (snd (descriptors c (c_mask c)) mod 2 =? 0)
   then last ← index (body (cbits_of c)) (len (body (cbits_of c)) - 1);
        match cellBodyBitsSizeFromLast ((c_bitsSz c + 7) / 8) last with None => Err (ErrText "overlong cell bits encoding") | Some n => Ok n end
   else Ok ((c_bitsSz c + 7) / 8 * 8)) = Ok (c_bitsSz c).
Proof.
  intros H. destruct (sh_bits _ H) as [H0 H1]. pose proof (len_cbits c H0) as Hl. destruct (second_byte c H) as [_ E]. rewrite E. pose proof (len_body (cbits_of c)) as Hb. rewrite Hl in Hb.
  destruct (Z.eqb_spec (c_bitsSz c mod 8) 0) as [Em | Em]; cbn [negb]; [f_equal; lia|]. rewrite Bytes.index_ok by lia. cbn [mbind outcome_bind]. rewrite Hb.
  pose proof (bits_of_body (cbits_of c)) as Hbb. rewrite Hl in Hbb. now rewrite (Hbb H1 Em).
Qed.

Lemma parse_cell_ok f off it rest cache cells stored :
  shape (si_cell it) -> len (si_refs it) = len (c_refs (si_cell it)) -> Forall (fun r => f < file_id count r < count) (si_refs it) -> 0 <= f -> 0 <= off -> off + size it <= ds ->
  indexed f off it -> (WithCacheBits opts = true -> WithIndex opts = true) ->
  parse_cell h f (mkParsing (item_bytes opts count rs it ++ rest) off cache cells stored) =
  (Ok tt, mkParsing rest (off + size it) (cache_after f it cache) (cells ++ [raw_of it]) (stored ++ stored_of f it)).
Proof.
  intros H Hn Hr Hf H0 Hds Hix Hci. set (c := si_cell it) in *. pose proof (size_split it H) as Hsz. fold c in Hsz. pose proof (sh_bits _ H) as Hb. pose proof (len_cbits c (proj1 Hb)) as Hlc.
  pose proof (len_nonneg (si_refs it)) as Hlr. assert (Hh : 0 <= hashes_size it) by (unfold hashes_size; pose proof (hashes_count _ (sh_mask _ H)); fold c; destruct (shouldSerializeHashes opts it); lia).
  destruct (cell_end_ok f off it (item_bytes opts count rs it ++ rest) cache cells stored Hix ltac:(nia) H0 Hds Hci) as (e & Ee & He & Hei).
  unfold parse_cell. rewrite (bind_Ok _ _ _ _ _ Ee). cbn [hd_dataLen hd_cellNumSizeBytes hd_flags flags_of fl_hasIndex fl_hasCacheBits hd_cellsNum]. rewrite item_pieces, <-!app_assoc.
  set (cache1 := if WithCacheBits opts && si_cache it then setBOCIndexCacheBit cache f else cache). destruct (first_byte_parsed c (shouldSerializeHashes opts it) H) as (F1 & F2 & F3 & F4). destruct (second_byte c H) as [S1 S2]. cbn zeta in S1, S2.
  fold c. set (b1 := first_byte c _) in *. set (b2 := snd _) in *. rewrite (bind_Ok _ _ _ _ _ (read_payload_ok [b1; b2] _ off cache1 cells stored 2 eq_refl ltac:(nia))).
  change (index [b1; b2] 0) with (Ok b1). change (index [b1; b2] 1) with (Ok b2). mrun. rewrite F1, F2, F3, F4. pose proof (sh_refs _ H) as Hr4. destruct (Z.ltb_spec 4 (len (c_refs c))); [lia|]. cbn zeta. rewrite S1.
  set (off1 := off + 2) in *. pose proof (maybe_stored f e it (body (cbits_of c) ++ uints rs (file_id count <$> si_refs it) ++ rest) off1 cache1 cells stored H ltac:(unfold off1; nia) ltac:(unfold off1; nia)) as Em. fold c in Em.
  rewrite (bind_Ok _ _ _ _ _ Em). clear Em. set (st := stored ++ stored_of f it). set (off2 := off1 + hashes_size it) in *.
  rewrite (bind_Ok _ _ _ _ _ (check_left_ok e ((c_bitsSz c + 7) / 8) _ (mkParsing _ off2 cache1 cells st) ltac:(cbn [pa_offset]; unfold off2, off1; nia))).
  assert (Hlb : len (body (cbits_of c)) = (c_bitsSz c + 7) / 8) by (rewrite len_body, Hlc; done).
  rewrite (bind_Ok _ _ _ _ _ (read_payload_ok (body (cbits_of c)) _ off2 cache1 cells st ((c_bitsSz c + 7) / 8) (eq_sym Hlb) ltac:(unfold off2, off1; nia))). set (off3 := off2 + _) in *.
  rewrite (bind_Ok _ _ _ _ _ (check_left_ok e (len (c_refs c) * rs) _ (mkParsing _ off3 cache1 cells st) ltac:(cbn [pa_offset]; unfold off3, off2, off1; rewrite <-Hn; lia))).
  assert (Hlu : len (c_refs c) * rs = len (uints rs (file_id count <$> si_refs it))) by (rewrite len_uints by lia; unfold len in *; rewrite length_fmap; lia).
  rewrite (bind_Ok _ _ _ _ _ (read_payload_ok (uints rs (file_id count <$> si_refs it)) rest off3 cache1 cells st (len (c_refs c) * rs) Hlu ltac:(unfold off3, off2, off1; rewrite <-Hn; lia))).
  assert (Hids : ref_ids (Z.to_nat (len (c_refs c))) rs (uints rs (file_id count <$> si_refs it)) = file_id count <$> si_refs it).
  { rewrite <-(app_nil_r (uints _ _)). replace (Z.to_nat (len (c_refs c))) with (length (file_id count <$> si_refs it)) by (rewrite length_fmap; unfold len in *; lia). apply ref_ids_ok; [done|].
    apply Forall_fmap. eapply List.Forall_impl; [|exact Hr]. intros r Hrr. unfold compose. cbn beta in *. lia. }
  rewrite Hids, (check_refs_ok f count) by (done || now apply Forall_fmap). mrun. pose proof (bits_parsed c H) as Hbp. fold b2 in Hbp. rewrite Hbp. mrun.
  replace (off3 + len (c_refs c) * rs) with (off + size it) by (unfold off3, off2, off1; lia).
  assert (Eu : u16 (c_bitsSz c) = c_bitsSz c) by (unfold u16; apply Z.mod_small; lia). assert (El : Z.land (c_mask c) 7 = c_mask c) by (revert H; intros H; generalize (sh_mask _ H); generalize (c_mask c); apply masks; reflexivity).
  assert (Es : subrange (body (cbits_of c)) 0 ((c_bitsSz c + 7) / 8) = Ok (body (cbits_of c))) by (rewrite subrange_prefix by lia; rewrite <-Hlb; unfold len; now rewrite Nat2Z.id, firstn_all).
  unfold cache_after, cache1. destruct (WithCacheBits opts); cbn [andb]; mrun; rewrite Es; mrun; cbn [pa_offset pa_data pa_cache pa_cells pa_stored];
    (destruct (WithIndex opts && negb (off + size it =? e)) eqn:Ex; [apply andb_true_iff in Ex as [E1 E2]; rewrite (Hei E1), Z.eqb_refl in E2; discriminate|]); unfold put_state, raw_of; rewrite Eu, El; done.
Qed.

End cell.

(** * Reading back all cells of a bag *)

(** ** The index *)

(** Pieces of one size, one after the other. *)
Lemma pieces_at sz (vs : list (list Z)) f v : 0 <= sz -> Forall (fun v => len v = sz) vs -> vs !! f = Some v ->
  subrange (mjoin vs) (Z.of_nat f * sz) (Z.of_nat f * sz + sz) = Ok v.
Proof.
  intros Hs Hall Hv. pose proof Hall as Hv'. rewrite Forall_lookup in Hv'. specialize (Hv' _ _ Hv). rewrite <-(take_drop_middle _ _ _ Hv) at 1. rewrite join_app, join_cons.
  assert (Hsum : forall l : list (list Z), Forall (fun v => len v = sz) l -> len (mjoin l) = len l * sz) by (induction 1 as [|x l Hx _ IH]; [done|]; rewrite join_cons, len_app, len_cons, IH; lia).
  assert (Hl : len (mjoin (take f vs)) = Z.of_nat f * sz).
  { rewrite Hsum by now apply Forall_take. unfold len. rewrite length_take, Nat.min_l by (apply lookup_lt_Some in Hv; lia). done. }
  pose proof (len_nonneg (mjoin (drop (S f) vs))). rewrite subrange_ok by (rewrite ?len_app; nia). f_equal.
  destruct (take_app_len (mjoin (take f vs)) (v ++ mjoin (drop (S f) vs)) (Z.of_nat f * sz) (eq_sym Hl)) as [_ ->].
  apply (take_app_len v). lia.
Qed.

Lemma uints_at sz vs f v : 0 <= sz -> vs !! f = Some v -> subrange (uints sz vs) (Z.of_nat f * sz) (Z.of_nat f * sz + sz) = Ok (be_bytes (Z.to_nat sz) v).
Proof.
  intros Hs Hv. apply pieces_at; [done| |now rewrite list_lookup_fmap, Hv]. apply Forall_fmap, Forall_true. intros x. unfold compose. rewrite len_be_bytes. lia.
Qed.

Section loop.
  Context (opts : BOCSerializeOptions) (count rs os ds : Z) (ids : list Z) (items : list bocSerializeItem).
  Context (Hrs : 1 <= rs <= 4) (Hos : 1 <= os <= 7) (Hcount : 0 < count < 2 ^ (8 * rs)) (Hci : WithCacheBits opts = true -> WithIndex opts = true).
  Context (Hds : ds = sum_of (item_size opts rs) items) (Hsizes : Forall (fun it => 2 <= item_size opts rs it) items).
  Context (Hfit : ds < 2 ^ (8 * os)) (Hfit2 : WithCacheBits opts = true -> ds * 2 + 1 < 2 ^ (8 * os)).

Abbreviation h := (mkHeader (flags_of opts) rs os count ds ids (index_bytes opts rs os items)).
Abbreviation size := (item_size opts rs).

Lemma ends_at pre it suf offs : ends opts rs offs (pre ++ it :: suf) !! length pre = Some (offs + sum_of size pre + size it).
Proof using.
  clear. revert offs. induction pre as [|x pre IH]; intros offs; cbn [ends app length lookup list_lookup]; [unfold sum_of; cbn [foldr]; f_equal; lia|].
  change (ends opts rs (offs + size x) (pre ++ it :: suf) !! length pre = Some (offs + sum_of size (x :: pre) + size it)). rewrite IH. f_equal. unfold sum_of. cbn [foldr]. lia.
Qed.

Lemma sizes_nonneg l : Forall (fun it => 2 <= size it) l -> 0 <= sum_of size l.
Proof using. clear. unfold sum_of. induction 1; cbn [foldr]; lia. Qed.

Lemma index_entry pre it suf : items = pre ++ it :: suf -> indexed opts count rs os ds ids items (len pre) (sum_of size pre) it.
Proof using Hos Hci Hds Hsizes Hfit Hfit2 Hrs.
  intros Hit Hx. unfold cellEndAndCacheBit, rawEnd. cbn [hd_dataSizeBytes hd_index hd_flags flags_of fl_hasCacheBits]. unfold index_bytes. rewrite Hx.
  set (e := sum_of size pre + size it). pose proof Hsizes as Hs. rewrite Hit in Hs. apply Forall_app in Hs as [Hs1 Hs2]. apply Forall_cons in Hs2 as [Hs2 Hs3].
  assert (He : 0 <= e <= ds). { rewrite Hds, Hit, sum_of_app. pose proof (sizes_nonneg _ Hs1). pose proof (sizes_nonneg _ Hs3). unfold e, sum_of in *. cbn [foldr]. lia. }
  set (v := with_cache_bit opts e it). assert (Hv : zip_with (with_cache_bit opts) (ends opts rs 0 items) items !! length pre = Some v).
  { rewrite lookup_zip_with, Hit, ends_at. cbn [mbind option_bind]. rewrite lookup_app_r, Nat.sub_diag by lia. cbn. done. }
  unfold len. rewrite (uints_at os _ (length pre) v ltac:(lia) Hv). cbn [mbind outcome_bind].
  assert (Hvr : 0 <= v < 2 ^ (8 * os)) by (unfold v, with_cache_bit; destruct (WithCacheBits opts) eqn:Ec; [specialize (Hfit2 eq_refl); destruct (si_cache it); lia|lia]).
  rewrite dynInt_ok by (lia || rewrite Z2Nat.id by lia; done). unfold v, with_cache_bit. destruct (WithCacheBits opts); cbn [negb andb]; [|done].
  destruct (si_cache it).
  - rewrite Z.quot_div_nonneg by lia. replace ((e * 2 + 1) / 2) with e by lia. do 2 f_equal. replace (e * 2 + 1) with (1 + 2 * e) by lia. now rewrite Z.odd_add_mul_2.
  - rewrite Z.quot_div_nonneg by lia. replace ((e * 2 + 0) / 2) with e by lia. do 2 f_equal. replace (e * 2 + 0) with (0 + 2 * e) by lia. now rewrite Z.odd_add_mul_2.
Qed.

(** ** The loop *)

Fixpoint cache_all (f : Z) (its : list bocSerializeItem) (cache : list (Z * bool)) : list (Z * bool) :=
  match its with
  | [] => cache
  | it :: its => cache_all (f + 1) its (cache_after opts count f it cache)
  end.

Fixpoint stored_all (f : Z) (its : list bocSerializeItem) : list storedHashesDepths :=
  match its with
  | [] => []
  | it :: its => stored_of opts f it ++ stored_all (f + 1) its
  end.

(** An item at its place in the file. *)
Record sound (f : Z) (it : bocSerializeItem) : Prop := {
  so_shape : shape (si_cell it);
  so_refs : len (si_refs it) = len (c_refs (si_cell it));
  so_later : Forall (fun r => f < file_id count r < count) (si_refs it)
}.

Lemma parse_loop_ok suf pre rest cache cells stored :
  items = pre ++ suf -> (forall k it, items !! k = Some it -> sound (Z.of_nat k) it) ->
  parse_loop h (length suf) (len pre) (mkParsing (cells_bytes opts count rs suf ++ rest) (sum_of size pre) cache cells stored) =
  (Ok tt, mkParsing rest ds (cache_all (len pre) suf cache) (cells ++ (raw_of count <$> suf)) (stored ++ stored_all (len pre) suf)).
Proof using All.
  intros Hit Hso. revert pre cache cells stored Hit. induction suf as [|it suf IH]; intros pre cache cells stored Hit.
  { cbn. rewrite app_nil_r in Hit. rewrite !app_nil_r, Hds, Hit. done. }
  assert (Hat : items !! length pre = Some it) by (rewrite Hit, lookup_app_r, Nat.sub_diag by lia; done). destruct (Hso _ _ Hat) as [S1 S2 S3].
  pose proof Hsizes as Hs. rewrite Hit in Hs. apply Forall_app in Hs as [Hs1 Hs2]. apply Forall_cons in Hs2 as [Hs2 Hs3].
  cbn [parse_loop length]. unfold cells_bytes. rewrite fmap_cons, join_cons, <-app_assoc. fold (cells_bytes opts count rs suf).
  assert (Hle : sum_of size pre + size it <= ds) by (rewrite Hds, Hit, sum_of_app; pose proof (sizes_nonneg _ Hs3); unfold sum_of in *; cbn [foldr]; lia).
  rewrite (bind_Ok _ _ _ _ _ (parse_cell_ok opts count rs os ds ids items Hrs Hcount (len pre) (sum_of size pre) it _ cache cells stored S1 S2 S3 (len_nonneg pre) (sizes_nonneg _ Hs1) Hle (index_entry _ _ _ Hit) Hci)).
  specialize (IH (pre ++ [it]) (cache_after opts count (len pre) it cache) (cells ++ [raw_of count it]) (stored ++ stored_of opts (len pre) it) ltac:(rewrite <-app_assoc; done)).
  rewrite len_app, sum_of_snoc in IH. change (len [it]) with 1 in IH. cbn [cache_all stored_all fmap list_fmap]. rewrite IH. now rewrite <-!app_assoc.
Qed.

End loop.
