(* ===== verification/BocFinish.v ===== *)
(** * The cells a parser finishes

    The reference counts of the parser agree with the cache bits of the writer, and
    the cells it links and hashes, from the last to the first, are the cells written. *)

From S2P Require Import Prelude Bytes Sha256 CellModel Builder Finalize Slice CellHash BocSerialize BocParse BocSpec BocImport BocOrder BocWrite.
From S2P Require Import BocCells.
From stdpp Require Import list strings.
#[local] Open Scope Z_scope.

(** ** Cache bits *)

Section cache.
  Context (opts : BOCSerializeOptions) (count : Z) (items : list bocSerializeItem).

Definition flag_at (g : nat) : bool := match items !! g with Some it => si_cache it | None => false end.

(** [seen] are the references counted so far, [f] the cells whose bit was read. *)
Definition counted (seen : list Z) (f : nat) (cache : list (Z * bool)) : Prop :=
  length cache = length items /\ forall g, (g < length items)%nat -> cache !! g = Some (Z.min 2 (Z.of_nat (occ g seen)), (g <? f)%nat && flag_at g).

Lemma counted_inc seen f cache id : 0 <= id < len items -> counted seen f cache -> counted (seen ++ [id]) f (incBOCCacheRef cache id).
Proof.
  intros Hid [Hl Hc]. unfold incBOCCacheRef. split; [now rewrite length_alter|]. intros g Hg. rewrite occ_app. unfold occ at 2. cbn [count_occ].
  destruct (decide (g = Z.to_nat id)) as [-> | Hne].
  - rewrite list_lookup_alter_eq, (Hc _ Hg). cbn [fmap option_fmap option_map]. destruct (Z.eq_dec id (Z.of_nat (Z.to_nat id))); [|lia]. do 2 f_equal. destruct (Z.ltb_spec (Z.min 2 (Z.of_nat (occ (Z.to_nat id) seen))) 2); lia.
  - rewrite list_lookup_alter_ne by done. rewrite (Hc _ Hg). destruct (Z.eq_dec id (Z.of_nat g)); [lia|]. now rewrite Nat.add_0_r.
Qed.

Lemma counted_incs seen f cache ids : Forall (fun id => 0 <= id < len items) ids -> counted seen f cache -> counted (seen ++ ids) f (foldl incBOCCacheRef cache ids).
Proof.
  intros H. revert seen cache. induction H as [|id ids Hid _ IH]; intros seen cache Hc; cbn [foldl]; [now rewrite app_nil_r|].
  rewrite (app_assoc seen [id] ids : seen ++ id :: ids = _). apply IH. now apply counted_inc.
Qed.

Lemma counted_flag seen f cache it : items !! f = Some it -> counted seen f cache -> counted seen (S f) (if si_cache it then setBOCIndexCacheBit cache (Z.of_nat f) else cache).
Proof.
  intros Hit [Hl Hc]. pose proof (lookup_lt_Some _ _ _ Hit) as Hf. assert (Hfl : flag_at f = si_cache it) by (unfold flag_at; now rewrite Hit).
  assert (Hother : forall g, g <> f -> (g <? S f)%nat = (g <? f)%nat) by (intros g Hg; destruct (Nat.ltb_spec g (S f)), (Nat.ltb_spec g f); lia || done).
  assert (Hown : (f <? S f)%nat = true /\ (f <? f)%nat = false) by (split; [apply Nat.ltb_lt|apply Nat.ltb_ge]; lia). destruct Hown as [Ho1 Ho2].
  destruct (si_cache it) eqn:Ec; (split; [unfold setBOCIndexCacheBit; now rewrite ?length_alter|]; intros g Hg; destruct (decide (g = f)) as [-> | Hne]).
  - unfold setBOCIndexCacheBit. rewrite Nat2Z.id, list_lookup_alter_eq, (Hc _ Hg), Ho1, Hfl. done.
  - unfold setBOCIndexCacheBit. rewrite Nat2Z.id, list_lookup_alter_ne, (Hc _ Hg), Hother by done. done.
  - rewrite (Hc _ Hg), Ho1, Ho2, Hfl. done.
  - rewrite (Hc _ Hg), Hother by done. done.
Qed.

Definition file_refs (its : list bocSerializeItem) : list Z := mjoin ((fun it => file_id count <$> si_refs it) <$> its).

Lemma counted_all seen suf pre cache :
  WithCacheBits opts = true -> items = pre ++ suf -> Forall (fun it => Forall (fun r => 0 <= file_id count r < len items) (si_refs it)) suf ->
  counted seen (length pre) cache -> counted (seen ++ file_refs suf) (length items) (cache_all opts count (len pre) suf cache).
Proof.
  intros Hw Hit Hr. revert pre seen cache Hit. induction Hr as [|it suf Hr _ IH]; intros pre seen cache Hit Hc; cbn [cache_all].
  { unfold file_refs. cbn. rewrite app_nil_r in *. now rewrite Hit. }
  assert (Hat : items !! length pre = Some it) by (rewrite Hit, lookup_app_r, Nat.sub_diag by lia; done).
  unfold file_refs. rewrite fmap_cons, join_cons, app_assoc. fold (file_refs suf). replace (len pre + 1) with (len (pre ++ [it])) by now rewrite len_app.
  apply IH; [now rewrite <-app_assoc|]. rewrite length_app, Nat.add_1_r. unfold cache_after. rewrite Hw. apply counted_incs; [now apply Forall_fmap|]. exact (counted_flag _ _ _ _ Hat Hc).
Qed.

Lemma counted_start : counted [] 0 (replicate (length items) (0, false)).
Proof.
  split; [apply length_replicate|]. intros g Hg. rewrite lookup_replicate_2 by done. done.
Qed.

Lemma counted_check seen cache :
  counted seen (length items) cache -> (forall g it, items !! g = Some it -> si_cache it = (2 <=? occ g seen)%nat) ->
  existsb (fun '(n, bit) => negb (eqb (1 <? n) bit)) cache = false.
Proof.
  intros [Hl Hc] Hf. destruct (existsb _ cache) eqn:E; [|done]. exfalso. apply existsb_exists in E as ([n bit] & Hin & Hb). apply list_elem_of_In, list_elem_of_lookup_1 in Hin as [g Hg].
  pose proof (lookup_lt_Some _ _ _ Hg) as Hlt. rewrite Hl in Hlt. rewrite (Hc g Hlt) in Hg. injection Hg as <- <-. destruct (lookup_lt_is_Some_2 items g Hlt) as [it Hit].
  unfold flag_at in Hb. rewrite Hit, (Hf g it Hit), (proj2 (Nat.ltb_lt _ _) Hlt) in Hb. cbn [andb] in Hb.
  destruct (Nat.leb_spec 2 (occ g seen)), (Z.ltb_spec 1 (Z.min 2 (Z.of_nat (occ g seen)))); try lia; discriminate Hb.
Qed.

End cache.

(** References counted from the other end. *)
Lemma occ_file count i l : (Z.of_nat i < count) -> occ (Z.to_nat (count - 1 - Z.of_nat i)) (file_id count <$> l) = occ i l.
Proof.
  intros Hi. unfold occ. induction l as [|r l IH]; [done|]. cbn [fmap list_fmap count_occ]. change (list_fmap Z Z (file_id count) l) with (file_id count <$> l). rewrite IH. unfold file_id at 1.
  destruct (Z.eq_dec (count - 1 - r) (Z.of_nat (Z.to_nat (count - 1 - Z.of_nat i)))), (Z.eq_dec r (Z.of_nat i)); lia.
Qed.

(** ** Stored hashes *)

Section stored.
  Context (c : Cell) (Hsh : shape c) (f : Z).

Abbreviation st := (mkStored f (stored_hashes c) (stored_depths c)).

Lemma stored_hash_ok i v : level_hashes c !! i = Some v -> stored_hash st (Z.of_nat i) = Ok v.
Proof.
  intros Hi. unfold stored_hash. cbn [st_hashes]. apply (pieces_at 32); [lia| |done]. destruct (level_ok c Hsh) as [Hd _]. eapply List.Forall_impl; [|exact Hd]. now intros x [_ Hx].
Qed.

Lemma stored_depth_ok i v : level_depths c !! i = Some v -> stored_depth st (Z.of_nat i) = Ok v.
Proof.
  intros Hi. unfold stored_depth. cbn [st_depths]. pose proof (uints_at 2 (level_depths c) i v ltac:(lia) Hi) as E. unfold uints in E. change (Z.to_nat 2) with 2%nat in E. change (mjoin (be_bytes 2 <$> level_depths c)) with (stored_depths c) in E.
  unfold depthSize. rewrite E. cbn [mbind outcome_bind]. f_equal. destruct (level_ok c Hsh) as [_ Hd]. rewrite Forall_lookup in Hd. apply be_uint_be_bytes. exact (Hd _ _ Hi).
Qed.

Lemma stored_shape_ok : stored_shape (c_mask c) st = Ok tt.
Proof.
  destruct (len_level_lists c Hsh) as [H1 H2]. destruct (level_ok c Hsh) as [H3 _]. unfold stored_shape. cbn [st_hashes st_depths].
  assert (E1 : len (stored_hashes c) = len (level_hashes c) * 32) by now apply len_hashes. assert (E2 : len (stored_depths c) = len (level_depths c) * 2) by apply len_depths.
  unfold hashSize, depthSize. rewrite E1, E2, H1, H2, !Z.eqb_refl. done.
Qed.

(** Validation compares every level with the cell. *)
Lemma validate_stored c' : alike c c' -> validateStoredHashesDepths c' st = Ok tt.
Proof.
  intros Ha. unfold validateStoredHashesDepths. rewrite <-(al_mask _ _ Ha), stored_shape_ok. cbn [mbind outcome_bind]. unfold loop.
  match goal with |- context [foldl ?g _ _] => set (F := g) end.
  assert (H : forall suf pre b, levels_of (c_mask c) = pre ++ suf -> exists b', foldl F (Ok (len pre, b)) suf = Ok (len (levels_of (c_mask c)), b')).
  { induction suf as [|i suf IH]; intros pre b Hl; cbn [foldl]; [exists b; rewrite app_nil_r in Hl; now rewrite Hl|].
    assert (Hat : levels_of (c_mask c) !! length pre = Some i) by (rewrite Hl, lookup_app_r, Nat.sub_diag by lia; done). unfold F at 2. cbn [mbind outcome_bind].
    change (len pre) with (Z.of_nat (length pre)). rewrite (stored_hash_ok (length pre) (getHash c i)) by (unfold level_hashes; now rewrite list_lookup_fmap, Hat). cbn [mbind outcome_bind]. rewrite (getHash_alike _ _ i Ha), bool_decide_true by done. cbn [ensure mbind outcome_bind].
    rewrite (stored_depth_ok (length pre) (getDepth c i)) by (unfold level_depths; now rewrite list_lookup_fmap, Hat). cbn [mbind outcome_bind]. rewrite (getDepth_alike _ _ i Ha), Z.eqb_refl. cbn [ensure mbind outcome_bind].
    specialize (IH (pre ++ [i]) true ltac:(now rewrite <-app_assoc)). rewrite len_app in IH. exact IH. }
  destruct (H (levels_of (c_mask c)) [] true eq_refl) as [b E]. change (len (@nil Z)) with 0 in E. rewrite E. done.
Qed.

(** Trusted hashes are the hashes of the cell. *)
Lemma loop_stored n : (n <= length (level_hashes c))%nat ->
  loop (fun '(hs, ds) i => hash ← stored_hash st (Z.of_nat i); depth ← stored_depth st (Z.of_nat i); Ok (hs ++ [hash], ds ++ [depth])) (seq 0 n) ([], []) = Ok (take n (level_hashes c), take n (level_depths c)).
Proof.
  assert (El : length (level_depths c) = length (level_hashes c)) by (unfold level_hashes, level_depths; now rewrite !length_fmap).
  unfold loop. induction n as [|n IH]; intros Hn; [now rewrite !take_0|]. rewrite seq_S, foldl_app, IH by lia. cbn [foldl mbind outcome_bind]. rewrite Nat.add_0_l.
  destruct (lookup_lt_is_Some_2 (level_hashes c) n ltac:(lia)) as [x Hx]. destruct (lookup_lt_is_Some_2 (level_depths c) n ltac:(lia)) as [y Hy].
  rewrite (stored_hash_ok n x Hx), (stored_depth_ok n y Hy). cbn [mbind outcome_bind]. now rewrite (take_S_r _ _ _ Hx), (take_S_r _ _ _ Hy).
Qed.

Lemma last_level : computeType c = PrunedCellType -> let k := Z.to_nat (LevelMask.getHashesCount (c_mask c) - 1) in
  exists x y, c_hashes c = [x] /\ c_depths c = [y] /\ level_hashes c !! k = Some x /\ level_depths c !! k = Some y.
Proof.
  intros Ht k. destruct (shape_lists c Hsh) as (H1 & H2 & _ & _). rewrite decide_True in H1, H2 by done. destruct (pruned_size c Hsh Ht) as (Hm & _).
  destruct (c_hashes c) as [|x [|]] eqn:Eh; [unfold len in H1; cbn in H1; lia| |unfold len in H1; cbn in H1; lia]. destruct (c_depths c) as [|y [|]] eqn:Ed; [unfold len in H2; cbn in H2; lia| |unfold len in H2; cbn in H2; lia].
  exists x, y. split; [done|]. split; [done|]. pose proof (len_levels _ (sh_mask _ Hsh)) as Hl. pose proof (hashes_count _ (sh_mask _ Hsh)) as Hc. destruct (top_level _ (sh_mask _ Hsh)) as (i & Hi & Ha & _).
  assert (Hk : levels_of (c_mask c) !! k = Some i) by (rewrite last_lookup in Hi; rewrite <-Hi; f_equal; unfold k, len in *; lia).
  unfold level_hashes, level_depths. rewrite !list_lookup_fmap, Hk. cbn [fmap option_fmap option_map]. unfold getHash, getDepth, hashAt, depthAt. rewrite Ha. destruct (Z.eqb_spec (c_mask c) 0); [lia|].
  rewrite !decide_True by done. rewrite !Z.eqb_refl. cbn [negb]. rewrite Eh, Ed. done.
Qed.

Lemma apply_trusted c' : alike (with_hashes c [] []) c' -> applyTrustedStoredHashesDepths c' st = Ok (with_hashes c' (c_hashes c) (c_depths c)).
Proof.
  intros Ha. unfold applyTrustedStoredHashesDepths. rewrite <-(al_mask _ _ Ha), <-(computeType_alike _ _ Ha). cbn [with_hashes c_mask]. rewrite stored_shape_ok. cbn [mbind outcome_bind].
  change (computeType (with_hashes c [] [])) with (computeType c). destruct (len_level_lists c Hsh) as [H1 H2]. pose proof (hashes_count _ (sh_mask _ Hsh)) as Hc. destruct (decide (computeType c = PrunedCellType)) as [Ht | Ht].
  - destruct (last_level Ht) as (x & y & -> & -> & Hx & Hy). set (k := LevelMask.getHashesCount (c_mask c) - 1) in *. replace k with (Z.of_nat (Z.to_nat k)) by lia. now rewrite (stored_hash_ok _ _ Hx), (stored_depth_ok _ _ Hy).
  - destruct (plain_levels c Hsh Ht) as [<- <-]. rewrite loop_stored by (unfold len in H1; lia). cbn [mbind outcome_bind]. rewrite !take_ge by (unfold len in *; lia). done.
Qed.

End stored.

(** ** Linking and hashing *)

Section finish.
  Context (opts : BOCSerializeOptions) (popts : BOCParseOptions) (count : Z) (items : list bocSerializeItem).

(** An item over the items it refers to, which come later in the file. *)
Record joined (k : nat) (it : bocSerializeItem) : Prop := {
  jo_sealed : exists h, sealed h (si_cell it);
  jo_refs : Forall2 (fun r c => Z.of_nat k < file_id count r /\ (si_cell <$> items) !! Z.to_nat (file_id count r) = Some c) (si_refs it) (c_refs (si_cell it))
}.

Definition parsed (it : bocSerializeItem) : Cell := reparsed (si_cell it).
Definition unhashed (c : Cell) : Cell := mkCell (body (cbits_of c)) (c_bitsSz c) (c_special c) (c_mask c) (reparsed <$> c_refs c) [] [].

Lemma unhashed_alike c : shape c -> alike (with_hashes c [] []) (unhashed c).
Proof. intros H. pose proof (alike_reparsed c H) as Ha. rewrite reparsed_eq in Ha. destruct Ha as [H1 H2 H3 _ _ H6 H7 H8]. split; try done. Qed.

Lemma link_ok pre it suf : items = pre ++ it :: suf -> joined (length pre) it -> link_cell (raw_of count it) (len pre + 1) (parsed <$> suf) = Ok (unhashed (si_cell it)).
Proof.
  intros Hit [_ Hr]. unfold link_cell, raw_of, unhashed. cbn [rw_refs rw_data rw_bitsSz rw_special rw_mask]. set (c := si_cell it) in *.
  match goal with |- context [foldl ?g _ _] => set (F := g) end.
  assert (H : forall acc rs cs, Forall2 (fun r c => Z.of_nat (length pre) < file_id count r /\ (si_cell <$> items) !! Z.to_nat (file_id count r) = Some c) rs cs ->
    foldl F (Ok acc) (file_id count <$> rs) = Ok (acc ++ (reparsed <$> cs))).
  { intros acc rs cs Hf. revert acc. induction Hf as [|r c' rs cs [Hlt Hc] _ IH]; intros acc; [now rewrite app_nil_r|]. rewrite fmap_cons. cbn [foldl].
    assert (E : F (Ok acc) (file_id count r) = Ok (acc ++ [reparsed c'])).
    { unfold F. cbn [mbind outcome_bind]. destruct (Z.ltb_spec (file_id count r) (len pre + 1)); [unfold len in *; lia|].
      rewrite Hit, fmap_app, fmap_cons in Hc. rewrite lookup_app_r in Hc by (rewrite length_fmap; lia). rewrite length_fmap in Hc.
      replace (Z.to_nat (file_id count r) - length pre)%nat with (S (Z.to_nat (file_id count r - (len pre + 1)))) in Hc by (unfold len; lia).
      change ((si_cell <$> suf) !! Z.to_nat (file_id count r - (len pre + 1)) = Some c') in Hc. rewrite list_lookup_fmap in Hc |- *. destruct (suf !! Z.to_nat (file_id count r - (len pre + 1))) as [it' |]; [|done]. cbn in *. unfold parsed. congruence. }
    rewrite E, IH, fmap_cons, <-app_assoc. done. }
  rewrite (H [] _ _ Hr). cbn [app mbind outcome_bind]. done.
Qed.

Lemma finish_one it f st : shape (si_cell it) -> (exists h, sealed h (si_cell it)) ->
  st = None \/ st = Some (mkStored f (stored_hashes (si_cell it)) (stored_depths (si_cell it))) ->
  finalizeParsedCell popts (unhashed (si_cell it)) st = Ok (parsed it).
Proof.
  intros Hsh [h Hse] Hst. pose proof (rehash_reparsed h _ Hse) as Hc. pose proof (validate_reparsed h _ Hse) as Hv. unfold finalizeParsedCell.
  assert (E : (match st with
      | Some st => if TrustedHashes popts then applyTrustedStoredHashesDepths (unhashed (si_cell it)) st
                   else c ← calculateHashes (unhashed (si_cell it)); validateStoredHashesDepths c st ;; Ok c
      | None => calculateHashes (unhashed (si_cell it))
      end) = Ok (parsed it)).
  { destruct Hst as [-> | ->]; [exact Hc|]. destruct (TrustedHashes popts).
    - rewrite (apply_trusted _ Hsh f _ (unhashed_alike _ Hsh)). unfold parsed. now rewrite reparsed_eq.
    - unfold unhashed at 1. rewrite Hc. cbn [mbind outcome_bind]. rewrite (validate_stored _ Hsh f _ (alike_reparsed _ Hsh)). done. }
  rewrite E. cbn [mbind outcome_bind]. unfold parsed. now rewrite Hv.
Qed.

Lemma finalize_ok suf pre rest :
  items = pre ++ suf -> (forall k it, items !! k = Some it -> joined k it) -> Forall (fun st => st_cellIndex st < len pre) rest ->
  finalizeCells popts (rev (stored_all opts (len pre) suf) ++ rest) (len pre) (raw_of count <$> suf) = Ok (parsed <$> suf, rest).
Proof.
  intros Hit Hj. revert pre rest Hit. induction suf as [|it suf IH]; intros pre rest Hit Hrest; [done|].
  assert (Hat : items !! length pre = Some it) by (rewrite Hit, lookup_app_r, Nat.sub_diag by lia; done). pose proof (Hj _ _ Hat) as Hji. destruct (jo_sealed _ _ Hji) as [h Hse].
  rewrite fmap_cons. cbn [finalizeCells stored_all]. rewrite rev_app_distr, <-app_assoc.
  assert (Hpre : len (pre ++ [it]) = len pre + 1) by now rewrite len_app.
  specialize (IH (pre ++ [it]) (rev (stored_of opts (len pre) it) ++ rest) ltac:(now rewrite <-app_assoc)). rewrite Hpre in IH. rewrite IH.
  - cbn [mbind outcome_bind]. rewrite (link_ok pre it suf Hit Hji). pose proof (sealed_shape _ _ Hse) as Hsh. unfold stored_of. destruct (shouldSerializeHashes opts it); cbn [rev app].
    + cbn [st_cellIndex]. rewrite Z.eqb_refl. cbn [mbind outcome_bind]. rewrite (finish_one it (len pre) _ Hsh) by eauto. done.
    + destruct Hrest as [|st rest Hst Hrest]; cbn [mbind outcome_bind].
      * rewrite (finish_one it (len pre) None Hsh) by eauto. done.
      * destruct (Z.eqb_spec (st_cellIndex st) (len pre)); [lia|]. cbn [mbind outcome_bind]. rewrite (finish_one it (len pre) None Hsh) by eauto. done.
  - apply Forall_app. split; [|eapply List.Forall_impl; [|exact Hrest]; intros st Hst; cbn beta in *; lia]. apply Forall_rev. unfold stored_of. destruct (shouldSerializeHashes opts it); constructor; [cbn; lia|constructor].
Qed.

End finish.
