(* ===== verification/BocTheorems.v ===== *)
(** * Bags of cells survive the trip

    The serializer writes any bag of finished cells and the parser reads the same
    cells back, when the number of roots fits its field and the payload meets the
    parser's minimum; the second half says what happens otherwise. *)

From S2P Require Import Prelude Bytes Sha256 CellModel Builder Finalize Slice CellHash Checksums BocIndex BocIndexSpec BocSerialize BocParse BocSpec.
From S2P Require Import BocImport BocOrder BocWrite BocCells BocFinish.
From stdpp Require Import list strings.
#[local] Open Scope Z_scope.

(** ** Checksums have 32 bits *)

Lemma shiftr_small a n : 0 <= a < 2 ^ 32 -> 0 <= n -> 0 <= a ≫ n < 2 ^ 32.
Proof. intros Ha Hn. rewrite Z.shiftr_div_pow2 by done. assert (0 < 2 ^ n) by lia. split; [apply Z.div_pos; lia|]. apply Z.div_lt_upper_bound; nia. Qed.

Lemma lxor_small a b : 0 <= a < 2 ^ 32 -> 0 <= b < 2 ^ 32 -> 0 <= Z.lxor a b < 2 ^ 32.
Proof.
  intros Ha Hb. split; [apply Z.lxor_nonneg; lia|]. assert (E : Z.lxor a b mod 2 ^ 32 = Z.lxor a b); [|rewrite <-E; apply Z.mod_pos_bound; lia].
  apply Z.bits_inj'. intros k Hk. destruct (Z.ltb_spec k 32); [now rewrite Z.mod_pow2_bits_low|]. rewrite Z.mod_pow2_bits_high by lia. rewrite Z.lxor_spec.
  rewrite <-(Z.mod_small a (2 ^ 32)), <-(Z.mod_small b (2 ^ 32)) by lia. now rewrite !Z.mod_pow2_bits_high by lia.
Qed.

Lemma checksum_range p : 0 <= Crc32.Checksum p < 2 ^ 32.
Proof.
  unfold Crc32.Checksum, Crc32.Update, Crc32.flip. apply lxor_small; [|done].
  assert (Hentry : forall i, 0 <= i < 2 ^ 32 -> 0 <= Crc32.entry i < 2 ^ 32).
  { intros i. unfold Crc32.entry. generalize 8%nat. intros n Hi. induction n as [|n IH]; [done|]. cbn [Nat.iter nat_rect]. destruct (Z.odd _); [apply lxor_small; [now apply shiftr_small|done]|now apply shiftr_small]. }
  assert (H : forall crc, 0 <= crc < 2 ^ 32 -> 0 <= foldl Crc32.step crc p < 2 ^ 32); [|apply H; done]. clear - Hentry.
  induction p as [|b p IH]; intros crc Hc; [done|]. cbn [foldl]. apply IH. unfold Crc32.step. apply lxor_small; [|now apply shiftr_small]. apply Hentry.
  change 255 with (Z.ones 8). rewrite Z.land_ones by lia. lia.
Qed.

(** ** From the list to the file *)

Lemma rev_at {A} (l : list A) i x : l !! i = Some x <-> (i < length l)%nat /\ rev l !! (length l - S i)%nat = Some x.
Proof.
  rewrite rev_alt. change (rev_append l []) with (reverse l). split.
  - intros H. pose proof (lookup_lt_Some _ _ _ H). split; [done|]. rewrite reverse_lookup by lia. replace (length l - S (length l - S i))%nat with i by lia. done.
  - intros [Hi H]. rewrite reverse_lookup in H by lia. replace (length l - S (length l - S i))%nat with i in H by lia. done.
Qed.

Section file.
  Context (all roots : list Cell) (U : universe all) (s : bocSerializer) (ids : list Z) (P : prepared all roots s ids) (Hsealed : forall c, c ∈ all -> exists h, sealed h c).

Abbreviation l := (sz_list s).
Abbreviation items := (rev (sz_list s)).
Abbreviation count := (cellCount s).

Lemma file_lookup f it : items !! f = Some it -> exists i, l !! i = Some it /\ Z.of_nat f = count - 1 - Z.of_nat i /\ (i < length l)%nat.
Proof.
  intros Hf. pose proof (lookup_lt_Some _ _ _ Hf) as Hlt. rewrite length_rev in Hlt. exists (length l - S f)%nat. unfold cellCount, len. split_and!; [|lia..].
  apply rev_at. split; [lia|]. replace (length l - S (length l - S f))%nat with f by lia. done.
Qed.

Lemma file_cell r c : 0 <= r -> (si_cell <$> l) !! Z.to_nat r = Some c -> (si_cell <$> items) !! Z.to_nat (file_id count r) = Some c.
Proof.
  intros H0 Hc. rewrite list_lookup_fmap in Hc. destruct (l !! Z.to_nat r) as [it |] eqn:E; [|done]. injection Hc as <-. apply rev_at in E as [Hlt E]. rewrite list_lookup_fmap.
  unfold file_id, cellCount, len. replace (Z.to_nat (Z.of_nat (length l) - 1 - r)) with (length l - S (Z.to_nat r))%nat by lia. now rewrite E.
Qed.

Lemma file_sound f it : items !! f = Some it -> sound count (Z.of_nat f) it /\ joined count items f it.
Proof.
  intros Hf. destruct (file_lookup _ _ Hf) as (i & Hi & Ef & Hlt). pose proof (bg_links _ _ _ (pr_bag _ _ _ _ P) i it Hi) as Hl.
  pose proof (bg_cells _ _ _ (pr_bag _ _ _ _ P)) as Hc. rewrite Forall_fmap, Forall_lookup in Hc. specialize (Hc _ _ Hi). cbn in Hc. split; split.
  - now apply (un_shape _ U).
  - unfold len. now rewrite (Forall2_length _ _ _ Hl).
  - eapply List.Forall_impl; [|exact (links_in_range _ _ _ _ Hl)]. intros r Hr. unfold file_id. unfold cellCount, len in *. cbn beta in Hr. lia.
  - now apply Hsealed.
  - eapply Forall2_impl; [exact Hl|]. intros r c [Hr Hrc]. split; [unfold file_id; lia|]. apply file_cell; [lia|done].
Qed.

(** The cache bit of a cell says whether it is referred to twice in the file. *)
Lemma file_cache f it : items !! f = Some it -> si_cache it = (2 <=? occ f ((file_id count <$> ids) ++ file_refs count items))%nat.
Proof.
  intros Hf. destruct (file_lookup _ _ Hf) as (i & Hi & Ef & Hlt). rewrite (bg_cache _ _ _ (pr_bag _ _ _ _ P) i it Hi). f_equal. unfold uses. rewrite !occ_app.
  assert (Hj : forall its, file_refs count its = file_id count <$> mjoin (si_refs <$> its)).
  { intros its. unfold file_refs. induction its as [|x its IH]; [done|]. rewrite !fmap_cons, !join_cons, fmap_app, IH. done. }
  rewrite Hj. replace f with (Z.to_nat (count - 1 - Z.of_nat i)) by lia. assert (Hic : Z.of_nat i < count) by (unfold cellCount, len; lia). rewrite !occ_file by done.
  rewrite (occ_join_perm i (si_refs <$> items) (si_refs <$> l)) by (apply fmap_Permutation; symmetry; apply Permutation_rev). lia.
Qed.

Lemma file_ids_range : Forall (fun v => 0 <= v < count) (file_id count <$> ids).
Proof. apply Forall_fmap. eapply List.Forall_impl; [|exact (bg_pending _ _ _ (pr_bag _ _ _ _ P))]. intros r Hr. unfold compose, file_id. cbn beta in *. unfold cellCount. lia. Qed.

Lemma root_loop : loop (fun roots idx => match (parsed <$> items) !! Z.to_nat idx with Some c => Ok (roots ++ [c]) | None => Panic end) (file_id count <$> ids) [] = Ok (reparsed <$> roots).
Proof.
  pose proof (pr_roots _ _ _ _ P) as Hr. unfold loop. match goal with |- foldl ?g _ _ = _ => set (F := g) end.
  assert (H : forall acc, foldl F (Ok acc) (file_id count <$> ids) = Ok (acc ++ (reparsed <$> roots))); [|apply (H [])].
  clear P. induction Hr as [|r c ids' roots' [H0 Hc] _ IH]; intros acc; [now rewrite app_nil_r|]. rewrite !fmap_cons. cbn [foldl].
  assert (E : F (Ok acc) (file_id count r) = Ok (acc ++ [reparsed c])).
  { unfold F. cbn [mbind outcome_bind]. pose proof (file_cell r c H0 Hc) as Hf. rewrite list_lookup_fmap in Hf |- *. destruct (items !! Z.to_nat (file_id count r)) as [it |]; [|done]. cbn in *. unfold parsed. congruence. }
  rewrite E, IH, <-app_assoc. done.
Qed.

Context (opts : BOCSerializeOptions) (popts : BOCParseOptions) (Hroots : roots <> []) (Hci : WithCacheBits opts = true -> WithIndex opts = true).
Context (Hnum : len ids <= MaxBOCRoots) (Hlen : len ids < 2 ^ (8 * ref_size s)) (Hcells : count <= max_cells popts).
Context (Hmin : count * (2 + ref_size s) - ref_size s <= payload_size opts s).

Abbreviation rs := (ref_size s).
Abbreviation os := (offset_size opts s).
Abbreviation index_part := (index_bytes opts rs os items).
Abbreviation h := (mkHeader (flags_of opts) rs os count (payload_size opts s) (file_id count <$> ids) index_part).

Lemma ids_count : 0 < len ids.
Proof using P Hroots.
  pose proof (Forall2_length _ _ _ (pr_roots _ _ _ _ P)) as H. destruct roots as [|? ?] eqn:E; [done|]. cbn in H. unfold len. lia.
Qed.

Lemma header_read rest :
  read_header popts ((head_bytes opts count rs os (len ids) (payload_size opts s) ++ uints rs (file_id count <$> ids) ++ index_part) ++ rest) = (Ok h, rest).
Proof using U P Hroots Hci Hnum Hlen Hcells Hmin.
  pose proof (file_count _ _ U _ _ P Hroots) as Hc. destruct (file_ref_size _ _ U _ _ P Hroots) as [Hr1 Hr2]. destruct (file_offset_size _ _ U _ _ P opts Hroots) as (Ho1 & Ho2 & _).
  pose proof (file_payload _ _ U _ _ P opts Hroots) as Hp. apply read_header_ok; try done; [lia|split; [apply ids_count|done]| |apply file_ids_range|].
  - unfold len. now rewrite length_fmap.
  - unfold index_bytes. destruct (WithIndex opts); [|done]. rewrite len_uints by lia. f_equal. pose proof (len_ends opts rs 0 items) as El. unfold cellCount, len in *. rewrite length_zip_with, length_rev in *. lia.
Qed.

Lemma cache_agrees cache :
  cache = (if WithCacheBits opts then foldl incBOCCacheRef (replicate (length items) (0, false)) (file_id count <$> ids) else []) ->
  existsb (fun '(n, bit) => negb (eqb (1 <? n) bit)) (cache_all opts count 0 items cache) = false.
Proof using P Hsealed U Hci.
  intros ->. destruct (WithCacheBits opts) eqn:Ew.
  - assert (Hcount : len items = count) by (unfold cellCount, len; now rewrite length_rev). pose proof (counted_start items) as H0.
    apply (counted_incs items [] 0 _ (file_id count <$> ids)) in H0; [|rewrite Hcount; exact file_ids_range]. cbn [app] in H0.
    pose proof (fun c => counted_all opts count items (file_id count <$> ids) items [] c Ew eq_refl) as Ha. change (len (@nil bocSerializeItem)) with 0 in Ha.
    apply (counted_check items ((file_id count <$> ids) ++ file_refs count items)); [apply Ha; [|exact H0]|exact file_cache].
    apply Forall_lookup. intros f it Hf. destruct (file_sound f it Hf) as [[_ _ Hl] _]. eapply List.Forall_impl; [|exact Hl]. intros r Hr. cbn beta in *. rewrite Hcount. lia.
  - assert (H : forall its f, cache_all opts count f its [] = []) by (induction its as [|it its IH]; intros f; cbn [cache_all]; [done|]; unfold cache_after; rewrite Ew; apply IH). now rewrite H.
Qed.

Lemma cells_read rest : parseCells h popts (cells_bytes opts count rs items ++ rest) = (Ok (reparsed <$> roots), rest).
Proof using U P Hsealed Hroots Hci.
  pose proof (file_count _ _ U _ _ P Hroots) as Hc. destruct (file_ref_size _ _ U _ _ P Hroots) as [Hr1 Hr2]. destruct (file_offset_size _ _ U _ _ P opts Hroots) as (Ho1 & Ho2 & Ho3).
  assert (Hds : payload_size opts s = sum_of (item_size opts rs) items) by (unfold payload_size; apply sum_of_perm, Permutation_rev).
  assert (Hsz : Forall (fun it => 2 <= item_size opts rs it) items) by (apply Forall_rev; eapply List.Forall_impl; [|exact (file_item_bounds _ _ U _ _ P opts Hroots)]; intros it Hit; cbn beta in Hit; lia).
  unfold parseCells. mrun. cbn [hd_flags flags_of fl_hasCacheBits fl_hasIndex hd_cellsNum hd_rootsIndex hd_dataLen].
  replace (Z.to_nat count) with (length items) by (rewrite length_rev; unfold cellCount, len; lia). set (cache := if WithCacheBits opts then _ else []).
  pose proof (parse_loop_ok opts count rs os (payload_size opts s) (file_id count <$> ids) items Hr1 Ho1 ltac:(lia) Hci Hds Hsz Ho2 Ho3 items [] rest cache [] [] eq_refl (fun k it Hk => proj1 (file_sound k it Hk))) as El.
  change (len (@nil bocSerializeItem)) with 0 in El. change (sum_of (item_size opts rs) []) with 0 in El. cbn [app] in El.
  rewrite (run_Ok _ _ _ _ El). mrun. cbn [pa_data pa_offset pa_cache].
  assert (E1 : (if WithIndex opts then if payload_size opts s <? payload_size opts s then readDirect (payload_size opts s - payload_size opts s) ;; mret tt else mret tt
     else guard_err (negb (payload_size opts s =? payload_size opts s)) (ErrText "failed to parse cells payload, corrupted data")) rest = (Ok tt, rest)).
  { rewrite Z.ltb_irrefl, Z.eqb_refl. now destruct (WithIndex opts). }
  rewrite (bind_Ok _ _ _ _ _ E1). rewrite (cache_agrees cache eq_refl). mrun. unfold finalizeParsedCells. cbn [pa_stored pa_cells].
  pose proof (finalize_ok opts popts count items items [] [] eq_refl (fun k it Hk => proj2 (file_sound k it Hk)) (Forall_nil_2 _)) as Ef. change (len (@nil bocSerializeItem)) with 0 in Ef. rewrite app_nil_r in Ef. rewrite Ef. cbn [mbind outcome_bind]. rewrite root_loop. done.
Qed.

Lemma finish_ok bag tail crc :
  tail = (if crc : bool then le_bytes4 (Crc32.Checksum bag) else []) -> finishBOCRead (bag ++ tail) crc tail = (Ok tt, []).
Proof using.
  clear. intros ->. unfold finishBOCRead. destruct crc; [|reflexivity]. mrun. change (len (le_bytes4 (Crc32.Checksum bag))) with 4. cbn [Z.ltb Z.compare Pos.compare Pos.compare_cont].
  rewrite length_app, Nat.add_sub, take_app_length. unfold le_bytes4 at 1. rewrite take_ge by (rewrite length_rev, length_be_bytes; lia). rewrite rev_involutive.
  pose proof (checksum_range bag). rewrite be_uint_be_bytes by (cbn; lia). rewrite Z.eqb_refl. mrun. unfold le_bytes4. rewrite drop_ge by (rewrite length_rev, length_be_bytes; lia). done.
Qed.

Lemma file_read : (AllowNonZeroLevelRoot popts = true \/ Forall (fun c => LevelMask.GetLevel (c_mask c) = 0) roots) -> parseBOCMultiRoot (file_bytes opts s ids) popts = Ok (reparsed <$> roots).
Proof using All.
  intros Hlvl. unfold parseBOCMultiRoot, file_bytes. set (bag := bag_bytes _ _ _ _ _ _). set (tail := if WithCRC32C opts then le_bytes4 (Crc32.Checksum bag) else []).
  replace (if WithCRC32C opts then bag ++ le_bytes4 (Crc32.Checksum bag) else bag) with (bag ++ tail) by (unfold tail; destruct (WithCRC32C opts); [done|apply app_nil_r]).
  assert (Hds : sum_of (item_size opts rs) items = payload_size opts s) by (unfold payload_size; symmetry; apply sum_of_perm, Permutation_rev).
  assert (Hbag : bag ++ tail = (head_bytes opts count rs os (len ids) (payload_size opts s) ++ uints rs (file_id count <$> ids) ++ index_part) ++ cells_bytes opts count rs items ++ tail).
  { unfold bag, bag_bytes. rewrite Hds, <-!app_assoc. done. }
  rewrite (run_Ok _ _ (reparsed <$> roots) []); [done|]. pose proof (header_read (cells_bytes opts count rs items ++ tail)) as Hh. rewrite <-Hbag in Hh. rewrite (bind_Ok _ _ _ _ _ Hh), (bind_Ok _ _ _ _ _ (cells_read _)). cbn [hd_flags flags_of fl_HasCrc32c].
  rewrite (bind_Ok _ _ _ _ _ (finish_ok bag tail (WithCRC32C opts) eq_refl)). unfold validateBOCRootLevels. destruct Hlvl as [-> | Hlvl]; [done|]. destruct (AllowNonZeroLevelRoot popts); [done|].
  assert (E : forallb (fun root => LevelMask.GetLevel (c_mask root) =? 0) (reparsed <$> roots) = true).
  { clear - Hlvl. induction Hlvl as [|c roots Hc _ IH]; [done|]. rewrite fmap_cons. cbn [forallb]. rewrite IH, andb_true_r, reparsed_eq. cbn [c_mask]. now apply Z.eqb_eq. }
  rewrite E. done.
Qed.

End file.

(** ** The payload is long enough *)

Lemma sum_submseteq {A} (g : A -> Z) l1 l2 : (forall a, 0 <= g a) -> l1 ⊆+ l2 -> sum_of g l1 <= sum_of g l2.
Proof. intros Hg H. unfold sum_of. induction H as [|x l1 l2 _ IH|x y l|x l1 l2 _ IH|l1 l2 l3 _ IH1 _ IH2]; cbn [foldr]; try lia. pose proof (Hg x). lia. Qed.

Lemma uses_bound n (refs : list Z) : (forall k, (k < n)%nat -> (1 <= occ k refs)%nat) -> (n <= length refs)%nat.
Proof.
  intros H. assert (Hs : Z.of_nat <$> seq 0 n ⊆+ refs).
  { apply NoDup_submseteq; [apply NoDup_fmap_2; [intros a b; lia|apply NoDup_seq]|]. intros x (k & -> & Hk%elem_of_seq)%list_elem_of_fmap. specialize (H k ltac:(lia)). unfold occ in H. now apply list_elem_of_In, (count_occ_In Z.eq_dec). }
  apply submseteq_length in Hs. now rewrite length_fmap, length_seq in Hs.
Qed.

Definition body_size (c : Cell) : Z := Z.max 0 (SerializedBOCBodySize c).

Lemma payload_enough all roots s ids opts :
  universe all -> prepared all roots s ids -> roots <> [] -> NoDup roots -> len roots = 1 \/ Forall (fun c => 25 <= c_bitsSz c) roots ->
  cellCount s * (2 + ref_size s) - ref_size s <= payload_size opts s.
Proof.
  intros U P Hne Hnd Hr. pose proof (file_count _ _ U _ _ P Hne) as Hc. destruct (file_ref_size _ _ U _ _ P Hne) as [Hr1 _]. set (l := sz_list s). set (rs := ref_size s) in *.
  assert (Hlow : 2 * cellCount s + sum_of body_size (si_cell <$> l) + sum_of ref_count l * rs <= payload_size opts s).
  { unfold payload_size, cellCount. fold l rs. clear Hr Hnd. pose proof (file_items _ _ U _ _ P) as Hf. fold l in Hf. induction Hf as [|it l' [Hs _] _ IH]; [done|]. rewrite len_cons, fmap_cons. unfold sum_of in *. cbn [foldr].
    pose proof (sh_bits _ Hs). pose proof (hashes_count _ (sh_mask _ Hs)). unfold item_size at 1, serializedBOCSize, body_size at 1, SerializedBOCBodySize, ref_count at 1, hashSize, depthSize. destruct (shouldSerializeHashes opts it); lia. }
  assert (Hrefs : cellCount s <= sum_of ref_count l + len ids).
  { pose proof (uses_bound (length l) _ (bg_used _ _ _ (pr_bag _ _ _ _ P))) as Hu. rewrite length_app in Hu. unfold cellCount, len. fold l in Hu |- *.
    assert (E : Z.of_nat (length (mjoin (si_refs <$> l))) = sum_of ref_count l); [|lia]. clear. induction l as [|it l IH]; [done|]. rewrite fmap_cons, join_cons, length_app. unfold sum_of in *. cbn [foldr]. unfold ref_count at 1, len. lia. }
  assert (Hids : len ids = len roots) by (unfold len; now rewrite (Forall2_length _ _ _ (pr_roots _ _ _ _ P))). destruct Hr as [H1 | Hbig].
  - pose proof (sum_submseteq body_size [] (si_cell <$> l) ltac:(intros; unfold body_size; lia) (submseteq_nil_l _)) as H0. unfold sum_of at 1 in H0. cbn in H0. nia.
  - assert (Hsub : roots ⊆+ si_cell <$> l).
    { apply NoDup_submseteq; [done|]. intros c [k Hk]%list_elem_of_lookup_1. destruct (Forall2_lookup_r _ _ _ _ _ (pr_roots _ _ _ _ P) Hk) as (r & _ & _ & Hc'). exact (list_elem_of_lookup_2 _ _ _ Hc'). }
    pose proof (sum_submseteq body_size _ _ ltac:(intros; unfold body_size; lia) Hsub) as Hb.
    assert (H4 : 4 * len roots <= sum_of body_size roots). { clear - Hbig. unfold sum_of. induction Hbig as [|c roots Hc _ IH]; [done|]. rewrite len_cons. cbn [foldr]. unfold body_size at 1, SerializedBOCBodySize. lia. }
    pose proof (len_nonneg roots). nia.
Qed.

Lemma roots_fit all roots s ids : universe all -> prepared all roots s ids -> roots <> [] -> NoDup roots -> len ids < 2 ^ (8 * ref_size s).
Proof.
  intros U P Hne Hnd. destruct (file_ref_size _ _ U _ _ P Hne) as [_ Hlt]. eapply Z.le_lt_trans; [|exact Hlt].
  assert (Hsub : roots ⊆+ si_cell <$> sz_list s).
  { apply NoDup_submseteq; [done|]. intros c [k Hk]%list_elem_of_lookup_1. destruct (Forall2_lookup_r _ _ _ _ _ (pr_roots _ _ _ _ P) Hk) as (r & _ & _ & Hc'). exact (list_elem_of_lookup_2 _ _ _ Hc'). }
  apply submseteq_length in Hsub. rewrite length_fmap in Hsub. unfold cellCount, len. rewrite (Forall2_length _ _ _ (pr_roots _ _ _ _ P)). lia.
Qed.

(** ** The round trip *)

Lemma universe_sealed all c h : universe all -> c ∈ all -> (height c <= h)%nat -> sealed h c.
Proof.
  intros U. revert c. induction h as [|h IH]; intros c Hc Hh; [rewrite height_eq in Hh; lia|]. split; [now apply (un_shape _ U)|]. apply Forall_forall. intros r Hr.
  apply IH; [now apply (un_closed _ U c)|]. pose proof (height_ref c r Hr). lia.
Qed.

(** Options the serializer honours: cache bits need the index, and hashes at roots
    come with hashes at inner cells. *)
Definition consistent (opts : BOCSerializeOptions) : Prop :=
  (WithCacheBits opts = true -> WithIndex opts = true) /\ (WithTopHash opts = true -> WithIntHashes opts = true).

Definition root_levels (popts : BOCParseOptions) (roots : list Cell) : Prop :=
  AllowNonZeroLevelRoot popts = true \/ Forall (fun c => LevelMask.GetLevel (c_mask c) = 0) roots.

(** The parser wants a payload of two bytes for every cell and a reference to every
    cell but one. *)
Definition too_short (opts : BOCSerializeOptions) (s : bocSerializer) : bool := payload_size opts s <? cellCount s * (2 + ref_size s) - ref_size s.

(** A payload with less than the references the parser expects is rejected. *)
Lemma short_payload opts popts count rs os ds nroots rest :
  1 <= rs <= 4 -> 1 <= os <= 7 -> 0 < count < 2 ^ (8 * rs) -> 0 < nroots < 2 ^ (8 * rs) -> nroots <= MaxBOCRoots -> count <= max_cells popts -> 0 <= ds < 2 ^ (8 * os) -> ds < count * (2 + rs) - rs ->
  exists s, read_header popts (head_bytes opts count rs os nroots ds ++ rest) = (Err (ErrText "invalid boc cells data size"), s).
Proof.
  intros Hrs Hos Hc Hn Hm Hcells Hds Hmin. unfold read_header, head_bytes.
  replace (bocMagic ++ _) with ((bocMagic ++ [flags_byte opts rs] ++ [os]) ++ be_bytes (Z.to_nat rs) count ++ be_bytes (Z.to_nat rs) nroots ++ be_bytes (Z.to_nat rs) 0 ++ be_bytes (Z.to_nat os) ds) by now rewrite <-!app_assoc.
  rewrite <-!app_assoc, (app_assoc bocMagic), (app_assoc (bocMagic ++ _)), <-(app_assoc bocMagic). rewrite (bind_Ok _ _ _ _ _ (read_format_ok opts rs os Hrs Hos _)). cbn beta iota. unfold read_counters. mrun.
  rewrite (bind_Ok _ _ _ _ _ (readDynInt_ok rs count ltac:(lia) ltac:(lia) _)). mrun. rewrite (bind_Ok _ _ _ _ _ (readDynInt_ok rs nroots ltac:(lia) ltac:(lia) _)). mrun.
  destruct (Z.leb_spec count 0), (Z.leb_spec nroots 0); try lia. cbn [orb andb]. mrun. destruct (Z.ltb_spec 0 (max_cells popts)), (Z.ltb_spec (max_cells popts) count), (Z.ltb_spec MaxBOCRoots nroots); try lia. cbn [andb]. rewrite andb_false_r. mrun.
  rewrite (bind_Ok _ _ _ _ _ (readDynInt_ok rs 0 ltac:(lia) ltac:(lia) _)). mrun. destruct (Z.ltb_spec 0 0), (Z.ltb_spec count 0); try lia. cbn [orb]. mrun.
  rewrite (bind_Ok _ _ _ _ _ (readDynInt_ok os ds ltac:(lia) ltac:(lia) _)). mrun. destruct (Z.ltb_spec 0 count), (Z.ltb_spec ds (count * (2 + rs) - rs)); try lia. cbn [andb]. eexists. reflexivity.
Qed.

Lemma roots_prepared all pool roots hint :
  universe all -> pooled pool -> roots <> [] -> Forall (fun c => c ∈ all /\ Z.of_nat (height c) <= maxDepth + 1) roots ->
  exists s ids, prepare pool roots hint = Ok (s, ids) /\ prepared all roots s ids.
Proof.
  intros U Hpool Hne Hroots. apply (prepare_ok all pool roots hint U Hpool Hne). eapply List.Forall_impl; [|exact Hroots].
  intros c [Hc Hh]. split; [|done]. apply (universe_sealed all); [done..|]. cbn beta in Hh. lia.
Qed.

Lemma to_boc_prepared pool roots opts s ids :
  roots <> [] -> prepare pool roots (CellsCountHint opts) = Ok (s, ids) ->
  ToBOCWithOptionsErr pool roots opts = match serialize s ids opts with Err _ => Err (ErrText "failed to serialize boc") | r => r end.
Proof. intros Hne Ep. unfold ToBOCWithOptionsErr. destruct (Z.eqb_spec (len roots) 0) as [E |]; [destruct roots; [done|unfold len in E; cbn in E; lia]|]. now rewrite Ep. Qed.

Lemma len_ids all roots s ids : prepared all roots s ids -> len ids = len roots.
Proof. intros P. unfold len. now rewrite (Forall2_length _ _ _ (pr_roots _ _ _ _ P)). Qed.

Lemma ids_given all roots s ids : prepared all roots s ids -> roots <> [] -> ids <> [].
Proof. intros P Hne ->. pose proof (ids_count _ _ _ _ P Hne) as H. by vm_compute in H. Qed.

(** Consistent options: the serializer writes the bytes of the format. *)
Lemma written all pool roots opts s ids :
  universe all -> prepared all roots s ids -> roots <> [] -> len roots < 2 ^ 32 -> consistent opts -> prepare pool roots (CellsCountHint opts) = Ok (s, ids) ->
  ToBOCWithOptionsErr pool roots opts = Ok (file_bytes opts s ids).
Proof.
  intros U P Hne Hlen [Hci Htop] Ep. rewrite (to_boc_prepared _ _ _ _ _ Hne Ep), (serialize_ok all roots U s ids P opts Hne Htop Hci); [done|exact (ids_given _ _ _ _ P Hne)|].
  now rewrite (len_ids _ _ _ _ P).
Qed.

Lemma file_head opts s ids : exists rest,
  file_bytes opts s ids = head_bytes opts (cellCount s) (ref_size s) (offset_size opts s) (len ids) (payload_size opts s) ++ rest.
Proof.
  unfold file_bytes, bag_bytes. rewrite (sum_of_perm _ (rev (sz_list s)) (sz_list s)) by (symmetry; apply Permutation_rev). fold (payload_size opts s).
  destruct (WithCRC32C opts); rewrite <-?app_assoc; eexists; reflexivity.
Qed.

Lemma from_file opts popts s ids : FromBOCMultiRootWithOptions (file_bytes opts s ids) popts = parseBOCMultiRoot (file_bytes opts s ids) popts.
Proof.
  unfold FromBOCMultiRootWithOptions. destruct (Z.eqb_spec (len (file_bytes opts s ids)) 0) as [E |]; [|done]. exfalso. destruct (file_head opts s ids) as [rest E']. rewrite E', len_app in E.
  unfold head_bytes in E. rewrite len_app in E. change (len bocMagic) with 4 in E. pose proof (len_nonneg rest). match type of E with 4 + len ?l + _ = 0 => pose proof (len_nonneg l) end. lia.
Qed.

Lemma bag_limit all roots s ids : prepared all roots s ids -> cellCount s <= len all.
Proof.
  intros P. pose proof (pr_bag _ _ _ _ P) as Hb. assert (Hsub : si_cell <$> sz_list s ⊆+ all) by (apply NoDup_submseteq; [apply Hb|apply Forall_forall, Hb]).
  apply submseteq_length in Hsub. rewrite length_fmap in Hsub. unfold cellCount, len. lia.
Qed.

(** What the parser makes of the bytes when the number of roots fits its field. *)
Lemma file_parsed all roots s ids opts popts :
  universe all -> prepared all roots s ids -> roots <> [] -> len all <= max_cells popts -> len roots <= MaxBOCRoots -> root_levels popts roots -> (WithCacheBits opts = true -> WithIndex opts = true) ->
  len roots < 2 ^ (8 * ref_size s) ->
  parseBOCMultiRoot (file_bytes opts s ids) popts = if too_short opts s then Err (ErrText "invalid boc cells data size") else Ok (reparsed <$> roots).
Proof.
  intros U P Hne Hmax Hnum Hlvl Hci Hfit. pose proof (bag_limit _ _ _ _ P). pose proof (len_ids _ _ _ _ P) as El. pose proof (ids_count _ _ _ _ P Hne). unfold too_short. destruct (Z.ltb_spec (payload_size opts s) (cellCount s * (2 + ref_size s) - ref_size s)).
  - pose proof (file_count _ _ U _ _ P Hne). destruct (file_ref_size _ _ U _ _ P Hne) as [Hr1 Hr2]. destruct (file_offset_size _ _ U _ _ P opts Hne) as (Ho1 & Ho2 & _). pose proof (file_payload _ _ U _ _ P opts Hne).
    destruct (file_head opts s ids) as [rest E]. unfold parseBOCMultiRoot. rewrite E at 1.
    destruct (short_payload opts popts (cellCount s) (ref_size s) (offset_size opts s) (payload_size opts s) (len ids) rest) as [s' E']; try lia.
    rewrite (run_Err _ _ (ErrText "invalid boc cells data size") s'); [done|]. now rewrite (bind_Err _ _ _ _ _ E').
  - apply (file_read all roots U s ids P (fun c Hc => ex_intro _ (height c) (universe_sealed all c (height c) U Hc (le_n _))) opts popts Hne Hci); try done; lia.
Qed.

(** C1: Take any roots from a set of at most [max_cells] finished cells that is closed
    under references and has distinct hashes, not deeper than the limit, at most 16384
    of them, of level zero unless other levels are allowed.  Under every consistent set
    of options and whatever the pooled index held, serializing them succeeds.  When the
    number of roots fits the field the format gives it, parsing the bytes, whether
    stored hashes are trusted or recomputed, returns the roots in order with the same
    bits, references and hashes, unless the payload is shorter than the parser's
    minimum, which it then reports.  Distinct roots always fit, and one root, or roots
    of at least 25 bits each, always meet the minimum. *)
Theorem boc_roundtrip all pool roots opts popts :
  universe all -> pooled pool -> roots <> [] ->
  Forall (fun c => c ∈ all /\ Z.of_nat (height c) <= maxDepth + 1) roots ->
  len all <= max_cells popts -> len roots <= MaxBOCRoots -> root_levels popts roots -> consistent opts ->
  exists s ids bytes, prepare pool roots (CellsCountHint opts) = Ok (s, ids) /\ ToBOCWithOptionsErr pool roots opts = Ok bytes /\
    (len roots < 2 ^ (8 * ref_size s) ->
     FromBOCMultiRootWithOptions bytes popts = if too_short opts s then Err (ErrText "invalid boc cells data size") else Ok (reparsed <$> roots)) /\
    (NoDup roots -> len roots = 1 \/ Forall (fun c => 25 <= c_bitsSz c) roots -> FromBOCMultiRootWithOptions bytes popts = Ok (reparsed <$> roots)) /\
    HashKey <$> (reparsed <$> roots) = HashKey <$> roots /\
    (forall c, roots = [c] -> FromBOCWithOptions bytes popts = Ok (reparsed c)).
Proof.
  intros U Hpool Hne Hroots Hmax Hnum Hlvl Hcon. destruct (roots_prepared all pool roots (CellsCountHint opts) U Hpool Hne Hroots) as (s & ids & Ep & P).
  pose proof (file_parsed all roots s ids opts popts U P Hne Hmax Hnum Hlvl (proj1 Hcon)) as Hfrom. rewrite <-from_file in Hfrom.
  assert (Hdist : NoDup roots -> len roots = 1 \/ Forall (fun c => 25 <= c_bitsSz c) roots -> FromBOCMultiRootWithOptions (file_bytes opts s ids) popts = Ok (reparsed <$> roots)).
  { intros Hnd H25. rewrite Hfrom by (rewrite <-(len_ids _ _ _ _ P); exact (roots_fit _ _ _ _ U P Hne Hnd)). pose proof (payload_enough all roots s ids opts U P Hne Hnd H25). unfold too_short. now rewrite (proj2 (Z.ltb_ge _ _)). }
  exists s, ids, (file_bytes opts s ids). split_and!; [done| |done|done| |].
  - apply (written all); try done. unfold MaxBOCRoots in Hnum. lia.
  - rewrite <-list_fmap_compose. apply list_fmap_ext. intros i c Hc. cbn. apply HashKey_reparsed. rewrite Forall_lookup in Hroots. apply (un_shape _ U), (Hroots _ _ Hc).
  - intros c ->. unfold FromBOCWithOptions. rewrite Hdist; [done|apply NoDup_singleton|now left].
Qed.

(** A leaf, and a cell that refers to it twice. *)
Definition sample_leaf : Cell := finished (uint_bits 12 171) [].
Definition sample_root : Cell := finished (uint_bits 1 1) [sample_leaf; sample_leaf].
Definition sample_cells : list Cell := [sample_leaf; sample_root].
Definition sample_options : BOCSerializeOptions := mkOptions true true true true true 0.

Ltac check_shape := split; [vm_compute; split; discriminate|left; vm_compute; reflexivity|vm_compute; discriminate|vm_compute; split; discriminate|vm_compute; reflexivity|vm_compute; reflexivity].

Lemma sample_leaf_shape : shape sample_leaf.
Proof. check_shape. Qed.

Lemma sample_root_shape : shape sample_root.
Proof. check_shape. Qed.

Lemma sample_universe : universe sample_cells.
Proof.
  assert (Hin : forall c, c ∈ sample_cells -> c = sample_leaf \/ c = sample_root) by (intros c [-> | [-> | Hc%not_elem_of_nil]%elem_of_cons]%elem_of_cons; [left; reflexivity|right; reflexivity|destruct Hc]).
  split.
  - intros c r [-> | ->]%Hin Hr; [change (c_refs sample_leaf) with (@nil Cell) in Hr; apply not_elem_of_nil in Hr; destruct Hr|]. change (c_refs sample_root) with [sample_leaf; sample_leaf] in Hr. apply elem_of_cons in Hr as [-> | [-> | Hr%not_elem_of_nil]%elem_of_cons]; [left|left|destruct Hr].
  - intros c c' [-> | ->]%Hin [-> | ->]%Hin H; [reflexivity|exfalso; vm_compute in H; discriminate H|exfalso; vm_compute in H; discriminate H|reflexivity].
  - intros c [-> | ->]%Hin; [apply sample_leaf_shape|apply sample_root_shape].
  - vm_compute. discriminate.
Qed.

Lemma boc_roundtrip_witness :
  exists s ids bytes, prepare HashIndex.no_index [sample_root] (CellsCountHint sample_options) = Ok (s, ids) /\ ToBOCWithOptionsErr HashIndex.no_index [sample_root] sample_options = Ok bytes /\
    (len [sample_root] < 2 ^ (8 * ref_size s) ->
     FromBOCMultiRootWithOptions bytes (mkParseOptions false 0 false) = if too_short sample_options s then Err (ErrText "invalid boc cells data size") else Ok (reparsed <$> [sample_root])) /\
    (NoDup [sample_root] -> len [sample_root] = 1 \/ Forall (fun c => 25 <= c_bitsSz c) [sample_root] -> FromBOCMultiRootWithOptions bytes (mkParseOptions false 0 false) = Ok (reparsed <$> [sample_root])) /\
    HashKey <$> (reparsed <$> [sample_root]) = HashKey <$> [sample_root] /\
    (forall c, [sample_root] = [c] -> FromBOCWithOptions bytes (mkParseOptions false 0 false) = Ok (reparsed c)).
Proof.
  apply (boc_roundtrip sample_cells HashIndex.no_index [sample_root] sample_options (mkParseOptions false 0 false)); [apply sample_universe|now left|discriminate| |vm_compute; discriminate|vm_compute; discriminate| |split; reflexivity].
  - constructor; [|constructor]. split; [right; left|vm_compute; discriminate].
  - right. constructor; [reflexivity|constructor].
Defined.

(** * Where bags of cells do not survive

    Inputs the conditions of the round trip leave out, with what the code does on
    them. *)

(** ** Hashes at the roots only *)

(** C39: with hashes stored at roots but not at inner cells, serializing overruns its
    buffer, which panics, exactly when one of the roots has weight zero after the
    weights are assigned: the size leaves the hashes of that root out while the writer
    stores them. *)
Theorem top_hash_overrun all pool roots opts :
  universe all -> pooled pool -> roots <> [] -> Forall (fun c => c ∈ all /\ Z.of_nat (height c) <= maxDepth + 1) roots -> len roots < 2 ^ 32 ->
  WithTopHash opts = true -> WithIntHashes opts = false -> (WithCacheBits opts = true -> WithIndex opts = true) ->
  exists s ids, prepare pool roots (CellsCountHint opts) = Ok (s, ids) /\
    (ToBOCWithOptionsErr pool roots opts = Panic <-> Exists (fun it => si_root it = true /\ si_wt it = 0) (sz_list s)).
Proof.
  intros U Hpool Hne Hroots Hlen Htop Hint Hci. destruct (roots_prepared all pool roots (CellsCountHint opts) U Hpool Hne Hroots) as (s & ids & Ep & P).
  exists s, ids. split; [exact Ep|]. rewrite (to_boc_prepared _ _ _ _ _ Hne Ep).
  rewrite <-(serialize_overrun all roots U s ids P opts Hne Htop Hint Hci (ids_given _ _ _ _ P Hne)) by (now rewrite (len_ids _ _ _ _ P)).
  destruct (serialize s ids opts); done.
Qed.

Definition fourfold (c : Cell) : Cell := finished [] [c; c; c; c].
Definition lone_leaf : Cell := finished [] [].
Definition tower : list Cell := [lone_leaf; fourfold lone_leaf; fourfold (fourfold lone_leaf); fourfold (fourfold (fourfold lone_leaf))].
Definition tower_roots : list Cell := [fourfold (fourfold (fourfold lone_leaf)); fourfold (fourfold lone_leaf)].
Definition top_only : BOCSerializeOptions := mkOptions false false false true false 0.

Lemma tower_shapes : Forall shape tower.
Proof. do 4 (apply Forall_cons_2; [check_shape|]). apply Forall_nil_2. Qed.

Lemma tower_hashes : NoDup (HashKey <$> tower).
Proof. apply (bool_decide_unpack _). vm_compute. reflexivity. Qed.

Lemma tower_universe : universe tower.
Proof.
  split.
  - assert (H : Forall (fun c => Forall (fun r => r ∈ tower) (c_refs c)) tower).
    { assert (F : forall c, c ∈ tower -> Forall (fun r => r ∈ tower) [c; c; c; c]) by (intros c Hc; do 4 (apply Forall_cons_2; [exact Hc|]); apply Forall_nil_2).
      apply Forall_cons_2; [apply Forall_nil_2|]. apply Forall_cons_2; [apply (F lone_leaf); left|]. apply Forall_cons_2; [apply (F (fourfold lone_leaf)); right; left|].
      apply Forall_cons_2; [apply (F (fourfold (fourfold lone_leaf))); right; right; left|apply Forall_nil_2]. }
    intros c r Hc Hr. rewrite Forall_forall in H. specialize (H c Hc). rewrite Forall_forall in H. exact (H r Hr).
  - intros c c' [i Hi]%list_elem_of_lookup_1 [j Hj]%list_elem_of_lookup_1 E. assert (Hij : i = j); [|subst j; congruence].
    eapply NoDup_lookup; [exact tower_hashes|rewrite list_lookup_fmap, Hi; reflexivity|rewrite list_lookup_fmap, Hj; cbn [fmap option_fmap option_map]; now rewrite E].
  - intros c Hc. exact (proj1 (Forall_forall _ _) tower_shapes c Hc).
  - vm_compute. discriminate.
Qed.

Lemma top_hash_overrun_witness :
  exists s ids, prepare HashIndex.no_index tower_roots (CellsCountHint top_only) = Ok (s, ids) /\
    (ToBOCWithOptionsErr HashIndex.no_index tower_roots top_only = Panic <-> Exists (fun it => si_root it = true /\ si_wt it = 0) (sz_list s)).
Proof.
  apply (top_hash_overrun tower HashIndex.no_index tower_roots top_only); [apply tower_universe|now left|discriminate| |vm_compute; reflexivity|reflexivity|reflexivity|discriminate].
  constructor; [|constructor; [|constructor]]; (split; [|vm_compute; discriminate]); [do 3 right; left|do 2 right; left].
Defined.

(** The root below the other one has weight zero. *)
Example tower_overruns : ToBOCWithOptionsErr HashIndex.no_index tower_roots top_only = Panic.
Proof. vm_compute. reflexivity. Qed.

(** ** Many roots *)

Lemma be_bytes_mod n v : be_bytes n v = be_bytes n (v mod 2 ^ (8 * Z.of_nat n)).
Proof.
  apply list_eq_same_length with n; [by rewrite length_be_bytes..|]. intros i x y Hi. unfold be_bytes. rewrite !list_lookup_fmap, lookup_seq_lt by done. intros [= <-] [= <-].
  unfold u8. apply Z.bits_inj'. intros k Hk. destruct (Z.ltb_spec k 8); [|now rewrite !Z.mod_pow2_bits_high by lia]. rewrite !Z.mod_pow2_bits_low, !Z.shiftr_spec by lia. rewrite Z.mod_pow2_bits_low by lia. done.
Qed.

Lemma read_roots_len n sz count st l st' : read_roots n sz count st = (Ok l, st') -> length l = n.
Proof.
  revert st l. induction n as [|n IH]; intros st l; cbn [read_roots]; [by intros [= <- <-]|]. intros (r & st1 & _ & H)%bind_inv_Ok. apply bind_inv_Ok in H as (? & st2 & _ & H).
  apply bind_inv_Ok in H as (l' & st3 & E & [= <- <-]). cbn [length]. f_equal. eapply IH, E.
Qed.

Lemma roots_len (cells : list Cell) idx acc l :
  foldl (fun acc i => roots ← acc; match cells !! Z.to_nat i with Some c => Ok (roots ++ [c]) | None => Panic end) (Ok acc) idx = Ok l -> length l = (length acc + length idx)%nat.
Proof.
  revert acc. induction idx as [|i idx IH]; intros acc; cbn [foldl]; [intros [= <-]; cbn; lia|]. cbn [mbind outcome_bind]. destruct (cells !! Z.to_nat i) as [c |].
  - intros ->%IH. rewrite length_app. cbn. lia.
  - intros E. exfalso. clear - E. induction idx as [|j idx IH]; [done|]. apply IH, E.
Qed.

Lemma parsed_roots_len h popts st cells st' : parseCells h popts st = (Ok cells, st') -> length cells = length (hd_rootsIndex h).
Proof.
  unfold parseCells. intros H. apply bind_inv_Ok in H as (? & ? & _ & H). apply bind_inv_Ok in H as ([_ p] & ? & _ & H). do 3 apply bind_inv_Ok in H as (? & ? & _ & H).
  unfold lift, finalizeParsedCells in H. injection H as H _. destruct (finalizeCells _ _ _ _) as [[cs ?]|?|]; [|done..]. exact (roots_len cs _ [] _ H).
Qed.

Section roots_field.
  Context (opts : BOCSerializeOptions) (popts : BOCParseOptions) (count rs os n ds : Z) (rest : list Z).
  Context (Hrs : 1 <= rs <= 4) (Hos : 1 <= os <= 7) (Hc : 0 < count < 2 ^ (8 * rs)).

Abbreviation bytes := (head_bytes opts count rs os n ds ++ rest).
Abbreviation field_value := (n mod 2 ^ (8 * rs)).

Lemma field_read : exists tail, read_header popts bytes = ('(cellsNum, rootsNum, dataLen) ← read_counters popts false rs os;
    guard_err (fl_hasCacheBits (flags_of opts) && negb (fl_hasIndex (flags_of opts))) (ErrText "cache flag cant be set without index flag") ;;
    rootsIndex ← read_roots (Z.to_nat rootsNum) rs cellsNum;
    idxData ← (if fl_hasIndex (flags_of opts) then readDirect (cellsNum * os) else mret []);
    guard_err (dataLen / 2 <? cellsNum) (ErrText "cells num looks malicious") ;;
    mret (mkHeader (flags_of opts) rs os cellsNum dataLen rootsIndex idxData)) (be_bytes (Z.to_nat rs) count ++ be_bytes (Z.to_nat rs) field_value ++ tail).
Proof using Hrs Hos.
  unfold head_bytes. eexists (be_bytes (Z.to_nat rs) 0 ++ be_bytes (Z.to_nat os) ds ++ rest). replace (bocMagic ++ _) with ((bocMagic ++ [flags_byte opts rs] ++ [os]) ++ be_bytes (Z.to_nat rs) count ++ be_bytes (Z.to_nat rs) n ++ be_bytes (Z.to_nat rs) 0 ++ be_bytes (Z.to_nat os) ds) by now rewrite <-!app_assoc.
  rewrite <-(app_assoc (bocMagic ++ _)). unfold read_header. rewrite (bind_Ok _ _ _ _ _ (read_format_ok opts rs os Hrs Hos _)). cbn beta iota. rewrite (be_bytes_mod (Z.to_nat rs) n), Z2Nat.id, <-!app_assoc by lia. done.
Qed.

Abbreviation counters tail := (be_bytes (Z.to_nat rs) count ++ be_bytes (Z.to_nat rs) field_value ++ tail).

Lemma field_zero tail : field_value = 0 -> read_counters popts false rs os (counters tail) = (Err (ErrText "invalid boc counters"), tail).
Proof using Hrs Hc.
  intros E. rewrite E. unfold read_counters. rewrite (bind_Ok _ _ _ _ _ (readDynInt_ok rs count ltac:(lia) ltac:(lia) _)), (bind_Ok _ _ _ _ _ (readDynInt_ok rs 0 ltac:(lia) ltac:(lia) _)), bind_guard.
  now rewrite orb_true_r.
Qed.

Lemma field_value_read tail c r d st : read_counters popts false rs os (counters tail) = (Ok (c, r, d), st) -> r = field_value.
Proof using Hrs Hc.
  pose proof (Z.mod_pos_bound n (2 ^ (8 * rs)) ltac:(lia)) as Hf. unfold read_counters. rewrite (bind_Ok _ _ _ _ _ (readDynInt_ok rs count ltac:(lia) ltac:(lia) _)), (bind_Ok _ _ _ _ _ (readDynInt_ok rs field_value ltac:(lia) ltac:(lia) _)). intros H.
  repeat (lazymatch type of H with mret _ _ = _ => fail | _ => apply bind_inv_Ok in H as (? & ? & _ & H) end). now injection H as -> -> -> ->.
Qed.

Lemma field_decides :
  (field_value = 0 -> parseBOCMultiRoot bytes popts = Err (ErrText "invalid boc counters")) /\
  (forall cells, parseBOCMultiRoot bytes popts = Ok cells -> len cells = field_value).
Proof using Hrs Hos Hc.
  destruct field_read as [tail E]. split.
  - intros E0. rewrite (bind_Err _ _ _ _ _ (field_zero tail E0)) in E. unfold parseBOCMultiRoot. rewrite (run_Err _ _ (ErrText "invalid boc counters") tail); [done|]. now rewrite (bind_Err _ _ _ _ _ E).
  - intros cells. unfold parseBOCMultiRoot. set (m := h ← read_header popts; _). destruct (m bytes) as [[cells' | ? |] ?] eqn:Em; unfold run; rewrite Em; try done. intros [= <-]. unfold m in Em. apply bind_inv_Ok in Em as (h & st & Eh & Em). rewrite E in Eh.
    apply bind_inv_Ok in Eh as ([[c r] d] & st1 & Er%field_value_read & Eh). apply bind_inv_Ok in Eh as (_ & st2 & _ & Eh). apply bind_inv_Ok in Eh as (idx & st3 & Ei%read_roots_len & Eh).
    apply bind_inv_Ok in Eh as (ix & st4 & _ & Eh). apply bind_inv_Ok in Eh as (_ & st5 & _ & [= <- <-]).
    apply bind_inv_Ok in Em as (cells & st6 & Ec & Em). do 2 apply bind_inv_Ok in Em as (_ & ? & _ & Em). injection Em as <- <-.
    pose proof (Z.mod_pos_bound n (2 ^ (8 * rs)) ltac:(lia)) as Hf. unfold len. rewrite (parsed_roots_len _ _ _ _ _ Ec). cbn [hd_rootsIndex]. lia.
Qed.

End roots_field.

(** C40: the number of roots is written in as many bytes as the number of cells takes.
    Whatever the roots, the bytes the serializer produces are either rejected or read as
    a bag with that many roots modulo the range of the field, and rejected for their
    counters when that is zero; with fewer than 256 cells and 256 roots or more, the
    parser never returns as many roots as were written. *)
Theorem root_count_truncated all pool roots opts popts :
  universe all -> pooled pool -> roots <> [] -> Forall (fun c => c ∈ all /\ Z.of_nat (height c) <= maxDepth + 1) roots -> len roots < 2 ^ 32 -> consistent opts ->
  exists s ids bytes, prepare pool roots (CellsCountHint opts) = Ok (s, ids) /\ ToBOCWithOptionsErr pool roots opts = Ok bytes /\
    (len roots mod 2 ^ (8 * ref_size s) = 0 -> FromBOCMultiRootWithOptions bytes popts = Err (ErrText "invalid boc counters")) /\
    (forall cells, FromBOCMultiRootWithOptions bytes popts = Ok cells ->
       len cells = len roots mod 2 ^ (8 * ref_size s) /\ (len all < 256 -> 256 <= len roots -> len cells < len roots)).
Proof.
  intros U Hpool Hne Hroots Hlen Hcon. destruct (roots_prepared all pool roots (CellsCountHint opts) U Hpool Hne Hroots) as (s & ids & Ep & P).
  pose proof (file_count _ _ U _ _ P Hne) as Hc. destruct (file_ref_size _ _ U _ _ P Hne) as [Hr1 Hr2]. destruct (file_offset_size _ _ U _ _ P opts Hne) as (Ho1 & _).
  exists s, ids, (file_bytes opts s ids). split; [exact Ep|]. split; [now apply (written all)|]. rewrite from_file. destruct (file_head opts s ids) as [rest ->]. rewrite <-(len_ids _ _ _ _ P).
  destruct (field_decides opts popts (cellCount s) (ref_size s) (offset_size opts s) (len ids) (payload_size opts s) rest Hr1 Ho1 ltac:(lia)) as [Hz Hn]. split; [exact Hz|].
  intros cells E%Hn. split; [exact E|]. intros Hall Hmany. rewrite E. pose proof (bag_limit _ _ _ _ P) as Hb.
  assert (E1 : ref_size s = 1) by (pose proof (byte_size_range (cellCount s) 1 ltac:(cbn; lia) ltac:(lia)); unfold ref_size in *; lia). rewrite E1. change (2 ^ (8 * 1)) with 256. pose proof (Z.mod_pos_bound (len ids) 256 ltac:(lia)). lia.
Qed.

Definition bare : BOCSerializeOptions := mkOptions false false false false false 0.
Definition strict : BOCParseOptions := mkParseOptions false 0 false.

Lemma root_count_truncated_witness :
  exists s ids bytes, prepare HashIndex.no_index (replicate 256 lone_leaf) (CellsCountHint bare) = Ok (s, ids) /\ ToBOCWithOptionsErr HashIndex.no_index (replicate 256 lone_leaf) bare = Ok bytes /\
    (len (replicate 256 lone_leaf) mod 2 ^ (8 * ref_size s) = 0 -> FromBOCMultiRootWithOptions bytes strict = Err (ErrText "invalid boc counters")) /\
    (forall cells, FromBOCMultiRootWithOptions bytes strict = Ok cells ->
       len cells = len (replicate 256 lone_leaf) mod 2 ^ (8 * ref_size s) /\ (len tower < 256 -> 256 <= len (replicate 256 lone_leaf) -> len cells < len (replicate 256 lone_leaf))).
Proof.
  apply (root_count_truncated tower HashIndex.no_index (replicate 256 lone_leaf) bare strict); [apply tower_universe|now left|discriminate| |vm_compute; reflexivity|split; discriminate].
  apply Forall_replicate. split; [left|vm_compute; discriminate].
Defined.

(** ** Many small roots *)

Definition small_leaf (c : Cell) : Prop := c_refs c = [] /\ c_bitsSz c <= 8.

(** Two-byte references, and no cell that is referred to. *)
Lemma small_roots_payload all roots s ids :
  universe all -> prepared all roots s ids -> Forall small_leaf all -> 256 <= len roots -> NoDup roots -> payload_size bare s < cellCount s * (2 + ref_size s) - ref_size s.
Proof.
  intros U P Hsm Hlen Hnd. assert (Hne : roots <> []) by (intros ->; unfold len in Hlen; cbn in Hlen; lia). pose proof (file_count _ _ U _ _ P Hne) as Hc. destruct (file_ref_size _ _ U _ _ P Hne) as [Hr1 Hr2].
  assert (H256 : 256 <= cellCount s).
  { assert (Hsub : roots ⊆+ si_cell <$> sz_list s).
    { apply NoDup_submseteq; [done|]. intros c [k Hk]%list_elem_of_lookup_1. destruct (Forall2_lookup_r _ _ _ _ _ (pr_roots _ _ _ _ P) Hk) as (r & _ & _ & Hc'). exact (list_elem_of_lookup_2 _ _ _ Hc'). }
    apply submseteq_length in Hsub. rewrite length_fmap in Hsub. unfold cellCount, len in *. lia. }
  assert (Hrs : 2 <= ref_size s). { destruct (Z.eq_dec (ref_size s) 1) as [E |]; [|lia]. rewrite E in Hr2. change (2 ^ (8 * 1)) with 256 in Hr2. lia. }
  assert (Hp : payload_size bare s <= 3 * cellCount s).
  { unfold payload_size. apply (sum_of_bound _ _ 0 3). apply Forall_lookup. intros k it Hk. pose proof (file_item_bounds _ _ U _ _ P bare Hne) as Hb. rewrite Forall_lookup in Hb. specialize (Hb _ _ Hk). cbn beta in Hb. split; [lia|].
    pose proof (bg_cells _ _ _ (pr_bag _ _ _ _ P)) as Hcl. rewrite Forall_fmap, Forall_lookup in Hcl. pose proof (Hcl _ _ Hk) as Hin. rewrite Forall_forall in Hsm. destruct (Hsm _ Hin) as [Hnr H8].
    pose proof (Forall2_length _ _ _ (bg_links _ _ _ (pr_bag _ _ _ _ P) k it Hk)) as El. rewrite Hnr in El. unfold item_size, shouldSerializeHashes, serializedBOCSize, SerializedBOCBodySize. cbn [bare WithIntHashes WithTopHash andb]. rewrite andb_false_r. cbn [orb]. unfold len. rewrite El. cbn. pose proof (sh_bits _ (un_shape _ U _ Hin)). lia. }
  nia.
Qed.

(** 256 roots or more of at most a byte each, without references, are serialized, and
    the parser rejects the result: it wants every cell but one to be referred to. *)
Theorem many_roots_rejected pool roots popts :
  universe roots -> pooled pool -> Forall small_leaf roots -> NoDup roots -> 256 <= len roots <= MaxBOCRoots -> len roots <= max_cells popts -> root_levels popts roots ->
  exists bytes, ToBOCWithOptionsErr pool roots bare = Ok bytes /\ FromBOCMultiRootWithOptions bytes popts = Err (ErrText "invalid boc cells data size").
Proof.
  intros U Hpool Hsm Hnd Hlen Hmax Hlvl. assert (Hne : roots <> []) by (intros ->; unfold len in Hlen; cbn in Hlen; lia).
  assert (Hs : Forall (fun c => c ∈ roots /\ Z.of_nat (height c) <= maxDepth + 1) roots).
  { apply Forall_forall. intros c Hc. split; [done|]. rewrite Forall_forall in Hsm. destruct (Hsm c Hc) as [Hr _]. rewrite height_eq, Hr. vm_compute. discriminate. }
  destruct (roots_prepared roots pool roots (CellsCountHint bare) U Hpool Hne Hs) as (s & ids & Ep & P). exists (file_bytes bare s ids). split; [apply (written roots); try done; unfold MaxBOCRoots in Hlen; lia|].
  rewrite from_file, (file_parsed roots roots); try done; [|lia|rewrite <-(len_ids _ _ _ _ P); exact (roots_fit _ _ _ _ U P Hne Hnd)].
  unfold too_short. now rewrite (proj2 (Z.ltb_lt _ _) (small_roots_payload _ _ _ _ U P Hsm ltac:(lia) Hnd)).
Qed.
