(* ===== verification/Address.v ===== *)
(** * Addresses and the text encodings they use

    A Go string is its list of bytes.  What the addresses use of [encoding/base64],
    [encoding/hex], [strconv] and [strings], with the round trips of each. *)

From S2P Require Import Prelude Bytes Checksums.
From stdpp Require Import strings.
#[local] Open Scope Z_scope.

(** The bytes of a string literal. *)
Fixpoint bytes_of (s : string) : list Z :=
  match s with
  | EmptyString => []
  | String c s => Z.of_N (Ascii.N_of_ascii c) :: bytes_of s
  end.

(** ** Base64 without padding

    An encoding is its two last letters; the other 62 are common. *)

Record Encoding : Type := mkEncoding { e_62 : Z; e_63 : Z }.

Definition RawURLEncoding : Encoding := mkEncoding 45 95.
Definition RawStdEncoding : Encoding := mkEncoding 43 47.

Definition letter (e : Encoding) (v : Z) : Z :=
  if v <? 26 then 65 + v else if v <? 52 then 71 + v else if v <? 62 then v - 4
  else if v =? 62 then e_62 e else e_63 e.

Definition letter_value (e : Encoding) (c : Z) : option Z :=
  if (65 <=? c) && (c <=? 90) then Some (c - 65)
  else if (97 <=? c) && (c <=? 122) then Some (c - 71)
  else if (48 <=? c) && (c <=? 57) then Some (c + 4)
  else if c =? e_62 e then Some 62
  else if c =? e_63 e then Some 63
  else None.

(** Three bytes are four groups of six bits. *)
Fixpoint to_sextets (l : list Z) : list Z :=
  match l with
  | x :: y :: z :: l => [x / 4; x mod 4 * 16 + y / 16; y mod 16 * 4 + z / 64; z mod 64] ++ to_sextets l
  | [x; y] => [x / 4; x mod 4 * 16 + y / 16; y mod 16 * 4]
  | [x] => [x / 4; x mod 4 * 16]
  | [] => []
  end.

Fixpoint of_sextets (l : list Z) : outcome (list Z) :=
  match l with
  | a :: b :: c :: d :: l => r ← of_sextets l; Ok ([a * 4 + b / 16; b mod 16 * 16 + c / 4; c mod 4 * 64 + d] ++ r)
  | [a; b; c] => Ok [a * 4 + b / 16; b mod 16 * 16 + c / 4]
  | [a; b] => Ok [a * 4 + b / 16]
  | [a] => Err (ErrText "illegal base64 data")
  | [] => Ok []
  end.

Definition is_newline (c : Z) : bool := (c =? 10) || (c =? 13).

Definition base64_encode (e : Encoding) (l : list Z) : list Z := letter e <$> to_sextets l.

(** Decoding skips line breaks. *)
Definition base64_decode (e : Encoding) (s : list Z) : outcome (list Z) :=
  match mapM (letter_value e) (filter (fun c => is_newline c = false) s) with
  | Some vs => of_sextets vs
  | None => Err (ErrText "illegal base64 data")
  end.

(** ** Hexadecimal *)

Definition hex_digit (v : Z) : Z := if v <? 10 then 48 + v else 87 + v.
Definition hex_value (c : Z) : option Z :=
  if (48 <=? c) && (c <=? 57) then Some (c - 48)
  else if (97 <=? c) && (c <=? 102) then Some (c - 87)
  else if (65 <=? c) && (c <=? 70) then Some (c - 55)
  else None.

Definition hex_encode (l : list Z) : list Z := x ← l; [hex_digit (x / 16); hex_digit (x mod 16)].

Fixpoint hex_decode (s : list Z) : outcome (list Z) :=
  match s with
  | [] => Ok []
  | [c] => Err (ErrText "odd length or invalid hex digit")
  | c :: d :: s =>
      match hex_value c, hex_value d with
      | Some x, Some y => r ← hex_decode s; Ok ((x * 16 + y) :: r)
      | _, _ => Err (ErrText "odd length or invalid hex digit")
      end
  end.

(** ** Decimal numbers *)

(** The digits of [n], which has at most [fuel] of them. *)
Fixpoint digits (fuel : nat) (n : Z) (acc : list Z) : list Z :=
  match fuel with
  | O => acc
  | S fuel => let acc := (48 + n mod 10) :: acc in if n <? 10 then acc else digits fuel (n / 10) acc
  end.

(** [strconv.Itoa] of a 64-bit [int], of at most nineteen digits. *)
Definition Itoa (n : Z) : list Z := if n <? 0 then 45 :: digits 19 (- n) [] else digits 19 n [].

Fixpoint parse_digits (maxVal n : Z) (s : list Z) : outcome Z :=
  match s with
  | [] => Ok n
  | c :: s =>
      if (48 <=? c) && (c <=? 57) then
        let n := n * 10 + (c - 48) in
        if maxVal <? n then Err (ErrText "value out of range") else parse_digits maxVal n s
      else Err (ErrText "invalid syntax")
  end.

(** [strconv.ParseInt] in base ten. *)
Definition ParseInt (s : list Z) (bitSize : Z) : outcome Z :=
  let neg := bool_decide (head s = Some 45) in
  let s := if neg || bool_decide (head s = Some 43) then tail s else s in
  match s with
  | [] => Err (ErrText "invalid syntax")
  | _ =>
      un ← parse_digits (2 ^ bitSize - 1) 0 s;
      let cutoff := 2 ^ (bitSize - 1) in
      if negb neg && (cutoff <=? un) then Err (ErrText "value out of range")
      else if neg && (cutoff <? un) then Err (ErrText "value out of range")
      else Ok (if neg then - un else un)
  end.

(** ** Splitting *)

(** [strings.SplitN s sep 2]: the text before and after the first separator. *)
Fixpoint split_first (sep : Z) (s : list Z) : option (list Z * list Z) :=
  match s with
  | [] => None
  | c :: s => if c =? sep then Some ([], s) else '(a, b) ← split_first sep s; Some (c :: a, b)
  end.

(** ** Letters *)

Definition sextet (v : Z) : Prop := 0 <= v < 64.

(** The two encodings in use: their last letters are no other letters, nor line breaks. *)
Definition encoding_ok (e : Encoding) : Prop := e = RawURLEncoding \/ e = RawStdEncoding.

Lemma letter_value_letter e v : encoding_ok e -> sextet v -> letter_value e (letter e v) = Some v.
Proof.
  intros He Hv. unfold sextet in Hv. unfold letter_value, letter. destruct He as [-> | ->]; cbn [RawURLEncoding RawStdEncoding e_62 e_63];
    repeat case_match; try (f_equal; lia); exfalso; lia.
Qed.

Lemma letter_value_bound e c v : letter_value e c = Some v -> sextet v.
Proof. unfold letter_value, sextet. repeat case_match; intros [= <-]; lia. Qed.

Lemma letter_not_newline e v : encoding_ok e -> sextet v -> is_newline (letter e v) = false.
Proof.
  intros He Hv. unfold sextet in Hv. unfold is_newline, letter. destruct He as [-> | ->]; cbn [RawURLEncoding RawStdEncoding e_62 e_63];
    repeat case_match; apply orb_false_iff; split; apply Z.eqb_neq; lia.
Qed.

(** ** Round trips *)

Lemma triples_ind {A} (P : list A -> Prop) :
  P [] -> (forall x, P [x]) -> (forall x y, P [x; y]) -> (forall x y z l, P l -> P (x :: y :: z :: l)) -> forall l, P l.
Proof.
  intros H0 H1 H2 H3. fix go 1. intros [|x [|y [|z l]]]; [exact H0|exact (H1 x)|exact (H2 x y)|exact (H3 x y z l (go l))].
Qed.

Lemma to_sextets_ok l : bytes_ok l -> Forall sextet (to_sextets l).
Proof.
  induction l as [|x|x y|x y z l IH] using triples_ind; intros H; repeat (apply bytes_ok_cons in H as [? H]);
    cbn [to_sextets app]; repeat constructor; try (unfold sextet; lia). now apply IH.
Qed.

Lemma of_to_sextets l : bytes_ok l -> of_sextets (to_sextets l) = Ok l.
Proof.
  induction l as [|x|x y|x y z l IH] using triples_ind; intros H; repeat (apply bytes_ok_cons in H as [? H]);
    cbn [to_sextets app of_sextets]; [done|repeat f_equal; lia..|].
  rewrite IH by done. cbn [mbind outcome_bind app]. repeat f_equal; lia.
Qed.

Lemma length_to_sextets l n : length l = (3 * n)%nat -> length (to_sextets l) = (4 * n)%nat.
Proof.
  revert n. induction l as [|x|x y|x y z l IH] using triples_ind; intros n H; cbn [length] in H; try (destruct n; cbn [length to_sextets]; lia).
  cbn [to_sextets app length]. rewrite (IH (n - 1)%nat); lia.
Qed.

Lemma filter_letters e vs : encoding_ok e -> Forall sextet vs ->
  filter (fun c => is_newline c = false) (letter e <$> vs) = letter e <$> vs.
Proof.
  intros He. induction 1 as [|v vs Hv _ IH]; [done|]. cbn [fmap list_fmap]. rewrite filter_cons_True by now apply letter_not_newline.
  now f_equal.
Qed.

Lemma values_of_letters e vs : encoding_ok e -> Forall sextet vs -> mapM (letter_value e) (letter e <$> vs) = Some vs.
Proof.
  intros He H. apply mapM_Some_2. induction H as [|v vs Hv _ IH]; constructor; [now apply letter_value_letter|done].
Qed.

Lemma base64_roundtrip e l : encoding_ok e -> bytes_ok l -> base64_decode e (base64_encode e l) = Ok l.
Proof.
  intros He Hl. unfold base64_decode, base64_encode. pose proof (to_sextets_ok l Hl) as Hs.
  rewrite filter_letters, values_of_letters by done. now apply of_to_sextets.
Qed.

Lemma hex_value_digit v : 0 <= v < 16 -> hex_value (hex_digit v) = Some v.
Proof. intros Hv. unfold hex_value, hex_digit. repeat case_match; try (f_equal; lia); lia. Qed.

Lemma hex_encode_cons x l : hex_encode (x :: l) = hex_digit (x / 16) :: hex_digit (x mod 16) :: hex_encode l.
Proof. done. Qed.

Lemma hex_roundtrip l : bytes_ok l -> hex_decode (hex_encode l) = Ok l.
Proof.
  induction l as [|x l IH]; intros H; [done|]. apply bytes_ok_cons in H as [Hx H]. rewrite hex_encode_cons. cbn [hex_decode].
  rewrite !hex_value_digit, IH by (done || lia). cbn [mbind outcome_bind]. do 2 f_equal. lia.
Qed.

Lemma length_hex_encode l : length (hex_encode l) = (2 * length l)%nat.
Proof. induction l as [|x l IH]; [done|]. rewrite hex_encode_cons. cbn [length]. lia. Qed.

(** Eight-bit numbers; their digits contain no colon. *)
Lemma itoa_int8 w : -128 <= w <= 127 -> ParseInt (Itoa w) 8 = Ok w /\ Forall (fun c => c <> 58) (Itoa w).
Proof.
  intros Hw.
  assert (Hall : forallb (fun i => let w := Z.of_nat i - 128 in
      match ParseInt (Itoa w) 8 with Ok x => x =? w | _ => false end && forallb (fun c => negb (c =? 58)) (Itoa w)) (seq 0 256) = true) by (vm_compute; reflexivity).
  rewrite forallb_forall in Hall. specialize (Hall (Z.to_nat (w + 128))). rewrite in_seq in Hall. specialize (Hall ltac:(lia)). cbn zeta in Hall.
  replace (Z.of_nat (Z.to_nat (w + 128)) - 128) with w in Hall by lia. apply andb_true_iff in Hall as [Hp Hc].
  split; [destruct (ParseInt (Itoa w) 8) as [x | |]; try done; f_equal; now apply Z.eqb_eq|]. rewrite forallb_forall in Hc. apply List.Forall_forall. intros c Hin.
  specialize (Hc c Hin). destruct (Z.eqb_spec c 58); [done|assumption].
Qed.

Lemma split_first_at sep a b : Forall (fun c => c <> sep) a -> split_first sep (a ++ sep :: b) = Some (a, b).
Proof.
  induction 1 as [|c a Hc _ IH]; cbn [app split_first]; [now rewrite Z.eqb_refl|]. destruct (Z.eqb_spec c sep); [done|]. now rewrite IH.
Qed.

(** * Addresses

    Models [address/addr.go] and [address/bit.go]: the four kinds of addresses, their
    texts and the parsers of these.  Texts are byte lists.  [Copy] has no
    counterpart, since values are immutable: [Bounce], [Testnet] and [WithAnycast]
    return changed values, the setters change the state of [M]. *)

Inductive AddrType : Type := NoneAddress | ExtAddress | StdAddress | VarAddress.

#[export] Instance AddrType_eq_dec : EqDecision AddrType.
Proof. solve_decision. Defined.

Record Anycast : Type := mkAnycast { ac_depth : Z; ac_prefix : list Z }.

Record flags : Type := mkFlags { f_bounceable : bool; f_testnet : bool }.

Record Address : Type := mkAddress {
  a_flags : flags;
  a_type : AddrType;
  a_workchain : Z;  (* int32 *)
  a_bitsLen : Z;
  a_data : list Z;
  a_anycast : option Anycast;
}.

(** ** Flags *)

(** [setBit] and [hasBit]; the positions in use are below eight. *)
Definition setBit (n pos : Z) : Z := u8 (Z.lor n (1 ≪ pos)).
Definition hasBit (n pos : Z) : bool := 0 <? Z.land n (1 ≪ pos).

Definition FlagsToByte (a : Address) : Z :=
  let flags := 0x11 in
  let flags := if negb (f_bounceable (a_flags a)) then setBit flags 6 else flags in
  if f_testnet (a_flags a) then setBit flags 7 else flags.

Definition parseFlags (data : Z) : flags := mkFlags (negb (hasBit data 6)) (hasBit data 7).

(** ** Constructors *)

Definition NewAddress (flags workchain : Z) (data : list Z) : Address :=
  mkAddress (parseFlags flags) StdAddress (s8 workchain) 256 data None.
Definition NewAddressVar (flags workchain bitsLen : Z) (data : list Z) : Address :=
  mkAddress (parseFlags flags) VarAddress workchain bitsLen data None.
Definition NewAddressExt (flags bitsLen : Z) (data : list Z) : Address :=
  mkAddress (parseFlags flags) ExtAddress 0 bitsLen data None.
Definition NewAddressNone : Address := mkAddress (mkFlags false false) NoneAddress 0 0 [] None.

Definition SetAnycast (anycast : option Anycast) : M Address unit :=
  modify (fun a => mkAddress (a_flags a) (a_type a) (a_workchain a) (a_bitsLen a) (a_data a) anycast).
Definition WithAnycast (a : Address) (anycast : option Anycast) : Address := snd (SetAnycast anycast a).

Definition SetBounce (bouncable : bool) : M Address unit :=
  modify (fun a => mkAddress (mkFlags bouncable (f_testnet (a_flags a))) (a_type a) (a_workchain a) (a_bitsLen a) (a_data a) (a_anycast a)).
Definition Bounce (a : Address) (bounce : bool) : Address := snd (SetBounce bounce a).
Definition SetTestnetOnly (testnetOnly : bool) : M Address unit :=
  modify (fun a => mkAddress (mkFlags (f_bounceable (a_flags a)) testnetOnly) (a_type a) (a_workchain a) (a_bitsLen a) (a_data a) (a_anycast a)).
Definition Testnet (a : Address) (testnet : bool) : Address := snd (SetTestnetOnly testnet a).

(** ** Texts *)

(** [copy] into an array of 32 zero bytes. *)
Definition copy32 (data : list Z) : list Z := take 32 data ++ replicate (32 - length data) 0.

Definition prepareChecksumData (a : Address) : list Z :=
  FlagsToByte a :: u8 (a_workchain a) :: copy32 (a_data a).

Definition Checksum (a : Address) : Z := ChecksumXMODEM (prepareChecksumData a).

Definition StringRaw (a : Address) : list Z :=
  match a_type a with
  | NoneAddress => bytes_of "NONE"
  | StdAddress => Itoa (a_workchain a) ++ bytes_of ":" ++ hex_encode (a_data a)
  | _ => bytes_of "NOT_SUPPORTED"
  end.

Definition to_string (a : Address) : list Z :=
  match a_type a with
  | NoneAddress => bytes_of "NONE"
  | StdAddress =>
      let address := prepareChecksumData a in
      base64_encode RawURLEncoding (address ++ be_bytes 2 (ChecksumXMODEM address))
  | ExtAddress =>
      let address := FlagsToByte a :: be_bytes 4 (u32 (a_bitsLen a)) ++ a_data a in
      bytes_of "EXT:" ++ hex_encode address
  | VarAddress =>
      let address := FlagsToByte a :: be_bytes 4 (u32 (a_workchain a)) ++ be_bytes 4 (u32 (a_bitsLen a)) ++ a_data a in
      bytes_of "VAR:" ++ hex_encode address
  end.

(** ** Parsers *)

Definition ParseAddr (addr : list Z) : outcome Address :=
  data ← match base64_decode RawURLEncoding addr with
         | Err _ => base64_decode RawStdEncoding addr
         | o => o
         end;
  if negb (len data =? 36) then Err (ErrText "incorrect address data")
  else
    checksum ← subrange data 34 36;
    body ← subrange data 0 34;
    if negb (ChecksumXMODEM body =? be_uint checksum) then Err (ErrText "invalid address")
    else
      flags ← index data 0;
      workchain ← index data 1;
      rest ← subrange data 2 34;
      Ok (NewAddress flags workchain rest).

Definition ParseRawAddr (addr : list Z) : outcome Address :=
  match split_first 58 addr with
  | None => Err (ErrText "invalid address format")
  | Some (wc, hex) =>
      data ← hex_decode hex;
      if negb (len data =? 32) then Err (ErrText "incorrect address data length")
      else
        wc ← ParseInt wc 8;
        Ok (NewAddress 0 (u8 wc) data)
  end.

(** ** JSON *)

(** [%q] only adds the quotes, since no byte of the text needs an escape. *)
Definition MarshalJSON (a : Address) : list Z := [34] ++ to_string a ++ [34].

Definition has_prefix (pfx s : list Z) : bool := bool_decide (take (length pfx) s = pfx).

Definition unmarshal (strData : list Z) : outcome Address :=
  if bool_decide (strData = bytes_of "NONE") then Ok NewAddressNone
  else if bool_decide (strData = bytes_of "NOT_SUPPORTED") then Err (ErrText "not supported address")
  else if (9 <=? len strData) && has_prefix (bytes_of "EXT:") strData then
    b ← hex_decode (drop 4 strData);
    if len b <? 5 then Err (ErrText "invalid ext address")
    else
      flags ← index b 0;
      bitsLen ← subrange b 1 5;
      Ok (NewAddressExt flags (be_uint bitsLen) (drop 5 b))
  else if (13 <=? len strData) && has_prefix (bytes_of "VAR:") strData then
    b ← hex_decode (drop 4 strData);
    if len b <? 9 then Err (ErrText "invalid var address")
    else
      flags ← index b 0;
      workchain ← subrange b 1 5;
      bitsLen ← subrange b 5 9;
      Ok (NewAddressVar flags (s32 (be_uint workchain)) (be_uint bitsLen) (drop 9 b))
  else ParseAddr strData.

Definition UnmarshalJSON (data : list Z) : M Address unit :=
  if (len data <? 2) || negb (bool_decide (head data = Some 34)) || negb (bool_decide (last data = Some 34))
  then fail (ErrText "invalid data")
  else
    strData ← lift (subrange data 1 (len data - 1));
    addr ← lift (unmarshal strData);
    put_state addr.

(** ** Comparison *)

Definition anycastEqual (a b : option Anycast) : bool :=
  match a, b with
  | None, None => true
  | Some a, Some b => (ac_depth a =? ac_depth b) && bool_decide (ac_prefix a = ac_prefix b)
  | _, _ => false
  end.

Definition Equals (a b : Address) : bool :=
  (a_workchain a =? a_workchain b) && bool_decide (a_data a = a_data b) && anycastEqual (a_anycast a) (a_anycast b).
