(* ===== verification/AddressTheorems.v ===== *)
(** * Texts of addresses

    Every text an address prints is parsed back as this address, and a mistyped letter
    never leads to another address. *)

From S2P Require Import Prelude Bytes Checksums Address.
From stdpp Require Import strings.
#[local] Open Scope Z_scope.

(** The addresses the constructors make from well-formed parts. *)
Definition valid (a : Address) : Prop :=
  bytes_ok (a_data a) /\
  match a_type a with
  | NoneAddress => a_flags a = mkFlags false false /\ a_workchain a = 0 /\ a_bitsLen a = 0 /\ a_data a = []
  | StdAddress => -128 <= a_workchain a <= 127 /\ a_bitsLen a = 256 /\ length (a_data a) = 32%nat
  | ExtAddress => a_workchain a = 0 /\ 0 <= a_bitsLen a < 2 ^ 32
  | VarAddress => -2 ^ 31 <= a_workchain a < 2 ^ 31 /\ 0 <= a_bitsLen a < 2 ^ 32
  end.

(** Texts leave the anycast prefix out. *)
Definition plain (a : Address) : Address := WithAnycast a None.

Lemma parseFlags_byte a : parseFlags (FlagsToByte a) = a_flags a.
Proof. destruct a as [[b t] ty wc n d ac]. unfold FlagsToByte. cbn [a_flags f_bounceable f_testnet]. now destruct b, t. Qed.

Lemma FlagsToByte_ok a : byte_ok (FlagsToByte a).
Proof. unfold FlagsToByte. destruct (f_bounceable _), (f_testnet _); vm_compute; split; congruence. Qed.

(** ** The short text *)

Lemma copy32_full d : length d = 32%nat -> copy32 d = d.
Proof. intros H. unfold copy32. rewrite H, take_ge, app_nil_r by lia. done. Qed.

Definition codeword (a : Address) : list Z := prepareChecksumData a ++ be_bytes 2 (ChecksumXMODEM (prepareChecksumData a)).

Section short.
  Variable a : Address.
  Hypothesis (Hv : valid a) (Ht : a_type a = StdAddress).

Lemma valid_std : -128 <= a_workchain a <= 127 /\ a_bitsLen a = 256 /\ length (a_data a) = 32%nat /\ bytes_ok (a_data a).
Proof using Hv Ht. destruct Hv as [Hb H]. rewrite Ht in H. tauto. Qed.

Lemma prepare_data_ok : bytes_ok (prepareChecksumData a) /\ length (prepareChecksumData a) = 34%nat.
Proof using Hv Ht.
  destruct valid_std as (_ & _ & Hl & Hb). unfold prepareChecksumData. rewrite copy32_full by done. split; [|cbn [length]; lia].
  apply bytes_ok_cons. split; [apply FlagsToByte_ok|]. apply bytes_ok_cons. split; [apply byte_ok_u8|done].
Qed.

Lemma codeword_ok : bytes_ok (codeword a) /\ length (codeword a) = 36%nat /\ ChecksumXMODEM (codeword a) = 0.
Proof using Hv Ht.
  destruct prepare_data_ok as [Hb Hl]. unfold codeword. rewrite length_app, length_be_bytes.
  assert (Hc : word_ok (ChecksumXMODEM (prepareChecksumData a))) by (apply checksum_ok; [unfold word_ok; lia|done]).
  split; [|split; [lia|]].
  - apply bytes_ok_app. split; [done|apply be_bytes_ok].
  - rewrite !be_bytes_S. change (be_bytes 0 _) with (@nil Z). apply checksum_closed; [done|apply byte_ok_u8..|].
    unfold word_ok in Hc. unfold u8. cbn [Z.of_nat Pos.of_succ_nat]. rewrite !Z.shiftr_div_pow2, Z.shiftl_mul_pow2 by lia. lia.
Qed.

(** What the parser does with 36 bytes. *)
Lemma parse_codeword : forall s, base64_decode RawURLEncoding s = Ok (codeword a) -> ParseAddr s = Ok (plain a).
Proof using Hv Ht.
  intros s Hs. destruct codeword_ok as (Hb & Hl & _), prepare_data_ok as [Hpb Hpl], valid_std as (Hw & Hn & Hd & Hdb). unfold ParseAddr. rewrite Hs.
  cbn [mbind outcome_bind]. assert (Hlen : len (codeword a) = 36) by (unfold len; lia). rewrite Hlen. cbn [Z.eqb Pos.eqb negb].
  rewrite !subrange_ok, !Bytes.index_ok by lia. cbn [mbind outcome_bind].
  change (Z.to_nat 34) with 34%nat. change (Z.to_nat 2) with 2%nat. change (Z.to_nat 0) with 0%nat. change (Z.to_nat (36 - 34)) with 2%nat.
  change (Z.to_nat (34 - 0)) with 34%nat. change (Z.to_nat (34 - 2)) with 32%nat. rewrite drop_0.
  assert (Hc : word_ok (ChecksumXMODEM (prepareChecksumData a))) by (apply checksum_ok; [unfold word_ok; lia|done]). unfold word_ok in Hc.
  assert (E1 : take 34 (codeword a) = prepareChecksumData a) by (unfold codeword; rewrite take_app_le, take_ge by lia; done).
  assert (E2 : take 2 (drop 34 (codeword a)) = be_bytes 2 (ChecksumXMODEM (prepareChecksumData a))).
  { unfold codeword. rewrite <-Hpl, drop_app_length. apply take_ge. now rewrite length_be_bytes. }
  rewrite E1, E2, be_uint_be_bytes by (cbn [Z.of_nat Pos.of_succ_nat]; lia). rewrite Z.eqb_refl. cbn [negb mbind outcome_bind].
  assert (E3 : take 32 (drop 2 (codeword a)) = a_data a).
  { unfold codeword, prepareChecksumData. rewrite copy32_full by done. cbn [app drop]. rewrite drop_0, take_app_le, take_ge by lia. done. }
  assert (E4 : byte_at (codeword a) 0 = FlagsToByte a /\ byte_at (codeword a) 1 = u8 (a_workchain a)) by (split; reflexivity).
  destruct E4 as [-> ->]. rewrite E3. unfold NewAddress, plain, WithAnycast, SetAnycast, modify. cbn [snd].
  rewrite parseFlags_byte, Ht, Hn. do 2 f_equal. unfold s8, u8. lia.
Qed.

End short.

(** ** One wrong letter *)

Lemma differ_same l : differ l l = replicate (length l) 0.
Proof. induction l as [|x l IH]; [done|]. cbn [differ zip_with length replicate]. rewrite Z.lxor_nilpotent. now f_equal. Qed.

Lemma differ_app l k l' k' : length l = length l' -> differ (l ++ k) (l' ++ k') = differ l l' ++ differ k k'.
Proof. intros H. apply zip_with_app. exact H. Qed.

(** The bytes of two sextet lists that differ in one place. *)
Definition confined (l k : list Z) (same : Prop) : Prop :=
  exists n m x y, differ l k = replicate n 0 ++ [x; y] ++ replicate m 0 /\ byte_ok x /\ byte_ok y /\ (x = 0 -> y = 0 -> same).

Lemma confined_cons x y z l k same : byte_ok x -> byte_ok y -> byte_ok z -> confined l k same -> confined (x :: y :: z :: l) (x :: y :: z :: k) same.
Proof.
  intros _ _ _ (n & m & u & v & E & H). exists (S (S (S n))), m, u, v. split; [|done]. cbn [differ zip_with]. fold (differ l k).
  rewrite E, !Z.lxor_nilpotent. done.
Qed.

Lemma of_sextets_ok l : Forall sextet l ->
  match of_sextets l with Ok d => bytes_ok d /\ Z.of_nat (length d) = 3 * Z.of_nat (length l) / 4 | Err _ => True | Panic => False end.
Proof.
  assert (Hq : forall n l, (length l <= n)%nat -> Forall sextet l ->
    match of_sextets l with Ok d => bytes_ok d /\ Z.of_nat (length d) = 3 * Z.of_nat (length l) / 4 | Err _ => True | Panic => False end).
  { induction n as [|n IH]; intros k Hn Hk.
    { destruct k; [|cbn in Hn; lia]. split; [constructor|done]. }
    unfold sextet in Hk. destruct k as [|a [|b [|c [|d k]]]]; cbn [of_sextets]; decompose_Forall_hyps; try done.
    - split; [constructor|done].
    - split; [repeat constructor; lia|cbn; lia].
    - split; [repeat constructor; lia|cbn; lia].
    - cbn [length] in Hn. specialize (IH k ltac:(lia) ltac:(done)). destruct (of_sextets k) as [r | |]; cbn [mbind outcome_bind]; [|done..].
      destruct IH as [Hr Hlr]. split; [|cbn [app length]; lia]. repeat (apply bytes_ok_cons; split; [lia|]). done. }
  intros H. exact (Hq (length l) l (le_n _) H).
Qed.

Lemma change_sextet n vs i w : Forall sextet vs -> length vs = (4 * n)%nat -> (i < 4 * n)%nat -> sextet w ->
  exists d k, of_sextets vs = Ok d /\ of_sextets (<[i := w]> vs) = Ok k /\ confined d k (vs !! i = Some w).
Proof.
  revert vs i. induction n as [|n IH]; intros vs i Hvs Hl Hi Hw; [lia|].
  destruct vs as [|a [|b [|c [|d vs]]]]; cbn [length] in Hl; try lia. unfold sextet in *. decompose_Forall_hyps.
  destruct (Nat.lt_ge_cases i 4) as [Hi4 | Hi4].
  - assert (Hr : exists r, of_sextets vs = Ok r).
    { pose proof (of_sextets_ok vs) as Ho. destruct n as [|n].
      - destruct vs; [|cbn in Hl; lia]. now exists [].
      - destruct (IH vs 0%nat ltac:(done) ltac:(lia) ltac:(lia) Hw) as (r & _ & Er & _). now exists r. }
    destruct Hr as [r Er]. destruct i as [|[|[|[|i]]]]; [..|lia]; cbn [insert list_insert lookup list_lookup of_sextets]; rewrite Er; cbn [mbind outcome_bind];
      eexists _, _; (split; [reflexivity|]; split; [reflexivity|]); unfold confined; cbn [app differ zip_with]; fold (differ r r); rewrite ?Z.lxor_nilpotent, differ_same.
    + exists 0%nat, (S (length r)), (Z.lxor (a * 4 + b / 16) (w * 4 + b / 16)), 0. split; [reflexivity|].
      split; [apply byte_lxor; lia|]. split; [lia|]. intros E%Z.lxor_eq _. f_equal. lia.
    + exists 0%nat, (S (length r)), (Z.lxor (a * 4 + b / 16) (a * 4 + w / 16)), (Z.lxor (b `mod` 16 * 16 + c / 4) (w `mod` 16 * 16 + c / 4)).
      split; [reflexivity|]. split; [apply byte_lxor; lia|]. split; [apply byte_lxor; lia|]. intros E%Z.lxor_eq E'%Z.lxor_eq. f_equal. lia.
    + exists 1%nat, (length r), (Z.lxor (b `mod` 16 * 16 + c / 4) (b `mod` 16 * 16 + w / 4)), (Z.lxor (c `mod` 4 * 64 + d) (w `mod` 4 * 64 + d)).
      split; [reflexivity|]. split; [apply byte_lxor; lia|]. split; [apply byte_lxor; lia|]. intros E%Z.lxor_eq E'%Z.lxor_eq. f_equal. lia.
    + exists 1%nat, (length r), 0, (Z.lxor (c `mod` 4 * 64 + d) (c `mod` 4 * 64 + w)).
      split; [reflexivity|]. split; [lia|]. split; [apply byte_lxor; lia|]. intros _ E%Z.lxor_eq. f_equal. lia.
  - destruct (IH vs (i - 4)%nat ltac:(done) ltac:(lia) ltac:(lia) Hw) as (r & k & Er & Ek & Hc). destruct i as [|[|[|[|i]]]]; try lia.
    replace (S (S (S (S i))) - 4)%nat with i in * by lia. 
    change (<[S (S (S (S i))) := w]> (a :: b :: c :: d :: vs)) with (a :: b :: c :: d :: <[i := w]> vs).
    change ((a :: b :: c :: d :: vs) !! S (S (S (S i)))) with (vs !! i). cbn [of_sextets]. rewrite Er, Ek. cbn [mbind outcome_bind app]. eexists _, _. split; [reflexivity|]. split; [reflexivity|]. apply confined_cons; try lia. exact Hc.
Qed.

Lemma of_sextets_odd n l : length l = (4 * n + 1)%nat -> exists e, of_sextets l = Err e.
Proof.
  revert l. induction n as [|n IH]; intros l Hl; [destruct l as [|x [|]]; try (cbn in Hl; lia); by eexists|].
  destruct l as [|a [|b [|c [|d l]]]]; cbn [length] in Hl; try lia. destruct (IH l ltac:(lia)) as [e He]. exists e. cbn [of_sextets]. by rewrite He.
Qed.

Lemma letters_ok e t vs : mapM (letter_value e) t = Some vs -> Forall sextet vs /\ length vs = length t.
Proof.
  intros E. split; [|by apply length_mapM in E]. apply mapM_Some_1 in E. apply Forall_forall. intros w Hw. apply list_elem_of_lookup in Hw as [j Hj].
  destruct (Forall2_lookup_r _ _ _ _ _ E Hj) as (c' & _ & Hc'). by apply letter_value_bound in Hc'.
Qed.

(** A letter of both encodings has one value. *)
Lemma letter_agree e e' c v w : encoding_ok e -> encoding_ok e' -> letter_value e c = Some v -> letter_value e' c = Some w -> w = v.
Proof. intros He He'. destruct He as [-> | ->], He' as [-> | ->]; unfold letter_value; cbn [RawURLEncoding RawStdEncoding e_62 e_63]; repeat case_match; intros [= <-] [= <-]; lia. Qed.

Lemma letters_agree e e' t vs ws : encoding_ok e -> encoding_ok e' ->
  Forall2 (fun c v => letter_value e c = Some v) t vs -> Forall2 (fun c v => letter_value e' c = Some v) t ws -> ws = vs.
Proof.
  intros He He' H. revert ws. induction H as [|c v t vs Hc _ IH]; intros ws Hw; inversion Hw as [|? w ? ws' Hw1 Hw2]; subst; [done|].
  f_equal; [exact (letter_agree e e' c v w He He' Hc Hw1)|by apply IH].
Qed.

(** What the parser makes of the decoded bytes. *)
Definition read_word (d : list Z) : outcome Address :=
  if negb (len d =? 36) then Err (ErrText "incorrect address data")
  else if negb (ChecksumXMODEM (take 34 d) =? be_uint (take 2 (drop 34 d))) then Err (ErrText "invalid address")
  else Ok (NewAddress (byte_at d 0) (byte_at d 1) (take 32 (drop 2 d))).

Lemma parse_word s :
  ParseAddr s = match base64_decode RawURLEncoding s with
                | Ok d => read_word d
                | Err _ => match base64_decode RawStdEncoding s with Ok d => read_word d | Err e => Err e | Panic => Panic end
                | Panic => Panic
                end.
Proof.
  assert (H : forall d, (if negb (len d =? 36) then Err (ErrText "incorrect address data")
    else checksum ← subrange d 34 36; body ← subrange d 0 34;
      if negb (ChecksumXMODEM body =? be_uint checksum) then Err (ErrText "invalid address")
      else flags ← index d 0; workchain ← index d 1; rest ← subrange d 2 34; Ok (NewAddress flags workchain rest)) = read_word d).
  { intros d. unfold read_word. destruct (Z.eqb_spec (len d) 36) as [E | _]; [|done]. cbn [negb]. by rewrite !subrange_ok, !Bytes.index_ok by lia. }
  unfold ParseAddr. destruct (base64_decode RawURLEncoding s) as [d|e|]; [exact (H d)| |done]. destruct (base64_decode RawStdEncoding s) as [d|e'|]; [exact (H d)|done..].
Qed.

Lemma base64_decode_total e s : base64_decode e s <> Panic.
Proof.
  unfold base64_decode. destruct (mapM _ _) as [vs|] eqn:E; [|done]. pose proof (of_sextets_ok vs (proj1 (letters_ok _ _ _ E))) as H. by destruct (of_sextets vs).
Qed.

(** The 36 bytes of a text that is accepted close the checksum. *)
Lemma read_word_closed d : bytes_ok d -> (exists a, read_word d = Ok a) <-> length d = 36%nat /\ ChecksumXMODEM d = 0.
Proof.
  intros Hb. unfold read_word. destruct (Z.eqb_spec (len d) 36) as [E | Hne]; cbn [negb]; [|split; [by intros [? ?]|unfold len in Hne; lia]].
  assert (Hl : length d = 36%nat) by (unfold len in E; lia). assert (Hd : exists h t, d = take 34 d ++ [h; t] /\ byte_ok h /\ byte_ok t /\ drop 34 d = [h; t]).
  { destruct (drop 34 d) as [|h [|t [|]]] eqn:Ed; try (apply (f_equal length) in Ed; rewrite length_drop in Ed; cbn in Ed; lia). exists h, t.
    assert (Hht : bytes_ok [h; t]) by (rewrite <-Ed; by apply Forall_drop). apply bytes_ok_cons in Hht as [Hh Hht]. apply bytes_ok_cons in Hht as [Ht _].
    split; [by rewrite <-Ed, take_drop|done]. }
  destruct Hd as (h & t & Hd & Hh & Ht & Edrop). assert (Hc : ChecksumXMODEM d = 0 <-> ChecksumXMODEM (take 34 d) = h ≪ 8 + t) by (rewrite Hd at 1; apply checksum_closed; [by apply Forall_take|done..]).
  assert (Hu : be_uint (take 2 (drop 34 d)) = h ≪ 8 + t).
  { rewrite Edrop. cbn [take be_uint foldl]. rewrite Z.shiftl_0_l, Z.lor_0_l. symmetry. apply (add_disjoint _ _ 8); [lia..|]. intros k Hk.
    rewrite testbit_shiftl by lia. rewrite (Z.testbit_neg_r h) by lia. by rewrite andb_false_r. }
  rewrite Hu. destruct (Z.eqb_spec (ChecksumXMODEM (take 34 d)) (h ≪ 8 + t)) as [Ec|Ec]; cbn [negb]; [|split; [by intros [? ?]|tauto]]. split; [tauto|by eexists].
Qed.

Section typo.
  Context (e0 : Encoding) (He0 : encoding_ok e0) (vs d : list Z) (Hvs : Forall sextet vs) (Hl : length vs = 48%nat) (Ed : of_sextets vs = Ok d) (Hc : ChecksumXMODEM d = 0).

(** What the decoders can make of a text with one letter replaced. *)
Definition harmless (k : list Z) : Prop := (exists e, read_word k = Err e) \/ k = d.

Lemma rejected_word k : bytes_ok k -> ~ (length k = 36%nat /\ ChecksumXMODEM k = 0) -> harmless k.
Proof using.
  intros Hb Hn. left. rewrite <-(read_word_closed k Hb) in Hn. unfold read_word in *. destruct (negb _); [by eexists|]. destruct (negb _); [by eexists|]. destruct Hn. by eexists.
Qed.

Lemma sextets_bytes ws k : Forall sextet ws -> of_sextets ws = Ok k -> bytes_ok k /\ Z.of_nat (length k) = 3 * Z.of_nat (length ws) / 4.
Proof using. intros Hw E. pose proof (of_sextets_ok ws Hw) as H. by rewrite E in H. Qed.

Lemma harmless_length ws k : Forall sextet ws -> of_sextets ws = Ok k -> length ws <> 48%nat -> harmless k.
Proof using.
  clear Hvs Hl Ed Hc. intros Hw E Hne. destruct (sextets_bytes ws k Hw E) as [Hb Hk]. apply rejected_word; [done|]. intros [H36 _].
  destruct (of_sextets_odd 12 ws) as [er Her]; [lia|]. congruence.
Qed.

Lemma harmless_change i w k : (i < 48)%nat -> sextet w -> of_sextets (<[i := w]> vs) = Ok k -> harmless k.
Proof using Hvs Hl Ed Hc.
  intros Hi Hw Ek. destruct (change_sextet 12 vs i w Hvs ltac:(lia) ltac:(lia) Hw) as (d' & k' & Ed' & Ek' & n & m & x & y & Hd & Hx & Hy & Hsame).
  assert (d' = d) as -> by congruence. assert (k' = k) as -> by congruence. destruct (sextets_bytes _ _ Hvs Ed) as [Hb Hdl].
  destruct (sextets_bytes _ _ (Forall_insert _ _ _ _ Hvs Hw) Ek) as [Hkb Hkl]. rewrite length_insert in Hkl.
  destruct (Z.eq_dec x 0) as [-> | Hx0]; [destruct (Z.eq_dec y 0) as [-> | Hy0]|].
  - right. specialize (Hsame eq_refl eq_refl). rewrite list_insert_id in Ek by done. congruence.
  - apply rejected_word; [done|]. intros [_ Hk]. apply (checksum_detects d k n m 0 y); try done; [lia|by right|congruence].
  - apply rejected_word; [done|]. intros [_ Hk]. apply (checksum_detects d k n m x y); try done; [lia|by left|congruence].
Qed.

(** The letters of the text around the one that is replaced. *)
Lemma harmless_text e s1 x c s2 k : encoding_ok e ->
  mapM (letter_value e0) (filter (fun c => is_newline c = false) (s1 ++ x :: s2)) = Some vs -> base64_decode e (s1 ++ c :: s2) = Ok k -> harmless k.
Proof using All.
  intros He E0 Hk. unfold base64_decode in Hk. destruct (mapM (letter_value e) _) as [ws|] eqn:E; [|done]. pose proof (letters_ok _ _ _ E0) as [_ L0]. pose proof (letters_ok _ _ _ E) as [Hws L].
  rewrite !filter_app in *. apply mapM_Some_1 in E0, E. set (f1 := filter _ s1) in *.
  destruct (is_newline x) eqn:Hx, (is_newline c) eqn:Hc'; repeat first [rewrite (filter_cons_False _ x) in * by (by rewrite Hx) | rewrite (filter_cons_True _ x) in * by done |
    rewrite (filter_cons_False _ c) in * by (by rewrite Hc') | rewrite (filter_cons_True _ c) in * by done]; set (f2 := filter _ s2) in *; rewrite !length_app in *; cbn [length] in *.
  - right. rewrite (letters_agree e0 e _ _ _ He0 He E0 E) in Hk. congruence.
  - apply (harmless_length ws); [done..|lia].
  - apply (harmless_length ws); [done..|lia].
  - apply Forall2_app_inv_l in E0 as (v1 & v2' & H1 & H2 & Ev). apply Forall2_cons_inv_l in H2 as (v & v2 & Hv & H2 & ->).
    apply Forall2_app_inv_l in E as (w1 & w2' & G1 & G2 & ->). apply Forall2_cons_inv_l in G2 as (w & w2 & Hw & G2 & ->).
    rewrite (letters_agree e0 e _ _ _ He0 He H1 G1), (letters_agree e0 e _ _ _ He0 He H2 G2) in Hk.
    apply (harmless_change (length v1) w); [rewrite <-Hl, Ev, length_app; cbn; lia|by apply letter_value_bound in Hw|]. rewrite Ev. by rewrite insert_app_r_alt, Nat.sub_diag by lia.
Qed.
End typo.

(** C22: One wrong byte never redirects an address.  Take any text that the parser
    accepts, in either alphabet, with or without line breaks and whatever its flags, and
    replace any byte of it by any other: the parser rejects the new text, or returns the
    very same address (a letter replaced by the letter of the other alphabet with the
    same value, or a line break by a line break). *)
Theorem typo_never_redirects s a i c :
  ParseAddr s = Ok a -> (exists e, ParseAddr (<[i := c]> s) = Err e) \/ ParseAddr (<[i := c]> s) = Ok a.
Proof.
  intros Hp. destruct (Nat.lt_ge_cases i (length s)) as [Hi | Hi]; [|right; by rewrite list_insert_ge].
  destruct (lookup_lt_is_Some_2 s i Hi) as [x Hx]. rewrite <-(take_drop_middle s i x Hx) in Hp. rewrite insert_take_drop by done. set (s1 := take i s) in *. set (s2 := drop (S i) s) in *.
  assert (H0 : exists e0 d, encoding_ok e0 /\ base64_decode e0 (s1 ++ x :: s2) = Ok d /\ read_word d = Ok a).
  { rewrite parse_word in Hp. destruct (base64_decode RawURLEncoding _) as [d|e|] eqn:E1; [exists RawURLEncoding, d; split; [by left|done]| |done].
    destruct (base64_decode RawStdEncoding _) as [d|e'|] eqn:E2; [exists RawStdEncoding, d; split; [by right|done]|done..]. }
  destruct H0 as (e0 & d & He0 & Hd & Ha). unfold base64_decode in Hd. destruct (mapM _ _) as [vs|] eqn:Evs; [|done]. destruct (letters_ok _ _ _ Evs) as [Hvs _].
  destruct (sextets_bytes vs d Hvs Hd) as [Hb Hdl]. destruct (proj1 (read_word_closed d Hb) (ex_intro _ a Ha)) as [H36 Hc].
  assert (Hl : length vs = 48%nat) by (destruct (Nat.eq_dec (length vs) 49%nat) as [E|]; [destruct (of_sextets_odd 12 vs E); congruence|lia]).
  assert (Hh : forall e k, encoding_ok e -> base64_decode e (s1 ++ c :: s2) = Ok k -> (exists er, read_word k = Err er) \/ read_word k = Ok a).
  { intros e k He Hk. destruct (harmless_text e0 He0 vs d Hvs Hl Hd Hc e s1 x c s2 k He Evs Hk) as [H | ->]; [by left|by right]. }
  rewrite parse_word. destruct (base64_decode RawURLEncoding (s1 ++ c :: s2)) as [k|e|] eqn:E1; [apply (Hh _ _ (or_introl eq_refl) E1)| |by apply base64_decode_total in E1].
  destruct (base64_decode RawStdEncoding (s1 ++ c :: s2)) as [k|e'|] eqn:E2; [apply (Hh _ _ (or_intror eq_refl) E2)|left; by eexists|by apply base64_decode_total in E2].
Qed.

Definition sample_address : Address :=
  mkAddress (mkFlags true false) StdAddress (-1) 256 (replicate 32 0x55) None.

Lemma sample_address_valid : valid sample_address.
Proof. split; [apply Forall_replicate; lia|]. change (-128 <= -1 <= 127 /\ 256 = 256 /\ length (replicate 32 0x55) = 32%nat). split; [lia|done]. Qed.

(** The text of [sample_address] in the standard alphabet, with a line break. *)
Definition sample_text : list Z :=
  let t := base64_encode RawStdEncoding (codeword sample_address) in take 20 t ++ [10] ++ drop 20 t.

Example typo_never_redirects_witness :
  (exists e, ParseAddr (<[5%nat := 66]> sample_text) = Err e) \/ ParseAddr (<[5%nat := 66]> sample_text) = Ok (plain sample_address).
Proof. apply (typo_never_redirects sample_text (plain sample_address) 5 66). vm_compute. reflexivity. Defined.

(** ** The other texts *)

Lemma text_letters a : a_type a = StdAddress -> to_string a = letter RawURLEncoding <$> to_sextets (codeword a).
Proof. intros Ht. unfold to_string. by rewrite Ht. Qed.

Lemma codeword_letters a : valid a -> a_type a = StdAddress -> Forall sextet (to_sextets (codeword a)) /\ length (to_sextets (codeword a)) = 48%nat.
Proof. intros Hv Ht. destruct (codeword_ok a Hv Ht) as (Hb & Hl & _). split; [by apply to_sextets_ok|by apply (length_to_sextets _ 12)]. Qed.

Lemma parse_raw a : valid a -> a_type a = StdAddress -> ParseRawAddr (StringRaw a) = Ok (Testnet (Bounce (plain a) true) false).
Proof.
  intros Hv Ht. destruct (valid_std a Hv Ht) as (Hw & Hn & Hl & Hb). unfold ParseRawAddr, StringRaw. rewrite Ht.
  destruct (itoa_int8 (a_workchain a) Hw) as [Hp Hc]. change (bytes_of ":") with [58]. cbn [app]. rewrite split_first_at by done.
  rewrite hex_roundtrip by done. cbn [mbind outcome_bind]. destruct (Z.eqb_spec (len (a_data a)) 32) as [_ | H]; [|unfold len in H; lia]. cbn [negb].
  rewrite Hp. cbn [mbind outcome_bind]. unfold NewAddress, plain, WithAnycast, SetAnycast, Testnet, Bounce, SetBounce, SetTestnetOnly, modify.
  cbn [snd a_flags a_type a_workchain a_bitsLen a_data f_bounceable]. rewrite Ht, Hn. unfold s8, u8. do 2 f_equal. lia.
Qed.

Lemma drop4 s l : drop (length (bytes_of s)) (bytes_of s ++ l) = l.
Proof. apply drop_app_length. Qed.

Lemma has_prefix_app p l : has_prefix p (p ++ l) = true.
Proof. unfold has_prefix. rewrite take_app_length. now apply bool_decide_eq_true. Qed.

(** A text of a prefix and the hexadecimal form of at least [n] bytes is not one of
    the two words. *)
Lemma unmarshal_hex p b : length (bytes_of p) = 4%nat -> 5 <= len b ->
  let s := bytes_of p ++ hex_encode b in
  bool_decide (s = bytes_of "NONE") = false /\ (len s =? 13) = false /\ has_prefix (bytes_of p) s = true /\ len s = 4 + 2 * len b /\ drop 4 s = hex_encode b.
Proof.
  intros Hp Hb s. assert (Hls : len s = 4 + 2 * len b) by (unfold s; rewrite len_app; unfold len in *; rewrite length_hex_encode, Hp; lia).
  split_and!; [|apply Z.eqb_neq; lia|apply has_prefix_app|done|unfold s; rewrite <-Hp; apply drop_app_length].
  apply bool_decide_eq_false_2. intros E. rewrite E in Hls. change (len (bytes_of "NONE")) with 4 in Hls. lia.
Qed.

(** The fields of the text of an external address. *)
Lemma unmarshal_ext a : valid a -> a_type a = ExtAddress -> unmarshal (to_string a) = Ok (plain a).
Proof.
  intros [Hb H] Ht. rewrite Ht in H. destruct H as [Hw Hn]. unfold to_string. rewrite Ht. set (n4 := be_bytes 4 (u32 (a_bitsLen a))).
  assert (Hl4 : length n4 = 4%nat) by apply length_be_bytes. set (b := FlagsToByte a :: n4 ++ a_data a). pose proof (len_nonneg (a_data a)).
  assert (Hbb : bytes_ok b) by (apply bytes_ok_cons; split; [apply FlagsToByte_ok|]; apply bytes_ok_app; split; [apply be_bytes_ok|done]).
  assert (Hlb : len b = 5 + len (a_data a)) by (unfold b, len; cbn [length]; rewrite length_app; lia).
  destruct (unmarshal_hex "EXT:" b eq_refl ltac:(lia)) as (E1 & E2 & E3 & E4 & E5). unfold unmarshal. rewrite E1, E3, E4, E5, hex_roundtrip by done.
  destruct (bool_decide_reflect (bytes_of "EXT:" ++ hex_encode b = bytes_of "NOT_SUPPORTED")) as [E | _]; [now rewrite E in E2|].
  destruct (Z.leb_spec 9 (4 + 2 * len b)); [|lia]. cbn [andb mbind outcome_bind]. destruct (Z.ltb_spec (len b) 5); [lia|].
  rewrite Bytes.index_ok, subrange_ok by lia. cbn [mbind outcome_bind]. change (byte_at b 0) with (FlagsToByte a).
  change (take (Z.to_nat (5 - 1)) (drop (Z.to_nat 1) b)) with (take 4 (drop 0 (n4 ++ a_data a))). change (drop 5 b) with (drop 4 (n4 ++ a_data a)).
  rewrite drop_0, take_app_length', drop_app_length' by done. unfold n4, u32. rewrite be_uint_be_bytes by (change (8 * Z.of_nat 4) with 32; lia).
  unfold NewAddressExt, plain, WithAnycast, SetAnycast, modify. cbn [snd]. rewrite parseFlags_byte, Ht, Hw. do 2 f_equal. lia.
Qed.

Lemma unmarshal_var a : valid a -> a_type a = VarAddress -> unmarshal (to_string a) = Ok (plain a).
Proof.
  intros [Hb H] Ht. rewrite Ht in H. destruct H as [Hw Hn]. unfold to_string. rewrite Ht.
  set (w4 := be_bytes 4 (u32 (a_workchain a))). set (n4 := be_bytes 4 (u32 (a_bitsLen a))).
  assert (Hl4 : length n4 = 4%nat) by apply length_be_bytes. assert (Hlw : length w4 = 4%nat) by apply length_be_bytes.
  set (b := FlagsToByte a :: w4 ++ n4 ++ a_data a). pose proof (len_nonneg (a_data a)).
  assert (Hbb : bytes_ok b) by (apply bytes_ok_cons; split; [apply FlagsToByte_ok|]; rewrite !bytes_ok_app; split_and!; [apply be_bytes_ok..|done]).
  assert (Hlb : len b = 9 + len (a_data a)) by (unfold b, len; cbn [length]; rewrite !length_app; lia).
  destruct (unmarshal_hex "VAR:" b eq_refl ltac:(lia)) as (E1 & E2 & E3 & E4 & E5). unfold unmarshal. rewrite E1, E3, E4, E5, hex_roundtrip by done.
  destruct (bool_decide_reflect (bytes_of "VAR:" ++ hex_encode b = bytes_of "NOT_SUPPORTED")) as [E | _]; [now rewrite E in E2|].
  change (has_prefix (bytes_of "EXT:") _) with false. rewrite andb_false_r.
  destruct (Z.leb_spec 13 (4 + 2 * len b)); [|lia]. cbn [andb mbind outcome_bind]. destruct (Z.ltb_spec (len b) 9); [lia|].
  rewrite Bytes.index_ok, !subrange_ok by lia. cbn [mbind outcome_bind]. change (byte_at b 0) with (FlagsToByte a).
  change (take (Z.to_nat (5 - 1)) (drop (Z.to_nat 1) b)) with (take 4 (drop 0 (w4 ++ n4 ++ a_data a))).
  change (take (Z.to_nat (9 - 5)) (drop (Z.to_nat 5) b)) with (take 4 (drop 4 (w4 ++ n4 ++ a_data a))).
  replace (drop 9 b) with (drop 4 (drop 4 (w4 ++ n4 ++ a_data a))) by (now rewrite drop_drop).
  rewrite drop_0, take_app_length', !drop_app_length', take_app_length' by done.
  unfold n4, w4, u32. rewrite !be_uint_be_bytes by (change (8 * Z.of_nat 4) with 32; lia).
  unfold NewAddressVar, plain, WithAnycast, SetAnycast, modify. cbn [snd]. rewrite parseFlags_byte, Ht. unfold s32. do 2 f_equal; lia.
Qed.

Lemma unmarshal_std a : valid a -> a_type a = StdAddress -> unmarshal (to_string a) = Ok (plain a).
Proof.
  intros Hv Ht. destruct (codeword_letters a Hv Ht) as (Hs & Hl). rewrite (text_letters a Ht).
  assert (Hl48 : length (letter RawURLEncoding <$> to_sextets (codeword a)) = 48%nat) by now rewrite length_fmap.
  unfold unmarshal. rewrite !bool_decide_eq_false_2 by (intros E; rewrite E in Hl48; cbn in Hl48; lia).
  assert (Hp : forall p, nth 3 p 0 = 58 -> length p = 4%nat -> has_prefix p (letter RawURLEncoding <$> to_sextets (codeword a)) = false).
  { intros p Hp Hlp. unfold has_prefix. apply bool_decide_eq_false_2. intros E. apply (f_equal (fun l => nth 3 l 0)) in E. rewrite Hlp, nth_take, Hp in E by lia.
    destruct (to_sextets (codeword a)) as [|v0 [|v1 [|v2 [|v3 vs]]]]; cbn [length] in Hl; try lia. cbn [fmap list_fmap nth] in E.
    assert (Hv3 : sextet v3) by now decompose_Forall_hyps. unfold sextet in Hv3. revert E. unfold letter. cbn [RawURLEncoding e_62 e_63].
    repeat case_match; lia. }
  rewrite !Hp, !andb_false_r by reflexivity. apply parse_codeword; [done..|]. apply base64_roundtrip; [now left|apply (codeword_ok a Hv Ht)].
Qed.

Lemma unmarshal_text a : valid a -> unmarshal (to_string a) = Ok (plain a).
Proof.
  intros Hv. destruct (a_type a) eqn:Ht; [|now apply unmarshal_ext|now apply unmarshal_std|now apply unmarshal_var].
  destruct Hv as [_ H]. rewrite Ht in H. destruct a as [fl ty wc n d ac]. cbn in *. destruct H as (-> & -> & -> & ->). subst ty. reflexivity.
Qed.

Lemma marshal_quotes a old : valid a -> UnmarshalJSON (MarshalJSON a) old = (Ok tt, plain a).
Proof.
  intros Hv. unfold UnmarshalJSON, MarshalJSON. set (s := to_string a). assert (Hl : len ([34] ++ s ++ [34]) = len s + 2) by (rewrite !len_app; change (len [34]) with 1; lia).
  pose proof (len_nonneg s). rewrite Hl. destruct (Z.ltb_spec (len s + 2) 2); [lia|].
  assert (Hlast : last ([34] ++ s ++ [34]) = Some 34) by (rewrite app_assoc; apply last_snoc). rewrite Hlast. change (head ([34] ++ s ++ [34])) with (Some 34).
  rewrite !bool_decide_eq_true_2 by done. cbn [negb orb]. rewrite subrange_ok by lia.
  replace (take _ (drop _ _)) with s; [mrun; unfold s; rewrite (unmarshal_text a Hv); now mrun|].
  change (drop (Z.to_nat 1) ([34] ++ s ++ [34])) with (drop 0 (s ++ [34])). rewrite drop_0, take_app_length'; [done|unfold len; lia].
Qed.

(** C23: The texts of addresses are read back.  The short text and the raw text of a
    standard address give the address again, the raw one with the default flags; the
    JSON text gives back an address of every kind.  An anycast prefix is in no text. *)
Theorem address_texts_roundtrip a old : valid a ->
  (a_type a = StdAddress ->
     ParseAddr (to_string a) = Ok (plain a) /\ ParseRawAddr (StringRaw a) = Ok (Testnet (Bounce (plain a) true) false)) /\
  UnmarshalJSON (MarshalJSON a) old = (Ok tt, plain a).
Proof.
  intros Hv. split; [|now apply marshal_quotes]. intros Ht. split; [|now apply parse_raw].
  rewrite (text_letters a Ht). apply parse_codeword; [done..|]. apply base64_roundtrip; [now left|apply (codeword_ok a Hv Ht)].
Qed.

Example address_texts_roundtrip_witness :
  (a_type sample_address = StdAddress ->
     ParseAddr (to_string sample_address) = Ok (plain sample_address) /\
     ParseRawAddr (StringRaw sample_address) = Ok (Testnet (Bounce (plain sample_address) true) false)) /\
  UnmarshalJSON (MarshalJSON sample_address) NewAddressNone = (Ok tt, plain sample_address).
Proof. apply (address_texts_roundtrip sample_address NewAddressNone). exact sample_address_valid. Defined.

(** ** Comparison *)

(** [Equals] leaves the kind and the length of an address out: an external address of
    256 bits is taken for the standard address of the basechain with the same data. *)
Lemma equals_across_kinds data : bytes_ok data -> length data = 32%nat ->
  valid (NewAddress 0x11 0 data) /\ valid (NewAddressExt 0x11 256 data) /\ Equals (NewAddress 0x11 0 data) (NewAddressExt 0x11 256 data) = true.
Proof.
  intros Hb Hl. split_and!; [split; [done|]; change (-128 <= s8 0 <= 127 /\ 256 = 256 /\ length data = 32%nat); unfold s8; lia|split; [done|]; change (0 = 0 /\ 0 <= 256 < 2 ^ 32); lia|]. unfold Equals. cbn [a_workchain NewAddress NewAddressExt a_data a_anycast anycastEqual].
  rewrite bool_decide_eq_true_2 by done. reflexivity.
Qed.
