(* ===== verification/CellData.v ===== *)
(** * Structured data in cells

    Models the stores of [tvm/cell/builder.go] and the loads of [slice.go] and
    [dict.go] for data larger than integers: addresses, byte strings spread over a
    chain of cells ("snake" data), dictionaries, and the cell of what is left in a
    slice.  Slices carry no trace and do not force a copy. *)

From S2P Require Import Prelude Bytes CellModel Builder Finalize Slice DictNode Dict DictBulk Address.
From stdpp Require Import strings.
#[local] Open Scope Z_scope.

(** ** Addresses *)

(** The bit and, when there is one, the prefix of an anycast address. *)
Definition store_anycast (anycast : option Anycast) : M Builder unit :=
  match anycast with
  | None => StoreUInt 0 1
  | Some ac => StoreUInt 1 1 ;; StoreUInt (ac_depth ac) 5 ;; StoreSlice (ac_prefix ac) (ac_depth ac)
  end.

Definition StoreAddr (addr : option Address) : M Builder unit :=
  b ← get_state;
  let store_none := guard_err (1024 <=? u64 (b_bitsSz b + 2)) ErrNotFit1023 ;; StoreUInt 0 2 in
  match addr with
  | None => store_none
  | Some addr =>
      if bool_decide (a_type addr = NoneAddress) then store_none else
      anycastBits ← match a_anycast addr with
                    | None => mret 0
                    | Some ac =>
                        guard_err ((ac_depth ac =? 0) || (30 <? ac_depth ac)) ErrTooBigSize ;;
                        guard_err (u64 (len (ac_prefix ac) * 8) <? ac_depth ac) ErrSmallSlice ;;
                        mret (5 + ac_depth ac)
                    end;
      let bitsLen := a_bitsLen addr in
      match a_type addr with
      | ExtAddress =>
          guard_err (1024 <=? u64 (b_bitsSz b + 2 + 9 + bitsLen)) ErrNotFit1023 ;;
          StoreUInt 1 2 ;;
          StoreUInt bitsLen 9 ;;
          StoreSlice (a_data addr) bitsLen
      | StdAddress =>
          guard_err (1024 <=? u64 (b_bitsSz b + 2 + 1 + anycastBits + 8 + 256)) ErrNotFit1023 ;;
          StoreUInt 2 2 ;;
          store_anycast (a_anycast addr) ;;
          StoreUInt (u8 (a_workchain addr)) 8 ;;
          StoreSlice (a_data addr) 256
      | VarAddress =>
          guard_err (1024 <=? u64 (b_bitsSz b + 2 + 1 + anycastBits + 9 + 32 + bitsLen)) ErrNotFit1023 ;;
          StoreUInt 3 2 ;;
          store_anycast (a_anycast addr) ;;
          StoreUInt bitsLen 9 ;;
          StoreInt (a_workchain addr) 32 ;;
          StoreSlice (a_data addr) bitsLen
      | NoneAddress => fail ErrAddressTypeNotSupported
      end
  end.

Definition load_anycast : M Slice (option Anycast) :=
  isAnycast ← LoadBoolBit;
  if negb isAnycast then mret None
  else
    depth ← LoadUInt 5;
    guard_err ((depth =? 0) || (30 <? depth)) (ErrText "invalid anycast depth") ;;
    pfx ← loadSlice depth false;
    mret (Some (mkAnycast depth pfx)).

(** The code attaches the prefix only when there is one. *)
Definition with_anycast (addr : Address) (anycast : option Anycast) : Address :=
  match anycast with None => addr | Some _ => WithAnycast addr anycast end.

Definition LoadAddr : M Slice Address :=
  typ ← LoadUInt 2;
  if typ =? 0 then mret NewAddressNone
  else if typ =? 1 then
    ln ← LoadUInt 9;
    data ← loadSlice ln false;
    mret (NewAddressExt 0 ln data)
  else if typ =? 2 then
    anycast ← load_anycast;
    workchain ← LoadUInt 8;
    data ← loadSliceInto (replicate 32 0) 256 false;
    mret (with_anycast (NewAddress 0 (u8 workchain) data) anycast)
  else if typ =? 3 then
    anycast ← load_anycast;
    ln ← LoadUInt 9;
    workchain ← LoadInt 32;
    data ← loadSlice ln false;
    mret (with_anycast (NewAddressVar 0 (s32 workchain) ln data) anycast)
  else fail (ErrText "not supported type of address").

(** ** Byte strings over chains of cells *)

Definition preflightSnake (b : Builder) (tailBytes : Z) : outcome unit :=
  if tailBytes =? 0 then Ok tt
  else if 4 <=? len (b_refs b) then Err ErrTooMuchRefs
  else
    let cells := (tailBytes - 1) / 127 + 1 in
    if maxDepth <=? cells - 1 then Err ErrCellDepthLimit else Ok tt.

(** [StoreSlice] of whole bytes, and of the bytes of a string through an array of 127. *)
Definition store_bytes (data : list Z) : M Builder unit := StoreSlice data (len data * 8).

Definition storeStringBytes (str : list Z) : M Builder unit :=
  if len str =? 0 then mret tt
  else
    data ← lift (subrange (take 127 str ++ replicate (127 - length str) 0) 0 (len str));
    StoreSlice data (len str * 8).

(** The loop of the two [build...SnakeTail] functions: [store] writes one part. *)
Fixpoint snake_tail (fuel : nat) (store : list Z -> M Builder unit) (data : list Z) (end_ : Z) (child : option Cell)
    : outcome (option Cell) :=
  if negb (0 <? end_) then Ok child
  else
    match fuel with
    | O => Panic
    | S fuel =>
        let start := Z.max 0 (end_ - 127) in
        bytes ← subrange data start end_;
        '(_, part) ← run (store bytes) BeginCell;
        '(_, part) ← match child with
                     | None => Ok (tt, part)
                     | Some _ => run (storeRef child true) part
                     end;
        child ← EndCellSpecial false part;
        snake_tail fuel store data start (Some child)
    end.

Definition buildBinarySnakeTail (data : list Z) : outcome (option Cell) := snake_tail (length data) store_bytes data (len data) None.
Definition buildStringSnakeTail (str : list Z) : outcome (option Cell) := snake_tail (length str) storeStringBytes str (len str) None.

(** The body of the two stores: everything happens on a copy of the builder. *)
Definition store_snake (store : list Z -> M Builder unit) (tail : list Z -> outcome (option Cell)) (data : list Z) : M Builder unit :=
  b ← get_state;
  let first := Z.min (len data) (Builder.BitsLeft b / 8) in
  lift (preflightSnake b (len data - first)) ;;
  bytes ← lift (subrange data 0 first);
  '(_, tmp) ← lift (run (store bytes) b);
  tmp ← lift (if first <? len data then
                rest ← subrange data first (len data);
                child ← tail rest;
                '(_, tmp) ← run (storeRef child true) tmp;
                Ok tmp
              else Ok tmp);
  put_state tmp.

Definition StoreBinarySnake (data : list Z) : M Builder unit := store_snake store_bytes buildBinarySnakeTail data.
Definition StoreStringSnake (str : list Z) : M Builder unit := store_snake storeStringBytes buildStringSnakeTail str.

(** What the loop of [LoadBinarySnake] reads from a referenced cell on. *)
Fixpoint load_snake (c : Cell) : outcome (list Z) :=
  let s := newSliceFromCell c in
  let bits := BitsLeft s in
  data ← fst (loadSliceInto (replicate (Z.to_nat ((bits + 7) / 8)) 0) bits false s);
  if 1 <? RefsNum s then Err (ErrText "more than one ref, it is not snake string")
  else if RefsNum s =? 0 then Ok data
  else
    match c with
    | mkCell _ _ _ _ (r :: _) _ _ => rest ← load_snake r; Ok (data ++ rest)
    | _ => Panic
    end.

Definition LoadBinarySnake : M Slice (list Z) :=
  s ← get_state;
  let bits := BitsLeft s in
  data ← loadSliceInto (replicate (Z.to_nat ((bits + 7) / 8)) 0) bits false;
  guard_err (1 <? RefsNum s) (ErrText "more than one ref, it is not snake string") ;;
  if RefsNum s =? 0 then mret data
  else
    r ← loadRefCell true;
    rest ← lift (load_snake r);
    mret (data ++ rest).

(** ** Cells from slices *)

Definition ToCell (c : Slice) : outcome Cell :=
  let left := BitsLeft c in
  let fullCell := (s_bitStart c =? 0) && (s_bitEnd c =? c_bitsSz (s_cell c)) && (s_refStart c =? 0) &&
                  (s_refEnd c =? len (c_refs (s_cell c))) in
  if fullCell then Ok (s_cell c)
  else
    data ← fst (loadSliceInto (replicate (Z.to_nat ((left + 7) / 8)) 0) left true c);
    let refs := take (Z.to_nat (RefsNum c)) (drop (Z.to_nat (s_refStart c)) (c_refs (s_cell c))) in
    let cl := setLevelMask (mkCell data (u16 left) false 0 refs [] []) (ordinaryLevelMask refs) in
    fst (validateCellRefDepthLimit refs tt) ;;
    validateBoundaryCell cl ;;
    calculateHashes cl.

(** ** Dictionaries *)

(** [StoreDict]; [None] is a nil dictionary. *)
Definition StoreDict (dict : option Dictionary) : M Builder unit :=
  storeMaybeRef (dict ≫= d_root) true.

Definition loadMaybeRefCell : M Slice (option Cell) :=
  has ← LoadBoolBit;
  if negb has then mret None
  else
    ref ← loadRefCell true;
    mret (Some ref).

Definition LoadDict (keySz : Z) : M Slice Dictionary :=
  root ← loadMaybeRefCell;
  match root with
  | None => mret (mkDict keySz None)
  | Some _ =>
      lift (validateDictKeySize keySz) ;;
      mret (mkDict keySz root)
  end.

Definition LoadOptionalDict (keySz : Z) : M Slice (option Dictionary) :=
  lift (validateDictKeySize keySz) ;;
  root ← loadMaybeRefCell;
  match root with
  | None => mret None
  | Some _ => mret (Some (mkDict keySz root))
  end.

Definition ToDict (c : Slice) (keySz : Z) : outcome Dictionary :=
  root ← ToCell c;
  validateDictKeySize keySz ;;
  Ok (mkDict keySz (Some root)).
