(* ===== verification/CellDataTheorems.v ===== *)
(** * Structured data survives its cell

    Addresses, byte strings over chains of cells and dictionaries are read back as they
    were stored.  [stores] and [loads] say what a sequence of stores writes and what a
    sequence of loads makes of these bits. *)

From S2P Require Import Prelude Bytes CellModel Builder Finalize BuilderSpec BuilderOps Slice SliceSpec Codec CellHash CellTheorems DictNode Dict.
From S2P Require Import DictBulk Address CellData.
From stdpp Require Import strings.
#[local] Open Scope Z_scope.

(** ** Sequences of stores and of loads *)

Definition stores (m : M Builder unit) (bs : list bool) : Prop :=
  forall b, wf b -> b_bitsSz b + len bs <= 1023 -> m b = (Ok tt, append b bs).

Definition loads {A} (m : M Slice A) (bs : list bool) (a : A) : Prop :=
  forall s rest, swf s -> sbits s = bs ++ rest -> m s = (Ok a, skip s (len bs)).

Lemma stores_then m k bs cs : stores m bs -> stores k cs -> stores (m ;; k) (bs ++ cs).
Proof.
  intros Hm Hk b Hwf Hfit. rewrite len_app in Hfit. pose proof (len_nonneg cs). rewrite (bind_Ok _ _ _ _ _ (Hm b Hwf ltac:(lia))).
  rewrite Hk; [now rewrite append_app by (done || lia)|apply wf_append; done || lia|cbn [append b_bitsSz]; lia].
Qed.

Lemma loads_bind {A B} (m : M Slice A) (k : A -> M Slice B) bs cs a b : loads m bs a -> loads (k a) cs b -> loads (m ≫= k) (bs ++ cs) b.
Proof.
  intros Hm Hk s rest Hwf H. rewrite <-app_assoc in H. rewrite (bind_Ok _ _ _ _ _ (Hm s _ Hwf H)).
  destruct (sbits_skip_app s _ _ Hwf H) as [Hwf1 H1]. rewrite (Hk _ _ Hwf1 H1), skip_skip, len_app. done.
Qed.

Lemma loads_ret {A} (a : A) : loads (mret a) [] a.
Proof. intros s rest _ _. change (len []) with 0. now rewrite skip_0. Qed.

Lemma loads_end {A} (m : M Slice A) bs a : loads m (bs ++ []) a -> loads m bs a.
Proof. now rewrite app_nil_r. Qed.

Lemma codec_stores {A} (C : Codec A) a : cvalid C a -> stores (cstore C a) (cbits C a).
Proof. intros Ha b Hwf Hfit. now apply (cstore_ok C). Qed.

Lemma codec_loads {A} (C : Codec A) a : cvalid C a -> loads (cload C) (cbits C a) a.
Proof. intros Ha s rest Hwf H. now apply (cload_ok C s a rest). Qed.

Lemma stores_uint v sz : 0 <= sz <= 64 -> 0 <= v < 2 ^ sz -> stores (StoreUInt v sz) (uint_bits sz v).
Proof. intros Hsz Hv. exact (codec_stores (uint_codec sz Hsz) v Hv). Qed.

Lemma loads_uint v sz : 0 <= sz <= 64 -> 0 <= v < 2 ^ sz -> loads (LoadUInt sz) (uint_bits sz v) v.
Proof. intros Hsz Hv. exact (codec_loads (uint_codec sz Hsz) v Hv). Qed.

Lemma stores_int32 v : - 2 ^ 31 <= v < 2 ^ 31 -> stores (StoreInt v 32) (uint_bits 32 v).
Proof.
  intros Hv. refine (codec_stores (int_codec 32 ltac:(lia)) v _). cbn [cvalid int_codec fit_codec]. split; [lia|]. unfold signed_range. cbn. lia.
Qed.

Lemma loads_int32 v : - 2 ^ 31 <= v < 2 ^ 31 -> loads (LoadInt 32) (uint_bits 32 v) v.
Proof.
  intros Hv. refine (codec_loads (int_codec 32 ltac:(lia)) v _). cbn [cvalid int_codec fit_codec]. split; [lia|]. unfold signed_range. cbn. lia.
Qed.

Lemma loads_bool v : loads LoadBoolBit [v] v.
Proof. exact (codec_loads bool_codec v I). Qed.

Lemma stores_slice data n : bytes_ok data -> 0 <= n <= 8 * len data -> 8 * len data < 2 ^ 63 -> stores (StoreSlice data n) (window data 0 n).
Proof. intros Hd Hn Hl b Hwf Hfit. rewrite length_window in Hfit by lia. now apply StoreSlice_ok. Qed.

Lemma loads_slice bs : loads (loadSlice (len bs) false) bs (pack (Z.to_nat ((len bs + 7) / 8)) bs).
Proof.
  intros s rest Hwf H. pose proof (len_nonneg bs). rewrite loadSlice_run by done.
  exact (read_fit_app s bs rest (pack (Z.to_nat ((len bs + 7) / 8))) Hwf H).
Qed.

Lemma loads_slice_into bs buf : bytes_ok buf -> len buf = (len bs + 7) / 8 ->
  loads (loadSliceInto buf (len bs) false) bs (pack (Z.to_nat ((len bs + 7) / 8)) bs).
Proof.
  intros Hbuf Hl s rest Hwf H. pose proof (len_nonneg bs). rewrite loadSliceInto_run by done.
  pose proof (read_fit_app s bs rest (pack (Z.to_nat ((len bs + 7) / 8))) Hwf H) as Hr. unfold read_fit in Hr.
  destruct (BitsLeft s <? len bs); [done|]. destruct (Z.ltb_spec (len buf) ((len bs + 7) / 8)); [lia|].
  rewrite drop_ge, app_nil_r by (unfold len in *; lia). exact Hr.
Qed.

(** ** Addresses *)

(** The first [n] bits of [data], in whole bytes. *)
Definition trim (n : Z) (data : list Z) : list Z := pack (Z.to_nat ((n + 7) / 8)) (window data 0 n).

Definition anycast_bits (anycast : option Anycast) : list bool :=
  match anycast with
  | None => uint_bits 1 0
  | Some ac => uint_bits 1 1 ++ uint_bits 5 (ac_depth ac) ++ window (ac_prefix ac) 0 (ac_depth ac)
  end.

Definition address_bits (a : Address) : list bool :=
  match a_type a with
  | NoneAddress => uint_bits 2 0
  | ExtAddress => uint_bits 2 1 ++ uint_bits 9 (a_bitsLen a) ++ window (a_data a) 0 (a_bitsLen a)
  | StdAddress => uint_bits 2 2 ++ anycast_bits (a_anycast a) ++ uint_bits 8 (u8 (a_workchain a)) ++ window (a_data a) 0 256
  | VarAddress => uint_bits 2 3 ++ anycast_bits (a_anycast a) ++ uint_bits 9 (a_bitsLen a) ++ uint_bits 32 (a_workchain a) ++
                  window (a_data a) 0 (a_bitsLen a)
  end.

Definition anycast_ok (anycast : option Anycast) : Prop :=
  match anycast with
  | None => True
  | Some ac => 1 <= ac_depth ac <= 30 /\ bytes_ok (ac_prefix ac) /\ ac_depth ac <= 8 * len (ac_prefix ac) < 2 ^ 63
  end.

(** Addresses with enough data for their length. *)
Definition storable (a : Address) : Prop :=
  bytes_ok (a_data a) /\ 8 * len (a_data a) < 2 ^ 63 /\
  match a_type a with
  | NoneAddress => True
  | ExtAddress => 0 <= a_bitsLen a < 512 /\ a_bitsLen a <= 8 * len (a_data a) /\ anycast_ok (a_anycast a)
  | StdAddress => 256 <= 8 * len (a_data a) /\ anycast_ok (a_anycast a)
  | VarAddress => 0 <= a_bitsLen a < 512 /\ a_bitsLen a <= 8 * len (a_data a) /\ - 2 ^ 31 <= a_workchain a < 2 ^ 31 /\ anycast_ok (a_anycast a)
  end.

(** What is read back: default flags, the data cut to its length, a workchain of one
    byte for a standard address. *)
Definition loaded_anycast (anycast : option Anycast) : option Anycast :=
  (fun ac => mkAnycast (ac_depth ac) (trim (ac_depth ac) (ac_prefix ac))) <$> anycast.

Definition loaded (a : Address) : Address :=
  match a_type a with
  | NoneAddress => NewAddressNone
  | ExtAddress => NewAddressExt 0 (a_bitsLen a) (trim (a_bitsLen a) (a_data a))
  | StdAddress => with_anycast (NewAddress 0 (u8 (a_workchain a)) (trim 256 (a_data a))) (loaded_anycast (a_anycast a))
  | VarAddress => with_anycast (NewAddressVar 0 (a_workchain a) (a_bitsLen a) (trim (a_bitsLen a) (a_data a))) (loaded_anycast (a_anycast a))
  end.

Lemma stores_anycast anycast : anycast_ok anycast -> stores (store_anycast anycast) (anycast_bits anycast).
Proof.
  destruct anycast as [[d p] |]; intros H; [|apply stores_uint; lia]. cbn [anycast_ok ac_depth ac_prefix] in H. destruct H as (Hd & Hp & Hl).
  cbn [store_anycast anycast_bits ac_depth ac_prefix]. apply stores_then; [apply stores_uint; lia|].
  apply stores_then; [apply stores_uint; lia|]. apply stores_slice; [done|lia..].
Qed.

Lemma loads_guard {A} (c : bool) e (k : unit -> M Slice A) bs a : c = false -> loads (k tt) bs a -> loads (guard_err c e ≫= k) bs a.
Proof. intros -> Hk s rest Hwf H. rewrite bind_guard. exact (Hk s rest Hwf H). Qed.

Lemma loads_anycast anycast : anycast_ok anycast -> loads load_anycast (anycast_bits anycast) (loaded_anycast anycast).
Proof.
  unfold load_anycast. destruct anycast as [[d p] |]; intros H.
  - cbn [anycast_ok ac_depth ac_prefix] in H. destruct H as (Hd & Hp & Hl). unfold anycast_bits. cbn [ac_depth ac_prefix].
    change (uint_bits 1 1) with [true]. eapply loads_bind; [apply loads_bool|]. cbn [negb].
    eapply loads_bind; [apply loads_uint; lia|]. apply loads_guard; [split_cmp; done|]. apply loads_end.
    pose proof (loads_slice (window p 0 d)) as Hs. rewrite length_window in Hs by lia. eapply loads_bind; [exact Hs|apply loads_ret].
  - change (anycast_bits None) with ([false] ++ []). eapply loads_bind; [apply loads_bool|]. apply loads_ret.
Qed.

Lemma len_anycast_bits anycast : anycast_ok anycast -> len (anycast_bits anycast) = 1 + match anycast with None => 0 | Some ac => 5 + ac_depth ac end.
Proof.
  destruct anycast as [[d p] |]; intros H; [|done]. cbn [anycast_ok ac_depth ac_prefix] in H. unfold anycast_bits. cbn [ac_depth ac_prefix].
  rewrite !len_app, !length_uint_bits, length_window by lia. lia.
Qed.

(** The check of the anycast prefix, which leaves its size. *)
Lemma check_anycast {B} anycast (k : Z -> M Builder B) b : anycast_ok anycast ->
  (match anycast with
   | None => mret 0
   | Some ac =>
       guard_err ((ac_depth ac =? 0) || (30 <? ac_depth ac)) ErrTooBigSize ;;
       guard_err (u64 (len (ac_prefix ac) * 8) <? ac_depth ac) ErrSmallSlice ;;
       mret (5 + ac_depth ac)
   end ≫= k) b = k (len (anycast_bits anycast) - 1) b.
Proof.
  intros H. rewrite len_anycast_bits by done. destruct anycast as [[d p] |]; [|done]. cbn [anycast_ok ac_depth ac_prefix] in H. destruct H as (Hd & _ & Hl).
  cbn [ac_depth ac_prefix]. unfold u64. rewrite Z.mod_small by lia. mrun. split_cmp. cbn [orb]. f_equal. lia.
Qed.

(** A store guarded by the size of what it writes. *)
Lemma guarded_stores m bs n b : stores m bs -> wf b -> n = b_bitsSz b + len bs -> n < 2 ^ 64 ->
  (guard_err (1024 <=? u64 n) ErrNotFit1023 ;; m) b = store_fit b bs.
Proof.
  intros Hm Hwf -> Hn. pose proof (len_nonneg bs). pose proof (wf_sz _ Hwf). unfold u64. rewrite Z.mod_small by lia. rewrite bind_guard. unfold store_fit.
  split_cmp; [done|]. apply Hm; [done|lia].
Qed.

Lemma StoreAddr_run a b : storable a -> wf b -> StoreAddr (Some a) b = store_fit b (address_bits a).
Proof.
  intros (Hd & Hl & H) Hwf. pose proof (wf_sz _ Hwf) as Hsz. unfold StoreAddr. rewrite bind_get. unfold address_bits. destruct (a_type a) eqn:Ht.
  - rewrite bool_decide_eq_true_2 by done. apply guarded_stores; [apply stores_uint; lia|done|rewrite length_uint_bits; lia|lia].
  - destruct H as (Hn & Hnl & Hac). rewrite bool_decide_eq_false_2 by done. rewrite check_anycast by done.
    apply guarded_stores; [|done|rewrite !len_app, !length_uint_bits, length_window; lia|lia].
    repeat (apply stores_then; [apply stores_uint; lia|]). now apply stores_slice; try lia.
  - destruct H as (Hnl & Hac). rewrite bool_decide_eq_false_2 by done. rewrite check_anycast by done. pose proof (len_anycast_bits _ Hac) as Hla.
    assert (len (anycast_bits (a_anycast a)) <= 36) by (rewrite Hla; destruct (a_anycast a) as [ac |]; [cbn in Hac; lia|lia]).
    apply guarded_stores; [|done|rewrite !len_app, !length_uint_bits, length_window; lia|lia].
    apply stores_then; [apply stores_uint; lia|]. apply stores_then; [now apply stores_anycast|].
    apply stores_then; [apply stores_uint; [lia|unfold u8; lia]|]. now apply stores_slice; try lia.
  - destruct H as (Hn & Hnl & Hw & Hac). rewrite bool_decide_eq_false_2 by done. rewrite check_anycast by done. pose proof (len_anycast_bits _ Hac) as Hla.
    assert (len (anycast_bits (a_anycast a)) <= 36) by (rewrite Hla; destruct (a_anycast a) as [ac |]; [cbn in Hac; lia|lia]).
    apply guarded_stores; [|done|rewrite !len_app, !length_uint_bits, length_window; lia|lia].
    apply stores_then; [apply stores_uint; lia|]. apply stores_then; [now apply stores_anycast|].
    apply stores_then; [apply stores_uint; lia|]. apply stores_then; [now apply stores_int32|]. now apply stores_slice; try lia.
Qed.

Lemma LoadAddr_loads a : storable a -> loads LoadAddr (address_bits a) (loaded a).
Proof.
  intros (Hd & Hl & H). unfold LoadAddr, address_bits, loaded. destruct (a_type a) eqn:Ht.
  - apply loads_end. eapply loads_bind; [apply loads_uint; lia|]. apply loads_ret.
  - destruct H as (Hn & Hnl & Hac). eapply loads_bind; [apply loads_uint; lia|]. cbn [Z.eqb Pos.eqb]. eapply loads_bind; [apply loads_uint; lia|].
    apply loads_end. pose proof (loads_slice (window (a_data a) 0 (a_bitsLen a))) as Hs. rewrite length_window in Hs by lia.
    eapply loads_bind; [exact Hs|apply loads_ret].
  - destruct H as (Hnl & Hac). eapply loads_bind; [apply loads_uint; lia|]. cbn [Z.eqb Pos.eqb]. eapply loads_bind; [now apply loads_anycast|].
    eapply loads_bind; [apply loads_uint; [lia|unfold u8; lia]|]. apply loads_end.
    pose proof (loads_slice_into (window (a_data a) 0 256) (replicate 32 0)) as Hs. rewrite length_window in Hs by lia.
    eapply loads_bind; [apply Hs; [apply Forall_replicate; lia|done]|].
    replace (u8 (u8 (a_workchain a))) with (u8 (a_workchain a)) by (unfold u8; lia). apply loads_ret.
  - destruct H as (Hn & Hnl & Hw & Hac). eapply loads_bind; [apply loads_uint; lia|]. cbn [Z.eqb Pos.eqb]. eapply loads_bind; [now apply loads_anycast|].
    eapply loads_bind; [apply loads_uint; lia|]. eapply loads_bind; [now apply loads_int32|]. apply loads_end.
    pose proof (loads_slice (window (a_data a) 0 (a_bitsLen a))) as Hs. rewrite length_window in Hs by lia.
    eapply loads_bind; [exact Hs|]. replace (s32 (a_workchain a)) with (a_workchain a) by (unfold s32; lia). apply loads_ret.
Qed.

(** C24: An address stored in a builder is read back.  The store refuses it only for want
    of room, leaving the builder as it was; otherwise a load at its place gives the
    address with its data cut to its length and the default flags, and ends where the
    store ended. *)
Theorem address_cell_roundtrip a b :
  storable a -> wf b ->
  (StoreAddr (Some a) b = (Err ErrNotFit1023, b) /\ 1023 < b_bitsSz b + len (address_bits a)) \/
  (exists b', StoreAddr (Some a) b = (Ok tt, b') /\
     forall c, holds c b' -> LoadAddr (skip (newSliceFromCell c) (b_bitsSz b)) = (Ok (loaded a), skip (newSliceFromCell c) (b_bitsSz b'))).
Proof.
  intros Ha Hwf. rewrite StoreAddr_run by done. unfold store_fit. destruct (Z.ltb_spec 1023 (b_bitsSz b + len (address_bits a))) as [|Hfit]; [now left|right].
  eexists. split; [reflexivity|]. intros c Hc. destruct (holds_slice c _ (wf_append b _ Hwf Hfit) Hc) as (Hs & Hb & _).
  rewrite bits_append in Hb by done. destruct (sbits_skip_app _ _ _ Hs Hb) as [Hs1 Hb1]. rewrite len_bits in * by done.
  rewrite (LoadAddr_loads a Ha _ [] Hs1) by now rewrite app_nil_r. now rewrite skip_skip.
Qed.

Definition sample_std : Address := mkAddress (mkFlags true false) StdAddress (-1) 256 (replicate 32 7) (Some (mkAnycast 5 [0xA8])).

Lemma sample_std_storable : storable sample_std.
Proof.
  split; [apply Forall_replicate; lia|]. split; [vm_compute; reflexivity|]. split; [vm_compute; discriminate|].
  cbn [sample_std a_anycast anycast_ok ac_depth ac_prefix]. split; [lia|]. split; [apply bytes_ok_one; lia|]. vm_compute. split; [discriminate|reflexivity].
Qed.

Example address_cell_roundtrip_witness :
  (StoreAddr (Some sample_std) BeginCell = (Err ErrNotFit1023, BeginCell) /\ 1023 < b_bitsSz BeginCell + len (address_bits sample_std)) \/
  (exists b', StoreAddr (Some sample_std) BeginCell = (Ok tt, b') /\
     forall c, holds c b' -> LoadAddr (skip (newSliceFromCell c) (b_bitsSz BeginCell)) = (Ok (loaded sample_std), skip (newSliceFromCell c) (b_bitsSz b'))).
Proof. apply (address_cell_roundtrip sample_std BeginCell); [exact sample_std_storable|exact wf_begin]. Defined.

(** A length the format has no room for is noticed after the tag is stored. *)
Lemma store_addr_partial data n b : wf b -> 512 <= n -> b_bitsSz b + 11 + n <= 1023 ->
  StoreAddr (Some (NewAddressExt 0 n data)) b = (Err ErrTooBigValue, append b (uint_bits 2 1)).
Proof.
  intros Hwf Hn Hfit. pose proof (wf_sz _ Hwf). unfold StoreAddr. rewrite bind_get. cbn [a_type NewAddressExt a_anycast a_bitsLen a_data].
  rewrite bool_decide_eq_false_2 by done. rewrite bind_ret, bind_guard. replace (1024 <=? _) with false by (unfold u64; rewrite Z.mod_small by lia; split_cmp; done).
  assert (Hs : StoreUInt 1 2 b = (Ok tt, append b (uint_bits 2 1))) by (apply stores_uint; [lia..|done|rewrite length_uint_bits; lia]).
  rewrite (bind_Ok _ _ _ _ _ Hs). rewrite (bind_Err _ _ _ ErrTooBigValue (append b (uint_bits 2 1))); [done|].
  rewrite StoreUInt_run; [|apply wf_append; [done|rewrite length_uint_bits; lia]|lia..]. split_cmp. done.
Qed.

(** ** Snake data *)

Definition byte_bits (d : list Z) : list bool := window d 0 (8 * len d).

Lemma len_byte_bits d : len (byte_bits d) = 8 * len d.
Proof. apply length_window. pose proof (len_nonneg d). lia. Qed.

Lemma pack_byte_bits d : bytes_ok d -> pack (Z.to_nat ((8 * len d + 7) / 8)) (byte_bits d) = d.
Proof.
  intros Hd. pose proof (len_nonneg d) as Hl. replace ((8 * len d + 7) / 8) with (len d) by lia. symmetry. apply pack_unique; [done|unfold len; lia|].
  intros i Hi. unfold byte_bits. rewrite nth_window_Z by lia. split_cmp. done.
Qed.

(** A store of whole bytes, of at most 127. *)
Definition part_store (st : list Z -> M Builder unit) : Prop :=
  forall d, bytes_ok d -> len d <= 127 -> stores (st d) (byte_bits d).

Lemma store_bytes_part : part_store store_bytes.
Proof.
  intros d Hd Hl. pose proof (len_nonneg d). unfold store_bytes, byte_bits. rewrite Z.mul_comm. apply stores_slice; [done|lia..].
Qed.

Lemma storeStringBytes_eq d : len d <= 127 -> storeStringBytes d = store_bytes d.
Proof.
  intros Hl. unfold storeStringBytes, store_bytes. destruct (Z.eqb_spec (len d) 0) as [E | E]; [destruct d; [done|rewrite len_cons in E; pose proof (len_nonneg d); lia]|].
  assert (Ht : take 127 d = d) by (apply take_ge; unfold len in Hl; lia). rewrite Ht, subrange_prefix.
  - change (lift (Ok ?x) ≫= ?k) with (k x). rewrite take_app_length'; [done|unfold len; lia].
  - rewrite len_app. pose proof (len_nonneg d). pose proof (len_nonneg (replicate (127 - length d) 0)). lia.
Qed.

Lemma len_sub {A} (d : list A) a b : 0 <= a <= b -> b <= len d -> len (take (Z.to_nat (b - a)) (drop (Z.to_nat a) d)) = b - a.
Proof. intros Ha Hb. unfold len in *. rewrite length_take, length_drop. lia. Qed.

Lemma snake_tail_string fuel data e child : 0 <= e <= len data ->
  snake_tail fuel storeStringBytes data e child = snake_tail fuel store_bytes data e child.
Proof.
  revert e child. induction fuel as [|fuel IH]; intros e child He; [done|]. cbn [snake_tail]. destruct (Z.ltb_spec 0 e) as [Hpos |]; [cbn [negb]|done].
  rewrite subrange_ok by lia. cbn [mbind outcome_bind]. rewrite storeStringBytes_eq by (rewrite len_sub; lia).
  destruct (run (store_bytes _) BeginCell) as [[u part] | |]; [|done..]. cbn [mbind outcome_bind].
  destruct child as [r |]; [destruct (run (storeRef (Some r) true) part) as [[u' part'] | |]; [|done..]|]; cbn [mbind outcome_bind];
    (destruct (EndCellSpecial false _) as [c | |]; [|done..]); apply IH; lia.
Qed.

(** Reading a finished part. *)
Lemma load_snake_part d refs : bytes_ok d -> len d <= 127 -> len refs <= 1 ->
  load_snake (finished (byte_bits d) refs) = match refs with [] => Ok d | r :: _ => rest ← load_snake r; Ok (d ++ rest) end.
Proof.
  intros Hd Hl Hr. pose proof (len_byte_bits d) as Hb. pose proof (len_nonneg d). pose proof (len_nonneg refs).
  destruct (newSlice_finished (byte_bits d) refs ltac:(lia) ltac:(lia)) as (Hwf & Hs & Hrf). set (s := newSliceFromCell (finished (byte_bits d) refs)) in *.
  assert (Hbl : BitsLeft s = len (byte_bits d)) by (unfold BitsLeft, s; cbn; unfold u16; rewrite Z.sub_0_r; apply Z.mod_small; lia).
  assert (Hrn : RefsNum s = len refs) by (unfold RefsNum, s; cbn; unfold u8; rewrite Z.sub_0_r; apply Z.mod_small; lia).
  assert (Hload : fst (loadSliceInto (replicate (Z.to_nat ((BitsLeft s + 7) / 8)) 0) (BitsLeft s) false s) = Ok d).
  { rewrite Hbl. rewrite (loads_slice_into (byte_bits d) (replicate _ 0)) with (rest := []); [|apply Forall_replicate; lia|rewrite len_replicate; lia|done|now rewrite app_nil_r].
    cbn [fst]. rewrite Hb. now rewrite pack_byte_bits. }
  change (load_snake (finished (byte_bits d) refs)) with
    (data ← fst (loadSliceInto (replicate (Z.to_nat ((BitsLeft s + 7) / 8)) 0) (BitsLeft s) false s);
     if 1 <? RefsNum s then Err (ErrText "more than one ref, it is not snake string") else if RefsNum s =? 0 then Ok data
     else match refs with r :: _ => rest ← load_snake r; Ok (data ++ rest) | _ => Panic end).
  rewrite Hload, Hrn. cbn [mbind outcome_bind]. destruct refs as [|r [|r' refs]]; [done|done|]. rewrite !len_cons in Hr. pose proof (len_nonneg refs). lia.
Qed.

(** A chain of [k] cells that holds [data]. *)
Definition chain (k : Z) (data : list Z) (child : option Cell) : Prop :=
  match child with
  | None => k = 0 /\ data = []
  | Some c => 1 <= k /\ load_snake c = Ok data /\ c_mask c = 0 /\ Depth c = k - 1
  end.

Lemma chain_part k data child d : chain k data child -> k <= 1023 -> bytes_ok d -> len d <= 127 ->
  exists part, run (store_bytes d) BeginCell = Ok (tt, append BeginCell (byte_bits d)) /\
    match child with None => Ok (tt, append BeginCell (byte_bits d)) | Some _ => run (storeRef child true) (append BeginCell (byte_bits d)) end = Ok (tt, part) /\
    exists c, EndCellSpecial false part = Ok c /\ chain (k + 1) (d ++ data) (Some c).
Proof.
  intros Hc Hk Hd Hl. pose proof (len_byte_bits d) as Hb. set (b := append BeginCell (byte_bits d)).
  assert (Hwf : wf b) by (apply wf_append; [apply wf_begin|cbn; lia]). assert (Hbits : bits b = byte_bits d) by (unfold b; rewrite bits_append; [done|apply wf_begin|cbn; lia]).
  assert (Hst : store_bytes d BeginCell = (Ok tt, b)) by (apply store_bytes_part; [done..|apply wf_begin|cbn; lia]).
  destruct child as [r |].
  - destruct Hc as (Hk1 & Hload & Hmask & Hdepth). exists (with_ref b r). split; [now apply run_Ok|]. split.
    { apply run_Ok. rewrite storeRef_run. change (4 <=? len (b_refs b)) with false. cbn [andb]. destruct (Z.leb_spec maxDepth (Depth r)); [unfold maxDepth in *; lia|done]. }
    assert (Hr : Forall shallow (b_refs (with_ref b r))) by (constructor; [|constructor]; split; [done|unfold maxDepth; lia]).
    exists (finished (byte_bits d) [r]). split.
    { rewrite EndCellSpecial_ok; [|now apply wf_with_refs|done]. change (bits (with_ref b r)) with (bits b). now rewrite Hbits. }
    split; [lia|]. split; [rewrite load_snake_part by done; now rewrite Hload|]. split; [done|]. rewrite Depth_finished. cbn [depth_of fmap list_fmap foldl]. lia.
  - destruct Hc as [-> ->]. exists b. split; [now apply run_Ok|]. split; [done|]. exists (finished (byte_bits d) []). split.
    { rewrite EndCellSpecial_ok; [now rewrite Hbits|done|constructor]. }
    split; [lia|]. split; [rewrite load_snake_part by (done || (cbn; lia)); now rewrite app_nil_r|]. split; done.
Qed.

Lemma snake_tail_ok fuel data e child k : bytes_ok data -> 0 <= e <= len data -> (Z.to_nat e <= fuel)%nat ->
  chain k (drop (Z.to_nat e) data) child -> k + (e + 126) / 127 <= 1024 ->
  exists r, snake_tail fuel store_bytes data e child = Ok r /\ chain (k + (e + 126) / 127) data r.
Proof.
  intros Hd. revert e child k. induction fuel as [|fuel IH]; intros e child k He Hf Hc Hk.
  - exists child. assert (e = 0) as -> by lia. split; [done|]. rewrite Z.add_0_r. exact Hc.
  - cbn [snake_tail]. destruct (Z.ltb_spec 0 e) as [Hpos |]; cbn [negb].
    + set (st := Z.max 0 (e - 127)). rewrite subrange_ok by lia. cbn [mbind outcome_bind]. set (d := take _ _).
      assert (Hld : len d = e - st) by (apply len_sub; lia). assert (Hdb : bytes_ok d) by (apply Forall_take, Forall_drop; exact Hd).
      destruct (chain_part k _ child d Hc ltac:(lia) Hdb ltac:(lia)) as (part & -> & E2 & c & E3 & Hc'). cbn [mbind outcome_bind]. rewrite E2.
      cbn [mbind outcome_bind]. rewrite E3. cbn [mbind outcome_bind].
      destruct (IH st (Some c) (k + 1) ltac:(lia) ltac:(lia)) as (r & Er & Hr); [|lia|].
      { replace (drop (Z.to_nat st) data) with (d ++ drop (Z.to_nat e) data); [exact Hc'|]. unfold d.
        replace (drop (Z.to_nat e) data) with (drop (Z.to_nat (e - st)) (drop (Z.to_nat st) data)) by (rewrite drop_drop; f_equal; lia). apply take_drop. }
      exists r. split; [exact Er|]. replace (k + (e + 126) / 127) with (k + 1 + (st + 126) / 127) by lia. exact Hr.
    + exists child. assert (e = 0) as -> by lia. split; [done|]. rewrite Z.add_0_r. exact Hc.
Qed.

(** What the store leaves when it does not refuse: the first bytes in the builder, the
    rest in a chain behind one new reference. *)
Definition snaked (b : Builder) (data : list Z) (first : Z) (b' : Builder) : Prop :=
  exists child, chain ((len data - first + 126) / 127) (drop (Z.to_nat first) data) child /\
    b' = match child with
         | None => append b (byte_bits (take (Z.to_nat first) data))
         | Some c => with_ref (append b (byte_bits (take (Z.to_nat first) data))) c
         end /\ (is_Some child -> len (b_refs b) < 4).

Section snake.
  Variables (b : Builder) (data : list Z).
  Hypothesis (Hwf : wf b) (Hdata : bytes_ok data).
Let first := Z.min (len data) (Builder.BitsLeft b / 8).

Lemma first_ok : 0 <= first <= len data /\ first <= 127 /\ b_bitsSz b + 8 * first <= 1023 /\ len (take (Z.to_nat first) data) = first.
Proof using Hwf.
  pose proof (wf_sz _ Hwf). pose proof (len_nonneg data). unfold first, Builder.BitsLeft in *. split_and!; try lia. rewrite len_take; lia.
Qed.

Lemma store_snake_run : preflightSnake b (len data - first) = Ok tt ->
  exists b', StoreBinarySnake data b = (Ok tt, b') /\ snaked b data first b'.
Proof using Hwf Hdata.
  intros Hpre. destruct first_ok as (Hf & H127 & Hfit & Hlen). unfold StoreBinarySnake, store_snake. rewrite bind_get. fold first. rewrite Hpre. mrun.
  rewrite subrange_prefix by lia. mrun. set (head := take (Z.to_nat first) data) in *. assert (Hhb : bytes_ok head) by now apply Forall_take.
  assert (Hst : store_bytes head b = (Ok tt, append b (byte_bits head))) by (apply store_bytes_part; [done|lia|done|rewrite len_byte_bits; lia]).
  rewrite (run_Ok _ _ _ _ Hst). mrun. unfold snaked. fold head. destruct (Z.ltb_spec first (len data)) as [Hlt | Hge].
  - rewrite subrange_ok by lia. cbn [mbind outcome_bind]. set (rest := take _ _).
    assert (Hrest : rest = drop (Z.to_nat first) data) by (unfold rest; apply take_ge; rewrite length_drop; unfold len; lia).
    assert (Hlr : len rest = len data - first) by (rewrite Hrest; unfold len in *; rewrite length_drop; lia).
    assert (Hcells : (len rest + 126) / 127 <= 1024 /\ len (b_refs b) < 4).
    { revert Hpre. unfold preflightSnake, maxDepth. rewrite <-Hlr. split_cmp; intros; try done; lia. }
    destruct (snake_tail_ok (length rest) rest (len rest) None 0) as (r & Er & Hr); [rewrite Hrest; now apply Forall_drop|pose proof (len_nonneg rest); lia|unfold len; lia| |lia|].
    { split; [done|]. apply drop_ge. unfold len. lia. }
    unfold buildBinarySnakeTail. rewrite Er. cbn [mbind outcome_bind]. rewrite Z.add_0_l, Hlr, Hrest in Hr. destruct r as [c |].
    + destruct Hr as (Hk & Hload & Hmask & Hdepth). assert (Hrf : storeRef (Some c) true (append b (byte_bits head)) = (Ok tt, with_ref (append b (byte_bits head)) c)).
      { rewrite storeRef_run. cbn [b_refs append andb]. destruct (Z.leb_spec 4 (len (b_refs b))); [lia|]. destruct (Z.leb_spec maxDepth (Depth c)); [unfold maxDepth in *; lia|done]. }
      rewrite (run_Ok _ _ _ _ Hrf). cbn [mbind outcome_bind]. eexists. split; [reflexivity|]. exists (Some c). split_and!; [|done|tauto]. now split.
    + destruct Hr as [Hk _]. lia.
  - eexists. split; [reflexivity|]. exists None. split_and!; [|done|now intros []]. assert (Efirst : first = len data) by lia. rewrite Efirst. rewrite Z.sub_diag. split; [done|]. apply drop_ge. unfold len. lia.
Qed.

Lemma load_snaked b' c : snaked b data first b' -> holds c b' ->
  fst (LoadBinarySnake (mkSlice c (b_bitsSz b) (c_bitsSz c) (len (b_refs b)) (len (c_refs c)))) = Ok data.
Proof using Hwf Hdata.
  intros (child & Hc & Hb' & Hr4) Hh. destruct first_ok as (Hf & H127 & Hfit & Hlen). set (head := take (Z.to_nat first) data) in *.
  pose proof (len_byte_bits head) as Hlb. assert (Hwfa : wf (append b (byte_bits head))) by (apply wf_append; [done|lia]).
  set (extra := match child with None => [] | Some r => [r] end).
  assert (Eb' : b' = mkBuilder (b_data (append b (byte_bits head))) (b_bitsSz b + 8 * len head) (b_refs b ++ extra)).
  { rewrite <-Hlb, Hb'. unfold extra. destruct child; cbn [append with_ref b_data b_bitsSz b_refs]; [done|now rewrite app_nil_r]. }
  assert (Hle : len extra <= 1 /\ len (b_refs b) + len extra <= 4).
  { pose proof (wf_refs _ Hwf). unfold extra. destruct child; [specialize (Hr4 ltac:(eauto)); change (len [c0]) with 1|change (len (@nil Cell)) with 0]; lia. }
  assert (Hwf' : wf b') by (rewrite Eb', <-Hlb; apply (wf_with_refs (append b (byte_bits head))); [done|apply Hle]).
  assert (Hbits : bits b' = bits b ++ byte_bits head) by (rewrite <-bits_append by (done || lia); rewrite Eb', <-Hlb; done).
  pose proof (wf_sz _ Hwf). pose proof (len_nonneg head). pose proof (len_nonneg (b_refs b)). pose proof (len_nonneg extra).
  destruct (holds_slice_from c b' (b_bitsSz b) (len (b_refs b)) Hwf' Hh) as (Hs & Hsb & Hsr); [rewrite Eb'; cbn; lia|rewrite Eb'; cbn [b_refs]; rewrite len_app; lia|].
  set (s := mkSlice _ _ _ _ _) in *. rewrite Hbits, drop_app_length' in Hsb by (pose proof (len_bits b Hwf) as El; unfold len in El; lia).
  rewrite Eb' in Hsr. cbn [b_refs] in Hsr. rewrite drop_app_length' in Hsr by (unfold len; lia).
  assert (Hbl : BitsLeft s = len (byte_bits head)) by (rewrite <-Hsb; symmetry; now apply len_sbits).
  assert (Hrn : RefsNum s = len extra).
  { unfold RefsNum, s. cbn [s_refEnd s_refStart]. rewrite (holds_refs _ _ Hh), Eb'. cbn [b_refs]. rewrite len_app. unfold u8. rewrite Z.mod_small; lia. }
  unfold LoadBinarySnake. rewrite bind_get, Hbl, Hrn.
  assert (Hload : loadSliceInto (replicate (Z.to_nat ((len (byte_bits head) + 7) / 8)) 0) (len (byte_bits head)) false s = (Ok head, skip s (len (byte_bits head)))).
  { rewrite (loads_slice_into (byte_bits head) (replicate _ 0)) with (rest := []); [|apply Forall_replicate; lia|rewrite len_replicate; lia|done|now rewrite app_nil_r].
    rewrite Hlb at 1. rewrite pack_byte_bits by now apply Forall_take. done. }
  rewrite (bind_Ok _ _ _ _ _ Hload). mrun. destruct (Z.ltb_spec 1 (len extra)); [lia|].
  assert (Hsplit : head ++ drop (Z.to_nat first) data = data) by apply take_drop.
  unfold extra in *. destruct child as [r |].
  - destruct Hc as (_ & Hl & _ & _). assert (Href : loadRefCell true (skip s (len (byte_bits head))) = (Ok r, skip_ref (skip s (len (byte_bits head))))).
    { rewrite loadRefCell_run by (apply swf_skip; [done|rewrite Hbl; lia]). change (srefs (skip s _)) with (srefs s). now rewrite Hsr. }
    change (len [r] =? 0) with false. cbv iota. rewrite (bind_Ok _ _ _ _ _ Href). rewrite Hl. mrun. now rewrite Hsplit.
  - destruct Hc as [_ Hd]. rewrite Hd, app_nil_r in Hsplit. now rewrite Hsplit.
Qed.

End snake.

Lemma store_snake_string b data : wf b -> StoreStringSnake data b = StoreBinarySnake data b.
Proof.
  intros Hwf. destruct (first_ok b data Hwf) as (Hf & H127 & _ & Hlen). unfold StoreStringSnake, StoreBinarySnake, store_snake. rewrite !bind_get.
  set (first := Z.min _ _) in *. destruct (preflightSnake b (len data - first)) as [[] | e |]; [mrun|done..]. rewrite subrange_prefix by lia. mrun.
  rewrite storeStringBytes_eq by lia. destruct (run (store_bytes _) b) as [[u tmp] | |]; [mrun|done..].
  destruct (Z.ltb_spec first (len data)) as [Hlt |]; [|done]. rewrite subrange_ok by lia. cbn [mbind outcome_bind].
  unfold buildStringSnakeTail, buildBinarySnakeTail. set (rest := take _ _). pose proof (len_nonneg rest). now rewrite snake_tail_string by lia.
Qed.

(** C25: Byte strings of any length survive a chain of cells.  The store refuses one, and
    leaves the builder as it was, only when the builder has no reference left for the
    rest or the chain would exceed the depth limit; otherwise loading from the place of
    the store gives all bytes back.  Strings are stored as their bytes. *)
Theorem snake_roundtrip b data : wf b -> bytes_ok data ->
  StoreStringSnake data b = StoreBinarySnake data b /\
  ((exists e, StoreBinarySnake data b = (Err e, b) /\
      (e = ErrTooMuchRefs /\ len (b_refs b) = 4 \/ e = ErrCellDepthLimit /\ 127 * 1024 < len data)) \/
   (exists b', StoreBinarySnake data b = (Ok tt, b') /\
      forall c, holds c b' -> fst (LoadBinarySnake (mkSlice c (b_bitsSz b) (c_bitsSz c) (len (b_refs b)) (len (c_refs c)))) = Ok data)).
Proof.
  intros Hwf Hd. split; [now apply store_snake_string|]. destruct (first_ok b data Hwf) as (Hf & _ & _ & _). set (first := Z.min _ _) in *.
  destruct (preflightSnake b (len data - first)) as [[] | e |] eqn:Hpre.
  - right. destruct (store_snake_run b data Hwf Hd Hpre) as (b' & E & Hs). exists b'. split; [done|]. intros c Hc. now apply (load_snaked b data Hwf Hd b').
  - left. exists e. split; [unfold StoreBinarySnake, store_snake; rewrite bind_get; fold first; now rewrite Hpre|].
    pose proof (wf_refs _ Hwf). revert Hpre. unfold preflightSnake, maxDepth. split_cmp; intros [= <-]; [left|right]; (split; [done|lia]).
  - exfalso. revert Hpre. unfold preflightSnake. now repeat case_match.
Qed.

Example snake_roundtrip_witness :
  StoreStringSnake (replicate 200 65) BeginCell = StoreBinarySnake (replicate 200 65) BeginCell /\
  ((exists e, StoreBinarySnake (replicate 200 65) BeginCell = (Err e, BeginCell) /\
      (e = ErrTooMuchRefs /\ len (b_refs BeginCell) = 4 \/ e = ErrCellDepthLimit /\ 127 * 1024 < len (replicate 200 65))) \/
   (exists b', StoreBinarySnake (replicate 200 65) BeginCell = (Ok tt, b') /\
      forall c, holds c b' ->
        fst (LoadBinarySnake (mkSlice c (b_bitsSz BeginCell) (c_bitsSz c) (len (b_refs BeginCell)) (len (c_refs c)))) = Ok (replicate 200 65))).
Proof. apply (snake_roundtrip BeginCell (replicate 200 65)); [exact wf_begin|apply Forall_replicate; lia]. Defined.

(** ** Dictionaries and rests of slices *)

Lemma load_maybe_cell s r s' : LoadMaybeRef s = (Ok (newSliceFromCell <$> r), s') -> fst (loadMaybeRefCell s) = Ok r.
Proof.
  unfold LoadMaybeRef, loadMaybeRefCell, loadRefInto, loadRefCell, get_state, mbind, M_bind.
  destruct (LoadBoolBit s) as [[[] | |] s1]; cbn; intros H; try discriminate.
  - destruct (peekRefCellAt 0 s1) as [[c | |] s2]; cbn in *; try discriminate. injection H as E _. destruct r as [x |]; [|done].
    injection E as E. do 2 f_equal. exact E.
  - injection H as E _. now destruct r.
Qed.

(** A dictionary stored in a builder is read back from its place. *)
Lemma dict_roundtrip d b b' c : wf b -> d_keySz d <= 1023 -> StoreDict (Some d) b = (Ok tt, b') -> holds c b' ->
  fst (LoadDict (d_keySz d) (mkSlice c (b_bitsSz b) (c_bitsSz c) (len (b_refs b)) (len (c_refs c)))) = Ok d.
Proof.
  intros Hwf Hk H Hc. unfold StoreDict in H. change (Some d ≫= d_root) with (d_root d) in H.
  pose proof (load_maybe_cell _ _ _ (maybe_ref_roundtrip b (d_root d) true b' c Hwf H Hc)) as Hl. set (s := mkSlice _ _ _ _ _) in *.
  unfold LoadDict. destruct (loadMaybeRefCell s) as [o s'] eqn:E. cbn [fst] in Hl. subst o. rewrite (bind_Ok _ _ _ _ _ E). destruct d as [k [root |]]; cbn [d_root d_keySz] in *; [|done].
  unfold validateDictKeySize, maxDictKeyBits. destruct (Z.ltb_spec 1023 k); [lia|done].
Qed.

(** The cell of what is left in a slice holds the bits and references left. *)
Lemma ToCell_ok s : swf s -> Forall shallow (srefs s) ->
  ToCell s = Ok (s_cell s) /\ sbits s = cbits_of (s_cell s) /\ srefs s = c_refs (s_cell s) \/ ToCell s = Ok (finished (sbits s) (srefs s)).
Proof.
  intros Hwf Hsh. unfold ToCell. set (full := _ && _). destruct full eqn:E.
  - left. unfold full in E. apply andb_true_iff in E as [E E4]. apply andb_true_iff in E as [E E3]. apply andb_true_iff in E as [E1 E2].
    apply Z.eqb_eq in E1, E2, E3, E4. split; [done|]. unfold sbits, srefs, cbits_of, s_data. rewrite E1, E2, E3, E4, !Z.sub_0_r, drop_0. split; [done|].
    apply take_ge. unfold len. lia.
  - right. pose proof (BitsLeft_eq s Hwf) as Hbl. pose proof (len_sbits s Hwf) as Hls. pose proof (swf_bits _ Hwf). pose proof (swf_end _ Hwf).
    rewrite loadSliceInto_run; [|done|apply Forall_replicate; lia|lia]. destruct (Z.ltb_spec (BitsLeft s) (BitsLeft s)); [lia|].
    rewrite len_replicate. destruct (Z.ltb_spec (Z.of_nat (Z.to_nat ((BitsLeft s + 7) / 8))) ((BitsLeft s + 7) / 8)); [lia|]. cbn [fst mbind outcome_bind].
    rewrite drop_ge, app_nil_r by (rewrite length_replicate; lia).
    assert (Hrefs : take (Z.to_nat (RefsNum s)) (drop (Z.to_nat (s_refStart s)) (c_refs (s_cell s))) = srefs s) by (unfold srefs; now rewrite <-RefsNum_eq).
    rewrite Hrefs, ordinaryLevelMask_0 by now apply shallow_level0. rewrite validate_depths by done. cbn [fst mbind outcome_bind].
    assert (Hcell : setLevelMask (mkCell (pack (Z.to_nat ((BitsLeft s + 7) / 8)) (window (s_data s) (s_bitStart s) (BitsLeft s))) (u16 (BitsLeft s)) false 0 (srefs s) [] []) 0
      = with_hashes (unfinished (sbits s) (srefs s)) [] []).
    { unfold setLevelMask, unfinished, with_hashes. cbn [c_data c_bitsSz c_special c_refs c_hashes c_depths c_mask]. rewrite Hls. unfold sbits. rewrite <-Hbl. f_equal. unfold u16. rewrite Z.mod_small; lia. }
    rewrite Hcell. unfold validateBoundaryCell. cbn [with_hashes unfinished c_special negb c_mask c_refs]. rewrite ordinaryLevelMask_0 by now apply shallow_level0.
    cbn [Z.eqb negb]. now rewrite calculateHashes_ok.
Qed.
