(* ===== verification/Gas.v ===== *)
(** * Gas accounting

    Models [tvm/vm/gas.go] on 64-bit signed integers, and proves that charges add
    up, that a limit change neither forgives nor invents gas, and where the
    machine arithmetic wraps around. *)

From S2P Require Import Prelude Bytes.
#[local] Open Scope Z_scope.

(** ** Error codes and prices ([tvm/vmerr/error.go], [tvm/vm/gas.go]) *)

Definition CodeStackUnderflow : Z := 2.
Definition CodeStackOverflow : Z := 3.
Definition CodeIntOverflow : Z := 4.
Definition CodeRangeCheck : Z := 5.
Definition CodeInvalidOpcode : Z := 6.
Definition CodeTypeCheck : Z := 7.
Definition CodeCellOverflow : Z := 8.
Definition CodeCellUnderflow : Z := 9.
Definition CodeDict : Z := 10.
Definition CodeUnknown : Z := 11.
Definition CodeFatal : Z := 12.
Definition CodeOutOfGas : Z := 13.

Definition GasInfinite : Z := 2 ^ 63 - 1.
Definition CellLoadGasPrice : Z := 100.
Definition CellReloadGasPrice : Z := 25.
Definition CellCreateGasPrice : Z := 500.
Definition ExceptionGasPrice : Z := 50.
Definition InstructionBaseGasPrice : Z := 10.
Definition TupleEntryGasPrice : Z := 1.
Definition ImplicitJmprefGasPrice : Z := 10.
Definition ImplicitRetGasPrice : Z := 5.
Definition FreeStackDepth : Z := 32.
Definition StackEntryGasPrice : Z := 1.
Definition FreeNestedContJump : Z := 8.
Definition SignatureCheckFreeCount : Z := 10.
Definition SignatureCheckGasPrice : Z := 4000.
Definition GetExtraBalanceCheapCount : Z := 5.

(** ** The meter *)

Record Gas : Type := mkGas {
  g_Max : Z;
  g_Limit : Z;
  g_Credit : Z;
  g_Remaining : Z;
  g_Base : Z;
  g_FreeConsumed : Z
}.

Record GasConfig : Type := mkGasConfig { cfg_Max : Z; cfg_Limit : Z; cfg_Credit : Z }.

Definition NewGas (c : GasConfig) : Gas :=
  let max := if cfg_Max c =? 0 then GasInfinite else cfg_Max c in
  let limit := if cfg_Limit c =? 0 then max else cfg_Limit c in
  let limit := if max <? limit then max else limit in
  let base := s64 (limit + cfg_Credit c) in
  mkGas max limit (cfg_Credit c) base base 0.

(** [GasWithLimit] with its optional [max] argument. *)
Definition GasWithLimit (limit : Z) (max : option Z) : Gas :=
  let maxLimit := match max with
                  | Some m => if m =? 0 then GasInfinite else m
                  | None => GasInfinite
                  end in
  let limit := if maxLimit <? limit then maxLimit else limit in
  mkGas maxLimit limit 0 limit limit 0.

Definition SetLimits (max limit : Z) (credit : option Z) : M Gas unit :=
  let creditVal := default 0 credit in
  let base := s64 (limit + creditVal) in
  put_state (mkGas max limit creditVal base base 0).

Definition ChangeBase (base : Z) : M Gas unit :=
  modify (fun g => mkGas (g_Max g) (g_Limit g) (g_Credit g)
    (s64 (g_Remaining g + s64 (base - g_Base g))) base (g_FreeConsumed g)).

Definition ChangeLimit (limit : Z) : M Gas unit :=
  g ← get_state;
  let limit := if limit <? 0 then 0 else limit in
  let limit := if g_Max g <? limit then g_Max g else limit in
  put_state (mkGas (g_Max g) limit 0 (g_Remaining g) (g_Base g) (g_FreeConsumed g)) ;;
  ChangeBase limit.

Definition set_remaining (g : Gas) (r : Z) : Gas :=
  mkGas (g_Max g) (g_Limit g) (g_Credit g) r (g_Base g) (g_FreeConsumed g).
Definition set_free (g : Gas) (f : Z) : Gas :=
  mkGas (g_Max g) (g_Limit g) (g_Credit g) (g_Remaining g) (g_Base g) f.

(** The amount of a charge is an [int64]; a product or a length converts to it. *)
Definition Consume (amount : Z) : M Gas unit :=
  let amount := s64 amount in
  guard_err (amount <? 0) (VMErr CodeRangeCheck) ;;
  modify (fun g => set_remaining g (s64 (g_Remaining g - amount))) ;;
  g ← get_state;
  guard_err (g_Remaining g <? 0) (VMErr CodeOutOfGas).

Definition CheckRemaining : M Gas unit :=
  g ← get_state;
  guard_err (g_Remaining g <? 0) (VMErr CodeOutOfGas).

Definition ConsumeFree (amount : Z) : M Gas unit :=
  modify (fun g => set_free g (s64 (g_FreeConsumed g + amount))).

Definition FlushFree : M Gas unit :=
  g ← get_state;
  if g_FreeConsumed g =? 0 then mret tt else
  Consume (g_FreeConsumed g) ;;
  modify (fun g => set_free g 0).

Definition Used (g : Gas) : Z := s64 (g_Base g - g_Remaining g).

(** ** Exact arithmetic *)

Definition int64 (x : Z) : Prop := - 2 ^ 63 <= x < 2 ^ 63.

Lemma s64_id x : int64 x -> s64 x = x.
Proof. unfold int64, s64. intros. rewrite Z.mod_small; lia. Qed.

Lemma s64_int64 x : int64 (s64 x).
Proof. unfold int64, s64. pose proof (Z.mod_pos_bound (x + 2 ^ 63) (2 ^ 64) ltac:(lia)). lia. Qed.

Lemma s64_mod_eq x y : x mod 2 ^ 64 = y mod 2 ^ 64 -> s64 x = s64 y.
Proof.
  intros H. unfold s64. rewrite <-(Zplus_mod_idemp_l x), H, Zplus_mod_idemp_l. done.
Qed.

Lemma s64_add_s64 x y : s64 (x + s64 y) = s64 (x + y).
Proof.
  apply s64_mod_eq. unfold s64. rewrite Z.add_sub_assoc.
  rewrite <-Zminus_mod_idemp_l, Zplus_mod_idemp_r, Zminus_mod_idemp_l. f_equal. lia.
Qed.

Lemma s64_sub_s64 x y : s64 (x - s64 y) = s64 (x - y).
Proof.
  apply s64_mod_eq. unfold s64. replace (x - ((y + 2 ^ 63) mod 2 ^ 64 - 2 ^ 63)) with ((x + 2 ^ 63) - (y + 2 ^ 63) mod 2 ^ 64) by lia.
  rewrite Zminus_mod_idemp_r. f_equal. lia.
Qed.

(** A charge that cannot underflow 64 bits. *)
Lemma Consume_run g amount :
  0 <= amount < 2 ^ 63 -> int64 (g_Remaining g - amount) ->
  Consume amount g =
    (if g_Remaining g <? amount then Err (VMErr CodeOutOfGas) else Ok tt,
     set_remaining g (g_Remaining g - amount)).
Proof.
  intros Ha Hr. unfold Consume. rewrite (s64_id amount) by (unfold int64; lia). mrun.
  destruct (Z.ltb_spec amount 0); [lia|]. rewrite s64_id by done. cbn [set_remaining g_Remaining].
  destruct (Z.ltb_spec (g_Remaining g - amount) 0), (Z.ltb_spec (g_Remaining g) amount); done || lia.
Qed.

Lemma Used_eq g : int64 (g_Base g - g_Remaining g) -> Used g = g_Base g - g_Remaining g.
Proof. intros. unfold Used. now rewrite s64_id. Qed.

(** Charges of a program up to the first that fails. *)
Fixpoint Consumes (l : list Z) : M Gas unit :=
  match l with
  | [] => mret tt
  | a :: l => Consume a ;; Consumes l
  end.

Definition sum_Z (l : list Z) : Z := foldr Z.add 0 l.

Lemma sum_Z_nonneg l : Forall (fun a => 0 <= a < 2 ^ 63) l -> 0 <= sum_Z l.
Proof. unfold sum_Z. induction 1; cbn [foldr]; lia. Qed.

Lemma Consumes_run l g :
  Forall (fun a => 0 <= a < 2 ^ 63) l -> 0 <= g_Remaining g < 2 ^ 63 -> sum_Z l <= g_Remaining g ->
  Consumes l g = (Ok tt, set_remaining g (g_Remaining g - sum_Z l)).
Proof.
  intros Hl. revert g. induction Hl as [|a l Ha Hl IH]; intros g Hg Hs; cbn [Consumes sum_Z foldr] in *.
  - rewrite Z.sub_0_r. now destruct g.
  - fold (sum_Z l) in *. assert (0 <= sum_Z l) by now apply sum_Z_nonneg.
    erewrite bind_Ok; [|rewrite Consume_run by (unfold int64; lia); destruct (Z.ltb_spec (g_Remaining g) a); [lia|reflexivity]].
    rewrite IH by (cbn [set_remaining g_Remaining]; lia). unfold set_remaining. cbn. do 2 f_equal. lia.
Qed.

Lemma Consumes_fail l g :
  Forall (fun a => 0 <= a < 2 ^ 63) l -> 0 <= g_Remaining g < 2 ^ 63 -> g_Remaining g < sum_Z l ->
  fst (Consumes l g) = Err (VMErr CodeOutOfGas) /\ g_Remaining (snd (Consumes l g)) < 0.
Proof.
  intros Hl. revert g. induction Hl as [|a l Ha Hl IH]; intros g Hg Hs; cbn [Consumes sum_Z foldr] in *; [lia|].
  fold (sum_Z l) in *. pose proof (Consume_run g a ltac:(lia) ltac:(unfold int64; lia)) as Hc.
  destruct (Z.ltb_spec (g_Remaining g) a) as [Hlt | Hge].
  - rewrite (bind_Err _ _ _ _ _ Hc). cbn. split; [done|lia].
  - rewrite (bind_Ok _ _ _ _ _ Hc). apply IH; cbn [set_remaining g_Remaining]; lia.
Qed.

(** ** Properties *)

(** Charging a sequence of non-negative amounts succeeds exactly when their sum
    fits the gas that remains, and then uses up exactly that sum; otherwise the run
    stops with out-of-gas and a negative balance.  No charge wraps around. *)
Theorem gas_charges_add_up l g :
  Forall (fun a => 0 <= a < 2 ^ 63) l -> 0 <= g_Remaining g < 2 ^ 63 ->
  if sum_Z l <=? g_Remaining g
  then Consumes l g = (Ok tt, set_remaining g (g_Remaining g - sum_Z l))
  else fst (Consumes l g) = Err (VMErr CodeOutOfGas) /\ g_Remaining (snd (Consumes l g)) < 0.
Proof.
  intros Hl Hg. destruct (Z.leb_spec (sum_Z l) (g_Remaining g)); [now apply Consumes_run|now apply Consumes_fail].
Qed.

Example gas_charges_add_up_witness :
  Consumes [18; 26; 500] (GasWithLimit 1000 None) =
    (Ok tt, set_remaining (GasWithLimit 1000 None) 456) /\
  fst (Consumes [18; 26; 500; 500] (GasWithLimit 1000 None)) = Err (VMErr CodeOutOfGas).
Proof.
  split.
  - apply (gas_charges_add_up [18; 26; 500] (GasWithLimit 1000 None)).
    + repeat (constructor; [lia|]). constructor.
    + vm_compute. split; [discriminate|reflexivity].
  - apply (gas_charges_add_up [18; 26; 500; 500] (GasWithLimit 1000 None)).
    + repeat (constructor; [lia|]). constructor.
    + vm_compute. split; [discriminate|reflexivity].
Defined.

(** Changing the limit clears the credit, clamps the limit into [0, Max] and
    moves the remaining gas with it, so that the gas used so far does not change,
    even when the machine arithmetic wraps around. *)
Theorem change_limit_keeps_used limit g :
  0 <= g_Max g ->
  exists g', ChangeLimit limit g = (Ok tt, g') /\
    g_Limit g' = Z.max 0 (Z.min limit (g_Max g)) /\ g_Credit g' = 0 /\ g_Base g' = g_Limit g' /\
    g_Max g' = g_Max g /\ g_FreeConsumed g' = g_FreeConsumed g /\ Used g' = Used g.
Proof.
  intros Hm. unfold ChangeLimit, ChangeBase. mrun. eexists. split; [reflexivity|]. cbn. split_and!; try done.
  - destruct (Z.ltb_spec limit 0); [destruct (Z.ltb_spec (g_Max g) 0)|destruct (Z.ltb_spec (g_Max g) limit)]; lia.
  - unfold Used. cbn. rewrite s64_sub_s64. set (l' := if g_Max g <? _ then _ else _).
    replace (l' - (g_Remaining g + s64 (l' - g_Base g))) with ((l' - g_Remaining g) - s64 (l' - g_Base g)) by lia.
    rewrite s64_sub_s64. f_equal. lia.
Qed.

Example change_limit_keeps_used_witness :
  exists g', ChangeLimit 5000 (mkGas 3000 1000 200 700 1200 0) = (Ok tt, g') /\ g_Limit g' = 3000 /\
    g_Credit g' = 0 /\ g_Base g' = g_Limit g' /\ g_Max g' = 3000 /\ g_FreeConsumed g' = 0 /\ Used g' = 500.
Proof. apply (change_limit_keeps_used 5000 (mkGas 3000 1000 200 700 1200 0)). cbn. lia. Defined.
