(* ===== verification/Value.v ===== *)
(** * Values, continuations and control registers of the virtual machine

    Models the data of [tvm/vm/stack.go], [continuation.go], [state.go]
    ([Register], [ControlData]) and the persistent tuples of [tvm/tuple/tuple.go].
    Cell traces (gas and proof listeners attached to slices and builders) are left
    out, and values are immutable: the defensive copies of the code are the
    identity here, except where a copy normalises a null continuation. *)

From S2P Require Import Prelude Bytes CellModel Builder Slice Gas.
#[local] Open Scope Z_scope.

(** [VCell None], [VBuilder None] and [VSlice None] are the typed null references,
    [VTuple None] the null tuple.  [CNil] is Go's nil continuation, [CNull] the
    [nullContinuation] value. *)
Inductive value : Type :=
  | VNull
  | VNaN
  | VInt (x : Z)
  | VCell (c : option Cell)
  | VBuilder (b : option Builder)
  | VSlice (s : option Slice)
  | VTuple (t : option (list value))
  | VCont (c : cont)
with cont : Type :=
  | CNil
  | CNull
  | CQuit (ExitCode : Z)
  | CExcQuit
  | COrdinary (Data : cdata) (Code : Slice)
  | CArgExt (Data : cdata) (Ext : cont)
  | CPushInt (Int : Z) (Next : cont)
  | CRepeat (Count : Z) (Body After : cont)
  | CAgain (Body : cont)
  | CWhile (CheckCond : bool) (Body Cond After : cont)
  | CUntil (Body After : cont)
with cdata : Type :=
  | mkData (Save : register) (Stack : option (list value)) (NumArgs CP : Z)
with register : Type :=
  | mkReg (C0 C1 C2 C3 : cont) (D0 D1 : option Cell) (C7 : option (list value)).

Definition d_Save (d : cdata) : register := match d with mkData s _ _ _ => s end.
Definition d_Stack (d : cdata) : option (list value) := match d with mkData _ s _ _ => s end.
Definition d_NumArgs (d : cdata) : Z := match d with mkData _ _ n _ => n end.
Definition d_CP (d : cdata) : Z := match d with mkData _ _ _ c => c end.

Definition r_C (r : register) (i : Z) : cont :=
  match r with mkReg c0 c1 c2 c3 _ _ _ =>
    if i =? 0 then c0 else if i =? 1 then c1 else if i =? 2 then c2 else c3 end.
Definition r_D (r : register) (i : Z) : option Cell :=
  match r with mkReg _ _ _ _ d0 d1 _ => if i =? 0 then d0 else d1 end.
Definition r_C7 (r : register) : option (list value) :=
  match r with mkReg _ _ _ _ _ _ c7 => c7 end.

Definition set_C (r : register) (i : Z) (c : cont) : register :=
  match r with mkReg c0 c1 c2 c3 d0 d1 c7 =>
    mkReg (if i =? 0 then c else c0) (if i =? 1 then c else c1)
          (if i =? 2 then c else c2) (if i =? 3 then c else c3) d0 d1 c7 end.
Definition set_D (r : register) (i : Z) (d : option Cell) : register :=
  match r with mkReg c0 c1 c2 c3 d0 d1 c7 =>
    mkReg c0 c1 c2 c3 (if i =? 0 then d else d0) (if i =? 1 then d else d1) c7 end.
Definition set_C7 (r : register) (t : option (list value)) : register :=
  match r with mkReg c0 c1 c2 c3 d0 d1 _ => mkReg c0 c1 c2 c3 d0 d1 t end.

(** A zero [Register]. *)
Definition emptyReg : register := mkReg CNil CNil CNil CNil None None None.

Definition ControlDataAllArgs : Z := -1.
Definition CP : Z := -1.

(** ** Null tests and copies *)

Definition IsNullContinuation (c : cont) : bool :=
  match c with CNil | CNull => true | _ => false end.

(** [Copy] of a continuation, of its control data and registers, and
    [shareStackValue], which copies what is pushed. *)
Fixpoint Copy_cont (c : cont) : cont :=
  match c with
  | COrdinary d code => COrdinary (Copy_data d) code
  | CArgExt d ext => CArgExt (Copy_data d) ext
  | c => c
  end
with Copy_data (d : cdata) : cdata :=
  match d with
  | mkData save stk n cp =>
      mkData (Copy_reg save) (match stk with Some l => Some (map shareStackValue l) | None => None end) n cp
  end
with Copy_reg (r : register) : register :=
  match r with
  | mkReg c0 c1 c2 c3 d0 d1 c7 =>
      mkReg (if IsNullContinuation c0 then CNil else Copy_cont c0)
            (if IsNullContinuation c1 then CNil else Copy_cont c1)
            (if IsNullContinuation c2 then CNil else Copy_cont c2)
            (if IsNullContinuation c3 then CNil else Copy_cont c3) d0 d1 c7
  end
with shareStackValue (v : value) : value :=
  match v with
  | VCont CNil => VCont CNull
  | VCont c => VCont (Copy_cont c)
  | v => v
  end.

Definition GetControlData (c : cont) : option cdata :=
  match c with
  | COrdinary d _ => Some d
  | CArgExt d _ => Some d
  | _ => None
  end.

(** ** Registers *)

Definition adjust_C (c c2 : cont) : cont := if IsNullContinuation c2 then c else c2.
Definition adjust_opt {A} (d d2 : option A) : option A := match d2 with None => d | Some _ => d2 end.

Definition AdjustWith (r r2 : register) : register :=
  match r, r2 with
  | mkReg c0 c1 c2 c3 d0 d1 c7, mkReg c0' c1' c2' c3' d0' d1' c7' =>
      mkReg (adjust_C c0 c0') (adjust_C c1 c1') (adjust_C c2 c2') (adjust_C c3 c3')
            (adjust_opt d0 d0') (adjust_opt d1 d1') (adjust_opt c7 c7')
  end.

Definition preclear_C (c save : cont) : cont := if IsNullContinuation save then c else CNil.
Definition preclear_opt {A} (d save : option A) : option A := match save with None => d | Some _ => None end.

Definition preclearWith (r save : register) : register :=
  match r, save with
  | mkReg c0 c1 c2 c3 d0 d1 c7, mkReg c0' c1' c2' c3' d0' d1' c7' =>
      mkReg (preclear_C c0 c0') (preclear_C c1 c1') (preclear_C c2 c2') (preclear_C c3 c3')
            (preclear_opt d0 d0') (preclear_opt d1 d1') (preclear_opt c7 c7')
  end.

(** [Register.Get]: the result for an index with no register, [Null{}], is not a
    stack value and is [None] here. *)
Definition Register_Get (r : register) (i : Z) : option value :=
  if (0 <=? i) && (i <? 4) then
    Some (VCont (if IsNullContinuation (r_C r i) then CNull else r_C r i))
  else if (4 <=? i) && (i <? 6) then Some (VCell (r_D r (i - 4)))
  else if i =? 7 then Some (VTuple (r_C7 r))
  else None.

Definition Register_Set (i : Z) (v : value) : M register bool :=
  r ← get_state;
  if i <? 0 then mret false
  else if i <? 4 then
    match v with
    | VCont c => if IsNullContinuation c then mret false else put_state (set_C r i c) ;; mret true
    | _ => mret false
    end
  else if i <? 6 then
    match v with
    | VCell (Some c) => put_state (set_D r (i - 4) (Some c)) ;; mret true
    | _ => mret false
    end
  else if i =? 7 then
    match v with
    | VTuple (Some t) => put_state (set_C7 r (Some t)) ;; mret true
    | _ => mret false
    end
  else mret false.

Definition Register_Define (i : Z) (v : value) : M register bool :=
  r ← get_state;
  if i <? 0 then mret false
  else if i <? 4 then
    match v with
    | VCont c =>
        if IsNullContinuation c then mret false
        else if negb (IsNullContinuation (r_C r i)) then mret false
        else put_state (set_C r i c) ;; mret true
    | _ => mret false
    end
  else if i <? 6 then
    match r_D r (i - 4) with
    | Some _ => mret false
    | None => Register_Set i v
    end
  else if i =? 7 then
    match v with
    | VTuple (Some t) =>
        match r_C7 r with
        | None => put_state (set_C7 r (Some t)) ;; mret true
        | Some _ => mret true
        end
    | _ => mret false
    end
  else mret false.

(** ** Tuples

    The state is the receiver; [None] is the null tuple. *)

Module Tuple.

Definition Len (t : option (list value)) : Z := match t with None => 0 | Some l => len l end.

Definition Index (t : option (list value)) (i : Z) : outcome value :=
  match t with
  | None => Err (VMErr CodeRangeCheck)
  | Some l => if (i <? 0) || (len l <=? i) then Err (VMErr CodeRangeCheck)
              else match l !! Z.to_nat i with Some v => Ok v | None => Panic end
  end.

Definition Set_ (i : Z) (v : value) : M (option (list value)) unit :=
  t ← get_state;
  match t with
  | None => fail (VMErr CodeRangeCheck)
  | Some l => guard_err ((i <? 0) || (len l <=? i)) (VMErr CodeRangeCheck) ;;
              put_state (Some (<[Z.to_nat i := v]> l))
  end.

Definition Resize (size : Z) (t : option (list value)) : option (list value) :=
  let size := if size <? 0 then 0 else size in
  if Len t =? size then t
  else Some (take (Z.to_nat size) (default [] t) ++ replicate (Z.to_nat (size - Len t)) VNull).

Definition PopLast : M (option (list value)) value :=
  t ← get_state;
  match t with
  | None => fail (VMErr CodeRangeCheck)
  | Some l =>
      guard_err (len l =? 0) (VMErr CodeRangeCheck) ;;
      let idx := Z.to_nat (len l - 1) in
      v ← lift (match l !! idx with Some v => Ok v | None => Panic end);
      put_state (Some (take idx l)) ;;
      mret v
  end.

Definition Append (v : value) (t : option (list value)) : option (list value) :=
  Some (default [] t ++ [v]).

End Tuple.
