(* ===== verification/Stack.v ===== *)
(** * The operand stack

    Models [tvm/vm/stack.go]: the elements are a list with the top of the stack at
    its end, as in the code, and an index out of its range panics.  The theorems
    about these operations, in the top-first order of the instruction set, are in
    [StackSpec]. *)

From S2P Require Import Prelude Bytes CellModel Builder Slice Gas Value.
#[local] Open Scope Z_scope.

Abbreviation stack := (list value).

(** [s.elems[i]] and [s.elems[i] = v] *)
Definition elem_at (s : stack) (i : Z) : outcome value :=
  if i <? 0 then Panic else match s !! Z.to_nat i with Some v => Ok v | None => Panic end.
Definition set_elem (s : stack) (i : Z) (v : value) : outcome stack :=
  if (0 <=? i) && (i <? len s) then Ok (<[Z.to_nat i := v]> s) else Panic.

Definition index_top (s : stack) (i : Z) : Z := len s - 1 - i.

(** ** Integers *)

Definition maxTVMInt : Z := 2 ^ 256 - 1.
Definition minTVMInt : Z := - 2 ^ 256.
Definition fitsTVMInt (x : Z) : bool := (minTVMInt <=? x) && (x <=? maxTVMInt).

(** ** Pushing *)

Definition push (v : value) : M stack unit := modify (fun s => s ++ [v]).

Definition PushAny (v : value) : M stack unit := push (shareStackValue v).

Definition PushBool (b : bool) : M stack unit := push (VInt (if b then -1 else 0)).

Definition PushInt (x : Z) : M stack unit :=
  guard_err (negb (fitsTVMInt x)) (VMErr CodeIntOverflow) ;;
  push (VInt x).

Definition PushIntQuiet (x : Z) : M stack unit :=
  if negb (fitsTVMInt x) then PushAny VNaN else push (VInt x).

(** [PushSmallInt] of an [int64]: a pooled value or [PushOwnedInt]. *)
Definition PushSmallInt (x : Z) : M stack unit :=
  if (-5 <=? x) && (x <=? 10) then push (VInt x) else PushInt x.

Definition PushContinuation (c : cont) : M stack unit :=
  match c with
  | CNil => push (VCont CNull)
  | c => PushAny (VCont c)
  end.

Definition PushOwnedContinuation (c : cont) : M stack unit :=
  push (VCont (if IsNullContinuation c then CNull else c)).

Definition PushMaybeCell (c : option Cell) : M stack unit :=
  match c with
  | None => PushAny VNull
  | Some c => PushAny (VCell (Some c))
  end.

Definition PushMaybeTuple (t : option (list value)) : M stack unit :=
  match t with
  | None => PushAny VNull
  | Some t => PushAny (VTuple (Some t))
  end.

(** [PushOwnedValue], its fast path included in the checked one. *)
Definition PushOwnedValue (v : value) : M stack unit :=
  match v with
  | VInt x =>
      guard_err (negb (fitsTVMInt x)) (VMErr CodeIntOverflow) ;;
      push (VInt x)
  | VCont CNil => fail (VMErr CodeTypeCheck)
  | v => push v
  end.

Definition PushAt (at_ : Z) : M stack unit :=
  s ← get_state;
  guard_err ((at_ <? 0) || (len s <=? at_)) (VMErr CodeStackUnderflow) ;;
  v ← lift (elem_at s (index_top s at_));
  PushAny v.

(** ** Dropping and moving *)

(** [uint(num) > uint(n)] for an [int] and a slice length: a negative [num] becomes
    larger than any length. *)
Definition uint_gt (num n : Z) : bool := (num <? 0) || (n <? num).

(** [s.elems[:n]] and [s.elems[n:]] *)
Definition cut_to (s : stack) (n : Z) : outcome stack :=
  if (0 <=? n) && (n <=? len s) then Ok (take (Z.to_nat n) s) else Panic.
Definition cut_from (s : stack) (n : Z) : outcome stack :=
  if (0 <=? n) && (n <=? len s) then Ok (drop (Z.to_nat n) s) else Panic.

Definition Drop (num : Z) : M stack unit :=
  s ← get_state;
  guard_err (uint_gt num (len s)) (VMErr CodeStackUnderflow) ;;
  s' ← lift (cut_to s (len s - num));
  put_state s'.

(** [copy] to a window before the last [num]; then the tail is cut. *)
Definition DropMany (num offs : Z) : M stack unit :=
  s ← get_state;
  guard_err (uint_gt num (len s) || uint_gt offs (len s - num)) (VMErr CodeStackUnderflow) ;;
  if num =? 0 then mret tt else
  let end_ := len s in
  top ← lift (cut_from s (end_ - offs));
  low ← lift (cut_to s (end_ - (num + offs)));
  put_state (low ++ top).

Definition DropAfter (num : Z) : M stack unit :=
  s ← get_state;
  guard_err (uint_gt num (len s)) (VMErr CodeStackUnderflow) ;;
  s' ← lift (cut_from s (len s - num));
  put_state s'.

Definition Clear : M stack unit := put_state [].

(** [MoveFrom]: the state is the receiver and the stack it takes from. *)
Definition MoveFrom (num : Z) : M (stack * stack) unit :=
  p ← get_state;
  let '(s, from) := p in
  guard_err ((num <? 0) || (len from <? num)) (VMErr CodeStackUnderflow) ;;
  let fromStart := len from - num in
  moved ← lift (cut_from from fromStart);
  kept ← lift (cut_to from fromStart);
  put_state (s ++ moved, kept).

Definition SplitTop (top drop : Z) : M stack stack :=
  s ← get_state;
  let n := len s in
  guard_err ((top <? 0) || (drop <? 0) || (n <? top) || (n - top <? drop)) (VMErr CodeStackUnderflow) ;;
  newStack ← (if negb (top =? 0) then fun s => let '(r, (new, s')) := MoveFrom top ([], s) in
                                               (_ ← r; Ok new, s')
              else mret []);
  (if negb (drop =? 0) then Drop drop else mret tt) ;;
  mret newStack.

(** ** Popping *)

Definition PopAny : M stack value :=
  s ← get_state;
  guard_err (len s =? 0) (VMErr CodeStackUnderflow) ;;
  e ← lift (elem_at s (len s - 1));
  s' ← lift (cut_to s (len s - 1));
  put_state s' ;;
  mret e.

Definition PopSwapAt (at_ : Z) : M stack unit :=
  s ← get_state;
  guard_err ((at_ <? 0) || (len s <=? at_)) (VMErr CodeStackUnderflow) ;;
  v ← lift (elem_at s (len s - 1));
  s ← lift (set_elem s (index_top s at_) v);
  s' ← lift (cut_to s (len s - 1));
  put_state s'.

(** [PopInt] and [PopIntRead] (they differ in sharing only): [None] is NaN. *)
Definition PopInt : M stack (option Z) :=
  e ← PopAny;
  match e with
  | VNaN => mret None
  | VInt x => mret (Some x)
  | _ => fail (VMErr CodeTypeCheck)
  end.

Definition PopIntFinite : M stack Z :=
  e ← PopInt;
  match e with
  | None => fail (VMErr CodeIntOverflow)
  | Some x => mret x
  end.

Definition PopBool : M stack bool :=
  e ← PopAny;
  match e with
  | VNaN => fail (VMErr CodeIntOverflow)
  | VInt x => mret (negb (x =? 0))
  | _ => fail (VMErr CodeTypeCheck)
  end.

(** [PopIntRange] and [PopIntRangeInt64]. *)
Definition PopIntRange (min max : Z) : M stack Z :=
  e ← PopAny;
  match e with
  | VNaN => fail (VMErr CodeRangeCheck)
  | VInt x =>
      guard_err (negb (is_int64 x)) (VMErr CodeRangeCheck) ;;
      guard_err ((x <? min) || (max <? x)) (VMErr CodeRangeCheck) ;;
      mret x
  | _ => fail (VMErr CodeTypeCheck)
  end.

Definition PopCell : M stack Cell :=
  e ← PopAny;
  match e with
  | VCell (Some c) => mret c
  | _ => fail (VMErr CodeTypeCheck)
  end.

Definition PopMaybeCell : M stack (option Cell) :=
  e ← PopAny;
  match e with
  | VNull => mret None
  | VCell (Some c) => mret (Some c)
  | _ => fail (VMErr CodeTypeCheck)
  end.

Definition PopContinuation : M stack cont :=
  e ← PopAny;
  match e with
  | VCont CNull => fail (VMErr CodeTypeCheck)
  | VCont c => mret c
  | _ => fail (VMErr CodeTypeCheck)
  end.

Definition PopBuilder : M stack Builder :=
  e ← PopAny;
  match e with
  | VBuilder (Some b) => mret b
  | _ => fail (VMErr CodeTypeCheck)
  end.

Definition PopSlice : M stack Slice :=
  e ← PopAny;
  match e with
  | VSlice (Some s) => mret s
  | _ => fail (VMErr CodeTypeCheck)
  end.

Definition PopTuple : M stack (list value) :=
  e ← PopAny;
  match e with
  | VTuple (Some t) => mret t
  | _ => fail (VMErr CodeTypeCheck)
  end.

(** [PopTupleRange] with its optional lower bound as [min] (0 when absent). *)
Definition PopTupleRange (max min : Z) : M stack (list value) :=
  e ← PopAny;
  match e with
  | VTuple (Some t) =>
      guard_err (((0 <=? max) && (max <? len t)) || (len t <? min)) (VMErr CodeTypeCheck) ;;
      mret t
  | _ => fail (VMErr CodeTypeCheck)
  end.

Definition PopMaybeTupleRange (max : Z) : M stack (option (list value)) :=
  e ← PopAny;
  match e with
  | VNull => mret None
  | VTuple (Some t) =>
      guard_err ((0 <=? max) && (max <? len t)) (VMErr CodeTypeCheck) ;;
      mret (Some t)
  | _ => fail (VMErr CodeTypeCheck)
  end.

(** ** Access from the top *)

Definition Get (at_ : Z) : M stack value :=
  s ← get_state;
  guard_err ((at_ <? 0) || (len s <=? at_)) (VMErr CodeStackUnderflow) ;;
  lift (elem_at s (index_top s at_)).

Definition Len : M stack Z := s ← get_state; mret (len s).

Definition Exchange (a b : Z) : M stack unit :=
  s ← get_state;
  guard_err (((a <? 0) || (len s <=? a)) || ((b <? 0) || (len s <=? b))) (VMErr CodeStackUnderflow) ;;
  let aIdx := index_top s a in
  let bIdx := index_top s b in
  va ← lift (elem_at s aIdx);
  vb ← lift (elem_at s bIdx);
  s ← lift (set_elem s aIdx vb);
  s ← lift (set_elem s bIdx va);
  put_state s.

Definition FromTop (offset : Z) : M stack Z :=
  s ← get_state;
  guard_err ((offset <? 0) || (len s <=? offset)) (VMErr CodeStackUnderflow) ;;
  mret (len s - 1 - offset).

(** The swap loop of [Reverse], [for l < r { swap(l, r); l++; r-- }]. *)
Fixpoint reverseLoop (fuel : nat) (s : stack) (l r : Z) : outcome stack :=
  if l <? r then
    match fuel with
    | O => Panic
    | S fuel =>
        vl ← elem_at s l;
        vr ← elem_at s r;
        s ← set_elem s l vr;
        s ← set_elem s r vl;
        reverseLoop fuel s (l + 1) (r - 1)
    end
  else Ok s.

Definition Reverse (from to : Z) : M stack unit :=
  s ← get_state;
  let stackLen := len s in
  guard_err ((from <? 0) || (to <? 0) || (stackLen <? from) || (stackLen <? to) || (from <? to))
    (VMErr CodeStackUnderflow) ;;
  s' ← lift (reverseLoop (length s) s (stackLen - from) (stackLen - to - 1));
  put_state s'.

Definition Rotate (from to : Z) : M stack unit :=
  s ← get_state;
  let stackLen := len s in
  guard_err ((from <? 0) || (to <? 0) || (from + to <=? 0) || (stackLen <? from + to)) (VMErr CodeStackUnderflow) ;;
  Reverse stackLen (from + to) ;;
  Reverse (from + to) 0 ;;
  Reverse stackLen 0.
