(* ===== verification/StackSpec.v ===== *)
(** * What the stack operations do

    The operations of [Stack] in the order the instruction set counts in: [tf t] is
    the stack whose elements, from the top down, are [t]. *)

From S2P Require Import Prelude Bytes CellModel Builder Slice Gas Value Stack.
#[local] Open Scope Z_scope.

(** ** The top-first view *)

Definition tf (t : list value) : stack := reverse t.

Lemma tf_surj s : exists t, s = tf t.
Proof. exists (reverse s). unfold tf. now rewrite reverse_involutive. Qed.

Lemma tf_inj t t' : tf t = tf t' -> t = t'.
Proof. unfold tf. intros H. apply (f_equal reverse) in H. now rewrite !reverse_involutive in H. Qed.

Lemma len_tf t : len (tf t) = len t.
Proof. unfold len, tf. now rewrite length_reverse. Qed.

Lemma tf_cons v t : tf t ++ [v] = tf (v :: t).
Proof. unfold tf. now rewrite reverse_cons. Qed.

Definition Zlookup (t : list value) (i : Z) : option value := if i <? 0 then None else t !! Z.to_nat i.

Lemma Zlookup_Some t i : 0 <= i < len t -> exists v, Zlookup t i = Some v.
Proof.
  intros Hi. unfold Zlookup. destruct (Z.ltb_spec i 0); [lia|]. apply lookup_lt_is_Some. unfold len in Hi. lia.
Qed.

Lemma Zlookup_lt t i v : Zlookup t i = Some v -> 0 <= i < len t.
Proof.
  unfold Zlookup. destruct (Z.ltb_spec i 0); [done|]. intros H1%lookup_lt_Some. unfold len. lia.
Qed.

Lemma elem_at_tf t i v : Zlookup t i = Some v -> elem_at (tf t) (len t - 1 - i) = Ok v.
Proof.
  intros H. pose proof (Zlookup_lt _ _ _ H) as Hi. unfold Zlookup in H. unfold elem_at.
  destruct (Z.ltb_spec i 0); [lia|]. destruct (Z.ltb_spec (len t - 1 - i) 0); [lia|]. unfold tf, len in *.
  rewrite reverse_lookup by lia. replace (length t - S (Z.to_nat (Z.of_nat (length t) - 1 - i)))%nat with (Z.to_nat i) by lia.
  now rewrite H.
Qed.

Lemma reverse_insert (t : list value) k v :
  (k < length t)%nat -> <[(length t - S k)%nat := v]> (reverse t) = reverse (<[k := v]> t).
Proof.
  intros Hk. apply list_eq. intros j. destruct (decide (j < length t)%nat) as [Hj | Hj].
  - rewrite reverse_lookup by (rewrite length_insert; lia). rewrite length_insert.
    destruct (decide (j = length t - S k)%nat) as [-> | Hne].
    + rewrite list_lookup_insert_eq by (rewrite length_reverse; lia).
      replace (length t - S (length t - S k))%nat with k by lia. now rewrite list_lookup_insert_eq.
    + rewrite !list_lookup_insert_ne by lia. now rewrite reverse_lookup.
  - rewrite !lookup_ge_None_2; rewrite ?length_insert, ?length_reverse, ?length_insert; lia || done.
Qed.

Lemma set_elem_tf t i v :
  0 <= i < len t -> set_elem (tf t) (len t - 1 - i) v = Ok (tf (<[Z.to_nat i := v]> t)).
Proof.
  intros Hi. unfold set_elem. rewrite len_tf. destruct (Z.leb_spec 0 (len t - 1 - i)); [|lia].
  destruct (Z.ltb_spec (len t - 1 - i) (len t)); [|lia]. cbn [andb]. unfold tf, len in *.
  replace (Z.to_nat (Z.of_nat (length t) - 1 - i)) with (length t - S (Z.to_nat i))%nat by lia.
  rewrite reverse_insert by lia. done.
Qed.

Lemma cut_to_tf t n : 0 <= n <= len t -> cut_to (tf t) (len t - n) = Ok (tf (drop (Z.to_nat n) t)).
Proof.
  intros Hn. unfold cut_to. rewrite len_tf. destruct (Z.leb_spec 0 (len t - n)); [|lia].
  destruct (Z.leb_spec (len t - n) (len t)); [|lia]. cbn [andb]. f_equal. unfold tf, len in *.
  rewrite <-(take_drop (Z.to_nat n) t) at 2. rewrite reverse_app. rewrite take_app_length'; [done|].
  rewrite length_reverse, length_drop. lia.
Qed.

Lemma cut_from_tf t n : 0 <= n <= len t -> cut_from (tf t) (len t - n) = Ok (tf (take (Z.to_nat n) t)).
Proof.
  intros Hn. unfold cut_from. rewrite len_tf. destruct (Z.leb_spec 0 (len t - n)); [|lia].
  destruct (Z.leb_spec (len t - n) (len t)); [|lia]. cbn [andb]. f_equal. unfold tf, len in *.
  rewrite <-(take_drop (Z.to_nat n) t) at 2. rewrite reverse_app. rewrite drop_app_length'; [done|].
  rewrite length_reverse, length_drop. lia.
Qed.

(** The model of the [uint] comparison is the machine's, for lengths that fit memory. *)
Lemma uint_gt_machine num n : - 2 ^ 63 <= num < 2 ^ 63 -> 0 <= n < 2 ^ 63 -> uint_gt num n = (u64 n <? u64 num).
Proof.
  intros Hm Hn. unfold uint_gt, u64. rewrite (Z.mod_small n) by lia. destruct (Z.ltb_spec num 0) as [Hneg | Hpos].
  - replace (num mod 2 ^ 64) with (num + 2 ^ 64) by (apply Z.mod_unique_pos with (-1); lia).
    destruct (Z.ltb_spec n (num + 2 ^ 64)); [done|lia].
  - now rewrite Z.mod_small by lia.
Qed.

(** ** Pushes and pops *)

Lemma push_tf v t : push v (tf t) = (Ok tt, tf (v :: t)).
Proof. unfold push, modify. now rewrite tf_cons. Qed.

Lemma PushAny_tf v t : PushAny v (tf t) = (Ok tt, tf (shareStackValue v :: t)).
Proof. apply push_tf. Qed.

Lemma PushBool_tf b t : PushBool b (tf t) = (Ok tt, tf (VInt (if b then -1 else 0) :: t)).
Proof. apply push_tf. Qed.

Lemma PushInt_tf x t :
  PushInt x (tf t) = if fitsTVMInt x then (Ok tt, tf (VInt x :: t)) else (Err (VMErr CodeIntOverflow), tf t).
Proof. unfold PushInt. mrun. destruct (fitsTVMInt x); cbn [negb]; [apply push_tf|done]. Qed.

Lemma PushIntQuiet_tf x t :
  PushIntQuiet x (tf t) = (Ok tt, tf ((if fitsTVMInt x then VInt x else VNaN) :: t)).
Proof. unfold PushIntQuiet. destruct (fitsTVMInt x); cbn [negb]; [apply push_tf|apply PushAny_tf]. Qed.

Lemma PushSmallInt_tf x t : fitsTVMInt x = true -> PushSmallInt x (tf t) = (Ok tt, tf (VInt x :: t)).
Proof. intros H. unfold PushSmallInt. destruct (_ && _); [apply push_tf|]. now rewrite PushInt_tf, H. Qed.

Lemma PopAny_nil : PopAny (tf []) = (Err (VMErr CodeStackUnderflow), tf []).
Proof. done. Qed.

Lemma PopAny_tf v t : PopAny (tf (v :: t)) = (Ok v, tf t).
Proof.
  unfold PopAny. mrun. rewrite len_tf. destruct (Z.eqb_spec (len (v :: t)) 0) as [H | H].
  { rewrite len_cons in H. pose proof (len_nonneg t). lia. }
  pose proof (elem_at_tf (v :: t) 0 v eq_refl) as He. rewrite Z.sub_0_r in He. rewrite He. mrun.
  rewrite cut_to_tf by (rewrite len_cons; pose proof (len_nonneg t); lia). done.
Qed.

Lemma PopInt_tf x t : PopInt (tf (VInt x :: t)) = (Ok (Some x), tf t).
Proof. unfold PopInt. now rewrite (bind_Ok _ _ _ _ _ (PopAny_tf _ _)). Qed.

Lemma PopInt_NaN t : PopInt (tf (VNaN :: t)) = (Ok None, tf t).
Proof. unfold PopInt. now rewrite (bind_Ok _ _ _ _ _ (PopAny_tf _ _)). Qed.

Lemma PopIntFinite_tf x t : PopIntFinite (tf (VInt x :: t)) = (Ok x, tf t).
Proof. unfold PopIntFinite. now rewrite (bind_Ok _ _ _ _ _ (PopInt_tf _ _)). Qed.

Lemma PopBool_tf x t : PopBool (tf (VInt x :: t)) = (Ok (negb (x =? 0)), tf t).
Proof. unfold PopBool. now rewrite (bind_Ok _ _ _ _ _ (PopAny_tf _ _)). Qed.

Lemma PopIntRange_tf x t min max :
  - 2 ^ 63 <= min -> max < 2 ^ 63 ->
  PopIntRange min max (tf (VInt x :: t)) =
    (if (min <=? x) && (x <=? max) then Ok x else Err (VMErr CodeRangeCheck), tf t).
Proof.
  intros Hmin Hmax. unfold PopIntRange. rewrite (bind_Ok _ _ _ _ _ (PopAny_tf _ _)). mrun. unfold is_int64.
  destruct (Z.leb_spec min x), (Z.leb_spec x max), (Z.leb_spec (- 2 ^ 63) x), (Z.ltb_spec x (2 ^ 63)),
    (Z.ltb_spec x min), (Z.ltb_spec max x); cbn [andb orb negb]; done || lia.
Qed.

(** ** Access and exchange *)

(** [t] with the elements at two depths exchanged. *)
Definition swapped (a b : Z) (t : list value) : list value :=
  match Zlookup t a, Zlookup t b with
  | Some va, Some vb => <[Z.to_nat b := va]> (<[Z.to_nat a := vb]> t)
  | _, _ => t
  end.

Lemma len_swapped a b t : len (swapped a b t) = len t.
Proof. unfold swapped. destruct (Zlookup t a), (Zlookup t b); try done. unfold len. now rewrite !length_insert. Qed.

Lemma Zlookup_guard t i : (i <? 0) || (len t <=? i) = match Zlookup t i with Some _ => false | None => true end.
Proof.
  unfold Zlookup. destruct (Z.ltb_spec i 0); [done|]. cbn [orb]. destruct (Z.leb_spec (len t) i).
  - rewrite lookup_ge_None_2; [done|]. unfold len in *. lia.
  - destruct (lookup_lt_is_Some_2 t (Z.to_nat i)) as [v ->]; [unfold len in *; lia|done].
Qed.

Lemma Get_tf t i :
  Get i (tf t) = (match Zlookup t i with Some v => Ok v | None => Err (VMErr CodeStackUnderflow) end, tf t).
Proof.
  unfold Get, index_top. mrun. rewrite len_tf, Zlookup_guard. destruct (Zlookup t i) as [v |] eqn:E; [|done].
  now rewrite (elem_at_tf t i v E).
Qed.

Lemma PushAt_tf t i :
  PushAt i (tf t) = match Zlookup t i with
                    | Some v => (Ok tt, tf (shareStackValue v :: t))
                    | None => (Err (VMErr CodeStackUnderflow), tf t)
                    end.
Proof.
  unfold PushAt, index_top. mrun. rewrite len_tf, Zlookup_guard. destruct (Zlookup t i) as [v |] eqn:E; [|done].
  rewrite (elem_at_tf t i v E). mrun. apply PushAny_tf.
Qed.

Lemma Exchange_tf t a b :
  Exchange a b (tf t) =
    match Zlookup t a, Zlookup t b with
    | Some _, Some _ => (Ok tt, tf (swapped a b t))
    | _, _ => (Err (VMErr CodeStackUnderflow), tf t)
    end.
Proof.
  unfold Exchange, index_top, swapped. mrun. rewrite len_tf, !Zlookup_guard.
  destruct (Zlookup t a) as [va |] eqn:Ea; [|done]. destruct (Zlookup t b) as [vb |] eqn:Eb; [|done]. cbn [orb].
  rewrite (elem_at_tf t a va Ea). mrun. rewrite (elem_at_tf t b vb Eb). mrun.
  rewrite set_elem_tf by now apply Zlookup_lt in Ea. mrun.
  assert (Hl : len t = len (<[Z.to_nat a := vb]> t)) by (unfold len; now rewrite length_insert).
  rewrite Hl, set_elem_tf by (rewrite <-Hl; now apply Zlookup_lt in Eb). done.
Qed.

Lemma PopSwapAt_tf t i v :
  PopSwapAt i (tf (v :: t)) =
    if (0 <=? i) && (i <=? len t)
    then (Ok tt, tf (if i =? 0 then t else <[Z.to_nat (i - 1) := v]> t))
    else (Err (VMErr CodeStackUnderflow), tf (v :: t)).
Proof.
  unfold PopSwapAt, index_top. mrun. rewrite len_tf, len_cons. pose proof (len_nonneg t) as Hn.
  destruct (Z.ltb_spec i 0), (Z.leb_spec (len t + 1) i), (Z.leb_spec 0 i), (Z.leb_spec i (len t)); try lia; cbn [orb andb]; try done.
  pose proof (elem_at_tf (v :: t) 0 v eq_refl) as He. rewrite Z.sub_0_r, len_cons in He. rewrite He. mrun.
  pose proof (set_elem_tf (v :: t) i v ltac:(rewrite len_cons; lia)) as Hs. rewrite len_cons in Hs. rewrite Hs. mrun.
  rewrite len_tf. rewrite cut_to_tf by (unfold len; rewrite length_insert; cbn; lia). mrun. unfold put_state.
  destruct (Z.eqb_spec i 0) as [-> | Hi]; [done|].
  replace (Z.to_nat i) with (S (Z.to_nat (i - 1))) by lia. done.
Qed.

(** ** Blocks *)

Lemma uint_gt_spec n m : uint_gt n m = negb ((0 <=? n) && (n <=? m)).
Proof. unfold uint_gt. destruct (Z.ltb_spec n 0), (Z.leb_spec 0 n), (Z.ltb_spec m n), (Z.leb_spec n m); done || lia. Qed.

Lemma Drop_tf t n :
  Drop n (tf t) = if (0 <=? n) && (n <=? len t) then (Ok tt, tf (drop (Z.to_nat n) t))
                  else (Err (VMErr CodeStackUnderflow), tf t).
Proof.
  unfold Drop. mrun. rewrite len_tf, uint_gt_spec.
  destruct (Z.leb_spec 0 n), (Z.leb_spec n (len t)); cbn [andb negb]; try done. now rewrite cut_to_tf.
Qed.

Lemma DropAfter_tf t n :
  DropAfter n (tf t) = if (0 <=? n) && (n <=? len t) then (Ok tt, tf (take (Z.to_nat n) t))
                       else (Err (VMErr CodeStackUnderflow), tf t).
Proof.
  unfold DropAfter. mrun. rewrite len_tf, uint_gt_spec.
  destruct (Z.leb_spec 0 n), (Z.leb_spec n (len t)); cbn [andb negb]; try done. now rewrite cut_from_tf.
Qed.

Lemma tf_app t u : tf t ++ tf u = tf (u ++ t).
Proof. unfold tf. now rewrite reverse_app. Qed.

Lemma DropMany_tf t n offs :
  DropMany n offs (tf t) =
    if (0 <=? n) && (n <=? len t) && ((0 <=? offs) && (offs <=? len t - n))
    then (Ok tt, tf (take (Z.to_nat offs) t ++ drop (Z.to_nat (n + offs)) t))
    else (Err (VMErr CodeStackUnderflow), tf t).
Proof.
  unfold DropMany. mrun. rewrite len_tf, !uint_gt_spec.
  destruct (Z.leb_spec 0 n), (Z.leb_spec n (len t)); cbn [andb negb orb]; try done.
  destruct (Z.leb_spec 0 offs), (Z.leb_spec offs (len t - n)); cbn [andb negb]; try done.
  destruct (Z.eqb_spec n 0) as [-> | Hn]; [now rewrite Z.add_0_l, take_drop|].
  rewrite cut_from_tf by lia. mrun. rewrite cut_to_tf by lia. mrun. unfold put_state. now rewrite tf_app.
Qed.

Lemma MoveFrom_tf u t n :
  MoveFrom n (tf u, tf t) =
    if (0 <=? n) && (n <=? len t) then (Ok tt, (tf (take (Z.to_nat n) t ++ u), tf (drop (Z.to_nat n) t)))
    else (Err (VMErr CodeStackUnderflow), (tf u, tf t)).
Proof.
  unfold MoveFrom. mrun. rewrite len_tf.
  destruct (Z.ltb_spec n 0), (Z.ltb_spec (len t) n), (Z.leb_spec 0 n), (Z.leb_spec n (len t)); cbn [andb orb]; try lia; try done.
  rewrite cut_from_tf by lia. mrun. rewrite cut_to_tf by lia. mrun. unfold put_state. now rewrite tf_app.
Qed.

Lemma SplitTop_tf t top drp :
  SplitTop top drp (tf t) =
    if (0 <=? top) && (0 <=? drp) && (top + drp <=? len t)
    then (Ok (tf (take (Z.to_nat top) t)), tf (drop (Z.to_nat (top + drp)) t))
    else (Err (VMErr CodeStackUnderflow), tf t).
Proof.
  unfold SplitTop. mrun. rewrite len_tf. pose proof (len_nonneg t).
  destruct (Z.ltb_spec top 0), (Z.leb_spec 0 top); cbn [andb orb]; try lia; try done.
  destruct (Z.ltb_spec drp 0), (Z.leb_spec 0 drp); cbn [andb orb]; try lia; try done.
  destruct (Z.ltb_spec (len t) top); cbn [orb]; [destruct (Z.leb_spec (top + drp) (len t)); [lia|done]|].
  destruct (Z.ltb_spec (len t - top) drp), (Z.leb_spec (top + drp) (len t)); try lia; try done.
  assert (Hmv : (if negb (top =? 0) then fun s => let '(r, (new, s')) := MoveFrom top ([], s) in (_ ← r; Ok new, s')
                 else mret [] : M stack stack) (tf t) = (Ok (tf (take (Z.to_nat top) t)), tf (drop (Z.to_nat top) t))).
  { destruct (Z.eqb_spec top 0) as [-> |]; cbn [negb]; [done|]. change ([] : stack) with (tf []).
    rewrite MoveFrom_tf. destruct (Z.leb_spec 0 top), (Z.leb_spec top (len t)); try lia. cbn [andb].
    now rewrite app_nil_r. }
  rewrite (bind_Ok _ _ _ _ _ Hmv). rewrite bind_if. destruct (Z.eqb_spec drp 0) as [-> |]; cbn [negb]; mrun.
  - rewrite Z.add_0_r. done.
  - unfold mbind, M_bind. rewrite Drop_tf.
    assert (Hl : len (drop (Z.to_nat top) t) = len t - top) by (unfold len in *; rewrite length_drop; lia).
    destruct (Z.leb_spec 0 drp), (Z.leb_spec drp (len (drop (Z.to_nat top) t))); try lia. cbn [andb].
    rewrite drop_drop. unfold mret, M_ret. do 3 f_equal. lia.
Qed.

(** ** Reversal *)

Lemma elem_at_app A x B : elem_at (A ++ x :: B) (len A) = Ok x.
Proof.
  unfold elem_at. pose proof (len_nonneg A). destruct (Z.ltb_spec (len A) 0); [lia|].
  unfold len. rewrite Nat2Z.id, lookup_app_r, Nat.sub_diag by lia. done.
Qed.

Lemma set_elem_app A x B y : set_elem (A ++ x :: B) (len A) y = Ok (A ++ y :: B).
Proof.
  unfold set_elem. rewrite len_app, len_cons. pose proof (len_nonneg A). pose proof (len_nonneg B).
  destruct (Z.leb_spec 0 (len A)), (Z.ltb_spec (len A) (len A + (len B + 1))); try lia. cbn [andb].
  unfold len. rewrite Nat2Z.id, insert_app_r_alt, Nat.sub_diag by lia. done.
Qed.

(** The swap loop reverses the segment between its two cursors. *)
Lemma reverseLoop_ok fuel A B C :
  (length B <= fuel)%nat ->
  reverseLoop fuel (A ++ B ++ C) (len A) (len A + len B - 1) = Ok (A ++ reverse B ++ C).
Proof.
  revert A B C. induction fuel as [|fuel IH]; intros A B C Hf; cbn [reverseLoop].
  - destruct B as [|x B]; [|cbn in Hf; lia]. change (len (@nil value)) with 0.
    destruct (Z.ltb_spec (len A) (len A + 0 - 1)); [lia|done].
  - destruct B as [|x B]; [change (len (@nil value)) with 0; destruct (Z.ltb_spec (len A) (len A + 0 - 1)); [lia|done]|].
    destruct B as [|y B _] using rev_ind.
    { change (len [x]) with 1. destruct (Z.ltb_spec (len A) (len A + 1 - 1)); [lia|done]. }
    rewrite len_cons, len_app. change (len [y]) with 1. pose proof (len_nonneg B).
    destruct (Z.ltb_spec (len A) (len A + (len B + 1 + 1) - 1)); [|lia].
    assert (HR : forall x', A ++ (x' :: B ++ [y]) ++ C = (A ++ x' :: B) ++ y :: C).
    { intros x'. rewrite <-app_assoc. cbn [app]. now rewrite <-app_assoc. }
    assert (HL : forall x' : value, len A + (len B + 1 + 1) - 1 = len (A ++ x' :: B)) by (intros; rewrite len_app, len_cons; lia).
    set (r := len A + (len B + 1 + 1) - 1) in *.
    assert (E1 : elem_at (A ++ (x :: B ++ [y]) ++ C) (len A) = Ok x) by apply elem_at_app.
    assert (E2 : elem_at (A ++ (x :: B ++ [y]) ++ C) r = Ok y) by (rewrite HR, (HL x); apply elem_at_app).
    assert (E3 : set_elem (A ++ (x :: B ++ [y]) ++ C) (len A) y = Ok (A ++ (y :: B ++ [y]) ++ C)) by apply set_elem_app.
    assert (E4 : set_elem (A ++ (y :: B ++ [y]) ++ C) r x = Ok ((A ++ y :: B) ++ x :: C)) by (rewrite HR, (HL y); apply set_elem_app).
    rewrite E1. cbn [mbind outcome_bind]. rewrite E2. cbn [mbind outcome_bind]. rewrite E3. cbn [mbind outcome_bind].
    rewrite E4. cbn [mbind outcome_bind].
    specialize (IH (A ++ [y]) B (x :: C)). rewrite len_app in IH. change (len [y]) with 1 in IH.
    rewrite <-!app_assoc in IH. cbn [app] in IH.
    replace (r - 1) with (len A + 1 + len B - 1) by lia. rewrite <-app_assoc. cbn [app].
    rewrite IH; [|cbn in Hf; rewrite length_app in Hf; cbn in Hf; lia].
    rewrite reverse_cons, reverse_snoc. cbn [app]. now rewrite <-!app_assoc.
Qed.

Lemma Reverse_tf t from to :
  0 <= to <= from -> from <= len t ->
  Reverse from to (tf t) =
    (Ok tt, tf (take (Z.to_nat to) t ++ reverse (take (Z.to_nat (from - to)) (drop (Z.to_nat to) t)) ++ drop (Z.to_nat from) t)).
Proof.
  intros Ht Hf. unfold Reverse. mrun. rewrite len_tf.
  destruct (Z.ltb_spec from 0), (Z.ltb_spec to 0), (Z.ltb_spec (len t) from), (Z.ltb_spec (len t) to), (Z.ltb_spec from to); try lia.
  cbn [orb]. set (a := take (Z.to_nat to) t). set (b := take (Z.to_nat (from - to)) (drop (Z.to_nat to) t)). set (c := drop (Z.to_nat from) t).
  assert (Hs : t = a ++ b ++ c).
  { unfold a, b, c. rewrite <-(take_drop (Z.to_nat to) t) at 1. f_equal.
    rewrite <-(take_drop (Z.to_nat (from - to)) (drop (Z.to_nat to) t)) at 1. f_equal. rewrite drop_drop. f_equal. lia. }
  assert (Ha : len a = to) by (unfold a, len in *; rewrite length_take; lia).
  assert (Hb : len b = from - to) by (unfold b, len in *; rewrite length_take, length_drop; lia).
  assert (Hlen : len t = len a + len b + len c) by (rewrite Hs at 1; rewrite !len_app; lia).
  assert (Htf : forall b', tf (a ++ b' ++ c) = tf c ++ reverse b' ++ tf a).
  { intros b'. unfold tf. rewrite !reverse_app. now rewrite app_assoc. }
  pose proof (reverseLoop_ok (length (tf t)) (tf c) (reverse b) (tf a)) as HL.
  rewrite <-Htf, <-Hs, len_tf in HL. replace (len (reverse b)) with (len b) in HL by (unfold len; now rewrite length_reverse).
  replace (len t - from) with (len c) by lia. replace (len t - to - 1) with (len c + len b - 1) by lia.
  rewrite HL. 2: { unfold tf. rewrite !length_reverse. rewrite Hs at 1. rewrite !length_app. lia. }
  mrun. unfold put_state. now rewrite Htf.
Qed.

(** Reversing two adjacent blocks and then both exchanges them. *)
Lemma reverse_blocks a b c :
  let n := len a in let m := len b in
  (Reverse (m + n) n ;; Reverse n 0 ;; Reverse (m + n) 0) (tf (a ++ b ++ c)) = (Ok tt, tf (b ++ a ++ c)).
Proof.
  cbv zeta. pose proof (len_nonneg a). pose proof (len_nonneg b). pose proof (len_nonneg c).
  assert (Htk : forall (x y : list value) n, n = len x -> take (Z.to_nat n) (x ++ y) = x) by
    (intros x y n ->; unfold len; rewrite Nat2Z.id; apply take_app_length).
  assert (Hdr : forall (x y : list value) n, n = len x -> drop (Z.to_nat n) (x ++ y) = y) by
    (intros x y n ->; unfold len; rewrite Nat2Z.id; apply drop_app_length).
  assert (Hrl : forall x : list value, len (reverse x) = len x) by (intros; unfold len; now rewrite length_reverse).
  rewrite (bind_Ok _ _ _ _ _ (Reverse_tf (a ++ b ++ c) (len b + len a) (len a) ltac:(lia) ltac:(rewrite !len_app; lia))).
  rewrite (Htk a), (Hdr a), (Htk b) by lia. rewrite (app_assoc a b c), (Hdr (a ++ b)) by (rewrite len_app; lia).
  erewrite bind_Ok; [|apply Reverse_tf; [lia|rewrite !len_app, Hrl; lia]].
  rewrite Z.sub_0_r. change (Z.to_nat 0) with 0%nat. rewrite take_0, drop_0. cbn [app]. rewrite (Htk a), (Hdr a) by lia.
  rewrite (app_assoc (reverse a)).
  rewrite Reverse_tf by (rewrite ?len_app, ?Hrl; lia). change (Z.to_nat 0) with 0%nat. rewrite take_0, drop_0, Z.sub_0_r.
  cbn [app]. rewrite (Htk (reverse a ++ reverse b)), (Hdr (reverse a ++ reverse b)) by (rewrite len_app, !Hrl; lia).
  rewrite reverse_app, !reverse_involutive, app_assoc. done.
Qed.
