(* ===== verification/VmState.v ===== *)
(** * The state of the virtual machine

    Models [State] of [tvm/vm/state.go] and its operations on gas, tuples, globals
    and committed registers, and the gas accounting of cell loads of
    [tvm/vm/cell_manager.go].  Library loading is in [CellLoad]; child machines, tracing
    hooks and the sharing of the code slice between jumps ([currentCodeOwned]) are left out. *)

From S2P Require Import Prelude Bytes CellModel Builder Slice Gas Value Stack.
From stdpp Require Import strings gmap.
#[local] Open Scope Z_scope.

Inductive GasSchedule : Type := GasScheduleModern | GasSchedule2019 | GasScheduleEarly2020.
#[export] Instance GasSchedule_eq_dec : EqDecision GasSchedule.
Proof. solve_decision. Defined.

Record HistoricalConfig : Type := mkHist {
  h_GasSchedule : GasSchedule;
  h_PopC3Cell : bool;
  h_NoPRNG : bool;
  h_NoBLKDROP2 : bool;
  h_NaNComparison : bool
}.

Record CommittedState : Type := mkCommitted {
  cm_Data : option Cell;
  cm_Actions : option Cell;
  cm_Committed : bool
}.

(** The library collections and what lookups remember: the cache of found libraries,
    the hashes counted against the limit of library loads, and the hash of the last
    lookup that found nothing. *)
Record LibraryState : Type := mkLibs {
  lb_Libraries : list (option Cell);
  lb_cache : gmap (list Z) Cell;
  lb_maxLibraryLoads : option Z;
  lb_loadedLibraries : gset (list Z);
  lb_missingLibrary : option (list Z);
  lb_sandboxed : bool
}.

Definition no_libraries : LibraryState := mkLibs [] ∅ None ∅ None false.

(** ** The set of loaded cells *)

Definition cellLoadInlineCapacity : Z := 8.

(** [cellLoadSet]: an array of keys of which the first [count] are in use, until it is
    full and a map takes over. *)
Record cellLoadSet : Type := mkLoadSet {
  ls_inline : list (list Z);
  ls_spill : option (gset (list Z));
  ls_count : Z
}.

Definition no_loads : cellLoadSet := mkLoadSet (replicate (Z.to_nat cellLoadInlineCapacity) (replicate 32 0)) None 0.

(** [for i := 0; i < count; i++ { inline[i] == key }] *)
Definition inline_has (key : list Z) (s : cellLoadSet) : bool := bool_decide (key ∈ take (Z.to_nat (ls_count s)) (ls_inline s)).

(** [contains], and [Contains] of the snapshot [LoadedCells] *)
Definition cellLoadSet_contains (key : list Z) (s : cellLoadSet) : bool :=
  match ls_spill s with
  | Some m => bool_decide (key ∈ m)
  | None => inline_has key s
  end.

Definition cellLoadSet_add (key : list Z) : M cellLoadSet bool :=
  s ← get_state;
  match ls_spill s with
  | Some m =>
      if bool_decide (key ∈ m) then mret false
      else put_state (mkLoadSet (ls_inline s) (Some ({[key]} ∪ m)) (ls_count s)) ;; mret true
  | None =>
      if inline_has key s then mret false
      else if ls_count s <? cellLoadInlineCapacity then
        put_state (mkLoadSet (<[Z.to_nat (ls_count s) := key]> (ls_inline s)) None (u8 (ls_count s + 1))) ;; mret true
      else
        let spill := foldl (fun m k => {[k]} ∪ m) ∅ (ls_inline s) in
        put_state (mkLoadSet (ls_inline s) (Some ({[key]} ∪ spill)) (ls_count s)) ;; mret true
  end.

Record State : Type := mkState {
  st_GlobalVersion : Z;
  st_CP : Z;
  st_CurrentCode : Slice;
  st_Reg : register;
  st_Gas : Gas;
  (** the cell manager: the loaded cells and the latched gas error *)
  st_loaded : cellLoadSet;
  st_pendingErr : option error;
  st_Stack : stack;
  st_Steps : Z;
  st_SignatureCheckCounter : Z;
  st_GetExtraBalanceCounter : Z;
  st_Committed : CommittedState;
  st_maxDataDepth : Z;
  st_Historical : HistoricalConfig;
  st_StopOnAccept : bool;
  st_Libs : LibraryState
}.

Definition set_CP (st : State) (x : Z) : State :=
  let 'mkState v _ c r g l p s n sc eb cm md h sa lb := st in mkState v x c r g l p s n sc eb cm md h sa lb.
Definition set_code (st : State) (x : Slice) : State :=
  let 'mkState v cp _ r g l p s n sc eb cm md h sa lb := st in mkState v cp x r g l p s n sc eb cm md h sa lb.
Definition set_reg (st : State) (x : register) : State :=
  let 'mkState v cp c _ g l p s n sc eb cm md h sa lb := st in mkState v cp c x g l p s n sc eb cm md h sa lb.
Definition set_gas (st : State) (x : Gas) : State :=
  let 'mkState v cp c r _ l p s n sc eb cm md h sa lb := st in mkState v cp c r x l p s n sc eb cm md h sa lb.
Definition set_loaded (st : State) (x : cellLoadSet) : State :=
  let 'mkState v cp c r g _ p s n sc eb cm md h sa lb := st in mkState v cp c r g x p s n sc eb cm md h sa lb.
Definition set_pending (st : State) (x : option error) : State :=
  let 'mkState v cp c r g l _ s n sc eb cm md h sa lb := st in mkState v cp c r g l x s n sc eb cm md h sa lb.
Definition set_stack (st : State) (x : stack) : State :=
  let 'mkState v cp c r g l p _ n sc eb cm md h sa lb := st in mkState v cp c r g l p x n sc eb cm md h sa lb.
Definition set_steps (st : State) (x : Z) : State :=
  let 'mkState v cp c r g l p s _ sc eb cm md h sa lb := st in mkState v cp c r g l p s x sc eb cm md h sa lb.
Definition set_sigchecks (st : State) (x : Z) : State :=
  let 'mkState v cp c r g l p s n _ eb cm md h sa lb := st in mkState v cp c r g l p s n x eb cm md h sa lb.
Definition set_extra (st : State) (x : Z) : State :=
  let 'mkState v cp c r g l p s n sc _ cm md h sa lb := st in mkState v cp c r g l p s n sc x cm md h sa lb.
Definition set_libs (st : State) (x : LibraryState) : State :=
  let 'mkState v cp c r g l p s n sc eb cm md h sa _ := st in mkState v cp c r g l p s n sc eb cm md h sa x.
Definition set_committed (st : State) (x : CommittedState) : State :=
  let 'mkState v cp c r g l p s n sc eb _ md h sa lb := st in mkState v cp c r g l p s n sc eb x md h sa lb.

(** A method of one part of the state. *)
Definition on_stack {A} (m : M stack A) : M State A :=
  fun st => let '(r, s) := m (st_Stack st) in (r, set_stack st s).
Definition on_gas {A} (m : M Gas A) : M State A :=
  fun st => let '(r, g) := m (st_Gas st) in (r, set_gas st g).
Definition on_reg {A} (m : M register A) : M State A :=
  fun st => let '(r, x) := m (st_Reg st) in (r, set_reg st x).
Definition on_code {A} (m : M Slice A) : M State A :=
  fun st => let '(r, c) := m (st_CurrentCode st) in (r, set_code st c).

Definition IsSuccessExitCode (code : Z) : bool := (code =? 0) || (code =? 1).

(** ** Gas *)

Definition checkGasOnConsume (st : State) : bool := 4 <=? st_GlobalVersion st.

Definition ConsumeGas (amount : Z) : M State unit :=
  st ← get_state;
  if negb (checkGasOnConsume st) then
    let amount := s64 amount in
    guard_err (amount <? 0) (VMErr CodeRangeCheck) ;;
    on_gas (modify (fun g => set_remaining g (s64 (g_Remaining g - amount))))
  else on_gas (Consume amount).

Definition consumeGasChecked (amount : Z) : M State unit := on_gas (Consume amount).

Definition CheckGas : M State unit :=
  st ← get_state;
  match st_pendingErr st with
  | Some err => fail err
  | None => on_gas CheckRemaining
  end.

Definition ConsumeFreeGas (amount : Z) : M State unit := on_gas (ConsumeFree amount).
Definition FlushFreeGas : M State unit := on_gas FlushFree.

Definition RegisterSignatureCheckCall : M State unit :=
  st ← get_state;
  if negb (checkGasOnConsume st) then mret tt else
  let n := u64 (st_SignatureCheckCounter st + 1) in
  modify (fun st => set_sigchecks st n) ;;
  if SignatureCheckFreeCount <? n then ConsumeGas SignatureCheckGasPrice
  else ConsumeFreeGas SignatureCheckGasPrice.

Definition RegisterGetExtraBalanceCall : M State bool :=
  st ← get_state;
  let n := u64 (st_GetExtraBalanceCounter st + 1) in
  modify (fun st => set_extra st n) ;;
  mret (n <=? GetExtraBalanceCheapCount).

Definition ConsumeStackGasLen (depth : Z) : M State unit :=
  let amt := if depth <? FreeStackDepth then FreeStackDepth else depth in
  ConsumeGas ((amt - FreeStackDepth) * StackEntryGasPrice).

Definition ConsumeStackGas (s : stack) : M State unit := ConsumeStackGasLen (len s).

Definition ConsumeTupleGasLen (length : Z) : M State unit :=
  guard_err (length <? 0) (VMErr CodeRangeCheck) ;;
  ConsumeGas (length * TupleEntryGasPrice).

Definition PushTupleCharged (t : list value) : M State unit :=
  ConsumeTupleGasLen (len t) ;;
  on_stack (PushAny (VTuple (Some t))).

(** ** Cell loads and creations *)

(** [m.loaded.add] *)
Definition loaded_add (key : list Z) : M State bool :=
  fun st => let '(r, l) := cellLoadSet_add key (st_loaded st) in (r, set_loaded st l).

Lemma loaded_add_run key st : exists fresh l, loaded_add key st = (Ok fresh, set_loaded st l).
Proof.
  unfold loaded_add, cellLoadSet_add. mrun. destruct (ls_spill _); [destruct (bool_decide _)|destruct (inline_has _ _); [|destruct (_ <? _)]]; mrun; by eexists _, _.
Qed.

Definition RegisterCellLoad (cl : option Cell) : M State unit :=
  match cl with
  | None => mret tt
  | Some c =>
      fresh ← loaded_add (HashKey c);
      st ← get_state;
      if negb fresh then
        if (st_GlobalVersion st =? 0) && bool_decide (h_GasSchedule (st_Historical st) = GasSchedule2019)
        then ConsumeGas CellLoadGasPrice else ConsumeGas CellReloadGasPrice
      else ConsumeGas CellLoadGasPrice
  end.

Definition RegisterCellCreate : M State unit := ConsumeGas CellCreateGasPrice.

(** [OnLoadError] and [OnCreate]: the first gas error is latched, and a later event
    charges nothing. *)
Definition latch (m : M State unit) : M State unit :=
  fun st =>
    match st_pendingErr st with
    | Some e => (Err e, st)
    | None =>
        match m st with
        | (Err e, st') => (Err e, set_pending st' (Some e))
        | r => r
        end
    end.
Definition OnLoadError (c : option Cell) : M State unit := latch (RegisterCellLoad c).
Definition OnCreate : M State unit :=
  fun st => match latch RegisterCellCreate st with (Panic, st') => (Panic, st') | (_, st') => (Ok tt, st') end.

(** ** Globals *)

Definition SetC7 (t : option (list value)) : M State unit :=
  match t with
  | None => fail (VMErr CodeTypeCheck)
  | Some _ => modify (fun st => set_reg st (set_C7 (st_Reg st) t))
  end.

Definition GetParam (idx : Z) (st : State) : outcome value :=
  params ← Tuple.Index (r_C7 (st_Reg st)) 0;
  match params with
  | VTuple (Some p) => if 255 <? len p then Err (VMErr CodeTypeCheck) else Tuple.Index (Some p) idx
  | _ => Err (VMErr CodeTypeCheck)
  end.

Definition GetGlobal (idx : Z) (st : State) : outcome value :=
  if (idx <? 0) || (255 <=? idx) then Err (VMErr CodeRangeCheck)
  else if Tuple.Len (r_C7 (st_Reg st)) <=? idx then Ok VNull
  else Tuple.Index (r_C7 (st_Reg st)) idx.

Definition SetGlobal (idx : Z) (val : value) : M State unit :=
  guard_err ((idx <? 0) || (255 <=? idx)) (VMErr CodeRangeCheck) ;;
  st ← get_state;
  let tup := r_C7 (st_Reg st) in
  let grow := Tuple.Len tup <=? idx in
  match grow, val with
  | true, VNull => mret tt
  | _, _ =>
      let tup := if grow then Tuple.Resize (idx + 1) tup else tup in
      (fun st => match ConsumeTupleGasLen (Tuple.Len tup) st with
                 | (Err e, st') => let '(_, st'') := SetC7 (Some []) st' in (Err e, st'')
                 | r => r
                 end) ;;
      tup ← lift (let '(r, tup') := Tuple.Set_ idx val tup in _ ← r; Ok tup');
      SetC7 tup
  end.

(** ** Limits, commits and exceptions *)

Definition SetGasLimit (limit : Z) : M State unit :=
  st ← get_state;
  guard_err (limit <? Used (st_Gas st)) (VMErr CodeOutOfGas) ;;
  on_gas (ChangeLimit limit) ;;
  guard_err (st_StopOnAccept st) ErrStopOnAccept.

Definition HandleOutOfGas : M State unit :=
  on_stack Clear ;;
  st ← get_state;
  on_stack (PushSmallInt (Used (st_Gas st))).

(** [Level()] of a loaded cell *)
Definition Level (c : Cell) : Z := LevelMask.GetLevel (c_mask c).

Definition TryCommitCurrent : M State bool :=
  st ← get_state;
  match r_D (st_Reg st) 0, r_D (st_Reg st) 1 with
  | Some d0, Some d1 =>
      if (st_maxDataDepth st <? Depth d0) || (st_maxDataDepth st <? Depth d1) then mret false
      else if negb (Level d0 =? 0) || negb (Level d1 =? 0) then mret false
      else
        put_state (set_committed st (mkCommitted (Some d0) (Some d1) true)) ;;
        mret true
  | _, _ => mret false
  end.

Definition ForceCommitCurrent : M State unit :=
  b ← TryCommitCurrent;
  guard_err (negb b) (VMErr CodeCellOverflow).
