(* ===== verification/StackOps.v ===== *)
(** * Stack manipulation instructions

    Models the actions of the instructions of [tvm/op/stack]: the value of the
    operand is the packed argument the decoder produces, and the actions run on the
    whole machine state, gas included. *)

From S2P Require Import Prelude Bytes CellModel Builder Slice Gas Value Stack VmState.
#[local] Open Scope Z_scope.

(** ** Helpers ([internal.go]) *)

Definition maxSmallIndex : Z := 2 ^ 30 - 1.

Definition popSmallIndex : M State Z :=
  st ← get_state;
  let max := if st_GlobalVersion st <? 4 then 255 else maxSmallIndex in
  on_stack (PopIntRange 0 max).

Definition consumeLargeStackMoveGas (count : Z) : M State unit :=
  if count <=? 255 then mret tt else ConsumeGas (count - 255).

Definition requireStackDepth (count : Z) (indices : list Z) : M State unit :=
  let need := foldl (fun need idx => if idx <? 0 then need else if need <? idx + 1 then idx + 1 else need) count indices in
  st ← get_state;
  guard_err (len (st_Stack st) <? need) (VMErr CodeStackUnderflow).

Definition unpackArgs2 (args : Z) : Z * Z := (Z.land (args ≫ 4) 0xF, Z.land args 0xF).
Definition unpackArgs3 (args : Z) : Z * Z * Z := (Z.land (args ≫ 8) 0xF, Z.land (args ≫ 4) 0xF, Z.land args 0xF).

(** [requireNibbles] panics on an operand wider than its field. *)
Definition packArgs2 (i j : Z) : outcome Z :=
  if (0xF <? i) || (0xF <? j) then Panic else Ok (Z.lor (i ≪ 4) j).
Definition packArgs3 (i j k : Z) : outcome Z :=
  if (0xF <? i) || (0xF <? j) || (0xF <? k) then Panic else Ok (Z.lor (Z.lor (i ≪ 8) (j ≪ 4)) k).

Definition maxStackDepthCount (a b : Z) : Z := if b <? a then a else b.

(** Copies the element at a depth to the top: [Get] then [PushAny]. *)
Definition get_push (i : Z) : M State unit :=
  val ← on_stack (Get i);
  on_stack (PushAny val).

Definition depth_guard (bad : Z -> bool) : M State unit :=
  st ← get_state;
  guard_err (bad (len (st_Stack st))) (VMErr CodeStackUnderflow).

(** ** Copies *)

Definition NOP : M State unit := mret tt.
Definition DUP : M State unit := on_stack (PushAt 0).
Definition OVER : M State unit := on_stack (PushAt 1).
Definition PUSH (args : Z) : M State unit := on_stack (PushAt args).

Definition PICK : M State unit :=
  idx ← popSmallIndex;
  depth_guard (fun n => n <=? idx) ;;
  on_stack (PushAt idx).

Definition DUP2 : M State unit :=
  requireStackDepth 2 [] ;;
  a ← on_stack (Get 1);
  b ← on_stack (Get 0);
  on_stack (PushAny a) ;;
  on_stack (PushAny b).

Definition OVER2 : M State unit :=
  requireStackDepth 4 [] ;;
  get_push 3 ;;
  get_push 3.

Definition TUCK : M State unit :=
  requireStackDepth 2 [] ;;
  b ← on_stack (Get 0);
  on_stack (Exchange 0 1) ;;
  on_stack (PushAny b).

Fixpoint blkPushLoop (x : nat) (j : Z) : M State unit :=
  match x with
  | O => mret tt
  | S x => get_push j ;; blkPushLoop x j
  end.
Definition BLKPUSH (args : Z) : M State unit :=
  let '(i, j) := unpackArgs2 args in blkPushLoop (Z.to_nat i) j.

Definition PUSH2 (args : Z) : M State unit :=
  let '(i, j) := unpackArgs2 args in
  requireStackDepth 0 [i; j] ;;
  get_push i ;;
  get_push (j + 1).

Definition PUSH3 (args : Z) : M State unit :=
  let '(i, j, k) := unpackArgs3 args in
  requireStackDepth 0 [i; j; k] ;;
  get_push i ;;
  get_push (j + 1) ;;
  get_push (k + 2).

(** ** Drops *)

Definition DROP : M State unit := _ ← on_stack PopAny; mret tt.
Definition DROP2 : M State unit := on_stack (Drop 2).
Definition NIP : M State unit := on_stack (PopSwapAt 1).
Definition POP (args : Z) : M State unit := on_stack (PopSwapAt args).
Definition BLKDROP (args : Z) : M State unit := on_stack (Drop args).
Definition BLKDROP2 (args : Z) : M State unit :=
  let '(i, j) := unpackArgs2 args in on_stack (DropMany i j).

Definition DROPX : M State unit :=
  idx ← popSmallIndex;
  on_stack (Drop idx).

Definition ONLYTOPX : M State unit :=
  count ← popSmallIndex;
  st ← get_state;
  guard_err (len (st_Stack st) <? count) (VMErr CodeStackUnderflow) ;;
  (if count <? len (st_Stack st) then consumeLargeStackMoveGas count else mret tt) ;;
  on_stack (DropAfter count).

Definition ONLYX : M State unit :=
  count ← popSmallIndex;
  st ← get_state;
  guard_err (len (st_Stack st) <? count) (VMErr CodeStackUnderflow) ;;
  on_stack (Drop (len (st_Stack st) - count)).

(** ** Exchanges *)

Definition SWAP : M State unit := on_stack (Exchange 0 1).
Definition XCHG0 (args : Z) : M State unit := on_stack (Exchange 0 args).
Definition XCHGX : M State unit :=
  idx ← popSmallIndex;
  on_stack (Exchange 0 idx).

Definition xchgLongForm : Z := 2 ^ 16.
Definition packXchgArgs (a b : Z) (long : bool) : Z :=
  let args := Z.lor (a ≪ 8) b in if long then Z.lor args xchgLongForm else args.
Definition unpackXchgArgs (args : Z) : Z * Z * bool :=
  (u8 (args ≫ 8), u8 args, negb (Z.land args xchgLongForm =? 0)).

Definition XCHG (args : Z) : M State unit :=
  let '(a, b, long) := unpackXchgArgs args in
  guard_err (long && ((a =? 0) || (b <=? a))) (VMErr CodeInvalidOpcode) ;;
  on_stack (Exchange a b).

Definition ROT : M State unit :=
  requireStackDepth 3 [] ;;
  on_stack (Exchange 2 1) ;;
  on_stack (Exchange 1 0).

Definition ROTREV : M State unit :=
  requireStackDepth 3 [] ;;
  on_stack (Exchange 1 0) ;;
  on_stack (Exchange 2 1).

Definition SWAP2 : M State unit :=
  requireStackDepth 4 [] ;;
  on_stack (Exchange 3 1) ;;
  on_stack (Exchange 2 0).

Definition XCHG2 (args : Z) : M State unit :=
  let '(i, j) := unpackArgs2 args in
  requireStackDepth 2 [i; j] ;;
  on_stack (Exchange 1 i) ;;
  on_stack (Exchange 0 j).

Definition XCHG3 (args : Z) : M State unit :=
  let '(i, j, k) := unpackArgs3 args in
  requireStackDepth 3 [i; j; k] ;;
  on_stack (Exchange 2 i) ;;
  on_stack (Exchange 1 j) ;;
  on_stack (Exchange 0 k).

(** ** Combined exchanges and copies *)

Definition XCPU (args : Z) : M State unit :=
  let '(i, j) := unpackArgs2 args in
  requireStackDepth 0 [i; j] ;;
  on_stack (Exchange 0 i) ;;
  get_push j.

Definition PUXC (args : Z) : M State unit :=
  let '(i, j) := unpackArgs2 args in
  requireStackDepth j [i] ;;
  get_push i ;;
  on_stack (Exchange 0 1) ;;
  on_stack (Exchange 0 j).

Definition XC2PU (args : Z) : M State unit :=
  let '(i, j, k) := unpackArgs3 args in
  requireStackDepth 2 [i; j; k] ;;
  on_stack (Exchange 1 i) ;;
  on_stack (Exchange 0 j) ;;
  get_push k.

Definition XCPUXC (args : Z) : M State unit :=
  let '(i, j, k) := unpackArgs3 args in
  requireStackDepth (maxStackDepthCount k 2) [i; j] ;;
  on_stack (Exchange 1 i) ;;
  get_push j ;;
  on_stack (Exchange 0 1) ;;
  on_stack (Exchange 0 k).

Definition XCPU2 (args : Z) : M State unit :=
  let '(i, j, k) := unpackArgs3 args in
  requireStackDepth 0 [i; j; k] ;;
  on_stack (Exchange 0 i) ;;
  get_push j ;;
  get_push (k + 1).

Definition PUXC2 (args : Z) : M State unit :=
  let '(i, j, k) := unpackArgs3 args in
  requireStackDepth (maxStackDepthCount j k) [i; 1] ;;
  get_push i ;;
  on_stack (Exchange 2 0) ;;
  on_stack (Exchange 1 j) ;;
  on_stack (Exchange 0 k).

Definition PUXCPU (args : Z) : M State unit :=
  let '(i, j, k) := unpackArgs3 args in
  requireStackDepth (maxStackDepthCount j k) [i] ;;
  get_push i ;;
  on_stack (Exchange 0 1) ;;
  on_stack (Exchange 0 j) ;;
  get_push k.

Definition PU2XC (args : Z) : M State unit :=
  let '(i, j, k) := unpackArgs3 args in
  requireStackDepth (maxStackDepthCount j (k - 1)) [i] ;;
  get_push i ;;
  on_stack (Exchange 1 0) ;;
  get_push j ;;
  on_stack (Exchange 1 0) ;;
  on_stack (Exchange 0 k).

(** ** Blocks *)

Definition BLKSWAP (args : Z) : M State unit :=
  let '(i, j) := unpackArgs2 args in
  let x := i + 1 in
  let y := j + 1 in
  depth_guard (fun n => n <? x + y) ;;
  on_stack (Reverse (x + y) y) ;;
  on_stack (Reverse y 0) ;;
  on_stack (Reverse (x + y) 0).

Definition BLKSWX : M State unit :=
  depth_guard (fun n => n <? 2) ;;
  y ← popSmallIndex;
  x ← popSmallIndex;
  depth_guard (fun n => (x <? 0) || (y <? 0) || (n <? x + y)) ;;
  if (x =? 0) || (y =? 0) then mret tt else
  st ← get_state;
  (if 4 <=? st_GlobalVersion st then consumeLargeStackMoveGas (x + y) else mret tt) ;;
  on_stack (Reverse (x + y) y) ;;
  on_stack (Reverse y 0) ;;
  on_stack (Reverse (x + y) 0).

Definition REVERSE (args : Z) : M State unit :=
  let '(x, y) := unpackArgs2 args in on_stack (Reverse (x + 2 + y) y).

Definition REVX : M State unit :=
  depth_guard (fun n => n <? 2) ;;
  y ← popSmallIndex;
  x ← popSmallIndex;
  depth_guard (fun n => (x <? 0) || (y <? 0) || (n <? x + y)) ;;
  consumeLargeStackMoveGas x ;;
  on_stack (Reverse (x + y) y).

(** [for idx > 0 { Exchange(idx-1, idx); idx-- }] *)
Fixpoint rollLoop (idx : nat) : M State unit :=
  match idx with
  | O => mret tt
  | S i => on_stack (Exchange (Z.of_nat i) (Z.of_nat idx)) ;; rollLoop i
  end.

Definition ROLL : M State unit :=
  idx ← popSmallIndex;
  depth_guard (fun n => n <=? idx) ;;
  consumeLargeStackMoveGas idx ;;
  rollLoop (Z.to_nat idx).

(** [for i := 0; i < idx; i++ { Exchange(i, i+1) }]; [n] exchanges from [i] on. *)
Fixpoint rollRevLoop (n : nat) (i : Z) : M State unit :=
  match n with
  | O => mret tt
  | S n => on_stack (Exchange i (i + 1)) ;; rollRevLoop n (i + 1)
  end.

Definition ROLLREV : M State unit :=
  idx ← popSmallIndex;
  depth_guard (fun n => n <=? idx) ;;
  consumeLargeStackMoveGas idx ;;
  rollRevLoop (Z.to_nat idx) 0.

(** ** Depth and selection *)

Definition DEPTH : M State unit :=
  st ← get_state;
  on_stack (PushSmallInt (len (st_Stack st))).

Definition CHKDEPTH : M State unit :=
  idx ← popSmallIndex;
  depth_guard (fun n => n <? idx).

(** The two operands below a condition of the wrong type are dropped too. *)
Definition CONDSEL : M State unit :=
  depth_guard (fun n => n <? 3) ;;
  on_stack (Exchange 0 2) ;;
  f2 ← (fun st => match on_stack PopBool st with
                  | (Err e, st') => (on_stack (Drop 2) ;; fail e) st'
                  | r => r
                  end);
  if (f2 : bool) then on_stack (DropMany 1 1) else on_stack (Drop 1).
