(* ===== verification/StackOpsSpec.v ===== *)
(** * What the stack instructions do

    The instructions of [StackOps] on a state whose stack, from the top down, is
    [t]: compound exchanges are atomic, block moves are the permutations the
    instruction set describes, and inverse instructions undo each other. *)

From S2P Require Import Prelude Bytes CellModel Builder Slice Gas Value Stack StackSpec VmState StackOps.
#[local] Open Scope Z_scope.

(** ** States by their stack *)

(** [st] with the stack [t], top first. *)
Definition at_top (st : State) (t : list value) : State := set_stack st (tf t).

Lemma at_top_stack st t : st_Stack (at_top st t) = tf t.
Proof. now destruct st. Qed.

Lemma at_top_surj st : exists t, st = at_top st t.
Proof. destruct (tf_surj (st_Stack st)) as [t Ht]. exists t. unfold at_top. rewrite <-Ht. now destruct st. Qed.

Lemma at_top_at_top st t t' : at_top (at_top st t) t' = at_top st t'.
Proof. now destruct st. Qed.

Lemma at_top_inj st t t' : at_top st t = at_top st t' -> t = t'.
Proof. destruct st. unfold at_top. cbn. intros H. injection H as H. now apply tf_inj. Qed.

Lemma at_top_version st t : st_GlobalVersion (at_top st t) = st_GlobalVersion st.
Proof. now destruct st. Qed.

Lemma on_stack_run {A} (m : M stack A) st t r t' :
  m (tf t) = (r, tf t') -> on_stack m (at_top st t) = (r, at_top st t').
Proof. intros H. unfold on_stack. rewrite at_top_stack, H. now destruct st. Qed.

Lemma bind_on_stack {A B} (m : M stack A) (k : A -> M State B) st t a t' :
  m (tf t) = (Ok a, tf t') -> (on_stack m ≫= k) (at_top st t) = k a (at_top st t').
Proof. intros H. apply bind_Ok, on_stack_run, H. Qed.

Lemma bind_on_stack_Err {A B} (m : M stack A) (k : A -> M State B) st t e t' :
  m (tf t) = (Err e, tf t') -> (on_stack m ≫= k) (at_top st t) = (Err e, at_top st t').
Proof. intros H. apply bind_Err, on_stack_run, H. Qed.

Lemma len_at_top st t : len (st_Stack (at_top st t)) = len t.
Proof. now rewrite at_top_stack, len_tf. Qed.

Lemma depth_guard_run {B} bad (k : unit -> M State B) st t :
  (depth_guard bad ≫= k) (at_top st t) =
    if bad (len t) then (Err (VMErr CodeStackUnderflow), at_top st t) else k tt (at_top st t).
Proof. unfold depth_guard. mrun. now rewrite len_at_top. Qed.

(** ** Compound exchanges as micro-steps *)

Inductive micro : Type :=
  | Xc (a b : Z)
  | Pu (i : Z).

Definition micro_run (m : micro) : M State unit :=
  match m with
  | Xc a b => on_stack (Exchange a b)
  | Pu i => get_push i
  end.

(** The effect of a micro-step on a stack deep enough for it. *)
Definition micro_effect (m : micro) (t : list value) : list value :=
  match m with
  | Xc a b => swapped a b t
  | Pu i => match Zlookup t i with Some v => shareStackValue v :: t | None => t end
  end.

Definition micro_fits (m : micro) (n : Z) : bool :=
  match m with
  | Xc a b => (0 <=? a) && (a <? n) && ((0 <=? b) && (b <? n))
  | Pu i => (0 <=? i) && (i <? n)
  end.
Definition micro_depth (m : micro) (n : Z) : Z := match m with Xc _ _ => n | Pu _ => n + 1 end.

Fixpoint micros_fit (l : list micro) (n : Z) : bool :=
  match l with
  | [] => true
  | m :: l => micro_fits m n && micros_fit l (micro_depth m n)
  end.

(** [a ;; b ;; ... ;; z], with no trailing return. *)
Fixpoint micros_run (m : micro) (l : list micro) : M State unit :=
  match l with
  | [] => micro_run m
  | m' :: l => micro_run m ;; micros_run m' l
  end.

Lemma micro_ok m st t :
  micro_fits m (len t) = true ->
  micro_run m (at_top st t) = (Ok tt, at_top st (micro_effect m t)) /\ len (micro_effect m t) = micro_depth m (len t).
Proof.
  destruct m as [a b | i]; cbn [micro_fits micro_run micro_effect micro_depth]; intros H.
  - apply andb_true_iff in H as [Ha Hb]. destruct (Zlookup_Some t a ltac:(lia)) as [va Hva].
    destruct (Zlookup_Some t b ltac:(lia)) as [vb Hvb]. split; [|apply len_swapped].
    apply on_stack_run. rewrite Exchange_tf, Hva, Hvb. done.
  - destruct (Zlookup_Some t i ltac:(lia)) as [v Hv]. rewrite Hv, len_cons. split; [|done].
    unfold get_push. erewrite bind_on_stack; [|rewrite Get_tf, Hv; reflexivity]. apply on_stack_run, PushAny_tf.
Qed.

Lemma micros_ok m l st t :
  micros_fit (m :: l) (len t) = true ->
  micros_run m l (at_top st t) = (Ok tt, at_top st (foldl (flip micro_effect) t (m :: l))).
Proof.
  revert m t. induction l as [|m' l IH]; intros m t H; cbn [micros_fit micros_run] in *;
    apply andb_true_iff in H as [Hm Hl]; destruct (micro_ok m st t Hm) as [Hr Hd].
  - done.
  - rewrite (bind_Ok _ _ _ _ _ Hr). rewrite <-Hd in Hl. now rewrite (IH m').
Qed.

(** The depth [requireStackDepth] asks for. *)
Definition needed (count : Z) (indices : list Z) : Z := foldl (fun need idx => Z.max need (idx + 1)) count indices.

Lemma requireStackDepth_run {B} count l (k : unit -> M State B) st t :
  Forall (fun i => 0 <= i) l ->
  (requireStackDepth count l ≫= k) (at_top st t) =
    if len t <? needed count l then (Err (VMErr CodeStackUnderflow), at_top st t) else k tt (at_top st t).
Proof.
  intros Hl. unfold requireStackDepth, needed. mrun. rewrite len_at_top.
  enough (E : forall c, foldl (fun need idx => if idx <? 0 then need else if need <? idx + 1 then idx + 1 else need) c l =
          foldl (fun need idx => Z.max need (idx + 1)) c l) by now rewrite E.
  induction Hl as [|i l Hi Hl IH]; intros c; cbn [foldl]; [done|]. rewrite IH. f_equal.
  destruct (Z.ltb_spec i 0), (Z.ltb_spec c (i + 1)); lia.
Qed.

(** The compound instructions: the depth they ask for and their micro-steps. *)
Inductive compound : Type :=
  | cROT | cROTREV | cSWAP2 | cOVER2
  | cXCHG2 (i j : Z) | cXCPU (i j : Z) | cPUXC (i j : Z) | cPUSH2 (i j : Z)
  | cXCHG3 (i j k : Z) | cXC2PU (i j k : Z) | cXCPUXC (i j k : Z) | cXCPU2 (i j k : Z)
  | cPUXC2 (i j k : Z) | cPUXCPU (i j k : Z) | cPU2XC (i j k : Z) | cPUSH3 (i j k : Z).

Definition nibble (x : Z) : Prop := 0 <= x < 16.
Definition compound_ok (c : compound) : Prop :=
  match c with
  | cROT | cROTREV | cSWAP2 | cOVER2 => True
  | cXCHG2 i j | cXCPU i j | cPUXC i j | cPUSH2 i j => nibble i /\ nibble j
  | cXCHG3 i j k | cXC2PU i j k | cXCPUXC i j k | cXCPU2 i j k
  | cPUXC2 i j k | cPUXCPU i j k | cPU2XC i j k | cPUSH3 i j k => nibble i /\ nibble j /\ nibble k
  end.

Definition args2 (i j : Z) : Z := i * 16 + j.
Definition args3 (i j k : Z) : Z := i * 256 + j * 16 + k.

Definition compound_run (c : compound) : M State unit :=
  match c with
  | cROT => ROT | cROTREV => ROTREV | cSWAP2 => SWAP2 | cOVER2 => OVER2
  | cXCHG2 i j => XCHG2 (args2 i j) | cXCPU i j => XCPU (args2 i j)
  | cPUXC i j => PUXC (args2 i j) | cPUSH2 i j => PUSH2 (args2 i j)
  | cXCHG3 i j k => XCHG3 (args3 i j k) | cXC2PU i j k => XC2PU (args3 i j k)
  | cXCPUXC i j k => XCPUXC (args3 i j k) | cXCPU2 i j k => XCPU2 (args3 i j k)
  | cPUXC2 i j k => PUXC2 (args3 i j k) | cPUXCPU i j k => PUXCPU (args3 i j k)
  | cPU2XC i j k => PU2XC (args3 i j k) | cPUSH3 i j k => PUSH3 (args3 i j k)
  end.

(** The sequences of basic instructions the instruction set defines them by. *)
Definition compound_micros (c : compound) : list micro :=
  match c with
  | cROT => [Xc 2 1; Xc 1 0] | cROTREV => [Xc 1 0; Xc 2 1]
  | cSWAP2 => [Xc 3 1; Xc 2 0] | cOVER2 => [Pu 3; Pu 3]
  | cXCHG2 i j => [Xc 1 i; Xc 0 j] | cXCPU i j => [Xc 0 i; Pu j]
  | cPUXC i j => [Pu i; Xc 0 1; Xc 0 j] | cPUSH2 i j => [Pu i; Pu (j + 1)]
  | cXCHG3 i j k => [Xc 2 i; Xc 1 j; Xc 0 k] | cXC2PU i j k => [Xc 1 i; Xc 0 j; Pu k]
  | cXCPUXC i j k => [Xc 1 i; Pu j; Xc 0 1; Xc 0 k] | cXCPU2 i j k => [Xc 0 i; Pu j; Pu (k + 1)]
  | cPUXC2 i j k => [Pu i; Xc 2 0; Xc 1 j; Xc 0 k] | cPUXCPU i j k => [Pu i; Xc 0 1; Xc 0 j; Pu k]
  | cPU2XC i j k => [Pu i; Xc 1 0; Pu j; Xc 1 0; Xc 0 k] | cPUSH3 i j k => [Pu i; Pu (j + 1); Pu (k + 2)]
  end.

Lemma unpack_args2 i j : nibble i -> nibble j -> unpackArgs2 (args2 i j) = (i, j).
Proof.
  unfold nibble, unpackArgs2, args2. intros. change 0xF with (Z.ones 4). rewrite !Z.land_ones, Z.shiftr_div_pow2 by lia.
  change (2 ^ 4) with 16. f_equal; lia.
Qed.

Lemma unpack_args3 i j k : nibble i -> nibble j -> nibble k -> unpackArgs3 (args3 i j k) = (i, j, k).
Proof.
  unfold nibble, unpackArgs3, args3. intros. change 0xF with (Z.ones 4). rewrite !Z.land_ones, !Z.shiftr_div_pow2 by lia.
  change (2 ^ 4) with 16. change (2 ^ 8) with 256. repeat f_equal; lia.
Qed.

(** The depth below which some micro-step of a sequence would fail. *)
Definition micro_needs (m : micro) : Z := match m with Xc a b => Z.max (a + 1) (b + 1) | Pu i => i + 1 end.
Fixpoint micros_need (l : list micro) : Z :=
  match l with
  | [] => 0
  | m :: l => Z.max (micro_needs m) (match m with Xc _ _ => micros_need l | Pu _ => micros_need l - 1 end)
  end.
Definition micro_nonneg (m : micro) : Prop := match m with Xc a b => 0 <= a /\ 0 <= b | Pu i => 0 <= i end.

Lemma micros_fit_need l n : Forall micro_nonneg l -> micros_fit l n = (micros_need l <=? n) || match l with [] => true | _ => false end.
Proof.
  revert n. induction l as [|m l IH]; intros n Hl; [now rewrite orb_true_r|].
  rewrite orb_false_r. inversion Hl as [|? ? Hm Hl']; subst. cbn [micros_fit micros_need]. rewrite IH by done.
  destruct l as [|m' l]; rewrite ?orb_true_r, ?orb_false_r, ?andb_true_r;
    destruct m as [a b | i]; cbn [micro_fits micro_needs micro_depth micro_nonneg micros_need] in *; try lia.
Qed.

Lemma maxStackDepthCount_max a b : maxStackDepthCount a b = Z.max a b.
Proof. unfold maxStackDepthCount. destruct (Z.ltb_spec b a); lia. Qed.

Lemma compound_unfold c st t :
  compound_ok c ->
  exists m l, compound_micros c = m :: l /\ Forall micro_nonneg (m :: l) /\
    compound_run c (at_top st t) =
      if len t <? micros_need (m :: l) then (Err (VMErr CodeStackUnderflow), at_top st t)
      else micros_run m l (at_top st t).
Proof.
  intros Hc. unfold compound_run, compound_micros. unfold nibble in *.
  destruct c; cbn [compound_ok] in Hc; eexists _, _; (split; [reflexivity|]); (split; [repeat constructor; cbn; unfold nibble in *; lia|]).
  all: unfold ROT, ROTREV, SWAP2, OVER2, XCHG2, XCPU, PUXC, PUSH2, XCHG3, XC2PU, XCPUXC, XCPU2, PUXC2, PUXCPU, PU2XC, PUSH3.
  all: rewrite ?unpack_args2, ?unpack_args3 by tauto; rewrite ?maxStackDepthCount_max; unfold nibble in *.
  all: rewrite requireStackDepth_run by (repeat constructor; lia).
  all: cbn [micros_run micro_run]; f_equal; f_equal; cbn [needed foldl micros_need micro_needs];
    repeat match goal with |- context [if ?x <? ?y then _ else _] => destruct (Z.ltb_spec x y) end; first [reflexivity | lia].
Qed.

(** ** Rolls *)

Lemma swapped_succ a x y b : swapped (len a) (len a + 1) (a ++ x :: y :: b) = a ++ y :: x :: b.
Proof.
  unfold swapped, Zlookup. pose proof (len_nonneg a). destruct (Z.ltb_spec (len a) 0), (Z.ltb_spec (len a + 1) 0); try lia.
  unfold len. rewrite Nat2Z.id. replace (Z.to_nat (Z.of_nat (length a) + 1)) with (length a + 1)%nat by lia.
  rewrite (lookup_app_r a (x :: y :: b) (length a)), Nat.sub_diag by lia.
  rewrite (lookup_app_r a (x :: y :: b) (length a + 1)) by lia. replace (length a + 1 - length a)%nat with 1%nat by lia.
  cbn [lookup list_lookup]. rewrite !insert_app_r_alt by lia.
  rewrite Nat.sub_diag. replace (length a + 1 - length a)%nat with 1%nat by lia. done.
Qed.

Lemma Exchange_succ st a x y b :
  on_stack (Exchange (len a) (len a + 1)) (at_top st (a ++ x :: y :: b)) = (Ok tt, at_top st (a ++ y :: x :: b)).
Proof.
  apply on_stack_run. rewrite Exchange_tf, swapped_succ. pose proof (len_nonneg a). pose proof (len_nonneg b).
  destruct (Zlookup_Some (a ++ x :: y :: b) (len a)) as [? ->]; [rewrite len_app, !len_cons; lia|].
  now destruct (Zlookup_Some (a ++ x :: y :: b) (len a + 1)) as [? ->]; [rewrite len_app, !len_cons; lia|].
Qed.

Lemma rollLoop_ok st a x b : rollLoop (length a) (at_top st (a ++ x :: b)) = (Ok tt, at_top st (x :: a ++ b)).
Proof.
  revert x b. induction a as [|y a IH] using rev_ind; intros x b; [done|]. rewrite length_app. cbn [length].
  rewrite Nat.add_1_r. cbn [rollLoop]. rewrite <-app_assoc. cbn [app]. fold (len a).
  replace (Z.of_nat (S (length a))) with (len a + 1) by (unfold len; lia).
  rewrite (bind_Ok _ _ _ _ _ (Exchange_succ st a y x b)), IH. now rewrite <-app_assoc.
Qed.

Lemma rollRevLoop_ok st a x b c :
  rollRevLoop (length b) (len a) (at_top st (a ++ x :: b ++ c)) = (Ok tt, at_top st (a ++ b ++ x :: c)).
Proof.
  revert a. induction b as [|y b IH]; intros a; [done|]. cbn [length rollRevLoop app].
  rewrite (bind_Ok _ _ _ _ _ (Exchange_succ st a x y (b ++ c))).
  specialize (IH (a ++ [y])). rewrite len_app in IH. change (len [y]) with 1 in IH. rewrite <-!app_assoc in IH. apply IH.
Qed.

(** ** Instructions with a count on the stack *)

Definition max_index (st : State) : Z := if st_GlobalVersion st <? 4 then 255 else maxSmallIndex.

Lemma popSmallIndex_run {B} (k : Z -> M State B) st n t :
  0 <= n <= max_index st -> (popSmallIndex ≫= k) (at_top st (VInt n :: t)) = k n (at_top st t).
Proof.
  intros Hn. unfold popSmallIndex. mrun. rewrite at_top_version. fold (max_index st). apply bind_on_stack.
  assert (max_index st < 2 ^ 63) by (unfold max_index, maxSmallIndex; destruct (_ <? _); lia).
  rewrite PopIntRange_tf by lia. destruct (Z.leb_spec 0 n), (Z.leb_spec n (max_index st)); lia || done.
Qed.

(** What the moves of more than 255 elements cost: the charge leaves everything but
    the gas alone. *)
Definition charged (st : State) (amount : Z) : State :=
  set_gas st (set_remaining (st_Gas st) (s64 (g_Remaining (st_Gas st) - amount))).

Lemma ConsumeGas_run st t amount :
  0 <= amount < 2 ^ 63 -> int64 (g_Remaining (st_Gas st) - amount) -> amount <= g_Remaining (st_Gas st) ->
  ConsumeGas amount (at_top st t) = (Ok tt, at_top (charged st amount) t).
Proof.
  intros Ha Hi Hr. unfold ConsumeGas. mrun. destruct (checkGasOnConsume (at_top st t)); cbn [negb].
  - unfold on_gas. replace (st_Gas (at_top st t)) with (st_Gas st) by now destruct st.
    rewrite Consume_run by done. destruct (Z.ltb_spec (g_Remaining (st_Gas st)) amount); [lia|].
    unfold charged. rewrite s64_id by done. now destruct st.
  - rewrite (s64_id amount) by (unfold int64; lia). destruct (Z.ltb_spec amount 0); [lia|].
    unfold charged. now destruct st.
Qed.

(** Enough gas for a move of [n] elements. *)
Definition move_gas (st : State) (n : Z) : Prop := Z.max 0 (n - 255) <= g_Remaining (st_Gas st) < 2 ^ 63.
Definition moved (st : State) (n : Z) : State := if n <=? 255 then st else charged st (n - 255).

Lemma consumeLarge_run {B} (k : unit -> M State B) st t n :
  move_gas st n -> (consumeLargeStackMoveGas n ≫= k) (at_top st t) = k tt (at_top (moved st n) t).
Proof.
  intros Hg. unfold consumeLargeStackMoveGas, moved, move_gas in *. destruct (Z.leb_spec n 255); [done|].
  apply bind_Ok, ConsumeGas_run; unfold int64; lia.
Qed.

Lemma moved_version st n : st_GlobalVersion (moved st n) = st_GlobalVersion st.
Proof. unfold moved, charged. destruct (_ <=? _); now destruct st. Qed.

Lemma on_stack_blocks st a b c :
  (on_stack (Reverse (len b + len a) (len a)) ;; on_stack (Reverse (len a) 0) ;; on_stack (Reverse (len b + len a) 0))
    (at_top st (a ++ b ++ c)) = (Ok tt, at_top st (b ++ a ++ c)).
Proof.
  pose proof (reverse_blocks a b c) as H. cbv zeta in H.
  apply bind_inv_Ok in H as (u1 & s1 & H1 & H). apply bind_inv_Ok in H as (u2 & s2 & H2 & H3).
  destruct (tf_surj s1) as [t1 ->], (tf_surj s2) as [t2 ->].
  rewrite (bind_on_stack _ _ _ _ _ _ H1), (bind_on_stack _ _ _ _ _ _ H2). now apply on_stack_run.
Qed.

(** ** Properties *)

(** C29: Every compound exchange instruction (ROT, 2SWAP, XCHG2, PUXC, XCHG3, PU2XC and
    the others, for all values of their operands) is atomic: on a stack deep enough
    for each of the basic exchanges and copies it stands for it performs them all,
    and on a shallower one it reports underflow and leaves the state as it was. *)
Theorem compound_exchange_atomic c st t :
  compound_ok c ->
  compound_run c (at_top st t) =
    if len t <? micros_need (compound_micros c)
    then (Err (VMErr CodeStackUnderflow), at_top st t)
    else (Ok tt, at_top st (foldl (flip micro_effect) t (compound_micros c))).
Proof.
  intros Hc. destruct (compound_unfold c st t Hc) as (m & l & -> & Hn & ->).
  destruct (Z.ltb_spec (len t) (micros_need (m :: l))); [done|]. apply micros_ok.
  rewrite micros_fit_need by done. destruct (Z.leb_spec (micros_need (m :: l)) (len t)); [done|lia].
Qed.

Definition sample_state_at (version : Z) : State :=
  mkState version 0 (mkSlice (mkCell [] 0 false 0 [] [] []) 0 0 0 0) emptyReg
    (GasWithLimit 1000 None) no_loads None [] 0 0 0 (mkCommitted None None false) 512
    (mkHist GasScheduleModern false false false false) false no_libraries.
Definition sample_state : State := sample_state_at 11.

Example compound_exchange_atomic_witness :
  compound_run (cPU2XC 2 0 3) (at_top sample_state [VInt 10; VInt 20; VInt 30]) =
    (Ok tt, at_top sample_state [VInt 20; VInt 10; VInt 30; VInt 10; VInt 30]) /\
  compound_run (cPU2XC 2 0 3) (at_top sample_state [VInt 10; VInt 20]) =
    (Err (VMErr CodeStackUnderflow), at_top sample_state [VInt 10; VInt 20]).
Proof.
  split; [apply (compound_exchange_atomic (cPU2XC 2 0 3) sample_state [VInt 10; VInt 20; VInt 30])
         |apply (compound_exchange_atomic (cPU2XC 2 0 3) sample_state [VInt 10; VInt 20])]; cbn; unfold nibble; lia.
Defined.

(** ROLL brings the element at the given depth to the top and shifts the ones above
    it down; ROLLREV takes the top to that depth; each undoes the other.  A move of
    more than 255 elements costs one unit of gas per element above 255. *)
Theorem roll_and_back st a x b :
  len a <= max_index st -> move_gas st (len a) ->
  ROLL (at_top st (VInt (len a) :: a ++ x :: b)) = (Ok tt, at_top (moved st (len a)) (x :: a ++ b)) /\
  ROLLREV (at_top st (VInt (len a) :: x :: a ++ b)) = (Ok tt, at_top (moved st (len a)) (a ++ x :: b)).
Proof.
  intros Ha Hg. pose proof (len_nonneg a). pose proof (len_nonneg b). unfold ROLL, ROLLREV. split.
  - rewrite popSmallIndex_run, depth_guard_run by lia. rewrite len_app, len_cons.
    destruct (Z.leb_spec (len a + (len b + 1)) (len a)); [lia|]. rewrite consumeLarge_run by done.
    unfold len at 1. rewrite Nat2Z.id. apply rollLoop_ok.
  - rewrite popSmallIndex_run, depth_guard_run by lia. rewrite len_cons, len_app.
    destruct (Z.leb_spec (len a + len b + 1) (len a)); [lia|]. rewrite consumeLarge_run by done.
    unfold len at 1. rewrite Nat2Z.id. apply (rollRevLoop_ok _ []).
Qed.

Example roll_and_back_witness :
  ROLL (at_top sample_state [VInt 2; VInt 10; VInt 20; VInt 30; VInt 40])
    = (Ok tt, at_top sample_state [VInt 30; VInt 10; VInt 20; VInt 40]) /\
  ROLLREV (at_top sample_state [VInt 2; VInt 30; VInt 10; VInt 20; VInt 40])
    = (Ok tt, at_top sample_state [VInt 10; VInt 20; VInt 30; VInt 40]).
Proof.
  apply (roll_and_back sample_state [VInt 10; VInt 20] (VInt 30) [VInt 40]).
  - vm_compute. discriminate.
  - vm_compute. split; [discriminate|reflexivity].
Defined.

(** BLKSWAP and BLKSWX exchange two adjacent blocks at the top of the stack, in
    whatever sizes, by three in-place reversals; BLKSWX with a zero block does
    nothing, and since version 4 charges for blocks of more than 255 elements. *)
Theorem block_swap st a b c :
  (1 <= len a <= 16 -> 1 <= len b <= 16 ->
   BLKSWAP (args2 (len b - 1) (len a - 1)) (at_top st (a ++ b ++ c)) = (Ok tt, at_top st (b ++ a ++ c))) /\
  (len a <= max_index st -> len b <= max_index st -> move_gas st (len b + len a) ->
   BLKSWX (at_top st (VInt (len a) :: VInt (len b) :: a ++ b ++ c)) =
     (Ok tt, at_top (if (len b =? 0) || (len a =? 0) || (st_GlobalVersion st <? 4) then st else moved st (len b + len a))
               (b ++ a ++ c))).
Proof.
  pose proof (len_nonneg a). pose proof (len_nonneg b). pose proof (len_nonneg c). split.
  - intros Ha Hb. unfold BLKSWAP. rewrite unpack_args2 by (unfold nibble; lia). rewrite !Z.sub_add.
    rewrite depth_guard_run, !len_app. destruct (Z.ltb_spec (len a + (len b + len c)) (len b + len a)); [lia|].
    apply on_stack_blocks.
  - intros Ha Hb Hg. unfold BLKSWX. rewrite depth_guard_run, !len_cons, !len_app.
    destruct (Z.ltb_spec (len a + (len b + len c) + 1 + 1) 2); [lia|].
    rewrite !popSmallIndex_run by lia. rewrite depth_guard_run, !len_app.
    destruct (Z.ltb_spec (len b) 0), (Z.ltb_spec (len a) 0), (Z.ltb_spec (len a + (len b + len c)) (len b + len a)); try lia.
    cbn [orb]. destruct (Z.eqb_spec (len b) 0) as [Hb0 | Hb0].
    { destruct b; [done|]. rewrite len_cons in Hb0. pose proof (len_nonneg b). lia. }
    destruct (Z.eqb_spec (len a) 0) as [Ha0 | Ha0].
    { destruct a; [done|]. rewrite len_cons in Ha0. pose proof (len_nonneg a). lia. }
    cbn [orb]. mrun. rewrite bind_if, at_top_version.
    destruct (Z.leb_spec 4 (st_GlobalVersion st)), (Z.ltb_spec (st_GlobalVersion st) 4); try lia.
    + rewrite consumeLarge_run by done. apply on_stack_blocks.
    + mrun. apply on_stack_blocks.
Qed.

Example block_swap_witness :
  BLKSWAP 0x10 (at_top sample_state [VInt 1; VInt 2; VInt 3; VInt 4]) = (Ok tt, at_top sample_state [VInt 2; VInt 3; VInt 1; VInt 4]) /\
  BLKSWX (at_top sample_state [VInt 1; VInt 2; VInt 1; VInt 2; VInt 3; VInt 4]) = (Ok tt, at_top sample_state [VInt 2; VInt 3; VInt 1; VInt 4]).
Proof.
  destruct (block_swap sample_state [VInt 1] [VInt 2; VInt 3] [VInt 4]) as [H1 H2]. split.
  - apply H1; vm_compute; split; discriminate.
  - apply H2; [vm_compute; discriminate|vm_compute; discriminate|vm_compute; split; [discriminate|reflexivity]].
Defined.

(** REVERSE and REVX reverse a block below [y] elements in place, and doing so
    twice restores the stack. *)
Theorem reverse_block st a b c :
  2 <= len b -> len b <= 17 -> len a <= 15 ->
  let args := args2 (len b - 2) (len a) in
  REVERSE args (at_top st (a ++ b ++ c)) = (Ok tt, at_top st (a ++ reverse b ++ c)) /\
  (REVERSE args ;; REVERSE args) (at_top st (a ++ b ++ c)) = (Ok tt, at_top st (a ++ b ++ c)) /\
  (move_gas st (len b) ->
   REVX (at_top st (VInt (len a) :: VInt (len b) :: a ++ b ++ c)) = (Ok tt, at_top st (a ++ reverse b ++ c))).
Proof.
  intros Hb1 Hb2 Ha args. pose proof (len_nonneg a). pose proof (len_nonneg b). pose proof (len_nonneg c).
  assert (HR : forall b', len b' = len b -> on_stack (Reverse (len b + len a) (len a)) (at_top st (a ++ b' ++ c)) =
               (Ok tt, at_top st (a ++ reverse b' ++ c))).
  { intros b' Hb'. apply on_stack_run. rewrite Reverse_tf by (rewrite ?len_app; lia). do 2 f_equal.
    rewrite <-Hb'. unfold len. rewrite !Nat2Z.id, take_app_length, drop_app_length.
    replace (Z.to_nat (Z.of_nat (length b') + Z.of_nat (length a) - Z.of_nat (length a))) with (length b') by lia.
    rewrite take_app_length. f_equal. f_equal. rewrite app_assoc, drop_app_length'; [done|]. rewrite length_app. lia. }
  assert (HV : forall b', len b' = len b -> REVERSE args (at_top st (a ++ b' ++ c)) = (Ok tt, at_top st (a ++ reverse b' ++ c))).
  { intros b' Hb'. unfold REVERSE, args. rewrite unpack_args2 by (unfold nibble; lia). rewrite Z.sub_add. now apply HR. }
  split; [now apply HV|]. split.
  - rewrite (bind_Ok _ _ _ _ _ (HV b eq_refl)), HV by (unfold len; now rewrite length_reverse). now rewrite reverse_involutive.
  - intros Hg. unfold REVX. rewrite depth_guard_run, !len_cons, !len_app.
    destruct (Z.ltb_spec (len a + (len b + len c) + 1 + 1) 2); [lia|].
    assert (255 <= max_index st) by (unfold max_index, maxSmallIndex; destruct (_ <? _); lia).
    rewrite !popSmallIndex_run by lia. rewrite depth_guard_run, !len_app.
    destruct (Z.ltb_spec (len b) 0), (Z.ltb_spec (len a) 0), (Z.ltb_spec (len a + (len b + len c)) (len b + len a)); try lia.
    cbn [orb]. rewrite consumeLarge_run by done. unfold moved. destruct (Z.leb_spec (len b) 255); [|lia]. now apply HR.
Qed.

Example reverse_block_witness :
  REVERSE 0x11 (at_top sample_state [VInt 1; VInt 2; VInt 3; VInt 4; VInt 5])
    = (Ok tt, at_top sample_state [VInt 1; VInt 4; VInt 3; VInt 2; VInt 5]).
Proof.
  destruct (reverse_block sample_state [VInt 1] [VInt 2; VInt 3; VInt 4] [VInt 5]) as (H & _).
  - vm_compute. discriminate.
  - vm_compute. discriminate.
  - vm_compute. discriminate.
  - exact H.
Defined.
