(* ===== verification/Arith.v ===== *)
(** * Integer instructions

    Models the actions of [tvm/op/math] and the rounding divisions of
    [tvm/op/helpers/math.go].  A [*big.Int] is an [option Z] where nil stands for
    NaN.  The instructions of one division family differ in their rounding and in
    which of quotient and remainder they push, and are instances of one body. *)

From S2P Require Import Prelude Bytes CellModel Builder Slice Gas Value Stack VmState.
#[local] Open Scope Z_scope.

(** ** Rounding divisions *)

(** [big.Int.DivMod]: Euclidean division, the remainder is never negative. *)
Definition big_DivMod (x y : Z) : Z * Z := let r := x mod Z.abs y in ((x - r) / y, r).
(** [big.Int.QuoRem]: division truncated towards zero. *)
Definition big_QuoRem (x y : Z) : Z * Z := (Z.quot x y, Z.rem x y).

Definition DivFloor (x y : Z) : Z * Z :=
  let '(q, r) := big_DivMod x y in
  if 0 <? y then
    if r <? 0 then (q - 1, r + y) else (q, r)
  else
    if 0 <? r then (q - 1, r + y) else (q, r).

Definition DivRound (x y : Z) : Z :=
  let '(q, r) := big_QuoRem x y in
  if r =? 0 then q else
  let twiceRem := Z.abs r * 2 in
  let cmp := Z.compare twiceRem (Z.abs y) in
  if Z.sgn x =? Z.sgn y then
    match cmp with Lt => q | _ => q + 1 end
  else
    match cmp with Gt => q - 1 | _ => q end.

Definition DivCeil (x y : Z) : Z :=
  let '(q, r) := big_DivMod x y in
  let q := if negb (r =? 0) && (0 <? x) && (0 <? y) then q + 1 else q in
  if negb (r =? 0) && (x <? 0) && (0 <? y) then q + 1 else q.

(** [roundDivMod]: rounding 0 is floor, 1 nearest, 2 ceiling. *)
Definition roundDivMod (x y roundMode : Z) : Z * Z :=
  if roundMode =? 0 then DivFloor x y
  else
    let q := if roundMode =? 1 then DivRound x y else DivCeil x y in
    (q, x - y * q).

(** ** Helpers ([arith_helpers.go], [code_immediate.go]) *)

Definition bitSizeInvalid : Z := 0x7fffffff.

Definition pushNaNOrOverflow (quiet : bool) : M State unit :=
  if quiet then on_stack (PushAny VNaN) else fail (VMErr CodeIntOverflow).

Definition pushMaybeInt (val : option Z) (quiet : bool) : M State unit :=
  match val with
  | None => pushNaNOrOverflow quiet
  | Some v => if quiet then on_stack (PushIntQuiet v) else on_stack (PushInt v)
  end.

Definition leftShiftResult (x : option Z) (shift : Z) : option Z :=
  match x with
  | None => None
  | Some x => if (x =? 0) && (5 * 52 <=? shift) then None else Some (x ≪ shift)
  end.

Definition cppRoundFloor : Z := -1.
Definition cppRoundNearest : Z := 0.
Definition cppRoundCeil : Z := 1.

Definition legacyRShiftNaNResultThreshold (globalVersion threshold shift roundMode : Z) : option Z :=
  if (threshold <=? globalVersion) || (shift =? 0) then None
  else if (roundMode =? cppRoundFloor) && (64 - 52 <? shift) then Some (-1)
  else Some 0.

Definition legacyShiftNaNResultThreshold (globalVersion threshold shift : Z) (right : bool) : option Z :=
  if (threshold <=? globalVersion) || (shift =? 0) then None
  else if right then legacyRShiftNaNResultThreshold globalVersion threshold shift cppRoundFloor
  else
    let q := shift / 52 in
    if (q =? 0) || (5 <? q) then None else Some 0.

Definition legacyLeftShiftOperand (globalVersion : Z) (value : option Z) (shift : Z) : option Z :=
  match value with
  | Some v => Some v
  | None => legacyShiftNaNResultThreshold globalVersion 13 shift false
  end.

Definition checkStackDepth (depth : Z) : M State unit :=
  st ← get_state;
  guard_err (len (st_Stack st) <? depth) (VMErr CodeStackUnderflow).

Definition popInt : M State (option Z) := on_stack PopInt.
Definition popIntFinite : M State Z := on_stack PopIntFinite.
Definition popIntRange (min max : Z) : M State Z := on_stack (PopIntRange min max).

Definition version : M State Z := st ← get_state; mret (st_GlobalVersion st).

(** [requireFiniteInts] of the operands: their values, or an overflow error. *)
Definition finite (x : option Z) : M State Z :=
  match x with Some x => mret x | None => fail (VMErr CodeIntOverflow) end.

Definition unaryIntResult (x : option Z) (fn : Z -> Z) : option Z := fn <$> x.
Definition binaryIntResult (x y : option Z) (fn : Z -> Z -> Z) : option Z :=
  match x, y with Some x, Some y => Some (fn x y) | _, _ => None end.

Definition pushUnaryIntResult (x : option Z) (fn : Z -> Z) : M State unit := pushMaybeInt (unaryIntResult x fn) false.
Definition pushBinaryIntResult (x y : option Z) (fn : Z -> Z -> Z) : M State unit :=
  pushMaybeInt (binaryIntResult x y fn) false.

Definition versionedAndResult (globalVersion : Z) (x y : option Z) : option Z :=
  match x, y with
  | Some x, Some y => Some (Z.land x y)
  | Some z, None | None, Some z => if (globalVersion <? 13) && (z =? 0) then Some 0 else None
  | None, None => None
  end.

Definition versionedOrResult (globalVersion : Z) (x y : option Z) : option Z :=
  match x, y with
  | Some x, Some y => Some (Z.lor x y)
  | Some z, None | None, Some z => if (globalVersion <? 13) && (z =? -1) then Some (-1) else None
  | None, None => None
  end.

Definition bytePlusOneValue (args : Z) : Z := u8 args + 1.

(** ** Addition, multiplication, logic *)

Definition binary (k : option Z -> option Z -> M State unit) : M State unit :=
  checkStackDepth 2 ;;
  i0 ← popInt;
  i1 ← popInt;
  k i0 i1.

Definition SUM : M State unit := binary (fun i0 i1 => pushBinaryIntResult i0 i1 Z.add).
Definition SUB : M State unit := binary (fun i0 i1 => pushBinaryIntResult i1 i0 Z.sub).
Definition SUBR : M State unit := binary (fun i0 i1 => pushBinaryIntResult i0 i1 Z.sub).
Definition MUL : M State unit := binary (fun i0 i1 => pushBinaryIntResult i0 i1 Z.mul).

Definition MinInt64 : Z := - 2 ^ 63.
Definition MaxInt64 : Z := 2 ^ 63 - 1.

Definition INC : M State unit :=
  i0 ← popInt;
  match i0 with
  | Some v => if is_int64 v && negb (v =? MaxInt64) then on_stack (PushSmallInt (s64 (v + 1)))
              else pushUnaryIntResult i0 (fun x => x + 1)
  | None => pushUnaryIntResult i0 (fun x => x + 1)
  end.

Definition DEC : M State unit :=
  i0 ← popInt;
  match i0 with
  | Some v => if is_int64 v && negb (v =? MinInt64) then on_stack (PushSmallInt (s64 (v - 1)))
              else pushUnaryIntResult i0 (fun x => x - 1)
  | None => pushUnaryIntResult i0 (fun x => x - 1)
  end.

Definition NEGATE : M State unit := i0 ← popInt; pushUnaryIntResult i0 Z.opp.
Definition ABS : M State unit := i0 ← popInt; pushUnaryIntResult i0 Z.abs.
Definition ADDCONST (args : Z) : M State unit := i0 ← popInt; pushUnaryIntResult i0 (fun x => x + s8 args).
Definition MULCONST (args : Z) : M State unit := i0 ← popInt; pushUnaryIntResult i0 (fun x => x * s8 args).

(** The 64-bit fast path of the logic instructions. *)
Definition small2 (x y : option Z) : option (Z * Z) :=
  match x, y with
  | Some x, Some y => if is_int64 x && is_int64 y then Some (x, y) else None
  | _, _ => None
  end.

Definition AND : M State unit := binary (fun i0 i1 =>
  match small2 i0 i1 with
  | Some (x, y) => on_stack (PushSmallInt (Z.land x y))
  | None => v ← version; pushMaybeInt (versionedAndResult v i0 i1) false
  end).

Definition OR : M State unit := binary (fun i0 i1 =>
  match small2 i0 i1 with
  | Some (x, y) => on_stack (PushSmallInt (Z.lor x y))
  | None => v ← version; pushMaybeInt (versionedOrResult v i0 i1) false
  end).

Definition XOR : M State unit := binary (fun i0 i1 =>
  match small2 i0 i1 with
  | Some (x, y) => on_stack (PushSmallInt (Z.lxor x y))
  | None => pushBinaryIntResult i0 i1 Z.lxor
  end).

Definition NOT : M State unit :=
  i0 ← popInt;
  match i0 with
  | Some v => if is_int64 v then on_stack (PushSmallInt (Z.lnot v)) else pushUnaryIntResult i0 Z.lnot
  | None => pushUnaryIntResult i0 Z.lnot
  end.

(** ** Quiet forms *)

Definition quietUnaryIntOp (fn : Z -> Z) : M State unit :=
  checkStackDepth 1 ;;
  x ← popInt;
  match x with
  | None => pushNaNOrOverflow true
  | Some x => on_stack (PushIntQuiet (fn x))
  end.

Definition quietBinaryIntOp (fn : Z -> Z -> Z) : M State unit :=
  checkStackDepth 2 ;;
  y ← popInt;
  x ← popInt;
  match x, y with
  | Some x, Some y => on_stack (PushIntQuiet (fn x y))
  | _, _ => pushNaNOrOverflow true
  end.

Definition quietTinyIntOp (fn : Z -> Z -> Z) (args : Z) : M State unit := quietUnaryIntOp (fun x => fn x (s8 args)).

Definition QADD : M State unit := quietBinaryIntOp Z.add.
Definition QSUB : M State unit := quietBinaryIntOp Z.sub.
Definition QSUBR : M State unit := quietBinaryIntOp (fun x y => y - x).
Definition QMUL : M State unit := quietBinaryIntOp Z.mul.
Definition QNEGATE : M State unit := quietUnaryIntOp Z.opp.
Definition QINC : M State unit := quietUnaryIntOp (fun x => x + 1).
Definition QDEC : M State unit := quietUnaryIntOp (fun x => x - 1).
Definition QADDINT (args : Z) : M State unit := quietTinyIntOp Z.add args.
Definition QMULINT (args : Z) : M State unit := quietTinyIntOp Z.mul args.

Definition QAND : M State unit := binary (fun y x => v ← version; pushMaybeInt (versionedAndResult v x y) true).
Definition QOR : M State unit := binary (fun y x => v ← version; pushMaybeInt (versionedOrResult v x y) true).
Definition QXOR : M State unit := binary (fun y x =>
  match x, y with
  | Some x', Some y' =>
      if is_int64 x' && is_int64 y' then on_stack (PushSmallInt (Z.lxor x' y'))
      else on_stack (PushIntQuiet (Z.lxor x' y'))
  | _, _ => pushNaNOrOverflow true
  end).

Definition QNOT : M State unit :=
  i0 ← popInt;
  match i0 with
  | None => pushNaNOrOverflow true
  | Some v => if is_int64 v then on_stack (PushSmallInt (Z.lnot v)) else on_stack (PushIntQuiet (Z.lnot v))
  end.

(** ** Shifts and powers *)

Definition LSHIFT : M State unit :=
  checkStackDepth 2 ;;
  y ← popIntRange 0 1023;
  x ← popInt;
  v ← version;
  match x with
  | None => pushMaybeInt (legacyShiftNaNResultThreshold v 13 y false) false
  | Some _ => pushMaybeInt (leftShiftResult x y) false
  end.

Definition RSHIFT : M State unit :=
  checkStackDepth 2 ;;
  y ← popIntRange 0 1023;
  x ← popInt;
  v ← version;
  match x with
  | None => pushMaybeInt (legacyShiftNaNResultThreshold v 13 y true) false
  | Some x => on_stack (PushInt (x ≫ y))
  end.

Definition LSHIFTCODE (args : Z) : M State unit :=
  x ← popInt;
  v ← version;
  let shift := bytePlusOneValue args in
  match x with
  | None => pushMaybeInt (legacyShiftNaNResultThreshold v 14 shift false) false
  | Some _ => pushMaybeInt (leftShiftResult x shift) false
  end.

Definition RSHIFTCODE (args : Z) : M State unit :=
  x ← popInt;
  v ← version;
  let shift := bytePlusOneValue args in
  match x with
  | None => pushMaybeInt (legacyShiftNaNResultThreshold v 14 shift true) false
  | Some x => on_stack (PushInt (x ≫ shift))
  end.

Definition RSHIFTFLOOR : M State unit :=
  checkStackDepth 2 ;;
  y ← popIntRange 0 256;
  x ← popInt;
  v ← version;
  match x with
  | None => pushMaybeInt (legacyShiftNaNResultThreshold v 14 y true) false
  | Some x => on_stack (PushInt (x ≫ y))
  end.

Definition RSHIFTCODEFLOOR (args : Z) : M State unit :=
  x ← popInt;
  v ← version;
  let shift := bytePlusOneValue args in
  match x with
  | None => pushMaybeInt (legacyShiftNaNResultThreshold v 14 shift true) false
  | Some x => on_stack (PushInt (x ≫ shift))
  end.

Definition quietShiftOp (right : bool) : M State unit :=
  checkStackDepth 2 ;;
  y ← popInt;
  v ← version;
  let shiftValid := match y with Some y => (0 <=? y) && (y <=? 1023) | None => false end in
  guard_err (negb shiftValid && (v <? 13)) (VMErr CodeRangeCheck) ;;
  x ← popInt;
  match (if shiftValid then y else None), x with
  | None, _ => pushNaNOrOverflow true
  | Some y, None => pushMaybeInt (legacyShiftNaNResultThreshold v 13 y right) true
  | Some y, Some x' => pushMaybeInt (if right then Some (x' ≫ y) else leftShiftResult x y) true
  end.
Definition QLSHIFT : M State unit := quietShiftOp false.
Definition QRSHIFT : M State unit := quietShiftOp true.

Definition quietShiftCodeOp (right : bool) (args : Z) : M State unit :=
  checkStackDepth 1 ;;
  x ← popInt;
  v ← version;
  let shift := bytePlusOneValue args in
  match x with
  | None => pushMaybeInt (legacyShiftNaNResultThreshold v 14 shift right) true
  | Some x' => pushMaybeInt (if right then Some (x' ≫ shift) else leftShiftResult x shift) true
  end.
Definition QLSHIFTCODE : Z -> M State unit := quietShiftCodeOp false.
Definition QRSHIFTCODE : Z -> M State unit := quietShiftCodeOp true.

Definition POW2 : M State unit :=
  y ← popIntRange 0 1023;
  on_stack (PushInt (1 ≪ y)).

Definition QPOW2 : M State unit :=
  checkStackDepth 1 ;;
  y ← popInt;
  v ← version;
  match y with
  | Some y' =>
      if (y' <? 0) || (1023 <? y') then
        if v <? 13 then fail (VMErr CodeRangeCheck) else pushNaNOrOverflow true
      else on_stack (PushIntQuiet (1 ≪ y'))
  | None => if v <? 13 then fail (VMErr CodeRangeCheck) else pushNaNOrOverflow true
  end.

(** * Division instructions

    The compound division families of [tvm/op/math]: [x/y], [(x+w)/z], [x/2^y],
    [x*y/z], [x*y/2^z] and [x*2^z/y], each with three roundings and a choice of
    quotient, remainder or both, throwing on NaN or overflow, and the quiet family
    [B7A9..] of [quiet_compound.go] that pushes NaN instead.  Each throwing
    instruction has a file of its own with the same body up to rounding and
    results; the bodies below are theirs. *)

(** Rounding modes and selections of results. *)
Definition rFloor : Z := 0.
Definition rNearest : Z := 1.
Definition rCeil : Z := 2.
Definition dQuot : Z := 1.
Definition dRem : Z := 2.
Definition dBoth : Z := 3.

(** Throwing pushes of the selected results. *)
Definition push_results (d : Z) (qr : Z * Z) : M State unit :=
  if d =? 1 then on_stack (PushInt qr.1)
  else if d =? 2 then on_stack (PushInt qr.2)
  else on_stack (PushInt qr.1) ;; on_stack (PushInt qr.2).

Definition div_checked (d mode x y : Z) : M State unit :=
  guard_err (y =? 0) (VMErr CodeIntOverflow) ;;
  push_results d (roundDivMod x y mode).

(** ** Throwing families *)

(** DIV, MOD, DIVMOD *)
Definition divModBody (mode d : Z) : M State unit :=
  checkStackDepth 2 ;;
  y ← popInt;
  x ← popInt;
  match x, y with
  | Some x, Some y => div_checked d mode x y
  | _, _ => pushNaNOrOverflow false
  end.

Definition addDivModBody (mode : Z) : M State unit :=
  checkStackDepth 3 ;;
  z ← popInt;
  w ← popInt;
  x ← popInt;
  z ← finite z;
  w ← finite w;
  x ← finite x;
  div_checked dBoth mode (x + w) z.

Definition mulDivModBody (mode d : Z) : M State unit :=
  checkStackDepth 3 ;;
  z ← popInt;
  y ← popInt;
  x ← popInt;
  z ← finite z;
  y ← finite y;
  x ← finite x;
  div_checked d mode (x * y) z.

Definition mulAddDivModBody (mode : Z) : M State unit :=
  checkStackDepth 4 ;;
  z ← popInt;
  w ← popInt;
  y ← popInt;
  x ← popInt;
  z ← finite z;
  w ← finite w;
  y ← finite y;
  x ← finite x;
  div_checked dBoth mode (x * y + w) z.

(** RSHIFTR, RSHIFTC: a NaN dividend was a zero before version 14. *)
Definition rshiftRoundBody (mode : Z) : M State unit :=
  checkStackDepth 2 ;;
  y ← popIntRange 0 256;
  x ← popInt;
  v ← version;
  match x with
  | None => if (y =? 0) || (14 <=? v) then pushNaNOrOverflow false else on_stack (PushSmallInt 0)
  | Some x => on_stack (PushInt (roundDivMod x (1 ≪ y) mode).1)
  end.

(** RSHIFTMOD and MODPOW2 *)
Definition rshiftModBody (mode d : Z) : M State unit :=
  checkStackDepth 2 ;;
  y ← popIntRange 0 256;
  x ← popIntFinite;
  push_results d (roundDivMod x (1 ≪ y) mode).

Definition addRShiftModBody (mode : Z) : M State unit :=
  checkStackDepth 3 ;;
  z ← popIntRange 0 256;
  w ← popInt;
  x ← popInt;
  w ← finite w;
  x ← finite x;
  push_results dBoth (roundDivMod (x + w) (1 ≪ z) mode).

Definition mulRShiftBody (mode : Z) : M State unit :=
  checkStackDepth 3 ;;
  z ← popIntRange 0 256;
  y ← popInt;
  x ← popInt;
  v ← version;
  match x, y with
  | Some x, Some y => on_stack (PushInt (roundDivMod (x * y) (1 ≪ z) mode).1)
  | _, _ => pushMaybeInt (legacyRShiftNaNResultThreshold v 13 z (mode - 1)) false
  end.

(** MULRSHIFTMOD and MULMODPOW2 *)
Definition mulRShiftModBody (mode d : Z) : M State unit :=
  checkStackDepth 3 ;;
  z ← popIntRange 0 256;
  y ← popInt;
  x ← popInt;
  y ← finite y;
  x ← finite x;
  push_results d (roundDivMod (x * y) (1 ≪ z) mode).

Definition mulAddRShiftModBody (mode : Z) : M State unit :=
  checkStackDepth 4 ;;
  z ← popIntRange 0 256;
  w ← popInt;
  y ← popInt;
  x ← popInt;
  w ← finite w;
  y ← finite y;
  x ← finite x;
  push_results dBoth (roundDivMod (x * y + w) (1 ≪ z) mode).

(** LSHIFTDIV, LSHIFTMOD, LSHIFTDIVMOD *)
Definition lshiftDivBody (mode d : Z) : M State unit :=
  checkStackDepth 3 ;;
  z ← popIntRange 0 256;
  y ← popInt;
  x ← popInt;
  v ← version;
  let x := legacyLeftShiftOperand v x z in
  y ← finite y;
  x ← finite x;
  div_checked d mode (x * (1 ≪ z)) y.

Definition lshiftAddDivModBody (mode : Z) : M State unit :=
  checkStackDepth 4 ;;
  y ← popIntRange 0 256;
  z ← popInt;
  w ← popInt;
  x ← popInt;
  v ← version;
  let x := legacyLeftShiftOperand v x y in
  z ← finite z;
  w ← finite w;
  x ← finite x;
  div_checked dBoth mode (x * (1 ≪ y) + w) z.

(** ** Throwing instructions with an immediate shift *)

Definition rshiftRoundCodeBody (mode args : Z) : M State unit :=
  x ← popInt;
  v ← version;
  match x with
  | None => if 14 <=? v then pushNaNOrOverflow false else on_stack (PushSmallInt 0)
  | Some x => on_stack (PushInt (roundDivMod x (1 ≪ bytePlusOneValue args) mode).1)
  end.

Definition rshiftModCodeBody (mode d args : Z) : M State unit :=
  x ← popIntFinite;
  push_results d (roundDivMod x (1 ≪ bytePlusOneValue args) mode).

Definition addRShiftModCodeBody (mode args : Z) : M State unit :=
  checkStackDepth 2 ;;
  w ← popInt;
  x ← popInt;
  w ← finite w;
  x ← finite x;
  push_results dBoth (roundDivMod (x + w) (1 ≪ bytePlusOneValue args) mode).

Definition mulRShiftCodeBody (mode args : Z) : M State unit :=
  checkStackDepth 2 ;;
  y ← popInt;
  x ← popInt;
  v ← version;
  let shift := bytePlusOneValue args in
  match x, y with
  | Some x, Some y => on_stack (PushInt (roundDivMod (x * y) (1 ≪ shift) mode).1)
  | _, _ => pushMaybeInt (legacyRShiftNaNResultThreshold v 13 shift (mode - 1)) false
  end.

Definition mulRShiftModCodeBody (mode d args : Z) : M State unit :=
  checkStackDepth 2 ;;
  y ← popInt;
  x ← popInt;
  y ← finite y;
  x ← finite x;
  push_results d (roundDivMod (x * y) (1 ≪ bytePlusOneValue args) mode).

Definition mulAddRShiftModCodeBody (mode args : Z) : M State unit :=
  checkStackDepth 3 ;;
  w ← popInt;
  y ← popInt;
  x ← popInt;
  w ← finite w;
  y ← finite y;
  x ← finite x;
  push_results dBoth (roundDivMod (x * y + w) (1 ≪ bytePlusOneValue args) mode).

(** [newLshiftDivCodeOp]: selection 0 adds [w] and pushes both results. *)
Definition lshiftDivCodeOp (d mode args : Z) : M State unit :=
  checkStackDepth (if d =? 0 then 3 else 2) ;;
  z ← popInt;
  w ← (if d =? 0 then popInt else mret None);
  x ← popInt;
  v ← version;
  let shift := bytePlusOneValue args in
  let x := legacyLeftShiftOperand v x shift in
  z ← finite z;
  w ← (if d =? 0 then finite w else mret 0);
  x ← finite x;
  guard_err (z =? 0) (VMErr CodeIntOverflow) ;;
  let dividend := x ≪ shift in
  let dividend := if d =? 0 then dividend + w else dividend in
  let '(q, r) := roundDivMod dividend z mode in
  if d =? 1 then on_stack (PushInt q)
  else if d =? 2 then on_stack (PushInt r)
  else on_stack (PushInt q) ;; on_stack (PushInt r).

(** ** The throwing instructions *)

Definition DIV : M State unit := divModBody rFloor dQuot.
Definition DIVR : M State unit := divModBody rNearest dQuot.
Definition DIVC : M State unit := divModBody rCeil dQuot.
Definition MOD : M State unit := divModBody rFloor dRem.
Definition MODR : M State unit := divModBody rNearest dRem.
Definition MODC : M State unit := divModBody rCeil dRem.
Definition DIVMOD : M State unit := divModBody rFloor dBoth.
Definition DIVMODR : M State unit := divModBody rNearest dBoth.
Definition DIVMODC : M State unit := divModBody rCeil dBoth.
Definition ADDDIVMOD : M State unit := addDivModBody rFloor.
Definition ADDDIVMODR : M State unit := addDivModBody rNearest.
Definition ADDDIVMODC : M State unit := addDivModBody rCeil.
Definition MULDIV : M State unit := mulDivModBody rFloor dQuot.
Definition MULDIVR : M State unit := mulDivModBody rNearest dQuot.
Definition MULDIVC : M State unit := mulDivModBody rCeil dQuot.
Definition MULMOD : M State unit := mulDivModBody rFloor dRem.
Definition MULMODR : M State unit := mulDivModBody rNearest dRem.
Definition MULMODC : M State unit := mulDivModBody rCeil dRem.
Definition MULDIVMOD : M State unit := mulDivModBody rFloor dBoth.
Definition MULDIVMODR : M State unit := mulDivModBody rNearest dBoth.
Definition MULDIVMODC : M State unit := mulDivModBody rCeil dBoth.
Definition MULADDDIVMOD : M State unit := mulAddDivModBody rFloor.
Definition MULADDDIVMODR : M State unit := mulAddDivModBody rNearest.
Definition MULADDDIVMODC : M State unit := mulAddDivModBody rCeil.
Definition RSHIFTR : M State unit := rshiftRoundBody rNearest.
Definition RSHIFTC : M State unit := rshiftRoundBody rCeil.
Definition RSHIFTMOD : M State unit := rshiftModBody rFloor dBoth.
Definition RSHIFTMODR : M State unit := rshiftModBody rNearest dBoth.
Definition RSHIFTMODC : M State unit := rshiftModBody rCeil dBoth.
Definition MODPOW2 : M State unit := rshiftModBody rFloor dRem.
Definition MODPOW2R : M State unit := rshiftModBody rNearest dRem.
Definition MODPOW2C : M State unit := rshiftModBody rCeil dRem.
Definition ADDRSHIFTMOD : M State unit := addRShiftModBody rFloor.
Definition ADDRSHIFTMODR : M State unit := addRShiftModBody rNearest.
Definition ADDRSHIFTMODC : M State unit := addRShiftModBody rCeil.
Definition MULRSHIFT : M State unit := mulRShiftBody rFloor.
Definition MULRSHIFTR : M State unit := mulRShiftBody rNearest.
Definition MULRSHIFTC : M State unit := mulRShiftBody rCeil.
Definition MULRSHIFTMOD_VAR : M State unit := mulRShiftModBody rFloor dBoth.
Definition MULRSHIFTRMOD_VAR : M State unit := mulRShiftModBody rNearest dBoth.
Definition MULRSHIFTCMOD_VAR : M State unit := mulRShiftModBody rCeil dBoth.
Definition MULMODPOW2_VAR : M State unit := mulRShiftModBody rFloor dRem.
Definition MULMODPOW2R_VAR : M State unit := mulRShiftModBody rNearest dRem.
Definition MULMODPOW2C_VAR : M State unit := mulRShiftModBody rCeil dRem.
Definition MULADDRSHIFTMOD : M State unit := mulAddRShiftModBody rFloor.
Definition MULADDRSHIFTRMOD : M State unit := mulAddRShiftModBody rNearest.
Definition MULADDRSHIFTCMOD : M State unit := mulAddRShiftModBody rCeil.
Definition LSHIFTDIV : M State unit := lshiftDivBody rFloor dQuot.
Definition LSHIFTDIVR : M State unit := lshiftDivBody rNearest dQuot.
Definition LSHIFTDIVC : M State unit := lshiftDivBody rCeil dQuot.
Definition LSHIFTMOD : M State unit := lshiftDivBody rFloor dRem.
Definition LSHIFTMODR : M State unit := lshiftDivBody rNearest dRem.
Definition LSHIFTMODC : M State unit := lshiftDivBody rCeil dRem.
Definition LSHIFTDIVMOD : M State unit := lshiftDivBody rFloor dBoth.
Definition LSHIFTDIVMODR : M State unit := lshiftDivBody rNearest dBoth.
Definition LSHIFTDIVMODC : M State unit := lshiftDivBody rCeil dBoth.
Definition LSHIFTADDDIVMOD : M State unit := lshiftAddDivModBody rFloor.
Definition LSHIFTADDDIVMODR : M State unit := lshiftAddDivModBody rNearest.
Definition LSHIFTADDDIVMODC : M State unit := lshiftAddDivModBody rCeil.
Definition RSHIFTRCODE : Z -> M State unit := rshiftRoundCodeBody rNearest.
Definition RSHIFTCCODE : Z -> M State unit := rshiftRoundCodeBody rCeil.
Definition RSHIFTCODEMOD : Z -> M State unit := rshiftModCodeBody rFloor dBoth.
Definition RSHIFTRCODEMOD : Z -> M State unit := rshiftModCodeBody rNearest dBoth.
Definition RSHIFTCCODEMOD : Z -> M State unit := rshiftModCodeBody rCeil dBoth.
Definition MODPOW2CODE : Z -> M State unit := rshiftModCodeBody rFloor dRem.
Definition MODPOW2RCODE : Z -> M State unit := rshiftModCodeBody rNearest dRem.
Definition MODPOW2CCODE : Z -> M State unit := rshiftModCodeBody rCeil dRem.
Definition ADDRSHIFTCODEMOD : Z -> M State unit := addRShiftModCodeBody rFloor.
Definition ADDRSHIFTRCODEMOD : Z -> M State unit := addRShiftModCodeBody rNearest.
Definition ADDRSHIFTCCODEMOD : Z -> M State unit := addRShiftModCodeBody rCeil.
Definition MULRSHIFTCODE : Z -> M State unit := mulRShiftCodeBody rFloor.
Definition MULRSHIFTRCODE : Z -> M State unit := mulRShiftCodeBody rNearest.
Definition MULRSHIFTCCODE : Z -> M State unit := mulRShiftCodeBody rCeil.
Definition MULRSHIFTCODEMOD : Z -> M State unit := mulRShiftModCodeBody rFloor dBoth.
Definition MULRSHIFTRCODEMOD : Z -> M State unit := mulRShiftModCodeBody rNearest dBoth.
Definition MULRSHIFTCCODEMOD : Z -> M State unit := mulRShiftModCodeBody rCeil dBoth.
Definition MULMODPOW2CODE : Z -> M State unit := mulRShiftModCodeBody rFloor dRem.
Definition MULMODPOW2RCODE : Z -> M State unit := mulRShiftModCodeBody rNearest dRem.
Definition MULMODPOW2CCODE : Z -> M State unit := mulRShiftModCodeBody rCeil dRem.
Definition MULADDRSHIFTCODEMOD : Z -> M State unit := mulAddRShiftModCodeBody rFloor.
Definition MULADDRSHIFTRCODEMOD : Z -> M State unit := mulAddRShiftModCodeBody rNearest.
Definition MULADDRSHIFTCCODEMOD : Z -> M State unit := mulAddRShiftModCodeBody rCeil.

(** ** The quiet compound family *)

Definition qFamilySuffix (args : Z) : M State unit :=
  guard_err (Z.land args 3 =? 3) (VMErr CodeInvalidOpcode).

(** [qRoundDiv]: no result for a zero divisor. *)
Definition qRoundDiv (x y args : Z) : M State (option Z * option Z) :=
  if y =? 0 then mret (None, None)
  else
    let m := Z.land args 3 in
    if m =? 0 then let '(q, r) := DivFloor x y in mret (Some q, Some r)
    else if m =? 1 then let q := DivRound x y in mret (Some q, Some (x - y * q))
    else if m =? 2 then let q := DivCeil x y in mret (Some q, Some (x - y * q))
    else fail (VMErr CodeInvalidOpcode).

Fixpoint qPushNaNs (count : nat) : M State unit :=
  match count with
  | O => mret tt
  | S n => on_stack (PushAny VNaN) ;; qPushNaNs n
  end.

Definition qPushResult (val : option Z) : M State unit :=
  match val with
  | None => on_stack (PushAny VNaN)
  | Some v => on_stack (PushIntQuiet v)
  end.

Definition qPushSelected (d : Z) (q r : option Z) : M State unit :=
  if d =? 1 then qPushResult q
  else if d =? 2 then qPushResult r
  else if d =? 3 then qPushResult q ;; qPushResult r
  else fail (VMErr CodeInvalidOpcode).

Definition qInvalidResultCount (d : Z) : nat := if d =? 3 then 2 else 1.

Definition qPushLegacyShiftModNaN (d shift threshold roundMode : Z) : M State unit :=
  v ← version;
  (if negb (Z.land d 1 =? 0) then pushMaybeInt (legacyRShiftNaNResultThreshold v threshold shift roundMode) true else mret tt) ;;
  (if negb (Z.land d 2 =? 0) then on_stack (PushAny VNaN) else mret tt).

Definition qShift256Value (x : option Z) : option Z :=
  match x with
  | Some v => if is_int64 v && (0 <=? v) && (v <=? 256) then Some v else None
  | None => None
  end.

(** The selection and whether a third operand is added. *)
Definition q_select (args : Z) : Z * bool :=
  let d := Z.land (args ≫ 2) 3 in if d =? 0 then (3, true) else (d, false).

Definition pop_if (b : bool) : M State (option Z) := if b then popInt else mret (Some 0).

Definition qDivModOp (args : Z) : M State unit :=
  qFamilySuffix args ;;
  let '(d, add) := q_select args in
  checkStackDepth (if add then 3 else 2) ;;
  y ← popInt;
  w ← pop_if add;
  x ← popInt;
  match x, y, w with
  | Some x, Some y, Some w =>
      if y =? 0 then qPushNaNs (qInvalidResultCount d)
      else
        '(q, r) ← qRoundDiv (if add then x + w else x) y args;
        qPushSelected d q r
  | _, _, _ => qPushNaNs (qInvalidResultCount d)
  end.

Definition qShrModOp (args : Z) : M State unit :=
  qFamilySuffix args ;;
  let '(d, add) := q_select args in
  checkStackDepth (if add then 3 else 2) ;;
  shift ← popInt;
  v ← version;
  let sv := qShift256Value shift in
  guard_err (match sv with None => v <? 14 | Some _ => false end) (VMErr CodeRangeCheck) ;;
  w ← pop_if add;
  x ← popInt;
  match sv with
  | None => qPushNaNs (qInvalidResultCount d)
  | Some shiftValue =>
      match x, w with
      | Some x, Some w =>
          '(q, r) ← qRoundDiv (if add then x + w else x) (1 ≪ shiftValue) args;
          qPushSelected d q r
      | _, _ => if v <? 14 then qPushLegacyShiftModNaN d shiftValue 14 (Z.land args 3 - 1)
                else qPushNaNs (qInvalidResultCount d)
      end
  end.

Definition qMulDivModOp (args : Z) : M State unit :=
  qFamilySuffix args ;;
  let '(d, add) := q_select args in
  checkStackDepth (if add then 4 else 3) ;;
  z ← popInt;
  w ← pop_if add;
  y ← popInt;
  x ← popInt;
  match x, y, z, w with
  | Some x, Some y, Some z, Some w =>
      if z =? 0 then qPushNaNs (qInvalidResultCount d)
      else
        '(q, r) ← qRoundDiv (if add then x * y + w else x * y) z args;
        qPushSelected d q r
  | _, _, _, _ => qPushNaNs (qInvalidResultCount d)
  end.

Definition qMulShrModOp (args : Z) : M State unit :=
  qFamilySuffix args ;;
  let '(d, add) := q_select args in
  checkStackDepth (if add then 4 else 3) ;;
  shift ← popInt;
  v ← version;
  let sv := qShift256Value shift in
  guard_err (match sv with None => v <? 13 | Some _ => false end) (VMErr CodeRangeCheck) ;;
  w ← pop_if add;
  y ← popInt;
  x ← popInt;
  match sv with
  | None => qPushNaNs (qInvalidResultCount d)
  | Some shiftValue =>
      match x, y, w with
      | Some x, Some y, Some w =>
          '(q, r) ← qRoundDiv (if add then x * y + w else x * y) (1 ≪ shiftValue) args;
          qPushSelected d q r
      | _, _, _ => if v <? 13 then qPushLegacyShiftModNaN d shiftValue 13 (Z.land args 3 - 1)
                   else qPushNaNs (qInvalidResultCount d)
      end
  end.

Definition qShlDivModOp (args : Z) : M State unit :=
  qFamilySuffix args ;;
  let '(d, add) := q_select args in
  checkStackDepth (if add then 4 else 3) ;;
  shift ← popInt;
  v ← version;
  let sv := qShift256Value shift in
  guard_err (match sv with None => v <? 13 | Some _ => false end) (VMErr CodeRangeCheck) ;;
  z ← popInt;
  w ← pop_if add;
  x ← popInt;
  match sv, z with
  | Some shiftValue, Some z' =>
      if z' =? 0 then qPushNaNs (qInvalidResultCount d)
      else
        let dividend :=
          match x with
          | Some x => Some (x ≪ shiftValue)
          | None => if v <? 13 then legacyShiftNaNResultThreshold v 13 shiftValue false else None
          end in
        match dividend, w with
        | Some n, Some w =>
            '(q, r) ← qRoundDiv (if add then n + w else n) z' args;
            qPushSelected d q r
        | _, _ => qPushNaNs (qInvalidResultCount d)
        end
  | _, _ => qPushNaNs (qInvalidResultCount d)
  end.
