(* ===== verification/ArithCmp.v ===== *)
(** * Comparisons, widths and constants

    The comparison, sign, minimum/maximum, width-check and power-constant
    instructions of [tvm/op/math]: [less.go] .. [neq.go], [int_cmp.go], [is*.go],
    [minmax_cmp.go], [fits_bitsize.go], [pushconst.go] and the helpers they share. *)

From S2P Require Import Prelude Bytes CellModel Builder Slice Gas Value Stack VmState Arith.
#[local] Open Scope Z_scope.

(** [big.Int.Cmp] *)
Definition big_Cmp (x y : Z) : Z := Z.sgn (x - y).

(** ** Comparisons *)

Definition pushNaNComparisonResult (x : option Z) (quiet : bool) : M State unit :=
  st ← get_state;
  match x with
  | Some v =>
      if h_NaNComparison (st_Historical st) && (0 <=? st_GlobalVersion st) && (st_GlobalVersion st <=? 3)
      then on_stack (PushInt v)
      else pushNaNOrOverflow quiet
  | None => pushNaNOrOverflow quiet
  end.

Definition pushCompareResult (x y : option Z) (fn : Z -> Z -> bool) : M State unit :=
  match x, y with
  | Some x', Some y' => on_stack (PushBool (fn x' y'))
  | _, _ => pushNaNComparisonResult x false
  end.

Definition compareBigIntInt64 (x y : Z) : Z :=
  if is_int64 x then if x <? y then -1 else if y <? x then 1 else 0
  else if x <? 0 then -1 else 1.

Definition compareModeValue (mode cmp : Z) : Z := Z.land (mode ≫ (4 + cmp * 4)) 15 - 8.

Definition LESS : M State unit := binary (fun y x => pushCompareResult x y (fun x y => big_Cmp x y =? -1)).
Definition EQUAL : M State unit := binary (fun y x => pushCompareResult x y (fun x y => big_Cmp x y =? 0)).
Definition LEQ : M State unit := binary (fun y x => pushCompareResult x y (fun x y => negb (big_Cmp x y =? 1))).
Definition GREATER : M State unit := binary (fun y x => pushCompareResult x y (fun x y => big_Cmp x y =? 1)).
Definition NEQ : M State unit := binary (fun y x => pushCompareResult x y (fun x y => negb (big_Cmp x y =? 0))).
Definition GEQ : M State unit := binary (fun y x => pushCompareResult x y (fun x y => negb (big_Cmp x y =? -1))).

Definition compareOp (mode : Z) (quiet : bool) : M State unit := binary (fun y x =>
  match x, y with
  | Some x', Some y' => on_stack (PushSmallInt (compareModeValue mode (big_Cmp x' y')))
  | _, _ => pushNaNComparisonResult x quiet
  end).
Definition CMP : M State unit := compareOp 0x987 false.
Definition QLESS : M State unit := compareOp 0x887 true.
Definition QEQUAL : M State unit := compareOp 0x878 true.
Definition QLEQ : M State unit := compareOp 0x877 true.
Definition QGREATER : M State unit := compareOp 0x788 true.
Definition QNEQ : M State unit := compareOp 0x787 true.
Definition QGEQ : M State unit := compareOp 0x778 true.
Definition QCMP : M State unit := compareOp 0x987 true.

(** ** Comparisons with a constant byte *)

Definition intCmpMaskLess : Z := 1.
Definition intCmpMaskEqual : Z := 2.
Definition intCmpMaskGreater : Z := 4.

Definition intCmpOp (mask args : Z) : M State unit :=
  i0 ← popInt;
  match i0 with
  | None => pushNaNOrOverflow false
  | Some x => on_stack (PushBool (negb (Z.land mask (1 ≪ (compareBigIntInt64 x (s8 args) + 1)) =? 0)))
  end.
Definition EQINT : Z -> M State unit := intCmpOp intCmpMaskEqual.
Definition LESSINT : Z -> M State unit := intCmpOp intCmpMaskLess.
Definition GTINT : Z -> M State unit := intCmpOp intCmpMaskGreater.
Definition NEQINT : Z -> M State unit := intCmpOp (Z.lor intCmpMaskLess intCmpMaskGreater).

Definition compareIntOp (mode : Z) (quiet : bool) (args : Z) : M State unit :=
  x ← popInt;
  match x with
  | None => pushNaNOrOverflow quiet
  | Some x => on_stack (PushSmallInt (compareModeValue mode (compareBigIntInt64 x (s8 args))))
  end.
Definition QEQINT : Z -> M State unit := compareIntOp 0x878 true.
Definition QLESSINT : Z -> M State unit := compareIntOp 0x887 true.
Definition QGTINT : Z -> M State unit := compareIntOp 0x788 true.
Definition QNEQINT : Z -> M State unit := compareIntOp 0x787 true.

(** ** Signs *)

Definition signTest (fn : Z -> bool) : M State unit :=
  i0 ← popInt;
  match i0 with
  | None => pushNaNOrOverflow false
  | Some x => on_stack (PushBool (fn (Z.sgn x)))
  end.
Definition ISZERO : M State unit := signTest (fun s => s =? 0).
Definition ISNEG : M State unit := signTest (fun s => s =? -1).
Definition ISNNEG : M State unit := signTest (fun s => negb (s =? -1)).
Definition ISPOS : M State unit := signTest (fun s => s =? 1).
Definition ISNPOS : M State unit := signTest (fun s => negb (s =? 1)).

Definition signOp (mode : Z) (quiet : bool) : M State unit :=
  x ← popInt;
  match x with
  | None => pushNaNOrOverflow quiet
  | Some x => on_stack (PushSmallInt (compareModeValue mode (Z.sgn x)))
  end.
Definition SGN : M State unit := signOp 0x987 false.
Definition QSGN : M State unit := signOp 0x987 true.

Definition ISNAN : M State unit := x ← popInt; on_stack (PushBool (match x with None => true | Some _ => false end)).
Definition CHKNAN : M State unit := x ← popInt; pushMaybeInt x false.

(** ** Minimum, maximum, absolute value *)

Definition MIN : M State unit := binary (fun i0 i1 =>
  i0 ← finite i0;
  i1 ← finite i1;
  on_stack (PushInt (if big_Cmp i0 i1 =? -1 then i0 else i1))).

Definition MAX : M State unit := binary (fun i0 i1 =>
  i0 ← finite i0;
  i1 ← finite i1;
  on_stack (PushInt (if big_Cmp i0 i1 =? 1 then i0 else i1))).

Definition minMaxOp (mode : Z) (quiet : bool) : M State unit := binary (fun x y =>
  let '(x, y) := match x, y with
                 | Some a, Some b => if 0 <? big_Cmp a b then (Some b, Some a) else (Some a, Some b)
                 | _, _ => (None, None)
                 end in
  (if negb (Z.land mode 2 =? 0) then pushMaybeInt x quiet else mret tt) ;;
  if negb (Z.land mode 4 =? 0) then pushMaybeInt y quiet else mret tt).
Definition MINMAX : M State unit := minMaxOp 6 false.
Definition QMIN : M State unit := minMaxOp 3 true.
Definition QMAX : M State unit := minMaxOp 5 true.
Definition QMINMAX : M State unit := minMaxOp 7 true.

Definition absOp (quiet : bool) : M State unit :=
  x ← popInt;
  match x with
  | None => pushNaNOrOverflow quiet
  | Some x => pushMaybeInt (Some (if x <? 0 then - x else x)) quiet
  end.
Definition QABS : M State unit := absOp true.

(** ** Widths *)

Definition signedFitsBits (x bits : Z) : bool :=
  if x =? 0 then true
  else if bits <=? 0 then false
  else if 0 <? x then bit_len x <? bits
  else bit_len (- x - 1) <? bits.

Definition unsignedFitsBits (x bits : Z) : bool :=
  if x =? 0 then true
  else if (x <? 0) || (bits <? 0) then false
  else bit_len x <=? bits.

Definition signedBitSize (x : option Z) : Z :=
  match x with
  | None => bitSizeInvalid
  | Some x => if x =? 0 then 0 else if 0 <? x then bit_len x + 1 else bit_len (- x - 1) + 1
  end.

Definition unsignedBitSize (x : option Z) : Z :=
  match x with
  | None => bitSizeInvalid
  | Some x => if x <? 0 then bitSizeInvalid else if x =? 0 then 0 else bit_len x
  end.

(** The common end of [fitTinyOp] and [fitStackOp]. *)
Definition fit_width (unsigned quiet : bool) (width : Z) : M State unit :=
  x ← popInt;
  match x with
  | None => pushNaNOrOverflow quiet
  | Some x => pushMaybeInt (if (if unsigned then unsignedFitsBits x width else signedFitsBits x width) then Some x else None) quiet
  end.

Definition fitTinyOp (unsigned quiet : bool) (args : Z) : M State unit := fit_width unsigned quiet (bytePlusOneValue args).
Definition fitStackOp (unsigned quiet : bool) : M State unit :=
  checkStackDepth 2 ;;
  bits ← popIntRange 0 1023;
  fit_width unsigned quiet bits.
Definition FITS : Z -> M State unit := fitTinyOp false false.
Definition UFITS : Z -> M State unit := fitTinyOp true false.
Definition QFITS : Z -> M State unit := fitTinyOp false true.
Definition QUFITS : Z -> M State unit := fitTinyOp true true.
Definition FITSX : M State unit := fitStackOp false false.
Definition UFITSX : M State unit := fitStackOp true false.
Definition QFITSX : M State unit := fitStackOp false true.
Definition QUFITSX : M State unit := fitStackOp true true.

Definition bitSizeOp (signed quiet : bool) : M State unit :=
  x ← popInt;
  let size := if signed then signedBitSize x else unsignedBitSize x in
  if size =? bitSizeInvalid then if quiet then pushNaNOrOverflow true else fail (VMErr CodeRangeCheck)
  else on_stack (PushSmallInt size).
Definition BITSIZE : M State unit := bitSizeOp true false.
Definition UBITSIZE : M State unit := bitSizeOp false false.
Definition QBITSIZE : M State unit := bitSizeOp true true.
Definition QUBITSIZE : M State unit := bitSizeOp false true.

(** ** Power-of-two constants *)

Definition pushPowConst (nanAtMax : bool) (fn : Z -> Z) (args : Z) : M State unit :=
  if nanAtMax && (u8 args =? 0xff) then on_stack (PushAny VNaN)
  else on_stack (PushInt (fn (bytePlusOneValue args))).
Definition PUSHPOW2 : Z -> M State unit := pushPowConst true (fun x => 1 ≪ x).
Definition PUSHPOW2DEC : Z -> M State unit := pushPowConst false (fun x => 1 ≪ x - 1).
Definition PUSHNEGPOW2 : Z -> M State unit := pushPowConst false (fun x => - (1 ≪ x)).
Definition PUSHNAN : M State unit := on_stack (PushAny VNaN).
