(* ===== verification/ArithSpec.v ===== *)
(** * What the integer instructions compute

    The rounding divisions are the mathematical ones; the fast paths, the throwing
    and the quiet forms of every instruction agree; widths and comparisons mean what
    the instruction set says. *)

From S2P Require Import Prelude Bytes CellModel Builder Slice Gas Value Stack StackSpec VmState StackOps StackOpsSpec Arith ArithCmp.
#[local] Open Scope Z_scope.

(** ** Rounding *)

Lemma big_DivMod_spec x y : y <> 0 -> exists q r, big_DivMod x y = (q, r) /\ x = y * q + r /\ 0 <= r < Z.abs y.
Proof.
  intros Hy. unfold big_DivMod. pose proof (Z.div_mod x (Z.abs y) ltac:(lia)) as Hd.
  pose proof (Z.mod_pos_bound x (Z.abs y) ltac:(lia)) as Hb. set (r := x mod Z.abs y) in *. set (k := x / Z.abs y) in *.
  exists ((x - r) / y), r. split; [done|]. split; [|done].
  replace (x - r) with ((Z.sgn y * k) * y) by (destruct (Z.abs_spec y) as [[? E] | [? E]]; rewrite E in Hd; nia).
  rewrite Z.div_mul by done. destruct (Z.abs_spec y) as [[? E] | [? E]]; rewrite E in Hd; nia.
Qed.

Lemma DivFloor_spec x y : y <> 0 -> DivFloor x y = (x / y, x mod y).
Proof.
  intros Hy. unfold DivFloor. destruct (big_DivMod_spec x y Hy) as (q & r & -> & Hx & Hr).
  assert (H : forall q' r', (0 <= r' < y \/ y < r' <= 0) -> x = y * q' + r' -> (q', r') = (x / y, x mod y)).
  { intros q' r' Hb He. f_equal; [now apply (Z.div_unique x y q' r')|now apply (Z.mod_unique x y q' r')]. }
  destruct (Z.ltb_spec 0 y), (Z.ltb_spec r 0), (Z.ltb_spec 0 r); apply H; lia.
Qed.

Lemma DivCeil_spec x y : y <> 0 -> DivCeil x y = - (- x / y).
Proof.
  intros Hy. unfold DivCeil. destruct (big_DivMod_spec x y Hy) as (q & r & -> & Hx & Hr).
  assert (H : forall c, (0 <= y * c - x < y \/ y < y * c - x <= 0) -> c = - (- x / y)).
  { intros c Hb. rewrite <-(Z.opp_involutive c). f_equal. apply (Z.div_unique (- x) y (- c) (y * c - x)); lia. }
  assert (Hmul : y * (q + 1) = y * q + y) by lia.
  destruct (Z.eqb_spec r 0), (Z.ltb_spec 0 x), (Z.ltb_spec 0 y), (Z.ltb_spec x 0); cbn [negb andb]; apply H; try lia.
  all: assert (q = 0) by nia; subst q; lia.
Qed.

(** Nearest, a tie rounded up. *)
Lemma DivRound_spec x y : y <> 0 -> DivRound x y = (2 * x + y) / (2 * y).
Proof.
  intros Hy. unfold DivRound, big_QuoRem. pose proof (Z.quot_rem' x y) as Hx. pose proof (Z.rem_bound_abs x y Hy) as Hr.
  set (q := Z.quot x y) in *. set (r := Z.rem x y) in *.
  assert (H : forall c, (0 <= 2 * x + y - 2 * y * c < 2 * y \/ 2 * y < 2 * x + y - 2 * y * c <= 0) -> c = (2 * x + y) / (2 * y)).
  { intros c Hb. apply (Z.div_unique (2 * x + y) (2 * y) c (2 * x + y - 2 * y * c)); lia. }
  destruct (Z.eqb_spec r 0); [apply H; nia|].
  pose proof (Z.rem_sign_nz x y Hy ltac:(done)) as Hsgn. fold r in Hsgn.
  destruct (Z.eqb_spec (Z.sgn x) (Z.sgn y)); destruct (Z.compare_spec (Z.abs r * 2) (Z.abs y)); apply H.
  all: lia.
Qed.

(** ** The reference: exact division, then selection of results *)

(** An integer operand; [None] is NaN. *)
Definition oval (o : option Z) : value := match o with Some x => VInt x | None => VNaN end.

Definition quotient (mode x y : Z) : Z :=
  if mode =? 0 then x / y else if mode =? 1 then (2 * x + y) / (2 * y) else - (- x / y).

Definition ref_div (mode : Z) (n y : option Z) : option (Z * Z) :=
  match n, y with
  | Some n, Some y => if y =? 0 then None else let q := quotient mode n y in Some (q, n - y * q)
  | _, _ => None
  end.

Definition selected (d : Z) (qr : option (Z * Z)) : list (option Z) :=
  let q := fst <$> qr in
  let r := snd <$> qr in
  if d =? 1 then [q] else if d =? 2 then [r] else [q; r].

Definition res_ok (o : option Z) : bool := match o with Some v => fitsTVMInt v | None => false end.

(** Results pushed in order by a throwing and by a quiet instruction. *)
Definition throws (st : State) (t : list value) (rs : list (option Z)) : outcome unit * State :=
  if forallb res_ok rs then (Ok tt, at_top st (rev (oval <$> rs) ++ t))
  else (Err (VMErr CodeIntOverflow), at_top st t).
Definition quietly (st : State) (t : list value) (rs : list (option Z)) : outcome unit * State :=
  (Ok tt, at_top st (rev ((fun o => oval (if res_ok o then o else None)) <$> rs) ++ t)).

Lemma roundDivMod_spec mode x y :
  0 <= mode <= 2 -> y <> 0 -> roundDivMod x y mode = (quotient mode x y, x - y * quotient mode x y).
Proof.
  intros Hm Hy. unfold roundDivMod, quotient. rewrite DivFloor_spec, DivRound_spec, DivCeil_spec by done.
  destruct (mode =? 0); [|done]. f_equal. rewrite Z.mod_eq by done. lia.
Qed.

(** A remainder is no larger than the divisor, so it fits when the divisor is at
    most [2^256] in size. *)
Lemma remainder_bound mode x y : 0 <= mode <= 2 -> y <> 0 -> Z.abs (x - y * quotient mode x y) < Z.abs y.
Proof.
  intros Hm Hy. unfold quotient. destruct (Z.eqb_spec mode 0); [|destruct (Z.eqb_spec mode 1)].
  - pose proof (Z.div_mod x y Hy). pose proof (Z.mod_bound_or x y Hy). lia.
  - pose proof (Z.div_mod (2 * x + y) (2 * y) ltac:(lia)). pose proof (Z.mod_bound_or (2 * x + y) (2 * y) ltac:(lia)).
    assert (Hq : 2 * y * ((2 * x + y) / (2 * y)) = 2 * (y * ((2 * x + y) / (2 * y)))) by lia. lia.
  - pose proof (Z.div_mod (- x) y Hy). pose proof (Z.mod_bound_or (- x) y Hy). lia.
Qed.

Lemma remainder_fits mode x y : 0 <= mode <= 2 -> y <> 0 -> Z.abs y <= 2 ^ 256 -> fitsTVMInt (x - y * quotient mode x y) = true.
Proof.
  intros Hm Hy Hb. pose proof (remainder_bound mode x y Hm Hy). unfold fitsTVMInt, minTVMInt, maxTVMInt.
  apply andb_true_iff. split; apply Z.leb_le; lia.
Qed.

(** ** Running the bodies *)

Lemma popInt_run {B} (k : option Z -> M State B) st o t : (popInt ≫= k) (at_top st (oval o :: t)) = k o (at_top st t).
Proof. apply bind_on_stack. destruct o; [apply PopInt_tf|apply PopInt_NaN]. Qed.

Lemma checkStackDepth_run {B} n (k : unit -> M State B) st t :
  (checkStackDepth n ≫= k) (at_top st t) = if len t <? n then (Err (VMErr CodeStackUnderflow), at_top st t) else k tt (at_top st t).
Proof. apply (depth_guard_run (fun m => m <? n)). Qed.

Lemma finite_run {B} o (k : Z -> M State B) st :
  (finite o ≫= k) st = match o with Some x => k x st | None => (Err (VMErr CodeIntOverflow), st) end.
Proof. now destruct o. Qed.

Lemma version_run {B} (k : Z -> M State B) st t : (version ≫= k) (at_top st t) = k (st_GlobalVersion st) (at_top st t).
Proof. unfold version. mrun. now rewrite at_top_version. Qed.

Lemma popIntRange_run {B} (k : Z -> M State B) st x t min max :
  - 2 ^ 63 <= min -> max < 2 ^ 63 ->
  (popIntRange min max ≫= k) (at_top st (VInt x :: t)) =
    if (min <=? x) && (x <=? max) then k x (at_top st t) else (Err (VMErr CodeRangeCheck), at_top st t).
Proof.
  intros Hmin Hmax. unfold popIntRange. pose proof (PopIntRange_tf x t min max Hmin Hmax) as H.
  destruct (_ && _); [now rewrite (bind_on_stack _ _ _ _ _ _ H)|now rewrite (bind_on_stack_Err _ _ _ _ _ _ H)].
Qed.

Lemma push_results_throws st t d mode n y :
  1 <= d <= 3 -> 0 <= mode <= 2 -> y <> 0 -> Z.abs y <= 2 ^ 256 ->
  push_results d (roundDivMod n y mode) (at_top st t) = throws st t (selected d (ref_div mode (Some n) (Some y))).
Proof.
  intros Hd Hm Hy Hb. rewrite roundDivMod_spec by done. unfold ref_div. destruct (Z.eqb_spec y 0); [done|].
  pose proof (remainder_fits mode n y Hm Hy Hb) as Hr. set (q := quotient mode n y) in *. set (r := n - y * q) in *.
  unfold push_results, selected, throws. cbn [fst snd fmap option_fmap option_map].
  destruct (Z.eqb_spec d 1); [|destruct (Z.eqb_spec d 2)]; cbn [forallb res_ok]; rewrite ?Hr, ?andb_true_r.
  - destruct (fitsTVMInt q) eqn:Eq; apply on_stack_run; now rewrite PushInt_tf, Eq.
  - apply on_stack_run; now rewrite PushInt_tf, Hr.
  - destruct (fitsTVMInt q) eqn:Eq.
    + erewrite bind_on_stack; [|rewrite PushInt_tf, Eq; reflexivity]. apply on_stack_run. now rewrite PushInt_tf, Hr.
    + apply bind_on_stack_Err. now rewrite PushInt_tf, Eq.
Qed.

Lemma qPushSelected_quietly st t d q r :
  1 <= d <= 3 -> qPushSelected d (Some q) (Some r) (at_top st t) = quietly st t (selected d (Some (q, r))).
Proof.
  intros Hd. unfold qPushSelected, qPushResult, selected, quietly. cbn [fst snd fmap option_fmap option_map].
  assert (H : forall t v, on_stack (PushIntQuiet v) (at_top st t) = (Ok tt, at_top st (oval (if res_ok (Some v) then Some v else None) :: t))).
  { intros t' v. apply on_stack_run. rewrite PushIntQuiet_tf. cbn. now destruct (fitsTVMInt v). }
  destruct (Z.eqb_spec d 1); [apply H|]. destruct (Z.eqb_spec d 2); [apply H|]. destruct (Z.eqb_spec d 3); [|lia].
  rewrite (bind_Ok _ _ _ _ _ (H t q)). apply H.
Qed.

Lemma qPushNaNs_quietly st t d : 1 <= d <= 3 -> qPushNaNs (qInvalidResultCount d) (at_top st t) = quietly st t (selected d None).
Proof.
  intros Hd. unfold qInvalidResultCount, selected, quietly. cbn [fmap option_fmap option_map].
  assert (H : forall t, on_stack (PushAny VNaN) (at_top st t) = (Ok tt, at_top st (VNaN :: t))) by (intros; apply on_stack_run, PushAny_tf).
  destruct (Z.eqb_spec d 3) as [-> |]; cbn [qPushNaNs].
  - rewrite (bind_Ok _ _ _ _ _ (H t)), (bind_Ok _ _ _ _ _ (H _)). done.
  - rewrite (bind_Ok _ _ _ _ _ (H t)). destruct (Z.eqb_spec d 1), (Z.eqb_spec d 2); done || lia.
Qed.

Lemma popIntFinite_run {B} (k : Z -> M State B) st o t :
  (popIntFinite ≫= k) (at_top st (oval o :: t)) = match o with Some x => k x (at_top st t) | None => (Err (VMErr CodeIntOverflow), at_top st t) end.
Proof.
  destruct o; [apply bind_on_stack, PopIntFinite_tf|]. apply bind_on_stack_Err. unfold PopIntFinite.
  now rewrite (bind_Ok _ _ _ _ _ (PopInt_NaN _)).
Qed.

(** A valid shift amount. *)
Lemma shift_run {B} (k : Z -> M State B) st s t : 0 <= s <= 256 -> (popIntRange 0 256 ≫= k) (at_top st (VInt s :: t)) = k s (at_top st t).
Proof. intros Hs. rewrite popIntRange_run by lia. destruct (Z.leb_spec 0 s), (Z.leb_spec s 256); done || lia. Qed.

Lemma qShift256_ok s : 0 <= s <= 256 -> qShift256Value (Some s) = Some s.
Proof.
  intros Hs. unfold qShift256Value, is_int64. destruct (Z.leb_spec 0 s), (Z.leb_spec s 256); try lia.
  destruct (Z.leb_spec (- 2 ^ 63) s), (Z.ltb_spec s (2 ^ 63)); done || lia.
Qed.

Lemma pow2_bound s : 0 <= s <= 256 -> 1 ≪ s <> 0 /\ Z.abs (1 ≪ s) <= 2 ^ 256 /\ 1 ≪ s = 2 ^ s.
Proof.
  intros Hs. rewrite Z.shiftl_1_l. pose proof (Z.pow_pos_nonneg 2 s ltac:(lia) ltac:(lia)).
  pose proof (Z.pow_le_mono_r 2 s 256 ltac:(lia) ltac:(lia)). lia.
Qed.

(** The selector of a quiet compound instruction. *)
Lemma q_args d m : 0 <= d <= 3 -> 0 <= m <= 2 ->
  Z.land (4 * d + m) 3 = m /\ q_select (4 * d + m) = (if d =? 0 then (3, true) else (d, false)).
Proof.
  intros Hd Hm. unfold q_select. change 3 with (Z.ones 2). rewrite !Z.land_ones, Z.shiftr_div_pow2 by lia.
  change (2 ^ 2) with 4. replace ((4 * d + m) mod 4) with m by lia. replace ((4 * d + m) / 4 mod 4) with d by lia. done.
Qed.

Lemma qRoundDiv_run {B} (k : option Z * option Z -> M State B) n y args m st :
  y <> 0 -> Z.land args 3 = m -> 0 <= m <= 2 ->
  (qRoundDiv n y args ≫= k) st = k (Some (quotient m n y), Some (n - y * quotient m n y)) st.
Proof.
  intros Hy Hm Hr. unfold qRoundDiv. destruct (Z.eqb_spec y 0); [done|]. rewrite Hm. unfold quotient.
  rewrite DivFloor_spec, DivRound_spec, DivCeil_spec by done.
  destruct (Z.eqb_spec m 0); [rewrite Z.mod_eq by done; done|].
  destruct (Z.eqb_spec m 1); [done|]. destruct (Z.eqb_spec m 2); [done|lia].
Qed.

Lemma suffix_run {B} (k : unit -> M State B) args m st : Z.land args 3 = m -> 0 <= m <= 2 -> (qFamilySuffix args ≫= k) st = k tt st.
Proof. intros H Hm. unfold qFamilySuffix. mrun. rewrite H. destruct (Z.eqb_spec m 3); [lia|done]. Qed.

(** The quotient and remainder, when there are any, pushed by either kind. *)
Lemma throw_finish st t d mode n y :
  1 <= d <= 3 -> 0 <= mode <= 2 -> Z.abs y <= 2 ^ 256 ->
  div_checked d mode n y (at_top st t) = throws st t (selected d (ref_div mode (Some n) (Some y))).
Proof.
  intros Hd Hm Hb. unfold div_checked. mrun. destruct (Z.eqb_spec y 0) as [-> | Hy]; [|now apply push_results_throws].
  unfold ref_div, selected, throws. cbn. destruct (d =? 1), (d =? 2); done.
Qed.

Lemma quiet_finish st t d n y args m :
  1 <= d <= 3 -> Z.land args 3 = m -> 0 <= m <= 2 ->
  (if y =? 0 then qPushNaNs (qInvalidResultCount d)
   else '(q, r) ← qRoundDiv n y args; qPushSelected d q r) (at_top st t)
  = quietly st t (selected d (ref_div m (Some n) (Some y))).
Proof.
  intros Hd Hm Hr. unfold ref_div. destruct (Z.eqb_spec y 0) as [-> | Hy]; [now apply qPushNaNs_quietly|].
  rewrite (qRoundDiv_run _ _ _ _ m) by done. now apply qPushSelected_quietly.
Qed.

Lemma throws_nothing st t d : 1 <= d <= 3 -> throws st t (selected d None) = (Err (VMErr CodeIntOverflow), at_top st t).
Proof. intros Hd. unfold throws, selected. cbn. destruct (d =? 1), (d =? 2); done. Qed.

(** Steps through the pops of a body. *)
Ltac run_pops := repeat first [rewrite popInt_run | rewrite checkStackDepth_run | rewrite finite_run | rewrite version_run].
Ltac deep := match goal with |- context [len ?t <? ?n] => destruct (Z.ltb_spec (len t) n) as [Hlt | _];
  [exfalso; rewrite !len_cons in Hlt; match type of Hlt with context [len ?u] => pose proof (len_nonneg u) end; lia|] end.

Definition o2 (f : Z -> Z -> Z) (x y : option Z) : option Z := binaryIntResult x y f.
Definition in_range (o : option Z) : Prop := match o with Some y => Z.abs y <= 2 ^ 256 | None => True end.

(** ** Properties *)

(** The rounding helpers are exact for every non-zero divisor: [DivFloor] is the
    floored quotient and its remainder, [DivCeil] the least integer not below the
    quotient, [DivRound] the nearest integer with ties rounded up; a remainder is
    smaller than the divisor in absolute value. *)
Theorem rounding_exact x y :
  y <> 0 ->
  DivFloor x y = (x / y, x mod y) /\ DivCeil x y = - (- x / y) /\ DivRound x y = (2 * x + y) / (2 * y) /\
  (forall mode, 0 <= mode <= 2 ->
     let '(q, r) := roundDivMod x y mode in x = y * q + r /\ Z.abs r < Z.abs y).
Proof.
  intros Hy. split; [now apply DivFloor_spec|]. split; [now apply DivCeil_spec|]. split; [now apply DivRound_spec|].
  intros mode Hm. rewrite roundDivMod_spec by done. split; [lia|now apply remainder_bound].
Qed.

Example rounding_exact_witness :
  DivFloor (-7) 2 = (-4, 1) /\ DivCeil (-7) 2 = -3 /\ DivRound (-7) 2 = -3 /\
  (forall mode, 0 <= mode <= 2 -> let '(q, r) := roundDivMod (-7) 2 mode in -7 = 2 * q + r /\ Z.abs r < Z.abs 2).
Proof. apply (rounding_exact (-7) 2). lia. Defined.

(** C19: The four division families without a shift ([x/y], [(x+w)/z], [x*y/z],
    [(x*y+w)/z]), with every rounding and every selection of results: the throwing
    instruction pushes the exact results, or reports an overflow when an operand is
    NaN, the divisor is zero, or a result does not fit 257 bits; the quiet
    instruction with the same selector pushes the same results with NaN in place of
    each that does not exist or does not fit. *)
Theorem division_families_agree st t m d x y z w :
  0 <= m <= 2 -> 1 <= d <= 3 -> in_range y -> in_range z ->
  let res_div := selected d (ref_div m x y) in
  let res_add := selected 3 (ref_div m (o2 Z.add x w) z) in
  let res_mul := selected d (ref_div m (o2 Z.mul x y) z) in
  let res_muladd := selected 3 (ref_div m (o2 Z.add (o2 Z.mul x y) w) z) in
  (divModBody m d (at_top st (oval y :: oval x :: t)) = throws st t res_div /\
   qDivModOp (4 * d + m) (at_top st (oval y :: oval x :: t)) = quietly st t res_div) /\
  (addDivModBody m (at_top st (oval z :: oval w :: oval x :: t)) = throws st t res_add /\
   qDivModOp m (at_top st (oval z :: oval w :: oval x :: t)) = quietly st t res_add) /\
  (mulDivModBody m d (at_top st (oval z :: oval y :: oval x :: t)) = throws st t res_mul /\
   qMulDivModOp (4 * d + m) (at_top st (oval z :: oval y :: oval x :: t)) = quietly st t res_mul) /\
  (mulAddDivModBody m (at_top st (oval z :: oval w :: oval y :: oval x :: t)) = throws st t res_muladd /\
   qMulDivModOp m (at_top st (oval z :: oval w :: oval y :: oval x :: t)) = quietly st t res_muladd).
Proof.
  intros Hm Hd Hy Hz. cbv zeta. destruct (q_args d m ltac:(lia) Hm) as [Hland Hsel]. destruct (q_args 0 m ltac:(lia) Hm) as [Hland0 Hsel0].
  change (4 * 0 + m) with m in *. destruct (Z.eqb_spec d 0); [lia|]. change (0 =? 0) with true in Hsel0.
  unfold divModBody, addDivModBody, mulDivModBody, mulAddDivModBody, qDivModOp, qMulDivModOp, pop_if. split_and!.
  all: rewrite ?(suffix_run _ _ m) by done; rewrite ?Hsel, ?Hsel0; rewrite checkStackDepth_run; deep; run_pops; mrun; run_pops.
  all: destruct x as [x |], y as [y |], z as [z |], w as [w |]; cbn [o2 binaryIntResult in_range] in *; mrun; run_pops;
    try (now rewrite throws_nothing by lia); try (now rewrite qPushNaNs_quietly by lia);
    try (now apply throw_finish; lia || done); try (now apply (quiet_finish _ _ _ _ _ _ m); lia || done).
Qed.

Example division_families_agree_witness :
  mulDivModBody 1 3 (at_top sample_state [VInt 2; VInt 5; VInt (-3)]) = (Ok tt, at_top sample_state [VInt (-1); VInt (-7)]) /\
  qMulDivModOp 13 (at_top sample_state [VInt 0; VInt 5; VInt (-3)]) = (Ok tt, at_top sample_state [VNaN; VNaN]).
Proof.
  assert (Hr : forall n, Z.abs n < 10 -> in_range (Some n)) by (intros n Hn; cbn [in_range]; lia).
  split.
  - refine (proj1 (proj1 (proj2 (proj2 (division_families_agree sample_state [] 1 3 (Some (-3)) (Some 5) (Some 2) (Some 0) _ _ _ _))))); first [lia | apply Hr; lia].
  - refine (proj2 (proj1 (proj2 (proj2 (division_families_agree sample_state [] 1 3 (Some (-3)) (Some 5) (Some 0) (Some 0) _ _ _ _))))); first [lia | apply Hr; lia].
Defined.

Lemma pushQuot_throws st t mode n y :
  0 <= mode <= 2 -> y <> 0 -> Z.abs y <= 2 ^ 256 ->
  on_stack (PushInt (roundDivMod n y mode).1) (at_top st t) = throws st t (selected 1 (ref_div mode (Some n) (Some y))).
Proof. intros Hm Hy Hb. rewrite <-push_results_throws by (done || lia). unfold push_results. now destruct (roundDivMod n y mode). Qed.

Lemma quiet_shift_finish st t d n s args m :
  1 <= d <= 3 -> Z.land args 3 = m -> 0 <= m <= 2 -> 0 <= s <= 256 ->
  ('(q, r) ← qRoundDiv n (1 ≪ s) args; qPushSelected d q r) (at_top st t) = quietly st t (selected d (ref_div m (Some n) (Some (2 ^ s)))).
Proof.
  intros Hd Hm Hr Hs. destruct (pow2_bound s Hs) as (H0 & _ & E). rewrite <-(quiet_finish st t d n (2 ^ s) args m) by done.
  rewrite <-E. now destruct (Z.eqb_spec (1 ≪ s) 0).
Qed.

(** C30: The families that divide by a power of two ([x/2^s], [(x+w)/2^s], [x*y/2^s],
    [(x*y+w)/2^s]), for every shift [0..256], rounding and selection, in global
    version 14 and later: the throwing and the quiet instruction compute the exact
    results, the first reporting an overflow and the second pushing NaN where a
    result does not exist or does not fit. *)
Theorem shift_families_agree st t m d s x y w :
  0 <= m <= 2 -> 1 <= d <= 3 -> 0 <= s <= 256 -> 14 <= st_GlobalVersion st ->
  let res n k := selected k (ref_div m n (Some (2 ^ s))) in
  (rshiftRoundBody m (at_top st (VInt s :: oval x :: t)) = throws st t (res x 1) /\
   rshiftModBody m d (at_top st (VInt s :: oval x :: t)) = throws st t (res x d) /\
   qShrModOp (4 * d + m) (at_top st (VInt s :: oval x :: t)) = quietly st t (res x d)) /\
  (addRShiftModBody m (at_top st (VInt s :: oval w :: oval x :: t)) = throws st t (res (o2 Z.add x w) 3) /\
   qShrModOp m (at_top st (VInt s :: oval w :: oval x :: t)) = quietly st t (res (o2 Z.add x w) 3)) /\
  (mulRShiftBody m (at_top st (VInt s :: oval y :: oval x :: t)) = throws st t (res (o2 Z.mul x y) 1) /\
   mulRShiftModBody m d (at_top st (VInt s :: oval y :: oval x :: t)) = throws st t (res (o2 Z.mul x y) d) /\
   qMulShrModOp (4 * d + m) (at_top st (VInt s :: oval y :: oval x :: t)) = quietly st t (res (o2 Z.mul x y) d)) /\
  (mulAddRShiftModBody m (at_top st (VInt s :: oval w :: oval y :: oval x :: t)) = throws st t (res (o2 Z.add (o2 Z.mul x y) w) 3) /\
   qMulShrModOp m (at_top st (VInt s :: oval w :: oval y :: oval x :: t)) = quietly st t (res (o2 Z.add (o2 Z.mul x y) w) 3)).
Proof.
  intros Hm Hd Hs Hv. cbv zeta. destruct (q_args d m ltac:(lia) Hm) as [Hland Hsel]. destruct (q_args 0 m ltac:(lia) Hm) as [Hland0 Hsel0].
  change (4 * 0 + m) with m in *. destruct (Z.eqb_spec d 0); [lia|]. change (0 =? 0) with true in Hsel0.
  destruct (pow2_bound s Hs) as (H0 & Hb & E).
  unfold rshiftRoundBody, rshiftModBody, addRShiftModBody, mulRShiftBody, mulRShiftModBody, mulAddRShiftModBody, qShrModOp, qMulShrModOp, pop_if,
    legacyRShiftNaNResultThreshold. split_and!.
  all: rewrite ?(suffix_run _ _ m) by done; rewrite ?Hsel, ?Hsel0; rewrite checkStackDepth_run; deep; change (VInt s) with (oval (Some s)).
  all: first [rewrite (shift_run _ _ s) by done | rewrite popInt_run, version_run, qShift256_ok by done; mrun].
  all: run_pops; rewrite ?popIntFinite_run; mrun; run_pops.
  all: destruct (Z.leb_spec 14 (st_GlobalVersion st)), (Z.ltb_spec (st_GlobalVersion st) 14), (Z.leb_spec 13 (st_GlobalVersion st)), (Z.ltb_spec (st_GlobalVersion st) 13); try lia.
  all: destruct x as [x |], y as [y |], w as [w |]; rewrite ?orb_true_r; cbn [o2 binaryIntResult pushMaybeInt orb] in *; mrun; run_pops.
  all: try (now rewrite throws_nothing by lia); try (now rewrite qPushNaNs_quietly by lia).
  all: try (now apply quiet_shift_finish; lia || done).
  all: rewrite <-E; try (now apply pushQuot_throws; lia || done); try (now apply push_results_throws; lia || done).
Qed.

(** The state of the samples below runs at version 14. *)
Definition sample_state14 : State := sample_state_at 14.

Example shift_families_agree_witness :
  rshiftModBody 2 3 (at_top sample_state14 [VInt 2; VInt 9]) = (Ok tt, at_top sample_state14 [VInt (-3); VInt 3]) /\
  qMulShrModOp 2 (at_top sample_state14 [VInt 2; VInt 1; VNaN; VInt 9]) = (Ok tt, at_top sample_state14 [VNaN; VNaN]).
Proof.
  destruct (shift_families_agree sample_state14 [] 2 3 2 (Some 9) None (Some 1) ltac:(lia) ltac:(lia) ltac:(lia) ltac:(vm_compute; discriminate))
    as ((_ & H1 & _) & _ & _ & (_ & H2)).
  split; [exact H1|exact H2].
Defined.

(** C31: The families that divide a shifted number ([x*2^s/z] and [(x*2^s+w)/z]), in
    global version 13 and later: throwing and quiet instruction compute the exact
    results. *)
Theorem left_shift_division_agrees st t m d s x z w :
  0 <= m <= 2 -> 1 <= d <= 3 -> 0 <= s <= 256 -> 13 <= st_GlobalVersion st -> in_range z ->
  let shifted := o2 Z.mul x (Some (2 ^ s)) in
  let res := selected d (ref_div m shifted z) in
  let res_add := selected 3 (ref_div m (o2 Z.add shifted w) z) in
  (lshiftDivBody m d (at_top st (VInt s :: oval z :: oval x :: t)) = throws st t res /\
   qShlDivModOp (4 * d + m) (at_top st (VInt s :: oval z :: oval x :: t)) = quietly st t res) /\
  (lshiftAddDivModBody m (at_top st (VInt s :: oval z :: oval w :: oval x :: t)) = throws st t res_add /\
   qShlDivModOp m (at_top st (VInt s :: oval z :: oval w :: oval x :: t)) = quietly st t res_add).
Proof.
  intros Hm Hd Hs Hv Hz. cbv zeta. destruct (q_args d m ltac:(lia) Hm) as [Hland Hsel]. destruct (q_args 0 m ltac:(lia) Hm) as [Hland0 Hsel0].
  change (4 * 0 + m) with m in *. destruct (Z.eqb_spec d 0); [lia|]. change (0 =? 0) with true in Hsel0.
  destruct (pow2_bound s Hs) as (H0 & Hb & E). assert (Esh : forall n, n ≪ s = n * 2 ^ s) by (intros; apply Z.shiftl_mul_pow2; lia).
  unfold lshiftDivBody, lshiftAddDivModBody, qShlDivModOp, pop_if, legacyLeftShiftOperand, legacyShiftNaNResultThreshold. split_and!.
  all: rewrite ?(suffix_run _ _ m) by done; rewrite ?Hsel, ?Hsel0; rewrite checkStackDepth_run; deep; change (VInt s) with (oval (Some s)).
  all: first [rewrite (shift_run _ _ s) by done | rewrite popInt_run, version_run, qShift256_ok by done; mrun].
  all: run_pops; mrun; run_pops.
  all: destruct (Z.leb_spec 13 (st_GlobalVersion st)), (Z.ltb_spec (st_GlobalVersion st) 13); try lia.
  all: destruct x as [x |], z as [z |], w as [w |]; cbn [o2 binaryIntResult orb in_range] in *; mrun; run_pops; rewrite ?E, ?Esh.
  all: try (now rewrite throws_nothing by lia); try (now rewrite qPushNaNs_quietly by lia).
  all: try (now apply throw_finish; lia || done); try (now apply (quiet_finish _ _ _ _ _ _ m); lia || done).
  all: destruct (Z.eqb_spec z 0) as [-> |]; now rewrite qPushNaNs_quietly by lia.
Qed.

Example left_shift_division_agrees_witness :
  lshiftDivBody 0 1 (at_top sample_state14 [VInt 10; VInt 3; VInt 7]) = (Ok tt, at_top sample_state14 [VInt 2389]).
Proof.
  refine (proj1 (proj1 (left_shift_division_agrees sample_state14 [] 0 1 10 (Some 7) (Some 3) None _ _ _ _ _))).
  all: first [lia | vm_compute; discriminate].
Defined.

(** An instruction with its shift in the code ([args + 1], a byte) does what the
    instruction that pops the same shift from the stack does, for each of the seven
    immediate families. *)
Theorem immediate_shift_agrees st t m d args x y z w :
  0 <= args <= 255 ->
  let s := VInt (args + 1) in
  rshiftRoundCodeBody m args (at_top st (oval x :: t)) = rshiftRoundBody m (at_top st (s :: oval x :: t)) /\
  rshiftModCodeBody m d args (at_top st (oval x :: t)) = rshiftModBody m d (at_top st (s :: oval x :: t)) /\
  addRShiftModCodeBody m args (at_top st (oval w :: oval x :: t)) = addRShiftModBody m (at_top st (s :: oval w :: oval x :: t)) /\
  mulRShiftCodeBody m args (at_top st (oval y :: oval x :: t)) = mulRShiftBody m (at_top st (s :: oval y :: oval x :: t)) /\
  mulRShiftModCodeBody m d args (at_top st (oval y :: oval x :: t)) = mulRShiftModBody m d (at_top st (s :: oval y :: oval x :: t)) /\
  mulAddRShiftModCodeBody m args (at_top st (oval w :: oval y :: oval x :: t)) = mulAddRShiftModBody m (at_top st (s :: oval w :: oval y :: oval x :: t)) /\
  (d <> 0 -> lshiftDivCodeOp d m args (at_top st (oval z :: oval x :: t)) = lshiftDivBody m d (at_top st (s :: oval z :: oval x :: t))) /\
  lshiftDivCodeOp 0 m args (at_top st (oval z :: oval w :: oval x :: t)) = lshiftAddDivModBody m (at_top st (s :: oval z :: oval w :: oval x :: t)).
Proof.
  intros Ha. cbv zeta. assert (Hs : bytePlusOneValue args = args + 1) by (unfold bytePlusOneValue, u8; rewrite Z.mod_small; lia).
  assert (Esh : forall n, n ≪ (args + 1) = n * (1 ≪ (args + 1))) by (intros; rewrite Z.shiftl_1_l; apply Z.shiftl_mul_pow2; lia).
  assert (Ed : d <> 0 -> (d =? 0) = false) by lia. split_and!; try intros Hd0.
  all: unfold rshiftRoundCodeBody, rshiftModCodeBody, addRShiftModCodeBody, mulRShiftCodeBody, mulRShiftModCodeBody, mulAddRShiftModCodeBody, lshiftDivCodeOp,
    rshiftRoundBody, rshiftModBody, addRShiftModBody, mulRShiftBody, mulRShiftModBody, mulAddRShiftModBody, lshiftDivBody, lshiftAddDivModBody, div_checked, push_results.
  all: try rewrite Ed by done; rewrite ?Hs; change (0 =? 0) with true; cbv iota; rewrite ?checkStackDepth_run; repeat deep; rewrite shift_run by lia.
  all: run_pops; mrun; run_pops; rewrite ?popIntFinite_run; try done.
  - destruct x; [done|]. now destruct (Z.eqb_spec (args + 1) 0); [lia|].
  - destruct z, (legacyLeftShiftOperand (st_GlobalVersion st) x (args + 1)); mrun; run_pops; try done. now rewrite Esh; destruct (roundDivMod _ _ _).
  - destruct z, (legacyLeftShiftOperand (st_GlobalVersion st) x (args + 1)), w; mrun; run_pops; try done. now rewrite Esh; destruct (roundDivMod _ _ _).
Qed.

Example immediate_shift_agrees_witness :
  lshiftDivCodeOp 1 0 9 (at_top sample_state14 [VInt 3; VInt 7]) = lshiftDivBody 0 1 (at_top sample_state14 [VInt 10; VInt 3; VInt 7]).
Proof.
  destruct (immediate_shift_agrees sample_state14 [] 0 1 9 (Some 7) None (Some 3) None ltac:(lia)) as (_ & _ & _ & _ & _ & _ & H & _).
  apply H. discriminate.
Defined.

(** ** Addition, multiplication and logic *)

Lemma pushMaybe_throws st t o : pushMaybeInt o false (at_top st t) = throws st t [o].
Proof.
  unfold throws. cbn [forallb]. rewrite andb_true_r. destruct o as [v |]; [|done]. cbn [pushMaybeInt res_ok].
  destruct (fitsTVMInt v) eqn:E; apply on_stack_run; now rewrite PushInt_tf, E.
Qed.

Lemma pushQuiet_quietly st t v : on_stack (PushIntQuiet v) (at_top st t) = quietly st t [Some v].
Proof. unfold quietly. apply on_stack_run. rewrite PushIntQuiet_tf. cbn. now destruct (fitsTVMInt v). Qed.

Lemma pushMaybe_quietly st t o : pushMaybeInt o true (at_top st t) = quietly st t [o].
Proof. destruct o as [v |]; [apply pushQuiet_quietly|]. apply on_stack_run, PushAny_tf. Qed.

Lemma int64_fits v : is_int64 v = true -> fitsTVMInt v = true.
Proof. unfold is_int64, fitsTVMInt, minTVMInt, maxTVMInt. rewrite !andb_true_iff, !Z.leb_le. lia. Qed.

Lemma pushSmall_both st t v : is_int64 v = true ->
  on_stack (PushSmallInt v) (at_top st t) = throws st t [Some v] /\ on_stack (PushSmallInt v) (at_top st t) = quietly st t [Some v].
Proof.
  intros Hv. unfold throws, quietly. cbn [forallb res_ok fmap list_fmap]. rewrite int64_fits by done.
  split; apply on_stack_run, PushSmallInt_tf, int64_fits, Hv.
Qed.

Lemma int64_shift v : is_int64 v = true <-> v ≫ 63 = 0 \/ v ≫ 63 = -1.
Proof. unfold is_int64. rewrite andb_true_iff, Z.leb_le, Z.ltb_lt, Z.shiftr_div_pow2 by lia. lia. Qed.

Lemma int64_logic x y : is_int64 x = true -> is_int64 y = true ->
  is_int64 (Z.land x y) = true /\ is_int64 (Z.lor x y) = true /\ is_int64 (Z.lxor x y) = true /\ is_int64 (Z.lnot x) = true.
Proof.
  rewrite !int64_shift, Z.shiftr_land, Z.shiftr_lor, Z.shiftr_lxor, <-Z.lnot_shiftr by lia.
  intros [-> | ->] [-> | ->]; repeat split; (now left) || (now right).
Qed.

Lemma small2_spec x y : small2 x y = match x, y with Some a, Some b => if is_int64 a && is_int64 b then Some (a, b) else None | _, _ => None end.
Proof. done. Qed.

(** INC and DEC away from the ends of the 64-bit range. *)
Lemma step_fast st t x d edge :
  is_int64 x = true -> (x <> edge -> is_int64 (x + d) = true) ->
  (if negb (x =? edge) then on_stack (PushSmallInt (s64 (x + d))) else pushMaybeInt (Some (x + d)) false) (at_top st t) = throws st t [Some (x + d)].
Proof.
  intros Hx Hd. destruct (Z.eqb_spec x edge); cbn [negb]; [apply pushMaybe_throws|]. rewrite s64_id; [now apply pushSmall_both, Hd|].
  specialize (Hd ltac:(done)). unfold is_int64 in Hd. unfold int64. lia.
Qed.

Lemma int64_inside x d edge : is_int64 x = true -> (d = 1 /\ edge = 2 ^ 63 - 1) \/ (d = -1 /\ edge = - 2 ^ 63) -> x <> edge -> is_int64 (x + d) = true.
Proof. unfold is_int64. rewrite !andb_true_iff, !Z.leb_le, !Z.ltb_lt. lia. Qed.

(** C32: From version 13 on the fast paths are exact and the quiet forms agree with the
    throwing ones: each of the additive, multiplicative and logical instructions pushes
    the exact integer result (a NaN operand gives no result), the throwing
    form reporting an overflow and the quiet form pushing NaN when there is none or
    it does not fit 257 bits. *)
Theorem simple_arithmetic_agrees st t x y args :
  13 <= st_GlobalVersion st ->
  let two f body qbody := body (at_top st (oval y :: oval x :: t)) = throws st t [o2 f x y] /\
                          qbody (at_top st (oval y :: oval x :: t)) = quietly st t [o2 f x y] in
  let one f body qbody := body (at_top st (oval x :: t)) = throws st t [unaryIntResult x f] /\
                          qbody (at_top st (oval x :: t)) = quietly st t [unaryIntResult x f] in
  two Z.add SUM QADD /\ two Z.sub SUB QSUB /\ two (fun a b => b - a) SUBR QSUBR /\ two Z.mul MUL QMUL /\
  two Z.land AND QAND /\ two Z.lor OR QOR /\ two Z.lxor XOR QXOR /\
  one Z.opp NEGATE QNEGATE /\ one (fun a => a + 1) INC QINC /\ one (fun a => a - 1) DEC QDEC /\ one Z.lnot NOT QNOT /\
  one (fun a => a + s8 args) (ADDCONST args) (QADDINT args) /\ one (fun a => a * s8 args) (MULCONST args) (QMULINT args).
Proof.
  intros Hv. cbv zeta. assert (Hold : (st_GlobalVersion st <? 13) = false) by lia.
  unfold SUM, QADD, SUB, QSUB, SUBR, QSUBR, MUL, QMUL, AND, QAND, OR, QOR, XOR, QXOR, NEGATE, QNEGATE, INC, QINC, DEC, QDEC, NOT, QNOT, ADDCONST, MULCONST,
    QADDINT, QMULINT, quietTinyIntOp, quietBinaryIntOp, quietUnaryIntOp, binary, pushBinaryIntResult, pushUnaryIntResult, versionedAndResult, versionedOrResult.
  split_and!; rewrite ?checkStackDepth_run; try deep; run_pops; rewrite ?small2_spec, ?Hold.
  all: destruct x as [x |], y as [y |]; cbn [o2 binaryIntResult unaryIntResult fmap option_fmap option_map andb]; rewrite ?version_run, ?pushMaybe_throws, ?pushMaybe_quietly, ?pushQuiet_quietly; try done.
  all: try (now apply on_stack_run, PushAny_tf).
  all: repeat match goal with |- context [is_int64 ?a] => destruct (is_int64 a) eqn:?; cbn [andb] end;
    rewrite ?version_run, ?pushMaybe_throws, ?pushMaybe_quietly, ?pushQuiet_quietly; try done.
  all: rewrite ?Hold, ?(Z.add_comm y x), ?(Z.mul_comm y x), ?(Z.land_comm y x), ?(Z.lor_comm y x), ?(Z.lxor_comm y x); try done.
  all: try (now apply pushSmall_both, int64_logic); try (now apply pushSmall_both, (int64_logic x x)).
  all: apply step_fast; [done|]; apply int64_inside; [done|unfold MinInt64, MaxInt64; lia].
Qed.

Example simple_arithmetic_agrees_witness :
  INC (at_top sample_state14 [VInt MaxInt64]) = (Ok tt, at_top sample_state14 [VInt (2 ^ 63)]) /\
  SUM (at_top sample_state14 [VInt maxTVMInt; VInt 1]) = (Err (VMErr CodeIntOverflow), at_top sample_state14 []) /\
  QADD (at_top sample_state14 [VInt maxTVMInt; VInt 1]) = (Ok tt, at_top sample_state14 [VNaN]).
Proof.
  split; [|split].
  - pose proof (simple_arithmetic_agrees sample_state14 [] (Some MaxInt64) (Some 0) 0 ltac:(vm_compute; discriminate)) as H. cbv zeta in H.
    destruct H as (_ & _ & _ & _ & _ & _ & _ & _ & (H & _) & _). exact H.
  - exact (proj1 (proj1 (simple_arithmetic_agrees sample_state14 [] (Some 1) (Some maxTVMInt) 0 ltac:(vm_compute; discriminate)))).
  - exact (proj2 (proj1 (simple_arithmetic_agrees sample_state14 [] (Some 1) (Some maxTVMInt) 0 ltac:(vm_compute; discriminate)))).
Defined.

(** * What comparisons and width checks mean

    Each comparison pushes the truth value of the order relation it names, through
    either of its two implementations; a width check accepts exactly the numbers of
    that width, and the size instructions give the least such width. *)

(** A truth value on the stack. *)
Definition truth (b : bool) : value := VInt (if b then -1 else 0).

(** ** Helpers *)

Lemma s8_bound b : -128 <= s8 b <= 127.
Proof. unfold s8. pose proof (Z.mod_pos_bound (b + 128) 256). lia. Qed.

Lemma compareBigIntInt64_spec x b : compareBigIntInt64 x (s8 b) = Z.sgn (x - s8 b).
Proof.
  pose proof (s8_bound b). unfold compareBigIntInt64. destruct (is_int64 x) eqn:E.
  - destruct (Z.ltb_spec x (s8 b)), (Z.ltb_spec (s8 b) x); lia.
  - unfold is_int64 in E. apply andb_false_iff in E. rewrite Z.leb_gt, Z.ltb_ge in E. destruct (Z.ltb_spec x 0); lia.
Qed.

(** The three entries of a mode, for less, equal and greater. *)
Definition mode_entry (mode s : Z) : Z := Z.land (mode ≫ (4 * (s + 1))) 15 - 8.

Lemma push_mode st t mode s :
  -1 <= s <= 1 -> on_stack (PushSmallInt (compareModeValue mode s)) (at_top st t) = (Ok tt, at_top st (VInt (mode_entry mode s) :: t)).
Proof.
  intros Hs. unfold compareModeValue, mode_entry. replace (4 + s * 4) with (4 * (s + 1)) by lia.
  apply on_stack_run, PushSmallInt_tf. change 15 with (Z.ones 4). rewrite Z.land_ones by lia.
  pose proof (Z.mod_pos_bound (mode ≫ (4 * (s + 1))) (2 ^ 4) ltac:(lia)). unfold fitsTVMInt, minTVMInt, maxTVMInt. lia.
Qed.

Lemma pushBool_run st t b : on_stack (PushBool b) (at_top st t) = (Ok tt, at_top st (truth b :: t)).
Proof. apply on_stack_run, PushBool_tf. Qed.

Lemma binary_run k st x y t :
  binary k (at_top st (oval y :: oval x :: t)) = k y x (at_top st t).
Proof. unfold binary. rewrite checkStackDepth_run. deep. now rewrite !popInt_run. Qed.

(** ** Properties *)

(** C38: Every comparison pushes -1 when its relation holds of the two integers and 0
    when it does not: [LESS], [EQUAL], [LEQ], [GREATER], [NEQ], [GEQ] and their quiet
    forms, the forms that compare with a signed byte of the code, and the sign tests;
    [CMP], [SGN] and their quiet forms push the sign of the difference. *)
Theorem comparisons_exact st t x y args :
  let two c body := body (at_top st (VInt y :: VInt x :: t)) = (Ok tt, at_top st (truth c :: t)) in
  let one c body := body (at_top st (VInt x :: t)) = (Ok tt, at_top st (truth c :: t)) in
  let b := s8 args in
  (two (x <? y) LESS /\ two (x =? y) EQUAL /\ two (x <=? y) LEQ /\ two (y <? x) GREATER /\ two (negb (x =? y)) NEQ /\ two (y <=? x) GEQ) /\
  (two (x <? y) QLESS /\ two (x =? y) QEQUAL /\ two (x <=? y) QLEQ /\ two (y <? x) QGREATER /\ two (negb (x =? y)) QNEQ /\ two (y <=? x) QGEQ) /\
  (one (x =? b) (EQINT args) /\ one (x <? b) (LESSINT args) /\ one (b <? x) (GTINT args) /\ one (negb (x =? b)) (NEQINT args)) /\
  (one (x =? b) (QEQINT args) /\ one (x <? b) (QLESSINT args) /\ one (b <? x) (QGTINT args) /\ one (negb (x =? b)) (QNEQINT args)) /\
  (one (x =? 0) ISZERO /\ one (x <? 0) ISNEG /\ one (0 <=? x) ISNNEG /\ one (0 <? x) ISPOS /\ one (x <=? 0) ISNPOS) /\
  (CMP (at_top st (VInt y :: VInt x :: t)) = (Ok tt, at_top st (VInt (Z.sgn (x - y)) :: t)) /\
   QCMP (at_top st (VInt y :: VInt x :: t)) = (Ok tt, at_top st (VInt (Z.sgn (x - y)) :: t)) /\
   SGN (at_top st (VInt x :: t)) = (Ok tt, at_top st (VInt (Z.sgn x) :: t)) /\
   QSGN (at_top st (VInt x :: t)) = (Ok tt, at_top st (VInt (Z.sgn x) :: t))).
Proof.
  cbv zeta. change (VInt x) with (oval (Some x)). change (VInt y) with (oval (Some y)).
  unfold LESS, EQUAL, LEQ, GREATER, NEQ, GEQ, QLESS, QEQUAL, QLEQ, QGREATER, QNEQ, QGEQ, EQINT, LESSINT, GTINT, NEQINT, QEQINT, QLESSINT, QGTINT, QNEQINT,
    ISZERO, ISNEG, ISNNEG, ISPOS, ISNPOS, CMP, QCMP, SGN, QSGN, compareOp, intCmpOp, compareIntOp, signTest, signOp, big_Cmp.
  split_and!; first [rewrite binary_run | rewrite popInt_run]; cbv beta iota; unfold pushCompareResult; rewrite ?compareBigIntInt64_spec; rewrite ?pushBool_run, ?push_mode by lia.
  all: unfold truth; do 4 f_equal.
  all: set (b := s8 args); clearbody b; repeat match goal with |- context [Z.sgn ?d] => destruct (Z.sgn_spec d) as [[? ->] | [[? ->] | [? ->]]] end; change (- (1)) with (-1); cbn.
  all: repeat match goal with |- context [if negb ?c then _ else _] => destruct c eqn:?; cbn [negb] | |- context [if ?c then _ else _] => destruct c eqn:? end; first [reflexivity | lia | discriminate].
Qed.

(** The width checks of the reference: signed numbers of [n] bits. *)
Definition signed_width (x n : Z) : Prop := x = 0 \/ 1 <= n /\ - 2 ^ (n - 1) <= x < 2 ^ (n - 1).
Definition unsigned_width (x n : Z) : Prop := x = 0 \/ 0 <= n /\ 0 <= x < 2 ^ n.

Lemma signedFits_spec x n : signedFitsBits x n = true <-> signed_width x n.
Proof.
  unfold signedFitsBits, signed_width. destruct (Z.eqb_spec x 0); [tauto|]. destruct (Z.leb_spec n 0); [split; [done|lia]|].
  pose proof (bit_len_le x (n - 1)). pose proof (bit_len_le (- x - 1) (n - 1)). pose proof (Z.pow_pos_nonneg 2 (n - 1) ltac:(lia) ltac:(lia)).
  destruct (Z.ltb_spec 0 x); rewrite Z.ltb_lt; lia.
Qed.

Lemma unsignedFits_spec x n : unsignedFitsBits x n = true <-> unsigned_width x n.
Proof.
  unfold unsignedFitsBits, unsigned_width. destruct (Z.eqb_spec x 0); [tauto|].
  destruct (Z.ltb_spec x 0), (Z.ltb_spec n 0); cbn [orb]; try (split; [done|lia]). rewrite Z.leb_le, bit_len_le by lia. lia.
Qed.

Lemma signedBitSize_fits x n : 0 <= n -> signedBitSize (Some x) <= n <-> signedFitsBits x n = true.
Proof.
  intros Hn. unfold signedBitSize, signedFitsBits. pose proof (bit_len_nonneg x). pose proof (bit_len_nonneg (- x - 1)).
  destruct (Z.eqb_spec x 0); [tauto|]. destruct (Z.leb_spec n 0), (Z.ltb_spec 0 x); rewrite ?Z.ltb_lt; intuition (lia || discriminate).
Qed.

Lemma unsignedBitSize_fits x n : 0 <= x -> 0 <= n -> unsignedBitSize (Some x) <= n <-> unsignedFitsBits x n = true.
Proof.
  intros Hx Hn. unfold unsignedBitSize, unsignedFitsBits. destruct (Z.ltb_spec x 0), (Z.eqb_spec x 0), (Z.ltb_spec n 0); try lia; cbn [orb].
  now rewrite Z.leb_le.
Qed.

Lemma sizes_bounded x : fitsTVMInt x = true -> 0 <= signedBitSize (Some x) <= 257 /\ (0 <= x -> 0 <= unsignedBitSize (Some x) <= 257).
Proof.
  intros Hx. unfold fitsTVMInt, minTVMInt, maxTVMInt in Hx. apply andb_true_iff in Hx. rewrite !Z.leb_le in Hx.
  rewrite (signedBitSize_fits x 257), signedFits_spec by lia. split.
  - split; [|right; lia]. unfold signedBitSize. pose proof (bit_len_nonneg x). pose proof (bit_len_nonneg (- x - 1)). split_cmp.
  - intros H0. rewrite (unsignedBitSize_fits x 257), unsignedFits_spec by lia. split; [|right; lia].
    unfold unsignedBitSize. pose proof (bit_len_nonneg x). destruct (Z.ltb_spec x 0), (Z.eqb_spec x 0); lia.
Qed.

Lemma bitSizeOp_run st t x signed quiet : fitsTVMInt x = true ->
  bitSizeOp signed quiet (at_top st (VInt x :: t)) =
    if signed || (0 <=? x) then (Ok tt, at_top st (VInt (if signed then signedBitSize (Some x) else unsignedBitSize (Some x)) :: t))
    else if quiet then (Ok tt, at_top st (VNaN :: t)) else (Err (VMErr CodeRangeCheck), at_top st t).
Proof.
  intros Hx. destruct (sizes_bounded x Hx) as [Hs Hu]. unfold bitSizeOp. change (VInt x) with (oval (Some x)). rewrite popInt_run.
  set (size := if signed then _ else _) in *.
  assert (H : signed || (0 <=? x) = true -> 0 <= size <= 257) by (subst size; destruct signed; cbn [orb]; [done|rewrite Z.leb_le; done]).
  destruct (signed || (0 <=? x)) eqn:E.
  - specialize (H eq_refl). destruct (Z.eqb_spec size bitSizeInvalid) as [He | _]; [unfold bitSizeInvalid in He; lia|].
    apply on_stack_run, PushSmallInt_tf. unfold fitsTVMInt, minTVMInt, maxTVMInt. lia.
  - destruct signed; [done|]. cbn [orb] in E. subst size. unfold unsignedBitSize. destruct (Z.ltb_spec x 0); [|lia].
    cbn [Z.eqb]. rewrite Z.eqb_refl. destruct quiet; [apply on_stack_run, PushAny_tf|done].
Qed.

(** The width checks mean what they say: [FITS] and [FITSX] (quiet forms too)
    leave a number exactly when it is a signed number of that many bits, [UFITS] and
    [UFITSX] when it is an unsigned one, and otherwise report an overflow or push
    NaN; [BITSIZE] and [UBITSIZE] compute the least such width. *)
Theorem width_checks_exact st t x n :
  fitsTVMInt x = true -> 0 <= n <= 1023 ->
  (signedFitsBits x n = true <-> signed_width x n) /\ (unsignedFitsBits x n = true <-> unsigned_width x n) /\
  (signedBitSize (Some x) <= n <-> signed_width x n) /\ (0 <= x -> unsignedBitSize (Some x) <= n <-> unsigned_width x n) /\
  (forall quiet, bitSizeOp true quiet (at_top st (VInt x :: t)) = (Ok tt, at_top st (VInt (signedBitSize (Some x)) :: t)) /\
     bitSizeOp false quiet (at_top st (VInt x :: t)) =
       if 0 <=? x then (Ok tt, at_top st (VInt (unsignedBitSize (Some x)) :: t))
       else if quiet then (Ok tt, at_top st (VNaN :: t)) else (Err (VMErr CodeRangeCheck), at_top st t)) /\
  (forall unsigned : bool, let kept := if (if unsigned then unsignedFitsBits x n else signedFitsBits x n) then Some x else None in
     fitStackOp unsigned false (at_top st (VInt n :: VInt x :: t)) = throws st t [kept] /\
     fitStackOp unsigned true (at_top st (VInt n :: VInt x :: t)) = quietly st t [kept] /\
     (1 <= n <= 256 ->
        fitTinyOp unsigned false (n - 1) (at_top st (VInt x :: t)) = throws st t [kept] /\
        fitTinyOp unsigned true (n - 1) (at_top st (VInt x :: t)) = quietly st t [kept])).
Proof.
  intros Hx Hn. split; [apply signedFits_spec|]. split; [apply unsignedFits_spec|].
  split; [now rewrite signedBitSize_fits, signedFits_spec by lia|]. split; [intros H0; now rewrite unsignedBitSize_fits, unsignedFits_spec by lia|].
  split; [intros quiet; now rewrite !bitSizeOp_run by done|].
  intros unsigned. cbv zeta.
  assert (Hfit : forall quiet w, fit_width unsigned quiet w (at_top st (VInt x :: t)) =
            pushMaybeInt (if (if unsigned then unsignedFitsBits x w else signedFitsBits x w) then Some x else None) quiet (at_top st t))
    by (intros; unfold fit_width; change (VInt x) with (oval (Some x)); now rewrite popInt_run).
  unfold fitStackOp, fitTinyOp. rewrite !checkStackDepth_run. deep. rewrite !popIntRange_run by lia.
  destruct (Z.leb_spec 0 n), (Z.leb_spec n 1023); try lia; cbn [andb]. rewrite !Hfit, pushMaybe_throws, pushMaybe_quietly.
  split; [done|]. split; [done|]. intros Hb. replace (bytePlusOneValue (n - 1)) with n by (unfold bytePlusOneValue, u8; rewrite Z.mod_small; lia).
  now rewrite ?Hfit, ?pushMaybe_throws, ?pushMaybe_quietly.
Qed.

Example width_checks_exact_witness :
  signed_width (-128) 8 /\ fitStackOp false false (at_top sample_state [VInt 8; VInt (-128)]) = (Ok tt, at_top sample_state [VInt (-128)]) /\
  fitTinyOp true true 7 (at_top sample_state [VInt (-1)]) = (Ok tt, at_top sample_state [VNaN]).
Proof.
  split; [apply (width_checks_exact sample_state [] (-128) 8); [reflexivity|lia|reflexivity]|]. split.
  - destruct (width_checks_exact sample_state [] (-128) 8 ltac:(reflexivity) ltac:(lia)) as (_ & _ & _ & _ & _ & H). exact (proj1 (H false)).
  - destruct (width_checks_exact sample_state [] (-1) 8 ltac:(reflexivity) ltac:(lia)) as (_ & _ & _ & _ & _ & H).
    exact (proj2 (proj2 (proj2 (H true)) ltac:(lia))).
Defined.
