(* ===== verification/Exec.v ===== *)
(** * Continuations: jumps, calls and returns

    Models [tvm/vm/exec.go], the [Jump] methods of [continuation.go], and
    [ThrowException], [ForceControlData] and [NewExecutionState] of [state.go].

    A continuation is a value, so the ownership flag of the current code window has
    no counterpart: a captured window and the window being executed are two values.
    [CNil] is Go's nil interface, on which a method call panics. *)

From S2P Require Import Prelude Bytes CellModel Builder Slice Gas Value Stack VmState.
#[local] Open Scope Z_scope.

(** ** The [Jump] method of each kind of continuation *)

(** A Go panic *)
Definition panic {A} : M State A := lift Panic.

(** [GetControlData] called through the interface *)
Definition control_data (c : cont) : M State (option cdata) :=
  match c with CNil => panic | _ => mret (GetControlData c) end.

Definition handledError (code : Z) : error := HandledErr code.

Definition IsHandledException (e : error) : bool := match e with HandledErr _ => true | _ => false end.

(** [vmerr.ErrorCode] *)
Definition ErrorCode (e : error) : option Z := match e with VMErr c | HandledErr c => Some c | _ => None end.

Definition forceContinuationCodepage (cp : Z) : M State unit :=
  st ← get_state;
  if cp =? st_CP st then mret tt
  else guard_err (negb (cp =? 0)) (VMErr CodeInvalidOpcode) ;; put_state (set_CP st cp).

Definition applyContinuationCodepage (cp : Z) : M State unit :=
  if cp =? CP then mret tt else forceContinuationCodepage cp.

Definition adoptCurrentCode (code : Slice) : M State unit := modify (fun st => set_code st code).

Definition set_c (i : Z) (c : cont) : M State unit := modify (fun st => set_reg st (set_C (st_Reg st) i c)).

(** Whether control data leave [c0] to the caller. *)
Definition no_c0 (d : option cdata) : bool :=
  match d with None => true | Some d => IsNullContinuation (r_C (d_Save d) 0) end.

Definition flipped (CheckCond : bool) (Body Cond After : cont) : cont := CWhile (negb CheckCond) Body Cond After.

Definition cont_Jump (c : cont) : M State cont :=
  match c with
  | CNil => panic
  | CNull => fail (VMErr CodeTypeCheck)
  | CQuit code => fail (handledError code)
  | CExcQuit => fun st =>
      match on_stack (PopIntRange 0 0xffff) st with
      | (Ok v, st') => (Err (handledError v), st')
      | (Err e, st') => (Err (handledError (default CodeFatal (ErrorCode e))), st')
      | (Panic, st') => (Panic, st')
      end
  | COrdinary d code =>
      modify (fun st => set_reg st (AdjustWith (st_Reg st) (d_Save d))) ;;
      adoptCurrentCode code ;;
      forceContinuationCodepage (d_CP d) ;;
      mret CNil
  | CArgExt d ext =>
      modify (fun st => set_reg st (AdjustWith (st_Reg st) (d_Save d))) ;;
      applyContinuationCodepage (d_CP d) ;;
      mret ext
  | CPushInt x next => on_stack (PushSmallInt x) ;; mret next
  | CRepeat count body after =>
      if count <=? 0 then mret after
      else
        d ← control_data body;
        (if no_c0 d then set_c 0 (CRepeat (count - 1) body after) else mret tt) ;;
        mret body
  | CAgain body =>
      d ← control_data body;
      (if no_c0 d then set_c 0 (CAgain body) else mret tt) ;;
      mret body
  | CWhile true body cnd after =>
      more ← on_stack PopBool;
      if negb more then mret after
      else
        d ← control_data body;
        (if no_c0 d then set_c 0 (flipped true body cnd after) else mret tt) ;;
        mret body
  | CWhile false body cnd after =>
      d ← control_data cnd;
      (if no_c0 d then set_c 0 (flipped false body cnd after) else mret tt) ;;
      mret cnd
  | CUntil body after =>
      end_ ← on_stack PopBool;
      if (end_ : bool) then mret after
      else
        d ← control_data body;
        (if no_c0 d then set_c 0 (CUntil body after) else mret tt) ;;
        mret body
  end.

(** ** Stack plans *)

Record plan : Type := mkPlan { p_data : option cdata; p_passArgs : Z; p_cp : Z; p_skip : Z }.

Definition planContinuationStack (depth : Z) (data : option cdata) (passArgs : Z) : outcome plan :=
  match data with
  | Some d =>
      let n := d_NumArgs d in
      if (depth <? passArgs) || (depth <? n) then Err (VMErr CodeStackUnderflow)
      else if (passArgs <? n) && (0 <=? passArgs) then Err (VMErr CodeStackUnderflow)
      else
        let skip := if (0 <=? passArgs) && (0 <=? n) then passArgs - n else 0 in
        let cp := if (0 <=? passArgs) && (n <? 0) then passArgs else n in
        Ok (mkPlan data passArgs cp skip)
  | None =>
      if depth <? passArgs then Err (VMErr CodeStackUnderflow)
      else Ok (mkPlan data passArgs (if 0 <=? passArgs then passArgs else -1) 0)
  end.

Definition Stack_Copy (s : stack) : stack := map shareStackValue s.

(** The captured stack, when there is one with elements. *)
Definition capturedStack (p : plan) : option stack :=
  match p_data p with
  | Some d => match d_Stack d with Some (v :: l) => Some (v :: l) | _ => None end
  | None => None
  end.

(** [newStack.MoveFrom(s.Stack, num)] *)
Definition move_from_stack (newStack : stack) (num : Z) : M State stack :=
  fun st => let '(r, (new, rest)) := MoveFrom num (newStack, st_Stack st) in
            (_ ← r; Ok new, set_stack st rest).

(** The new stack and what is left as the current one; [None] when the whole stack
    has been taken over and the state holds no stack. *)
Definition buildCallStack (p : plan) : M State (stack * option stack) :=
  match capturedStack p with
  | Some captured =>
      st ← get_state;
      let copyCount := if p_cp p <? 0 then len (st_Stack st) else p_cp p in
      newStack ← (if 0 <? copyCount then move_from_stack (Stack_Copy captured) copyCount else mret (Stack_Copy captured));
      (if 0 <? p_skip p then on_stack (Drop (p_skip p)) else mret tt) ;;
      ConsumeStackGas newStack ;;
      st ← get_state;
      mret (newStack, Some (st_Stack st))
  | None =>
      if 0 <=? p_cp p then
        newStack ← on_stack (SplitTop (p_cp p) (match p_data p with Some _ => p_skip p | None => 0 end));
        ConsumeStackGas newStack ;;
        st ← get_state;
        mret (newStack, Some (st_Stack st))
      else
        st ← get_state;
        mret (st_Stack st, None)
  end.

Definition drop_after_charged (num : Z) : M State unit :=
  st ← get_state;
  if (0 <=? num) && (num <? len (st_Stack st)) then
    on_stack (DropAfter num) ;;
    st ← get_state;
    ConsumeStackGas (st_Stack st)
  else mret tt.

Definition applyJumpStack (p : plan) : M State unit :=
  match p_data p with
  | Some _ =>
      match capturedStack p with
      | Some captured =>
          st ← get_state;
          let copyCount := if p_cp p <? 0 then len (st_Stack st) else p_cp p in
          newStack ← (if 0 <? copyCount then move_from_stack (Stack_Copy captured) copyCount else mret (Stack_Copy captured));
          ConsumeStackGas newStack ;;
          modify (fun st => set_stack st newStack)
      | None => drop_after_charged (p_cp p)
      end
  | None => drop_after_charged (p_passArgs p)
  end.

(** Runs [m]; when it fails, [f] is applied to the registers. *)
Definition on_fail {A} (f : register -> register) (m : M State A) : M State A :=
  fun st => match m st with (Err e, st') => (Err e, set_reg st' (f (st_Reg st'))) | r => r end.

Definition adjustJumpCont (c : cont) (passArgs : Z) : M State cont :=
  d ← control_data c;
  st ← get_state;
  p ← lift (planContinuationStack (len (st_Stack st)) d passArgs);
  on_fail (fun r => match p_data p with Some d => preclearWith r (d_Save d) | None => r end) (applyJumpStack p) ;;
  mret c.

(** ** Jumps *)

(** Control data that make a jump more than a jump. *)
Definition complex (d : option cdata) : bool :=
  match d with
  | None => false
  | Some d => (match d_Stack d with Some _ => true | None => false end) || (0 <=? d_NumArgs d)
  end.

(** Nested continuations: what [cont_Jump] can return is one of these. *)
Fixpoint cont_depth (c : cont) : nat :=
  match c with
  | CArgExt _ ext => S (cont_depth ext)
  | CPushInt _ next => S (cont_depth next)
  | CRepeat _ body after => S (cont_depth body `max` cont_depth after)
  | CAgain body => S (cont_depth body)
  | CWhile _ body cnd after => S (cont_depth body `max` (cont_depth cnd `max` cont_depth after))
  | CUntil body after => S (cont_depth body `max` cont_depth after)
  | CNil => O
  | _ => 1%nat
  end.

Definition charge_nested (iter : Z) : M State unit :=
  st ← get_state;
  if (9 <=? st_GlobalVersion st) && (FreeNestedContJump <? iter) then ConsumeGas 1 else mret tt.

Definition adjust_nested (c : cont) : M State cont :=
  st ← get_state;
  match c with
  | CNil => mret CNil
  | _ => if (9 <=? st_GlobalVersion st) && complex (GetControlData c) then adjustJumpCont c (-1) else mret c
  end.

(** One iteration of the loop of [JumpTo]; [iter] is its counter. *)
Definition jump_iter (iter : Z) (c : cont) : M State cont :=
  fun st =>
    match cont_Jump c st with
    | (Ok c', st') => (charge_nested (iter + 1) ;; adjust_nested c') st'
    | (Err e, st') => if IsHandledException e then (charge_nested (iter + 1) ;; fail e) st' else (Err e, st')
    | (Panic, st') => (Panic, st')
    end.

Fixpoint jump_loop (fuel : nat) (iter : Z) (c : cont) : M State unit :=
  match c, fuel with
  | CNil, _ => mret tt
  | _, O => panic
  | _, S fuel' => c' ← jump_iter iter c; jump_loop fuel' (iter + 1) c'
  end.

Definition JumpTo (c : cont) : M State unit := jump_loop (cont_depth c) 0 c.

Definition JumpArgs (c : cont) (passArgs : Z) : M State unit :=
  c ← adjustJumpCont c passArgs;
  JumpTo c.

Definition Jump (c : cont) : M State unit :=
  d ← control_data c;
  if complex d then JumpArgs c (-1) else JumpTo c.

Definition JumpToCode (code : Slice) (cp : Z) : M State unit :=
  adoptCurrentCode code ;;
  applyContinuationCodepage cp.

(** ** Calls *)

(** The return continuation of a call: the rest of the code, the rest of the stack,
    and the caller's own [c0]. *)
Definition return_cont (st : State) (c0 : cont) (rest : option stack) (retArgs : Z) : cont :=
  COrdinary (mkData (set_C emptyReg 0 c0) rest retArgs (st_CP st)) (st_CurrentCode st).

Definition CallArgs (c : cont) (passArgs retArgs : Z) : M State unit :=
  d ← control_data c;
  if negb (no_c0 d) then JumpArgs c passArgs
  else
    st ← get_state;
    p ← lift (planContinuationStack (len (st_Stack st)) d passArgs);
    let oldC0 := r_C (st_Reg st) 0 in
    '(newStack, rest) ← on_fail (fun r => match d with Some d => preclearWith (set_C r 0 CNil) (d_Save d) | None => r end) (buildCallStack p);
    st ← get_state;
    put_state (set_stack st newStack) ;;
    set_c 0 (return_cont st oldC0 rest retArgs) ;;
    JumpTo c.

Definition Call (c : cont) : M State unit :=
  d ← control_data c;
  if negb (no_c0 d) then Jump c
  else if complex d then CallArgs c (-1) (-1)
  else
    st ← get_state;
    set_c 0 (return_cont st (r_C (st_Reg st) 0) None ControlDataAllArgs) ;;
    JumpTo c.

(** ** Returns *)

(** [returnTo] with at most one argument count *)
Definition returnTo (regIdx exitCode : Z) (args : option Z) : M State unit :=
  st ← get_state;
  let c := r_C (st_Reg st) regIdx in
  set_c regIdx (CQuit exitCode) ;;
  match args with
  | Some n => JumpArgs c n
  | None => Jump c
  end.

Definition Return (args : option Z) : M State unit := returnTo 0 0 args.
Definition ReturnAlt (args : option Z) : M State unit := returnTo 1 1 args.

(** ** The current continuation and exceptions *)

Definition save_cr (saveCR : Z) (save reg : register) : register * register :=
  let '(save, reg) := if Z.testbit saveCR 0 then (set_C save 0 (r_C reg 0), set_C reg 0 (CQuit 0)) else (save, reg) in
  let '(save, reg) := if Z.testbit saveCR 1 then (set_C save 1 (r_C reg 1), set_C reg 1 (CQuit 1)) else (save, reg) in
  if Z.testbit saveCR 2 then (set_C save 2 (r_C reg 2), set_C reg 2 CNil) else (save, reg).

Definition ExtractCurrentContinuation (saveCR stackCopy ccArgs : Z) : M State cont :=
  st ← get_state;
  '(newStack, captured) ←
    (if (stackCopy <? 0) || (stackCopy =? len (st_Stack st)) then mret (st_Stack st, None)
     else if 0 <? stackCopy then
       ns ← on_stack (SplitTop stackCopy 0);
       st ← get_state;
       ConsumeStackGas ns ;;
       mret (ns, Some (st_Stack st))
     else mret ([], Some (st_Stack st)));
  st ← get_state;
  let '(save, reg) := save_cr saveCR emptyReg (st_Reg st) in
  put_state (set_reg (set_stack st newStack) reg) ;;
  mret (COrdinary (mkData save captured ccArgs (st_CP st)) (st_CurrentCode st)).

Definition empty_code : Slice := mkSlice (mkCell [] 0 false 0 [] [] []) 0 0 0 0.

Definition ThrowException (code : Z) (arg : option value) : M State unit :=
  on_stack Clear ;;
  match arg with Some v => on_stack (PushAny v) | None => on_stack (PushSmallInt 0) end ;;
  on_stack (PushInt code) ;;
  modify (fun st => set_code st empty_code) ;;
  consumeGasChecked ExceptionGasPrice ;;
  st ← get_state;
  Jump (r_C (st_Reg st) 2).

Definition ForceControlData (c : cont) : M State cont :=
  d ← control_data c;
  mret (match d with
        | Some _ => c
        | None => CArgExt (mkData emptyReg None ControlDataAllArgs CP) c
        end).
