(* ===== verification/ExecSpec.v ===== *)
(** * What jumps, calls and returns do

    A chain of jumps always ends; a call passes exactly the arguments asked for and
    its return continuation brings back the caller's code, stack and [c0]; capturing
    the current continuation and jumping to it restores the saved registers; a
    transfer whose arguments are missing changes nothing. *)

From S2P Require Import Prelude Bytes CellModel Builder Slice Gas Value Stack StackSpec VmState StackOps StackOpsSpec Exec.
#[local] Open Scope Z_scope.

(** ** Chains of jumps *)

(** Case analysis on the head of a run. *)
Ltac run_inv H :=
  repeat match type of H with
  | (_ ≫= _) _ = (Ok _, _) => let a := fresh "a" in let s := fresh "s" in let H1 := fresh "H1" in
      apply bind_inv_Ok in H as (a & s & H1 & H)
  | (if ?c then _ else _) _ = _ => destruct c
  end.

Lemma cont_Jump_depth c st c' st' : cont_Jump c st = (Ok c', st') -> (cont_depth c' < cont_depth c)%nat.
Proof.
  destruct c as [| |code| |d code|d ext|x next|n body after|body|chk body cnd after|body after]; cbn [cont_Jump cont_depth]; try done.
  - destruct (on_stack _ _) as [[]]; discriminate.
  - intros H. run_inv H. injection H as <- <-. cbn. lia.
  - intros H. run_inv H. injection H as <- <-. lia.
  - intros H. run_inv H. injection H as <- <-. lia.
  - intros H. run_inv H; injection H as <- <-; lia.
  - intros H. run_inv H; injection H as <- <-; lia.
  - destruct chk; intros H; run_inv H; injection H as <- <-; lia.
  - intros H. run_inv H; injection H as <- <-; lia.
Qed.

Lemma adjustJumpCont_same c n st c' st' : adjustJumpCont c n st = (Ok c', st') -> c' = c.
Proof. unfold adjustJumpCont. intros H. run_inv H. now injection H as <- <-. Qed.

Lemma adjust_nested_same c st c' st' : adjust_nested c st = (Ok c', st') -> c' = c.
Proof.
  unfold adjust_nested. mrun. destruct c; try destruct (_ && _); try (intros H; now injection H as <- <-); apply adjustJumpCont_same.
Qed.

Lemma jump_iter_depth iter c st c' st' : jump_iter iter c st = (Ok c', st') -> (cont_depth c' < cont_depth c)%nat.
Proof.
  unfold jump_iter. destruct (cont_Jump c st) as [[c1 | e |] st1] eqn:E; intros H.
  - run_inv H. apply adjust_nested_same in H as ->. now apply cont_Jump_depth in E.
  - destruct (IsHandledException e); [run_inv H|]; discriminate.
  - discriminate.
Qed.

Lemma jump_loop_fuel fuel iter c st :
  (cont_depth c <= fuel)%nat -> jump_loop fuel iter c st = jump_loop (cont_depth c) iter c st.
Proof.
  revert iter c st. induction fuel as [fuel IH] using lt_wf_ind. intros iter c st Hf.
  assert (c = CNil \/ c <> CNil) as [-> | Hc] by (destruct c; auto; right; discriminate); [now destruct fuel|].
  assert (Hstep : forall f, jump_loop (S f) iter c st = (c' ← jump_iter iter c; jump_loop f (iter + 1) c') st) by (intros; now destruct c).
  assert (exists d, cont_depth c = S d) as [d Hd] by (destruct c; try done; cbn; eauto).
  destruct fuel as [|f]; [lia|]. rewrite Hd, !Hstep. unfold mbind, M_bind.
  destruct (jump_iter iter c st) as [[c' | e |] st'] eqn:E; try done. apply jump_iter_depth in E.
  rewrite (IH f) by lia. destruct (decide (d < S f)%nat); [|lia]. now rewrite (IH d) by lia.
Qed.

(** ** Charging for a stack *)

Definition stack_charge (n : Z) : Z := Z.max 0 (n - 32).
(** Enough gas for a new stack of [n] elements, and the state that has paid for it. *)
Definition stack_gas (st : State) (n : Z) : Prop := stack_charge n <= g_Remaining (st_Gas st) < 2 ^ 63.
Definition stack_paid (st : State) (n : Z) : State := charged st (stack_charge n).

Lemma ConsumeStackGas_ok st t u :
  stack_gas st (len u) -> ConsumeStackGas (tf u) (at_top st t) = (Ok tt, at_top (stack_paid st (len u)) t).
Proof.
  intros Hg. unfold stack_gas, stack_charge in Hg. unfold ConsumeStackGas, ConsumeStackGasLen. rewrite len_tf.
  unfold FreeStackDepth, StackEntryGasPrice. cbv zeta.
  replace ((if len u <? 32 then 32 else len u) - 32) with (stack_charge (len u)) by (unfold stack_charge; destruct (Z.ltb_spec (len u) 32); lia).
  rewrite Z.mul_1_r. apply ConsumeGas_run; unfold stack_charge, int64; lia.
Qed.

Lemma ConsumeStackGas_run {B} (k : unit -> M State B) st t u :
  stack_gas st (len u) -> (ConsumeStackGas (tf u) ≫= k) (at_top st t) = k tt (at_top (stack_paid st (len u)) t).
Proof. intros Hg. now apply bind_Ok, ConsumeStackGas_ok. Qed.

(** ** Passing arguments *)

(** The captured stack of control data as it is put under the arguments, top first. *)
Definition cap (d : cdata) : list value :=
  match d_Stack d with Some s => reverse (Stack_Copy s) | None => [] end.

Lemma capturedStack_spec d pass cp skip :
  match capturedStack (mkPlan (Some d) pass cp skip) with
  | Some s => Stack_Copy s = tf (cap d) /\ cap d <> []
  | None => cap d = []
  end.
Proof.
  unfold capturedStack, cap. cbn [p_data]. destruct (d_Stack d) as [[|v l] |]; try done.
  unfold tf. rewrite reverse_involutive. split; [done|]. unfold Stack_Copy. cbn [map]. rewrite reverse_cons. now destruct (reverse _).
Qed.

Lemma move_from_run {B} (k : stack -> M State B) u n st t :
  0 <= n <= len t ->
  ((if 0 <? n then move_from_stack (tf u) n else mret (tf u)) ≫= k) (at_top st t) =
    k (tf (take (Z.to_nat n) t ++ u)) (at_top st (drop (Z.to_nat n) t)).
Proof.
  intros Hn. rewrite bind_if. destruct (Z.ltb_spec 0 n) as [Hp |].
  - apply bind_Ok. unfold move_from_stack. rewrite at_top_stack, MoveFrom_tf.
    destruct (Z.leb_spec 0 n), (Z.leb_spec n (len t)); try lia. cbn [andb]. f_equal. apply (at_top_at_top st t).
  - replace n with 0 by lia. mrun. done.
Qed.

Lemma buildCallStack_run d pass cp skip st t :
  0 <= cp -> 0 <= skip -> cp + skip <= len t -> stack_gas st (cp + len (cap d)) ->
  buildCallStack (mkPlan (Some d) pass cp skip) (at_top st t) =
    (Ok (tf (take (Z.to_nat cp) t ++ cap d), Some (tf (drop (Z.to_nat (cp + skip)) t))),
     at_top (stack_paid st (cp + len (cap d))) (drop (Z.to_nat (cp + skip)) t)).
Proof.
  intros Hcp Hsk Hle Hg. unfold buildCallStack. pose proof (capturedStack_spec d pass cp skip) as Hc.
  assert (Hlen : len (take (Z.to_nat cp) t ++ cap d) = cp + len (cap d)) by (rewrite len_app; unfold len in *; rewrite length_take; lia).
  rewrite <-Hlen in Hg |- *. destruct (capturedStack _) as [s |].
  - destruct Hc as [-> _]. mrun. cbn [p_cp p_skip]. destruct (Z.ltb_spec cp 0); [lia|]. cbv zeta. rewrite move_from_run by lia.
    assert (Hd : forall k : unit -> M State (stack * option stack), ((if 0 <? skip then on_stack (Drop skip) else mret tt) ≫= k) (at_top st (drop (Z.to_nat cp) t))
                  = k tt (at_top st (drop (Z.to_nat (cp + skip)) t))).
    { intros k. rewrite bind_if. destruct (Z.ltb_spec 0 skip); [|now replace (cp + skip) with cp by lia].
      apply bind_on_stack. rewrite Drop_tf. assert (len (drop (Z.to_nat cp) t) = len t - cp) by (unfold len in *; rewrite length_drop; lia).
      destruct (Z.leb_spec 0 skip), (Z.leb_spec skip (len (drop (Z.to_nat cp) t))); try lia. cbn [andb]. rewrite drop_drop. do 3 f_equal. lia. }
    rewrite Hd, ConsumeStackGas_run by done. mrun. now rewrite at_top_stack.
  - cbn [p_cp p_data p_skip]. destruct (Z.leb_spec 0 cp); [|lia].
    erewrite bind_on_stack by (rewrite SplitTop_tf; destruct (Z.leb_spec 0 cp), (Z.leb_spec 0 skip), (Z.leb_spec (cp + skip) (len t)); try lia; reflexivity).
    rewrite Hc, app_nil_r in Hg |- *. rewrite ConsumeStackGas_run by done. mrun. now rewrite at_top_stack.
Qed.

(** A jump keeps [cp] elements (all when it is negative) over the captured stack, and
    pays for the new stack unless it is the old one. *)
Definition kept (cp : Z) (t : list value) : list value := if cp <? 0 then t else take (Z.to_nat cp) t.
Definition unchanged (d : cdata) (cp : Z) (t : list value) : bool := (len (cap d) =? 0) && ((cp <? 0) || (len t <=? cp)).
Definition jump_paid (st : State) (d : cdata) (cp : Z) (t : list value) : State :=
  if unchanged d cp t then st else stack_paid st (len (kept cp t ++ cap d)).

Lemma drop_after_run cp st t :
  cp <= len t -> stack_gas st (len (kept cp t)) ->
  drop_after_charged cp (at_top st t) =
    (Ok tt, at_top (if (cp <? 0) || (len t <=? cp) then st else stack_paid st (len (kept cp t))) (kept cp t)).
Proof.
  intros Hcp Hg. unfold drop_after_charged. mrun. rewrite len_at_top. unfold kept in *.
  destruct (Z.leb_spec 0 cp), (Z.ltb_spec cp 0), (Z.ltb_spec cp (len t)), (Z.leb_spec (len t) cp); cbn [andb orb]; try lia; try done.
  - erewrite bind_on_stack by (rewrite DropAfter_tf; destruct (Z.leb_spec 0 cp), (Z.leb_spec cp (len t)); try lia; reflexivity).
    mrun. rewrite at_top_stack. now apply ConsumeStackGas_ok.
  - rewrite take_ge; [done|]. unfold len in *. lia.
Qed.

Lemma applyJumpStack_run d pass cp skip st t :
  cp <= len t -> stack_gas st (len (kept cp t ++ cap d)) ->
  applyJumpStack (mkPlan (Some d) pass cp skip) (at_top st t) = (Ok tt, at_top (jump_paid st d cp t) (kept cp t ++ cap d)).
Proof.
  intros Hcp Hg. unfold applyJumpStack, jump_paid, unchanged. cbn [p_data]. pose proof (capturedStack_spec d pass cp skip) as Hc.
  destruct (capturedStack _) as [s |].
  - destruct Hc as [-> Hne]. mrun. rewrite len_at_top. cbn [p_cp]. cbv zeta.
    pose proof (len_nonneg t).
    rewrite move_from_run by (destruct (Z.ltb_spec cp 0); lia).
    replace (take (Z.to_nat (if cp <? 0 then len t else cp)) t) with (kept cp t).
    2: { unfold kept. destruct (Z.ltb_spec cp 0); [|done]. rewrite take_ge; [done|]. unfold len. lia. }
    rewrite ConsumeStackGas_run by done. unfold modify.
    destruct (Z.eqb_spec (len (cap d)) 0) as [E |]; cbn [andb].
    + destruct (cap d); [done|]. rewrite len_cons in E. pose proof (len_nonneg l). lia.
    + f_equal. apply (at_top_at_top (stack_paid st _)).
  - rewrite Hc, !app_nil_r in *. change (len ([] : list value) =? 0) with true. cbn [p_cp andb]. now apply drop_after_run.
Qed.

(** ** Entering an ordinary continuation *)

Definition enter (st : State) (d : cdata) (code : Slice) : State :=
  set_CP (set_code (set_reg st (AdjustWith (st_Reg st) (d_Save d))) code) (d_CP d).
(** The codepage of [d] can be switched to. *)
Definition cp_ok (st : State) (d : cdata) : Prop := d_CP d = st_CP st \/ d_CP d = 0.

Lemma enter_at_top st t d code : enter (at_top st t) d code = at_top (enter st d code) t.
Proof. now destruct st. Qed.

Lemma JumpTo_ordinary st d code : cp_ok st d -> JumpTo (COrdinary d code) st = (Ok tt, enter st d code).
Proof.
  intros Hcp. unfold JumpTo. cbn [cont_depth jump_loop].
  assert (E : cont_Jump (COrdinary d code) st = (Ok CNil, enter st d code)).
  { cbn [cont_Jump]. unfold forceContinuationCodepage, adoptCurrentCode. mrun. unfold cp_ok in Hcp. destruct st. cbn in *.
    destruct (Z.eqb_spec (d_CP d) st_CP) as [<- |]; [done|]. destruct Hcp as [| ->]; [done|]. done. }
  rewrite (bind_Ok _ _ _ CNil (enter st d code)); [done|]. unfold jump_iter, charge_nested. rewrite E. mrun.
  now rewrite andb_false_r.
Qed.

(** The elements a transfer with [pass] arguments (negative: no limit) keeps. *)
Definition taken (pass : Z) (d : cdata) : Z := if (0 <=? pass) && (d_NumArgs d <? 0) then pass else d_NumArgs d.
(** The arguments the transfer needs are there. *)
Definition args_ok (n : Z) (pass : Z) (d : cdata) : Prop := pass <= n /\ d_NumArgs d <= n /\ (0 <= pass -> d_NumArgs d <= pass).

Lemma plan_ok n pass d :
  args_ok n pass d ->
  planContinuationStack n (Some d) pass =
    Ok (mkPlan (Some d) pass (taken pass d) (if (0 <=? pass) && (0 <=? d_NumArgs d) then pass - d_NumArgs d else 0)).
Proof.
  intros (H1 & H2 & H3). unfold planContinuationStack, taken. destruct (Z.ltb_spec n pass); [lia|]. destruct (Z.ltb_spec n (d_NumArgs d)); [lia|].
  cbn [orb]. destruct (Z.ltb_spec pass (d_NumArgs d)), (Z.leb_spec 0 pass); cbn [andb]; try lia; done.
Qed.

Lemma taken_le n pass d : args_ok n pass d -> taken pass d <= n.
Proof. intros (H1 & H2 & H3). unfold taken. destruct (_ && _); lia. Qed.

Lemma jump_paid_CP st d cp t : st_CP (jump_paid st d cp t) = st_CP st.
Proof. unfold jump_paid, stack_paid, charged. destruct (unchanged _ _ _); now destruct st. Qed.

Lemma JumpArgs_ordinary st t d code pass :
  args_ok (len t) pass d -> cp_ok st d -> stack_gas st (len (kept (taken pass d) t ++ cap d)) ->
  JumpArgs (COrdinary d code) pass (at_top st t) =
    (Ok tt, at_top (enter (jump_paid st d (taken pass d) t) d code) (kept (taken pass d) t ++ cap d)).
Proof.
  intros Ha Hcp Hg. unfold JumpArgs, adjustJumpCont. cbn [control_data GetControlData]. mrun. rewrite len_at_top, plan_ok by done. mrun.
  cbn [p_data]. erewrite bind_Ok; [|unfold on_fail; now rewrite applyJumpStack_run by (done || now apply taken_le)].
  mrun. rewrite JumpTo_ordinary, enter_at_top; [done|]. unfold cp_ok in *. destruct Hcp as [Hcp |]; [left|now right].
  rewrite Hcp. rewrite <-(jump_paid_CP st d (taken pass d) t). now destruct (jump_paid _ _ _ _).
Qed.

Lemma Jump_ordinary st t d code :
  d_NumArgs d <= len t -> cp_ok st d -> stack_gas st (len (kept (d_NumArgs d) t ++ cap d)) ->
  Jump (COrdinary d code) (at_top st t) =
    (Ok tt, at_top (enter (jump_paid st d (d_NumArgs d) t) d code) (kept (d_NumArgs d) t ++ cap d)).
Proof.
  intros Hn Hcp Hg. unfold Jump. cbn [control_data GetControlData]. mrun. destruct (complex (Some d)) eqn:Hc.
  - apply (JumpArgs_ordinary st t d code (-1)); [split; [pose proof (len_nonneg t); lia|split; [done|lia]]|done|done].
  - unfold complex in Hc. apply orb_false_iff in Hc as [Hs Hneg]. unfold kept, jump_paid, unchanged, cap.
    destruct (d_Stack d); [done|]. destruct (Z.ltb_spec (d_NumArgs d) 0); [|lia]. rewrite !app_nil_r.
    change (len ([] : list value) =? 0) with true. cbn [andb orb]. rewrite JumpTo_ordinary, ?enter_at_top; [done|].
    unfold cp_ok in *. now destruct st.
Qed.

(** ** Properties *)

(** C21: A chain of jumps always ends: the loop of [JumpTo], run with the nesting depth
    of its continuation as fuel, is the loop of the source (one iteration, then the
    loop on the continuation it returned), and each iteration that goes on returns a
    continuation of smaller depth, so the fuel never runs out. *)
Theorem jump_chain_terminates c iter st :
  c <> CNil ->
  jump_loop (cont_depth c) iter c st = (c' ← jump_iter iter c; jump_loop (cont_depth c') (iter + 1) c') st /\
  (forall c' st', jump_iter iter c st = (Ok c', st') -> (cont_depth c' < cont_depth c)%nat).
Proof.
  intros Hc. split; [|intros c' st'; apply jump_iter_depth].
  assert (exists d, cont_depth c = S d) as [d Hd] by (destruct c; try done; cbn; eauto).
  rewrite Hd. replace (jump_loop (S d) iter c st) with ((c' ← jump_iter iter c; jump_loop d (iter + 1) c') st) by now destruct c.
  unfold mbind, M_bind. destruct (jump_iter iter c st) as [[c' | e |] st'] eqn:E; try done. apply jump_iter_depth in E.
  apply jump_loop_fuel. lia.
Qed.

Example jump_chain_terminates_witness :
  let c := CPushInt 5 (CPushInt 6 (CQuit 0)) in
  jump_loop (cont_depth c) 0 c sample_state = (c' ← jump_iter 0 c; jump_loop (cont_depth c') 1 c') sample_state /\
  JumpTo c sample_state = (Err (HandledErr 0), at_top sample_state [VInt 6; VInt 5]).
Proof.
  cbv zeta. split; [|reflexivity].
  exact (proj1 (jump_chain_terminates (CPushInt 5 (CPushInt 6 (CQuit 0))) 0 sample_state ltac:(discriminate))).
Defined.

(** Arguments of a call, and those dropped. *)
Lemma call_plan pass d n :
  0 <= pass -> args_ok n pass d ->
  let k := taken pass d in
  0 <= k /\ (if (0 <=? pass) && (0 <=? d_NumArgs d) then pass - d_NumArgs d else 0) = pass - k /\ k <= pass.
Proof. intros Hp (H1 & H2 & H3). cbv zeta. unfold taken. destruct (Z.leb_spec 0 pass), (Z.ltb_spec (d_NumArgs d) 0), (Z.leb_spec 0 (d_NumArgs d)); cbn [andb]; lia. Qed.

Lemma stack_paid_proj st n :
  st_Reg (stack_paid st n) = st_Reg st /\ st_CP (stack_paid st n) = st_CP st /\ st_CurrentCode (stack_paid st n) = st_CurrentCode st.
Proof. now destruct st. Qed.

Lemma return_cont_at_top st t c0 rest n : return_cont (at_top st t) c0 rest n = return_cont st c0 rest n.
Proof. now destruct st. Qed.

Lemma CallArgs_ordinary st t d code pass ret :
  0 <= pass -> args_ok (len t) pass d -> cp_ok st d -> no_c0 (Some d) = true ->
  let k := taken pass d in
  stack_gas st (k + len (cap d)) ->
  let rc := return_cont st (r_C (st_Reg st) 0) (Some (tf (drop (Z.to_nat pass) t))) ret in
  CallArgs (COrdinary d code) pass ret (at_top st t) =
    (Ok tt, at_top (enter (set_reg (stack_paid st (k + len (cap d))) (set_C (st_Reg st) 0 rc)) d code) (take (Z.to_nat k) t ++ cap d)).
Proof.
  intros Hp Ha Hcp Hc0 k Hg rc. unfold CallArgs. cbn [control_data GetControlData]. mrun. rewrite Hc0. cbn [negb]. mrun.
  rewrite len_at_top, plan_ok by done. mrun. destruct (call_plan pass d (len t) Hp Ha) as (Hk0 & -> & Hk). fold k in Hk0, Hk |- *.
  erewrite bind_Ok; [|unfold on_fail; rewrite buildCallStack_run; [reflexivity|lia..|destruct Ha; lia|done]].
  cbv beta iota. mrun. unfold set_c. mrun. replace (k + (pass - k)) with pass by lia.
  rewrite return_cont_at_top. set (paid := stack_paid st (k + len (cap d))).
  replace (return_cont paid _ _ _) with rc by (subst rc paid; now destruct st).
  assert (E : forall s u, set_reg (set_stack (at_top paid s) (tf u)) (set_C (st_Reg (set_stack (at_top paid s) (tf u))) 0 rc) =
              at_top (set_reg paid (set_C (st_Reg st) 0 rc)) u) by (intros; subst paid; now destruct st).
  rewrite E, JumpTo_ordinary, enter_at_top; [done|]. unfold cp_ok in *. subst paid. now destruct st.
Qed.

(** C20: A call with [pass] arguments enters the callee with exactly the arguments it
    asks for over its own captured stack, and keeps the rest of the caller's stack
    and code and the old [c0] in the new [c0]; a return from any later state that
    still has this [c0] puts back the caller's code, codepage and [c0], with the
    results ([ret] of them, all when negative) over the caller's stack. *)
Theorem call_return_roundtrip st t d code pass ret :
  0 <= pass -> args_ok (len t) pass d -> cp_ok st d -> no_c0 (Some d) = true ->
  stack_gas st (taken pass d + len (cap d)) ->
  let rest := drop (Z.to_nat pass) t in
  let rc := return_cont st (r_C (st_Reg st) 0) (Some (tf rest)) ret in
  let rd := mkData (set_C emptyReg 0 (r_C (st_Reg st) 0)) (Some (tf rest)) ret (st_CP st) in
  (exists st', CallArgs (COrdinary d code) pass ret (at_top st t) = (Ok tt, at_top st' (take (Z.to_nat (taken pass d)) t ++ cap d)) /\
     r_C (st_Reg st') 0 = rc /\ st_CurrentCode st' = code /\ st_CP st' = d_CP d) /\
  (forall st2 u, r_C (st_Reg st2) 0 = rc -> ret <= len u -> cp_ok st2 rd -> stack_gas st2 (len (kept ret u ++ map shareStackValue rest)) ->
     exists st3, Return None (at_top st2 u) = (Ok tt, at_top st3 (kept ret u ++ map shareStackValue rest)) /\
       st_CurrentCode st3 = st_CurrentCode st /\ st_CP st3 = st_CP st /\
       (IsNullContinuation (r_C (st_Reg st) 0) = false -> r_C (st_Reg st3) 0 = r_C (st_Reg st) 0)).
Proof.
  intros Hp Ha Hcp Hc0 Hg rest rc rd. split.
  - eexists. split; [now apply CallArgs_ordinary|]. cbn [no_c0] in Hc0. fold rest rc. clearbody rc.
    destruct d as [[c0 c1 c2 c3 d0 d1 c7] ? ? ?], st as [? ? ? [] ?]. cbn in *. unfold adjust_C. now rewrite Hc0.
  - intros st2 u Hrc Hret Hcp2 Hg2. assert (Hcap : cap rd = map shareStackValue rest).
    { unfold cap, Stack_Copy, tf. cbn [d_Stack rd]. change (reverse (shareStackValue <$> reverse rest) = shareStackValue <$> rest).
      now rewrite fmap_reverse, reverse_involutive. }
    unfold Return, returnTo. mrun. replace (r_C (st_Reg (at_top st2 u)) 0) with rc by (rewrite <-Hrc; now destruct st2).
    unfold set_c. mrun.
    replace (set_reg (at_top st2 u) _) with (at_top (set_reg st2 (set_C (st_Reg st2) 0 (CQuit 0))) u) by now destruct st2.
    unfold rc, return_cont. fold rd. rewrite Jump_ordinary; [|done|now destruct st2|rewrite Hcap; now destruct st2].
    rewrite Hcap. eexists. split; [reflexivity|]. cbn [d_NumArgs rd]. unfold jump_paid. destruct (unchanged rd ret u).
    all: destruct st, st2 as [? ? ? [] ?]; cbn; unfold adjust_C; (split; [done|split; [done|now intros ->]]).
Qed.

(** A callee that takes one argument over one captured value. *)
Definition sample_callee : cdata := mkData emptyReg (Some [VInt 7]) 1 0.

Example call_return_roundtrip_witness :
  let rc := return_cont sample_state CNil (Some [VInt 3]) 1 in
  (exists st', CallArgs (COrdinary sample_callee empty_code) 2 1 (at_top sample_state [VInt 1; VInt 2; VInt 3]) = (Ok tt, at_top st' [VInt 1; VInt 7]) /\
     r_C (st_Reg st') 0 = rc) /\
  (exists st3, Return None (at_top (set_reg sample_state (set_C emptyReg 0 rc)) [VInt 9; VInt 8]) = (Ok tt, at_top st3 [VInt 9; VInt 3])).
Proof.
  cbv zeta. destruct (call_return_roundtrip sample_state [VInt 1; VInt 2; VInt 3] sample_callee empty_code 2 1) as [(st' & H & Hrc & _) Hret].
  - lia.
  - vm_compute. repeat split; discriminate.
  - now left.
  - reflexivity.
  - vm_compute. split; [discriminate|reflexivity].
  - split; [exists st'; split; [exact H|exact Hrc]|].
    destruct (Hret (set_reg sample_state (set_C emptyReg 0 (return_cont sample_state CNil (Some [VInt 3]) 1))) [VInt 9; VInt 8]) as (st3 & H3 & _).
    + reflexivity.
    + vm_compute. discriminate.
    + now left.
    + vm_compute. split; [discriminate|reflexivity].
    + exists st3. exact H3.
Defined.

(** ** The current continuation *)

(** What is passed on and what is captured by [ExtractCurrentContinuation], top first. *)
Definition cc_parts (stackCopy : Z) (t : list value) : list value * option (list value) :=
  if (stackCopy <? 0) || (stackCopy =? len t) then (t, None)
  else (take (Z.to_nat stackCopy) t, Some (drop (Z.to_nat stackCopy) t)).
Definition cc_paid (st : State) (stackCopy : Z) (t : list value) : State :=
  if (stackCopy <? 0) || (stackCopy =? len t) || (stackCopy =? 0) then st else stack_paid st stackCopy.

Lemma Extract_run saveCR stackCopy ccArgs st t :
  stackCopy <= len t -> stack_gas st stackCopy ->
  let '(passed, captured) := cc_parts stackCopy t in
  let '(save, reg) := save_cr saveCR emptyReg (st_Reg st) in
  ExtractCurrentContinuation saveCR stackCopy ccArgs (at_top st t) =
    (Ok (COrdinary (mkData save (tf <$> captured) ccArgs (st_CP st)) (st_CurrentCode st)),
     at_top (set_reg (cc_paid st stackCopy t) reg) passed).
Proof.
  intros Hn Hg. unfold ExtractCurrentContinuation, cc_parts, cc_paid. mrun. rewrite len_at_top.
  destruct (save_cr saveCR emptyReg (st_Reg st)) as [save reg] eqn:E.
  destruct ((stackCopy <? 0) || (stackCopy =? len t)) eqn:E0; cbn [orb].
  - mrun. rewrite at_top_stack. replace (st_Reg (at_top st t)) with (st_Reg st) by now destruct st. rewrite E. now destruct st.
  - apply orb_false_iff in E0 as [E1 E2]. destruct (Z.ltb_spec 0 stackCopy), (Z.eqb_spec stackCopy 0); try lia.
    + mrun. erewrite bind_on_stack by (rewrite SplitTop_tf; destruct (Z.leb_spec 0 stackCopy), (Z.leb_spec 0 0), (Z.leb_spec (stackCopy + 0) (len t)); try lia; reflexivity).
      assert (Hl : len (take (Z.to_nat stackCopy) t) = stackCopy) by (unfold len in *; rewrite length_take; lia).
      mrun. rewrite ConsumeStackGas_run by now rewrite Hl. mrun. rewrite Hl, at_top_stack, Z.add_0_r.
      replace (st_Reg (at_top (stack_paid st stackCopy) _)) with (st_Reg st) by now destruct st. rewrite E. now destruct st.
    + subst stackCopy. mrun. rewrite at_top_stack. replace (st_Reg (at_top st t)) with (st_Reg st) by now destruct st. rewrite E. now destruct st.
Qed.

(** C33: Capturing the current continuation and jumping to it later resumes it: the
    capture moves [stackCopy] values along and keeps the others, and a later jump to
    it from any state restores the code, the codepage, the captured stack under the
    [ccArgs] passed values, and each of [c0], [c1], [c2] it was asked to save (and
    that held a continuation). *)
Theorem current_continuation_resumes saveCR stackCopy ccArgs st t :
  0 <= saveCR < 8 -> stackCopy <= len t -> stack_gas st stackCopy ->
  exists cc st', ExtractCurrentContinuation saveCR stackCopy ccArgs (at_top st t) = (Ok cc, at_top st' (cc_parts stackCopy t).1) /\
  forall st2 u, let under := map shareStackValue (default [] (cc_parts stackCopy t).2) in
    ccArgs <= len u -> (st_CP st = st_CP st2 \/ st_CP st = 0) -> stack_gas st2 (len (kept ccArgs u ++ under)) ->
    exists st3, Jump cc (at_top st2 u) = (Ok tt, at_top st3 (kept ccArgs u ++ under)) /\
      st_CurrentCode st3 = st_CurrentCode st /\ st_CP st3 = st_CP st /\
      (forall i, 0 <= i <= 2 -> Z.testbit saveCR i = true -> IsNullContinuation (r_C (st_Reg st) i) = false ->
         r_C (st_Reg st3) i = r_C (st_Reg st) i).
Proof.
  intros Hs Hn Hg. pose proof (Extract_run saveCR stackCopy ccArgs st t Hn Hg) as H. destruct (cc_parts stackCopy t) as [passed captured].
  destruct (save_cr saveCR emptyReg (st_Reg st)) as [save reg] eqn:E. eexists _, _. split; [exact H|]. clear H.
  intros st2 u under Hu Hcp Hg2. cbn [snd fst] in *. set (d := mkData save (tf <$> captured) ccArgs (st_CP st)).
  assert (Hcap : cap d = under).
  { unfold cap, under. cbn [d d_Stack]. destruct captured as [l |]; [|done]. cbn. unfold Stack_Copy, tf.
    change (reverse (shareStackValue <$> reverse l) = shareStackValue <$> l). now rewrite fmap_reverse, reverse_involutive. }
  rewrite Jump_ordinary; [|done|done|now rewrite Hcap]. rewrite Hcap. eexists. split; [reflexivity|].
  cbn [d_NumArgs d]. assert (Hreg : st_Reg (jump_paid st2 d ccArgs u) = st_Reg st2) by (unfold jump_paid; destruct (unchanged _ _ _); now destruct st2).
  split; [now destruct (jump_paid _ _ _ _)|]. split; [now destruct (jump_paid _ _ _ _)|]. intros i Hi Hbit Hnull.
  replace (st_Reg (enter _ _ _)) with (AdjustWith (st_Reg st2) save) by (rewrite <-Hreg; now destruct (jump_paid _ _ _ _)).
  unfold save_cr in E. destruct (st_Reg st) as [c0 c1 c2 c3 d0 d1 c7], (st_Reg st2) as [c0' c1' c2' c3' d0' d1' c7'].
  assert (i = 0 \/ i = 1 \/ i = 2) as [-> | [-> | ->]] by lia; rewrite Hbit in E.
  all: destruct (Z.testbit saveCR 0), (Z.testbit saveCR 1), (Z.testbit saveCR 2); try discriminate; injection E as <- <-; cbn in *; unfold adjust_C; now rewrite Hnull.
Qed.

Example current_continuation_resumes_witness :
  exists cc st', ExtractCurrentContinuation 1 1 (-1) (at_top (set_reg sample_state (set_C emptyReg 0 (CQuit 5))) [VInt 1; VInt 2]) = (Ok cc, at_top st' [VInt 1]) /\
    exists st3, Jump cc (at_top sample_state [VInt 9]) = (Ok tt, at_top st3 [VInt 9; VInt 2]) /\ r_C (st_Reg st3) 0 = CQuit 5.
Proof.
  destruct (current_continuation_resumes 1 1 (-1) (set_reg sample_state (set_C emptyReg 0 (CQuit 5))) [VInt 1; VInt 2]) as (cc & st' & H & Hj).
  - lia.
  - vm_compute. discriminate.
  - vm_compute. split; [discriminate|reflexivity].
  - exists cc, st'. split; [exact H|]. destruct (Hj sample_state [VInt 9]) as (st3 & H3 & _ & _ & Hc).
    + vm_compute. discriminate.
    + now left.
    + vm_compute. split; [discriminate|reflexivity].
    + exists st3. split; [exact H3|]. apply (Hc 0); [lia|reflexivity|reflexivity].
Defined.

(** ** Failures *)

Lemma plan_missing n pass d : ~ args_ok n pass d -> planContinuationStack n (Some d) pass = Err (VMErr CodeStackUnderflow).
Proof.
  intros Hbad. unfold planContinuationStack, args_ok in *. destruct (Z.ltb_spec n pass); [done|]. destruct (Z.ltb_spec n (d_NumArgs d)); [done|].
  cbn [orb]. destruct (Z.ltb_spec pass (d_NumArgs d)), (Z.leb_spec 0 pass); cbn [andb]; try done; destruct Hbad; lia.
Qed.

(** C35: A jump or a call whose arguments are missing (fewer values on the stack than
    are passed or than the continuation takes, or fewer passed than it takes) reports
    a stack underflow and leaves the whole state as it was. *)
Theorem transfer_underflow_atomic st t d code pass ret :
  ~ args_ok (len t) pass d ->
  JumpArgs (COrdinary d code) pass (at_top st t) = (Err (VMErr CodeStackUnderflow), at_top st t) /\
  CallArgs (COrdinary d code) pass ret (at_top st t) = (Err (VMErr CodeStackUnderflow), at_top st t) /\
  (pass = -1 -> Jump (COrdinary d code) (at_top st t) = (Err (VMErr CodeStackUnderflow), at_top st t)).
Proof.
  intros Hbad.
  assert (Hj : JumpArgs (COrdinary d code) pass (at_top st t) = (Err (VMErr CodeStackUnderflow), at_top st t)).
  { unfold JumpArgs, adjustJumpCont. cbn [control_data GetControlData]. mrun. rewrite len_at_top. now rewrite plan_missing. }
  split; [done|]. split.
  - unfold CallArgs. cbn [control_data GetControlData]. mrun. destruct (no_c0 (Some d)); cbn [negb]; [|done].
    mrun. rewrite len_at_top. now rewrite plan_missing.
  - intros ->. unfold Jump. cbn [control_data GetControlData]. mrun. replace (complex (Some d)) with true; [done|].
    unfold complex, args_ok in *. pose proof (len_nonneg t). destruct (Z.leb_spec 0 (d_NumArgs d)); [now rewrite orb_true_r|]. destruct Hbad. lia.
Qed.

Example transfer_underflow_atomic_witness :
  CallArgs (COrdinary sample_callee empty_code) 3 (-1) (at_top sample_state [VInt 1; VInt 2]) =
    (Err (VMErr CodeStackUnderflow), at_top sample_state [VInt 1; VInt 2]).
Proof.
  apply (transfer_underflow_atomic sample_state [VInt 1; VInt 2] sample_callee empty_code 3 (-1)).
  unfold args_ok. change (len [VInt 1; VInt 2]) with 2. lia.
Defined.

(** The state in which a handler starts: the code is gone and the exception paid for. *)
Definition thrown (st : State) : State := set_code (charged st ExceptionGasPrice) empty_code.

Lemma ThrowException_run code arg st t :
  fitsTVMInt code = true -> int64 (g_Remaining (st_Gas st) - ExceptionGasPrice) ->
  ThrowException code arg (at_top st t) =
    (if g_Remaining (st_Gas st) <? ExceptionGasPrice then (Err (VMErr CodeOutOfGas), at_top (thrown st) [VInt code; shareStackValue (default (VInt 0) arg)])
     else Jump (r_C (st_Reg st) 2) (at_top (thrown st) [VInt code; shareStackValue (default (VInt 0) arg)])).
Proof.
  intros Hc Hi. unfold ThrowException. rewrite (bind_on_stack _ _ _ _ tt []) by done.
  assert (Harg : forall B (k : unit -> M State B),
            ((match arg with Some v => on_stack (PushAny v) | None => on_stack (PushSmallInt 0) end) ≫= k) (at_top st [])
            = k tt (at_top st [shareStackValue (default (VInt 0) arg)])).
  { intros B k. destruct arg as [v |]; apply bind_on_stack; [apply PushAny_tf|now apply PushSmallInt_tf]. }
  rewrite Harg. erewrite bind_on_stack by (rewrite PushInt_tf, Hc; reflexivity). mrun.
  unfold consumeGasChecked, on_gas, mbind, M_bind.
  replace (st_Gas (set_code _ _)) with (st_Gas st) by now destruct st.
  rewrite Consume_run by done. unfold thrown, charged. rewrite s64_id by done.
  destruct (g_Remaining (st_Gas st) <? ExceptionGasPrice); [now destruct st|]. destruct st; reflexivity.
Qed.

(** C34: A thrown exception clears the stack, leaves the argument (zero when there is
    none) and the code on it and charges the exception price; with the default
    handler the machine quits with that code, and with an ordinary continuation that
    takes any number of values as handler, that continuation runs on the two values. *)
Theorem exception_reaches_handler code arg st t :
  0 <= code <= 0xffff -> ExceptionGasPrice <= g_Remaining (st_Gas st) < 2 ^ 63 ->
  (r_C (st_Reg st) 2 = CExcQuit ->
     ThrowException code arg (at_top st t) = (Err (HandledErr code), at_top (thrown st) [shareStackValue (default (VInt 0) arg)])) /\
  (forall d h, r_C (st_Reg st) 2 = COrdinary d h -> d_NumArgs d < 0 -> d_Stack d = None -> cp_ok st d ->
     ThrowException code arg (at_top st t) = (Ok tt, at_top (enter (thrown st) d h) [VInt code; shareStackValue (default (VInt 0) arg)])).
Proof.
  intros Hc Hg. assert (Hfit : fitsTVMInt code = true) by (unfold fitsTVMInt, minTVMInt, maxTVMInt; lia).
  rewrite ThrowException_run by (done || unfold int64, ExceptionGasPrice in *; lia).
  destruct (Z.ltb_spec (g_Remaining (st_Gas st)) ExceptionGasPrice); [lia|]. split.
  - intros ->. unfold Jump, JumpTo. cbn [control_data GetControlData]. mrun. cbn [complex cont_depth jump_loop]. apply bind_Err. unfold jump_iter. cbn [cont_Jump].
    erewrite on_stack_run by (rewrite PopIntRange_tf by lia; destruct (Z.leb_spec 0 code), (Z.leb_spec code 0xffff); try lia; reflexivity).
    cbn [andb IsHandledException handledError]. unfold charge_nested. mrun. now rewrite andb_false_r.
  - intros d h -> Hn Hs Hcp. unfold Jump. cbn [control_data GetControlData]. mrun. unfold complex. rewrite Hs.
    destruct (Z.leb_spec 0 (d_NumArgs d)); [lia|]. cbn [orb]. rewrite JumpTo_ordinary, enter_at_top; [done|].
    unfold cp_ok in *. now destruct st.
Qed.

Example exception_reaches_handler_witness :
  let st := set_reg sample_state (set_C emptyReg 2 CExcQuit) in
  ThrowException 42 None (at_top st [VInt 1; VInt 2]) = (Err (HandledErr 42), at_top (thrown st) [VInt 0]).
Proof.
  cbv zeta. apply (exception_reaches_handler 42 None (set_reg sample_state (set_C emptyReg 2 CExcQuit)) [VInt 1; VInt 2]).
  - lia.
  - vm_compute. split; [discriminate|reflexivity].
  - reflexivity.
Defined.
