(* ===== verification/VmTheorems.v ===== *)
(** * Globals and the gas of cell loads *)

From stdpp Require Import gmap.
From S2P Require Import Prelude Bytes CellModel Builder Slice Gas Value Stack StackSpec VmState StackOps StackOpsSpec.
#[local] Set Warnings "-clear-no-such-hyp".
#[local] Open Scope Z_scope.

(** ** Globals *)

Definition globals (st : State) : option (list value) := r_C7 (st_Reg st).

(** The length [c7] has after [SetGlobal] writes to index [i]. *)
Definition grown (st : State) (i : Z) : Z := Z.max (Tuple.Len (globals st)) (i + 1).

Lemma ConsumeGas_paid st amount :
  0 <= amount <= g_Remaining (st_Gas st) -> g_Remaining (st_Gas st) < 2 ^ 63 -> ConsumeGas amount st = (Ok tt, charged st amount).
Proof.
  intros Ha Hr. destruct (at_top_surj st) as [t Et]. rewrite Et at 1. rewrite ConsumeGas_run by (unfold int64; lia).
  f_equal. destruct st. unfold at_top in Et. cbn in Et. now injection Et as ->.
Qed.

Lemma Resize_len n t : 0 <= n -> Tuple.Len (Tuple.Resize n t) = n.
Proof.
  intros Hn. unfold Tuple.Resize. destruct (Z.ltb_spec n 0); [lia|]. destruct (Z.eqb_spec (Tuple.Len t) n); [done|].
  set (l := default [] t). assert (Hl : Tuple.Len t = len l) by (now destruct t). rewrite Hl in *.
  cbn [Tuple.Len]. unfold len in *. rewrite length_app, length_replicate, length_take. lia.
Qed.

(** Lookup in a tuple read as an infinite list of nulls. *)
Definition read (t : option (list value)) (i : Z) : value := default VNull (default [] t !! Z.to_nat i).

Lemma GetGlobal_read i st : 0 <= i < 255 -> GetGlobal i st = Ok (read (globals st) i).
Proof.
  intros Hi. unfold GetGlobal, globals, read. destruct (Z.ltb_spec i 0), (Z.leb_spec 255 i); try lia. cbn [orb].
  destruct (r_C7 (st_Reg st)) as [l |]; cbn [Tuple.Len].
  - change (default [] (Some l)) with l. destruct (Z.leb_spec (len l) i).
    + rewrite lookup_ge_None_2 by (unfold len in *; lia). done.
    + unfold Tuple.Index. destruct (Z.ltb_spec i 0), (Z.leb_spec (len l) i); try lia. cbn [orb].
      destruct (lookup_lt_is_Some_2 l (Z.to_nat i)) as [v ->]; [unfold len in *; lia|done].
  - destruct (Z.leb_spec 0 i); [done|lia].
Qed.

Lemma Resize_read n t i : Tuple.Len t <= n -> read (Tuple.Resize n t) i = read t i.
Proof.
  intros Hn. unfold Tuple.Resize. assert (0 <= Tuple.Len t) by (destruct t; cbn; [apply len_nonneg|lia]).
  destruct (Z.ltb_spec n 0); [lia|]. destruct (Z.eqb_spec (Tuple.Len t) n); [done|]. unfold read.
  set (l := default [] t). assert (Hl : Tuple.Len t = len l) by (now destruct t). rewrite Hl in *.
  rewrite take_ge by (unfold len in *; lia). match goal with |- context [default [] (Some ?x)] => change (default [] (Some x)) with x end.
  destruct (decide (Z.to_nat i < length l)%nat); [now rewrite lookup_app_l|].
  rewrite lookup_app_r by lia. rewrite (lookup_ge_None_2 l) by lia.
  destruct (replicate _ _ !! _) eqn:E; [|done]. now apply lookup_replicate in E as [-> _].
Qed.

Lemma charged_reg st n : st_Reg (charged st n) = st_Reg st.
Proof. now destruct st. Qed.

(** The tuple [SetGlobal] writes into. *)
Definition room (st : State) (i : Z) : option (list value) :=
  if Tuple.Len (globals st) <=? i then Tuple.Resize (i + 1) (globals st) else globals st.
Definition null (v : value) : bool := match v with VNull => true | _ => false end.

Lemma room_len st i : 0 <= i -> Tuple.Len (room st i) = grown st i.
Proof. intros Hi. unfold room, grown. destruct (Z.leb_spec (Tuple.Len (globals st)) i); [rewrite Resize_len by lia|]; lia. Qed.

Lemma room_read st i j : read (room st i) j = read (globals st) j.
Proof. unfold room. destruct (Z.leb_spec (Tuple.Len (globals st)) i); [apply Resize_read; lia|done]. Qed.

Lemma SetGlobal_run i v st l :
  0 <= i < 255 -> room st i = Some l -> (Tuple.Len (globals st) <=? i) && null v = false -> grown st i <= g_Remaining (st_Gas st) < 2 ^ 63 ->
  SetGlobal i v st = (Ok tt, set_reg (charged st (grown st i)) (set_C7 (st_Reg st) (Some (<[Z.to_nat i := v]> l)))).
Proof.
  intros Hi Hl Hv Hg. pose proof (room_len st i ltac:(lia)) as Hlen. rewrite Hl in Hlen. cbn [Tuple.Len] in Hlen.
  assert (Hset : forall st' : State, (let '(r, tup') := Tuple.Set_ i v (Some l) in _ ← r; Ok tup') = Ok (Some (<[Z.to_nat i := v]> l))).
  { intros _. unfold Tuple.Set_. mrun. destruct (Z.ltb_spec i 0), (Z.leb_spec (len l) i); try (unfold grown in Hlen; lia). done. }
  assert (Hgas : ConsumeTupleGasLen (Tuple.Len (room st i)) st = (Ok tt, charged st (grown st i))).
  { unfold ConsumeTupleGasLen. mrun. rewrite Hl. cbn [Tuple.Len]. rewrite Hlen. pose proof (len_nonneg l).
    destruct (Z.ltb_spec (grown st i) 0); [lia|]. unfold TupleEntryGasPrice. rewrite Z.mul_1_r. apply ConsumeGas_paid; lia. }
  assert (Hbody : forall tup, tup = room st i ->
    ((fun st => match ConsumeTupleGasLen (Tuple.Len tup) st with
                | (Err e, st') => let '(_, st'') := SetC7 (Some []) st' in (Err e, st'')
                | r => r
                end) ;; tup ← lift (let '(r, tup') := Tuple.Set_ i v tup in _ ← r; Ok tup'); SetC7 tup) st
    = (Ok tt, set_reg (charged st (grown st i)) (set_C7 (st_Reg st) (Some (<[Z.to_nat i := v]> l))))).
  { intros tup ->. unfold mbind at 1, M_bind at 1. rewrite Hgas, Hl, Hset by done. mrun. unfold SetC7, modify. now rewrite charged_reg. }
  unfold SetGlobal. mrun. destruct (Z.ltb_spec i 0), (Z.leb_spec 255 i); try lia. cbn [orb]. cbv zeta.
  change (r_C7 (st_Reg st)) with (globals st). unfold room in Hbody. destruct (Tuple.Len (globals st) <=? i), v; try discriminate; now apply Hbody.
Qed.

(** Writing a global and reading it back gives the value written and leaves every
    other global as it was, whatever the previous length of [c7] (indices past its end
    read as null); the write is charged by the new length of [c7], and writing null
    past the end is free and changes nothing. *)
Theorem global_write_read i v st :
  0 <= i < 255 -> 0 <= grown st i <= g_Remaining (st_Gas st) -> g_Remaining (st_Gas st) < 2 ^ 63 ->
  exists st', SetGlobal i v st = (Ok tt, st') /\ GetGlobal i st' = Ok v /\
    (forall j, 0 <= j < 255 -> j <> i -> GetGlobal j st' = GetGlobal j st) /\
    g_Remaining (st_Gas st') = g_Remaining (st_Gas st) - (if (Tuple.Len (globals st) <=? i) && null v then 0 else grown st i).
Proof.
  intros Hi Hg Hr. destruct ((Tuple.Len (globals st) <=? i) && null v) eqn:Enop.
  - apply andb_true_iff in Enop as [Eg Ev]. destruct v; try discriminate. exists st. rewrite GetGlobal_read by done.
    split; [|split; [|split; [done|lia]]].
    + unfold SetGlobal. mrun. destruct (Z.ltb_spec i 0), (Z.leb_spec 255 i); try lia. cbn [orb]. unfold globals in Eg. now rewrite Eg.
    + unfold read. rewrite lookup_ge_None_2; [done|]. apply Z.leb_le in Eg. destruct (globals st); cbn in *; unfold len in *; lia.
  - destruct (room st i) as [l |] eqn:Hl.
    2: { pose proof (room_len st i ltac:(lia)) as Hlen. rewrite Hl in Hlen. unfold grown in Hlen. cbn in Hlen. lia. }
    rewrite (SetGlobal_run i v st l) by (done || lia). eexists. split; [reflexivity|]. pose proof (room_len st i ltac:(lia)) as Hlen. rewrite Hl in Hlen.
    assert (Hnew : forall j, 0 <= j < 255 -> GetGlobal j (set_reg (charged st (grown st i)) (set_C7 (st_Reg st) (Some (<[Z.to_nat i := v]> l))))
                     = Ok (read (Some (<[Z.to_nat i := v]> l)) j)).
    { intros j Hj. rewrite GetGlobal_read by done. do 2 f_equal. destruct st as [? ? ? [] ?]. done. }
    split; [|split].
    + rewrite Hnew by done. unfold read. cbn [from_option id Tuple.Len] in *. rewrite list_lookup_insert_eq; [done|]. unfold len, grown in *. lia.
    + intros j Hj Hne. rewrite Hnew, GetGlobal_read by done. rewrite <-(room_read st i), Hl. unfold read. cbn [from_option id].
      rewrite list_lookup_insert_ne by lia. done.
    + destruct st. cbn in *. rewrite s64_id; [done|]. unfold int64. lia.
Qed.

Example global_write_read_witness :
  exists st', SetGlobal 3 (VInt 5) sample_state = (Ok tt, st') /\ GetGlobal 3 st' = Ok (VInt 5) /\ g_Remaining (st_Gas st') = 996.
Proof.
  destruct (global_write_read 3 (VInt 5) sample_state) as (st' & H & Hr & _ & Hgas).
  - lia.
  - vm_compute. split; discriminate.
  - reflexivity.
  - exists st'. split; [exact H|]. split; [exact Hr|exact Hgas].
Defined.

(** ** Cell loads *)

Fixpoint load_all (l : list Cell) : M State unit :=
  match l with
  | [] => mret tt
  | c :: l => RegisterCellLoad (Some c) ;; load_all l
  end.

Definition keys (l : list Cell) : gset (list Z) := list_to_set (HashKey <$> l).

(** What a set of loaded cells stands for. *)
Definition members (s : cellLoadSet) : gset (list Z) :=
  match ls_spill s with
  | Some m => m
  | None => list_to_set (take (Z.to_nat (ls_count s)) (ls_inline s))
  end.
Definition seen (st : State) : gset (list Z) := members (st_loaded st).

(** The array keeps its length, and the map appears when it is full. *)
Record load_set_ok (s : cellLoadSet) : Prop := {
  lo_inline : len (ls_inline s) = cellLoadInlineCapacity;
  lo_count : 0 <= ls_count s <= cellLoadInlineCapacity;
}.

Lemma no_loads_ok : load_set_ok no_loads /\ members no_loads = ∅.
Proof. split; [split; vm_compute; intuition discriminate|reflexivity]. Qed.

Lemma spilled (l : list (list Z)) (m : gset (list Z)) : foldl (fun m k => {[k]} ∪ m) m l = list_to_set l ∪ m.
Proof. revert m. induction l as [|k l IH]; intros m; cbn [foldl list_to_set]; [set_solver|]. rewrite IH. set_solver. Qed.

Lemma contains_spec key s : cellLoadSet_contains key s = bool_decide (key ∈ members s).
Proof.
  unfold cellLoadSet_contains, inline_has, members. destruct (ls_spill s); [done|]. apply bool_decide_ext. by rewrite elem_of_list_to_set.
Qed.

(** Adding a key says whether it is new, before, at and after the change to the map. *)
Lemma add_spec key s :
  load_set_ok s -> exists s', cellLoadSet_add key s = (Ok (negb (cellLoadSet_contains key s)), s') /\ members s' = {[key]} ∪ members s /\ load_set_ok s'.
Proof.
  intros [Hi Hc]. unfold cellLoadSet_add, cellLoadSet_contains. mrun. destruct s as [inline [m|] count]; cbn [ls_spill ls_inline ls_count] in *.
  - case_bool_decide; mrun; (eexists; split; [reflexivity|]; split; [|done]); unfold members; cbn; set_solver.
  - unfold cellLoadInlineCapacity, len in *. unfold inline_has. cbn [ls_inline ls_count]. case_bool_decide as Hin.
    { mrun. eexists. split; [reflexivity|]. split; [|done]. unfold members. cbn [ls_spill ls_inline ls_count]. set_solver. }
    destruct (Z.ltb_spec count 8); mrun; (eexists; split; [reflexivity|]); unfold members; cbn [ls_spill ls_inline ls_count].
    + replace (u8 (count + 1)) with (count + 1) by (unfold u8; rewrite Z.mod_small; lia). split; [|split; cbn; unfold len, cellLoadInlineCapacity; rewrite ?length_insert; lia].
      replace (Z.to_nat (count + 1)) with (S (Z.to_nat count)) by lia. rewrite (take_S_r _ _ key) by (apply list_lookup_insert_eq; lia).
      rewrite take_insert_ge by lia. set_solver.
    + split; [|by split]. rewrite spilled, take_ge by lia. set_solver.
Qed.

(** Loads of [l]: a reload price each, and the difference for each cell not seen yet. *)
Definition loads_price (s : gset (list Z)) (l : list Cell) : Z :=
  CellReloadGasPrice * len l + (CellLoadGasPrice - CellReloadGasPrice) * Z.of_nat (size (keys l ∖ s)).

(** The schedule that discounts a repeated load. *)
Definition discounts (st : State) : Prop := st_GlobalVersion st <> 0 \/ h_GasSchedule (st_Historical st) <> GasSchedule2019.

Lemma loads_price_cons s c l :
  loads_price s (c :: l) =
    (if decide (HashKey c ∈ s) then CellReloadGasPrice else CellLoadGasPrice) + loads_price ({[HashKey c]} ∪ s) l.
Proof.
  unfold loads_price. rewrite len_cons. replace (keys (c :: l)) with ({[HashKey c]} ∪ keys l) by done.
  destruct (decide (HashKey c ∈ s)) as [Hin | Hout].
  - replace (({[HashKey c]} ∪ keys l) ∖ s) with (keys l ∖ ({[HashKey c]} ∪ s)) by set_solver. lia.
  - replace (({[HashKey c]} ∪ keys l) ∖ s) with ({[HashKey c]} ∪ (keys l ∖ ({[HashKey c]} ∪ s))).
    2: { apply set_eq. intros k. destruct (decide (k = HashKey c)) as [-> |]; set_solver. }
    rewrite size_union, size_singleton by set_solver. unfold CellLoadGasPrice, CellReloadGasPrice. lia.
Qed.

Lemma loads_price_nonneg s l : 0 <= loads_price s l.
Proof. unfold loads_price, CellLoadGasPrice, CellReloadGasPrice. pose proof (len_nonneg l). lia. Qed.

Lemma charged_proj st n :
  st_GlobalVersion (charged st n) = st_GlobalVersion st /\ st_Historical (charged st n) = st_Historical st /\ st_loaded (charged st n) = st_loaded st.
Proof. now destruct st. Qed.

Lemma loaded_add_spec key st :
  load_set_ok (st_loaded st) ->
  exists l, loaded_add key st = (Ok (negb (bool_decide (key ∈ seen st))), set_loaded st l) /\ members l = {[key]} ∪ seen st /\ load_set_ok l.
Proof.
  intros Hl. destruct (add_spec key _ Hl) as (l & E & Hm & Hok). exists l. unfold loaded_add. rewrite E, contains_spec. done.
Qed.

Lemma RegisterCellLoad_run c st :
  load_set_ok (st_loaded st) -> discounts st -> CellLoadGasPrice <= g_Remaining (st_Gas st) < 2 ^ 63 ->
  exists st', RegisterCellLoad (Some c) st = (Ok tt, st') /\ seen st' = {[HashKey c]} ∪ seen st /\ load_set_ok (st_loaded st') /\ discounts st' /\
    g_Remaining (st_Gas st') = g_Remaining (st_Gas st) - (if decide (HashKey c ∈ seen st) then CellReloadGasPrice else CellLoadGasPrice).
Proof.
  unfold CellLoadGasPrice, CellReloadGasPrice. intros Hok Hd Hg. unfold RegisterCellLoad.
  destruct (loaded_add_spec (HashKey c) st Hok) as (l & El & Hm & Hl). rewrite (bind_Ok _ _ _ _ _ El). mrun. set (st1 := set_loaded st l).
  assert (Hg1 : g_Remaining (st_Gas st1) = g_Remaining (st_Gas st)) by now destruct st.
  assert (Hl1 : st_loaded st1 = l) by now destruct st. assert (Hd1 : discounts st1) by now destruct st.
  assert (Hbad : (st_GlobalVersion st1 =? 0) && bool_decide (h_GasSchedule (st_Historical st1) = GasSchedule2019) = false).
  { apply andb_false_iff. destruct Hd1; [left; lia|right; now apply bool_decide_false]. }
  assert (Hpay : forall n, 0 <= n <= 100 -> exists st', ConsumeGas n st1 = (Ok tt, st') /\ seen st' = {[HashKey c]} ∪ seen st /\ load_set_ok (st_loaded st') /\
    discounts st' /\ g_Remaining (st_Gas st') = g_Remaining (st_Gas st) - n).
  { intros n Hn. rewrite ConsumeGas_paid by lia. eexists. split; [reflexivity|]. destruct (charged_proj st1 n) as (Ev & Eh & El').
    unfold seen, discounts in *. rewrite Ev, Eh, El', Hl1. split_and!; [done..|]. rewrite <-Hg1. clear - Hg Hg1 Hn. destruct st1. cbn in *. rewrite s64_id; [done|]. unfold int64. lia. }
  destruct (decide (HashKey c ∈ seen st)) as [Hin | Hout].
  - rewrite bool_decide_true by done. cbn [negb]. rewrite Hbad. apply Hpay. lia.
  - rewrite bool_decide_false by done. cbn [negb]. apply Hpay. lia.
Qed.

Lemma load_all_run l st :
  load_set_ok (st_loaded st) -> discounts st -> loads_price (seen st) l + CellLoadGasPrice <= g_Remaining (st_Gas st) < 2 ^ 63 ->
  exists st', load_all l st = (Ok tt, st') /\ seen st' = keys l ∪ seen st /\
    g_Remaining (st_Gas st') = g_Remaining (st_Gas st) - loads_price (seen st) l.
Proof.
  revert st. induction l as [|c l IH]; intros st Hok Hd Hg.
  - exists st. split; [done|]. split; [set_solver|]. unfold loads_price. change (len ([] : list Cell)) with 0. change (keys []) with (∅ : gset (list Z)).
    replace (∅ ∖ seen st) with (∅ : gset (list Z)) by set_solver. rewrite size_empty. lia.
  - rewrite loads_price_cons in Hg |- *. pose proof (loads_price_nonneg ({[HashKey c]} ∪ seen st) l) as H0.
    assert (Hp : 0 <= (if decide (HashKey c ∈ seen st) then CellReloadGasPrice else CellLoadGasPrice)) by (unfold CellReloadGasPrice, CellLoadGasPrice; destruct (decide _); lia).
    destruct (RegisterCellLoad_run c st Hok Hd ltac:(lia)) as (st1 & E1 & Es & Hok1 & Hd1 & Eg).
    destruct (IH st1 Hok1 Hd1) as (st2 & E2 & Es2 & Eg2); [rewrite Es, Eg; lia|].
    exists st2. cbn [load_all]. rewrite (bind_Ok _ _ _ _ _ E1). split; [done|]. split; [rewrite Es2, Es; unfold keys; cbn; set_solver|].
    rewrite Eg2, Eg, Es. lia.
Qed.

(** C37: Loading a sequence of cells charges the full price once for each distinct
    cell not loaded before in the execution and the reduced price for every other
    load, whatever the order and the repetitions, while the loaded cells are kept in
    the array of eight keys, at the load that spills them to the map and after it. *)
Theorem cell_loads_cost l st :
  load_set_ok (st_loaded st) -> discounts st -> loads_price (seen st) l + CellLoadGasPrice <= g_Remaining (st_Gas st) -> g_Remaining (st_Gas st) < 2 ^ 63 ->
  exists st', load_all l st = (Ok tt, st') /\ seen st' = keys l ∪ seen st /\
    g_Remaining (st_Gas st') = g_Remaining (st_Gas st) -
      (CellLoadGasPrice * Z.of_nat (size (keys l ∖ seen st)) + CellReloadGasPrice * (len l - Z.of_nat (size (keys l ∖ seen st)))).
Proof.
  intros Hok Hd Hg Hr. destruct (load_all_run l st Hok Hd ltac:(lia)) as (st' & E & Es & Eg). exists st'. split; [done|]. split; [done|].
  rewrite Eg. unfold loads_price. lia.
Qed.

(** Eleven cells, of which the ninth load spills, and each of them once more. *)
Definition many_cells : list Cell := (fun i => mkCell [Z.of_nat i] 8 false 0 [] [[Z.of_nat i]] [0]) <$> seq 0 11.

Example cell_loads_cost_witness :
  exists st', load_all (many_cells ++ many_cells) (set_gas sample_state (GasWithLimit 5000 None)) = (Ok tt, st') /\ g_Remaining (st_Gas st') = 5000 - 1375.
Proof.
  destruct (cell_loads_cost (many_cells ++ many_cells) (set_gas sample_state (GasWithLimit 5000 None))) as (st' & H & _ & Hg).
  - exact (proj1 no_loads_ok).
  - left. discriminate.
  - vm_compute. discriminate.
  - reflexivity.
  - exists st'. split; [exact H|exact Hg].
Defined.
