(* ===== verification/CellLoad.v ===== *)
(** * Loading cells in the virtual machine

    Models the parsing gateway of [tvm/vm/cell_manager.go] and the library lookup of
    [tvm/vm/libraries.go]: a cell is charged for, a library cell is replaced by the
    cell it names, and other special cells are refused.  Lazy and virtualised cells
    have no counterpart.  Before version 4 the dictionary walk of a library lookup
    itself charges gas for every node; that walk is the parameter [metered_lookup]. *)

From S2P Require Import Prelude Bytes CellModel Builder Slice Finalize DictNode Dict Gas Value Stack VmState.
From stdpp Require Import gmap.
#[local] Open Scope Z_scope.

(** [dict.LoadValue(key)] with the gas trace attached; [None] when it fails. *)
Class MeteredLookup : Type := metered_lookup : Cell -> list Z -> M State (option Slice).

Definition PendingError : M State unit :=
  st ← get_state;
  match st_pendingErr st with Some e => fail e | None => mret tt end.

(** [beginParseWithGasTraceInto] *)
Definition begin_parse (c : Cell) (alreadyLoaded : bool) : M State Slice :=
  (if alreadyLoaded then PendingError else OnLoadError (Some c)) ;;
  mret (newSliceFromCell c).

(** ** Libraries *)

Definition with_loaded (lb : LibraryState) (x : gset (list Z)) : LibraryState :=
  mkLibs (lb_Libraries lb) (lb_cache lb) (lb_maxLibraryLoads lb) x (lb_missingLibrary lb) (lb_sandboxed lb).
Definition with_cache (lb : LibraryState) (x : gmap (list Z) Cell) : LibraryState :=
  mkLibs (lb_Libraries lb) x (lb_maxLibraryLoads lb) (lb_loadedLibraries lb) (lb_missingLibrary lb) (lb_sandboxed lb).
Definition with_missing (lb : LibraryState) (x : option (list Z)) : LibraryState :=
  mkLibs (lb_Libraries lb) (lb_cache lb) (lb_maxLibraryLoads lb) (lb_loadedLibraries lb) x (lb_sandboxed lb).

Definition modify_libs (f : LibraryState -> LibraryState) : M State unit := modify (fun st => set_libs st (f (st_Libs st))).

Definition SetLibraries (libs : list (option Cell)) : M State unit :=
  modify_libs (fun lb => mkLibs libs ∅ (lb_maxLibraryLoads lb) (lb_loadedLibraries lb) (lb_missingLibrary lb) (lb_sandboxed lb)).

Definition SetMaxLibraryLoads (limit : Z) : M State unit :=
  modify_libs (fun lb => mkLibs (lb_Libraries lb) (lb_cache lb) (Some limit) (lb_loadedLibraries lb) (lb_missingLibrary lb) (lb_sandboxed lb)).

Definition checkLibraryLoadLimit (hash : list Z) : M State bool :=
  st ← get_state;
  let lb := st_Libs st in
  match lb_maxLibraryLoads lb with
  | None => mret true
  | Some limit =>
      if bool_decide (hash ∈ lb_loadedLibraries lb) then mret true
      else if u32 (Z.of_nat (size (lb_loadedLibraries lb))) =? limit then mret false
      else modify_libs (fun lb => with_loaded lb ({[hash]} ∪ lb_loadedLibraries lb)) ;; mret true
  end.

(** [unmeteredLibraryDictResolver]: a special node of the dictionary is an error. *)
Definition unmeteredLibraryDictResolver : resolver_t := Some (fun _ => Err (VMErr CodeCellUnderflow)).

Definition library_key (hash : list Z) : outcome Cell :=
  match StoreSlice hash 256 BeginCell with (Ok _, b) => EndCell b | _ => Panic end.

(** What one collection holds for the key: nothing when the lookup fails. *)
Definition unmetered_lookup (root key : Cell) : outcome (option Slice) :=
  match fst (LoadValueWithResolver (Some key) unmeteredLibraryDictResolver (AsDict (Some root) 256)) with
  | Ok value => Ok (Some value)
  | Err _ => Ok None
  | Panic => Panic
  end.

(** The reference of a found value, when it is the library asked for. *)
Definition library_of (hash : list Z) (value : option Slice) : outcome (option Cell) :=
  match value with
  | None => Ok None
  | Some value =>
      if RefsNum value =? 0 then Ok None
      else
        match fst (loadRefCell true value) with
        | Ok ref => Ok (if bool_decide (HashKey ref = hash) then Some ref else None)
        | Err _ => Ok None
        | Panic => Panic
        end
  end.

Section libraries.
Context `{MeteredLookup}.

Fixpoint search_libraries (metered : bool) (hash : list Z) (key : Cell) (roots : list (option Cell)) : M State (option Cell) :=
  match roots with
  | [] => mret None
  | None :: roots => search_libraries metered hash key roots
  | Some root :: roots =>
      value ← (if metered then value ← metered_lookup root hash; PendingError ;; mret value
               else lift (unmetered_lookup root key));
      found ← lift (library_of hash value);
      match found with
      | Some ref => mret (Some ref)
      | None => search_libraries metered hash key roots
      end
  end.

Definition LoadLibraryByHash (hash : list Z) : M State (option Cell) :=
  if negb (len hash =? 32) then mret None
  else
    allowed ← checkLibraryLoadLimit hash;
    if negb allowed then mret None
    else
      st ← get_state;
      let metered := st_GlobalVersion st <? 4 in
      let keep := negb metered && negb (lb_sandboxed (st_Libs st)) in
      match (if keep then lb_cache (st_Libs st) !! hash else None) with
      | Some cached => mret (Some cached)
      | None =>
          key ← lift (library_key hash);
          found ← search_libraries metered hash key (lb_Libraries (st_Libs st));
          match found with
          | Some ref =>
              (if keep then modify_libs (fun lb => with_cache lb (<[hash := ref]> (lb_cache lb))) else mret tt) ;;
              mret (Some ref)
          | None =>
              (if negb (lb_sandboxed (st_Libs st)) then modify_libs (fun lb => with_missing lb (Some hash)) else mret tt) ;;
              mret None
          end
      end.

(** ** Parsing *)

(** The hash a library cell names. *)
Definition library_hash (sl : Slice) : outcome (list Z) :=
  match (SkipBits 8 ;; loadSlice 256 false) sl with
  | (Ok hash, _) => Ok hash
  | (Err _, _) => Err (VMErr CodeCellUnderflow)
  | (Panic, _) => Panic
  end.

(** The loop of [beginParseLoadedCellInto]. *)
Fixpoint parse_loop (fuel : nat) (c : Cell) (allowSpecial alreadyLoaded libraryLoaded : bool) : M State (Slice * bool) :=
  let already := alreadyLoaded || libraryLoaded in
  if allowSpecial || negb (c_special c) then
    sl ← begin_parse c already;
    mret (sl, allowSpecial && c_special c)
  else
    match computeType c with
    | LibraryCellType =>
        if libraryLoaded then fail (VMErr CodeCellUnderflow)
        else
          sl ← begin_parse c already;
          hash ← lift (library_hash sl);
          resolved ← LoadLibraryByHash hash;
          match resolved with
          | None => fail (VMErr CodeCellUnderflow)
          | Some c' =>
              st ← get_state;
              match fuel with
              | O => lift Panic
              | S fuel => parse_loop fuel c' allowSpecial false (5 <=? st_GlobalVersion st)
              end
          end
    | _ => begin_parse c already ;; fail (VMErr CodeCellUnderflow)
    end.

(** From version 5 on a library never names another library; before, every cell of
    the chain is charged for.  So the bound is never reached: [parse_loop_safe] in
    [Safe] shows that no sound state panics here. *)
Definition parse_fuel (st : State) : nat := S (S (Z.to_nat (g_Remaining (st_Gas st) / CellReloadGasPrice))).

Definition beginParseLoadedCell (cl : option Cell) (allowSpecial alreadyLoaded : bool) : M State (Slice * bool) :=
  match cl with
  | None => fail (VMErr CodeCellUnderflow)
  | Some c =>
      st ← get_state;
      parse_loop (parse_fuel st) c allowSpecial alreadyLoaded false
  end.

Definition BeginParse (cl : option Cell) : M State Slice :=
  r ← beginParseLoadedCell cl false false; mret (fst r).
Definition BeginParseAlreadyLoaded (cl : option Cell) : M State Slice :=
  r ← beginParseLoadedCell cl false true; mret (fst r).
Definition BeginParseSpecial (cl : option Cell) : M State (Slice * bool) := beginParseLoadedCell cl true false.
Definition BeginParseSpecialAlreadyLoaded (cl : option Cell) : M State (Slice * bool) := beginParseLoadedCell cl true true.

(** [LoadRefInto] on the code being executed. *)
Definition LoadRef_code : M State Slice :=
  ref ← on_code (peekRefCellAt 0);
  on_code (SkipBitsAndRefs 0 1) ;;
  PendingError ;;
  BeginParse (Some ref).

(** [ResolveLibraryCell], the instruction [XLOAD]. *)
Definition ResolveLibraryCell (cl : option Cell) : M State Cell :=
  match cl with
  | None => fail (VMErr CodeCellUnderflow)
  | Some c =>
      RegisterCellLoad (Some c) ;;
      if negb (c_special c) then mret c
      else
        match computeType c with
        | LibraryCellType =>
            sl ← begin_parse c true;
            hash ← lift (library_hash sl);
            lib ← LoadLibraryByHash hash;
            match lib with
            | None => fail (VMErr CodeCellUnderflow)
            | Some lib => mret lib
            end
        | _ => fail (VMErr CodeCellUnderflow)
        end
  end.

End libraries.
