(* ===== verification/GasLaw.v ===== *)
(** * What a computation may do to the gas

    A small logic over the state monad: a computation is [lawful] when it never gives
    gas back.  From a state with gas left it either leaves a state with gas left and
    no less gas used, or runs out of gas, at once or through the latched error of the
    cell manager.  The logic is closed under the monad, so that every instruction
    inherits the law from the primitives it uses; [law] does the work with the hints
    of the database [gas].  It is stated for the versions from 4 on, where each charge
    is checked; [RunTheorems] derives from it that every execution ends. *)

From S2P Require Import Prelude Bytes CellModel Builder Slice Gas Value Stack VmState Exec CellLoad.
From stdpp Require Import gmap.
#[local] Open Scope Z_scope.

Create HintDb gas.

Definition OutOfGas : error := VMErr CodeOutOfGas.

(** The gas used so far, and the most the meter can ever allow. *)
Definition used (st : State) : Z := g_Base (st_Gas st) - g_Remaining (st_Gas st).
Definition cap (st : State) : Z := Z.max (g_Base (st_Gas st)) (g_Max (st_Gas st)).

(** A meter with gas left, all of whose numbers are [int64] values. *)
Record gas_ok (st : State) : Prop := {
  gok_version : 4 <= st_GlobalVersion st;
  gok_remaining : 0 <= g_Remaining (st_Gas st) <= g_Base (st_Gas st);
  gok_base : g_Base (st_Gas st) < 2 ^ 63;
  gok_max : 0 <= g_Max (st_Gas st) < 2 ^ 63;
  gok_pending : st_pendingErr st = None
}.

(** Nothing given back. *)
Record spent (st st' : State) : Prop := {
  sp_used : used st <= used st';
  sp_cap : cap st' <= cap st
}.

Lemma spent_refl st : spent st st.
Proof. split; lia. Qed.
Lemma spent_trans st st' st'' : spent st st' -> spent st' st'' -> spent st st''.
Proof. intros [] []. split; lia. Qed.

(** How a run may end short of gas: only by returning out-of-gas; also with the
    latched error, which the next check reports; also with a negative balance, as a
    change of the limit can leave it. *)
Inductive strength : Type := Strict | Latched | Broke.

(** An error once latched stays, and only out-of-gas is latched. *)
Definition latched (p p' : option error) : Prop := p' = p \/ (p = None /\ p' = Some OutOfGas).

Lemma latched_trans p p' p'' : latched p p' -> latched p' p'' -> latched p p''.
Proof. unfold latched. intuition congruence. Qed.

Lemma latched_some e p' : latched (Some e) p' -> p' = Some e.
Proof. unfold latched. intuition congruence. Qed.

(** The law of one run from [st] with the result [r] and the state [st']. *)
Record law_post (κ : strength) {A} (st : State) (r : outcome A) (st' : State) : Prop := {
  lp_version : 4 <= st_GlobalVersion st -> st_GlobalVersion st' = st_GlobalVersion st;
  lp_latched : 4 <= st_GlobalVersion st -> latched (st_pendingErr st) (st_pendingErr st');
  lp_spent : gas_ok st ->
    (gas_ok st' /\ spent st st') \/ r = Err OutOfGas
    \/ (κ <> Strict /\ st_pendingErr st' = Some OutOfGas)
    \/ (κ = Broke /\ (r = Err ErrStopOnAccept \/ (exists a, r = Ok a) /\ (st_pendingErr st' = None /\ g_Remaining (st_Gas st') < 0)))
}.

Definition law_at (κ : strength) {A} (st : State) (m : M State A) : Prop := law_post κ st (fst (m st)) (snd (m st)).
Definition lawful_gen (κ : strength) {A} (m : M State A) : Prop := forall st, law_at κ st m.
Abbreviation lawful := (lawful_gen Strict).

Lemma law_weaken {A} κ st (m : M State A) : law_at Strict st m -> law_at κ st m.
Proof. intros [Hv Hl Hs]. split; [done..|]. intros Hok. destruct (Hs Hok) as [?|[?|[[? _]|[? _]]]]; [tauto..|discriminate]. Qed.

Lemma lawful_weaken {A} κ (m : M State A) : lawful m -> lawful_gen κ m.
Proof. intros H st. apply law_weaken, H. Qed.

Lemma law_break {A} st (m : M State A) : law_at Latched st m -> law_at Broke st m.
Proof. intros [Hv Hl Hs]. split; [done..|]. intros Hok. destruct (Hs Hok) as [?|[?|[[? ?]|[? _]]]]; [tauto| |right; right; left|]; (done || tauto). Qed.

(** ** The monad *)

(** Two states that agree on everything the law speaks of. *)
Definition same_gas (st st' : State) : Prop :=
  st_GlobalVersion st' = st_GlobalVersion st /\ st_Gas st' = st_Gas st /\ st_pendingErr st' = st_pendingErr st.

Lemma law_same {A} κ st (r : outcome A) st' : same_gas st st' -> law_post κ st r st'.
Proof.
  intros (Hv & Hg & Hp). split; [done|intros _; rewrite Hp; by left|]. intros [? ? ? ? ?]. left. unfold used, cap.
  split; split; unfold used, cap; rewrite ?Hv, ?Hg, ?Hp; (done || lia).
Qed.

Lemma law_ret {A} κ st (a : A) : law_at κ st (mret a).
Proof. now apply law_same. Qed.
Lemma law_fail {A} κ st e : law_at κ st (fail e : M State A).
Proof. now apply law_same. Qed.
Lemma law_lift {A} κ st (o : outcome A) : law_at κ st (lift o).
Proof. now apply law_same. Qed.
Lemma law_put κ st st' : same_gas st st' -> law_at κ st (put_state st').
Proof. apply law_same. Qed.
Lemma law_modify κ st f : same_gas st (f st) -> law_at κ st (modify f).
Proof. apply law_same. Qed.

(** Only a continuation that may end short of gas can follow a computation that may. *)
Lemma law_bind_gen {A B} κ κ' st (m : M State A) (k : A -> M State B) :
  (κ' = Strict \/ κ' = Latched /\ κ <> Strict) ->
  law_at κ' st m -> (forall a st', m st = (Ok a, st') -> law_at κ st' (k a)) -> law_at κ st (m ≫= k).
Proof.
  intros Hκ [Hv Hl Hs] Hk. unfold law_at, mbind, M_bind. destruct (m st) as [[a|e|] st1] eqn:Hm; cbn [fst snd] in *.
  - destruct (Hk a st1 eq_refl) as [Hv' Hl' Hs']. split.
    + intros H4. rewrite <-(Hv H4). apply Hv'. now rewrite Hv.
    + intros H4. eapply latched_trans; [now apply Hl|]. apply Hl'. now rewrite Hv.
    + intros Hok. pose proof (gok_version _ Hok) as H4.
      destruct (Hs Hok) as [[Hok1 Hsp] | [Hr | [[Hn Hp] | [-> _]]]]; [|discriminate| |intuition discriminate].
      * destruct (Hs' Hok1) as [[Hok2 Hsp2] | H]; [left; split; [done|exact (spent_trans _ _ _ Hsp Hsp2)]|now right].
      * right. right. left. split; [tauto|]. apply latched_some. rewrite <-Hp. apply Hl'. now rewrite Hv.
  - split; [done..|]. intros Hok. destruct (Hs Hok) as [?|[Hr|[[Hn Hp]|[-> _]]]]; [by left|injection Hr as ->; by right; left| |intuition discriminate].
    right. right. left. tauto.
  - split; [done..|]. intros Hok. destruct (Hs Hok) as [?|[Hr|[[Hn Hp]|[-> _]]]]; [by left|discriminate| |intuition discriminate].
    right. right. left. tauto.
Qed.

Lemma law_bind_at {A B} κ st (m : M State A) (k : A -> M State B) :
  law_at Strict st m -> (forall a st', m st = (Ok a, st') -> law_at κ st' (k a)) -> law_at κ st (m ≫= k).
Proof. apply law_bind_gen. by left. Qed.

Lemma law_bind_latched {A B} κ st (m : M State A) (k : A -> M State B) :
  κ <> Strict -> lawful_gen Latched m -> (forall a st', law_at κ st' (k a)) -> law_at κ st (m ≫= k).
Proof. intros Hκ Hm Hk. apply (law_bind_gen _ Latched); [by right|apply Hm|auto]. Qed.

(** Nothing is claimed of the versions before 4. *)
Lemma law_old {A} κ st (r : outcome A) st' : st_GlobalVersion st < 4 -> law_post κ st r st'.
Proof. intros. split; [lia|lia|]. intros [? _ _ _ _]. lia. Qed.

Lemma law_bind {A B} κ st (m : M State A) (k : A -> M State B) :
  lawful m -> (forall a st', law_at κ st' (k a)) -> law_at κ st (m ≫= k).
Proof. intros Hm Hk. apply law_bind_at; [apply Hm|auto]. Qed.

Lemma law_get {B} κ st (k : State -> M State B) : law_at κ st (k st) -> law_at κ st (get_state ≫= k).
Proof. exact id. Qed.
Lemma law_get_end κ st : law_at κ st get_state.
Proof. now apply law_same. Qed.
Lemma law_bind_ret {A B} κ st (a : A) (k : A -> M State B) : law_at κ st (k a) -> law_at κ st (mret a ≫= k).
Proof. exact id. Qed.
Lemma law_guard {B} κ st c e (k : unit -> M State B) : law_at κ st (k tt) -> law_at κ st (guard_err c e ≫= k).
Proof. intros H. unfold law_at. rewrite bind_guard. destruct c; [now apply law_same|exact H]. Qed.
Lemma law_guard_end κ st c e : law_at κ st (guard_err c e).
Proof. unfold law_at. rewrite run_guard. destruct c; now apply law_same. Qed.
Lemma law_bind_lift {A B} κ st (o : outcome A) (k : A -> M State B) :
  (forall a, law_at κ st (k a)) -> law_at κ st (lift o ≫= k).
Proof. intros H. apply law_bind_at; [apply law_lift|]. intros a st' [= -> <-]. apply H. Qed.

Lemma law_bind_put {B} κ st st' (k : unit -> M State B) :
  same_gas st st' -> law_at κ st' (k tt) -> law_at κ st (put_state st' ≫= k).
Proof. intros Hs Hk. apply law_bind_at; [now apply law_put|]. now intros [] ? [= <-]. Qed.
Lemma law_bind_modify {B} κ st f (k : unit -> M State B) :
  same_gas st (f st) -> law_at κ (f st) (k tt) -> law_at κ st (modify f ≫= k).
Proof. apply law_bind_put. Qed.

Lemma set_stack_same st s : same_gas st (set_stack st s).
Proof. now destruct st. Qed.
Lemma set_code_same st s : same_gas st (set_code st s).
Proof. now destruct st. Qed.
Lemma set_reg_same st s : same_gas st (set_reg st s).
Proof. now destruct st. Qed.
Lemma same_gas_trans st st' st'' : same_gas st st' -> same_gas st' st'' -> same_gas st st''.
Proof. unfold same_gas. intuition congruence. Qed.

Lemma on_stack_lawful {A} (m : M stack A) : lawful (on_stack m).
Proof. intros st. unfold law_at, on_stack. destruct (m (st_Stack st)). apply law_same, set_stack_same. Qed.
Lemma on_reg_lawful {A} (m : M register A) : lawful (on_reg m).
Proof. intros st. unfold law_at, on_reg. destruct (m (st_Reg st)). apply law_same, set_reg_same. Qed.
Lemma on_code_lawful {A} (m : M Slice A) : lawful (on_code m).
Proof. intros st. unfold law_at, on_code. destruct (m (st_CurrentCode st)). apply law_same, set_code_same. Qed.

(** ** Charges *)

(** A charge from a meter with gas left is exact: an amount is below [2^63]. *)
Lemma Consume_exact amount g :
  0 <= g_Remaining g < 2 ^ 63 ->
  exists r, Consume amount g = r /\
    (r = (Err (VMErr CodeRangeCheck), g) \/
     (0 <= s64 amount /\ snd r = set_remaining g (g_Remaining g - s64 amount) /\
      fst r = if g_Remaining g <? s64 amount then Err OutOfGas else Ok tt)).
Proof.
  intros Hg. eexists. split; [reflexivity|]. pose proof (s64_int64 amount) as Ha. unfold Consume. mrun.
  destruct (Z.ltb_spec (s64 amount) 0); [by left|right]. cbn [set_remaining g_Remaining].
  unfold int64 in Ha. rewrite (s64_id (g_Remaining g - s64 amount)) by (unfold int64; lia). split; [done|].
  destruct (Z.ltb_spec (g_Remaining g - s64 amount) 0), (Z.ltb_spec (g_Remaining g) (s64 amount)); (done || lia).
Qed.

Lemma on_gas_Consume_law amount : lawful (on_gas (Consume amount)).
Proof.
  intros st. unfold law_at, on_gas. destruct (Consume amount (st_Gas st)) as [r g] eqn:Hc. cbn [fst snd]. split; [by destruct st|left; by destruct st|].
  intros [Hv Hr Hb Hm Hp]. destruct (Consume_exact amount (st_Gas st) ltac:(lia)) as (x & Hx & Hcase). rewrite Hc in Hx. subst x.
  destruct Hcase as [[= -> ->] | (Ha & Hg & Hres)]; cbn in *.
  - left. replace (set_gas st (st_Gas st)) with st by now destruct st. split; [by split|apply spent_refl].
  - subst g r. destruct (Z.ltb_spec (g_Remaining (st_Gas st)) (s64 amount)); [by right; left|]. left.
    destruct st. unfold used, cap. cbn in *. split; split; unfold used, cap; cbn; (done || lia).
Qed.

Lemma ConsumeGas_law amount : lawful (ConsumeGas amount).
Proof.
  intros st. unfold ConsumeGas. apply law_get. destruct (checkGasOnConsume st) eqn:Hv; cbn [negb]; [apply on_gas_Consume_law|].
  apply law_old. now apply Z.leb_gt in Hv.
Qed.

Lemma consumeGasChecked_law amount : lawful (consumeGasChecked amount).
Proof. apply on_gas_Consume_law. Qed.

#[export] Hint Resolve on_stack_lawful on_reg_lawful on_code_lawful on_gas_Consume_law ConsumeGas_law consumeGasChecked_law : gas.
#[export] Hint Resolve set_stack_same set_code_same set_reg_same : gas.

Lemma law_of {A} κ st (m : M State A) : lawful m -> law_at κ st m.
Proof. intros H. apply law_weaken, H. Qed.

(** ** Automation *)

Ltac law_step :=
  lazymatch goal with
  | |- lawful_gen _ _ => first [solve [auto with gas nocore] | intros ?]
  | |- same_gas _ _ => solve [auto with gas nocore | (try match goal with s : State |- _ => destruct s end); done]
  | |- law_at _ _ (get_state ≫= _) => apply law_get; cbv beta
  | |- law_at _ _ get_state => apply law_get_end
  | |- law_at _ _ (mret _ ≫= _) => apply law_bind_ret; cbv beta
  | |- law_at _ _ (guard_err _ _ ≫= _) => apply law_guard; cbv beta
  | |- law_at _ _ (lift _ ≫= _) => apply law_bind_lift; intros ?
  | |- law_at _ _ (put_state _ ≫= _) => apply law_bind_put; [|cbv beta]
  | |- law_at _ _ (modify _ ≫= _) => apply law_bind_modify; [|cbv beta]
  | |- law_at _ _ (_ ≫= _) => apply law_bind; [|intros ? ?]
  | |- law_at _ _ (mret _) => apply law_ret
  | |- law_at _ _ (fail _) => apply law_fail
  | |- law_at _ _ (lift _) => apply law_lift
  | |- law_at _ _ (guard_err _ _) => apply law_guard_end
  | |- law_at _ _ (put_state _) => apply law_put
  | |- law_at _ _ (modify _) => apply law_modify
  | |- law_at _ _ (match ?x with _ => _ end) => destruct x
  | |- law_at _ _ (let _ := _ in _) => cbv zeta
  | |- law_at _ _ _ => apply law_of; solve [auto with gas nocore]
  end.
Ltac law := repeat law_step.

(** ** The state of the machine *)

Lemma ConsumeStackGas_law s : lawful (ConsumeStackGas s).
Proof. unfold ConsumeStackGas, ConsumeStackGasLen. law. Qed.
Lemma ConsumeTupleGasLen_law n : lawful (ConsumeTupleGasLen n).
Proof. unfold ConsumeTupleGasLen. law. Qed.
#[export] Hint Resolve ConsumeStackGas_law ConsumeTupleGasLen_law : gas.

Lemma PushTupleCharged_law t : lawful (PushTupleCharged t).
Proof. unfold PushTupleCharged. law. Qed.

Lemma set_loaded_same st x : same_gas st (set_loaded st x).
Proof. now destruct st. Qed.
Lemma set_CP_same st x : same_gas st (set_CP st x).
Proof. now destruct st. Qed.
Lemma set_libs_same st x : same_gas st (set_libs st x).
Proof. now destruct st. Qed.
Lemma set_steps_same st x : same_gas st (set_steps st x).
Proof. now destruct st. Qed.
Lemma set_committed_same st x : same_gas st (set_committed st x).
Proof. now destruct st. Qed.
Lemma set_sigchecks_same st x : same_gas st (set_sigchecks st x).
Proof. now destruct st. Qed.
Lemma set_extra_same st x : same_gas st (set_extra st x).
Proof. now destruct st. Qed.
#[export] Hint Resolve PushTupleCharged_law set_loaded_same set_CP_same set_libs_same set_steps_same set_committed_same set_sigchecks_same set_extra_same : gas.

Lemma ConsumeFreeGas_law amount : lawful (ConsumeFreeGas amount).
Proof.
  intros st. unfold law_at, ConsumeFreeGas, on_gas, ConsumeFree, modify. cbn [fst snd]. split; [by destruct st|left; by destruct st|].
  intros [? ? ? ? ?]. left. destruct st. split; split; unfold used, cap; cbn in *; (done || lia).
Qed.
#[export] Hint Resolve ConsumeFreeGas_law : gas.

Lemma RegisterSignatureCheckCall_law : lawful RegisterSignatureCheckCall.
Proof. unfold RegisterSignatureCheckCall. law. Qed.
Lemma RegisterGetExtraBalanceCall_law : lawful RegisterGetExtraBalanceCall.
Proof. unfold RegisterGetExtraBalanceCall. law. Qed.

Lemma loaded_add_law key : lawful (loaded_add key).
Proof. intros st. unfold law_at. destruct (loaded_add_run key st) as (fresh & l & ->). apply law_same, set_loaded_same. Qed.
#[local] Hint Resolve loaded_add_law : gas.

Lemma RegisterCellLoad_law c : lawful (RegisterCellLoad c).
Proof. unfold RegisterCellLoad. law. Qed.
Lemma RegisterCellCreate_law : lawful RegisterCellCreate.
Proof. unfold RegisterCellCreate. law. Qed.
#[export] Hint Resolve RegisterCellLoad_law RegisterCellCreate_law RegisterSignatureCheckCall_law RegisterGetExtraBalanceCall_law : gas.

(** The latched error is always out-of-gas. *)
Lemma ConsumeGas_err n st e st' : 0 <= n < 2 ^ 63 -> ConsumeGas n st = (Err e, st') -> e = OutOfGas.
Proof.
  intros Hn. unfold ConsumeGas, on_gas, Consume. mrun. rewrite s64_id by (unfold int64; lia).
  destruct (negb (checkGasOnConsume st)); mrun; destruct (Z.ltb_spec n 0); try lia; [done|].
  destruct (_ <? 0); [by intros [= <-]|done].
Qed.

Lemma RegisterCellLoad_err c st e st' : RegisterCellLoad c st = (Err e, st') -> e = OutOfGas.
Proof.
  destruct c as [c|]; [|done]. unfold RegisterCellLoad. destruct (loaded_add_run (HashKey c) st) as (fresh & l & Hl). rewrite (bind_Ok _ _ _ _ _ Hl). mrun.
  destruct fresh; cbn [negb]; [|destruct (_ && _)]; (apply ConsumeGas_err; unfold CellLoadGasPrice, CellReloadGasPrice; lia).
Qed.

Lemma RegisterCellCreate_err st e st' : RegisterCellCreate st = (Err e, st') -> e = OutOfGas.
Proof. apply ConsumeGas_err. unfold CellCreateGasPrice. lia. Qed.

Lemma latch_law m : lawful m -> (forall st e st', m st = (Err e, st') -> e = OutOfGas) -> lawful (latch m).
Proof.
  intros Hm He st. unfold law_at, latch. destruct (st_pendingErr st) as [e|] eqn:Hp; [now apply law_same|].
  destruct (Hm st) as [Hv Hl Hs]. destruct (m st) as [[a|e|] st'] eqn:Hr; cbn [fst snd] in *; [by split| |by split].
  split; [intros H4; rewrite <-Hv by done; by destruct st'|intros H4; right; rewrite (He _ _ _ Hr); split; [done|by destruct st']|]. intros Hok. right. left. f_equal. now apply (He st e st').
Qed.

Lemma OnLoadError_law c : lawful (OnLoadError c).
Proof. apply latch_law; [apply RegisterCellLoad_law|apply RegisterCellLoad_err]. Qed.

Lemma OnCreate_law : lawful_gen Latched OnCreate.
Proof.
  intros st. unfold law_at, OnCreate. pose proof (latch_law _ RegisterCellCreate_law RegisterCellCreate_err st) as [Hv Hl Hs].
  unfold law_at, latch in *. destruct (st_pendingErr st) as [e|] eqn:Hp; [now apply law_same|].
  destruct (RegisterCellCreate st) as [[[]|e|] st'] eqn:Hr; cbn [fst snd] in *; (split; [done|rewrite Hp; done|]).
  - intros Hok. destruct (Hs Hok) as [?|[?|[[? _]|[? _]]]]; [by left|done..].
  - intros Hok. right. right. left. split; [done|]. rewrite (RegisterCellCreate_err _ _ _ Hr). now destruct st'.
  - intros Hok. destruct (Hs Hok) as [?|[?|[[? _]|[? _]]]]; [by left|done..].
Qed.
#[export] Hint Resolve OnLoadError_law OnCreate_law : gas.

Lemma CheckGas_law : lawful CheckGas.
Proof.
  unfold CheckGas. intros st. apply law_get. destruct (st_pendingErr st); [apply law_fail|].
  unfold law_at, on_gas, CheckRemaining. mrun. destruct (_ <? 0); (apply law_same; now destruct st).
Qed.

Lemma SetC7_law t : lawful (SetC7 t).
Proof. unfold SetC7. law. Qed.
#[export] Hint Resolve CheckGas_law SetC7_law : gas.

(** A handler that only touches registers after a failure. *)
Lemma on_err_law {A} (m : M State A) (f : State -> State) :
  lawful m -> (forall st, same_gas st (f st)) ->
  lawful (fun st => match m st with (Err e, st') => (Err e, f st') | r => r end).
Proof.
  intros Hm Hf st. destruct (Hm st) as [Hver Hl Hs]. unfold law_at. destruct (m st) as [[a|e|] st'] eqn:Hr; cbn [fst snd] in *; [by split| |by split].
  destruct (Hf st') as (Hv & Hg & Hp). split; [intros H4; rewrite Hv; now apply Hver|intros H4; rewrite Hp; now apply Hl|]. intros Hok.
  destruct (Hs Hok) as [[[? ? ? ? ?] [? ?]]|[?|[?|[? _]]]]; [|tauto|right; right; left; by rewrite Hp|done].
  left. split; split; unfold used, cap in *; rewrite ?Hv, ?Hg, ?Hp; (done || lia).
Qed.

Lemma SetGlobal_law idx v : lawful (SetGlobal idx v).
Proof.
  unfold SetGlobal. law.
  all: apply (on_err_law (ConsumeTupleGasLen _) (fun st => snd (SetC7 (Some []) st))); [auto with gas|now intros []].
Qed.
#[export] Hint Resolve SetGlobal_law : gas.

Lemma TryCommitCurrent_law : lawful TryCommitCurrent.
Proof. unfold TryCommitCurrent. law. Qed.
#[export] Hint Resolve TryCommitCurrent_law : gas.
Lemma ForceCommitCurrent_law : lawful ForceCommitCurrent.
Proof. unfold ForceCommitCurrent. law. Qed.
#[export] Hint Resolve ForceCommitCurrent_law : gas.

(** A change of the limit keeps the gas used; it can leave a negative balance. *)
Lemma SetGasLimit_law limit : lawful_gen Broke (SetGasLimit limit).
Proof.
  intros st. unfold SetGasLimit, on_gas, ChangeLimit, ChangeBase. apply law_get. apply law_guard.
  unfold law_at, mbind, M_bind, get_state, put_state, modify. cbn. set (l := if g_Max (st_Gas st) <? _ then _ else _).
  rewrite run_guard. cbn.
  assert (Hsame : st_GlobalVersion (set_gas st (mkGas (g_Max (st_Gas st)) l 0 (s64 (g_Remaining (st_Gas st) + s64 (l - g_Base (st_Gas st)))) l (g_FreeConsumed (st_Gas st)))) = st_GlobalVersion st) by now destruct st.
  split; [by destruct st, (st_StopOnAccept)|left; by destruct st, (st_StopOnAccept)|].
  intros [Hv Hr Hb Hm Hp]. destruct (st_StopOnAccept st); cbn [fst snd]; [right; right; right; split; [done|by left]|].
  assert (Hl : 0 <= l <= g_Max (st_Gas st)).
  { subst l. destruct (Z.ltb_spec limit 0); [destruct (Z.ltb_spec (g_Max (st_Gas st)) 0)|destruct (Z.ltb_spec (g_Max (st_Gas st)) limit)]; lia. }
  rewrite (s64_id (l - _)) by (unfold int64; lia).
  destruct st as [v cp c r g ld p s n sc eb cm md h sa lb]. cbn in *.
  rewrite s64_id by (unfold int64; lia).
  destruct (Z.leb_spec 0 (g_Remaining g + (l - g_Base g))).
  - left. split; split; unfold used, cap; cbn; (done || lia).
  - right. right. right. split; [done|right]. split; [by eexists|]. cbn. split; [done|lia].
Qed.

(** ** Loading cells *)

Lemma PendingError_law : lawful PendingError.
Proof. unfold PendingError. law. Qed.
#[export] Hint Resolve PendingError_law : gas.

Lemma begin_parse_law c b : lawful (begin_parse c b).
Proof. unfold begin_parse. law. Qed.
#[export] Hint Resolve begin_parse_law : gas.

Lemma modify_libs_law f : lawful (modify_libs f).
Proof. unfold modify_libs. law. Qed.
#[export] Hint Resolve modify_libs_law : gas.

Lemma checkLibraryLoadLimit_law hash : lawful (checkLibraryLoadLimit hash).
Proof. unfold checkLibraryLoadLimit. law. Qed.
#[export] Hint Resolve checkLibraryLoadLimit_law : gas.

Section libraries.
Context `{MeteredLookup}.

Lemma search_libraries_law hash key roots : lawful (search_libraries false hash key roots).
Proof. induction roots as [|[root|] roots IH]; cbn [search_libraries]; law. Qed.

Lemma LoadLibraryByHash_law hash : lawful (LoadLibraryByHash hash).
Proof.
  unfold LoadLibraryByHash. intros st. destruct (negb _); [apply law_ret|]. apply law_bind; [apply checkLibraryLoadLimit_law|].
  intros allowed st'. destruct (negb allowed); [apply law_ret|]. apply law_get.
  destruct (Z.ltb_spec (st_GlobalVersion st') 4); [by apply law_old|]. pose proof search_libraries_law. law.
Qed.
#[local] Hint Resolve LoadLibraryByHash_law : gas.

Lemma parse_loop_law fuel c a l b : lawful (parse_loop fuel c a l b).
Proof. revert c a l b. induction fuel; intros c a l b; cbn [parse_loop]; law. Qed.
#[local] Hint Resolve parse_loop_law : gas.

Lemma beginParseLoadedCell_law c a l : lawful (beginParseLoadedCell c a l).
Proof. unfold beginParseLoadedCell. law. Qed.
#[local] Hint Resolve beginParseLoadedCell_law : gas.

Lemma BeginParse_law c : lawful (BeginParse c).
Proof. unfold BeginParse. law. Qed.
#[local] Hint Resolve BeginParse_law : gas.
Lemma LoadRef_code_law : lawful LoadRef_code.
Proof. unfold LoadRef_code. law. Qed.
Lemma ResolveLibraryCell_law c : lawful (ResolveLibraryCell c).
Proof. unfold ResolveLibraryCell. law. Qed.

End libraries.
#[export] Hint Resolve LoadLibraryByHash_law beginParseLoadedCell_law BeginParse_law LoadRef_code_law ResolveLibraryCell_law : gas.

(** ** Control transfer *)

Lemma control_data_law c : lawful (control_data c).
Proof. unfold control_data, panic. law. Qed.
Lemma set_c_law i c : lawful (set_c i c).
Proof. unfold set_c. law. Qed.
Lemma adoptCurrentCode_law c : lawful (adoptCurrentCode c).
Proof. unfold adoptCurrentCode. law. Qed.
#[export] Hint Resolve control_data_law set_c_law adoptCurrentCode_law : gas.

Lemma forceContinuationCodepage_law cp : lawful (forceContinuationCodepage cp).
Proof. unfold forceContinuationCodepage. law. Qed.
#[export] Hint Resolve forceContinuationCodepage_law : gas.
Lemma applyContinuationCodepage_law cp : lawful (applyContinuationCodepage cp).
Proof. unfold applyContinuationCodepage. law. Qed.
#[export] Hint Resolve applyContinuationCodepage_law : gas.
Lemma JumpToCode_law code cp : lawful (JumpToCode code cp).
Proof. unfold JumpToCode. law. Qed.
#[export] Hint Resolve JumpToCode_law : gas.

Lemma excquit_law : lawful (cont_Jump CExcQuit).
Proof.
  intros st. unfold law_at, cont_Jump, on_stack. destruct (PopIntRange 0 0xffff (st_Stack st)) as [[v|e|] s]; apply law_same, set_stack_same.
Qed.

Lemma cont_Jump_law c : lawful (cont_Jump c).
Proof. destruct c; try exact excquit_law; try destruct CheckCond; cbn [cont_Jump]; unfold panic; law. Qed.
#[export] Hint Resolve cont_Jump_law : gas.

Lemma charge_nested_law iter : lawful (charge_nested iter).
Proof. unfold charge_nested. law. Qed.
Lemma move_from_stack_law s n : lawful (move_from_stack s n).
Proof. intros st. unfold law_at, move_from_stack. destruct (MoveFrom n (s, st_Stack st)) as [r [new rest]]. apply law_same, set_stack_same. Qed.
#[export] Hint Resolve charge_nested_law move_from_stack_law : gas.
Lemma drop_after_charged_law n : lawful (drop_after_charged n).
Proof. unfold drop_after_charged. law. Qed.
#[export] Hint Resolve drop_after_charged_law : gas.
Lemma buildCallStack_law p : lawful (buildCallStack p).
Proof. unfold buildCallStack. law. Qed.
Lemma applyJumpStack_law p : lawful (applyJumpStack p).
Proof. unfold applyJumpStack. law. Qed.
Lemma on_fail_law {A} f (m : M State A) : lawful m -> lawful (on_fail f m).
Proof. intros Hm. apply (on_err_law m (fun st => set_reg st (f (st_Reg st)))); [done|auto with gas]. Qed.
#[export] Hint Resolve buildCallStack_law applyJumpStack_law on_fail_law : gas.

Lemma adjustJumpCont_law c n : lawful (adjustJumpCont c n).
Proof. unfold adjustJumpCont. law. Qed.
#[export] Hint Resolve adjustJumpCont_law : gas.
Lemma adjust_nested_law c : lawful (adjust_nested c).
Proof. unfold adjust_nested. law. Qed.
#[export] Hint Resolve adjust_nested_law : gas.

(** A handler that goes on with a lawful computation after some failures. *)
Lemma handler_law {A B} (m : M State A) (k : A -> M State B) (h : error -> M State B) (sel : error -> bool) :
  lawful m -> (forall a, lawful (k a)) -> (forall e, sel e = true -> e <> OutOfGas /\ lawful (h e)) ->
  lawful (fun st => match m st with
                    | (Ok a, st') => k a st'
                    | (Err e, st') => if sel e then h e st' else (Err e, st')
                    | (Panic, st') => (Panic, st')
                    end).
Proof.
  intros Hm Hk Hh st. unfold law_at. pose proof (Hm st) as Hm1. unfold law_at in Hm1. destruct (m st) as [[a|e|] st1] eqn:Hr; cbn [fst snd] in *.
  - assert (Hb : law_at Strict st (m ≫= k)) by (apply law_bind; auto). unfold law_at, mbind, M_bind in Hb. now rewrite Hr in Hb.
  - destruct (sel e) eqn:Hsel; [|destruct Hm1 as [? ? Hs]; split; [done..|intros Hok; destruct (Hs Hok) as [?|[[= ->]|[?|[? _]]]]; auto; done]].
    destruct (Hh e Hsel) as [Hne Hl]. assert (Hb : law_at Strict st ((fun s => (Ok tt, snd (m s))) ≫= fun _ => h e)).
    { apply law_bind_at.
      - unfold law_at. rewrite Hr. cbn [fst snd]. destruct Hm1 as [? ? Hs]. split; [done..|]. intros Hok.
        destruct (Hs Hok) as [?|[[= ->]|[?|[? _]]]]; [by left|done|by right; right; left|done].
      - intros ? ? _. apply Hl. }
    unfold law_at, mbind, M_bind in Hb. now rewrite Hr in Hb.
  - destruct Hm1 as [? ? Hs]. split; [done..|]. intros Hok. destruct (Hs Hok) as [?|[?|[?|[? _]]]]; [by left|done|by right; right; left|done].
Qed.

Lemma jump_iter_law iter c : lawful (jump_iter iter c).
Proof.
  apply (handler_law (cont_Jump c) (fun c' => charge_nested (iter + 1) ;; adjust_nested c') (fun e => charge_nested (iter + 1) ;; fail e) IsHandledException); [auto with gas|intros c'; law|].
  intros e He. split; [intros Heq; rewrite Heq in He; discriminate|law].
Qed.
#[export] Hint Resolve jump_iter_law : gas.

Lemma jump_loop_law fuel iter c : lawful (jump_loop fuel iter c).
Proof. revert iter c. induction fuel; intros iter c; destruct c; cbn [jump_loop]; unfold panic; law. Qed.
#[export] Hint Resolve jump_loop_law : gas.
Lemma JumpTo_law c : lawful (JumpTo c).
Proof. unfold JumpTo. law. Qed.
#[export] Hint Resolve JumpTo_law : gas.
Lemma JumpArgs_law c n : lawful (JumpArgs c n).
Proof. unfold JumpArgs. law. Qed.
#[export] Hint Resolve JumpArgs_law : gas.
Lemma Jump_law c : lawful (Jump c).
Proof. unfold Jump. law. Qed.
#[export] Hint Resolve Jump_law : gas.

Lemma CallArgs_law c p r : lawful (CallArgs c p r).
Proof. unfold CallArgs. law. Qed.
#[export] Hint Resolve CallArgs_law : gas.
Lemma Call_law c : lawful (Call c).
Proof. unfold Call. law. Qed.
Lemma returnTo_law i e a : lawful (returnTo i e a).
Proof. unfold returnTo. law. Qed.
#[export] Hint Resolve Call_law returnTo_law : gas.
Lemma Return_law a : lawful (Return a).
Proof. apply returnTo_law. Qed.
Lemma ReturnAlt_law a : lawful (ReturnAlt a).
Proof. apply returnTo_law. Qed.
Lemma ExtractCurrentContinuation_law s c a : lawful (ExtractCurrentContinuation s c a).
Proof. unfold ExtractCurrentContinuation. law. Qed.
Lemma ThrowException_law code arg : lawful (ThrowException code arg).
Proof. unfold ThrowException. law. Qed.
Lemma ForceControlData_law c : lawful (ForceControlData c).
Proof. unfold ForceControlData. law. Qed.
#[export] Hint Resolve Return_law ReturnAlt_law ExtractCurrentContinuation_law ThrowException_law ForceControlData_law : gas.
