(* ===== verification/Dispatch.v ===== *)
(** * Opcode dispatch

    Models the prefix table of [tvm/vm.go]: a binary trie of opcode prefixes
    ([trieNode], [addPrefix]), the table over the first 16 bits that shortcuts it
    ([buildFastTable], [matchOpcodeFast]) and the bit-by-bit walk
    ([matchOpcodeSlow]).  The entries are a parameter [E]: [Run] puts instructions
    there.  Both lookups are proved to find the longest registered prefix of the code
    padded with zeros. *)

From S2P Require Import Prelude Bytes CellModel Builder Slice SliceSpec.
From stdpp Require Import list gmap.
#[local] Open Scope Z_scope.

Definition opcodeDispatchIndexBits : Z := 16.

(** A pointer to a node is an [option]: [None] is nil. *)
Inductive trieNode (E : Type) : Type :=
  | TrieNode (next0 next1 : option (trieNode E)) (op : option E).
Arguments TrieNode {E} next0 next1 op.

Record opcodeDispatch (E : Type) : Type := mkDispatch {
  dp_root : trieNode E;
  dp_maxPrefixLen : Z;
  dp_index : list (option (trieNode E) * option E);
}.
Arguments mkDispatch {E}.
Arguments dp_root {E}.
Arguments dp_maxPrefixLen {E}.
Arguments dp_index {E}.

Section dispatch.
Context {E : Type}.
#[local] Abbreviation node := (trieNode E).

Definition new_node : node := TrieNode None None None.

Definition next (n : node) (b : bool) : option node :=
  match n with TrieNode n0 n1 _ => if b then n1 else n0 end.
Definition node_op (n : node) : option E := match n with TrieNode _ _ o => o end.

Definition newOpcodeDispatch : opcodeDispatch E :=
  mkDispatch new_node 0 (replicate (Z.to_nat (2 ^ opcodeDispatchIndexBits)) (None, None)).

Definition bitAt (data : list Z) (b : Z) : outcome Z :=
  x ← index data (b / 8); Ok (Z.land (x ≫ (7 - b mod 8)) 1).

(** The bits of a range of positions, in order. *)
Fixpoint bits_at (read : Z -> outcome Z) (i : Z) (n : nat) : outcome (list bool) :=
  match n with
  | O => Ok []
  | S n => b ← read i; l ← bits_at read (i + 1) n; Ok (negb (b =? 0) :: l)
  end.

(** The walk of [addPrefix] from the root, creating the nodes that are missing. *)
Fixpoint add_bits (bits : list bool) (op : E) (n : node) : node :=
  match bits, n with
  | [], TrieNode n0 n1 _ => TrieNode n0 n1 (Some op)
  | false :: l, TrieNode n0 n1 o => TrieNode (Some (add_bits l op (default new_node n0))) n1 o
  | true :: l, TrieNode n0 n1 o => TrieNode n0 (Some (add_bits l op (default new_node n1))) o
  end.

Definition addPrefix (prefix : Slice) (op : E) : M (opcodeDispatch E) unit :=
  d ← get_state;
  let bits := BitsLeft prefix in
  raw ← lift (match fst (loadSlice bits true prefix) with Err _ => Panic | o => o end);
  l ← lift (bits_at (bitAt raw) 0 (Z.to_nat bits));
  put_state (mkDispatch (add_bits l op (dp_root d))
    (if dp_maxPrefixLen d <? bits then bits else dp_maxPrefixLen d) (dp_index d)).

(** The loop shared by the lookups: it follows the bits and remembers the last entry
    on the way; it stops at a missing node. *)
Fixpoint follow (bits : list bool) (n : node) (matched : option E) : option node * option E :=
  match bits with
  | [] => (Some n, matched)
  | b :: l =>
      match next n b with
      | None => (None, matched)
      | Some n' => follow l n' (match node_op n' with Some e => Some e | None => matched end)
      end
  end.

Definition index_bits (raw : Z) : list bool :=
  (fun i => negb (Z.land (raw ≫ (opcodeDispatchIndexBits - 1 - Z.of_nat i)) 1 =? 0)) <$> seq 0 (Z.to_nat opcodeDispatchIndexBits).

Definition buildFastTable : M (opcodeDispatch E) unit :=
  modify (fun d => mkDispatch (dp_root d) (dp_maxPrefixLen d)
    ((fun raw => follow (index_bits (Z.of_nat raw)) (dp_root d) None) <$> seq 0 (length (dp_index d)))).

(** The bit [i] of a value of [preloadBits] bits, and zero past its end. *)
Definition padded_bit (raw preloadBits : Z) (i : Z) : outcome Z :=
  Ok (if i <? preloadBits then Z.land (raw ≫ (preloadBits - 1 - i)) 1 else 0).

Definition matchOpcodeFast (d : opcodeDispatch E) (code : Slice) (available : Z) : outcome (option E) :=
  let maxPrefixLen := dp_maxPrefixLen d in
  let indexBits := opcodeDispatchIndexBits in
  let preloadBits := if available <? indexBits then available else indexBits in
  match fst (PreloadUInt preloadBits code) with
  | Panic => Panic
  | Err _ => Ok None
  | Ok raw =>
      let idx := if indexBits <=? preloadBits then Z.land raw ((1 ≪ opcodeDispatchIndexBits) - 1)
                 else u64 (raw ≪ (indexBits - preloadBits)) in
      match dp_index d !! Z.to_nat idx with
      | None => Panic
      | Some (None, matched) => Ok matched
      | Some (Some n, matched) =>
          let finish preloadBits raw :=
            l ← bits_at (padded_bit raw preloadBits) indexBits (Z.to_nat (maxPrefixLen - indexBits));
            Ok (snd (follow l n matched)) in
          if (preloadBits <? available) && (preloadBits <? maxPrefixLen) then
            let preloadBits := if available <? maxPrefixLen then available else maxPrefixLen in
            match fst (PreloadUInt preloadBits code) with
            | Panic => Panic
            | Err _ => Ok None
            | Ok raw => finish preloadBits raw
            end
          else finish preloadBits raw
      end
  end.

(** The walk bit by bit; a failed read ends it. *)
Fixpoint slow_walk (code : Slice) (available : Z) (i : Z) (fuel : nat) (n : node) (matched : option E) : outcome (option E) :=
  match fuel with
  | O => Ok matched
  | S fuel =>
      let go bit :=
        match next n (negb (bit =? 0)) with
        | None => Ok matched
        | Some n' => slow_walk code available (i + 1) fuel n' (match node_op n' with Some e => Some e | None => matched end)
        end in
      if i <? available then
        match fst (BitAt i code) with
        | Panic => Panic
        | Err _ => Ok matched
        | Ok bit => go bit
        end
      else go 0
  end.

Definition matchOpcodeSlow (root : node) (maxPrefixLen : Z) (code : Slice) (available : Z) : outcome (option E) :=
  slow_walk code available 0 (Z.to_nat maxPrefixLen) root None.

Definition matchOpcode (d : opcodeDispatch E) (code : Slice) : outcome (option E) :=
  let available := BitsLeft code in
  if available =? 0 then Ok None
  else if dp_maxPrefixLen d <=? 64 then matchOpcodeFast d code available
  else matchOpcodeSlow (dp_root d) (dp_maxPrefixLen d) code available.

(** ** The tables of the global versions *)

Definition MaxSupportedGlobalVersion : Z := 17.

Definition opcodeIsHistoricalQuietCompoundPrefix (prefix : Slice) : bool :=
  if negb (BitsLeft prefix =? 24) then false
  else
    match fst (PreloadUInt 24 prefix) with
    | Ok value =>
        let args := Z.land value 0x0f in
        if (Z.land args 3 =? 3) || negb (Z.land (args ≫ 2) 3 =? 0) then false
        else
          let op := value ≫ 4 in
          (op =? 0xb7a90) || (op =? 0xb7a92) || (op =? 0xb7a98) || (op =? 0xb7a9a) || (op =? 0xb7a9c)
    | _ => false
    end.

(** What one opcode contributes: its prefixes, the first version that has it, its
    entry, and the entry that decodes, charges and then rejects it. *)
Record registration : Type := mkRegistration {
  rg_prefixes : list Slice;
  rg_minVersion : Z;
  rg_entry : E;
  rg_invalid : E;
}.

(** [dispatches[ver].addPrefix(s, entry)] *)
Definition add_at (ver : nat) (s : Slice) (entry : E) : M (list (opcodeDispatch E)) unit :=
  ds ← get_state;
  d ← lift (match ds !! ver with Some d => Ok d | None => Panic end);
  r ← lift (run (addPrefix s entry) d);
  put_state (<[ver := snd r]> ds).

Fixpoint add_versions (vers : list nat) (s : Slice) (entry : E) : M (list (opcodeDispatch E)) unit :=
  match vers with
  | [] => mret tt
  | ver :: vers => add_at ver s entry ;; add_versions vers s entry
  end.

(** The versions from [lo] up to and excluding [hi] *)
Definition versions (lo hi : Z) : list nat := seq (Z.to_nat lo) (Z.to_nat (hi - lo)).

Fixpoint register_prefixes (r : registration) (minVersion : Z) (prefixes : list Slice) : M (list (opcodeDispatch E)) unit :=
  match prefixes with
  | [] => mret tt
  | s :: prefixes =>
      (if (0 <? minVersion) && opcodeIsHistoricalQuietCompoundPrefix s
       then add_versions (versions 0 (Z.min minVersion (MaxSupportedGlobalVersion + 1))) s (rg_invalid r) else mret tt) ;;
      add_versions (versions minVersion (MaxSupportedGlobalVersion + 1)) s (rg_entry r) ;;
      register_prefixes r minVersion prefixes
  end.

Definition registerOpcodePrefixes (r : registration) : M (list (opcodeDispatch E)) unit :=
  let minVersion := if rg_minVersion r <? 0 then 0 else rg_minVersion r in
  register_prefixes r minVersion (rg_prefixes r).

Fixpoint register_all (registry : list registration) : M (list (opcodeDispatch E)) unit :=
  match registry with
  | [] => mret tt
  | r :: registry => registerOpcodePrefixes r ;; register_all registry
  end.

(** [registry] lists the instructions of both registries, in order. *)
Definition buildOpcodeDispatches (registry : list registration) : outcome (list (opcodeDispatch E)) :=
  r ← run (register_all registry) (replicate (Z.to_nat (MaxSupportedGlobalVersion + 1)) newOpcodeDispatch);
  Ok ((fun d : opcodeDispatch E => snd (buildFastTable d)) <$> (snd r : list _)).

(** ** The trie as a map from bit strings *)

Fixpoint node_at (l : list bool) (n : node) : option node :=
  match l with
  | [] => Some n
  | b :: l => match next n b with None => None | Some n' => node_at l n' end
  end.
Definition entry_at (n : node) (l : list bool) : option E := node_at l n ≫= node_op.

Lemma entry_at_cons n b l : entry_at n (b :: l) = match next n b with None => None | Some n' => entry_at n' l end.
Proof. unfold entry_at. cbn. now destruct (next n b). Qed.

Lemma entry_at_new l : entry_at new_node l = None.
Proof. destruct l as [|[] l]; reflexivity. Qed.

Lemma entry_at_add p e n q :
  entry_at (add_bits p e n) q = if decide (p = q) then Some e else entry_at n q.
Proof.
  assert (Hd : forall o l, entry_at (default new_node o) l = match o with None => None | Some n' => entry_at n' l end)
    by (intros [n'|] l; [done|apply entry_at_new]).
  revert n q. induction p as [|b p IH]; intros [n0 n1 o] [|b' q].
  - reflexivity.
  - rewrite decide_False by done. reflexivity.
  - rewrite decide_False by done. now destruct b.
  - rewrite !entry_at_cons. destruct (decide (b :: p = b' :: q)) as [[= <- <-] | Hne].
    + destruct b; cbn [add_bits next]; rewrite IH, decide_True; done.
    + destruct b, b'; cbn [add_bits next]; try done;
        (rewrite IH, decide_False, Hd by congruence; done).
Qed.

(** No entry deeper than the longest prefix, and no node either. *)
Fixpoint depth_ok (n : node) (k : nat) : Prop :=
  match n with
  | TrieNode n0 n1 _ =>
      match k with
      | O => n0 = None /\ n1 = None
      | S k => match n0 with None => True | Some m => depth_ok m k end /\ match n1 with None => True | Some m => depth_ok m k end
      end
  end.

Lemma depth_ok_le n k k' : depth_ok n k -> (k <= k')%nat -> depth_ok n k'.
Proof.
  revert n k'. induction k as [|k IH]; intros [n0 n1 o] k' H Hle; cbn in H.
  - destruct H as [-> ->]. now destruct k'.
  - destruct k' as [|k']; [lia|]. cbn. destruct H as [H0 H1]. split; [destruct n0|destruct n1]; try done; apply IH; (done || lia).
Qed.

Lemma depth_ok_add p e n k : depth_ok n k -> (length p <= k)%nat -> depth_ok (add_bits p e n) k.
Proof.
  assert (Hnew : forall k, depth_ok new_node k) by (intros []; done).
  revert n k. induction p as [|b p IH]; intros [n0 n1 o] [|k] H Hle; cbn in *; try done; try lia.
  destruct H as [H0 H1].
  destruct b; cbn; split; try done; (apply IH; [|lia]); [destruct n1|destruct n0]; (apply Hnew || done).
Qed.

Lemma follow_app l k n m :
  follow (l ++ k) n m = match follow l n m with (Some n', m') => follow k n' m' | r => r end.
Proof.
  revert n m. induction l as [|b l IH]; intros n m; [done|]. cbn. destruct (next n b); [apply IH|done].
Qed.

Lemma follow_deep k l n m : depth_ok n k -> (k <= length l)%nat -> snd (follow l n m) = snd (follow (take k l) n m).
Proof.
  revert l n m. induction k as [|k IH]; intros l [n0 n1 o] m H Hl.
  - cbn in H. destruct H as [-> ->]. now destruct l as [|[] l].
  - destruct l as [|b l]; cbn in Hl; [lia|]. cbn in H. destruct H as [H0 H1]. cbn.
    destruct b; [destruct n1|destruct n0]; try done; apply IH; (done || lia).
Qed.

(** The entry of the longest non-empty bit string on the path [l] that has one. *)
Definition longest (entry : list bool -> option E) (l : list bool) (r : option E) : Prop :=
  match r with
  | None => forall p, p <> [] -> p `prefix_of` l -> entry p = None
  | Some e => exists p, p <> [] /\ p `prefix_of` l /\ entry p = Some e /\
      forall q, q `prefix_of` l -> is_Some (entry q) -> (length q <= length p)%nat
  end.

Lemma prefix_cons_inv (p : list bool) b l : p `prefix_of` b :: l -> p = [] \/ exists p', p = b :: p' /\ p' `prefix_of` l.
Proof.
  destruct p as [|x p]; [by left|]. intros H. right. exists p.
  split; [now rewrite (prefix_cons_inv_1 _ _ _ _ H)|now apply prefix_cons_inv_2 in H].
Qed.

Lemma longest_step n n' b l r :
  next n b = Some n' -> longest (entry_at n') l r ->
  longest (entry_at n) (b :: l) (match r with Some e => Some e | None => node_op n' end).
Proof.
  intros Hn Hl. assert (He : forall q, entry_at n (b :: q) = entry_at n' q) by (intros q; now rewrite entry_at_cons, Hn).
  destruct r as [e|]; cbn in Hl.
  - destruct Hl as (p & Hp & Hpre & Hpe & Hmax). exists (b :: p). rewrite He. split_and!; [done|by apply prefix_cons|done|].
    intros q [-> | (q' & -> & Hq)]%prefix_cons_inv Hs; cbn; [lia|]. rewrite He in Hs. specialize (Hmax q' Hq Hs). lia.
  - destruct (node_op n') as [e|] eqn:Ho.
    + exists [b]. rewrite He. split_and!; [done|by apply prefix_cons, prefix_nil|done|].
      intros q [-> | (q' & -> & Hq)]%prefix_cons_inv Hs; cbn; [lia|]. rewrite He in Hs.
      destruct q' as [|x q']; [done|]. rewrite Hl in Hs by done. by apply is_Some_None in Hs.
    + intros p Hp [-> | (q' & -> & Hq)]%prefix_cons_inv; [done|]. rewrite He. destruct q' as [|x q']; [done|]. now apply Hl.
Qed.

Lemma follow_default l n m :
  snd (follow l n m) = match snd (follow l n None) with Some e => Some e | None => m end.
Proof.
  revert n m. induction l as [|b l IH]; intros n m; [done|]. cbn [follow]. destruct (next n b) as [n'|]; [|done].
  rewrite IH, (IH n' (match node_op n' with Some e => Some e | None => None end)).
  destruct (follow l n' None).2; [done|]. now destruct (node_op n').
Qed.

Lemma follow_longest l n : longest (entry_at n) l (snd (follow l n None)).
Proof.
  revert n. induction l as [|b l IH]; intros n; cbn [follow].
  { intros p Hp ->%prefix_nil_inv. done. }
  destruct (next n b) as [n'|] eqn:Hn.
  - rewrite follow_default. pose proof (longest_step n n' b l _ Hn (IH n')) as H.
    destruct (follow l n' None).2; [done|]. now destruct (node_op n').
  - intros p Hp [-> | (q' & -> & Hq)]%prefix_cons_inv; [done|]. now rewrite entry_at_cons, Hn.
Qed.

End dispatch.
Arguments registration : clear implicits.
