(* ===== verification/DispatchTheorems.v ===== *)
(** * The opcode table finds the longest prefix

    The trie that [addPrefix] builds represents the map of the registered prefixes;
    the table over 16 bits and the walk bit by bit both return the entry of the
    longest registered prefix of the code, where code shorter than a prefix reads as
    if zeros followed it. *)

From S2P Require Import Prelude Bytes CellModel Builder Slice SliceSpec Dispatch.
From stdpp Require Import list gmap.
#[local] Open Scope Z_scope.

(** ** Reading padded code *)

(** The [n] bits from position [a] on, zero past the end. *)
Definition padded (l : list bool) (a n : nat) : list bool := (fun j => nth (a + j) l false) <$> seq 0 n.

Lemma length_padded l a n : length (padded l a n) = n.
Proof. unfold padded. now rewrite length_fmap, length_seq. Qed.

Lemma padded_S l a n : padded l a (S n) = nth a l false :: padded l (S a) n.
Proof.
  unfold padded. cbn [seq fmap list_fmap]. rewrite Nat.add_0_r. f_equal.
  rewrite <-fmap_S_seq, <-list_fmap_compose. apply list_fmap_ext. intros i j _. cbn. f_equal. lia.
Qed.

Lemma padded_app l a n m : padded l a (n + m) = padded l a n ++ padded l (a + n) m.
Proof.
  revert a. induction n as [|n IH]; intros a; [cbn; now rewrite Nat.add_0_r|].
  cbn [Nat.add]. rewrite !padded_S, IH. cbn. do 3 f_equal. lia.
Qed.

Lemma padded_full l n : padded l 0 (length l + n) = l ++ replicate n false.
Proof.
  rewrite padded_app. f_equal.
  - apply (list_eq_nth false); [now rewrite length_padded|]. intros i Hi. rewrite length_padded in Hi. unfold padded.
    now rewrite nth_map_seq.
  - apply (list_eq_nth false); [now rewrite length_padded, length_replicate|]. intros i Hi. rewrite length_padded in Hi.
    unfold padded. rewrite nth_map_seq by done. rewrite nth_overflow by lia. rewrite nth_lookup.
    destruct (replicate n false !! i) eqn:Hb; [now apply lookup_replicate in Hb as [-> _]|done].
Qed.

Lemma take_padded l n m : (n <= m)%nat -> take n (padded l 0 m) = padded l 0 n.
Proof. intros. unfold padded. rewrite <-fmap_take, take_seq. do 2 f_equal. lia. Qed.

Lemma shifted_bit l p i : 0 <= i < p -> p <= len l ->
  negb (Z.land (bits_uint (take (Z.to_nat p) l) ≫ (p - 1 - i)) 1 =? 0) = nth (Z.to_nat i) l false.
Proof.
  intros Hi Hp. assert (Hl : len (take (Z.to_nat p) l) = p) by (apply len_take; lia).
  rewrite (land_pow2_zero _ 0) by lia. rewrite negb_involutive, testbit_shiftr by lia. rewrite testbit_bits_uint, Hl. split_cmp. cbn [andb].
  rewrite nth_take by lia. f_equal. lia.
Qed.

Lemma bits_at_eq read l a n :
  (forall i, (a <= i < a + n)%nat -> exists b, read (Z.of_nat i) = Ok b /\ negb (b =? 0) = nth i l false) ->
  bits_at read (Z.of_nat a) n = Ok (padded l a n).
Proof.
  revert a. induction n as [|n IH]; intros a H; [done|]. destruct (H a ltac:(lia)) as (b & Hb & Hn).
  cbn [bits_at]. rewrite Hb. cbn [mbind outcome_bind]. replace (Z.of_nat a + 1) with (Z.of_nat (S a)) by lia.
  rewrite IH by (intros i Hi; apply H; lia). cbn [mbind outcome_bind]. now rewrite padded_S, Hn.
Qed.

Section lookup.
Context {E : Type} (d : opcodeDispatch E) (code : Slice).
Hypothesis Hcode : swf code.
Hypothesis Hsome : 0 < BitsLeft code.
Hypothesis Hmax : 0 <= dp_maxPrefixLen d.
Hypothesis Hdepth : depth_ok (dp_root d) (Z.to_nat (dp_maxPrefixLen d)).
Hypothesis Hindex : dp_index d = (fun raw => follow (index_bits (Z.of_nat raw)) (dp_root d) None) <$> seq 0 (Z.to_nat (2 ^ opcodeDispatchIndexBits)).

#[local] Abbreviation bs := (sbits code).
#[local] Abbreviation maxLen := (Z.to_nat (dp_maxPrefixLen d)).

(** What a lookup has to find. *)
Definition found : option E := snd (follow (padded bs 0 maxLen) (dp_root d) None).

Lemma preload p : 0 <= p <= 64 -> p <= BitsLeft code -> fst (PreloadUInt p code) = Ok (bits_uint (take (Z.to_nat p) bs)).
Proof.
  intros Hp Hl. unfold PreloadUInt. destruct (Z.leb_spec p 64); [|lia]. rewrite loadUintFast_run by done.
  destruct (Z.ltb_spec (BitsLeft code) p); [lia|]. now rewrite take_sbits by (done || lia).
Qed.

Lemma slow_walk_follow i fuel (n : trieNode E) m :
  slow_walk code (BitsLeft code) (Z.of_nat i) fuel n m = Ok (snd (follow (padded bs i fuel) n m)).
Proof.
  revert i n m. induction fuel as [|fuel IH]; intros i n m; [done|]. cbn [slow_walk]. rewrite padded_S. cbn [follow].
  replace (Z.of_nat i + 1) with (Z.of_nat (S i)) by lia. pose proof (len_sbits _ Hcode) as Hl. unfold len in Hl.
  destruct (Z.ltb_spec (Z.of_nat i) (BitsLeft code)) as [Hi | Hi].
  - assert (Hb : fst (BitAt (Z.of_nat i) code) = Ok (Z.b2z (nth i bs false))).
    { unfold BitAt. mrun. destruct (Z.leb_spec (BitsLeft code) (Z.of_nat i)); [lia|].
      pose proof (BitsLeft_eq _ Hcode). destruct Hcode as [Hok Hb He Hd _ _]. rewrite Bytes.index_ok by lia. mrun.
      rewrite land_bit by lia. unfold mret, M_ret. cbn [fst]. f_equal. f_equal. unfold sbits. rewrite nth_window by lia. done. }
    rewrite Hb. replace (negb (Z.b2z (nth i bs false) =? 0)) with (nth i bs false) by now destruct (nth i bs false).
    destruct (next n (nth i bs false)); [apply IH|done].
  - rewrite (nth_overflow bs) by lia. change (negb (0 =? 0)) with false. destruct (next n false); [apply IH|done].
Qed.

Lemma slow_found : matchOpcodeSlow (dp_root d) (dp_maxPrefixLen d) code (BitsLeft code) = Ok found.
Proof. unfold matchOpcodeSlow. apply (slow_walk_follow 0). Qed.

(** Following 16 bits and then the rest finds the same as following them all. *)
Lemma found_split :
  found = match follow (padded bs 0 16) (dp_root d) None with
          | (Some n, m) => snd (follow (padded bs 16 (maxLen - 16)) n m)
          | (None, m) => m
          end.
Proof.
  unfold found. rewrite <-(take_padded bs maxLen (16 + (maxLen - 16))) by lia.
  rewrite <-follow_deep, padded_app, follow_app by (rewrite ?length_padded; done || lia).
  destruct (follow (padded bs 0 16) (dp_root d) None) as [[n|] m]; done.
Qed.

Lemma index_bits_eq v : (forall i, 0 <= i < 16 -> Z.testbit v (15 - i) = nth (Z.to_nat i) bs false) -> index_bits v = padded bs 0 16.
Proof.
  intros H. unfold index_bits, padded. apply list_fmap_ext. intros ? i Hi%lookup_seq. unfold opcodeDispatchIndexBits.
  rewrite (land_pow2_zero _ 0) by lia. rewrite negb_involutive, testbit_shiftr by lia. cbn [Z.leb Z.compare andb].
  specialize (H (Z.of_nat i) ltac:(lia)). rewrite Nat2Z.id in H. cbn [Nat.add]. rewrite <-H. done.
Qed.

(** The index into the table of the first [p] bits. *)
Lemma index_at p : p = Z.min (BitsLeft code) 16 ->
  let raw := bits_uint (take (Z.to_nat p) bs) in
  dp_index d !! Z.to_nat (if 16 <=? p then Z.land raw ((1 ≪ 16) - 1) else u64 (raw ≪ (16 - p)))
  = Some (follow (padded bs 0 16) (dp_root d) None).
Proof.
  intros Hp raw. pose proof (len_sbits _ Hcode) as Hl.
  assert (Hlen : len (take (Z.to_nat p) bs) = p) by (apply len_take; lia).
  pose proof (bits_uint_bound (take (Z.to_nat p) bs)) as Hb. rewrite Hlen in Hb. fold raw in Hb.
  assert (Hpow : 2 ^ p * 2 ^ (16 - p) = 2 ^ 16) by (rewrite <-Z.pow_add_r by lia; f_equal; lia).
  set (v := if 16 <=? p then _ else _). assert (Hv : v = raw ≪ (16 - p)).
  { subst v. destruct (Z.leb_spec 16 p).
    - replace (16 - p) with 0 by lia. rewrite ones_pow, Z.land_ones, Z.mod_small by (try replace p with 16 in Hb by lia; lia).
      now rewrite Z.shiftl_0_r.
    - unfold u64. rewrite Z.mod_small; [done|]. rewrite Z.shiftl_mul_pow2 by lia. nia. }
  assert (Hvb : 0 <= v < 2 ^ 16) by (rewrite Hv, Z.shiftl_mul_pow2 by lia; nia).
  assert (Hix : index_bits (Z.of_nat (Z.to_nat v)) = padded bs 0 16).
  { apply index_bits_eq. intros i Hi. rewrite Z2Nat.id, Hv, testbit_shiftl by lia. split_cmp. cbn [andb].
    subst raw. rewrite testbit_bits_uint, Hlen. destruct (Z.ltb_spec i p).
    - split_cmp. cbn [andb]. rewrite nth_take by lia. f_equal. lia.
    - rewrite (nth_overflow bs) by (unfold len in Hl; lia). split_cmp; done. }
  rewrite Hindex, list_lookup_fmap, lookup_seq_lt by (unfold opcodeDispatchIndexBits; lia). cbn [fmap option_fmap option_map Nat.add].
  rewrite Hix. reflexivity.
Qed.

Lemma rest_bits p : 0 <= p <= BitsLeft code -> (p = BitsLeft code \/ dp_maxPrefixLen d <= p \/ dp_maxPrefixLen d <= 16) ->
  bits_at (padded_bit (bits_uint (take (Z.to_nat p) bs)) p) 16 (Z.to_nat (dp_maxPrefixLen d - 16))
  = Ok (padded bs 16 (maxLen - 16)).
Proof.
  intros Hp Hcase. pose proof (len_sbits _ Hcode) as Hl.
  replace (Z.to_nat (dp_maxPrefixLen d - 16)) with (maxLen - 16)%nat by lia.
  apply (bits_at_eq _ bs 16). intros i Hi. unfold padded_bit. eexists. split; [done|].
  destruct (Z.ltb_spec (Z.of_nat i) p).
  - rewrite shifted_bit by lia. now rewrite Nat2Z.id.
  - rewrite nth_overflow by (unfold len in Hl; lia). done.
Qed.

Lemma fast_found : dp_maxPrefixLen d <= 64 -> matchOpcodeFast d code (BitsLeft code) = Ok found.
Proof.
  intros Hm. unfold matchOpcodeFast, opcodeDispatchIndexBits.
  set (p := if BitsLeft code <? 16 then BitsLeft code else 16).
  assert (Hp : p = Z.min (BitsLeft code) 16) by (subst p; destruct (Z.ltb_spec (BitsLeft code) 16); lia).
  rewrite preload by lia. pose proof (index_at p Hp) as Hi. cbv zeta in Hi. rewrite Hi. rewrite found_split.
  destruct (follow (padded bs 0 16) (dp_root d) None) as [[n|] m]; [|done].
  destruct ((p <? BitsLeft code) && (p <? dp_maxPrefixLen d)) eqn:Hc.
  - set (p' := if BitsLeft code <? dp_maxPrefixLen d then _ else _).
    assert (Hp' : p' = Z.min (BitsLeft code) (dp_maxPrefixLen d)) by (subst p'; destruct (Z.ltb_spec (BitsLeft code) (dp_maxPrefixLen d)); lia).
    rewrite preload, rest_bits by lia. done.
  - rewrite rest_bits; [done|lia|]. apply andb_false_iff in Hc. rewrite !Z.ltb_ge in Hc. lia.
Qed.

Lemma match_found : matchOpcode d code = Ok found.
Proof.
  unfold matchOpcode. destruct (Z.eqb_spec (BitsLeft code) 0); [lia|].
  destruct (Z.leb_spec (dp_maxPrefixLen d) 64); [now apply fast_found|apply slow_found].
Qed.

(** The path may as well go on with any number of zeros. *)
Lemma found_longest k : (maxLen <= length bs + k)%nat -> longest (entry_at (dp_root d)) (bs ++ replicate k false) found.
Proof.
  intros Hk. unfold found. rewrite <-(take_padded bs maxLen (length bs + k)) by lia.
  rewrite <-follow_deep, padded_full by (rewrite ?length_padded; done || lia). apply follow_longest.
Qed.

End lookup.

(** ** Registration *)

Section registration.
Context {E : Type}.
#[local] Abbreviation table := (gmap (list bool) E).

(** The dispatch holds exactly the entries of a map. *)
Record dispatch_ok (T : table) (d : opcodeDispatch E) : Prop := {
  ok_entries : forall p, entry_at (dp_root d) p = T !! p;
  ok_max : 0 <= dp_maxPrefixLen d <= 1023;
  ok_depth : depth_ok (dp_root d) (Z.to_nat (dp_maxPrefixLen d));
  ok_index : length (dp_index d) = Z.to_nat (2 ^ opcodeDispatchIndexBits);
}.

Lemma new_dispatch_ok : dispatch_ok ∅ newOpcodeDispatch.
Proof.
  split; [intros p; apply entry_at_new|cbn; lia|done|]. unfold newOpcodeDispatch. cbn [dp_index]. apply length_replicate.
Qed.

Lemma addPrefix_ok T d s e : dispatch_ok T d -> swf s ->
  exists d', addPrefix s e d = (Ok tt, d') /\ dispatch_ok (<[sbits s := e]> T) d'.
Proof.
  intros [He Hm Hd Hi] Hs. pose proof (len_sbits _ Hs) as Hl. pose proof (BitsLeft_eq _ Hs). destruct (swf_bits _ Hs). pose proof (swf_end _ Hs).
  unfold addPrefix. rewrite bind_get. rewrite loadSlice_run by (done || lia). destruct (Z.ltb_spec (BitsLeft s) (BitsLeft s)); [lia|].
  cbn [fst]. rewrite bind_lift. rewrite (bits_at_eq _ (sbits s) 0).
  2:{ intros i Hin. unfold bitAt. rewrite Bytes.index_ok by (unfold len; rewrite length_pack; lia). cbn [mbind outcome_bind].
      eexists. split; [done|]. rewrite land_bit, bit_pack, Nat2Z.id by lia. replace (window _ _ _) with (sbits s) by (unfold sbits; f_equal; lia).
      now destruct (nth i (sbits s) false). }
  rewrite bind_lift. eexists. split; [reflexivity|].
  replace (padded (sbits s) 0 (Z.to_nat (BitsLeft s))) with (sbits s).
  2:{ replace (Z.to_nat (BitsLeft s)) with (length (sbits s) + 0)%nat by (unfold len in Hl; lia). rewrite padded_full. cbn. now rewrite app_nil_r. }
  split; cbn [dp_root dp_maxPrefixLen dp_index]; [| | |done].
  - intros p. rewrite entry_at_add. destruct (decide (sbits s = p)) as [-> |]; [now rewrite lookup_insert_eq|].
    now rewrite lookup_insert_ne.
  - destruct (Z.ltb_spec (dp_maxPrefixLen d) (BitsLeft s)); lia.
  - apply depth_ok_add.
    + eapply depth_ok_le; [exact Hd|]. destruct (Z.ltb_spec (dp_maxPrefixLen d) (BitsLeft s)); lia.
    + unfold len in Hl. destruct (Z.ltb_spec (dp_maxPrefixLen d) (BitsLeft s)); lia.
Qed.

(** The dispatches of all versions hold the maps [Ts]. *)
Definition all_ok (Ts : nat -> table) (ds : list (opcodeDispatch E)) : Prop :=
  length ds = Z.to_nat (MaxSupportedGlobalVersion + 1) /\ forall v d, ds !! v = Some d -> dispatch_ok (Ts v) d.

Lemma all_ok_ext Ts Ts' ds : all_ok Ts ds -> (forall v, (v < Z.to_nat (MaxSupportedGlobalVersion + 1))%nat -> Ts v = Ts' v) -> all_ok Ts' ds.
Proof.
  intros [Hl Hok] Heq. split; [done|]. intros v d Hv. rewrite <-Heq; [now apply Hok|].
  rewrite <-Hl. now apply lookup_lt_Some in Hv.
Qed.

Lemma add_at_ok Ts ds v s e :
  all_ok Ts ds -> swf s -> (v < Z.to_nat (MaxSupportedGlobalVersion + 1))%nat ->
  exists ds', add_at v s e ds = (Ok tt, ds') /\ all_ok (fun w => if decide (w = v) then <[sbits s := e]> (Ts w) else Ts w) ds'.
Proof.
  intros [Hl Hok] Hs Hv. unfold add_at. rewrite bind_get.
  destruct (lookup_lt_is_Some_2 ds v) as [d Hd]; [lia|]. rewrite Hd, bind_lift.
  destruct (addPrefix_ok _ d s e (Hok _ _ Hd) Hs) as (d' & Hr & Hok').
  rewrite (run_Ok _ _ _ _ Hr), bind_lift. eexists. split; [reflexivity|]. split; [now rewrite length_insert|].
  intros w dw. cbn [snd]. destruct (decide (w = v)) as [-> | Hne].
  - rewrite list_lookup_insert_eq by lia. intros [= <-]. done.
  - rewrite list_lookup_insert_ne by done. apply Hok.
Qed.

Lemma add_versions_ok vers Ts ds s e :
  all_ok Ts ds -> swf s -> Forall (fun v => v < Z.to_nat (MaxSupportedGlobalVersion + 1))%nat vers ->
  exists ds', add_versions vers s e ds = (Ok tt, ds') /\ all_ok (fun w => if decide (w ∈ vers) then <[sbits s := e]> (Ts w) else Ts w) ds'.
Proof.
  intros Hok Hs Hv. revert Ts ds Hok. induction Hv as [|v vers Hv _ IH]; intros Ts ds Hok.
  - exists ds. split; [done|]. apply (all_ok_ext _ _ _ Hok). intros w _. rewrite decide_False by (by intros []%elem_of_nil). done.
  - destruct (add_at_ok _ _ v s e Hok Hs Hv) as (ds1 & Hr1 & Hok1). destruct (IH _ _ Hok1) as (ds2 & Hr2 & Hok2).
    exists ds2. split; [cbn; rewrite (bind_Ok _ _ _ _ _ Hr1); exact Hr2|]. apply (all_ok_ext _ _ _ Hok2). intros w _.
    destruct (decide (w ∈ vers)); destruct (decide (w = v)); destruct (decide (w ∈ v :: vers)) as [Hin | Hin];
      rewrite ?elem_of_cons in Hin; try tauto; now rewrite ?insert_insert_eq.
Qed.

Lemma elem_of_versions lo hi v : 0 <= lo -> v ∈ versions lo hi <-> lo <= Z.of_nat v < hi.
Proof. intros. unfold versions. rewrite elem_of_seq. lia. Qed.

(** What one prefix of an opcode puts into the table of version [v]. *)
Definition table_add (v : nat) (r : registration E) (T : table) (s : Slice) : table :=
  if Z.max 0 (rg_minVersion r) <=? Z.of_nat v then <[sbits s := rg_entry r]> T
  else if opcodeIsHistoricalQuietCompoundPrefix s then <[sbits s := rg_invalid r]> T
  else T.

(** The table of version [v]: later registrations override earlier ones. *)
Definition opcode_table (registry : list (registration E)) (v : nat) : table :=
  foldl (fun T r => foldl (table_add v r) T (rg_prefixes r)) ∅ registry.

Lemma register_prefixes_ok r prefixes Ts ds :
  all_ok Ts ds -> Forall swf prefixes ->
  exists ds', register_prefixes r (Z.max 0 (rg_minVersion r)) prefixes ds = (Ok tt, ds') /\
    all_ok (fun v => foldl (table_add v r) (Ts v) prefixes) ds'.
Proof.
  intros Hok Hs. revert Ts ds Hok. induction Hs as [|s prefixes Hs _ IH]; intros Ts ds Hok; [now exists ds|].
  cbn [register_prefixes]. set (min := Z.max 0 (rg_minVersion r)). set (inv := (0 <? min) && _).
  assert (exists ds1, (if inv then add_versions (versions 0 (Z.min min (MaxSupportedGlobalVersion + 1))) s (rg_invalid r) else mret tt) ds = (Ok tt, ds1) /\
            all_ok (fun w => if decide (inv = true /\ Z.of_nat w < min) then <[sbits s := rg_invalid r]> (Ts w) else Ts w) ds1) as (ds1 & Hr1 & Hok1).
  { destruct inv.
    - destruct (add_versions_ok (versions 0 (Z.min min (MaxSupportedGlobalVersion + 1))) Ts ds s (rg_invalid r) Hok Hs) as (ds1 & Hr & Hok1).
      { apply Forall_forall. intros v Hv%elem_of_versions; lia. }
      exists ds1. split; [done|]. apply (all_ok_ext _ _ _ Hok1). intros w Hw.
      destruct (decide _) as [Hin | Hin]; rewrite elem_of_versions in Hin by lia; destruct (decide _); (done || lia).
    - exists ds. split; [done|]. apply (all_ok_ext _ _ _ Hok). intros w Hw. rewrite decide_False by (by intros []). done. }
  rewrite (bind_Ok _ _ _ _ _ Hr1).
  destruct (add_versions_ok (versions min (MaxSupportedGlobalVersion + 1)) _ ds1 s (rg_entry r) Hok1 Hs) as (ds2 & Hr2 & Hok2).
  { apply Forall_forall. intros v Hv%elem_of_versions; lia. }
  rewrite (bind_Ok _ _ _ _ _ Hr2). apply IH. apply (all_ok_ext _ _ _ Hok2). intros w Hw. unfold table_add. fold min.
  destruct (decide (w ∈ _)) as [Hin | Hin]; rewrite elem_of_versions in Hin by lia; destruct (Z.leb_spec min (Z.of_nat w)); try lia.
  - rewrite decide_False by lia. done.
  - subst inv. destruct (opcodeIsHistoricalQuietCompoundPrefix s); cbn.
    + rewrite andb_true_r, decide_True; [done|]. split; [apply Z.ltb_lt; lia|done].
    + rewrite andb_false_r, decide_False; [done|by intros []].
Qed.

Lemma register_all_ok registry Ts ds :
  all_ok Ts ds -> Forall (fun r => Forall swf (rg_prefixes r)) registry ->
  exists ds', register_all registry ds = (Ok tt, ds') /\
    all_ok (fun v => foldl (fun T r => foldl (table_add v r) T (rg_prefixes r)) (Ts v) registry) ds'.
Proof.
  intros Hok Hs. revert Ts ds Hok. induction Hs as [|r registry Hr _ IH]; intros Ts ds Hok; [now exists ds|].
  destruct (register_prefixes_ok r (rg_prefixes r) Ts ds Hok Hr) as (ds1 & Hr1 & Hok1).
  cbn [register_all]. unfold registerOpcodePrefixes.
  replace (if rg_minVersion r <? 0 then 0 else rg_minVersion r) with (Z.max 0 (rg_minVersion r)) by (destruct (Z.ltb_spec (rg_minVersion r) 0); lia).
  rewrite (bind_Ok _ _ _ _ _ Hr1). apply (IH _ _ Hok1).
Qed.

End registration.

Lemma fast_ok {E} (T : gmap (list bool) E) d code :
  dispatch_ok T d -> swf code -> 0 < BitsLeft code ->
  let d' := snd (buildFastTable d) in
  exists r, matchOpcode d' code = Ok r /\ matchOpcodeSlow (dp_root d') (dp_maxPrefixLen d') code (BitsLeft code) = Ok r /\
    longest (fun p => T !! p) (sbits code ++ replicate 1023 false) r.
Proof.
  intros [He Hm Hd Hi] Hc Hpos d'. exists (found d' code).
  assert (Hix : dp_index d' = (fun raw => follow (index_bits (Z.of_nat raw)) (dp_root d') None) <$> seq 0 (Z.to_nat (2 ^ opcodeDispatchIndexBits)))
    by (subst d'; unfold buildFastTable, modify; cbn [snd dp_index dp_root]; now rewrite Hi).
  split_and!; [now apply match_found|now apply slow_found|].
  pose proof (found_longest d' code Hd 1023 ltac:(cbn; lia)) as Hl.
  destruct (found d' code) as [e|]; cbn in Hl |- *.
  - destruct Hl as (p & Hp & Hpre & Hpe & Hmax). exists p. split_and!; [done..|now rewrite <-He|].
    intros q Hq Hs. apply Hmax; [done|]. now rewrite He.
  - intros p Hp Hpre. rewrite <-He. now apply Hl.
Qed.

(** The tables that are built, and what their lookups find. *)
Lemma built_lookup {E} (registry : list (registration E)) :
  Forall (fun r => Forall swf (rg_prefixes r)) registry ->
  exists ds, buildOpcodeDispatches registry = Ok ds /\ Z.of_nat (length ds) = MaxSupportedGlobalVersion + 1 /\
    forall v d code, ds !! v = Some d -> swf code -> 0 < BitsLeft code ->
      exists r, matchOpcode d code = Ok r /\
        matchOpcodeSlow (dp_root d) (dp_maxPrefixLen d) code (BitsLeft code) = Ok r /\
        longest (fun p => opcode_table registry v !! p) (sbits code ++ replicate 1023 false) r.
Proof.
  intros Hs. destruct (register_all_ok registry (fun _ => ∅) (replicate (Z.to_nat (MaxSupportedGlobalVersion + 1)) newOpcodeDispatch)) as (ds & Hr & Hl & Hok).
  { split; [apply length_replicate|]. intros w d Hd. apply lookup_replicate in Hd as [-> _]. apply new_dispatch_ok. }
  { done. }
  exists ((fun d : opcodeDispatch E => snd (buildFastTable d)) <$> ds). split_and!.
  - unfold buildOpcodeDispatches. rewrite (run_Ok _ _ _ _ Hr). done.
  - rewrite length_fmap, Hl. done.
  - intros v d' code (d & -> & Hd)%list_lookup_fmap_Some Hc Hpos. exact (fast_ok _ d code (Hok _ _ Hd) Hc Hpos).
Qed.

(** C8: For every registry of opcodes, the table built for a global version finds for
    any code that is not empty the entry of the longest prefix registered for that
    version that starts the code, code that ends early reading as if zeros followed.
    The lookup through the table of the first 16 bits and the walk bit by bit give the
    same answer.  A prefix counts from the first version of its opcode on; before
    that, only the historical compound prefixes have an entry, the rejecting one. *)
Theorem opcode_lookup_longest {E} (registry : list (registration E)) (v : nat) code :
  Forall (fun r => Forall swf (rg_prefixes r)) registry -> Z.of_nat v <= MaxSupportedGlobalVersion ->
  swf code -> 0 < BitsLeft code ->
  exists ds d r, buildOpcodeDispatches registry = Ok ds /\ ds !! v = Some d /\
    matchOpcode d code = Ok r /\
    matchOpcodeSlow (dp_root d) (dp_maxPrefixLen d) code (BitsLeft code) = Ok r /\
    longest (fun p => opcode_table registry v !! p) (sbits code ++ replicate 1023 false) r.
Proof.
  intros Hs Hv Hc Hpos. destruct (built_lookup registry Hs) as (ds & Hb & Hl & Hlook).
  destruct (lookup_lt_is_Some_2 ds v) as [d Hd]; [lia|]. destruct (Hlook v d code Hd Hc Hpos) as (r & Hm & Hsl & Hlong). by exists ds, d, r.
Qed.

(** A slice over the bytes [data]. *)
Definition byte_slice (data : list Z) (bits : Z) : Slice := mkSlice (mkCell data bits false 0 [] [] []) 0 bits 0 0.

(** [PUSHINT] with four bits, its form with eight bits, and an opcode of version 4. *)
Definition sample_registry : list (registration nat) :=
  [mkRegistration [byte_slice [0x70] 4] 0 1%nat 0%nat;
   mkRegistration [byte_slice [0x80] 8] 0 2%nat 0%nat;
   mkRegistration [byte_slice [0xb7; 0xa9; 0x00] 24] 4 3%nat 30%nat].

(** A test for slices over literal bytes. *)
Definition byte_slice_okb (data : list Z) (bits : Z) : bool :=
  forallb (fun b => (0 <=? b) && (b <? 256)) data && (0 <=? bits) && (bits <=? 8 * len data) && (len data <=? 127).

Lemma byte_slice_swf data bits : byte_slice_okb data bits = true -> swf (byte_slice data bits).
Proof.
  unfold byte_slice_okb. rewrite !andb_true_iff, forallb_forall, !Z.leb_le. intros [[[Hb ?] ?] ?].
  split; unfold byte_slice, s_data; cbn [s_cell s_bitStart s_bitEnd s_refStart s_refEnd c_data c_refs];
    change (len (@nil Cell)) with 0; try lia. apply Forall_forall. intros x Hx%list_elem_of_In. specialize (Hb x Hx). lia.
Qed.

Example opcode_lookup_longest_witness :
  exists ds d r, buildOpcodeDispatches sample_registry = Ok ds /\ ds !! 3%nat = Some d /\
    matchOpcode d (byte_slice [0xb7; 0xa9] 16) = Ok r /\
    matchOpcodeSlow (dp_root d) (dp_maxPrefixLen d) (byte_slice [0xb7; 0xa9] 16) 16 = Ok r /\
    longest (fun p => opcode_table sample_registry 3 !! p) (sbits (byte_slice [0xb7; 0xa9] 16) ++ replicate 1023 false) r.
Proof.
  apply (opcode_lookup_longest sample_registry 3 (byte_slice [0xb7; 0xa9] 16)); [|vm_compute; discriminate| |reflexivity].
  - repeat first [apply Forall_nil_2 | apply Forall_cons_2 | apply byte_slice_swf; reflexivity].
  - apply byte_slice_swf. reflexivity.
Defined.

(** ** What a lookup can return *)

(** All entries of a trie satisfy [P]. *)
Fixpoint trie_all {E} (P : E -> Prop) (n : trieNode E) : Prop :=
  match n with
  | TrieNode n0 n1 o =>
      match n0 with None => True | Some m => trie_all P m end /\
      match n1 with None => True | Some m => trie_all P m end /\
      match o with None => True | Some e => P e end
  end.

Section returned.
Context {E : Type} (P : E -> Prop).

Definition opt_all (o : option E) : Prop := match o with None => True | Some e => P e end.

Lemma trie_all_add l e n : P e -> trie_all P n -> trie_all P (add_bits l e n).
Proof.
  intros He. revert n. induction l as [|b l IH]; intros [n0 n1 o] (H0 & H1 & Ho); [done|].
  destruct b; cbn; split_and!; try done; apply IH; [destruct n1|destruct n0]; done.
Qed.

Lemma follow_all l n m : trie_all P n -> opt_all m ->
  opt_all (snd (follow l n m)) /\ match fst (follow l n m) with Some n' => trie_all P n' | None => True end.
Proof.
  revert n m. induction l as [|b l IH]; intros [n0 n1 o] m Hn Hm; [done|]. cbn [follow]. cbn in Hn. destruct Hn as (H0 & H1 & Ho).
  destruct (next _ b) as [n'|] eqn:Hn; [|done]. assert (Hn' : trie_all P n') by (destruct b; cbn in Hn; subst; done).
  apply IH; [done|]. destruct n' as [? ? [e|]]; cbn in *; tauto.
Qed.

Lemma slow_walk_all code a i fuel n m r : trie_all P n -> opt_all m -> slow_walk code a i fuel n m = Ok r -> opt_all r.
Proof.
  revert i n m. induction fuel as [|fuel IH]; intros i [n0 n1 o] m Hn Hm; [by intros [= <-]|].
  assert (Hgo : forall b, match next (TrieNode n0 n1 o) b with
                          | None => Ok m
                          | Some n' => slow_walk code a (i + 1) fuel n' (match node_op n' with Some e => Some e | None => m end)
                          end = Ok r -> opt_all r).
  { intros b. cbn in Hn. destruct Hn as (H0 & H1 & Ho). destruct (next _ b) as [n'|] eqn:Hn; [|by intros [= <-]].
    assert (Hn' : trie_all P n') by (destruct b; cbn in Hn; subst; done).
    apply IH; [done|]. destruct n' as [? ? [e|]]; cbn in *; tauto. }
  cbn [slow_walk]. destruct (i <? a); [|apply Hgo]. destruct (fst (BitAt i code)) as [bit|e|]; [apply Hgo|by intros [= <-]|done].
Qed.

(** A dispatch all of whose entries, in the trie and in the table, satisfy [P]. *)
Definition dispatch_all (d : opcodeDispatch E) : Prop :=
  trie_all P (dp_root d) /\
  Forall (fun x => opt_all (snd x) /\ match fst x with Some n => trie_all P n | None => True end) (dp_index d).

Lemma matchOpcode_all d code e : dispatch_all d -> matchOpcode d code = Ok (Some e) -> P e.
Proof.
  intros [Hr Hi]. unfold matchOpcode. destruct (_ =? 0); [done|]. destruct (_ <=? 64).
  - unfold matchOpcodeFast. destruct (fst (PreloadUInt _ code)) as [raw|?|]; [|done..].
    destruct (dp_index d !! _) as [[[n|] m]|] eqn:Hx; [|intros [= ->]; pose proof (proj1 (Forall_lookup _ _) Hi _ _ Hx) as [? _]; done|done].
    pose proof (proj1 (Forall_lookup _ _) Hi _ _ Hx) as [Hm Hn]. cbn in Hm, Hn.
    assert (Hf : forall p raw, (l ← bits_at (padded_bit raw p) opcodeDispatchIndexBits (Z.to_nat (dp_maxPrefixLen d - opcodeDispatchIndexBits));
              Ok (snd (follow l n m))) = Ok (Some e) -> P e).
    { intros p raw'. destruct (bits_at _ _ _) as [l|?|]; [|done..]. cbn. intros [= Hl].
      pose proof (proj1 (follow_all l n m Hn Hm)) as Ho. now rewrite Hl in Ho. }
    destruct (_ && _); [|apply Hf]. destruct (fst (PreloadUInt _ code)); [apply Hf|done..].
  - intros Hs. exact (slow_walk_all _ _ _ _ _ None (Some e) Hr I Hs).
Qed.

Lemma fast_all d : trie_all P (dp_root d) -> dispatch_all (snd (buildFastTable d)).
Proof.
  intros Hr. split; [done|]. unfold buildFastTable, modify. cbn [snd dp_index]. apply Forall_fmap, Forall_true.
  intros raw. cbn. apply follow_all; done.
Qed.

Lemma addPrefix_all s e d d' : P e -> trie_all P (dp_root d) -> addPrefix s e d = (Ok tt, d') -> trie_all P (dp_root d').
Proof.
  intros He Hr. unfold addPrefix. rewrite bind_get. destruct (match fst _ with Err _ => Panic | o => o end) as [raw|?|]; [|done..].
  rewrite bind_lift. destruct (bits_at _ _ _) as [l|?|]; [|done..]. rewrite bind_lift. intros [= <-]. cbn. now apply trie_all_add.
Qed.

#[local] Abbreviation tries ds := (Forall (fun d : opcodeDispatch E => trie_all P (dp_root d)) ds).

Lemma add_versions_all vers s e ds ds' : P e -> tries ds -> add_versions vers s e ds = (Ok tt, ds') -> tries ds'.
Proof.
  intros He. revert ds. induction vers as [|v vers IH]; intros ds Hd; [by intros [= <-]|]. cbn [add_versions].
  intros ([] & ds1 & H1 & H2)%bind_inv_Ok. apply (IH ds1); [|done]. revert H1. unfold add_at. rewrite bind_get.
  destruct (ds !! v) as [d|] eqn:Hv; [|done]. rewrite bind_lift. unfold run. destruct (addPrefix s e d) as [[[]|?|] d'] eqn:Hr; [|done..].
  rewrite bind_lift. intros [= <-]. apply Forall_insert; [done|]. eapply addPrefix_all; [done| |done].
  exact (proj1 (Forall_lookup _ _) Hd _ _ Hv).
Qed.

Lemma register_all_all registry ds ds' :
  Forall (fun r => P (rg_entry r) /\ P (rg_invalid r)) registry -> tries ds -> register_all registry ds = (Ok tt, ds') -> tries ds'.
Proof.
  intros Hr. revert ds. induction Hr as [|r registry [He Hi] _ IH]; intros ds Hd; [by intros [= <-]|]. cbn [register_all].
  intros ([] & ds1 & H1 & H2)%bind_inv_Ok. apply (IH ds1); [|done]. revert H1. unfold registerOpcodePrefixes.
  generalize (if rg_minVersion r <? 0 then 0 else rg_minVersion r). intros min. clear H2. revert ds Hd.
  induction (rg_prefixes r) as [|s prefixes IHp]; intros ds Hd; [by intros [= <-]|]. cbn [register_prefixes].
  intros ([] & ds2 & H1 & ([] & ds3 & H2 & H3)%bind_inv_Ok)%bind_inv_Ok. apply (IHp ds3); [|done].
  eapply add_versions_all; [exact He| |exact H2]. destruct (_ && _); [|by injection H1 as <-].
  eapply add_versions_all; [exact Hi|exact Hd|exact H1].
Qed.

(** Every table that [buildOpcodeDispatches] builds returns only registered entries. *)
Lemma built_all registry ds :
  Forall (fun r => P (rg_entry r) /\ P (rg_invalid r)) registry -> buildOpcodeDispatches registry = Ok ds -> Forall dispatch_all ds.
Proof.
  intros Hr. unfold buildOpcodeDispatches, run. destruct (register_all _ _) as [[[]|?|] ds'] eqn:Ha; [|done..]. cbn. intros [= <-].
  apply Forall_fmap. eapply Forall_impl; [eapply register_all_all; [exact Hr| |exact Ha]|intros d; apply fast_all].
  apply Forall_replicate. done.
Qed.

End returned.
