(* ===== verification/Run.v ===== *)
(** * The run loop

    Models the execution of [tvm/vm.go] over the table of [Dispatch]: a step matches,
    decodes, charges and interprets one instruction or takes an implicit jump or
    return; errors go to the handler in [c2] or end the run; [runState] turns the end
    into an exit code and commits.  Instructions are the values of the interfaces
    [vm.ArgOP] and [vm.OP], as records of their methods.  Tracing and virtualised
    cells have no counterpart.  The loop is bounded by fuel; [None] says it ran out,
    and [RunTheorems] shows how much is enough. *)

From S2P Require Import Prelude Bytes CellModel Builder Slice Gas Value Stack VmState Exec CellLoad Dispatch.
From stdpp Require Import strings.
#[local] Open Scope Z_scope.

(** ** Instructions *)

(** [vm.ArgOP].  [DecodeArgs] reads the code and returns its arguments also with an
    error; the interface passes the state too, which no instruction looks at. *)
Record ArgOP : Type := mkArgOP {
  op_GetPrefixes : list Slice;
  op_DecodeArgs : M Slice (Z * option error);
  op_ArgInstructionBits : Z -> Z;
  op_InterpretArgs : Z -> M State unit;
  op_MinGlobalVersion : Z;
}.

(** A decoded instance of [vm.OP]: its length when it is a [GasPricedOp], and its
    action. *)
Record instance : Type := mkInstance {
  in_InstructionBits : option Z;
  in_Interpret : M State unit;
}.

(** [vm.OP] with [Deserialize]: the instance as decoded so far, also with an error. *)
Record OP : Type := mkOP {
  o_GetPrefixes : list Slice;
  o_Deserialize : M Slice (instance * option error);
  o_MinGlobalVersion : Z;
}.

Inductive dispatchEntry : Type :=
  | EArg (arg : ArgOP)
  | EGet (get : OP).

(** [historicalInvalidArgOP] and [historicalInvalidOpcode] *)
Definition historicalInvalidArgOP (op : ArgOP) : ArgOP :=
  mkArgOP (op_GetPrefixes op) (op_DecodeArgs op) (op_ArgInstructionBits op) (fun _ => fail (VMErr CodeInvalidOpcode)) (op_MinGlobalVersion op).

Definition historicalInvalidOpcode (op : OP) : OP :=
  mkOP (o_GetPrefixes op)
    (r ← o_Deserialize op;
     mret (mkInstance (in_InstructionBits (fst r)) (fail (VMErr CodeInvalidOpcode)), snd r))
    (o_MinGlobalVersion op).

(** What [buildOpcodeDispatches] registers for an instruction. *)
Definition registration_of (e : dispatchEntry) : registration dispatchEntry :=
  match e with
  | EArg op => mkRegistration (op_GetPrefixes op) (op_MinGlobalVersion op) e (EArg (historicalInvalidArgOP op))
  | EGet op => mkRegistration (o_GetPrefixes op) (o_MinGlobalVersion op) e (EGet (historicalInvalidOpcode op))
  end.

Definition newTVM (registry : list dispatchEntry) : outcome (list (opcodeDispatch dispatchEntry)) :=
  buildOpcodeDispatches (registration_of <$> registry).

(** ** Errors *)

Definition IsNotEnoughDataError (e : error) : bool := match e with ErrNotEnoughData _ _ => true | _ => false end.

Definition normalizeCellError (e : error) : error :=
  match e with
  | VMErr _ | HandledErr _ => e
  | ErrNotEnoughData _ _ | ErrNoMoreRefs | ErrSmallSlice => VMErr CodeCellUnderflow
  | ErrNotFit1023 | ErrTooMuchRefs | ErrCellDepthLimit | ErrRefCannotBeNil => VMErr CodeCellOverflow
  | ErrTooBigValue | ErrNegative | ErrInvalidSize | ErrNilBigInt | ErrTooBigSize => VMErr CodeRangeCheck
  | _ => e
  end.

(** [normalizeOpcodeDeserializeError] and its form for [ArgOP]; an error wrapped by the
    code stays the error it wraps. *)
Definition normalizeOpcodeDeserializeError (e : error) : error :=
  match e with
  | ErrCorruptedOpcode | ErrNoMoreRefs | ErrSmallSlice | ErrNotEnoughData _ _ => VMErr CodeInvalidOpcode
  | _ => e
  end.

(** ** One step *)

(** Goes on with the result of [m], a failure included. *)
Definition on_result {A B} (m : M State A) (k : outcome A -> M State B) : M State B :=
  fun st => let '(r, st') := m st in k r st'.

Definition count_step : M State unit := modify (fun st => set_steps st (u64 (st_Steps st + 1))).

Definition interpretOpcode (body : M State unit) : M State unit :=
  st ← get_state;
  (if 4 <=? st_GlobalVersion st then CheckGas else mret tt) ;;
  on_result body (fun r =>
    match r with
    | Err e =>
        PendingError ;;
        (if bool_decide (e = ErrStopOnAccept) then on_gas CheckRemaining else mret tt) ;;
        fail (normalizeCellError e)
    | Ok _ => CheckGas
    | Panic => lift Panic
    end).

Definition consumeInstructionGas (op : instance) : M State unit :=
  match in_InstructionBits op with
  | None => mret tt
  | Some bits => ConsumeGas (InstructionBaseGasPrice + bits)
  end.

Definition executeDecodedOpcode (op : instance) : M State unit :=
  consumeInstructionGas op ;;
  interpretOpcode (in_Interpret op).

Definition executeArgOpcode (op : ArgOP) : M State unit :=
  '(args, err) ← on_code (op_DecodeArgs op);
  match err with
  | Some err =>
      ConsumeGas (InstructionBaseGasPrice + op_ArgInstructionBits op args) ;;
      fail (normalizeOpcodeDeserializeError err)
  | None =>
      ConsumeGas (InstructionBaseGasPrice + op_ArgInstructionBits op args) ;;
      interpretOpcode (op_InterpretArgs op args)
  end.

Definition executeOpcode (op : OP) : M State unit :=
  '(op, err) ← on_code (o_Deserialize op);
  match err with
  | Some err => consumeInstructionGas op ;; fail (normalizeOpcodeDeserializeError err)
  | None => executeDecodedOpcode op
  end.

(** Opcodes that early tables did not have. *)
Definition historical_entry (st : State) (entry : option dispatchEntry) : outcome (option dispatchEntry) :=
  let h := st_Historical st in
  if (st_GlobalVersion st =? 0) && (h_NoPRNG h || h_NoBLKDROP2 h) then
    let bits := Z.min (BitsLeft (st_CurrentCode st)) 16 in
    match fst (PreloadUInt bits (st_CurrentCode st)) with
    | Ok raw =>
        let prefix := raw ≪ (16 - bits) in
        let entry := if h_NoBLKDROP2 h && (prefix ≫ 8 =? 0x6c) then None else entry in
        Ok (if h_NoPRNG h && ((prefix =? 0xf810) || (prefix =? 0xf811) || (prefix =? 0xf814) || (prefix =? 0xf815)) then None else entry)
    | _ => Panic
    end
  else Ok entry.

Definition stepWithDispatch (dispatch : opcodeDispatch dispatchEntry) : M State unit :=
  st ← get_state;
  entry ← lift (matchOpcode dispatch (st_CurrentCode st));
  entry ← lift (historical_entry st entry);
  match entry with
  | None => ConsumeGas InstructionBaseGasPrice ;; fail (VMErr CodeInvalidOpcode)
  | Some (EArg op) => executeArgOpcode op
  | Some (EGet op) => executeOpcode op
  end.

Section run.
Context `{MeteredLookup}.

(** Implicit jumps and returns are free only under the historical schedules. *)
Definition implicit_charge (price : Z) : M State unit :=
  st ← get_state;
  if negb (st_GlobalVersion st =? 0) || bool_decide (h_GasSchedule (st_Historical st) = GasScheduleModern)
  then on_gas (Consume price) else mret tt.

Definition stepAnyWithDispatch (dispatch : opcodeDispatch dispatchEntry) : M State unit :=
  st ← get_state;
  if 0 <? BitsLeft (st_CurrentCode st) then count_step ;; stepWithDispatch dispatch
  else if 0 <? RefsNum (st_CurrentCode st) then
    count_step ;;
    implicit_charge ImplicitJmprefGasPrice ;;
    cc ← LoadRef_code;
    st ← get_state;
    JumpToCode cc (st_CP st)
  else
    count_step ;;
    implicit_charge ImplicitRetGasPrice ;;
    Return None.

(** ** Errors of a step: [true] to go on with the handler, [false] to stop *)

Definition out_of_gas (e : error) : M State bool :=
  count_step ;;
  HandleOutOfGas ;;
  fail e.

Definition IsOutOfGas (e : error) : bool := match e with VMErr code => code =? CodeOutOfGas | _ => false end.

Definition handleStepError (e : error) : M State bool :=
  if IsHandledException e then fail e
  else if bool_decide (e = ErrStopOnAccept) then mret false
  else if IsOutOfGas e then out_of_gas e
  else
    st ← get_state;
    match e with
    | VMErr code =>
        if negb (IsNullContinuation (r_C (st_Reg st) 2)) && negb (IsSuccessExitCode code) then
          count_step ;;
          on_result (ThrowException code None) (fun r =>
            match r with
            | Ok _ => mret true
            | Err e' => if IsOutOfGas e' then out_of_gas e' else fail e'
            | Panic => lift Panic
            end)
        else fail e
    | _ => fail e
    end.

(** The error a step leaves to [handleStepError]: before version 4 an overdraft
    overrides a normal end. *)
Definition step_error (r : outcome unit) : M State (option error) :=
  st ← get_state;
  let err := match r with Err e => Some e | _ => None end in
  if (st_GlobalVersion st <? 4) && (match err with None => true | Some e => IsHandledException e end) then
    on_result CheckGas (fun c => mret (match c with Err gasErr => Some gasErr | _ => err end))
  else mret err.

(** One iteration of [execute]: [Ok true] to go on. *)
Definition execute_iter (dispatch : opcodeDispatch dispatchEntry) : M State bool :=
  on_result (stepAnyWithDispatch dispatch) (fun r =>
    match r with
    | Panic => lift Panic
    | _ =>
        err ← step_error r;
        match err with
        | None => mret true
        | Some e => handleStepError e
        end
    end).

Fixpoint execute (fuel : nat) (dispatch : opcodeDispatch dispatchEntry) (st : State) : option (outcome unit * State) :=
  match fuel with
  | O => None
  | S fuel =>
      match execute_iter dispatch st with
      | (Ok true, st') => execute fuel dispatch st'
      | (Ok false, st') => Some (Ok tt, st')
      | (Err e, st') => Some (Err e, st')
      | (Panic, st') => Some (Panic, st')
      end
  end.

(** ** The whole run *)

(** The end of [runState]: exit code, error, state. *)
Definition commit_run (exitCode : Z) (st : State) : Z * option error * State :=
  match TryCommitCurrent st with
  | (Ok true, st') => (exitCode, None, st')
  | (_, st') =>
      match on_stack (Clear ;; PushSmallInt 0) st' with
      | (Err e, st'') => (0, Some e, st'')
      | (_, st'') => (CodeCellOverflow, Some (VMErr CodeCellOverflow), st'')
      end
  end.

Definition exit_code (e : error) (code : Z) : Z :=
  if (code =? CodeOutOfGas) && negb (IsHandledException e) then Z.lnot code else code.

Definition run_result (r : outcome unit) (st : State) : Z * option error * State :=
  match r with
  | Panic => (CodeFatal, Some (ErrText "vm panic"), st)
  | Ok _ => commit_run 0 st
  | Err e =>
      match ErrorCode e with
      | None => (0, Some e, st)
      | Some code =>
          let exitCode := exit_code e code in
          if negb (IsSuccessExitCode exitCode) then (exitCode, Some e, st) else commit_run exitCode st
      end
  end.

Definition runState (fuel : nat) (tvm : list (opcodeDispatch dispatchEntry)) (st : State) : option (Z * option error * State) :=
  match (if st_GlobalVersion st <? 0 then None else tvm !! Z.to_nat (st_GlobalVersion st)) with
  | None => Some (CodeFatal, Some (ErrText "vm panic"), st)
  | Some dispatch =>
      match execute fuel dispatch st with
      | None => None
      | Some (r, st') => Some (run_result r st')
      end
  end.

End run.
