(* ===== verification/RunTheorems.v ===== *)
(** * Every execution ends

    From version 4 on, each step of the machine uses at least five units of gas or
    ends the run, whatever the code: an instruction costs at least ten, an implicit
    jump ten, an implicit return five and an exception fifty, and no lawful
    instruction gives gas back.  The meter never allows more than the larger of its
    base and its maximum, so the loop ends. *)

From S2P Require Import Prelude Bytes CellModel Builder Slice Gas Value Stack VmState Exec CellLoad GasLaw Dispatch DispatchTheorems Run.
#[local] Open Scope Z_scope.

(** ** Lawful instructions *)

(** What the run loop relies on of an instruction: the charged length is a length, and
    the action obeys the law of gas. *)
Definition argop_lawful (op : ArgOP) : Prop :=
  (forall s args err s', op_DecodeArgs op s = (Ok (args, err), s') -> 0 <= op_ArgInstructionBits op args < 2 ^ 62) /\
  (forall args, lawful_gen Broke (op_InterpretArgs op args)).

Definition op_lawful (op : OP) : Prop :=
  forall s i err s', o_Deserialize op s = (Ok (i, err), s') ->
    (exists bits, in_InstructionBits i = Some bits /\ 0 <= bits < 2 ^ 62) /\ lawful_gen Broke (in_Interpret i).

Definition entry_lawful (e : dispatchEntry) : Prop :=
  match e with EArg op => argop_lawful op | EGet op => op_lawful op end.

Lemma registration_lawful e : entry_lawful e -> entry_lawful (rg_entry (registration_of e)) /\ entry_lawful (rg_invalid (registration_of e)).
Proof.
  destruct e as [op|op]; cbn; intros He; (split; [done|]).
  - destruct He as [Hb _]. split; [done|]. intros args st. apply law_fail.
  - intros s i err s'. cbn. intros ([i0 e0] & s1 & H1 & H2)%bind_inv_Ok. injection H2 as <- <- <-. cbn.
    destruct (He _ _ _ _ H1) as [Hb _]. split; [done|]. intros st. apply law_fail.
Qed.

(** ** Costs *)

Lemma bind_run {S A B} (m : M S A) (k : A -> M S B) s :
  (m ≫= k) s = match m s with (Ok a, s') => k a s' | (Err e, s') => (Err e, s') | (Panic, s') => (Panic, s') end.
Proof. reflexivity. Qed.

(** The outcome of a computation that costs at least [n] unless it fails. *)
Definition step_post (n : Z) {A} (st : State) (r : outcome A) (st' : State) : Prop :=
  match r with
  | Ok _ => gas_ok st' /\ used st + n <= used st' /\ cap st' <= cap st
  | Err e => e = OutOfGas \/ e = ErrStopOnAccept \/ (gas_ok st' /\ spent st st')
  | Panic => True
  end.
Definition step_at (n : Z) {A} (st : State) (m : M State A) : Prop := step_post n st (fst (m st)) (snd (m st)).

Lemma step_law {A} st (m : M State A) : gas_ok st -> law_at Strict st m -> step_at 0 st m.
Proof.
  intros Hok [_ _ Hs]. unfold step_at. destruct (Hs Hok) as [[Hok' [Hu Hc]]|[Hr|[[? _]|[? _]]]]; [|rewrite Hr; by left|done..].
  destruct (fst (m st)); cbn; [|right; right; by split|done]. split_and!; (done || lia).
Qed.

Lemma step_bind {A B} n p st (m : M State A) (k : A -> M State B) :
  0 <= n -> step_at n st m -> (forall a st', gas_ok st' -> step_at p st' (k a)) -> step_at (n + p) st (m ≫= k).
Proof.
  intros Hn. unfold step_at, mbind, M_bind. destruct (m st) as [[a|e|] st1]; cbn [fst snd step_post]; intros Hm Hk; [|done..].
  destruct Hm as (Hok1 & Hu & Hc). specialize (Hk a st1 Hok1). destruct (k a st1) as [[b|e|] st2]; cbn [fst snd step_post] in *; [|destruct Hk as [?|[?|[? [? ?]]]]; [tauto..|]|done].
  - destruct Hk as (? & ? & ?). split_and!; (done || lia).
  - right. right. split; [done|]. split; lia.
Qed.

Lemma step_le {A} n n' st (m : M State A) : n <= n' -> step_at n' st m -> step_at n st m.
Proof. unfold step_at. intros Hn. destruct (fst (m st)); cbn; intuition lia. Qed.

Lemma step_charge n st : gas_ok st -> 0 <= n < 2 ^ 63 -> step_at n st (on_gas (Consume n)).
Proof.
  intros Hok Hn. unfold step_at, on_gas. destruct Hok as [Hv Hr Hb Hm Hp].
  rewrite Consume_run by (unfold int64; lia). cbn [fst snd]. destruct (Z.ltb_spec (g_Remaining (st_Gas st)) n); [by left|].
  destruct st. unfold used, cap. cbn in *. split_and!; [split; cbn; (done || lia)|unfold used; cbn; lia|unfold cap; cbn; lia].
Qed.

Lemma step_ConsumeGas n st : gas_ok st -> 0 <= n < 2 ^ 63 -> step_at n st (ConsumeGas n).
Proof.
  intros Hok Hn. pose proof (gok_version _ Hok). unfold ConsumeGas, step_at. rewrite bind_get. unfold checkGasOnConsume.
  destruct (Z.leb_spec 4 (st_GlobalVersion st)); [|lia]. now apply step_charge.
Qed.

(** A state that agrees on the meter costs nothing. *)
Lemma gas_ok_same st st' : same_gas st st' -> gas_ok st -> gas_ok st' /\ used st' = used st /\ cap st' = cap st.
Proof.
  intros (Hv & Hg & Hp) [? ? ? ? ?]. unfold used, cap. rewrite Hg. split_and!; [|done..].
  split; rewrite ?Hv, ?Hg, ?Hp; done.
Qed.

Lemma step_same {A} st (r : outcome A) st' : same_gas st st' -> gas_ok st -> step_post 0 st r st'.
Proof.
  intros Hs Hok. destruct (gas_ok_same _ _ Hs Hok) as (Hok' & Hu & Hc). destruct r; cbn; [split_and!; (done || lia)| |done].
  right. right. split; [done|]. split; lia.
Qed.

(** ** One instruction *)

Lemma CheckGas_latched st : st_pendingErr st = Some OutOfGas -> CheckGas st = (Err OutOfGas, st).
Proof. intros Hp. unfold CheckGas. now rewrite bind_get, Hp. Qed.

Lemma CheckGas_broke st : st_pendingErr st = None -> g_Remaining (st_Gas st) < 0 -> fst (CheckGas st) = Err OutOfGas.
Proof.
  intros Hp Hr. unfold CheckGas. rewrite bind_get, Hp. unfold on_gas, CheckRemaining. mrun. now destruct (Z.ltb_spec (g_Remaining (st_Gas st)) 0); [|lia].
Qed.

(** The two ends of an instruction: a check after success, and after a failure. *)
Lemma ended_ok st st' : gas_ok st -> law_post Broke st (Ok tt) st' -> step_post 0 st (fst (CheckGas st')) (snd (CheckGas st')).
Proof.
  intros Hok [_ _ Hs]. destruct (Hs Hok) as [[Hok2 [? ?]]|[?|[[_ Hp]|[_ [?|[_ [Hp Hr]]]]]]]; [|done| |done|].
  - pose proof (step_law st' CheckGas Hok2 (CheckGas_law st')) as H2. unfold step_at in H2.
    destruct (CheckGas st') as [[[]|e|] st3]; cbn [fst snd step_post] in *; [split_and!; [tauto|lia..]| |done].
    destruct H2 as [?|[?|[? [? ?]]]]; [tauto..|]. right. right. split; [done|split; lia].
  - rewrite CheckGas_latched by done. by left.
  - rewrite CheckGas_broke by done. by left.
Qed.

Lemma ended_err e st st' : gas_ok st -> law_post Broke st (Err e : outcome unit) st' ->
  step_at 0 st (fun _ => (PendingError ;; (if bool_decide (e = ErrStopOnAccept) then on_gas CheckRemaining else mret tt) ;; fail (normalizeCellError e) : M State unit) st').
Proof.
  intros Hok [_ Hl Hs]. unfold step_at, PendingError. rewrite bind_assoc, bind_get.
  specialize (Hl (gok_version _ Hok)). rewrite (gok_pending _ Hok) in Hl.
  destruct Hl as [Hl | [_ Hl]]; rewrite Hl; [|by left]. rewrite bind_ret. destruct (bool_decide _) eqn:He.
  - apply bool_decide_eq_true in He. subst e. rewrite bind_run. unfold on_gas, CheckRemaining. rewrite bind_get, run_guard.
    destruct (Z.ltb_spec (g_Remaining (st_Gas st')) 0); [by left|right; by left].
  - apply bool_decide_eq_false in He. cbn. destruct (Hs Hok) as [[Hok2 Hsp]|[[= ->]|[[_ Hp]|[_ [[= ->]|[[? ?] _]]]]]]; [by right; right|by left|congruence|done..].
Qed.

Lemma interpretOpcode_step body st : gas_ok st -> lawful_gen Broke body -> step_at 0 st (interpretOpcode body).
Proof.
  intros Hok Hb. unfold interpretOpcode, step_at. rewrite bind_get. pose proof (gok_version _ Hok).
  destruct (Z.leb_spec 4 (st_GlobalVersion st)); [|lia]. set (k := on_result body _).
  change (step_at (0 + 0) st (CheckGas ;; k)). apply step_bind; [lia|apply step_law; [done|apply CheckGas_law]|]. intros _ st1 Hok1.
  pose proof (Hb st1) as Hl. unfold law_at in Hl. unfold k, step_at, on_result. destruct (body st1) as [[[]|e|] st2]; cbn [fst snd] in Hl |- *; [now apply ended_ok|now apply ended_err|done].
Qed.

(** A charge followed by a failure or by the action. *)
Lemma step_fail {A} n st e : gas_ok st -> step_at n st (fail e : M State A).
Proof. intros Hok. cbn. right. right. split; [done|apply spent_refl]. Qed.

Lemma charged_step {B} n p st (k : unit -> M State B) :
  gas_ok st -> 0 <= n < 2 ^ 63 -> (forall st', gas_ok st' -> step_at p st' (k tt)) -> step_at (n + p) st (ConsumeGas n ≫= k).
Proof. intros Hok Hn Hk. apply step_bind; [lia|now apply step_ConsumeGas|]. intros []. apply Hk. Qed.

(** What leaves the meter alone costs nothing and passes its result on. *)
Lemma step_bind_same {A B} n st (m : M State A) (k : A -> M State B) :
  gas_ok st -> same_gas st (snd (m st)) -> (forall a st', gas_ok st' -> m st = (Ok a, st') -> step_at n st' (k a)) -> step_at n st (m ≫= k).
Proof.
  intros Hok Hs Hk. unfold step_at. rewrite bind_run. destruct (m st) as [[a|e|] st1] eqn:Hm; cbn [snd] in Hs.
  - destruct (gas_ok_same _ _ Hs Hok) as (Hok1 & Hu & Hc). specialize (Hk a st1 Hok1 eq_refl). unfold step_at in Hk.
    destruct (k a st1) as [[b|e|] st2]; cbn [fst snd step_post] in *; [rewrite <-Hu, <-Hc; done| |done].
    destruct Hk as [?|[?|[? [? ?]]]]; [tauto..|]. right. right. split; [done|split; lia].
  - destruct (gas_ok_same _ _ Hs Hok) as (Hok1 & Hu & Hc). cbn. right. right. split; [done|split; lia].
  - done.
Qed.

Lemma on_code_same {A} (m : M Slice A) st : same_gas st (snd (on_code m st)).
Proof. unfold on_code. destruct (m (st_CurrentCode st)). apply set_code_same. Qed.

Lemma on_code_Ok {A} (m : M Slice A) st a st' :
  on_code m st = (Ok a, st') -> exists s', m (st_CurrentCode st) = (Ok a, s') /\ st' = set_code st s'.
Proof. unfold on_code. destruct (m (st_CurrentCode st)) as [r s']. intros [= -> <-]. by exists s'. Qed.

Lemma executeArgOpcode_step op st : gas_ok st -> argop_lawful op -> step_at 10 st (executeArgOpcode op).
Proof.
  intros Hok [Hb Hi]. unfold executeArgOpcode. apply step_bind_same; [done|apply on_code_same|].
  intros [args err] st1 Hok1 (s' & Hr & ->)%on_code_Ok. specialize (Hb _ _ _ _ Hr). unfold InstructionBaseGasPrice.
  apply (step_le _ (10 + op_ArgInstructionBits op args + 0)); [lia|].
  destruct err as [err|]; (apply charged_step; [done|lia|]); intros st2 Hok2; [now apply step_fail|now apply interpretOpcode_step].
Qed.

Lemma executeOpcode_step op st : gas_ok st -> op_lawful op -> step_at 10 st (executeOpcode op).
Proof.
  intros Hok Hop. unfold executeOpcode. apply step_bind_same; [done|apply on_code_same|].
  intros [i err] st1 Hok1 (s' & Hds & ->)%on_code_Ok.
  destruct (Hop _ _ _ _ Hds) as [(bits & Hbits & Hn) Hi]. unfold executeDecodedOpcode, consumeInstructionGas, InstructionBaseGasPrice. rewrite Hbits.
  apply (step_le _ (10 + bits + 0)); [lia|].
  destruct err as [err|]; (apply charged_step; [done|lia|]); intros st2 Hok2; [now apply step_fail|now apply interpretOpcode_step].
Qed.

Lemma stepWithDispatch_step d st : dispatch_all entry_lawful d -> gas_ok st -> step_at 10 st (stepWithDispatch d).
Proof.
  intros Hd Hok. unfold stepWithDispatch, step_at. rewrite bind_get, bind_run. unfold lift at 1.
  destruct (matchOpcode d (st_CurrentCode st)) as [entry|e|] eqn:Hm; [|cbn; right; right; split; [done|apply spent_refl]|done].
  rewrite bind_run. unfold lift, historical_entry. pose proof (gok_version _ Hok).
  destruct (Z.eqb_spec (st_GlobalVersion st) 0); [lia|]. cbn [andb].
  destruct entry as [[op|op]|].
  - apply executeArgOpcode_step; [done|]. apply (matchOpcode_all _ _ _ _ Hd Hm).
  - apply executeOpcode_step; [done|]. apply (matchOpcode_all _ _ _ _ Hd Hm).
  - apply (charged_step 10 0); [done|lia|]. intros st1 Hok1. now apply step_fail.
Qed.

Section run.
Context `{MeteredLookup}.

Lemma count_step_same st : same_gas st (snd (count_step st)).
Proof. apply set_steps_same. Qed.

Lemma implicit_charge_step n st : gas_ok st -> 0 <= n < 2 ^ 63 -> step_at n st (implicit_charge n).
Proof.
  intros Hok Hn. unfold implicit_charge, step_at. rewrite bind_get. pose proof (gok_version _ Hok).
  destruct (Z.eqb_spec (st_GlobalVersion st) 0); [lia|]. now apply step_charge.
Qed.

(** A step that does not fail uses at least five units. *)
Lemma step_progress d st : dispatch_all entry_lawful d -> gas_ok st -> step_at 5 st (stepAnyWithDispatch d).
Proof.
  intros Hd Hok. unfold stepAnyWithDispatch, step_at. rewrite bind_get. fold (step_at (A := unit) 5 st).
  destruct (0 <? BitsLeft _); [|destruct (0 <? RefsNum _)].
  - apply step_bind_same; [done|apply count_step_same|]. intros _ st1 Hok1 _. apply (step_le _ 10); [lia|now apply stepWithDispatch_step].
  - apply step_bind_same; [done|apply count_step_same|]. intros _ st1 Hok1 _. apply (step_le _ (10 + 0)); [lia|].
    apply step_bind; [lia|now apply implicit_charge_step|]. intros _ st2 Hok2. apply step_law; [done|]. law.
  - apply step_bind_same; [done|apply count_step_same|]. intros _ st1 Hok1 _. apply (step_le _ (5 + 0)); [lia|].
    apply step_bind; [lia|now apply implicit_charge_step|]. intros _ st2 Hok2. apply step_law; [done|]. law.
Qed.

(** An exception uses at least fifty. *)
Lemma ThrowException_step code arg st : gas_ok st -> step_at 50 st (ThrowException code arg).
Proof.
  intros Hok. unfold ThrowException. change 50 with (0 + (0 + (0 + (0 + (ExceptionGasPrice + 0))))).
  do 3 (apply step_bind; [lia|apply step_law; [done|]; law|intros ? ? ?]).
  apply step_bind; [lia|apply step_law; [done|]; law|intros ? ? ?].
  apply step_bind; [unfold ExceptionGasPrice; lia|apply step_charge; [done|unfold ExceptionGasPrice; lia]|intros ? ? ?].
  apply step_law; [done|]. law.
Qed.

(** An iteration that goes on uses at least five units. *)
Definition iter_post (st : State) (r : outcome bool) (st' : State) : Prop :=
  r = Ok true -> gas_ok st' /\ used st + 5 <= used st' /\ cap st' <= cap st.

Lemma out_of_gas_stops e st : fst (out_of_gas e st) <> Ok true.
Proof.
  unfold out_of_gas. rewrite !bind_run. destruct (count_step st) as [[[]|?|] st1]; [|done..]. rewrite bind_run.
  destruct (HandleOutOfGas st1) as [[[]|?|] st2]; done.
Qed.

Lemma handle_iter e st0 st : gas_ok st -> spent st0 st -> iter_post st0 (fst (handleStepError e st)) (snd (handleStepError e st)).
Proof.
  intros Hok [Hu Hc] Hr. unfold handleStepError in *. destruct (IsHandledException e); [done|]. destruct (bool_decide _); [done|].
  destruct (IsOutOfGas e); [by apply out_of_gas_stops in Hr|]. rewrite bind_get in *. destruct e; try done.
  destruct (_ && _); [|done]. rewrite bind_run in *. cbn [count_step modify] in *.
  destruct (gas_ok_same _ _ (set_steps_same st (u64 (st_Steps st + 1))) Hok) as (Hok1 & Hu1 & Hc1).
  set (st1 := set_steps st _) in *. pose proof (ThrowException_step code None st1 Hok1) as Ht. unfold on_result, step_at in *.
  destruct (ThrowException code None st1) as [[[]|e'|] st2]; cbn [fst snd step_post] in *; [|destruct (IsOutOfGas e'); [by apply out_of_gas_stops in Hr|done]|done].
  destruct Ht as (Hok2 & Hu2 & Hc2). unfold mret, M_ret. cbn [snd]. split_and!; [done|lia..].
Qed.

Lemma execute_iter_progress d st : dispatch_all entry_lawful d -> gas_ok st ->
  iter_post st (fst (execute_iter d st)) (snd (execute_iter d st)).
Proof.
  intros Hd Hok. pose proof (step_progress d st Hd Hok) as Hs. unfold execute_iter, on_result, step_at in *.
  destruct (stepAnyWithDispatch d st) as [r st1]. cbn [fst snd] in Hs.
  destruct r as [[]|e|]; [| |done]; unfold step_error; cbn [step_post] in Hs.
  - destruct Hs as (Hok1 & Hu & Hc). rewrite bind_assoc, bind_get. pose proof (gok_version _ Hok1).
    destruct (Z.ltb_spec (st_GlobalVersion st1) 4); [lia|]. cbn [andb]. rewrite bind_ret. by intros _.
  - rewrite bind_assoc, bind_get. destruct Hs as [-> | [-> | [Hok1 Hsp]]].
    + destruct (_ && _) eqn:Hb; [rewrite andb_false_r in Hb; done|]. rewrite bind_ret. intros Hr. cbn in Hr. by apply out_of_gas_stops in Hr.
    + destruct (_ && _) eqn:Hb; [rewrite andb_false_r in Hb; done|]. rewrite bind_ret. by intros Hr.
    + pose proof (gok_version _ Hok1). destruct (Z.ltb_spec (st_GlobalVersion st1) 4); [lia|]. cbn [andb]. rewrite bind_ret. now apply handle_iter.
Qed.

(** The number of iterations that is always enough. *)
Definition run_fuel (st : State) : nat := S (Z.to_nat ((cap st - used st) / 5)).

Lemma used_cap st : gas_ok st -> used st <= cap st.
Proof. intros [? ? ? ? ?]. unfold used, cap. lia. Qed.

Lemma execute_ends d st fuel : dispatch_all entry_lawful d -> gas_ok st -> (run_fuel st <= fuel)%nat -> is_Some (execute fuel d st).
Proof.
  intros Hd. revert st. induction fuel as [|fuel IH]; intros st Hok Hf; [unfold run_fuel in Hf; lia|].
  cbn [execute]. pose proof (execute_iter_progress d st Hd Hok) as Hi.
  destruct (execute_iter d st) as [[[]|e|] st']; cbn [fst snd] in Hi; [|by eexists..].
  destruct (Hi eq_refl) as (Hok' & Hu & Hc). apply IH; [done|]. pose proof (used_cap _ Hok'). unfold run_fuel in *. lia.
Qed.

(** More fuel does not change the result. *)
Lemma execute_more d st fuel fuel' r : execute fuel d st = Some r -> (fuel <= fuel')%nat -> execute fuel' d st = Some r.
Proof.
  revert st fuel'. induction fuel as [|fuel IH]; intros st fuel' Hr Hle; [done|]. destruct fuel' as [|fuel']; [lia|].
  cbn [execute] in *. destruct (execute_iter d st) as [[[]|e|] st']; try done. apply IH; [done|lia].
Qed.

End run.
