(* ===== verification/Encoding.v ===== *)
(** * Encoding of instructions

    Models [tvm/op/helpers]: opcode prefixes ([prefix.go]), instructions without and
    with an operand ([simpleop.go], [argop.go]) as the values of [vm.ArgOP] that the
    run loop executes, and their serialization. *)

From S2P Require Import Prelude Bytes CellModel Builder Slice Finalize Gas Value Stack VmState Exec Dispatch Run.
#[local] Open Scope Z_scope.

(** ** Prefixes *)

Record BitPrefix : Type := mkBitPrefix { bp_Bits : Z; bp_Data : list Z }.

Definition BytesPrefix (data : list Z) : BitPrefix := mkBitPrefix (len data * 8) data.
Definition SlicePrefix (bits : Z) (data : list Z) : BitPrefix := mkBitPrefix bits data.

(** The [Must] form of a call: a failure panics. *)
Definition must {S A} (m : M S A) (s : S) : outcome (A * S) :=
  match run m s with Err _ => Panic | o => o end.

(** [BeginCell()…ToSlice()] *)
Definition built_slice (m : M Builder unit) : outcome Slice :=
  r ← must m BeginCell;
  c ← EndCell (snd r);
  Ok (newSliceFromCell c).

Definition UIntPrefix (value bits : Z) : outcome BitPrefix :=
  s ← built_slice (StoreUInt value bits);
  r ← must (loadSlice bits true) s;
  Ok (mkBitPrefix bits (fst r)).

Definition ToSlice (p : BitPrefix) : outcome Slice := built_slice (StoreSlice (bp_Data p) (bp_Bits p)).

Fixpoint PrefixSlices (prefixes : list BitPrefix) : outcome (list Slice) :=
  match prefixes with
  | [] => Ok []
  | p :: prefixes => s ← ToSlice p; l ← PrefixSlices prefixes; Ok (s :: l)
  end.

(** ** Instructions without an operand *)

Record SimpleOP : Type := mkSimpleOP {
  so_Action : M State unit;
  so_BitPrefix : BitPrefix;
  so_BaseGasPrice : Z;
  so_MinVersion : Z;
}.

(** Goes on with the result of a read, or with its error. *)
Definition attempt {A B} (m : M Slice A) (ok : A -> M Slice B) (bad : error -> M Slice B) : M Slice B :=
  fun s =>
    match m s with
    | (Ok a, s') => ok a s'
    | (Err e, s') => bad e s'
    | (Panic, s') => (Panic, s')
    end.

(** Reads from the code; an error comes with the argument 0. *)
Definition decoded (m : M Slice Z) : M Slice (Z * option error) :=
  attempt m (fun args => mret (args, None)) (fun e => mret (0, Some e)).

Definition priced (price : Z) (action : M State unit) : M State unit :=
  (if negb (price =? 0) then ConsumeGas price else mret tt) ;; action.

Definition simple_entry (op : SimpleOP) : outcome ArgOP :=
  ps ← PrefixSlices [so_BitPrefix op];
  Ok (mkArgOP ps (decoded (SkipBits (bp_Bits (so_BitPrefix op)) ;; mret 0))
       (fun _ => bp_Bits (so_BitPrefix op))
       (fun _ => priced (so_BaseGasPrice op) (so_Action op))
       (so_MinVersion op)).

Definition simple_Serialize (op : SimpleOP) : M Builder unit :=
  StoreSlice (bp_Data (so_BitPrefix op)) (bp_Bits (so_BitPrefix op)).

(** ** Instructions with an operand *)

(** [helpers.ArgOP]; [None] for [Decode], [Bits] and [Serializer] is nil. *)
Record OperandOP : Type := mkOperandOP {
  ao_Prefixes : list BitPrefix;
  ao_ArgBits : Z;
  ao_Action : Z -> M State unit;
  ao_Decode : option (M Slice (Z * option error));
  ao_Bits : option (Z -> Z);
  ao_Serializer : option (Z -> M Builder unit);
  ao_BaseGasPrice : Z;
  ao_MinVersion : Z;
}.

(** The checks of [NewArgOP]; [Prefixes[0]] panics when there is none. *)
Definition NewArgOP (op : OperandOP) : outcome OperandOP :=
  match ao_Decode op, ao_Prefixes op with
  | Some _, _ => Ok op
  | None, [] => Ok op
  | None, p0 :: _ => if forallb (fun p => bp_Bits p =? bp_Bits p0) (ao_Prefixes op) then Ok op else Panic
  end.

(** An instruction without prefixes is in no table, so its length is never asked. *)
Definition prefixBits (op : OperandOP) : Z := match ao_Prefixes op with p0 :: _ => bp_Bits p0 | [] => 0 end.

Definition DecodeArgs (op : OperandOP) : M Slice (Z * option error) :=
  match ao_Decode op with
  | Some decode => decode
  | None => decoded (SkipBits (prefixBits op) ;; if ao_ArgBits op =? 0 then mret 0 else LoadUInt (ao_ArgBits op))
  end.

Definition ArgInstructionBits (op : OperandOP) (args : Z) : Z :=
  match ao_Bits op with
  | Some bits => bits args
  | None => s64 (prefixBits op + ao_ArgBits op)
  end.

Definition InterpretArgs (op : OperandOP) (args : Z) : M State unit :=
  priced (ao_BaseGasPrice op) (ao_Action op args).

Definition operand_entry (op : OperandOP) : outcome ArgOP :=
  op ← NewArgOP op;
  ps ← PrefixSlices (ao_Prefixes op);
  Ok (mkArgOP ps (DecodeArgs op) (ArgInstructionBits op) (InterpretArgs op) (ao_MinVersion op)).

(** [MustStoreSlice(prefix.Data, prefix.Bits)] *)
Definition store_prefix (p : BitPrefix) : M Builder unit := StoreSlice (bp_Data p) (bp_Bits p).

(** The stores of [SerializeArgs] on a new builder; each of them must succeed. *)
Definition serializer (op : OperandOP) (args : Z) : M Builder unit :=
  match ao_Serializer op with
  | Some serialize => serialize args
  | None =>
      p0 ← lift (match ao_Prefixes op with p0 :: _ => Ok p0 | [] => Panic end);
      store_prefix p0 ;;
      (if 0 <? ao_ArgBits op then StoreUInt args (ao_ArgBits op) else mret tt)
  end.

Definition SerializeArgs (op : OperandOP) (args : Z) : outcome Builder :=
  r ← must (serializer op args) BeginCell;
  Ok (snd r).

(** [PeekZeroPaddedOpcode] *)
Definition PeekZeroPaddedOpcode (bits : Z) : M Slice Z :=
  code ← get_state;
  let rest := BitsLeft code in
  if rest =? 0 then mret 0
  else attempt (LoadUInt rest) (fun raw => mret (u64 (raw ≪ (bits - rest)))) (fun _ => mret 0).

(** ** Instructions decoded into an instance *)

(** The instance an error leaves behind is only asked for its length. *)
Definition rejected (bits : Z) (e : error) : instance * option error :=
  (mkInstance (Some bits) (fail (VMErr CodeInvalidOpcode)), Some e).
Definition accepted (bits : Z) (interpret : M State unit) : instance * option error :=
  (mkInstance (Some bits) interpret, None).

(** Reads while the instruction counts [bits] long. *)
Definition reading {A} (bits : Z) (m : M Slice A) (k : A -> M Slice (instance * option error)) : M Slice (instance * option error) :=
  attempt m k (fun e => mret (rejected bits e)).

(** Replaces the error of a read. *)
Definition with_error {A} (e : error) (m : M Slice A) : M Slice A := attempt m mret (fun _ => fail e).

(** ** Tables *)

Inductive instruction : Type :=
  | ISimple (op : SimpleOP)
  | IOperand (op : OperandOP)
  | IOther (op : OP).

Definition entry_of (i : instruction) : outcome dispatchEntry :=
  match i with
  | ISimple op => e ← simple_entry op; Ok (EArg e)
  | IOperand op => e ← operand_entry op; Ok (EArg e)
  | IOther op => Ok (EGet op)
  end.

(** Building an instruction panics where a prefix does not fit. *)
Fixpoint entries_of (l : list (outcome instruction)) : outcome (list dispatchEntry) :=
  match l with
  | [] => Ok []
  | i :: l => i ← i; e ← entry_of i; es ← entries_of l; Ok (e :: es)
  end.

(** [NewTVM] over the registered instructions. *)
Definition machine (l : list (outcome instruction)) : outcome (list (opcodeDispatch dispatchEntry)) :=
  es ← entries_of l;
  newTVM es.

Definition simpleV (version : Z) (prefix : list Z) (action : M State unit) : outcome instruction :=
  Ok (ISimple (mkSimpleOP action (BytesPrefix prefix) 0 version)).
Definition simple : list Z -> M State unit -> outcome instruction := simpleV 0.

Fixpoint UIntPrefixes (l : list (Z * Z)) : outcome (list BitPrefix) :=
  match l with
  | [] => Ok []
  | (value, bits) :: l => p ← UIntPrefix value bits; ps ← UIntPrefixes l; Ok (p :: ps)
  end.

(** An instruction with an operand of [argBits] after one of its prefixes, given as
    values and lengths. *)
Definition operandV (version : Z) (prefixes : list (Z * Z)) (argBits : Z) (action : Z -> M State unit)
    (decode : option (M Slice (Z * option error))) (serialize : option (Z -> M Builder unit)) : outcome instruction :=
  ps ← UIntPrefixes prefixes;
  op ← NewArgOP (mkOperandOP ps argBits action decode None serialize 0 version);
  Ok (IOperand op).
Definition operand (value bits argBits : Z) (action : Z -> M State unit) : outcome instruction :=
  operandV 0 [(value, bits)] argBits action None None.

(** [vm.OP] with prefixes *)
Definition decoded_op (prefixes : list (Z * Z)) (deserialize : M Slice (instance * option error)) : outcome instruction :=
  ps ← UIntPrefixes prefixes;
  ss ← PrefixSlices ps;
  Ok (IOther (mkOP ss deserialize 0)).
