(* ===== verification/Launch.v ===== *)
(** * Starting a program

    Models the entry points of [tvm/vm.go], [Execute] and [ExecuteGetMethod], down to
    the run loop of [Run]: the initial state ([NewExecutionState] of [vm/state.go]), the
    checks on the configuration ([Validate] of [vm/historical.go]), the conversion of the
    code cell into the first slice, and the result.  Execution on an account with a
    proof, tracing and virtualised cells have no counterpart; a Go panic before the run
    loop is not recovered, and is the outcome [Panic]. *)

From S2P Require Import Prelude Bytes CellModel Builder Slice Finalize Gas Value Stack VmState Exec CellLoad Dispatch Run Encoding.
From stdpp Require Import gmap strings.
#[local] Open Scope Z_scope.

(** ** The configuration *)

(** The parts of [PreparedBlockchainConfig] that an execution reads. *)
Record PreparedBlockchainConfig : Type := mkPrepared {
  pc_version : Z;
  pc_maxVMDataDepth : Z;
  pc_maxTransactionLibraryLoads : option Z
}.

Record ExecutionConfig : Type := mkExecutionConfig {
  ec_Libraries : list (option Cell);
  ec_Config : option PreparedBlockchainConfig;
  ec_Historical : HistoricalConfig
}.

(** The three gas schedules are all there are, so the error for another one has no
    counterpart. *)
Definition Validate (h : HistoricalConfig) (globalVersion : Z) : outcome unit :=
  if negb (globalVersion =? 0) &&
     (negb (bool_decide (h_GasSchedule h = GasScheduleModern)) || h_PopC3Cell h || h_NoPRNG h || h_NoBLKDROP2 h)
  then Err (ErrText "historical configuration requires global version 0")
  else if h_NaNComparison h && ((globalVersion <? 0) || (3 <? globalVersion))
  then Err (ErrText "historical NaN comparison requires global version 0 through 3")
  else Ok tt.

Definition errConfigRootRequired : error := ErrText "config root is required".

Record executeOptions : Type := mkOptions {
  eo_historical : HistoricalConfig;
  eo_stopOnAccept : bool;
  eo_maxVMDataDepth : Z;
  eo_libraryLoadLimit : option Z;
  eo_codeConversionWithoutLibraries : bool
}.

Definition MaxDataDepth : Z := 512.

Definition executeOptionsFromConfig (cfg : ExecutionConfig) : executeOptions :=
  mkOptions (ec_Historical cfg) false MaxDataDepth None false.

Definition maxSmcLibraryLoads : Z := 8.
Definition dryRunLibraryLoadLimit (cfg : option PreparedBlockchainConfig) : Z :=
  match cfg ≫= pc_maxTransactionLibraryLoads with
  | Some limit => if limit <? maxSmcLibraryLoads then limit else maxSmcLibraryLoads
  | None => maxSmcLibraryLoads
  end.

(** ** The initial state *)

(** [sharedEmptyCell] *)
Definition emptyCell : outcome Cell := EndCell BeginCell.

Definition modern : HistoricalConfig := mkHist GasScheduleModern false false false false.

(** The code is nil until it has been converted. *)
Definition NewExecutionState (globalVersion : Z) (gas : Gas) (data : option Cell) (c7 : option (list value)) (stk : stack)
    (libraries : list (option Cell)) : outcome State :=
  empty ← emptyCell;
  Ok (mkState globalVersion 0 empty_code
        (mkReg (CQuit 0) (CQuit 1) CExcQuit (CQuit CodeUnknown) (Some (default empty data)) (Some empty) (Some (default [] c7)))
        gas no_loads None stk 0 0 0 (mkCommitted None None false) MaxDataDepth modern false
        (mkLibs libraries ∅ None ∅ None false)).

(** The fields [executeState] sets from its options. *)
Definition set_options (o : executeOptions) (st : State) : State :=
  let 'mkState v cp c r g l p s n sc eb cm _ _ _ lb := st in
  mkState v cp c r g l p s n sc eb cm (eo_maxVMDataDepth o) (eo_historical o) (eo_stopOnAccept o)
    (match eo_libraryLoadLimit o with
     | Some limit => mkLibs (lb_Libraries lb) (lb_cache lb) (Some limit) (lb_loadedLibraries lb) (lb_missingLibrary lb) (lb_sandboxed lb)
     | None => lb
     end).

(** ** The code *)

Definition executionCodeRefWrapper (code : Cell) : outcome Cell :=
  r ← must (storeRef (Some code) true) BeginCell;
  EndCell (snd r).

(** [SuspendLibraryLoadAccounting] and the function it returns *)
Definition suspended (lb : LibraryState) : LibraryState :=
  mkLibs (lb_Libraries lb) (lb_cache lb) None (lb_loadedLibraries lb) (lb_missingLibrary lb) true.
Definition restored (prev lb : LibraryState) : LibraryState :=
  mkLibs (lb_Libraries lb) (lb_cache lb) (lb_maxLibraryLoads prev) (lb_loadedLibraries lb) (lb_missingLibrary lb) (lb_sandboxed prev).

Definition SuspendLibraryLoadAccounting {A} (m : M State A) : M State A :=
  fun st =>
    let '(r, st') := m (set_libs st (suspended (st_Libs st))) in
    (r, set_libs st' (restored (st_Libs st) (st_Libs st'))).

(** [vmerr.AsVMError]: an error of the machine that is not a normal end. *)
Definition AsVMError (e : error) : bool := match e with VMErr _ => true | _ => false end.

Section launch.
Context `{MeteredLookup}.

Definition wrapped_code (code : Cell) : M State Slice :=
  w ← lift (executionCodeRefWrapper code);
  BeginParseAlreadyLoaded (Some w).

Definition convertExecutionCodeCell (code : option Cell) (resolveLibraries : bool) : M State Slice :=
  match code with
  | None => BeginParseAlreadyLoaded None
  | Some c =>
      st ← get_state;
      if resolveLibraries && (9 <=? st_GlobalVersion st) then
        on_result (SuspendLibraryLoadAccounting (BeginParseAlreadyLoaded (Some c))) (fun r =>
          match r with
          | Ok currentCode => mret currentCode
          | Err e => if AsVMError e then wrapped_code c else fail e
          | Panic => lift Panic
          end)
      else
        on_result (BeginParseSpecialAlreadyLoaded (Some c)) (fun r =>
          match r with
          | Ok (currentCode, special) => if (special : bool) then wrapped_code c else mret currentCode
          | Err e =>
              if (if 9 <=? st_GlobalVersion st then AsVMError e else match ErrorCode e with Some _ => true | None => false end)
              then wrapped_code c else fail e
          | Panic => lift Panic
          end)
  end.

(** ** The run and its result *)

Record ExecutionResult : Type := mkResult {
  er_ExitCode : Z;
  er_GasUsed : Z;
  er_Steps : Z;
  er_Gas : Gas;
  er_Stack : option stack;
  er_Code : option Cell;
  er_Data : option Cell;
  er_Actions : option Cell;
  er_Committed : bool;
  er_MissingLibrary : option (list Z);
  er_loadedCells : cellLoadSet
}.

Definition executionResultFromState (exitCode : Z) (st : State) (code data actions : option Cell) : ExecutionResult :=
  let c := st_Committed st in
  mkResult exitCode (Used (st_Gas st)) (st_Steps st) (st_Gas st) (Some (st_Stack st)) code
    (if cm_Committed c then cm_Data c else data) (if cm_Committed c then cm_Actions c else actions) (cm_Committed c)
    (lb_missingLibrary (st_Libs st)) (st_loaded st).

Definition vmerrCode (e : error) : Z := default CodeFatal (ErrorCode e).

(** The state a converted program starts from. *)
Definition started (currentCode : Slice) (st : State) : State :=
  let st := set_code st currentCode in
  set_reg st (set_C (st_Reg st) 3 (COrdinary (mkData emptyReg None ControlDataAllArgs (st_CP st)) currentCode)).

(** [None] when the bound on the iterations is too small. *)
Definition executeState (fuel : nat) (tvm : list (opcodeDispatch dispatchEntry)) (st : State) (code : option Cell) (options : executeOptions)
  : option (outcome (ExecutionResult * option error)) :=
  let initialData := r_D (st_Reg st) 0 in
  let initialActions := r_D (st_Reg st) 1 in
  match convertExecutionCodeCell code (negb (eo_codeConversionWithoutLibraries options)) (set_options options st) with
  | (Panic, _) => Some Panic
  | (Err e, st') => Some (Ok (executionResultFromState (vmerrCode e) st' code initialData initialActions, Some e))
  | (Ok currentCode, st') =>
      match runState fuel tvm (started currentCode st') with
      | None => None
      | Some (exitCode, err, st'') => Some (Ok (executionResultFromState exitCode st'' code initialData initialActions, err))
      end
  end.

Definition finishExecutionResult (res : ExecutionResult) (err : option error) : outcome ExecutionResult :=
  match err with
  | None => Ok res
  | Some e => match ErrorCode e with Some _ => Ok res | None => Err e end
  end.

Definition executeWithOptions (fuel : nat) (tvm : list (opcodeDispatch dispatchEntry)) (code data : option Cell) (c7 : option (list value)) (gas : Gas)
    (stk : stack) (cfg : PreparedBlockchainConfig) (options : executeOptions) (libraries : list (option Cell)) : option (outcome (ExecutionResult * option error)) :=
  let options := mkOptions (eo_historical options) (eo_stopOnAccept options) (pc_maxVMDataDepth cfg) (Some (dryRunLibraryLoadLimit (Some cfg)))
                   (eo_codeConversionWithoutLibraries options) in
  match NewExecutionState (pc_version cfg) gas data c7 stk libraries with
  | Ok st => executeState fuel tvm st code options
  | Err e => Some (Err e)
  | Panic => Some Panic
  end.

(** A nil stack is [None]. *)
Definition executeWithConfig (fuel : nat) (tvm : list (opcodeDispatch dispatchEntry)) (code data : option Cell) (c7 : option (list value)) (gas : Gas)
    (stk : option stack) (cfg : ExecutionConfig) (options : executeOptions) : option (outcome ExecutionResult) :=
  match ec_Config cfg with
  | None => Some (Err errConfigRootRequired)
  | Some prepared =>
      match Validate (ec_Historical cfg) (pc_version prepared) with
      | Err e => Some (Err e)
      | Panic => Some Panic
      | Ok _ =>
          match code, stk with
          | Some _, Some s =>
              match executeWithOptions fuel tvm code data c7 gas s prepared options (ec_Libraries cfg) with
              | None => None
              | Some (Ok (res, err)) => Some (finishExecutionResult res err)
              | Some (Err e) => Some (Err e)
              | Some Panic => Some Panic
              end
          | _, _ => Some (Ok (mkResult (Z.lnot CodeFatal) 0 0 gas stk code data None false None no_loads))
          end
      end
  end.

Definition Execute (fuel : nat) (tvm : list (opcodeDispatch dispatchEntry)) (code data : option Cell) (c7 : option (list value)) (gas : Gas)
    (stk : option stack) (cfg : ExecutionConfig) : option (outcome ExecutionResult) :=
  executeWithConfig fuel tvm code data c7 gas stk cfg (executeOptionsFromConfig cfg).

Definition ExecuteGetMethod (fuel : nat) (tvm : list (opcodeDispatch dispatchEntry)) (code data : option Cell) (c7 : option (list value)) (gas : Gas)
    (stk : option stack) (cfg : ExecutionConfig) : option (outcome ExecutionResult) :=
  let o := executeOptionsFromConfig cfg in
  executeWithConfig fuel tvm code data c7 gas stk cfg
    (mkOptions (eo_historical o) (eo_stopOnAccept o) (eo_maxVMDataDepth o) (eo_libraryLoadLimit o) true).

End launch.
