(* ===== verification/EncodingSpec.v ===== *)
(** * Opcodes are built as declared

    A prefix becomes a slice with exactly its bits, an operand is read back as it was
    written, and an instruction whose declared prefixes fit in a cell is built without
    a panic. *)

From S2P Require Import Prelude Bytes CellModel Builder Finalize BuilderSpec BuilderOps Slice SliceSpec Codec CellHash CellTheorems DictLabelTheorems.
From S2P Require Import DictNodeSpec CellDataTheorems Gas Value Stack VmState Exec Dispatch DispatchTheorems Run Encoding.
#[local] Open Scope Z_scope.

(** ** Slices *)

Definition bits_slice (bs : list bool) : Slice := newSliceFromCell (finished bs []).

Lemma bits_slice_ok bs : len bs <= 1023 -> swf (bits_slice bs) /\ sbits (bits_slice bs) = bs.
Proof. intros H. destruct (newSlice_finished bs []) as (? & ? & _); [done..|]. done. Qed.

Lemma must_Ok {S A} (m : M S A) s a s' : m s = (Ok a, s') -> must m s = Ok (a, s').
Proof. intros H. unfold must, run. now rewrite H. Qed.

Lemma built_slice_ok m bs : stores m bs -> len bs <= 1023 -> built_slice m = Ok (bits_slice bs).
Proof.
  intros Hm Hl. unfold built_slice. rewrite (must_Ok _ _ _ _ (Hm BeginCell wf_begin ltac:(exact Hl))). cbn [mbind outcome_bind snd].
  rewrite (EndCell_builds _ bs []); [done| |constructor].
  split; [apply wf_append; [apply wf_begin|exact Hl]| |done].
  now rewrite (bits_append _ _ wf_begin Hl).
Qed.

(** ** Prefixes *)

Record prefix_ok (p : BitPrefix) : Prop := {
  po_bytes : bytes_ok (bp_Data p);
  po_bits : 0 <= bp_Bits p <= 8 * len (bp_Data p);
  po_len : bp_Bits p <= 1023;
  po_size : len (bp_Data p) <= 128
}.

Definition prefix_bits (p : BitPrefix) : list bool := window (bp_Data p) 0 (bp_Bits p).

Lemma ToSlice_ok p : prefix_ok p -> ToSlice p = Ok (bits_slice (prefix_bits p)).
Proof.
  intros [Hb Hn Hl Hs]. apply built_slice_ok; [apply stores_slice; [done|lia|lia]|]. unfold prefix_bits. rewrite length_window; lia.
Qed.

Lemma PrefixSlices_ok ps : Forall prefix_ok ps -> PrefixSlices ps = Ok ((fun p => bits_slice (prefix_bits p)) <$> ps).
Proof. induction 1 as [|p ps Hp _ IH]; [done|]. cbn [PrefixSlices]. rewrite (ToSlice_ok p Hp). cbn. now rewrite IH. Qed.

Lemma prefix_slice_swf p : prefix_ok p -> swf (bits_slice (prefix_bits p)).
Proof. intros [Hb Hn Hl Hs]. apply bits_slice_ok. unfold prefix_bits. rewrite length_window; lia. Qed.

Definition byteb (b : Z) : bool := (0 <=? b) && (b <? 256).

Lemma BytesPrefix_ok data : forallb byteb data = true -> (length data <= 127)%nat -> prefix_ok (BytesPrefix data).
Proof.
  intros Hb Hl. split; cbn; unfold len; [|lia..].
  apply List.Forall_forall. intros x Hx. pose proof (proj1 (forallb_forall _ _) Hb x Hx) as H. unfold byteb in H. lia.
Qed.

(** The prefix of [value] in [bits] bits. *)
Definition uint_prefix (value bits : Z) : BitPrefix := mkBitPrefix bits (pack (Z.to_nat ((bits + 7) / 8)) (uint_bits bits value)).

Lemma UIntPrefix_ok value bits : 0 <= bits <= 64 -> 0 <= value < 2 ^ bits -> UIntPrefix value bits = Ok (uint_prefix value bits).
Proof.
  intros Hb Hv. unfold UIntPrefix. rewrite (built_slice_ok _ (uint_bits bits value)); [|now apply stores_uint|rewrite length_uint_bits; lia].
  cbn [mbind outcome_bind]. destruct (bits_slice_ok (uint_bits bits value)) as [Hwf Hs]; [rewrite length_uint_bits; lia|].
  pose proof (len_sbits _ Hwf) as Hl. rewrite Hs, length_uint_bits in Hl by lia.
  rewrite (must_Ok _ _ (pack (Z.to_nat ((bits + 7) / 8)) (uint_bits bits value)) (bits_slice (uint_bits bits value))); [done|].
  rewrite loadSlice_run by (done || lia). destruct (Z.ltb_spec (BitsLeft (bits_slice (uint_bits bits value))) bits); [lia|].
  pose proof (BitsLeft_eq _ Hwf) as He. unfold sbits in Hs. rewrite <-He, <-Hl in Hs. now rewrite Hs.
Qed.

Lemma uint_prefix_ok value bits : 0 <= bits <= 64 -> prefix_ok (uint_prefix value bits).
Proof. intros Hb. split; cbn [uint_prefix bp_Data bp_Bits]; rewrite ?len_pack; [apply bytes_ok_pack|lia..]. Qed.

Lemma prefix_bits_uint value bits : 0 <= bits -> prefix_bits (uint_prefix value bits) = uint_bits bits value.
Proof.
  intros Hb. unfold prefix_bits, uint_prefix. cbn [bp_Data bp_Bits]. pose proof (length_uint_bits bits value Hb) as Hl.
  rewrite <-Hl at 3. apply window_pack. lia.
Qed.

(** A prefix given by its value and its length. *)
Definition declared (p : Z * Z) : bool := (0 <=? p.2) && (p.2 <=? 64) && (0 <=? p.1) && (p.1 <? 2 ^ p.2).

Lemma UIntPrefixes_ok l : forallb declared l = true -> UIntPrefixes l = Ok ((fun p => uint_prefix p.1 p.2) <$> l).
Proof.
  induction l as [|[v b] l IH]; [done|]. cbn [forallb]. rewrite andb_true_iff. intros [Hp Hl]. unfold declared in Hp. cbn in Hp.
  cbn [UIntPrefixes]. rewrite UIntPrefix_ok by lia. cbn. now rewrite (IH Hl).
Qed.

Lemma uint_prefixes_ok l : forallb declared l = true -> Forall prefix_ok ((fun p => uint_prefix p.1 p.2) <$> l).
Proof.
  intros Hl. apply Forall_fmap, List.Forall_forall. intros [v b] Hp. pose proof (proj1 (forallb_forall _ _) Hl _ Hp) as H.
  unfold declared in H. cbn in *. apply uint_prefix_ok. lia.
Qed.

(** ** Instructions *)

Definition entry_prefixes (e : dispatchEntry) : list Slice := rg_prefixes (registration_of e).

(** An instruction that is built, with prefixes that can be registered. *)
Definition buildable (i : outcome instruction) : Prop :=
  exists x e, i = Ok x /\ entry_of x = Ok e /\ Forall swf (entry_prefixes e).

Lemma slices_swf ps : Forall prefix_ok ps -> Forall swf ((fun p => bits_slice (prefix_bits p)) <$> ps).
Proof. intros H. apply Forall_fmap. eapply List.Forall_impl; [|exact H]. intros p. apply prefix_slice_swf. Qed.

Lemma simpleV_buildable v p a : forallb byteb p = true -> (length p <=? 127)%nat = true -> buildable (simpleV v p a).
Proof.
  intros Hp Hl%Nat.leb_le. assert (Hok : Forall prefix_ok [BytesPrefix p]) by (constructor; [now apply BytesPrefix_ok|constructor]).
  eexists _, _. split; [reflexivity|]. cbn [entry_of]. unfold simple_entry. cbn [so_BitPrefix]. rewrite (PrefixSlices_ok _ Hok).
  split; [reflexivity|]. now apply slices_swf in Hok.
Qed.

(** The operand instruction that [operandV] builds. *)
Definition operand_of (v : Z) (ps : list (Z * Z)) (n : Z) (a : Z -> M State unit) (d : option (M Slice (Z * option error))) (w : option (Z -> M Builder unit)) : OperandOP :=
  mkOperandOP ((fun p => uint_prefix p.1 p.2) <$> ps) n a d None w 0 v.

Definition same_lengths (ps : list (Z * Z)) : bool := match ps with [] => true | p :: _ => forallb (fun q => q.2 =? p.2) ps end.

Lemma operandV_ok v ps n a d w :
  forallb declared ps = true -> same_lengths ps = true \/ d <> None -> operandV v ps n a d w = Ok (IOperand (operand_of v ps n a d w)).
Proof.
  intros Hps Hd. unfold operandV. rewrite (UIntPrefixes_ok _ Hps). cbn [mbind outcome_bind]. fold (operand_of v ps n a d w).
  replace (NewArgOP (operand_of v ps n a d w)) with (Ok (operand_of v ps n a d w)); [done|].
  unfold NewArgOP. cbn [operand_of ao_Decode ao_Prefixes]. destruct d as [d|]; [done|]. destruct Hd as [Hd|]; [|done].
  destruct ps as [|p ps]; [done|]. cbn [same_lengths] in Hd. change (bp_Bits (uint_prefix p.1 p.2)) with p.2.
  assert (Hf : forallb (fun q => bp_Bits q =? p.2) ((fun p => uint_prefix p.1 p.2) <$> p :: ps) = true); [|cbn in Hf |- *; now rewrite Hf].
  apply forallb_forall. intros q Hq.
  apply list_elem_of_In, list_elem_of_fmap in Hq as (y & -> & Hy%list_elem_of_In). exact (proj1 (forallb_forall _ _) Hd _ Hy).
Qed.

Lemma operandV_buildable v ps n a d w : forallb declared ps = true -> same_lengths ps = true \/ d <> None -> buildable (operandV v ps n a d w).
Proof.
  intros Hps Hd. eexists _, _. split; [now apply operandV_ok|]. cbn [entry_of]. unfold operand_entry.
  replace (NewArgOP (operand_of v ps n a d w)) with (Ok (operand_of v ps n a d w)).
  - cbn [mbind outcome_bind operand_of ao_Prefixes]. rewrite PrefixSlices_ok by now apply uint_prefixes_ok.
    split; [reflexivity|]. now apply slices_swf, uint_prefixes_ok.
  - pose proof (operandV_ok v ps n a d w Hps Hd) as H. unfold operandV in H. rewrite (UIntPrefixes_ok _ Hps) in H. cbn [mbind outcome_bind] in H.
    fold (operand_of v ps n a d w) in H. destruct (NewArgOP (operand_of v ps n a d w)); [|done..]. by injection H as ->.
Qed.

Lemma decoded_op_buildable ps m : forallb declared ps = true -> buildable (decoded_op ps m).
Proof.
  intros Hps. unfold decoded_op. rewrite (UIntPrefixes_ok _ Hps). cbn [mbind outcome_bind]. rewrite PrefixSlices_ok by now apply uint_prefixes_ok.
  eexists _, _. split; [reflexivity|]. split; [reflexivity|]. now apply slices_swf, uint_prefixes_ok.
Qed.

(** ** The machine *)

Lemma entries_of_ok l : Forall buildable l -> exists es, entries_of l = Ok es /\ Forall (fun e => Forall swf (entry_prefixes e)) es.
Proof.
  induction 1 as [|i l (x & e & -> & He & Hs) _ (es & Hes & Hf)]; [by exists []|]. exists (e :: es). cbn. rewrite He. cbn. rewrite Hes.
  split; [done|by constructor].
Qed.

(** [NewTVM] builds one table for each version. *)
Lemma machine_builds l : Forall buildable l -> exists tvm, machine l = Ok tvm /\ Z.of_nat (length tvm) = MaxSupportedGlobalVersion + 1.
Proof.
  intros Hl. destruct (entries_of_ok l Hl) as (es & Hes & Hf). unfold machine. rewrite Hes. cbn [mbind outcome_bind]. unfold newTVM.
  destruct (built_lookup (registration_of <$> es)) as (ds & Hb & Hn & _); [by apply Forall_fmap|]. by exists ds.
Qed.

(** ** Operands are read as written *)

Lemma loads_skip bs : loads (SkipBits (len bs)) bs tt.
Proof.
  intros s rest Hwf H. pose proof (len_sbits s Hwf) as Hl. rewrite H, len_app in Hl. pose proof (len_nonneg bs). pose proof (len_nonneg rest).
  now apply SkipBits_ok; [|lia].
Qed.

Lemma loads_attempt {A B} (m : M Slice A) (ok : A -> M Slice B) bad bs a b :
  loads m bs a -> loads (ok a) [] b -> loads (attempt m ok bad) bs b.
Proof.
  intros Hm Hk s rest Hwf H. unfold attempt. rewrite (Hm s rest Hwf H). destruct (sbits_skip_app s _ _ Hwf H) as [Hwf1 H1].
  rewrite (Hk _ rest Hwf1 H1). change (len []) with 0. now rewrite skip_0.
Qed.
