(* ===== verification/ContOps.v ===== *)
(** * Control-flow instructions

    Models [tvm/op/exec]: calls, jumps, returns and conditions, loops and their
    breaking forms, continuations with arguments, exceptions, and jumps into the
    dictionary of the code.  The control registers come last.

    The code changes the control data of a continuation in place, after a copy when
    the continuation is a register; here a changed continuation is a new value.  The code
    being executed is never nil. *)

From S2P Require Import Prelude Bytes CellModel Builder Slice Gas Value Stack VmState Exec CellLoad Run Encoding.
#[local] Open Scope Z_scope.

(** ** Helpers *)

Definition packArgPair (first second : Z) : Z := Z.lor (u64 (u32 first ≪ 32)) (u32 second).
Definition unpackArgPair (args : Z) : Z * Z := (s32 (args ≫ 32), s32 args).

Definition checkStackDepth (depth : Z) : M State unit :=
  st ← get_state;
  guard_err (len (st_Stack st) <? depth) (VMErr CodeStackUnderflow).

Definition popContinuation : M State cont := on_stack PopContinuation.
Definition popBool : M State bool := on_stack PopBool.

Definition cloneContinuation (c : cont) : cont := Copy_cont c.

Definition defineSavedContinuation (idx : Z) (c : cont) (reg : register) : register :=
  if IsNullContinuation (r_C reg idx) then set_C reg idx (cloneContinuation c) else reg.

(** Changes the control data of a continuation that has them. *)
Definition update_data (f : cdata -> cdata) (c : cont) : cont :=
  match c with
  | COrdinary d code => COrdinary (f d) code
  | CArgExt d ext => CArgExt (f d) ext
  | c => c
  end.
Definition update_save (f : register -> register) : cont -> cont :=
  update_data (fun d => mkData (f (d_Save d)) (d_Stack d) (d_NumArgs d) (d_CP d)).

(** [Save.Define(i, v)] with its result ignored *)
Definition define (i : Z) (v : value) (reg : register) : register := snd (Register_Define i v reg).

Definition code_cont (st : State) (code : Slice) : cont :=
  COrdinary (mkData emptyReg None ControlDataAllArgs (st_CP st)) code.

Definition pushCurrentCode : M State unit :=
  st ← get_state;
  on_stack (push (VSlice (Some (st_CurrentCode st)))).

Definition c1Envelope (c : cont) (save : bool) : M State cont :=
  c ← (if save then
         c ← ForceControlData (cloneContinuation c);
         st ← get_state;
         mret (update_save (fun reg => defineSavedContinuation 0 (r_C (st_Reg st) 0) (defineSavedContinuation 1 (r_C (st_Reg st) 1) reg)) c)
       else mret c);
  set_c 1 c ;;
  mret c.

Definition c1EnvelopeIf (enabled : bool) (c : cont) : M State cont :=
  if negb enabled then mret c else c1Envelope c true.

Definition c1SaveSet (save : bool) : M State unit :=
  (if save then
     st ← get_state;
     c0 ← ForceControlData (cloneContinuation (r_C (st_Reg st) 0));
     set_c 0 (update_save (defineSavedContinuation 1 (r_C (st_Reg st) 1)) c0)
   else mret tt) ;;
  st ← get_state;
  set_c 1 (cloneContinuation (r_C (st_Reg st) 0)).

(** Whether a continuation leaves [c0] to its caller. *)
Definition sets_c0 (c : cont) (loop : cont) : M State unit :=
  d ← control_data c;
  if no_c0 d then set_c 0 loop else mret tt.

(** ** Calls and jumps *)

Definition EXECUTE : M State unit := c ← popContinuation; Call c.
Definition JMPX : M State unit := c ← popContinuation; Jump c.

Definition callXArgsOp (args : Z) : M State unit :=
  let '(params, retvals) := unpackArgPair args in
  c ← popContinuation;
  CallArgs c params retvals.

Definition callXArgsPOp (args : Z) : M State unit :=
  c ← popContinuation;
  CallArgs c (s32 args) (-1).

Definition jmpXArgsOp (args : Z) : M State unit :=
  c ← popContinuation;
  JumpArgs c (s32 args).

Definition CALLXVARARGS : M State unit :=
  checkStackDepth 3 ;;
  retvals ← on_stack (PopIntRange (-1) 254);
  params ← on_stack (PopIntRange (-1) 254);
  c ← popContinuation;
  CallArgs c params retvals.

Definition JMPXVARARGS : M State unit :=
  checkStackDepth 2 ;;
  params ← on_stack (PopIntRange (-1) 254);
  (if 0 <=? params then checkStackDepth (params + 1) else mret tt) ;;
  c ← popContinuation;
  JumpArgs c params.

Definition JMPXDATA : M State unit :=
  c ← popContinuation;
  pushCurrentCode ;;
  Jump c.

(** The shared end of [CALLCC] and its forms with arguments. *)
Definition callcc (params retvals : Z) : M State unit :=
  c ← popContinuation;
  cc ← ExtractCurrentContinuation 3 params retvals;
  on_stack (PushOwnedContinuation cc) ;;
  Jump c.

Definition CALLCC : M State unit := callcc (-1) (-1).

Definition callCCArgsOp (args : Z) : M State unit :=
  let '(params, retvals) := unpackArgPair args in
  checkStackDepth (params + 1) ;;
  callcc params retvals.

Definition CALLCCVARARGS : M State unit :=
  checkStackDepth 3 ;;
  retvals ← on_stack (PopIntRange (-1) 254);
  params ← on_stack (PopIntRange (-1) 254);
  (if 0 <=? params then checkStackDepth (params + 1) else mret tt) ;;
  callcc params retvals.

(** ** Returns *)

Definition RET : M State unit := Return None.
Definition RETALT : M State unit := ReturnAlt None.
Definition retArgsOp (args : Z) : M State unit := Return (Some (s32 args)).
Definition RETVARARGS : M State unit := retvals ← on_stack (PopIntRange (-1) 254); Return (Some retvals).
Definition RETBOOL : M State unit := cond ← popBool; if (cond : bool) then Return None else ReturnAlt None.
Definition RETDATA : M State unit := pushCurrentCode ;; Return None.
Definition IFRET : M State unit := cond ← popBool; if (cond : bool) then Return None else mret tt.
Definition IFNOTRET : M State unit := cond ← popBool; if negb cond then Return None else mret tt.
Definition IFRETALT : M State unit := cond ← popBool; if (cond : bool) then ReturnAlt None else mret tt.
Definition IFNOTRETALT : M State unit := cond ← popBool; if negb cond then ReturnAlt None else mret tt.

(** ** Conditions *)

Definition IF : M State unit :=
  checkStackDepth 2 ;; c ← popContinuation; b ← popBool; if (b : bool) then Call c else mret tt.
Definition IFNOT : M State unit :=
  checkStackDepth 2 ;; c ← popContinuation; b ← popBool; if negb b then Call c else mret tt.
Definition IFJMP : M State unit :=
  checkStackDepth 2 ;; c ← popContinuation; b ← popBool; if (b : bool) then Jump c else mret tt.
Definition IFNOTJMP : M State unit :=
  checkStackDepth 2 ;; c ← popContinuation; b ← popBool; if negb b then Jump c else mret tt.
Definition IFELSE : M State unit :=
  checkStackDepth 3 ;; c0 ← popContinuation; c1 ← popContinuation; b ← popBool; if (b : bool) then Call c1 else Call c0.

(** [x.Bit(i)] of the top of the stack, which stays. *)
Definition test_top (i : Z) : M State bool :=
  x ← on_stack PopIntFinite;
  on_stack (PushInt x) ;;
  mret (Z.testbit x i).

Definition ifBitJmpArgs (bit : Z) (negate : bool) : outcome Z :=
  if 0x1F <? bit then Panic else Ok (if negate then Z.lor bit 0x20 else bit).

Definition ifBitJmpOp (args : Z) : M State unit :=
  checkStackDepth 2 ;;
  c ← popContinuation;
  val ← test_top (Z.land args 0x1F);
  if negb (Bool.eqb val (negb (Z.land args 0x20 =? 0))) then Jump c else mret tt.

Definition sameStackValueType (x y : value) : bool :=
  match x, y with
  | VNull, VNull => true
  | (VNaN | VInt _), (VNaN | VInt _) => true
  | VCont _, VCont _ => true
  | VCell _, VCell _ => true
  | VBuilder _, VBuilder _ => true
  | VSlice _, VSlice _ => true
  | VTuple _, VTuple _ => true
  | _, _ => false
  end.

Definition CONDSELCHK : M State unit :=
  checkStackDepth 3 ;;
  y ← on_stack PopAny;
  x ← on_stack PopAny;
  guard_err (negb (sameStackValueType x y)) (VMErr CodeTypeCheck) ;;
  cond ← popBool;
  on_stack (PushOwnedValue (if (cond : bool) then x else y)).

(** ** Loops *)

Definition repeatCountMin : Z := - 2 ^ 31.
Definition repeatCountMax : Z := 2 ^ 31 - 1.
Definition popCount : M State Z := on_stack (PopIntRange repeatCountMin repeatCountMax).

(** [REPEAT] and [REPEATBRK] *)
Definition repeat (brk : bool) : M State unit :=
  checkStackDepth 2 ;;
  body ← popContinuation;
  count ← popCount;
  if count <=? 0 then mret tt
  else
    after ← ExtractCurrentContinuation 1 (-1) (-1);
    after ← c1EnvelopeIf brk after;
    Jump (CRepeat count body after).
Definition REPEAT : M State unit := repeat false.
Definition REPEATBRK : M State unit := repeat true.

Definition repeat_end (brk : bool) : M State unit :=
  count ← popCount;
  if count <=? 0 then Return None
  else
    body ← ExtractCurrentContinuation 0 (-1) (-1);
    st ← get_state;
    after ← c1EnvelopeIf brk (r_C (st_Reg st) 0);
    Jump (CRepeat count body after).
Definition REPEATEND : M State unit := repeat_end false.
Definition REPEATENDBRK : M State unit := repeat_end true.

Definition until (brk : bool) : M State unit :=
  body ← popContinuation;
  after ← ExtractCurrentContinuation 1 (-1) (-1);
  after ← c1EnvelopeIf brk after;
  sets_c0 body (CUntil body after) ;;
  Jump body.
Definition UNTIL : M State unit := until false.
Definition UNTILBRK : M State unit := until true.

Definition until_end (brk : bool) : M State unit :=
  body ← ExtractCurrentContinuation 0 (-1) (-1);
  st ← get_state;
  after ← c1EnvelopeIf brk (r_C (st_Reg st) 0);
  sets_c0 body (CUntil body after) ;;
  Jump body.
Definition UNTILEND : M State unit := until_end false.
Definition UNTILENDBRK : M State unit := until_end true.

Definition while (brk : bool) : M State unit :=
  checkStackDepth 2 ;;
  body ← popContinuation;
  cond ← popContinuation;
  after ← ExtractCurrentContinuation 1 (-1) (-1);
  after ← c1EnvelopeIf brk after;
  sets_c0 cond (CWhile true body cond after) ;;
  Jump cond.
Definition WHILE : M State unit := while false.
Definition WHILEBRK : M State unit := while true.

Definition while_end (brk : bool) : M State unit :=
  cond ← popContinuation;
  body ← ExtractCurrentContinuation 0 (-1) (-1);
  st ← get_state;
  after ← c1EnvelopeIf brk (r_C (st_Reg st) 0);
  sets_c0 cond (CWhile true body cond after) ;;
  Jump cond.
Definition WHILEEND : M State unit := while_end false.
Definition WHILEENDBRK : M State unit := while_end true.

Definition AGAIN : M State unit := body ← popContinuation; Jump (CAgain body).
Definition AGAINEND : M State unit := body ← ExtractCurrentContinuation 0 (-1) (-1); Jump (CAgain body).
Definition AGAINBRK : M State unit :=
  cc ← ExtractCurrentContinuation 3 (-1) (-1);
  set_c 1 cc ;;
  body ← popContinuation;
  Jump (CAgain body).
Definition AGAINENDBRK : M State unit :=
  c1SaveSet true ;;
  body ← ExtractCurrentContinuation 0 (-1) (-1);
  Jump (CAgain body).

(** ** Continuations with arguments *)

Definition invalidContinuationArgs : Z := 0x40000000.

Definition parseCopyMore (raw : Z) : Z * Z := (Z.land (raw ≫ 4) 0x0F, Z.land (raw + 1) 0x0F - 1).
Definition encodeCopyMore (copyCount more : Z) : Z := Z.lor (Z.land copyCount 0x0F ≪ 4) (Z.land more 0x0F).

Definition closureStackOverflow : error := VMErr CodeStackOverflow.

(** [data.NumArgs] after [more] more arguments have been asked for *)
Definition limit_args (numArgs more : Z) : Z :=
  if 0 <=? more then
    if more <? numArgs then invalidContinuationArgs
    else if numArgs <? 0 then more else numArgs
  else numArgs.

Definition setContinuationArgsCommon (copyCount more : Z) : M State unit :=
  checkStackDepth (copyCount + 1) ;;
  c ← popContinuation;
  c ← (if negb (copyCount =? 0) || (0 <=? more) then
         c ← ForceControlData c;
         d ← control_data c;
         match d with
         | None => panic
         | Some d =>
             d ← (if 0 <? copyCount then
                    guard_err ((0 <=? d_NumArgs d) && (d_NumArgs d <? copyCount)) closureStackOverflow ;;
                    stk ← (match d_Stack d with
                           | None => on_stack (SplitTop copyCount 0)
                           | Some s => move_from_stack s copyCount
                           end);
                    ConsumeStackGas stk ;;
                    mret (mkData (d_Save d) (Some stk) (if 0 <=? d_NumArgs d then d_NumArgs d - copyCount else d_NumArgs d) (d_CP d))
                  else mret d);
             mret (update_data (fun _ => mkData (d_Save d) (d_Stack d) (limit_args (d_NumArgs d) more) (d_CP d)) c)
         end
       else mret c);
  on_stack (PushOwnedContinuation c).

Definition returnArgsCommon (count : Z) : M State unit :=
  checkStackDepth count ;;
  st ← get_state;
  if len (st_Stack st) =? count then mret tt
  else
    let copyCount := len (st_Stack st) - count in
    newStack ← on_stack (SplitTop count 0);
    st ← get_state;
    let altStack := st_Stack st in
    put_state (set_stack st newStack) ;;
    c ← ForceControlData (cloneContinuation (r_C (st_Reg st) 0));
    d ← control_data c;
    match d with
    | None => panic
    | Some d =>
        guard_err ((0 <=? d_NumArgs d) && (d_NumArgs d <? copyCount)) closureStackOverflow ;;
        stk ← (match d_Stack d with
               | None => mret altStack
               | Some s => lift (r ← run (MoveFrom copyCount) (s, altStack); Ok (fst (snd r)))
               end);
        ConsumeStackGas stk ;;
        set_c 0 (update_data (fun _ => mkData (d_Save d) (Some stk) (if 0 <=? d_NumArgs d then d_NumArgs d - copyCount else d_NumArgs d) (d_CP d)) c)
    end.

Definition blessArgsCommon (copyCount more : Z) : M State unit :=
  checkStackDepth (copyCount + 1) ;;
  code ← on_stack PopSlice;
  stk ← (if 0 <? copyCount then on_stack (SplitTop copyCount 0) else mret []);
  ConsumeStackGas stk ;;
  st ← get_state;
  on_stack (PushOwnedContinuation (COrdinary (mkData emptyReg (Some stk) more (st_CP st)) code)).

(** The packed byte that [SETCONTARGS], [BLESSARGS] and [CALLCCARGS] share. *)
Definition decodeCopyMore (prefixBits : Z) : M Slice (Z * option error) :=
  decoded (SkipBits prefixBits ;; raw ← LoadUInt 8; let '(copyCount, more) := parseCopyMore raw in mret (packArgPair copyCount more)).

Definition serializeCopyMore (prefix : BitPrefix) (args : Z) : M Builder unit :=
  let '(copyCount, more) := unpackArgPair args in
  store_prefix prefix ;; StoreUInt (u64 (encodeCopyMore copyCount more)) 8.

(** [CALLXARGS] and [TRYARGS]: two nibbles. *)
Definition callXArgs_serialize (args : Z) : M Builder unit :=
  let '(params, retvals) := unpackArgPair args in
  StoreUInt 0xDA 8 ;; StoreUInt (u64 (Z.lor (params ≪ 4) retvals)) 8.

Definition tryArgs_serialize (args : Z) : M Builder unit :=
  let '(params, retvals) := unpackArgPair args in
  StoreUInt 0xF3 8 ;; StoreUInt (u64 (Z.lor (Z.land params 0x0F ≪ 4) (Z.land retvals 0x0F))) 8.

Definition decodePair : M Slice (Z * option error) :=
  decoded (SkipBits 8 ;; val ← LoadUInt 8; mret (packArgPair (Z.land (val ≫ 4) 0x0F) (Z.land val 0x0F))).

Definition setContArgsOp (args : Z) : M State unit :=
  let '(copyCount, more) := unpackArgPair args in setContinuationArgsCommon copyCount more.
Definition returnArgsOp (args : Z) : M State unit := returnArgsCommon (s32 args).
Definition blessArgsOp (args : Z) : M State unit :=
  let '(copyCount, more) := unpackArgPair args in blessArgsCommon copyCount more.

Definition RETURNVARARGS : M State unit := count ← on_stack (PopIntRange 0 255); returnArgsCommon count.
Definition SETCONTVARARGS : M State unit :=
  checkStackDepth 2 ;;
  more ← on_stack (PopIntRange (-1) 255);
  copyCount ← on_stack (PopIntRange 0 255);
  setContinuationArgsCommon copyCount more.
Definition SETNUMVARARGS : M State unit :=
  checkStackDepth 2 ;;
  more ← on_stack (PopIntRange (-1) 255);
  setContinuationArgsCommon 0 more.
Definition BLESS : M State unit :=
  code ← on_stack PopSlice;
  st ← get_state;
  on_stack (PushOwnedContinuation (code_cont st code)).
Definition BLESSVARARGS : M State unit :=
  checkStackDepth 2 ;;
  more ← on_stack (PopIntRange (-1) 255);
  copyCount ← on_stack (PopIntRange 0 255);
  blessArgsCommon copyCount more.

(** ** Composition *)

Definition composeCont (mask : Z) : M State unit :=
  checkStackDepth 2 ;;
  val ← popContinuation;
  c ← popContinuation;
  c ← ForceControlData c;
  let f0 reg := if negb (Z.land mask 1 =? 0) then defineSavedContinuation 0 val reg else reg in
  let f1 reg := if negb (Z.land mask 2 =? 0) then defineSavedContinuation 1 val reg else reg in
  on_stack (PushOwnedContinuation (update_save (fun reg => f1 (f0 reg)) c)).

Definition BOOLAND : M State unit := composeCont 1.
Definition COMPOSBOTH : M State unit := composeCont 3.

Definition BOOLOR : M State unit :=
  checkStackDepth 2 ;;
  val ← popContinuation;
  c ← popContinuation;
  c ← ForceControlData c;
  on_stack (PushOwnedContinuation (update_save (define 1 (VCont (cloneContinuation val))) c)).

Definition ATEXIT : M State unit :=
  c ← popContinuation;
  c ← ForceControlData c;
  st ← get_state;
  set_c 0 (update_save (defineSavedContinuation 0 (r_C (st_Reg st) 0)) c).
Definition ATEXITALT : M State unit :=
  c ← popContinuation;
  c ← ForceControlData c;
  st ← get_state;
  set_c 1 (update_save (defineSavedContinuation 1 (r_C (st_Reg st) 1)) c).
Definition SETEXITALT : M State unit :=
  c ← popContinuation;
  c ← ForceControlData c;
  st ← get_state;
  set_c 1 (update_save (fun reg => defineSavedContinuation 1 (r_C (st_Reg st) 1) (defineSavedContinuation 0 (r_C (st_Reg st) 0) reg)) c).
Definition THENRET : M State unit :=
  c ← popContinuation;
  c ← ForceControlData c;
  st ← get_state;
  on_stack (PushOwnedContinuation (update_save (defineSavedContinuation 0 (r_C (st_Reg st) 0)) c)).
Definition THENRETALT : M State unit :=
  c ← popContinuation;
  c ← ForceControlData c;
  st ← get_state;
  on_stack (PushOwnedContinuation (update_save (defineSavedContinuation 0 (r_C (st_Reg st) 1)) c)).
Definition INVERT : M State unit :=
  modify (fun st => let reg := st_Reg st in set_reg st (set_C (set_C reg 0 (r_C reg 1)) 1 (r_C reg 0))).
Definition BOOLEVAL : M State unit :=
  c ← popContinuation;
  cc ← ExtractCurrentContinuation 3 (-1) (-1);
  set_c 0 (CPushInt (-1) (Copy_cont cc)) ;;
  set_c 1 (CPushInt 0 cc) ;;
  Jump c.

(** [Copy] called through the interface panics on nil. *)
Definition SAMEALT : M State unit :=
  st ← get_state;
  match r_C (st_Reg st) 0 with CNil => panic | c => set_c 1 (Copy_cont c) end.
Definition SAMEALTSAVE : M State unit :=
  st ← get_state;
  c0 ← ForceControlData (cloneContinuation (r_C (st_Reg st) 0));
  let c0 := update_save (define 1 (VCont (cloneContinuation (r_C (st_Reg st) 1)))) c0 in
  set_c 0 c0 ;;
  set_c 1 (Copy_cont c0).

(** ** Exceptions *)

(** [throwFixedCfg] without its encoding: [need], [hasCond], [expected], [withArg] of
    [newThrowFixedCfg] *)
Definition throwFixed (mode : Z) (withArg : bool) (exc : Z) : M State unit :=
  let hasCond := negb (mode =? 0) in
  let expected := Z.land mode 1 =? 1 in
  let need := if withArg then (if hasCond then 2 else 1) else 0 in
  (if 0 <? need then checkStackDepth need else mret tt) ;;
  if hasCond then
    cond ← popBool;
    if withArg then
      arg ← on_stack PopAny;
      if negb (Bool.eqb cond expected) then mret tt else ThrowException (s64 exc) (Some arg)
    else if negb (Bool.eqb cond expected) then mret tt else ThrowException (s64 exc) None
  else if withArg then
    arg ← on_stack PopAny;
    ThrowException (s64 exc) (Some arg)
  else ThrowException (s64 exc) None.

Definition throwAnyOp (args : Z) : M State unit :=
  let hasParam := negb (Z.land args 1 =? 0) in
  let hasCond := negb (Z.land args 6 =? 0) in
  let throwCond := negb (Z.land args 2 =? 0) in
  checkStackDepth (1 + (if hasCond then 1 else 0) + (if hasParam then 1 else 0)) ;;
  cond ← (if hasCond then popBool else mret throwCond);
  exc ← on_stack (PopIntRange 0 0xffff);
  if negb (Bool.eqb cond throwCond) then
    (if hasParam then _ ← on_stack PopAny; mret tt else mret tt)
  else if hasParam then
    arg ← on_stack PopAny;
    ThrowException exc (Some arg)
  else ThrowException exc None.

Definition throwAny_decode : M Slice (Z * option error) :=
  decoded (SkipBits 13 ;; val ← LoadUInt 3; guard_err (5 <? val) ErrCorruptedOpcode ;; mret val).

Definition throwAny_serialize (args : Z) : M Builder unit :=
  p ← lift (UIntPrefix 0x1E5E 13);
  store_prefix p ;; StoreUInt args 3.

Definition executeTry (params retvals : Z) : M State unit :=
  checkStackDepth (2 + (if 0 <=? params then params else 0)) ;;
  handler ← popContinuation;
  c ← popContinuation;
  st ← get_state;
  let oldC2 := r_C (st_Reg st) 2 in
  cc ← ExtractCurrentContinuation 7 params retvals;
  handler ← ForceControlData handler;
  let handler := update_save (fun reg => define 0 (VCont (cloneContinuation cc)) (define 2 (VCont (cloneContinuation oldC2)) reg)) handler in
  set_c 0 cc ;;
  set_c 2 handler ;;
  Jump c.
Definition TRY : M State unit := executeTry (-1) (-1).
Definition tryArgsOp (args : Z) : M State unit :=
  let '(params, retvals) := unpackArgPair args in executeTry params retvals.

(** ** Jumps into the dictionary of the code *)

Definition currentCodeDict : M State cont :=
  st ← get_state;
  guard_err (IsNullContinuation (r_C (st_Reg st) 3)) (VMErr CodeTypeCheck) ;;
  mret (r_C (st_Reg st) 3).

Definition pushDictIndex (args : Z) : M State cont :=
  on_stack (PushSmallInt (s32 args)) ;;
  currentCodeDict.

Definition callDictOp (args : Z) : M State unit := c ← pushDictIndex args; Call c.
Definition jmpDictOp (args : Z) : M State unit := c ← pushDictIndex args; Jump c.
Definition prepareDictOp (args : Z) : M State unit := c ← pushDictIndex args; on_stack (PushContinuation c).

(** ** Instructions with references in the code: [refCodeOp] *)

(** The next references of the code; [None] when one is missing. *)
Fixpoint take_refs (n : nat) : M Slice (option (list Cell)) :=
  match n with
  | O => mret (Some [])
  | S n =>
      attempt (peekRefCellAt 0)
        (fun ref => SkipBitsAndRefs 0 1 ;; refs ← take_refs n; mret (cons ref <$> refs))
        (fun _ => mret None)
  end.

(** [suffix] is [deserializeSuffix], whose result the action gets; it is [mret 0] when
    there is none. *)
Definition refCodeOp (prefix : BitPrefix) (refsNum : nat) (fixedBits : Z) (suffix : M Slice Z)
    (action : Z -> list Cell -> M State unit) : outcome instruction :=
  ps ← PrefixSlices [prefix];
  let bits := bp_Bits prefix + fixedBits in
  Ok (IOther (mkOP ps
       (reading bits (SkipBits (bp_Bits prefix) ;; x ← suffix; refs ← take_refs refsNum; mret (x, refs))
          (fun '(x, refs) =>
             mret (accepted bits (match refs with Some refs => action x refs | None => fail (VMErr CodeInvalidOpcode) end))))
       0)).

Section refops.
Context `{MeteredLookup}.

Definition loadContinuationFromCodeCell (code : Cell) : M State cont :=
  sl ← BeginParse (Some code);
  st ← get_state;
  mret (code_cont st sl).

Definition jumpToCodeCell (code : Cell) : M State unit :=
  target ← BeginParse (Some code);
  st ← get_state;
  JumpToCode target (st_CP st).

(** [refs[i]] *)
Definition ref_at (refs : list Cell) (i : nat) : M State Cell := lift (match refs !! i with Some c => Ok c | None => Panic end).

Definition call_ref (refs : list Cell) (i : nat) : M State unit :=
  ref ← ref_at refs i;
  c ← loadContinuationFromCodeCell ref;
  Call c.
Definition jump_ref (refs : list Cell) : M State unit := ref ← ref_at refs 0; jumpToCodeCell ref.

Definition CALLREF (refs : list Cell) : M State unit := call_ref refs 0.
Definition JMPREF (refs : list Cell) : M State unit := jump_ref refs.
Definition JMPREFDATA (refs : list Cell) : M State unit :=
  ref ← ref_at refs 0;
  target ← BeginParse (Some ref);
  pushCurrentCode ;;
  st ← get_state;
  JumpToCode target (st_CP st).
Definition IFREF (refs : list Cell) : M State unit := cond ← popBool; if (cond : bool) then call_ref refs 0 else mret tt.
Definition IFNOTREF (refs : list Cell) : M State unit := cond ← popBool; if negb cond then call_ref refs 0 else mret tt.
Definition IFJMPREF (refs : list Cell) : M State unit := cond ← popBool; if (cond : bool) then jump_ref refs else mret tt.
Definition IFNOTJMPREF (refs : list Cell) : M State unit := cond ← popBool; if negb cond then jump_ref refs else mret tt.

(** [IFREFELSE] and [IFELSEREF]: the reference is called when the condition is [on]. *)
Definition if_ref_else (on : bool) (refs : list Cell) : M State unit :=
  checkStackDepth 2 ;;
  c ← popContinuation;
  cond ← popBool;
  if Bool.eqb cond on then call_ref refs 0 else Call c.
Definition IFREFELSE : list Cell -> M State unit := if_ref_else true.
Definition IFELSEREF : list Cell -> M State unit := if_ref_else false.
Definition IFREFELSEREF (refs : list Cell) : M State unit :=
  cond ← popBool;
  call_ref refs (if (cond : bool) then 0 else 1)%nat.

(** [newIfBitJmpRefOp]; [raw] is the six-bit suffix. *)
Definition IFBITJMPREF (raw : Z) (refs : list Cell) : M State unit :=
  val ← test_top (u8 (Z.land raw 0x1F));
  if negb (Bool.eqb val (negb (Z.land raw 0x20 =? 0))) then jump_ref refs else mret tt.

End refops.

(** * Control registers

    Models [controlregs.go], [savectr.go], [setcontctr.go] and [setcontctrmany.go] of
    [tvm/op/exec]: reading and writing the control registers and the registers saved
    in a continuation. *)

Definition validControlRegisterIndex (i : Z) : bool := ((0 <=? i) && (i <=? 5)) || (i =? 7).

Definition controlRegisterPrefixIndexes : list Z := [0; 1; 2; 3; 4; 5; 7].

Definition controlRegisterPrefixes (base : Z) : list (Z * Z) := (fun idx => (Z.lor base idx, 16)) <$> controlRegisterPrefixIndexes.

Definition loadControlRegisterIndex : M Slice Z :=
  idx ← LoadUInt 4;
  guard_err (negb (validControlRegisterIndex idx)) ErrCorruptedOpcode ;;
  mret idx.

(** [newControlRegisterOp]; [prefix] has 12 bits, the registered prefixes 16. *)
Definition newControlRegisterOp (base : Z) (action : Z -> M State unit) : outcome instruction :=
  operandV 0 (controlRegisterPrefixes base) 0 (fun args => action (s64 args)) (Some (decoded (SkipBits 12 ;; loadControlRegisterIndex)))
    (Some (fun args => store_prefix (SlicePrefix 12 (be_bytes 2 base)) ;; StoreUInt args 4)).

Definition cloneControlRegisterValue (v : value) : value :=
  match v with VCont c => VCont (Copy_cont c) | v => v end.

(** [cloneControlRegisterValue(state.Reg.Get(i))]; [None] is [Null{}], which no stack
    and no register accepts. *)
Definition register_value (reg : register) (i : Z) : option value := cloneControlRegisterValue <$> Register_Get reg i.

Definition setControlRegister (idx : Z) (v : value) : M State unit :=
  ok ← on_reg (Register_Set idx v);
  guard_err (negb ok) (VMErr CodeTypeCheck).

Definition controlRegisterValueHasType (idx : Z) (v : value) : bool :=
  if idx <? 0 then false
  else if idx <? 4 then match v with VCont c => negb (IsNullContinuation c) | _ => false end
  else if idx <? 6 then match v with VCell (Some _) => true | _ => false end
  else if idx =? 7 then match v with VTuple (Some _) => true | _ => false end
  else false.

Definition controlRegisterSlotFilled (reg : register) (idx : Z) : bool :=
  if idx <? 0 then false
  else if idx <? 4 then negb (IsNullContinuation (r_C reg idx))
  else if idx <? 6 then match r_D reg (idx - 4) with Some _ => true | None => false end
  else if idx =? 7 then match r_C7 reg with Some _ => true | None => false end
  else false.

(** [defineControlRegister] on the registers saved in [c]. *)
Definition defineControlRegister (idx : Z) (v : option value) (c : cont) : M State cont :=
  st ← get_state;
  d ← control_data c;
  match d, v with
  | None, _ => panic
  | _, None => fail (VMErr CodeTypeCheck)
  | Some d, Some v =>
      let '(ok, save) := Register_Define idx v (d_Save d) in
      let defined := match ok with Ok b => b | _ => false end in
      guard_err (negb (defined || ((14 <=? st_GlobalVersion st) && controlRegisterSlotFilled save idx && controlRegisterValueHasType idx v)))
        (VMErr CodeTypeCheck) ;;
      mret (update_save (fun _ => save) c)
  end.

(** [ForceControlData(cloneContinuation(state.Reg.C[i]))] *)
Definition forced_register (i : Z) : M State cont :=
  st ← get_state;
  ForceControlData (cloneContinuation (r_C (st_Reg st) i)).

(** ** Instructions *)

Definition push_register (i : Z) : M State unit :=
  st ← get_state;
  match register_value (st_Reg st) i with
  | Some v => on_stack (PushAny v)
  | None => fail (VMErr CodeTypeCheck)
  end.

Definition pushCtrOp (i : Z) : M State unit :=
  if (i =? 4) || (i =? 5) then st ← get_state; on_stack (PushAny (VCell (r_D (st_Reg st) (i - 4))))
  else push_register i.

Section pop.
Context `{MeteredLookup}.

Definition popCtrOp (i : Z) : M State unit :=
  v ← on_stack PopAny;
  st ← get_state;
  v ← (match v with
       | VCell (Some cl) =>
           if (i =? 3) && (st_GlobalVersion st =? 0) && h_PopC3Cell (st_Historical st) then
             code ← BeginParse (Some cl);
             st ← get_state;
             mret (VCont (code_cont st code))
           else mret v
       | _ => mret v
       end);
  setControlRegister i v.

End pop.

(** Defines register [i] in the saved registers of [c0] or [c1]. *)
Definition define_in (creg i : Z) (v : option value) : M State unit :=
  c ← forced_register creg;
  c ← defineControlRegister i v c;
  set_c creg c.

Definition setRetCtrOp (i : Z) : M State unit := v ← on_stack PopAny; define_in 0 i (Some (cloneControlRegisterValue v)).
Definition setAltCtrOp (i : Z) : M State unit := v ← on_stack PopAny; define_in 1 i (Some (cloneControlRegisterValue v)).
Definition saveCtrOp (i : Z) : M State unit := st ← get_state; define_in 0 i (register_value (st_Reg st) i).
Definition saveAltCtrOp (i : Z) : M State unit := st ← get_state; define_in 1 i (register_value (st_Reg st) i).

(** [Save.Define] with its result ignored; [Null{}] defines nothing. *)
Definition define_value (i : Z) (v : option value) (c : cont) : cont :=
  match v with Some v => update_save (define i v) c | None => c end.

Definition popSaveCtrOp (i : Z) : M State unit :=
  v ← on_stack PopAny;
  guard_err ((i =? 0) && negb (match v with VCont _ => true | _ => false end)) (VMErr CodeTypeCheck) ;;
  c0 ← forced_register 0;
  st ← get_state;
  let c0 := define_value i (register_value (st_Reg st) i) c0 in
  if i =? 0 then
    set_c 0 c0 ;;
    setControlRegister i v
  else
    setControlRegister i v ;;
    set_c 0 c0.

Definition saveBothCtrOp (i : Z) : M State unit :=
  c0 ← forced_register 0;
  c1 ← forced_register 1;
  st ← get_state;
  let v := register_value (st_Reg st) i in
  set_c 0 (define_value i v c0) ;;
  set_c 1 (define_value i v c1).

Definition popIndex : M State Z :=
  i ← on_stack (PopIntRange 0 16);
  guard_err (negb (validControlRegisterIndex i)) (VMErr CodeRangeCheck) ;;
  mret i.

Definition PUSHCTRX : M State unit := i ← popIndex; push_register i.

Definition POPCTRX : M State unit :=
  checkStackDepth 2 ;;
  i ← popIndex;
  v ← on_stack PopAny;
  setControlRegister i v.

(** The shared end of [SETCONTCTR] and [SETCONTCTRX]. *)
Definition set_cont_ctr (i : Z) : M State unit :=
  c ← popContinuation;
  v ← on_stack PopAny;
  c ← ForceControlData c;
  c ← defineControlRegister i (Some (cloneControlRegisterValue v)) c;
  on_stack (PushOwnedContinuation c).

Definition setContCtrOp (i : Z) : M State unit :=
  checkStackDepth 2 ;;
  set_cont_ctr i.

Definition SETCONTCTRX : M State unit :=
  checkStackDepth 3 ;;
  i ← popIndex;
  set_cont_ctr i.

(** The loop over the bits of the mask. *)
Fixpoint define_mask (n : nat) (i m : Z) (c : cont) : M State cont :=
  match n with
  | O => mret c
  | S n =>
      if m =? 0 then mret c
      else
        c ← (if Z.land m 1 =? 0 then mret c
             else st ← get_state; defineControlRegister i (register_value (st_Reg st) i) c);
        define_mask n (i + 1) (m ≫ 1) c
  end.

Definition setContCtrManyCommon (mask : Z) : M State unit :=
  guard_err (negb (Z.land mask (1 ≪ 6) =? 0)) (VMErr CodeRangeCheck) ;;
  c ← popContinuation;
  c ← ForceControlData c;
  c ← define_mask 8 0 mask c;
  on_stack (PushOwnedContinuation c).

Definition setContCtrManyOp (args : Z) : M State unit := setContCtrManyCommon (u8 args).

Definition SETCONTCTRMANYX : M State unit :=
  checkStackDepth 2 ;;
  mask ← on_stack (PopIntRange 0 255);
  setContCtrManyCommon (u8 mask).
