(* ===== verification/TupleOps.v ===== *)
(** * Tuple instructions

    Models [tvm/op/tuple] and the operations of [tvm/tuple/tuple.go] they use.  A tuple
    is a persistent value, so the copies of its leaves have no counterpart. *)

From S2P Require Import Prelude Bytes CellModel Builder Slice Gas Value Stack VmState.
From stdpp Require Import list.
#[local] Open Scope Z_scope.

(** ** Tuples *)

Definition Index (t : list value) (i : Z) : M State value :=
  guard_err ((i <? 0) || (len t <=? i)) (VMErr CodeRangeCheck) ;;
  lift (match t !! Z.to_nat i with Some v => Ok v | None => Panic end).

Definition tuple_Set (t : list value) (i : Z) (v : value) : M State (list value) :=
  guard_err ((i <? 0) || (len t <=? i)) (VMErr CodeRangeCheck) ;;
  mret (<[Z.to_nat i := v]> t).

Definition Resize (t : list value) (size : Z) : list value :=
  let size := Z.to_nat size in take size t ++ replicate (size - length t) VNull.

Definition PopLast (t : list value) : M State (value * list value) :=
  match reverse t with
  | [] => fail (VMErr CodeRangeCheck)
  | v :: rest => mret (v, reverse rest)
  end.

Definition Append (t : list value) (v : value) : list value := t ++ [v].

(** ** Creation *)

Definition tuple_depth (n : Z) : M State unit :=
  st ← get_state;
  guard_err (len (st_Stack st) <? n) (VMErr CodeStackUnderflow).

(** [count] pops; the last popped value comes first. *)
Fixpoint pop_values (count : nat) (vals : list value) : M State (list value) :=
  match count with
  | O => mret vals
  | S count => v ← on_stack PopAny; pop_values count (v :: vals)
  end.

Definition execMakeTuple (count : Z) : M State unit :=
  guard_err (count <? 0) (VMErr CodeRangeCheck) ;;
  tuple_depth count ;;
  vals ← pop_values (Z.to_nat count) [];
  PushTupleCharged vals.

Definition tupleOp (args : Z) : M State unit := execMakeTuple (u8 args).
Definition TUPLEVAR : M State unit := count ← on_stack (PopIntRange 0 255); execMakeTuple count.

(** ** Reading *)

Definition index_push (t : list value) (i : Z) : M State unit := v ← Index t i; on_stack (PushAny v).

Definition indexOp (args : Z) : M State unit :=
  t ← on_stack (PopTupleRange 255 0);
  index_push t (u8 args).
Definition INDEXVAR : M State unit :=
  tuple_depth 2 ;;
  idx ← on_stack (PopIntRange 0 254);
  t ← on_stack (PopTupleRange 255 0);
  index_push t idx.

Definition execIndexQuiet (idx : Z) : M State unit :=
  t ← on_stack (PopMaybeTupleRange 255);
  match t with
  | None => on_stack (PushAny VNull)
  | Some t => if (len t <=? idx) || (idx <? 0) then on_stack (PushAny VNull) else index_push t idx
  end.
Definition indexQOp (args : Z) : M State unit := execIndexQuiet (u8 args).
Definition INDEXVARQ : M State unit :=
  tuple_depth 2 ;;
  idx ← on_stack (PopIntRange 0 254);
  execIndexQuiet idx.

Definition indexIntermediateTuple (current : list value) (idx : Z) : M State (list value) :=
  v ← Index current idx;
  match v with
  | VTuple (Some nested) => guard_err (255 <? len nested) (VMErr CodeTypeCheck) ;; mret nested
  | _ => fail (VMErr CodeTypeCheck)
  end.

Definition execIndex2 (i j : Z) : M State unit :=
  current ← on_stack (PopTupleRange 255 0);
  current ← indexIntermediateTuple current i;
  index_push current j.
Definition execIndex3 (i j k : Z) : M State unit :=
  current ← on_stack (PopTupleRange 255 0);
  current ← indexIntermediateTuple current i;
  current ← indexIntermediateTuple current j;
  index_push current k.
Definition index2Op (args : Z) : M State unit := execIndex2 (Z.land (args ≫ 2) 3) (Z.land args 3).
Definition index3Op (args : Z) : M State unit := execIndex3 (Z.land (args ≫ 4) 3) (Z.land (args ≫ 2) 3) (Z.land args 3).

Definition LAST : M State unit :=
  t ← on_stack (PopTupleRange 255 1);
  index_push t (len t - 1).

(** [state.Stack.PushAny(tup.Index(i))] for [i] from [i] on, [n] times. *)
Fixpoint push_elements (t : list value) (i : Z) (n : nat) : M State unit :=
  match n with
  | O => mret tt
  | S n => index_push t i ;; push_elements t (i + 1) n
  end.

Definition execUntuple (count : Z) (exact : bool) : M State unit :=
  t ← on_stack (PopTupleRange (if exact then count else 255) count);
  let limit := if negb exact && (len t <? count) then len t else count in
  push_elements t 0 (Z.to_nat limit) ;;
  ConsumeTupleGasLen limit.
Definition untupleOp (args : Z) : M State unit := execUntuple (u8 args) true.
Definition unpackFirstOp (args : Z) : M State unit := execUntuple (u8 args) false.
Definition untuple_var (exact : bool) : M State unit :=
  tuple_depth 2 ;;
  count ← on_stack (PopIntRange 0 255);
  execUntuple count exact.
Definition UNTUPLEVAR : M State unit := untuple_var true.
Definition UNPACKFIRSTVAR : M State unit := untuple_var false.

Definition execExplode (max : Z) : M State unit :=
  t ← on_stack (PopTupleRange max 0);
  push_elements t 0 (length t) ;;
  ConsumeTupleGasLen (len t) ;;
  on_stack (PushSmallInt (len t)).
Definition explodeOp (args : Z) : M State unit := execExplode (u8 args).
Definition EXPLODEVAR : M State unit :=
  tuple_depth 2 ;;
  max ← on_stack (PopIntRange 0 255);
  execExplode max.

Definition TLEN : M State unit := t ← on_stack (PopTupleRange 255 0); on_stack (PushSmallInt (len t)).
Definition QTLEN : M State unit :=
  v ← on_stack PopAny;
  on_stack (PushSmallInt (match v with VTuple t => len (default [] t) | _ => -1 end)).
Definition ISTUPLE : M State unit :=
  v ← on_stack PopAny;
  on_stack (PushBool (match v with VTuple _ => true | _ => false end)).

(** ** Changing *)

Definition execSetIndex (idx : Z) : M State unit :=
  tuple_depth 2 ;;
  v ← on_stack PopAny;
  t ← on_stack (PopTupleRange 255 0);
  guard_err ((len t <=? idx) || (idx <? 0)) (VMErr CodeRangeCheck) ;;
  t ← tuple_Set t idx v;
  PushTupleCharged t.
Definition setIndexOp (args : Z) : M State unit := execSetIndex (u8 args).
Definition SETINDEXVAR : M State unit :=
  tuple_depth 3 ;;
  idx ← on_stack (PopIntRange 0 254);
  execSetIndex idx.

Definition is_null (v : value) : bool := match v with VNull => true | _ => false end.

Definition execSetIndexQuiet (idx : Z) : M State unit :=
  v ← on_stack PopAny;
  t ← on_stack (PopMaybeTupleRange 255);
  guard_err ((idx <? 0) || (255 <=? idx)) (VMErr CodeRangeCheck) ;;
  match t with
  | None =>
      if is_null v then on_stack (PushAny VNull)
      else PushTupleCharged (<[Z.to_nat idx := v]> (replicate (Z.to_nat (idx + 1)) VNull))
  | Some t =>
      if (len t <=? idx) && is_null v then on_stack (PushAny (VTuple (Some t)))
      else
        t ← tuple_Set (if len t <=? idx then Resize t (idx + 1) else t) idx v;
        PushTupleCharged t
  end.
Definition setIndexQOp (args : Z) : M State unit := tuple_depth 2 ;; execSetIndexQuiet (u8 args).
Definition SETINDEXVARQ : M State unit :=
  tuple_depth 3 ;;
  idx ← on_stack (PopIntRange 0 254);
  execSetIndexQuiet idx.

Definition TPUSH : M State unit :=
  tuple_depth 2 ;;
  v ← on_stack PopAny;
  t ← on_stack (PopTupleRange 254 0);
  PushTupleCharged (Append t v).
Definition TPOP : M State unit :=
  t ← on_stack (PopTupleRange 255 1);
  '(v, t) ← PopLast t;
  PushTupleCharged t ;;
  on_stack (PushAny v).

(** ** Nulls *)

Definition PUSHNULL : M State unit := on_stack (PushAny VNull).
Definition ISNULL : M State unit := v ← on_stack PopAny; on_stack (PushBool (is_null v)).

Fixpoint push_nulls (n : nat) : M State unit :=
  match n with O => mret tt | S n => on_stack (PushAny VNull) ;; push_nulls n end.
Fixpoint exchange_all (i count : Z) (n : nat) : M State unit :=
  match n with O => mret tt | S n => on_stack (Exchange i (i + count)) ;; exchange_all (i + 1) count n end.

Definition makeNullOp (cond : bool) (depth count : Z) : M State unit :=
  tuple_depth (depth + 1) ;;
  x ← on_stack PopIntFinite;
  (if negb (Bool.eqb (x =? 0) cond) then push_nulls (Z.to_nat count) ;; exchange_all 0 count (Z.to_nat depth) else mret tt) ;;
  on_stack (PushInt x).
Definition NULLSWAPIF : M State unit := makeNullOp true 0 1.
Definition NULLSWAPIFNOT : M State unit := makeNullOp false 0 1.
Definition NULLROTRIF : M State unit := makeNullOp true 1 1.
Definition NULLROTRIFNOT : M State unit := makeNullOp false 1 1.
Definition NULLSWAPIF2 : M State unit := makeNullOp true 0 2.
Definition NULLSWAPIFNOT2 : M State unit := makeNullOp false 0 2.
Definition NULLROTRIF2 : M State unit := makeNullOp true 1 2.
Definition NULLROTRIFNOT2 : M State unit := makeNullOp false 1 2.
