(* ===== verification/PushOps.v ===== *)
(** * Constants in the code

    Models the instructions of [tvm/op/stack] that push a part of the code:
    [pushint.go], [pushcont.go], [pushref.go], [pushslice.go], [pushslice_inline.go] and
    [dictpushconst.go], and the debug string of [dumpstk.go], which without a trace
    hook is skipped.  The length an instruction is charged for follows how far its
    decoding came. *)

From S2P Require Import Prelude Bytes CellModel Builder Slice Gas Value Stack VmState Exec CellLoad Run Encoding ContOps.
#[local] Open Scope Z_scope.

Definition invalid : error := VMErr CodeInvalidOpcode.

(** The next reference of the code. *)
Definition next_ref : M Slice Cell :=
  ref ← peekRefCellAt 0;
  SkipBitsAndRefs 0 1 ;;
  mret ref.

(** ** PUSHINT *)

Definition pushIntBits (opcode : Z) : Z :=
  if opcode =? 0x80 then 16 else if opcode =? 0x81 then 24 else if opcode =? 0x82 then 13 else 8.

Definition pushint_Interpret (value : Z) : M State unit :=
  if (-5 <=? value) && (value <=? 10) then on_stack (PushSmallInt value) else on_stack (PushInt value).

Definition loadPushIntValue (sz : Z) : M Slice Z :=
  if sz <=? 257 then LoadBigInt sz
  else
    b ← loadSlice sz false;
    let offset := sz mod 8 in
    let b := if 0 <? offset then shiftRightBytes 0 b offset else b in
    let val := be_uint b in
    mret (if Z.testbit val (sz - 1) then val - (1 ≪ sz) else val).

Definition pushint_Deserialize : M Slice (instance * option error) :=
  attempt (LoadUInt 8)
    (fun prefix =>
       if (0x70 <=? prefix) && (prefix <=? 0x7f) then mret (accepted 8 (pushint_Interpret (Z.land (Z.land prefix 0xF + 5) 0xF - 5)))
       else if prefix =? 0x80 then reading 16 (LoadBigInt 8) (fun val => mret (accepted 16 (pushint_Interpret val)))
       else if prefix =? 0x81 then reading 24 (LoadBigInt 16) (fun val => mret (accepted 24 (pushint_Interpret val)))
       else if prefix =? 0x82 then
         reading 13 (LoadUInt 5) (fun szBytes =>
           if szBytes =? 31 then mret (rejected 13 ErrCorruptedOpcode)
           else reading 13 (loadPushIntValue (szBytes * 8 + 19)) (fun val => mret (accepted 13 (pushint_Interpret val))))
       else mret (rejected 8 ErrCorruptedOpcode))
    (fun e => opcode ← PeekZeroPaddedOpcode 8; mret (rejected (pushIntBits opcode) e)).

Definition signedBigIntBits (value : Z) : Z :=
  if 0 <=? value then bit_len value + 1 else bit_len (- value - 1) + 1.

Definition pushint_Serialize (value : Z) : M Builder unit :=
  let bitsSz := signedBigIntBits value in
  if (-5 <=? value) && (value <=? 10) then StoreUInt (Z.lor 0x70 (Z.land (u64 value) 0xF)) 8
  else if bitsSz <=? 8 then StoreUInt 0x80 8 ;; StoreBigInt (Some value) 8
  else if bitsSz <=? 16 then StoreUInt 0x81 8 ;; StoreBigInt (Some value) 16
  else
    let bitsSz := if bitsSz <? 19 then 19 else bitsSz in
    let sz := bitsSz - 19 in
    let l := sz / 8 + (if negb (sz mod 8 =? 0) then 1 else 0) in
    let x := 19 + l * 8 in
    StoreUInt 0x82 8 ;;
    StoreUInt l 5 ;;
    (if 257 <? x then
       let padBits := x - 257 in
       if value <? 0 then StoreUInt (u64 (1 ≪ padBits) - 1) padBits else StoreUInt 0 padBits
     else mret tt) ;;
    StoreBigInt (Some value) (if 257 <? x then 257 else x).

Definition pushIntPrefixes : list (Z * Z) :=
  (0x7, 4) :: (0x80, 8) :: (0x81, 8) :: ((fun i => (Z.lor (0x82 ≪ 5) (Z.of_nat i), 13)) <$> seq 0 31).

(** ** References *)

Section refs.
Context `{MeteredLookup}.

Definition beginPushRefCell (ref : Cell) : M State Slice :=
  if negb (c_special ref) then
    RegisterCellLoad (Some ref) ;;
    BeginParseAlreadyLoaded (Some ref)
  else BeginParse (Some ref).

Definition pushref_Deserialize : M Slice (instance * option error) :=
  reading 8 (SkipBits 8 ;; ref ← with_error invalid (peekRefCellAt 0); SkipBitsAndRefs 0 1 ;; mret ref)
    (fun ref => mret (accepted 8 (on_stack (PushAny (VCell (Some ref)))))).

Definition pushrefslice_Deserialize : M Slice (instance * option error) :=
  reading 8 (SkipBits 8 ;; ref ← with_error invalid (peekRefCellAt 0); SkipBitsAndRefs 0 1 ;; mret ref)
    (fun ref => mret (accepted 8 (s ← beginPushRefCell ref; on_stack (push (VSlice (Some s)))))).

(** ** PUSHCONT *)

Definition push_code (code : M State Slice) : M State unit :=
  code ← code;
  st ← get_state;
  on_stack (PushOwnedContinuation (code_cont st code)).

Definition pushcont_small : M Slice (instance * option error) :=
  reading 8 (with_error invalid (szBytes ← LoadUInt 4; FetchSubslice (szBytes * 8) 0))
    (fun window => mret (accepted 8 (push_code (mret window)))).

Definition pushcont_big : M Slice (instance * option error) :=
  reading 16 (with_error invalid (refsNum ← LoadUInt 2; szBytes ← LoadUInt 7; FetchSubslice (szBytes * 8) refsNum))
    (fun window => mret (accepted 16 (push_code (mret window)))).

Definition pushcont_ref : M Slice (instance * option error) :=
  reading 8 (with_error invalid next_ref) (fun ref => mret (accepted 8 (push_code (beginPushRefCell ref)))).

Definition pushcont_Deserialize : M Slice (instance * option error) :=
  reading 8 (LoadUInt 4) (fun prefix =>
    if prefix =? 0x9 then pushcont_small
    else
      attempt (LoadUInt 3)
        (fun prefix2 =>
           let prefix := Z.lor (prefix ≪ 3) prefix2 in
           if prefix =? 0x47 then pushcont_big
           else
             reading 8 (with_error invalid (LoadUInt 1)) (fun prefix3 =>
               if negb (Z.lor (prefix ≪ 1) prefix3 =? 0x8A) then mret (rejected 8 ErrCorruptedOpcode) else pushcont_ref))
        (fun _ => padded ← PeekZeroPaddedOpcode 3; mret (rejected (if Z.lor (prefix ≪ 3) padded =? 0x47 then 16 else 8) invalid))).

End refs.

(** ** Slices in the code *)

Definition pushSliceInlineBits (opcode : Z) : Z := if opcode =? 0x8C then 15 else if opcode =? 0x8D then 18 else 12.

(** The rest of the decoding once the length and the references are known. *)
Definition inline_slice (total bits refs : Z) : M Slice (instance * option error) :=
  reading total (with_error invalid (FetchSubslice bits refs)) (fun slice =>
    r ← lift (RemoveTrailing slice);
    mret (accepted total (on_stack (PushAny (VSlice (Some (snd r))))))).

Definition pushslice_inline_Deserialize : M Slice (instance * option error) :=
  attempt (LoadUInt 8)
    (fun prefix =>
       if prefix =? 0x8B then reading 12 (LoadUInt 4) (fun arg => inline_slice 12 (arg * 8 + 4) 0)
       else if prefix =? 0x8C then
         reading 15 (LoadUInt 7) (fun arg => inline_slice 15 (Z.land arg 0x1F * 8 + 1) (Z.land (arg ≫ 5) 0x3 + 1))
       else if prefix =? 0x8D then
         reading 18 (LoadUInt 10) (fun arg =>
           let refs := Z.land (arg ≫ 7) 0x7 in
           if 4 <? refs then mret (rejected 18 ErrCorruptedOpcode) else inline_slice 18 (Z.land arg 0x7F * 8 + 6) refs)
       else mret (rejected 12 ErrCorruptedOpcode))
    (fun e => opcode ← PeekZeroPaddedOpcode 8; mret (rejected (pushSliceInlineBits opcode) e)).

(** ** DICTPUSHCONST and DEBUGSTR *)

Definition dictpushconst_Deserialize : M Slice (instance * option error) :=
  reading 24 (SkipBits 13) (fun _ =>
    reading 24 (with_error invalid (_ ← LoadBoolBit; ref ← next_ref; pfx ← LoadUInt 10; mret (ref, pfx)))
      (fun '(ref, pfx) => mret (accepted 24 (on_stack (PushAny (VCell (Some ref))) ;; on_stack (PushSmallInt (s64 pfx)))))).

Definition debugstr_Deserialize : M Slice (instance * option error) :=
  reading 16 (SkipBits 12) (fun _ =>
    reading 16 (with_error invalid (v ← LoadUInt 4; loadSlice ((v + 1) * 8) false)) (fun _ => mret (accepted 16 (mret tt)))).
