(* ===== verification/OpTable.v ===== *)
(** * The table of instructions

    The instructions of the modelled packages with their opcodes, in the order in which
    the packages register them ([init] of each file of [tvm/op/exec], [math], [stack] and
    [tuple]): first those of [vm.List], then those of [vm.ArgList].  The dictionary, cell
    and blockchain instructions and [RUNVM] are not in the table; the theorems on
    tables hold for any further instruction that obeys the law of gas. *)

From S2P Require Import Prelude Bytes CellModel Builder Slice Gas Value Stack VmState StackOps Arith ArithCmp Exec CellLoad Dispatch Run Encoding.
From S2P Require Import ContOps TupleOps PushOps.
#[local] Open Scope Z_scope.

(** ** Operands with a shape of their own *)

(** [PUSH] and [POP] check their prefix again. *)
Definition checked_operand (prefix bits : Z) : M Slice (Z * option error) :=
  decoded (p ← LoadUInt bits; guard_err (negb (p =? prefix)) ErrCorruptedOpcode ;; LoadUInt bits).

Definition blkDrop2_decode : M Slice (Z * option error) :=
  decoded (SkipBits 8 ;; args ← LoadUInt 8; guard_err (args ≫ 4 =? 0) ErrCorruptedOpcode ;; mret args).

Definition addConst_decode : M Slice (Z * option error) :=
  decoded (SkipBits 8 ;; with_error (VMErr CodeInvalidOpcode) (LoadUInt 8)).

Definition xchg_decode : M Slice (Z * option error) :=
  attempt (LoadUInt 4)
    (fun a =>
       attempt (LoadUInt 4)
         (fun b =>
            if (a =? 1) && (b =? 0) then
              let bad e := mret (packXchgArgs 1 0 true, Some e) in
              attempt (LoadUInt 4) (fun a => attempt (LoadUInt 4) (fun b => mret (packXchgArgs (u8 a) (u8 b) true, None)) bad) bad
            else mret (packXchgArgs (u8 a) (u8 b) false, None))
         (fun e =>
            padded ← (if a =? 1 then PeekZeroPaddedOpcode 4 else mret 1);
            mret (if (a =? 1) && (padded =? 0) then packXchgArgs 0 0 true else 0, Some e)))
    (fun e => mret (0, Some e)).

Definition blkDrop2_serialize (args : Z) : M Builder unit := StoreUInt 0x6C 8 ;; StoreUInt args 8.

(** [helpers.Builder] *)
Definition store_bytes (b : list Z) : M Builder unit := StoreSlice b (len b * 8).

Definition xchg_serialize (args : Z) : M Builder unit :=
  let '(a, b, _) := unpackXchgArgs args in
  if (a =? 0) || (b =? 0) then store_bytes [Z.lor 0x00 (if a =? 0 then b else a)]
  else if (a =? 1) || (b =? 1) then store_bytes [Z.lor 0x10 (if a =? 1 then b else a)]
  else store_bytes [0x10; Z.lor (u8 (a ≪ 4)) b].

Definition xchg_bits (args : Z) : Z :=
  let '(a, b, long) := unpackXchgArgs args in
  if long then 16
  else if (a =? 0) || (b =? 0) || (a =? 1) || (b =? 1) then 8 else 16.

Definition xchgOp : outcome instruction :=
  ps ← UIntPrefixes [(0x0, 4); (0x1, 4); (0x10, 8)];
  op ← NewArgOP (mkOperandOP ps 0 XCHG (Some xchg_decode) (Some xchg_bits) (Some xchg_serialize) 0 0);
  Ok (IOperand op).

Definition xchg0Prefixes : list (Z * Z) := (0x0, 4) :: ((fun i => (Z.of_nat i, 8)) <$> seq 2 14).
Definition blkdrop2Prefixes : list (Z * Z) := (fun i => (Z.lor (0x6C ≪ 4) (Z.of_nat i), 12)) <$> seq 1 15.

(** ** [tvm/op/exec] *)

Definition newThrowFixedOp (prefix : list Z) (prefixBits immBits mode : Z) (withArg : bool) : outcome instruction :=
  let prefixValue := be_uint prefix in
  if negb (Z.land prefixValue (2 ^ immBits - 1) =? 0) then Panic
  else operand (prefixValue ≫ immBits) prefixBits immBits (throwFixed mode withArg).

Definition throwAnyPrefixes : list (Z * Z) := (fun args => (Z.lor 0xF2F0 (Z.of_nat args), 16)) <$> seq 0 6.

Definition exec_simple : list (outcome instruction) :=
  [simple [0xEA] AGAIN; simple [0xEB] AGAINEND; simple [0xED; 0x10] RETURNVARARGS;
   simple [0xED; 0x11] SETCONTVARARGS; simple [0xED; 0x12] SETNUMVARARGS; simple [0xED; 0x1E] BLESS;
   simple [0xED; 0x1F] BLESSVARARGS; simple [0xED; 0xF1] BOOLOR; simple [0xE3; 0x14] REPEATBRK;
   simple [0xE3; 0x16] UNTILBRK; simple [0xE3; 0x18] WHILEBRK; simple [0xE3; 0x15] REPEATENDBRK;
   simple [0xE3; 0x17] UNTILENDBRK; simple [0xE3; 0x19] WHILEENDBRK; simple [0xE3; 0x1A] AGAINBRK;
   simple [0xE3; 0x1B] AGAINENDBRK; simple [0xDB; 0x34] CALLCC; simple [0xDB; 0x38] CALLXVARARGS;
   simple [0xDB; 0x39] RETVARARGS; simple [0xDB; 0x3B] CALLCCVARARGS; simple [0xED; 0xF0] BOOLAND;
   simple [0xED; 0xF2] COMPOSBOTH; simple [0xED; 0xF3] ATEXIT; simple [0xED; 0xF4] ATEXITALT;
   simple [0xED; 0xF5] SETEXITALT; simple [0xED; 0xF6] THENRET; simple [0xED; 0xF7] THENRETALT;
   simple [0xED; 0xF8] INVERT; simple [0xED; 0xF9] BOOLEVAL; simple [0xE3; 0x05] CONDSELCHK;
   simple [0xED; 0xE0] PUSHCTRX; simple [0xED; 0xE1] POPCTRX; simple [0xED; 0xE2] SETCONTCTRX; simple [0xD8] EXECUTE;
   simple [0xDE] IF; simple [0xE2] IFELSE; simple [0xE0] IFJMP; simple [0xDF] IFNOT; simple [0xE1] IFNOTJMP;
   simple [0xDD] IFNOTRET; simple [0xD9] JMPX; simple [0xDB; 0x35] JMPXDATA; simple [0xDB; 0x3A] JMPXVARARGS;
   simple [0xE4] REPEAT; simple [0xE5] REPEATEND; simple [0xDB; 0x30] RET; simple [0xDB; 0x32] RETBOOL;
   simple [0xDB; 0x3F] RETDATA; simple [0xDC] IFRET; simple [0xE3; 0x08] IFRETALT; simple [0xE3; 0x09] IFNOTRETALT;
   simple [0xDB; 0x31] RETALT; simple [0xED; 0xFA] SAMEALT; simple [0xED; 0xFB] SAMEALTSAVE;
   simpleV 9 [0xED; 0xE4] SETCONTCTRMANYX; simple [0xF2; 0xFF] TRY; simple [0xE6] UNTIL; simple [0xE7] UNTILEND;
   simple [0xE8] WHILE; simple [0xE9] WHILEEND].

Definition exec_args `{MeteredLookup} : list (outcome instruction) :=
  [operandV 0 [(0xEC, 8)] 8 setContArgsOp (Some (decodeCopyMore 8)) (Some (serializeCopyMore (BytesPrefix [0xEC]))); operand 0xED0 12 4 returnArgsOp;
   operandV 0 [(0xEE, 8)] 8 blessArgsOp (Some (decodeCopyMore 8)) (Some (serializeCopyMore (BytesPrefix [0xEE])));
   operandV 0 [(0xDB36, 16)] 8 callCCArgsOp (Some (decodeCopyMore 16)) (Some (serializeCopyMore (BytesPrefix [0xDB; 0x36])));
   operandV 0 [(0xDA, 8)] 8 callXArgsOp (Some decodePair) (Some callXArgs_serialize); operand 0xDB0 12 4 callXArgsPOp;
   newControlRegisterOp 0xED40 pushCtrOp; newControlRegisterOp 0xED50 popCtrOp;
   newControlRegisterOp 0xED70 setRetCtrOp; newControlRegisterOp 0xED80 setAltCtrOp;
   newControlRegisterOp 0xED90 popSaveCtrOp; newControlRegisterOp 0xEDB0 saveAltCtrOp;
   newControlRegisterOp 0xEDC0 saveBothCtrOp;
   operand 0xF0 8 8 callDictOp; operand 0x3C4 10 14 callDictOp; operand 0x3C5 10 14 jmpDictOp; operand 0x3C6 10 14 prepareDictOp;
   operand 0x38E 10 6 ifBitJmpOp; operand 0xDB1 12 4 jmpXArgsOp; operand 0xDB2 12 4 retArgsOp;
   newControlRegisterOp 0xEDA0 saveCtrOp; newControlRegisterOp 0xED60 setContCtrOp;
   operandV 9 [(0xEDE3, 16)] 8 setContCtrManyOp None None;
   newThrowFixedOp [0xF2; 0x00] 10 6 0 false; newThrowFixedOp [0xF2; 0x40] 10 6 3 false; newThrowFixedOp [0xF2; 0x80] 10 6 2 false;
   newThrowFixedOp [0xF2; 0xC0; 0x00] 13 11 0 false; newThrowFixedOp [0xF2; 0xC8; 0x00] 13 11 0 true;
   newThrowFixedOp [0xF2; 0xD0; 0x00] 13 11 3 false; newThrowFixedOp [0xF2; 0xD8; 0x00] 13 11 3 true;
   newThrowFixedOp [0xF2; 0xE0; 0x00] 13 11 2 false; newThrowFixedOp [0xF2; 0xE8; 0x00] 13 11 2 true;
   operandV 0 throwAnyPrefixes 0 throwAnyOp (Some throwAny_decode) (Some throwAny_serialize);
   operandV 0 [(0xF3, 8)] 8 tryArgsOp (Some decodePair) (Some tryArgs_serialize)].

Definition ref_op (prefix : list Z) (refsNum : nat) (action : list Cell -> M State unit) : outcome instruction :=
  refCodeOp (BytesPrefix prefix) refsNum 0 (mret 0) (fun _ => action).

Definition exec_refs `{MeteredLookup} : list (outcome instruction) :=
  [refCodeOp (SlicePrefix 10 [0xE3; 0xC0]) 1 6 (LoadUInt 6) IFBITJMPREF;
   ref_op [0xDB; 0x3C] 1 CALLREF; ref_op [0xDB; 0x3D] 1 JMPREF; ref_op [0xDB; 0x3E] 1 JMPREFDATA;
   ref_op [0xE3; 0x00] 1 IFREF; ref_op [0xE3; 0x01] 1 IFNOTREF; ref_op [0xE3; 0x02] 1 IFJMPREF; ref_op [0xE3; 0x03] 1 IFNOTJMPREF;
   ref_op [0xE3; 0x0D] 1 IFREFELSE; ref_op [0xE3; 0x0E] 1 IFELSEREF; ref_op [0xE3; 0x0F] 2 IFREFELSEREF].

(** ** [tvm/op/math] *)

Definition math_simple : list (outcome instruction) :=
  [simple [0xB6; 0x0B] ABS; simple [0xA0] SUM; simpleV 4 [0xA9; 0x00] ADDDIVMOD; simpleV 4 [0xA9; 0x02] ADDDIVMODC;
   simpleV 4 [0xA9; 0x01] ADDDIVMODR; simpleV 4 [0xA9; 0x20] ADDRSHIFTMOD; simpleV 4 [0xA9; 0x22] ADDRSHIFTMODC;
   simpleV 4 [0xA9; 0x21] ADDRSHIFTMODR; simple [0xB0] AND; simple [0xA5] DEC; simple [0xA9; 0x04] DIV;
   simple [0xA9; 0x06] DIVC; simple [0xA9; 0x0C] DIVMOD; simple [0xA9; 0x0E] DIVMODC; simple [0xA9; 0x0D] DIVMODR;
   simple [0xA9; 0x05] DIVR; simple [0xBA] EQUAL; simple [0xB6; 0x00] FITSX; simple [0xB6; 0x01] UFITSX;
   simple [0xB6; 0x02] BITSIZE; simple [0xB6; 0x03] UBITSIZE; simple [0xB7; 0xB6; 0x00] QFITSX;
   simple [0xB7; 0xB6; 0x01] QUFITSX; simple [0xB7; 0xB6; 0x02] QBITSIZE; simple [0xB7; 0xB6; 0x03] QUBITSIZE;
   simple [0xBE] GEQ; simple [0xBC] GREATER; simple [0xA4] INC; simple [0xC1; 0x00] ISNEG;
   simple [0xC2; 0xFF] ISNNEG; simple [0xC1; 0x01] ISNPOS; simple [0xC2; 0x00] ISPOS; simple [0xC0; 0x00] ISZERO;
   simple [0xBB] LEQ; simple [0xB9] LESS; simple [0xAC] LSHIFT; simpleV 4 [0xA9; 0xC0] LSHIFTADDDIVMOD;
   simpleV 4 [0xA9; 0xC2] LSHIFTADDDIVMODC; simpleV 4 [0xA9; 0xC1] LSHIFTADDDIVMODR; simple [0xA9; 0xC4] LSHIFTDIV;
   simple [0xA9; 0xC6] LSHIFTDIVC; simple [0xA9; 0xCC] LSHIFTDIVMOD; simple [0xA9; 0xCE] LSHIFTDIVMODC;
   simple [0xA9; 0xCD] LSHIFTDIVMODR; simple [0xA9; 0xC5] LSHIFTDIVR; simple [0xA9; 0xC8] LSHIFTMOD;
   simple [0xA9; 0xCA] LSHIFTMODC; simple [0xA9; 0xC9] LSHIFTMODR; simple [0xB6; 0x09] MAX; simple [0xB6; 0x08] MIN;
   simple [0xB6; 0x0A] MINMAX; simple [0xB7; 0xB6; 0x08] QMIN; simple [0xB7; 0xB6; 0x09] QMAX;
   simple [0xB7; 0xB6; 0x0A] QMINMAX; simple [0xB7; 0xB6; 0x0B] QABS; simple [0xB8] SGN; simple [0xBF] CMP;
   simple [0xC4] ISNAN; simple [0xC5] CHKNAN; simple [0xB7; 0xB8] QSGN; simple [0xB7; 0xB9] QLESS;
   simple [0xB7; 0xBA] QEQUAL; simple [0xB7; 0xBB] QLEQ; simple [0xB7; 0xBC] QGREATER; simple [0xB7; 0xBD] QNEQ;
   simple [0xB7; 0xBE] QGEQ; simple [0xB7; 0xBF] QCMP; simple [0xA9; 0x08] MOD; simple [0xA9; 0x0A] MODC;
   simple [0xA9; 0x28] MODPOW2; simple [0xA9; 0x2A] MODPOW2C; simple [0xA9; 0x29] MODPOW2R; simple [0xA9; 0x09] MODR;
   simple [0xA8] MUL; simpleV 4 [0xA9; 0x80] MULADDDIVMOD; simpleV 4 [0xA9; 0x82] MULADDDIVMODC;
   simpleV 4 [0xA9; 0x81] MULADDDIVMODR; simpleV 4 [0xA9; 0xA2] MULADDRSHIFTCMOD;
   simpleV 4 [0xA9; 0xA0] MULADDRSHIFTMOD; simpleV 4 [0xA9; 0xA1] MULADDRSHIFTRMOD; simple [0xA9; 0x84] MULDIV;
   simple [0xA9; 0x86] MULDIVC; simple [0xA9; 0x8C] MULDIVMOD; simple [0xA9; 0x8E] MULDIVMODC;
   simple [0xA9; 0x8D] MULDIVMODR; simple [0xA9; 0x85] MULDIVR; simple [0xA9; 0x88] MULMOD;
   simple [0xA9; 0x8A] MULMODC; simple [0xA9; 0xA8] MULMODPOW2_VAR; simple [0xA9; 0xAA] MULMODPOW2C_VAR;
   simple [0xA9; 0xA9] MULMODPOW2R_VAR; simple [0xA9; 0x89] MULMODR; simple [0xA9; 0xAD] MULRSHIFTRMOD_VAR;
   simple [0xA9; 0xA4] MULRSHIFT; simple [0xA9; 0xA6] MULRSHIFTC; simple [0xA9; 0xAE] MULRSHIFTCMOD_VAR;
   simple [0xA9; 0xAC] MULRSHIFTMOD_VAR; simple [0xA9; 0xA5] MULRSHIFTR; simple [0xA3] NEGATE; simple [0xBD] NEQ;
   simple [0xB3] NOT; simple [0xB7; 0xB3] QNOT; simple [0xB1] OR; simple [0xAE] POW2; simple [0x83; 0xFF] PUSHNAN;
   simple [0xB7; 0xA0] QADD; simple [0xB7; 0xA1] QSUB; simple [0xB7; 0xA2] QSUBR; simple [0xB7; 0xA3] QNEGATE;
   simple [0xB7; 0xA4] QINC; simple [0xB7; 0xA5] QDEC; simple [0xB7; 0xA8] QMUL; simple [0xB7; 0xB0] QAND;
   simple [0xB7; 0xB1] QOR; simple [0xB7; 0xB2] QXOR; simple [0xB7; 0xAC] QLSHIFT; simple [0xB7; 0xAD] QRSHIFT;
   simple [0xB7; 0xAE] QPOW2; simple [0xAD] RSHIFT; simple [0xA9; 0x24] RSHIFTFLOOR; simple [0xA9; 0x26] RSHIFTC;
   simple [0xA9; 0x2C] RSHIFTMOD; simple [0xA9; 0x2E] RSHIFTMODC; simple [0xA9; 0x2D] RSHIFTMODR;
   simple [0xA9; 0x25] RSHIFTR; simple [0xA1] SUB; simple [0xA2] SUBR; simple [0xB2] XOR].

(** Families of compound opcodes that were never assigned: whatever the operand, the
    canonical suffix is written. *)
Definition newInvalidCompoundFamily (prefix suffixBits suffix : Z) : outcome instruction :=
  operandV 0 [(prefix, 12)] suffixBits (fun _ => fail (VMErr CodeInvalidOpcode)) None
    (Some (fun _ => p ← lift (UIntPrefix prefix 12); store_prefix p ;; StoreUInt suffix suffixBits)).

(** [int8] operands, written as signed numbers: [intCmpOp], [MULCONST] and [ADDCONST]
    after a byte, [compareIntOp] and [quietTinyIntOp] after two. *)
Definition int8_serialize (prefix args : Z) : M Builder unit := StoreUInt prefix 8 ;; StoreInt (s8 args) 8.
Definition quiet_int8_serialize (prefix : list Z) (args : Z) : M Builder unit := store_prefix (BytesPrefix prefix) ;; StoreInt (s8 args) 8.

Definition int8_operand (prefix : Z) (action : Z -> M State unit) : outcome instruction :=
  operandV 0 [(prefix, 8)] 8 action None (Some (int8_serialize prefix)).
Definition quiet_int8_operand (second : Z) (action : Z -> M State unit) : outcome instruction :=
  operandV 0 [(Z.lor (0xB7 ≪ 8) second, 16)] 8 action None (Some (quiet_int8_serialize [0xB7; second])).

Definition newLshiftDivCodeOp (op d roundMode : Z) : outcome instruction :=
  operandV (if d =? 0 then 4 else 0) [(Z.lor (0xA9 ≪ 8) op, 16)] 8 (lshiftDivCodeOp d roundMode) None None.

Definition qCompoundMinVersion (args : Z) : Z :=
  if Z.land args 3 =? 3 then 0 else if Z.land (args ≫ 2) 3 =? 0 then 4 else 0.

Definition qCompoundOP (prefix args : Z) (action : Z -> M State unit) : outcome instruction :=
  operandV (qCompoundMinVersion args) [(Z.lor (prefix ≪ 4) args, 24)] 0 (fun _ => action args) None None.

Definition quiet_compounds (args : Z) : list (outcome instruction) :=
  [qCompoundOP 0xB7A90 args qDivModOp; qCompoundOP 0xB7A92 args qShrModOp; qCompoundOP 0xB7A98 args qMulDivModOp;
   qCompoundOP 0xB7A9A args qMulShrModOp; qCompoundOP 0xB7A9C args qShlDivModOp].

Definition byte_operand (prefix : Z) (action : Z -> M State unit) : outcome instruction := operand prefix 8 8 action.
Definition pair_operand (prefix : Z) (action : Z -> M State unit) : outcome instruction := operand prefix 16 8 action.

Definition math_args : list (outcome instruction) :=
  [operandV 0 [(0xA6, 8)] 8 ADDCONST (Some addConst_decode) (Some (int8_serialize 0xA6));
   operandV 4 [(0xA930, 16)] 8 ADDRSHIFTCODEMOD None None; operandV 4 [(0xA931, 16)] 8 ADDRSHIFTRCODEMOD None None;
   operandV 4 [(0xA932, 16)] 8 ADDRSHIFTCCODEMOD None None; int8_operand 0xC0 EQINT;
   byte_operand 0xB4 FITS; byte_operand 0xB5 UFITS; pair_operand 0xB7B4 QFITS; pair_operand 0xB7B5 QUFITS; int8_operand 0xC2 GTINT;
   newInvalidCompoundFamily 0xA90 4 0x3; newInvalidCompoundFamily 0xA92 4 0x7; newInvalidCompoundFamily 0xA93 12 0x300;
   newInvalidCompoundFamily 0xA98 4 0x7; newInvalidCompoundFamily 0xA9A 4 0x7; newInvalidCompoundFamily 0xA9B 12 0x300;
   newInvalidCompoundFamily 0xA9C 4 0x7; newInvalidCompoundFamily 0xA9D 12 0x300;
   int8_operand 0xC1 LESSINT; byte_operand 0xAA LSHIFTCODE;
   newLshiftDivCodeOp 0xD0 0 0; newLshiftDivCodeOp 0xD1 0 1; newLshiftDivCodeOp 0xD2 0 2;
   newLshiftDivCodeOp 0xD4 1 0; newLshiftDivCodeOp 0xD5 1 1; newLshiftDivCodeOp 0xD6 1 2;
   newLshiftDivCodeOp 0xD8 2 0; newLshiftDivCodeOp 0xD9 2 1; newLshiftDivCodeOp 0xDA 2 2;
   newLshiftDivCodeOp 0xDC 3 0; newLshiftDivCodeOp 0xDD 3 1; newLshiftDivCodeOp 0xDE 3 2;
   quiet_int8_operand 0xC0 QEQINT; quiet_int8_operand 0xC1 QLESSINT; quiet_int8_operand 0xC2 QGTINT; quiet_int8_operand 0xC3 QNEQINT;
   pair_operand 0xA93A MODPOW2CCODE; pair_operand 0xA938 MODPOW2CODE; pair_operand 0xA939 MODPOW2RCODE;
   operandV 4 [(0xA9B2, 16)] 8 MULADDRSHIFTCCODEMOD None None; operandV 4 [(0xA9B0, 16)] 8 MULADDRSHIFTCODEMOD None None;
   operandV 4 [(0xA9B1, 16)] 8 MULADDRSHIFTRCODEMOD None None; int8_operand 0xA7 MULCONST;
   pair_operand 0xA9BA MULMODPOW2CCODE; pair_operand 0xA9B8 MULMODPOW2CODE; pair_operand 0xA9B9 MULMODPOW2RCODE;
   pair_operand 0xA9B6 MULRSHIFTCCODE; pair_operand 0xA9BE MULRSHIFTCCODEMOD; pair_operand 0xA9B4 MULRSHIFTCODE;
   pair_operand 0xA9BC MULRSHIFTCODEMOD; pair_operand 0xA9B5 MULRSHIFTRCODE; pair_operand 0xA9BD MULRSHIFTRCODEMOD;
   int8_operand 0xC3 NEQINT; byte_operand 0x83 PUSHPOW2; byte_operand 0x84 PUSHPOW2DEC; byte_operand 0x85 PUSHNEGPOW2;
   quiet_int8_operand 0xA6 QADDINT; quiet_int8_operand 0xA7 QMULINT]
  ++ concat (map (fun i => quiet_compounds (Z.of_nat i)) (seq 0 16))
  ++ [pair_operand 0xB7AA QLSHIFTCODE; pair_operand 0xB7AB QRSHIFTCODE; pair_operand 0xA934 RSHIFTCODEFLOOR;
   pair_operand 0xA936 RSHIFTCCODE; pair_operand 0xA93E RSHIFTCCODEMOD; byte_operand 0xAB RSHIFTCODE; pair_operand 0xA93C RSHIFTCODEMOD;
   pair_operand 0xA935 RSHIFTRCODE; pair_operand 0xA93D RSHIFTRCODEMOD].

(** ** [tvm/op/stack] *)

(** Without a trace hook the debug instructions do nothing. *)
Definition no_trace : M State unit := mret tt.

Definition stack_simple : list (outcome instruction) :=
  [simple [0x63] BLKSWX; simple [0x69] CHKDEPTH; simple [0xE3; 0x04] CONDSEL; simple [0x68] DEPTH;
   simple [0x30] DROP; simple [0x5B] DROP2; simple [0x65] DROPX; simple [0x20] DUP; simple [0x5C] DUP2;
   simple [0x31] NIP; simple [0x00] NOP; simple [0x6A] ONLYTOPX; simple [0x6B] ONLYX; simple [0x21] OVER;
   simple [0x5D] OVER2; simple [0x60] PICK; simple [0x64] REVX; simple [0x61] ROLL; simple [0x62] ROLLREV;
   simple [0x58] ROT; simple [0x59] ROTREV; simple [0x01] SWAP; simple [0x5A] SWAP2; simple [0x66] TUCK;
   simple [0x67] XCHGX].

Definition stack_consts `{MeteredLookup} : list (outcome instruction) :=
  [decoded_op [(0x1E94, 13)] dictpushconst_Deserialize; simple [0xFE; 0x00] no_trace; decoded_op [(0xFEF, 12)] debugstr_Deserialize;
   simple [0xFE; 0x14] no_trace; decoded_op [(0x9, 4); (0x47, 7); (0x8A, 8)] pushcont_Deserialize;
   decoded_op pushIntPrefixes pushint_Deserialize; decoded_op [(0x88, 8)] pushref_Deserialize;
   decoded_op [(0x89, 8)] pushrefslice_Deserialize;
   decoded_op ((0x8B, 8) :: (0x8C, 8) :: ((fun i => (Z.lor (0x8D ≪ 3) (Z.of_nat i), 11)) <$> seq 0 5)) pushslice_inline_Deserialize].

Definition stack_args : list (outcome instruction) :=
  [operand 0x5F0 12 4 BLKDROP; operandV 0 blkdrop2Prefixes 4 BLKDROP2 (Some blkDrop2_decode) (Some blkDrop2_serialize);
   byte_operand 0x5F BLKPUSH; byte_operand 0x55 BLKSWAP; operand 0xFE2 12 4 (fun _ => no_trace); byte_operand 0xFE (fun _ => no_trace);
   operand 0x541 12 12 XC2PU; operand 0x542 12 12 XCPUXC; operand 0x543 12 12 XCPU2; operand 0x544 12 12 PUXC2;
   operand 0x545 12 12 PUXCPU; operand 0x546 12 12 PU2XC; operand 0x547 12 12 PUSH3;
   operandV 0 [(0x3, 4)] 4 POP (Some (checked_operand 0x3 4)) None; operandV 0 [(0x57, 8)] 8 POP (Some (checked_operand 0x57 8)) None;
   operandV 0 [(0x2, 4)] 4 PUSH (Some (checked_operand 0x2 4)) None; byte_operand 0x53 PUSH2;
   operandV 0 [(0x56, 8)] 8 PUSH (Some (checked_operand 0x56 8)) None; byte_operand 0x52 PUXC; byte_operand 0x5E REVERSE;
   xchgOp; operandV 0 xchg0Prefixes 4 XCHG0 (Some (decoded (SkipBits 4 ;; LoadUInt 4))) None; byte_operand 0x11 XCHG0;
   byte_operand 0x50 XCHG2; operand 0x4 4 12 XCHG3; operand 0x540 12 12 XCHG3; byte_operand 0x51 XCPU].

(** ** [tvm/op/tuple] *)

Definition tuple_simple : list (outcome instruction) :=
  [simple [0x6F; 0x84] EXPLODEVAR; simple [0x6F; 0x81] INDEXVAR; simple [0x6F; 0x86] INDEXVARQ; simple [0x6E] ISNULL;
   simple [0x6F; 0x8A] ISTUPLE; simple [0x6F; 0x8B] LAST; simple [0x6D] PUSHNULL; simple [0x6F; 0x89] QTLEN;
   simple [0x6F; 0x85] SETINDEXVAR; simple [0x6F; 0x87] SETINDEXVARQ; simple [0x6F; 0x88] TLEN;
   simple [0x6F; 0x8D] TPOP; simple [0x6F; 0x8C] TPUSH; simple [0x6F; 0x80] TUPLEVAR; simple [0x6F; 0x82] UNTUPLEVAR;
   simple [0x6F; 0x83] UNPACKFIRSTVAR].

Definition tuple_nulls : list (outcome instruction) :=
  [simple [0x6F; 0xA0] NULLSWAPIF; simple [0x6F; 0xA1] NULLSWAPIFNOT; simple [0x6F; 0xA2] NULLROTRIF; simple [0x6F; 0xA3] NULLROTRIFNOT;
   simple [0x6F; 0xA4] NULLSWAPIF2; simple [0x6F; 0xA5] NULLSWAPIFNOT2; simple [0x6F; 0xA6] NULLROTRIF2; simple [0x6F; 0xA7] NULLROTRIFNOT2].

Definition tuple_args : list (outcome instruction) :=
  [operand 0x6f4 12 4 explodeOp; operand 0x6f1 12 4 indexOp; operand 0x6fb 12 4 index2Op; operand 0x1bf 10 6 index3Op;
   operand 0x6f6 12 4 indexQOp; operand 0x6f5 12 4 setIndexOp; operand 0x6f7 12 4 setIndexQOp; operand 0x6f0 12 4 tupleOp;
   operand 0x6f2 12 4 untupleOp; operand 0x6f3 12 4 unpackFirstOp].

(** ** The registry *)

Definition instructions `{MeteredLookup} : list (outcome instruction) :=
  exec_simple ++ exec_refs ++ math_simple ++ stack_simple ++ stack_consts ++ tuple_simple ++ tuple_nulls
  ++ exec_args ++ math_args ++ stack_args ++ tuple_args.
