(* ===== verification/InstrLaw.v ===== *)
(** * The instructions obey the law of gas

    No modelled instruction gives gas back: each is built from computations that obey
    the law of [GasLaw], and the law is closed under the constructs they use.  The
    tactic [lawful_op] unfolds an instruction down to these computations. *)

From S2P Require Import Prelude Bytes CellModel Builder Slice Gas Value Stack VmState StackOps Arith ArithCmp Exec CellLoad GasLaw Run RunTheorems.
From S2P Require Import Encoding ContOps TupleOps PushOps OpTable.
#[local] Open Scope Z_scope.

Ltac head_of t := lazymatch t with ?f _ => head_of f | _ => t end.
Ltac law_unfold := lazymatch goal with |- law_at _ _ ?m => let h := head_of m in unfold h; cbv beta end.
Ltac lawful_op := intros; repeat first [law_step | law_unfold].

(** ** Loops *)

Lemma blkPushLoop_law x j : lawful (blkPushLoop x j).
Proof. revert j. induction x; intros j; cbn [blkPushLoop]; lawful_op; auto. Qed.
Lemma rollLoop_law n : lawful (rollLoop n).
Proof. induction n; cbn [rollLoop]; lawful_op; auto. Qed.
Lemma rollRevLoop_law n i : lawful (rollRevLoop n i).
Proof. revert i. induction n; intros i; cbn [rollRevLoop]; lawful_op; auto. Qed.
#[export] Hint Resolve blkPushLoop_law rollLoop_law rollRevLoop_law : gas.

Lemma qPushNaNs_law n : lawful (qPushNaNs n).
Proof. induction n; cbn [qPushNaNs]; lawful_op; auto. Qed.
Lemma pop_values_law n l : lawful (pop_values n l).
Proof. revert l. induction n; intros l; cbn [pop_values]; lawful_op; auto. Qed.
Lemma push_elements_law t i n : lawful (push_elements t i n).
Proof. revert i. induction n; intros i; cbn [push_elements]; lawful_op; auto. Qed.
Lemma push_nulls_law n : lawful (push_nulls n).
Proof. induction n; cbn [push_nulls]; lawful_op; auto. Qed.
Lemma exchange_all_law i count n : lawful (exchange_all i count n).
Proof. revert i. induction n; intros i; cbn [exchange_all]; lawful_op; auto. Qed.
Lemma defineControlRegister_law i v c : lawful (defineControlRegister i v c).
Proof. lawful_op. Qed.
#[export] Hint Resolve qPushNaNs_law pop_values_law push_elements_law push_nulls_law exchange_all_law defineControlRegister_law : gas.
Lemma define_mask_law n i m c : lawful (define_mask n i m c).
Proof. revert i m c. induction n; intros i m c; cbn [define_mask]; lawful_op; auto. Qed.
#[export] Hint Resolve define_mask_law : gas.

(** What fails on the stack may be followed by more on the stack. *)
Lemma stack_handler_law {A} (m : M stack A) (h : error -> M State A) :
  (forall e, lawful (h e)) -> lawful (fun st => match on_stack m st with (Err e, st') => h e st' | r => r end).
Proof.
  intros Hh st. unfold law_at, on_stack. destruct (m (st_Stack st)) as [[a|e|] s]; [apply law_same, set_stack_same| |apply law_same, set_stack_same].
  change (law_at Strict st (modify (fun st => set_stack st s) ;; h e)). apply law_bind_modify; [apply set_stack_same|apply Hh].
Qed.

Lemma CONDSEL_law : lawful CONDSEL.
Proof.
  intros st. unfold CONDSEL. apply law_bind; [lawful_op|intros _ st1]. apply law_bind; [lawful_op|intros _ st2].
  apply law_bind; [apply (stack_handler_law PopBool (fun e => on_stack (Drop 2) ;; fail e)); lawful_op|lawful_op].
Qed.
#[export] Hint Resolve CONDSEL_law : gas.

(** ** Instructions and tables *)

Definition instruction_lawful (i : instruction) : Prop :=
  match i with
  | ISimple op => 0 <= bp_Bits (so_BitPrefix op) < 2 ^ 62 /\ lawful_gen Broke (so_Action op)
  | IOperand op =>
      (forall args, 0 <= ArgInstructionBits op args < 2 ^ 62) /\ (forall args, lawful_gen Broke (ao_Action op args))
  | IOther op => op_lawful op
  end.

(** Of an instruction that may fail to be built. *)
Definition table_lawful (l : list (outcome instruction)) : Prop :=
  Forall (fun i => forall x, i = Ok x -> instruction_lawful x) l.

Lemma priced_law price action : lawful_gen Broke action -> lawful_gen Broke (priced price action).
Proof. intros Ha st. unfold priced. destruct (negb _); [apply law_bind; [auto with gas|intros; apply Ha]|apply law_bind_ret, Ha]. Qed.

Lemma entry_of_lawful i e : instruction_lawful i -> entry_of i = Ok e -> entry_lawful e.
Proof.
  destruct i as [op|op|op]; cbn [entry_of instruction_lawful].
  - intros [Hb Ha]. unfold simple_entry. destruct (PrefixSlices _); [|done..]. intros [= <-]. split; [by intros|]. intros args. by apply priced_law.
  - intros [Hb Ha]. unfold operand_entry. destruct (NewArgOP op) as [op'| |] eqn:Hn; [|done..].
    assert (op' = op) as ->. { unfold NewArgOP in Hn. destruct (ao_Decode op), (ao_Prefixes op); try congruence. destruct (forallb _ _); congruence. }
    cbn. destruct (PrefixSlices _); [|done..]. intros [= <-]. split; cbn; [intros; apply Hb|]. intros args. by apply priced_law.
  - by intros ? [= <-].
Qed.

Lemma entries_of_lawful l es : table_lawful l -> entries_of l = Ok es -> Forall entry_lawful es.
Proof.
  intros Hl. revert es. induction Hl as [|i l Hi Hl IH]; intros es; cbn; [by intros [= <-]|].
  destruct i as [i| |]; [|done..]. cbn. destruct (entry_of i) as [e| |] eqn:He; [|done..]. cbn.
  destruct (entries_of l) as [es'| |]; [|done..]. intros [= <-]. constructor; [|by apply IH].
  apply (entry_of_lawful i); [by apply Hi|done].
Qed.

Lemma simpleV_lawful v p a i : lawful_gen Broke a -> len p < 2 ^ 40 -> simpleV v p a = Ok i -> instruction_lawful i.
Proof. intros Ha Hp [= <-]. split; [|done]. pose proof (len_nonneg p). cbn. lia. Qed.

Lemma operandV_lawful v ps n a d w i :
  (forall args, lawful_gen Broke (a args)) -> 0 <= n < 2 ^ 32 -> Forall (fun p => 0 <= snd p < 2 ^ 32) ps ->
  operandV v ps n a d w = Ok i -> instruction_lawful i.
Proof.
  intros Ha Hn Hps. unfold operandV. destruct (UIntPrefixes ps) as [bs| |] eqn:Hbs; [|done..]. cbn.
  destruct (NewArgOP _) as [op'| |] eqn:Hop; [|done..]. intros [= <-].
  assert (op' = mkOperandOP bs n a d None w 0 v) as ->. { unfold NewArgOP in Hop. cbn in Hop. destruct d, bs; try congruence. destruct (forallb _ _); congruence. }
  split; [|exact Ha]. intros args. unfold ArgInstructionBits, prefixBits. cbn.
  assert (Hb : 0 <= match bs with [] => 0 | p0 :: _ => bp_Bits p0 end < 2 ^ 32).
  { destruct ps as [|[x b] ps]; cbn in Hbs; [injection Hbs as <-; lia|]. destruct (UIntPrefix x b) as [p| |] eqn:Hp; [|done..]. cbn in Hbs.
    destruct (UIntPrefixes ps); [|done..]. injection Hbs as <-. apply Forall_cons_1 in Hps as [Hb _]. cbn in Hb.
    unfold UIntPrefix in Hp. destruct (built_slice _); [|done..]. cbn in Hp. destruct (must _ _); [|done..]. injection Hp as <-. done. }
  rewrite s64_id by (unfold int64; lia). lia.
Qed.

Ltac table_entry :=
  lazymatch goal with
  | H : simple ?p ?a = Ok ?x |- _ => refine (simpleV_lawful 0 p a x _ eq_refl H)
  | H : simpleV ?v ?p ?a = Ok ?x |- _ => refine (simpleV_lawful v p a x _ eq_refl H)
  | H : operandV ?v ?ps ?n ?a ?d ?w = Ok ?x |- _ => refine (operandV_lawful v ps n a d w x _ _ _ H); [|lia|repeat constructor; cbn; lia]
  end; cbv beta; clear; lawful_op.
Ltac table := repeat first [apply Forall_nil_2 | apply Forall_cons_2; [intros ? ? | ]]; try (unfold newInvalidCompoundFamily, newLshiftDivCodeOp, qCompoundOP, newControlRegisterOp, byte_operand, pair_operand, int8_operand, quiet_int8_operand, operand in *; table_entry).

Lemma tuple_simple_lawful : table_lawful tuple_simple.
Proof. unfold tuple_simple, table_lawful. table. Qed.
Lemma tuple_nulls_lawful : table_lawful tuple_nulls.
Proof. unfold tuple_nulls, table_lawful. table. Qed.
Lemma tuple_args_lawful : table_lawful tuple_args.
Proof. unfold tuple_args, table_lawful. table. Qed.
Lemma stack_simple_lawful : table_lawful stack_simple.
Proof. unfold stack_simple, table_lawful. table. Qed.
Lemma math_simple_lawful : table_lawful math_simple.
Proof. unfold math_simple, table_lawful. table. Qed.
Lemma exec_simple_lawful : table_lawful exec_simple.
Proof. unfold exec_simple, table_lawful. table. Qed.

Lemma table_app l k : table_lawful l -> table_lawful k -> table_lawful (l ++ k).
Proof. intros. now apply Forall_app. Qed.

Lemma xchgOp_lawful x : xchgOp = Ok x -> instruction_lawful x.
Proof.
  unfold xchgOp. destruct (UIntPrefixes _) as [ps| |]; [|done..]. cbn. intros [= <-].
  split; [|lawful_op]. intros args. change (0 <= xchg_bits args < 2 ^ 62). unfold xchg_bits. destruct (unpackXchgArgs args) as [[a b] long].
  destruct long; [lia|]. destruct (_ || _); lia.
Qed.

Lemma stack_args_lawful : table_lawful stack_args.
Proof. unfold stack_args, table_lawful. table. now apply xchgOp_lawful. Qed.

Lemma quiet_compounds_lawful args : table_lawful (quiet_compounds args).
Proof. unfold quiet_compounds, table_lawful. table. Qed.

Lemma math_args_lawful : table_lawful math_args.
Proof.
  unfold math_args. apply table_app; [unfold table_lawful; table|]. apply table_app; [|unfold table_lawful; table].
  apply Forall_concat, Forall_map, Forall_true. intros i. apply quiet_compounds_lawful.
Qed.

Lemma newThrowFixedOp_lawful p bits imm mode arg x :
  0 <= bits < 2 ^ 32 -> 0 <= imm < 2 ^ 32 -> newThrowFixedOp p bits imm mode arg = Ok x -> instruction_lawful x.
Proof.
  intros Hb Hi. unfold newThrowFixedOp. destruct (negb _); [done|]. unfold operand.
  apply operandV_lawful; [lawful_op|done|]. by constructor.
Qed.

(** ** Decoded instances *)

Definition decodes_lawful (m : M Slice (instance * option error)) : Prop :=
  forall s i err s', m s = (Ok (i, err), s') ->
    (exists bits, in_InstructionBits i = Some bits /\ 0 <= bits < 2 ^ 62) /\ lawful_gen Broke (in_Interpret i).

Lemma decodes_accepted bits m : 0 <= bits < 2 ^ 62 -> lawful_gen Broke m -> decodes_lawful (mret (accepted bits m)).
Proof. intros Hb Hm s i err s' [= <- <- <-]. split; [by eexists|done]. Qed.
Lemma decodes_rejected bits e : 0 <= bits < 2 ^ 62 -> decodes_lawful (mret (rejected bits e)).
Proof. intros Hb s i err s' [= <- <- <-]. split; [by eexists|]. intros st. apply law_fail. Qed.
Lemma decodes_attempt {A} (m : M Slice A) ok bad :
  (forall a, decodes_lawful (ok a)) -> (forall e, decodes_lawful (bad e)) -> decodes_lawful (attempt m ok bad).
Proof. intros Ho Hb s i err s'. unfold attempt. destruct (m s) as [[a|e|] s1]; [apply Ho|apply Hb|done]. Qed.
Lemma decodes_reading {A} bits (m : M Slice A) k :
  0 <= bits < 2 ^ 62 -> (forall a, decodes_lawful (k a)) -> decodes_lawful (reading bits m k).
Proof. intros Hb Hk. apply decodes_attempt; [done|]. intros e. by apply decodes_rejected. Qed.
Lemma decodes_bind {A} (m : M Slice A) k : (forall a, decodes_lawful (k a)) -> decodes_lawful (m ≫= k).
Proof. intros Hk s i err s' (a & s1 & _ & H2)%bind_inv_Ok. by apply Hk in H2. Qed.

Ltac decodes :=
  repeat lazymatch goal with
  | |- forall _, _ => intros ?
  | |- decodes_lawful (mret (accepted _ _)) => apply decodes_accepted; [|cbn [fst snd]; lawful_op]
  | |- decodes_lawful (mret (rejected _ _)) => apply decodes_rejected
  | |- decodes_lawful (attempt _ _ _) => apply decodes_attempt
  | |- decodes_lawful (reading _ _ _) => apply decodes_reading
  | |- decodes_lawful (match ?x with _ => _ end) => destruct x
  | |- decodes_lawful (_ ≫= _) => apply decodes_bind
  | |- decodes_lawful (let _ := _ in _) => cbv zeta
  | |- decodes_lawful ?m => let h := head_of m in unfold h; cbv beta
  end; try lia.

Lemma decoded_op_lawful ps m x : decodes_lawful m -> decoded_op ps m = Ok x -> instruction_lawful x.
Proof.
  intros Hm. unfold decoded_op. destruct (UIntPrefixes ps); [|done..]. cbn. destruct (PrefixSlices _); [|done..]. by intros [= <-].
Qed.

Lemma refCodeOp_lawful p n fixed suffix action x :
  0 <= bp_Bits p + fixed < 2 ^ 62 -> (forall y refs, lawful_gen Broke (action y refs)) ->
  refCodeOp p n fixed suffix action = Ok x -> instruction_lawful x.
Proof.
  intros Hb Ha. unfold refCodeOp. destruct (PrefixSlices _); [|done..]. intros [= <-]. cbn.
  change (decodes_lawful (reading (bp_Bits p + fixed) (SkipBits (bp_Bits p) ;; y ← suffix; refs ← take_refs n; mret (y, refs))
    (fun '(y, refs) => mret (accepted (bp_Bits p + fixed) (match refs with Some refs => action y refs | None => fail (VMErr CodeInvalidOpcode) end))))).
  apply decodes_reading; [done|]. intros [y refs]. apply decodes_accepted; [done|].
  destruct refs; [apply Ha|]. intros st. apply law_fail.
Qed.

Section metered.
Context `{MeteredLookup}.

Lemma exec_args_lawful : table_lawful exec_args.
Proof.
  unfold exec_args, table_lawful. table; try (eapply newThrowFixedOp_lawful; [| |eassumption]; lia).
Qed.

Lemma exec_refs_lawful : table_lawful exec_refs.
Proof.
  unfold exec_refs, ref_op, table_lawful. table; (eapply refCodeOp_lawful; [| |eassumption]; [split; [vm_compute; discriminate|reflexivity]|clear; lawful_op]).
Qed.

Lemma stack_consts_lawful : table_lawful stack_consts.
Proof.
  unfold stack_consts, table_lawful. table; (eapply decoded_op_lawful; [|eassumption]; clear; decodes).
  - destruct (_ =? 71); lia.
  - unfold pushIntBits. repeat destruct (_ =? _); lia.
  - unfold pushSliceInlineBits. repeat destruct (_ =? _); lia.
Qed.

Lemma instructions_lawful : table_lawful instructions.
Proof.
  unfold instructions.
  repeat first [apply exec_simple_lawful | apply exec_refs_lawful | apply math_simple_lawful | apply stack_simple_lawful
    | apply stack_consts_lawful | apply tuple_simple_lawful | apply tuple_nulls_lawful | apply exec_args_lawful
    | apply math_args_lawful | apply stack_args_lawful | apply tuple_args_lawful | apply table_app].
Qed.

End metered.
