(* ===== verification/MachineTheorems.v ===== *)
(** * Programs of the machine

    The table of the modelled instructions is built without a panic, every program run
    on it ends, and code written by the assembler is executed as the instruction that
    was written. *)

From S2P Require Import Prelude Bytes CellModel Builder Finalize BuilderSpec Slice SliceSpec CellHash CellDataTheorems Gas Value Stack VmState.
From S2P Require Import StackOps StackOpsSpec Arith Exec CellLoad GasLaw Dispatch DispatchTheorems Run RunTheorems Encoding EncodingSpec ContOps.
From S2P Require Import TupleOps PushOps OpTable InstrLaw.
From stdpp Require Import gmap.
#[local] Open Scope Z_scope.

(** ** The table is built *)

Ltac build_entry :=
  lazymatch goal with
  | |- buildable (simple ?p ?a) => apply (simpleV_buildable 0 p a); reflexivity
  | |- buildable (simpleV ?v ?p ?a) => apply (simpleV_buildable v p a); reflexivity
  | |- buildable (operandV ?v ?ps ?n ?a None ?w) => apply operandV_buildable; [reflexivity|left; reflexivity]
  | |- buildable (operandV ?v ?ps ?n ?a (Some _) ?w) => apply operandV_buildable; [reflexivity|right; discriminate]
  | |- buildable (decoded_op ?ps ?m) => apply decoded_op_buildable; reflexivity
  end.
Ltac build_table :=
  repeat first [apply Forall_nil_2 | apply Forall_cons_2];
  try (unfold newInvalidCompoundFamily, newLshiftDivCodeOp, newControlRegisterOp, byte_operand, pair_operand, int8_operand, quiet_int8_operand, operand; build_entry).

Lemma refCodeOp_buildable p n fixed suffix action : prefix_ok p -> buildable (refCodeOp p n fixed suffix action).
Proof.
  intros Hp. assert (Hps : Forall prefix_ok [p]) by (constructor; [done|constructor]). unfold refCodeOp. rewrite (PrefixSlices_ok _ Hps). cbn [mbind outcome_bind].
  eexists _, _. split; [reflexivity|]. split; [reflexivity|]. exact (slices_swf _ Hps).
Qed.

Lemma xchgOp_buildable : buildable xchgOp.
Proof.
  unfold xchgOp. rewrite UIntPrefixes_ok by reflexivity. cbn [mbind outcome_bind NewArgOP ao_Decode].
  eexists _, _. split; [reflexivity|]. cbn [entry_of]. unfold operand_entry. cbn [mbind outcome_bind NewArgOP ao_Decode ao_Prefixes].
  rewrite PrefixSlices_ok by now apply (uint_prefixes_ok [(0x0, 4); (0x1, 4); (0x10, 8)]).
  split; [reflexivity|]. now apply slices_swf, (uint_prefixes_ok [(0x0, 4); (0x1, 4); (0x10, 8)]).
Qed.

Lemma newThrowFixedOp_buildable p bits imm mode arg :
  (Z.land (be_uint p) (2 ^ imm - 1) =? 0) = true -> declared (be_uint p ≫ imm, bits) = true -> buildable (newThrowFixedOp p bits imm mode arg).
Proof.
  intros Hz Hd. unfold newThrowFixedOp. rewrite Hz. cbn [negb]. apply operandV_buildable; [cbn [forallb]; by rewrite Hd|left].
  cbn [same_lengths forallb snd]. by rewrite Z.eqb_refl.
Qed.

Section machine.
Context `{MeteredLookup}.

Lemma simple_tables_buildable :
  Forall buildable exec_simple /\ Forall buildable math_simple /\ Forall buildable stack_simple /\ Forall buildable tuple_simple
  /\ Forall buildable tuple_nulls /\ Forall buildable tuple_args.
Proof. split_and!; unfold exec_simple, math_simple, stack_simple, tuple_simple, tuple_nulls, tuple_args; build_table. Qed.

Lemma exec_args_buildable : Forall buildable exec_args.
Proof. unfold exec_args. build_table. all: apply newThrowFixedOp_buildable; reflexivity. Qed.

Lemma exec_refs_buildable : Forall buildable exec_refs.
Proof.
  unfold exec_refs, ref_op. build_table. all: apply refCodeOp_buildable; try (apply BytesPrefix_ok; [reflexivity|cbn; lia]).
  split; cbn [bp_Data bp_Bits SlicePrefix]; [|change (len [0xE3; 0xC0]) with 2; lia..]. repeat constructor; lia.
Qed.

Lemma math_args_buildable : Forall buildable math_args.
Proof.
  unfold math_args. apply Forall_app. split; [build_table|]. apply Forall_app. split; [|build_table].
  cbn [seq map concat app]. unfold quiet_compounds, qCompoundOP. cbn [app]. build_table.
Qed.

Lemma stack_tables_buildable : Forall buildable stack_args /\ Forall buildable stack_consts.
Proof. unfold stack_args, stack_consts. split; build_table. apply xchgOp_buildable. Qed.

Lemma instructions_buildable : Forall buildable instructions.
Proof.
  destruct simple_tables_buildable as (? & ? & ? & ? & ? & ?). destruct stack_tables_buildable.
  unfold instructions. repeat first [assumption | apply exec_refs_buildable | apply exec_args_buildable | apply math_args_buildable | apply Forall_app; split].
Qed.

(** ** Every program ends *)

Lemma table_dispatch l tvm k d : table_lawful l -> machine l = Ok tvm -> tvm !! k = Some d -> dispatch_all entry_lawful d.
Proof.
  intros Hl. unfold machine. destruct (entries_of l) as [es| |] eqn:Hes; [|done..]. cbn [mbind outcome_bind]. intros Hb Hd.
  pose proof (entries_of_lawful l es Hl Hes) as Hle.
  assert (Hall : Forall (dispatch_all entry_lawful) tvm).
  { eapply built_all; [|exact Hb]. apply Forall_fmap. eapply List.Forall_impl; [|exact Hle]. intros e. apply registration_lawful. }
  exact (Forall_lookup_1 _ _ _ _ Hall Hd).
Qed.

Lemma runState_ends l tvm st :
  table_lawful l -> machine l = Ok tvm -> gas_ok st ->
  exists r, forall fuel, (run_fuel st <= fuel)%nat -> runState fuel tvm st = Some r.
Proof.
  intros Hl Hm Hok. pose proof (gok_version _ Hok). unfold runState. destruct (Z.ltb_spec (st_GlobalVersion st) 0); [lia|].
  destruct (tvm !! Z.to_nat (st_GlobalVersion st)) as [d|] eqn:Hd; [|by eexists].
  pose proof (table_dispatch l tvm _ d Hl Hm Hd) as Hall. destruct (execute_ends d st (run_fuel st) Hall Hok) as [[r st'] Hr]; [done|].
  eexists. intros fuel Hf. now rewrite (execute_more d st _ fuel _ Hr Hf).
Qed.

(** C5: From version 4 on every program ends, whatever its code, stack, registers and
    libraries: the table of the modelled instructions is built, and a run from a state
    with gas left gives the same exit code, error and state for every bound on the
    number of iterations from one fifth of the gas that is left on.  No program can
    make the interpreter run forever. *)
Theorem every_program_ends st :
  gas_ok st ->
  exists tvm r, machine instructions = Ok tvm /\
    forall fuel, (S (Z.to_nat ((cap st - used st) / 5)) <= fuel)%nat -> runState fuel tvm st = Some r.
Proof.
  intros Hok. destruct (machine_builds instructions instructions_buildable) as (tvm & Hm & _).
  destruct (runState_ends instructions tvm st instructions_lawful Hm Hok) as [r Hr].
  exists tvm, r. split; [exact Hm|exact Hr].
Qed.

End machine.

(** Libraries are looked up without a metered walk: enough for a state without any. *)
Definition no_walk : MeteredLookup := fun _ _ => mret None.

(** [PUSHCONT {NOP} AGAIN], an endless loop, with 1000 units of gas. *)
Definition endless : State :=
  set_gas (set_code sample_state (byte_slice [0x91; 0x00; 0xEA] 24)) (GasWithLimit 1000 (Some 1000)).

Example every_program_ends_witness :
  exists tvm r, machine (@instructions no_walk) = Ok tvm /\
    forall fuel, (201 <= fuel)%nat -> @runState no_walk fuel tvm endless = Some r.
Proof.
  assert (Hn : 201%nat = S (Z.to_nat ((cap endless - used endless) / 5))) by (vm_compute; reflexivity). rewrite Hn.
  apply (@every_program_ends no_walk endless). split; vm_compute; intuition congruence.
Defined.

(** ** Assembled code *)

Lemma longest_is {E} (entry : list bool -> option E) l p e r :
  longest entry l r -> p <> [] -> p `prefix_of` l -> entry p = Some e ->
  (forall q, q `prefix_of` l -> is_Some (entry q) -> (length q <= length p)%nat) -> r = Some e.
Proof.
  destruct r as [e'|]; cbn; [|intros H ? ?; by rewrite H by done].
  intros (q & Hq & Hql & Hqe & Hmax) Hp Hpl Hpe Hpmax. assert (q = p) as ->; [|congruence].
  assert (length q = length p) as Hlen by (apply Nat.le_antisymm; [apply Hpmax|apply Hmax]; eauto).
  destruct Hql as [k ->], Hpl as [k' Hk]. by apply app_inj_1 in Hk as [-> _].
Qed.

(** The bits of the instruction with the operand [args]. *)
Definition encoding (op : OperandOP) (p : BitPrefix) (args : Z) : list bool := prefix_bits p ++ uint_bits (ao_ArgBits op) args.

(** An instruction with one prefix and the default decoding, which writes the operand, or
    one with the same action. *)
Record plain_operand (op : OperandOP) (p : BitPrefix) : Prop := {
  pl_prefixes : ao_Prefixes op = [p];
  pl_decode : ao_Decode op = None;
  pl_bits : ao_Bits op = None;
  pl_args : 0 <= ao_ArgBits op <= 64;
  pl_prefix : prefix_ok p;
  pl_nonempty : 0 < bp_Bits p;
  pl_len : bp_Bits p + ao_ArgBits op <= 1023;
  pl_writes : forall args, 0 <= args < 2 ^ ao_ArgBits op ->
    exists a, 0 <= a < 2 ^ ao_ArgBits op /\ stores (serializer op args) (encoding op p a) /\ ao_Action op a = ao_Action op args
}.

Section plain.
Context (op : OperandOP) (p : BitPrefix) (args : Z).
Context (Hop : plain_operand op p) (Hargs : 0 <= args < 2 ^ ao_ArgBits op).

Lemma len_prefix_bits : len (prefix_bits p) = bp_Bits p.
Proof. clear Hargs. destruct (pl_prefix _ _ Hop). unfold prefix_bits. rewrite length_window; lia. Qed.

Lemma len_encoding : len (encoding op p args) = bp_Bits p + ao_ArgBits op.
Proof. clear Hargs. unfold encoding. pose proof (pl_args _ _ Hop). rewrite len_app, length_uint_bits, len_prefix_bits by lia. done. Qed.

(** The builder that [SerializeArgs] returns. *)
Lemma serialize_encoding b :
  SerializeArgs op args = Ok b -> exists a, 0 <= a < 2 ^ ao_ArgBits op /\ bits b = encoding op p a /\ InterpretArgs op a = InterpretArgs op args.
Proof.
  destruct (pl_writes _ _ Hop args Hargs) as (a & Ha & Hs & Hact). pose proof (pl_len _ _ Hop).
  assert (Hfit : len (encoding op p a) <= 1023) by (unfold encoding; pose proof (pl_args _ _ Hop); rewrite len_app, length_uint_bits, len_prefix_bits by lia; lia).
  unfold SerializeArgs. rewrite (must_Ok _ _ _ _ (Hs BeginCell wf_begin Hfit)). cbn [mbind outcome_bind snd]. intros [= <-].
  exists a. split; [done|]. split; [by rewrite (bits_append _ _ wf_begin Hfit)|]. unfold InterpretArgs. by rewrite Hact.
Qed.

Lemma decode_encoding : loads (DecodeArgs op) (encoding op p args) (args, None).
Proof.
  destruct Hop as [Hps Hd Hb Ha Hp Hn _ _]. unfold DecodeArgs. rewrite Hd. unfold decoded.
  apply (loads_attempt _ _ _ _ args); [|apply loads_ret]. unfold prefixBits. rewrite Hps. rewrite <-len_prefix_bits.
  apply (loads_bind (SkipBits (len (prefix_bits p))) _ _ _ tt); [apply loads_skip|].
  destruct (Z.eqb_spec (ao_ArgBits op) 0) as [H0|]; [|apply loads_uint; [lia|done]].
  rewrite H0 in *. replace args with 0 by lia. apply loads_ret.
Qed.

End plain.

(** *** The operands of the registry *)

Definition plain_entry (i : outcome instruction) : Prop := forall op, i = Ok (IOperand op) -> ao_Decode op = None -> exists p, plain_operand op p.

Lemma stores_prefix p : prefix_ok p -> stores (store_prefix p) (prefix_bits p).
Proof. intros [? ? ? ?]. apply stores_slice; [done|lia..]. Qed.

Lemma stores_lift {A} (a : A) (k : A -> M Builder unit) bs : stores (k a) bs -> stores (lift (Ok a) ≫= k) bs.
Proof. intros Hk b Hwf Hfit. rewrite bind_lift. by apply Hk. Qed.

(** The eight bits of a signed number are those of the operand. *)
Lemma stores_int8 args : 0 <= args < 2 ^ 8 -> stores (StoreInt (s8 args) 8) (uint_bits 8 args).
Proof.
  intros Ha. replace (uint_bits 8 args) with (uint_bits 8 (s8 args)).
  - refine (CellDataTheorems.codec_stores (Codec.int_codec 8 ltac:(lia)) (s8 args) _). cbn. split; [unfold s8; lia|]. unfold signed_range. cbn. unfold s8. lia.
  - rewrite <-(uint_bits_mod 8 (s8 args)), <-(uint_bits_mod 8 args) by lia. f_equal. unfold s8. change (2 ^ 8) with 256. lia.
Qed.

Section written.
Context (v x b n : Z) (a : Z -> M State unit) (w : option (Z -> M Builder unit)).
Context (Hx : declared (x, b) = true) (Hb : 0 < b) (Hn : 0 <= n <= 64).
Abbreviation op := (operand_of v [(x, b)] n a None w).
Abbreviation p := (uint_prefix x b).

Lemma operandV_plain :
  (forall args, 0 <= args < 2 ^ n -> exists a', 0 <= a' < 2 ^ n /\ stores (serializer op args) (prefix_bits p ++ uint_bits n a') /\ a a' = a args) ->
  plain_entry (operandV v [(x, b)] n a None w).
Proof using Hx Hb Hn.
  intros Hw op'. rewrite operandV_ok; [|by rewrite <-Hx; cbn; rewrite andb_true_r|left; cbn; by rewrite Z.eqb_refl]. intros [= <-] _. exists p. unfold declared in Hx. cbn in Hx.
  split; try done; cbn [ao_ArgBits operand_of]; [apply uint_prefix_ok; lia|cbn; lia].
Qed.

Lemma default_plain : w = None -> plain_entry (operandV v [(x, b)] n a None w).
Proof using Hx Hb Hn.
  intros Ew. apply operandV_plain. intros args Ha. exists args. split; [done|]. split; [|done]. unfold serializer. cbn [operand_of ao_Serializer ao_Prefixes ao_ArgBits]. rewrite Ew.
  apply stores_lift. apply stores_then; [apply stores_prefix, uint_prefix_ok; unfold declared in Hx; cbn in Hx; lia|].
  destruct (Z.ltb_spec 0 n); [by apply stores_uint|]. assert (n = 0) as -> by lia. intros b' Hwf _. change (uint_bits 0 args) with (@nil bool). by rewrite append_nil.
Qed.

Lemma suffix_plain suffix act :
  w = Some (fun _ => p ← lift (UIntPrefix x b); store_prefix p ;; StoreUInt suffix n) -> 0 <= suffix < 2 ^ n -> a = (fun _ => act) ->
  plain_entry (operandV v [(x, b)] n a None w).
Proof using Hx Hb Hn.
  intros Ew Hs Ea. apply operandV_plain. intros args _. exists suffix. split; [done|]. split; [|by rewrite Ea]. unfold serializer. cbn [operand_of ao_Serializer]. rewrite Ew.
  unfold declared in Hx. cbn in Hx. rewrite UIntPrefix_ok by lia. apply stores_lift, stores_then; [apply stores_prefix, uint_prefix_ok; lia|by apply stores_uint].
Qed.

Lemma int8_plain : w = Some (int8_serialize x) -> b = 8 -> n = 8 -> plain_entry (operandV v [(x, b)] n a None w).
Proof using Hx Hb Hn.
  intros Ew Eb En. apply operandV_plain. intros args Ha. exists args. split; [done|]. split; [|done]. unfold serializer. cbn [operand_of ao_Serializer]. rewrite Ew.
  unfold declared in Hx. cbn in Hx. rewrite prefix_bits_uint by lia. subst b n. apply stores_then; [apply stores_uint; lia|by apply stores_int8].
Qed.

Lemma quiet_int8_plain y :
  w = Some (quiet_int8_serialize [0xB7; y]) -> byteb y = true -> prefix_bits (BytesPrefix [0xB7; y]) = prefix_bits p -> n = 8 -> plain_entry (operandV v [(x, b)] n a None w).
Proof using Hx Hb Hn.
  intros Ew Hy Hp En. apply operandV_plain. intros args Ha. exists args. split; [done|]. split; [|done]. unfold serializer. cbn [operand_of ao_Serializer]. rewrite Ew, <-Hp.
  subst n. apply stores_then; [apply stores_prefix, BytesPrefix_ok; [cbn; by rewrite Hy|cbn; lia]|by apply stores_int8].
Qed.
End written.

Lemma custom_plain v ps n a d w : plain_entry (operandV v ps n a (Some d) w).
Proof.
  intros op. unfold operandV. destruct (UIntPrefixes ps); [|done..]. cbn [mbind outcome_bind]. unfold NewArgOP. cbn [ao_Decode mbind outcome_bind]. by intros [= <-].
Qed.

(** The opcodes of a version. *)
Definition table_of (l : list (outcome instruction)) (v : Z) : gmap (list bool) dispatchEntry :=
  match entries_of l with Ok es => opcode_table (registration_of <$> es) (Z.to_nat v) | _ => ∅ end.

(** The instruction is registered, and no registered opcode reaches further into [code]. *)
Record unshadowed (l : list (outcome instruction)) (v : Z) (op : OperandOP) (p : BitPrefix) (code : list bool) : Prop := {
  us_entry : exists e, operand_entry op = Ok e /\ table_of l v !! prefix_bits p = Some (EArg e);
  us_longest : forall q, q `prefix_of` code ++ replicate 1023 false -> is_Some (table_of l v !! q) -> (length q <= length (prefix_bits p))%nat
}.

Lemma executeArgOpcode_encoding op p e args st rest :
  plain_operand op p -> operand_entry op = Ok e -> 0 <= args < 2 ^ ao_ArgBits op ->
  swf (st_CurrentCode st) -> sbits (st_CurrentCode st) = encoding op p args ++ rest ->
  executeArgOpcode e st =
    (ConsumeGas (InstructionBaseGasPrice + len (encoding op p args)) ;; interpretOpcode (InterpretArgs op args))
      (set_code st (skip (st_CurrentCode st) (len (encoding op p args)))).
Proof.
  intros Hop He Hargs Hwf Hb. destruct (pl_prefix _ _ Hop). pose proof (pl_args _ _ Hop).
  unfold operand_entry, NewArgOP in He. rewrite (pl_decode _ _ Hop), (pl_prefixes _ _ Hop) in He. cbn [forallb] in He.
  rewrite Z.eqb_refl in He. cbn [andb mbind outcome_bind] in He. destruct (PrefixSlices _); [|done..]. injection He as <-.
  unfold executeArgOpcode. cbn [op_DecodeArgs op_ArgInstructionBits op_InterpretArgs].
  erewrite bind_Ok; [|unfold on_code; rewrite (decode_encoding op p args Hop Hargs _ rest Hwf Hb); reflexivity].
  cbv iota beta. replace (ArgInstructionBits op args) with (len (encoding op p args)); [done|].
  rewrite (len_encoding _ _ _ Hop). unfold ArgInstructionBits, prefixBits. rewrite (pl_bits _ _ Hop), (pl_prefixes _ _ Hop).
  symmetry. apply s64_id. unfold int64. lia.
Qed.

Lemma simpleV_plain v p act : plain_entry (simpleV v p act).
Proof. by intros op. Qed.
Lemma decoded_op_plain ps m : plain_entry (decoded_op ps m).
Proof. intros op. unfold decoded_op. destruct (UIntPrefixes ps); [|done..]. cbn [mbind outcome_bind]. by destruct (PrefixSlices _). Qed.
Lemma refCodeOp_plain p n fixed suffix act : plain_entry (refCodeOp p n fixed suffix act).
Proof. intros op. unfold refCodeOp. by destruct (PrefixSlices _). Qed.
Lemma xchgOp_plain : plain_entry xchgOp.
Proof. intros op. unfold xchgOp. rewrite UIntPrefixes_ok by reflexivity. cbn [mbind outcome_bind NewArgOP ao_Decode]. by intros [= <-]. Qed.

Lemma newThrowFixedOp_plain p bits imm mode arg :
  declared (be_uint p ≫ imm, bits) = true -> 0 < bits -> 0 <= imm <= 64 -> plain_entry (newThrowFixedOp p bits imm mode arg).
Proof. intros Hd Hb Hi. unfold newThrowFixedOp. destruct (negb _); [by intros op|]. by apply default_plain. Qed.

Ltac plain_step :=
  lazymatch goal with
  | |- plain_entry (simple ?p ?a) => apply (simpleV_plain 0)
  | |- plain_entry (simpleV _ _ _) => apply simpleV_plain
  | |- plain_entry (decoded_op _ _) => apply decoded_op_plain
  | |- plain_entry (refCodeOp _ _ _ _ _) => apply refCodeOp_plain
  | |- plain_entry (newThrowFixedOp _ _ _ _ _) => apply newThrowFixedOp_plain; [reflexivity|lia|lia]
  | |- plain_entry xchgOp => apply xchgOp_plain
  | |- plain_entry (operandV _ _ _ _ (Some _) _) => apply custom_plain
  | |- plain_entry (operandV _ _ _ _ None None) => apply default_plain; [reflexivity|lia|lia|reflexivity]
  | |- plain_entry (operandV _ _ _ _ None (Some (int8_serialize _))) => apply int8_plain; [reflexivity|lia|lia|reflexivity..]
  | |- plain_entry (operandV _ _ _ _ None (Some (quiet_int8_serialize _))) => eapply quiet_int8_plain; [reflexivity|lia|lia|reflexivity|reflexivity|vm_compute; reflexivity|reflexivity]
  | |- plain_entry (operandV _ _ _ _ None (Some (fun _ => _))) => eapply suffix_plain; [reflexivity|lia|lia|reflexivity|lia|reflexivity]
  end.
Ltac plain_table :=
  repeat first [apply Forall_nil_2 | apply Forall_cons_2];
  try (unfold newInvalidCompoundFamily, newLshiftDivCodeOp, newControlRegisterOp, byte_operand, pair_operand, int8_operand, quiet_int8_operand, qCompoundOP, ref_op, operand; plain_step).

Section registry.
Context `{MeteredLookup}.

(** Every instruction of the registry with the default decoding is plain: the signed
    operands are written as the same eight bits, and the families that were never
    assigned, which write their canonical suffix, fail for every operand. *)
Lemma registry_plain : Forall plain_entry instructions.
Proof.
  unfold instructions. repeat (apply Forall_app; split).
  all: try (unfold exec_simple, exec_refs, math_simple, stack_simple, stack_consts, tuple_simple, tuple_nulls, exec_args, stack_args, tuple_args; plain_table).
Qed.

(** C6: Code written by the assembler is executed as written.  Take any table of
    instructions, an instruction of the registry with the default decoding, registered in
    that table, and an operand that fits.  When the code starts with what
    [SerializeArgs] writes, by the default encoding or by the [Serializer] of the
    instruction, and no longer opcode of the table is a prefix of the code (as [BLKDROP]
    is of [BLKPUSH 0,j]), a step of the machine charges ten units plus the length of what was written and then
    runs that instruction with that operand, with the code advanced exactly past it. *)
Theorem assembled_executes (l : list (outcome instruction)) op args b st rest :
  Forall buildable l -> Ok (IOperand op) ∈ instructions -> ao_Decode op = None -> 0 <= args < 2 ^ ao_ArgBits op ->
  1 <= st_GlobalVersion st <= MaxSupportedGlobalVersion -> swf (st_CurrentCode st) ->
  SerializeArgs op args = Ok b -> sbits (st_CurrentCode st) = bits b ++ rest ->
  (forall p, ao_Prefixes op = [p] -> unshadowed l (st_GlobalVersion st) op p (sbits (st_CurrentCode st))) ->
  exists tvm d, machine l = Ok tvm /\ tvm !! Z.to_nat (st_GlobalVersion st) = Some d /\
    stepWithDispatch d st =
      (ConsumeGas (InstructionBaseGasPrice + len (bits b)) ;; interpretOpcode (InterpretArgs op args))
        (set_code st (skip (st_CurrentCode st) (len (bits b)))).
Proof.
  intros Hl Hin Hdec Hargs Hv Hwf Hb Hcode Hun.
  destruct (proj1 (Forall_forall _ _) registry_plain _ Hin op eq_refl Hdec) as [p Hop]. destruct (Hun p (pl_prefixes _ _ Hop)) as [(e & He & Ht) Hlong].
  destruct (serialize_encoding op p args Hop Hargs b Hb) as (a & Ha & Hbits & <-). rewrite Hbits in *. pose proof (len_encoding _ _ a Hop) as Hn. pose proof (pl_nonempty _ _ Hop).
  destruct (pl_prefix _ _ Hop) as [? ? ? ?]. pose proof (pl_args _ _ Hop).
  destruct (entries_of_ok l Hl) as (es & Hes & Hf). unfold table_of in *. rewrite Hes in *.
  destruct (built_lookup (registration_of <$> es)) as (tvm & Hbuild & Hlen & Hlook); [by apply Forall_fmap|].
  exists tvm. destruct (lookup_lt_is_Some_2 tvm (Z.to_nat (st_GlobalVersion st))) as [d Hd]; [lia|]. exists d.
  split; [unfold machine; rewrite Hes; exact Hbuild|]. split; [exact Hd|].
  pose proof (len_sbits _ Hwf) as Hleft. rewrite Hcode, len_app in Hleft. pose proof (len_nonneg rest).
  destruct (Hlook _ _ (st_CurrentCode st) Hd Hwf) as (r & Hm & _ & Hr); [lia|].
  assert (r = Some (EArg e)) as ->.
  { eapply longest_is; [exact Hr| | |exact Ht|exact Hlong].
    - intros Hnil. pose proof (len_prefix_bits op p Hop) as Hp. rewrite Hnil in Hp. change (len []) with 0 in Hp. lia.
    - rewrite Hcode. unfold encoding. rewrite <-!app_assoc. by eexists. }
  unfold stepWithDispatch. rewrite bind_get, Hm, bind_lift. unfold historical_entry.
  destruct (Z.eqb_spec (st_GlobalVersion st) 0); [lia|]. cbn [andb]. rewrite bind_lift.
  exact (executeArgOpcode_encoding op p e a st rest Hop He Ha Hwf Hcode).
Qed.
End registry.

(** A table with [MULCONST] alone, and the code [MULCONST 5; AGAIN]. *)
Definition mulconst_op : OperandOP := operand_of 0 [(0xA7, 8)] 8 MULCONST None (Some (int8_serialize 0xA7)).
Definition mulconst_prefix : BitPrefix := uint_prefix 0xA7 8.
Definition mulconst_state : State := set_code sample_state (byte_slice [0xA7; 0x05; 0xEA] 24).
Definition mulconst_built : Builder := snd (serializer mulconst_op 5 BeginCell).

Lemma mulconst_registered : Ok (IOperand mulconst_op) ∈ @instructions no_walk.
Proof.
  unfold mulconst_op. rewrite <-(operandV_ok 0 [(0xA7, 8)] 8 MULCONST None (Some (int8_serialize 0xA7)) eq_refl (or_introl eq_refl)). change (operandV 0 [(0xA7, 8)] 8 MULCONST None (Some (int8_serialize 0xA7))) with (int8_operand 0xA7 MULCONST).
  unfold instructions. do 8 (apply elem_of_app; right). apply elem_of_app. left. unfold math_args. apply elem_of_app. left. repeat (first [apply list_elem_of_here | apply list_elem_of_further]).
Qed.

Lemma mulconst_entry : exists e, operand_entry mulconst_op = Ok e /\ table_of [int8_operand 0xA7 MULCONST] 11 = {[prefix_bits mulconst_prefix := EArg e]}.
Proof.
  assert (Hps : Forall prefix_ok (ao_Prefixes mulconst_op)) by (apply (uint_prefixes_ok [(0xA7, 8)]); reflexivity).
  assert (Hn : NewArgOP mulconst_op = Ok mulconst_op) by reflexivity.
  eexists. split; [unfold operand_entry; rewrite Hn; cbn [mbind outcome_bind]; rewrite (PrefixSlices_ok _ Hps); reflexivity|].
  unfold table_of, int8_operand. rewrite operandV_ok by (reflexivity || by left). fold mulconst_op. cbn [entries_of mbind outcome_bind entry_of].
  unfold operand_entry. rewrite Hn. cbn [mbind outcome_bind]. rewrite (PrefixSlices_ok _ Hps).
  cbn [mbind outcome_bind]. unfold opcode_table. cbn [fmap list_fmap foldl registration_of rg_prefixes op_GetPrefixes mulconst_op operand_of ao_Prefixes].
  unfold table_add. cbn [rg_minVersion op_MinGlobalVersion rg_entry ao_MinVersion]. change (Z.max 0 0 <=? Z.of_nat (Z.to_nat 11)) with true. cbv iota.
  change (uint_prefix (0xA7, 8).1 (0xA7, 8).2) with mulconst_prefix.
  destruct (bits_slice_ok (prefix_bits mulconst_prefix)) as [_ ->]; [by vm_compute|]. done.
Qed.

Example assembled_executes_witness :
  exists tvm d, machine [int8_operand 0xA7 MULCONST] = Ok tvm /\ tvm !! 11%nat = Some d /\
    stepWithDispatch d mulconst_state =
      (ConsumeGas (InstructionBaseGasPrice + 16) ;; interpretOpcode (InterpretArgs mulconst_op 5)) (set_code mulconst_state (skip (st_CurrentCode mulconst_state) 16)).
Proof.
  apply (@assembled_executes no_walk [int8_operand 0xA7 MULCONST] mulconst_op 5 mulconst_built mulconst_state (sbits (byte_slice [0xEA] 8))).
  - apply Forall_cons_2; [|apply Forall_nil_2]. apply operandV_buildable; [reflexivity|left; reflexivity].
  - exact mulconst_registered.
  - reflexivity.
  - vm_compute. split; [discriminate|reflexivity].
  - vm_compute. split; discriminate.
  - apply byte_slice_swf. reflexivity.
  - vm_compute. reflexivity.
  - vm_compute. reflexivity.
  - intros p [= <-]. destruct mulconst_entry as (e & He & Ht). change (st_GlobalVersion mulconst_state) with 11. split.
    + exists e. split; [exact He|]. rewrite Ht. apply lookup_singleton_eq.
    + intros q _ Hq. rewrite Ht in Hq. destruct (decide (q = prefix_bits mulconst_prefix)) as [->|Hne]; [apply le_n|].
      rewrite lookup_singleton_ne in Hq by congruence. destruct Hq as [? [=]].
Defined.
