(* ===== verification/Sound.v ===== *)
(** * Sound data of the virtual machine

    What the values of a machine that was started properly satisfy, deep inside tuples,
    continuations and cells: integers fit in 257 bits, slices and builders are within
    their cells, no continuation is nil where the code calls it, and no captured stack
    is longer than a bound.  Reads of a sound slice never panic and give sound results;
    operations on a sound stack never panic, keep it sound, and change its length by a
    known amount. *)

From S2P Require Import Prelude Bytes CellModel Builder Slice SliceSpec SliceCompare DictLabel DictLabelTheorems Gas Value Stack VmState Encoding.
From stdpp Require Import list.
#[local] Open Scope Z_scope.

Create HintDb sound.

(** ** Cells *)

(** A cell whose data hold its bits and which has at most four references. *)
Definition node_ok (c : Cell) : Prop := swf (newSliceFromCell c).

Fixpoint cell_ok (c : Cell) : Prop :=
  match c with
  | mkCell d b s m refs h dp =>
      node_ok (mkCell d b s m refs h dp) /\ foldr (fun c P => cell_ok c /\ P) True refs
  end.

Lemma foldr_all {A} (P : A -> Prop) l : foldr (fun x Q => P x /\ Q) True l <-> Forall P l.
Proof. induction l as [|x l IH]; cbn; [split; [constructor|done]|]. rewrite IH. split; [intros []; by constructor|by intros []%Forall_cons_1]. Qed.

Lemma cell_ok_eq c : cell_ok c <-> node_ok c /\ Forall cell_ok (c_refs c).
Proof. destruct c as [d b sp m refs h dp]. change (cell_ok (mkCell d b sp m refs h dp)) with (node_ok (mkCell d b sp m refs h dp) /\ foldr (fun c P => cell_ok c /\ P) True refs). by rewrite foldr_all. Qed.

Lemma cell_ok_node c : cell_ok c -> node_ok c.
Proof. by intros []%cell_ok_eq. Qed.

(** A slice within a cell whose references are sound. *)
Definition slice_ok (s : Slice) : Prop := swf s /\ Forall cell_ok (c_refs (s_cell s)).

Lemma slice_ok_new c : cell_ok c -> slice_ok (newSliceFromCell c).
Proof. by intros [? ?]%cell_ok_eq. Qed.

Definition builder_ok (b : Builder) : Prop := wf b /\ Forall cell_ok (b_refs b).

(** ** Values *)

Definition int_ok (x : Z) : Prop := minTVMInt <= x <= maxTVMInt.
Definition opt_ok {A} (P : A -> Prop) (o : option A) : Prop := match o with Some a => P a | None => True end.

(** The continuation under a push of an integer is the code it was made from. *)
Definition is_ordinary (c : cont) : bool := match c with COrdinary _ _ => true | _ => false end.

Section values.
(** The longest captured stack. *)
Context (B : Z).

Fixpoint value_ok (v : value) : Prop :=
  match v with
  | VInt x => int_ok x
  | VCell (Some c) => cell_ok c
  | VBuilder (Some b) => builder_ok b
  | VSlice (Some s) => slice_ok s
  | VTuple (Some t) => foldr (fun v P => value_ok v /\ P) True t
  | VCont c => c <> CNil /\ cont_ok c
  | _ => True
  end
with cont_ok (c : cont) : Prop :=
  match c with
  | COrdinary d code => data_ok d /\ slice_ok code
  | CArgExt d ext => data_ok d /\ ext <> CNil /\ cont_ok ext
  | CPushInt _ next => is_ordinary next = true /\ cont_ok next
  | CRepeat _ body after => body <> CNil /\ after <> CNil /\ cont_ok body /\ cont_ok after
  | CAgain body => body <> CNil /\ cont_ok body
  | CWhile _ body cnd after => body <> CNil /\ cnd <> CNil /\ after <> CNil /\ cont_ok body /\ cont_ok cnd /\ cont_ok after
  | CUntil body after => body <> CNil /\ after <> CNil /\ cont_ok body /\ cont_ok after
  | _ => True
  end
with data_ok (d : cdata) : Prop :=
  match d with
  | mkData save stk _ _ =>
      reg_ok save /\ match stk with Some l => len l <= B /\ foldr (fun v P => value_ok v /\ P) True l | None => True end
  end
with reg_ok (r : register) : Prop :=
  match r with
  | mkReg c0 c1 c2 c3 d0 d1 c7 =>
      cont_ok c0 /\ cont_ok c1 /\ cont_ok c2 /\ cont_ok c3 /\ opt_ok cell_ok d0 /\ opt_ok cell_ok d1 /\
      match c7 with Some t => foldr (fun v P => value_ok v /\ P) True t | None => True end
  end.

Definition values_ok : list value -> Prop := Forall value_ok.

Lemma tuple_ok t : value_ok (VTuple (Some t)) <-> values_ok t.
Proof. cbn [value_ok]. apply foldr_all. Qed.

Lemma data_ok_eq d : data_ok d <-> reg_ok (d_Save d) /\ opt_ok (fun l => len l <= B /\ values_ok l) (d_Stack d).
Proof. destruct d as [save [l|] n cp]; cbn; [|done]. by rewrite foldr_all. Qed.

Lemma reg_ok_eq r :
  reg_ok r <-> (forall i, cont_ok (r_C r i)) /\ (forall i, opt_ok cell_ok (r_D r i)) /\ opt_ok values_ok (r_C7 r).
Proof.
  destruct r as [c0 c1 c2 c3 d0 d1 c7]. cbn. assert (H7 : match c7 with Some t => foldr (fun v P => value_ok v /\ P) True t | None => True end <-> opt_ok values_ok c7).
  { destruct c7; [apply foldr_all|done]. }
  rewrite H7. split.
  - intros (? & ? & ? & ? & ? & ? & ?). split_and!; [intros i; destruct (_ =? 0), (i =? 1), (i =? 2); done|intros i; by destruct (_ =? 0)|done].
  - intros (Hc & Hd & ?). split_and!; [exact (Hc 0)|exact (Hc 1)|exact (Hc 2)|exact (Hc 3)|exact (Hd 0)|exact (Hd 1)|done].
Qed.

(** ** Copies *)

Fixpoint copy_cont_ok (c : cont) : cont_ok c -> cont_ok (Copy_cont c) /\ (c <> CNil -> Copy_cont c <> CNil)
with copy_data_ok (d : cdata) : data_ok d -> data_ok (Copy_data d)
with copy_reg_ok (r : register) : reg_ok r -> reg_ok (Copy_reg r)
with share_ok (v : value) : value_ok v -> value_ok (shareStackValue v).
Proof.
  - destruct c; cbn; try (split; done).
    + intros [Hd Hc]. split; [|done]. split; [by apply copy_data_ok|done].
    + intros (Hd & ? & ?). split; [|done]. split_and!; [by apply copy_data_ok|done..].
  - destruct d as [save [l|] n cp]; cbn; [|intros [H _]; split; [by apply copy_reg_ok|done]].
    intros (H & Hl & Hv). split; [by apply copy_reg_ok|]. split; [unfold len in *; by rewrite length_map|]. clear Hl.
    induction l as [|v l IH]; cbn in *; [done|]. destruct Hv as [Hv Hl]. split; [by apply share_ok|by apply IH].
  - destruct r as [c0 c1 c2 c3 d0 d1 c7]. intros (H0 & H1 & H2 & H3 & H).
    assert (Hc : forall b c, cont_ok (Copy_cont c) -> cont_ok (if b : bool then CNil else Copy_cont c)) by (by intros []).
    split; [apply Hc, copy_cont_ok, H0|]. split; [apply Hc, copy_cont_ok, H1|]. split; [apply Hc, copy_cont_ok, H2|].
    split; [apply Hc, copy_cont_ok, H3|]. exact H.
  - destruct v as [| | | | | | |c]; try done. cbn [shareStackValue]. intros [Hn Hc]. destruct (copy_cont_ok c Hc) as [Hk Hk'].
    clear -Hn Hk Hk'. destruct c; (split; [by apply Hk' || done|exact Hk]).
Qed.

(** ** Stacks *)

(** Run on a sound stack, [m] keeps it sound, makes it at most [d] longer and gives a
    result in [Q]; a failure does not make it longer; there is no panic. *)
Definition stack_safe {A} (d : Z) (m : M stack A) (Q : A -> Prop) : Prop :=
  forall s, values_ok s ->
    match m s with
    | (Ok a, s') => values_ok s' /\ len s' <= len s + d /\ Q a
    | (Err _, s') => values_ok s' /\ len s' <= len s
    | (Panic, _) => False
    end.

Definition any {A} (_ : A) : Prop := True.

Lemma stack_ret {A} (a : A) (Q : A -> Prop) : Q a -> stack_safe 0 (mret a) Q.
Proof. intros HQ s Hs. cbn. split_and!; (done || lia). Qed.
Lemma stack_fail {A} d e (Q : A -> Prop) : stack_safe d (fail e) Q.
Proof. intros s Hs. cbn. split; (done || lia). Qed.
Lemma stack_bind {A B'} d d' d'' (m : M stack A) (k : A -> M stack B') Q Q' :
  stack_safe d m Q -> d <= 0 -> (forall a, Q a -> stack_safe d' (k a) Q') -> d + d' <= d'' -> stack_safe d'' (m ≫= k) Q'.
Proof.
  intros Hm Hd Hk Hd'' s Hs. specialize (Hm s Hs). unfold mbind, M_bind. destruct (m s) as [[a|e|] s1]; [|done..].
  destruct Hm as (Hs1 & Hl & Ha). specialize (Hk a Ha s1 Hs1). destruct (k a s1) as [[b|e|] s2]; [|split; [tauto|lia]|done].
  split_and!; [tauto|lia|tauto].
Qed.
Lemma stack_guard {A} d c e (k : unit -> M stack A) Q : (c = false -> stack_safe d (k tt) Q) -> stack_safe d (guard_err c e ≫= k) Q.
Proof. intros Hk s Hs. rewrite bind_guard. destruct c; [split; (done || lia)|by apply Hk]. Qed.

Lemma elem_at_ok s i : values_ok s -> 0 <= i < len s -> exists v, elem_at s i = Ok v /\ value_ok v.
Proof.
  intros Hs Hi. unfold elem_at. destruct (Z.ltb_spec i 0); [lia|]. unfold len in Hi.
  destruct (lookup_lt_is_Some_2 s (Z.to_nat i)) as [v Hv]; [lia|]. rewrite Hv. exists v. split; [done|]. by apply (Forall_lookup_1 _ _ _ _ Hs Hv).
Qed.
Lemma set_elem_ok s i v : values_ok s -> value_ok v -> 0 <= i < len s -> exists s', set_elem s i v = Ok s' /\ values_ok s' /\ len s' = len s.
Proof.
  intros Hs Hv Hi. unfold set_elem. destruct (Z.leb_spec 0 i); [|lia]. destruct (Z.ltb_spec i (len s)); [|lia]. eexists. split; [done|].
  split; [by apply Forall_insert|]. unfold len. by rewrite length_insert.
Qed.
Lemma cut_to_ok s n : values_ok s -> 0 <= n <= len s -> exists s', cut_to s n = Ok s' /\ values_ok s' /\ len s' = n.
Proof.
  intros Hs Hn. unfold cut_to. destruct (Z.leb_spec 0 n); [|lia]. destruct (Z.leb_spec n (len s)); [|lia]. eexists. split; [done|].
  split; [by apply Forall_take|]. unfold len in *. rewrite length_take. lia.
Qed.
Lemma cut_from_ok s n : values_ok s -> 0 <= n <= len s -> exists s', cut_from s n = Ok s' /\ values_ok s' /\ len s' = len s - n.
Proof.
  intros Hs Hn. unfold cut_from. destruct (Z.leb_spec 0 n); [|lia]. destruct (Z.leb_spec n (len s)); [|lia]. eexists. split; [done|].
  split; [by apply Forall_drop|]. unfold len in *. rewrite length_drop. lia.
Qed.

(** Follows the guards and slice expressions of a stack operation. *)
Ltac stk :=
  repeat (mrun;
    match goal with
    | |- context [if ?c then (Err _, _) else _] => destruct c eqn:?; [split_and!; (done || lia)|]
    | |- context [elem_at ?s ?i] => destruct (elem_at_ok s i) as (? & -> & ?); [done|lia|]
    | |- context [set_elem ?s ?i ?v] => destruct (set_elem_ok s i v) as (? & -> & ? & ?); [done|done|lia|]
    | |- context [cut_to ?s ?i] => destruct (cut_to_ok s i) as (? & -> & ? & ?); [done|lia|]
    | |- context [cut_from ?s ?i] => destruct (cut_from_ok s i) as (? & -> & ? & ?); [done|lia|]
    end); mrun.

Lemma len_snoc {A} (l : list A) x : len (l ++ [x]) = len l + 1.
Proof. rewrite len_app. reflexivity. Qed.

Lemma push_safe v : value_ok v -> stack_safe 1 (push v) any.
Proof. intros Hv s Hs. unfold push, modify. rewrite len_snoc. split_and!; [|lia|done]. apply Forall_app. split; [done|by constructor]. Qed.
Lemma PushAny_safe v : value_ok v -> stack_safe 1 (PushAny v) any.
Proof. intros Hv. by apply push_safe, share_ok. Qed.
Lemma PushBool_safe b : stack_safe 1 (PushBool b) any.
Proof. apply push_safe. unfold value_ok, int_ok, minTVMInt, maxTVMInt. destruct b; lia. Qed.
Lemma fits_ok x : fitsTVMInt x = true -> int_ok x.
Proof. unfold fitsTVMInt, int_ok. lia. Qed.
Lemma PushInt_safe x : stack_safe 1 (PushInt x) any.
Proof. apply stack_guard. intros Hx%negb_false_iff. by apply push_safe, fits_ok. Qed.
Lemma PushIntQuiet_safe x : stack_safe 1 (PushIntQuiet x) any.
Proof. unfold PushIntQuiet. destruct (fitsTVMInt x) eqn:Hx; [by apply push_safe, fits_ok|by apply PushAny_safe]. Qed.
Lemma PushSmallInt_safe x : stack_safe 1 (PushSmallInt x) any.
Proof.
  unfold PushSmallInt. destruct (_ && _) eqn:Hx; [|apply PushInt_safe]. apply push_safe. unfold value_ok, int_ok, minTVMInt, maxTVMInt. lia.
Qed.
Lemma PushContinuation_safe c : cont_ok c -> stack_safe 1 (PushContinuation c) any.
Proof. intros Hc. destruct c; first [by apply push_safe | by apply PushAny_safe]. Qed.
Lemma PushOwnedContinuation_safe c : cont_ok c -> stack_safe 1 (PushOwnedContinuation c) any.
Proof. intros Hc. apply push_safe. destruct c; by split. Qed.
Lemma PushMaybeCell_safe c : opt_ok cell_ok c -> stack_safe 1 (PushMaybeCell c) any.
Proof. intros Hc. destruct c; by apply PushAny_safe. Qed.
Lemma PushMaybeTuple_safe t : opt_ok values_ok t -> stack_safe 1 (PushMaybeTuple t) any.
Proof. intros Ht. destruct t; apply PushAny_safe; [by apply tuple_ok|done]. Qed.
Lemma PushOwnedValue_safe v : value_ok v -> stack_safe 1 (PushOwnedValue v) any.
Proof.
  intros Hv. destruct v as [| |x| | | | |c]; try by apply push_safe.
  - apply stack_guard. intros _. by apply push_safe.
  - destruct c; first [by apply push_safe | apply stack_fail].
Qed.

Lemma PushAt_safe i : stack_safe 1 (PushAt i) any.
Proof. intros s Hs. unfold PushAt, index_top. stk. by apply PushAny_safe. Qed.
Lemma Get_safe i : stack_safe 0 (Get i) value_ok.
Proof. intros s Hs. unfold Get, index_top. stk. split_and!; (done || lia). Qed.
Lemma Drop_safe n : stack_safe 0 (Drop n) any.
Proof. intros s Hs. unfold Drop, uint_gt. pose proof (len_nonneg s). stk. split_and!; (done || lia). Qed.
Lemma DropMany_safe n o : stack_safe 0 (DropMany n o) any.
Proof.
  intros s Hs. unfold DropMany, uint_gt. pose proof (len_nonneg s). stk. destruct (_ =? _); [split_and!; (done || lia)|].
  cbv zeta. stk. split_and!; [by apply Forall_app|rewrite len_app; lia|done].
Qed.
Lemma DropAfter_safe n : stack_safe 0 (DropAfter n) any.
Proof. intros s Hs. unfold DropAfter, uint_gt. pose proof (len_nonneg s). stk. split_and!; (done || lia). Qed.
Lemma Clear_safe : stack_safe 0 Clear any.
Proof. intros s Hs. pose proof (len_nonneg s). cbn. split_and!; [constructor|change (len []) with 0; lia|done]. Qed.

Lemma PopAny_safe : stack_safe (-1) PopAny value_ok.
Proof. intros s Hs. unfold PopAny. pose proof (len_nonneg s). stk. split_and!; (done || lia). Qed.
Lemma PopSwapAt_safe i : stack_safe (-1) (PopSwapAt i) any.
Proof. intros s Hs. unfold PopSwapAt, index_top. stk. split_and!; (done || lia). Qed.

(** A pop that looks at the value. *)
Lemma pop_safe {A} (k : value -> M stack A) Q : (forall v, value_ok v -> stack_safe 0 (k v) Q) -> stack_safe (-1) (PopAny ≫= k) Q.
Proof. intros Hk. eapply stack_bind; [apply PopAny_safe|lia|done|lia]. Qed.

Ltac pop := apply pop_safe; intros [| |?|[?|]|[?|]|[?|]|[?|]|?] ?; try apply stack_fail; try (apply stack_ret; done).

Lemma PopInt_safe : stack_safe (-1) PopInt (opt_ok int_ok).
Proof. pop. Qed.
Lemma PopIntFinite_safe : stack_safe (-1) PopIntFinite int_ok.
Proof. eapply stack_bind; [apply PopInt_safe|lia|intros [x|] Hx|]; [by apply stack_ret|by apply (stack_fail 0)|lia]. Qed.
Lemma PopBool_safe : stack_safe (-1) PopBool any.
Proof. pop. Qed.
Lemma PopIntRange_safe min max : stack_safe (-1) (PopIntRange min max) (fun x => min <= x <= max).
Proof. pop. apply stack_guard. intros _. apply stack_guard. intros ?. apply stack_ret. lia. Qed.
Lemma PopCell_safe : stack_safe (-1) PopCell cell_ok.
Proof. pop. Qed.
Lemma PopMaybeCell_safe : stack_safe (-1) PopMaybeCell (opt_ok cell_ok).
Proof. pop. Qed.
Lemma PopContinuation_safe : stack_safe (-1) PopContinuation (fun c => c <> CNil /\ cont_ok c).
Proof. pop. destruct c; first [by apply stack_ret | apply stack_fail]. Qed.
Lemma PopBuilder_safe : stack_safe (-1) PopBuilder builder_ok.
Proof. pop. Qed.
Lemma PopSlice_safe : stack_safe (-1) PopSlice slice_ok.
Proof. pop. Qed.
Lemma PopTuple_safe : stack_safe (-1) PopTuple values_ok.
Proof. pop. by apply stack_ret, tuple_ok. Qed.
Lemma PopTupleRange_safe max min : 0 <= max -> stack_safe (-1) (PopTupleRange max min) (fun t => values_ok t /\ min <= len t <= max).
Proof. intros Hmax. pop. apply stack_guard. intros ?. apply stack_ret. split; [by apply tuple_ok|lia]. Qed.
Lemma PopMaybeTupleRange_safe max : 0 <= max -> stack_safe (-1) (PopMaybeTupleRange max) (opt_ok (fun t => values_ok t /\ len t <= max)).
Proof. intros Hmax. pop. apply stack_guard. intros ?. apply stack_ret. split; [by apply tuple_ok|lia]. Qed.

Lemma Exchange_safe a b : stack_safe 0 (Exchange a b) any.
Proof. intros s Hs. unfold Exchange, index_top. stk. cbv zeta. stk. split_and!; (done || lia). Qed.
Lemma FromTop_safe o : stack_safe 0 (FromTop o) any.
Proof. intros s Hs. unfold FromTop. stk. split_and!; (done || lia). Qed.

Lemma reverseLoop_safe fuel s l r :
  values_ok s -> 0 <= l -> r < len s -> r - l <= Z.of_nat fuel -> exists s', reverseLoop fuel s l r = Ok s' /\ values_ok s' /\ len s' = len s.
Proof.
  revert s l r. induction fuel as [|fuel IH]; intros s l r Hs Hl Hr Hf; cbn [reverseLoop]; destruct (Z.ltb_spec l r); [lia|by eexists| |by eexists].
  destruct (elem_at_ok s l) as (vl & -> & ?); [done|lia|]. destruct (elem_at_ok s r) as (vr & -> & ?); [done|lia|]. cbn.
  destruct (set_elem_ok s l vr) as (s1 & -> & ? & ?); [done|done|lia|]. cbn.
  destruct (set_elem_ok s1 r vl) as (s2 & -> & ? & ?); [done|done|lia|]. cbn.
  destruct (IH s2 (l + 1) (r - 1)) as (s3 & -> & ? & ?); [done|lia..|]. exists s3. split_and!; (done || lia).
Qed.
Lemma Reverse_safe f t : stack_safe 0 (Reverse f t) any.
Proof.
  intros s Hs. unfold Reverse. mrun. cbv zeta. stk.
  destruct (reverseLoop_safe (length s) s (len s - f) (len s - t - 1)) as (s' & -> & ? & ?); [done|lia|lia|unfold len in *; lia|].
  mrun. split_and!; (done || lia).
Qed.
Lemma Rotate_safe f t : stack_safe 0 (Rotate f t) any.
Proof.
  intros s Hs. unfold Rotate. mrun. cbv zeta. mrun. destruct (_ || _); [split; (done || lia)|].
  refine (stack_bind 0 0 0 _ _ _ _ (Reverse_safe _ _) _ _ _ s Hs); [lia|intros _ _|lia].
  refine (stack_bind 0 0 0 _ _ _ _ (Reverse_safe _ _) _ _ _); [lia|intros _ _; apply Reverse_safe|lia].
Qed.

(** What a split takes and what it leaves. *)
Lemma MoveFrom_safe num s from :
  values_ok s -> values_ok from ->
  match MoveFrom num (s, from) with
  | (Ok _, (new, rest)) => values_ok new /\ values_ok rest /\ 0 <= num /\ len new = len s + num /\ len rest = len from - num
  | (Err _, (new, rest)) => (num < 0 \/ len from < num) /\ values_ok rest /\ len rest <= len from
  | (Panic, _) => False
  end.
Proof.
  intros Hs Hf. unfold MoveFrom. mrun. destruct (_ || _) eqn:Hg; [split_and!; [lia|done|lia]|].
  cbv zeta. stk. split_and!; [by apply Forall_app|done|lia|rewrite len_app; lia|lia].
Qed.
Lemma SplitTop_safe top drop : stack_safe 0 (SplitTop top drop) (fun ns => values_ok ns /\ len ns = top).
Proof.
  intros s Hs. unfold SplitTop. mrun. cbv zeta. mrun. destruct (_ || _) eqn:Hg; [split; (done || lia)|].
  destruct (Z.eqb_spec top 0) as [->|Htop]; cbn [negb].
  - mrun. destruct (negb _); mrun.
    + pose proof (Drop_safe drop s Hs) as Hd. unfold mbind, M_bind. destruct (Drop drop s) as [[[]|e|] s1]; [|done..]. split_and!; [tauto|lia|constructor|done].
    + split_and!; [done|lia|constructor|done].
  - pose proof (MoveFrom_safe top [] s ltac:(constructor) Hs) as Hm. unfold mbind, M_bind at 1. destruct (MoveFrom top ([], s)) as [[[]|e|] [new rest]]; [|split; [tauto|lia]|done].
    destruct Hm as (Hn & Hr & ? & Hl & Hlr). change (len []) with 0 in Hl. cbn. destruct (negb _); cbn.
    + pose proof (Drop_safe drop rest Hr) as Hd. unfold M_bind. destruct (Drop drop rest) as [[[]|e|] s1]; [|split; [tauto|lia]|done]. split_and!; [tauto|lia|done|lia].
    + split_and!; [done|lia|done|lia].
Qed.
End values.

(** ** Slices *)

(** Run on a sound slice, [m] leaves a sound slice and gives a result in [Q]. *)
Definition slice_safe {A} (m : M Slice A) (Q : A -> Prop) : Prop :=
  forall s, slice_ok s ->
    match m s with
    | (Ok a, s') => slice_ok s' /\ Q a
    | (Err _, s') => slice_ok s'
    | (Panic, _) => False
    end.

Lemma slice_weaken {A} (m : M Slice A) (Q Q' : A -> Prop) : (forall a, Q a -> Q' a) -> slice_safe m Q -> slice_safe m Q'.
Proof. intros HQ Hm s Hs. specialize (Hm s Hs). destruct (m s) as [[a|e|] s']; [|done..]. split; [tauto|]. now apply HQ. Qed.
Lemma slice_ret {A} (a : A) (Q : A -> Prop) : Q a -> slice_safe (mret a) Q.
Proof. intros HQ s Hs. by split. Qed.
Lemma slice_fail {A} e (Q : A -> Prop) : slice_safe (fail e) Q.
Proof. by intros s Hs. Qed.
Lemma slice_bind {A B'} (m : M Slice A) (k : A -> M Slice B') Q Q' :
  slice_safe m Q -> (forall a, Q a -> slice_safe (k a) Q') -> slice_safe (m ≫= k) Q'.
Proof.
  intros Hm Hk s Hs. specialize (Hm s Hs). unfold mbind, M_bind. destruct (m s) as [[a|e|] s1]; [|done..].
  destruct Hm as [Hs1 Ha]. exact (Hk a Ha s1 Hs1).
Qed.
Lemma slice_guard {A} c e (k : unit -> M Slice A) Q : (c = false -> slice_safe (k tt) Q) -> slice_safe (guard_err c e ≫= k) Q.
Proof. intros Hk s Hs. rewrite bind_guard. destruct c; [done|by apply Hk]. Qed.
Lemma slice_attempt {A B'} (m : M Slice A) (ok : A -> M Slice B') bad Q Q' :
  slice_safe m Q -> (forall a, Q a -> slice_safe (ok a) Q') -> (forall e, slice_safe (bad e) Q') -> slice_safe (attempt m ok bad) Q'.
Proof.
  intros Hm Hk Hb s Hs. specialize (Hm s Hs). unfold attempt. destruct (m s) as [[a|e|] s1]; [|by apply Hb|done].
  destruct Hm as [Hs1 Ha]. by apply Hk.
Qed.
Lemma slice_with_error {A} e (m : M Slice A) Q : slice_safe m Q -> slice_safe (with_error e m) Q.
Proof. intros Hm. eapply slice_attempt; [exact Hm|intros a Ha; by apply slice_ret|intros ?; apply slice_fail]. Qed.

(** Another window of the same cell. *)
Lemma slice_window s s' : slice_ok s -> s_cell s' = s_cell s -> swf s' -> slice_ok s'.
Proof. intros [_ Hr] Hc Hs. split; [done|]. by rewrite Hc. Qed.

Lemma slice_skip s n : slice_ok s -> 0 <= n <= BitsLeft s -> slice_ok (skip s n).
Proof. intros Hs Hn. apply (slice_window s); [done..|]. destruct Hs. by apply swf_skip. Qed.

Lemma SkipBits_safe n : 0 <= n -> slice_safe (SkipBits n) any.
Proof.
  intros Hn s Hs. rewrite SkipBits_run by (apply Hs || done). destruct (Z.ltb_spec (BitsLeft s) n); [done|]. split; [|done].
  apply slice_skip; [done|lia].
Qed.

Lemma read_fit_safe s sz v : slice_ok s -> 0 <= sz -> (fun r : outcome Z * Slice => match r with (Ok _, s') => slice_ok s' /\ True | (Err _, s') => slice_ok s' | (Panic, _) => False end) (read_fit s sz v).
Proof. intros Hs Hsz. unfold read_fit. destruct (Z.ltb_spec (BitsLeft s) sz); [done|]. split; [|done]. apply slice_skip; [done|lia]. Qed.

Lemma LoadUInt_safe sz : 0 <= sz <= 64 -> slice_safe (LoadUInt sz) (fun x => 0 <= x < 2 ^ sz).
Proof.
  intros Hsz s Hs. unfold LoadUInt. destruct (Z.leb_spec sz 64); [|lia]. rewrite loadUintFast_run by (apply Hs || done).
  destruct (Z.ltb_spec (BitsLeft s) sz); [done|]. split; [apply slice_skip; [done|lia]|]. apply window_value_bound. lia.
Qed.

Lemma LoadBigInt_safe sz : 0 <= sz -> slice_safe (LoadBigInt sz) any.
Proof.
  intros Hsz s Hs. rewrite LoadBigInt_run by (apply Hs || done). destruct (Z.ltb_spec 257 sz); [done|]. by apply read_fit_safe.
Qed.

Lemma loadSlice_safe sz : 0 <= sz -> slice_safe (loadSlice sz false) bytes_ok.
Proof.
  intros Hsz s Hs. rewrite loadSlice_run by (apply Hs || done). destruct (Z.ltb_spec (BitsLeft s) sz); [done|].
  split; [apply slice_skip; [done|lia]|apply bytes_ok_pack].
Qed.

Lemma LoadBoolBit_safe : slice_safe LoadBoolBit any.
Proof.
  intros s Hs. rewrite LoadBoolBit_run by apply Hs. destruct (Z.eqb_spec (BitsLeft s) 0); [done|]. split; [|done].
  apply slice_skip; [done|]. unfold BitsLeft, u16 in *. lia.
Qed.

Lemma srefs_ok s : slice_ok s -> Forall cell_ok (srefs s).
Proof. intros [_ Hr]. unfold srefs. by apply Forall_take, Forall_drop. Qed.

Lemma peekRefCellAt_safe i : slice_safe (peekRefCellAt i) cell_ok.
Proof.
  intros s Hs. rewrite peekRefCellAt_run by apply Hs. destruct (_ <? 0); [done|]. destruct (srefs s !! Z.to_nat i) as [c|] eqn:Hc; [|done].
  split; [done|]. exact (Forall_lookup_1 _ _ _ _ (srefs_ok s Hs) Hc).
Qed.

Lemma SkipBitsAndRefs_safe n k : 0 <= n -> slice_safe (SkipBitsAndRefs n k) any.
Proof.
  intros Hn s Hs. pose proof Hs as [[Hby Hbi He Hd Hr Hre] _]. pose proof (BitsLeft_eq s (proj1 Hs)) as Hl. pose proof (RefsNum_eq s (proj1 Hs)) as Hrn.
  unfold SkipBitsAndRefs. mrun. destruct (_ || _) eqn:Hg; [done|]. mrun. destruct (Z.ltb_spec (BitsLeft s) n); [done|].
  unfold advance. mrun. split; [|done]. apply (slice_window s); [done..|].
  split; unfold s_data, with_refStart, with_bitStart, u16, u8 in *; cbn; try done; lia.
Qed.

Lemma FetchSubslice_safe n k : 0 <= n -> slice_safe (FetchSubslice n k) slice_ok.
Proof.
  intros Hn s Hs. pose proof Hs as [[Hby Hbi He Hd Hr Hre] _]. pose proof (BitsLeft_eq s (proj1 Hs)) as Hl. pose proof (RefsNum_eq s (proj1 Hs)) as Hrn.
  unfold FetchSubslice, PreloadSubslice, mbind, M_bind, get_state. rewrite run_guard. destruct (_ || _) eqn:Hg; [done|].
  rewrite run_guard. destruct (Z.ltb_spec (BitsLeft s) n); [done|]. cbn.
  split; (apply (slice_window s); [done..|]); split; unfold s_data, u16, u8 in *; cbn; try done; lia.
Qed.

Lemma RemoveTrailing_safe s : slice_ok s -> exists n s', RemoveTrailing s = Ok (n, s') /\ slice_ok s'.
Proof.
  intros Hs. pose proof Hs as [[Hby Hbi He Hd Hr Hre] _]. pose proof (BitsLeft_eq s (proj1 Hs)) as Hl. unfold RemoveTrailing.
  destruct (Z.eqb_spec (BitsLeft s) 0); [by eexists _, _|]. rewrite (CountTrailing_run s false (proj1 Hs)). cbn [mbind outcome_bind].
  pose proof (lcp_bounds (rev (sbits s)) (replicate (length (sbits s)) false)) as Hlcp.
  assert (Hll : len (rev (sbits s)) = BitsLeft s) by (rewrite <-(len_sbits s (proj1 Hs)); unfold len; by rewrite length_rev).
  destruct (Z.leb_spec (BitsLeft s) (lcp (rev (sbits s)) (replicate (length (sbits s)) false))); eexists _, _; (split; [reflexivity|]);
    (apply (slice_window s); [done..|]; split; unfold s_data, u16 in *; cbn; try done; lia).
Qed.

Lemma PeekZeroPaddedOpcode_safe bits : slice_safe (PeekZeroPaddedOpcode bits) any.
Proof.
  intros s Hs. unfold PeekZeroPaddedOpcode. rewrite bind_get. cbv zeta. destruct (_ =? 0); [by split|].
  pose proof Hs as [Hw _]. pose proof (BitsLeft_eq s Hw). pose proof (swf_bits _ Hw).
  unfold attempt. rewrite LoadUInt_run by (done || lia). repeat (destruct (_ <? _); [done|]). destruct (_ <=? _); [done|].
  pose proof (read_fit_safe s (BitsLeft s) bits_uint Hs ltac:(lia)) as Hr. cbn in Hr. destruct (read_fit _ _ _) as [[a|e|] s']; done.
Qed.
