(* ===== verification/Safe.v ===== *)
(** * Computations that are safe

    A computation of the machine is safe when, from a sound state, it does not panic,
    leaves a sound state unless it runs out of gas, and pays for what it pushes.
    [Sound] says what the data of a sound state are; the payment is a credit: a state
    with credit [n] may hold [n] more values, an instruction earns credit with every
    unit of gas it is charged, a push costs one and a pop earns one.  The logic is
    closed under the monad and is stated for the versions from 4 on; [safe] does the
    work with the hints of the database [safe]. *)

From S2P Require Import Prelude Bytes CellModel Builder BuilderSpec BuilderOps Slice SliceSpec SliceCompare Finalize CellHash CellTheorems.
From S2P Require Import DictLabel DictLabelTheorems DictNode DictNodeSpec Dict CellDataTheorems Gas Value Stack VmState Exec ExecSpec CellLoad GasLaw Encoding Sound.
From stdpp Require Import gmap.
#[local] Open Scope Z_scope.

Create HintDb safe.

(** ** Dictionary lookups on any sound cells *)

Lemma unaryLoop_safe fuel ln c :
  0 <= ln -> 1 <= c <= 64 -> forall s, slice_ok s -> BitsLeft s <= Z.of_nat fuel ->
  match unaryLoop fuel ln c s with (Ok n, s') => slice_ok s' /\ 0 <= n | (Err _, s') => slice_ok s' | (Panic, _) => False end.
Proof.
  revert ln c. induction fuel as [|fuel IH]; intros ln c Hln Hc s Hs Hf; cbn [unaryLoop]; rewrite bind_get; cbv zeta; rewrite bind_guard;
    pose proof (BitsLeft_eq s (proj1 Hs)) as Hl; pose proof (swf_bits _ (proj1 Hs)); destruct (Z.eqb_spec (Z.min c (BitsLeft s)) 0); try done; [lia|].
  set (chunk := Z.min c (BitsLeft s)) in *. assert (1 <= chunk <= 64) by lia.
  erewrite bind_Ok; [|rewrite loadUintFast_run by (apply Hs || lia); destruct (Z.ltb_spec (BitsLeft s) chunk); [lia|reflexivity]].
  set (v := bits_uint _). set (ones := leading_zeros64 _).
  assert (0 <= ones).
  { subst ones. unfold leading_zeros64. set (x := 2 ^ 64 - 1 - u64 (v ≪ (64 - chunk))).
    assert (0 <= x < 2 ^ 64) by (subst x; unfold u64; lia). pose proof (proj2 (bit_len_le x 64 ltac:(lia) ltac:(lia)) ltac:(lia)). lia. }
  destruct (Z.ltb_spec ones chunk).
  - rewrite (bind_Ok _ _ _ _ _ (SkipBits_ok s (ones + 1) (proj1 Hs) ltac:(lia))). split; [apply slice_skip; [done|lia]|lia].
  - rewrite (bind_Ok _ _ _ _ _ (SkipBits_ok s chunk (proj1 Hs) ltac:(lia))). apply IH; [lia..|apply slice_skip; [done|lia]|].
    rewrite (BitsLeft_eq (skip s chunk)) by (apply slice_skip; [done|lia]). unfold skip, with_bitStart. cbn. lia.
Qed.

Lemma loadUnaryLength_safe : slice_safe loadUnaryLength (fun n => 0 <= n).
Proof.
  unfold loadUnaryLength. eapply slice_bind; [apply LoadUInt_safe; lia|]. intros first Hf. destruct (first =? 0); [by apply slice_ret|].
  intros s Hs. rewrite bind_get. apply unaryLoop_safe; [lia|lia|done|]. pose proof (BitsLeft_eq s (proj1 Hs)). pose proof (swf_bits _ (proj1 Hs)). lia.
Qed.

(** What is left of a node and a key after a computation on both. *)
Definition pair_safe {A} (m : M (Slice * Slice) A) (Q : A -> Prop) : Prop :=
  forall s t, slice_ok s -> slice_ok t ->
    match m (s, t) with
    | (Ok a, (s', t')) => slice_ok s' /\ slice_ok t' /\ BitsLeft t' <= BitsLeft t /\ Q a
    | (Err _, _) => True
    | (Panic, _) => False
    end.

Lemma pair_bind {A B} (m : M (Slice * Slice) A) (k : A -> M (Slice * Slice) B) Q Q' :
  pair_safe m Q -> (forall a, Q a -> pair_safe (k a) Q') -> pair_safe (m ≫= k) Q'.
Proof.
  intros Hm Hk s t Hs Ht. specialize (Hm s t Hs Ht). unfold mbind, M_bind. destruct (m (s, t)) as [[a|e|] [s1 t1]]; [|done..].
  destruct Hm as (Hs1 & Ht1 & Hl & Ha). specialize (Hk a Ha s1 t1 Hs1 Ht1). destruct (k a (s1, t1)) as [[b|e|] [s2 t2]]; [|done..].
  split_and!; [tauto|tauto|lia|tauto].
Qed.
Lemma pair_guard {A} c e (k : unit -> M (Slice * Slice) A) Q : (c = false -> pair_safe (k tt) Q) -> pair_safe (guard_err c e ≫= k) Q.
Proof. intros Hk s t Hs Ht. rewrite bind_guard. destruct c; [done|by apply Hk]. Qed.
Lemma pair_ret {A} (a : A) (Q : A -> Prop) : Q a -> pair_safe (mret a) Q.
Proof. intros HQ s t Hs Ht. cbn. split_and!; (done || lia). Qed.
Lemma pair_fst {A} (m : M Slice A) Q : slice_safe m Q -> pair_safe (on_fst m) Q.
Proof. intros Hm s t Hs Ht. specialize (Hm s Hs). unfold on_fst. cbn [fst snd]. destruct (m s) as [[a|e|] s1]; [|done..]. split_and!; [tauto|done|lia|tauto]. Qed.

Lemma skip_shorter s n : slice_ok s -> 0 <= n <= BitsLeft s -> slice_ok (skip s n) /\ BitsLeft (skip s n) <= BitsLeft s.
Proof.
  intros Hs Hn. pose proof (slice_skip s n Hs Hn) as Hk. split; [done|]. rewrite (BitsLeft_eq _ (proj1 Hk)), (BitsLeft_eq _ (proj1 Hs)).
  unfold skip, with_bitStart. cbn. lia.
Qed.

Lemma consumeCommonPrefix_safe n s t :
  slice_ok s -> slice_ok t -> 0 <= n <= BitsLeft s ->
  match consumeCommonPrefix n (s, t) with
  | (Ok _, (s', t')) => slice_ok s' /\ slice_ok t' /\ BitsLeft t' <= BitsLeft t
  | (Err _, _) => True
  | (Panic, _) => False
  end.
Proof.
  intros Hs Ht Hn. pose proof (len_sbits s (proj1 Hs)) as Hl. set (l := take (Z.to_nat n) (sbits s)).
  assert (Hln : len l = n) by (subst l; unfold len in *; rewrite length_take; lia). rewrite <-Hln.
  rewrite (consumeCommonPrefix_ok s t l (drop (Z.to_nat n) (sbits s)) (proj1 Hs) (proj1 Ht)) by (subst l; by rewrite take_drop).
  pose proof (consumed_bounds l (sbits t)) as Hb. rewrite (len_sbits t (proj1 Ht)) in Hb.
  split; [apply slice_skip; [done|lia]|]. apply skip_shorter; [done|lia].
Qed.

Lemma consumeSameBitPrefix_safe b n t :
  slice_ok t -> 0 <= b < 2 -> 0 <= n -> exists m t', consumeSameBitPrefix b n t = (Ok m, t') /\ slice_ok t' /\ BitsLeft t' <= BitsLeft t.
Proof.
  intros Ht Hb Hn. replace b with (Z.b2z (b =? 1)) by (destruct (Z.eqb_spec b 1); cbn; lia).
  rewrite (consumeSameBitPrefix_ok t (b =? 1) n (proj1 Ht) Hn). eexists _, _. split; [done|].
  pose proof (consumed_bounds (replicate (Z.to_nat n) (b =? 1)) (sbits t)) as Hc. rewrite (len_sbits t (proj1 Ht)) in Hc. apply skip_shorter; [done|lia].
Qed.

Lemma label_bits_ok k : 0 <= k < 2 ^ 32 -> 0 <= dictLabelSizeBits k <= 64.
Proof. intros Hk. unfold dictLabelSizeBits. pose proof (bit_len_nonneg k). pose proof (proj2 (bit_len_le k 32 ltac:(lia) ltac:(lia)) ltac:(lia)). lia. Qed.

Lemma inline_label_safe (ln : Z) :
  0 <= ln ->
  pair_safe (p ← get_state; guard_err (BitsLeft (fst p) <? ln) (ErrNotEnoughData (BitsLeft (fst p)) ln) ;; matched ← consumeCommonPrefix ln; mret (ln, matched)) any.
Proof.
  intros Hln s t Hs Ht. rewrite bind_get. cbn [fst]. rewrite bind_guard. destruct (Z.ltb_spec (BitsLeft s) ln); [done|].
  pose proof (consumeCommonPrefix_safe ln s t Hs Ht ltac:(lia)) as Hc. unfold mbind, M_bind.
  destruct (consumeCommonPrefix ln (s, t)) as [[m|e|] [s' t']]; [|done..]. destruct Hc as (? & ? & ?). by split_and!.
Qed.

Lemma matchLabelPrefix_safe k : 0 <= k < 2 ^ 32 -> pair_safe (matchLabelPrefix k) any.
Proof.
  intros Hk. pose proof (label_bits_ok k Hk). unfold matchLabelPrefix. eapply pair_bind; [apply pair_fst, LoadUInt_safe; lia|intros first _].
  destruct (first =? 0).
  - eapply pair_bind; [apply pair_fst, loadUnaryLength_safe|intros ln Hln]. apply pair_guard. intros _. by apply inline_label_safe.
  - eapply pair_bind; [apply pair_fst, LoadUInt_safe; lia|intros second _]. cbv zeta. destruct (second =? 0).
    + eapply pair_bind; [apply pair_fst, LoadUInt_safe; lia|intros ln [Hln _]]. apply pair_guard. intros _. apply inline_label_safe. lia.
    + eapply pair_bind; [apply pair_fst, LoadUInt_safe; lia|intros b [Hb Hb2]]. eapply pair_bind; [apply pair_fst, LoadUInt_safe; lia|intros ln [Hln _]].
      apply pair_guard. intros _ s t Hs Ht. destruct (consumeSameBitPrefix_safe b ln t Ht (conj Hb Hb2) Hln) as (m & t' & Hc & ? & ?).
      unfold mbind, M_bind, on_snd. cbn [fst snd]. rewrite Hc. done.
Qed.

Lemma labelDataView_safe ln : 0 <= ln -> slice_safe (labelDataView ln) any.
Proof.
  intros Hln s Hs. unfold labelDataView. rewrite bind_get, bind_guard. destruct (Z.ltb_spec (BitsLeft s) ln); [done|]. cbv zeta.
  rewrite (bind_Ok _ _ _ _ _ (SkipBits_ok s ln (proj1 Hs) ltac:(lia))). split; [apply slice_skip; [done|lia]|done].
Qed.

Lemma readLabelView_safe k : 0 <= k < 2 ^ 32 -> slice_safe (readLabelView k) any.
Proof.
  intros Hk. pose proof (label_bits_ok k Hk). unfold readLabelView. eapply slice_bind; [apply LoadUInt_safe; lia|intros first _]. destruct (first =? 0).
  - eapply slice_bind; [apply loadUnaryLength_safe|intros ln Hln]. apply slice_guard. intros _. by apply labelDataView_safe.
  - eapply slice_bind; [apply LoadUInt_safe; lia|intros second _]. cbv zeta. destruct (second =? 0).
    + eapply slice_bind; [apply LoadUInt_safe; lia|intros ln [Hln _]]. apply slice_guard. intros _. by apply labelDataView_safe.
    + eapply slice_bind; [apply LoadUInt_safe; lia|intros b Hb]. eapply slice_bind; [apply LoadUInt_safe; lia|intros ln Hln].
      apply slice_guard. intros _. by apply slice_ret.
Qed.

(** An outcome that is not a panic, with its result in [Q]. *)
Definition outcome_safe {A} (o : outcome A) (Q : A -> Prop) : Prop := match o with Ok a => Q a | Err _ => True | Panic => False end.

Lemma outcome_bind_safe {A B} (o : outcome A) (k : A -> outcome B) Q Q' :
  outcome_safe o Q -> (forall a, Q a -> outcome_safe (k a) Q') -> outcome_safe (o ≫= k) Q'.
Proof. destruct o as [a|e|]; cbn; auto. Qed.

Lemma run_slice_safe {A} (m : M Slice A) Q s : slice_safe m Q -> slice_ok s -> outcome_safe (run m s) (fun p => Q (fst p) /\ slice_ok (snd p)).
Proof. intros Hm Hs. specialize (Hm s Hs). unfold run. destruct (m s) as [[a|e|] s']; cbn; [tauto|done..]. Qed.

Lemma run_pair_safe {A} (m : M (Slice * Slice) A) Q s t :
  pair_safe m Q -> slice_ok s -> slice_ok t -> outcome_safe (run m (s, t)) (fun p => slice_ok (fst (snd p)) /\ slice_ok (snd (snd p)) /\ BitsLeft (snd (snd p)) <= BitsLeft t).
Proof. intros Hm Hs Ht. specialize (Hm s t Hs Ht). unfold run. destruct (m (s, t)) as [[a|e|] [s' t']]; cbn; [tauto|done..]. Qed.

Lemma findKey_safe fuel branch key :
  cell_ok branch -> slice_ok key -> BitsLeft key <= Z.of_nat fuel -> outcome_safe (findKey fuel branch key unmeteredLibraryDictResolver false) slice_ok.
Proof.
  revert branch key. induction fuel as [|fuel IH]; intros branch key Hb Hk Hf; cbn [findKey]; unfold resolveDictNodeCell; destruct (c_special branch); cbn [negb];
    try exact I; cbn [mbind outcome_bind]; cbv zeta; pose proof (BitsLeft_eq key (proj1 Hk)) as Hl; pose proof (swf_bits _ (proj1 Hk)); pose proof (swf_end _ (proj1 Hk));
    pose proof (run_pair_safe _ _ _ _ (matchLabelPrefix_safe (BitsLeft key) ltac:(lia)) (slice_ok_new _ Hb) Hk) as Hm;
    destruct (run (matchLabelPrefix (BitsLeft key)) (newSliceFromCell branch, key)) as [[[sz matched] [s t]]|e|]; try exact I; try done;
    cbn [mbind outcome_bind]; destruct Hm as (Hs & Ht & Hle); cbn [fst snd] in Hs, Ht, Hle.
  all: destruct (negb (matched =? sz)).
  1, 3: destruct (sz <? BitsLeft key); [|done];
    pose proof (run_slice_safe _ _ _ (readLabelView_safe (BitsLeft key) ltac:(lia)) (slice_ok_new _ Hb)) as Hr;
    destruct (run (readLabelView (BitsLeft key)) (newSliceFromCell branch)) as [[[[? ?] ?] check]|e|]; [|done..]; cbn [mbind outcome_bind]; by destruct (_ && _).
  all: destruct (BitsLeft key =? sz); [exact Hs|]; destruct ((negb _ || negb _) && _); [exact I|].
  - pose proof (BitsLeft_eq t (proj1 Ht)). pose proof (swf_bits _ (proj1 Ht)). unfold run. rewrite LoadUInt_run by (apply Ht || lia).
    change (256 <? 1) with false. cbv iota. destruct (Z.ltb_spec (BitsLeft t) 1); [exact I|lia].
  - unfold run. rewrite LoadUInt_run by (apply Ht || lia). change (256 <? 1) with false. cbv iota. destruct (Z.ltb_spec (BitsLeft t) 1); [exact I|].
    destruct (_ <=? _); [exact I|]. unfold read_fit. destruct (Z.ltb_spec (BitsLeft t) 1); [lia|]. cbn [mbind outcome_bind fst].
    set (idx := bits_uint _). pose proof (peekRefCellAt_safe idx s Hs) as Hp. destruct (peekRefCellAt idx s) as [[next|e|] s']; try done. cbn [fst mbind outcome_bind].
    destruct (slice_skip t 1 Ht ltac:(lia)) as [Hw Hc]. apply IH; [apply Hp|by split|]. rewrite (BitsLeft_eq _ Hw). pose proof (BitsLeft_eq t (proj1 Ht)).
    unfold skip, with_bitStart. cbn. lia.
Qed.

(** ** Sound states *)

Definition libs_ok (lb : LibraryState) : Prop := Forall (opt_ok cell_ok) (lb_Libraries lb) /\ map_Forall (fun _ c => cell_ok c) (lb_cache lb).

Section safe.
(** A stack holds at most [K] values more than the gas used; [B] bounds every captured
    stack. *)
Context (K B : Z).

Abbreviation value_ok := (value_ok B).
Abbreviation values_ok := (values_ok B).
Abbreviation cont_ok := (cont_ok B).
Abbreviation data_ok := (data_ok B).
Abbreviation reg_ok := (reg_ok B).

(** The registers [c0] to [c3] are never nil. *)
Definition live (r : register) : Prop := reg_ok r /\ forall i, r_C r i <> CNil.

(** A sound state with credit for [n] more values. *)
Record good (n : Z) (st : State) : Prop := {
  gd_gas : gas_ok st;
  gd_room : len (st_Stack st) + n <= K + used st;
  gd_cap : K + g_Base (st_Gas st) <= B;
  gd_code : slice_ok (st_CurrentCode st);
  gd_stack : values_ok (st_Stack st);
  gd_regs : live (st_Reg st);
  gd_libs : libs_ok (st_Libs st)
}.

(** How a safe computation ends; out of gas nothing is claimed of the state. *)
Definition ends {A} (r : outcome A * State) (n : Z) (Q : A -> Prop) : Prop :=
  match r with
  | (Ok a, st') => good n st' /\ Q a
  | (Err e, st') => e = OutOfGas \/ good 0 st'
  | (Panic, _) => False
  end.
Definition safe_at {A} (st : State) (m : M State A) (n : Z) (Q : A -> Prop) : Prop := ends (m st) n Q.

(** From credit [n], [m] leaves credit [n'] and a result in [Q]. *)
Definition safe {A} (n : Z) (m : M State A) (n' : Z) (Q : A -> Prop) : Prop := forall st, good n st -> safe_at st m n' Q.

Lemma good_le n n' st : good n st -> n' <= n -> good n' st.
Proof. intros [? ? ? ? ? ? ?] Hn. split; (done || lia). Qed.

Lemma ends_weaken {A} (r : outcome A * State) n n' (Q Q' : A -> Prop) : ends r n Q -> n' <= n -> (forall a, Q a -> Q' a) -> ends r n' Q'.
Proof. destruct r as [[a|e|] st']; cbn; [|done..]. intros [Hg Ha] Hn HQ. split; [exact (good_le _ _ _ Hg Hn)|auto]. Qed.

Lemma safe_weaken {A} n n' m1 m2 (m : M State A) (Q Q' : A -> Prop) : safe n m m1 Q -> n <= n' -> m2 <= m1 -> (forall a, Q a -> Q' a) -> safe n' m m2 Q'.
Proof. intros Hm Hn Hm' HQ st Hst. eapply ends_weaken; [apply Hm, (good_le _ _ _ Hst Hn)|done..]. Qed.

(** *** The monad *)

Lemma safe_ret {A} n st (a : A) (Q : A -> Prop) : good n st -> Q a -> safe_at st (mret a) n Q.
Proof. by split. Qed.
Lemma safe_fail {A} n n' st e (Q : A -> Prop) : good n st -> 0 <= n -> safe_at st (fail e) n' Q.
Proof. intros Hst Hn. right. exact (good_le _ _ _ Hst Hn). Qed.
Lemma safe_bind {A A'} n1 n2 st (m : M State A) (k : A -> M State A') Q Q' :
  safe_at st m n1 Q -> (forall a st', Q a -> good n1 st' -> safe_at st' (k a) n2 Q') -> safe_at st (m ≫= k) n2 Q'.
Proof.
  intros Hm Hk. unfold safe_at, mbind, M_bind in *. destruct (m st) as [[a|e|] st1]; [|done..]. destruct Hm as [Hg Ha]. exact (Hk a st1 Ha Hg).
Qed.
Lemma safe_guard {A} n n' st c e (k : unit -> M State A) Q :
  good n st -> 0 <= n -> (c = false -> safe_at st (k tt) n' Q) -> safe_at st (guard_err c e ≫= k) n' Q.
Proof. intros Hst Hn Hk. unfold safe_at. rewrite bind_guard. destruct c; [right; exact (good_le _ _ _ Hst Hn)|by apply Hk]. Qed.
Lemma safe_lift {A A'} n n' st (o : outcome A) (k : A -> M State A') Q Q' :
  good n st -> 0 <= n -> outcome_safe o Q -> (forall a, Q a -> safe_at st (k a) n' Q') -> safe_at st (lift o ≫= k) n' Q'.
Proof. intros Hst Hn Ho Hk. unfold safe_at, mbind, M_bind, lift. destruct o as [a|e|]; [by apply Hk|right; exact (good_le _ _ _ Hst Hn)|done]. Qed.
Lemma safe_lift_end {A} n st (o : outcome A) Q : good n st -> 0 <= n -> outcome_safe o Q -> safe_at st (lift o) n Q.
Proof. intros Hst Hn Ho. unfold safe_at, lift. destruct o as [a|e|]; [by split|right; exact (good_le _ _ _ Hst Hn)|done]. Qed.

(** *** The parts of a state *)

Lemma good_stack n n' st s : good n st -> values_ok s -> len s + n' <= len (st_Stack st) + n -> good n' (set_stack st s).
Proof. intros [[? ? ? ? ?] ? ? ? ? ? ?] Hs Hl. destruct st. unfold used in *. cbn in *. split; unfold used; cbn; (done || lia). Qed.
Lemma good_reg n st r : good n st -> live r -> good n (set_reg st r).
Proof. intros [[? ? ? ? ?] ? ? ? ? ? ?] Hr. by destruct st. Qed.
Lemma good_code n st c : good n st -> slice_ok c -> good n (set_code st c).
Proof. intros [[? ? ? ? ?] ? ? ? ? ? ?] Hc. by destruct st. Qed.
Lemma good_libs n st l : good n st -> libs_ok l -> good n (set_libs st l).
Proof. intros [[? ? ? ? ?] ? ? ? ? ? ?] Hl. by destruct st. Qed.
Lemma good_loaded n st l : good n st -> good n (set_loaded st l).
Proof. intros [[? ? ? ? ?] ? ? ? ? ? ?]. by destruct st. Qed.
Lemma good_CP n st l : good n st -> good n (set_CP st l).
Proof. intros [[? ? ? ? ?] ? ? ? ? ? ?]. by destruct st. Qed.
Lemma good_steps n st l : good n st -> good n (set_steps st l).
Proof. intros [[? ? ? ? ?] ? ? ? ? ? ?]. by destruct st. Qed.
Lemma good_committed n st l : good n st -> good n (set_committed st l).
Proof. intros [[? ? ? ? ?] ? ? ? ? ? ?]. by destruct st. Qed.

Lemma on_stack_safe {A} n d (m : M stack A) Q : stack_safe B d m Q -> 0 <= n -> d <= n -> safe n (on_stack m) (n - d) Q.
Proof.
  intros Hm Hn Hd st Hst. pose proof (Hm _ (gd_stack _ _ Hst)) as H. unfold safe_at, on_stack. destruct (m (st_Stack st)) as [[a|e|] s]; [| |done].
  - destruct H as (Hs & Hl & Ha). split; [|done]. apply (good_stack n); (done || lia).
  - right. apply (good_stack n); [done|tauto|lia].
Qed.

Lemma on_code_safe {A} n (m : M Slice A) Q : slice_safe m Q -> 0 <= n -> safe n (on_code m) n Q.
Proof.
  intros Hm Hn st Hst. pose proof (Hm _ (gd_code _ _ Hst)) as H. unfold safe_at, on_code. destruct (m (st_CurrentCode st)) as [[a|e|] s]; [| |done].
  - destruct H. split; [by apply good_code|done].
  - right. apply good_code; [exact (good_le _ _ _ Hst Hn)|done].
Qed.

(** *** Charges *)

Lemma Consume_safe n a : 0 <= a < 2 ^ 63 -> 0 <= n -> safe n (on_gas (Consume a)) (n + a) any.
Proof.
  intros Ha Hn st Hst. pose proof Hst as [[Hv Hr Hb Hm Hp] Hroom Hcap Hc Hs Hl Hlb]. unfold safe_at, on_gas.
  destruct (Consume_exact a (st_Gas st) ltac:(lia)) as (r & Hx & Hcase). rewrite Hx. rewrite s64_id in Hcase by (unfold int64; lia).
  destruct Hcase as [-> | (_ & Hg & Hres)]; [right; replace (set_gas st (st_Gas st)) with st by (by destruct st); exact (good_le _ _ _ Hst Hn)|].
  destruct r as [r g]. cbn [fst snd] in *. subst. destruct (Z.ltb_spec (g_Remaining (st_Gas st)) a); [by left|]. split; [|done].
  destruct st. unfold used in *. cbn in *. split; [split; cbn; (done || lia)|unfold used; cbn; lia|cbn; lia|done..].
Qed.

Lemma ConsumeGas_safe n a : 0 <= a < 2 ^ 63 -> 0 <= n -> safe n (ConsumeGas a) (n + a) any.
Proof.
  intros Ha Hn st Hst. unfold safe_at, ConsumeGas. rewrite bind_get. pose proof (gok_version _ (gd_gas _ _ Hst)). unfold checkGasOnConsume.
  destruct (Z.leb_spec 4 (st_GlobalVersion st)); [|lia]. by apply Consume_safe.
Qed.

(** *** Automation *)

Lemma safe_get {A} st (k : State -> M State A) n Q : safe_at st (k st) n Q -> safe_at st (get_state ≫= k) n Q.
Proof. done. Qed.
Lemma safe_bind_ret {A A'} st (a : A) (k : A -> M State A') n Q : safe_at st (k a) n Q -> safe_at st (mret a ≫= k) n Q.
Proof. done. Qed.
Lemma safe_put {A} n st st' (k : unit -> M State A) n' Q :
  good n st' -> (forall st', good n st' -> safe_at st' (k tt) n' Q) -> safe_at st (put_state st' ≫= k) n' Q.
Proof. intros Hst Hk. by apply Hk. Qed.
Lemma safe_modify {A} n st f (k : unit -> M State A) n' Q :
  good n (f st) -> (forall st', good n st' -> safe_at st' (k tt) n' Q) -> safe_at st (modify f ≫= k) n' Q.
Proof. intros Hst Hk. by apply Hk. Qed.
Lemma safe_modify_end n st f n' Q : good n (f st) -> n' <= n -> Q tt -> safe_at st (modify f) n' Q.
Proof. intros Hst Hn HQ. split; [exact (good_le _ _ _ Hst Hn)|done]. Qed.
Lemma safe_call {A A'} n n1 n2 st (m : M State A) (k : A -> M State A') Q Q' :
  good n st -> safe n m n1 Q -> (forall a st', Q a -> good n1 st' -> safe_at st' (k a) n2 Q') -> safe_at st (m ≫= k) n2 Q'.
Proof. intros Hst Hm Hk. eapply safe_bind; [by apply Hm|done]. Qed.
Lemma safe_tail {A} n n1 n2 st (m : M State A) (Q Q' : A -> Prop) :
  good n st -> safe n m n1 Q -> n2 <= n1 -> (forall a, Q a -> Q' a) -> safe_at st m n2 Q'.
Proof. intros Hst Hm Hn HQ. eapply ends_weaken; [by apply Hm|done..]. Qed.
Lemma safe_ret_end {A} n n' st (a : A) (Q : A -> Prop) : good n st -> n' <= n -> Q a -> safe_at st (mret a) n' Q.
Proof. intros Hst Hn HQ. split; [exact (good_le _ _ _ Hst Hn)|done]. Qed.
Lemma safe_guard_end n n' st c e (Q : unit -> Prop) : good n st -> 0 <= n -> n' <= n -> Q tt -> safe_at st (guard_err c e) n' Q.
Proof.
  intros Hst Hn Hn' HQ. unfold safe_at. rewrite run_guard. destruct c; [right; exact (good_le _ _ _ Hst Hn)|].
  split; [exact (good_le _ _ _ Hst Hn')|done].
Qed.
Lemma safe_lift_tail {A} n n' st (o : outcome A) (Q Q' : A -> Prop) :
  good n st -> 0 <= n -> n' <= n -> outcome_safe o Q -> (forall a, Q a -> Q' a) -> safe_at st (lift o) n' Q'.
Proof. intros Hst Hn Hn' Ho HQ. eapply ends_weaken; [exact (safe_lift_end _ _ _ _ Hst Hn Ho)|done..]. Qed.

End safe.

#[export] Hint Resolve good_code good_libs good_loaded good_CP good_steps good_committed : safe.
#[export] Hint Resolve push_safe PushAny_safe PushBool_safe PushInt_safe PushIntQuiet_safe PushSmallInt_safe PushContinuation_safe PushOwnedContinuation_safe
  PushMaybeCell_safe PushMaybeTuple_safe PushOwnedValue_safe PushAt_safe Get_safe Drop_safe DropMany_safe DropAfter_safe Clear_safe PopAny_safe PopSwapAt_safe
  PopInt_safe PopIntFinite_safe PopBool_safe PopIntRange_safe PopCell_safe PopMaybeCell_safe PopContinuation_safe PopBuilder_safe PopSlice_safe PopTuple_safe
  Exchange_safe FromTop_safe Reverse_safe Rotate_safe SplitTop_safe : safe.
#[export] Hint Resolve SkipBits_safe LoadUInt_safe LoadBigInt_safe loadSlice_safe LoadBoolBit_safe peekRefCellAt_safe SkipBitsAndRefs_safe FetchSubslice_safe : safe.
#[export] Hint Extern 1 (_ <= _) => lia : safe.
#[export] Hint Extern 1 (_ /\ _) => lia : safe.
#[export] Hint Extern 1 (_ <= _ < _) => lia : safe.

(** Proves that a primitive is safe, from credit that may be in terms of variables. *)
Ltac safe_prim :=
  lazymatch goal with
  | |- safe _ _ _ (on_stack _) _ _ => eapply on_stack_safe; [solve [eauto with safe]|lia|lia]
  | |- safe _ _ _ (on_code _) _ _ => eapply on_code_safe; [solve [eauto with safe]|lia]
  | |- safe _ _ _ (ConsumeGas _) _ _ => apply ConsumeGas_safe; [try lia|lia]
  | |- safe _ _ _ (on_gas (Consume _)) _ _ => apply Consume_safe; [try lia|lia]
  | |- safe _ _ _ _ _ _ => solve [eauto with safe]
  end.

Ltac safe_post := try exact I; try done; try (cbv beta in *; naive_solver).

Ltac safe_step :=
  lazymatch goal with
  | |- safe _ _ _ _ _ _ => first [safe_prim | intros ? ?]
  | |- safe_at _ _ _ (get_state ≫= _) _ _ => apply safe_get; cbv beta
  | |- safe_at _ _ _ (mret _ ≫= _) _ _ => apply safe_bind_ret; cbv beta
  | H : good _ _ ?n ?st |- safe_at _ _ ?st (guard_err _ _ ≫= _) _ _ => apply (safe_guard _ _ n _ _ _ _ _ _ H); [lia|intros ?; cbv beta]
  | H : good _ _ ?n ?st |- safe_at _ _ ?st (lift _ ≫= _) _ _ => eapply (safe_lift _ _ n _ _ _ _ _ _ H); [lia|try solve [eauto with safe]|intros ? ?; cbv beta in *]
  | H : good _ _ ?n ?st |- safe_at _ _ ?st (put_state _ ≫= _) _ _ => eapply (safe_put _ _ n); [try solve [eauto with safe]|intros ? ?; cbv beta]
  | H : good _ _ ?n ?st |- safe_at _ _ ?st (modify _ ≫= _) _ _ => eapply (safe_modify _ _ n); [try solve [eauto with safe]|intros ? ?; cbv beta]
  | H : good _ _ ?n ?st |- safe_at _ _ ?st (_ ≫= _) _ _ => eapply (safe_call _ _ n _ _ _ _ _ _ _ H); [safe_prim|clear H; intros ? ? ? ?; cbv beta in *]
  | H : good _ _ ?n ?st |- safe_at _ _ ?st (mret _) _ _ => apply (safe_ret_end _ _ n _ _ _ _ H); [lia|safe_post]
  | H : good _ _ ?n ?st |- safe_at _ _ ?st (fail _) _ _ => apply (safe_fail _ _ n _ _ _ _ H); lia
  | H : good _ _ ?n ?st |- safe_at _ _ ?st (guard_err _ _) _ _ => apply (safe_guard_end _ _ n _ _ _ _ _ H); [lia|lia|safe_post]
  | H : good _ _ ?n ?st |- safe_at _ _ ?st (modify _) _ _ => eapply (safe_modify_end _ _ n); [try solve [eauto with safe]|lia|safe_post]
  | |- safe_at _ _ _ (match ?x with _ => _ end) _ _ => destruct x eqn:?
  | |- safe_at _ _ _ (let _ := _ in _) _ _ => cbv zeta
  | H : good _ _ ?n ?st |- safe_at _ _ ?st _ _ _ => eapply (safe_tail _ _ n _ _ _ _ _ _ H); [safe_prim|lia|safe_post]
  end.
Ltac safe := repeat safe_step.

(** ** Operations of the machine *)

Section machine.
Context (K B : Z) (HK : 40 <= K) (HB : B < 2 ^ 61).

Abbreviation value_ok := (value_ok B).
Abbreviation values_ok := (values_ok B).
Abbreviation cont_ok := (cont_ok B).
Abbreviation data_ok := (data_ok B).
Abbreviation reg_ok := (reg_ok B).
Abbreviation live := (live B).
Abbreviation good := (good K B).
Abbreviation safe_at := (safe_at K B).
Abbreviation safe := (safe K B).

Lemma good_len n st : good n st -> len (st_Stack st) + n <= B.
Proof. intros [[? ? ? ? ?] ? ? ? ? ? ?]. unfold used in *. lia. Qed.

Lemma ConsumeStackGas_safe n s : len s <= 2 * B -> 0 <= n -> safe n (ConsumeStackGas s) (n + Z.max 0 (len s - 32)) any.
Proof.
  intros Hs Hn. unfold ConsumeStackGas, ConsumeStackGasLen, FreeStackDepth, StackEntryGasPrice. cbv zeta. pose proof (len_nonneg s).
  destruct (Z.ltb_spec (len s) 32); (eapply safe_weaken; [apply (ConsumeGas_safe K B n); lia|lia|lia|done]).
Qed.

Lemma ConsumeTupleGasLen_safe n k : k < 2 ^ 62 -> 0 <= n -> safe n (ConsumeTupleGasLen k) (n + k) any.
Proof. intros Hk Hn st Hst. unfold ConsumeTupleGasLen. safe_step. unfold TupleEntryGasPrice. safe. Qed.

Lemma PushTupleCharged_safe n t : values_ok t -> len t < 2 ^ 62 -> 0 <= n -> 1 <= n + len t -> safe n (PushTupleCharged t) (n + len t - 1) any.
Proof.
  intros Ht Hl Hn Hn1 st Hst. unfold PushTupleCharged. eapply safe_call; [exact Hst|by apply ConsumeTupleGasLen_safe|intros ? ? ? ?]. pose proof (len_nonneg t).
  eapply safe_tail; [eassumption|eapply on_stack_safe; [apply PushAny_safe, tuple_ok, Ht|lia|lia]|lia|done].
Qed.

(** *** Loading cells *)

Lemma RegisterCellLoad_safe n c : 0 <= n -> safe n (RegisterCellLoad c) n any.
Proof.
  intros Hn. unfold RegisterCellLoad. destruct c as [c|]; [|safe]. intros st Hst.
  assert (Hl : safe n (loaded_add (HashKey c)) n any).
  { intros st' Hst'. unfold safe_at. destruct (loaded_add_run (HashKey c) st') as (fresh & l & ->). split; [by apply good_loaded|done]. }
  eapply safe_call; [exact Hst|exact Hl|intros fresh st1 _ Hst1]. safe_step. unfold CellLoadGasPrice, CellReloadGasPrice. safe.
Qed.

Lemma pending_none n st : good n st -> st_pendingErr st = None.
Proof. intros Hst. apply (gok_pending _ (gd_gas _ _ _ _ Hst)). Qed.

Lemma PendingError_safe n : 0 <= n -> safe n PendingError n any.
Proof. intros Hn st Hst. unfold PendingError. safe_step. rewrite (pending_none _ _ Hst). safe. Qed.
Lemma CheckGas_safe n : 0 <= n -> safe n CheckGas n any.
Proof.
  intros Hn st Hst. unfold CheckGas. safe_step. rewrite (pending_none _ _ Hst). pose proof (gok_remaining _ (gd_gas _ _ _ _ Hst)).
  unfold safe_at, on_gas, CheckRemaining. mrun. destruct (Z.ltb_spec (g_Remaining (st_Gas st)) 0); [lia|]. mrun.
  replace (set_gas st (st_Gas st)) with st by (by destruct st). by split.
Qed.

Lemma OnLoadError_safe n c : 0 <= n -> safe n (OnLoadError c) n any.
Proof.
  intros Hn st Hst. unfold safe_at, OnLoadError, latch. rewrite (pending_none _ _ Hst). pose proof (RegisterCellLoad_safe n c Hn st Hst) as H.
  unfold safe_at in H. destruct (RegisterCellLoad c st) as [[a|e|] st'] eqn:Hr; [done| |done]. left. by apply RegisterCellLoad_err in Hr.
Qed.

Lemma begin_parse_safe n c b : 0 <= n -> cell_ok c -> safe n (begin_parse c b) n slice_ok.
Proof.
  intros Hn Hc st Hst. unfold begin_parse. pose proof (slice_ok_new c Hc).
  destruct b; (eapply safe_call; [exact Hst|by first [apply PendingError_safe | apply OnLoadError_safe]|intros ? ? ? ?]; safe).
Qed.

(** Except when the cell was loaded before, a parse costs at least the price of a reload. *)
Lemma begin_parse_cost n c st sl st' :
  good n st -> begin_parse c false st = (Ok sl, st') -> g_Remaining (st_Gas st') + CellReloadGasPrice <= g_Remaining (st_Gas st).
Proof.
  intros Hst. pose proof (gd_gas _ _ _ _ Hst) as [Hv Hr Hb Hm Hp]. unfold begin_parse, OnLoadError, latch, mbind, M_bind. rewrite Hp.
  unfold RegisterCellLoad. destruct (loaded_add_run (HashKey c) st) as (fresh & l & Hl). rewrite (bind_Ok _ _ _ _ _ Hl). mrun.
  assert (Hc : forall a st1 st2, CellReloadGasPrice <= a < 2 ^ 62 -> st_Gas st1 = st_Gas st -> 4 <= st_GlobalVersion st1 ->
            ConsumeGas a st1 = (Ok tt, st2) -> g_Remaining (st_Gas st2) + CellReloadGasPrice <= g_Remaining (st_Gas st)).
  { intros a st1 st2 Ha Hg Hv1. unfold ConsumeGas, checkGasOnConsume. mrun. destruct (Z.leb_spec 4 (st_GlobalVersion st1)); [|lia]. cbn [negb]. unfold on_gas. rewrite Hg.
    unfold CellReloadGasPrice in *. destruct (Consume_exact a (st_Gas st) ltac:(lia)) as (r & Hx & Hcase). rewrite Hx, s64_id in * by (unfold int64; lia).
    destruct Hcase as [-> | (_ & Hs & Hf)]; [done|]. destruct r as [r g]. cbn in *. subst. destruct (Z.ltb_spec (g_Remaining (st_Gas st)) a); [done|]. intros [= <-]. destruct st1. cbn. lia. }
  assert (Hs : st_Gas (set_loaded st l) = st_Gas st /\ st_GlobalVersion (set_loaded st l) = st_GlobalVersion st) by (by destruct st).
  destruct fresh; cbn [negb]; [|destruct (_ && _) eqn:Hz; [lia|]]; destruct (ConsumeGas _ _) as [[[]|e|] st2] eqn:Hcg; try done; intros [= _ <-];
    (apply (Hc _ (set_loaded st l) _) in Hcg; [done|unfold CellLoadGasPrice, CellReloadGasPrice; lia|apply Hs|lia]).
Qed.

Lemma library_key_safe hash : bytes_ok hash -> len hash = 32 -> exists key, library_key hash = Ok key /\ cell_ok key.
Proof.
  intros Hb Hl. unfold library_key. pose proof (stores_slice hash 256 Hb ltac:(lia) ltac:(lia) BeginCell wf_begin) as Hs.
  assert (Hw : len (window hash 0 256) = 256) by (rewrite length_window; lia). change (b_bitsSz BeginCell) with 0 in Hs. rewrite Hs by lia.
  assert (Hk : len (window hash 0 256) <= 1023) by lia. exists (finished (window hash 0 256) []). split.
  - apply EndCell_builds; [|constructor]. split; [by apply wf_append; [apply wf_begin|]| |done]. by rewrite (bits_append _ _ wf_begin Hk).
  - apply cell_ok_eq. split; [|constructor]. by destruct (newSlice_finished (window hash 0 256) []) as (? & _).
Qed.

Lemma unmetered_lookup_safe root key : cell_ok root -> cell_ok key -> outcome_safe (unmetered_lookup root key) (opt_ok slice_ok).
Proof.
  intros Hr Hk. unfold unmetered_lookup, LoadValueWithResolver, key_cell_slice, AsDict. cbn [d_keySz]. unfold mbind, M_bind, get_state. cbn [d_keySz]. rewrite run_guard.
  destruct (negb _); [done|]. cbn. pose proof (slice_ok_new key Hk) as Hs. pose proof (BitsLeft_eq _ (proj1 Hs)) as Hl. pose proof (swf_bits _ (proj1 Hs)).
  pose proof (findKey_safe (walk_fuel (BitsLeft (newSliceFromCell key))) root (newSliceFromCell key) Hr Hs ltac:(unfold walk_fuel; lia)) as Hf.
  unfold findKeySliceInto. rewrite bind_get. cbn [d_root fst lift]. unfold lift. cbn [fst]. by destruct (findKey _ _ _ _ _).
Qed.

Lemma library_of_safe hash v : opt_ok slice_ok v -> outcome_safe (library_of hash v) (opt_ok cell_ok).
Proof.
  intros Hv. destruct v as [v|]; [|done]. cbn [library_of]. destruct (_ =? 0); [done|]. rewrite loadRefCell_run by apply Hv.
  pose proof (srefs_ok v Hv) as Hr. destruct (srefs v) as [|c l]; [done|]. cbn. apply Forall_cons_1 in Hr as [Hc _]. by destruct (bool_decide _).
Qed.

Section libraries.
Context `{MeteredLookup}.

Lemma search_libraries_safe n hash key roots :
  0 <= n -> cell_ok key -> Forall (opt_ok cell_ok) roots -> safe n (search_libraries false hash key roots) n (opt_ok cell_ok).
Proof.
  intros Hn Hk. induction roots as [|[root|] roots IH]; intros Hr; cbn [search_libraries]; [safe| |apply IH; by destruct (Forall_cons_1 _ _ _ Hr)].
  apply Forall_cons_1 in Hr as [Hroot Hr]. intros st Hst. eapply (safe_lift _ _ n); [exact Hst|done|by apply unmetered_lookup_safe|intros v Hv].
  eapply (safe_lift _ _ n); [exact Hst|done|by apply library_of_safe|intros found Hf]. destruct found as [ref|]; [safe|]. by apply IH.
Qed.

Lemma checkLibraryLoadLimit_safe n hash : 0 <= n -> safe n (checkLibraryLoadLimit hash) n any.
Proof. intros Hn st Hst. unfold checkLibraryLoadLimit, modify_libs. safe. apply good_libs; [done|]. by destruct (gd_libs _ _ _ _ Hst). Qed.

Lemma LoadLibraryByHash_safe n hash : 0 <= n -> bytes_ok hash -> safe n (LoadLibraryByHash hash) n (opt_ok cell_ok).
Proof.
  intros Hn Hb st Hst. unfold LoadLibraryByHash. destruct (Z.eqb_spec (len hash) 32) as [Hl|]; cbn [negb]; [|safe].
  eapply safe_call; [exact Hst|by apply checkLibraryLoadLimit_safe|intros allowed st1 _ Hst1; clear st Hst]. destruct (negb allowed); [safe|]. safe_step. cbv zeta.
  pose proof (gok_version _ (gd_gas _ _ _ _ Hst1)). destruct (Z.ltb_spec (st_GlobalVersion st1) 4); [lia|]. cbn [negb andb].
  destruct (gd_libs _ _ _ _ Hst1) as [Hlibs Hcache].
  match goal with |- context [if ?b then ?x else None] => destruct (if b then x else None) as [cached|] eqn:Hcached end.
  { apply (safe_ret_end _ _ n); [done|lia|]. destruct (negb _); [|done]. exact (Hcache _ _ Hcached). }
  destruct (library_key_safe hash Hb Hl) as (key & -> & Hkey). unfold safe_at. rewrite bind_lift.
  eapply safe_call; [exact Hst1|by apply search_libraries_safe|intros found st2 Hfound Hst2]. unfold modify_libs. destruct found as [ref|].
  - destruct (negb _); safe. destruct (gd_libs _ _ _ _ Hst2) as [? Hc]. apply good_libs; [done|]. split; [done|]. by apply map_Forall_insert_2.
  - destruct (negb _); safe. destruct (gd_libs _ _ _ _ Hst2). by apply good_libs.
Qed.

Lemma library_hash_safe s : slice_ok s -> outcome_safe (library_hash s) bytes_ok.
Proof.
  intros Hs. unfold library_hash. assert (Hm : slice_safe (SkipBits 8 ;; loadSlice 256 false) bytes_ok).
  { eapply slice_bind; [apply SkipBits_safe; lia|intros _ _; apply loadSlice_safe; lia]. }
  specialize (Hm s Hs). destruct ((SkipBits 8 ;; loadSlice 256 false) s) as [[h|e|] s']; [tauto|done..].
Qed.

(** A lookup that is not metered changes only the libraries, and does not fail. *)
Lemma search_libraries_state hash key roots st r st' : search_libraries false hash key roots st = (r, st') -> st' = st.
Proof.
  revert r st'. induction roots as [|[root|] roots IH]; intros r st'; cbn [search_libraries]; [by intros [= _ <-]| |apply IH].
  unfold mbind, M_bind, lift. destruct (unmetered_lookup root key) as [v|e|]; [|by intros [= _ <-]..].
  destruct (library_of hash v) as [[ref|]|e|]; [by intros [= _ <-]|apply IH|by intros [= _ <-]..].
Qed.

Lemma search_libraries_result hash key roots st r st' : search_libraries false hash key roots st = (r, st') -> forall e, r <> Err e.
Proof.
  revert r st'. induction roots as [|[root|] roots IH]; intros r st'; cbn [search_libraries]; [by intros [= <- _]| |apply IH].
  assert (Hu : forall e, unmetered_lookup root key <> Err e) by (intros e; unfold unmetered_lookup; by destruct (fst _)).
  assert (Ho : forall v e, library_of hash v <> Err e) by (intros v e; unfold library_of; destruct v as [v|]; [|done]; destruct (_ =? _); [done|]; by destruct (fst _)).
  unfold mbind, M_bind, lift. destruct (unmetered_lookup root key) as [v|e|]; [|by destruct (Hu e)|by intros [= <- _]].
  specialize (Ho v). destruct (library_of hash v) as [[ref|]|e|]; [by intros [= <- _]|apply IH|by destruct (Ho e)|by intros [= <- _]].
Qed.

Lemma LoadLibraryByHash_libs hash st :
  4 <= st_GlobalVersion st -> exists r lb, LoadLibraryByHash hash st = (r, set_libs st lb) /\ forall e, r <> Err e.
Proof.
  intros Hv4. assert (Hid : set_libs st (st_Libs st) = st) by (by destruct st). unfold LoadLibraryByHash. destruct (negb _); [exists (Ok None), (st_Libs st); by rewrite Hid|].
  assert (Hc : exists a lb, checkLibraryLoadLimit hash st = (Ok a, set_libs st lb)).
  { unfold checkLibraryLoadLimit, modify_libs. mrun. destruct (lb_maxLibraryLoads _); mrun; [|eexists _, (st_Libs st); by rewrite Hid].
    destruct (bool_decide _); mrun; [eexists _, (st_Libs st); by rewrite Hid|]. destruct (_ =? _); mrun; [eexists _, (st_Libs st); by rewrite Hid|by eexists _, _]. }
  destruct Hc as (a & lb & Hc). rewrite (bind_Ok _ _ _ _ _ Hc). assert (Hl : st_Libs (set_libs st lb) = lb) by (by destruct st).
  assert (Hv : st_GlobalVersion (set_libs st lb) = st_GlobalVersion st) by (by destruct st). assert (Hll : forall lb', set_libs (set_libs st lb) lb' = set_libs st lb') by (by destruct st).
  destruct (negb a); [by exists (Ok None), lb|]. mrun. cbv zeta. rewrite Hv, Hl. destruct (Z.ltb_spec (st_GlobalVersion st) 4); [lia|].
  match goal with |- context [if ?b then ?x else None] => destruct (if b then x else None) as [c|] end; [by exists (Ok (Some c)), lb|].
  assert (Hk : forall e, library_key hash <> Err e) by (intros e; unfold library_key, EndCell; destruct (StoreSlice _ _ _) as [[]]; try done; by destruct (finalizeCellFromBuilder _ _)).
  unfold mbind, M_bind, lift. destruct (library_key hash) as [key|e|]; [|by destruct (Hk e)|by exists Panic, lb].
  destruct (search_libraries false hash key (lb_Libraries lb) (set_libs st lb)) as [r2 st2] eqn:Hs. pose proof (search_libraries_result hash key _ _ _ _ Hs) as Hr. apply search_libraries_state in Hs as ->.
  destruct r2 as [[ref|]|e|]; [| |by destruct (Hr e)|by exists Panic, lb]; unfold modify_libs, modify, mret, M_ret.
  - destruct (negb _ && _); rewrite ?Hl, ?Hll; eexists (Ok _), _; done.
  - destruct (negb _); rewrite ?Hl, ?Hll; eexists (Ok _), _; done.
Qed.

Lemma begin_parse_fuel n c l st sl st' :
  good n st -> begin_parse c l st = (Ok sl, st') ->
  g_Remaining (st_Gas st') / CellReloadGasPrice + 1 <= g_Remaining (st_Gas st) / CellReloadGasPrice + Z.b2z l.
Proof.
  intros Hst. destruct l; [|intros Hp; pose proof (begin_parse_cost n c st sl st' Hst Hp); unfold CellReloadGasPrice in *; cbn [Z.b2z]; lia].
  unfold begin_parse, PendingError, mbind, M_bind, get_state. rewrite (pending_none _ _ Hst). intros [= _ <-]. cbn [Z.b2z]. lia.
Qed.

(** The fuel of a chain of library cells is enough. *)
Lemma parse_loop_safe fuel c a l b n st :
  0 <= n -> cell_ok c -> good n st ->
  b = true \/ g_Remaining (st_Gas st) / CellReloadGasPrice + Z.b2z (l : bool) <= Z.of_nat fuel ->
  safe_at st (parse_loop fuel c a l b) n (fun p => slice_ok (fst p)).
Proof.
  revert c l b st. induction fuel as [|fuel IH]; intros c l b st Hn Hc Hst Hf; cbn [parse_loop]; cbv zeta.
  all: destruct (a || negb (c_special c)); [eapply safe_call; [exact Hst|by apply begin_parse_safe|intros sl st1 Hsl Hst1; apply (safe_ret_end _ _ n); [done|lia|exact Hsl]]|].
  all: assert (Hrest : forall e, safe_at st (begin_parse c (l || b) ;; fail e) n (fun p : Slice * bool => slice_ok (fst p)))
    by (intros e; eapply safe_call; [exact Hst|by apply begin_parse_safe|intros sl st1 Hsl Hst1; by apply (safe_fail _ _ n)]).
  all: destruct (computeType c); try apply Hrest; clear Hrest; destruct b; [by apply (safe_fail _ _ n)|]; rewrite orb_false_r in *; destruct Hf as [|Hf]; [done|].
  all: pose proof (begin_parse_safe n c l Hn Hc st Hst) as Hp; unfold safe_at in Hp; destruct (begin_parse c l st) as [[sl|e|] st1] eqn:Hparse;
    [|unfold safe_at; rewrite (bind_Err _ _ _ _ _ Hparse); exact Hp|done]; unfold safe_at; rewrite (bind_Ok _ _ _ _ _ Hparse); destruct Hp as [Hst1 Hsl].
  all: pose proof (begin_parse_fuel n c l st sl st1 Hst Hparse) as Hfuel; pose proof (gok_remaining _ (gd_gas _ _ _ _ Hst1)); unfold CellReloadGasPrice in *; try lia.
  eapply (safe_lift _ _ n); [exact Hst1|done|by apply library_hash_safe|intros hash Hhash].
  pose proof (LoadLibraryByHash_safe n hash Hn Hhash st1 Hst1) as Hlib. unfold safe_at in *. destruct (LoadLibraryByHash hash st1) as [[res|e|] st2] eqn:Hload;
    [|rewrite (bind_Err _ _ _ _ _ Hload); exact Hlib|done]. rewrite (bind_Ok _ _ _ _ _ Hload). destruct Hlib as [Hst2 Hres].
  destruct res as [c'|]; [|right; exact (good_le _ _ _ _ _ Hst2 Hn)]. rewrite bind_get. apply IH; [done..|].
  right. destruct (LoadLibraryByHash_libs hash st1 (gok_version _ (gd_gas _ _ _ _ Hst1))) as (? & lb & Hlb & _). rewrite Hload in Hlb. injection Hlb as _ ->.
  replace (st_Gas (set_libs st1 lb)) with (st_Gas st1) by (by destruct st1). unfold CellReloadGasPrice. cbn [Z.b2z]. lia.
Qed.

Lemma beginParseLoadedCell_safe n c a l : 0 <= n -> opt_ok cell_ok c -> safe n (beginParseLoadedCell c a l) n (fun p => slice_ok (fst p)).
Proof.
  intros Hn Hc st Hst. unfold beginParseLoadedCell. destruct c as [c|]; [|by apply (safe_fail _ _ n)]. safe_step. apply parse_loop_safe; [done..|].
  right. unfold parse_fuel. pose proof (gok_remaining _ (gd_gas _ _ _ _ Hst)). unfold CellReloadGasPrice. destruct l; cbn [Z.b2z]; lia.
Qed.

Lemma BeginParse_safe n c : 0 <= n -> opt_ok cell_ok c -> safe n (BeginParse c) n slice_ok.
Proof.
  intros Hn Hc st Hst. unfold BeginParse. eapply safe_call; [exact Hst|by apply beginParseLoadedCell_safe|intros p st1 Hp Hst1]. by apply (safe_ret_end _ _ n).
Qed.
Lemma BeginParseAlreadyLoaded_safe n c : 0 <= n -> opt_ok cell_ok c -> safe n (BeginParseAlreadyLoaded c) n slice_ok.
Proof.
  intros Hn Hc st Hst. unfold BeginParseAlreadyLoaded. eapply safe_call; [exact Hst|by apply beginParseLoadedCell_safe|intros p st1 Hp Hst1]. by apply (safe_ret_end _ _ n).
Qed.

Lemma LoadRef_code_safe n : 0 <= n -> safe n LoadRef_code n slice_ok.
Proof.
  intros Hn st Hst. unfold LoadRef_code. safe_step. safe_step.
  eapply safe_call; [eassumption|by apply PendingError_safe|intros ? ? ? ?]. eapply safe_tail; [eassumption|by apply BeginParse_safe|lia|done].
Qed.

End libraries.

(** *** Registers *)

Lemma r_C_set_C r i j c : 0 <= i < 4 -> 0 <= j < 4 -> r_C (set_C r i c) j = if i =? j then c else r_C r j.
Proof. intros Hi Hj. destruct r. unfold r_C, set_C. repeat match goal with |- context [?x =? ?y] => destruct (Z.eqb_spec x y) end; (done || lia). Qed.

Lemma reg_ok_set_C r i c : reg_ok r -> cont_ok c -> reg_ok (set_C r i c).
Proof. destruct r. cbn. intros (? & ? & ? & ? & ?) Hc. repeat match goal with |- context [?x =? ?y] => destruct (Z.eqb_spec x y) end; tauto. Qed.

Lemma reg_ok_C r i : reg_ok r -> cont_ok (r_C r i).
Proof. intros H%reg_ok_eq. apply H. Qed.

Lemma live_set_C r i c : live r -> cont_ok c -> c <> CNil -> live (set_C r i c).
Proof.
  intros [Hr Hl] Hc Hn. split; [by apply reg_ok_set_C|]. intros j. specialize (Hl j). destruct r. unfold r_C, set_C in *.
  repeat match goal with |- context [?x =? ?y] => destruct (Z.eqb_spec x y) end; done.
Qed.

Lemma live_adjust r r2 : live r -> reg_ok r2 -> live (AdjustWith r r2).
Proof.
  intros [Hr Hl] H2. assert (Ha : forall c c2, cont_ok c -> cont_ok c2 -> cont_ok (adjust_C c c2)) by (unfold adjust_C; intros; by destruct (IsNullContinuation _)).
  assert (Hn : forall c c2, c <> CNil -> adjust_C c c2 <> CNil) by (intros c c2; by destruct c2). split.
  - destruct r as [? ? ? ? d0 d1 c7], r2 as [? ? ? ? d0' d1' c7']. cbn in Hr, H2 |- *. destruct Hr as (? & ? & ? & ? & ? & ? & ?), H2 as (? & ? & ? & ? & ? & ? & ?).
    split_and!; [by apply Ha..|by destruct d0'|by destruct d1'|by destruct c7'].
  - intros i. specialize (Hl i). destruct r as [c0 c1 c2 c3 ? ? ?], r2. unfold r_C, AdjustWith in *. destruct (i =? 0); [by apply Hn|]. destruct (i =? 1); [by apply Hn|]. destruct (i =? 2); by apply Hn.
Qed.

Lemma set_c_safe n i c : 0 <= n -> cont_ok c -> c <> CNil -> safe n (set_c i c) n any.
Proof. intros Hn Hc Hne st Hst. unfold set_c. eapply (safe_modify_end _ _ n); [|lia|done]. apply good_reg; [done|]. apply live_set_C; [apply Hst|done..]. Qed.

Lemma control_data_safe n c : 0 <= n -> c <> CNil -> cont_ok c -> safe n (control_data c) n (fun d => d = GetControlData c /\ opt_ok data_ok d).
Proof. intros Hn Hne Hc st Hst. destruct c; try done; (apply (safe_ret_end _ _ n); [done|lia|]; split; [done|]; cbn in *; tauto). Qed.

(** *** Plans *)

(** What [planContinuationStack] makes of a stack of [depth] values. *)
Record planned (depth : Z) (d : option cdata) (p : plan) : Prop := {
  pn_data : p_data p = d;
  pn_cp : p_cp p <= depth;
  pn_skip : 0 <= p_skip p;
  pn_both : 0 <= p_cp p -> p_cp p + p_skip p <= depth;
  pn_none : p_cp p < 0 -> p_skip p = 0
}.

Lemma plan_planned depth d passArgs : 0 <= depth -> outcome_safe (planContinuationStack depth d passArgs) (planned depth d).
Proof.
  intros Hd. unfold planContinuationStack. destruct d as [d|].
  - destruct (_ || _) eqn:H1; [done|]. destruct (_ && _) eqn:H2; [done|]. cbv zeta.
    destruct ((0 <=? passArgs) && (0 <=? d_NumArgs d)) eqn:H3, ((0 <=? passArgs) && (d_NumArgs d <? 0)) eqn:H4; split; cbn; (done || lia).
  - destruct (Z.ltb_spec depth passArgs); [done|]. destruct (Z.leb_spec 0 passArgs); split; cbn; (done || lia).
Qed.

Lemma Stack_Copy_ok s : values_ok s -> values_ok (Stack_Copy s) /\ len (Stack_Copy s) = len s.
Proof.
  intros Hs. unfold Stack_Copy, len. rewrite length_map. split; [|done]. induction Hs as [|v s Hv Hs IH]; constructor; [by apply share_ok|done].
Qed.

Lemma captured_ok p d s : p_data p = d -> opt_ok data_ok d -> capturedStack p = Some s -> values_ok s /\ len s <= B.
Proof.
  unfold capturedStack. intros -> Hd. destruct d as [d|]; [|done]. apply data_ok_eq in Hd as [_ Hd]. destruct (d_Stack d) as [[|v l]|]; [done| |done].
  intros [= <-]. cbn in Hd. tauto.
Qed.

(** The new stack over a captured one, paid for. *)
Lemma merged_ok n st captured copyCount :
  0 <= n -> good n st -> values_ok captured -> len captured <= B -> 0 <= copyCount <= len (st_Stack st) ->
  match (if 0 <? copyCount then move_from_stack (Stack_Copy captured) copyCount else mret (Stack_Copy captured)) st with
  | (Ok ns, st') => good (n + copyCount) st' /\ values_ok ns /\ len ns <= 2 * B /\ len (st_Stack st') = len (st_Stack st) - copyCount
  | _ => False
  end.
Proof.
  intros Hn Hst Hc Hl Hcc. destruct (Stack_Copy_ok captured Hc) as [Hsc Hsl]. pose proof (good_len n st Hst) as Hlen. destruct (Z.ltb_spec 0 copyCount).
  - unfold move_from_stack. pose proof (MoveFrom_safe B copyCount (Stack_Copy captured) (st_Stack st) Hsc (gd_stack _ _ _ _ Hst)) as Hm.
    destruct (MoveFrom copyCount _) as [[[]|e|] [new rest]]; [|destruct Hm; lia|done]. destruct Hm as (? & ? & ? & ? & ?). cbn [mbind outcome_bind].
    split; [apply (good_stack _ _ n); (done || lia)|]. split; [done|]. split; [lia|]. destruct st. cbn in *. lia.
  - cbn. replace copyCount with 0 by lia. rewrite Z.add_0_r. split_and!; [done|done|pose proof (len_nonneg captured); lia|lia].
Qed.

(** Once a stack has been paid for, it can be the stack of the machine. *)
Lemma good_swap n st s : good n st -> values_ok s -> len s + 8 <= K + used st -> good 8 (set_stack st s).
Proof. intros [[? ? ? ? ?] ? ? ? ? ? ?] Hs Hl. destruct st. unfold used in *. cbn in *. split; unfold used; cbn; (done || lia). Qed.

Lemma paid n s st :
  0 <= n -> good n st -> len s <= 2 * B ->
  match ConsumeStackGas s st with
  | (Ok _, st') => good n st' /\ st_Stack st' = st_Stack st /\ len s + 8 <= K + used st'
  | (Err e, _) => e = OutOfGas
  | (Panic, _) => False
  end.
Proof.
  intros Hn Hst Hs. pose proof (ConsumeStackGas_safe n s Hs Hn st Hst) as H. unfold safe_at in H. destruct (ConsumeStackGas s st) as [[[]|e|] st'] eqn:Hc; [| |done].
  - destruct H as [Hg _]. pose proof (gd_gas _ _ _ _ Hst) as [Hv Hr Hb Hm Hp]. revert Hc. unfold ConsumeStackGas, ConsumeStackGasLen, ConsumeGas, checkGasOnConsume. cbv zeta. mrun.
    destruct (Z.leb_spec 4 (st_GlobalVersion st)); [|lia]. cbn [negb]. unfold on_gas. pose proof (len_nonneg s).
    set (a := (if len s <? FreeStackDepth then FreeStackDepth else len s) - FreeStackDepth). assert (Ha : 0 <= a * StackEntryGasPrice < 2 ^ 63 /\ len s <= 32 + a * StackEntryGasPrice).
    { subst a. unfold FreeStackDepth, StackEntryGasPrice. destruct (Z.ltb_spec (len s) 32); lia. }
    destruct (Consume_exact (a * StackEntryGasPrice) (st_Gas st) ltac:(lia)) as (r & Hx & Hcase). rewrite Hx. rewrite s64_id in Hcase by (unfold int64; lia).
    destruct Hcase as [-> | (_ & Hsn & Hf)]; [done|]. destruct r as [r g]. cbn [fst snd] in *. subst. intros [= Hf <-].
    split; [eapply good_le; [exact Hg|lia]|]. destruct st. unfold used in *. cbn in *. split; [done|lia].
  - destruct H as [|H]; [done|]. revert Hc. unfold ConsumeStackGas, ConsumeStackGasLen. cbv zeta. apply ConsumeGas_err.
    unfold FreeStackDepth, StackEntryGasPrice. pose proof (len_nonneg s). destruct (Z.ltb_spec (len s) 32); lia.
Qed.

(** *** Computations that fail only when the gas is exhausted *)

Definition pays {A} (r : outcome A * State) (Q : A -> State -> Prop) : Prop :=
  match r with
  | (Ok a, st') => Q a st'
  | (Err e, _) => e = OutOfGas
  | (Panic, _) => False
  end.

Lemma pays_bind {A A'} st (m : M State A) (k : A -> M State A') Q Q' :
  pays (m st) Q -> (forall a st', Q a st' -> pays (k a st') Q') -> pays ((m ≫= k) st) Q'.
Proof. unfold mbind, M_bind. destruct (m st) as [[a|e|] st1]; cbn; auto. Qed.

Lemma pays_safe {A} n st (m : M State A) Q : pays (m st) (fun a st' => good n st' /\ Q a) -> safe_at st m n Q.
Proof. unfold safe_at. destruct (m st) as [[a|e|] st1]; cbn; auto. Qed.

Lemma pays_on_fail {A} n st f (m : M State A) Q : pays (m st) (fun a st' => good n st' /\ Q a) -> safe_at st (on_fail f m) n Q.
Proof. unfold safe_at, on_fail. destruct (m st) as [[a|e|] st1]; cbn; auto. Qed.

Lemma Drop_done n st k : good n st -> 0 <= k <= len (st_Stack st) -> 0 <= n -> exists st', on_stack (Drop k) st = (Ok tt, st') /\ good (n + k) st' /\ len (st_Stack st') = len (st_Stack st) - k.
Proof.
  intros Hst Hk Hn. destruct (cut_to_ok B (st_Stack st) (len (st_Stack st) - k) (gd_stack _ _ _ _ Hst) ltac:(lia)) as (s' & Hc & Hs & Hl).
  exists (set_stack st s'). unfold on_stack, Drop, uint_gt. mrun. destruct (_ || _) eqn:Hg; [lia|]. rewrite Hc. mrun.
  split; [done|]. split; [apply (good_stack _ _ n); (done || lia)|]. destruct st. cbn in *. lia.
Qed.

Lemma DropAfter_done n st k : good n st -> 0 <= k <= len (st_Stack st) -> 0 <= n -> exists st', on_stack (DropAfter k) st = (Ok tt, st') /\ good n st'.
Proof.
  intros Hst Hk Hn. destruct (cut_from_ok B (st_Stack st) (len (st_Stack st) - k) (gd_stack _ _ _ _ Hst) ltac:(lia)) as (s' & Hc & Hs & Hl).
  exists (set_stack st s'). unfold on_stack, DropAfter, uint_gt. mrun. destruct (_ || _) eqn:Hg; [lia|]. rewrite Hc. mrun.
  split; [done|]. apply (good_stack _ _ n); (done || lia).
Qed.

Lemma SplitTop_done n st top drop :
  good n st -> 0 <= top -> 0 <= drop -> top + drop <= len (st_Stack st) -> 0 <= n ->
  exists ns st', on_stack (SplitTop top drop) st = (Ok ns, st') /\ good n st' /\ values_ok ns /\ len ns = top.
Proof.
  intros Hst Ht Hd Hl Hn. pose proof (on_stack_safe K B n 0 _ _ (SplitTop_safe B top drop) Hn Hn st Hst) as H. rewrite Z.sub_0_r in H.
  assert (Hok : exists ns s', SplitTop top drop (st_Stack st) = (Ok ns, s')).
  { unfold SplitTop. mrun. cbv zeta. mrun. destruct (_ || _) eqn:Hg; [lia|]. pose proof (gd_stack _ _ _ _ Hst) as Hs. destruct (Z.eqb_spec top 0) as [->|]; cbn [negb]; mrun.
    - destruct (Z.eqb_spec drop 0); cbn [negb]; mrun; [by eauto|]. unfold Drop, uint_gt. mrun. clear Hg; destruct (_ || _) eqn:Hg; [lia|].
      destruct (cut_to_ok B (st_Stack st) (len (st_Stack st) - drop) Hs ltac:(lia)) as (s' & -> & _). mrun. by eauto.
    - pose proof (MoveFrom_safe B top [] (st_Stack st) ltac:(constructor) Hs) as Hm. unfold mbind, M_bind at 1.
      destruct (MoveFrom top ([], _)) as [[[]|e|] [new rest]]; [|lia|done]. destruct Hm as (_ & Hr & _ & _ & Hlr). cbn.
      destruct (Z.eqb_spec drop 0); cbn [negb]; [by eauto|]. unfold Drop, uint_gt. unfold mbind, M_bind. cbn. rewrite run_guard. clear Hg; destruct (_ || _) eqn:Hg; [lia|].
      destruct (cut_to_ok B rest (len rest - drop) Hr ltac:(lia)) as (s' & -> & _). cbn. by eauto. }
  destruct Hok as (ns & s' & Hok). unfold safe_at, on_stack in H |- *. rewrite Hok in *. destruct H as (Hg & Hv & Hns). eauto 10.
Qed.

(** *** Stacks of jumps and calls *)

Lemma merged_pays {A} n st captured copyCount (k : stack -> M State A) Q :
  0 <= n -> good n st -> values_ok captured -> len captured <= B -> 0 <= copyCount <= len (st_Stack st) ->
  (forall ns st', good (n + copyCount) st' -> values_ok ns -> len ns <= 2 * B -> len (st_Stack st') = len (st_Stack st) - copyCount -> pays (k ns st') Q) ->
  pays (((if 0 <? copyCount then move_from_stack (Stack_Copy captured) copyCount else mret (Stack_Copy captured)) ≫= k) st) Q.
Proof.
  intros Hn Hst Hc Hl Hcc Hk. pose proof (merged_ok n st captured copyCount Hn Hst Hc Hl Hcc) as H.
  eapply (pays_bind _ _ _ (fun ns st' => good (n + copyCount) st' /\ values_ok ns /\ len ns <= 2 * B /\ len (st_Stack st') = len (st_Stack st) - copyCount)); [|intros ns st' (? & ? & ? & ?); auto].
  destruct (_ st) as [[ns|e|] st'] in H |- *; done.
Qed.

Lemma drop_after_pays n st num : 0 <= n -> good n st -> pays (drop_after_charged num st) (fun _ => good n).
Proof.
  intros Hn Hst. unfold drop_after_charged. mrun. destruct (_ && _) eqn:Hg; [|done].
  destruct (DropAfter_done n st num Hst ltac:(lia) Hn) as (st1 & Hd & Hst1). rewrite (bind_Ok _ _ _ _ _ Hd). mrun.
  pose proof (paid n (st_Stack st1) st1 Hn Hst1) as Hp. pose proof (good_len n st1 Hst1). pose proof (len_nonneg (st_Stack st1)). specialize (Hp ltac:(lia)).
  unfold pays. destruct (ConsumeStackGas _ st1) as [[[]|e|] st2]; [tauto|done..].
Qed.

Lemma applyJumpStack_pays n st p d :
  0 <= n <= 8 -> good n st -> planned (len (st_Stack st)) d p -> opt_ok data_ok d -> pays (applyJumpStack p st) (fun _ => good n).
Proof.
  intros Hn Hst [Hd Hcp Hsk Hb Hnone] Hok. unfold applyJumpStack. destruct (p_data p) as [d'|] eqn:Hp; [|apply drop_after_pays; (done || lia)].
  destruct (capturedStack p) as [s|] eqn:Hs; [|apply drop_after_pays; (done || lia)]. destruct (captured_ok p d s ltac:(congruence) Hok Hs) as [Hsv Hsl]. mrun. cbv zeta.
  set (cc := if p_cp p <? 0 then _ else _). pose proof (len_nonneg (st_Stack st)).
  assert (Hcc : 0 <= cc <= len (st_Stack st)) by (subst cc; destruct (Z.ltb_spec (p_cp p) 0); lia).
  apply (merged_pays n); [lia|done..|]. intros ns st1 Hst1 Hns Hnl _. eapply pays_bind.
  - pose proof (paid n ns st1 ltac:(lia) (good_le _ _ _ n _ Hst1 ltac:(lia)) Hnl) as Hpd. unfold pays.
    destruct (ConsumeStackGas ns st1) as [[[]|e|] st2]; [|exact Hpd..]. instantiate (1 := fun _ st2 => good n st2 /\ len ns + 8 <= K + used st2). tauto.
  - intros [] st2 [Hst2 Hpd]. cbn. eapply good_le; [by eapply good_swap|lia].
Qed.

(** What a call leaves: the stack of the callee, and the rest for its return. *)
Definition called (n : Z) (r : stack * option stack) (st : State) : Prop :=
  good n (set_stack st r.1) /\ opt_ok (fun l => len l <= B /\ values_ok l) r.2.

Lemma called_pays n st ns :
  0 <= n <= 8 -> good n st -> values_ok ns -> len ns <= 2 * B ->
  pays ((ConsumeStackGas ns ;; st ← get_state; mret (ns, Some (st_Stack st))) st) (called n).
Proof.
  intros Hn Hst Hns Hl. pose proof (paid n ns st ltac:(lia) Hst Hl) as Hp. unfold mbind, M_bind. destruct (ConsumeStackGas ns st) as [[[]|e|] st1]; [|exact Hp..].
  destruct Hp as (Hst1 & _ & Hp). split; [eapply good_le; [by eapply good_swap|lia]|]. cbn. pose proof (good_len _ _ Hst1). split; [lia|apply Hst1].
Qed.

Lemma buildCallStack_pays n st p d :
  0 <= n <= 8 -> good n st -> planned (len (st_Stack st)) d p -> opt_ok data_ok d -> pays (buildCallStack p st) (called n).
Proof.
  intros Hn Hst [Hd Hcp Hsk Hb Hnone] Hok. unfold buildCallStack. pose proof (len_nonneg (st_Stack st)). pose proof (good_len _ _ Hst). destruct (capturedStack p) as [s|] eqn:Hs.
  - destruct (captured_ok p d s Hd Hok Hs) as [Hsv Hsl]. mrun. cbv zeta. set (cc := if p_cp p <? 0 then _ else _).
    assert (Hcc : 0 <= cc /\ cc + p_skip p <= len (st_Stack st)) by (subst cc; destruct (Z.ltb_spec (p_cp p) 0); lia).
    apply (merged_pays n); [lia|done..|lia|]. intros ns st1 Hst1 Hns Hnl Hl1. apply (good_le _ _ _ n) in Hst1; [|lia]. destruct (Z.ltb_spec 0 (p_skip p)).
    + destruct (Drop_done n st1 (p_skip p) Hst1 ltac:(lia) ltac:(lia)) as (st2 & Hdr & Hst2 & _). rewrite (bind_Ok _ _ _ _ _ Hdr).
      apply called_pays; [lia|eapply good_le; [exact Hst2|lia]|done|done].
    + by apply called_pays.
  - destruct (Z.leb_spec 0 (p_cp p)).
    + destruct (SplitTop_done n st (p_cp p) (match p_data p with Some _ => p_skip p | None => 0 end) Hst ltac:(lia)) as (ns & st1 & Hsp & Hst1 & Hns & Hnl); [destruct (p_data p); lia..|].
      rewrite (bind_Ok _ _ _ _ _ Hsp). apply called_pays; (done || lia).
    + mrun. split; [|done]. cbn. eapply (good_stack _ _ n); [done|apply Hst|lia].
Qed.

(** *** Jumps *)

Lemma adjustJumpCont_safe n c passArgs : 0 <= n <= 8 -> c <> CNil -> cont_ok c -> safe n (adjustJumpCont c passArgs) n (eq c).
Proof.
  intros Hn Hne Hc st Hst. unfold adjustJumpCont. eapply safe_call; [exact Hst|apply control_data_safe; (done || lia)|]. intros d st1 [-> Hd] Hst1. safe_step.
  eapply safe_lift; [exact Hst1|lia|apply plan_planned, len_nonneg|]. intros p Hp. eapply safe_bind; [apply pays_on_fail|intros ? ? _ ?; by apply (safe_ret _ _ n)].
  pose proof (applyJumpStack_pays n st1 p _ Hn Hst1 Hp Hd) as H. revert H. unfold pays. destruct (applyJumpStack p st1) as [[[]|e|] st2]; [|done..]. by instantiate (1 := any).
Qed.

(** What a continuation may push before it runs its code. *)
Definition need (c : cont) : Z :=
  match c with CNil | CNull | CQuit _ | CExcQuit | COrdinary _ _ => 0 | _ => 1 end.

Lemma need_bounds c : 0 <= need c <= 1.
Proof. destruct c; cbn; lia. Qed.

Lemma forceContinuationCodepage_safe n cp : 0 <= n -> safe n (forceContinuationCodepage cp) n any.
Proof. intros Hn st Hst. unfold forceContinuationCodepage. safe. apply (safe_modify_end K B n st (fun st => set_CP st cp)); [by apply good_CP|lia|done]. Qed.

Lemma set_c0_safe n d c : 0 <= n -> cont_ok c -> c <> CNil -> safe n (if no_c0 d then set_c 0 c else mret tt) n any.
Proof. intros Hn Hc Hne. destruct (no_c0 d); [by apply set_c_safe|]. intros st Hst. by apply (safe_ret_end _ _ n). Qed.

(** A continuation that runs [body] with [c] to come after it. *)
Lemma enter_safe st body c :
  good 1 st -> body <> CNil -> cont_ok body -> c <> CNil -> cont_ok c ->
  safe_at st (d ← control_data body; (if no_c0 d then set_c 0 c else mret tt) ;; mret body) 1 (fun c' => cont_ok c').
Proof.
  intros Hst Hb Hbo Hc Hco. eapply safe_call; [exact Hst|by apply control_data_safe|intros d st1 _ Hst1].
  eapply safe_call; [exact Hst1|by apply set_c0_safe|intros ? ? _ ?]. by apply (safe_ret _ _ 1).
Qed.

(** The step of a continuation keeps what the next one needs. *)
Definition jumped (r : outcome cont * State) : Prop :=
  match r with
  | (Ok c', st') => good (need c') st' /\ cont_ok c'
  | (Err e, st') => e = OutOfGas \/ good 0 st'
  | (Panic, _) => False
  end.

Lemma jumped_1 st m : safe_at st m 1 (fun c' => cont_ok c') -> jumped (m st).
Proof. unfold safe_at, jumped. destruct (m st) as [[c'|e|] st']; [|done..]. intros [Hg Hc]. split; [|done]. eapply good_le; [exact Hg|apply need_bounds]. Qed.

Lemma adjust_regs n st r : good n st -> reg_ok r -> good n (set_reg st (AdjustWith (st_Reg st) r)).
Proof. intros Hst Hr. apply good_reg; [done|]. apply live_adjust; [apply Hst|done]. Qed.

Lemma cont_Jump_safe c st : c <> CNil -> cont_ok c -> good (need c) st -> jumped (cont_Jump c st).
Proof.
  intros Hne Hc Hst. destruct c as [| |code| |d code|d ext|x next|count body after|body|chk body cnd after|body after]; try done; cbn [cont_Jump need cont_ok] in *.
  - by right.
  - by right.
  - pose proof (PopIntRange_safe B 0 0xffff _ (gd_stack _ _ _ _ Hst)) as H. unfold on_stack. destruct (PopIntRange _ _ (st_Stack st)) as [[v|e|] s]; [..|done]; right;
      (apply (good_stack _ _ 0); [done|tauto|lia]).
  - destruct Hc as [Hd Hcode]. apply data_ok_eq in Hd as [Hr _]. pose proof (adjust_regs 0 st _ Hst Hr) as H1.
    pose proof (good_code _ _ 0 _ code H1 Hcode) as H2. pose proof (forceContinuationCodepage_safe 0 (d_CP d) ltac:(lia) _ H2) as H3.
    unfold adoptCurrentCode, modify, safe_at, jumped, mbind, M_bind in *. cbn in *. destruct (forceContinuationCodepage _ _) as [[[]|e|] st']; [tauto|done..].
  - destruct Hc as (Hd & Hne' & He). apply data_ok_eq in Hd as [Hr _]. apply jumped_1. eapply (safe_modify _ _ 1); [by apply adjust_regs|]. intros st1 Hst1.
    unfold applyContinuationCodepage. eapply safe_call; [exact Hst1| |intros ? ? _ ?; by apply (safe_ret _ _ 1)].
    destruct (_ =? _); [|by apply forceContinuationCodepage_safe]. intros st2 Hst2. by apply (safe_ret _ _ 1).
  - destruct Hc as [Ho Hn]. pose proof (on_stack_safe K B 1 1 _ _ (PushSmallInt_safe B x) ltac:(lia) ltac:(lia) st Hst) as H. unfold safe_at in H. unfold jumped, mbind, M_bind.
    destruct (on_stack _ st) as [[[]|e|] st']; [|done..]. destruct next; try done. by split; [apply H|].
  - destruct Hc as (? & ? & ? & ?). apply jumped_1. destruct (_ <=? 0); [by apply (safe_ret _ _ 1)|]. by apply enter_safe.
  - destruct Hc as [? ?]. apply jumped_1. by apply enter_safe.
  - destruct Hc as (? & ? & ? & ? & ? & ?). apply jumped_1. destruct chk; [|by apply enter_safe]. eapply safe_call; [exact Hst|eapply on_stack_safe; [apply PopBool_safe|lia..]|].
    intros more st1 _ Hst1. apply (good_le _ _ _ 1) in Hst1; [|lia]. destruct (negb more); [by apply (safe_ret _ _ 1)|]. by apply enter_safe.
  - destruct Hc as (? & ? & ? & ?). apply jumped_1. eapply safe_call; [exact Hst|eapply on_stack_safe; [apply PopBool_safe|lia..]|].
    intros more st1 _ Hst1. apply (good_le _ _ _ 1) in Hst1; [|lia]. destruct more; [by apply (safe_ret _ _ 1)|]. by apply enter_safe.
Qed.

Lemma nil_dec c : c = CNil \/ c <> CNil.
Proof. destruct c; by (left + right). Qed.

Lemma charge_nested_safe n iter : 0 <= n -> safe n (charge_nested iter) n any.
Proof. intros Hn st Hst. unfold charge_nested. safe. Qed.

Lemma adjust_nested_safe n c : 0 <= n <= 8 -> cont_ok c -> safe n (adjust_nested c) n (eq c).
Proof.
  intros Hn Hc st Hst. unfold adjust_nested. safe_step. assert (Hr : safe_at st (mret c) n (eq c)) by (by apply (safe_ret _ _ n)).
  destruct (nil_dec c) as [->|Hne]; [done|].
  assert (Ha : safe_at st (if (9 <=? st_GlobalVersion st) && complex (GetControlData c) then adjustJumpCont c (-1) else mret c) n (eq c)) by (destruct (_ && _); [by apply adjustJumpCont_safe|done]).
  by destruct c.
Qed.

Lemma jump_iter_safe iter c st : c <> CNil -> cont_ok c -> good (need c) st -> jumped (jump_iter iter c st).
Proof.
  intros Hne Hc Hst. pose proof (cont_Jump_safe c st Hne Hc Hst) as Hj. unfold jump_iter, jumped in *. destruct (cont_Jump c st) as [[c1|e|] st1]; [..|done].
  - destruct Hj as [Hg Hc1]. pose proof (need_bounds c1). assert (Hs : safe_at st1 (charge_nested (iter + 1) ;; adjust_nested c1) (need c1) (eq c1)).
    { eapply safe_call; [exact Hg|apply charge_nested_safe; lia|intros ? ? _ ?]. apply adjust_nested_safe; (done || lia). }
    unfold safe_at in Hs. destruct ((charge_nested (iter + 1) ;; adjust_nested c1) st1) as [[c2|e|] st2]; [|done..]. destruct Hs as [? <-]. by split.
  - destruct (IsHandledException e) eqn:He; [|done]. destruct Hj as [->|Hg]; [done|].
    pose proof (charge_nested_safe 0 (iter + 1) ltac:(lia) _ Hg) as Hs. unfold safe_at in Hs. unfold mbind, M_bind. destruct (charge_nested _ st1) as [[[]|e'|] st2]; [|done..]. right. apply Hs.
Qed.

Lemma jump_loop_safe fuel iter c st : (cont_depth c <= fuel)%nat -> cont_ok c -> good (need c) st -> safe_at st (jump_loop fuel iter c) 0 any.
Proof.
  revert iter c st. induction fuel as [|fuel IH]; intros iter c st Hf Hc Hst.
  - destruct c; cbn in Hf; try lia. by split.
  - destruct (nil_dec c) as [->|Hne]; [by split|].
    replace (jump_loop (S fuel) iter c) with (c' ← jump_iter iter c; jump_loop fuel (iter + 1) c') by (by destruct c).
    pose proof (jump_iter_safe iter c st Hne Hc Hst) as Hj. unfold safe_at, mbind, M_bind. destruct (jump_iter iter c st) as [[c'|e|] st'] eqn:He; [|done..].
    apply jump_iter_depth in He. destruct Hj. apply IH; (done || lia).
Qed.

Lemma JumpTo_safe c : cont_ok c -> safe 1 (JumpTo c) 0 any.
Proof. intros Hc st Hst. apply jump_loop_safe; [done..|]. eapply good_le; [exact Hst|apply need_bounds]. Qed.

Lemma JumpArgs_safe c n : c <> CNil -> cont_ok c -> safe 1 (JumpArgs c n) 0 any.
Proof. intros Hne Hc st Hst. eapply safe_call; [exact Hst|by apply adjustJumpCont_safe|]. intros ? ? <- ?. by apply JumpTo_safe. Qed.

Lemma Jump_safe c : c <> CNil -> cont_ok c -> safe 1 (Jump c) 0 any.
Proof.
  intros Hne Hc st Hst. eapply safe_call; [exact Hst|by apply control_data_safe|]. intros d st1 _ Hst1. destruct (complex d); [by apply JumpArgs_safe|by apply JumpTo_safe].
Qed.

Lemma JumpToCode_safe n code cp : 0 <= n -> slice_ok code -> safe n (JumpToCode code cp) n any.
Proof.
  intros Hn Hc st Hst. unfold JumpToCode, adoptCurrentCode, applyContinuationCodepage. eapply (safe_modify _ _ n); [by apply good_code|]. intros st1 Hst1.
  destruct (_ =? _); [by apply (safe_ret _ _ n)|by apply forceContinuationCodepage_safe].
Qed.

(** *** Calls and returns *)

Lemma live_C st n i : good n st -> cont_ok (r_C (st_Reg st) i) /\ r_C (st_Reg st) i <> CNil.
Proof. intros Hst. destruct (gd_regs _ _ _ _ Hst) as [Hr Hl]. split; [by apply reg_ok_C|apply Hl]. Qed.

Lemma empty_ok : reg_ok emptyReg.
Proof. by cbn. Qed.

Lemma return_cont_ok st c0 rest n :
  slice_ok (st_CurrentCode st) -> cont_ok c0 -> opt_ok (fun l => len l <= B /\ values_ok l) rest -> cont_ok (return_cont st c0 rest n).
Proof.
  intros Hs Hc Hr. cbn [return_cont cont_ok]. split; [|done]. apply data_ok_eq. cbn [d_Save d_Stack]. split; [|done]. by apply reg_ok_set_C.
Qed.

Lemma CallArgs_safe c passArgs retArgs : c <> CNil -> cont_ok c -> safe 1 (CallArgs c passArgs retArgs) 0 any.
Proof.
  intros Hne Hc st Hst. eapply safe_call; [exact Hst|by apply control_data_safe|]. intros d st1 [-> Hd] Hst1. destruct (negb _); [by apply JumpArgs_safe|]. safe_step.
  eapply safe_lift; [exact Hst1|lia|apply plan_planned, len_nonneg|]. intros p Hp. cbv zeta. destruct (live_C st1 1 0 Hst1) as [H0 _]. set (oldC0 := r_C (st_Reg st1) 0) in *.
  pose proof (buildCallStack_pays 1 st1 p _ ltac:(lia) Hst1 Hp Hd) as Hb. unfold safe_at, mbind, M_bind, on_fail.
  destruct (buildCallStack p st1) as [[[ns rest]|e|] st2]; [|by left|done]. destruct Hb as [Hst2 Hrest]. cbn [fst snd] in *. cbn [get_state put_state].
  pose proof (set_c_safe 1 0 (return_cont st2 oldC0 rest retArgs) ltac:(lia)) as Hset.
  assert (Hcode : slice_ok (st_CurrentCode st2)) by (pose proof (gd_code _ _ _ _ Hst2); by destruct st2).
  specialize (Hset (return_cont_ok _ _ _ _ Hcode H0 Hrest) ltac:(done) _ Hst2). unfold safe_at in Hset. destruct (set_c 0 _ _) as [[[]|e|] st3]; [|done..]. apply (JumpTo_safe c Hc), Hset.
Qed.

Lemma Call_safe c : c <> CNil -> cont_ok c -> safe 1 (Call c) 0 any.
Proof.
  intros Hne Hc st Hst. eapply safe_call; [exact Hst|by apply control_data_safe|]. intros d st1 _ Hst1. destruct (negb _); [by apply Jump_safe|].
  destruct (complex d); [by apply CallArgs_safe|]. safe_step.
  eapply safe_call; [exact Hst1|apply set_c_safe; [lia| |done]|intros ? ? _ ?; by apply JumpTo_safe].
  apply return_cont_ok; [apply Hst1|apply (live_C st1 1 0 Hst1)|done].
Qed.

Lemma returnTo_safe i code args : safe 1 (returnTo i code args) 0 any.
Proof.
  intros st Hst. unfold returnTo. safe_step. cbv zeta. destruct (live_C st 1 i Hst). eapply safe_call; [exact Hst|apply set_c_safe; done || lia|]. intros ? ? _ ?.
  destruct args; [by apply JumpArgs_safe|by apply Jump_safe].
Qed.

Lemma ForceControlData_safe n c : 0 <= n -> c <> CNil -> cont_ok c -> safe n (ForceControlData c) n (fun c' => c' <> CNil /\ cont_ok c').
Proof.
  intros Hn Hne Hc st Hst. eapply safe_call; [exact Hst|by apply control_data_safe|]. intros d st1 [-> Hd] Hst1. apply (safe_ret _ _ n); [done|].
  destruct (GetControlData c); [done|]. split; [done|]. cbn [cont_ok]. split; [|done]. apply data_ok_eq. by split.
Qed.

Lemma cleared n st : good n st -> good 40 (set_stack st []).
Proof.
  intros Hst. pose proof (gok_remaining _ (gd_gas _ _ _ _ Hst)). apply (good_stack K B (40 - len (st_Stack st))); [|constructor|change (len []) with 0; lia].
  destruct Hst. split; [done| |done..]. unfold used. lia.
Qed.

Lemma empty_code_ok : slice_ok empty_code.
Proof. split; [|constructor]. split; (by constructor) || (cbn; lia). Qed.

Lemma ThrowException_safe n code arg : opt_ok value_ok arg -> safe n (ThrowException code arg) 0 any.
Proof.
  intros Harg st Hst. unfold ThrowException. apply (cleared n) in Hst. eapply (safe_bind _ _ 40 _ _ _ _ any); [by split|]. intros _ st1 _ Hst1.
  eapply (safe_call _ _ 40 39); [exact Hst1|destruct arg; [apply (on_stack_safe K B 40 1); [by apply PushAny_safe|lia..]|apply (on_stack_safe K B 40 1); [apply PushSmallInt_safe|lia..]]|].
  intros _ st2 _ Hst2. eapply (safe_call _ _ 39 38); [exact Hst2|apply (on_stack_safe K B 39 1); [apply PushInt_safe|lia..]|].
  intros _ st3 _ Hst3. eapply (safe_modify _ _ 38); [apply good_code; [done|apply empty_code_ok]|]. intros st4 Hst4.
  eapply safe_call; [exact Hst4|apply Consume_safe; unfold ExceptionGasPrice; lia|]. intros _ st5 _ Hst5. safe_step. destruct (live_C _ _ 2 Hst5).
  eapply Jump_safe; [done..|]. eapply good_le; [exact Hst5|unfold ExceptionGasPrice; lia].
Qed.

(** *** The current continuation *)

Lemma save_cr_ok saveCR save reg :
  reg_ok save -> reg_ok reg -> reg_ok (save_cr saveCR save reg).1 /\ reg_ok (save_cr saveCR save reg).2.
Proof.
  intros Hs Hr. unfold save_cr. destruct (Z.testbit saveCR 0), (Z.testbit saveCR 1), (Z.testbit saveCR 2); cbn [fst snd]; split;
    repeat (apply reg_ok_set_C); try done; repeat (apply reg_ok_C || apply reg_ok_set_C || done).
Qed.

Lemma save_cr_live saveCR save reg h : reg_ok save -> live reg -> h <> CNil -> cont_ok h -> live (set_C (save_cr saveCR save reg).2 2 h).
Proof.
  intros Hs Hr Hh Hc. assert (Hl : live (set_C (if Z.testbit saveCR 1 then set_C (if Z.testbit saveCR 0 then set_C reg 0 (CQuit 0) else reg) 1 (CQuit 1)
     else if Z.testbit saveCR 0 then set_C reg 0 (CQuit 0) else reg) 2 h)) by (destruct (Z.testbit saveCR 0), (Z.testbit saveCR 1); repeat apply live_set_C; done).
  revert Hl. unfold save_cr. destruct (Z.testbit saveCR 0), (Z.testbit saveCR 1), (Z.testbit saveCR 2); cbn [fst snd]; try done; destruct reg; by cbn.
Qed.

(** Only [c2] may be left nil, and only when it was saved. *)
Definition extracted (saveCR n : Z) (cc : cont) (st : State) : Prop :=
  is_ordinary cc = true /\ cont_ok cc /\ (Z.testbit saveCR 2 = false -> good n st) /\
  forall h, h <> CNil -> cont_ok h -> good n (set_reg st (set_C (st_Reg st) 2 h)).

Lemma extract_regs saveCR n ns captured ccArgs st :
  good n (set_stack st ns) -> slice_ok (st_CurrentCode st) -> opt_ok (fun l => len l <= B /\ values_ok l) captured ->
  let '(save, reg) := save_cr saveCR emptyReg (st_Reg st) in
  extracted saveCR n (COrdinary (mkData save captured ccArgs (st_CP st)) (st_CurrentCode st)) (set_reg (set_stack st ns) reg).
Proof.
  intros Hst Hcode Hcap. assert (Hl : live (st_Reg st)) by (pose proof (gd_regs _ _ _ _ Hst); by destruct st).
  pose proof (save_cr_ok saveCR emptyReg (st_Reg st) empty_ok (proj1 Hl)) as [Hs Hr].
  pose proof (fun h => save_cr_live saveCR emptyReg (st_Reg st) h empty_ok Hl) as Hh.
  assert (H2 : Z.testbit saveCR 2 = false -> live (save_cr saveCR emptyReg (st_Reg st)).2).
  { intros Hb. unfold save_cr. rewrite Hb. destruct (Z.testbit saveCR 0), (Z.testbit saveCR 1); cbn [snd]; repeat apply live_set_C; done. }
  destruct (save_cr saveCR emptyReg (st_Reg st)) as [save reg]. cbn [fst snd] in *. split; [done|]. split; [|split].
  - cbn [cont_ok]. split; [|done]. apply data_ok_eq. by split.
  - intros Hb. apply good_reg; [done|by apply H2].
  - intros h Hne Hc. specialize (Hh h Hne Hc). replace (set_reg (set_reg _ _) _) with (set_reg (set_stack st ns) (set_C reg 2 h)) by (by destruct st). by apply good_reg.
Qed.

(** The stack passed on, and the stack captured. *)
Lemma extract_stack n stackCopy st :
  0 <= n <= 8 -> good n st ->
  match (if (stackCopy <? 0) || (stackCopy =? len (st_Stack st)) then mret (st_Stack st, None)
         else if 0 <? stackCopy then
           ns ← on_stack (SplitTop stackCopy 0);
           st ← get_state;
           ConsumeStackGas ns ;;
           mret (ns, Some (st_Stack st))
         else mret ([], Some (st_Stack st)) : M State (stack * option stack)) st with
  | (Ok r, st') => called n r st' /\ slice_ok (st_CurrentCode st')
  | (Err e, st') => e = OutOfGas \/ good 0 st'
  | (Panic, _) => False
  end.
Proof.
  intros Hn Hst. pose proof (gd_code _ _ _ _ Hst) as Hc. pose proof (good_len _ _ Hst) as Hlen. unfold called.
  destruct (_ || _) eqn:H1; [|destruct (Z.ltb_spec 0 stackCopy)].
  - cbn. split; [|done]. split; [|done]. eapply (good_stack _ _ n); [done|apply Hst|lia].
  - destruct (Z.le_gt_cases stackCopy (len (st_Stack st))).
    2:{ unfold mbind at 1, M_bind at 1, on_stack, SplitTop. mrun. cbv zeta. mrun. clear H1. destruct (_ || _) eqn:Hg; [|lia]. right. apply (good_stack _ _ n); [done|apply Hst|lia]. }
    destruct (SplitTop_done n st stackCopy 0 Hst ltac:(lia) ltac:(lia) ltac:(lia) ltac:(lia)) as (ns & st1 & Hs & Hst1 & Hv & Hl). unfold mbind, M_bind. rewrite Hs. cbn.
    pose proof (good_len _ _ Hst1). pose proof (len_nonneg (st_Stack st)). assert (Hb : len ns <= 2 * B) by lia.
    pose proof (paid n ns st1 ltac:(lia) Hst1 Hb) as Hp. destruct (ConsumeStackGas ns st1) as [[[]|e|] st2]; [|by left|done].
    destruct Hp as (Hst2 & Hsame & Hp). split; [|apply Hst2]. split; [eapply good_le; [by eapply good_swap|lia]|]. cbn. split; [lia|apply Hst1].
  - cbn. split; [|done]. split; [eapply good_le; [by eapply cleared|lia]|]. cbn. split; [lia|apply Hst].
Qed.

Lemma extract_ends n saveCR stackCopy ccArgs st :
  0 <= n <= 8 -> good n st ->
  match ExtractCurrentContinuation saveCR stackCopy ccArgs st with
  | (Ok cc, st') => extracted saveCR n cc st'
  | (Err e, st') => e = OutOfGas \/ good 0 st'
  | (Panic, _) => False
  end.
Proof.
  intros Hn Hst. pose proof (extract_stack n stackCopy st Hn Hst) as He. unfold ExtractCurrentContinuation. rewrite bind_get. unfold mbind at 1, M_bind at 1.
  match type of He with context [match ?m st with _ => _ end] => destruct (m st) as [[[ns captured]|e|] st1] end; [|done..].
  destruct He as [[Hg Hcap] Hc]. cbn [fst snd] in *. rewrite bind_get. pose proof (extract_regs saveCR n ns captured ccArgs st1 Hg Hc Hcap) as Hx.
  destruct (save_cr saveCR emptyReg (st_Reg st1)) as [save reg]. exact Hx.
Qed.

Lemma Extract_safe n saveCR stackCopy ccArgs :
  0 <= n <= 8 -> Z.testbit saveCR 2 = false -> safe n (ExtractCurrentContinuation saveCR stackCopy ccArgs) n (fun cc => is_ordinary cc = true /\ cont_ok cc).
Proof.
  intros Hn Hb st Hst. pose proof (extract_ends n saveCR stackCopy ccArgs st Hn Hst) as He. unfold safe_at. destruct (ExtractCurrentContinuation _ _ _ st) as [[cc|e|] st1]; [|done..].
  destruct He as (Ho & Hc & Hg & _). split; [by apply Hg|done].
Qed.
End machine.
