(* ===== verification/InstrSafe.v ===== *)
(** * The instructions are safe

    Every modelled instruction is safe in the sense of [Safe], from the credit it has
    paid for: ten and the bits of its encoding.  The tactic [safe_op] runs an
    instruction in its source order down to the operations [Safe] knows. *)

From S2P Require Import Prelude Bytes CellModel Builder BuilderSpec BuilderOps Slice SliceSpec SliceCompare Finalize CellHash CellTheorems.
From S2P Require Import CellDataTheorems Gas Value Stack VmState StackOps Arith ArithCmp Exec ExecSpec CellLoad GasLaw Run RunTheorems.
From S2P Require Import Encoding ContOps TupleOps PushOps OpTable InstrLaw Sound Safe.
#[local] Open Scope Z_scope.

(** ** Automation *)

Lemma safe_assoc {A A' A''} K B st (m : M State A) (f : A -> M State A') (k : A' -> M State A'') n Q :
  safe_at K B st (m ≫= (fun a => f a ≫= k)) n Q -> safe_at K B st ((m ≫= f) ≫= k) n Q.
Proof. unfold safe_at, mbind, M_bind. by destruct (m st) as [[a|e|] st1]. Qed.

Lemma safe_fail_bind {A A'} K B n n' st e (k : A -> M State A') Q : good K B n st -> 0 <= n -> safe_at K B st (fail e ≫= k) n' Q.
Proof. intros Hst Hn. right. exact (good_le _ _ _ _ _ Hst Hn). Qed.

Lemma from_one {A} K B n (m : M State A) : safe K B 1 m 0 any -> 1 <= n -> safe K B n m 0 any.
Proof. intros Hm Hn. eapply safe_weaken; [exact Hm|done..]. Qed.

Lemma nan_ok B : value_ok B VNaN.
Proof. done. Qed.
Lemma null_ok B : value_ok B VNull.
Proof. done. Qed.
Lemma cell_value_ok B c : cell_ok c -> value_ok B (VCell (Some c)).
Proof. done. Qed.
Lemma slice_value_ok B s : slice_ok s -> value_ok B (VSlice (Some s)).
Proof. done. Qed.
Lemma tuple_value_ok B t : values_ok B t -> value_ok B (VTuple (Some t)).
Proof. by intros H%tuple_ok. Qed.
#[export] Hint Resolve nan_ok null_ok cell_value_ok slice_value_ok tuple_value_ok : safe.

#[export] Hint Extern 1 (safe _ _ _ (Jump _) _ _) => apply from_one; [eapply Jump_safe; eauto with safe|lia] : safe.
#[export] Hint Extern 1 (safe _ _ _ (JumpArgs _ _) _ _) => apply from_one; [eapply JumpArgs_safe; eauto with safe|lia] : safe.
#[export] Hint Extern 1 (safe _ _ _ (Call _) _ _) => apply from_one; [eapply Call_safe; eauto with safe|lia] : safe.
#[export] Hint Extern 1 (safe _ _ _ (CallArgs _ _ _) _ _) => apply from_one; [eapply CallArgs_safe; eauto with safe|lia] : safe.
#[export] Hint Extern 1 (safe _ _ _ (returnTo _ _ _) _ _) => apply from_one; [eapply returnTo_safe; eauto with safe|lia] : safe.
#[export] Hint Resolve ThrowException_safe set_c_safe ConsumeTupleGasLen_safe BeginParse_safe BeginParseAlreadyLoaded_safe RegisterCellLoad_safe
  JumpToCode_safe : safe.

(** The computation that runs first is opened until it is one that is known. *)
Ltac safe_open :=
  lazymatch goal with
  | H : good _ _ ?n ?st |- safe_at _ _ ?st (fail _ ≫= _) _ _ => apply (safe_fail_bind _ _ n _ _ _ _ _ H); lia
  | |- safe_at _ _ _ ((_ ≫= _) ≫= _) _ _ => apply safe_assoc; cbv beta
  | |- safe_at _ _ _ ((match ?x with _ => _ end) ≫= _) _ _ => destruct x eqn:?
  | |- safe_at _ _ _ ((let _ := _ in _) ≫= _) _ _ => cbv zeta
  | |- safe_at _ _ _ (on_stack _ ≫= _) _ _ => fail
  | |- safe_at _ _ _ (on_stack _) _ _ => fail
  | |- safe_at _ _ _ (set_c _ _ ≫= _) _ _ => fail
  | |- safe_at _ _ _ (set_c _ _) _ _ => fail
  | |- safe_at _ _ _ (Jump _) _ _ => fail
  | |- safe_at _ _ _ (Call _) _ _ => fail
  | |- safe_at _ _ _ (ForceControlData _ ≫= _) _ _ => fail
  | |- safe_at _ _ _ (?m ≫= _) _ _ => let h := head_of m in unfold h; cbv beta
  | |- safe_at _ _ _ ?m _ _ => let h := head_of m in unfold h; cbv beta
  end.
Ltac safe_facts :=
  repeat match goal with
  | H : _ /\ _ |- _ => destruct H
  | H : opt_ok _ (Some _) |- _ => cbn [opt_ok] in H
  | H : opt_ok _ None |- _ => clear H
  | H : context [fst (_, _)] |- _ => cbn [fst snd] in H
  | H : context [snd (_, _)] |- _ => cbn [fst snd] in H
  end.
Ltac safe_op := intros; repeat (first [safe_step | safe_open]; safe_facts).


(** ** Instructions and tables *)

Section tables.
Context (K B : Z).
Abbreviation safe := (safe K B).

(** What a decoder leaves: an instance whose action is paid for by its length. *)
Definition instance_safe (r : instance * option error) : Prop :=
  exists bits, in_InstructionBits (fst r) = Some bits /\ 0 <= bits < 2 ^ 62 /\ safe (10 + bits) (in_Interpret (fst r)) 0 any.

Definition instruction_safe (i : instruction) : Prop :=
  match i with
  | ISimple op => 8 <= bp_Bits (so_BitPrefix op) /\ so_BaseGasPrice op = 0 /\ safe 18 (so_Action op) 0 any
  | IOperand op =>
      slice_safe (DecodeArgs op) any /\ ao_BaseGasPrice op = 0 /\
      forall args, 0 <= ArgInstructionBits op args /\ safe (10 + ArgInstructionBits op args) (ao_Action op args) 0 any
  | IOther op => slice_safe (o_Deserialize op) instance_safe
  end.

Definition table_safe (l : list (outcome instruction)) : Prop := Forall (fun i => forall x, i = Ok x -> instruction_safe x) l.

Lemma simpleV_safe v p a i : safe 18 a 0 any -> 1 <= len p -> simpleV v p a = Ok i -> instruction_safe i.
Proof. intros Ha Hp [= <-]. cbn. split_and!; [lia|done..]. Qed.

Lemma decoded_safe m Q : slice_safe m Q -> slice_safe (decoded m) any.
Proof. intros Hm s Hs. specialize (Hm s Hs). unfold decoded, attempt. destruct (m s) as [[a|e|] s']; [|done..]. by destruct Hm. Qed.

Lemma operandV_safe v x b ps n a d w i :
  0 <= b < 2 ^ 32 -> 0 <= n <= 64 -> (forall args, safe (10 + (b + n)) (a args) 0 any) -> opt_ok (fun m => slice_safe m any) d ->
  operandV v ((x, b) :: ps) n a d w = Ok i -> instruction_safe i.
Proof.
  intros Hb Hn Ha Hd. unfold operandV. destruct (UIntPrefixes _) as [bs| |] eqn:Hbs; [|done..]. cbn [mbind outcome_bind].
  assert (Hhd : exists bs', bs = mkBitPrefix b (bp_Data (default (mkBitPrefix 0 []) (head bs))) :: bs').
  { cbn in Hbs. destruct (UIntPrefix x b) as [p| |] eqn:Hp; [|done..]. cbn in Hbs. destruct (UIntPrefixes ps); [|done..]. injection Hbs as <-. cbn.
    unfold UIntPrefix in Hp. destruct (built_slice _); [|done..]. cbn in Hp. destruct (must _ _); [|done..]. injection Hp as <-. by eexists. }
  destruct Hhd as [bs' Hhd]. generalize dependent (bp_Data (default (mkBitPrefix 0 []) (head bs))). intros data ->.
  destruct (NewArgOP _) as [op'| |] eqn:Hop; [|done..]. intros [= <-].
  assert (op' = mkOperandOP (mkBitPrefix b data :: bs') n a d None w 0 v) as ->. { unfold NewArgOP in Hop. cbn in Hop. destruct d; [congruence|]. destruct (_ && _); congruence. }
  cbn. split; [|split; [done|]].
  - unfold DecodeArgs. cbn [ao_Decode]. destruct d as [m|]; [exact Hd|]. apply (decoded_safe _ any). cbn. eapply slice_bind; [apply SkipBits_safe; lia|]. intros _ _.
    destruct (n =? 0); [by apply slice_ret|]. eapply slice_weaken; [|apply LoadUInt_safe; lia]; done.
  - intros args. change (prefixBits _) with b. unfold ArgInstructionBits. cbn. rewrite s64_id by (unfold int64; lia). split; [lia|apply Ha].
Qed.
End tables.

#[export] Hint Resolve slice_with_error PeekZeroPaddedOpcode_safe : safe.

(** The same for decoders. *)
Ltac slice_op :=
  intros; repeat (lazymatch goal with
  | |- slice_safe (mret _) _ => apply slice_ret; try done
  | |- slice_safe (fail _) _ => apply slice_fail
  | |- slice_safe (guard_err _ _ ≫= _) _ => apply slice_guard; intros ?
  | |- slice_safe (mret _ ≫= _) _ => eapply slice_bind; [apply (slice_ret _ any); done|intros ? _]
  | |- slice_safe ((match ?x with _ => _ end) ≫= _) _ => destruct x eqn:?
  | |- slice_safe (_ ≫= _) _ => eapply slice_bind; [solve [eauto with safe]|intros ? ?; cbv beta in *; safe_facts]
  | |- slice_safe (attempt _ _ _) _ => eapply slice_attempt; [solve [eauto with safe]|intros ? ?; cbv beta in *; safe_facts|intros ?]
  | |- slice_safe (decoded _) _ => apply (decoded_safe _ any)
  | |- slice_safe (match ?x with _ => _ end) _ => destruct x eqn:?
  | |- slice_safe (let _ := _ in _) _ => cbv zeta
  | |- slice_safe (LoadUInt _) any => eapply slice_weaken; [|apply LoadUInt_safe; lia]; done
  | |- slice_safe (with_error _ _) any => apply slice_with_error
  | |- slice_safe ?m _ => first [solve [eauto with safe] | let h := head_of m in unfold h; cbv beta]
  end).

Ltac safe_entry :=
  lazymatch goal with
  | H : simple ?p ?a = Ok ?x |- instruction_safe ?K ?B _ => refine (simpleV_safe K B 0 p a x _ _ H); [|clear; vm_compute; discriminate]
  | H : simpleV ?v ?p ?a = Ok ?x |- instruction_safe ?K ?B _ => refine (simpleV_safe K B v p a x _ _ H); [|clear; vm_compute; discriminate]
  | H : operandV ?v ?l ?n ?a ?d ?w = Ok ?x |- instruction_safe ?K ?B _ =>
      let l' := eval hnf in l in
      lazymatch l' with
      | ?p :: ?ps =>
          let p' := eval hnf in p in
          lazymatch p' with
          | (?y, ?b) => refine (operandV_safe K B v y b ps n a d w x _ _ _ _ H); [lia|lia|clear H; intros; cbv beta|cbn [opt_ok]; clear; try (exact I || slice_op)]
          end
      end
  end.
Ltac safe_table :=
  repeat first [apply Forall_nil_2 | apply Forall_cons_2; [intros ? ? | ]];
  try (unfold newInvalidCompoundFamily, newLshiftDivCodeOp, qCompoundOP, newControlRegisterOp, byte_operand, pair_operand, int8_operand, quiet_int8_operand, operand in *; safe_entry);
  try safe_op.

Section ops.
Context (K B : Z) (HK : 40 <= K) (HB : B < 2 ^ 61).
Abbreviation safe := (safe K B).
Abbreviation good := (good K B).

(** *** Stack manipulation and arithmetic *)

Lemma popSmallIndex_safe n : 0 <= n -> safe n popSmallIndex (n + 1) (fun x => 0 <= x < 2 ^ 30).
Proof.
  intros Hn st Hst. unfold popSmallIndex. safe_step. cbv zeta. eapply safe_tail; [exact Hst|eapply on_stack_safe; [apply PopIntRange_safe|lia..]|lia|].
  unfold maxSmallIndex. intros x Hx. cbv beta in Hx. destruct (_ <? 4); lia.
Qed.

Lemma consumeLargeStackMoveGas_safe n count : 0 <= n -> count < 2 ^ 62 -> safe n (consumeLargeStackMoveGas count) n any.
Proof. intros Hn Hc. unfold consumeLargeStackMoveGas. destruct (Z.leb_spec count 255); safe. Qed.

Lemma get_push_safe n j : 1 <= n -> safe n (get_push j) (n - 1) any.
Proof. safe_op. Qed.
#[local] Hint Resolve get_push_safe : safe.

Lemma blkPushLoop_safe n x j : Z.of_nat x <= n -> safe n (blkPushLoop x j) (n - Z.of_nat x) any.
Proof. revert n. induction x as [|x IH]; intros n Hn; cbn [blkPushLoop]; safe_op. Qed.
Lemma rollLoop_safe n k : 0 <= n -> safe n (rollLoop k) n any.
Proof. revert n. induction k as [|k IH]; intros n Hn; cbn [rollLoop]; safe_op. Qed.
Lemma rollRevLoop_safe n k i : 0 <= n -> safe n (rollRevLoop k i) n any.
Proof. revert n i. induction k as [|k IH]; intros n i Hn; cbn [rollRevLoop]; safe_op. Qed.
Lemma qPushNaNs_safe n k : Z.of_nat k <= n -> safe n (qPushNaNs k) (n - Z.of_nat k) any.
Proof. revert n. induction k as [|k IH]; intros n Hn; cbn [qPushNaNs]; safe_op. Qed.

Lemma stack_handler_safe {A} n n' d (m : M stack A) (h : error -> M State A) Q :
  stack_safe B d m Q -> 0 <= n -> d <= n -> n' <= n - d -> (forall e, safe n (h e) n' Q) -> safe n (fun st => match on_stack m st with (Err e, st') => h e st' | r => r end) n' Q.
Proof.
  intros Hm Hn Hd Hn' Hh st Hst. specialize (Hm _ (gd_stack _ _ _ _ Hst)). unfold safe_at, on_stack in *. destruct (m (st_Stack st)) as [[a|e|] s]; [| |done].
  - destruct Hm as (Hs & Hl & Ha). split; [|done]. apply (good_stack _ _ n); (done || lia).
  - destruct Hm as (Hs & Hl). apply Hh. apply (good_stack _ _ n); (done || lia).
Qed.

Lemma invalid_results_safe n d : 2 <= n -> safe n (qPushNaNs (qInvalidResultCount d)) 0 any.
Proof. intros Hn. eapply safe_weaken; [apply qPushNaNs_safe| | |done]; [reflexivity|unfold qInvalidResultCount; destruct (_ =? _); lia|lia]. Qed.

Lemma BLKPUSH_safe args : safe 26 (BLKPUSH args) 0 any.
Proof.
  unfold BLKPUSH, unpackArgs2. set (i := Z.land (args ≫ 4) 0xF). assert (Hi : 0 <= i < 2 ^ 4) by (subst i; change 0xF with (Z.ones 4); rewrite Z.land_ones by lia; apply Z.mod_pos_bound; lia).
  eapply safe_weaken; [apply (blkPushLoop_safe 26)|..]; [lia|lia|lia|done].
Qed.

#[local] Hint Resolve popSmallIndex_safe consumeLargeStackMoveGas_safe rollLoop_safe rollRevLoop_safe invalid_results_safe : safe.

Lemma CONDSEL_safe : safe 18 CONDSEL 0 any.
Proof.
  intros st Hst. unfold CONDSEL. eapply (safe_call _ _ 18 18 0 st _ _ any); [exact Hst|safe_op|intros _ st1 _ Hst1].
  safe_step. eapply safe_call; [eapply (good_le _ _ _ 18); [eassumption|lia]|apply (stack_handler_safe 18 18 (-1) PopBool (fun e => on_stack (Drop 2) ;; fail e)); [apply PopBool_safe|lia..|]|]; safe_op.
Qed.
#[local] Hint Resolve BLKPUSH_safe CONDSEL_safe : safe.

Lemma math_simple_safe : table_safe K B math_simple.
Proof. unfold math_simple, table_safe. safe_table. Qed.
Lemma stack_simple_safe : table_safe K B stack_simple.
Proof. unfold stack_simple, table_safe. safe_table. Qed.

Lemma xchgOp_safe x : xchgOp = Ok x -> instruction_safe K B x.
Proof.
  unfold xchgOp. destruct (UIntPrefixes _) as [ps| |]; [|done..]. cbn. intros [= <-]. split; [change (slice_safe xchg_decode any); slice_op|]. split; [done|].
  intros args. unfold ArgInstructionBits. cbn [ao_Bits ao_Action]. assert (8 <= xchg_bits args).
  { unfold xchg_bits. destruct (unpackXchgArgs args) as [[a b] []]; [lia|]. destruct (_ || _); lia. }
  split; [lia|safe_op].
Qed.

Lemma stack_args_safe : table_safe K B stack_args.
Proof. unfold stack_args, table_safe. safe_table. by apply xchgOp_safe. Qed.

Lemma quiet_compounds_safe args : table_safe K B (quiet_compounds args).
Proof. unfold quiet_compounds, table_safe. safe_table. Qed.

Lemma math_args_safe : table_safe K B math_args.
Proof.
  unfold math_args. apply Forall_app. split; [unfold table_safe; safe_table|]. apply Forall_app. split; [|unfold table_safe; safe_table].
  apply Forall_concat, Forall_map, Forall_true. intros i. apply quiet_compounds_safe.
Qed.
End ops.
