(* ===== verification/ControlSafe.v ===== *)
(** * Safety of tuples, constants and control flow

    The rest of the instructions that [InstrSafe] starts: those on tuples, those that
    push parts of the code, and those of [tvm/op/exec]. *)

From S2P Require Import Prelude Bytes CellModel Builder BuilderSpec BuilderOps Slice SliceSpec SliceCompare Finalize CellHash CellTheorems.
From S2P Require Import CellDataTheorems Gas Value Stack VmState StackOps Arith ArithCmp Exec ExecSpec CellLoad GasLaw Run RunTheorems.
From S2P Require Import Encoding ContOps TupleOps PushOps OpTable InstrLaw Sound Safe InstrSafe.
#[local] Open Scope Z_scope.

Section tuples.
Context (K B : Z) (HK : 40 <= K) (HB : B < 2 ^ 61).
Abbreviation safe := (safe K B).
Abbreviation safe_at := (safe_at K B).
Abbreviation good := (good K B).
Abbreviation values_ok := (values_ok B).
Abbreviation value_ok := (value_ok B).

Lemma PopTuple_on n max min : 0 <= n -> 0 <= max -> safe n (on_stack (PopTupleRange max min)) (n + 1) (fun t => values_ok t /\ min <= len t <= max).
Proof. intros Hn Hm. eapply safe_weaken; [apply (on_stack_safe K B n (-1)); [by apply PopTupleRange_safe|lia..]|lia|lia|done]. Qed.
Lemma Index_safe n t i : 0 <= n -> values_ok t -> safe n (Index t i) n value_ok.
Proof.
  intros Hn Ht st Hst. unfold Index. safe_step. apply (safe_lift_end _ _ n); [done..|]. destruct (t !! Z.to_nat i) as [v|] eqn:Hv.
  - exact (Forall_lookup_1 _ _ _ _ Ht Hv).
  - apply lookup_ge_None in Hv. unfold len in *. lia.
Qed.

Lemma tuple_Set_safe n t i v : 0 <= n -> values_ok t -> value_ok v -> safe n (tuple_Set t i v) n (fun t' => values_ok t' /\ len t' = len t).
Proof.
  intros Hn Ht Hv st Hst. unfold tuple_Set. safe_step. apply (safe_ret _ _ n); [done|]. split; [by apply Forall_insert|]. unfold len. by rewrite length_insert.
Qed.

Lemma PushTuple_on n t : values_ok t -> len t <= 256 -> 1 <= n -> safe n (PushTupleCharged t) (n - 1) any.
Proof. intros Ht Hl Hn. pose proof (len_nonneg t). eapply safe_weaken; [apply (PushTupleCharged_safe K B n); (done || lia)|lia|lia|done]. Qed.

Lemma pop_values_safe n k l : 0 <= n -> values_ok l -> safe n (pop_values k l) (n + Z.of_nat k) (fun vs => values_ok vs /\ len vs = len l + Z.of_nat k).
Proof.
  revert n l. induction k as [|k IH]; intros n l Hn Hl; cbn [pop_values]; intros st Hst.
  - apply (safe_ret_end _ _ n); [done|lia|]. split; [done|lia].
  - safe_step. eapply safe_tail; [eassumption|apply IH; [lia|by constructor]|lia|]. intros vs [Hv Hlen]. split; [done|]. rewrite len_cons in Hlen. lia.
Qed.

(** Pushing an element that is there cannot fail, whatever the credit. *)
Lemma index_push_run n t i st :
  good n st -> values_ok t -> 0 <= i < len t -> exists st', index_push t i st = (Ok tt, st') /\ good (n - 1) st'.
Proof.
  intros Hst Ht Hi. destruct (lookup_lt_is_Some_2 t (Z.to_nat i)) as [v Hv]; [unfold len in *; lia|].
  unfold index_push, Index. rewrite bind_assoc, bind_guard. destruct (_ || _) eqn:Hg; [lia|]. rewrite Hv, bind_lift. unfold on_stack, PushAny, push, modify.
  eexists. split; [reflexivity|]. apply (good_stack _ _ n); [done| |rewrite len_snoc; lia]. apply Forall_app. split; [apply Hst|].
  constructor; [|constructor]. apply share_ok. exact (Forall_lookup_1 _ _ _ _ Ht Hv).
Qed.

Lemma push_elements_run n t k i st :
  good n st -> values_ok t -> 0 <= i -> i + Z.of_nat k <= len t -> exists st', push_elements t i k st = (Ok tt, st') /\ good (n - Z.of_nat k) st'.
Proof.
  revert n i st. induction k as [|k IH]; intros n i st Hst Ht Hi Hk; cbn [push_elements].
  - eexists. split; [reflexivity|]. by rewrite Z.sub_0_r.
  - destruct (index_push_run n t i st Hst Ht ltac:(lia)) as (st1 & Hr & Hst1). destruct (IH _ (i + 1) st1 Hst1 Ht ltac:(lia) ltac:(lia)) as (st2 & Hr2 & Hst2).
    exists st2. rewrite (bind_Ok _ _ _ _ _ Hr). split; [done|]. by replace (n - Z.of_nat (S k)) with (n - 1 - Z.of_nat k) by lia.
Qed.

(** A debt is paid like anything else. *)
Lemma ConsumeGas_debt n a st : good n st -> 0 <= a < 2 ^ 62 -> pays (ConsumeGas a st) (fun _ => good (n + a)).
Proof.
  intros Hst Ha. pose proof Hst as [[Hv Hr Hb Hm Hp] Hroom Hcap Hc Hs Hl Hlb]. unfold pays, ConsumeGas. rewrite bind_get. unfold checkGasOnConsume.
  destruct (Z.leb_spec 4 (st_GlobalVersion st)); [|lia]. cbn [negb]. unfold on_gas. rewrite Consume_run by (unfold int64; lia).
  destruct (Z.ltb_spec (g_Remaining (st_Gas st)) a); [done|].
  destruct st. unfold used in *. cbn in *. split; [split; cbn; (done || lia)|unfold used; cbn; lia|cbn; lia|done..].
Qed.

(** The elements are pushed on credit and paid for after that. *)
Lemma unpacked_safe n t k st :
  0 <= n -> good n st -> values_ok t -> len t <= 255 -> 0 <= k <= len t ->
  safe_at st (push_elements t 0 (Z.to_nat k) ;; ConsumeTupleGasLen k) n any.
Proof.
  intros Hn Hst Ht Hl Hk. destruct (push_elements_run n t (Z.to_nat k) 0 st Hst Ht ltac:(lia) ltac:(lia)) as (st1 & Hr & Hst1).
  apply pays_safe. rewrite (bind_Ok _ _ _ _ _ Hr). unfold ConsumeTupleGasLen, TupleEntryGasPrice. rewrite bind_guard. destruct (Z.ltb_spec k 0); [lia|].
  pose proof (ConsumeGas_debt _ (k * 1) _ Hst1 ltac:(lia)) as Hc. revert Hc. unfold pays. destruct (ConsumeGas _ st1) as [[[]|e|] st2]; [|done..].
  intros Hst2. split; [|done]. eapply good_le; [exact Hst2|lia].
Qed.

#[local] Hint Resolve PopTupleRange_safe PopMaybeTupleRange_safe Index_safe tuple_Set_safe PushTuple_on : safe.

Lemma execUntuple_safe n count exact : 1 <= n -> 0 <= count <= 255 -> safe n (execUntuple count exact) 0 any.
Proof.
  intros Hn Hc st Hst. unfold execUntuple. eapply safe_call; [exact Hst|apply PopTuple_on; [lia|destruct exact; lia]|]. intros t st1 [Ht Hl] Hst1. cbv zeta.
  eapply ends_weaken; [apply (unpacked_safe (n + 1)); [lia|done|done|destruct exact; lia|]|lia|done].
  destruct exact; cbn [negb andb]; [lia|]. destruct (Z.ltb_spec (len t) count); lia.
Qed.

Lemma safe_grouped {A A' A''} st (m : M State A) (f : A -> M State A') (k : A' -> M State A'') n Q :
  safe_at st ((m ≫= f) ≫= k) n Q -> safe_at st (m ≫= (fun a => f a ≫= k)) n Q.
Proof. unfold safe_at, mbind, M_bind. by destruct (m st) as [[a|e|] st1]. Qed.

Lemma execExplode_safe n max : 1 <= n -> 0 <= max <= 255 -> safe n (execExplode max) 0 any.
Proof.
  intros Hn Hc st Hst. unfold execExplode. eapply safe_call; [exact Hst|apply PopTuple_on; lia|]. intros t st1 [Ht Hl] Hst1. apply safe_grouped.
  eapply safe_bind; [replace (length t) with (Z.to_nat (len t)) by (unfold len; lia); apply (unpacked_safe (n + 1)); (done || pose proof (len_nonneg t); lia)|].
  intros _ st2 _ Hst2. safe_op.
Qed.

Lemma execMakeTuple_safe n count : 1 <= n -> count <= 255 -> safe n (execMakeTuple count) 0 any.
Proof.
  intros Hn Hc st Hst. unfold execMakeTuple, tuple_depth. safe_op.
  eapply safe_call; [eassumption|apply pop_values_safe; [lia|constructor]|]. intros vs st2 [Hv Hl] Hst2. cbv beta. change (len []) with 0 in Hl.
  eapply safe_tail; [eassumption|apply PushTupleCharged_safe; (done || lia)|lia|done].
Qed.

Lemma u8_bounds x : 0 <= u8 x <= 255.
Proof. unfold u8. lia. Qed.
Lemma u8_le x : u8 x <= 255.
Proof. apply u8_bounds. Qed.

Lemma indexIntermediateTuple_safe n t i : 0 <= n -> values_ok t -> safe n (indexIntermediateTuple t i) n values_ok.
Proof.
  intros Hn Ht st Hst. eapply safe_call; [exact Hst|by apply Index_safe|]. intros v st1 Hv Hst1. destruct v as [| | | | | |[l|]|]; try by apply (safe_fail _ _ n).
  safe_step. apply (safe_ret _ _ n); [done|]. by apply tuple_ok.
Qed.

Lemma PopLast_safe n t : 0 <= n -> values_ok t -> safe n (PopLast t) n (fun r => value_ok r.1 /\ values_ok r.2 /\ len r.2 <= len t).
Proof.
  intros Hn Ht st Hst. unfold PopLast. apply Forall_reverse in Ht. assert (Hl : len t = len (reverse t)) by (unfold len; by rewrite length_reverse). rewrite Hl.
  destruct (reverse t) as [|v rest]; [by apply (safe_fail _ _ n)|]. apply Forall_cons_1 in Ht as [Hv Hr]. apply (safe_ret _ _ n); [done|]. cbn.
  split_and!; [done|by apply Forall_reverse|]. unfold len. rewrite length_reverse. cbn. lia.
Qed.

Lemma Append_ok t v : values_ok t -> value_ok v -> values_ok (Append t v).
Proof. intros Ht Hv. apply Forall_app. split; [done|by constructor]. Qed.
Lemma len_Append t v : len t <= 254 -> len (Append t v) <= 256.
Proof. unfold Append. rewrite len_snoc. lia. Qed.

Lemma nulls_ok n : values_ok (replicate n VNull).
Proof. by apply Forall_replicate. Qed.
Lemma Resize_ok t size : values_ok t -> len t <= size -> values_ok (Resize t size) /\ len (Resize t size) = size.
Proof.
  intros Ht Hl. unfold Resize. pose proof (len_nonneg t). split.
  - apply Forall_app. split; [by apply Forall_take|apply nulls_ok].
  - unfold len in *. rewrite length_app, length_take, length_replicate. lia.
Qed.

Lemma execSetIndexQuiet_safe n idx : 2 <= n -> safe n (execSetIndexQuiet idx) 0 any.
Proof.
  intros Hn st Hst. unfold execSetIndexQuiet. do 3 safe_step. destruct a0 as [l|]; cbn [opt_ok] in *.
  - assert (Hr : values_ok (if len l <=? idx then Resize l (idx + 1) else l) /\ len (if len l <=? idx then Resize l (idx + 1) else l) <= 256).
    { destruct (Z.leb_spec (len l) idx); [|split; [tauto|lia]]. destruct (Resize_ok l (idx + 1)) as [? ->]; [tauto|lia|]. split; [done|lia]. }
    destruct (_ && _); [eapply safe_tail; [eassumption|eapply on_stack_safe; [apply PushAny_safe, tuple_ok; tauto|lia..]|lia|done]|].
    eapply safe_call; [eassumption|apply tuple_Set_safe; [lia|tauto|done]|]. intros t' st3 [Ht' Hl'] Hst3. eapply safe_tail; [eassumption|apply PushTuple_on; (done || lia)|lia|done].
  - destruct (is_null a); [safe_op|]. eapply safe_tail; [eassumption|apply PushTuple_on|lia|done]; [apply Forall_insert; [apply nulls_ok|done]| |lia].
    unfold len. rewrite length_insert, length_replicate. lia.
Qed.

#[local] Hint Resolve execSetIndexQuiet_safe execUntuple_safe execExplode_safe execMakeTuple_safe u8_bounds u8_le indexIntermediateTuple_safe PopLast_safe Append_ok len_Append : safe.

Lemma push_nulls_safe n k : Z.of_nat k <= n -> safe n (push_nulls k) (n - Z.of_nat k) any.
Proof. revert n. induction k as [|k IH]; intros n Hn; cbn [push_nulls]; safe_op. Qed.
Lemma exchange_all_safe n i count k : 0 <= n -> safe n (exchange_all i count k) n any.
Proof. revert n i. induction k as [|k IH]; intros n i Hn; cbn [exchange_all]; safe_op. Qed.
#[local] Hint Resolve push_nulls_safe exchange_all_safe : safe.

Lemma tuple_simple_safe : table_safe K B tuple_simple.
Proof. unfold tuple_simple, table_safe. safe_table. Qed.
Lemma tuple_nulls_safe : table_safe K B tuple_nulls.
Proof. unfold tuple_nulls, table_safe. safe_table. Qed.
Lemma tuple_args_safe : table_safe K B tuple_args.
Proof. unfold tuple_args, table_safe. safe_table. Qed.
End tuples.

(** ** Control registers *)

Section control.
Context (K B : Z) (HK : 40 <= K) (HB : B < 2 ^ 61).
Abbreviation safe := (safe K B).
Abbreviation safe_at := (safe_at K B).
Abbreviation good := (good K B).
Abbreviation value_ok := (value_ok B).
Abbreviation values_ok := (values_ok B).
Abbreviation cont_ok := (cont_ok B).
Abbreviation data_ok := (data_ok B).
Abbreviation reg_ok := (reg_ok B).
Abbreviation live := (live B).

(** Copies and changes of registers keep them sound. *)
Lemma clone_ok c : cont_ok c -> cont_ok (cloneContinuation c).
Proof. intros Hc. exact (proj1 (copy_cont_ok B c Hc)). Qed.
Lemma clone_nil c : cont_ok c -> c <> CNil -> cloneContinuation c <> CNil.
Proof. intros Hc. exact (proj2 (copy_cont_ok B c Hc)). Qed.

Lemma reg_ok_set_D r i c : reg_ok r -> cell_ok c -> reg_ok (set_D r i (Some c)).
Proof. destruct r. cbn. intros (? & ? & ? & ? & ? & ? & ?) Hc. repeat match goal with |- context [?x =? ?y] => destruct (Z.eqb_spec x y) end; tauto. Qed.
Lemma reg_ok_set_C7 r t : reg_ok r -> values_ok t -> reg_ok (set_C7 r (Some t)).
Proof. destruct r. cbn. rewrite foldr_all. intros (? & ? & ? & ? & ? & ? & ?) Hc. tauto. Qed.

Lemma r_C_set_D r i c j : r_C (set_D r i c) j = r_C r j.
Proof. destruct r. unfold set_D. by repeat destruct (_ =? _). Qed.
Lemma r_C_set_C7 r t j : r_C (set_C7 r t) j = r_C r j.
Proof. by destruct r. Qed.

Lemma defineSaved_ok i c r : cont_ok c -> reg_ok r -> reg_ok (defineSavedContinuation i c r).
Proof. intros Hc Hr. unfold defineSavedContinuation. destruct (IsNullContinuation _); [|done]. apply reg_ok_set_C; [done|by apply clone_ok]. Qed.

Lemma live_set_D r i c : live r -> cell_ok c -> live (set_D r i (Some c)).
Proof. intros [Hr Hl] Hc. split; [by apply reg_ok_set_D|]. intros j. by rewrite r_C_set_D. Qed.
Lemma live_set_C7 r t : live r -> values_ok t -> live (set_C7 r (Some t)).
Proof. intros [Hr Hl] Ht. split; [by apply reg_ok_set_C7|]. intros j. by rewrite r_C_set_C7. Qed.

Lemma Register_Set_ok i v r : reg_ok r -> value_ok v -> exists b r', Register_Set i v r = (Ok b, r') /\ reg_ok r' /\ (live r -> live r').
Proof.
  intros Hr Hv. assert (Hsame : forall b, exists b' r', (Ok b : outcome bool, r) = (Ok b', r') /\ reg_ok r' /\ (live r -> live r')) by (intros b; by exists b, r).
  unfold Register_Set. mrun. destruct (i <? 0); [apply Hsame|]. destruct (i <? 4); [|destruct (i <? 6); [|destruct (i =? 7); [|apply Hsame]]].
  - destruct v as [| | | | | | |c]; try apply Hsame. destruct Hv as [Hne Hc]. destruct (IsNullContinuation c); [apply Hsame|].
    eexists _, _. split; [reflexivity|]. split; [by apply reg_ok_set_C|]. intros Hl. by apply live_set_C.
  - destruct v as [| | |[c|]| | | |]; try apply Hsame. eexists _, _. split; [reflexivity|]. split; [by apply reg_ok_set_D|]. intros Hl. by apply live_set_D.
  - destruct v as [| | | | | |[t|]|]; try apply Hsame. apply tuple_ok in Hv. eexists _, _. split; [reflexivity|]. split; [by apply reg_ok_set_C7|]. intros Hl. by apply live_set_C7.
Qed.

Lemma Register_Define_ok i v r : reg_ok r -> value_ok v -> reg_ok (snd (Register_Define i v r)).
Proof.
  intros Hr Hv. unfold Register_Define. mrun. destruct (i <? 0); [done|]. destruct (i <? 4); [|destruct (i <? 6); [|destruct (i =? 7); [|done]]].
  - destruct v as [| | | | | | |c]; try done. destruct Hv as [Hne Hc]. destruct (IsNullContinuation c); [done|]. destruct (negb _); [done|].
    change (reg_ok (set_C r i c)). by apply reg_ok_set_C.
  - destruct (r_D r (i - 4)); [done|]. destruct (Register_Set_ok i v r Hr Hv) as (b & r' & -> & Hr' & _). done.
  - destruct v as [| | | | | |[t|]|]; try done. apply tuple_ok in Hv. destruct (r_C7 r); [done|]. change (reg_ok (set_C7 r (Some t))). by apply reg_ok_set_C7.
Qed.

(** Control data that are there stay there. *)
Definition has_data (c : cont) : bool := match GetControlData c with Some _ => true | None => false end.

Lemma has_data_nil c : has_data c = true -> c <> CNil.
Proof. by destruct c. Qed.

Lemma update_data_ok f c : cont_ok c -> has_data c = true -> (forall d, data_ok d -> data_ok (f d)) -> cont_ok (update_data f c) /\ has_data (update_data f c) = true.
Proof.
  intros Hc Hd Hf. destruct c; try done; (split; [|done]).
  - destruct Hc as [Hc1 Hc2]. exact (conj (Hf _ Hc1) Hc2).
  - destruct Hc as (Hc1 & Hc2). exact (conj (Hf _ Hc1) Hc2).
Qed.

Lemma update_save_ok f c : cont_ok c -> has_data c = true -> (forall r, reg_ok r -> reg_ok (f r)) -> cont_ok (update_save f c) /\ has_data (update_save f c) = true.
Proof. intros Hc Hd Hf. apply update_data_ok; [done..|]. intros d [Hr Hs]%data_ok_eq. apply data_ok_eq. split; [by apply Hf|done]. Qed.

Lemma ForceData_safe n c : 0 <= n -> c <> CNil -> cont_ok c -> safe n (ForceControlData c) n (fun c' => cont_ok c' /\ has_data c' = true).
Proof.
  intros Hn Hne Hc st Hst. pose proof (ForceControlData_safe K B n c Hn Hne Hc st Hst) as H. unfold safe_at in *.
  assert (Hd : forall c' st', ForceControlData c st = (Ok c', st') -> has_data c' = true) by (intros c' st'; destruct c; try done; by intros [= <- <-]).
  destruct (ForceControlData c st) as [[c'|e|] st']; [|done..]. destruct H as (Hg & _ & Hc'). split; [done|]. split; [done|]. by apply (Hd c' st').
Qed.

Lemma define_ok i v r : value_ok v -> reg_ok r -> reg_ok (define i v r).
Proof. intros Hv Hr. by apply Register_Define_ok. Qed.

Lemma clone_value_ok v : value_ok v -> value_ok (cloneControlRegisterValue v).
Proof. destruct v as [| | | | | | |c]; try done. intros [Hne Hc]. cbn. split; [by apply clone_nil|by apply clone_ok]. Qed.

Lemma register_value_ok r i : live r -> opt_ok value_ok (register_value r i).
Proof.
  intros [Hr Hl]. unfold register_value, Register_Get. apply reg_ok_eq in Hr as (HC & HD & H7).
  destruct (_ && _); [|destruct (_ && _); [|destruct (_ =? _); [|done]]]; cbn [fmap option_fmap option_map opt_ok].
  - apply clone_value_ok. destruct (IsNullContinuation _); [by split|]. split; [apply Hl|apply HC].
  - specialize (HD (i - 4)). cbn. by destruct (r_D r (i - 4)).
  - cbn. destruct (r_C7 r) as [t|]; [by apply foldr_all|done].
Qed.

Lemma define_value_ok i v c : cont_ok c -> has_data c = true -> opt_ok value_ok v -> cont_ok (define_value i v c) /\ has_data (define_value i v c) = true.
Proof. intros Hc Hd Hv. destruct v as [v|]; [|done]. apply update_save_ok; [done..|]. intros r Hr. by apply define_ok. Qed.

(** *** Operations *)

Lemma Extract_from n saveCR stackCopy ccArgs :
  0 <= n -> Z.testbit saveCR 2 = false ->
  safe n (ExtractCurrentContinuation saveCR stackCopy ccArgs) (Z.min n 8) (fun cc => is_ordinary cc = true /\ cc <> CNil /\ cont_ok cc).
Proof.
  intros Hn Hb. eapply safe_weaken; [apply (Extract_safe K B HK HB (Z.min n 8)); [lia|done]|lia|lia|]. intros cc [Ho Hc]. split_and!; [done| |done]. by destruct cc.
Qed.

Lemma popContinuation_safe n : 0 <= n -> safe n popContinuation (n + 1) (fun c => c <> CNil /\ cont_ok c).
Proof. intros Hn. eapply safe_weaken; [apply (on_stack_safe K B n (-1)); [apply PopContinuation_safe|lia..]|lia|lia|done]. Qed.

Lemma set_data_safe n i c : 0 <= n -> cont_ok c /\ has_data c = true -> safe n (set_c i c) n any.
Proof. intros Hn [Hc Hd]. apply set_c_safe; [done|done|by apply has_data_nil]. Qed.

Lemma sets_c0_safe n c loop : 0 <= n -> c <> CNil -> cont_ok c -> loop <> CNil -> cont_ok loop -> safe n (sets_c0 c loop) n any.
Proof.
  intros Hn Hne Hc Hln Hl st Hst. eapply safe_call; [exact Hst|by apply control_data_safe|]. intros d st1 _ Hst1. by apply set_c0_safe.
Qed.

Lemma c1EnvelopeIf_safe n b c : 0 <= n -> c <> CNil -> cont_ok c -> safe n (c1EnvelopeIf b c) n (fun c' => c' <> CNil /\ cont_ok c').
Proof.
  intros Hn Hne Hc st Hst. unfold c1EnvelopeIf. destruct (negb b); [by apply (safe_ret _ _ n)|]. unfold c1Envelope. apply safe_assoc.
  eapply safe_call; [exact Hst|apply ForceData_safe; [done|by apply clone_nil|by apply clone_ok]|]. intros c' st1 [Hc' Hd] Hst1. apply safe_assoc. safe_step. apply safe_bind_ret.
  destruct (live_C K B st1 n 0 Hst1), (live_C K B st1 n 1 Hst1).
  match goal with |- safe_at _ (set_c 1 ?x ;; _) _ _ => assert (Hx : cont_ok x /\ has_data x = true) by (apply update_save_ok; [done..|]; intros r Hr; by repeat apply defineSaved_ok) end.
  eapply safe_call; [exact Hst1|by apply set_data_safe|]. intros _ st2 _ Hst2. apply (safe_ret _ _ n); [done|]. split; [apply has_data_nil, Hx|apply Hx].
Qed.

Lemma forced_register_safe n i : 0 <= n -> safe n (forced_register i) n (fun c => cont_ok c /\ has_data c = true).
Proof.
  intros Hn st Hst. unfold forced_register. safe_step. destruct (live_C K B st n i Hst). apply ForceData_safe; [done|by apply clone_nil|by apply clone_ok|done].
Qed.

Lemma c1SaveSet_safe n b : 0 <= n -> safe n (c1SaveSet b) n any.
Proof.
  intros Hn. assert (Hlast : safe n (st ← get_state; set_c 1 (cloneContinuation (r_C (st_Reg st) 0))) n any).
  { intros st Hst. safe_step. destruct (live_C K B st n 0 Hst). apply set_c_safe; [done|by apply clone_ok|by apply clone_nil|done]. }
  intros st Hst. unfold c1SaveSet. destruct b; [|apply safe_bind_ret; by apply Hlast]. apply safe_assoc. safe_step. apply safe_assoc. destruct (live_C K B st n 0 Hst), (live_C K B st n 1 Hst).
  eapply safe_call; [exact Hst|apply ForceData_safe; [done|by apply clone_nil|by apply clone_ok]|]. intros c0 st1 [Hc0 Hd] Hst1.
  eapply safe_call; [exact Hst1|apply set_data_safe; [done|]|intros _ st2 _ Hst2; by apply Hlast]. apply update_save_ok; [done..|]. intros r Hr. by apply defineSaved_ok.
Qed.

Lemma setControlRegister_safe n i v : 0 <= n -> value_ok v -> safe n (setControlRegister i v) n any.
Proof.
  intros Hn Hv st Hst. unfold setControlRegister. destruct (gd_regs _ _ _ _ Hst) as [Hr Hl].
  destruct (Register_Set_ok i v (st_Reg st) Hr Hv) as (b & r' & Hset & _ & Hlive). unfold safe_at, on_reg, mbind, M_bind. rewrite Hset.
  pose proof (good_reg K B n st r' Hst (Hlive (conj Hr Hl))) as Hst1. pose proof (safe_guard_end K B n n _ (negb b) (VMErr CodeTypeCheck) any Hst1 Hn) as Hg.
  by apply Hg.
Qed.

Lemma defineControlRegister_safe n i v c :
  0 <= n -> opt_ok value_ok v -> cont_ok c -> has_data c = true -> safe n (defineControlRegister i v c) n (fun c' => cont_ok c' /\ has_data c' = true).
Proof.
  intros Hn Hv Hc Hd st Hst. unfold defineControlRegister. safe_step. eapply safe_call; [exact Hst|apply control_data_safe; [done|by apply has_data_nil|done]|].
  intros d st1 [-> Hdo] Hst1. unfold has_data in Hd. destruct (GetControlData c) as [d|] eqn:Hg; [|done]. destruct v as [v|]; [|by apply (safe_fail _ _ n)].
  apply data_ok_eq in Hdo as [Hr _]. pose proof (Register_Define_ok i v (d_Save d) Hr Hv) as Hr'. destruct (Register_Define i v (d_Save d)) as [ok save]. cbn [snd] in Hr'. cbv zeta.
  safe_step. apply (safe_ret _ _ n); [done|]. apply update_save_ok; [done|unfold has_data; by rewrite Hg|done].
Qed.

Lemma define_mask_safe n k i m c :
  0 <= n -> cont_ok c -> has_data c = true -> safe n (define_mask k i m c) n (fun c' => cont_ok c' /\ has_data c' = true).
Proof.
  revert i m c. induction k as [|k IH]; intros i m c Hn Hc Hd st Hst; cbn [define_mask]; [by apply (safe_ret _ _ n)|].
  destruct (m =? 0); [by apply (safe_ret _ _ n)|]. destruct (Z.land m 1 =? 0); [apply safe_bind_ret; by apply IH|]. apply safe_assoc. safe_step.
  eapply safe_call; [exact Hst|apply defineControlRegister_safe; [done|apply register_value_ok, Hst|done..]|]. intros c' st1 [Hc' Hd'] Hst1. by apply IH.
Qed.

Lemma push_data_safe n c : 1 <= n -> cont_ok c /\ has_data c = true -> safe n (on_stack (PushOwnedContinuation c)) (n - 1) any.
Proof. intros Hn [Hc _]. apply (on_stack_safe K B n 1); [by apply PushOwnedContinuation_safe|lia..]. Qed.

(** A captured stack that has been paid for is short enough to be kept. *)
Lemma captured_safe n s st :
  0 <= n -> good n st -> len s <= 2 * B ->
  safe_at st (ConsumeStackGas s) n (fun _ => len s <= B).
Proof.
  intros Hn Hst Hs. pose proof (paid K B HK HB n s st Hn Hst Hs) as Hp. unfold safe_at. destruct (ConsumeStackGas s st) as [[[]|e|] st1]; [|by left|done].
  destruct Hp as (Hst1 & _ & Hp). split; [done|]. destruct Hst1 as [[? ? ? ? ?] ? ? ? ? ? ?]. unfold used in *. lia.
Qed.

Lemma ordinary_ok d code : data_ok d -> slice_ok code -> cont_ok (COrdinary d code).
Proof. by split. Qed.

Lemma code_cont_ok n st code : good n st -> slice_ok code -> cont_ok (code_cont st code).
Proof. intros Hst Hc. exact (conj (conj (empty_ok B) I) Hc). Qed.

Lemma SplitTop_on n top drop : 0 <= n -> safe n (on_stack (SplitTop top drop)) n (fun s => values_ok s /\ len s <= B).
Proof.
  intros Hn st Hst. pose proof (SplitTop_safe B top drop _ (gd_stack _ _ _ _ Hst)) as Hs. pose proof (good_len K B n st Hst). unfold safe_at, on_stack.
  destruct (Z.le_gt_cases top (len (st_Stack st))).
  - destruct (SplitTop top drop (st_Stack st)) as [[ns|e|] s]; [| |done].
    + destruct Hs as (Hs & Hl & Hns & Hnl). split; [apply (good_stack _ _ n); (done || lia)|]. split; [done|lia].
    + right. apply (good_stack _ _ n); [done|tauto|lia].
  - unfold SplitTop. mrun. cbv zeta. mrun. destruct (_ || _) eqn:Hg; [|lia]. right. apply (good_stack _ _ n); [done|apply Hst|lia].
Qed.

Lemma move_from_stack_on n s num : 0 <= n -> values_ok s -> len s <= B -> safe n (move_from_stack s num) n (fun ns => values_ok ns /\ len ns <= 2 * B).
Proof.
  intros Hn Hs Hl st Hst. pose proof (MoveFrom_safe B num s _ Hs (gd_stack _ _ _ _ Hst)) as Hm. pose proof (good_len K B n st Hst). unfold safe_at, move_from_stack.
  destruct (MoveFrom num (s, st_Stack st)) as [[[]|e|] [new rest]]; [| |done].
  - destruct Hm as (Hns & Hr & ? & Hnl & Hrl). pose proof (len_nonneg rest). cbn. split; [apply (good_stack _ _ n); (done || lia)|]. split; [done|lia].
  - cbn. right. apply (good_stack _ _ n); [done|tauto|lia].
Qed.

Lemma blessArgsCommon_safe n copyCount more : 2 <= n -> safe n (blessArgsCommon copyCount more) 0 any.
Proof.
  intros Hn st Hst. unfold blessArgsCommon, checkStackDepth. apply safe_assoc. do 3 safe_step.
  assert (Hstk : safe (n - -1) (if 0 <? copyCount then on_stack (SplitTop copyCount 0) else mret []) (n - -1) (fun s => values_ok s /\ len s <= B)).
  { destruct (0 <? copyCount); [apply SplitTop_on; lia|]. intros st2 Hst2. apply (safe_ret _ _ (n - -1)); [done|]. split; [constructor|].
    pose proof (good_len K B _ st2 Hst2). pose proof (len_nonneg (st_Stack st2)). change (len []) with 0. lia. }
  eapply safe_call; [eassumption|exact Hstk|]. intros stk st2 [Hv Hl] Hst2. pose proof (len_nonneg stk).
  eapply safe_bind; [apply (captured_safe (n - -1)); (done || lia)|]. intros [] st3 Hle Hst3. safe_step.
  eapply safe_tail; [exact Hst3|apply push_data_safe; [lia|]|lia|done]. split; [|done]. apply ordinary_ok; [|done]. apply data_ok_eq. split; [apply empty_ok|]. by split.
Qed.

Lemma set_args_ok c d stk k more :
  cont_ok c -> has_data c = true -> reg_ok (d_Save d) -> opt_ok (fun l => len l <= B /\ values_ok l) stk ->
  cont_ok (update_data (fun _ => mkData (d_Save d) stk k more) c) /\ has_data (update_data (fun _ => mkData (d_Save d) stk k more) c) = true.
Proof. intros Hc Hd Hr Hs. apply update_data_ok; [done..|]. intros _ _. by apply data_ok_eq. Qed.

Lemma setContinuationArgsCommon_safe n copyCount more : 2 <= n -> safe n (setContinuationArgsCommon copyCount more) 0 any.
Proof.
  intros Hn st Hst. unfold setContinuationArgsCommon, checkStackDepth. apply safe_assoc. do 2 safe_step.
  eapply safe_call; [exact Hst|apply popContinuation_safe; lia|]. intros c st1 [Hne Hc] Hst1.
  eapply (safe_call _ _ (n + 1) (n + 1) _ _ _ _ (fun c => cont_ok c)); [exact Hst1| |intros c' st2 Hc' Hst2; eapply safe_tail; [exact Hst2|eapply on_stack_safe; [by apply PushOwnedContinuation_safe|lia..]|lia|done]].
  clear st st1 H Hst Hst1. intros st Hst. destruct (negb _ || _); [|by apply (safe_ret _ _ (n + 1))].
  eapply safe_call; [exact Hst|apply ForceData_safe; (done || lia)|]. intros c' st1 [Hc' Hd'] Hst1.
  eapply safe_call; [exact Hst1|apply control_data_safe; [lia|by apply has_data_nil|done]|]. intros d st2 [-> Hdo] Hst2.
  pose proof Hd' as Hd2. unfold has_data in Hd2. destruct (GetControlData c') as [d|]; [|done]. apply data_ok_eq in Hdo as [Hr Hs].
  destruct (0 <? copyCount); [|apply safe_bind_ret; apply (safe_ret _ _ (n + 1)); [done|]; by apply set_args_ok].
  apply safe_assoc. safe_step. apply safe_assoc.
  eapply (safe_call _ _ (n + 1) (n + 1) _ _ _ _ (fun s => values_ok s /\ len s <= 2 * B)); [exact Hst2| |].
  { destruct (d_Stack d) as [s|]; [apply move_from_stack_on; [lia|apply Hs..]|]. intros st3 Hst3. pose proof (good_len K B _ st3 Hst3). pose proof (len_nonneg (st_Stack st3)).
    eapply ends_weaken; [apply (SplitTop_on (n + 1)); (done || lia)|lia|]. intros s [? ?]. split; [done|lia]. }
  intros stk st3 [Hv Hl] Hst3. apply safe_assoc. eapply safe_bind; [apply (captured_safe (n + 1)); (done || lia)|]. intros [] st4 Hle Hst4. apply safe_bind_ret.
  apply (safe_ret _ _ (n + 1)); [done|]. by apply (set_args_ok c' (mkData _ _ _ _)).
Qed.

(** The top of the stack and the rest of it. *)
Lemma split_on n top st :
  0 <= n -> good n st -> top <= len (st_Stack st) ->
  match on_stack (SplitTop top 0) st with
  | (Ok ns, st') => good n (set_stack st' ns) /\ values_ok (st_Stack st') /\ len (st_Stack st') <= B /\ live (st_Reg st')
  | (Err e, st') => good 0 st'
  | (Panic, _) => False
  end.
Proof.
  intros Hn Hst Ht. pose proof (SplitTop_safe B top 0 _ (gd_stack _ _ _ _ Hst)) as Hs. pose proof (good_len K B n st Hst). unfold on_stack.
  destruct (SplitTop top 0 (st_Stack st)) as [[ns|e|] s]; [| |done].
  - destruct Hs as (Hs & Hl & Hns & Hnl). split_and!.
    + replace (set_stack (set_stack st s) ns) with (set_stack st ns) by (by destruct st). apply (good_stack _ _ n); (done || lia).
    + by destruct st.
    + destruct st. cbn in *. lia.
    + pose proof (gd_regs _ _ _ _ Hst). by destruct st.
  - apply (good_stack _ _ n); [done|tauto|lia].
Qed.

Lemma returned_safe n d altStack copyCount :
  0 <= n -> opt_ok (fun l => len l <= B /\ values_ok l) (d_Stack d) -> values_ok altStack -> len altStack <= B ->
  safe n (match d_Stack d with
          | None => mret altStack
          | Some s => lift (r ← run (MoveFrom copyCount) (s, altStack); Ok (fst (snd r)))
          end) n (fun s => values_ok s /\ len s <= 2 * B).
Proof.
  intros Hn Hd Ha Hl st Hst. pose proof (len_nonneg altStack). destruct (d_Stack d) as [s|]; [|apply (safe_ret _ _ n); [done|]; split; [done|lia]].
  apply (safe_lift_end _ _ n); [done..|]. destruct Hd as [Hsl Hs]. pose proof (MoveFrom_safe B copyCount s altStack Hs Ha) as Hm. unfold run.
  destruct (MoveFrom copyCount (s, altStack)) as [[[]|e|] [new rest]]; [|done..]. destruct Hm as (Hv & _ & ? & Hnl & Hrl). pose proof (len_nonneg rest). cbn. split; [done|lia].
Qed.

Lemma returnArgsCommon_safe n count : 0 <= n -> safe n (returnArgsCommon count) 0 any.
Proof.
  intros Hn st Hst. unfold returnArgsCommon, checkStackDepth. apply safe_assoc. do 3 safe_step. destruct (_ =? count); [by apply (safe_ret_end _ _ n)|]. cbv zeta.
  pose proof (split_on n count st Hn Hst ltac:(lia)) as Hs. unfold safe_at. unfold mbind at 1, M_bind at 1. destruct (on_stack _ st) as [[ns|e|] st1]; [|by right|done].
  destruct Hs as (Hst1 & Hv & Hl & Hlive). rewrite bind_get. cbv zeta. apply (safe_put _ _ n); [done|]. intros st2 Hst2. destruct Hlive as [Hr Hne].
  eapply safe_call; [exact Hst2|apply ForceData_safe; [done|apply clone_nil; [by apply reg_ok_C|apply Hne]|by apply clone_ok, reg_ok_C]|]. intros c st3 [Hc Hd] Hst3.
  eapply safe_call; [exact Hst3|apply control_data_safe; [done|by apply has_data_nil|done]|]. intros d st4 [-> Hdo] Hst4.
  pose proof Hd as Hd2. unfold has_data in Hd2. destruct (GetControlData c) as [d|]; [|done]. apply data_ok_eq in Hdo as [Hsave Hstk].
  safe_step. eapply safe_call; [exact Hst4|by apply returned_safe|]. intros stk st5 [Hsv Hsl] Hst5.
  eapply safe_bind; [by apply (captured_safe n)|]. intros [] st6 Hle Hst6. eapply safe_tail; [exact Hst6|apply set_data_safe; [done|]|lia|done]. by apply set_args_ok.
Qed.

Lemma Force_run c st : c <> CNil -> cont_ok c -> exists c', ForceControlData c st = (Ok c', st) /\ cont_ok c' /\ has_data c' = true.
Proof.
  intros Hne Hc. assert (Hx : cont_ok (CArgExt (mkData emptyReg None ControlDataAllArgs CP) c)) by exact (conj (conj (empty_ok B) I) (conj Hne Hc)).
  destruct c; try done; (eexists; split; [reflexivity|]; split; [exact Hx || exact Hc|done]).
Qed.

(** The handler takes the place of the saved [c2] before anything can fail. *)
Lemma enter_try n cc h st :
  extracted K B 7 n cc st -> h <> CNil -> cont_ok h ->
  let st' := set_reg st (set_C (st_Reg st) 0 cc) in good n (set_reg st' (set_C (st_Reg st') 2 h)).
Proof.
  intros (Ho & Hcc & _ & Hg) Hn Hh st'. specialize (Hg h Hn Hh). assert (Hne : cc <> CNil) by (by destruct cc).
  replace (set_reg st' _) with (set_reg (set_reg st (set_C (st_Reg st) 2 h)) (set_C (set_C (st_Reg st) 2 h) 0 cc)) by (subst st'; destruct st as [? ? ? []]; reflexivity).
  apply good_reg; [done|]. apply live_set_C; [|done..]. pose proof (gd_regs _ _ _ _ Hg) as Hl. by destruct st.
Qed.

Lemma executeTry_safe n params retvals : 1 <= n -> safe n (executeTry params retvals) 0 any.
Proof.
  intros Hn st Hst. unfold executeTry, checkStackDepth. apply safe_assoc. do 2 safe_step.
  eapply safe_call; [exact Hst|apply popContinuation_safe; lia|]. intros handler st1 [Hhn Hh] Hst1.
  eapply safe_call; [exact Hst1|apply popContinuation_safe; lia|]. intros c st2 [Hcn Hc] Hst2. safe_step. cbv zeta. destruct (live_C K B st2 _ 2 Hst2) as [H2 H2n].
  set (oldC2 := r_C (st_Reg st2) 2) in *. apply (good_le _ _ _ 1) in Hst2; [|lia].
  pose proof (extract_ends K B HK HB 1 7 params retvals st2 ltac:(lia) Hst2) as He. unfold safe_at. unfold mbind at 1, M_bind at 1.
  destruct (ExtractCurrentContinuation 7 params retvals st2) as [[cc|e|] st3]; [|done..]. assert (Hcc : cc <> CNil /\ cont_ok cc) by (split; [destruct He as [? _]; by destruct cc|apply He]).
  destruct (Force_run handler st3 Hhn Hh) as (h & Hf & Hho & Hhd). rewrite (bind_Ok _ _ _ _ _ Hf). clear Hf. destruct Hcc as [Hccn Hcc].
  match goal with |- context [set_c 2 ?x] => assert (Hx : cont_ok x /\ has_data x = true) end.
  { apply update_save_ok; [done..|]. intros r Hr. apply define_ok; [split; [by apply clone_nil|by apply clone_ok]|]. apply define_ok; [split; [by apply clone_nil|by apply clone_ok]|done]. }
  destruct Hx as [Hx Hxd]. pose proof (enter_try 1 cc _ st3 He (has_data_nil _ Hxd) Hx) as Hst4.
  exact (Jump_safe K B HK HB c Hcn Hc _ Hst4).
Qed.

(** ** The tables of [tvm/op/exec] *)

Lemma current_code_ok n st : good n st -> slice_ok (st_CurrentCode st).
Proof. intros Hst. apply Hst. Qed.
Lemma reg_cont_ok n st i : good n st -> cont_ok (r_C (st_Reg st) i).
Proof. intros Hst. apply (live_C K B st n i Hst). Qed.
Lemma reg_cont_nil n st i : good n st -> r_C (st_Reg st) i <> CNil.
Proof. intros Hst. apply (live_C K B st n i Hst). Qed.
Lemma saved_ok f c : cont_ok c -> has_data c = true -> (forall r, reg_ok r -> reg_ok (f r)) -> cont_ok (update_save f c).
Proof. intros Hc Hd Hf. by apply update_save_ok. Qed.
Lemma saved_nil f c : has_data c = true -> update_save f c <> CNil.
Proof. by destruct c. Qed.
Lemma cont_value_ok c : c <> CNil -> cont_ok c -> value_ok (VCont c).
Proof. by split. Qed.

Lemma again_ok c : c <> CNil -> cont_ok c -> cont_ok (CAgain c).
Proof. by split. Qed.
Lemma repeat_ok n c1 c2 : c1 <> CNil -> cont_ok c1 -> c2 <> CNil -> cont_ok c2 -> cont_ok (CRepeat n c1 c2).
Proof. by repeat split. Qed.
Lemma until_ok c1 c2 : c1 <> CNil -> cont_ok c1 -> c2 <> CNil -> cont_ok c2 -> cont_ok (CUntil c1 c2).
Proof. by repeat split. Qed.
Lemma while_ok b c1 c2 c3 : c1 <> CNil -> cont_ok c1 -> c2 <> CNil -> cont_ok c2 -> c3 <> CNil -> cont_ok c3 -> cont_ok (CWhile b c1 c2 c3).
Proof. by repeat split. Qed.

Lemma reg_value_ok n st i : good n st -> opt_ok value_ok (register_value (st_Reg st) i).
Proof. intros Hst. apply register_value_ok, Hst. Qed.
Lemma some_value_ok v : value_ok v -> opt_ok value_ok (Some v).
Proof. done. Qed.

(** Side conditions on continuations and registers follow their shape. *)
Ltac sound :=
  first [assumption | discriminate | lazymatch goal with
  | |- Sound.cont_ok _ (update_save _ _) => apply saved_ok; [sound|sound|intros ? ?; sound]
  | |- Sound.cont_ok _ (cloneContinuation _) => apply clone_ok; sound
  | |- Sound.cont_ok _ (Copy_cont _) => apply clone_ok; sound
  | |- Sound.cont_ok _ (r_C (st_Reg _) _) => eapply reg_cont_ok; eassumption
  | |- Sound.cont_ok _ (CAgain _) => apply again_ok; sound
  | |- Sound.cont_ok _ (CRepeat _ _ _) => apply repeat_ok; sound
  | |- Sound.cont_ok _ (CUntil _ _) => apply until_ok; sound
  | |- Sound.cont_ok _ (CWhile _ _ _ _) => apply while_ok; sound
  | |- Sound.cont_ok _ (code_cont _ _) => eapply code_cont_ok; [eassumption|sound]
  | |- update_save _ _ <> CNil => apply saved_nil; sound
  | |- cloneContinuation _ <> CNil => apply clone_nil; sound
  | |- Copy_cont _ <> CNil => apply clone_nil; sound
  | |- r_C (st_Reg _) _ <> CNil => eapply reg_cont_nil; eassumption
  | |- _ <> CNil => apply has_data_nil; assumption
  | |- Sound.reg_ok _ (defineSavedContinuation _ _ _) => apply defineSaved_ok; sound
  | |- Sound.reg_ok _ (define _ _ _) => apply define_ok; sound
  | |- Sound.reg_ok _ (if ?b then _ else _) => destruct b; sound
  | |- Sound.value_ok _ (if ?b then _ else _) => destruct b; sound
  | |- Sound.value_ok _ (VCont _) => apply cont_value_ok; sound
  | |- Sound.value_ok _ (cloneControlRegisterValue _) => apply clone_value_ok; sound
  | |- opt_ok _ None => exact I
  | |- opt_ok _ (Some _) => apply some_value_ok; sound
  | |- opt_ok _ (register_value _ _) => eapply reg_value_ok; eassumption
  | |- slice_ok (st_CurrentCode _) => eapply current_code_ok; eassumption
  end].
#[local] Hint Extern 0 (Sound.cont_ok _ _) => solve [sound] : safe.
#[local] Hint Extern 0 (_ <> CNil) => solve [sound] : safe.
#[local] Hint Extern 0 (Sound.value_ok _ _) => solve [sound] : safe.
#[local] Hint Extern 0 (opt_ok _ _) => solve [sound] : safe.
#[local] Hint Extern 0 (slice_ok _) => solve [sound] : safe.
#[local] Hint Resolve Extract_from popContinuation_safe sets_c0_safe c1EnvelopeIf_safe forced_register_safe c1SaveSet_safe setControlRegister_safe
  defineControlRegister_safe define_mask_safe blessArgsCommon_safe setContinuationArgsCommon_safe returnArgsCommon_safe executeTry_safe ForceData_safe : safe.

Lemma push_register_safe n i : 1 <= n -> safe n (push_register i) 0 any.
Proof.
  intros Hn st Hst. unfold push_register. safe_step. pose proof (reg_value_ok n st i Hst) as Hv. destruct (register_value _ i) as [v|]; [|apply (safe_fail _ _ n); [done|lia]].
  cbn [opt_ok] in Hv. safe.
Qed.

Lemma INVERT_safe n : 0 <= n -> safe n INVERT 0 any.
Proof. intros Hn st Hst. unfold INVERT. eapply (safe_modify_end _ _ n); [|lia|done]. apply good_reg; [done|]. destruct (live_C K B st n 0 Hst), (live_C K B st n 1 Hst). apply live_set_C; [apply live_set_C; [apply Hst|done..]|done..]. Qed.

Lemma SAMEALT_safe n : 0 <= n -> safe n SAMEALT 0 any.
Proof.
  intros Hn st Hst. unfold SAMEALT. safe_step. destruct (live_C K B st n 0 Hst) as [Hc Hne]. assert (Hs : safe_at st (set_c 1 (Copy_cont (r_C (st_Reg st) 0))) 0 any).
  { eapply safe_tail; [exact Hst|apply set_c_safe; [done|by apply clone_ok|by apply clone_nil]|lia|done]. }
  by destruct (r_C (st_Reg st) 0).
Qed.

Lemma BOOLEVAL_safe n : 1 <= n -> safe n BOOLEVAL 0 any.
Proof.
  intros Hn st Hst. unfold BOOLEVAL. eapply safe_call; [exact Hst|apply popContinuation_safe; lia|]. intros c st1 [Hcn Hc] Hst1.
  eapply safe_call; [exact Hst1|apply Extract_from; [lia|done]|]. intros cc st2 (Ho & Hne & Hcc) Hst2.
  assert (H1 : cont_ok (CPushInt (-1) (Copy_cont cc))) by (split; [by destruct cc|by apply clone_ok]). assert (H0 : cont_ok (CPushInt 0 cc)) by (by split). safe.
Qed.
Lemma SAMEALTSAVE_safe n : 0 <= n -> safe n SAMEALTSAVE 0 any.
Proof.
  intros Hn st Hst. unfold SAMEALTSAVE. safe_step. destruct (live_C K B st n 0 Hst), (live_C K B st n 1 Hst).
  eapply safe_call; [exact Hst|apply ForceData_safe; [done|sound..]|]. intros c st1 [Hc Hd] Hst1. cbv zeta. safe.
Qed.
Lemma pushCtrOp_safe n i : 1 <= n -> safe n (pushCtrOp i) 0 any.
Proof.
  intros Hn st Hst. unfold pushCtrOp. destruct (_ || _); [|by apply (push_register_safe n)]. safe_step. eapply safe_tail; [exact Hst|eapply on_stack_safe; [apply PushAny_safe|lia..]|lia|done].
  destruct (gd_regs _ _ _ _ Hst) as [Hr _]. apply reg_ok_eq in Hr as (_ & HD & _). specialize (HD (i - 4)). by destruct (r_D _ (i - 4)).
Qed.

Lemma define_in_safe n creg i v : 0 <= n -> opt_ok value_ok v -> safe n (define_in creg i v) 0 any.
Proof.
  intros Hn Hv st Hst. unfold define_in. eapply safe_call; [exact Hst|by apply forced_register_safe|]. intros c st1 [Hc Hd] Hst1.
  eapply safe_call; [exact Hst1|by apply defineControlRegister_safe|]. intros c' st2 Hc' Hst2. eapply safe_tail; [exact Hst2|by apply set_data_safe|lia|done].
Qed.

Lemma popSaveCtrOp_safe n i : 0 <= n -> safe n (popSaveCtrOp i) 0 any.
Proof.
  intros Hn st Hst. unfold popSaveCtrOp. do 2 safe_step. eapply safe_call; [eassumption|apply forced_register_safe; lia|]. intros c0 st1 [Hc Hd] Hst1. safe_step. cbv zeta.
  destruct (define_value_ok i (register_value (st_Reg st1) i) c0 Hc Hd) as [Hx Hxd]; [by eapply reg_value_ok|]. apply has_data_nil in Hxd. destruct (i =? 0); safe.
Qed.

Lemma saveBothCtrOp_safe n i : 0 <= n -> safe n (saveBothCtrOp i) 0 any.
Proof.
  intros Hn st Hst. unfold saveBothCtrOp. eapply safe_call; [exact Hst|by apply forced_register_safe|]. intros c0 st1 [Hc0 Hd0] Hst1.
  eapply safe_call; [exact Hst1|by apply forced_register_safe|]. intros c1 st2 [Hc1 Hd1] Hst2. safe_step. cbv zeta.
  destruct (define_value_ok i (register_value (st_Reg st2) i) c0 Hc0 Hd0) as [Hx Hxd]; [by eapply reg_value_ok|].
  destruct (define_value_ok i (register_value (st_Reg st2) i) c1 Hc1 Hd1) as [Hy Hyd]; [by eapply reg_value_ok|]. apply has_data_nil in Hxd, Hyd. safe.
Qed.
#[local] Hint Resolve push_register_safe INVERT_safe SAMEALT_safe BOOLEVAL_safe SAMEALTSAVE_safe pushCtrOp_safe define_in_safe popSaveCtrOp_safe saveBothCtrOp_safe : safe.

Lemma exec_simple_safe : table_safe K B exec_simple.
Proof. unfold exec_simple, table_safe. safe_table. Qed.

Section lookups.
Context `{MeteredLookup}.

Lemma newThrowFixedOp_safe p bits imm mode arg x :
  8 <= bits < 2 ^ 32 -> 0 <= imm <= 64 -> newThrowFixedOp p bits imm mode arg = Ok x -> instruction_safe K B x.
Proof.
  intros Hb Hi. unfold newThrowFixedOp. destruct (negb _); [done|]. unfold operand. intros Hx. refine (operandV_safe K B 0 _ bits [] imm _ None None x _ Hi _ I Hx); [lia|]. clear Hx.
  intros args. apply (safe_weaken K B 18 _ 0 0 _ any); [safe_op|lia|lia|done].
Qed.

Lemma exec_args_safe : table_safe K B exec_args.
Proof. unfold exec_args, table_safe. safe_table. all: eapply newThrowFixedOp_safe; [| |eassumption]; lia. Qed.

(** *** Instructions with references *)

Lemma accepted_safe bits m : 0 <= bits < 2 ^ 62 -> safe (10 + bits) m 0 any -> instance_safe K B (accepted bits m).
Proof. intros Hb Hm. by exists bits. Qed.
Lemma rejected_safe bits e : 0 <= bits < 2 ^ 62 -> instance_safe K B (rejected bits e).
Proof. intros Hb. exists bits. split_and!; [done|lia|lia|]. cbn. intros st Hst. apply (safe_fail _ _ (10 + bits)); [done|lia]. Qed.

Lemma reading_safe {A} bits (m : M Slice A) k Q :
  0 <= bits < 2 ^ 62 -> slice_safe m Q -> (forall a, Q a -> slice_safe (k a) (instance_safe K B)) -> slice_safe (reading bits m k) (instance_safe K B).
Proof. intros Hb Hm Hk. eapply slice_attempt; [exact Hm|exact Hk|]. intros e. by apply slice_ret, rejected_safe. Qed.

Lemma take_refs_safe n : slice_safe (take_refs n) (opt_ok (fun l => Forall cell_ok l /\ length l = n)).
Proof.
  induction n as [|n IH]; cbn [take_refs]; [by apply slice_ret|]. eapply slice_attempt; [apply peekRefCellAt_safe| |intros e; by apply slice_ret].
  intros c Hc. eapply slice_bind; [apply SkipBitsAndRefs_safe; lia|]. intros _ _. eapply slice_bind; [exact IH|]. intros [l|] Hl; [|by apply slice_ret].
  destruct Hl as [Hl Hn]. apply slice_ret. cbn. split; [by constructor|by rewrite Hn].
Qed.

Lemma refCodeOp_safe p n fixed suffix action x :
  8 <= bp_Bits p -> 0 <= fixed -> bp_Bits p + fixed < 2 ^ 62 -> slice_safe suffix any ->
  (forall y refs, Forall cell_ok refs -> length refs = n -> safe 18 (action y refs) 0 any) ->
  refCodeOp p n fixed suffix action = Ok x -> instruction_safe K B x.
Proof.
  intros Hp Hf Hb Hs Ha. unfold refCodeOp. destruct (PrefixSlices _); [|done..]. intros [= <-]. cbn.
  eapply (reading_safe _ _ _ (fun r => opt_ok (fun l => Forall cell_ok l /\ length l = n) r.2)); [lia| |].
  - eapply slice_bind; [apply SkipBits_safe; lia|]. intros _ _. eapply slice_bind; [exact Hs|]. intros y _. eapply slice_bind; [apply take_refs_safe|]. intros refs Hr. by apply slice_ret.
  - intros [y refs] Hr. cbn in Hr. apply slice_ret, accepted_safe; [lia|]. destruct refs as [refs|]; [|intros st Hst; apply (safe_fail _ _ (10 + (bp_Bits p + fixed))); [done|lia]].
    destruct Hr. eapply safe_weaken; [by apply Ha|lia|lia|done].
Qed.

Lemma ref_at_safe n refs i : 0 <= n -> Forall cell_ok refs -> (i < length refs)%nat -> safe n (ref_at refs i) n cell_ok.
Proof.
  intros Hn Hr Hi st Hst. apply (safe_lift_end _ _ n); [done..|]. destruct (lookup_lt_is_Some_2 refs i Hi) as [c Hc]. rewrite Hc. exact (Forall_lookup_1 _ _ _ _ Hr Hc).
Qed.

Lemma some_cell_ok c : cell_ok c -> opt_ok cell_ok (Some c).
Proof. done. Qed.

Lemma loadContinuation_safe n c : 0 <= n -> cell_ok c -> safe n (loadContinuationFromCodeCell c) n (fun c => c <> CNil /\ cont_ok c).
Proof.
  intros Hn Hc st Hst. unfold loadContinuationFromCodeCell. eapply safe_call; [exact Hst|by apply BeginParse_safe|]. intros sl st1 Hsl Hst1. safe_step.
  apply (safe_ret _ _ n); [done|]. split; [done|by eapply code_cont_ok].
Qed.

Lemma call_ref_safe n refs i : 1 <= n -> Forall cell_ok refs -> (i < length refs)%nat -> safe n (call_ref refs i) 0 any.
Proof.
  intros Hn Hr Hi st Hst. unfold call_ref. eapply safe_call; [exact Hst|apply ref_at_safe; (done || lia)|]. intros c st1 Hc Hst1.
  eapply safe_call; [exact Hst1|apply loadContinuation_safe; (done || lia)|]. intros k st2 [Hk Hkc] Hst2. safe.
Qed.

Lemma jump_ref_safe n refs : 0 <= n -> Forall cell_ok refs -> (0 < length refs)%nat -> safe n (jump_ref refs) 0 any.
Proof.
  intros Hn Hr Hi st Hst. unfold jump_ref. eapply safe_call; [exact Hst|by apply ref_at_safe|]. intros c st1 Hc Hst1. unfold jumpToCodeCell.
  eapply safe_call; [exact Hst1|by apply BeginParse_safe|]. intros sl st2 Hsl Hst2. safe_step. eapply safe_tail; [exact Hst2|by apply JumpToCode_safe|lia|done].
Qed.

#[local] Hint Resolve ref_at_safe call_ref_safe jump_ref_safe some_cell_ok : safe.
#[local] Hint Extern 1 (_ < _)%nat => lia : safe.

Lemma IFREFELSEREF_safe n refs : 1 <= n -> Forall cell_ok refs -> length refs = 2%nat -> safe n (IFREFELSEREF refs) 0 any.
Proof. intros Hn Hr Hl st Hst. unfold IFREFELSEREF, popBool. safe_step. eapply safe_tail; [eassumption|apply call_ref_safe; [lia|done|]|lia|done]. destruct a; lia. Qed.

Lemma exec_refs_safe : table_safe K B exec_refs.
Proof.
  unfold exec_refs, ref_op, table_safe. safe_table.
  all: eapply refCodeOp_safe; [| | | | |eassumption]; [done|done|done|try (by apply slice_ret); slice_op|].
  all: clear - HK HB; intros y refs Hr Hl; cbv beta; first [by apply IFREFELSEREF_safe | apply jump_ref_safe; [done|done|lia] | safe_op].
Qed.

(** *** Constants in the code *)

Lemma decoded_op_safe ps m x : slice_safe m (instance_safe K B) -> decoded_op ps m = Ok x -> instruction_safe K B x.
Proof. intros Hm. unfold decoded_op. destruct (UIntPrefixes ps); [|done..]. cbn. destruct (PrefixSlices _); [|done..]. by intros [= <-]. Qed.

Lemma next_ref_safe : slice_safe next_ref cell_ok.
Proof. unfold next_ref. eapply slice_bind; [apply peekRefCellAt_safe|]. intros c Hc. eapply slice_bind; [apply SkipBitsAndRefs_safe; lia|]. intros _ _. by apply slice_ret. Qed.

Lemma beginPushRefCell_safe n c : 0 <= n -> cell_ok c -> safe n (beginPushRefCell c) n slice_ok.
Proof.
  intros Hn Hc st Hst. unfold beginPushRefCell. destruct (negb _); [|by apply BeginParse_safe].
  eapply safe_call; [exact Hst|by apply RegisterCellLoad_safe|]. intros _ st1 _ Hst1. by apply BeginParseAlreadyLoaded_safe.
Qed.

Lemma push_code_safe n m : 1 <= n -> safe n m n slice_ok -> safe n (push_code m) 0 any.
Proof. intros Hn Hm st Hst. unfold push_code. eapply safe_call; [exact Hst|exact Hm|]. intros code st1 Hc Hst1. safe. Qed.

Lemma ret_safe {A} n (a : A) (Q : A -> Prop) : Q a -> safe n (mret a) n Q.
Proof. intros HQ st Hst. by apply (safe_ret _ _ n). Qed.

Lemma pushint_Interpret_safe n v : 1 <= n -> safe n (pushint_Interpret v) 0 any.
Proof. safe_op. Qed.

Lemma loadPushIntValue_safe sz : 0 <= sz -> slice_safe (loadPushIntValue sz) any.
Proof.
  intros Hs. unfold loadPushIntValue. destruct (_ <=? 257); [by apply LoadBigInt_safe|]. eapply slice_bind; [by apply loadSlice_safe|]. intros b _. by apply slice_ret.
Qed.

Lemma ref_read_safe e : slice_safe (SkipBits 8 ;; ref ← with_error e (peekRefCellAt 0); SkipBitsAndRefs 0 1 ;; mret ref) cell_ok.
Proof.
  eapply slice_bind; [apply SkipBits_safe; lia|]. intros _ _. eapply slice_bind; [apply slice_with_error, peekRefCellAt_safe|]. intros c Hc.
  eapply slice_bind; [apply SkipBitsAndRefs_safe; lia|]. intros _ _. by apply slice_ret.
Qed.

Lemma pushint_safe : slice_safe pushint_Deserialize (instance_safe K B).
Proof.
  assert (Ha : forall bits v, 0 <= bits < 2 ^ 62 -> slice_safe (mret (accepted bits (pushint_Interpret v))) (instance_safe K B))
    by (intros bits v Hb; apply slice_ret, accepted_safe; [done|apply pushint_Interpret_safe; lia]).
  unfold pushint_Deserialize. eapply slice_attempt; [apply LoadUInt_safe; lia| |].
  - intros prefix _. destruct (_ && _); [apply Ha; lia|]. destruct (_ =? 0x80); [eapply reading_safe; [lia|apply LoadBigInt_safe; lia|intros v _; apply Ha; lia]|].
    destruct (_ =? 0x81); [eapply reading_safe; [lia|apply LoadBigInt_safe; lia|intros v _; apply Ha; lia]|].
    destruct (_ =? 0x82); [|apply slice_ret, rejected_safe; lia]. eapply reading_safe; [lia|apply LoadUInt_safe; lia|]. intros sz Hsz. cbv beta in Hsz. destruct (_ =? 31); [apply slice_ret, rejected_safe; lia|].
    eapply reading_safe; [lia|apply loadPushIntValue_safe; lia|intros v _; apply Ha; lia].
  - intros e. eapply slice_bind; [apply PeekZeroPaddedOpcode_safe|]. intros op _. apply slice_ret, rejected_safe. unfold pushIntBits. repeat destruct (_ =? _); lia.
Qed.

Lemma pushref_safe : slice_safe pushref_Deserialize (instance_safe K B) /\ slice_safe pushrefslice_Deserialize (instance_safe K B).
Proof.
  split; (eapply reading_safe; [lia|apply ref_read_safe|]); intros c Hc; apply slice_ret, accepted_safe; [lia| |lia|].
  - change (safe 18 (on_stack (PushAny (VCell (Some c)))) 0 any). intros st Hst. eapply safe_tail; [exact Hst|eapply on_stack_safe; [by apply PushAny_safe|lia..]|lia|done].
  - change (safe 18 (s ← beginPushRefCell c; on_stack (push (VSlice (Some s)))) 0 any). intros st Hst. eapply safe_call; [exact Hst|by apply beginPushRefCell_safe|]. intros s st1 Hs Hst1.
    eapply safe_tail; [exact Hst1|eapply on_stack_safe; [by apply push_safe|lia..]|lia|done].
Qed.

Lemma pushcont_safe : slice_safe pushcont_Deserialize (instance_safe K B).
Proof.
  assert (Hw : forall bits w, 0 <= bits < 2 ^ 62 -> slice_ok w -> slice_safe (mret (accepted bits (push_code (mret w)))) (instance_safe K B))
    by (intros bits w Hb Hw; apply slice_ret, accepted_safe; [done|apply push_code_safe; [lia|by apply ret_safe]]).
  unfold pushcont_Deserialize. eapply reading_safe; [lia|apply LoadUInt_safe; lia|]. intros prefix Hp. destruct (_ =? 0x9).
  - eapply reading_safe; [lia|apply slice_with_error; eapply slice_bind; [apply LoadUInt_safe; lia|intros n Hn; cbv beta in Hn; apply FetchSubslice_safe; lia]|intros w Hs; apply Hw; [lia|done]].
  - eapply slice_attempt; [apply LoadUInt_safe; lia| |].
    + intros prefix2 _. cbv zeta. destruct (_ =? 0x47).
      * eapply reading_safe; [lia|apply slice_with_error; eapply slice_bind; [apply LoadUInt_safe; lia|intros k Hk; eapply slice_bind; [apply LoadUInt_safe; lia|intros n Hn; cbv beta in Hn; apply FetchSubslice_safe; lia]]|].
        intros w Hs. apply Hw; [lia|done].
      * eapply reading_safe; [lia|apply slice_with_error, LoadUInt_safe; lia|]. intros p3 _. destruct (negb _); [apply slice_ret, rejected_safe; lia|].
        eapply reading_safe; [lia|apply slice_with_error, next_ref_safe|]. intros c Hc. apply slice_ret, accepted_safe; [lia|apply push_code_safe; [lia|by apply beginPushRefCell_safe]].
    + intros e. eapply slice_bind; [apply PeekZeroPaddedOpcode_safe|]. intros op _. apply slice_ret, rejected_safe. destruct (_ =? _); lia.
Qed.

Lemma inline_slice_safe total bits refs : 0 <= total < 2 ^ 62 -> 0 <= bits -> slice_safe (inline_slice total bits refs) (instance_safe K B).
Proof.
  intros Ht Hb. eapply reading_safe; [done|by apply slice_with_error, FetchSubslice_safe|]. intros s Hs.
  destruct (RemoveTrailing_safe s Hs) as (n & s' & -> & Hs'). intros s0 Hs0. split; [done|]. apply accepted_safe; [done|]. intros st Hst.
  eapply safe_tail; [exact Hst|eapply on_stack_safe; [by apply PushAny_safe|lia..]|lia|done].
Qed.

Lemma land_ones_nonneg x n : 0 <= n -> 0 <= Z.land x n.
Proof. intros Hn. apply Z.land_nonneg. by right. Qed.

Lemma pushslice_inline_safe : slice_safe pushslice_inline_Deserialize (instance_safe K B).
Proof.
  unfold pushslice_inline_Deserialize. eapply slice_attempt; [apply LoadUInt_safe; lia| |].
  - intros prefix _. destruct (_ =? 0x8B); [eapply reading_safe; [lia|apply LoadUInt_safe; lia|]; intros n Hn; cbv beta in Hn; apply inline_slice_safe; lia|].
    destruct (_ =? 0x8C); [eapply reading_safe; [lia|apply LoadUInt_safe; lia|]; intros n _; pose proof (land_ones_nonneg n 0x1F ltac:(lia)); apply inline_slice_safe; lia|].
    destruct (_ =? 0x8D); [|apply slice_ret, rejected_safe; lia]. eapply reading_safe; [lia|apply LoadUInt_safe; lia|]. intros n _. cbv zeta.
    destruct (4 <? _); [apply slice_ret, rejected_safe; lia|]. pose proof (land_ones_nonneg n 0x7F ltac:(lia)). apply inline_slice_safe; lia.
  - intros e. eapply slice_bind; [apply PeekZeroPaddedOpcode_safe|]. intros op _. apply slice_ret, rejected_safe. unfold pushSliceInlineBits. repeat destruct (_ =? _); lia.
Qed.

Lemma dictpushconst_safe : slice_safe dictpushconst_Deserialize (instance_safe K B).
Proof.
  unfold dictpushconst_Deserialize. eapply reading_safe; [lia|apply SkipBits_safe; lia|]. intros _ _.
  eapply (reading_safe _ _ _ (fun r => cell_ok r.1)); [lia|apply slice_with_error|].
  - eapply slice_bind; [apply LoadBoolBit_safe|]. intros _ _. eapply slice_bind; [apply next_ref_safe|]. intros c Hc. eapply slice_bind; [apply LoadUInt_safe; lia|]. intros p _. by apply slice_ret.
  - intros [c p] Hc. apply slice_ret, accepted_safe; [lia|]. cbn [fst] in Hc. intros st Hst.
    eapply safe_call; [exact Hst|eapply on_stack_safe; [by apply PushAny_safe|lia..]|]. intros _ st1 _ Hst1. eapply safe_tail; [exact Hst1|eapply on_stack_safe; [apply PushSmallInt_safe|lia..]|lia|done].
Qed.

Lemma debugstr_safe : slice_safe debugstr_Deserialize (instance_safe K B).
Proof.
  unfold debugstr_Deserialize. eapply reading_safe; [lia|apply SkipBits_safe; lia|]. intros _ _. eapply reading_safe; [lia|apply slice_with_error|].
  - eapply slice_bind; [apply LoadUInt_safe; lia|]. intros v Hv. cbv beta in Hv. apply loadSlice_safe. lia.
  - intros _ _. apply slice_ret, accepted_safe; [lia|]. intros st Hst. apply (safe_ret_end _ _ (10 + 16)); [done|lia|done].
Qed.

Lemma stack_consts_safe : table_safe K B stack_consts.
Proof.
  unfold stack_consts, table_safe. safe_table.
  all: eapply decoded_op_safe; [|eassumption]; first [apply dictpushconst_safe | apply debugstr_safe | apply pushcont_safe | apply pushint_safe | apply pushref_safe | apply pushslice_inline_safe].
Qed.

Lemma instructions_safe : table_safe K B instructions.
Proof.
  unfold instructions, table_safe.
  repeat first [apply exec_simple_safe | apply exec_refs_safe | by apply math_simple_safe | by apply stack_simple_safe
    | apply stack_consts_safe | by apply tuple_simple_safe | by apply tuple_nulls_safe | apply exec_args_safe
    | by apply math_args_safe | by apply stack_args_safe | by apply tuple_args_safe | apply Forall_app; split].
Qed.
End lookups.
End control.
