(* ===== verification/SafetyTheorems.v ===== *)
(** * No program panics

    From the safety of the instructions to whole runs: a step of the machine from a
    sound state does not panic and leaves a sound state, so that no program makes the
    interpreter panic, every value of every reachable state is well formed, and the
    stack is never longer than what has been paid for. *)

From S2P Require Import Prelude Bytes CellModel Builder BuilderSpec Slice SliceSpec Finalize CellHash Gas Value Stack VmState Exec ExecSpec.
From S2P Require Import CellLoad GasLaw Dispatch DispatchTheorems Run RunTheorems Encoding EncodingSpec OpTable InstrLaw MachineTheorems Sound Safe InstrSafe ControlSafe.
From stdpp Require Import gmap.
#[local] Open Scope Z_scope.

Section run.
Context (K B : Z) (HK : 40 <= K) (HB : B < 2 ^ 61).
Abbreviation safe := (safe K B).
Abbreviation safe_at := (safe_at K B).
Abbreviation good := (good K B).

(** ** Entries of the table *)

Definition entry_safe (e : dispatchEntry) : Prop :=
  match e with
  | EArg op =>
      slice_safe (op_DecodeArgs op) any /\
      forall args, 0 <= op_ArgInstructionBits op args /\ safe (10 + op_ArgInstructionBits op args) (op_InterpretArgs op args) 0 any
  | EGet op => slice_safe (o_Deserialize op) (instance_safe K B)
  end.
Definition entry_sound (e : dispatchEntry) : Prop := entry_lawful e /\ entry_safe e.

Lemma fail_safe n e : 0 <= n -> safe n (fail e : M State unit) 0 any.
Proof. intros Hn st Hst. by apply (safe_fail _ _ n). Qed.

Lemma registration_sound e : entry_sound e -> entry_sound (rg_entry (registration_of e)) /\ entry_sound (rg_invalid (registration_of e)).
Proof.
  intros [Hl Hs]. destruct (registration_lawful e Hl) as [Hl1 Hl2]. destruct e as [op|op]; (split; [done|]); (split; [done|]).
  - destruct Hs as [Hd Ha]. split; [done|]. intros args. split; [apply Ha|]. apply fail_safe. cbn. destruct (Ha args). lia.
  - cbn in *. eapply slice_bind; [exact Hs|]. intros [i err] (bits & Hb & Hn & _). apply slice_ret. exists bits. split_and!; [done|lia|lia|]. apply fail_safe. lia.
Qed.

Lemma priced_zero n m : safe n m 0 any -> safe n (priced 0 m) 0 any.
Proof. intros Hm st Hst. by apply Hm. Qed.

Lemma entry_of_safe i e : instruction_safe K B i -> entry_of i = Ok e -> entry_safe e.
Proof.
  destruct i as [op|op|op]; cbn [entry_of instruction_safe].
  - intros (Hb & Hp & Ha). unfold simple_entry. destruct (PrefixSlices _); [|done..]. intros [= <-]. cbn. rewrite Hp. split.
    + apply (decoded_safe _ any). eapply slice_bind; [apply SkipBits_safe; lia|]. intros _ _. by apply slice_ret.
    + intros _. split; [lia|]. apply priced_zero. eapply safe_weaken; [exact Ha|lia|lia|done].
  - intros (Hd & Hp & Ha). unfold operand_entry. destruct (NewArgOP op) as [op'| |] eqn:Hn; [|done..].
    assert (op' = op) as ->. { unfold NewArgOP in Hn. destruct (ao_Decode op), (ao_Prefixes op); try congruence. destruct (forallb _ _); congruence. }
    cbn. destruct (PrefixSlices _); [|done..]. intros [= <-]. split; [done|]. intros args. cbn. unfold InterpretArgs. rewrite Hp. split; [apply Ha|]. by apply priced_zero, Ha.
  - by intros Hs [= <-].
Qed.

Lemma entries_of_sound l es : table_lawful l -> table_safe K B l -> entries_of l = Ok es -> Forall entry_sound es.
Proof.
  intros Hl. revert es. induction Hl as [|i l Hi Hl IH]; intros es Hs; cbn; [by intros [= <-]|]. apply Forall_cons_1 in Hs as [Hs1 Hs].
  destruct i as [i| |]; [|done..]. cbn. destruct (entry_of i) as [e| |] eqn:He; [|done..]. cbn.
  destruct (entries_of l) as [es'| |]; [|done..]. intros [= <-]. constructor; [|by apply IH].
  split; [apply (entry_of_lawful i); [by apply Hi|done]|apply (entry_of_safe i); [by apply Hs1|done]].
Qed.

(** What the run loop relies on of a table: sound entries, and a lookup that answers. *)
Definition dispatch_sound (d : opcodeDispatch dispatchEntry) : Prop :=
  dispatch_all entry_sound d /\ forall code, swf code -> 0 < BitsLeft code -> exists r, matchOpcode d code = Ok r.

Lemma sound_dispatches l :
  Forall buildable l -> table_lawful l -> table_safe K B l ->
  exists tvm, machine l = Ok tvm /\ Z.of_nat (length tvm) = MaxSupportedGlobalVersion + 1 /\ Forall dispatch_sound tvm.
Proof.
  intros Hb Hl Hs. destruct (entries_of_ok l Hb) as (es & Hes & Hf). pose proof (entries_of_sound l es Hl Hs Hes) as Hes'.
  unfold machine. rewrite Hes. cbn [mbind outcome_bind]. unfold newTVM.
  destruct (built_lookup (registration_of <$> es)) as (ds & Hds & Hn & Hlook); [by apply Forall_fmap|]. exists ds. split; [done|]. split; [done|].
  assert (Hall : Forall (dispatch_all entry_sound) ds).
  { eapply built_all; [|exact Hds]. apply Forall_fmap. eapply List.Forall_impl; [|exact Hes']. intros e. apply registration_sound. }
  apply Forall_lookup. intros i d Hd. split; [exact (Forall_lookup_1 _ _ _ _ Hall Hd)|]. intros code Hc Hpos. destruct (Hlook i d code Hd Hc Hpos) as (r & Hr & _). by exists r.
Qed.

(** ** One step *)

Lemma interpretOpcode_safe n body st : 0 <= n -> good n st -> lawful_gen Broke body -> safe n body 0 any -> safe_at st (interpretOpcode body) 0 any.
Proof.
  intros Hn Hst Hlaw Hb. unfold interpretOpcode. safe_step. pose proof (gok_version _ (gd_gas _ _ _ _ Hst)). destruct (Z.leb_spec 4 (st_GlobalVersion st)); [|lia].
  eapply safe_call; [exact Hst|by apply CheckGas_safe|]. intros _ st1 _ Hst1. pose proof (Hb st1 Hst1) as H1. pose proof (lp_latched _ _ _ _ (Hlaw st1)) as Hlat.
  rewrite (gok_pending _ (gd_gas _ _ _ _ Hst1)) in Hlat. specialize (Hlat (gok_version _ (gd_gas _ _ _ _ Hst1))).
  unfold safe_at, on_result in *. destruct (body st1) as [[[]|e|] st2]; cbn [fst snd] in *; [apply CheckGas_safe; [lia|apply H1]| |done].
  unfold PendingError. rewrite bind_assoc, bind_get. destruct H1 as [->|Hg].
  - destruct Hlat as [Hl|[_ Hl]]; rewrite Hl; by left.
  - rewrite (gok_pending _ (gd_gas _ _ _ _ Hg)), bind_ret. destruct (bool_decide _); [|by right].
    unfold on_gas, CheckRemaining, mbind, M_bind, get_state. rewrite run_guard. pose proof (gok_remaining _ (gd_gas _ _ _ _ Hg)). destruct (Z.ltb_spec (g_Remaining (st_Gas st2)) 0); [lia|].
    replace (set_gas st2 (st_Gas st2)) with st2 by (by destruct st2). by right.
Qed.

Lemma executeArgOpcode_safe op st : good 0 st -> entry_sound (EArg op) -> safe_at st (executeArgOpcode op) 0 any.
Proof.
  intros Hst [[Hbits Hlaw] [Hdec Hact]]. unfold executeArgOpcode. specialize (Hdec _ (gd_code _ _ _ _ Hst)). specialize (Hbits (st_CurrentCode st)).
  unfold safe_at, mbind at 1, M_bind at 1, on_code. destruct (op_DecodeArgs op (st_CurrentCode st)) as [[[args err]|e|] code]; [| |done].
  - destruct Hdec as [Hcode _]. specialize (Hbits _ _ _ eq_refl). destruct (Hact args) as [Hn Hs]. pose proof (good_code _ _ 0 st code Hst Hcode) as Hst1. unfold InstructionBaseGasPrice.
    destruct err; (eapply (safe_call _ _ 0 (0 + (10 + op_ArgInstructionBits op args))); [exact Hst1|apply ConsumeGas_safe; lia|]); intros _ st2 _ Hst2.
    + apply (safe_fail _ _ (0 + (10 + op_ArgInstructionBits op args))); [done|lia].
    + apply (interpretOpcode_safe (10 + op_ArgInstructionBits op args)); [lia|done|apply Hlaw|done].
  - right. by apply good_code.
Qed.

Lemma executeOpcode_safe op st : good 0 st -> entry_sound (EGet op) -> safe_at st (executeOpcode op) 0 any.
Proof.
  intros Hst [Hlaw Hdec]. unfold executeOpcode. specialize (Hdec _ (gd_code _ _ _ _ Hst)). specialize (Hlaw (st_CurrentCode st)).
  unfold safe_at, mbind at 1, M_bind at 1, on_code. destruct (o_Deserialize op (st_CurrentCode st)) as [[[i err]|e|] code]; [| |done].
  - destruct Hdec as [Hcode (bits & Hb & Hn & Hs)]. destruct (Hlaw _ _ _ eq_refl) as [_ Hl]. pose proof (good_code _ _ 0 st code Hst Hcode) as Hst1. cbn [fst] in *.
    unfold executeDecodedOpcode, consumeInstructionGas, InstructionBaseGasPrice. rewrite Hb.
    destruct err; (eapply (safe_call _ _ 0 (0 + (10 + bits))); [exact Hst1|apply ConsumeGas_safe; lia|]); intros _ st2 _ Hst2.
    + apply (safe_fail _ _ (0 + (10 + bits))); [done|lia].
    + apply (interpretOpcode_safe (10 + bits)); [lia|done..].
  - right. by apply good_code.
Qed.

Lemma stepWithDispatch_safe d st : dispatch_sound d -> good 0 st -> 0 < BitsLeft (st_CurrentCode st) -> safe_at st (stepWithDispatch d) 0 any.
Proof.
  intros [Hall Hlook] Hst Hpos. unfold stepWithDispatch. safe_step. destruct (Hlook _ (proj1 (gd_code _ _ _ _ Hst)) Hpos) as (entry & Hm).
  unfold safe_at. rewrite Hm, bind_lift. unfold historical_entry. pose proof (gok_version _ (gd_gas _ _ _ _ Hst)). destruct (Z.eqb_spec (st_GlobalVersion st) 0); [lia|].
  cbn [andb]. rewrite bind_lift. destruct entry as [[op|op]|].
  - apply executeArgOpcode_safe; [done|]. exact (matchOpcode_all _ _ _ _ Hall Hm).
  - apply executeOpcode_safe; [done|]. exact (matchOpcode_all _ _ _ _ Hall Hm).
  - eapply safe_call; [exact Hst|apply (ConsumeGas_safe K B 0); unfold InstructionBaseGasPrice; lia|]. intros _ st1 _ Hst1. apply (safe_fail _ _ (0 + InstructionBaseGasPrice)); [done|unfold InstructionBaseGasPrice; lia].
Qed.

Section lookups.
Context `{MeteredLookup}.

Lemma count_step_safe n : 0 <= n -> safe n count_step n any.
Proof. intros Hn st Hst. eapply (safe_modify_end _ _ n); [by apply good_steps|lia|done]. Qed.

Lemma implicit_charge_safe n price : 0 <= n -> 0 <= price < 2 ^ 62 -> safe n (implicit_charge price) (n + price) any.
Proof.
  intros Hn Hp st Hst. unfold implicit_charge. safe_step. pose proof (gok_version _ (gd_gas _ _ _ _ Hst)). destruct (Z.eqb_spec (st_GlobalVersion st) 0); [lia|].
  apply Consume_safe; (done || lia).
Qed.

Lemma stepAny_safe d st : dispatch_sound d -> good 0 st -> safe_at st (stepAnyWithDispatch d) 0 any.
Proof.
  intros Hd Hst. unfold stepAnyWithDispatch. safe_step. destruct (Z.ltb_spec 0 (BitsLeft (st_CurrentCode st))); [|destruct (0 <? RefsNum _)].
  - change (safe_at (set_steps st (u64 (st_Steps st + 1))) (stepWithDispatch d) 0 any). apply stepWithDispatch_safe; [done|by apply good_steps|by destruct st].
  - eapply safe_call; [exact Hst|by apply count_step_safe|]. intros _ st1 _ Hst1. eapply safe_call; [exact Hst1|apply implicit_charge_safe; unfold ImplicitJmprefGasPrice; lia|].
    intros _ st2 _ Hst2. unfold ImplicitJmprefGasPrice in *. eapply safe_call; [exact Hst2|apply LoadRef_code_safe; lia|]. intros cc st3 Hcc Hst3. safe_step.
    eapply safe_tail; [exact Hst3|apply JumpToCode_safe; [lia|done]|lia|done].
  - eapply safe_call; [exact Hst|by apply count_step_safe|]. intros _ st1 _ Hst1. eapply safe_call; [exact Hst1|apply implicit_charge_safe; unfold ImplicitRetGasPrice; lia|].
    intros _ st2 _ Hst2. unfold ImplicitRetGasPrice in *. eapply safe_tail; [exact Hst2|apply from_one; [by apply returnTo_safe|lia]|lia|done].
Qed.

(** ** One iteration *)

(** An iteration does not panic, and goes on only from a sound state. *)
Definition iter_safe (r : outcome bool * State) : Prop :=
  match r with (Ok true, st') => good 0 st' | (Panic, _) => False | _ => True end.

Lemma out_of_gas_safe e st : iter_safe (out_of_gas e st).
Proof.
  unfold out_of_gas, count_step, HandleOutOfGas, modify, mbind, M_bind. cbn. unfold PushSmallInt, PushInt, push, modify.
  unfold on_stack. cbn. destruct (_ && _); cbn; [done|]. unfold mbind, M_bind. rewrite run_guard. by destruct (negb _).
Qed.

Lemma handleStepError_safe e st : e = OutOfGas \/ good 0 st -> iter_safe (handleStepError e st).
Proof.
  intros [->|Hst]; [apply out_of_gas_safe|]. unfold handleStepError. destruct (IsHandledException e); [done|]. destruct (bool_decide _); [done|].
  destruct (IsOutOfGas e); [apply out_of_gas_safe|]. rewrite bind_get. destruct e; try done. destruct (_ && _); [|done].
  change (iter_safe (on_result (ThrowException code None) (fun r => match r with
            | Ok _ => mret true | Err e' => if IsOutOfGas e' then out_of_gas e' else fail e' | Panic => lift Panic end) (set_steps st (u64 (st_Steps st + 1))))).
  pose proof (ThrowException_safe K B HK HB 0 code None I _ (good_steps _ _ 0 st (u64 (st_Steps st + 1)) Hst)) as Ht. unfold safe_at, on_result in *.
  destruct (ThrowException code None _) as [[[]|e'|] st2]; [apply Ht| |done]. destruct (IsOutOfGas e'); [apply out_of_gas_safe|done].
Qed.

Lemma execute_iter_safe d st : dispatch_sound d -> good 0 st -> iter_safe (execute_iter d st).
Proof.
  intros Hd Hst. pose proof (stepAny_safe d st Hd Hst) as Hs. unfold execute_iter, on_result, safe_at, step_error in *.
  destruct (stepAnyWithDispatch d st) as [[[]|e|] st1]; [| |done].
  - destruct Hs as [Hst1 _]. rewrite bind_assoc, bind_get. pose proof (gok_version _ (gd_gas _ _ _ _ Hst1)). destruct (Z.ltb_spec (st_GlobalVersion st1) 4); [lia|]. done.
  - rewrite bind_assoc, bind_get. destruct Hs as [->|Hst1].
    + rewrite andb_false_r. apply (handleStepError_safe OutOfGas). by left.
    + pose proof (gok_version _ (gd_gas _ _ _ _ Hst1)). destruct (Z.ltb_spec (st_GlobalVersion st1) 4); [lia|]. apply (handleStepError_safe e). by right.
Qed.

(** ** Runs *)

(** One iteration that goes on. *)
Definition iterates (d : opcodeDispatch dispatchEntry) (st st' : State) : Prop := execute_iter d st = (Ok true, st').

Lemma reachable_good d st st' : dispatch_sound d -> good 0 st -> rtc (iterates d) st st' -> good 0 st'.
Proof.
  intros Hd Hst Hr. induction Hr as [|st st1 st2 Hi Hr IH]; [done|]. apply IH. pose proof (execute_iter_safe d st Hd Hst) as Hs. unfold iterates in Hi. by rewrite Hi in Hs.
Qed.

Lemma execute_safe d fuel st r st' : dispatch_sound d -> good 0 st -> execute fuel d st = Some (r, st') -> r <> Panic.
Proof.
  intros Hd. revert st. induction fuel as [|fuel IH]; intros st Hst; [done|]. cbn [execute]. pose proof (execute_iter_safe d st Hd Hst) as Hs.
  destruct (execute_iter d st) as [[[]|e|] st1]; [by apply IH|by intros [= <- _]..|done].
Qed.
End lookups.
End run.

(** ** Every program *)

(** A state to start from: gas left, well-formed code, values, registers and libraries,
    and a stack and a gas limit that together stay below [2 ^ 61]. *)
Definition capture_bound : Z := 2 ^ 61 - 1.
Definition sound_start (st : State) : Prop := good (40 + len (st_Stack st)) capture_bound 0 st.

(** What is kept of a state: only well-formed data, and registers [c0] to [c3] that hold
    continuations. *)
Record well_typed (st : State) : Prop := {
  wt_code : slice_ok (st_CurrentCode st);
  wt_stack : values_ok capture_bound (st_Stack st);
  wt_regs : live capture_bound (st_Reg st);
  wt_libs : libs_ok (st_Libs st)
}.

Section programs.
Context `{MeteredLookup}.

Lemma start_room st : 40 <= 40 + len (st_Stack st).
Proof. pose proof (len_nonneg (st_Stack st)). lia. Qed.

Lemma capture_small : capture_bound < 2 ^ 61.
Proof. unfold capture_bound. lia. Qed.

Lemma sound_machine K : 40 <= K -> exists tvm, machine instructions = Ok tvm /\ Z.of_nat (length tvm) = MaxSupportedGlobalVersion + 1 /\ Forall (dispatch_sound K capture_bound) tvm.
Proof.
  intros HK. apply sound_dispatches; [exact instructions_buildable|exact instructions_lawful|].
  apply (instructions_safe K capture_bound HK capture_small).
Qed.

Lemma sound_dispatch K tvm k d : 40 <= K -> machine instructions = Ok tvm -> tvm !! k = Some d -> dispatch_sound K capture_bound d.
Proof.
  intros HK Hm Hd. destruct (sound_machine K HK) as (tvm' & Hm' & _ & Hall). rewrite Hm in Hm'. injection Hm' as <-. exact (Forall_lookup_1 _ _ _ _ Hall Hd).
Qed.

Lemma reachable_sound tvm d st st' :
  machine instructions = Ok tvm -> tvm !! Z.to_nat (st_GlobalVersion st) = Some d -> sound_start st -> rtc (iterates d) st st' ->
  good (40 + len (st_Stack st)) capture_bound 0 st'.
Proof.
  intros Hm Hd Hst Hr. pose proof (sound_dispatch _ _ _ _ (start_room st) Hm Hd) as Hs.
  exact (reachable_good _ capture_bound (start_room st) capture_small d st st' Hs Hst Hr).
Qed.

(** A run from a sound state ends, and not by a panic. *)
Lemma run_safe st :
  sound_start st -> st_GlobalVersion st <= MaxSupportedGlobalVersion ->
  exists tvm d r st', machine instructions = Ok tvm /\ tvm !! Z.to_nat (st_GlobalVersion st) = Some d /\ r <> Panic /\
    forall fuel, (run_fuel st <= fuel)%nat -> execute fuel d st = Some (r, st') /\ runState fuel tvm st = Some (run_result r st').
Proof.
  intros Hst Hv. pose proof (gd_gas _ _ _ _ Hst) as Hok. pose proof (gok_version _ Hok).
  destruct (sound_machine _ (start_room st)) as (tvm & Hm & Hlen & Hall).
  destruct (lookup_lt_is_Some_2 tvm (Z.to_nat (st_GlobalVersion st))) as [d Hd]; [lia|].
  pose proof (Forall_lookup_1 _ _ _ _ Hall Hd) as Hs.
  destruct (execute_ends d st (run_fuel st) (table_dispatch _ _ _ _ instructions_lawful Hm Hd) Hok (le_n _)) as [[r st'] Hr].
  exists tvm, d, r, st'. split; [exact Hm|]. split; [exact Hd|].
  split; [exact (execute_safe _ capture_bound (start_room st) capture_small d _ st r st' Hs Hst Hr)|].
  intros fuel Hf. pose proof (execute_more d st _ fuel _ Hr Hf) as He. split; [exact He|]. unfold runState.
  destruct (Z.ltb_spec (st_GlobalVersion st) 0); [lia|]. rewrite Hd, He. reflexivity.
Qed.

(** C3: No program panics.  From version 4 on, a run of the modelled instructions from a
    sound state, whatever its code and stack, ends within one iteration for five units
    of gas, with an exit code or an error of the machine: no index is out of range, no
    nil continuation is entered, no malformed value is met on the way, and the recovery
    of [runState] is never needed. *)
Theorem no_program_panics st :
  sound_start st -> st_GlobalVersion st <= MaxSupportedGlobalVersion ->
  exists tvm d r st', machine instructions = Ok tvm /\ tvm !! Z.to_nat (st_GlobalVersion st) = Some d /\ r <> Panic /\
    forall fuel, (S (Z.to_nat ((cap st - used st) / 5)) <= fuel)%nat ->
      execute fuel d st = Some (r, st') /\ runState fuel tvm st = Some (run_result r st').
Proof. exact (run_safe st). Qed.

(** C7: The machine preserves types and pays for its stack.  Every state that the loop
    reaches from a sound one has a well-formed code slice, only well-formed values on its
    stack (integers of 257 bits, cells and builders within their limits, continuations
    whose parts are well formed), continuations in [c0] to [c3], and well-formed
    libraries; and its stack is at most 40 values longer than what it started with and
    one value for each unit of gas used, so no program can make it longer than its gas
    allows. *)
Theorem reachable_well_typed tvm d st st' :
  machine instructions = Ok tvm -> tvm !! Z.to_nat (st_GlobalVersion st) = Some d -> sound_start st -> rtc (iterates d) st st' ->
  well_typed st' /\ len (st_Stack st') <= 40 + len (st_Stack st) + used st' /\ 0 <= used st' <= g_Base (st_Gas st').
Proof.
  intros Hm Hd Hst Hr. pose proof (reachable_sound tvm d st st' Hm Hd Hst Hr) as Hg. split; [destruct Hg; split; assumption|].
  pose proof (gd_room _ _ _ _ Hg). pose proof (gok_remaining _ (gd_gas _ _ _ _ Hg)). unfold used in *. lia.
Qed.
End programs.

(** ** A run *)

(** [PUSHCONT {NOP} AGAIN] with the registers of a new machine. *)
Definition endless_start : State := set_reg endless (mkReg (CQuit 0) (CQuit 1) CExcQuit (CQuit 11) None None None).

Lemma endless_sound : sound_start endless_start.
Proof.
  split; [split; vm_compute; intuition congruence|vm_compute; discriminate|vm_compute; discriminate| |constructor| |].
  - split; [apply byte_slice_swf; reflexivity|constructor].
  - split; [vm_compute; tauto|]. intros i. unfold r_C. cbn. destruct (i =? 0), (i =? 1), (i =? 2); discriminate.
  - split; [constructor|apply map_Forall_empty].
Qed.

Lemma endless_table : exists tvm d, machine (@instructions no_walk) = Ok tvm /\ tvm !! Z.to_nat (st_GlobalVersion endless_start) = Some d.
Proof.
  destruct (@sound_machine no_walk 40 ltac:(lia)) as (tvm & Hm & Hl & _). destruct (lookup_lt_is_Some_2 tvm (Z.to_nat (st_GlobalVersion endless_start))) as [d Hd]; [|exists tvm, d; split; assumption].
  change (Z.to_nat (st_GlobalVersion endless_start)) with 11%nat. unfold MaxSupportedGlobalVersion in Hl. lia.
Qed.

Example no_program_panics_witness :
  exists tvm d r st', machine (@instructions no_walk) = Ok tvm /\ tvm !! Z.to_nat (st_GlobalVersion endless_start) = Some d /\ r <> Panic /\
    forall fuel, (201 <= fuel)%nat -> @execute no_walk fuel d endless_start = Some (r, st') /\ @runState no_walk fuel tvm endless_start = Some (run_result r st').
Proof.
  assert (Hn : 201%nat = S (Z.to_nat ((cap endless_start - used endless_start) / 5))) by (vm_compute; reflexivity). rewrite Hn.
  apply (@no_program_panics no_walk endless_start endless_sound). vm_compute. discriminate.
Defined.

Example reachable_well_typed_witness :
  exists tvm d, machine (@instructions no_walk) = Ok tvm /\ tvm !! Z.to_nat (st_GlobalVersion endless_start) = Some d /\ well_typed endless_start /\
    forall st', rtc (@iterates no_walk d) endless_start st' ->
      well_typed st' /\ len (st_Stack st') <= 40 + len (st_Stack endless_start) + used st' /\ 0 <= used st' <= g_Base (st_Gas st').
Proof.
  destruct endless_table as (tvm & d & Hm & Hd). exists tvm, d. split; [exact Hm|]. split; [exact Hd|].
  split; [exact (proj1 (@reachable_well_typed no_walk tvm d endless_start endless_start Hm Hd endless_sound (rtc_refl _ _)))|].
  intros st' Hr. exact (@reachable_well_typed no_walk tvm d endless_start st' Hm Hd endless_sound Hr).
Defined.
