(* ===== verification/LaunchTheorems.v ===== *)
(** * Executions end

    The entry points of the machine on a sound contract: the code cell is converted,
    the initial state is sound, and so the run ends without a panic.  The one panic left
    is outside the run: a special code cell of maximal depth cannot be wrapped. *)

From S2P Require Import Prelude Bytes CellModel Builder BuilderOps Slice SliceSpec Finalize CellHash DictNodeSpec Gas Value Stack VmState Encoding Exec CellLoad Dispatch Run RunTheorems.
From S2P Require Import GasLaw OpTable MachineTheorems Sound Safe Launch SafetyTheorems.
From stdpp Require Import gmap list strings.
#[local] Open Scope Z_scope.

(** ** The wrapper of a special code cell *)

Lemma wrapper_deep code : maxDepth <= Depth code -> executionCodeRefWrapper code = Panic.
Proof.
  intros Hd. unfold executionCodeRefWrapper, must, run, storeRef. mrun. change (4 <=? len (b_refs BeginCell)) with false. cbn [andb].
  rewrite (proj2 (Z.leb_le _ _) Hd). done.
Qed.

Lemma wrapper_shallow code : cell_ok code -> shallow code -> exists w, executionCodeRefWrapper code = Ok w /\ cell_ok w /\ c_special w = false.
Proof.
  intros Hc Hs. exists (finished [] [code]). split_and!; [| |done].
  - unfold executionCodeRefWrapper, must. rewrite (run_Ok _ _ tt (with_ref BeginCell code)).
    + cbn [mbind outcome_bind snd]. apply EndCell_builds; [|by constructor]. split; [|done..]. by apply wf_with_refs; [apply wf_begin|].
    + rewrite storeRef_run. change (4 <=? len (b_refs BeginCell)) with false. cbn [andb]. destruct (Z.leb_spec maxDepth (Depth code)); [destruct Hs; lia|done].
  - apply cell_ok_eq. split; [|by constructor]. by destruct (newSlice_finished [] [code]) as (? & _).
Qed.

Section conversion.
Context `{MeteredLookup}.

Lemma set_libs_id st : set_libs st (st_Libs st) = st.
Proof. by destruct st. Qed.
Lemma set_libs_twice st lb lb' : set_libs (set_libs st lb) lb' = set_libs st lb'.
Proof. by destruct st. Qed.

Lemma begin_parse_free st c : st_pendingErr st = None -> begin_parse c true st = (Ok (newSliceFromCell c), st).
Proof. intros Hp. unfold begin_parse, PendingError. mrun. by rewrite Hp. Qed.

(** Parsing a cell that has been paid for changes only the libraries, and fails only
    with an underflow. *)
Definition free {A} (m : M State A) (st : State) : Prop :=
  exists r lb, m st = (r, set_libs st lb) /\ forall e, r = Err e -> e = VMErr CodeCellUnderflow.

Lemma free_here {A} (m : M State A) st r : m st = (r, st) -> (forall e, r = Err e -> e = VMErr CodeCellUnderflow) -> free m st.
Proof. intros Hm Hr. exists r, (st_Libs st). by rewrite set_libs_id. Qed.

Lemma library_free fuel c l st : st_pendingErr st = None -> free (parse_loop fuel c false l true) st.
Proof.
  intros Hp. assert (Hr : free (begin_parse c true ;; fail (VMErr CodeCellUnderflow) : M State (Slice * bool)) st).
  { eapply free_here; [rewrite (bind_Ok _ _ _ _ _ (begin_parse_free st c Hp)); done|by intros e [= <-]]. }
  destruct fuel; cbn [parse_loop]; cbv zeta; rewrite orb_true_r; cbn [orb]; (destruct (c_special c); cbn [negb];
    [destruct (computeType c); (exact Hr || (eapply free_here; [done|by intros e [= <-]]))|eapply free_here; [rewrite (bind_Ok _ _ _ _ _ (begin_parse_free st c Hp)); done|done]]).
Qed.

Lemma library_hash_error sl e : library_hash sl = Err e -> e = VMErr CodeCellUnderflow.
Proof. unfold library_hash. destruct ((SkipBits 8 ;; loadSlice 256 false) sl) as [[h|e'|] s']; [done| |done]. by intros [= <-]. Qed.

Lemma code_free fuel c st : st_pendingErr st = None -> 5 <= st_GlobalVersion st -> free (parse_loop fuel c false true false) st.
Proof.
  intros Hp Hv. assert (Hr : free (begin_parse c true ;; fail (VMErr CodeCellUnderflow) : M State (Slice * bool)) st).
  { eapply free_here; [rewrite (bind_Ok _ _ _ _ _ (begin_parse_free st c Hp)); done|by intros e [= <-]]. }
  destruct fuel as [|fuel]; cbn [parse_loop]; cbv zeta; cbn [orb]; (destruct (c_special c); cbn [negb];
    [|eapply free_here; [rewrite (bind_Ok _ _ _ _ _ (begin_parse_free st c Hp)); done|done]]); (destruct (computeType c); try exact Hr); clear Hr.
  all: destruct (library_hash (newSliceFromCell c)) as [hash|e|] eqn:Eh;
    [|assert (e = VMErr CodeCellUnderflow) as -> by (exact (library_hash_error _ _ Eh)); eapply free_here;
      [rewrite (bind_Ok _ _ _ _ _ (begin_parse_free st c Hp)), Eh; done|by intros e [= <-]]|eapply free_here; [rewrite (bind_Ok _ _ _ _ _ (begin_parse_free st c Hp)), Eh; done|done]].
  all: destruct (LoadLibraryByHash_libs hash st ltac:(lia)) as (r & lb & El & Hn); unfold free; rewrite (bind_Ok _ _ _ _ _ (begin_parse_free st c Hp)), Eh, bind_lift;
    destruct r as [[c'|]|e|]; [|exists (Err (VMErr CodeCellUnderflow)), lb; rewrite (bind_Ok _ _ _ _ _ El); split; [done|by intros e [= <-]]|by destruct (Hn e)|exists Panic, lb; by rewrite (bind_Panic _ _ _ _ El)].
  all: rewrite (bind_Ok _ _ _ _ _ El), bind_get.
  { by exists Panic, lb. }
  replace (st_GlobalVersion (set_libs st lb)) with (st_GlobalVersion st) by (by destruct st). rewrite (proj2 (Z.leb_le _ _) Hv).
  destruct (library_free fuel c' false (set_libs st lb)) as (r & lb' & E & Hr); [by destruct st|]. rewrite set_libs_twice in E. by exists r, lb'.
Qed.

Lemma parse_plain c st : st_pendingErr st = None -> c_special c = false -> BeginParseAlreadyLoaded (Some c) st = (Ok (newSliceFromCell c), st).
Proof.
  intros Hp Hsp. unfold BeginParseAlreadyLoaded, beginParseLoadedCell. rewrite bind_assoc, bind_get.
  unfold parse_fuel. cbn [parse_loop]. cbv zeta. cbn [orb]. rewrite Hsp. cbn [negb]. rewrite !bind_assoc, (bind_Ok _ _ _ _ _ (begin_parse_free st c Hp)). done.
Qed.

Lemma parse_special c st : st_pendingErr st = None -> BeginParseSpecialAlreadyLoaded (Some c) st = (Ok (newSliceFromCell c, c_special c), st).
Proof.
  intros Hp. unfold BeginParseSpecialAlreadyLoaded, beginParseLoadedCell. rewrite bind_get. unfold parse_fuel. cbn [parse_loop]. cbv zeta. cbn [orb].
  by rewrite (bind_Ok _ _ _ _ _ (begin_parse_free st c Hp)).
Qed.

Lemma wrapped_code_ok c st :
  st_pendingErr st = None -> cell_ok c -> shallow c -> exists sl, wrapped_code c st = (Ok sl, st) /\ slice_ok sl.
Proof.
  intros Hp Hc Hs. destruct (wrapper_shallow c Hc Hs) as (w & Ew & Hw & Hsp). exists (newSliceFromCell w). split; [|by apply slice_ok_new].
  unfold wrapped_code. rewrite Ew, bind_lift. by apply parse_plain.
Qed.

Section code.
  Context (K B : Z) (st : State) (Hst : good K B 0 st).

Lemma libs_pending lb : st_pendingErr (set_libs st lb) = None.
Proof using Hst. pose proof (gok_pending _ (gd_gas _ _ _ _ Hst)). by destruct st. Qed.

(** Resolving the code outside the accounts. *)
Lemma resolve_code c :
  9 <= st_GlobalVersion st -> cell_ok c ->
  exists r lb, SuspendLibraryLoadAccounting (BeginParseAlreadyLoaded (Some c)) st = (r, set_libs st lb) /\ libs_ok lb /\
    match r with Ok sl => slice_ok sl | Err e => e = VMErr CodeCellUnderflow /\ c_special c = true | Panic => False end.
Proof using Hst.
  intros Hv Hc. set (st1 := set_libs st (suspended (st_Libs st))). assert (Hst1 : good K B 0 st1) by (apply good_libs; [done|exact (gd_libs _ _ _ _ Hst)]).
  assert (Hp1 : st_pendingErr st1 = None) by apply libs_pending. assert (Hv1 : 5 <= st_GlobalVersion st1) by (unfold st1; destruct st; cbn in *; lia).
  assert (Hf : free (BeginParseAlreadyLoaded (Some c)) st1).
  { destruct (code_free (parse_fuel st1) c st1 Hp1 Hv1) as (r & lb & E & He). unfold free, BeginParseAlreadyLoaded, beginParseLoadedCell. rewrite bind_assoc, bind_get.
    unfold mbind, M_bind. rewrite E. destruct r as [p|e|]; [by exists (Ok p.1), lb|exists (Err e), lb|by exists Panic, lb]. split; [done|]. intros e' [= <-]. by apply He. }
  destruct Hf as (r & lb & E & He). pose proof (BeginParseAlreadyLoaded_safe K B 0 (Some c) ltac:(lia) Hc st1 Hst1) as Hs. unfold safe_at in Hs. rewrite E in Hs.
  assert (Hlb : good K B 0 (set_libs st1 lb) -> libs_ok (restored (st_Libs st) (st_Libs (set_libs st1 lb)))) by (intros Hg; exact (gd_libs _ _ _ _ Hg)).
  exists r, (restored (st_Libs st) (st_Libs (set_libs st1 lb))). unfold SuspendLibraryLoadAccounting. fold st1. rewrite E. split; [unfold st1; by rewrite !set_libs_twice|].
  destruct r as [sl|e|]; [destruct Hs as [Hg Hsl]; split; [by apply Hlb|done]| |destruct Hs].
  pose proof (He e eq_refl) as ->. destruct Hs as [Ho|Hg]; [discriminate Ho|]. split; [by apply Hlb|]. split; [done|].
  destruct (c_special c) eqn:Hsp; [done|]. rewrite (parse_plain c st1 Hp1 Hsp) in E. discriminate E.
Qed.

(** The code is the first slice when it is ordinary, and when it is special the cell it
    names or the wrapper. *)
Lemma convert_ok c resolve :
  cell_ok c -> (c_special c = true -> shallow c) ->
  exists sl lb, convertExecutionCodeCell (Some c) resolve st = (Ok sl, set_libs st lb) /\ slice_ok sl /\ libs_ok lb.
Proof using Hst.
  intros Hc Hsp. cbn [convertExecutionCodeCell]. rewrite bind_get. destruct (resolve && (9 <=? st_GlobalVersion st)) eqn:Er.
  - apply andb_prop in Er as [_ Hv%Z.leb_le]. destruct (resolve_code c Hv Hc) as (r & lb & E & Hlb & Hr). unfold on_result. rewrite E. destruct r as [sl|e|]; [by exists sl, lb| |done].
    destruct Hr as [-> Hs]. destruct (wrapped_code_ok c (set_libs st lb) (libs_pending lb) Hc (Hsp Hs)) as (sl & Ew & Hsl). by exists sl, lb.
  - pose proof (gok_pending _ (gd_gas _ _ _ _ Hst)) as Hp. unfold on_result. rewrite (parse_special c st Hp). pose proof (gd_libs _ _ _ _ Hst). destruct (c_special c).
    + destruct (wrapped_code_ok c st Hp Hc (Hsp eq_refl)) as (sl & Ew & Hsl). exists sl, (st_Libs st). by rewrite set_libs_id.
    + exists (newSliceFromCell c), (st_Libs st). rewrite set_libs_id. split; [done|]. split; [by apply slice_ok_new|done].
Qed.

(** A special code cell of maximal depth that is not resolved. *)
Lemma convert_deep c resolve :
  c_special c = true -> maxDepth <= Depth c -> resolve = false \/ st_GlobalVersion st < 9 -> fst (convertExecutionCodeCell (Some c) resolve st) = Panic.
Proof using Hst.
  intros Hsp Hd Hres. cbn [convertExecutionCodeCell]. rewrite bind_get. replace (resolve && (9 <=? st_GlobalVersion st)) with false by (destruct Hres as [-> |]; [done|]; destruct (Z.leb_spec 9 (st_GlobalVersion st)); [lia|by rewrite andb_false_r]).
  pose proof (gok_pending _ (gd_gas _ _ _ _ Hst)) as Hp. unfold on_result. rewrite (parse_special c st Hp), Hsp. unfold wrapped_code. by rewrite (wrapper_deep c Hd).
Qed.
End code.
End conversion.

(** ** Whole executions *)

(** What is given to an execution: well-formed data, and a stack and a gas limit that
    together stay below [2 ^ 61]. *)
Record sound_input (code : Cell) (data : option Cell) (c7 : option (list value)) (gas : Gas) (stk : stack) (cfg : ExecutionConfig) : Prop := {
  in_code : cell_ok code;
  in_data : opt_ok cell_ok data;
  in_c7 : opt_ok (values_ok capture_bound) c7;
  in_stack : values_ok capture_bound stk;
  in_libraries : Forall (opt_ok cell_ok) (ec_Libraries cfg);
  in_remaining : 0 <= g_Remaining gas <= g_Base gas;
  in_max : 0 <= g_Max gas < 2 ^ 63;
  in_bound : 40 + len stk + g_Base gas <= capture_bound
}.

(** Iterations that are enough: one for every five units of the most gas there can be. *)
Definition execution_fuel (gas : Gas) : nat := S (Z.to_nat ((Z.max (g_Base gas) (g_Max gas) - (g_Base gas - g_Remaining gas)) / 5)).

Section executions.
Context `{MeteredLookup}.
Context (code : Cell) (data : option Cell) (c7 : option (list value)) (gas : Gas) (stk : stack) (cfg : ExecutionConfig) (prepared : PreparedBlockchainConfig).
Context (Hin : sound_input code data c7 gas stk cfg) (Hcfg : ec_Config cfg = Some prepared) (Hv : 4 <= pc_version prepared <= MaxSupportedGlobalVersion).
Context (Hhist : Validate (ec_Historical cfg) (pc_version prepared) = Ok tt).

Abbreviation options resolve := (mkOptions (ec_Historical cfg) false (pc_maxVMDataDepth prepared) (Some (dryRunLibraryLoadLimit (Some prepared))) resolve).

Lemma initial_sound resolve : exists st,
  NewExecutionState (pc_version prepared) gas data c7 stk (ec_Libraries cfg) = Ok st /\
  good (40 + len stk) capture_bound 0 (set_options (options resolve) st) /\ st_Gas (set_options (options resolve) st) = gas /\ st_Stack (set_options (options resolve) st) = stk /\
  st_GlobalVersion (set_options (options resolve) st) = pc_version prepared.
Proof using Hin Hv.
  destruct Hin as [Hc Hd H7 Hs Hl Hr Hm Hb]. pose proof (len_nonneg stk).
  assert (He : exists e, emptyCell = Ok e /\ cell_ok e).
  { exists (finished [] []). split; [apply EndCell_builds; [|constructor]; split; [apply wf_begin|done..]|]. apply cell_ok_eq. split; [|constructor]. by destruct (newSlice_finished [] []) as (? & _). }
  destruct He as (e & Ee & He). unfold NewExecutionState. rewrite Ee. cbn [mbind outcome_bind]. eexists. split; [done|]. cbn [set_options st_Gas st_Stack st_GlobalVersion]. split; [|done].
  unfold capture_bound in *. split; cbn; [split; cbn; (done || lia)|unfold used; cbn; lia|lia|apply empty_code_ok|done| |split; [done|apply map_Forall_empty]].
  split; [|intros i; cbn; by destruct (i =? 0), (i =? 1), (i =? 2)].
  cbn. split_and!; try done; [by destruct data|]. destruct c7 as [t|]; cbn; [by apply foldr_all|done].
Qed.

Lemma started_sound K B st sl : good K B 0 st -> slice_ok sl -> good K B 0 (started sl st).
Proof using.
  clear. intros Hg Hsl. unfold started. apply (good_code _ _ _ _ sl) in Hg; [|done]. apply good_reg; [done|].
  apply live_set_C; [apply Hg| |done]. cbn [cont_ok]. split; [|done]. by cbn.
Qed.

(** The result does not depend on the bound, once it is large enough. *)
Lemma execution_result resolve :
  (c_special code = true -> shallow code) ->
  exists tvm r, machine instructions = Ok tvm /\ r <> Panic /\ forall fuel, (execution_fuel gas <= fuel)%nat ->
    executeWithConfig fuel tvm (Some code) data c7 gas (Some stk) cfg (mkOptions (ec_Historical cfg) false MaxDataDepth None (negb resolve)) = Some r.
Proof using Hin Hcfg Hv Hhist.
  intros Hsp. destruct (initial_sound (negb resolve)) as (st0 & E0 & Hg & Egas & Estk & Ever). set (st := set_options _ st0) in *.
  destruct (convert_ok _ _ st Hg code resolve (in_code _ _ _ _ _ _ Hin) Hsp) as (sl & lb & Ec & Hsl & Hlb).
  pose proof (started_sound _ _ _ sl (good_libs _ _ _ _ _ Hg Hlb) Hsl) as Hs. set (st1 := started sl (set_libs st lb)) in *.
  assert (E1 : st_Gas st1 = gas /\ st_Stack st1 = stk /\ st_GlobalVersion st1 = pc_version prepared) by (unfold st1, started; destruct st; done). destruct E1 as (Eg & Es & Ev).
  rewrite <-Es in Hs. destruct (run_safe st1 Hs ltac:(lia)) as (tvm & d & r & st' & Hm & Hd & Hr & Hrun).
  assert (Hfin : forall res err, finishExecutionResult res err <> Panic) by (intros res [e|]; [|done]; cbn; by destruct (ErrorCode e)).
  destruct (run_result r st') as [[exitCode err] st2] eqn:Er.
  exists tvm, (finishExecutionResult (executionResultFromState exitCode st2 (Some code) (r_D (st_Reg st0) 0) (r_D (st_Reg st0) 1)) err). split; [exact Hm|]. split; [apply Hfin|].
  intros fuel Hf. unfold executeWithConfig. rewrite Hcfg, Hhist. unfold executeWithOptions. rewrite E0. unfold executeState. cbn [eo_codeConversionWithoutLibraries eo_historical eo_stopOnAccept].
  fold st. rewrite negb_involutive, Ec. fold st1. destruct (Hrun fuel) as [_ Hx]; [unfold run_fuel, cap, used; rewrite Eg; exact Hf|]. rewrite Hx. reflexivity.
Qed.

Lemma execution_deep resolve fuel tvm :
  c_special code = true -> maxDepth <= Depth code -> resolve = false \/ pc_version prepared < 9 ->
  executeWithConfig fuel tvm (Some code) data c7 gas (Some stk) cfg (mkOptions (ec_Historical cfg) false MaxDataDepth None (negb resolve)) = Some Panic.
Proof using Hin Hcfg Hv Hhist.
  intros Hsp Hd Hres. destruct (initial_sound (negb resolve)) as (st0 & E0 & Hg & _ & _ & Ever). unfold executeWithConfig. rewrite Hcfg, Hhist. unfold executeWithOptions. rewrite E0.
  unfold executeState. cbn [eo_codeConversionWithoutLibraries eo_historical eo_stopOnAccept]. set (st := set_options _ st0) in *. rewrite negb_involutive. rewrite <-Ever in Hres.
  pose proof (convert_deep _ _ st Hg code resolve Hsp Hd Hres) as Hp. destruct (convertExecutionCodeCell _ _ _) as [[?|?|] ?]; done.
Qed.

(** C4: Executions end.  On well-formed input, from version 4 on and within the limits on
    stack and gas, [Execute] and [ExecuteGetMethod] return a result or an error, whatever
    the code does, within one iteration per five units of gas, and do not panic, provided
    that a special code cell has level zero and is below the depth limit.
    [ExecuteGetMethod] does panic on every special code cell at the depth limit: the cell
    that would wrap it cannot be built. *)
Theorem execution_ends :
  exists tvm, machine instructions = Ok tvm /\
    ((c_special code = true -> shallow code) ->
     exists r r', r <> Panic /\ r' <> Panic /\ forall fuel, (execution_fuel gas <= fuel)%nat ->
       Execute fuel tvm (Some code) data c7 gas (Some stk) cfg = Some r /\ ExecuteGetMethod fuel tvm (Some code) data c7 gas (Some stk) cfg = Some r') /\
    (c_special code = true -> maxDepth <= Depth code -> forall fuel, ExecuteGetMethod fuel tvm (Some code) data c7 gas (Some stk) cfg = Some Panic).
Proof using Hin Hcfg Hv Hhist.
  destruct (sound_machine 40 ltac:(lia)) as (tvm & Hm & _). exists tvm. split; [exact Hm|]. split.
  - intros Hsp. destruct (execution_result true Hsp) as (tvm1 & r & Hm1 & Hr & Hx). destruct (execution_result false Hsp) as (tvm2 & r' & Hm2 & Hr' & Hx').
    rewrite Hm in Hm1, Hm2. injection Hm1 as <-. injection Hm2 as <-. exists r, r'. split; [exact Hr|]. split; [exact Hr'|]. intros fuel Hf. split; [exact (Hx fuel Hf)|exact (Hx' fuel Hf)].
  - intros Hsp Hd fuel. exact (execution_deep false fuel tvm Hsp Hd (or_introl eq_refl)).
Qed.
End executions.

(** ** A contract *)

(** [PUSHCONT {NOP} AGAIN] with two integers on the stack, at version 14. *)
Definition loop_code : Cell := finished (uint_bits 24 0x9100EA) [].
Definition loop_stack : stack := [VInt 1; VInt 2].
Definition loop_config : ExecutionConfig := mkExecutionConfig [None; Some loop_code] (Some (mkPrepared 14 MaxDataDepth None)) modern.

Lemma loop_code_ok : cell_ok loop_code.
Proof. apply cell_ok_eq. split; [|constructor]. by destruct (newSlice_finished (uint_bits 24 0x9100EA) []) as (? & _). Qed.

Lemma loop_input : sound_input loop_code None None (GasWithLimit 1000 (Some 1000)) loop_stack loop_config.
Proof.
  split; [exact loop_code_ok|done|done| | |vm_compute; split; discriminate|vm_compute; split; [discriminate|reflexivity]|vm_compute; discriminate].
  - repeat constructor; vm_compute; discriminate.
  - constructor; [done|]. constructor; [exact loop_code_ok|constructor].
Qed.

Example execution_ends_witness :
  exists tvm, machine (@instructions no_walk) = Ok tvm /\
    ((c_special loop_code = true -> shallow loop_code) ->
     exists r r', r <> Panic /\ r' <> Panic /\ forall fuel, (201 <= fuel)%nat ->
       @Execute no_walk fuel tvm (Some loop_code) None None (GasWithLimit 1000 (Some 1000)) (Some loop_stack) loop_config = Some r /\
       @ExecuteGetMethod no_walk fuel tvm (Some loop_code) None None (GasWithLimit 1000 (Some 1000)) (Some loop_stack) loop_config = Some r') /\
    (c_special loop_code = true -> maxDepth <= Depth loop_code ->
     forall fuel, @ExecuteGetMethod no_walk fuel tvm (Some loop_code) None None (GasWithLimit 1000 (Some 1000)) (Some loop_stack) loop_config = Some Panic).
Proof.
  assert (Hn : 201%nat = execution_fuel (GasWithLimit 1000 (Some 1000))) by (vm_compute; reflexivity). rewrite Hn.
  apply (@execution_ends no_walk loop_code None None (GasWithLimit 1000 (Some 1000)) loop_stack loop_config (mkPrepared 14 MaxDataDepth None) loop_input); [reflexivity|vm_compute; split; discriminate|reflexivity].
Defined.
